(* ===== verification/_CoqProject ===== *)
-Q . S2P
Prelude.v
Bitops.v
Device.v
Trees.v
Rings.v
Connect.v
RingAlgo.v
Pat.v
Utils.v
Queue.v
Mpsc.v
Sorter.v
ProxyOp.v
Chunking.v
Proxy.v
PatCount.v
Plan.v
FinishPlan.v
CollSched.v
CollPlan.v
Fifo.v
Kernel.v
Schedule.v
P2pRounds.v
P2pSched.v
P2pPlan.v
P2pTasks.v
P2pEnds.v
UserOps.v
Reduce.v
ReduceCopy.v
ReduceRun.v
OneRank.v
Tuning.v
RegCache.v
CollReg.v
PrepTasks.v
Progress.v
Posted.v
Paths.v
