(* ===== verification/Prelude.v ===== *)
(** * A verification of VCCL

    VCCL is a fork of NCCL: a library of collective communication between GPUs.
    This development models the parts of it that are algorithms rather than
    calls to CUDA, to verbs or to the operating system, and proves the properties
    the rest of the program relies on.  All paths are below src/src/.

    ** The program and its models

    A communicator is set up once.  The hardware of a node is a graph; graph/paths.cc
    finds the best paths between its GPUs, CPUs and network ports, a search over
    these gives every node a chain of its ranks; graph/connect.cc joins the chains of all nodes into
    rings, and the nodes into two trees (graph/trees.cc); graph/rings.cc checks
    the rings.  Every rank computes its own links from the same data, so the
    answers of different ranks must fit together.  So must the order in which
    each rank sends to and receives from its peers, which init.cc derives from
    the nodes and the local ranks.

    - Paths.v: [ncclTopoSetPaths] of graph/paths.cc, the direct paths of
      [ncclTopoComputePaths], [addInterStep] and [ncclGetLocalCpu].
    - Trees.v: [ncclGetBtree], [ncclGetDtree] of graph/trees.cc.
    - Rings.v: [ncclBuildRings] of graph/rings.cc.
    - Connect.v: [ncclTopoPreset], [ncclTopoPostset] of graph/connect.cc and the
      functions they call.
    - P2pRounds.v: nodes, local ranks and [p2pSchedule] of init.cc.

    A call of a collective becomes a task.  At the end of a group enqueue.cc groups
    the tasks, chooses an algorithm and a protocol for each group, and registers
    their buffers with the transports; it then moves tasks into a plan: it divides the elements of each over channels, chooses the size of a chunk,
    records on each channel which work structs the channel's block runs and
    which operations the network proxy carries out, lays the plan out in the
    kernel arguments and writes the work structs into a fifo shared with the
    device.  The kernel (device/common.h) finds its works again.

    - Sorter.v: [ncclTaskCollSorter] of include/comm.h, which orders collective
      tasks by size.
    - PrepTasks.v: the branch of [taskAppend] for collectives, [ncclPrepareTasks] and
      [ncclTasksRegAndEnqueue], from a call to the queues of tasks and works.
    - Tuning.v: [ncclTopoGetAlgoTime] and the tables of threads and thresholds of
      [ncclTopoTuneModel] (graph/tuning.cc), the cost table, [topoGetAlgoInfo] and
      [getAlgoInfo], with times in floating point.
    - RegCache.v: the cache of registered buffers of register/register.cc.
    - CollReg.v: [ncclRegisterCollNvlsBuffers], [ncclRegisterCollBuffers] of
      register/coll_reg.cc, over the calls of the transports.
    - ProxyOp.v: the structs [ncclProxyOp] and [ncclTaskColl].
    - Chunking.v: [calcCollChunking].
    - CollSched.v, CollPlan.v: [scheduleCollTasksToPlan] and proofs about it.
    - Plan.v, FinishPlan.v: [addWorkBatchToPlan], [testBudget], [finishPlan].
    - Fifo.v: the size of the fifo (init.cc) and [waitWorkFifoAvailable].
    - Kernel.v: [uploadWork], [loadWorkBatchToShmem], [ncclKernelMain], and the
      theorem that joins the host's side and the device's.
    - Schedule.v: the loop of [scheduleCollTasksToPlan] over the tasks, and the
      theorem from the tasks to the works the device runs.
    - P2pSched.v: the branch of [taskAppend] for sends and receives,
      [addP2pToPlan], [scheduleP2pTasksToPlan] and register/sendrecv_reg.cc; the
      proofs are in P2pPlan.v (one transfer), P2pTasks.v (the rounds over all
      tasks) and P2pEnds.v (connections, and the two ends of a transfer).
    - Device.v: the arithmetic of include/device.h that host and device share.

    A reduction is given as a built-in operator or as a handle made by the user;
    the arguments of a call are checked (misc/argcheck.cc) and enqueue.cc turns
    the operator into a function of the device and its argument.  On the device
    the threads of a group copy and reduce buffers pack by pack.

    - UserOps.v: [ncclRedOpCreatePreMulSum], [ncclRedOpDestroy], [ArgsCheck] and
      [hostToDevRedOp].
    - Reduce.v: the reductions of device/reduce_kernel.h on integers, with the
      operations on four bytes in a register.
    - ReduceCopy.v: [reduceCopy] of device/common_kernel.h: which thread handles
      which packs, and the threads' loads and stores as a step relation;
      ReduceRun.v: proofs about every interleaving.
    - OneRank.v: the kernel of device/onerank.cu.

    The proxy thread is fed through a pool of linked operations (proxy.cc).  It moves
    them into queues of its own, one for each place the connections append at, and
    calls the transports for the first operation of each until it is done; the slots
    of the pool go back to the threads that filled them.  For registered buffers it asks an object of include/collectives.h for the
    address of each step.  The PAT kernels take their steps from a generator in
    the same header.

    - Proxy.v: [ncclProxySaveOp], [ncclLocalOpAppend], [ncclProxyPost].
    - Progress.v: [ProxyAppend], [progressOps] and [removeOp], over the linked
      structure of the progress thread.
    - Posted.v: [ncclProxyGetPostedOps] and the loop of [ncclProxyProgress].
    - RingAlgo.v: [RingARAlgorithm], [RingAGAlgorithm], [RingBCAlgorithm].
    - Pat.v: [PatRSAlgorithm], [PatAGAlgorithm]; PatCount.v: [ncclProxySaveOp] counts
      their steps without error.

    Shared by all: Bitops.v (include/bitops.h), Queue.v and Mpsc.v (intrusive
    queues and the memory pool of include/utils.h), Utils.v (misc/utils.cc), and
    this file, with the outcomes of C++ code, loops, arrays and integers.

    ** How code is modelled

    A function returns an [outcome]: a value, an [ncclResult_t] the caller sees,
    or [Stuck], which stands for leaving the defined behaviour of the language
    (an index out of bounds, a bad shift, a division by zero, signed overflow
    where it is modelled) and for running out of fuel.  [wp m Q] says that [m]
    returns a value satisfying [Q]; it excludes errors, undefined behaviour and
    exhausted fuel, so it also states termination.  State is passed explicitly;
    the multi-producer queue and the threads of [reduceCopy] are step relations.  Unsigned integers are reduced
    to their width with [u8], [u32] and [u64]; [int] arithmetic that the code
    could overflow goes through [arith].  Arrays are lists accessed with [zget]
    and [zset].

    Fuel is given only where a loop is not structurally bounded, and the theorems
    show that it is enough: the halving loops of [calcCollChunking] take 32 steps
    for a 32-bit size; the search of the cut in [ncclLocalOpAppend] walks at most
    the pool, as does a batch of [ncclProxyGetPostedOps], and a pass of [progressOps] or
    the walk to the end of its list at most the elements; a search of
    [ncclTopoSetPaths] has at most as many levels as there are nodes; the kernel's walk over batches takes the number of batches; the PAT
    generators take any fuel above a bound computed from the size and the number
    of ranks; to count the steps of a schedule [ncclProxySaveOp] is given the fuel
    [enough] of PatCount.v.  [scheduleP2pTasksToPlan] takes one pass over the rounds per task; a
    count of channels doubles or halves at most 32 times; the quadratic loops of
    the schedule take a power of two of steps; a thread's loop over packs takes at
    most one iteration per byte; the channel and thread loops of [topoGetAlgoInfo] take
    at most the channels they start with, and the aggregates of a bin are at most its
    tasks.

    ** What is proved

    - Topology: the paths found in a node are the widest of the shortest permitted
      routes; the trees are trees of logarithmic depth and complementary, the
      rings are single cycles on every channel and copy, links of different ranks
      agree.
    - Preparation: by its arguments a call is discarded, refused, launched at once on a
      single rank, or adds one task with its bytes, and the list of streams is kept;
      the choice of an algorithm is the first of the fastest of the cost table, on the
      tables of threads [ncclTopoTuneModel] makes; the tasks of a group are cut into
      aggregates, and every task is queued once, by constraints, with the choice made for
      its aggregate and a work struct built from it, or the call fails with the error of
      the first aggregate that has no choice; registration changes nothing else of a
      task, and the cache of registered ranges refines a finite map.
    - Launch: chunk sizes and step counts are in range for every algorithm and
      registration, exactly where the connection buffer holds a grain of the protocol;
      tasks of every kind (divided over channels, reduced in the network, registered,
      PAT) are placed completely and ask for exactly the proxy operations the inquiry
      wants; batches decode to the
      works added; the layout and the proxy order of a plan are right; room in the fifo
      is granted only after a poll shows that the tracked channels have read it; every
      block of a kernel runs exactly the works of its channel.
    - Point-to-point: the schedules of all ranks pair up, round by round; every
      task is taken once and in order and its parts are on the channels that were
      marked for connection; both ends of a transfer choose the same round,
      protocol, chunk size and parts.
    - Proxy: the pool refines a list and never splits a group of operations; send
      and receive proxies are paired along a ring; the progress thread takes the
      operations in order and in batches that end between groups, gives every slot
      back, and finishes the operations of a connection in the order in which they
      were appended.
    - Ring algorithms: sender and receiver agree on every step and the steps tile
      the data.  PAT: the schedule ends, stays within its buffers and stops every
      worker.
    - Reductions: the handles of user operators refine a finite map; built-in
      operators mean the same on host and device; reductions of packs work
      element by element; [reduceCopy] gives the reduction of its sources in every
      interleaving of its threads.
    - Containers: the queues refine lists, also under every interleaving; the
      memory pool is a free list.
    - Helpers: round trips of strings, bus identifiers and the 8-bit floating
      point format, injectivity of the hash on words.

    Conditions that several theorems share: a scheduled task ([task_wf] of CollPlan.v)
    has connected channels, chunks that hold a grain and sizes that fit their types,
    buffers registered as [ncclRegisterCollBuffers] does it, and for PAT at most 2^15
    ranks, since the order of the distances of the all-gather generator is checked by
    computation up to that size; tuning ([tune_ok] of Tuning.v) is for several ranks
    and products that fit an [int], which lemma [tune_tables_ok] shows of the default
    thresholds while channels times ranks are below 2^19.

    Some theorems state behaviour that departs from what the code says or means to
    do: [waitWorkFifoAvailable_unstarted], [choose_workFifoBytes_kept],
    [oneRank_elements], [calcCollChunking_bounds] (its first case), [commDeregister_device], [collnet_support_of_bin] and
    [cleanup_out_of_order].

    ** Not modelled

    The transports, bootstrap, initialisation, the detection of the hardware and the
    search for rings and trees over its paths, the tables of
    bandwidths and latencies of [ncclTopoTuneModel], the reliability service, plugins
    and the wrappers of CUDA, nvml, verbs and gdrcopy are input/output or constants
    measured on hardware; a tuner plugin and the calls of the transports that map and
    pin memory are parameters.  The device's primitives, which exchange buffers with
    other devices, depend on its memory model and are left out, as are reductions of
    floating point numbers and multimem addresses.  Of the proxy the
    service thread and the progress functions of the transports are left out; the
    latter are a parameter of the progress thread.  Log lines, traces and profiler events are left
    out everywhere.  Of initialisation only the nodes, the p2p schedule and the fifo
    are modelled, and of the launch of a plan the upload of its works. *)

(** * Prelude: outcomes, loops, arrays and integers *)

From Stdlib Require Export ZArith Lia Sorted.
From stdpp Require Export base tactics numbers option sets list.

#[global] Open Scope Z_scope.
#[global] Set Default Goal Selector "!".

(** ** Outcomes of C++ code

    A run of a function ends in a value, in an [ncclResult_t] error code that
    the caller sees, or is [Stuck]: it left the defined behaviour of the
    language (an array access out of bounds, a shift by a negative amount, a
    division by zero, a null dereference) or did not finish within the fuel of
    a loop.  Theorems of the form [wp m Q] exclude the last two. *)
Inductive ncclResult_t :=
  | ncclSuccess | ncclUnhandledCudaError | ncclSystemError | ncclInternalError
  | ncclInvalidArgument | ncclInvalidUsage | ncclRemoteError | ncclInProgress.

#[global] Instance ncclResult_eq_dec : EqDecision ncclResult_t.
Proof. solve_decision. Defined.

Inductive outcome (A : Type) :=
  | Ret (a : A)
  | Fail (e : ncclResult_t)
  | Stuck.
Arguments Ret {A} a.
Arguments Fail {A} e.
Arguments Stuck {A}.

#[global] Instance outcome_ret : MRet outcome := fun A a => Ret a.
#[global] Instance outcome_bind : MBind outcome := fun A B f m =>
  match m with Ret a => f a | Fail e => Fail e | Stuck => Stuck end.
#[global] Instance outcome_fmap : FMap outcome := fun A B f m =>
  match m with Ret a => Ret (f a) | Fail e => Fail e | Stuck => Stuck end.

(** [wpx m Q E]: [m] is defined, its value satisfies [Q] or its error [E]. *)
Definition wpx {A} (m : outcome A) (Q : A -> Prop) (E : ncclResult_t -> Prop) : Prop :=
  match m with Ret a => Q a | Fail e => E e | Stuck => False end.

(** [wp m Q]: [m] returns a value, and the value satisfies [Q]. *)
Abbreviation wp m Q := (wpx m Q (fun _ => False)).

Lemma wpx_ret {A} (a : A) Q E : Q a -> wpx (mret a) Q E.
Proof. done. Qed.

Lemma wpx_bind {A B} (m : outcome A) (f : A -> outcome B) Q E :
  wpx m (fun a => wpx (f a) Q E) E -> wpx (m ≫= f) Q E.
Proof. destruct m; done. Qed.

Lemma wpx_mono {A} (m : outcome A) (Q Q' : A -> Prop) (E E' : ncclResult_t -> Prop) :
  wpx m Q E -> (forall a, Q a -> Q' a) -> (forall e, E e -> E' e) -> wpx m Q' E'.
Proof. destruct m; simpl; naive_solver. Qed.

Lemma wp_elim {A} (m : outcome A) Q : wp m Q -> exists a, m = Ret a /\ Q a.
Proof. destruct m; simpl; naive_solver. Qed.

Lemma wp_intro {A} (m : outcome A) (Q : A -> Prop) a : m = Ret a -> Q a -> wp m Q.
Proof. by intros ->. Qed.

Lemma wp_conj {A} (m : outcome A) (P Q : A -> Prop) :
  wp m P -> wp m Q -> wp m (fun a => P a /\ Q a).
Proof. destruct m; simpl; naive_solver. Qed.

(** [require b]: stuck unless the condition holds. *)
Definition require (b : bool) : outcome unit := if b then Ret () else Stuck.

Lemma wpx_require (b : bool) Q E : b = true -> Q tt -> wpx (require b) Q E.
Proof. by intros ->. Qed.

(** ** Arrays indexed by [Z] *)
Definition zget {A} (l : list A) (i : Z) : outcome A :=
  if i <? 0 then Stuck else
  match l !! Z.to_nat i with Some x => Ret x | None => Stuck end.

Definition zset {A} (l : list A) (i : Z) (x : A) : outcome (list A) :=
  if (i <? 0) || (Z.of_nat (length l) <=? i) then Stuck
  else Ret (<[Z.to_nat i := x]> l).

(** The total reading of an array used in specifications. *)
Definition znth (l : list Z) (i : Z) : Z := nth (Z.to_nat i) l (-1).

Lemma wpx_zget {A} (l : list A) i Q E :
  (exists x, 0 <= i /\ l !! Z.to_nat i = Some x /\ Q x) -> wpx (zget l i) Q E.
Proof.
  intros (x & Hi & Hl & HQ). unfold zget.
  destruct (Z.ltb_spec i 0); [lia|]. by rewrite Hl.
Qed.

Lemma wpx_zset {A} (l : list A) i x Q E :
  0 <= i < Z.of_nat (length l) -> Q (<[Z.to_nat i := x]> l) -> wpx (zset l i x) Q E.
Proof.
  intros Hi HQ. unfold zset.
  destruct (Z.ltb_spec i 0); [lia|]. destruct (Z.leb_spec (Z.of_nat (length l)) i); [lia|done].
Qed.

Lemma zget_Ret {A} (l : list A) i x :
  zget l i = Ret x <-> 0 <= i /\ l !! Z.to_nat i = Some x.
Proof.
  unfold zget. destruct (Z.ltb_spec i 0); [naive_solver lia|].
  destruct (l !! Z.to_nat i); naive_solver.
Qed.

Lemma zget_in_bounds {A} (l : list A) i :
  0 <= i < Z.of_nat (length l) -> exists x, zget l i = Ret x /\ l !! Z.to_nat i = Some x.
Proof.
  intros Hi. destruct (lookup_lt_is_Some_2 l (Z.to_nat i)) as [x Hx]; [lia|].
  exists x. split; [|done]. apply zget_Ret. split; [lia|done].
Qed.

Lemma zget_znth (l : list Z) i :
  0 <= i < Z.of_nat (length l) -> zget l i = Ret (znth l i).
Proof.
  intros Hi. destruct (zget_in_bounds l i Hi) as (x & -> & Hx).
  f_equal. unfold znth. symmetry. by apply nth_lookup_Some with (d := -1) in Hx.
Qed.

Lemma zset_Ret {A} (l : list A) i x :
  0 <= i < Z.of_nat (length l) -> zset l i x = Ret (<[Z.to_nat i := x]> l).
Proof.
  intros Hi. unfold zset.
  destruct (Z.ltb_spec i 0); [lia|]. destruct (Z.leb_spec (Z.of_nat (length l)) i); [lia|done].
Qed.

Lemma znth_insert (l : list Z) i j x :
  0 <= i < Z.of_nat (length l) -> 0 <= j ->
  znth (<[Z.to_nat i := x]> l) j = if i =? j then x else znth l j.
Proof.
  intros Hi Hj. unfold znth. rewrite !nth_lookup.
  destruct (Z.eqb_spec i j) as [->|Hne].
  - by rewrite list_lookup_insert_eq by lia.
  - by rewrite list_lookup_insert_ne by lia.
Qed.

(** ** Loops *)

(** [for (i = lo; i < lo + n; i++) s = body(i, s)] *)
Fixpoint for_n {S} (n : nat) (i : Z) (body : Z -> S -> outcome S) (s : S) : outcome S :=
  match n with
  | O => Ret s
  | S n => s' ← body i s; for_n n (i + 1) body s'
  end.

Definition for_range {S} (lo hi : Z) (body : Z -> S -> outcome S) (s : S) : outcome S :=
  for_n (Z.to_nat (hi - lo)) lo body s.

(** The loop rule: an invariant indexed by the counter. *)
Lemma wpx_for_n {S} (I : Z -> S -> Prop) n i body (s : S) E :
  I i s ->
  (forall k t, i <= k < i + Z.of_nat n -> I k t -> wpx (body k t) (I (k + 1)) E) ->
  wpx (for_n n i body s) (I (i + Z.of_nat n)) E.
Proof.
  revert i s. induction n as [|n IH]; intros i s HI Hstep; simpl.
  - by rewrite Z.add_0_r.
  - apply wpx_bind. eapply wpx_mono; [apply Hstep; [lia|done]| |done].
    intros t Ht. replace (i + Z.of_nat (Datatypes.S n)) with (i + 1 + Z.of_nat n) by lia.
    apply IH; [done|]. intros k u Hk. apply Hstep. lia.
Qed.

Lemma wpx_for {S} (I : Z -> S -> Prop) lo hi body (s : S) Q E :
  lo <= hi ->
  I lo s ->
  (forall k t, lo <= k < hi -> I k t -> wpx (body k t) (I (k + 1)) E) ->
  (forall t, I hi t -> Q t) ->
  wpx (for_range lo hi body s) Q E.
Proof.
  intros Hle HI Hstep Hend. unfold for_range.
  eapply wpx_mono; [apply (wpx_for_n I); [done|]| |done].
  - intros k t Hk. apply Hstep. lia.
  - intros t. replace (lo + Z.of_nat (Z.to_nat (hi - lo))) with hi by lia. apply Hend.
Qed.

Lemma for_range_empty {S} lo hi body (s : S) : hi <= lo -> for_range lo hi body s = Ret s.
Proof. intros. unfold for_range. by replace (Z.to_nat (hi - lo)) with 0%nat by lia. Qed.

Lemma for_range_step {S} lo hi body (s : S) :
  lo < hi -> for_range lo hi body s = (body lo s ≫= for_range (lo + 1) hi body).
Proof.
  intros. unfold for_range.
  replace (Z.to_nat (hi - lo)) with (Datatypes.S (Z.to_nat (hi - (lo + 1)))) by lia. done.
Qed.

(** [while (cond(s)) s = body(s)], cut off after [fuel] iterations. *)
Fixpoint while_fuel {S} (fuel : nat) (cond : S -> bool) (body : S -> outcome S) (s : S) : outcome S :=
  if cond s then
    match fuel with
    | O => Stuck
    | S fuel => s' ← body s; while_fuel fuel cond body s'
    end
  else Ret s.

Lemma wpx_while {S} (I : S -> Prop) (m : S -> nat) cond body fuel (s : S) Q E :
  I s -> (m s < fuel)%nat ->
  (forall t, I t -> cond t = true -> wpx (body t) (fun u => I u /\ (m u < m t)%nat) E) ->
  (forall t, I t -> cond t = false -> Q t) ->
  wpx (while_fuel fuel cond body s) Q E.
Proof.
  intros HI Hm Hstep Hend. revert s HI Hm. induction fuel as [|fuel IH]; intros s HI Hm; [lia|].
  simpl. destruct (cond s) eqn:Hc; [|by apply Hend].
  apply wpx_bind. eapply wpx_mono; [by apply Hstep| |done].
  intros u [Hu Hlt]. apply IH; [done|lia].
Qed.

(** ** Fixed-width integers *)
Definition u8 (z : Z) : Z := z mod 2 ^ 8.
Definition u32 (z : Z) : Z := z mod 2 ^ 32.
Definition u64 (z : Z) : Z := z mod 2 ^ 64.
Definition INT_MAX : Z := 2 ^ 31 - 1.
Definition in_i32 (z : Z) : Prop := - 2 ^ 31 <= z < 2 ^ 31.

(** A C++ integer type: its width in bits and whether it is signed. *)
Record ity := ITy { ity_width : Z; ity_signed : bool }.
Definition int32 : ity := ITy 32 true.
Definition uint32 : ity := ITy 32 false.
Definition int64 : ity := ITy 64 true.
Definition uint64 : ity := ITy 64 false.
Definition int8 : ity := ITy 8 true.
Definition uint8 : ity := ITy 8 false.
Definition int16 : ity := ITy 16 true.
Definition uint16 : ity := ITy 16 false.

Definition in_range (t : ity) (z : Z) : Prop :=
  if ity_signed t then - 2 ^ (ity_width t - 1) <= z < 2 ^ (ity_width t - 1)
  else 0 <= z < 2 ^ ity_width t.

#[global] Instance in_range_dec t z : Decision (in_range t z).
Proof. unfold in_range. destruct (ity_signed t); apply _. Defined.

(** Conversion to a type: reduction modulo [2^width] (two's complement). *)
Definition conv (t : ity) (z : Z) : Z :=
  if ity_signed t
  then (z + 2 ^ (ity_width t - 1)) mod 2 ^ ity_width t - 2 ^ (ity_width t - 1)
  else z mod 2 ^ ity_width t.

(** The result of an arithmetic operation at type [t]: unsigned arithmetic
    wraps, signed overflow is undefined. *)
Definition arith (t : ity) (z : Z) : outcome Z :=
  if ity_signed t then (if decide (in_range t z) then Ret z else Stuck) else Ret (conv t z).

Lemma arith_in_range t z : in_range t z -> arith t z = Ret z.
Proof.
  intros H. unfold arith. destruct (ity_signed t) eqn:E; [by rewrite decide_True|].
  unfold in_range, conv in *. rewrite E in *. by rewrite Z.mod_small.
Qed.

(** ** Automation *)
Create HintDb vccl discriminated.
#[export] Hint Resolve wpx_ret : vccl.

(** Case analysis on every boolean comparison of [Z] in sight. *)
Ltac zcases :=
  repeat match goal with
  | |- context [?a <? ?b] => destruct (Z.ltb_spec a b)
  | |- context [?a <=? ?b] => destruct (Z.leb_spec a b)
  | |- context [?a =? ?b] => destruct (Z.eqb_spec a b)
  | |- context [?a >=? ?b] => rewrite (Z.geb_leb a b)
  | |- context [?a >? ?b] => rewrite (Z.gtb_ltb a b)
  | H : context [?a <? ?b] |- _ => destruct (Z.ltb_spec a b)
  | H : context [?a <=? ?b] |- _ => destruct (Z.leb_spec a b)
  | H : context [?a =? ?b] |- _ => destruct (Z.eqb_spec a b)
  | H : context [?a >=? ?b] |- _ => rewrite (Z.geb_leb a b) in H
  | H : context [?a >? ?b] |- _ => rewrite (Z.gtb_ltb a b) in H
  end; simpl in *.

(** Linear arithmetic with division and modulo made into equations. *)
Ltac dlia := Z.div_mod_to_equations; lia.
Ltac dnia := Z.div_mod_to_equations; nia.

(** One bind at a time in a weakest-precondition goal. *)
Ltac wp_bind := apply wpx_bind.

(** ** Generic lemmas on integers *)
Lemma quot_div_nonneg a b : 0 <= a -> 0 < b -> a `quot` b = a / b.
Proof. intros. apply Z.quot_div_nonneg; lia. Qed.

Lemma rem_mod_nonneg a b : 0 <= a -> 0 < b -> a `rem` b = a mod b.
Proof. intros. apply Z.rem_mod_nonneg; lia. Qed.

Lemma pow2_pos n : 0 <= n -> 0 < 2 ^ n.
Proof. intros. apply Z.pow_pos_nonneg; lia. Qed.

Lemma testbit_high x n i : 0 <= x < 2 ^ n -> n <= i -> Z.testbit x i = false.
Proof.
  intros Hx Hi. destruct (Z.eq_dec x 0) as [->|]; [apply Z.testbit_0_l|].
  apply Z.bits_above_log2; [lia|].
  apply Z.lt_le_trans with n; [|done]. apply Z.log2_lt_pow2; lia.
Qed.

Lemma lt_pow2_bits x n :
  0 <= n -> 0 <= x -> (forall i, n <= i -> Z.testbit x i = false) -> x < 2 ^ n.
Proof.
  intros Hn Hx Hb. destruct (Z.eq_dec x 0) as [->|]; [by apply pow2_pos|].
  apply Z.log2_lt_pow2; [lia|].
  destruct (Z.lt_ge_cases (Z.log2 x) n) as [|Hge]; [done|].
  specialize (Hb _ Hge). rewrite Z.bit_log2 in Hb; [done|lia].
Qed.

(** ** Filtering *)
Lemma filter_ext_in {A} (P Q : A -> Prop) `{!forall x, Decision (P x), !forall x, Decision (Q x)} (l : list A) :
  (forall x, x ∈ l -> P x <-> Q x) -> filter P l = filter Q l.
Proof.
  induction l as [|x l IH]; intros HP; [done|]. rewrite !filter_cons, IH by (intros y Hy; apply HP; by constructor).
  pose proof (HP x (list_elem_of_here x l)). repeat case_decide; naive_solver.
Qed.

Lemma filter_none {A} (P : A -> Prop) `{!forall x, Decision (P x)} (l : list A) : (forall x, x ∈ l -> ~ P x) -> filter P l = [].
Proof.
  induction l as [|x l IH]; intros HP; [done|]. rewrite filter_cons, decide_False by (apply HP; constructor).
  apply IH. intros y Hy. apply HP. by constructor.
Qed.

Lemma filter_fmap_comm {A B} (f : A -> B) (P : B -> Prop) `{!forall x, Decision (P x)} (l : list A) :
  filter P (f <$> l) = f <$> filter (fun x => P (f x)) l.
Proof.
  induction l as [|x l IH]; [done|]. rewrite fmap_cons, !filter_cons, IH. by destruct (decide (P (f x))).
Qed.

(** ** Finite case analysis on an index *)
Lemma forall_seqZ (P : Z -> Prop) n :
  Forall P (seqZ 0 n) -> forall i, 0 <= i < n -> P i.
Proof. intros H i Hi. rewrite Forall_forall in H. apply H. apply elem_of_seqZ. lia. Qed.

(** [enum n tac]: prove [forall i, 0 <= i < n -> P i] for a literal [n]. *)
Ltac enum tac :=
  apply forall_seqZ;
  match goal with |- Forall _ ?l => let l' := eval vm_compute in l in change l with l' end;
  repeat (apply List.Forall_cons; [tac|]); apply List.Forall_nil.

(** Bits of numeral constants are computed. *)
Ltac const_bits :=
  repeat match goal with
  | |- context [Z.testbit (Zpos ?p) ?k] =>
      let v := eval vm_compute in (Z.testbit (Zpos p) k) in
      match v with true => idtac | false => idtac end;
      change (Z.testbit (Zpos p) k) with v
  end.
