(* ===== verification/Bitops.v ===== *)
(** * Bit operations (src/src/include/bitops.h)

    Rounding, bit counting, logarithms, bit reversal, the 8-bit floating-point
    encoding of chunk sizes and the 128-bit-state hash.  Integers are [Z];
    a definition whose template parameter is an integer type takes the type
    ([ity]) and reduces its argument to that type's width.  Shifts outside the
    width of their operand are [Stuck]. *)
From S2P Require Import Prelude.

(** ** Rounding *)

(** The mathematical results; [divUp_t] and [roundUp_t] below compute them at a
    machine type. *)
Definition divUp (x y : Z) : Z := (x + y - 1) `quot` y.
Definition roundUp (x y : Z) : Z := (x + y - 1) - (x + y - 1) `rem` y.
Definition roundDown (x y : Z) : Z := x - x `rem` y.
Definition DIVUP (x y : Z) : Z := (x + y - 1) `quot` y.
Definition ROUNDUP (x y : Z) : Z := DIVUP x y * y.
Definition ALIGN_POWER (x y : Z) : Z :=
  if x >? y then ROUNDUP x y else y `quot` (y `quot` x).
Definition ALIGN_SIZE (size align : Z) : Z := ((size + align - 1) `quot` align) * align.

(** [divUp]/[roundUp] instantiated at a type: every intermediate result is an
    arithmetic operation of that type. *)
Definition divUp_t (t : ity) (x y : Z) : outcome Z :=
  a ← arith t (x + y); b ← arith t (a - 1);
  _ ← require (negb (y =? 0)); arith t (b `quot` y).
Definition roundUp_t (t : ity) (x y : Z) : outcome Z :=
  a ← arith t (x + y); b ← arith t (a - 1);
  _ ← require (negb (y =? 0)); arith t (b - b `rem` y).

(** The second argument is a power of two; [Z(-a)] is the mask. *)
Definition alignUp (x a : Z) : Z := Z.land (x + a - 1) (- a).
Definition alignDown (x a : Z) : Z := Z.land x (- a).

(** ** Counting and locating bits *)

Fixpoint pos_popcount (p : positive) : Z :=
  match p with
  | xH => 1
  | xO q => pos_popcount q
  | xI q => 1 + pos_popcount q
  end.
Definition popcount (z : Z) : Z :=
  match z with Zpos p => pos_popcount p | _ => 0 end.

Fixpoint pos_ctz (p : positive) : Z :=
  match p with xO q => 1 + pos_ctz q | _ => 0 end.
(** [__builtin_ffs] on the unsigned image of its argument. *)
Definition ffs (z : Z) : Z :=
  match z with Zpos p => pos_ctz p + 1 | _ => 0 end.

(** [__builtin_clz] at width [w] on a nonzero unsigned value. *)
Definition clz (w z : Z) : Z := w - 1 - Z.log2 z.

(** The width of the builtin chosen by the [sizeof] tests. *)
Definition builtin_width (t : ity) : Z := if ity_width t <=? 32 then 32 else 64.
Definition builtin_arg (t : ity) (x : Z) : Z := x mod 2 ^ builtin_width t.

Definition countOneBits (t : ity) (x : Z) : Z := popcount (builtin_arg t x).

Definition firstOneBit (t : ity) (mask : Z) : Z := ffs (builtin_arg t mask) - 1.

(** Returns the new [*mask] and the index. *)
Definition popFirstOneBit (t : ity) (mask : Z) : Z * Z :=
  (conv t (Z.land mask (mask - 1)), firstOneBit t mask).

Definition log2Down (t : ity) (x : Z) : Z :=
  if x =? 0 then -1
  else (builtin_width t - 1) - clz (builtin_width t) (builtin_arg t x).

Definition log2Up (t : ity) (x : Z) : Z :=
  let x := if negb (x =? 0) then conv t (x - 1) else x in
  if x =? 0 then 0
  else builtin_width t - clz (builtin_width t) (builtin_arg t x).

(** [Int(1) << n]: the operand is promoted to at least [int]. *)
Definition one_shl (t : ity) (n : Z) : outcome Z :=
  if (n <? 0) || (builtin_width t <=? n) then Stuck else Ret (conv t (Z.shiftl 1 n)).

Definition pow2Up (t : ity) (x : Z) : outcome Z := one_shl t (log2Up t x).
Definition pow2Down (t : ity) (x : Z) : outcome Z := one_shl t (log2Down t x).

(** ** Bit reversal *)

(** [__builtin_bswap16/32/64] *)
Definition bswap (w x : Z) : Z :=
  foldr (fun k acc => Z.lor (Z.shiftl (Z.land (Z.shiftr x (8 * k)) 255) (w - 8 - 8 * k)) acc)
    0 (seqZ 0 (w `quot` 8)).

(** The template recursion over [nSubBits]; 8 levels cover 64 bits. *)
Fixpoint reverseSubBits_go (fuel : nat) (w nSubBits x : Z) : Z :=
  match fuel with
  | O => x
  | S fuel =>
    if (16 <=? nSubBits) && (w =? nSubBits) then reverseSubBits_go fuel w 8 (bswap w x)
    else if nSubBits =? 1 then x
    else
      let h := nSubBits `quot` 2 in
      let m := (2 ^ w - 1) `quot` (2 ^ h + 1) in
      let x := Z.lor (Z.shiftl (Z.land x m) h mod 2 ^ w)
                     (Z.shiftr (Z.land x (2 ^ w - 1 - m)) h) in
      reverseSubBits_go fuel w h x
  end.
Definition reverseSubBits (w nSubBits x : Z) : Z := reverseSubBits_go 8 w nSubBits x.

(** The host path of [reverseBits]. *)
Definition reverseBits (t : ity) (x nBits : Z) : outcome Z :=
  let w := ity_width t in
  let ux := reverseSubBits w w (x mod 2 ^ w) in
  if nBits =? 0 then Ret (conv t 0)
  else if (w - nBits <? 0) || (w <=? w - nBits) then Stuck
  else Ret (conv t (Z.shiftr ux (w - nBits))).

(** ** Custom 8-bit floating point for chunk sizes *)

Definition u32fpEncode (x bitsPerPow2 : Z) : Z :=
  let log2x := 31 - clz 32 (Z.lor x 1) in
  let mantissa :=
    Z.land (Z.shiftr x (if log2x >=? bitsPerPow2 then log2x - bitsPerPow2 else 0))
           (u32 (Z.shiftl 1 bitsPerPow2 - 1)) in
  let exponent := u32 (if log2x >=? bitsPerPow2 then log2x - (bitsPerPow2 - 1) else 0) in
  Z.lor (u32 (Z.shiftl exponent bitsPerPow2)) mantissa.

Definition u32fpDecode (x bitsPerPow2 : Z) : outcome Z :=
  let exponent := Z.shiftr x bitsPerPow2 in
  let mantissa := Z.lor (Z.land x (u32 (Z.shiftl 1 bitsPerPow2 - 1)))
                        (if negb (exponent =? 0) then 8 else 0) in
  let exponent := if negb (exponent =? 0) then exponent - 1 else exponent in
  if 32 <=? exponent then Stuck else Ret (u32 (Z.shiftl mantissa exponent)).

Definition u32fp8MaxValue : Z := 0xf0000000.
Definition u32fp8Encode (x : Z) : Z := u8 (u32fpEncode x 3).
Definition u32fp8Decode (x : Z) : outcome Z := u32fpDecode x 3.

(** ** Hash *)

(** [memcpy] of at most 8 bytes into a zeroed little-endian word. *)
Fixpoint le_word (bytes : list Z) : Z :=
  match bytes with
  | [] => 0
  | b :: bs => b + 256 * le_word bs
  end.

(** Mixing of the accumulator bits at the top of the loop. *)
Definition hash_mix (acc : Z * Z) : Z * Z :=
  let '(a0, a1) := acc in
  let a0 := u64 (a0 + a1) in
  let a1 := Z.lxor a1 a0 in
  let a0 := Z.lxor a0 (Z.shiftr a0 31) in
  let a0 := u64 (a0 * 0x9de62bbc8cef3ce3) in
  let a1 := Z.lxor a1 (Z.shiftr a1 32) in
  let a1 := u64 (a1 * 0x485cd6311b599e79) in
  (a0, a1).

Fixpoint eatHash_loop (fuel : nat) (acc : Z * Z) (bytes : list Z) : Z * Z :=
  match fuel with
  | O => acc
  | S fuel =>
    match bytes with
    | [] => acc
    | _ =>
      let '(a0, a1) := hash_mix acc in
      let x := le_word (take 8 bytes) in
      eatHash_loop fuel (u64 (a0 + x), a1) (drop 8 bytes)
    end
  end.

Definition eatHash (acc : Z * Z) (bytes : list Z) : Z * Z :=
  eatHash_loop (S (length bytes)) (Z.lxor acc.1 (Z.of_nat (length bytes)), acc.2) bytes.

Definition digestHash (acc : Z * Z) : Z :=
  let h := acc.1 in
  let h := Z.lxor h (Z.shiftr h 31) in
  let h := u64 (h * 0xbac3bd562846de6b) in
  let h := u64 (h + acc.2) in
  let h := Z.lxor h (Z.shiftr h 32) in
  u64 (h * 0x995a187a14e7b445).

Definition getHash (bytes : list Z) : Z := digestHash (eatHash (1, 1) bytes).

(** ** Rounding lemmas *)

Lemma divUp_div x y : 0 <= x -> 0 < y -> divUp x y = (x + y - 1) / y.
Proof. intros. unfold divUp. apply quot_div_nonneg; lia. Qed.

(** [divUp] is the ceiling of [x/y]. *)
Lemma divUp_spec x y : 0 <= x -> 0 < y ->
  0 <= divUp x y /\ (divUp x y - 1) * y < x <= divUp x y * y.
Proof. intros. rewrite divUp_div by lia. dnia. Qed.

Lemma divUp_le_mono x x' y : 0 <= x <= x' -> 0 < y -> divUp x y <= divUp x' y.
Proof. intros. rewrite !divUp_div by lia. apply Z.div_le_mono; lia. Qed.

Lemma divUp_pos x y : 0 < x -> 0 < y -> 0 < divUp x y.
Proof. intros. pose proof (divUp_spec x y). nia. Qed.

Lemma roundUp_spec x y : 0 <= x -> 0 < y ->
  roundUp x y = divUp x y * y /\ x <= roundUp x y < x + y.
Proof.
  intros. unfold roundUp. rewrite divUp_div by lia. rewrite rem_mod_nonneg by lia. dnia.
Qed.

Lemma divUp_t_nowrap t x y :
  0 <= x -> 0 < y -> in_range t (x + y) -> divUp_t t x y = Ret (divUp x y).
Proof.
  intros Hx Hy Hr. unfold divUp_t. rewrite arith_in_range by done. simpl.
  assert (in_range t (x + y - 1)) as H1.
  { unfold in_range in *. destruct (ity_signed t); lia. }
  rewrite (arith_in_range _ _ H1). simpl. destruct (Z.eqb_spec y 0); [lia|]. simpl.
  apply arith_in_range. pose proof (divUp_spec x y Hx Hy).
  change ((x + y - 1) `quot` y) with (divUp x y).
  unfold in_range in *. destruct (ity_signed t); nia.
Qed.

(** Alignment to a power of two is rounding. *)
Lemma land_opp_pow2 x k : 0 <= k -> Z.land x (- 2 ^ k) = x - x mod 2 ^ k.
Proof.
  intros Hk.
  replace (- 2 ^ k) with (Z.lnot (Z.ones k)).
  2: { rewrite Z.ones_equiv. unfold Z.lnot. lia. }
  rewrite <- Z.ldiff_land. rewrite Z.ldiff_ones_r by done.
  rewrite Z.shiftr_div_pow2, Z.shiftl_mul_pow2 by done.
  pose proof (pow2_pos k Hk). dnia.
Qed.

Lemma alignUp_spec x k : 0 <= k ->
  (2 ^ k | alignUp x (2 ^ k)) /\ x <= alignUp x (2 ^ k) < x + 2 ^ k.
Proof.
  intros Hk. unfold alignUp. rewrite land_opp_pow2 by done.
  pose proof (pow2_pos k Hk). split.
  - exists ((x + 2 ^ k - 1) / 2 ^ k). dnia.
  - dnia.
Qed.

Lemma alignUp_mul x k : 0 <= k -> alignUp x (2 ^ k) = (x + 2 ^ k - 1) / 2 ^ k * 2 ^ k.
Proof.
  intros Hk. unfold alignUp. rewrite land_opp_pow2 by done.
  pose proof (pow2_pos k Hk). dnia.
Qed.

Lemma alignDown_spec x k : 0 <= k ->
  (2 ^ k | alignDown x (2 ^ k)) /\ x - 2 ^ k < alignDown x (2 ^ k) <= x.
Proof.
  intros Hk. unfold alignDown. rewrite land_opp_pow2 by done.
  pose proof (pow2_pos k Hk). split; [exists (x / 2 ^ k)|]; dnia.
Qed.

(** ** Logarithms *)

Lemma builtin_arg_id t x : 0 <= x < 2 ^ builtin_width t -> builtin_arg t x = x.
Proof. intros. by apply Z.mod_small. Qed.

Lemma log2Down_log2 t x : 0 < x < 2 ^ builtin_width t -> log2Down t x = Z.log2 x.
Proof.
  intros H. unfold log2Down, clz. destruct (Z.eqb_spec x 0); [lia|].
  rewrite builtin_arg_id by lia. lia.
Qed.

Lemma log2Up_log2_up t x :
  0 < x < 2 ^ builtin_width t -> conv t (x - 1) = x - 1 -> log2Up t x = Z.log2_up x.
Proof.
  intros H Hc. unfold log2Up, clz. destruct (Z.eqb_spec x 0); [lia|]. cbn [negb]. rewrite Hc.
  destruct (Z.eqb_spec (x - 1) 0).
  - replace x with 1 by lia. done.
  - rewrite builtin_arg_id by lia. rewrite Z.log2_up_eqn by lia.
    replace (Z.pred x) with (x - 1) by lia. lia.
Qed.

Lemma conv_in_range t z : 0 < ity_width t -> in_range t z -> conv t z = z.
Proof.
  intros Hw. unfold in_range, conv. destruct (ity_signed t); intros H.
  - replace (2 ^ ity_width t) with (2 * 2 ^ (ity_width t - 1)) in *.
    2: { rewrite <- Z.pow_succ_r by lia. f_equal. lia. }
    rewrite Z.mod_small by lia. lia.
  - by apply Z.mod_small.
Qed.

(** ** Set bits *)

Lemma pos_ctz_nonneg p : 0 <= pos_ctz p.
Proof. induction p; simpl; lia. Qed.

Lemma pos_ctz_bit p : Z.testbit (Zpos p) (pos_ctz p) = true.
Proof.
  induction p as [p IH|p IH|]; cbn [pos_ctz]; [done| |done].
  pose proof (pos_ctz_nonneg p). rewrite (Pos2Z.inj_xO p).
  replace (1 + pos_ctz p) with (Z.succ (pos_ctz p)) by lia.
  by rewrite Z.testbit_even_succ by lia.
Qed.

Lemma pos_ctz_low p i : 0 <= i < pos_ctz p -> Z.testbit (Zpos p) i = false.
Proof.
  revert i. induction p as [p IH|p IH|]; cbn [pos_ctz]; intros i Hi; [lia| |lia].
  rewrite (Pos2Z.inj_xO p). destruct (Z.eq_dec i 0) as [->|]; [apply Z.testbit_even_0|].
  replace i with (Z.succ (i - 1)) by lia. rewrite Z.testbit_even_succ by lia. apply IH. lia.
Qed.

(** Clearing the lowest set bit. *)
Lemma land_pred_bits x i :
  0 < x -> 0 <= i ->
  Z.testbit (Z.land x (x - 1)) i = (Z.testbit x i && negb (i =? ffs x - 1)).
Proof.
  intros Hx Hi. destruct x as [|p|p]; try lia. cbn [ffs].
  replace (pos_ctz p + 1 - 1) with (pos_ctz p) by lia.
  revert i Hi. clear Hx. induction p as [p IH|p IH|]; intros i Hi.
  - cbn [pos_ctz]. rewrite Z.land_spec, (Pos2Z.inj_xI p).
    replace (2 * Z.pos p + 1 - 1) with (2 * Z.pos p) by lia.
    destruct (Z.eqb_spec i 0) as [->|].
    + rewrite Z.testbit_even_0. by rewrite !andb_false_r.
    + replace i with (Z.succ (i - 1)) by lia.
      rewrite Z.testbit_even_succ, Z.testbit_odd_succ by lia.
      rewrite andb_diag. by rewrite andb_true_r.
  - cbn [pos_ctz]. rewrite Z.land_spec, (Pos2Z.inj_xO p).
    replace (2 * Z.pos p - 1) with (2 * (Z.pos p - 1) + 1) by lia.
    destruct (Z.eq_dec i 0) as [->|].
    + by rewrite Z.testbit_even_0.
    + replace i with (Z.succ (i - 1)) by lia.
      rewrite Z.testbit_even_succ, Z.testbit_odd_succ by lia.
      rewrite <- Z.land_spec, IH by lia. f_equal. f_equal.
      destruct (Z.eqb_spec (i - 1) (pos_ctz p)), (Z.eqb_spec (Z.succ (i - 1)) (1 + pos_ctz p)); lia || done.
  - simpl. destruct (Z.eqb_spec i 0) as [->|]; [done|].
    rewrite andb_true_r. rewrite Z.testbit_0_l. symmetry. apply (testbit_high 1 1); lia.
Qed.

Lemma ffs_spec x :
  0 < x -> 0 <= ffs x - 1 /\ Z.testbit x (ffs x - 1) = true /\
  (forall j, 0 <= j < ffs x - 1 -> Z.testbit x j = false).
Proof.
  intros Hx. destruct x as [|p|p]; try lia. cbn [ffs].
  replace (pos_ctz p + 1 - 1) with (pos_ctz p) by lia.
  split; [apply pos_ctz_nonneg|]. split; [apply pos_ctz_bit|]. apply pos_ctz_low.
Qed.

(** The loop [while (mask) { c = popFirstOneBit(&mask); ... }] over a 64-bit
    mask: the bits it visits. *)
Fixpoint popAll (fuel : nat) (mask : Z) : list Z :=
  match fuel with
  | O => []
  | S fuel =>
    if mask =? 0 then []
    else let '(mask', c) := popFirstOneBit uint64 mask in c :: popAll fuel mask'
  end.

Lemma land_le_r a b : 0 <= b -> 0 <= Z.land a b <= b.
Proof.
  intros Hb. split; [apply Z.land_nonneg; lia|].
  assert (Z.ldiff b a = b - Z.land a b) as Hl.
  { rewrite (Z.sub_nocarry_ldiff b (Z.land a b)); apply Z.bits_inj'; intros n Hn;
      rewrite ?Z.ldiff_spec, ?Z.land_spec, ?Z.testbit_0_l;
      by destruct (Z.testbit a n), (Z.testbit b n). }
  assert (0 <= Z.ldiff b a) by (apply Z.ldiff_nonneg; lia). lia.
Qed.

Lemma popFirstOneBit_u64 mask :
  0 < mask < 2 ^ 64 ->
  popFirstOneBit uint64 mask = (Z.land mask (mask - 1), ffs mask - 1) /\
  0 <= Z.land mask (mask - 1) < mask.
Proof.
  intros Hm. pose proof (land_le_r mask (mask - 1) ltac:(lia)).
  unfold popFirstOneBit, firstOneBit, builtin_arg, conv. cbn [ity_signed uint64 ity_width builtin_width].
  change (2 ^ builtin_width uint64) with (2 ^ 64).
  rewrite !Z.mod_small by lia. split; [done|lia].
Qed.

(** The number of set bits bounds the number of iterations. *)
Lemma popcount_land_pred x : 0 < x -> popcount (Z.land x (x - 1)) = popcount x - 1.
Proof.
  destruct x as [|p|p]; try lia. intros _. induction p as [p IH|p IH|]; [| |done].
  - rewrite (Pos2Z.inj_xI p). replace (2 * Z.pos p + 1 - 1) with (2 * Z.pos p) by lia.
    replace (Z.land (2 * Z.pos p + 1) (2 * Z.pos p)) with (2 * Z.pos p); [simpl; lia|].
    symmetry. apply Z.bits_inj'. intros n Hn. rewrite Z.land_spec.
    destruct (Z.eq_dec n 0) as [->|]; [by rewrite Z.testbit_even_0, andb_false_r|].
    replace n with (Z.succ (n - 1)) by lia.
    rewrite Z.testbit_even_succ, Z.testbit_odd_succ by lia. apply andb_diag.
  - rewrite (Pos2Z.inj_xO p). replace (2 * Z.pos p - 1) with (2 * (Z.pos p - 1) + 1) by lia.
    replace (Z.land (2 * Z.pos p) (2 * (Z.pos p - 1) + 1))
      with (2 * Z.land (Z.pos p) (Z.pos p - 1)).
    + assert (forall z, 0 <= z -> popcount (2 * z) = popcount z) as Hd by by intros [|q|q].
      pose proof (land_le_r (Z.pos p) (Z.pos p - 1) ltac:(lia)).
      rewrite Hd by lia. rewrite IH. done.
    + apply Z.bits_inj'. intros n Hn. rewrite Z.land_spec.
      destruct (Z.eq_dec n 0) as [->|]; [by rewrite !Z.testbit_even_0|].
      replace n with (Z.succ (n - 1)) by lia.
      rewrite !Z.testbit_even_succ, Z.testbit_odd_succ by lia. by rewrite Z.land_spec.
Qed.

Lemma popcount_nonneg x : 0 <= popcount x.
Proof. destruct x as [|p|p]; simpl; try lia. induction p; simpl; lia. Qed.

Lemma pos_popcount_pos p : 0 < pos_popcount p.
Proof. induction p; simpl; lia. Qed.

Lemma popAll_elem fuel mask c :
  0 <= mask < 2 ^ 64 -> popcount mask <= Z.of_nat fuel ->
  c ∈ popAll fuel mask <-> (0 <= c /\ Z.testbit mask c = true).
Proof.
  revert mask. induction fuel as [|fuel IH]; intros mask Hm Hp.
  - assert (mask = 0) as -> by (destruct mask as [|p|p]; [done| |lia];
      pose proof (pos_popcount_pos p); simpl in Hp; lia).
    simpl. rewrite Z.testbit_0_l, elem_of_nil. naive_solver.
  - cbn [popAll]. destruct (Z.eqb_spec mask 0) as [->|].
    { rewrite Z.testbit_0_l, elem_of_nil. naive_solver. }
    destruct (popFirstOneBit_u64 mask ltac:(lia)) as [-> Hlt].
    destruct (ffs_spec mask ltac:(lia)) as (Hf0 & Hf1 & _).
    rewrite elem_of_cons, IH; [|lia|rewrite popcount_land_pred by lia; lia].
    split.
    + intros [->|[Hc Hb]]; [done|]. rewrite land_pred_bits in Hb by lia.
      apply andb_true_iff in Hb. naive_solver.
    + intros [Hc Hb]. destruct (Z.eq_dec c (ffs mask - 1)); [by left|right].
      split; [done|]. rewrite land_pred_bits by lia. rewrite Hb.
      by destruct (Z.eqb_spec c (ffs mask - 1)).
Qed.

Lemma popAll_sorted fuel mask :
  0 <= mask < 2 ^ 64 -> popcount mask <= Z.of_nat fuel -> StronglySorted Z.lt (popAll fuel mask).
Proof.
  revert mask. induction fuel as [|fuel IH]; intros mask Hm Hp; cbn [popAll]; [constructor|].
  destruct (Z.eqb_spec mask 0) as [->|]; [constructor|].
  destruct (popFirstOneBit_u64 mask ltac:(lia)) as [-> Hlt].
  assert (popcount (Z.land mask (mask - 1)) <= Z.of_nat fuel) by
    (rewrite popcount_land_pred by lia; lia).
  constructor; [apply IH; lia|]. rewrite Forall_forall. intros c Hc.
  apply popAll_elem in Hc as [Hc Hb]; [|lia|done].
  rewrite land_pred_bits in Hb by lia. apply andb_true_iff in Hb as [Hb Hn].
  destruct (ffs_spec mask ltac:(lia)) as (Hf0 & Hf1 & Hf2).
  destruct (Z.eqb_spec c (ffs mask - 1)); [done|].
  destruct (Z.lt_ge_cases c (ffs mask - 1)); [|lia]. by rewrite Hf2 in Hb by lia.
Qed.

(** ** Bit reversal *)

Lemma reverse_stage_bits w h m x i :
  0 <= h -> 0 <= i < w ->
  Z.testbit (Z.lor (Z.shiftl (Z.land x m) h mod 2 ^ w)
                   (Z.shiftr (Z.land x (2 ^ w - 1 - m)) h)) i
  = (Z.testbit x (i - h) && Z.testbit m (i - h))
    || (Z.testbit x (i + h) && Z.testbit (2 ^ w - 1 - m) (i + h)).
Proof.
  intros Hh Hi. rewrite Z.lor_spec, Z.mod_pow2_bits_low by lia.
  rewrite Z.shiftl_spec, Z.shiftr_spec, !Z.land_spec by lia. done.
Qed.

(** Where bit [i] of a stage that swaps blocks of [h] bits comes from. *)
Definition swap_index (h i : Z) : Z := if Z.even (i / h) then i + h else i - h.

Lemma reverse_stage32 h x i :
  h = 4 \/ h = 2 \/ h = 1 -> 0 <= i < 32 ->
  Z.testbit (Z.lor (Z.shiftl (Z.land x ((2 ^ 32 - 1) `quot` (2 ^ h + 1))) h mod 2 ^ 32)
                   (Z.shiftr (Z.land x (2 ^ 32 - 1 - (2 ^ 32 - 1) `quot` (2 ^ h + 1))) h)) i
  = Z.testbit x (swap_index h i).
Proof.
  intros Hh Hi. rewrite reverse_stage_bits by lia. revert i Hi.
  destruct Hh as [->|[-> | ->]];
  match goal with |- context [?m `quot` ?d] =>
    let v := eval vm_compute in (m `quot` d) in change (m `quot` d) with v end;
  match goal with |- context [2 ^ 32 - 1 - ?m] =>
    let v := eval vm_compute in (2 ^ 32 - 1 - m) in change (2 ^ 32 - 1 - m) with v end;
  enum ltac:(const_bits; cbn -[Z.testbit]; rewrite ?andb_false_r, ?andb_true_r, ?orb_false_r; try reflexivity).
Qed.

Lemma bswap32_bits x i :
  0 <= i < 32 -> Z.testbit (bswap 32 x) i = Z.testbit x (24 - 8 * (i / 8) + i mod 8).
Proof.
  unfold bswap. change (seqZ 0 (32 `quot` 8)) with [0; 1; 2; 3]. cbn [foldr].
  intros Hi. rewrite !Z.lor_spec, !Z.shiftl_spec, !Z.land_spec by lia. revert i Hi.
  enum ltac:(const_bits; cbn -[Z.testbit Z.shiftr];
    rewrite ?andb_false_r, ?andb_true_r, ?orb_false_r, ?Z.testbit_0_l;
    rewrite ?Z.shiftr_spec by lia; try reflexivity).
Qed.

Lemma reverseSubBits32_bits x i :
  0 <= i < 32 -> Z.testbit (reverseSubBits 32 32 x) i = Z.testbit x (31 - i).
Proof.
  intros Hi. unfold reverseSubBits.
  set (y := bswap 32 x).
  change (reverseSubBits_go 8 32 32 x) with (reverseSubBits_go 7 32 8 y).
  cbn [reverseSubBits_go].
  change ((16 <=? 8) && (32 =? 8)) with false. change (8 =? 1) with false.
  change (8 `quot` 2) with 4. change ((16 <=? 4) && (32 =? 4)) with false. change (4 =? 1) with false.
  change (4 `quot` 2) with 2. change ((16 <=? 2) && (32 =? 2)) with false. change (2 =? 1) with false.
  change (2 `quot` 2) with 1. change ((16 <=? 1) && (32 =? 1)) with false. change (1 =? 1) with true.
  cbv iota beta zeta.
  rewrite reverse_stage32 by lia.
  assert (forall h k, (h = 4 \/ h = 2 \/ h = 1) -> 0 <= k < 32 -> 0 <= swap_index h k < 32) as Hs.
  { intros h k [->|[-> | ->]]; revert k; enum ltac:(vm_compute; split; congruence). }
  rewrite reverse_stage32 by (try apply Hs; lia).
  rewrite reverse_stage32 by (repeat apply Hs; lia).
  unfold y. rewrite bswap32_bits by (repeat apply Hs; lia). f_equal.
  revert i Hi. enum ltac:(reflexivity).
Qed.

Lemma reverseSubBits32_range x : 0 <= reverseSubBits 32 32 x < 2 ^ 32.
Proof.
  assert (forall h m y, 0 <= h -> 0 <= m < 2 ^ 32 ->
    0 <= Z.lor (Z.shiftl (Z.land y m) h mod 2 ^ 32)
               (Z.shiftr (Z.land y (2 ^ 32 - 1 - m)) h) < 2 ^ 32) as Hst.
  { intros h m y Hh Hm. pose proof (Z.mod_pos_bound (Z.shiftl (Z.land y m) h) (2 ^ 32) ltac:(lia)) as Hb.
    pose proof (land_le_r y (2 ^ 32 - 1 - m) ltac:(lia)) as Hl.
    assert (0 <= Z.shiftr (Z.land y (2 ^ 32 - 1 - m)) h < 2 ^ 32) as Hr.
    { rewrite Z.shiftr_div_pow2 by lia. pose proof (pow2_pos h Hh). split; [apply Z.div_pos; lia|].
      apply Z.div_lt_upper_bound; nia. }
    split; [apply Z.lor_nonneg; lia|]. apply lt_pow2_bits; [lia|apply Z.lor_nonneg; lia|].
    intros i Hi. rewrite Z.lor_spec, (testbit_high _ 32), (testbit_high _ 32) by lia. done. }
  apply (Hst 1 ((2 ^ 32 - 1) `quot` 3)); [lia|]. vm_compute. split; congruence.
Qed.

Lemma reverseBits_spec x n :
  0 <= n <= 31 -> 0 <= x < 2 ^ 32 ->
  exists y, reverseBits int32 x n = Ret y /\ 0 <= y < 2 ^ n /\
    forall i, 0 <= i < n -> Z.testbit y i = Z.testbit x (n - 1 - i).
Proof.
  intros Hn Hx. unfold reverseBits. cbn [ity_width int32].
  destruct (Z.eqb_spec n 0) as [->|].
  { exists 0. split; [done|]. split; [done|]. intros; lia. }
  destruct (Z.ltb_spec (32 - n) 0); [lia|]. destruct (Z.leb_spec 32 (32 - n)); [lia|]. simpl orb.
  rewrite Z.mod_small by done. set (r := reverseSubBits 32 32 x).
  pose proof (reverseSubBits32_range x) as Hr. fold r in Hr.
  assert (0 <= Z.shiftr r (32 - n) < 2 ^ n) as Hy.
  { rewrite Z.shiftr_div_pow2 by lia. split; [apply Z.div_pos; [lia|apply pow2_pos; lia]|].
    apply Z.div_lt_upper_bound; [apply pow2_pos; lia|].
    rewrite <- Z.pow_add_r by lia. replace (32 - n + n) with 32 by lia. lia. }
  exists (Z.shiftr r (32 - n)). split.
  - f_equal. apply conv_in_range; [simpl; lia|]. unfold in_range. simpl.
    assert (2 ^ n <= 2 ^ 31) by (apply Z.pow_le_mono_r; lia). lia.
  - split; [done|]. intros i Hi. rewrite Z.shiftr_spec by lia. unfold r.
    rewrite reverseSubBits32_bits by lia. f_equal. lia.
Qed.

Lemma reverseBits_involutive x n y :
  0 <= n <= 31 -> 0 <= x < 2 ^ n ->
  reverseBits int32 x n = Ret y -> reverseBits int32 y n = Ret x.
Proof.
  intros Hn Hx Hy.
  assert (2 ^ n <= 2 ^ 31) by (apply Z.pow_le_mono_r; lia).
  destruct (reverseBits_spec x n Hn ltac:(lia)) as (y' & Hy' & Hr & Hb).
  rewrite Hy in Hy'. injection Hy' as <-.
  destruct (reverseBits_spec y n Hn ltac:(lia)) as (x' & Hx' & Hr' & Hb').
  rewrite Hx'. f_equal. apply Z.bits_inj'. intros i Hi.
  destruct (Z.lt_ge_cases i n).
  - rewrite Hb', Hb by lia. f_equal. lia.
  - by rewrite !(testbit_high _ n) by lia.
Qed.

(** ** The 8-bit floating-point format *)

Lemma lor_shiftl_add a m k : 0 <= k -> 0 <= m < 2 ^ k -> Z.lor (Z.shiftl a k) m = a * 2 ^ k + m.
Proof.
  intros Hk Hm. rewrite <- Z.shiftl_mul_pow2 by done. symmetry. apply Z.add_nocarry_lor.
  apply Z.bits_inj'. intros i Hi. rewrite Z.land_spec, Z.testbit_0_l, Z.shiftl_spec by done.
  destruct (Z.lt_ge_cases i k).
  - by rewrite Z.testbit_neg_r by lia.
  - rewrite (testbit_high m k) by lia. apply andb_false_r.
Qed.

Lemma land7 x : Z.land x 7 = x mod 8.
Proof. change 7 with (Z.ones 3). by rewrite Z.land_ones. Qed.

Lemma log2_lor1 x : 0 < x -> Z.log2 (Z.lor x 1) = Z.log2 x.
Proof.
  intros. rewrite Z.log2_lor by lia. pose proof (Z.log2_nonneg x). simpl. lia.
Qed.

(** Decoding a pair of fields. *)
Lemma u32fp8Decode_fields e m :
  0 <= m < 8 -> 0 < e <= 29 ->
  u32fp8Decode (e * 8 + m) = Ret ((m + 8) * 2 ^ (e - 1)).
Proof.
  intros Hm He. unfold u32fp8Decode, u32fpDecode.
  change (u32 (Z.shiftl 1 3 - 1)) with 7. rewrite land7, Z.shiftr_div_pow2 by lia.
  change (2 ^ 3) with 8. replace ((e * 8 + m) / 8) with e by dlia.
  replace ((e * 8 + m) mod 8) with m by dlia.
  destruct (Z.eqb_spec e 0); [lia|]. cbn [negb]. destruct (Z.leb_spec 32 (e - 1)); [lia|].
  replace (Z.lor m 8) with (m + 8).
  2: { rewrite Z.lor_comm. pose proof (lor_shiftl_add 1 m 3 ltac:(lia) ltac:(done)) as Hl.
       change (Z.shiftl 1 3) with 8 in Hl. rewrite Hl. lia. }
  rewrite Z.shiftl_mul_pow2 by lia. f_equal. apply Z.mod_small.
  assert (2 ^ (e - 1) <= 2 ^ 28) by (apply Z.pow_le_mono_r; lia).
  pose proof (pow2_pos (e - 1) ltac:(lia)). nia.
Qed.

(** Encoding of a value whose leading one is at least bit 3. *)
Lemma u32fp8Encode_fields x :
  8 <= x < 2 ^ 32 ->
  let s := Z.log2 x - 3 in
  0 <= s <= 28 /\ 8 <= x / 2 ^ s < 16 /\ u32fp8Encode x = (s + 1) * 8 + (x / 2 ^ s - 8).
Proof.
  intros Hx s.
  assert (3 <= Z.log2 x <= 31) as HL.
  { split; [change 3 with (Z.log2 8); apply Z.log2_le_mono; lia|].
    assert (Z.log2 x < 32) by (apply Z.log2_lt_pow2; lia). lia. }
  pose proof (Z.log2_spec x ltac:(lia)) as Hsp.
  assert (0 < 2 ^ s) by (apply pow2_pos; lia).
  assert (8 * 2 ^ s = 2 ^ Z.log2 x) as H8.
  { change 8 with (2 ^ 3). rewrite <- Z.pow_add_r by lia. f_equal. lia. }
  assert (16 * 2 ^ s = 2 ^ Z.succ (Z.log2 x)) as H16.
  { rewrite Z.pow_succ_r by lia. lia. }
  assert (8 <= x / 2 ^ s < 16) as Hq.
  { split; [apply Z.div_le_lower_bound; lia|apply Z.div_lt_upper_bound; lia]. }
  split; [lia|]. split; [done|].
  unfold u32fp8Encode, u32fpEncode, clz. rewrite log2_lor1 by lia.
  replace (31 - (32 - 1 - Z.log2 x)) with (Z.log2 x) by lia.
  rewrite Z.geb_leb. destruct (Z.leb_spec 3 (Z.log2 x)); [|lia].
  change (u32 (Z.shiftl 1 3 - 1)) with 7. rewrite land7. fold s.
  rewrite Z.shiftr_div_pow2 by lia.
  replace ((x / 2 ^ s) mod 8) with (x / 2 ^ s - 8) by dlia.
  unfold u32. rewrite (Z.mod_small (Z.log2 x - (3 - 1))) by lia.
  assert (Z.shiftl (Z.log2 x - (3 - 1)) 3 mod 2 ^ 32 = Z.shiftl (s + 1) 3) as ->.
  { rewrite !Z.shiftl_mul_pow2 by lia. rewrite Z.mod_small by lia. f_equal. lia. }
  rewrite lor_shiftl_add by lia. unfold u8. rewrite Z.mod_small; lia.
Qed.

Lemma u32fp8_small x : 0 <= x < 8 -> u32fp8Encode x = x /\ u32fp8Decode x = Ret x.
Proof. revert x. enum ltac:(split; reflexivity). Qed.

(** What survives encoding: the leading one and the three bits below it. *)
Definition u32fp8_floor (x : Z) : Z :=
  if x <? 8 then x else x / 2 ^ (Z.log2 x - 3) * 2 ^ (Z.log2 x - 3).

Lemma u32fp8_decode_encode x :
  0 <= x < 2 ^ 32 -> u32fp8Decode (u32fp8Encode x) = Ret (u32fp8_floor x).
Proof.
  intros Hx. unfold u32fp8_floor. destruct (Z.ltb_spec x 8).
  { destruct (u32fp8_small x ltac:(lia)) as [-> ->]. done. }
  destruct (u32fp8Encode_fields x ltac:(lia)) as (Hs & Hq & ->).
  set (s := Z.log2 x - 3) in *. rewrite u32fp8Decode_fields by lia. f_equal. f_equal; [lia|].
  f_equal. lia.
Qed.

(** Chunk sizes survive the 8-bit encoding with a relative error below 1/8:
    for every 32-bit size, decoding the encoding is defined and gives a value
    that is at most the size and misses it by less than an eighth; a size with
    at most four significant bits comes back unchanged. *)
Theorem u32fp8_roundtrip x :
  0 <= x < 2 ^ 32 ->
  exists y, u32fp8Decode (u32fp8Encode x) = Ret y /\ 0 <= y <= x /\ 8 * (x - y) <= x /\
    ((2 ^ (Z.log2 x - 3) | x) -> y = x).
Proof.
  intros Hx. exists (u32fp8_floor x). split; [by apply u32fp8_decode_encode|].
  unfold u32fp8_floor. destruct (Z.ltb_spec x 8); [repeat split; try lia; done|].
  destruct (u32fp8Encode_fields x ltac:(lia)) as (Hs & Hq & _).
  set (s := Z.log2 x - 3) in *. pose proof (pow2_pos s ltac:(lia)).
  pose proof (Z.div_mod x (2 ^ s) ltac:(lia)). pose proof (Z.mod_pos_bound x (2 ^ s) ltac:(lia)).
  repeat split; try nia. intros [k Hk]. rewrite Hk, Z.div_mul by lia. done.
Qed.

Lemma u32fp8_roundtrip_witness :
  (0 <= 1000001 < 2 ^ 32) /\
  exists y, u32fp8Decode (u32fp8Encode 1000001) = Ret y /\ 0 <= y <= 1000001 /\
    8 * (1000001 - y) <= 1000001 /\ ((2 ^ (Z.log2 1000001 - 3) | 1000001) -> y = 1000001).
Proof. split; [lia|]. apply (u32fp8_roundtrip 1000001). lia. Defined.

(** The codes up to the one of [u32fp8MaxValue] decode to distinct values and
    re-encode to themselves. *)
Lemma u32fp8_encode_decode e :
  0 <= e <= u32fp8Encode u32fp8MaxValue ->
  exists x, u32fp8Decode e = Ret x /\ u32fp8Encode x = e.
Proof.
  change (u32fp8Encode u32fp8MaxValue) with 239. intros He.
  assert (0 <= e < 240) as H by lia. clear He. revert e H.
  enum ltac:(eexists; split; reflexivity).
Qed.

(** ** The hash *)

(** Each mixing operation is invertible on 64-bit words. *)
Lemma xorshift_inj k a b :
  0 < k -> 0 <= a < 2 ^ 64 -> 0 <= b < 2 ^ 64 ->
  Z.lxor a (Z.shiftr a k) = Z.lxor b (Z.shiftr b k) -> a = b.
Proof.
  intros Hk Ha Hb Heq.
  assert (forall n i, 0 <= i -> 64 - i <= Z.of_nat n -> Z.testbit a i = Z.testbit b i) as H.
  { induction n as [|n IH]; intros i Hi Hn.
    - by rewrite !(testbit_high _ 64) by lia.
    - pose proof (f_equal (fun z => Z.testbit z i) Heq) as Hbit. cbv beta in Hbit.
      rewrite !Z.lxor_spec, !Z.shiftr_spec in Hbit by lia.
      rewrite (IH (i + k)) in Hbit by lia.
      by destruct (Z.testbit a i), (Z.testbit b i), (Z.testbit b (i + k)). }
  apply Z.bits_inj'. intros i Hi. apply (H 64%nat); lia.
Qed.

Lemma mul_odd_inj c c' a b :
  (c * c') mod 2 ^ 64 = 1 -> 0 <= a < 2 ^ 64 -> 0 <= b < 2 ^ 64 ->
  u64 (a * c) = u64 (b * c) -> a = b.
Proof.
  intros Hc Ha Hb Heq. unfold u64 in Heq.
  assert (forall x, 0 <= x < 2 ^ 64 -> ((x * c) mod 2 ^ 64 * c') mod 2 ^ 64 = x) as Hinv.
  { intros x Hx. rewrite Z.mul_mod_idemp_l by lia. rewrite <- Z.mul_assoc.
    rewrite <- Z.mul_mod_idemp_r, Hc by lia. rewrite Z.mul_1_r. by apply Z.mod_small. }
  rewrite <- (Hinv a Ha), Heq. by apply Hinv.
Qed.

Lemma add_u64_inj c a b :
  0 <= a < 2 ^ 64 -> 0 <= b < 2 ^ 64 -> u64 (a + c) = u64 (b + c) -> a = b.
Proof.
  unfold u64. intros Ha Hb Heq.
  pose proof (Z.div_mod (a + c) (2 ^ 64) ltac:(lia)). pose proof (Z.div_mod (b + c) (2 ^ 64) ltac:(lia)).
  nia.
Qed.

Lemma u64_range z : 0 <= u64 z < 2 ^ 64.
Proof. apply Z.mod_pos_bound. lia. Qed.

Lemma lxor_range a b : 0 <= a < 2 ^ 64 -> 0 <= b < 2 ^ 64 -> 0 <= Z.lxor a b < 2 ^ 64.
Proof.
  intros Ha Hb. assert (0 <= Z.lxor a b) by (apply Z.lxor_nonneg; lia). split; [done|].
  apply lt_pow2_bits; [lia|done|]. intros i Hi.
  by rewrite Z.lxor_spec, !(testbit_high _ 64) by lia.
Qed.

Lemma shiftr_range a k : 0 <= k -> 0 <= a < 2 ^ 64 -> 0 <= Z.shiftr a k < 2 ^ 64.
Proof.
  intros Hk Ha. rewrite Z.shiftr_div_pow2 by done. pose proof (pow2_pos k Hk).
  split; [apply Z.div_pos; lia|]. apply Z.div_lt_upper_bound; nia.
Qed.

#[export] Hint Resolve u64_range lxor_range shiftr_range : vccl.

Lemma digestHash_inj a b c :
  0 <= a < 2 ^ 64 -> 0 <= b < 2 ^ 64 -> 0 <= c < 2 ^ 64 ->
  digestHash (a, c) = digestHash (b, c) -> a = b.
Proof.
  intros Ha Hb Hc Heq. unfold digestHash in Heq. cbn [fst snd] in Heq.
  apply (mul_odd_inj _ 0xfb9918abf9e53e8d) in Heq;
    [|by vm_compute|apply lxor_range; [apply u64_range|apply shiftr_range; [lia|apply u64_range]]..].
  apply xorshift_inj in Heq; [|lia|apply u64_range..].
  apply add_u64_inj in Heq; [|apply u64_range..].
  apply (mul_odd_inj _ 0xd5216e0ca079de43) in Heq;
    [|by vm_compute|apply lxor_range; [done|apply shiftr_range; [lia|done]]..].
  by apply xorshift_inj in Heq.
Qed.

Definition is_byte (b : Z) : Prop := 0 <= b < 256.

Lemma le_word_range l : Forall is_byte l -> 0 <= le_word l < 2 ^ (8 * Z.of_nat (length l)).
Proof.
  induction 1 as [|b l Hb Hl IH]; [simpl; lia|]. unfold is_byte in Hb. cbn [le_word length].
  replace (8 * Z.of_nat (S (length l))) with (8 + 8 * Z.of_nat (length l)) by lia.
  rewrite Z.pow_add_r by lia. change (2 ^ 8) with 256. lia.
Qed.

Lemma le_word_inj l l' :
  length l = length l' -> Forall is_byte l -> Forall is_byte l' ->
  le_word l = le_word l' -> l = l'.
Proof.
  revert l'. induction l as [|b l IH]; intros [|b' l'] Hlen Hl Hl' Heq; try done.
  inversion Hl as [|?? Hb Hl1]; inversion Hl' as [|?? Hb' Hl1']; subst.
  unfold is_byte in *. cbn [le_word] in Heq. injection Hlen as Hlen.
  f_equal; [lia|]. apply IH; [done..|lia].
Qed.

Lemma hash_mix_range a : 0 <= (hash_mix a).1 < 2 ^ 64 /\ 0 <= (hash_mix a).2 < 2 ^ 64.
Proof. destruct a. simpl. split; apply u64_range. Qed.

(** A message of at most one word goes through the loop once. *)
Lemma eatHash_one acc bytes :
  bytes <> [] -> (length bytes <= 8)%nat ->
  eatHash acc bytes =
    let m := hash_mix (Z.lxor acc.1 (Z.of_nat (length bytes)), acc.2) in
    (u64 (m.1 + le_word bytes), m.2).
Proof.
  intros Hne Hlen. unfold eatHash. destruct bytes as [|b l]; [done|].
  cbn [eatHash_loop length]. rewrite take_ge by done. rewrite drop_ge by done.
  destruct (hash_mix _) as [a0 a1]. cbn [eatHash_loop]. by destruct (length l).
Qed.

(** [getHash] has no collisions between two keys of the same length of at
    most eight bytes (the case of a hashed pointer, index or 64-bit id): the
    mixing and the digest are injective on the words they process. *)
Theorem getHash_word_injective (k k' : list Z) :
  length k = length k' -> (length k <= 8)%nat -> Forall is_byte k -> Forall is_byte k' ->
  getHash k = getHash k' -> k = k'.
Proof.
  intros Hlen H8 Hk Hk' Heq. destruct (decide (k = [])) as [->|Hne].
  { by destruct k'. }
  assert (k' <> []) by (destruct k, k'; done).
  unfold getHash in Heq. rewrite !eatHash_one in Heq by (done || lia). rewrite <- Hlen in Heq.
  cbv zeta in Heq. set (m := hash_mix _) in Heq.
  pose proof (hash_mix_range (Z.lxor (1, 1).1 (Z.of_nat (length k)), (1, 1).2)) as [Hm1 Hm2].
  fold m in Hm1, Hm2. apply digestHash_inj in Heq; [|apply u64_range..|done].
  rewrite !(Z.add_comm m.1) in Heq.
  assert (2 ^ (8 * Z.of_nat (length k)) <= 2 ^ 64) by (apply Z.pow_le_mono_r; lia).
  pose proof (le_word_range k Hk). pose proof (le_word_range k' Hk') as Hr'. rewrite <- Hlen in Hr'.
  apply add_u64_inj in Heq; [|lia..]. by apply le_word_inj.
Qed.

Lemma getHash_word_injective_witness :
  getHash [1; 2; 3] <> getHash [1; 2; 4] /\ ([1; 2; 3] : list Z) = [1; 2; 3].
Proof.
  split; [vm_compute; congruence|].
  apply (getHash_word_injective [1; 2; 3] [1; 2; 3]); try done; try (simpl; lia);
    repeat constructor; unfold is_byte; simpl; lia.
Defined.
