(* ===== verification/Device.v ===== *)
(** * Host/device work descriptors (src/src/include/device.h, channel.h)

    The arithmetic both sides of a kernel launch must agree on: how a
    point-to-point transfer is cut into parts and which channel carries which
    part, how a collective's bytes are distributed over its channels
    (continuous-byte distribution), how large the work structs are, and which
    row of the kernel table a call selects. *)
From S2P Require Import Prelude Bitops.

(** ** Constants *)
Definition NCCL_STEPS : Z := 8.
Definition WARP_SIZE : Z := 32.
Definition MAXCHANNELS : Z := 64.
Definition NCCL_MAX_NTHREADS : Z := 640.
Definition NCCL_MIN_NTHREADS : Z := 4 * WARP_SIZE.
Definition NCCL_LL128_LINEELEMS : Z := 128 `quot` 8.
Definition NCCL_LL128_DATAELEMS : Z := NCCL_LL128_LINEELEMS - 1.
Definition NCCL_LL128_SHMEM_ELEMS_PER_THREAD : Z := 8.
Definition NCCL_MAX_TREE_ARITY : Z := 3.
Definition NCCL_MAX_DIRECT_ARITY : Z := 7.
Definition NCCL_MAX_NVLS_ARITY : Z := 32.
Definition NCCL_MAX_DEV_WORK_BATCH_BYTES : Z := 1024.
Definition NCCL_MAX_DEV_WORK_P2P_PER_BATCH : Z := 8.

(** Algorithms and protocols (nccl_common.h). *)
Definition NCCL_ALGO_TREE : Z := 0.
Definition NCCL_ALGO_RING : Z := 1.
Definition NCCL_ALGO_COLLNET_DIRECT : Z := 2.
Definition NCCL_ALGO_COLLNET_CHAIN : Z := 3.
Definition NCCL_ALGO_NVLS : Z := 4.
Definition NCCL_ALGO_NVLS_TREE : Z := 5.
Definition NCCL_ALGO_PAT : Z := 6.
Definition NCCL_NUM_PROTOCOLS : Z := 3.
Definition NCCL_PROTO_LL : Z := 0.
Definition NCCL_PROTO_LL128 : Z := 1.
Definition NCCL_PROTO_SIMPLE : Z := 2.

Inductive ncclFunc_t :=
  | ncclFuncBroadcast | ncclFuncReduce | ncclFuncAllGather | ncclFuncReduceScatter
  | ncclFuncAllReduce | ncclFuncSendRecv | ncclFuncSend | ncclFuncRecv.

#[global] Instance ncclFunc_eq_dec : EqDecision ncclFunc_t.
Proof. solve_decision. Defined.

Inductive ncclDataType_t :=
  | ncclInt8 | ncclUint8 | ncclInt32 | ncclUint32 | ncclInt64 | ncclUint64
  | ncclFloat16 | ncclFloat32 | ncclFloat64 | ncclBfloat16 | ncclFloat8e4m3 | ncclFloat8e5m2.

#[global] Instance ncclDataType_eq_dec : EqDecision ncclDataType_t.
Proof. solve_decision. Defined.

Definition datatype_index (t : ncclDataType_t) : Z :=
  match t with
  | ncclInt8 => 0 | ncclUint8 => 1 | ncclInt32 => 2 | ncclUint32 => 3 | ncclInt64 => 4
  | ncclUint64 => 5 | ncclFloat16 => 6 | ncclFloat32 => 7 | ncclFloat64 => 8
  | ncclBfloat16 => 9 | ncclFloat8e4m3 => 10 | ncclFloat8e5m2 => 11
  end.
Definition ncclNumTypes : Z := 12.

Inductive ncclDevRedOp_t :=
  | ncclDevSum | ncclDevProd | ncclDevMinMax | ncclDevPreMulSum | ncclDevSumPostDiv.

#[global] Instance ncclDevRedOp_eq_dec : EqDecision ncclDevRedOp_t.
Proof. solve_decision. Defined.

Definition redop_index (op : ncclDevRedOp_t) : Z :=
  match op with
  | ncclDevSum => 0 | ncclDevProd => 1 | ncclDevMinMax => 2 | ncclDevPreMulSum => 3
  | ncclDevSumPostDiv => 4
  end.
Definition ncclNumDevRedOps : Z := 5.

(** ** Point-to-point partitioning *)

(** [size_t] arithmetic; the result is [(partBeg, partEnd)]. *)
Definition ncclP2pPartBounds (nParts part bytes : Z) : Z * Z :=
  let partBytes := u64 (alignUp (u64 (bytes + nParts - 1) / nParts) (4 * 2 ^ 10)) in
  (Z.min (u64 ((part + 0) * partBytes)) bytes, Z.min (u64 ((part + 1) * partBytes)) bytes).

(** [uint8_t] result. *)
Definition ncclP2pChannelBaseForRound (nNodes maxLocalRanks p2pRound : Z) : Z :=
  if nNodes >? 1 then
    let nodeDelta := p2pRound `quot` maxLocalRanks in
    let localDelta := p2pRound `rem` maxLocalRanks in
    let base := nodeDelta * divUp maxLocalRanks NCCL_MAX_DEV_WORK_P2P_PER_BATCH in
    let base := base + localDelta `quot` NCCL_MAX_DEV_WORK_P2P_PER_BATCH in
    Z.land base 255
  else Z.land p2pRound 255.

(** Host side. *)
Definition ncclP2pChannelForPart (nP2pChannels base part : Z) : outcome Z :=
  let nChannelsLog2 := countOneBits int32 (nP2pChannels - 1) in
  delta ← reverseBits int32 part nChannelsLog2;
  Ret (Z.land (base + delta) (nP2pChannels - 1)).

(** [__brev] on 32 bits. *)
Definition brev (w x : Z) : Z :=
  foldr (fun i acc => Z.lor (Z.shiftl (Z.b2z (Z.testbit x i)) (w - 1 - i)) acc) 0 (seqZ 0 w).

(** The device path of [reverseBits]. *)
Definition reverseBits_device (x nBits : Z) : outcome Z :=
  let ux := brev 32 (x mod 2 ^ 32) in
  if nBits =? 0 then Ret 0
  else if (32 - nBits <? 0) || (32 <=? 32 - nBits) then Stuck
  else Ret (conv int32 (Z.shiftr ux (32 - nBits))).

(** Device side. *)
Definition ncclP2pChannelToPart (nP2pChannels base channel : Z) : outcome Z :=
  let nChannelsLog2 := countOneBits int32 (nP2pChannels - 1) in
  let delta := Z.land (channel - base) (nP2pChannels - 1) in
  reverseBits_device delta nChannelsLog2.

(** ** Collective work *)

Record ncclDevWorkColl := {
  channelLo : Z; channelHi : Z;
  countLo : Z; countMid : Z; countHi : Z;
  chunkGrainsLo : Z; chunkGrainsMid : Z; chunkGrainsHi : Z;
}.

Definition ncclProtoGrainSize (proto : Z) : Z :=
  if proto =? NCCL_PROTO_LL then 16
  else if proto =? NCCL_PROTO_LL128 then
    ((WARP_SIZE * NCCL_LL128_SHMEM_ELEMS_PER_THREAD) `quot` NCCL_LL128_LINEELEMS) * NCCL_LL128_DATAELEMS * 8
  else if proto =? NCCL_PROTO_SIMPLE then 512
  else -1.

Record cbd_part := { cp_count : Z; cp_partOffset : Z; cp_partCount : Z; cp_chunkCount : Z }.

(** [Int] is [size_t]. *)
Definition ncclCollCbdPart (work : ncclDevWorkColl) (channelId proto eltSize : Z) : cbd_part :=
  let eltPerGrain := ncclProtoGrainSize proto `quot` eltSize in
  let nMidChannels := channelHi work - channelLo work - 1 in
  let count := u64 (countLo work + countMid work * nMidChannels + countHi work) in
  if channelId =? channelLo work then
    {| cp_count := count; cp_partOffset := 0; cp_partCount := countLo work;
       cp_chunkCount := u64 (chunkGrainsLo work * eltPerGrain) |}
  else if channelId =? channelHi work then
    {| cp_count := count;
       cp_partOffset := u64 (countLo work + nMidChannels * countMid work);
       cp_partCount := countHi work;
       cp_chunkCount := u64 (chunkGrainsHi work * eltPerGrain) |}
  else
    let mid := channelId - channelLo work - 1 in
    {| cp_count := count;
       cp_partOffset := u64 (countLo work + mid * countMid work);
       cp_partCount := countMid work;
       cp_chunkCount := u64 (chunkGrainsMid work * eltPerGrain) |}.

(** ** Work structs and kernel arguments *)

Inductive ncclDevWorkType := ncclDevWorkTypeP2p | ncclDevWorkTypeColl | ncclDevWorkTypeCollReg.

#[global] Instance ncclDevWorkType_eq_dec : EqDecision ncclDevWorkType.
Proof. solve_decision. Defined.

(** [sizeof] of the 16-byte aligned structs on a 64-bit target. *)
Definition sizeof_ncclDevWorkP2p : Z := 48.
Definition sizeof_ncclDevWorkColl : Z := 96.
Definition sizeof_ncclDevWorkCollReg : Z := 96 + 3 * (NCCL_MAX_DIRECT_ARITY + 1) * 8.
Definition sizeof_ncclDevWorkBatch : Z := 16.
Definition sizeof_ncclDevKernelArgs : Z := 32.

Definition ncclDevWorkSize (type : ncclDevWorkType) : Z :=
  match type with
  | ncclDevWorkTypeP2p => sizeof_ncclDevWorkP2p
  | ncclDevWorkTypeColl => sizeof_ncclDevWorkColl
  | ncclDevWorkTypeCollReg => sizeof_ncclDevWorkCollReg
  end.

Definition ncclMaxKernelArgsSize : Z := 4 * 2 ^ 10.

(** The subtraction is in [size_t] and wraps. *)
Definition ncclDevMaxChannelsForArgsBytes (argsBytes : Z) : Z :=
  Z.min MAXCHANNELS (u64 (argsBytes - sizeof_ncclDevKernelArgs) / sizeof_ncclDevWorkBatch).

Definition ncclCalcUnroll (bytePerPack insns bytes : Z) : Z :=
  Z.min insns ((bytes + bytePerPack - 1) `quot` bytePerPack).

Definition ncclCollUnroll (cudaArch : Z) : Z :=
  if cudaArch >=? 800 then (if cudaArch =? 1200 then 6 else 8) else 4.

Definition ncclNvlsUnrollBytes (cudaArch : Z) : Z := 4 * 16.
Definition ncclNvlsUnrollInsns (cudaArch : Z) : Z := 16.
Definition ncclNvlsUnroll (bytePerPack cudaArch : Z) : Z :=
  ncclCalcUnroll bytePerPack (ncclNvlsUnrollInsns cudaArch) (ncclNvlsUnrollBytes cudaArch).

Definition ncclShmemScratchWarpSize (cudaArch : Z) : Z :=
  Z.land (Z.max (Z.max (Z.max 0 (NCCL_LL128_SHMEM_ELEMS_PER_THREAD * WARP_SIZE * 8))
                       ((ncclCollUnroll cudaArch * WARP_SIZE + 1) * 16))
                (WARP_SIZE * (if cudaArch >=? 900 then ncclNvlsUnrollBytes cudaArch else 0) + 16) + 15)
         (-16).

Definition ncclShmemDynamicSize (cudaArch : Z) : Z :=
  if cudaArch <? 700 then 0
  else ncclShmemScratchWarpSize cudaArch * (NCCL_MAX_NTHREADS `quot` WARP_SIZE).

Definition ncclNvlsSupported (devRedOp : ncclDevRedOp_t) (type : ncclDataType_t) : bool :=
  match type with
  | ncclInt32 | ncclUint32 | ncclInt64 | ncclUint64 | ncclFloat16 | ncclBfloat16 =>
      bool_decide (devRedOp = ncclDevSum) || bool_decide (devRedOp = ncclDevMinMax)
  | ncclFloat32 | ncclFloat64 => bool_decide (devRedOp = ncclDevSum)
  | _ => false
  end.

(** ** Kernel table rows *)

(** [algo1] of AllGather and ReduceScatter. *)
Definition algo1 (algo : Z) : Z :=
  if algo =? NCCL_ALGO_RING then 0
  else if algo =? NCCL_ALGO_COLLNET_DIRECT then 1
  else if algo =? NCCL_ALGO_NVLS then 2
  else 3.

(** The row computed by [ncclDevFuncId]; [NumTypes] depends on whether the
    compiler has the bfloat16 types. *)
Definition ncclDevFuncRow (NumTypes : Z) (coll : ncclFunc_t) (devRedOp type algo proto : Z) : Z :=
  let row := 0 in
  if bool_decide (coll = ncclFuncSendRecv) then row else
  let row := row + 1 in
  let nAlgos := 4 in
  if bool_decide (coll = ncclFuncAllGather) then row + (algo1 algo * NCCL_NUM_PROTOCOLS + proto) else
  let row := row + nAlgos * NCCL_NUM_PROTOCOLS in
  let nAlgos := 1 in
  if bool_decide (coll = ncclFuncBroadcast) then row + proto else
  let row := row + nAlgos * NCCL_NUM_PROTOCOLS in
  let nAlgos := 6 in
  if bool_decide (coll = ncclFuncAllReduce) then
    row + (((devRedOp * NumTypes + type) * nAlgos + algo) * NCCL_NUM_PROTOCOLS + proto) else
  let row := row + ncclNumDevRedOps * NumTypes * nAlgos * NCCL_NUM_PROTOCOLS in
  let nAlgos := 1 in
  if bool_decide (coll = ncclFuncReduce) then
    row + ((devRedOp * NumTypes + type) * NCCL_NUM_PROTOCOLS + proto) else
  let row := row + ncclNumDevRedOps * NumTypes * nAlgos * NCCL_NUM_PROTOCOLS in
  let nAlgos := 4 in
  if bool_decide (coll = ncclFuncReduceScatter) then
    row + (((devRedOp * NumTypes + type) * nAlgos + algo1 algo) * NCCL_NUM_PROTOCOLS + proto) else
  row + ncclNumDevRedOps * NumTypes * nAlgos * NCCL_NUM_PROTOCOLS.

(** [ncclDevFuncRowToId] is generated at build time. *)
Definition ncclDevFuncId (ncclDevFuncRowToId : Z -> Z) (NumTypes : Z)
    (coll : ncclFunc_t) (devRedOp type algo proto : Z) : Z :=
  ncclDevFuncRowToId (ncclDevFuncRow NumTypes coll devRedOp type algo proto).

(** ** Parts tile a transfer *)

Lemma ncclP2pPartBounds_eq nParts part bytes :
  0 < nParts -> 0 <= part < nParts -> 0 <= bytes -> 0 <= bytes + (nParts + 1) * 4096 + nParts < 2 ^ 64 ->
  let partBytes := alignUp (divUp bytes nParts) 4096 in
  0 <= partBytes /\ bytes <= nParts * partBytes /\
  ncclP2pPartBounds nParts part bytes = (Z.min (part * partBytes) bytes, Z.min ((part + 1) * partBytes) bytes).
Proof.
  intros Hn Hp Hb Hmax partBytes.
  pose proof (divUp_spec bytes nParts Hb Hn) as Hd.
  pose proof (alignUp_spec (divUp bytes nParts) 12 ltac:(lia)) as [_ Ha].
  change (2 ^ 12) with 4096 in Ha. fold partBytes in Ha.
  assert (bytes <= nParts * partBytes) by nia.
  assert (nParts * partBytes <= bytes + (nParts + 1) * 4096 + nParts) by nia.
  assert (u64 (alignUp (u64 (bytes + nParts - 1) / nParts) (4 * 2 ^ 10)) = partBytes) as Hpb.
  { unfold u64 at 2. rewrite (Z.mod_small (bytes + nParts - 1)) by lia.
    change (4 * 2 ^ 10) with 4096. rewrite <- divUp_div by lia. apply Z.mod_small. nia. }
  split; [lia|]. split; [done|]. unfold ncclP2pPartBounds. rewrite Hpb, Z.add_0_r. cbv zeta.
  unfold u64. rewrite !Z.mod_small by nia. done.
Qed.

(** The parts of a point-to-point transfer tile it: with [size_t] arithmetic
    that does not overflow, part 0 starts at 0, each part ends where the next
    begins, and the last part ends at the transfer's size. *)
Theorem ncclP2pPartBounds_tile nParts bytes :
  0 < nParts -> 0 <= bytes -> bytes + (nParts + 1) * 4096 + nParts < 2 ^ 64 ->
  (ncclP2pPartBounds nParts 0 bytes).1 = 0 /\
  (ncclP2pPartBounds nParts (nParts - 1) bytes).2 = bytes /\
  (forall part, 0 <= part < nParts ->
     (ncclP2pPartBounds nParts part bytes).1 <= (ncclP2pPartBounds nParts part bytes).2 <= bytes) /\
  (forall part, 0 <= part -> part + 1 < nParts ->
     (ncclP2pPartBounds nParts part bytes).2 = (ncclP2pPartBounds nParts (part + 1) bytes).1).
Proof.
  intros Hn Hb Hmax. pose proof (fun p H => ncclP2pPartBounds_eq nParts p bytes Hn H Hb ltac:(lia)) as Heq.
  cbv zeta in Heq. set (pb := alignUp (divUp bytes nParts) 4096) in *.
  destruct (Heq 0 ltac:(lia)) as (Hpb & Hcov & H0).
  destruct (Heq (nParts - 1) ltac:(lia)) as (_ & _ & Hlast).
  rewrite H0, Hlast. cbn [fst snd]. replace (nParts - 1 + 1) with nParts by lia.
  split; [lia|]. split; [lia|]. split.
  - intros part Hp. destruct (Heq part ltac:(lia)) as (_ & _ & ->). cbn [fst snd]. nia.
  - intros part Hp Hp1. destruct (Heq part ltac:(lia)) as (_ & _ & ->).
    destruct (Heq (part + 1) ltac:(lia)) as (_ & _ & ->). done.
Qed.

Lemma ncclP2pPartBounds_tile_witness :
  (0 < 3) /\ (ncclP2pPartBounds 3 0 20000).1 = 0 /\ (ncclP2pPartBounds 3 (3 - 1) 20000).2 = 20000.
Proof.
  split; [lia|]. destruct (ncclP2pPartBounds_tile 3 20000) as (H0 & H1 & _ & _); [lia..|].
  split; [exact H0|exact H1].
Defined.

(** ** Channels and parts *)

Lemma brev32_bits x i : 0 <= i < 32 -> Z.testbit (brev 32 x) i = Z.testbit x (31 - i).
Proof.
  intros Hi.
  assert (forall l j, 0 <= j -> (forall k, k ∈ l -> 0 <= k < 32) -> NoDup l ->
    Z.testbit (foldr (fun i acc => Z.lor (Z.shiftl (Z.b2z (Z.testbit x i)) (32 - 1 - i)) acc) 0 l) j
    = bool_decide (31 - j ∈ l) && Z.testbit x (31 - j)) as Hl.
  { induction l as [|k l IH]; intros j Hj Hk Hnd; cbn [foldr]; [by rewrite Z.testbit_0_l|].
    apply NoDup_cons in Hnd as [Hnk Hnd]. assert (0 <= k < 32) by (apply Hk; set_solver).
    rewrite Z.lor_spec, IH by (auto; set_solver). rewrite Z.shiftl_spec by lia.
    destruct (Z.eq_dec (31 - j) k) as [<-|Hne].
    - rewrite (bool_decide_eq_true_2 (31 - j ∈ 31 - j :: l)) by set_solver.
      rewrite (bool_decide_eq_false_2 (31 - j ∈ l)) by done.
      replace (j - (32 - 1 - (31 - j))) with 0 by lia. rewrite orb_false_r. simpl andb.
      by destruct (Z.testbit x (31 - j)).
    - replace (bool_decide (31 - j ∈ k :: l)) with (bool_decide (31 - j ∈ l)).
      2: { apply bool_decide_ext. set_solver. }
      replace (Z.testbit (Z.b2z (Z.testbit x k)) (j - (32 - 1 - k))) with false; [done|].
      destruct (Z.lt_ge_cases (j - (32 - 1 - k)) 0); [by rewrite Z.testbit_neg_r|].
      symmetry. apply (testbit_high _ 1); [destruct (Z.testbit x k); simpl; lia|lia]. }
  unfold brev. rewrite Hl; [|lia|intros k Hk; apply elem_of_seqZ in Hk; lia|apply NoDup_seqZ].
  rewrite bool_decide_eq_true_2; [done|]. apply elem_of_seqZ. lia.
Qed.

Lemma brev32_range x : 0 <= brev 32 x < 2 ^ 32.
Proof.
  assert (forall l, (forall k, k ∈ l -> 0 <= k < 32) ->
    0 <= foldr (fun i acc => Z.lor (Z.shiftl (Z.b2z (Z.testbit x i)) (32 - 1 - i)) acc) 0 l < 2 ^ 32) as Hl.
  { induction l as [|k l IH]; intros Hk; cbn [foldr]; [lia|].
    assert (0 <= k < 32) by (apply Hk; set_solver).
    assert (0 <= Z.shiftl (Z.b2z (Z.testbit x k)) (32 - 1 - k) < 2 ^ 32) as Hs.
    { rewrite Z.shiftl_mul_pow2 by lia. assert (2 ^ (32 - 1 - k) < 2 ^ 32) by (apply Z.pow_lt_mono_r; lia).
      pose proof (pow2_pos (32 - 1 - k) ltac:(lia)). destruct (Z.testbit x k); simpl Z.b2z; lia. }
    specialize (IH ltac:(set_solver)).
    assert (0 <= Z.lor (Z.shiftl (Z.b2z (Z.testbit x k)) (32 - 1 - k))
      (foldr (fun i acc => Z.lor (Z.shiftl (Z.b2z (Z.testbit x i)) (32 - 1 - i)) acc) 0 l)) by
      (apply Z.lor_nonneg; lia).
    split; [done|]. apply lt_pow2_bits; [lia|done|]. intros i Hi.
    by rewrite Z.lor_spec, !(testbit_high _ 32) by lia. }
  apply Hl. intros k Hk. apply elem_of_seqZ in Hk. lia.
Qed.

(** Host and device compute the same reversal. *)
Lemma reverseBits_device_host x nBits :
  reverseBits_device x nBits = reverseBits int32 x nBits.
Proof.
  unfold reverseBits_device, reverseBits. cbn [ity_width int32].
  destruct (nBits =? 0); [done|]. destruct ((32 - nBits <? 0) || (32 <=? 32 - nBits)); [done|].
  do 3 f_equal. pose proof (reverseSubBits32_range (x mod 2 ^ 32)). pose proof (brev32_range (x mod 2 ^ 32)).
  apply Z.bits_inj'. intros i Hi. destruct (Z.lt_ge_cases i 32).
  - by rewrite brev32_bits, reverseSubBits32_bits by lia.
  - by rewrite !(testbit_high _ 32) by lia.
Qed.

Lemma popcount_pred_pow2 k : 0 <= k -> popcount (2 ^ k - 1) = k.
Proof.
  intros Hk. pattern k. apply natlike_ind; [done| |done]. clear k Hk. intros k Hk IH.
  rewrite Z.pow_succ_r by done. replace (2 * 2 ^ k - 1) with (2 * (2 ^ k - 1) + 1) by lia.
  pose proof (pow2_pos k Hk). destruct (2 ^ k - 1) as [|p|p] eqn:E; [| |lia].
  - change (popcount (2 * 0 + 1)) with 1. change (popcount 0) with 0 in IH. lia.
  - change (popcount (2 * Z.pos p + 1)) with (1 + pos_popcount p).
    change (popcount (Z.pos p)) with (pos_popcount p) in IH. lia.
Qed.

Lemma countOneBits_pred_pow2 k : 0 <= k <= 30 -> countOneBits int32 (2 ^ k - 1) = k.
Proof.
  intros Hk. unfold countOneBits. pose proof (pow2_pos k ltac:(lia)).
  assert (2 ^ k <= 2 ^ 30) by (apply Z.pow_le_mono_r; lia).
  rewrite builtin_arg_id by (change (2 ^ builtin_width int32) with (2 ^ 32); lia). apply popcount_pred_pow2. lia.
Qed.

Lemma land_pred_pow2 x k : 0 <= k -> Z.land x (2 ^ k - 1) = x mod 2 ^ k.
Proof. intros. rewrite <- Z.land_ones by done. by rewrite Z.ones_equiv, Z.sub_1_r. Qed.

(** The channel of a part, with the part the device finds for it. *)
Lemma channel_of_part k base part : 0 <= k <= 30 -> 0 <= base -> 0 <= part < 2 ^ k -> exists channel,
  ncclP2pChannelForPart (2 ^ k) base part = Ret channel /\ 0 <= channel < 2 ^ k /\ ncclP2pChannelToPart (2 ^ k) base channel = Ret part.
Proof.
  intros Hk Hbase Hp. pose proof (pow2_pos k ltac:(lia)). assert (2 ^ k <= 2 ^ 30) by (apply Z.pow_le_mono_r; lia).
  unfold ncclP2pChannelForPart, ncclP2pChannelToPart. rewrite countOneBits_pred_pow2 by done.
  destruct (reverseBits_spec part k ltac:(lia) ltac:(lia)) as (d & Hd & Hr & _).
  rewrite Hd. cbn [mbind outcome_bind]. eexists. split; [done|].
  rewrite !land_pred_pow2 by lia. split; [by apply Z.mod_pos_bound|].
  rewrite reverseBits_device_host, Zminus_mod_idemp_l.
  replace (base + d - base) with d by lia. rewrite Z.mod_small by lia.
  eapply reverseBits_involutive; [lia|done|done].
Qed.

(** For a power-of-two channel count, [ncclP2pChannelForPart] (host) and
    [ncclP2pChannelToPart] (device) are inverses: the device finds for the
    channel it runs on exactly the part the host assigned to that channel, and
    every channel is assigned one. *)
Theorem p2p_channel_part_inverse k base :
  0 <= k <= 30 -> 0 <= base ->
  (forall part, 0 <= part < 2 ^ k -> exists channel,
     ncclP2pChannelForPart (2 ^ k) base part = Ret channel /\ 0 <= channel < 2 ^ k /\
     ncclP2pChannelToPart (2 ^ k) base channel = Ret part) /\
  (forall channel, 0 <= channel < 2 ^ k -> exists part,
     ncclP2pChannelToPart (2 ^ k) base channel = Ret part /\ 0 <= part < 2 ^ k /\
     ncclP2pChannelForPart (2 ^ k) base part = Ret channel).
Proof.
  intros Hk Hbase. pose proof (pow2_pos k ltac:(lia)).
  assert (2 ^ k <= 2 ^ 30) by (apply Z.pow_le_mono_r; lia).
  split; [intros part Hp; by apply channel_of_part|].
  unfold ncclP2pChannelForPart, ncclP2pChannelToPart. rewrite countOneBits_pred_pow2 by done.
  intros channel Hc. rewrite reverseBits_device_host, land_pred_pow2 by lia.
  pose proof (Z.mod_pos_bound (channel - base) (2 ^ k) ltac:(lia)).
  destruct (reverseBits_spec ((channel - base) mod 2 ^ k) k ltac:(lia) ltac:(lia)) as (p & Hp & Hr & _).
  rewrite Hp. exists p. split; [done|]. split; [done|].
  rewrite (reverseBits_involutive ((channel - base) mod 2 ^ k) k p) by (lia || done). cbn [mbind outcome_bind].
  rewrite land_pred_pow2 by lia. f_equal. rewrite Z.add_mod_idemp_r by lia.
  replace (base + (channel - base)) with channel by lia. by apply Z.mod_small.
Qed.

Lemma p2p_channel_part_inverse_witness :
  exists channel, ncclP2pChannelForPart (2 ^ 3) 5 3 = Ret channel /\ 0 <= channel < 2 ^ 3 /\
     ncclP2pChannelToPart (2 ^ 3) 5 channel = Ret 3.
Proof. destruct (p2p_channel_part_inverse 3 5) as [H _]; [lia..|]. apply H. lia. Defined.

(** ** Continuous-byte distribution *)

(** What the host guarantees about a distributed collective. *)
Record cbd_wf (work : ncclDevWorkColl) : Prop := {
  cbd_channels : channelLo work <= channelHi work;
  cbd_single : channelLo work = channelHi work -> countMid work = 0 /\ countHi work = 0;
  cbd_counts : 0 <= countLo work /\ 0 <= countMid work /\ 0 <= countHi work;
  cbd_total : countLo work + countMid work * (channelHi work - channelLo work - 1) + countHi work < 2 ^ 64;
}.

(** The channels of a distributed collective tile its elements: the first
    channel starts at 0, each channel's part ends where the next one's begins,
    and the last one ends at the total count. *)
Theorem ncclCollCbdPart_tile work proto eltSize :
  cbd_wf work ->
  let part c := ncclCollCbdPart work c proto eltSize in
  cp_partOffset (part (channelLo work)) = 0 /\
  (forall c, channelLo work <= c < channelHi work ->
     cp_partOffset (part c) + cp_partCount (part c) = cp_partOffset (part (c + 1))) /\
  cp_partOffset (part (channelHi work)) + cp_partCount (part (channelHi work))
    = cp_count (part (channelHi work)).
Proof.
  intros [Hch Hsingle Hcnt Htot] part. unfold part, ncclCollCbdPart, u64.
  rewrite Z.eqb_refl. cbn [cp_partOffset cp_partCount cp_count]. split; [done|].
  set (n := channelHi work - channelLo work - 1) in *.
  assert (forall j, 0 <= j <= n -> (countLo work + j * countMid work) mod 2 ^ 64 = countLo work + j * countMid work)
    as Hsmall by (intros j Hj; apply Z.mod_small; nia).
  split.
  - intros c Hc. destruct (Z.eqb_spec c (channelLo work)) as [->|].
    + destruct (Z.eqb_spec (channelLo work + 1) (channelLo work)); [lia|].
      destruct (Z.eqb_spec (channelLo work + 1) (channelHi work)) as [He|];
        cbn [cp_partOffset cp_partCount]; rewrite Hsmall by lia; [|lia].
      replace n with 0 by lia. lia.
    + destruct (Z.eqb_spec c (channelHi work)); [lia|].
      destruct (Z.eqb_spec (c + 1) (channelLo work)); [lia|].
      destruct (Z.eqb_spec (c + 1) (channelHi work)); cbn [cp_partOffset cp_partCount];
        rewrite !Hsmall by lia; nia.
  - destruct (Z.eqb_spec (channelHi work) (channelLo work)) as [Heq|Hne]; cbn [cp_partOffset cp_partCount cp_count].
    + destruct Hsingle as [Hm Hh]; [done|]. rewrite Hm, Hh in *. rewrite Z.mod_small; lia.
    + rewrite Z.eqb_refl. cbn [cp_partOffset cp_partCount cp_count]. rewrite Hsmall by lia.
      rewrite Z.mod_small; nia.
Qed.

Lemma ncclCollCbdPart_tile_witness :
  let work := Build_ncclDevWorkColl 2 5 100 300 50 1 2 3 in
  cp_partOffset (ncclCollCbdPart work 5 NCCL_PROTO_SIMPLE 4)
  + cp_partCount (ncclCollCbdPart work 5 NCCL_PROTO_SIMPLE 4)
  = cp_count (ncclCollCbdPart work 5 NCCL_PROTO_SIMPLE 4).
Proof.
  intros work. apply (ncclCollCbdPart_tile work NCCL_PROTO_SIMPLE 4). split; simpl; lia.
Defined.

(** ** The kernel table *)

(** A call that has a kernel, with the fields its table section ignores set to 0. *)
Inductive kernel_call (NumTypes : Z) : ncclFunc_t -> Z -> Z -> Z -> Z -> Prop :=
  | kc_sendrecv : kernel_call NumTypes ncclFuncSendRecv 0 0 0 0
  | kc_allgather algo proto : 0 <= proto < NCCL_NUM_PROTOCOLS ->
      algo ∈ [NCCL_ALGO_RING; NCCL_ALGO_COLLNET_DIRECT; NCCL_ALGO_NVLS; NCCL_ALGO_PAT] ->
      kernel_call NumTypes ncclFuncAllGather 0 0 algo proto
  | kc_broadcast proto : 0 <= proto < NCCL_NUM_PROTOCOLS ->
      kernel_call NumTypes ncclFuncBroadcast 0 0 0 proto
  | kc_allreduce op ty algo proto : 0 <= proto < NCCL_NUM_PROTOCOLS ->
      0 <= op < ncclNumDevRedOps -> 0 <= ty < NumTypes -> 0 <= algo <= NCCL_ALGO_NVLS_TREE ->
      kernel_call NumTypes ncclFuncAllReduce op ty algo proto
  | kc_reduce op ty proto : 0 <= proto < NCCL_NUM_PROTOCOLS ->
      0 <= op < ncclNumDevRedOps -> 0 <= ty < NumTypes ->
      kernel_call NumTypes ncclFuncReduce op ty 0 proto
  | kc_reducescatter op ty algo proto : 0 <= proto < NCCL_NUM_PROTOCOLS ->
      0 <= op < ncclNumDevRedOps -> 0 <= ty < NumTypes ->
      algo ∈ [NCCL_ALGO_RING; NCCL_ALGO_COLLNET_DIRECT; NCCL_ALGO_NVLS; NCCL_ALGO_PAT] ->
      kernel_call NumTypes ncclFuncReduceScatter op ty algo proto.

Lemma algo1_range algo : 0 <= algo1 algo <= 3.
Proof. unfold algo1. zcases; lia. Qed.

Lemma algo1_inj a b :
  a ∈ [NCCL_ALGO_RING; NCCL_ALGO_COLLNET_DIRECT; NCCL_ALGO_NVLS; NCCL_ALGO_PAT] ->
  b ∈ [NCCL_ALGO_RING; NCCL_ALGO_COLLNET_DIRECT; NCCL_ALGO_NVLS; NCCL_ALGO_PAT] ->
  algo1 a = algo1 b -> a = b.
Proof.
  rewrite !elem_of_cons, !elem_of_nil.
  intros [->|[->|[->|[->|[]]]]] [->|[->|[->|[->|[]]]]]; vm_compute; congruence.
Qed.

Lemma mixed_radix_inj T a b a' b' :
  0 <= b < T -> 0 <= b' < T -> a * T + b = a' * T + b' -> a = a' /\ b = b'.
Proof. intros. assert (a = a') by nia. subst. lia. Qed.

(** Each function owns an interval of rows. *)
Definition row_base (NumTypes : Z) (c : ncclFunc_t) : Z :=
  match c with
  | ncclFuncAllGather => 1 | ncclFuncBroadcast => 13 | ncclFuncAllReduce => 16
  | ncclFuncReduce => 16 + 90 * NumTypes | ncclFuncReduceScatter => 16 + 105 * NumTypes
  | _ => 0
  end.
Definition row_len (NumTypes : Z) (c : ncclFunc_t) : Z :=
  match c with
  | ncclFuncAllGather => 12 | ncclFuncBroadcast => 3 | ncclFuncAllReduce => 90 * NumTypes
  | ncclFuncReduce => 15 * NumTypes | ncclFuncReduceScatter => 60 * NumTypes
  | _ => 1
  end.
Definition row_offset (NumTypes : Z) (c : ncclFunc_t) (op ty a p : Z) : Z :=
  match c with
  | ncclFuncAllGather => algo1 a * 3 + p
  | ncclFuncBroadcast => p
  | ncclFuncAllReduce => ((op * NumTypes + ty) * 6 + a) * 3 + p
  | ncclFuncReduce => (op * NumTypes + ty) * 3 + p
  | ncclFuncReduceScatter => ((op * NumTypes + ty) * 4 + algo1 a) * 3 + p
  | _ => 0
  end.

Lemma ncclDevFuncRow_interval T c op ty a p :
  kernel_call T c op ty a p ->
  ncclDevFuncRow T c op ty a p = row_base T c + row_offset T c op ty a p /\
  0 <= row_offset T c op ty a p < row_len T c.
Proof.
  intros H.
  assert (forall o y, 0 <= o < 5 -> 0 <= y < T -> 0 <= o * T + y < 5 * T) as Hk by (intros; nia).
  destruct H; unfold ncclDevFuncRow;
    repeat first [rewrite (bool_decide_eq_true_2 (_ = _)) by done
                 |rewrite (bool_decide_eq_false_2 (_ = _)) by done];
    unfold NCCL_NUM_PROTOCOLS, ncclNumDevRedOps, NCCL_ALGO_NVLS_TREE in *; cbn [row_base row_len row_offset];
    try (pose proof (algo1_range algo)); try (pose proof (Hk op ty ltac:(lia) ltac:(lia))); lia.
Qed.

(** The rows of the kernel table are distinct: two calls that select the
    same row are the same function with the same reduction, type, algorithm and
    protocol, so the table computed at build time and the index computed at run
    time cannot confuse two kernels. *)
Theorem ncclDevFuncRow_injective T c op ty a p c' op' ty' a' p' :
  kernel_call T c op ty a p -> kernel_call T c' op' ty' a' p' ->
  ncclDevFuncRow T c op ty a p = ncclDevFuncRow T c' op' ty' a' p' ->
  (c, op, ty, a, p) = (c', op', ty', a', p').
Proof.
  intros H H' Heq.
  destruct (ncclDevFuncRow_interval _ _ _ _ _ _ H) as [Hr Hb].
  destruct (ncclDevFuncRow_interval _ _ _ _ _ _ H') as [Hr' Hb'].
  rewrite Hr, Hr' in Heq. clear Hr Hr'.
  assert (c = c') as <- by (destruct H, H'; cbn [row_base row_len row_offset] in *; done || lia).
  destruct H; inversion H'; subst; cbn [row_base row_len row_offset] in *;
    unfold NCCL_NUM_PROTOCOLS, NCCL_ALGO_NVLS_TREE in *.
  - done.
  - pose proof (algo1_range algo). pose proof (algo1_range a').
    destruct (mixed_radix_inj 3 (algo1 algo) proto (algo1 a') p') as [? ->]; [lia..|].
    by rewrite (algo1_inj algo a').
  - repeat f_equal. lia.
  - destruct (mixed_radix_inj 3 ((op * T + ty) * 6 + algo) proto ((op' * T + ty') * 6 + a') p') as [Hq ->]; [lia..|].
    apply mixed_radix_inj in Hq as [Hq ->]; [|lia..]. apply mixed_radix_inj in Hq as [-> ->]; [done|lia..].
  - destruct (mixed_radix_inj 3 (op * T + ty) proto (op' * T + ty') p') as [Hq ->]; [lia..|].
    apply mixed_radix_inj in Hq as [-> ->]; [done|lia..].
  - pose proof (algo1_range algo). pose proof (algo1_range a').
    destruct (mixed_radix_inj 3 ((op * T + ty) * 4 + algo1 algo) proto ((op' * T + ty') * 4 + algo1 a') p')
      as [Hq ->]; [lia..|].
    apply mixed_radix_inj in Hq as [Hq Ha]; [|lia..]. apply mixed_radix_inj in Hq as [-> ->]; [|lia..].
    by rewrite (algo1_inj algo a').
Qed.

Lemma ncclDevFuncRow_injective_witness :
  kernel_call 12 ncclFuncAllReduce 0 7 NCCL_ALGO_RING NCCL_PROTO_SIMPLE /\
  (ncclFuncAllReduce, 0, 7, 1, 2) = (ncclFuncAllReduce, 0, 7, 1, 2).
Proof.
  assert (kernel_call 12 ncclFuncAllReduce 0 7 1 2) as H
    by (apply kc_allreduce; unfold NCCL_NUM_PROTOCOLS, ncclNumDevRedOps, NCCL_ALGO_NVLS_TREE; lia).
  split; [exact H|]. exact (ncclDevFuncRow_injective 12 _ _ _ _ _ _ _ _ _ _ H H eq_refl).
Defined.
