(* ===== verification/Trees.v ===== *)
(** * Binary trees over nodes (src/src/graph/trees.cc)

    [ncclGetBtree] computes the parent and children of one rank from the bits of
    its number; [ncclGetDtree] adds the mirrored or shifted second tree.  The
    theorems show that the per-rank answers fit together: they form one tree
    rooted at rank 0 (resp. its image in the second tree) of logarithmic depth. *)
From S2P Require Import Prelude Bitops.

(** The outputs of [ncclGetBtree]; [parentChildType] is not written for the
    root, hence the option. *)
Record btree := Btree { bt_u : Z; bt_d0 : Z; bt_d1 : Z; bt_type : option Z }.

(** [for (bit=1; bit<nranks; bit<<=1) { if (bit & rank) break; }] *)
Fixpoint btree_bit (fuel : nat) (nranks rank bit : Z) : outcome Z :=
  if bit <? nranks then
    if negb (Z.land bit rank =? 0) then Ret bit
    else match fuel with
         | O => Stuck
         | S fuel => bit' ← arith int32 (Z.shiftl bit 1); btree_bit fuel nranks rank bit'
         end
  else Ret bit.

(** [while (down1 >= nranks) { down1 = lowbit == 0 ? -1 : rank+lowbit; lowbit >>= 1; }] *)
Fixpoint btree_down1 (fuel : nat) (nranks rank down1 lowbit : Z) : outcome Z :=
  if nranks <=? down1 then
    match fuel with
    | O => Stuck
    | S fuel =>
      down1' ← (if lowbit =? 0 then Ret (-1) else arith int32 (rank + lowbit));
      btree_down1 fuel nranks rank down1' (Z.shiftr lowbit 1)
    end
  else Ret down1.

(** 34 iterations are more than a 31-bit counter can take. *)
Definition ncclGetBtree (nranks rank : Z) : outcome btree :=
  bit ← btree_bit 34 nranks rank 1;
  if rank =? 0 then
    Ret (Btree (-1) (-1) (if nranks >? 1 then Z.shiftr bit 1 else -1) None)
  else
    bit2 ← arith int32 (Z.shiftl bit 1);
    let up := Z.lor (Z.lxor rank bit) bit2 in
    let up := if up >=? nranks then Z.lxor rank bit else up in
    let parentChildType := if rank <? up then 0 else 1 in
    let lowbit := Z.shiftr bit 1 in
    let down0 := if lowbit =? 0 then -1 else rank - lowbit in
    down1 ← (if lowbit =? 0 then Ret (-1) else arith int32 (rank + lowbit));
    down1 ← btree_down1 34 nranks rank down1 lowbit;
    Ret (Btree up down0 down1 (Some parentChildType)).

Definition ncclGetDtree (nranks rank : Z) : outcome (btree * btree) :=
  t0 ← ncclGetBtree nranks rank;
  if nranks `rem` 2 =? 1 then
    let shiftrank := (rank - 1 + nranks) `rem` nranks in
    t ← ncclGetBtree nranks shiftrank;
    let shift x := if x =? -1 then -1 else (x + 1) `rem` nranks in
    Ret (t0, Btree (shift (bt_u t)) (shift (bt_d0 t)) (shift (bt_d1 t)) (bt_type t))
  else
    t ← ncclGetBtree nranks (nranks - 1 - rank);
    let mirror x := if x =? -1 then -1 else nranks - 1 - x in
    Ret (t0, Btree (mirror (bt_u t)) (mirror (bt_d0 t)) (mirror (bt_d1 t)) (bt_type t)).

(** ** Ranks by their lowest set bit *)

Lemma odd_pow2_split r : 0 < r -> exists q k, 0 <= q /\ 0 <= k /\ r = (2 * q + 1) * 2 ^ k.
Proof.
  intros Hr. destruct r as [|p|p]; try lia. clear Hr.
  induction p as [p IH|p (q & k & Hq & Hk & IH)|].
  - exists (Z.pos p), 0. lia.
  - exists q, (k + 1). rewrite Z.pow_add_r, Z.pow_1_r by lia. nia.
  - exists 0, 0. lia.
Qed.

Section lowbit.
  Context (q k : Z) (Hq : 0 <= q) (Hk : 0 <= k).
Let r := (2 * q + 1) * 2 ^ k.

Lemma odd_pow2_bit_k : Z.testbit r k = true.
Proof.
  unfold r. rewrite Z.mul_pow2_bits by done. replace (k - k) with 0 by lia.
  apply Z.testbit_odd_0.
Qed.

Lemma odd_pow2_bit_low i : i < k -> Z.testbit r i = false.
Proof. intros. unfold r. by apply Z.mul_pow2_bits_low. Qed.

Lemma odd_pow2_lxor : Z.lxor r (2 ^ k) = 2 * q * 2 ^ k.
Proof.
  apply Z.bits_inj'. intros i Hi. rewrite Z.lxor_spec. unfold r.
  rewrite !Z.mul_pow2_bits by done. rewrite Z.pow2_bits_eqb by done.
  destruct (Z.lt_ge_cases i k).
  { rewrite !(Z.testbit_neg_r _ (i - k)) by lia. by destruct (Z.eqb_spec k i); [lia|]. }
  destruct (Z.eqb_spec k i) as [->|].
  - rewrite Z.sub_diag, Z.testbit_odd_0, Z.testbit_even_0. done.
  - replace (i - k) with (Z.succ (i - k - 1)) by lia.
    rewrite Z.testbit_odd_succ, Z.testbit_even_succ by lia. apply xorb_false_r.
Qed.

Lemma odd_pow2_lor :
  Z.lor (2 * q * 2 ^ k) (2 * 2 ^ k) = if Z.even q then (2 * q + 2) * 2 ^ k else 2 * q * 2 ^ k.
Proof.
  replace (2 * q * 2 ^ k) with (Z.shiftl q (k + 1)).
  2: { rewrite Z.shiftl_mul_pow2, Z.pow_add_r by lia. lia. }
  replace (2 * 2 ^ k) with (Z.shiftl 1 (k + 1)).
  2: { rewrite Z.shiftl_mul_pow2, Z.pow_add_r by lia. lia. }
  rewrite <- Z.shiftl_lor.
  replace (Z.lor q 1) with (if Z.even q then q + 1 else q).
  - destruct (Z.even q); rewrite ?Z.shiftl_mul_pow2, ?Z.pow_add_r by lia; lia.
  - destruct (Z.even q) eqn:E.
    + apply Z.even_spec in E as [h ->]. rewrite (Z.add_nocarry_lor (2 * h) 1); [done|].
      apply Z.bits_inj'. intros i Hi. rewrite Z.land_spec, Z.testbit_0_l.
      destruct (Z.eq_dec i 0) as [->|]; [by rewrite Z.testbit_even_0|].
      rewrite (testbit_high 1 1 i) by lia. apply andb_false_r.
    + assert (Z.odd q = true) as Ho by (rewrite <- Z.negb_even, E; done).
      apply Z.odd_spec in Ho as [h ->]. apply Z.bits_inj'. intros i Hi. rewrite Z.lor_spec.
      destruct (Z.eq_dec i 0) as [->|]; [by rewrite Z.testbit_odd_0|].
      rewrite (testbit_high 1 1 i) by lia. by rewrite orb_false_r.
Qed.

End lowbit.

Lemma land_pow2_eqb r i : 0 <= i -> (Z.land (2 ^ i) r =? 0) = negb (Z.testbit r i).
Proof.
  intros Hi. replace (Z.land (2 ^ i) r) with (if Z.testbit r i then 2 ^ i else 0).
  - pose proof (pow2_pos i Hi). destruct (Z.testbit r i); simpl; [|done].
    by destruct (Z.eqb_spec (2 ^ i) 0); [lia|].
  - apply Z.bits_inj'. intros j Hj. rewrite Z.land_spec, Z.pow2_bits_eqb by done.
    destruct (Z.eqb_spec i j) as [->|].
    + destruct (Z.testbit r j) eqn:E; [|apply Z.testbit_0_l]. by rewrite Z.pow2_bits_true.
    + destruct (Z.testbit r i); [|apply Z.testbit_0_l]. by rewrite Z.pow2_bits_false.
Qed.

(** ** The bit loop *)

Lemma arith_shl1 i : 0 <= i < 30 -> arith int32 (Z.shiftl (2 ^ i) 1) = Ret (2 ^ (i + 1)).
Proof.
  intros Hi. rewrite Z.shiftl_mul_pow2, <- Z.pow_add_r by lia. apply arith_in_range.
  unfold in_range. cbn [ity_signed ity_width int32].
  assert (2 ^ (i + 1) <= 2 ^ 30) by (apply Z.pow_le_mono_r; lia).
  pose proof (pow2_pos (i + 1) ltac:(lia)). lia.
Qed.

Lemma pow2_lt_30 i n : 0 <= i -> 2 ^ i < n -> n <= 2 ^ 30 -> i < 30.
Proof.
  intros Hi H Hn. apply (Z.pow_lt_mono_r_iff 2); lia.
Qed.

Lemma btree_bit_nonzero fuel nranks q k i :
  0 <= q -> 0 <= i <= k -> (2 * q + 1) * 2 ^ k < nranks -> nranks <= 2 ^ 30 ->
  k - i <= Z.of_nat fuel ->
  btree_bit fuel nranks ((2 * q + 1) * 2 ^ k) (2 ^ i) = Ret (2 ^ k).
Proof.
  intros Hq Hi Hlt Hn. revert i Hi. induction fuel as [|fuel IH]; intros i Hi Hf;
    assert (2 ^ i <= 2 ^ k) by (apply Z.pow_le_mono_r; lia);
    pose proof (pow2_pos k ltac:(lia));
    cbn [btree_bit]; (destruct (Z.ltb_spec (2 ^ i) nranks); [|nia]);
    rewrite land_pow2_eqb, negb_involutive by lia;
    destruct (Z.eq_dec i k) as [->|Hne].
  - by rewrite odd_pow2_bit_k by lia.
  - lia.
  - by rewrite odd_pow2_bit_k by lia.
  - rewrite odd_pow2_bit_low by lia.
    assert (k < 30) by (eapply pow2_lt_30; [lia| |done]; nia).
    rewrite arith_shl1 by lia. simpl. apply IH; lia.
Qed.

Lemma btree_bit_zero fuel nranks i :
  0 <= i -> 2 ^ (i - 1) < nranks -> 1 <= nranks <= 2 ^ 30 -> 30 - i <= Z.of_nat fuel ->
  exists m, i <= m <= 30 /\ btree_bit fuel nranks 0 (2 ^ i) = Ret (2 ^ m) /\
    nranks <= 2 ^ m /\ (1 < nranks -> 2 ^ (m - 1) < nranks).
Proof.
  intros Hi Hprev Hn. revert i Hi Hprev. induction fuel as [|fuel IH]; intros i Hi Hprev Hf; cbn [btree_bit];
    destruct (Z.ltb_spec (2 ^ i) nranks).
  - assert (i < 30) by (eapply pow2_lt_30; [done..|]; lia). lia.
  - exists i. destruct (Z.eq_dec i 30); [|destruct (Z.lt_ge_cases i 30)]; repeat split; try lia; try done.
    assert (2 ^ 30 <= 2 ^ (i - 1)) by (apply Z.pow_le_mono_r; lia). lia.
  - assert (i < 30) by (eapply pow2_lt_30; [done..|]; lia).
    rewrite land_pow2_eqb, Z.testbit_0_l by lia. simpl. rewrite arith_shl1 by lia. simpl.
    destruct (IH (i + 1)) as (m & Hm & Heq & H1 & H2); [lia| |lia|].
    { by replace (i + 1 - 1) with i by lia. }
    exists m. repeat split; try done; lia.
  - exists i. destruct (Z.le_gt_cases i 30); [repeat split; try lia; done|].
    assert (2 ^ 30 <= 2 ^ (i - 1)) by (apply Z.pow_le_mono_r; lia). lia.
Qed.

(** ** The second child *)

(** The largest [rank + 2^i] with [i <= j] inside the tree, or [-1]. *)
Fixpoint largest_child (nranks rank : Z) (j : nat) : Z :=
  if rank + 2 ^ Z.of_nat j <? nranks then rank + 2 ^ Z.of_nat j
  else match j with O => -1 | S j => largest_child nranks rank j end.

Lemma shiftr_pow2 (j : nat) : Z.shiftr (2 ^ Z.of_nat (S j)) 1 = 2 ^ Z.of_nat j.
Proof.
  rewrite Z.shiftr_div_pow2 by lia. rewrite Nat2Z.inj_succ, Z.pow_succ_r by lia.
  change (2 ^ 1) with 2. rewrite Z.mul_comm, Z.div_mul by lia. done.
Qed.

Lemma btree_down1_done fuel nranks rank down1 lowbit :
  down1 < nranks -> btree_down1 fuel nranks rank down1 lowbit = Ret down1.
Proof. intros. destruct fuel; cbn [btree_down1]; (destruct (Z.leb_spec nranks down1); [lia|done]). Qed.

Lemma btree_down1_loop fuel nranks rank down1 (j : nat) :
  0 <= rank < nranks -> nranks <= 2 ^ 30 -> Z.of_nat j <= 29 -> (j + 2 <= fuel)%nat ->
  nranks <= down1 ->
  btree_down1 fuel nranks rank down1 (2 ^ Z.of_nat j) = Ret (largest_child nranks rank j).
Proof.
  intros Hr Hn Hj. revert fuel down1 Hj. induction j as [|j IH]; intros fuel down1 Hj Hf Hd;
    (destruct fuel as [|fuel]; [lia|]); cbn [btree_down1 largest_child];
    (destruct (Z.leb_spec nranks down1); [|lia]).
  - change (2 ^ Z.of_nat 0) with 1. change (1 =? 0) with false. cbv iota.
    rewrite arith_in_range by (unfold in_range; simpl; lia). cbn [mbind outcome_bind].
    destruct fuel as [|fuel]; [lia|]. cbn [btree_down1].
    destruct (Z.leb_spec nranks (rank + 1)), (Z.ltb_spec (rank + 1) nranks); try lia; [|done].
    change (Z.shiftr 1 1 =? 0) with true. cbn [mbind outcome_bind].
    apply btree_down1_done. lia.
  - pose proof (pow2_pos (Z.of_nat (S j)) ltac:(lia)).
    destruct (Z.eqb_spec (2 ^ Z.of_nat (S j)) 0); [lia|].
    assert (2 ^ Z.of_nat (S j) <= 2 ^ 29) by (apply Z.pow_le_mono_r; lia).
    rewrite arith_in_range by (unfold in_range; simpl; lia). cbn [mbind outcome_bind].
    rewrite shiftr_pow2.
    destruct (Z.ltb_spec (rank + 2 ^ Z.of_nat (S j)) nranks).
    + by apply btree_down1_done.
    + apply IH; lia.
Qed.

Lemma largest_child_spec nranks rank j c :
  largest_child nranks rank j = c -> 0 <= rank < nranks ->
  (c = -1 /\ nranks <= rank + 1) \/
  (exists i, 0 <= i <= Z.of_nat j /\ c = rank + 2 ^ i /\ c < nranks /\
     (i < Z.of_nat j -> nranks <= rank + 2 ^ (i + 1))).
Proof.
  intros <- Hr. induction j as [|j IH]; cbn [largest_child];
    match goal with |- context [?a <? ?b] => destruct (Z.ltb_spec a b) as [Hlt|Hge] end.
  - right. exists 0. simpl in *. repeat split; lia.
  - left. simpl in *. lia.
  - right. exists (Z.of_nat (S j)). repeat split; lia.
  - destruct IH as [IH|(i & Hi & Hc & Hlt & Hnext)]; [by left|right].
    exists i. repeat split; try lia. intros _.
    destruct (Z.eq_dec i (Z.of_nat j)) as [->|]; [|apply Hnext; lia].
    by replace (Z.of_nat j + 1) with (Z.of_nat (S j)) by lia.
Qed.

Lemma largest_child_unique nranks rank j i :
  0 <= rank -> 0 <= i <= Z.of_nat j -> rank + 2 ^ i < nranks -> nranks <= rank + 2 ^ (i + 1) ->
  largest_child nranks rank j = rank + 2 ^ i.
Proof.
  intros Hr Hi Hlt Hge. induction j as [|j IH]; cbn [largest_child].
  - assert (i = 0) as -> by lia. change (2 ^ Z.of_nat 0) with 1. change (2 ^ 0) with 1 in *. change (2 ^ (0 + 1)) with 2 in *.
    destruct (Z.ltb_spec (rank + 1) nranks); lia.
  - destruct (Z.eq_dec i (Z.of_nat (S j))) as [->|].
    + destruct (Z.ltb_spec (rank + 2 ^ Z.of_nat (S j)) nranks); [done|lia].
    + assert (2 ^ (i + 1) <= 2 ^ Z.of_nat (S j)) by (apply Z.pow_le_mono_r; lia).
      destruct (Z.ltb_spec (rank + 2 ^ Z.of_nat (S j)) nranks); [lia|]. apply IH; lia.
Qed.

(** ** Closed forms of the tree *)

(** The node record of a non-root rank [(2q+1)2^k]. *)
Definition btree_node (nranks q k : Z) : btree :=
  let r := (2 * q + 1) * 2 ^ k in
  let up := if Z.even q && (r + 2 ^ k <? nranks) then r + 2 ^ k else r - 2 ^ k in
  Btree up
    (if k =? 0 then -1 else r - 2 ^ (k - 1))
    (if k =? 0 then -1 else largest_child nranks r (Z.to_nat (k - 1)))
    (Some (if r <? up then 0 else 1)).

Lemma ncclGetBtree_node nranks q k :
  0 <= q -> 0 <= k -> (2 * q + 1) * 2 ^ k < nranks -> nranks <= 2 ^ 30 ->
  ncclGetBtree nranks ((2 * q + 1) * 2 ^ k) = Ret (btree_node nranks q k).
Proof.
  intros Hq Hk Hlt Hn. pose proof (pow2_pos k Hk).
  assert (k < 30) by (eapply pow2_lt_30; [lia| |done]; nia).
  pose proof (btree_bit_nonzero 34 nranks q k 0 Hq ltac:(lia) Hlt Hn ltac:(lia)) as Hbit.
  change (2 ^ 0) with 1 in Hbit.
  unfold ncclGetBtree. rewrite Hbit. cbn [mbind outcome_bind].
  destruct (Z.eqb_spec ((2 * q + 1) * 2 ^ k) 0); [nia|].
  rewrite arith_shl1 by lia. cbn [mbind outcome_bind].
  rewrite odd_pow2_lxor by lia. replace (2 ^ (k + 1)) with (2 * 2 ^ k).
  2: { rewrite Z.pow_add_r by lia. lia. }
  rewrite odd_pow2_lor by lia.
  set (r := (2 * q + 1) * 2 ^ k).
  assert ((if (if Z.even q then (2 * q + 2) * 2 ^ k else 2 * q * 2 ^ k) >=? nranks
           then 2 * q * 2 ^ k
           else if Z.even q then (2 * q + 2) * 2 ^ k else 2 * q * 2 ^ k)
          = if Z.even q && (r + 2 ^ k <? nranks) then r + 2 ^ k else r - 2 ^ k) as ->.
  { unfold r. destruct (Z.even q); simpl andb; zcases; try nia. }
  destruct (Z.eqb_spec k 0) as [->|Hk0].
  - change (Z.shiftr (2 ^ 0) 1) with 0. cbn [mbind outcome_bind Z.eqb].
    rewrite btree_down1_done by nia. done.
  - assert (Z.shiftr (2 ^ k) 1 = 2 ^ Z.of_nat (Z.to_nat (k - 1))) as Hs.
    { replace k with (Z.of_nat (S (Z.to_nat (k - 1)))) at 1 by lia. apply shiftr_pow2. }
    rewrite Hs. pose proof (pow2_pos (Z.of_nat (Z.to_nat (k - 1))) ltac:(lia)).
    destruct (Z.eqb_spec (2 ^ Z.of_nat (Z.to_nat (k - 1))) 0); [lia|].
    assert (2 ^ Z.of_nat (Z.to_nat (k - 1)) <= 2 ^ 29) by (apply Z.pow_le_mono_r; lia).
    rewrite arith_in_range by (unfold in_range; simpl; nia). cbn [mbind outcome_bind].
    assert (btree_down1 34 nranks r (r + 2 ^ Z.of_nat (Z.to_nat (k - 1)))
              (2 ^ Z.of_nat (Z.to_nat (k - 1)))
            = Ret (largest_child nranks r (Z.to_nat (k - 1)))) as ->.
    { destruct (Z.le_gt_cases nranks (r + 2 ^ Z.of_nat (Z.to_nat (k - 1)))).
      - apply btree_down1_loop; unfold r; nia || lia.
      - rewrite btree_down1_done by lia.
        destruct (Z.to_nat (k - 1)); cbn [largest_child];
          (match goal with |- context [?a <? ?b] => destruct (Z.ltb_spec a b) end; [done|lia]). }
    cbn [mbind outcome_bind]. unfold btree_node. fold r.
    destruct (Z.eqb_spec k 0); [lia|]. by rewrite Z2Nat.id by lia.
Qed.

Lemma ncclGetBtree_root nranks :
  1 <= nranks <= 2 ^ 30 ->
  exists d, ncclGetBtree nranks 0 = Ret (Btree (-1) (-1) d None) /\
    ((nranks = 1 /\ d = -1) \/
     (exists m, 0 <= m < 30 /\ d = 2 ^ m /\ 2 ^ m < nranks <= 2 ^ (m + 1))).
Proof.
  intros Hn. unfold ncclGetBtree.
  destruct (btree_bit_zero 34 nranks 0) as (m & Hm & Hbit & H1 & H2); [lia|simpl; lia|lia|lia|].
  change (2 ^ 0) with 1 in Hbit. rewrite Hbit.
  cbn [mbind outcome_bind]. rewrite Z.gtb_ltb.
  destruct (Z.ltb_spec 1 nranks); [|eexists; split; [done|]; left; lia].
  eexists. split; [done|]. right.
  assert (m <> 0) by (intros ->; simpl in H1; lia).
  exists (m - 1). specialize (H2 ltac:(lia)). replace (m - 1 + 1) with m by lia.
  repeat split; try lia. rewrite Z.shiftr_div_pow2 by lia.
  replace m with (m - 1 + 1) at 1 by lia. rewrite Z.pow_add_r by lia. apply Z.div_mul. lia.
Qed.

Lemma largest_child_top nranks rank (j : nat) :
  rank + 2 ^ Z.of_nat j < nranks -> largest_child nranks rank j = rank + 2 ^ Z.of_nat j.
Proof.
  intros. destruct j; cbn [largest_child];
    match goal with |- context [?a <? ?b] => destruct (Z.ltb_spec a b) end; lia.
Qed.

(** ** What it means for per-rank answers to form a tree *)

(** Rank [r] reaches the root by following [n] parent links. *)
Inductive reaches (t : Z -> outcome btree) (root : Z) : nat -> Z -> Prop :=
  | reaches_root : reaches t root 0 root
  | reaches_up n r b :
      r <> root -> t r = Ret b -> reaches t root n (bt_u b) -> reaches t root (S n) r.

(** [r] is the child of kind [ty] (0 or 1) of the node [p]. *)
Definition child_slot (p : btree) (ty : option Z) (r : Z) : Prop :=
  (ty = Some 0 /\ bt_d0 p = r) \/ (ty = Some 1 /\ bt_d1 p = r).

Record tree_ok (nranks root : Z) (t : Z -> outcome btree) (r : Z) (b : btree) : Prop := {
  tree_root : bt_u b = -1 <-> r = root;
  tree_parent : r <> root -> 0 <= bt_u b < nranks /\
    exists p, t (bt_u b) = Ret p /\ child_slot p (bt_type b) r;
  tree_child : forall c ty, child_slot b ty c -> c <> -1 -> 0 <= c < nranks /\
    exists cb, t c = Ret cb /\ bt_u cb = r /\ bt_type cb = ty;
  tree_depth : exists n, Z.of_nat n <= Z.log2_up nranks /\ reaches t root n r;
}.

(** Every rank gets an answer, and the answers agree. *)
Definition is_tree (nranks root : Z) (t : Z -> outcome btree) : Prop :=
  forall r, 0 <= r < nranks -> exists b, t r = Ret b /\ tree_ok nranks root t r b.

(** ** The first tree *)

Section btree_tree.
  Context (nranks : Z) (Hn : nranks <= 2 ^ 30).
  Notation t := (ncclGetBtree nranks).

(** The two shapes of a node's link to its parent. *)
Lemma node_first_child q k :
  0 <= k -> Z.even q = true -> (2 * q + 1) * 2 ^ k + 2 ^ k < nranks ->
  bt_u (btree_node nranks q k) = (2 * q + 1) * 2 ^ k + 2 ^ k /\
  bt_type (btree_node nranks q k) = Some 0.
Proof.
  intros Hk Ev Hlt. pose proof (pow2_pos k Hk). unfold btree_node. cbn [bt_u bt_type].
  rewrite Ev. simpl andb. zcases; split; try done; lia.
Qed.

Lemma node_second_child q k :
  0 <= k -> Z.even q = false \/ nranks <= (2 * q + 1) * 2 ^ k + 2 ^ k ->
  bt_u (btree_node nranks q k) = (2 * q + 1) * 2 ^ k - 2 ^ k /\
  bt_type (btree_node nranks q k) = Some 1.
Proof.
  intros Hk Hor. pose proof (pow2_pos k Hk). unfold btree_node. cbn [bt_u bt_type].
  destruct (Z.even q); simpl andb; zcases; split; try done; try lia; destruct Hor; try done; lia.
Qed.

(** A first child is the [down0] of its parent. *)
Lemma btree_parent_first q k :
  0 <= q -> 0 <= k -> Z.even q = true -> (2 * q + 1) * 2 ^ k + 2 ^ k < nranks ->
  exists p, t ((2 * q + 1) * 2 ^ k + 2 ^ k) = Ret p /\ bt_d0 p = (2 * q + 1) * 2 ^ k.
Proof.
  intros Hq Hk Ev Hlt. apply Z.even_spec in Ev as [h ->]. pose proof (pow2_pos k Hk).
  exists (btree_node nranks h (k + 1)).
  assert ((2 * (2 * h) + 1) * 2 ^ k + 2 ^ k = (2 * h + 1) * 2 ^ (k + 1)) as Hup.
  { rewrite Z.pow_add_r by lia. lia. }
  split; [rewrite Hup; apply ncclGetBtree_node; lia|].
  unfold btree_node. cbn [bt_d0]. destruct (Z.eqb_spec (k + 1) 0); [lia|].
  replace (k + 1 - 1) with k by lia. lia.
Qed.

(** A second child is the [down1] of its parent, in three cases: the usual one,
    ... *)
Lemma btree_parent_second_odd q k :
  0 <= q -> 0 <= k -> Z.even q = false -> (2 * q + 1) * 2 ^ k < nranks ->
  exists p, t ((2 * q + 1) * 2 ^ k - 2 ^ k) = Ret p /\ bt_d1 p = (2 * q + 1) * 2 ^ k.
Proof.
  intros Hq Hk Ev Hlt. pose proof (pow2_pos k Hk).
  assert (Z.odd q = true) as Ho by (rewrite <- Z.negb_even, Ev; done).
  apply Z.odd_spec in Ho as [h ->]. exists (btree_node nranks h (k + 1)).
  assert ((2 * (2 * h + 1) + 1) * 2 ^ k - 2 ^ k = (2 * h + 1) * 2 ^ (k + 1)) as Hup.
  { rewrite Z.pow_add_r by lia. lia. }
  split; [rewrite Hup; apply ncclGetBtree_node; lia|].
  unfold btree_node. cbn [bt_d1]. destruct (Z.eqb_spec (k + 1) 0); [lia|]. rewrite <- Hup.
  rewrite largest_child_top; replace (Z.of_nat (Z.to_nat (k + 1 - 1))) with k by lia; lia.
Qed.

(** ... the child of the root, ... *)
Lemma btree_parent_root k :
  0 <= k -> 2 ^ k < nranks <= 2 ^ k + 2 ^ k -> exists p, t 0 = Ret p /\ bt_d1 p = 2 ^ k.
Proof.
  intros Hk Hr. pose proof (pow2_pos k Hk).
  destruct (ncclGetBtree_root nranks ltac:(lia)) as (d & Hd & [?|(m & Hm & -> & Hmn)]); [lia|].
  eexists. split; [done|]. cbn [bt_d1]. f_equal.
  assert (2 ^ (k + 1) = 2 * 2 ^ k) as Hsucc by (rewrite Z.pow_add_r; lia).
  assert (k < m + 1) by (apply (Z.pow_lt_mono_r_iff 2); lia).
  assert (m < k + 1) by (apply (Z.pow_lt_mono_r_iff 2); lia). lia.
Qed.

(** ... and a node whose regular parent is out of bounds. *)
Lemma btree_parent_spill q k :
  0 < q -> 0 <= k -> Z.even q = true ->
  (2 * q + 1) * 2 ^ k < nranks <= (2 * q + 1) * 2 ^ k + 2 ^ k ->
  exists p, t ((2 * q + 1) * 2 ^ k - 2 ^ k) = Ret p /\ bt_d1 p = (2 * q + 1) * 2 ^ k.
Proof.
  intros Hq Hk Ev Hlt. pose proof (pow2_pos k Hk).
  destruct (odd_pow2_split q Hq) as (g & v & Hg & Hv & Hqv).
  assert (1 <= v).
  { destruct (Z.eq_dec v 0) as [->|]; [|lia]. exfalso. change (2 ^ 0) with 1 in Hqv.
    apply Z.even_spec in Ev as [h Hh]. lia. }
  assert ((2 * q + 1) * 2 ^ k - 2 ^ k = (2 * g + 1) * 2 ^ (k + 1 + v)) as Hup.
  { rewrite !Z.pow_add_r, Hqv by lia. lia. }
  exists (btree_node nranks g (k + 1 + v)).
  split; [rewrite Hup; apply ncclGetBtree_node; lia|].
  unfold btree_node. cbn [bt_d1]. destruct (Z.eqb_spec (k + 1 + v) 0); [lia|]. rewrite <- Hup.
  assert (2 ^ (k + 1) = 2 * 2 ^ k) by (rewrite Z.pow_add_r; lia).
  rewrite (largest_child_unique _ _ _ k); nia || lia.
Qed.

Lemma btree_parent r :
  0 < r < nranks -> exists b p, t r = Ret b /\ 0 <= bt_u b < nranks /\
    t (bt_u b) = Ret p /\ child_slot p (bt_type b) r.
Proof.
  intros Hr. destruct (odd_pow2_split r) as (q & k & Hq & Hk & ->); [lia|].
  pose proof (pow2_pos k Hk) as Hp. exists (btree_node nranks q k).
  pose proof (ncclGetBtree_node nranks q k Hq Hk ltac:(lia) Hn) as Hb.
  destruct (Z.even q) eqn:Ev;
    [destruct (Z.lt_ge_cases ((2 * q + 1) * 2 ^ k + 2 ^ k) nranks) as [Hlt|Hge]|].
  - destruct (node_first_child q k) as [Hu Hty]; [done..|].
    destruct (btree_parent_first q k) as (p & Hp1 & Hp2); [done..|].
    exists p. rewrite Hu, Hty. unfold child_slot. repeat split; try done; try lia. by left.
  - destruct (node_second_child q k) as [Hu Hty]; [done|by right|].
    assert (exists p, t ((2 * q + 1) * 2 ^ k - 2 ^ k) = Ret p /\
              bt_d1 p = (2 * q + 1) * 2 ^ k) as (p & Hp1 & Hp2).
    { destruct (Z.eq_dec q 0) as [->|]; [|apply btree_parent_spill; lia || done].
      rewrite !Z.mul_0_r, !Z.add_0_l, !Z.mul_1_l, Z.sub_diag in *. apply btree_parent_root; lia. }
    exists p. rewrite Hu, Hty. unfold child_slot. repeat split; try done; try nia. by right.
  - destruct (node_second_child q k) as [Hu Hty]; [done|by left|].
    destruct (btree_parent_second_odd q k) as (p & Hp1 & Hp2); [lia || done..|].
    exists p. rewrite Hu, Hty. unfold child_slot. repeat split; try done; try nia. by right.
Qed.

(** Children name their parent. *)
Lemma btree_child_first q k :
  0 <= q -> 0 < k -> (2 * q + 1) * 2 ^ k < nranks ->
  let c := (2 * q + 1) * 2 ^ k - 2 ^ (k - 1) in
  0 < c < nranks /\ exists cb, t c = Ret cb /\ bt_u cb = (2 * q + 1) * 2 ^ k /\ bt_type cb = Some 0.
Proof.
  intros Hq Hk Hlt c. pose proof (pow2_pos (k - 1) ltac:(lia)).
  assert (2 ^ k = 2 * 2 ^ (k - 1)) as Hs.
  { rewrite <- Z.pow_succ_r by lia. f_equal. lia. }
  assert (c = (2 * (2 * q) + 1) * 2 ^ (k - 1)) as Hc by (unfold c; lia).
  split; [unfold c; nia|]. exists (btree_node nranks (2 * q) (k - 1)).
  split; [rewrite Hc; apply ncclGetBtree_node; unfold c in *; lia|].
  destruct (node_first_child (2 * q) (k - 1)) as [Hu Hty]; [lia|apply Z.even_spec; by exists q|lia|].
  rewrite Hu, Hty. split; [lia|done].
Qed.

Lemma btree_child_second r k i :
  0 <= r -> (2 ^ k | r) -> 0 <= i < k -> r + 2 ^ i < nranks ->
  (i < k - 1 \/ r = 0 -> nranks <= r + 2 ^ (i + 1)) -> (i = k - 1 -> r = 0 \/ ~ (2 ^ (k + 1) | r)) ->
  exists cb, t (r + 2 ^ i) = Ret cb /\ bt_u cb = r /\ bt_type cb = Some 1.
Proof.
  intros Hr [x Hx] Hi Hlt Hnext Hodd. pose proof (pow2_pos i ltac:(lia)).
  assert (2 ^ k = 2 ^ (k - i - 1) * (2 * 2 ^ i)) as Hs.
  { rewrite <- Z.pow_succ_r, <- Z.pow_add_r by lia. f_equal. lia. }
  assert (r + 2 ^ i = (2 * (x * 2 ^ (k - i - 1)) + 1) * 2 ^ i) as Hc by lia.
  pose proof (pow2_pos (k - i - 1) ltac:(lia)).
  exists (btree_node nranks (x * 2 ^ (k - i - 1)) i).
  split; [rewrite Hc; apply ncclGetBtree_node; nia|].
  destruct (node_second_child (x * 2 ^ (k - i - 1)) i) as [Hu Hty]; [lia| |].
  - rewrite <- Hc. assert (2 ^ (i + 1) = 2 * 2 ^ i) by (rewrite Z.pow_add_r; lia).
    destruct (Z.eq_dec i (k - 1)) as [Hik|]; [|right; lia].
    destruct (Hodd Hik) as [->|Hnd]; [right; lia|].
    left. replace (k - i - 1) with 0 by lia. rewrite Z.mul_1_r.
    destruct (Z.even x) eqn:Ev; [|done]. apply Z.even_spec in Ev as [h ->].
    exfalso. apply Hnd. exists h. rewrite Hx, Z.pow_add_r by lia. lia.
  - rewrite Hu, Hty, <- Hc. split; [lia|done].
Qed.

Lemma not_pow2_divide q k : 0 <= k -> ~ (2 ^ (k + 1) | (2 * q + 1) * 2 ^ k).
Proof.
  intros Hk [x Hx]. rewrite Z.pow_add_r in Hx by lia. pose proof (pow2_pos k Hk).
  assert (2 * q + 1 = 2 * x); [|lia]. apply (Z.mul_reg_r _ _ (2 ^ k)); lia.
Qed.

Lemma btree_child r b c ty :
  0 <= r < nranks -> t r = Ret b -> child_slot b ty c -> c <> -1 ->
  0 <= c < nranks /\ exists cb, t c = Ret cb /\ bt_u cb = r /\ bt_type cb = ty.
Proof.
  intros Hr Hb Hslot Hc. destruct (Z.eq_dec r 0) as [->|Hr0].
  - destruct (ncclGetBtree_root nranks ltac:(lia)) as (d & Hd & Hcases).
    rewrite Hd in Hb. injection Hb as <-. destruct Hslot as [[_ Hs]|[-> Hs]]; simpl in Hs; [congruence|].
    destruct Hcases as [?|(m & Hm & Hdm & Hmn)]; [lia|]. rewrite <- Hs, Hdm.
    pose proof (pow2_pos m ltac:(lia)). split; [lia|].
    apply (btree_child_second 0 (m + 1) m); try lia. apply Z.divide_0_r.
  - destruct (odd_pow2_split r) as (q & k & Hq & Hk & ->); [lia|]. pose proof (pow2_pos k Hk).
    rewrite ncclGetBtree_node in Hb by lia. injection Hb as <-.
    unfold child_slot, btree_node in Hslot. cbn [bt_d0 bt_d1] in Hslot.
    destruct (Z.eqb_spec k 0) as [->|Hk0]; [destruct Hslot as [[_ ?]|[_ ?]]; congruence|].
    destruct Hslot as [[-> <-]|[-> Hs]].
    + destruct (btree_child_first q k) as [Hrange Hcb]; [lia..|]. split; [lia|done].
    + apply largest_child_spec in Hs as [[? _]|(i & Hi & -> & Hlt & Hnext)]; [congruence| |lia].
      pose proof (pow2_pos i ltac:(lia)). split; [lia|].
      apply (btree_child_second _ k); try lia.
      * by exists (2 * q + 1).
      * intros _. right. by apply not_pow2_divide.
Qed.

(** Parents have more trailing zeros, so climbing ends at the root. *)
Lemma btree_climb fuel q k :
  0 <= q -> 0 <= k -> (2 * q + 1) * 2 ^ k < nranks -> Z.log2_up nranks - k <= Z.of_nat fuel ->
  exists n, Z.of_nat n <= Z.log2_up nranks - k /\ reaches t 0 n ((2 * q + 1) * 2 ^ k).
Proof.
  revert q k. induction fuel as [|fuel IH]; intros q k Hq Hk Hlt Hf; pose proof (pow2_pos k Hk);
    (assert (k < Z.log2_up nranks) by (apply Z.log2_up_lt_pow2; nia)); [lia|].
  assert (forall u, 0 < u < nranks -> (2 ^ (k + 1) | u) ->
    exists n, Z.of_nat n <= Z.log2_up nranks - (k + 1) /\ reaches t 0 n u) as Hup.
  { intros u Hu Hdiv. destruct (odd_pow2_split u) as (g & v & Hg & Hv & ->); [lia|].
    assert (k + 1 <= v).
    { destruct (Z.le_gt_cases (k + 1) v); [done|]. exfalso. apply (not_pow2_divide g v Hv).
      etransitivity; [|done]. exists (2 ^ (k - v)). rewrite <- Z.pow_add_r by lia. f_equal. lia. }
    destruct (IH g v) as (n & Hn1 & Hn2); [lia..|]. exists n. split; [lia|done]. }
  destruct (btree_parent ((2 * q + 1) * 2 ^ k)) as (b & p & Hb & Hu & _ & _); [lia|].
  assert ((2 ^ (k + 1) | bt_u b)) as Hdiv.
  { rewrite ncclGetBtree_node in Hb by lia. injection Hb as <-. rewrite Z.pow_add_r by lia.
    destruct (Z.even q) eqn:Ev;
      [destruct (Z.lt_ge_cases ((2 * q + 1) * 2 ^ k + 2 ^ k) nranks)|].
    - destruct (node_first_child q k) as [-> _]; [done..|]. exists (q + 1). lia.
    - destruct (node_second_child q k) as [-> _]; [lia|by right|]. exists q. lia.
    - destruct (node_second_child q k) as [-> _]; [lia|by left|]. exists q. lia. }
  destruct (Z.eq_dec (bt_u b) 0) as [Hz|].
  - exists 1%nat. split; [lia|]. eapply reaches_up; [nia|done|]. rewrite Hz. constructor.
  - destruct (Hup (bt_u b)) as (m & Hm1 & Hm2); [lia|done|].
    exists (S m). split; [lia|]. by eapply reaches_up; [nia|..].
Qed.

End btree_tree.

Lemma btree_is_tree nranks : nranks <= 2 ^ 30 -> is_tree nranks 0 (ncclGetBtree nranks).
Proof.
  intros Hn r Hr. destruct (Z.eq_dec r 0) as [->|Hr0].
  - destruct (ncclGetBtree_root nranks ltac:(lia)) as (d & Hd & _).
    eexists. split; [done|]. split; [done|done| |exists 0%nat; split; [|constructor]].
    + intros c ty. by apply btree_child.
    + simpl. apply Z.log2_up_nonneg.
  - destruct (btree_parent nranks Hn r ltac:(lia)) as (b & p & Hb & Hu & Hp & Hslot).
    exists b. split; [done|]. split.
    + split; [lia|done].
    + intros _. split; [done|]. by exists p.
    + intros c ty. by apply btree_child.
    + destruct (odd_pow2_split r) as (q & k & Hq & Hk & ->); [lia|].
      destruct (btree_climb nranks Hn (Z.to_nat (Z.log2_up nranks)) q k) as (n & Hn1 & Hn2); [lia..|].
      exists n. split; [lia|done].
Qed.

(** (C1) The per-rank answers of [ncclGetBtree] form one binary tree over
    [0..nranks-1] rooted at rank 0: each call succeeds without overflow, every
    other rank's parent lists it in the child slot its [parentChildType]
    announces, every child names its parent, and the root is reached in at most
    [ceil(log2 nranks)] steps. *)
Theorem ncclGetBtree_tree nranks r :
  0 <= r < nranks -> nranks <= 2 ^ 30 ->
  exists b, ncclGetBtree nranks r = Ret b /\ tree_ok nranks 0 (ncclGetBtree nranks) r b.
Proof. intros Hr Hn. by apply btree_is_tree. Qed.

Lemma ncclGetBtree_tree_witness :
  exists b, ncclGetBtree 14 13 = Ret b /\ tree_ok 14 0 (ncclGetBtree 14) 13 b.
Proof. apply (ncclGetBtree_tree 14 13); lia. Defined.

(** ** The second tree *)

(** Renaming the nodes of a tree by a bijection. *)
Section conjugate.
  Context (nranks root : Z) (t : Z -> outcome btree) (f g : Z -> Z).
  Context (Hf : forall x, 0 <= x < nranks -> 0 <= f x < nranks).
  Context (Hg : forall x, 0 <= x < nranks -> 0 <= g x < nranks).
  Context (Hfg : forall x, 0 <= x < nranks -> f (g x) = x).
  Context (Hgf : forall x, 0 <= x < nranks -> g (f x) = x).
Let h x := if x =? -1 then -1 else f x.

  (** The answer for rank [r] is the one for [g r] with its links renamed by [f]. *)
Definition conj_tree (r : Z) : outcome btree :=
  b ← t (g r); Ret (Btree (h (bt_u b)) (h (bt_d0 b)) (h (bt_d1 b)) (bt_type b)).

Lemma conj_reaches n r x :
  0 <= r < nranks -> 0 <= root < nranks -> is_tree nranks root t ->
  reaches t root n x -> x = g r -> reaches conj_tree (f root) n r.
Proof.
  intros Hr Hroot Ht Hre. revert r Hr. induction Hre as [|n x b Hne Hb Hre IH]; intros r Hr Hx.
  - rewrite Hx, Hfg by done. constructor.
  - subst x. destruct (Ht (g r)) as (b' & Hb' & Hok); [auto|]. rewrite Hb in Hb'. injection Hb' as <-.
    destruct (tree_parent _ _ _ _ _ Hok Hne) as [Hu _].
    eapply reaches_up; [intros ->; by rewrite Hgf in Hne|unfold conj_tree; by rewrite Hb|].
    cbn [bt_u]. unfold h. destruct (Z.eqb_spec (bt_u b) (-1)); [lia|]. apply IH; [auto|].
    symmetry. auto.
Qed.

Lemma h_in_range x y : x = h y -> x <> -1 -> (y = -1 \/ 0 <= y < nranks) -> 0 <= y < nranks /\ x = f y.
Proof. intros -> Hx Hy. unfold h in *. destruct (Z.eqb_spec y (-1)); [done|]. split; [lia|done]. Qed.

Lemma conj_is_tree :
  0 <= root < nranks -> is_tree nranks root t -> is_tree nranks (f root) conj_tree.
Proof.
  intros Hroot Ht r Hr. destruct (Ht (g r)) as (b & Hb & Hok); [auto|].
  eexists. split; [unfold conj_tree; by rewrite Hb|].
  assert (r = f root <-> g r = root) as Hiff.
  { split; [intros ->; auto|intros <-; symmetry; auto]. }
  split; cbn [bt_u bt_d0 bt_d1 bt_type].
  - rewrite Hiff, <- (tree_root _ _ _ _ _ Hok). unfold h.
    destruct (Z.eqb_spec (bt_u b) (-1)) as [|Hne]; [done|].
    destruct (tree_parent _ _ _ _ _ Hok) as [Hu _]; [by rewrite <- (tree_root _ _ _ _ _ Hok)|].
    specialize (Hf _ Hu). lia.
  - rewrite Hiff. intros Hne. destruct (tree_parent _ _ _ _ _ Hok Hne) as (Hu & p & Hp & Hslot).
    unfold h. destruct (Z.eqb_spec (bt_u b) (-1)); [lia|]. split; [auto|].
    eexists. split; [unfold conj_tree; rewrite Hgf by done; by rewrite Hp|].
    unfold child_slot in *. cbn [bt_d0 bt_d1].
    assert (forall y, y = g r -> h y = r) as Hback.
    { intros y ->. unfold h. pose proof (Hg r Hr). destruct (Z.eqb_spec (g r) (-1)); [lia|auto]. }
    naive_solver.
  - intros c ty Hslot Hc.
    assert (exists y, child_slot b ty y /\ c = h y) as (y & Hy & ->).
    { unfold child_slot in *. cbn [bt_d0 bt_d1] in Hslot. naive_solver. }
    assert (y <> -1) as Hy1 by (intros ->; by apply Hc).
    destruct (tree_child _ _ _ _ _ Hok y ty Hy Hy1) as (Hyr & cb & Hcb & Hup & Hty).
    unfold h in *. destruct (Z.eqb_spec y (-1)); [done|]. split; [auto|].
    eexists. split; [unfold conj_tree; rewrite Hgf by done; by rewrite Hcb|].
    cbn [bt_u bt_type]. rewrite Hup. pose proof (Hg r Hr). unfold h.
    destruct (Z.eqb_spec (g r) (-1)); [lia|]. split; [auto|done].
  - destruct (tree_depth _ _ _ _ _ Hok) as (n & Hn & Hre). exists n. split; [done|].
    by eapply conj_reaches.
Qed.
End conjugate.

(** The root of the second tree. *)
Definition dtree_root1 (nranks : Z) : Z :=
  if nranks `rem` 2 =? 1 then 1 `rem` nranks else nranks - 1.

Lemma dtree_split nranks r :
  0 <= r < nranks -> nranks <= 2 ^ 30 ->
  exists b0 b1, ncclGetDtree nranks r = Ret (b0, b1) /\
    ncclGetBtree nranks r = Ret b0 /\
    (if nranks `rem` 2 =? 1
     then conj_tree (ncclGetBtree nranks) (fun x => (x + 1) `rem` nranks)
            (fun x => (x - 1 + nranks) `rem` nranks) r = Ret b1
     else conj_tree (ncclGetBtree nranks) (fun x => nranks - 1 - x) (fun x => nranks - 1 - x) r = Ret b1).
Proof.
  intros Hr Hn. unfold ncclGetDtree, conj_tree.
  destruct (btree_is_tree nranks Hn r Hr) as (b0 & Hb0 & _). rewrite Hb0. cbn [mbind outcome_bind].
  destruct (Z.eqb_spec (nranks `rem` 2) 1).
  - destruct (btree_is_tree nranks Hn ((r - 1 + nranks) `rem` nranks)) as (b1 & Hb1 & _).
    { rewrite rem_mod_nonneg by lia. apply Z.mod_pos_bound. lia. }
    rewrite Hb1. cbn [mbind outcome_bind]. eauto.
  - destruct (btree_is_tree nranks Hn (nranks - 1 - r)) as (b1 & Hb1 & _); [lia|].
    rewrite Hb1. cbn [mbind outcome_bind]. eauto.
Qed.

(** The two components as functions of the rank. *)
Definition dtree0 (nranks r : Z) : outcome btree := fst <$> ncclGetDtree nranks r.
Definition dtree1 (nranks r : Z) : outcome btree := snd <$> ncclGetDtree nranks r.

Lemma reaches_ext nranks root t t' n r :
  (forall x, 0 <= x < nranks -> t x = t' x) -> is_tree nranks root t -> 0 <= r < nranks ->
  reaches t root n r -> reaches t' root n r.
Proof.
  intros Hext Ht Hr Hre. revert Hr. induction Hre as [|n x b Hne Hb Hre IH]; intros Hr; [constructor|].
  destruct (Ht x Hr) as (b' & Hb' & Hok). rewrite Hb in Hb'. injection Hb' as <-.
  eapply reaches_up; [done|by rewrite <- Hext|]. apply IH.
  by destruct (tree_parent _ _ _ _ _ Hok Hne).
Qed.

Lemma is_tree_ext nranks root t t' :
  (forall x, 0 <= x < nranks -> t x = t' x) -> is_tree nranks root t -> is_tree nranks root t'.
Proof.
  intros Hext Ht r Hr. destruct (Ht r Hr) as (b & Hb & Hok).
  exists b. split; [by rewrite <- Hext|]. destruct Hok as [H1 H2 H3 (n & Hn & Hre)]. split.
  - done.
  - intros Hne. destruct (H2 Hne) as (Hu & p & Hp & Hs). split; [done|]. exists p. by rewrite <- Hext.
  - intros c ty Hs Hc. destruct (H3 c ty Hs Hc) as (Hcr & cb & Hcb & ?). split; [done|].
    exists cb. by rewrite <- Hext.
  - exists n. split; [done|]. by eapply reaches_ext.
Qed.

Lemma dtree0_tree nranks : nranks <= 2 ^ 30 -> is_tree nranks 0 (dtree0 nranks).
Proof.
  intros Hn. eapply is_tree_ext; [|by apply btree_is_tree]. intros x Hx. unfold dtree0.
  destruct (dtree_split nranks x Hx Hn) as (b0 & b1 & -> & -> & _). done.
Qed.

Lemma dtree1_tree nranks :
  1 <= nranks <= 2 ^ 30 -> is_tree nranks (dtree_root1 nranks) (dtree1 nranks).
Proof.
  intros Hn. unfold dtree_root1. pose proof (dtree_split nranks) as Hsplit.
  destruct (Z.eqb_spec (nranks `rem` 2) 1).
  - eapply is_tree_ext; [|eapply (conj_is_tree nranks 0 (ncclGetBtree nranks)
      (fun x => (x + 1) `rem` nranks) (fun x => (x - 1 + nranks) `rem` nranks)); [..|apply btree_is_tree; lia]].
    + intros x Hx. unfold dtree1. by destruct (Hsplit x Hx) as (b0 & b1 & -> & _ & ->); [lia|].
    + intros x Hx. rewrite rem_mod_nonneg by lia. apply Z.mod_pos_bound. lia.
    + intros x Hx. rewrite rem_mod_nonneg by lia. apply Z.mod_pos_bound. lia.
    + intros x Hx. rewrite (rem_mod_nonneg (x - 1 + nranks)) by lia.
      pose proof (Z.mod_pos_bound (x - 1 + nranks) nranks ltac:(lia)).
      rewrite rem_mod_nonneg by lia. rewrite Z.add_mod_idemp_l by lia.
      replace (x - 1 + nranks + 1) with (x + 1 * nranks) by lia.
      rewrite Z.mod_add by lia. apply Z.mod_small. lia.
    + intros x Hx. rewrite (rem_mod_nonneg (x + 1)) by lia.
      pose proof (Z.mod_pos_bound (x + 1) nranks ltac:(lia)).
      rewrite rem_mod_nonneg by lia.
      replace ((x + 1) mod nranks - 1 + nranks) with ((x + 1) mod nranks + (nranks - 1)) by lia.
      rewrite Z.add_mod_idemp_l by lia.
      replace (x + 1 + (nranks - 1)) with (x + 1 * nranks) by lia.
      rewrite Z.mod_add by lia. apply Z.mod_small. lia.
    + lia.
  - replace (nranks - 1) with (nranks - 1 - 0) by lia.
    eapply is_tree_ext; [|eapply (conj_is_tree nranks 0 (ncclGetBtree nranks)
      (fun x => nranks - 1 - x) (fun x => nranks - 1 - x)); try lia; apply btree_is_tree; lia].
    intros x Hx. unfold dtree1. by destruct (Hsplit x Hx) as (b0 & b1 & -> & _ & ->); [lia|].
Qed.

(** A node without children. *)
Definition is_leaf (b : btree) : Prop := bt_d0 b = -1 /\ bt_d1 b = -1.

Lemma btree_odd_leaf nranks r b :
  0 <= r < nranks -> nranks <= 2 ^ 30 -> Z.odd r = true -> ncclGetBtree nranks r = Ret b -> is_leaf b.
Proof.
  intros Hr Hn Ho Hb. apply Z.odd_spec in Ho as [h ->].
  pose proof (ncclGetBtree_node nranks h 0 ltac:(lia) ltac:(lia) ltac:(simpl; lia) Hn) as Hnode.
  change (2 ^ 0) with 1 in Hnode. rewrite Z.mul_1_r in Hnode. rewrite Hb in Hnode.
  injection Hnode as ->. done.
Qed.

Lemma conj_leaf t f g r b b' :
  conj_tree t f g r = Ret b' -> t (g r) = Ret b -> is_leaf b -> is_leaf b'.
Proof.
  unfold conj_tree. intros H Hb [H0 H1]. rewrite Hb in H. simpl in H. injection H as <-.
  unfold is_leaf. simpl. by rewrite H0, H1.
Qed.

Lemma dtree_leaf nranks r b0 b1 :
  0 <= r < nranks -> nranks <= 2 ^ 30 -> Z.even nranks = true \/ r <> 0 ->
  ncclGetDtree nranks r = Ret (b0, b1) -> is_leaf b0 \/ is_leaf b1.
Proof.
  intros Hr Hn Hcase Hd. destruct (dtree_split nranks r Hr Hn) as (c0 & c1 & Heq & H0 & H1).
  rewrite Hd in Heq. injection Heq as <- <-.
  destruct (Z.odd r) eqn:Ho; [left; by eapply btree_odd_leaf|right].
  assert (Z.even r = true) as He by (rewrite <- Z.negb_odd, Ho; done). apply Z.even_spec in He as [x Hx].
  destruct (Z.eqb_spec (nranks `rem` 2) 1) as [Hodd|Heven].
  - rewrite rem_mod_nonneg in Hodd by lia.
    assert (r <> 0). { destruct Hcase as [He|]; [|done]. apply Z.even_spec in He as [y ->]. exfalso.
      rewrite Z.mul_comm, Z.mod_mul in Hodd; lia. }
    destruct (btree_is_tree nranks Hn (r - 1)) as (b & Hb & _); [lia|].
    assert ((r - 1 + nranks) `rem` nranks = r - 1) as Hrem.
    { rewrite rem_mod_nonneg by lia. replace (r - 1 + nranks) with (r - 1 + 1 * nranks) by lia.
      rewrite Z.mod_add by lia. apply Z.mod_small. lia. }
    eapply conj_leaf; [done|cbv beta; rewrite Hrem; done|]. eapply btree_odd_leaf; [|done| |done]; [lia|].
    apply Z.odd_spec. exists (x - 1). lia.
  - destruct (btree_is_tree nranks Hn (nranks - 1 - r)) as (b & Hb & _); [lia|].
    eapply conj_leaf; [done|done|]. eapply btree_odd_leaf; [|done| |done]; [lia|].
    rewrite rem_mod_nonneg in Heven by lia. apply Z.odd_spec.
    exists (nranks / 2 - 1 - x). pose proof (Z.div_mod nranks 2). pose proof (Z.mod_pos_bound nranks 2). lia.
Qed.

(** (C2) [ncclGetDtree] returns two binary trees over the same nodes, the second
    the mirror (even) or shift (odd) of the first: both satisfy the tree
    property, and every node (node 0 of an odd count excepted) is a leaf of at
    least one of them, so no node forwards data for both halves. *)
Theorem ncclGetDtree_trees nranks r :
  0 <= r < nranks -> nranks <= 2 ^ 30 ->
  exists b0 b1, ncclGetDtree nranks r = Ret (b0, b1) /\
    tree_ok nranks 0 (dtree0 nranks) r b0 /\
    tree_ok nranks (dtree_root1 nranks) (dtree1 nranks) r b1 /\
    (Z.even nranks = true \/ r <> 0 -> is_leaf b0 \/ is_leaf b1).
Proof.
  intros Hr Hn. destruct (dtree_split nranks r Hr Hn) as (b0 & b1 & Hd & _).
  exists b0, b1. split; [done|].
  destruct (dtree0_tree nranks Hn r Hr) as (c0 & Hc0 & Ht0).
  destruct (dtree1_tree nranks ltac:(lia) r Hr) as (c1 & Hc1 & Ht1).
  unfold dtree0, dtree1 in Hc0, Hc1. rewrite Hd in Hc0, Hc1. simpl in Hc0, Hc1.
  injection Hc0 as <-. injection Hc1 as <-. split; [done|]. split; [done|].
  intros Hcase. by eapply dtree_leaf.
Qed.

Lemma ncclGetDtree_trees_witness :
  exists b0 b1, ncclGetDtree 13 7 = Ret (b0, b1) /\
    tree_ok 13 0 (dtree0 13) 7 b0 /\ tree_ok 13 (dtree_root1 13) (dtree1 13) 7 b1 /\
    (Z.even 13 = true \/ 7 <> 0 -> is_leaf b0 \/ is_leaf b1).
Proof. apply (ncclGetDtree_trees 13 7); lia. Defined.
