(* ===== verification/Rings.v ===== *)
(** * Ring construction and checking (src/src/graph/rings.cc)

    [ncclBuildRings] follows the [next] pointers of every channel from the local
    rank, writes the ranks it meets into [rings] and rejects a channel that does
    not loop back or misses a rank.  The log lines ([dumpLine], [snprintf]) are
    not modelled; [prev] is not read by the code. *)
From S2P Require Import Prelude.

(** The first inner loop: write the ring, return the array and the last [current]. *)
Definition ring_walk (r nranks : Z) (next : list Z) (rings : list Z) (rank : Z) : outcome (list Z * Z) :=
  for_range 0 nranks (fun i '(rings, current) =>
    rings' ← zset rings (r * nranks + i) current;
    current' ← zget next (r * nranks + current);
    Ret (rings', current')) (rings, rank).

(** [for (j=0; j<nranks; j++) if (rings[r*nranks+j] == i) { found = 1; break; }] *)
Fixpoint ring_find (n : nat) (j r nranks : Z) (rings : list Z) (i : Z) : outcome bool :=
  match n with
  | O => Ret false
  | S n =>
    x ← zget rings (r * nranks + j);
    if x =? i then Ret true else ring_find n (j + 1) r nranks rings i
  end.

Definition ring_check (r nranks : Z) (rings : list Z) : outcome unit :=
  for_range 0 nranks (fun i _ =>
    found ← ring_find (Z.to_nat nranks) 0 r nranks rings i;
    if (found : bool) then Ret () else Fail ncclInternalError) ().

Definition ncclBuildRings (nrings : Z) (rings : list Z) (rank nranks : Z) (next : list Z)
    : outcome (list Z) :=
  for_range 0 nrings (fun r rings =>
    '(rings, current) ← ring_walk r nranks next rings rank;
    _ ← (if negb (current =? rank) then Fail ncclInternalError else Ret ());
    _ ← ring_check r nranks rings;
    Ret rings) rings.

(** ** Specification *)

(** The [k]-th rank met on channel [r]. *)
Definition hop (next : list Z) (nranks r : Z) (x : Z) : Z := znth next (r * nranks + x).
Definition ring_at (next : list Z) (nranks r rank : Z) (k : Z) : Z :=
  Nat.iter (Z.to_nat k) (hop next nranks r) rank.

(** The part of [rings] that belongs to channel [r]. *)
Definition segment (rings : list Z) (nranks r : Z) : list Z :=
  (fun k => znth rings (r * nranks + k)) <$> seqZ 0 nranks.

(** Channel [r] of [next] is one cycle through all the ranks, starting at [rank]. *)
Record single_cycle (next : list Z) (nranks r rank : Z) : Prop := {
  cycle_closes : ring_at next nranks r rank nranks = rank;
  cycle_covers : (ring_at next nranks r rank <$> seqZ 0 nranks) ≡ₚ seqZ 0 nranks;
}.

(** A surjective list of length [n] over [0..n-1] is a permutation. *)
Lemma covering_perm (f : Z -> Z) n :
  0 <= n -> (forall i, 0 <= i < n -> exists k, 0 <= k < n /\ f k = i) -> (f <$> seqZ 0 n) ≡ₚ seqZ 0 n.
Proof.
  intros Hn Hcov. symmetry. apply NoDup_Permutation_bis.
  - apply NoDup_ListNoDup, NoDup_seqZ.
  - by rewrite length_fmap.
  - intros i Hi. apply list_elem_of_In, elem_of_seqZ in Hi.
    destruct (Hcov i) as (k & Hk & <-); [lia|]. apply list_elem_of_In, list_elem_of_fmap.
    exists k. split; [done|]. apply elem_of_seqZ. lia.
Qed.

Lemma perm_covering (f : Z -> Z) n :
  (f <$> seqZ 0 n) ≡ₚ seqZ 0 n -> forall i, 0 <= i < n -> exists k, 0 <= k < n /\ f k = i.
Proof.
  intros Hp i Hi. assert (i ∈ (f <$> seqZ 0 n)) as Hel.
  { rewrite Hp. apply elem_of_seqZ. lia. }
  apply list_elem_of_fmap in Hel as (k & -> & Hk). apply elem_of_seqZ in Hk. exists k. split; [lia|done].
Qed.

Section proofs.
  Context (nranks rank nrings : Z) (next : list Z).
  Context (Hrank : 0 <= rank < nranks) (Hnrings : 0 <= nrings).
  Context (Hlen : nrings * nranks <= Z.of_nat (length next)).
  Context (Hin : forall p, 0 <= p < nrings * nranks -> 0 <= znth next p < nranks).

  Notation at_ r k := (ring_at next nranks r rank k).

Lemma ring_at_succ r k : 0 <= k -> at_ r (k + 1) = hop next nranks r (at_ r k).
Proof. intros. unfold ring_at. by replace (Z.to_nat (k + 1)) with (S (Z.to_nat k)) by lia. Qed.

Lemma ring_at_range r k : 0 <= r < nrings -> 0 <= k -> 0 <= at_ r k < nranks.
Proof.
  intros Hr Hk. revert k Hk. apply natlike_ind; [done|]. intros k Hk IH.
  replace (Z.succ k) with (k + 1) by lia. rewrite ring_at_succ by done. apply Hin. nia.
Qed.

(** The walk writes the orbit of [rank] and leaves the other channels alone. *)
Lemma ring_walk_spec r rings :
  0 <= r < nrings -> Z.of_nat (length rings) = nrings * nranks ->
  wp (ring_walk r nranks next rings rank) (fun '(rings', current) =>
    length rings' = length rings /\ current = at_ r nranks /\
    (forall k, 0 <= k < nranks -> znth rings' (r * nranks + k) = at_ r k) /\
    (forall p, 0 <= p -> p < r * nranks \/ r * nranks + nranks <= p -> znth rings' p = znth rings p)).
Proof.
  intros Hr Hl. unfold ring_walk.
  apply (wpx_for (fun i '(rings', current) =>
    length rings' = length rings /\ current = at_ r i /\
    (forall k, 0 <= k < i -> znth rings' (r * nranks + k) = at_ r k) /\
    (forall p, 0 <= p -> p < r * nranks \/ r * nranks + nranks <= p -> znth rings' p = znth rings p))).
  - lia.
  - repeat split; done || (intros; lia).
  - intros i [rings' current] Hi (Hl' & -> & Hw & Hkeep).
    assert (r * nranks + i < nrings * nranks) by nia.
    rewrite zset_Ret by (rewrite Hl'; nia). cbn [mbind outcome_bind].
    pose proof (ring_at_range r i ltac:(done) ltac:(lia)).
    rewrite zget_znth by nia. cbn [mbind outcome_bind wpx].
    rewrite length_insert. split; [done|]. split; [by rewrite ring_at_succ by lia|].
    split.
    + intros k Hk. rewrite znth_insert by nia.
      destruct (Z.eqb_spec (r * nranks + i) (r * nranks + k)) as [Heq|Hne].
      * f_equal. lia.
      * apply Hw. lia.
    + intros p Hp Hout. rewrite znth_insert by nia.
      destruct (Z.eqb_spec (r * nranks + i) p); [nia|]. by apply Hkeep.
  - intros [rings' current]. done.
Qed.

Lemma ring_find_spec n j r rings i :
  0 <= r < nrings -> 0 <= j -> j + Z.of_nat n <= nranks -> Z.of_nat (length rings) = nrings * nranks ->
  exists b, ring_find n j r nranks rings i = Ret b /\
    (b = true <-> exists k, j <= k < j + Z.of_nat n /\ znth rings (r * nranks + k) = i).
Proof.
  intros Hr Hj Hn Hl. revert j Hj Hn. induction n as [|n IH]; intros j Hj Hn; cbn [ring_find].
  { exists false. split; [done|]. split; [done|]. intros (k & Hk & _). lia. }
  rewrite zget_znth by nia. cbn [mbind outcome_bind].
  destruct (Z.eqb_spec (znth rings (r * nranks + j)) i) as [Heq|Hne].
  - exists true. split; [done|]. split; [|done]. intros _. exists j. split; [lia|done].
  - destruct (IH (j + 1)) as (b & Hb & Hiff); [lia..|]. exists b. split; [done|]. rewrite Hiff.
    split; intros (k & Hk & Hx); exists k; (split; [|done]); [lia|].
    destruct (Z.eq_dec k j) as [->|]; [done|lia].
Qed.

(** The check passes exactly when every rank occurs. *)
Lemma ring_check_spec r rings :
  0 <= r < nrings -> Z.of_nat (length rings) = nrings * nranks ->
  wpx (ring_check r nranks rings)
    (fun _ => forall i, 0 <= i < nranks -> exists k, 0 <= k < nranks /\ znth rings (r * nranks + k) = i)
    (fun e => e = ncclInternalError /\
       ~ forall i, 0 <= i < nranks -> exists k, 0 <= k < nranks /\ znth rings (r * nranks + k) = i).
Proof.
  intros Hr Hl. unfold ring_check.
  apply (wpx_for (fun i _ => forall i', 0 <= i' < i ->
    exists k, 0 <= k < nranks /\ znth rings (r * nranks + k) = i')).
  - lia.
  - intros; lia.
  - intros i [] Hi Hall.
    destruct (ring_find_spec (Z.to_nat nranks) 0 r rings i) as (b & -> & Hb); [lia..|].
    cbn [mbind outcome_bind]. destruct b; cbn [wpx].
    + intros i' Hi'. destruct (Z.eq_dec i' i) as [->|]; [|apply Hall; lia].
      destruct (proj1 Hb eq_refl) as (k & Hk & Hx). exists k. split; [lia|done].
    + split; [done|]. intros Hc. destruct (Hc i Hi) as (k & Hk & Hx).
      enough (false = true) by done. apply Hb. exists k. split; [lia|done].
  - auto.
Qed.

(** The whole function: success if and only if every channel is a cycle, and
    then the segments hold the cycles. *)
Lemma ncclBuildRings_spec rings :
  Z.of_nat (length rings) = nrings * nranks ->
  wpx (ncclBuildRings nrings rings rank nranks next)
    (fun rings' => length rings' = length rings /\ forall r, 0 <= r < nrings ->
       single_cycle next nranks r rank /\
       segment rings' nranks r = ring_at next nranks r rank <$> seqZ 0 nranks)
    (fun e => e = ncclInternalError /\ exists r, 0 <= r < nrings /\ ~ single_cycle next nranks r rank).
Proof.
  intros Hl. unfold ncclBuildRings.
  apply (wpx_for (fun n rings' => length rings' = length rings /\ forall r, 0 <= r < n ->
       single_cycle next nranks r rank /\
       segment rings' nranks r = ring_at next nranks r rank <$> seqZ 0 nranks)).
  - lia.
  - split; [done|]. intros; lia.
  - intros r rings1 Hr (Hl1 & Hsofar). wp_bind.
    eapply wpx_mono; [apply ring_walk_spec; [done|lia]| |done].
    intros [rings2 current] (Hl2 & -> & Hw & Hkeep).
    destruct (Z.eqb_spec (ring_at next nranks r rank nranks) rank) as [Hcl|Hcl]; cbn [negb mbind outcome_bind wpx].
    2: { split; [done|]. exists r. split; [done|]. intros []. done. }
    assert (segment rings2 nranks r = ring_at next nranks r rank <$> seqZ 0 nranks) as Hseg.
    { apply list_fmap_ext. intros i k Hk. apply Hw.
      apply list_elem_of_lookup_2, elem_of_seqZ in Hk. lia. }
    wp_bind. eapply wpx_mono; [apply ring_check_spec; [done|lia]| |].
    + intros [] Hcov. cbn [mbind outcome_bind wpx]. split; [congruence|].
      intros r' Hr'. destruct (Z.eq_dec r' r) as [->|Hne].
      * split; [|done]. split; [done|]. apply covering_perm; [lia|]. intros i Hi.
        destruct (Hcov i Hi) as (k & Hk & Hx). exists k. split; [done|]. rewrite <- Hx. symmetry. by apply Hw.
      * destruct (Hsofar r' ltac:(lia)) as [Hcyc Hseg']. split; [done|]. rewrite <- Hseg'.
        apply list_fmap_ext. intros i k Hk. apply list_elem_of_lookup_2, elem_of_seqZ in Hk.
        apply Hkeep; nia.
    + intros e [-> Hno]. split; [done|]. exists r. split; [done|]. intros [_ Hcov].
      apply Hno. intros i Hi. destruct (perm_covering _ _ Hcov i Hi) as (k & Hk & Hx).
      exists k. split; [done|]. rewrite <- Hx. by apply Hw.
  - done.
Qed.

End proofs.

(** (C3) [ncclBuildRings] decides whether every channel's [next] array is a
    single cycle through all ranks: on arrays of the right size with in-range
    entries it never leaves its buffers; it succeeds when all channels are
    cycles, and [rings] then lists for each channel the ranks in visiting order
    from the local rank, each exactly once; it returns [ncclInternalError] when
    one of them is not. *)
Theorem ncclBuildRings_correct nrings rings rank nranks next :
  0 <= rank < nranks -> 0 <= nrings ->
  Z.of_nat (length rings) = nrings * nranks -> nrings * nranks <= Z.of_nat (length next) ->
  (forall p, 0 <= p < nrings * nranks -> 0 <= znth next p < nranks) ->
  ((forall r, 0 <= r < nrings -> single_cycle next nranks r rank) /\
   exists rings', ncclBuildRings nrings rings rank nranks next = Ret rings' /\
     forall r, 0 <= r < nrings ->
       segment rings' nranks r = ring_at next nranks r rank <$> seqZ 0 nranks) \/
  ((exists r, 0 <= r < nrings /\ ~ single_cycle next nranks r rank) /\
   ncclBuildRings nrings rings rank nranks next = Fail ncclInternalError).
Proof.
  intros Hrank Hnr Hl Hln Hin.
  pose proof (ncclBuildRings_spec nranks rank nrings next Hrank Hnr Hln Hin rings Hl) as Hspec.
  destruct (ncclBuildRings nrings rings rank nranks next) as [rings'|e|]; simpl in Hspec; [left|right|done].
  - destruct Hspec as [_ Hspec]. split; [by intros; apply Hspec|]. exists rings'. split; [done|].
    intros. by apply Hspec.
  - destruct Hspec as [-> Hex]. done.
Qed.

Lemma ncclBuildRings_correct_witness :
  let next := [1; 2; 3; 0; 3; 0; 1; 2] in
  (0 <= 1 < 4) /\
  (((forall r, 0 <= r < 2 -> single_cycle next 4 r 1) /\
    exists rings', ncclBuildRings 2 (replicate 8 0) 1 4 next = Ret rings' /\
      forall r, 0 <= r < 2 -> segment rings' 4 r = ring_at next 4 r 1 <$> seqZ 0 4) \/
   ((exists r, 0 <= r < 2 /\ ~ single_cycle next 4 r 1) /\
    ncclBuildRings 2 (replicate 8 0) 1 4 next = Fail ncclInternalError)).
Proof.
  intros next. split; [lia|].
  apply (ncclBuildRings_correct 2 (replicate 8 0) 1 4 next); [lia|lia|done|simpl; lia|].
  change (2 * 4) with 8. enum ltac:(vm_compute; split; congruence).
Defined.
