(* ===== verification/Connect.v ===== *)
(** * Ring and tree wiring between nodes (src/src/graph/connect.cc)

    [ncclTopoPreset] turns the node-local search result into the links of one
    rank, [ncclTopoPostset] combines the answers of all ranks into the rings and
    trees of the communicator.  Log lines are not modelled; the communicator is
    reduced to the fields these functions read or write; the environment
    parameters are the record [params]; link bandwidths are rationals. *)
From Stdlib Require Export QArith.
From S2P Require Import Prelude Bitops Device Trees Rings.

(** ** Data *)
Record ncclRing := MkRing { ring_prev : Z; ring_next : Z }.
Record ncclTree := MkTree { tr_depth : Z; tr_up : Z; tr_down : list Z }.
Record ncclDirect := MkDirect {
  cd_depth : Z; cd_out : Z; cd_nHeads : Z; cd_headRank : Z; cd_shift : Z;
  cd_heads : list Z; cd_up : list Z; cd_down : list Z }.
Record ncclNvls := MkNvls {
  nv_out : Z; nv_nHeads : Z; nv_headRank : Z; nv_up : list Z; nv_down : Z;
  nv_treeUp : Z; nv_treeDown : list Z }.
Record ncclChannel := MkChannel {
  ch_ring : ncclRing; ch_tree : ncclTree; ch_collnetChain : ncclTree;
  ch_collnetDirect : ncclDirect; ch_nvls : ncclNvls }.

Definition set_ring (ch : ncclChannel) r := MkChannel r (ch_tree ch) (ch_collnetChain ch) (ch_collnetDirect ch) (ch_nvls ch).
Definition set_tree (ch : ncclChannel) t := MkChannel (ch_ring ch) t (ch_collnetChain ch) (ch_collnetDirect ch) (ch_nvls ch).
Definition set_chain (ch : ncclChannel) t := MkChannel (ch_ring ch) (ch_tree ch) t (ch_collnetDirect ch) (ch_nvls ch).
Definition set_direct (ch : ncclChannel) d := MkChannel (ch_ring ch) (ch_tree ch) (ch_collnetChain ch) d (ch_nvls ch).
Definition set_nvls (ch : ncclChannel) n := MkChannel (ch_ring ch) (ch_tree ch) (ch_collnetChain ch) (ch_collnetDirect ch) n.

Definition NCCL_TOPO_PATTERN_BALANCED_TREE : Z := 1.
Definition NCCL_TOPO_PATTERN_SPLIT_TREE : Z := 2.
Definition NCCL_TOPO_PATTERN_TREE : Z := 3.

(** The result of the node-local search. *)
Record ncclTopoGraph := {
  tg_pattern : Z; tg_crossNic : Z; tg_nChannels : Z;
  tg_bwIntra : Q; tg_bwInter : Q; tg_intra : list Z }.

(** [graphs[NCCL_ALGO_*]] *)
Record topoGraphs := {
  g_ring : ncclTopoGraph; g_tree : ncclTopoGraph; g_collnetChain : ncclTopoGraph;
  g_collnetDirect : ncclTopoGraph; g_nvls : ncclTopoGraph }.

Record ncclTopoRanks := MkTopoRanks {
  ringRecv : list Z; ringSend : list Z; ringPrev : list Z; ringNext : list Z;
  treeToParent : list Z; treeToChild0 : list Z; treeToChild1 : list Z;
  nvlsHeads : list Z; nvlsHeadNum : Z }.

Record ncclComm := MkComm {
  rank : Z; nRanks : Z; node : Z; nNodes : Z; localRanks : Z;
  rankToNode : list Z;
  collNetSupport : Z; minCompCap : Z; netDeviceUnpack : bool;
  minCTAs : Z; maxCTAs : Z; sharedOwner : bool; tpNChannels : Z;
  nChannels : Z; collChannels : Z; nvlsChannels : Z;
  comm_nvlsHeads : list Z; channels : list ncclChannel }.

Definition set_nChannels (c : ncclComm) n := MkComm (rank c) (nRanks c) (node c) (nNodes c) (localRanks c) (rankToNode c) (collNetSupport c) (minCompCap c) (netDeviceUnpack c) (minCTAs c) (maxCTAs c) (sharedOwner c) (tpNChannels c) n (collChannels c) (nvlsChannels c) (comm_nvlsHeads c) (channels c).
Definition set_collChannels (c : ncclComm) n := MkComm (rank c) (nRanks c) (node c) (nNodes c) (localRanks c) (rankToNode c) (collNetSupport c) (minCompCap c) (netDeviceUnpack c) (minCTAs c) (maxCTAs c) (sharedOwner c) (tpNChannels c) (nChannels c) n (nvlsChannels c) (comm_nvlsHeads c) (channels c).
Definition set_nvlsChannels (c : ncclComm) n := MkComm (rank c) (nRanks c) (node c) (nNodes c) (localRanks c) (rankToNode c) (collNetSupport c) (minCompCap c) (netDeviceUnpack c) (minCTAs c) (maxCTAs c) (sharedOwner c) (tpNChannels c) (nChannels c) (collChannels c) n (comm_nvlsHeads c) (channels c).
Definition set_nvlsHeads (c : ncclComm) l := MkComm (rank c) (nRanks c) (node c) (nNodes c) (localRanks c) (rankToNode c) (collNetSupport c) (minCompCap c) (netDeviceUnpack c) (minCTAs c) (maxCTAs c) (sharedOwner c) (tpNChannels c) (nChannels c) (collChannels c) (nvlsChannels c) l (channels c).
Definition set_channels (c : ncclComm) l := MkComm (rank c) (nRanks c) (node c) (nNodes c) (localRanks c) (rankToNode c) (collNetSupport c) (minCompCap c) (netDeviceUnpack c) (minCTAs c) (maxCTAs c) (sharedOwner c) (tpNChannels c) (nChannels c) (collChannels c) (nvlsChannels c) (comm_nvlsHeads c) l.

(** [parent->nvlsSupport], [parent->config.splitShare],
    [parent->nvlsResources->nChannels], [parent->sharedRes->tpNChannels] *)
Record parentComm := {
  pa_nvlsSupport : bool; pa_splitShare : bool; pa_nvlsResources_nChannels : Z; pa_tpNChannels : Z }.

Record params := {
  MinNrings : Z; MaxNrings : Z; MinNchannels : Z; MaxNchannels : Z;
  WorkArgsBytes : Z; UnpackDoubleNChannels : bool }.

(** ** [ncclTopoPreset] *)

(** The fields reset at the top of the channel loop; the others (depths, nvls)
    keep their value. *)
Definition preset_reset (ch : ncclChannel) : ncclChannel :=
  MkChannel (MkRing (-1) (-1))
    (MkTree (tr_depth (ch_tree ch)) (-1) (replicate 3 (-1)))
    (MkTree (tr_depth (ch_collnetChain ch)) (-1) (replicate 3 (-1)))
    (MkDirect (cd_depth (ch_collnetDirect ch)) (-1) 0 (-1) 0 (replicate 8 (-1)) (replicate 7 (-1)) (replicate 7 (-1)))
    (ch_nvls ch).

Definition set_ring_ranks (t : ncclTopoRanks) (c recv send prev next : Z) : outcome ncclTopoRanks :=
  r ← zset (ringRecv t) c recv; s ← zset (ringSend t) c send;
  p ← zset (ringPrev t) c prev; n ← zset (ringNext t) c next;
  Ret (MkTopoRanks r s p n (treeToParent t) (treeToChild0 t) (treeToChild1 t) (nvlsHeads t) (nvlsHeadNum t)).

Definition set_tree_ranks (t : ncclTopoRanks) (c parent child0 child1 : Z) : outcome ncclTopoRanks :=
  p ← zset (treeToParent t) c parent; c0 ← zset (treeToChild0 t) c child0; c1 ← zset (treeToChild1 t) c child1;
  Ret (MkTopoRanks (ringRecv t) (ringSend t) (ringPrev t) (ringNext t) p c0 c1 (nvlsHeads t) (nvlsHeadNum t)).

(** One iteration [i] of the loop over the local ranks of channel [c]; [base] is
    [c*localRanks]. *)
Definition preset_rank (comm : ncclComm) (graphs : topoGraphs) (local c i : Z)
    (st : ncclChannel * ncclTopoRanks) : outcome (ncclChannel * ncclTopoRanks) :=
  let '(ch, tr) := st in
  let base := c * local in
  let ringIntra := tg_intra (g_ring graphs) in
  let treeIntra := tg_intra (g_tree graphs) in
  let chainIntra := tg_intra (g_collnetChain graphs) in
  r ← zget ringIntra (base + i);
  tr ← (if r =? rank comm then
          recv ← zget ringIntra (base + 0);
          send ← zget ringIntra (base + (local - 1));
          prev ← (if i =? 0 then Ret (-1) else zget ringIntra (base + (i - 1)));
          next ← (if i =? local - 1 then Ret (-1) else zget ringIntra (base + (i + 1)));
          set_ring_ranks tr c recv send prev next
        else Ret tr);
  t ← zget treeIntra (base + i);
  '(ch, tr) ← (if t =? rank comm then
          let child0Index := if tg_pattern (g_tree graphs) =? NCCL_TOPO_PATTERN_TREE then 0 else 1 in
          let child1Index := if tg_pattern (g_tree graphs) =? NCCL_TOPO_PATTERN_SPLIT_TREE then 1 else 0 in
          p ← zget treeIntra (base + 0);
          c0 ← zget treeIntra (base + child0Index);
          c1 ← zget treeIntra (base + child1Index);
          tr ← set_tree_ranks tr c p c0 c1;
          up ← (if i =? 0 then Ret (-1) else zget treeIntra (base + (i - 1)));
          down0 ← (if i =? local - 1 then Ret (-1) else zget treeIntra (base + (i + 1)));
          down ← zset (tr_down (ch_tree ch)) 0 down0;
          Ret (set_tree ch (MkTree (tr_depth (ch_tree ch)) up down), tr)
        else Ret (ch, tr));
  n ← zget chainIntra (base + i);
  if n =? rank comm then
    up ← (if i =? 0 then Ret (nRanks comm) else zget chainIntra (base + (i - 1)));
    down0 ← (if i =? local - 1 then Ret (-1) else zget chainIntra (base + (i + 1)));
    down ← zset (tr_down (ch_collnetChain ch)) 0 down0;
    Ret (set_chain ch (MkTree (tr_depth (ch_collnetChain ch)) up down), tr)
  else Ret (ch, tr).

Definition preset_channel (comm : ncclComm) (graphs : topoGraphs) (local c : Z)
    (st : list ncclChannel * ncclTopoRanks) : outcome (list ncclChannel * ncclTopoRanks) :=
  let '(chs, tr) := st in
  ch ← zget chs c;
  '(ch, tr) ← for_range 0 local (preset_rank comm graphs local c) (preset_reset ch, tr);
  chs ← zset chs c ch;
  Ret (chs, tr).

(** Heads are appended once each. *)
Definition preset_nvlsHead (graphs : topoGraphs) (local c : Z) (tr : ncclTopoRanks) : outcome ncclTopoRanks :=
  h ← zget (tg_intra (g_nvls graphs)) (c * local);
  if bool_decide (h ∈ take (Z.to_nat (nvlsHeadNum tr)) (nvlsHeads tr)) then Ret tr
  else
    hs ← zset (nvlsHeads tr) (nvlsHeadNum tr) h;
    Ret (MkTopoRanks (ringRecv tr) (ringSend tr) (ringPrev tr) (ringNext tr) (treeToParent tr)
           (treeToChild0 tr) (treeToChild1 tr) hs (nvlsHeadNum tr + 1)).

(** [local] is [comm->topo->nodes[GPU].count]. *)
Definition ncclTopoPreset (comm : ncclComm) (graphs : topoGraphs) (local : Z) (tr : ncclTopoRanks)
    : outcome (ncclComm * ncclTopoRanks) :=
  let n := Z.to_nat (nChannels comm) in
  let tr := MkTopoRanks (ringRecv tr) (ringSend tr) (ringPrev tr) (ringNext tr) (treeToParent tr)
              (treeToChild0 tr) (treeToChild1 tr) (nvlsHeads tr) 0 in
  '(chs, tr) ← for_range 0 (nChannels comm) (preset_channel comm graphs local) (channels comm, tr);
  _ ← require (2 * nChannels comm <=? Z.of_nat (length chs));
  let chs := take n chs ++ take n chs ++ drop (2 * n) chs in
  tr ← for_range 0 (tg_nChannels (g_nvls graphs)) (preset_nvlsHead graphs local) tr;
  let heads := take (Z.to_nat (nvlsHeadNum tr)) (nvlsHeads tr)
               ++ drop (Z.to_nat (nvlsHeadNum tr)) (comm_nvlsHeads comm) in
  Ret (set_nvlsHeads (set_channels comm chs) heads, tr).

(** ** Connecting rings *)

Definition connectRings (nChannels nNodes nRanks : Z) (ringRecv ringSend : list Z)
    (st : list Z * list Z) : outcome (list Z * list Z) :=
  for_range 0 nChannels (fun c st =>
    for_range 0 nNodes (fun n '(prev, next) =>
      recvRank ← zget ringRecv (c * nNodes + n);
      prevSendRank ← zget ringSend (c * nNodes + (n - 1 + nNodes) `rem` nNodes);
      prev ← zset prev (c * nRanks + recvRank) prevSendRank;
      sendRank ← zget ringSend (c * nNodes + n);
      nextRecvRank ← zget ringRecv (c * nNodes + (n + 1) `rem` nNodes);
      next ← zset next (c * nRanks + sendRank) nextRecvRank;
      Ret (prev, next)) st) st.

(** ** Connecting trees *)

Definition setTreeUp (tree : ncclTree) (indexes : Z -> outcome Z) (u : Z) : outcome ncclTree :=
  if u =? -1 then Ret tree
  else x ← indexes u; Ret (MkTree (tr_depth tree) x (tr_down tree)).

(** [while (x < NCCL_MAX_TREE_ARITY && tree->down[x] >= 0) x++;] *)
Fixpoint free_slot (n : nat) (x : Z) (down : list Z) : outcome Z :=
  match n with
  | O => Ret x
  | S n => d ← zget down x; if d >=? 0 then free_slot n (x + 1) down else Ret x
  end.

Definition setTreeDown (tree : ncclTree) (indexes : Z -> outcome Z) (d : Z) : outcome ncclTree :=
  if d =? -1 then Ret tree
  else
    x ← free_slot 3 0 (tr_down tree);
    if x =? NCCL_MAX_TREE_ARITY then Fail ncclInternalError
    else
      v ← indexes d;
      down ← zset (tr_down tree) x v;
      Ret (MkTree (tr_depth tree) (tr_up tree) down).

(** One channel's pair of trees; [row a] reads [a+c*nNodes]. *)
Definition connectTree (rank node depth : Z) (ttp ttc0 ttc1 : Z -> outcome Z) (t0 t1 : btree)
    (trees : ncclTree * ncclTree) : outcome (ncclTree * ncclTree) :=
  let '(tree0, tree1) := trees in
  let slot (ty : option Z) := match ty with Some 0 => ttc0 | _ => ttc1 end in
  p ← ttp node;
  '(tree0, tree1) ← (if rank =? p then
      tree0 ← setTreeUp tree0 (slot (bt_type t0)) (bt_u t0);
      tree1 ← setTreeUp tree1 (slot (bt_type t1)) (bt_u t1);
      Ret (tree0, tree1)
    else Ret (tree0, tree1));
  c0 ← ttc0 node;
  '(tree0, tree1) ← (if rank =? c0 then
      tree0 ← setTreeDown tree0 ttp (bt_d0 t0);
      tree1 ← setTreeDown tree1 ttp (bt_d0 t1);
      Ret (tree0, tree1)
    else Ret (tree0, tree1));
  c1 ← ttc1 node;
  '(tree0, tree1) ← (if rank =? c1 then
      tree0 ← setTreeDown tree0 ttp (bt_d1 t0);
      tree1 ← setTreeDown tree1 ttp (bt_d1 t1);
      Ret (tree0, tree1)
    else Ret (tree0, tree1));
  Ret (MkTree depth (tr_up tree0) (tr_down tree0), MkTree depth (tr_up tree1) (tr_down tree1)).

Definition connectTrees (comm : ncclComm) (treeToParent treeToChild0 treeToChild1 : list Z)
    : outcome ncclComm :=
  let depth := nRanks comm `quot` nNodes comm - 1 + log2Down int64 (nNodes comm) in
  '(t0, t1) ← ncclGetDtree (nNodes comm) (node comm);
  chs ← for_range 0 (nChannels comm) (fun c chs =>
    ch0 ← zget chs c;
    ch1 ← zget chs (c + nChannels comm);
    let row (a : list Z) := fun n => zget a (c * nNodes comm + n) in
    '(tree0, tree1) ← connectTree (rank comm) (node comm) depth (row treeToParent) (row treeToChild0)
                        (row treeToChild1) t0 t1 (ch_tree ch0, ch_tree ch1);
    chs ← zset chs c (set_tree ch0 tree0);
    zset chs (c + nChannels comm) (set_tree ch1 tree1)) (channels comm);
  Ret (set_channels comm chs).

(** ** CollNet *)

(** The distinct heads of the search channels, in order of first appearance. *)
Definition collNet_heads (graph : ncclTopoGraph) (localRanks : Z) : outcome (list Z) :=
  for_range 0 (tg_nChannels graph) (fun c heads =>
    h ← zget (tg_intra graph) (c * localRanks);
    (* a head of -1 never matches as new *)
    if bool_decide (h ∈ heads) || (h =? -1) then Ret heads
    else
      _ ← require (Z.of_nat (length heads) <? localRanks);
      Ret (heads ++ [h])) [].

(** [for (i..nHeads) if (rank == heads[i]) { ...; break; }]: the first index. *)
Fixpoint head_index (heads : list Z) (rank i : Z) : option Z :=
  match heads with
  | [] => None
  | h :: heads => if rank =? h then Some i else head_index heads rank (i + 1)
  end.

(** Write [l] at the start of the array [a]. *)
Definition write_prefix (a l : list Z) : outcome (list Z) :=
  _ ← require (Z.of_nat (length l) <=? Z.of_nat (length a));
  Ret (l ++ drop (length l) a).

Definition connectCollNet_channel (comm : ncclComm) (graph : ncclTopoGraph) (heads : list Z)
    (ch : ncclChannel) : outcome ncclChannel :=
  let d := ch_collnetDirect ch in
  let nHeads := Z.of_nat (length heads) in
  '(headRank, out, down, nDown) ←
    match head_index heads (rank comm) 0 with
    | Some i =>
      peers ← for_range 0 (localRanks comm) (fun r acc =>
                x ← zget (tg_intra graph) (i * localRanks comm + r);
                Ret (if x =? rank comm then acc else acc ++ [x])) [];
      down ← write_prefix (cd_down d) peers;
      Ret (i, nRanks comm, down, Z.of_nat (length peers))
    | None => Ret (cd_headRank d, cd_out d, cd_down d, 0)
    end;
  let ups := List.filter (fun h => negb (rank comm =? h)) heads in
  up ← write_prefix (cd_up d) ups;
  let nUp := Z.of_nat (length ups) in
  let h0 := if headRank =? -1 then 0 else headRank in
  rotated ← for_range 0 nHeads (fun h1 acc =>
      h ← zget heads ((h0 + h1) `rem` nHeads); Ret (acc ++ [h])) [];
  hs ← write_prefix (cd_heads d) rotated;
  _ ← require (negb (nHeads =? 0));
  let shift := (rank comm `rem` localRanks comm) `rem` nHeads in
  let depth := if (nUp =? 0) && (nDown =? 0) then 1 else 2 in
  let chain := ch_collnetChain ch in
  Ret (set_chain (set_direct ch (MkDirect depth out nHeads headRank shift hs up down))
         (MkTree (nRanks comm `quot` nNodes comm) (tr_up chain) (tr_down chain))).

Definition connectCollNet (comm : ncclComm) (graph : ncclTopoGraph) : outcome ncclComm :=
  heads ← collNet_heads graph (localRanks comm);
  chs ← for_range 0 (nChannels comm) (fun c chs =>
    ch ← zget chs c;
    ch ← connectCollNet_channel comm graph heads ch;
    zset chs c ch) (channels comm);
  Ret (set_channels comm chs).

(** ** NVLS *)

Definition connectNvls_base (comm : ncclComm) (nHeads headRank : Z) (ch : ncclChannel) : outcome ncclChannel :=
  _ ← require (nHeads <=? NCCL_MAX_NVLS_ARITY);
  let up := (fun h => nRanks comm + 1 + h) <$> seqZ 0 nHeads in
  let up := up ++ replicate (Z.to_nat (NCCL_MAX_NVLS_ARITY - nHeads)) (-1) in
  let down := nRanks comm + 1 + headRank in
  let out := if negb (collNetSupport comm =? 0) && negb (headRank =? -1) then nRanks comm else -1 in
  Ret (set_nvls ch (MkNvls out nHeads headRank up down (-1) [-1; -1; -1])).

(** [treeDown[0] = down; ix = 1; if (d0 != -1) treeDown[ix++] = d0; if (d1 != -1) treeDown[ix] = d1] *)
Definition connectNvls_tree (treeUp d0 d1 : Z) (ch : ncclChannel) : outcome ncclChannel :=
  let nv := ch_nvls ch in
  td ← zset (nv_treeDown nv) 0 (nv_down nv);
  '(td, ix) ← (if negb (d0 =? -1) then td ← zset td 1 d0; Ret (td, 2) else Ret (td, 1));
  td ← (if negb (d1 =? -1) then zset td ix d1 else Ret td);
  Ret (set_nvls ch (MkNvls (nv_out nv) (nv_nHeads nv) (nv_headRank nv) (nv_up nv) (nv_down nv) treeUp td)).

Definition connectNvls (comm : ncclComm) (nvlsHeads : list Z) (nHeads : Z) : outcome ncclComm :=
  if nHeads =? 0 then Ret (set_nvlsChannels comm 0)
  else
    (* the last head that is this rank *)
    headRank ← for_range 0 nHeads (fun h headRank =>
        x ← zget nvlsHeads (h * nNodes comm + node comm);
        Ret (if x =? rank comm then h else headRank)) (-1);
    chs ← for_range 0 (nChannels comm) (fun c chs =>
        ch ← zget chs c; ch ← connectNvls_base comm nHeads headRank ch; zset chs c ch) (channels comm);
    if nNodes comm =? 1 then Ret (set_channels comm chs)
    else
      '(t0, t1) ← ncclGetDtree (nNodes comm) (node comm);
      (* the first head that is this rank keeps its neighbours in the trees *)
      let fix find (n : nat) (h : Z) : outcome (list Z) :=
        match n with
        | O => Ret [-1; -1; -1; -1; -1; -1]
        | S n =>
          x ← zget nvlsHeads (h * nNodes comm + node comm);
          if x =? rank comm then
            mapM (fun p => if p =? -1 then Ret (-1) else zget nvlsHeads (h * nNodes comm + p))
              [bt_u t0; bt_d0 t0; bt_d1 t0; bt_u t1; bt_d0 t1; bt_d1 t1]
          else find n (h + 1)
        end in
      links ← find (Z.to_nat nHeads) 0;
      chs ← for_range 0 (nChannels comm) (fun c chs =>
          ch ← zget chs c;
          let k := 3 * (c `rem` 2) in
          u ← zget links k; d0 ← zget links (k + 1); d1 ← zget links (k + 2);
          ch ← connectNvls_tree u d0 d1 ch;
          zset chs c ch) chs;
      Ret (set_channels comm chs).

(** ** Channel counts *)

Definition ncclMinNchannels (p : params) : Z :=
  let minNchannels := 0 in
  let minNchannels := if negb (MinNrings p =? -2) then conv int32 (MinNrings p) else minNchannels in
  let minNchannels := if negb (MinNchannels p =? -2) then conv int32 (MinNchannels p) else minNchannels in
  let minNchannels := if minNchannels >? MAXCHANNELS then MAXCHANNELS else minNchannels in
  if minNchannels <? 0 then 0 else minNchannels.

Definition ncclMaxNchannels (p : params) : Z :=
  let maxNchannels := MAXCHANNELS in
  let maxNchannels := if negb (MaxNrings p =? -2) then conv int32 (MaxNrings p) else maxNchannels in
  let maxNchannels := if negb (MaxNchannels p =? -2) then conv int32 (MaxNchannels p) else maxNchannels in
  let maxNchannels := Z.min maxNchannels (ncclDevMaxChannelsForArgsBytes (u64 (WorkArgsBytes p))) in
  let maxNchannels := if maxNchannels >? MAXCHANNELS then MAXCHANNELS else maxNchannels in
  if maxNchannels <? 1 then 1 else maxNchannels.

(** [memcpy] of a row of [n] ints inside an array. *)
Definition copy_row (a : list Z) (n dst src : Z) : outcome (list Z) :=
  _ ← require ((0 <=? src) && ((dst + 1) * n <=? Z.of_nat (length a)) && ((src + 1) * n <=? Z.of_nat (length a)));
  let k := Z.to_nat n in
  Ret (take (Z.to_nat dst * k) a ++ take k (drop (Z.to_nat src * k) a) ++ drop (Z.to_nat (dst + 1) * k) a).

(** The communicator, [ringPrev], [ringNext] and the returned channel count. *)
Definition copyChannels (comm : ncclComm) (start end_ : Z) (prev next : list Z)
    : outcome (ncclComm * list Z * list Z * Z) :=
  '(chs, prev, next) ← for_range start end_ (fun c '(chs, prev, next) =>
      prev ← copy_row prev (nRanks comm) c (c - start);
      next ← copy_row next (nRanks comm) c (c - start);
      ch ← zget chs (c - start);
      chs ← zset chs c ch;
      Ret (chs, prev, next)) (channels comm, prev, next);
  Ret (set_channels comm chs, prev, next, Z.max start end_).

Definition exchangeValues (a : list Z) (i j : Z) : outcome (list Z) :=
  x ← zget a i; y ← zget a j; a ← zset a j x; zset a i y.

(** ** [ncclTopoPostset] *)

(** Alternate rings on odd nodes: swap channels [c] and [c^1]. *)
Definition exchangeRings (nChannels : Z) (t : ncclTopoRanks) : outcome ncclTopoRanks :=
  for_range 0 (nChannels `quot` 2) (fun k t =>
    let c := 2 * k in
    let c' := Z.lxor c 1 in
    r ← exchangeValues (ringRecv t) c c'; s ← exchangeValues (ringSend t) c c';
    p ← exchangeValues (ringPrev t) c c'; n ← exchangeValues (ringNext t) c c';
    Ret (MkTopoRanks r s p n (treeToParent t) (treeToChild0 t) (treeToChild1 t) (nvlsHeads t) (nvlsHeadNum t))) t.

Definition postset_exchange (comm : ncclComm) (crossNic nChannels : Z) (all : list ncclTopoRanks)
    : outcome (list ncclTopoRanks) :=
  if (crossNic =? 2) && (nChannels `rem` 2 =? 0) then
    for_range 0 (nRanks comm) (fun r all =>
      nd ← zget (rankToNode comm) r;
      if nd `rem` 2 =? 1 then
        t ← zget all r; t ← exchangeRings nChannels t; zset all r t
      else Ret all) all
  else Ret all.

(** Gather a per-node column: [dst[c*nNodes+n] = src(allTopoRanks[firstRanks[n]])[c]]. *)
Definition gather_nodes (nChannels nNodes : Z) (firstRanks : list Z) (all : list ncclTopoRanks)
    (field : ncclTopoRanks -> list Z) (dst : list Z) : outcome (list Z) :=
  for_range 0 nChannels (fun c dst =>
    for_range 0 nNodes (fun n dst =>
      r ← zget firstRanks n; t ← zget all r; x ← zget (field t) c;
      zset dst (c * nNodes + n) x) dst) dst.

Definition gather_ranks (nChannels nRanks : Z) (all : list ncclTopoRanks)
    (field : ncclTopoRanks -> list Z) (dst : list Z) : outcome (list Z) :=
  for_range 0 nChannels (fun c dst =>
    for_range 0 nRanks (fun r dst =>
      t ← zget all r; x ← zget (field t) c;
      zset dst (c * nRanks + r) x) dst) dst.

Definition postset_minHeadNum (nNodes : Z) (firstRanks : list Z) (all : list ncclTopoRanks) : outcome Z :=
  for_range 0 nNodes (fun n m =>
    r ← zget firstRanks n; t ← zget all r;
    Ret (if m >? nvlsHeadNum t then nvlsHeadNum t else m)) INT_MAX.

(** Copy channels up to [end_] and make the result the new channel count. *)
Definition grow (st : ncclComm * list Z * list Z) (end_ : Z) : outcome (ncclComm * list Z * list Z) :=
  let '(comm, prev, next) := st in
  '(comm, prev, next, n) ← copyChannels comm (nChannels comm) end_ prev next;
  Ret (set_nChannels comm n, prev, next).

Definition Qgtb (a b : Q) : bool := negb (Qle_bool a b).

(** The channel-count adjustments after the rings and trees are connected. *)
Definition postset_channels (p : params) (graphs : topoGraphs) (parent : option parentComm)
    (st : ncclComm * list Z * list Z) : outcome (ncclComm * list Z * list Z) :=
  let '(comm, prev, next) := st in
  let shared := match parent with Some pa => pa_nvlsSupport pa && pa_splitShare pa | None => false end in
  (* CollNet *)
  '(comm, prev, next) ← (if collNetSupport comm =? 1 then
      let g := g_collnetChain graphs in
      '(comm, prev, next) ← (if Qgtb (tg_bwIntra g) (tg_bwInter g) && (nRanks comm >? nNodes comm)
          then grow (comm, prev, next) (Z.min MAXCHANNELS (nChannels comm + nChannels comm `quot` 2))
          else Ret (comm, prev, next));
      comm ← connectCollNet comm (g_collnetDirect graphs);
      Ret (comm, prev, next)
    else Ret (comm, prev, next));
  (* 4 compute channels per search channel *)
  '(comm, prev, next) ← (if (minCompCap comm >=? 90) && (nNodes comm >? 1)
        && Qgtb (tg_bwIntra (g_ring graphs)) 45 && (nChannels comm <? 16)
      then grow (comm, prev, next) (2 * nChannels comm) else Ret (comm, prev, next));
  (* unpack networking *)
  '(comm, prev, next) ← (if netDeviceUnpack comm && (nNodes comm >? 1) && (nChannels comm <? 16)
        && UnpackDoubleNChannels p
      then grow (comm, prev, next) (2 * nChannels comm) else Ret (comm, prev, next));
  (* NCCL_MIN_NRINGS/NCCL_MAX_NRINGS *)
  '(comm, prev, next) ← (if negb (sharedOwner comm) then
      let comm := set_nChannels comm (Z.min (Z.min (Z.min (ncclMaxNchannels p) (nChannels comm)) (maxCTAs comm)) (tpNChannels comm)) in
      grow (comm, prev, next) (Z.min (Z.max (ncclMinNchannels p) (minCTAs comm)) (tpNChannels comm))
    else
      let comm := set_nChannels comm (Z.min (Z.min (ncclMaxNchannels p) (nChannels comm)) (maxCTAs comm)) in
      grow (comm, prev, next) (Z.max (ncclMinNchannels p) (minCTAs comm)));
  let comm := set_collChannels comm (nChannels comm) in
  let comm := match parent with
    | Some pa => if shared && (nvlsChannels comm >? pa_nvlsResources_nChannels pa)
                 then set_nvlsChannels comm (pa_nvlsResources_nChannels pa) else comm
    | None => comm end in
  if nChannels comm <? nvlsChannels comm
  then grow (comm, prev, next) (nvlsChannels comm) else Ret (comm, prev, next).

Definition ncclTopoPostset (p : params) (comm : ncclComm) (firstRanks : list Z)
    (all : list ncclTopoRanks) (rings : list Z) (graphs : topoGraphs) (parent : option parentComm)
    : outcome (ncclComm * list Z) :=
  let n := nChannels comm in
  let zeros (k : Z) := replicate (Z.to_nat (k * MAXCHANNELS)) 0 in
  all ← postset_exchange comm (tg_crossNic (g_ring graphs)) n all;
  let byNode f := gather_nodes n (nNodes comm) firstRanks all f (zeros (nNodes comm)) in
  let byRank f := gather_ranks n (nRanks comm) all f (zeros (nRanks comm)) in
  recv ← byNode ringRecv; send ← byNode ringSend;
  ttp ← byNode treeToParent; ttc0 ← byNode treeToChild0; ttc1 ← byNode treeToChild1;
  prev ← byRank ringPrev; next ← byRank ringNext;
  minHeadNum ← postset_minHeadNum (nNodes comm) firstRanks all;
  heads ← gather_nodes minHeadNum (nNodes comm) firstRanks all nvlsHeads (zeros (nNodes comm));
  '(prev, next) ← connectRings n (nNodes comm) (nRanks comm) recv send (prev, next);
  comm ← connectTrees comm ttp ttc0 ttc1;
  (* duplicate ringPrev/ringNext *)
  _ ← require (2 * n * nRanks comm <=? Z.of_nat (length prev));
  let k := Z.to_nat (n * nRanks comm) in
  let prev := take k prev ++ take k prev ++ drop (2 * k) prev in
  let next := take k next ++ take k next ++ drop (2 * k) next in
  (* ring prev/next of my rank *)
  chs ← for_range 0 n (fun c chs =>
    ch0 ← zget chs c; ch1 ← zget chs (c + n);
    pr ← zget prev (c * nRanks comm + rank comm); nx ← zget next (c * nRanks comm + rank comm);
    chs ← zset chs c (set_ring ch0 (MkRing pr nx));
    zset chs (c + n) (set_ring ch1 (MkRing pr nx))) (channels comm);
  let comm := set_nChannels (set_channels comm chs) (Z.min MAXCHANNELS (n * 2)) in
  '(comm, prev, next) ← postset_channels p graphs parent (comm, prev, next);
  comm ← connectNvls comm heads minHeadNum;
  let comm := match parent with
    | Some pa => if pa_nvlsSupport pa && pa_splitShare pa && (nChannels comm >? pa_tpNChannels pa)
                 then let comm := set_nChannels comm (pa_tpNChannels pa) in
                      set_collChannels comm (Z.min (collChannels comm) (nChannels comm))
                 else comm
    | None => comm end in
  rings ← ncclBuildRings (nChannels comm) rings (rank comm) (nRanks comm) next;
  Ret (comm, rings).

(** ** Rings: proofs *)

(** Positions in a concatenation. *)
Section concat_index.
  Context {A : Type}.
  Implicit Type O : list (list A).

Definition off O (n : nat) : nat := length (concat (take n O)).

Lemma off_S O n o : O !! n = Some o -> off O (S n) = (off O n + length o)%nat.
Proof.
  intros Ho. unfold off. rewrite (take_S_r _ _ _ Ho), concat_app, length_app. simpl.
  by rewrite app_nil_r.
Qed.

Lemma concat_off O n o i : O !! n = Some o -> (i < length o)%nat ->
  concat O !! (off O n + i)%nat = o !! i.
Proof.
  intros Ho Hi. assert (concat O = concat (take n O) ++ o ++ concat (drop (S n) O)) as ->.
  { rewrite <- (take_drop_middle O n o Ho) at 1. rewrite concat_app. done. }
  unfold off. rewrite lookup_app_r by lia. rewrite lookup_app_l by lia. f_equal. lia.
Qed.

Lemma off_split O j : (j < length (concat O))%nat ->
  exists n o i, O !! n = Some o /\ (i < length o)%nat /\ j = (off O n + i)%nat.
Proof.
  revert j. induction O as [|o O IH]; intros j Hj; simpl in *; [lia|].
  rewrite length_app in Hj. destruct (decide (j < length o)%nat).
  - exists 0%nat, o, j. split; [done|]. split; [done|]. unfold off. simpl. lia.
  - destruct (IH (j - length o)%nat ltac:(lia)) as (n' & o' & i & Ho & Hi & Hj').
    exists (S n'), o', i. split; [done|]. split; [done|]. unfold off in *. simpl. rewrite length_app. lia.
Qed.

(** The element after position [off O n + i], cyclically: the next one of the
    same block, or the first one of the next block. *)
Lemma concat_next O n o i : Forall (.≠ []) O -> O !! n = Some o -> (i < length o)%nat ->
  concat O !! ((off O n + i + 1) mod length (concat O))%nat =
    if decide (i + 1 < length o)%nat then o !! (i + 1)%nat
    else O !! ((n + 1) mod length O)%nat ≫= head.
Proof.
  intros Hne Ho Hi. assert (length (concat O) = off O (length O)) as Htot.
  { unfold off. by rewrite firstn_all. }
  assert (off O (S n) = (off O n + length o)%nat) as Hs by by apply off_S.
  assert (off O (S n) <= off O (length O))%nat as Hle.
  { unfold off. apply lookup_lt_Some in Ho. rewrite <- (take_drop (S n) (take (length O) O)).
    rewrite take_take, Nat.min_l by lia. rewrite concat_app, length_app. lia. }
  destruct (decide (i + 1 < length o)%nat) as [Hlt|Hge].
  - rewrite Nat.mod_small by lia. rewrite <- Nat.add_assoc. by apply concat_off.
  - replace (off O n + i + 1)%nat with (off O (S n)) by lia.
    assert (n < length O)%nat by (by eapply lookup_lt_Some).
    assert (forall k o', O !! k = Some o' -> concat O !! off O k = head o') as Hhead.
    { intros k o' Hk. rewrite Forall_lookup in Hne. specialize (Hne k o' Hk). destruct o' as [|x o']; [done|].
      rewrite <- (Nat.add_0_r (off O k)), (concat_off O k (x :: o') 0 Hk) by (simpl; lia). done. }
    destruct (decide (n + 1 = length O)%nat) as [He|].
    + rewrite He, Nat.Div0.mod_same. rewrite <- Htot in Hle. replace (S n) with (length O) by lia.
      rewrite <- Htot, Nat.Div0.mod_same.
      destruct (lookup_lt_is_Some_2 O 0 ltac:(lia)) as [o0 Ho0]. rewrite Ho0. simpl.
      rewrite <- (Hhead 0%nat o0 Ho0). done.
    + destruct (lookup_lt_is_Some_2 O (n + 1) ltac:(lia)) as [o' Ho'].
      rewrite (Nat.mod_small (n + 1)) by lia. rewrite Ho'. simpl.
      rewrite <- (Hhead _ _ Ho'). rewrite Nat.mod_small; [by rewrite Nat.add_1_r|].
      assert (off O (S (n + 1)) <= off O (length O))%nat as Hle'.
      { unfold off. rewrite <- (take_drop (S (n + 1)) (take (length O) O)).
        rewrite take_take, Nat.min_l by lia. rewrite concat_app, length_app. lia. }
      rewrite (off_S _ _ _ Ho') in Hle'. rewrite Forall_lookup in Hne. specialize (Hne _ _ Ho').
      destruct o'; [done|]. simpl in *. rewrite Nat.add_1_r in Hle'. lia.
Qed.

End concat_index.

(** [C] is the order in which channel [c] visits the ranks: [next] maps every
    rank to the following one and [prev] back. *)
Record ring_order (prev next : list Z) (nR c : Z) (C : list Z) : Prop := {
  ro_perm : C ≡ₚ seqZ 0 nR;
  ro_next j x y : C !! j = Some x -> C !! ((j + 1) mod length C)%nat = Some y ->
    znth next (c * nR + x) = y /\ znth prev (c * nR + y) = x;
}.

Lemma ring_order_length prev next nR c C : 0 <= nR -> ring_order prev next nR c C -> Z.of_nat (length C) = nR.
Proof. intros ? [Hp _]. rewrite Hp, length_seqZ. lia. Qed.

Lemma iter_ring_order prev next nR c C p x (k : nat) :
  ring_order prev next nR c C -> C !! p = Some x ->
  C !! ((p + k) mod length C)%nat = Some (Nat.iter k (hop next nR c) x).
Proof.
  intros Hro Hp. assert (p < length C)%nat as Hlt by by eapply lookup_lt_Some.
  induction k as [|k IH]; simpl.
  - by rewrite Nat.add_0_r, Nat.mod_small.
  - set (q := ((p + k) mod length C)%nat) in *.
    assert (((p + S k) mod length C)%nat = ((q + 1) mod length C)%nat) as ->.
    { unfold q. rewrite Nat.Div0.add_mod_idemp_l. f_equal. lia. }
    destruct (lookup_lt_is_Some_2 C ((q + 1) mod length C)) as [y Hy].
    { apply Nat.mod_upper_bound. lia. }
    rewrite Hy. f_equal. symmetry. by apply (ro_next _ _ _ _ _ Hro q).
Qed.

(** A visiting order makes the channel a single cycle, from any rank. *)
Lemma ring_order_cycle prev next nR c C rank :
  0 <= rank < nR -> ring_order prev next nR c C -> single_cycle next nR c rank.
Proof.
  intros Hr Hro. pose proof (ring_order_length prev next nR c C ltac:(lia) Hro) as Hlen.
  assert (rank ∈ C) as Hin. { rewrite (ro_perm _ _ _ _ _ Hro). apply elem_of_seqZ. lia. }
  apply list_elem_of_lookup_1 in Hin as [p Hp]. pose proof (lookup_lt_Some _ _ _ Hp).
  assert (forall k, C !! ((p + k) mod length C)%nat = Some (Nat.iter k (hop next nR c) rank)) as Hit.
  { intros k. by apply iter_ring_order with (prev := prev). }
  split.
  - unfold ring_at. assert (Z.to_nat nR = length C) as -> by lia.
    specialize (Hit (length C)). rewrite <- Nat.Div0.add_mod_idemp_r, Nat.Div0.mod_same, Nat.add_0_r, Nat.mod_small in Hit by done.
    congruence.
  - apply covering_perm; [lia|]. intros i Hi.
    assert (i ∈ C) as Hii. { rewrite (ro_perm _ _ _ _ _ Hro). apply elem_of_seqZ. lia. }
    apply list_elem_of_lookup_1 in Hii as [q Hq]. pose proof (lookup_lt_Some _ _ _ Hq).
    exists (Z.of_nat ((q + (length C - p)) mod length C)).
    pose proof (Nat.mod_upper_bound (q + (length C - p)) (length C) ltac:(lia)).
    split; [lia|]. unfold ring_at. rewrite Nat2Z.id.
    specialize (Hit ((q + (length C - p)) mod length C)%nat). rewrite Nat.Div0.add_mod_idemp_r in Hit.
    replace (p + (q + (length C - p)))%nat with (q + 1 * length C)%nat in Hit by lia.
    rewrite Nat.Div0.mod_add, Nat.mod_small in Hit by lia. congruence.
Qed.

(** The node-local chains a channel consists of: [O] lists, node by node, the
    ranks of the node in chain order. *)
Record node_chains (nN nR c : Z) (recv send prev next : list Z) (O : list (list Z)) : Prop := {
  nc_nodes : Z.of_nat (length O) = nN;
  nc_nonempty : Forall (.≠ []) O;
  nc_perm : concat O ≡ₚ seqZ 0 nR;
  nc_recv n o : O !! n = Some o -> head o = Some (znth recv (c * nN + Z.of_nat n));
  nc_send n o : O !! n = Some o -> last o = Some (znth send (c * nN + Z.of_nat n));
  nc_link n o i x y : O !! n = Some o -> o !! i = Some x -> o !! S i = Some y ->
    znth next (c * nR + x) = y /\ znth prev (c * nR + y) = x;
}.

(** The array after writing [val n] at [key n] for [lo <= n < k]. *)
Record scattered (key val : Z -> Z) (lo k : Z) (a a' : list Z) : Prop := {
  sc_length : length a' = length a;
  sc_written n : lo <= n < k -> znth a' (key n) = val n;
  sc_kept p : 0 <= p -> (forall n, lo <= n < k -> key n <> p) -> znth a' p = znth a p;
}.

Lemma scattered_refl key val lo a : scattered key val lo lo a a.
Proof. split; [done|lia|done]. Qed.

Lemma scattered_step key val lo k a a' :
  lo <= k -> 0 <= key k < Z.of_nat (length a) ->
  (forall n, lo <= n < k -> 0 <= key n /\ key n <> key k) ->
  scattered key val lo k a a' ->
  scattered key val lo (k + 1) a (<[Z.to_nat (key k) := val k]> a').
Proof.
  intros Hk Hin Hinj [Hl Hw Hkeep]. split.
  - by rewrite length_insert.
  - intros n Hn. destruct (Z.eq_dec n k) as [->|Hne].
    + rewrite znth_insert by lia. by rewrite Z.eqb_refl.
    + destruct (Hinj n ltac:(lia)). rewrite znth_insert by lia.
      destruct (Z.eqb_spec (key k) (key n)); [congruence|]. apply Hw. lia.
  - intros p Hp Hno. rewrite znth_insert by lia.
    destruct (Z.eqb_spec (key k) p) as [<-|Hnp]; [by destruct (Hno k ltac:(lia))|].
    apply Hkeep; [done|]. intros n Hn. apply Hno. lia.
Qed.

Lemma off_mono {A} (O : list (list A)) n m : (n <= m)%nat -> (off O n <= off O m)%nat.
Proof.
  intros Hnm. unfold off. rewrite <- (take_drop n (take m O)).
  rewrite take_take, Nat.min_l by lia. rewrite concat_app, length_app. lia.
Qed.

Lemma off_inj {A} (O : list (list A)) n m o o' i i' :
  O !! n = Some o -> O !! m = Some o' -> (i < length o)%nat -> (i' < length o')%nat ->
  (off O n + i = off O m + i')%nat -> n = m /\ i = i'.
Proof.
  intros Hn Hm Hi Hi' He. pose proof (off_S _ _ _ Hn). pose proof (off_S _ _ _ Hm).
  destruct (lt_eq_lt_dec n m) as [[Hlt| ->]|Hlt].
  - pose proof (off_mono O (S n) m Hlt). lia.
  - split; [done|lia].
  - pose proof (off_mono O (S m) n Hlt). lia.
Qed.

(** In a concatenation without duplicates an element has one block and one
    position in it. *)
Lemma concat_pos_unique {A} (O : list (list A)) n m o o' i i' x :
  NoDup (concat O) -> O !! n = Some o -> O !! m = Some o' -> o !! i = Some x -> o' !! i' = Some x ->
  n = m /\ i = i'.
Proof.
  intros Hnd Hn Hm Hi Hi'. pose proof (lookup_lt_Some _ _ _ Hi). pose proof (lookup_lt_Some _ _ _ Hi').
  eapply off_inj; [done..|]. eapply NoDup_lookup; [done| |].
  - rewrite (concat_off _ _ _ _ Hn) by done. done.
  - rewrite (concat_off _ _ _ _ Hm) by done. done.
Qed.

(** Rows that agree have the same order. *)
Lemma ring_order_ext nR c prev1 next1 prev2 next2 C :
  (forall p, c * nR <= p < (c + 1) * nR -> znth next2 p = znth next1 p /\ znth prev2 p = znth prev1 p) ->
  ring_order prev1 next1 nR c C -> ring_order prev2 next2 nR c C.
Proof.
  intros He [Hp Hn]. split; [done|]. intros j x y Hx Hy.
  assert (forall z j, C !! j = Some z -> 0 <= z < nR) as Hr.
  { intros z j' Hz. apply list_elem_of_lookup_2 in Hz. rewrite Hp in Hz. apply elem_of_seqZ in Hz. lia. }
  pose proof (Hr _ _ Hx). pose proof (Hr _ _ Hy).
  destruct (Hn j x y Hx Hy) as [Hx1 Hy1].
  destruct (He (c * nR + x) ltac:(lia)) as [-> _]. destruct (He (c * nR + y) ltac:(lia)) as [_ ->]. done.
Qed.

Section connectRings_proofs.
  Context (nN nR c : Z) (recv send prev next : list Z) (O : list (list Z)).
  Context (HnN : 0 < nN) (Hnc : node_chains nN nR c recv send prev next O).

  Notation recvRank n := (znth recv (c * nN + n)).
  Notation sendRank n := (znth send (c * nN + n)).

Lemma nc_nodup : NoDup (concat O).
Proof. rewrite (nc_perm _ _ _ _ _ _ _ _ Hnc). apply NoDup_seqZ. Qed.

Lemma nc_block n : 0 <= n < nN -> exists o, O !! Z.to_nat n = Some o.
Proof. intros Hn. apply lookup_lt_is_Some_2. pose proof (nc_nodes _ _ _ _ _ _ _ _ Hnc). lia. Qed.

Lemma nc_elem n o i x : O !! n = Some o -> o !! i = Some x -> 0 <= x < nR.
Proof.
  intros Ho Hi. assert (x ∈ concat O) as Hx.
  { apply list_elem_of_lookup_2 with (off O n + i)%nat. rewrite (concat_off _ _ _ _ Ho); [done|].
    by eapply lookup_lt_Some. }
  rewrite (nc_perm _ _ _ _ _ _ _ _ Hnc) in Hx. apply elem_of_seqZ in Hx. lia.
Qed.

Lemma nc_recv_at n o : 0 <= n < nN -> O !! Z.to_nat n = Some o -> o !! 0%nat = Some (recvRank n).
Proof.
  intros Hn Ho. pose proof (nc_recv _ _ _ _ _ _ _ _ Hnc _ _ Ho) as Hh.
  rewrite Z2Nat.id in Hh by lia. by rewrite <- head_lookup.
Qed.

Lemma nc_send_at n o : 0 <= n < nN -> O !! Z.to_nat n = Some o ->
  o !! (length o - 1)%nat = Some (sendRank n).
Proof.
  intros Hn Ho. pose proof (nc_send _ _ _ _ _ _ _ _ Hnc _ _ Ho) as Hh.
  rewrite Z2Nat.id in Hh by lia. rewrite <- Hh, last_lookup. f_equal. lia.
Qed.

Lemma nc_recv_range n : 0 <= n < nN -> 0 <= recvRank n < nR.
Proof. intros Hn. destruct (nc_block n Hn) as [o Ho]. eapply nc_elem; [done|]. by apply nc_recv_at. Qed.

Lemma nc_send_range n : 0 <= n < nN -> 0 <= sendRank n < nR.
Proof. intros Hn. destruct (nc_block n Hn) as [o Ho]. eapply nc_elem; [done|]. by apply nc_send_at. Qed.

Lemma nc_recv_inj n m o i : 0 <= n < nN -> O !! m = Some o -> o !! i = Some (recvRank n) ->
  m = Z.to_nat n /\ i = 0%nat.
Proof.
  intros Hn Hm Hi. destruct (nc_block n Hn) as [o' Ho'].
  eapply concat_pos_unique; [apply nc_nodup|done|done|done|by apply nc_recv_at].
Qed.

Lemma nc_send_inj n m o i : 0 <= n < nN -> O !! m = Some o -> o !! i = Some (sendRank n) ->
  m = Z.to_nat n /\ S i = length o.
Proof.
  intros Hn Hm Hi. destruct (nc_block n Hn) as [o' Ho'].
  destruct (concat_pos_unique O m (Z.to_nat n) o o' i (length o' - 1) (sendRank n)) as [-> ->];
    [apply nc_nodup|done|done|done|by apply nc_send_at|].
  split; [done|]. pose proof (lookup_lt_Some _ _ _ Hi). simplify_eq. lia.
Qed.

(** Joining the chains of consecutive nodes gives the concatenated order. *)
Lemma joined_order prev' next' :
  0 <= c -> 0 <= nR ->
  scattered (fun n => c * nR + sendRank n) (fun n => recvRank ((n + 1) `rem` nN)) 0 nN next next' ->
  scattered (fun n => c * nR + recvRank n) (fun n => sendRank ((n - 1 + nN) `rem` nN)) 0 nN prev prev' ->
  ring_order prev' next' nR c (concat O).
Proof.
  intros Hc HnR Hsn Hsp. split; [apply (nc_perm _ _ _ _ _ _ _ _ Hnc)|].
  pose proof (nc_nodes _ _ _ _ _ _ _ _ Hnc) as HlO.
  intros j x y Hx Hy. destruct (off_split O j) as (n & o & i & Ho & Hi & ->); [by eapply lookup_lt_Some|].
  rewrite (concat_off _ _ _ _ Ho) in Hx by done.
  rewrite (concat_next _ _ _ _ (nc_nonempty _ _ _ _ _ _ _ _ Hnc) Ho Hi) in Hy.
  pose proof (lookup_lt_Some _ _ _ Ho). pose proof (nc_elem _ _ _ _ Ho Hx).
  case_decide as Hlt.
  - replace (i + 1)%nat with (S i) in Hy by lia. pose proof (nc_elem _ _ _ _ Ho Hy).
    destruct (nc_link _ _ _ _ _ _ _ _ Hnc n o i x y Ho Hx Hy) as [Hl1 Hl2].
    rewrite (sc_kept _ _ _ _ _ _ Hsn), (sc_kept _ _ _ _ _ _ Hsp); [done| | | |]; try nia.
    + intros m Hm He. assert (y = recvRank m) as -> by lia.
      by destruct (nc_recv_inj m n o (S i)).
    + intros m Hm He. assert (x = sendRank m) as -> by lia.
      destruct (nc_send_inj m n o i); [done..|]. lia.
  - set (n' := ((n + 1) mod length O)%nat) in *.
    assert (Z.of_nat n' = (Z.of_nat n + 1) mod nN) as Hn'.
    { unfold n'. rewrite Nat2Z.inj_mod, Nat2Z.inj_add. by rewrite HlO. }
    pose proof (Z.mod_pos_bound (Z.of_nat n + 1) nN ltac:(lia)).
    destruct (nc_block (Z.of_nat n') ltac:(lia)) as [o' Ho']. rewrite Nat2Z.id in Ho'.
    rewrite Ho' in Hy. simpl in Hy. rewrite head_lookup in Hy.
    pose proof (nc_recv_at (Z.of_nat n') o' ltac:(lia) ltac:(by rewrite Nat2Z.id)) as Hr.
    pose proof (nc_send_at (Z.of_nat n) o ltac:(lia) ltac:(by rewrite Nat2Z.id)) as Hs.
    replace (length o - 1)%nat with i in Hs by lia.
    assert (y = recvRank (Z.of_nat n')) as -> by congruence.
    assert (x = sendRank (Z.of_nat n)) as -> by congruence.
    split.
    + rewrite (sc_written _ _ _ _ _ _ Hsn) by lia. rewrite rem_mod_nonneg by lia. by rewrite <- Hn'.
    + rewrite (sc_written _ _ _ _ _ _ Hsp) by lia. rewrite rem_mod_nonneg by lia. do 2 f_equal.
      rewrite Hn'. destruct (Z.eq_dec (Z.of_nat n + 1) nN) as [He|].
      * rewrite He, Z.mod_same by lia. rewrite Z.mod_small; lia.
      * rewrite (Z.mod_small (Z.of_nat n + 1)) by lia.
        replace (Z.of_nat n + 1 - 1 + nN) with (Z.of_nat n + 1 * nN) by lia.
        rewrite Z.mod_add by lia. rewrite Z.mod_small; lia.
Qed.

End connectRings_proofs.

(** One channel of the loop. *)
Lemma connectRings_channel nN nR c recv send prev next O :
  0 < nN -> 0 <= nR -> 0 <= c ->
  (c + 1) * nN <= Z.of_nat (length recv) -> (c + 1) * nN <= Z.of_nat (length send) ->
  (c + 1) * nR <= Z.of_nat (length prev) -> (c + 1) * nR <= Z.of_nat (length next) ->
  node_chains nN nR c recv send prev next O ->
  wp (for_range 0 nN (fun n '(prev, next) =>
      recvRank ← zget recv (c * nN + n);
      prevSendRank ← zget send (c * nN + (n - 1 + nN) `rem` nN);
      prev ← zset prev (c * nR + recvRank) prevSendRank;
      sendRank ← zget send (c * nN + n);
      nextRecvRank ← zget recv (c * nN + (n + 1) `rem` nN);
      next ← zset next (c * nR + sendRank) nextRecvRank;
      Ret (prev, next)) (prev, next))
    (fun '(prev', next') =>
      scattered (fun n => c * nR + znth recv (c * nN + n)) (fun n => znth send (c * nN + (n - 1 + nN) `rem` nN)) 0 nN prev prev' /\
      scattered (fun n => c * nR + znth send (c * nN + n)) (fun n => znth recv (c * nN + (n + 1) `rem` nN)) 0 nN next next').
Proof.
  intros HnN HnR Hc Hlr Hls Hlp Hln Hnc.
  apply (wpx_for (fun k '(prev', next') =>
      scattered (fun n => c * nR + znth recv (c * nN + n)) (fun n => znth send (c * nN + (n - 1 + nN) `rem` nN)) 0 k prev prev' /\
      scattered (fun n => c * nR + znth send (c * nN + n)) (fun n => znth recv (c * nN + (n + 1) `rem` nN)) 0 k next next'));
    [lia| | |by intros []].
  - split; apply scattered_refl.
  - intros k [prev1 next1] Hk [Hp Hn].
    pose proof (nc_recv_range _ _ _ _ _ _ _ _ Hnc k Hk) as Hr.
    pose proof (nc_send_range _ _ _ _ _ _ _ _ Hnc k Hk) as Hs.
    rewrite !rem_mod_nonneg by lia.
    pose proof (Z.mod_pos_bound (k - 1 + nN) nN HnN). pose proof (Z.mod_pos_bound (k + 1) nN HnN).
    rewrite !zget_znth by nia. simpl.
    rewrite (zset_Ret prev1) by (rewrite (sc_length _ _ _ _ _ _ Hp); nia). simpl.
    rewrite (zset_Ret next1) by (rewrite (sc_length _ _ _ _ _ _ Hn); nia). simpl.
    rewrite <- !rem_mod_nonneg by lia. split.
    + apply (scattered_step (fun n => c * nR + znth recv (c * nN + n)) (fun n => znth send (c * nN + (n - 1 + nN) `rem` nN))); [lia|nia| |done].
      intros n Hn'. pose proof (nc_recv_range _ _ _ _ _ _ _ _ Hnc n ltac:(lia)). split; [nia|]. intros He.
      destruct (nc_block _ _ _ _ _ _ _ _ Hnc n ltac:(lia)) as [o Ho].
      pose proof (nc_recv_at _ _ _ _ _ _ _ _ Hnc n o ltac:(lia) Ho) as Hat.
      destruct (nc_recv_inj _ _ _ _ _ _ _ _ Hnc k (Z.to_nat n) o 0%nat Hk Ho); [rewrite Hat; f_equal; lia|lia].
    + apply (scattered_step (fun n => c * nR + znth send (c * nN + n)) (fun n => znth recv (c * nN + (n + 1) `rem` nN))); [lia|nia| |done].
      intros n Hn'. pose proof (nc_send_range _ _ _ _ _ _ _ _ Hnc n ltac:(lia)). split; [nia|]. intros He.
      destruct (nc_block _ _ _ _ _ _ _ _ Hnc n ltac:(lia)) as [o Ho].
      pose proof (nc_send_at _ _ _ _ _ _ _ _ Hnc n o ltac:(lia) Ho) as Hat.
      destruct (nc_send_inj _ _ _ _ _ _ _ _ Hnc k (Z.to_nat n) o (length o - 1)%nat Hk Ho); [rewrite Hat; f_equal; lia|lia].
Qed.

(** Chains only look at the row of their channel. *)
Lemma node_chains_ext nN nR c recv send prev1 next1 prev2 next2 O :
  (forall p, c * nR <= p < (c + 1) * nR -> znth next2 p = znth next1 p /\ znth prev2 p = znth prev1 p) ->
  node_chains nN nR c recv send prev1 next1 O -> node_chains nN nR c recv send prev2 next2 O.
Proof.
  intros He Hnc. pose proof (nc_elem _ _ _ _ _ _ _ _ Hnc) as Hr. destruct Hnc as [? ? ? ? ? Hl]. split; [done..|].
  intros n o i x y Ho Hx Hy. pose proof (Hr _ _ _ _ Ho Hx). pose proof (Hr _ _ _ _ Ho Hy).
  destruct (Hl n o i x y Ho Hx Hy) as [Hx1 Hy1].
  destruct (He (c * nR + x) ltac:(lia)) as [-> _]. destruct (He (c * nR + y) ltac:(lia)) as [_ ->]. done.
Qed.

Lemma connectRings_spec nC nN nR recv send prev next (O : Z -> list (list Z)) :
  0 <= nC -> 0 < nN -> 0 <= nR ->
  nC * nN <= Z.of_nat (length recv) -> nC * nN <= Z.of_nat (length send) ->
  nC * nR <= Z.of_nat (length prev) -> nC * nR <= Z.of_nat (length next) ->
  (forall c, 0 <= c < nC -> node_chains nN nR c recv send prev next (O c)) ->
  wp (connectRings nC nN nR recv send (prev, next)) (fun '(prev', next') =>
    (length prev' = length prev /\ length next' = length next) /\
    (forall c, 0 <= c < nC -> ring_order prev' next' nR c (concat (O c))) /\
    (forall p, nC * nR <= p -> znth next' p = znth next p /\ znth prev' p = znth prev p)).
Proof.
  intros HnC HnN HnR Hlr Hls Hlp Hln Hnc. unfold connectRings.
  apply (wpx_for (fun k '(prev', next') =>
    (length prev' = length prev /\ length next' = length next) /\
    (forall c, 0 <= c < k -> ring_order prev' next' nR c (concat (O c))) /\
    (forall p, k * nR <= p -> znth next' p = znth next p /\ znth prev' p = znth prev p)));
    [lia| | |by intros []].
  - split; [done|]. split; [lia|done].
  - intros c [prev1 next1] Hc ((Hl1 & Hl2) & Hdone & Hrest).
    assert (node_chains nN nR c recv send prev1 next1 (O c)) as Hncc.
    { eapply node_chains_ext; [|by apply Hnc]. intros p Hp. apply Hrest. lia. }
    eapply wpx_mono; [apply (connectRings_channel nN nR c recv send prev1 next1 (O c)); [done|done|lia|nia|nia|nia|nia|done]| |done].
    intros [prev2 next2] [Hsp Hsn].
    assert (forall p, 0 <= p < c * nR \/ (c + 1) * nR <= p ->
              znth next2 p = znth next1 p /\ znth prev2 p = znth prev1 p) as Hout.
    { intros p Hp. split.
      - apply (sc_kept _ _ _ _ _ _ Hsn); [nia|]. intros n Hn He.
        pose proof (nc_send_range _ _ _ _ _ _ _ _ Hncc n Hn). lia.
      - apply (sc_kept _ _ _ _ _ _ Hsp); [nia|]. intros n Hn He.
        pose proof (nc_recv_range _ _ _ _ _ _ _ _ Hncc n Hn). lia. }
    split; [|split].
    + split; [rewrite (sc_length _ _ _ _ _ _ Hsp)|rewrite (sc_length _ _ _ _ _ _ Hsn)]; done.
    + intros c' Hc'. destruct (Z.eq_dec c' c) as [->|].
      * eapply joined_order; [done|exact Hncc|lia|lia|done|done].
      * eapply ring_order_ext; [|apply Hdone; lia]. intros p Hp. apply Hout. nia.
    + intros p Hp. destruct (Hout p) as [-> ->]; [by right|]. apply Hrest. lia.
Qed.

(** (C4) [connectRings] joins node-local chains into rings: when on every channel
    the chains of the nodes are non-empty and hold every rank exactly once, with
    [ringRecv]/[ringSend] their first/last ranks and [ringPrev]/[ringNext] their
    inner links, the function stays inside its arrays and afterwards every
    channel visits the ranks node after node in chain order and closes: its
    [next] row is a single cycle from any rank (so [ncclBuildRings] accepts it)
    and its [prev] row is the inverse. *)
Theorem connectRings_cycles nC nN nR recv send prev next (O : Z -> list (list Z)) :
  0 <= nC -> 0 < nN -> 0 <= nR ->
  nC * nN <= Z.of_nat (length recv) -> nC * nN <= Z.of_nat (length send) ->
  nC * nR <= Z.of_nat (length prev) -> nC * nR <= Z.of_nat (length next) ->
  (forall c, 0 <= c < nC -> node_chains nN nR c recv send prev next (O c)) ->
  exists prev' next', connectRings nC nN nR recv send (prev, next) = Ret (prev', next') /\
    forall c, 0 <= c < nC ->
      (forall rank, 0 <= rank < nR -> single_cycle next' nR c rank) /\
      (forall r, 0 <= r < nR -> znth prev' (c * nR + znth next' (c * nR + r)) = r) /\
      ring_order prev' next' nR c (concat (O c)).
Proof.
  intros HnC HnN HnR Hlr Hls Hlp Hln Hnc.
  destruct (wp_elim _ _ (connectRings_spec nC nN nR recv send prev next O HnC HnN HnR Hlr Hls Hlp Hln Hnc))
    as ([prev' next'] & He & _ & Hord & _).
  exists prev', next'. split; [done|]. intros c Hc. specialize (Hord c Hc). split; [|split; [|done]].
  - intros rank Hr. by eapply ring_order_cycle.
  - intros r Hr. assert (r ∈ concat (O c)) as Hin.
    { rewrite (ro_perm _ _ _ _ _ Hord). apply elem_of_seqZ. lia. }
    apply list_elem_of_lookup_1 in Hin as [j Hj]. pose proof (lookup_lt_Some _ _ _ Hj).
    destruct (lookup_lt_is_Some_2 (concat (O c)) ((j + 1) mod length (concat (O c)))) as [y Hy].
    { apply Nat.mod_upper_bound. lia. }
    by destruct (ro_next _ _ _ _ _ Hord j r y Hj Hy) as [-> ->].
Qed.

Lemma connectRings_cycles_witness :
  exists prev' next', connectRings 1 2 4 [0; 3] [1; 2] ([-1; 0; 3; -1], [1; -1; -1; 2]) = Ret (prev', next') /\
    forall c, 0 <= c < 1 ->
      (forall rank, 0 <= rank < 4 -> single_cycle next' 4 c rank) /\
      (forall r, 0 <= r < 4 -> znth prev' (c * 4 + znth next' (c * 4 + r)) = r) /\
      ring_order prev' next' 4 c (concat [[0; 1]; [3; 2]]).
Proof.
  apply (connectRings_cycles 1 2 4 [0; 3] [1; 2] [-1; 0; 3; -1] [1; -1; -1; 2] (fun _ => [[0; 1]; [3; 2]]));
    [lia|lia|lia|simpl; lia|simpl; lia|simpl; lia|simpl; lia|].
  intros c Hc. assert (c = 0) as -> by lia. split.
  - done.
  - by repeat constructor.
  - change (seqZ 0 4) with [0; 1; 2; 3]. simpl. solve_Permutation.
  - intros [|[|n]] o Ho; simplify_eq/=; done.
  - intros [|[|n]] o Ho; simplify_eq/=; done.
  - intros [|[|n]] o [|[|i]] x y Ho Hx Hy; simplify_eq/=; done.
Defined.

(** ** Trees: proofs *)

(** The first entries of a [down] array, padded with [-1]. *)
Definition down_pad (l : list Z) : list Z := l ++ replicate (3 - length l) (-1).

Lemma free_slot_pad l : (length l < 3)%nat -> Forall (Z.le 0) l ->
  free_slot 3 0 (down_pad l) = Ret (Z.of_nat (length l)).
Proof.
  intros Hl Hp. destruct l as [|a [|b [|c l]]]; [..|simpl in Hl; lia]; unfold down_pad, zget; simpl;
    repeat match goal with H : Forall _ (_ :: _) |- _ => apply Forall_cons in H as [? H] end;
    unfold zget; simpl; zcases; try lia; done.
Qed.

Lemma setTreeDown_pad depth up l f d v :
  (length l < 3)%nat -> Forall (Z.le 0) l -> (d <> -1 -> f d = Ret v) ->
  setTreeDown (MkTree depth up (down_pad l)) f d =
    Ret (MkTree depth up (down_pad (if d =? -1 then l else l ++ [v]))).
Proof.
  intros Hl Hp Hf. unfold setTreeDown. destruct (Z.eqb_spec d (-1)) as [->|Hd]; [done|]. cbn [tr_down].
  rewrite free_slot_pad by done. cbn [mbind outcome_bind].
  destruct (Z.eqb_spec (Z.of_nat (length l)) NCCL_MAX_TREE_ARITY) as [He|_]; [unfold NCCL_MAX_TREE_ARITY in He; lia|].
  rewrite (Hf Hd). cbn [mbind outcome_bind]. rewrite zset_Ret; cycle 1.
  { unfold down_pad. rewrite length_app, length_replicate. lia. }
  cbn [mbind outcome_bind tr_depth tr_up]. do 3 f_equal. rewrite Nat2Z.id. unfold down_pad.
  destruct l as [|a [|b [|c l]]]; [done..|simpl in Hl; lia].
Qed.

(** What a rank's tree becomes: the parent side of its links at [up], the
    child side appended to [down]. *)
Section tree_links.
  Context (rank node : Z) (P C0 C1 : Z -> Z) (b : btree).

Definition child_type_slot (ty : option Z) : Z -> Z := match ty with Some 0 => C0 | _ => C1 end.

Definition links_up (up : Z) : Z :=
  if (rank =? P node) && negb (bt_u b =? -1) then child_type_slot (bt_type b) (bt_u b) else up.

Definition links_down : list Z :=
  (if (rank =? C0 node) && negb (bt_d0 b =? -1) then [P (bt_d0 b)] else [])
  ++ (if (rank =? C1 node) && negb (bt_d1 b =? -1) then [P (bt_d1 b)] else []).

End tree_links.

Lemma connectTree_spec rank node depth nN (P C0 C1 : Z -> Z) (ttp ttc0 ttc1 : Z -> outcome Z) b0 b1 e0 u0 l0 e1 u1 l1 :
  0 <= node < nN ->
  (forall n, 0 <= n < nN -> ttp n = Ret (P n) /\ ttc0 n = Ret (C0 n) /\ ttc1 n = Ret (C1 n) /\ 0 <= P n) ->
  (forall b x, b = b0 \/ b = b1 -> x = bt_u b \/ x = bt_d0 b \/ x = bt_d1 b -> x = -1 \/ 0 <= x < nN) ->
  (length l0 <= 1)%nat -> Forall (Z.le 0) l0 -> (length l1 <= 1)%nat -> Forall (Z.le 0) l1 ->
  connectTree rank node depth ttp ttc0 ttc1 b0 b1 (MkTree e0 u0 (down_pad l0), MkTree e1 u1 (down_pad l1)) =
    Ret (MkTree depth (links_up rank node P C0 C1 b0 u0) (down_pad (l0 ++ links_down rank node P C0 C1 b0)),
         MkTree depth (links_up rank node P C0 C1 b1 u1) (down_pad (l1 ++ links_down rank node P C0 C1 b1))).
Proof.
  intros Hnode Hrow Hlinks Hl0 Hp0 Hl1 Hp1. unfold connectTree.
  destruct (Hrow node Hnode) as (-> & -> & -> & _). cbn [mbind outcome_bind].
  assert (forall b d, b = b0 \/ b = b1 -> d = bt_u b \/ d = bt_d0 b \/ d = bt_d1 b -> d <> -1 ->
            ttp d = Ret (P d) /\ ttc0 d = Ret (C0 d) /\ ttc1 d = Ret (C1 d) /\ 0 <= P d) as Hat.
  { intros b d Hb Hd Hne. apply Hrow. destruct (Hlinks b d Hb Hd); [done|lia]. }
  assert (forall b e u l, b = b0 \/ b = b1 ->
    setTreeUp (MkTree e u (down_pad l)) (match bt_type b with Some 0 => ttc0 | _ => ttc1 end) (bt_u b) =
    Ret (MkTree e (if bt_u b =? -1 then u else child_type_slot C0 C1 (bt_type b) (bt_u b)) (down_pad l))) as Hup.
  { intros b e u l Hb. unfold setTreeUp. destruct (Z.eqb_spec (bt_u b) (-1)) as [|Hne]; [done|].
    destruct (Hat b (bt_u b) Hb ltac:(auto) Hne) as (_ & E0 & E1 & _).
    unfold child_type_slot. destruct (bt_type b) as [[| |]|]; rewrite ?E0, ?E1; done. }
  assert (forall b e u l d, b = b0 \/ b = b1 -> d = bt_d0 b \/ d = bt_d1 b -> (length l < 3)%nat -> Forall (Z.le 0) l ->
    setTreeDown (MkTree e u (down_pad l)) ttp d = Ret (MkTree e u (down_pad (if d =? -1 then l else l ++ [P d])))) as Hdn.
  { intros b e u l d Hb Hd Hl Hp. apply setTreeDown_pad; [done|done|]. intros Hne.
    by apply (Hat b d Hb ltac:(tauto) Hne). }
  assert (forall b l, b = b0 \/ b = b1 -> (length l <= 1)%nat -> Forall (Z.le 0) l ->
     let l' := if bt_d0 b =? -1 then l else l ++ [P (bt_d0 b)] in (length l' < 3)%nat /\ Forall (Z.le 0) l') as Hgrow.
  { intros b l Hb Hl Hp. simpl. destruct (Z.eqb_spec (bt_d0 b) (-1)) as [|Hne]; [split; [lia|done]|].
    rewrite length_app. simpl. split; [lia|]. apply Forall_app. split; [done|]. apply Forall_singleton.
    apply (Hat b (bt_d0 b) Hb ltac:(auto) Hne). }
  assert (b0 = b0 \/ b0 = b1) as Hb0 by auto. assert (b1 = b0 \/ b1 = b1) as Hb1 by auto.
  destruct (Hgrow b0 l0 Hb0 Hl0 Hp0) as [Hg0 Hf0]. destruct (Hgrow b1 l1 Hb1 Hl1 Hp1) as [Hg1 Hf1].
  assert (length l0 < 3)%nat as Hs0 by lia. assert (length l1 < 3)%nat as Hs1 by lia.
  pose proof (fun e u => Hdn b0 e u _ _ Hb0 (or_introl eq_refl) Hs0 Hp0) as D0.
  pose proof (fun e u => Hdn b0 e u _ _ Hb0 (or_intror eq_refl) Hs0 Hp0) as D0'.
  pose proof (fun e u => Hdn b0 e u _ _ Hb0 (or_intror eq_refl) Hg0 Hf0) as D0''.
  pose proof (fun e u => Hdn b1 e u _ _ Hb1 (or_introl eq_refl) Hs1 Hp1) as D1.
  pose proof (fun e u => Hdn b1 e u _ _ Hb1 (or_intror eq_refl) Hs1 Hp1) as D1'.
  pose proof (fun e u => Hdn b1 e u _ _ Hb1 (or_intror eq_refl) Hg1 Hf1) as D1''.
  unfold links_up, links_down.
  destruct (rank =? P node), (rank =? C0 node), (rank =? C1 node); cbn [andb] in *;
    repeat first [rewrite (Hup b0) by auto | rewrite (Hup b1) by auto | rewrite D0 | rewrite D0' | rewrite D0''
      | rewrite D1 | rewrite D1' | rewrite D1'' | progress cbn [mbind outcome_bind tr_depth tr_up tr_down]];
    destruct (bt_u b0 =? -1), (bt_d0 b0 =? -1), (bt_d1 b0 =? -1), (bt_u b1 =? -1), (bt_d0 b1 =? -1), (bt_d1 b1 =? -1);
    simpl; rewrite ?app_nil_r, <- ?app_assoc; reflexivity.
Qed.

(** The links of the tree of a channel before and after [connectTrees]. *)
Definition tree_chain (ch : ncclChannel) : Prop :=
  exists l, tr_down (ch_tree ch) = down_pad l /\ (length l <= 1)%nat /\ Forall (Z.le 0) l.

Record tree_wired (rank node : Z) (P C0 C1 : Z -> Z) (b : btree) (ch ch' : ncclChannel) : Prop := {
  tw_up : tr_up (ch_tree ch') = links_up rank node P C0 C1 b (tr_up (ch_tree ch));
  tw_down l : tr_down (ch_tree ch) = down_pad l -> (length l <= 1)%nat -> Forall (Z.le 0) l ->
    tr_down (ch_tree ch') = down_pad (l ++ links_down rank node P C0 C1 b);
}.

Lemma down_pad_inj l l' : (length l <= 3)%nat -> (length l' <= 3)%nat -> Forall (Z.le 0) l -> Forall (Z.le 0) l' ->
  down_pad l = down_pad l' -> l = l'.
Proof.
  unfold down_pad. intros Hl Hl' Hp Hp' He.
  destruct l as [|a [|b [|c [|? l]]]], l' as [|a' [|b' [|c' [|? l']]]]; simpl in *; try lia; simplify_eq; try done;
    repeat match goal with H : Forall _ (_ :: _) |- _ => apply Forall_cons in H as [? H] end; lia.
Qed.

Lemma zget_lookup {A} (l : list A) i x : 0 <= i -> l !! Z.to_nat i = Some x -> zget l i = Ret x.
Proof. intros. by apply zget_Ret. Qed.

Section connectTrees_proofs.
  Context (comm : ncclComm) (ttp ttc0 ttc1 : list Z) (b0 b1 : btree).
  Notation nC := (nChannels comm).
  Notation nN := (nNodes comm).
  Notation row a c := (fun n => znth a (c * nN + n)).
  Context (HnC : 0 <= nC) (Hnode : 0 <= node comm < nN).
  Context (Hdt : ncclGetDtree nN (node comm) = Ret (b0, b1)).
  Context (Hlinks : forall b x, b = b0 \/ b = b1 -> x = bt_u b \/ x = bt_d0 b \/ x = bt_d1 b -> x = -1 \/ 0 <= x < nN).
  Context (Hl : nC * nN <= Z.of_nat (length ttp)) (Hl0 : nC * nN <= Z.of_nat (length ttc0))
          (Hl1 : nC * nN <= Z.of_nat (length ttc1)).
  Context (Hpos : forall i, 0 <= i < nC * nN -> 0 <= znth ttp i).
  Context (Hch : 2 * nC <= Z.of_nat (length (channels comm))).
  Context (Hchain : forall i ch, (i < Z.to_nat (2 * nC))%nat -> channels comm !! i = Some ch -> tree_chain ch).

Definition wired_at (b : btree) (c : Z) (i : nat) (chs' : list ncclChannel) : Prop :=
  forall ch, channels comm !! i = Some ch -> exists ch', chs' !! i = Some ch' /\
    tree_wired (rank comm) (node comm) (row ttp c) (row ttc0 c) (row ttc1 c) b ch ch'.

Lemma connectTrees_wired :
  wp (connectTrees comm ttp ttc0 ttc1) (fun comm' =>
    length (channels comm') = length (channels comm) /\
    forall c, 0 <= c < nC -> wired_at b0 c (Z.to_nat c) (channels comm') /\
      wired_at b1 c (Z.to_nat (c + nC)) (channels comm')).
Proof.
  unfold connectTrees. rewrite Hdt. cbn [mbind outcome_bind]. wp_bind.
  apply (wpx_for (fun k chs =>
    length chs = length (channels comm) /\
    (forall c, 0 <= c < k -> wired_at b0 c (Z.to_nat c) chs /\ wired_at b1 c (Z.to_nat (c + nC)) chs) /\
    (forall c, k <= c < nC -> chs !! Z.to_nat c = channels comm !! Z.to_nat c /\
       chs !! Z.to_nat (c + nC) = channels comm !! Z.to_nat (c + nC)))); [lia| | |].
  - split; [done|]. split; [lia|done].
  - intros c chs Hc (Hlen & Hdone & Hrest). destruct (Hrest c ltac:(lia)) as [Hr0 Hr1].
    destruct (lookup_lt_is_Some_2 (channels comm) (Z.to_nat c)) as [ch0 Hch0]; [lia|].
    destruct (lookup_lt_is_Some_2 (channels comm) (Z.to_nat (c + nC))) as [ch1 Hch1]; [lia|].
    rewrite (zget_lookup _ c ch0) by (rewrite ?Hr0; auto; lia).
    rewrite (zget_lookup _ (c + nC) ch1) by (rewrite ?Hr1; auto; lia). cbn [mbind outcome_bind].
    destruct (Hchain (Z.to_nat c) ch0 ltac:(lia) Hch0) as (l0 & Hd0 & Hll0 & Hp0).
    destruct (Hchain (Z.to_nat (c + nC)) ch1 ltac:(lia) Hch1) as (l1 & Hd1 & Hll1 & Hp1).
    destruct (ch_tree ch0) as [e0 u0 d0] eqn:Et0. destruct (ch_tree ch1) as [e1 u1 d1] eqn:Et1.
    simpl in Hd0, Hd1. subst d0 d1.
    rewrite (connectTree_spec _ _ _ nN (row ttp c) (row ttc0 c) (row ttc1 c)); [|done| |done..].
    2: { intros n Hn. rewrite !zget_znth by nia. do 3 (split; [done|]). apply Hpos. nia. }
    cbn [mbind outcome_bind]. rewrite (zset_Ret chs) by lia. cbn [mbind outcome_bind].
    rewrite zset_Ret by (rewrite length_insert; lia).
    assert (Z.to_nat c <> Z.to_nat (c + nC)) as Hne by lia.
    split; [by rewrite !length_insert|]. split.
    + intros c' Hc'. destruct (Z.eq_dec c' c) as [->|Hcc].
      * split; intros ch Hch'; eexists; split.
        -- rewrite list_lookup_insert_ne by done. apply list_lookup_insert_eq. lia.
        -- simplify_eq. split; simpl; rewrite Et0; simpl; [done|]. intros l Hd Hl' Hp'.
           by apply down_pad_inj in Hd as ->; [|lia..|done|done].
        -- apply list_lookup_insert_eq. rewrite length_insert. lia.
        -- simplify_eq. split; simpl; rewrite Et1; simpl; [done|]. intros l Hd Hl' Hp'.
           by apply down_pad_inj in Hd as ->; [|lia..|done|done].
      * destruct (Hdone c' ltac:(lia)) as [Hw0 Hw1]. unfold wired_at.
        rewrite !list_lookup_insert_ne by lia. done.
    + intros c' Hc'. rewrite !list_lookup_insert_ne by lia. apply Hrest. lia.
  - intros chs (Hlen & Hdone & _). simpl. done.
Qed.

End connectTrees_proofs.

Lemma tree_links_range nN root t r b x :
  tree_ok nN root t r b -> x = bt_u b \/ x = bt_d0 b \/ x = bt_d1 b -> x = -1 \/ 0 <= x < nN.
Proof.
  intros Hok Hx. destruct (Z.eq_dec x (-1)) as [|Hne]; [by left|right]. destruct Hx as [->|[->| ->]].
  - apply (tree_parent _ _ _ _ _ Hok). intros ->. apply Hne. by apply (tree_root _ _ _ _ _ Hok).
  - by apply (tree_child _ _ _ _ _ Hok (bt_d0 b) (Some 0)); [left|].
  - by apply (tree_child _ _ _ _ _ Hok (bt_d1 b) (Some 1)); [right|].
Qed.

(** The two trees by number, and what each promises. *)
Definition dtree (second : bool) (nN n : Z) : outcome btree := if second then dtree1 nN n else dtree0 nN n.

Lemma dtree_pair nN n : 1 <= nN <= 2 ^ 30 -> 0 <= n < nN ->
  exists b0 b1, ncclGetDtree nN n = Ret (b0, b1) /\
    (forall second, dtree second nN n = Ret (if second : bool then b1 else b0)) /\
    (forall second : bool, tree_ok nN (if second then dtree_root1 nN else 0) (dtree second nN) n (if second then b1 else b0)).
Proof.
  intros HnN Hn. destruct (dtree_split nN n Hn ltac:(lia)) as (b0 & b1 & Hd & _).
  destruct (dtree0_tree nN ltac:(lia) n Hn) as (c0 & Hc0 & Ht0).
  destruct (dtree1_tree nN ltac:(lia) n Hn) as (c1 & Hc1 & Ht1).
  pose proof Hc0 as Hc0'. pose proof Hc1 as Hc1'.
  unfold dtree0 in Hc0'. unfold dtree1 in Hc1'. rewrite Hd in Hc0', Hc1'. simpl in Hc0', Hc1'. simplify_eq.
  exists c0, c1. split; [done|]. split; intros []; done.
Qed.

(** A communicator ready for [connectTrees] on the shared arrays. *)
Record tree_comm (nC nN : Z) (ttp ttc0 ttc1 : list Z) (comm : ncclComm) : Prop := {
  tcm_nC : nChannels comm = nC;
  tcm_nN : nNodes comm = nN;
  tcm_node : 0 <= node comm < nN;
  tcm_channels : 2 * nC <= Z.of_nat (length (channels comm));
  tcm_chain i ch : (i < Z.to_nat (2 * nC))%nat -> channels comm !! i = Some ch -> tree_chain ch;
}.

Lemma tree_comm_wired nC nN ttp ttc0 ttc1 comm :
  0 <= nC -> 1 <= nN <= 2 ^ 30 ->
  nC * nN <= Z.of_nat (length ttp) -> nC * nN <= Z.of_nat (length ttc0) -> nC * nN <= Z.of_nat (length ttc1) ->
  (forall i, 0 <= i < nC * nN -> 0 <= znth ttp i) ->
  tree_comm nC nN ttp ttc0 ttc1 comm ->
  exists comm', connectTrees comm ttp ttc0 ttc1 = Ret comm' /\
    forall c (second : bool) b, 0 <= c < nC -> dtree second nN (node comm) = Ret b ->
    exists ch ch', channels comm !! Z.to_nat (if second then c + nC else c) = Some ch /\ tree_chain ch /\
      channels comm' !! Z.to_nat (if second then c + nC else c) = Some ch' /\
      tree_wired (rank comm) (node comm) (fun n => znth ttp (c * nN + n)) (fun n => znth ttc0 (c * nN + n))
        (fun n => znth ttc1 (c * nN + n)) b ch ch'.
Proof.
  intros HnC HnN Hl Hl0 Hl1 Hpos [EC EN Hnode Hch Hchain]. subst nC nN.
  destruct (dtree_pair _ _ HnN Hnode) as (b0 & b1 & Hd & Heq & Hok).
  assert (forall b x, b = b0 \/ b = b1 -> x = bt_u b \/ x = bt_d0 b \/ x = bt_d1 b -> x = -1 \/ 0 <= x < nNodes comm) as Hlk.
  { intros b x [-> | ->]; [apply (tree_links_range _ _ _ _ _ _ (Hok false))|apply (tree_links_range _ _ _ _ _ _ (Hok true))]. }
  destruct (wp_elim _ _ (connectTrees_wired comm ttp ttc0 ttc1 b0 b1 HnC Hnode Hd Hlk Hl Hl0 Hl1 Hpos Hch Hchain))
    as (comm' & He & _ & Hw).
  exists comm'. split; [done|]. intros c second b Hc Hb. rewrite Heq in Hb. injection Hb as <-.
  destruct (lookup_lt_is_Some_2 (channels comm) (Z.to_nat (if second then c + nChannels comm else c))) as [ch Hch'].
  { destruct second; lia. }
  exists ch. assert (tree_chain ch) as Htc. { eapply Hchain; [|done]. destruct second; lia. }
  destruct second; [destruct (Hw c Hc) as [_ H]|destruct (Hw c Hc) as [H _]];
    destruct (H ch Hch') as (ch' & ? & ?); by exists ch'.
Qed.

(** (C5) The inter-node tree links that different ranks compute on their own
    agree.  Take any channel, either of the two trees of [ncclGetDtree], a node
    with a parent node in that tree, the rank of the node that talks to the
    parent and the rank of the parent node in charge of that child.  Starting
    from node-local chains (at most one entry in [down]), [connectTrees] succeeds
    on both ranks (the three [down] slots suffice), the child's [up] is the
    parent rank and the child rank is in the parent's [down]. *)
Theorem connectTrees_symmetric (second : bool) nC nN ttp ttc0 ttc1 child parent c b :
  0 <= c < nC -> 1 <= nN <= 2 ^ 30 ->
  nC * nN <= Z.of_nat (length ttp) -> nC * nN <= Z.of_nat (length ttc0) -> nC * nN <= Z.of_nat (length ttc1) ->
  (forall i, 0 <= i < nC * nN -> 0 <= znth ttp i) ->
  tree_comm nC nN ttp ttc0 ttc1 child -> tree_comm nC nN ttp ttc0 ttc1 parent ->
  dtree second nN (node child) = Ret b -> bt_u b <> -1 -> node parent = bt_u b ->
  rank child = znth ttp (c * nN + node child) ->
  rank parent = child_type_slot (fun n => znth ttc0 (c * nN + n)) (fun n => znth ttc1 (c * nN + n)) (bt_type b) (node parent) ->
  exists child' parent' tc tp,
    connectTrees child ttp ttc0 ttc1 = Ret child' /\ connectTrees parent ttp ttc0 ttc1 = Ret parent' /\
    channels child' !! Z.to_nat (if second then c + nC else c) = Some tc /\
    channels parent' !! Z.to_nat (if second then c + nC else c) = Some tp /\
    tr_up (ch_tree tc) = rank parent /\ rank child ∈ tr_down (ch_tree tp).
Proof.
  intros Hc HnN Hl Hl0 Hl1 Hpos Hcc Hcp Hb Hu Hnp Hrc Hrp.
  destruct (tree_comm_wired nC nN ttp ttc0 ttc1 child ltac:(lia) HnN Hl Hl0 Hl1 Hpos Hcc) as (child' & Ec & Hwc).
  destruct (tree_comm_wired nC nN ttp ttc0 ttc1 parent ltac:(lia) HnN Hl Hl0 Hl1 Hpos Hcp) as (parent' & Ep & Hwp).
  destruct (Hwc c second b Hc Hb) as (ch & tc & _ & _ & Htc & Hup & _).
  destruct (dtree_pair nN (node child) HnN (tcm_node _ _ _ _ _ _ Hcc)) as (b0 & b1 & _ & Heq & Hok).
  rewrite Heq in Hb. injection Hb as <-. specialize (Hok second).
  assert (node child <> (if second then dtree_root1 nN else 0)) as Hnr.
  { intros E. apply Hu. by apply (tree_root _ _ _ _ _ Hok). }
  destruct (tree_parent _ _ _ _ _ Hok Hnr) as (Hur & p & Hp & Hslot). rewrite <- Hnp in Hp.
  destruct (Hwp c second p Hc Hp) as (chp & tp & Hchp & (l & Hd & Hll & Hlp) & Htp & _ & Hdown).
  exists child', parent', tc, tp. do 4 (split; [done|]). split.
  - rewrite Hup. unfold links_up. rewrite Hrc, Z.eqb_refl. simpl.
    destruct (Z.eqb_spec (bt_u (if second then b1 else b0)) (-1)); [done|]. simpl. by rewrite Hrp, Hnp.
  - rewrite (Hdown l Hd Hll Hlp). unfold down_pad, links_down. rewrite !elem_of_app. left. right.
    pose proof (tcm_node _ _ _ _ _ _ Hcc).
    destruct Hslot as [[Ht Hs]|[Ht Hs]]; rewrite Ht in Hrp; simpl in Hrp.
    + left. rewrite Hs, <- Hrp, Z.eqb_refl. simpl. destruct (Z.eqb_spec (node child) (-1)); [lia|]. simpl.
      apply list_elem_of_singleton. congruence.
    + right. rewrite Hs, <- Hrp, Z.eqb_refl. simpl. destruct (Z.eqb_spec (node child) (-1)); [lia|]. simpl.
      apply list_elem_of_singleton. congruence.
Qed.

(** Two nodes of one rank each, two channels. *)
Definition example_channel : ncclChannel :=
  MkChannel (MkRing (-1) (-1)) (MkTree 0 (-1) [-1; -1; -1]) (MkTree 0 (-1) [-1; -1; -1])
    (MkDirect 0 (-1) 0 (-1) 0 (replicate 8 (-1)) (replicate 7 (-1)) (replicate 7 (-1)))
    (MkNvls (-1) 0 (-1) (replicate 32 (-1)) (-1) (-1) [-1; -1; -1]).
Definition example_comm (r : Z) : ncclComm :=
  MkComm r 2 r 2 1 [0; 1] 0 80 false 1 64 true 64 1 0 0 (replicate 64 0) (replicate 64 example_channel).

Lemma example_tree_comm r : 0 <= r < 2 -> tree_comm 1 2 [0; 1] [0; 1] [0; 1] (example_comm r).
Proof.
  intros Hr. split; [done|done|done|simpl; lia|]. intros i ch Hi Hch.
  apply lookup_replicate in Hch as [-> _]. exists []. split; [done|]. split; [simpl; lia|done].
Qed.

Lemma connectTrees_symmetric_witness :
  exists child' parent' tc tp,
    connectTrees (example_comm 1) [0; 1] [0; 1] [0; 1] = Ret child' /\
    connectTrees (example_comm 0) [0; 1] [0; 1] [0; 1] = Ret parent' /\
    channels child' !! 0%nat = Some tc /\ channels parent' !! 0%nat = Some tp /\
    tr_up (ch_tree tc) = 0 /\ 1 ∈ tr_down (ch_tree tp).
Proof.
  apply (connectTrees_symmetric false 1 2 [0; 1] [0; 1] [0; 1] (example_comm 1) (example_comm 0) 0
           (Btree 0 (-1) (-1) (Some 1))); [lia|lia|simpl; lia|simpl; lia|simpl; lia| | | | | | | |].
  - change (1 * 2) with 2. enum ltac:(vm_compute; congruence).
  - apply example_tree_comm. lia.
  - apply example_tree_comm. lia.
  - vm_compute. reflexivity.
  - simpl. lia.
  - reflexivity.
  - reflexivity.
  - reflexivity.
Defined.

(** ** Channel counts: proofs *)

Lemma ncclMinNchannels_range p : 0 <= ncclMinNchannels p <= MAXCHANNELS.
Proof. unfold ncclMinNchannels. generalize MAXCHANNELS (eq_refl : MAXCHANNELS = 64). intros m ->. zcases; lia. Qed.

Lemma ncclMaxNchannels_range p : 1 <= ncclMaxNchannels p <= MAXCHANNELS.
Proof. unfold ncclMaxNchannels. generalize MAXCHANNELS (eq_refl : MAXCHANNELS = 64). intros m E. zcases; lia. Qed.

Lemma copy_row_spec a n dst src :
  0 <= n -> 0 <= src -> 0 <= dst -> (dst + 1) * n <= Z.of_nat (length a) -> (src + 1) * n <= Z.of_nat (length a) ->
  wp (copy_row a n dst src) (fun a' => length a' = length a /\
    (forall x, 0 <= x < n -> znth a' (dst * n + x) = znth a (src * n + x)) /\
    (forall p, 0 <= p -> p < dst * n \/ (dst + 1) * n <= p -> znth a' p = znth a p)).
Proof.
  intros Hn Hs Hd Hld Hls. unfold copy_row. wp_bind. apply wpx_require.
  { rewrite !andb_true_iff, !Z.leb_le. lia. }
  set (k := Z.to_nat n). unfold wpx.
  assert (length (take (Z.to_nat dst * k) a) = (Z.to_nat dst * k)%nat) as Hl1.
  { rewrite length_take. unfold k. nia. }
  assert (length (take k (drop (Z.to_nat src * k) a)) = k) as Hl2.
  { rewrite length_take, length_drop. unfold k. nia. }
  split; [|split].
  - rewrite !length_app, Hl1, Hl2, length_drop. unfold k. nia.
  - intros x Hx. unfold znth. rewrite !nth_lookup. f_equal.
    rewrite lookup_app_r by (rewrite Hl1; unfold k; nia).
    rewrite lookup_app_l by (rewrite Hl1, Hl2; unfold k; nia).
    rewrite Hl1, lookup_take_lt by (unfold k; nia). rewrite lookup_drop. f_equal. unfold k. nia.
  - intros p Hp [Hlt|Hge]; unfold znth; rewrite !nth_lookup; f_equal.
    + rewrite lookup_app_l by (rewrite Hl1; unfold k; nia). apply lookup_take_lt. unfold k. nia.
    + rewrite lookup_app_r by (rewrite Hl1; unfold k; nia).
      rewrite lookup_app_r by (rewrite Hl1, Hl2; unfold k; nia).
      rewrite lookup_drop. f_equal. rewrite Hl1, Hl2. unfold k. nia.
Qed.

(** A row that repeats with period [start]. *)
Definition periodic (nR start k : Z) (a a' : list Z) : Prop :=
  length a' = length a /\ (forall p, 0 <= p < start * nR -> znth a' p = znth a p) /\
  forall c x, start <= c < k -> 0 <= x < nR -> znth a' (c * nR + x) = znth a' ((c - start) * nR + x).

Lemma periodic_refl nR start k a : k <= start -> periodic nR start k a a.
Proof. intros. split; [done|]. split; [done|lia]. Qed.

Lemma periodic_copy nR start k a a' :
  0 <= nR -> 0 < start -> start <= k -> (k + 1) * nR <= Z.of_nat (length a) -> periodic nR start k a a' ->
  wp (copy_row a' nR k (k - start)) (fun a'' => periodic nR start (k + 1) a a'').
Proof.
  intros HnR Hs Hk Hl (Hlen & Hfirst & Hper).
  eapply wpx_mono; [apply copy_row_spec; rewrite ?Hlen; nia| |done]. intros a'' (Hlen'' & Hnew & Hold).
  split; [congruence|]. split.
  - intros p Hp. rewrite Hold by nia. by apply Hfirst.
  - intros c x Hc Hx. rewrite (Hold ((c - start) * nR + x)) by nia.
    destruct (Z.eq_dec c k) as [->|]; [by apply Hnew|]. rewrite Hold by nia. apply Hper; lia.
Qed.

Lemma period_mod {A} (f : Z -> A) start k c :
  0 < start -> (forall c, start <= c < k -> f c = f (c - start)) -> 0 <= c < Z.max start k ->
  f c = f (c mod start).
Proof.
  intros Hs Hper Hc.
  assert (forall q, 0 <= q -> forall r, 0 <= r < start -> q * start + r < Z.max start k ->
            f (q * start + r) = f r) as Hq.
  { intros q Hq0. pattern q. apply natlike_ind; [|clear q Hq0; intros q Hq IH|done]; intros r Hr Hlt.
    - by rewrite Z.mul_0_l, Z.add_0_l.
    - rewrite Hper by nia. replace (Z.succ q * start + r - start) with (q * start + r) by lia. apply IH; nia. }
  pose proof (Z.mod_pos_bound c start Hs). pose proof (Z.div_mod c start ltac:(lia)) as Hdm.
  rewrite Hdm at 1. rewrite (Z.mul_comm start). apply Hq; [apply Z.div_pos; lia|lia|lia].
Qed.

Lemma periodic_mod nR start k a a' c x :
  0 < start -> periodic nR start k a a' -> 0 <= c < Z.max start k -> 0 <= x < nR ->
  znth a' (c * nR + x) = znth a ((c mod start) * nR + x).
Proof.
  intros Hs (_ & Hfirst & Hper) Hc Hx. pose proof (Z.mod_pos_bound c start Hs).
  rewrite (period_mod (fun c => znth a' (c * nR + x)) start k) by (auto; lia).
  apply Hfirst. nia.
Qed.

Lemma copyChannels_periodic comm start end_ prev next :
  0 < start -> 0 <= nRanks comm -> end_ <= Z.of_nat (length (channels comm)) ->
  end_ * nRanks comm <= Z.of_nat (length prev) -> end_ * nRanks comm <= Z.of_nat (length next) ->
  wp (copyChannels comm start end_ prev next) (fun '(comm', prev', next', n) =>
    n = Z.max start end_ /\ length (channels comm') = length (channels comm) /\
    periodic (nRanks comm) start end_ prev prev' /\ periodic (nRanks comm) start end_ next next' /\
    (forall c, 0 <= c < start -> channels comm' !! Z.to_nat c = channels comm !! Z.to_nat c) /\
    (forall c, start <= c < end_ -> channels comm' !! Z.to_nat c = channels comm' !! Z.to_nat (c - start))).
Proof.
  intros Hs HnR Hch Hlp Hln. unfold copyChannels. wp_bind.
  destruct (Z.le_gt_cases end_ start) as [Hle|Hgt].
  { rewrite for_range_empty by done. simpl. split; [done|]. split; [done|].
    split; [by apply periodic_refl|]. split; [by apply periodic_refl|]. split; [done|lia]. }
  apply (wpx_for (fun k '(chs, prev', next') =>
    length chs = length (channels comm) /\
    periodic (nRanks comm) start k prev prev' /\ periodic (nRanks comm) start k next next' /\
    (forall c, 0 <= c < start -> chs !! Z.to_nat c = channels comm !! Z.to_nat c) /\
    (forall c, start <= c < k -> chs !! Z.to_nat c = chs !! Z.to_nat (c - start)))); [lia| | |].
  - split; [done|]. split; [by apply periodic_refl|]. split; [by apply periodic_refl|]. split; [done|lia].
  - intros k [[chs prev1] next1] Hk (Hlc & Hp & Hn & Hc0 & Hc1). wp_bind.
    eapply wpx_mono; [apply (periodic_copy _ start k prev); [lia..|nia|done]| |done]. intros prev2 Hp2. wp_bind.
    eapply wpx_mono; [apply (periodic_copy _ start k next); [lia..|nia|done]| |done]. intros next2 Hn2. wp_bind.
    destruct (lookup_lt_is_Some_2 chs (Z.to_nat (k - start))) as [ch Hck]; [lia|].
    apply wpx_zget. exists ch. split; [lia|]. split; [done|]. wp_bind. apply wpx_zset; [lia|]. simpl.
    split; [by rewrite length_insert|]. split; [done|]. split; [done|]. split.
    + intros c Hc. rewrite list_lookup_insert_ne by lia. by apply Hc0.
    + intros c Hc. rewrite (list_lookup_insert_ne _ _ (Z.to_nat (c - start))) by lia.
      destruct (Z.eq_dec c k) as [->|]; [rewrite list_lookup_insert_eq by lia; done|].
      rewrite list_lookup_insert_ne by lia. apply Hc1. lia.
  - intros [[chs prev'] next'] (Hlc & Hp & Hn & Hc0 & Hc1). simpl. done.
Qed.

(** Channels whose rows agree are cycles together. *)
Lemma single_cycle_ext next next' nR c c' rank :
  0 <= rank < nR ->
  (forall x, 0 <= x < nR -> znth next' (c' * nR + x) = znth next (c * nR + x)) ->
  single_cycle next nR c rank -> single_cycle next' nR c' rank.
Proof.
  intros Hr Heq [Hcl Hcov].
  assert (forall k, 0 <= k < nR -> 0 <= ring_at next nR c rank k < nR) as Hin.
  { intros k Hk. assert (ring_at next nR c rank k ∈ seqZ 0 nR) as Hel.
    { rewrite <- Hcov. apply list_elem_of_fmap. exists k. split; [done|]. apply elem_of_seqZ. lia. }
    apply elem_of_seqZ in Hel. lia. }
  assert (forall k, 0 <= k -> k <= nR -> ring_at next' nR c' rank k = ring_at next nR c rank k) as Hat.
  { intros k Hk. pattern k. apply natlike_ind; [done| |done]. clear k Hk. intros k Hk IH Hle.
    replace (Z.succ k) with (k + 1) by lia. rewrite !ring_at_succ by done. rewrite IH by lia.
    unfold hop. apply Heq. apply Hin. lia. }
  split; [by rewrite Hat by lia|]. rewrite <- Hcov at 2.
  apply reflexive_eq, list_fmap_ext. intros i k Hk. apply list_elem_of_lookup_2, elem_of_seqZ in Hk. apply Hat; lia.
Qed.

(** Growing the channel count keeps the wiring: [copyChannels] called with
    [start > 0] working channels and arrays large enough for [end] stays in
    bounds, returns the larger of the two counts, and every channel up to it is
    a copy of channel [c mod start], in the communicator and in the ring rows;
    so all of them are single cycles when the first [start] are. *)
Theorem copyChannels_cycles comm start end_ prev next rank :
  0 < start -> 0 <= rank < nRanks comm -> end_ <= Z.of_nat (length (channels comm)) ->
  end_ * nRanks comm <= Z.of_nat (length prev) -> end_ * nRanks comm <= Z.of_nat (length next) ->
  (forall c, 0 <= c < start -> single_cycle next (nRanks comm) c rank) ->
  exists comm' prev' next',
    copyChannels comm start end_ prev next = Ret (comm', prev', next', Z.max start end_) /\
    forall c, 0 <= c < Z.max start end_ ->
      single_cycle next' (nRanks comm) c rank /\
      channels comm' !! Z.to_nat c = channels comm !! Z.to_nat (c mod start) /\
      forall x, 0 <= x < nRanks comm ->
        znth next' (c * nRanks comm + x) = znth next ((c mod start) * nRanks comm + x) /\
        znth prev' (c * nRanks comm + x) = znth prev ((c mod start) * nRanks comm + x).
Proof.
  intros Hs Hr Hch Hlp Hln Hcyc.
  destruct (wp_elim _ _ (copyChannels_periodic comm start end_ prev next Hs ltac:(lia) Hch Hlp Hln))
    as ([[[comm' prev'] next'] n] & He & -> & _ & Hp & Hn & Hc0 & Hc1).
  exists comm', prev', next'. split; [done|]. intros c Hc. pose proof (Z.mod_pos_bound c start Hs).
  split; [|split].
  - eapply single_cycle_ext; [done| |apply (Hcyc (c mod start)); lia]. intros x Hx.
    by apply (periodic_mod _ start end_).
  - rewrite (period_mod (fun c => channels comm' !! Z.to_nat c) start end_) by (auto; lia). by apply Hc0.
  - intros x Hx. split; by apply (periodic_mod _ start end_).
Qed.

Lemma copyChannels_cycles_witness :
  let comm := set_nChannels (example_comm 1) 2 in
  exists comm' prev' next',
    copyChannels comm 2 5 [1; 0; 1; 0; 0; 0; 0; 0; 0; 0] [1; 0; 1; 0; 0; 0; 0; 0; 0; 0] = Ret (comm', prev', next', 5) /\
    forall c, 0 <= c < 5 ->
      single_cycle next' 2 c 1 /\
      channels comm' !! Z.to_nat c = channels comm !! Z.to_nat (c mod 2) /\
      forall x, 0 <= x < 2 ->
        znth next' (c * 2 + x) = znth [1; 0; 1; 0; 0; 0; 0; 0; 0; 0] ((c mod 2) * 2 + x) /\
        znth prev' (c * 2 + x) = znth [1; 0; 1; 0; 0; 0; 0; 0; 0; 0] ((c mod 2) * 2 + x).
Proof.
  intros comm. apply (copyChannels_cycles comm 2 5 [1; 0; 1; 0; 0; 0; 0; 0; 0; 0] [1; 0; 1; 0; 0; 0; 0; 0; 0; 0] 1);
    [lia|simpl; lia|simpl; lia|simpl; lia|simpl; lia|].
  enum ltac:(split; [reflexivity|vm_compute; apply perm_swap]).
Defined.
