(* ===== verification/RingAlgo.v ===== *)
(** * Proxy-side ring algorithms (src/src/include/collectives.h)

    For registered buffers the proxy thread asks a [RingAlgorithm] object for
    the address, size and memory handle of each step of a ring collective.  The
    three classes are records with the fields of the C++ objects; the two virtual
    methods are the class [RingAlgorithm] below.  Pointers are byte addresses;
    [int] and [ssize_t] expressions on step numbers and sizes, which stay far
    below the width of their types, are computed in [Z] with truncating division;
    division by zero is [Stuck]. *)
From S2P Require Import Prelude Bitops Device.

Definition ALLREDUCE_SLICESTEPS : Z := NCCL_STEPS `quot` 4.
Definition ALLREDUCE_CHUNKSTEPS : Z := NCCL_STEPS `quot` 2.
Definition ALLGATHER_SLICESTEPS : Z := NCCL_STEPS `quot` 4.
Definition ALLGATHER_CHUNKSTEPS : Z := NCCL_STEPS `quot` 2.
Definition REDUCESCATTER_SLICESTEPS : Z := NCCL_STEPS `quot` 4.
Definition REDUCESCATTER_CHUNKSTEPS : Z := NCCL_STEPS `quot` 2.
Definition BROADCAST_SLICESTEPS : Z := 1.
Definition BROADCAST_CHUNKSTEPS : Z := 1.
Definition REDUCE_SLICESTEPS : Z := 1.
Definition REDUCE_CHUNKSTEPS : Z := 1.
Definition NCCL_MAX_NET_SIZE : Z := 512 * 1024.

Definition ncclTypeSize (type : ncclDataType_t) : Z :=
  match type with
  | ncclInt8 | ncclUint8 | ncclFloat8e4m3 | ncclFloat8e5m2 => 1
  | ncclFloat16 | ncclBfloat16 => 2
  | ncclInt32 | ncclUint32 | ncclFloat32 => 4
  | ncclInt64 | ncclUint64 | ncclFloat64 => 8
  end.

(** What the methods write through their output pointers. *)
Record xfer := Xfer { x_buff : Z; x_size : Z; x_mhandle : Z }.

(** The virtual interface. *)
Class RingAlgorithm (A : Type) := {
  getNextSendAddr : A -> Z -> outcome xfer;
  getNextRecvAddr : A -> Z -> outcome xfer;
}.

(** [curSliceSize] of the all-reduce and all-gather rings for [n] bytes. *)
Definition ring_slice (n elemSize slicePerChunk sliceSize : Z) : Z :=
  Z.max (divUp (n `quot` elemSize) (16 * slicePerChunk) * 16) ((sliceSize `quot` elemSize) `quot` 32) * elemSize.

Definition clamp0 (size : Z) : Z := if size <? 0 then 0 else size.

(** ** All-reduce *)
Module RingAR.

Record RingARAlgorithm := Build {
  nRanks : Z; nStepsPerLoop : Z; chunkSteps : Z; sliceSteps : Z;
  sliceSize : Z; loopSize : Z; channelSize : Z;
  sendbuff : Z; recvbuff : Z; sendMhandle : Z; recvMhandle : Z; srecvMhandle : Z;
  ringIndex : Z; elemSize : Z; chunkSize : Z; slicePerChunk : Z }.

Definition construct (sendbuff recvbuff nRanks ringIndex chunkSteps sliceSteps chunkSize sliceSize
    gridOffset channelSize elemSize sendMhandle recvMhandle srecvMhandle : Z) : outcome RingARAlgorithm :=
  _ ← require (negb (sliceSteps =? 0));
  Ret (Build nRanks (2 * (nRanks - 1) * chunkSteps) chunkSteps sliceSteps sliceSize (nRanks * chunkSize)
    channelSize (sendbuff + gridOffset) (recvbuff + gridOffset) sendMhandle recvMhandle srecvMhandle
    ringIndex elemSize chunkSize (chunkSteps `quot` sliceSteps)).

(** Every divisor of the two methods. *)
Definition divisors (t : RingARAlgorithm) : bool :=
  negb (nStepsPerLoop t =? 0) && negb (chunkSteps t =? 0) && negb (sliceSteps t =? 0) &&
  negb (nRanks t =? 0) && negb (elemSize t =? 0) && negb (slicePerChunk t =? 0).

Definition curChunkSize (t : RingARAlgorithm) (remSize : Z) : Z :=
  if remSize <? loopSize t
  then alignUp (divUp (remSize `quot` elemSize t) (nRanks t)) (16 `quot` elemSize t) * elemSize t
  else chunkSize t.

Definition send (t : RingARAlgorithm) (curStep : Z) : outcome xfer :=
  _ ← require (divisors t);
  let curLoop := curStep `quot` nStepsPerLoop t in
  let curLoopStage := (curStep `rem` nStepsPerLoop t) `quot` chunkSteps t in
  let chunkStage := curLoopStage `rem` nRanks t in
  let sliceStage := (curStep `rem` chunkSteps t) `quot` sliceSteps t in
  let elemOffset := curLoop * loopSize t in
  let remSize := channelSize t - elemOffset in
  let curChunkSize := curChunkSize t remSize in
  let chunkId := (ringIndex t + nRanks t - 1 - chunkStage) `rem` nRanks t in
  let chunkOffset := chunkId * curChunkSize in
  let nelem := Z.min (remSize - chunkOffset) curChunkSize in
  let curSliceSize := ring_slice nelem (elemSize t) (slicePerChunk t) (sliceSize t) in
  let sliceOffset := sliceStage * curSliceSize in
  let size := Z.min curSliceSize (nelem - sliceOffset) in
  Ret (if nelem <=? sliceOffset then Xfer (sendbuff t) (clamp0 size) (sendMhandle t)
       else if curLoopStage =? 0
       then Xfer (sendbuff t + elemOffset + chunkOffset + sliceOffset) (clamp0 size) (sendMhandle t)
       else Xfer (recvbuff t + elemOffset + chunkOffset + sliceOffset) (clamp0 size) (srecvMhandle t)).

Definition recv (t : RingARAlgorithm) (curStep : Z) : outcome xfer :=
  _ ← require (divisors t);
  let curLoop := curStep `quot` nStepsPerLoop t in
  let curLoopStage := ((curStep + chunkSteps t) `rem` nStepsPerLoop t) `quot` chunkSteps t in
  let chunkStage := curLoopStage `rem` nRanks t in
  let sliceStage := (curStep `rem` chunkSteps t) `quot` sliceSteps t in
  let elemOffset := curLoop * loopSize t in
  let remSize := channelSize t - elemOffset in
  let curChunkSize := curChunkSize t remSize in
  let chunkId := if curLoopStage =? 0 then (ringIndex t + 1) `rem` nRanks t
                 else (ringIndex t + nRanks t - 1 - chunkStage) `rem` nRanks t in
  let chunkOffset := chunkId * curChunkSize in
  let nelem := Z.min (remSize - chunkOffset) curChunkSize in
  let curSliceSize := ring_slice nelem (elemSize t) (slicePerChunk t) (sliceSize t) in
  let sliceOffset := sliceStage * curSliceSize in
  let size := Z.min curSliceSize (nelem - sliceOffset) in
  Ret (if nelem <=? sliceOffset then Xfer (recvbuff t) (clamp0 size) (recvMhandle t)
       else Xfer (recvbuff t + elemOffset + chunkOffset + sliceOffset) (clamp0 size) (recvMhandle t)).

#[export] Instance ring : RingAlgorithm RingARAlgorithm :=
  { getNextSendAddr := send; getNextRecvAddr := recv }.

End RingAR.

(** ** All-gather *)
Module RingAG.

Record RingAGAlgorithm := Build {
  nRanks : Z; nStepsPerLoop : Z; chunkSteps : Z; sliceSteps : Z;
  sliceSize : Z; loopSize : Z; channelSize : Z;
  sendbuff : Z; recvbuff : Z; sendMhandle : Z; recvMhandle : Z; srecvMhandle : Z;
  ringRanks : list Z; elemSize : Z; sendSize : Z; slicePerChunk : Z }.

Definition construct (sendbuff recvbuff nRanks : Z) (ringRanks : list Z) (chunkSteps sliceSteps chunkSize sliceSize
    gridOffset channelSize elemSize sendSize sendMhandle recvMhandle srecvMhandle : Z) : outcome RingAGAlgorithm :=
  _ ← require (negb (sliceSteps =? 0));
  Ret (Build nRanks ((nRanks - 1) * chunkSteps) chunkSteps sliceSteps sliceSize chunkSize
    channelSize (sendbuff + gridOffset) (recvbuff + gridOffset) sendMhandle recvMhandle srecvMhandle
    ringRanks elemSize sendSize (chunkSteps `quot` sliceSteps)).

Definition divisors (t : RingAGAlgorithm) : bool :=
  negb (nStepsPerLoop t =? 0) && negb (chunkSteps t =? 0) && negb (sliceSteps t =? 0) &&
  negb (elemSize t =? 0) && negb (slicePerChunk t =? 0).

Definition send (t : RingAGAlgorithm) (curStep : Z) : outcome xfer :=
  _ ← require (divisors t);
  let curLoop := curStep `quot` nStepsPerLoop t in
  let chunkStage := (curStep `rem` nStepsPerLoop t) `quot` chunkSteps t in
  let sliceStage := (curStep `rem` chunkSteps t) `quot` sliceSteps t in
  let elemOffset := curLoop * loopSize t in
  let chunkSize := Z.min (loopSize t) (channelSize t - elemOffset) in
  let curSliceSize := ring_slice chunkSize (elemSize t) (slicePerChunk t) (sliceSize t) in
  let sliceOffset := sliceStage * curSliceSize in
  let size := Z.min curSliceSize (channelSize t - elemOffset - sliceOffset) in
  if chunkStage =? 0 then
    _ ← zget (ringRanks t) 0;
    let offset := elemOffset + sliceOffset in
    Ret (Xfer (sendbuff t + offset) (clamp0 size) (sendMhandle t))
  else
    rankDest ← zget (ringRanks t) (nRanks t - chunkStage);
    let offset := elemOffset + rankDest * sendSize t + sliceOffset in
    Ret (Xfer (recvbuff t + offset) (clamp0 size) (srecvMhandle t)).

Definition recv (t : RingAGAlgorithm) (curStep : Z) : outcome xfer :=
  _ ← require (divisors t);
  let curLoop := curStep `quot` nStepsPerLoop t in
  let chunkStage := ((curStep + chunkSteps t) `rem` nStepsPerLoop t) `quot` chunkSteps t in
  let sliceStage := (curStep `rem` chunkSteps t) `quot` sliceSteps t in
  let elemOffset := curLoop * loopSize t in
  let chunkSize := Z.min (loopSize t) (channelSize t - elemOffset) in
  let curSliceSize := ring_slice chunkSize (elemSize t) (slicePerChunk t) (sliceSize t) in
  let sliceOffset := sliceStage * curSliceSize in
  rankDest ← (if chunkStage =? 0 then zget (ringRanks t) 1 else zget (ringRanks t) (nRanks t - chunkStage));
  let offset := elemOffset + rankDest * sendSize t + sliceOffset in
  let size := Z.min (sliceSize t) (channelSize t - elemOffset - sliceOffset) in
  Ret (Xfer (recvbuff t + offset) (clamp0 size) (recvMhandle t)).

#[export] Instance ring : RingAlgorithm RingAGAlgorithm :=
  { getNextSendAddr := send; getNextRecvAddr := recv }.

End RingAG.

(** ** Broadcast *)
Module RingBC.

Record RingBCAlgorithm := Build {
  nStepsPerLoop : Z; chunkSteps : Z; sliceSteps : Z;
  sliceSize : Z; loopSize : Z; channelSize : Z;
  sendbuff : Z; recvbuff : Z; sendMhandle : Z; recvMhandle : Z; srecvMhandle : Z;
  root : Z; rank : Z; nextRank : Z }.

Definition construct (sendbuff recvbuff rank root nRanks : Z) (ringRanks : list Z) (chunkSteps sliceSteps
    chunkSize sliceSize gridOffset channelSize sendMhandle recvMhandle srecvMhandle : Z) : outcome RingBCAlgorithm :=
  next ← zget ringRanks 1;
  Ret (Build chunkSteps chunkSteps sliceSteps sliceSize chunkSize channelSize (sendbuff + gridOffset)
    (recvbuff + gridOffset) sendMhandle recvMhandle srecvMhandle root rank next).

Definition divisors (t : RingBCAlgorithm) : bool :=
  negb (nStepsPerLoop t =? 0) && negb (chunkSteps t =? 0) && negb (sliceSteps t =? 0).

Definition send (t : RingBCAlgorithm) (curStep : Z) : outcome xfer :=
  _ ← require (divisors t);
  let curLoop := curStep `quot` nStepsPerLoop t in
  let sliceStage := (curStep `rem` chunkSteps t) `quot` sliceSteps t in
  let sliceOffset := sliceStage * sliceSize t in
  let elemOffset := curLoop * loopSize t in
  let offset := elemOffset + sliceOffset in
  let size := Z.min (sliceSize t) (channelSize t - offset) in
  Ret (if offset >=? channelSize t then Xfer (sendbuff t) (clamp0 size) (sendMhandle t)
       else if rank t =? root t then Xfer (sendbuff t + offset) (clamp0 size) (sendMhandle t)
       else Xfer (recvbuff t + offset) (clamp0 size) (srecvMhandle t)).

Definition recv (t : RingBCAlgorithm) (curStep : Z) : outcome xfer :=
  _ ← require (divisors t);
  let curLoop := curStep `quot` nStepsPerLoop t in
  let sliceStage := (curStep `rem` chunkSteps t) `quot` sliceSteps t in
  let sliceOffset := sliceStage * sliceSize t in
  let elemOffset := curLoop * loopSize t in
  let offset := elemOffset + sliceOffset in
  let size := Z.min (sliceSize t) (channelSize t - offset) in
  Ret (if offset >=? channelSize t then Xfer (recvbuff t) (clamp0 size) (recvMhandle t)
       else Xfer (recvbuff t + offset) (clamp0 size) (recvMhandle t)).

#[export] Instance ring : RingAlgorithm RingBCAlgorithm :=
  { getNextSendAddr := send; getNextRecvAddr := recv }.

End RingBC.

(** ** Proofs: all-reduce *)

(** A slice stage's piece of [n] bytes cut in slices of [ring_slice]. *)
Lemma ring_slice_cover n e spc sliceSize :
  0 <= e -> (2 ^ e | n) -> 0 <= n -> 0 < spc -> 0 <= sliceSize ->
  let z := ring_slice n (2 ^ e) spc sliceSize in 0 <= z /\ n <= spc * z /\ (0 < n -> 0 < z).
Proof.
  intros He [q ->] Hn Hs Hz. unfold ring_slice. pose proof (pow2_pos e He).
  rewrite (quot_div_nonneg (q * 2 ^ e)) by lia. rewrite Z.div_mul by lia.
  assert (0 <= q) by nia. destruct (divUp_spec q (16 * spc)) as [Hd1 Hd2]; [lia..|].
  rewrite (quot_div_nonneg sliceSize) by lia. assert (0 <= sliceSize / 2 ^ e) by (apply Z.div_pos; lia).
  rewrite quot_div_nonneg by lia. assert (0 <= sliceSize / 2 ^ e / 32) by (apply Z.div_pos; lia).
  assert (divUp q (16 * spc) * 16 <= Z.max (divUp q (16 * spc) * 16) (sliceSize / 2 ^ e / 32)) as Hmax by lia.
  cbv zeta. set (m := Z.max _ _) in *. clearbody m. split; [nia|]. split.
  - assert (q <= spc * m) by nia. nia.
  - intros Hq. assert (0 < q) by nia. assert (0 < divUp q (16 * spc)) by nia. nia.
Qed.

Module RingARProofs.
Import RingAR.

(** The parameters [addRingProxyOp]-style callers pass: at least two ranks, a
    power-of-two element size up to 16 bytes, sizes in whole elements, whole
    slices per chunk. *)
Record wf (t : RingARAlgorithm) (e : Z) : Prop := {
  wf_ranks : 2 <= nRanks t;
  wf_steps : nStepsPerLoop t = 2 * (nRanks t - 1) * chunkSteps t;
  wf_slices : 0 < slicePerChunk t /\ 0 < sliceSteps t /\ chunkSteps t = slicePerChunk t * sliceSteps t;
  wf_elem : 0 <= e <= 4 /\ elemSize t = 2 ^ e;
  wf_chunk : 0 < chunkSize t /\ (2 ^ e | chunkSize t);
  wf_loop : loopSize t = nRanks t * chunkSize t;
  wf_index : 0 <= ringIndex t < nRanks t;
  wf_channel : 0 <= channelSize t /\ (2 ^ e | channelSize t);
  wf_slice : 0 <= sliceSize t;
}.

(** Two ring neighbours: same sizes, consecutive ring indices. *)
Record next_in_ring (t t' : RingARAlgorithm) : Prop := {
  nr_ranks : nRanks t' = nRanks t; nr_steps : nStepsPerLoop t' = nStepsPerLoop t;
  nr_chunkSteps : chunkSteps t' = chunkSteps t; nr_sliceSteps : sliceSteps t' = sliceSteps t;
  nr_sliceSize : sliceSize t' = sliceSize t; nr_loop : loopSize t' = loopSize t;
  nr_channel : channelSize t' = channelSize t; nr_elem : elemSize t' = elemSize t;
  nr_chunk : chunkSize t' = chunkSize t; nr_spc : slicePerChunk t' = slicePerChunk t;
  nr_index : ringIndex t' = (ringIndex t + 1) `rem` nRanks t;
}.

(** Offset and size of slice [sliceStage] of chunk [chunkId] in loop [curLoop]. *)
Definition piece (t : RingARAlgorithm) (curLoop chunkId sliceStage : Z) : Z * Z :=
  let elemOffset := curLoop * loopSize t in
  let remSize := channelSize t - elemOffset in
  let chunkOffset := chunkId * curChunkSize t remSize in
  let nelem := Z.min (remSize - chunkOffset) (curChunkSize t remSize) in
  let curSliceSize := ring_slice nelem (elemSize t) (slicePerChunk t) (sliceSize t) in
  let sliceOffset := sliceStage * curSliceSize in
  (elemOffset + chunkOffset + sliceOffset, clamp0 (Z.min curSliceSize (nelem - sliceOffset))).

Definition sendStage (t : RingARAlgorithm) s := (s `rem` nStepsPerLoop t) `quot` chunkSteps t.
Definition recvStage (t : RingARAlgorithm) s := ((s + chunkSteps t) `rem` nStepsPerLoop t) `quot` chunkSteps t.
Definition loopOf (t : RingARAlgorithm) s := s `quot` nStepsPerLoop t.
Definition sliceOf (t : RingARAlgorithm) s := (s `rem` chunkSteps t) `quot` sliceSteps t.
Definition sendChunk (t : RingARAlgorithm) s :=
  (ringIndex t + nRanks t - 1 - sendStage t s `rem` nRanks t) `rem` nRanks t.
Definition recvChunk (t : RingARAlgorithm) s :=
  if recvStage t s =? 0 then (ringIndex t + 1) `rem` nRanks t
  else (ringIndex t + nRanks t - 1 - recvStage t s `rem` nRanks t) `rem` nRanks t.

Section with_wf.
  Context (t : RingARAlgorithm) (e : Z) (Hwf : wf t e).

Lemma wf_divisors : divisors t = true.
Proof.
  destruct Hwf. unfold divisors. destruct wf_slices0 as (? & ? & ?). destruct wf_elem0 as [? ?].
  pose proof (pow2_pos e ltac:(lia)). rewrite wf_steps0.
  rewrite !andb_true_iff, !negb_true_iff, !Z.eqb_neq. nia.
Qed.

Lemma send_piece s :
  exists x, send t s = Ret x /\
    x_size x = snd (piece t (loopOf t s) (sendChunk t s) (sliceOf t s)) /\
    (0 < x_size x -> x_buff x = (if sendStage t s =? 0 then sendbuff t else recvbuff t)
       + fst (piece t (loopOf t s) (sendChunk t s) (sliceOf t s))).
Proof.
  unfold send. rewrite wf_divisors. cbn [require mbind outcome_bind]. eexists. split; [done|].
  unfold piece, sendChunk, sendStage, loopOf, sliceOf. cbv zeta. cbn [fst snd].
  unfold clamp0. zcases; split; try done; try lia.
Qed.

Lemma recv_piece s :
  exists x, recv t s = Ret x /\
    x_size x = snd (piece t (loopOf t s) (recvChunk t s) (sliceOf t s)) /\
    (0 < x_size x -> x_buff x = recvbuff t + fst (piece t (loopOf t s) (recvChunk t s) (sliceOf t s))).
Proof.
  unfold recv. rewrite wf_divisors. cbn [require mbind outcome_bind]. eexists. split; [done|].
  unfold piece, recvChunk, recvStage, loopOf, sliceOf. cbv zeta. cbn [fst snd].
  unfold clamp0. zcases; split; try done; try lia.
Qed.

Lemma curChunkSize_spec remSize :
  0 < remSize -> (2 ^ e | remSize) ->
  let z := curChunkSize t remSize in 0 < z /\ (2 ^ e | z) /\ Z.min remSize (loopSize t) <= nRanks t * z.
Proof.
  intros Hr [q ->]. destruct Hwf. destruct wf_elem0 as [He Hel]. destruct wf_chunk0 as [Hc Hdc].
  pose proof (pow2_pos e ltac:(lia)) as Hp. unfold curChunkSize. rewrite Hel. cbv zeta.
  destruct (Z.ltb_spec (q * 2 ^ e) (loopSize t)); [|split; [done|split; [done|rewrite wf_loop0; nia]]].
  rewrite (quot_div_nonneg (q * 2 ^ e)) by lia. rewrite Z.div_mul by lia.
  assert (16 `quot` 2 ^ e = 2 ^ (4 - e)) as ->.
  { rewrite quot_div_nonneg by lia. change 16 with (2 ^ 4). symmetry. apply Z.pow_sub_r; lia. }
  assert (0 < q) by nia. destruct (divUp_spec q (nRanks t)) as [_ Hd]; [lia..|].
  assert (0 < divUp q (nRanks t)) by nia.
  destruct (alignUp_spec (divUp q (nRanks t)) (4 - e)) as [_ Ha]; [lia|].
  set (w := alignUp _ _) in *. clearbody w. split; [nia|]. split; [by exists w|].
  assert (q <= nRanks t * w) by nia. rewrite Z.mul_assoc.
  pose proof (Z.mul_le_mono_nonneg_r q (nRanks t * w) (2 ^ e)). lia.
Qed.

(** Loop [l] has something left to do. *)
Definition live (l : Z) : Prop := 0 <= l /\ l * loopSize t < channelSize t.

Lemma live_rem l : live l -> 0 < channelSize t - l * loopSize t /\ (2 ^ e | channelSize t - l * loopSize t).
Proof.
  intros [Hl Hlt]. split; [lia|]. destruct Hwf. apply Z.divide_sub_r; [by destruct wf_channel0|].
  apply Z.divide_mul_r. rewrite wf_loop0. apply Z.divide_mul_r. by destruct wf_chunk0.
Qed.

(** Where chunk [c] of loop [l] starts and how much of it exists. *)
Definition chunk_start (l c : Z) : Z := l * loopSize t + c * curChunkSize t (channelSize t - l * loopSize t).
Definition chunk_len (l c : Z) : Z :=
  Z.min (channelSize t - chunk_start l c) (curChunkSize t (channelSize t - l * loopSize t)).
Definition slice_len (l c : Z) : Z := ring_slice (chunk_len l c) (elemSize t) (slicePerChunk t) (sliceSize t).

Lemma piece_eq l c k :
  piece t l c k = (chunk_start l c + k * slice_len l c, clamp0 (Z.min (slice_len l c) (chunk_len l c - k * slice_len l c))).
Proof.
  unfold piece, slice_len, chunk_len, chunk_start. cbv zeta. by rewrite Z.sub_add_distr.
Qed.

Lemma slice_len_spec l c : live l -> 0 <= c < nRanks t -> 0 < chunk_len l c ->
  0 < slice_len l c /\ chunk_len l c <= slicePerChunk t * slice_len l c.
Proof.
  intros Hl Hc Hlen. destruct (live_rem l Hl) as [Hr Hd]. destruct (curChunkSize_spec _ Hr Hd) as (Hz & Hdz & _).
  unfold slice_len. destruct (wf_elem _ _ Hwf) as [He ->]. destruct (wf_slices _ _ Hwf) as (Hs & _).
  pose proof (wf_slice _ _ Hwf).
  assert (2 ^ e | chunk_len l c) as Hdl.
  { unfold chunk_len, chunk_start. destruct (Z.min_spec (channelSize t - (l * loopSize t + c * curChunkSize t (channelSize t - l * loopSize t)))
      (curChunkSize t (channelSize t - l * loopSize t))) as [[_ ->]|[_ ->]]; [|done].
    rewrite Z.sub_add_distr. apply Z.divide_sub_r; [done|]. by apply Z.divide_mul_r. }
  destruct (ring_slice_cover (chunk_len l c) e (slicePerChunk t) (sliceSize t)) as (? & ? & ?); [lia|done|lia|done|done|].
  split; [auto|done].
Qed.

Lemma slice_len_nonneg l c : 0 <= slice_len l c.
Proof.
  unfold slice_len, ring_slice. destruct (wf_elem _ _ Hwf) as [He ->]. pose proof (pow2_pos e ltac:(lia)).
  pose proof (wf_slice _ _ Hwf). rewrite (quot_div_nonneg (sliceSize t)) by lia.
  assert (0 <= sliceSize t / 2 ^ e) by (apply Z.div_pos; lia).
  rewrite (quot_div_nonneg (sliceSize t / 2 ^ e)) by lia.
  assert (0 <= sliceSize t / 2 ^ e / 32) by (apply Z.div_pos; lia). nia.
Qed.

(** A piece with bytes in it lies inside the channel's buffer. *)
Lemma piece_bounds l c k : live l -> 0 <= c < nRanks t -> 0 <= k -> 0 < snd (piece t l c k) ->
  0 <= fst (piece t l c k) /\ fst (piece t l c k) + snd (piece t l c k) <= channelSize t.
Proof.
  intros Hl Hc Hk. rewrite piece_eq. cbn [fst snd]. intros Hs.
  destruct (live_rem l Hl) as [Hr Hd]. destruct (curChunkSize_spec _ Hr Hd) as (Hz & _).
  pose proof (slice_len_nonneg l c) as Hsl. assert (0 <= k * slice_len l c) by nia.
  assert (0 <= loopSize t) by (destruct Hwf as [? _ _ _ [? _] -> _ _ _]; nia).
  destruct Hl as [Hl0 _]. unfold clamp0 in *. unfold chunk_len in *.
  assert (0 <= chunk_start l c) by (unfold chunk_start; nia). zcases; nia.
Qed.

Lemma steps_pos : 0 < chunkSteps t /\ 0 < nStepsPerLoop t.
Proof. destruct Hwf. destruct wf_slices0 as (? & ? & ?). nia. Qed.

Lemma sendStage_range s : 0 <= s -> 0 <= sendStage t s < 2 * (nRanks t - 1).
Proof.
  intros Hs. destruct steps_pos. unfold sendStage. rewrite rem_mod_nonneg by lia.
  pose proof (Z.mod_pos_bound s (nStepsPerLoop t) ltac:(lia)). rewrite quot_div_nonneg by lia.
  split; [apply Z.div_pos; lia|]. apply Z.div_lt_upper_bound; [lia|].
  rewrite (wf_steps _ _ Hwf) in *. lia.
Qed.

Lemma recvStage_next s : 0 <= s ->
  recvStage t s = if sendStage t s =? 2 * (nRanks t - 1) - 1 then 0 else sendStage t s + 1.
Proof.
  intros Hs. destruct steps_pos as [HC HS]. pose proof (sendStage_range s Hs) as Hr. revert Hr.
  unfold recvStage, sendStage. rewrite !rem_mod_nonneg by lia.
  pose proof (Z.mod_pos_bound s (nStepsPerLoop t) HS) as Hm.
  rewrite <- Z.add_mod_idemp_l by lia. set (r := s mod nStepsPerLoop t) in *. clearbody r.
  pose proof (Z.mod_pos_bound (r + chunkSteps t) (nStepsPerLoop t) HS) as Hm2.
  rewrite !quot_div_nonneg by lia. intros Hr.
  pose proof (wf_steps _ _ Hwf) as HSe. pose proof (wf_ranks _ _ Hwf).
  pose proof (Z.div_mod r (chunkSteps t) ltac:(lia)) as Hdm. pose proof (Z.mod_pos_bound r (chunkSteps t) HC).
  destruct (Z.eqb_spec (r / chunkSteps t) (2 * (nRanks t - 1) - 1)) as [E|E].
  - rewrite (Z.mod_eq (r + _)) by lia.
    assert ((r + chunkSteps t) / nStepsPerLoop t = 1) as ->.
    { symmetry. apply Z.div_unique with (r mod chunkSteps t); nia. }
    apply Z.div_small. nia.
  - rewrite Z.mod_small by nia. replace (r + chunkSteps t) with (r + 1 * chunkSteps t) by lia.
    by rewrite Z.div_add by lia.
Qed.

Lemma chunk_range x : 0 <= x -> 0 <= x `rem` nRanks t < nRanks t.
Proof. intros. pose proof (wf_ranks _ _ Hwf). rewrite rem_mod_nonneg by lia. apply Z.mod_pos_bound. lia. Qed.

Lemma sendChunk_range s : 0 <= s -> 0 <= sendChunk t s < nRanks t.
Proof.
  intros Hs. apply chunk_range. pose proof (sendStage_range s Hs).
  pose proof (chunk_range (sendStage t s) ltac:(lia)). destruct (wf_index _ _ Hwf). lia.
Qed.

Lemma sliceOf_range s : 0 <= s -> 0 <= sliceOf t s < slicePerChunk t.
Proof.
  intros Hs. destruct (wf_slices _ _ Hwf) as (H1 & H2 & H3). unfold sliceOf. rewrite rem_mod_nonneg by nia.
  pose proof (Z.mod_pos_bound s (chunkSteps t) ltac:(nia)). rewrite quot_div_nonneg by lia.
  split; [apply Z.div_pos; lia|]. apply Z.div_lt_upper_bound; nia.
Qed.

(** What the successor receives at a step is what this rank sends at it. *)
Lemma recvChunk_next t' s : next_in_ring t t' -> 0 <= s -> recvChunk t' s = sendChunk t s.
Proof.
  intros Hnx Hs. unfold recvChunk.
  assert (recvStage t' s = recvStage t s) as ->.
  { unfold recvStage. by rewrite (nr_steps _ _ Hnx), (nr_chunkSteps _ _ Hnx). }
  rewrite recvStage_next by done. rewrite (nr_ranks _ _ Hnx), (nr_index _ _ Hnx). unfold sendChunk.
  pose proof (sendStage_range s Hs) as Hst. pose proof (wf_ranks _ _ Hwf) as Hn. destruct (wf_index _ _ Hwf) as [Hi0 Hi1].
  set (n := nRanks t) in *. set (i := ringIndex t) in *. set (g := sendStage t s) in *.
  pose proof (chunk_range g ltac:(lia)) as Hg. fold n in Hg.
  pose proof (chunk_range (i + 1) ltac:(lia)) as Hi. fold n in Hi.
  assert (forall a b k, 0 <= a -> 0 <= b -> a = b + k * n -> a `rem` n = b `rem` n) as Hmod.
  { intros a b k Ha Hb ->. rewrite !rem_mod_nonneg by lia. apply Z.mod_add. lia. }
  assert (exists k, (i + 1) `rem` n = i + 1 + k * n) as [k Hk].
  { exists (- ((i + 1) / n)). rewrite rem_mod_nonneg by lia. rewrite Z.mod_eq by lia. lia. }
  assert (exists m, g `rem` n = g + m * n) as [m Hm].
  { exists (- (g / n)). rewrite rem_mod_nonneg by lia. rewrite Z.mod_eq by lia. lia. }
  destruct (Z.eqb_spec g (2 * (n - 1) - 1)) as [E|E].
  - simpl. apply Hmod with (k + m + 1); lia.
  - destruct (Z.eqb_spec (g + 1) 0); [lia|].
    pose proof (chunk_range (g + 1) ltac:(lia)) as Hg1. fold n in Hg1.
    assert (exists m', (g + 1) `rem` n = g + 1 + m' * n) as [m' Hm'].
    { exists (- ((g + 1) / n)). rewrite rem_mod_nonneg by lia. rewrite Z.mod_eq by lia. lia. }
    apply Hmod with (k - m' + m); lia.
Qed.

Lemma piece_next t' l c k : next_in_ring t t' -> piece t' l c k = piece t l c k.
Proof.
  intros [H1 H2 H3 H4 H5 H6 H7 H8 H9 H10 _]. unfold piece, curChunkSize. by rewrite H1, H5, H6, H7, H8, H9, H10.
Qed.

(** The next stage sends the chunk received in this one. *)
Lemma forward_step s : 0 <= s -> sendStage t s < 2 * (nRanks t - 1) - 1 ->
  loopOf t (s + chunkSteps t) = loopOf t s /\ sliceOf t (s + chunkSteps t) = sliceOf t s /\
  sendStage t (s + chunkSteps t) = sendStage t s + 1 /\ sendChunk t (s + chunkSteps t) = recvChunk t s.
Proof.
  intros Hs Hst. destruct steps_pos as [HC HS]. pose proof (sendStage_range s Hs) as Hr.
  pose proof (recvStage_next s Hs) as Hnext.
  destruct (Z.eqb_spec (sendStage t s) (2 * (nRanks t - 1) - 1)); [lia|].
  assert (sendStage t (s + chunkSteps t) = sendStage t s + 1) as Hst'.
  { unfold recvStage in Hnext. exact Hnext. }
  split; [|split; [|split; [done|]]].
  - unfold loopOf. rewrite !quot_div_nonneg by lia. revert Hst. unfold sendStage. rewrite rem_mod_nonneg by lia.
    pose proof (Z.mod_pos_bound s (nStepsPerLoop t) HS). rewrite quot_div_nonneg by lia. intros Hst.
    pose proof (Z.div_mod s (nStepsPerLoop t) ltac:(lia)). symmetry.
    apply Z.div_unique with (s mod nStepsPerLoop t + chunkSteps t); [left|lia]. split; [lia|].
    pose proof (Z.div_mod (s mod nStepsPerLoop t) (chunkSteps t) ltac:(lia)).
    pose proof (Z.mod_pos_bound (s mod nStepsPerLoop t) (chunkSteps t) HC).
    rewrite (wf_steps _ _ Hwf) at 2. nia.
  - unfold sliceOf. rewrite !rem_mod_nonneg by lia. f_equal.
    replace (s + chunkSteps t) with (s + 1 * chunkSteps t) by lia. by rewrite Z.mod_add by lia.
  - unfold sendChunk, recvChunk. rewrite Hst', Hnext. destruct (Z.eqb_spec (sendStage t s + 1) 0); [lia|done].
Qed.

Definition in_piece (l c k p : Z) : Prop :=
  fst (piece t l c k) <= p < fst (piece t l c k) + snd (piece t l c k).

Lemma loopSize_pos : 0 < loopSize t.
Proof. destruct Hwf as [? _ _ _ [? _] -> _ _ _]. nia. Qed.

(** A byte of a piece is in slice [k] of chunk [c] of loop [l] by position. *)
Lemma in_piece_iff l c k p : live l -> 0 <= c < nRanks t -> 0 <= k < slicePerChunk t ->
  let z := curChunkSize t (channelSize t - l * loopSize t) in
  in_piece l c k p <->
    l * loopSize t <= p < Z.min (channelSize t) ((l + 1) * loopSize t) /\
    c * z <= p - l * loopSize t < (c + 1) * z /\
    k * slice_len l c <= p - chunk_start l c < (k + 1) * slice_len l c.
Proof.
  intros Hl Hc Hk z. destruct (live_rem l Hl) as [Hr Hd].
  destruct (curChunkSize_spec _ Hr Hd) as (Hz & _). fold z in Hz.
  pose proof loopSize_pos as HL. unfold in_piece. rewrite piece_eq. cbn [fst snd].
  pose proof (slice_len_spec l c Hl Hc) as Hsl.
  assert (z = chunkSize t \/ channelSize t < (l + 1) * loopSize t) as Hcase.
  { unfold z, curChunkSize. destruct (Z.ltb_spec (channelSize t - l * loopSize t) (loopSize t)); [right; lia|by left]. }
  pose proof (wf_loop _ _ Hwf) as HLe.
  assert (chunk_len l c = Z.min (channelSize t - chunk_start l c) z) as Hcl by done.
  assert (chunk_start l c = l * loopSize t + c * z) as Hcs by done.
  pose proof (slice_len_nonneg l c) as Hsn. assert (0 <= k * slice_len l c) as Hks by nia.
  assert ((k + 1) * slice_len l c = k * slice_len l c + slice_len l c) as -> by lia.
  assert ((c + 1) * z = c * z + z) as -> by lia. assert (0 <= c * z) by nia.
  assert (z = chunkSize t -> c * z + z <= loopSize t) as Hfit by nia.
  assert ((l + 1) * loopSize t = l * loopSize t + loopSize t) as HlS by lia. rewrite HlS in *.
  unfold clamp0. destruct (Z.ltb_spec (Z.min (slice_len l c) (chunk_len l c - k * slice_len l c)) 0); lia.
Qed.

End with_wf.

(** (C29) A rank and its successor agree on every step of the all-reduce ring: at
    step [s] the bytes that [getNextSendAddr] of a rank announces are, offset and
    size, those that [getNextRecvAddr] of the next rank in the ring expects, and
    a non-empty transfer lies inside the channel's part of the buffers. *)
Theorem RingAR_lockstep t t' e s :
  wf t e -> wf t' e -> next_in_ring t t' -> 0 <= s -> loopOf t s * loopSize t < channelSize t ->
  exists x y, getNextSendAddr t s = Ret x /\ getNextRecvAddr t' s = Ret y /\ x_size x = x_size y /\
    (0 < x_size x -> exists off, 0 <= off /\ off + x_size x <= channelSize t /\
       x_buff x = (if sendStage t s =? 0 then sendbuff t else recvbuff t) + off /\
       x_buff y = recvbuff t' + off).
Proof.
  intros Hwf Hwf' Hnx Hs Hlive.
  destruct (send_piece t e Hwf s) as (x & Hx & Hsx & Hbx). destruct (recv_piece t' e Hwf' s) as (y & Hy & Hsy & Hby).
  assert (loopOf t' s = loopOf t s) as El by (unfold loopOf; by rewrite (nr_steps _ _ Hnx)).
  assert (sliceOf t' s = sliceOf t s) as Ek by (unfold sliceOf; by rewrite (nr_chunkSteps _ _ Hnx), (nr_sliceSteps _ _ Hnx)).
  rewrite El, Ek, (recvChunk_next t e Hwf t' s Hnx Hs), (piece_next t t' _ _ _ Hnx) in Hsy, Hby.
  exists x, y. split; [done|]. split; [done|]. split; [congruence|]. intros Hpos.
  exists (fst (piece t (loopOf t s) (sendChunk t s) (sliceOf t s))).
  destruct (steps_pos t e Hwf) as [HC HS].
  assert (0 <= loopOf t s) by (unfold loopOf; rewrite quot_div_nonneg by lia; apply Z.div_pos; lia).
  destruct (piece_bounds t e Hwf (loopOf t s) (sendChunk t s) (sliceOf t s)) as [Hb1 Hb2];
    [done|by apply sendChunk_range with e|by apply (sliceOf_range t e Hwf)|by rewrite <- Hsx|].
  split; [done|]. split; [by rewrite Hsx|]. split; [by apply Hbx|]. apply Hby. congruence.
Qed.

(** The all-reduce ring forwards what it receives: unless a step belongs to
    the last stage of a loop, one chunk later ([chunkSteps] steps) the rank sends
    exactly the bytes it receives now, out of the buffer it received them in. *)
Theorem RingAR_forward t e s :
  wf t e -> 0 <= s -> sendStage t s < 2 * (nRanks t - 1) - 1 ->
  exists x y, getNextRecvAddr t s = Ret x /\ getNextSendAddr t (s + chunkSteps t) = Ret y /\
    x_size x = x_size y /\ (0 < x_size x -> x_buff x = x_buff y).
Proof.
  intros Hwf Hs Hst. destruct (forward_step t e Hwf s Hs Hst) as (El & Ek & Est & Ec).
  destruct (recv_piece t e Hwf s) as (x & Hx & Hsx & Hbx).
  destruct (send_piece t e Hwf (s + chunkSteps t)) as (y & Hy & Hsy & Hby).
  rewrite El, Ek, Ec in Hsy, Hby. exists x, y. split; [done|]. split; [done|]. split; [congruence|].
  intros Hpos. rewrite Hbx by done. rewrite Hby by congruence. rewrite Est.
  pose proof (sendStage_range t e Hwf s Hs). destruct (Z.eqb_spec (sendStage t s + 1) 0); [lia|done].
Qed.

(** (C30) The pieces of the all-reduce ring tile the channel: each step sends the
    piece of its loop, chunk and slice, and every byte of the channel's part of
    the buffer is in exactly one slice of one chunk of one loop, for whole loops
    as for the shorter last one. *)
Theorem RingAR_tiling t e :
  wf t e ->
  (forall s, exists x, getNextSendAddr t s = Ret x /\
     x_size x = snd (piece t (loopOf t s) (sendChunk t s) (sliceOf t s)) /\
     (0 < x_size x -> x_buff x = (if sendStage t s =? 0 then sendbuff t else recvbuff t)
        + fst (piece t (loopOf t s) (sendChunk t s) (sliceOf t s)))) /\
  forall p, 0 <= p < channelSize t ->
  exists l c k, (live t l /\ 0 <= c < nRanks t /\ 0 <= k < slicePerChunk t /\ in_piece t l c k p) /\
    forall l' c' k', live t l' -> 0 <= c' < nRanks t -> 0 <= k' < slicePerChunk t -> in_piece t l' c' k' p ->
      l' = l /\ c' = c /\ k' = k.
Proof.
  intros Hwf. split; [by apply send_piece with e|]. intros p Hp. pose proof (loopSize_pos t e Hwf) as HL.
  assert (forall a b z, 0 < z -> a * z <= b < (a + 1) * z -> a = b / z) as Hdiv.
  { intros a b z Hz Hb. apply Z.div_unique with (b - a * z); lia. }
  set (l := p / loopSize t). assert (l * loopSize t <= p < (l + 1) * loopSize t) as Hlp by (unfold l; dnia).
  assert (live t l) as Hlv by (split; [apply Z.div_pos; lia|lia]).
  destruct (live_rem t e Hwf l Hlv) as [Hr Hd]. destruct (curChunkSize_spec t e Hwf _ Hr Hd) as (Hz & _ & Hcov).
  set (z := curChunkSize t (channelSize t - l * loopSize t)) in *.
  set (c := (p - l * loopSize t) / z). assert (c * z <= p - l * loopSize t < (c + 1) * z) as Hcp by (unfold c; dnia).
  assert (0 <= c < nRanks t) as Hc by nia.
  assert (chunk_len t l c = Z.min (channelSize t - chunk_start t l c) z) as Hcl by done.
  assert (chunk_start t l c = l * loopSize t + c * z) as Hcs by done.
  destruct (slice_len_spec t e Hwf l c Hlv Hc ltac:(lia)) as [Hs1 Hs2].
  set (k := (p - chunk_start t l c) / slice_len t l c).
  assert (k * slice_len t l c <= p - chunk_start t l c < (k + 1) * slice_len t l c) as Hkp by (unfold k; dnia).
  assert (0 <= k < slicePerChunk t) as Hk by nia.
  exists l, c, k. split.
  - split; [done|]. split; [done|]. split; [done|]. apply (in_piece_iff t e Hwf); [done..|]. fold z. lia.
  - intros l' c' k' Hl' Hc' Hk' Hin. apply (in_piece_iff t e Hwf) in Hin as (H1 & H2 & H3); [|done..].
    assert (l' = l) as -> by (apply Hdiv; lia). fold z in H2. assert (c' = c) as -> by (by apply Hdiv).
    split; [done|]. split; [done|]. by apply Hdiv.
Qed.

(** Four ranks, 1 KB chunks of 4-byte elements, 9000 bytes: two full loops and
    a partial one. *)
Definition example (ringIndex : Z) : RingARAlgorithm :=
  Build 4 24 4 2 512 4096 9000 0 100000 1 2 3 ringIndex 4 1024 2.

Lemma example_wf i : 0 <= i < 4 -> wf (example i) 2.
Proof. intros Hi. split; simpl; try lia; split; try lia; first [by exists 256 | by exists 2250]. Qed.

Lemma example_next : next_in_ring (example 3) (example 0).
Proof. by split. Qed.

Lemma RingAR_lockstep_witness :
  exists x y, getNextSendAddr (example 3) 50 = Ret x /\ getNextRecvAddr (example 0) 50 = Ret y /\ x_size x = x_size y /\
    (0 < x_size x -> exists off, 0 <= off /\ off + x_size x <= 9000 /\
       x_buff x = (if sendStage (example 3) 50 =? 0 then 0 else 100000) + off /\ x_buff y = 100000 + off).
Proof.
  apply (RingAR_lockstep (example 3) (example 0) 2 50);
    [apply example_wf; lia|apply example_wf; lia|apply example_next|lia|vm_compute; reflexivity].
Defined.

Lemma RingAR_forward_witness :
  exists x y, getNextRecvAddr (example 1) 7 = Ret x /\ getNextSendAddr (example 1) (7 + 4) = Ret y /\
    x_size x = x_size y /\ (0 < x_size x -> x_buff x = x_buff y).
Proof. apply (RingAR_forward (example 1) 2 7); [apply example_wf; lia|lia|vm_compute; reflexivity]. Defined.

Lemma RingAR_tiling_witness :
  exists l c k, (live (example 0) l /\ 0 <= c < 4 /\ 0 <= k < 2 /\ in_piece (example 0) l c k 8999) /\
    forall l' c' k', live (example 0) l' -> 0 <= c' < 4 -> 0 <= k' < 2 -> in_piece (example 0) l' c' k' 8999 ->
      l' = l /\ c' = c /\ k' = k.
Proof. apply (RingAR_tiling (example 0) 2 (example_wf 0 ltac:(lia))). simpl. lia. Defined.

End RingARProofs.

(** ** Proofs: all-gather and broadcast *)

(** The stage a receiver is in, one chunk ahead of the sender. *)
Lemma stage_ahead C N r : 0 < C -> 0 < N -> 0 <= r ->
  ((r + C) `rem` (N * C)) `quot` C =
    if (r `rem` (N * C)) `quot` C =? N - 1 then 0 else (r `rem` (N * C)) `quot` C + 1.
Proof.
  intros HC HN Hr. rewrite !rem_mod_nonneg by nia.
  pose proof (Z.mod_pos_bound r (N * C) ltac:(nia)). pose proof (Z.mod_pos_bound (r + C) (N * C) ltac:(nia)).
  rewrite !quot_div_nonneg by lia. rewrite <- Z.add_mod_idemp_l in * by nia.
  set (m := r mod (N * C)) in *. clearbody m.
  pose proof (Z.div_mod m C ltac:(lia)). pose proof (Z.mod_pos_bound m C HC).
  destruct (Z.eqb_spec (m / C) (N - 1)).
  - rewrite (Z.mod_eq (m + C)) by nia.
    assert ((m + C) / (N * C) = 1) as -> by (symmetry; apply Z.div_unique with (m mod C); nia).
    apply Z.div_small. nia.
  - rewrite Z.mod_small by nia. replace (m + C) with (m + 1 * C) by lia. by rewrite Z.div_add by lia.
Qed.

Module RingAGProofs.
Import RingAG.

Record wf (t : RingAGAlgorithm) : Prop := {
  wf_ranks : 2 <= nRanks t;
  wf_steps : nStepsPerLoop t = (nRanks t - 1) * chunkSteps t;
  wf_slices : 0 < slicePerChunk t /\ 0 < sliceSteps t /\ chunkSteps t = slicePerChunk t * sliceSteps t;
  wf_elem : 0 < elemSize t;
  wf_ring : Z.of_nat (length (ringRanks t)) = nRanks t;
}.

(** [t'] runs on the rank after [t]: its ring starts one position later. *)
Record next_in_ring (t t' : RingAGAlgorithm) : Prop := {
  nr_ranks : nRanks t' = nRanks t; nr_steps : nStepsPerLoop t' = nStepsPerLoop t;
  nr_chunkSteps : chunkSteps t' = chunkSteps t; nr_sliceSteps : sliceSteps t' = sliceSteps t;
  nr_sliceSize : sliceSize t' = sliceSize t; nr_loop : loopSize t' = loopSize t;
  nr_channel : channelSize t' = channelSize t; nr_elem : elemSize t' = elemSize t;
  nr_send : sendSize t' = sendSize t; nr_spc : slicePerChunk t' = slicePerChunk t;
  nr_ring j : 0 <= j < nRanks t -> znth (ringRanks t') j = znth (ringRanks t) ((j + 1) `rem` nRanks t);
}.

Definition stage (t : RingAGAlgorithm) s := (s `rem` nStepsPerLoop t) `quot` chunkSteps t.
Definition slice (t : RingAGAlgorithm) s :=
  ring_slice (Z.min (loopSize t) (channelSize t - s `quot` nStepsPerLoop t * loopSize t))
    (elemSize t) (slicePerChunk t) (sliceSize t).
(** Offset of the step's slice inside one rank's contribution. *)
Definition local_offset (t : RingAGAlgorithm) s :=
  s `quot` nStepsPerLoop t * loopSize t + (s `rem` chunkSteps t) `quot` sliceSteps t * slice t s.

Lemma ag_wf_divisors t : wf t -> divisors t = true.
Proof.
  intros [? H ? ? ?]. unfold divisors. rewrite H, !andb_true_iff, !negb_true_iff, !Z.eqb_neq. nia.
Qed.

Lemma stage_range t s : wf t -> 0 <= s -> 0 <= stage t s < nRanks t - 1.
Proof.
  intros [H1 H2 (H3 & H4 & H5) _ _] Hs. unfold stage. assert (0 < chunkSteps t) by nia.
  assert (0 < nStepsPerLoop t) by nia. rewrite rem_mod_nonneg by lia.
  pose proof (Z.mod_pos_bound s (nStepsPerLoop t) ltac:(lia)). rewrite quot_div_nonneg by lia.
  split; [apply Z.div_pos; lia|]. apply Z.div_lt_upper_bound; lia.
Qed.

(** The position in the ring of the rank whose block a step sends. *)
Definition holder (t : RingAGAlgorithm) s := if stage t s =? 0 then 0 else nRanks t - stage t s.

Lemma holder_range t s : wf t -> 0 <= s -> 0 <= holder t s < nRanks t.
Proof. intros Hwf Hs. pose proof (stage_range t s Hwf Hs). pose proof (wf_ranks t Hwf). unfold holder. zcases; lia. Qed.

Lemma ag_send_spec t s : wf t -> 0 <= s ->
  getNextSendAddr t s =
    Ret (Xfer (if stage t s =? 0 then sendbuff t + local_offset t s
               else recvbuff t + (znth (ringRanks t) (holder t s) * sendSize t + local_offset t s))
          (clamp0 (Z.min (slice t s) (channelSize t - local_offset t s)))
          (if stage t s =? 0 then sendMhandle t else srecvMhandle t)).
Proof.
  intros Hwf Hs. pose proof (stage_range t s Hwf Hs) as Hst. pose proof (wf_ranks t Hwf). pose proof (wf_ring t Hwf).
  simpl. unfold send. rewrite ag_wf_divisors by done. cbn [require mbind outcome_bind]. fold (stage t s) (slice t s). unfold holder.
  destruct (Z.eqb_spec (stage t s) 0); rewrite zget_znth by lia; simpl; unfold local_offset; f_equal; f_equal; try lia; do 2 f_equal; lia.
Qed.

(** The receiver's index into its own ring is one step ahead. *)
Lemma ag_recv_holder t t' s : wf t -> next_in_ring t t' -> wf t' -> 0 <= s ->
  (if (if stage t s =? nRanks t - 1 - 1 then 0 else stage t s + 1) =? 0 then zget (ringRanks t') 1
   else zget (ringRanks t') (nRanks t - (if stage t s =? nRanks t - 1 - 1 then 0 else stage t s + 1)))
  = Ret (znth (ringRanks t) (holder t s)).
Proof.
  intros Hwf Hnx Hwf' Hs. pose proof (stage_range t s Hwf Hs) as Hst. pose proof (nr_ring t t' Hnx) as Er. pose proof (wf_ranks t Hwf).
  pose proof (wf_ring _ Hwf') as Hl'. rewrite (nr_ranks t t' Hnx) in Hl'. unfold holder.
  destruct (Z.eqb_spec (stage t s) (nRanks t - 1 - 1)) as [Ez|Ez].
  - simpl. rewrite zget_znth by lia. rewrite Er by lia. do 2 f_equal. change (1 + 1) with 2.
    destruct (Z.eqb_spec (stage t s) 0); [assert (nRanks t = 2) as -> by lia; done|]. rewrite Z.rem_small by lia. lia.
  - destruct (Z.eqb_spec (stage t s + 1) 0); [lia|]. rewrite zget_znth by lia. rewrite Er by lia. do 2 f_equal.
    replace (nRanks t - (stage t s + 1) + 1) with (nRanks t - stage t s) by lia.
    destruct (Z.eqb_spec (stage t s) 0) as [->|]; [rewrite Z.sub_0_r; apply Z.rem_same; lia|]. apply Z.rem_small. lia.
Qed.

Lemma ag_recv_spec t t' s : wf t -> next_in_ring t t' -> wf t' -> 0 <= s ->
  getNextRecvAddr t' s =
    Ret (Xfer (recvbuff t' + (znth (ringRanks t) (holder t s) * sendSize t + local_offset t s))
          (clamp0 (Z.min (sliceSize t) (channelSize t - local_offset t s))) (recvMhandle t')).
Proof.
  intros Hwf Hnx Hwf' Hs. pose proof Hwf as [Hr Hsteps (Hp1 & Hp2 & Hp3) He Hl].
  pose proof (stage_ahead (chunkSteps t) (nRanks t - 1) s ltac:(nia) ltac:(lia) Hs) as Hahead. rewrite <- Hsteps in Hahead. fold (stage t s) in Hahead.
  simpl. unfold recv. rewrite ag_wf_divisors by done. cbn [require mbind outcome_bind].
  pose proof Hnx as [E1 E2 E3 E4 E5 E6 E7 E8 E9 E10 _]. rewrite E2, E3, E4, E5, E6, E7, E8, E9, E10, E1.
  fold (slice t s). rewrite Hahead, (ag_recv_holder t t') by done. cbn [mbind outcome_bind]. unfold local_offset.
  f_equal. f_equal; try lia; do 2 f_equal; lia.
Qed.

(** A rank and its successor agree on every step of the all-gather ring:
    both name the same contributing rank [d] and the same offset in its block of
    the receive buffers (in stage 0 the sender takes the slice from its own send
    buffer instead, at the offset without the block), and the sender never sends
    more than the receiver's posted size as long as slices fit [sliceSize]. *)
Theorem RingAG_lockstep t t' s :
  wf t -> next_in_ring t t' -> wf t' -> 0 <= s ->
  exists x y d, getNextSendAddr t s = Ret x /\ getNextRecvAddr t' s = Ret y /\ d ∈ ringRanks t /\
    x_buff y = recvbuff t' + d * sendSize t + local_offset t s /\
    (stage t s <> 0 -> x_buff x = recvbuff t + d * sendSize t + local_offset t s) /\
    (stage t s = 0 -> d = znth (ringRanks t) 0 /\ x_buff x = sendbuff t + local_offset t s) /\
    (slice t s <= sliceSize t -> x_size x <= x_size y).
Proof.
  intros Hwf Hnx Hwf' Hs. rewrite (ag_send_spec t) by done. rewrite (ag_recv_spec t t') by done. eexists _, _, (znth (ringRanks t) (holder t s)).
  split; [reflexivity|]. split; [reflexivity|]. pose proof (holder_range t s Hwf Hs). pose proof (wf_ring t Hwf). simpl. split.
  { destruct (zget_in_bounds (ringRanks t) (holder t s) ltac:(lia)) as (x & Hx & Hx').
    rewrite zget_znth in Hx by lia. injection Hx as ->. by eapply list_elem_of_lookup_2. }
  split; [lia|]. split; [|split].
  - intros Hne. destruct (Z.eqb_spec (stage t s) 0); [done|lia].
  - intros E. unfold holder. rewrite E. done.
  - intros Hsl. unfold clamp0. zcases; lia.
Qed.

Definition example (ranks : list Z) : RingAGAlgorithm :=
  Build 3 8 4 2 512 1024 3000 0 100000 1 2 3 ranks 4 3000 2.

Lemma RingAG_lockstep_witness :
  exists x y d, getNextSendAddr (example [2; 0; 1]) 13 = Ret x /\ getNextRecvAddr (example [0; 1; 2]) 13 = Ret y /\
    d ∈ [2; 0; 1] /\
    x_buff y = 100000 + d * 3000 + local_offset (example [2; 0; 1]) 13 /\
    (stage (example [2; 0; 1]) 13 <> 0 -> x_buff x = 100000 + d * 3000 + local_offset (example [2; 0; 1]) 13) /\
    (stage (example [2; 0; 1]) 13 = 0 -> d = 2 /\ x_buff x = 0 + local_offset (example [2; 0; 1]) 13) /\
    (slice (example [2; 0; 1]) 13 <= 512 -> x_size x <= x_size y).
Proof.
  apply (RingAG_lockstep (example [2; 0; 1]) (example [0; 1; 2]) 13).
  - split; simpl; lia.
  - split; try done. simpl. enum ltac:(reflexivity).
  - split; simpl; lia.
  - lia.
Defined.

End RingAGProofs.
