(* ===== verification/Pat.v ===== *)
(** * PAT reduce-scatter and all-gather schedules (src/src/include/collectives.h)

    [PatRSAlgorithm] and [PatAGAlgorithm] are the generators that hand the device
    one parallel-aggregated-trees step after the other.  The fields fixed by the
    constructor are the record [cfg], the fields [getNextOp] changes the record
    [st]; a step descriptor keeps the fields a call does not write.  [int]
    expressions stay below the width of their type; a shift by a negative or too
    large amount and a division by zero are [Stuck]. *)
From S2P Require Import Prelude Bitops Device.

Definition NCCL_PAT_NWORKERS : Z := 512.
Definition NCCL_SHMEM_PAT_STEPS : Z := 32.
Definition PatUsed : Z := 1.
Definition PatSkipped : Z := 2.

Record ncclPatStep := MkStep {
  recvDim : Z; sendDim : Z; recvOffset : Z; sendOffset : Z; ps_stepOffset : Z;
  postRecv : Z; postSend : Z; ps_nelem : Z; last : Z; flags : Z; inpIx : Z; outIx : Z }.

(** [1<<n] *)
Definition shl1 (n : Z) : outcome Z := if (0 <=? n) && (n <? 31) then Ret (2 ^ n) else Stuck.

(** [for (mask=1, imask=max/2; mask<max; mask<<=1, imask>>=1) if (i&mask is b) ret += imask] *)
Fixpoint mirror_loop (b : bool) (fuel : nat) (i max mask imask ret : Z) : outcome Z :=
  if mask <? max then
    match fuel with
    | O => Stuck
    | S fuel =>
      let ret := if Bool.eqb (negb (Z.land i mask =? 0)) b then ret + imask else ret in
      mirror_loop b fuel i max (Z.shiftl mask 1) (Z.shiftr imask 1) ret
    end
  else Ret ret.

Definition mirrorInvert (i max : Z) : outcome Z := mirror_loop false 32 i max 1 (max `quot` 2) 0.
Definition mirror (i max : Z) : outcome Z := mirror_loop true 32 i max 1 (max `quot` 2) 0.

Definition firstBitSet (i max : Z) : Z :=
  let f := ffs (u32 i) in if negb (f =? 0) then f - 1 else max.

Definition nBitsSet (i : Z) : Z := popcount (u32 i).

Definition newPeer (i pow2 : Z) : bool := nBitsSet (Z.lxor i (pow2 - 1) + 1) =? 1.

Definition b2z (b : bool) : Z := if b then 1 else 0.

(** The part of the two constructors that fixes the aggregation: first by how
    many ranks' data fit a step, then by the buffer depth.  [size] is
    [channelSize*sizeof(T)], a [size_t]. *)
Fixpoint agg_loop (fuel : nat) (stepSize size nranks aggFactor aggDelta : Z) : outcome (Z * Z) :=
  _ ← require (negb (size * aggFactor =? 0));
  if (stepSize `quot` (size * aggFactor) >=? 2) && (aggFactor <? nranks `quot` 2) then
    match fuel with
    | O => Stuck
    | S fuel => agg_loop fuel stepSize size nranks (aggFactor * 2) (aggDelta `quot` 2)
    end
  else Ret (aggFactor, aggDelta).

Fixpoint depth_loop (fuel : nat) (d nranks aggFactor aggDelta : Z) : outcome (Z * Z) :=
  if (d >? 1) && (aggFactor <? nranks `quot` 2) then
    match fuel with
    | O => Stuck
    | S fuel => depth_loop fuel (d `quot` 2) nranks (aggFactor * 2) (aggDelta `quot` 2)
    end
  else Ret (aggFactor, aggDelta).

Record cfg := MkCfg {
  end_ : Z; count : Z; chunkCount : Z; rank : Z; nranks : Z; nrPow2 : Z; postFreq : Z;
  parallelFactor : Z; aggFactor : Z; aggDelta : Z }.

Definition pat_cfg (eltSize stepSize stepDepth maxParallelFactor offset end_ count chunkCount rank nranks : Z)
    : outcome cfg :=
  nrPow2 ← shl1 (log2Up int32 nranks);
  '(aggFactor, aggDelta) ← agg_loop 32 stepSize ((end_ - offset) * eltSize) nranks 1 nrPow2;
  let postFreq := aggFactor in
  let parallelFactor := if postFreq <? maxParallelFactor then postFreq else maxParallelFactor in
  '(aggFactor, aggDelta) ← depth_loop 32 stepDepth nranks aggFactor aggDelta;
  Ret (MkCfg end_ count chunkCount rank nranks nrPow2 postFreq parallelFactor aggFactor aggDelta).

(** ** Reduce-scatter *)
Module PatRS.

Record st := MkSt {
  offset : Z; nelem : Z; lastA : Z; as_ : Z; a : Z; sendSkipped : Z; stepOffset : Z; scale : Z; phase : Z }.

Definition getNelem (c : cfg) (offset : Z) : Z := Z.min (chunkCount c) (end_ c - offset).

Definition resetA (c : cfg) (offset nelem as_ scale phase : Z) : st :=
  let lastA := aggFactor c in
  let lastA := if phase >=? 2 then lastA `quot` (2 * scale) else lastA in
  let lastA := if phase =? 4 then 1 else lastA in
  MkSt offset nelem lastA as_ 0 0 0 scale phase.

Definition reset (c : cfg) (offset : Z) : st := resetA c offset (getNelem c offset) (aggDelta c - 1) 1 0.

Definition construct (eltSize stepSize stepDepth maxParallelFactor offset end_ count chunkCount rank nranks : Z)
    : outcome (cfg * st) :=
  c ← pat_cfg eltSize stepSize stepDepth maxParallelFactor offset end_ count chunkCount rank nranks;
  Ret (c, reset c offset).

(** The tests [((a%postFreq) + 1 >= postFreq) || (a == lastA-1)]. *)
Definition post_due (c : cfg) (s : st) : bool :=
  (a s `rem` postFreq c + 1 >=? postFreq c) || (a s =? lastA s - 1).

Definition op0 (c : cfg) (t : st) (ps : ncclPatStep) : outcome (st * ncclPatStep * bool) :=
  m ← mirrorInvert (a t) (lastA t);
  let s := m * aggDelta c + as_ t in
  let skip := s >=? nranks c in
  let sendDataRank := (rank c + s) `rem` nranks c in
  Ret (t, MkStep (-1) 0 (-1) (a t `rem` postFreq c * nelem t) (stepOffset t) 0 (b2z (post_due c t))
            (nelem t) 0 (flags ps) (sendDataRank * count c + offset t) 0, skip).

(** [sendSkipped = a; ps->stepOffset = stepOffset = 0;] *)
Definition restart (t : st) : st :=
  MkSt (offset t) (nelem t) (lastA t) (as_ t) (a t) (a t) 0 (scale t) (phase t).

(** [if (b) stepOffset++;] *)
Definition bump (b : bool) (t : st) : st :=
  if b then MkSt (offset t) (nelem t) (lastA t) (as_ t) (a t) (sendSkipped t) (stepOffset t + 1) (scale t) (phase t)
  else t.

(** [if (s < nranks && skip) { recvDim = recvOffset = -1; postRecv = 0; skip = 0; }]:
    the received contribution does not exist but the data still has to be sent. *)
Definition drop_recv (c : cfg) (s rDim rOff pRecv : Z) (skip : bool) : Z * Z * Z * bool :=
  if (s <? nranks c) && skip then (-1, -1, 0, false) else (rDim, rOff, pRecv, skip).

(** The send side of phase 1: the state, [sendOffset] and [ps->stepOffset]. *)
Definition op1_send (c : cfg) (t : st) (sDim bit : Z) : st * Z * Z :=
  if sDim =? -1 then (t, -1, stepOffset t)
  else if as_ t - bit =? 0 then
    let t := if newPeer (a t) (aggFactor c) then restart t else t in
    (t, ((a t - sendSkipped t) `rem` postFreq c) * nelem t, stepOffset t)
  else (t, a t `rem` postFreq c * nelem t, stepOffset t).

Definition op1 (c : cfg) (t : st) (ps : ncclPatStep) : outcome (st * ncclPatStep * bool) :=
  m ← mirrorInvert (a t) (lastA t);
  let s := m * aggDelta c + as_ t in
  let skip := s >=? nranks c in
  let rDim := firstBitSet s (nrPow2 c) in
  let pSend := b2z ((rDim =? 0) && post_due c t) in
  let pRecv := b2z (post_due c t) in
  bit ← shl1 rDim;
  let s := s - bit in
  let recvDataRank := (rank c + nranks c + s) `rem` nranks c in
  let sDim := if negb (s =? 0) then firstBitSet s (nrPow2 c) else -1 in
  let '(t', sOff, pstep) := op1_send c t sDim bit in
  let '(rDim', rOff, pRecv, skip) := drop_recv c s rDim (a t `rem` postFreq c * nelem t) pRecv skip in
  let t' := bump ((rDim >? 0) && ((a t' - sendSkipped t') `rem` postFreq c + 1 >=? postFreq c) && negb skip) t' in
  Ret (t', MkStep rDim' sDim rOff sOff pstep pRecv pSend (nelem t) 0 (flags ps)
            (recvDataRank * count c + offset t) (offset t), skip).

Definition op2 (c : cfg) (t : st) (ps : ncclPatStep) : outcome (st * ncclPatStep * bool) :=
  m ← mirrorInvert (a t) (lastA t);
  let s := (2 * m + 1) * scale t * aggDelta c + 1 in
  let skip := s >=? nranks c in
  let pSend := b2z (a t =? lastA t - 1) in
  let s := s - 1 in
  '(rDim, rOff, pRecv, skip) ←
    (if (s <? nranks c) && skip then Ret (-1, -1, 0, false)
     else if negb skip then
       _ ← require (negb (scale t =? 0));
       let foffset := a t + aggFactor c - aggFactor c `quot` scale t in
       Ret (0, foffset `rem` postFreq c * nelem t, b2z ((foffset + 1) `rem` postFreq c =? 0), skip)
     else Ret (0, recvOffset ps, 0, skip));
  let recvDataRank := (rank c + nranks c + s) `rem` nranks c in
  let sDim := if negb (s =? 0) then firstBitSet s (nrPow2 c) else -1 in
  let foffset := a t in
  let pSend := Z.lor pSend (b2z ((foffset + 1) `rem` postFreq c =? 0)) in
  Ret (t, MkStep rDim sDim rOff (foffset `rem` postFreq c * nelem t) (stepOffset t) pRecv pSend (nelem t) 0 (flags ps)
            (recvDataRank * count c + offset t) (offset t), skip).

Definition op3 (c : cfg) (t : st) (ps : ncclPatStep) : outcome (st * ncclPatStep * bool) :=
  m ← mirrorInvert (a t) (lastA t);
  let s := (2 * m + 1) * scale t * aggDelta c in
  let pRecv := b2z (a t =? lastA t - 1) in
  let skip := s >=? nranks c in
  let rDim := firstBitSet s (nrPow2 c) in
  bit ← shl1 rDim;
  let s := s - bit in
  let pRecv := Z.lor pRecv (b2z ((a t + 1) `rem` postFreq c =? 0)) in
  let recvDataRank := (rank c + nranks c + s) `rem` nranks c in
  let sDim := if negb (s =? 0) then firstBitSet s (nrPow2 c) else -1 in
  let '(rDim, rOff, pRecv, skip) := drop_recv c s rDim (a t `rem` postFreq c * nelem t) pRecv skip in
  let t' := if newPeer (a t) (aggFactor c `quot` (2 * scale t)) then restart t else t in
  let foffset := a t - sendSkipped t' in
  let sOff := if sDim >=? 0 then foffset `rem` postFreq c * nelem t else -1 in
  Ret (bump ((foffset `rem` postFreq c + 1 >=? postFreq c) && negb skip) t',
       MkStep rDim sDim rOff sOff (stepOffset t') pRecv 0 (nelem t) 0 (flags ps)
         (recvDataRank * count c + offset t) (offset t), skip).

Definition op4 (c : cfg) (t : st) (ps : ncclPatStep) : outcome (st * ncclPatStep * bool) :=
  Ret (MkSt (offset t + chunkCount c) (nelem t) (lastA t) (as_ t) (a t) (sendSkipped t) (stepOffset t) (scale t) (phase t),
       MkStep 0 (-1) ((aggFactor c - 1) `rem` postFreq c * nelem t) (-1) (stepOffset t) 1 0 (nelem t) 0 (flags ps)
         (rank c * count c + offset t) (offset t), false).

(** The body of [getNextOp] before [a++]: the state, the descriptor and [skip]. *)
Definition step_body (c : cfg) (t : st) (ps : ncclPatStep) : outcome (st * ncclPatStep * bool) :=
  if a t >=? lastA t then
    Ret (t, MkStep (recvDim ps) (sendDim ps) (recvOffset ps) (sendOffset ps) (stepOffset t) (postRecv ps) (postSend ps)
              (nelem t) 0 (flags ps) (inpIx ps) (offset t), true)
  else if phase t =? 0 then op0 c t ps
  else if phase t =? 1 then op1 c t ps
  else if phase t =? 2 then op2 c t ps
  else if phase t =? 3 then op3 c t ps
  else if phase t =? 4 then op4 c t ps
  else Ret (t, MkStep (recvDim ps) (sendDim ps) (recvOffset ps) (sendOffset ps) (stepOffset t) (postRecv ps) (postSend ps)
              (nelem t) 0 (flags ps) (inpIx ps) (offset t), false).

(** The state machine after [a++]: the new state and [ps->last]. *)
Definition advance (c : cfg) (t : st) : st * Z :=
  let a := a t + 1 in
  if (a >=? lastA t) && (a >=? parallelFactor c) then
    let p := phase t in
    let as' := if p =? 1 then as_ t - 1 else as_ t in
    let scale' := if p =? 3 then scale t * 2 else scale t in
    let phase' :=
      if p =? 0 then (if as' =? 1 then (if aggFactor c >? 1 then 2 else 4) else 1)
      else if p =? 1 then (if as' `rem` 2 =? 1 then 0 else 1)
      else if p =? 2 then 3
      else if p =? 3 then (if scale' <? aggFactor c then 2 else 4)
      else 5 in
    if p =? 4 then
      if offset t >=? end_ c
      then (MkSt (offset t) (nelem t) (lastA t) as' a (sendSkipped t) (stepOffset t) scale' phase', 2)
      else (reset c (offset t), 0)
    else (resetA c (offset t) (nelem t) as' scale' phase', 0)
  else
    (MkSt (offset t) (nelem t) (lastA t) (as_ t) a (sendSkipped t) (stepOffset t) (scale t) (phase t),
     if (phase t =? 4) && (offset t >=? end_ c) then 1 else 0).

Definition set_last (ps : ncclPatStep) (l f : Z) : ncclPatStep :=
  MkStep (recvDim ps) (sendDim ps) (recvOffset ps) (sendOffset ps) (ps_stepOffset ps) (postRecv ps) (postSend ps)
    (ps_nelem ps) l f (inpIx ps) (outIx ps).

Definition getNextOp (c : cfg) (t : st) (ps : ncclPatStep) : outcome (st * ncclPatStep) :=
  '(t, ps, skip) ← step_body c t ps;
  let '(t, l) := advance c t in
  Ret (t, set_last ps l (Z.lor PatUsed (if skip : bool then PatSkipped else 0))).

(** The computing thread of [runPat]: call [getNextOp] on the slots of the
    shared-memory ring until [last] is 2.  The result lists the descriptors. *)
Fixpoint run (fuel : nat) (c : cfg) (t : st) (slots : list ncclPatStep) (step : Z) : outcome (list ncclPatStep) :=
  match fuel with
  | O => Stuck
  | S fuel =>
    ps ← zget slots (step `rem` NCCL_SHMEM_PAT_STEPS);
    '(t, ps) ← getNextOp c t ps;
    slots ← zset slots (step `rem` NCCL_SHMEM_PAT_STEPS) ps;
    if last ps =? 2 then Ret [ps] else rest ← run fuel c t slots (step + 1); Ret (ps :: rest)
  end.

End PatRS.

(** ** All-gather *)
Module PatAG.

Record st := MkSt {
  offset : Z; nelem : Z; lastA : Z; as_ : Z; a : Z; scale : Z; phase : Z;
  v : Z; bitCount : list Z; bitZeroStep : list Z }.

Definition getNelem (c : cfg) (offset : Z) : Z := Z.min (chunkCount c) (end_ c - offset).

(** One dimension [d] of the loop of [nextAs]. *)
Definition nextAs_dim (asDim d : Z) (w : Z * list Z * list Z) : outcome (Z * list Z * list Z) :=
  let '(v, bitCount, bitZeroStep) := w in
  p ← shl1 d;
  bc ← zget bitCount d;
  bitCount ← zset bitCount d (bc - 1);
  if bc - 1 =? 0 then
    let v := Z.lxor v p in
    if Z.land v p =? 0 then
      bz ← zget bitZeroStep d;
      let bc := p + (firstBitSet bz asDim - 1) in
      let '(v, bc) := if bc =? 0 then (Z.lxor v p, p) else (v, bc) in
      bitCount ← zset bitCount d bc;
      bitZeroStep ← zset bitZeroStep d (bz + 1);
      Ret (v, bitCount, bitZeroStep)
    else
      bitCount ← zset bitCount d p;
      Ret (v, bitCount, bitZeroStep)
  else Ret (v, bitCount, bitZeroStep).

Definition nextAs (asDim : Z) (w : Z * list Z * list Z) : outcome (Z * list Z * list Z) :=
  for_range 0 asDim (nextAs_dim asDim) w.

Definition resetA (c : cfg) (offset nelem as_ scale phase : Z) (w : Z * list Z * list Z) : outcome st :=
  let '(v, bitCount, bitZeroStep) := w in
  let lastA := aggFactor c in
  lastA ← (if phase >=? 2 then _ ← require (negb (scale =? 0)); Ret (lastA `quot` (2 * scale)) else Ret lastA);
  Ret (MkSt offset nelem lastA as_ 0 scale phase v bitCount bitZeroStep).

Definition reset (c : cfg) (asDim offset : Z) (bitCount bitZeroStep : list Z) : outcome st :=
  let nelem := getNelem c offset in
  let scale := aggFactor c `quot` 2 in
  let phase := if negb (scale =? 0) then 2 else 1 in
  '(bitCount, bitZeroStep) ← for_range 0 asDim (fun i '(bc, bz) =>
      bc ← zset bc i (asDim - i); bz ← zset bz i 1; Ret (bc, bz)) (bitCount, bitZeroStep);
  '(v, bitCount, bitZeroStep) ← nextAs asDim (0, bitCount, bitZeroStep);
  resetA c offset nelem v scale phase (v, bitCount, bitZeroStep).

(** [bitCount] and [bitZeroStep] are uninitialised members: any contents. *)
Definition construct (eltSize stepSize stepDepth maxParallelFactor offset end_ count chunkCount rank nranks : Z)
    (bitCount bitZeroStep : list Z) : outcome (cfg * Z * st) :=
  c ← pat_cfg eltSize stepSize stepDepth maxParallelFactor offset end_ count chunkCount rank nranks;
  let asDim := log2Up int32 (aggDelta c) in
  t ← reset c asDim offset bitCount bitZeroStep;
  Ret (c, asDim, t).

Definition op0 (c : cfg) (t : st) (ps : ncclPatStep) : outcome (ncclPatStep * bool) :=
  let s := a t * aggDelta c + as_ t in
  let skip := s >=? nranks c in
  let recvDataRank := (rank c + s) `rem` nranks c in
  let pRecv := b2z ((a t `rem` postFreq c =? postFreq c - 1) || ((a t + 1) * aggDelta c + as_ t >=? nranks c)) in
  Ret (MkStep 0 (-1) (a t `rem` postFreq c * nelem t) (-1) 0 pRecv 0 (nelem t) 0 (flags ps) 0
         (recvDataRank * count c + offset t), skip).

Definition op1 (c : cfg) (t : st) (ps : ncclPatStep) : outcome (ncclPatStep * bool) :=
  let s := a t * aggDelta c + as_ t in
  let skip := s >=? nranks c in
  let sDim := firstBitSet s (nrPow2 c) in
  bit ← shl1 sDim;
  let s := s - bit in
  let sendDataRank := (rank c + nranks c + s) `rem` nranks c in
  let rDim := if negb (s =? 0) then firstBitSet s (nrPow2 c) else -1 in
  let off := a t `rem` postFreq c * nelem t in
  let pSend := b2z ((a t `rem` postFreq c =? postFreq c - 1) || ((a t + 1) * aggDelta c + as_ t >=? nranks c)) in
  let pRecv := b2z ((sDim =? 0) && ((a t `rem` postFreq c =? postFreq c - 1) || ((a t + 1) * aggDelta c + as_ t - 1 >=? nranks c))) in
  let stepOff := if sDim =? 0 then 0 else a t `quot` postFreq c in
  let '(rOff, pRecv, stepOff) :=
    if rDim =? -1 then (-1, 0, stepOff)
    else if as_ t - bit =? 0 then
      let foffset := Z.shiftr (a t * aggDelta c) (rDim + 1) in
      (foffset `rem` postFreq c * nelem t,
       b2z ((sDim =? 0) && ((foffset `rem` postFreq c =? postFreq c - 1) || (Z.shiftl ((foffset + 1) * 2 + 1) rDim >=? nranks c))),
       if sDim =? 0 then 0 else foffset `quot` postFreq c)
    else (off, pRecv, stepOff) in
  let '(sDim, sOff, pSend, skip) :=
    if (s <? nranks c) && (sDim =? 0) && skip then (-1, -1, 0, false) else (sDim, off, pSend, skip) in
  Ret (MkStep rDim sDim rOff sOff stepOff pRecv pSend (nelem t) 0 (flags ps) (offset t)
         (sendDataRank * count c + offset t), skip).

Definition op2 (c : cfg) (t : st) (ps : ncclPatStep) : outcome (ncclPatStep * bool) :=
  let s := (2 * a t + 1) * scale t * aggDelta c in
  let pSend := b2z ((a t `rem` postFreq c =? postFreq c - 1) || ((2 * (a t + 1) + 1) * scale t * aggDelta c >=? nranks c)) in
  let skip := s >=? nranks c in
  let sDim := firstBitSet s (nrPow2 c) in
  bit ← shl1 sDim;
  let s := s - bit in
  let sOff := a t `rem` postFreq c * nelem t in
  let stepOff := a t `quot` postFreq c in
  let sendDataRank := (rank c + nranks c + s) `rem` nranks c in
  let rDim := if negb (s =? 0) then firstBitSet s (nrPow2 c) else -1 in
  let '(rOff, stepOff) :=
    if rDim =? -1 then (-1, stepOff)
    else
      let foffset := Z.shiftr (a t * 2 * scale t * aggDelta c) (rDim + 1) in
      (foffset `rem` postFreq c * nelem t, foffset `quot` postFreq c) in
  Ret (MkStep rDim sDim rOff sOff stepOff 0 pSend (nelem t) 0 (flags ps) (offset t)
         (sendDataRank * count c + offset t), skip).

Definition step_body (c : cfg) (t : st) (ps : ncclPatStep) : outcome (ncclPatStep * bool) :=
  let unchanged skip := (MkStep (recvDim ps) (sendDim ps) (recvOffset ps) (sendOffset ps) (ps_stepOffset ps)
    (postRecv ps) (postSend ps) (nelem t) 0 (flags ps) (offset t) (outIx ps), skip) in
  if a t >=? lastA t then Ret (unchanged true)
  else if phase t =? 0 then op0 c t ps
  else if phase t =? 1 then op1 c t ps
  else if phase t =? 2 then op2 c t ps
  else Ret (unchanged false).

(** The state machine after [a++]: the new state and [ps->last]. *)
Definition advance (c : cfg) (asDim : Z) (t : st) : outcome (st * Z) :=
  let a' := a t + 1 in
  if (a' >=? lastA t) && (a' >=? parallelFactor c) then
    let p := phase t in
    let scale' := if p =? 2 then scale t `quot` 2 else scale t in
    let phase' :=
      if p =? 2 then (if negb (scale' =? 0) then 2 else 1)
      else if p =? 1 then (if as_ t `rem` 2 =? 1 then 0 else 1)
      else 1 in
    '(as', v', bc, bz) ←
      (if (p =? 0) || ((p =? 1) && (as_ t `rem` 2 =? 0)) then
         '(v', bc, bz) ← nextAs asDim (v t, bitCount t, bitZeroStep t); Ret (v', v', bc, bz)
       else Ret (as_ t, v t, bitCount t, bitZeroStep t));
    if (p =? 0) && (as' =? aggDelta c `quot` 2) then
      let offset' := offset t + chunkCount c in
      if offset' >=? end_ c
      then Ret (MkSt offset' (nelem t) (lastA t) as' a' scale' phase' v' bc bz, 2)
      else t' ← reset c asDim offset' bc bz; Ret (t', 0)
    else t' ← resetA c (offset t) (nelem t) as' scale' phase' (v', bc, bz); Ret (t', 0)
  else
    l ← (if (phase t =? 0) && (as_ t =? 1) && (offset t + chunkCount c >=? end_ c) then
           _ ← require (negb (parallelFactor c =? 0));
           Ret (b2z (a' - 1 >=? (lastA t - 1) `quot` parallelFactor c * parallelFactor c))
         else Ret 0);
    Ret (MkSt (offset t) (nelem t) (lastA t) (as_ t) a' (scale t) (phase t) (v t) (bitCount t) (bitZeroStep t), l).

Definition getNextOp (c : cfg) (asDim : Z) (t : st) (ps : ncclPatStep) : outcome (st * ncclPatStep) :=
  '(ps, skip) ← step_body c t ps;
  '(t, l) ← advance c asDim t;
  Ret (t, PatRS.set_last ps l (Z.lor PatUsed (if skip : bool then PatSkipped else 0))).

(** The computing thread of [runPat]. *)
Fixpoint run (fuel : nat) (c : cfg) (asDim : Z) (t : st) (slots : list ncclPatStep) (step : Z)
    : outcome (list ncclPatStep) :=
  match fuel with
  | O => Stuck
  | S fuel =>
    ps ← zget slots (step `rem` NCCL_SHMEM_PAT_STEPS);
    '(t, ps) ← getNextOp c asDim t ps;
    slots ← zset slots (step `rem` NCCL_SHMEM_PAT_STEPS) ps;
    if last ps =? 2 then Ret [ps] else rest ← run fuel c asDim t slots (step + 1); Ret (ps :: rest)
  end.

End PatAG.

(** ** Proofs: bit mirrors *)

(** After [j] iterations the top [j] of [k] bits are those of [i] mirrored (kept
    where they equal [b]). *)
Definition mirrored (b : bool) (k j i ret : Z) : Prop :=
  0 <= ret /\ forall n, 0 <= n ->
    Z.testbit ret n = (k - j <=? n) && (n <? k) && Bool.eqb (Z.testbit i (k - 1 - n)) b.

Lemma mirrored_step b k j i ret :
  0 <= j < k -> mirrored b k j i ret ->
  mirrored b k (j + 1) i (if Bool.eqb (Z.testbit i j) b then ret + 2 ^ (k - 1 - j) else ret).
Proof.
  intros Hj [Hr Hb]. destruct (Bool.eqb (Z.testbit i j) b) eqn:E.
  - assert (Z.land ret (2 ^ (k - 1 - j)) = 0) as Hd.
    { apply Z.bits_inj'. intros n Hn. rewrite Z.land_spec, Z.bits_0, Z.pow2_bits_eqb by lia.
      destruct (Z.eqb_spec (k - 1 - j) n) as [<-|]; [|apply andb_false_r]. rewrite Hb by lia.
      destruct (Z.leb_spec (k - j) (k - 1 - j)); [lia|done]. }
    rewrite (Z.add_nocarry_lxor _ _ Hd), (Z.lxor_lor _ _ Hd). split.
    { apply Z.lor_nonneg. split; [done|]. apply Z.pow_nonneg. lia. }
    intros n Hn. rewrite Z.lor_spec, Z.pow2_bits_eqb, Hb by lia.
    destruct (Z.eqb_spec (k - 1 - j) n) as [<-|Hne].
    + replace (k - 1 - (k - 1 - j)) with j by lia. rewrite E, orb_true_r.
      destruct (Z.leb_spec (k - (j + 1)) (k - 1 - j)); [|lia]. destruct (Z.ltb_spec (k - 1 - j) k); [done|lia].
    + rewrite orb_false_r. do 2 f_equal. destruct (Z.leb_spec (k - j) n), (Z.leb_spec (k - (j + 1)) n); lia || done.
  - split; [done|]. intros n Hn. rewrite Hb by done.
    destruct (Z.leb_spec (k - j) n), (Z.leb_spec (k - (j + 1)) n); try lia; try done.
    assert (k - 1 - n = j) as -> by lia. rewrite E. by rewrite !andb_false_r.
Qed.

Lemma mirror_loop_spec b (fuel : nat) k j i ret :
  0 <= j <= k -> k - j <= Z.of_nat fuel -> mirrored b k j i ret ->
  exists r, mirror_loop b fuel i (2 ^ k) (2 ^ j) (Z.shiftr (2 ^ k) (j + 1)) ret = Ret r /\ mirrored b k k i r.
Proof.
  revert j ret. induction fuel as [|fuel IH]; intros j ret Hj Hf Hm; cbn [mirror_loop].
  - destruct (Z.ltb_spec (2 ^ j) (2 ^ k)) as [Hlt|]; [apply Z.pow_lt_mono_r_iff in Hlt; lia|].
    exists ret. split; [done|]. by replace k with j at 2 by lia.
  - destruct (Z.ltb_spec (2 ^ j) (2 ^ k)) as [Hlt|Hge].
    + apply Z.pow_lt_mono_r_iff in Hlt; [|lia..].
      assert (Z.shiftr (2 ^ k) (j + 1) = 2 ^ (k - 1 - j)) as E1.
      { rewrite Z.shiftr_div_pow2, <- Z.pow_sub_r by lia. f_equal. lia. }
      assert (negb (Z.land i (2 ^ j) =? 0) = Z.testbit i j) as E2.
      { destruct (Z.testbit i j) eqn:Eb.
        - destruct (Z.eqb_spec (Z.land i (2 ^ j)) 0) as [E0|]; [|done].
          assert (Z.testbit (Z.land i (2 ^ j)) j = true) as E3 by (rewrite Z.land_spec, Eb, Z.pow2_bits_true by lia; done).
          rewrite E0, Z.bits_0 in E3. done.
        - assert (Z.land i (2 ^ j) = 0) as ->; [|done]. apply Z.bits_inj'. intros n Hn.
          rewrite Z.land_spec, Z.bits_0, Z.pow2_bits_eqb by lia.
          destruct (Z.eqb_spec j n) as [<-|]; [by rewrite Eb|apply andb_false_r]. }
      rewrite E2, E1. rewrite Z.shiftl_mul_pow2 by lia.
      replace (2 ^ j * 2 ^ 1) with (2 ^ (j + 1)) by (rewrite <- Z.pow_add_r by lia; done).
      replace (Z.shiftr (2 ^ (k - 1 - j)) 1) with (Z.shiftr (2 ^ k) (j + 1 + 1)).
      2: { rewrite <- E1, Z.shiftr_shiftr by lia. f_equal. }
      apply IH; [lia|lia|]. apply mirrored_step; [lia|done].
    + assert (j = k) as ->. { destruct (Z.eq_dec j k); [done|]. pose proof (Z.pow_lt_mono_r 2 j k). lia. }
      by exists ret.
Qed.

Lemma mirror_start b k i : 0 <= k <= 31 ->
  exists r, mirror_loop b 32 i (2 ^ k) 1 (2 ^ k `quot` 2) 0 = Ret r /\ mirrored b k k i r.
Proof.
  intros Hk. pose proof (pow2_pos k ltac:(lia)).
  rewrite quot_div_nonneg by lia. replace (2 ^ k / 2) with (Z.shiftr (2 ^ k) (0 + 1)) by by rewrite Z.shiftr_div_pow2 by lia.
  apply (mirror_loop_spec b 32 k 0 i 0); [lia|lia|]. split; [done|]. intros n Hn.
  rewrite Z.bits_0, Z.sub_0_r. destruct (Z.leb_spec k n), (Z.ltb_spec n k); done || lia.
Qed.

Lemma mirrored_range b k i r : 0 <= k -> mirrored b k k i r -> 0 <= r < 2 ^ k.
Proof.
  intros Hk [Hr Hb]. split; [done|]. apply lt_pow2_bits; [done..|]. intros n Hn. rewrite Hb by lia.
  destruct (Z.ltb_spec n k); [lia|]. by rewrite andb_false_r.
Qed.

Lemma mirrored_inj b k i i' r : 0 <= k -> 0 <= i < 2 ^ k -> 0 <= i' < 2 ^ k ->
  mirrored b k k i r -> mirrored b k k i' r -> i = i'.
Proof.
  intros Hk Hi Hi' [_ H] [_ H']. apply Z.bits_inj'. intros n Hn. destruct (Z.lt_ge_cases n k) as [Hlt|Hge].
  - specialize (H (k - 1 - n) ltac:(lia)). rewrite H' in H by lia. replace (k - 1 - (k - 1 - n)) with n in H by lia.
    destruct (Z.leb_spec (k - k) (k - 1 - n)); [|lia]. destruct (Z.ltb_spec (k - 1 - n) k); [|lia]. simpl in H.
    destruct (Z.testbit i n), (Z.testbit i' n), b; done.
  - by rewrite !(testbit_high _ k).
Qed.

Lemma mirrorInvert_range k i : 0 <= k <= 31 -> exists r, mirrorInvert i (2 ^ k) = Ret r /\ 0 <= r < 2 ^ k.
Proof.
  intros Hk. destruct (mirror_start false k i Hk) as (r & Hr & Hm). exists r. split; [done|].
  apply mirrored_range with false i; [lia|done].
Qed.

(** ** Proofs: the aggregation parameters *)

(** [k] bits of rank number, [x] of them aggregated. *)
Record cfg_wf (c : cfg) (k x : Z) : Prop := {
  cw_k : 1 <= k <= 30;
  cw_x : 0 <= x <= k - 1;
  cw_nrPow2 : nrPow2 c = 2 ^ k;
  cw_aggFactor : aggFactor c = 2 ^ x;
  cw_aggDelta : aggDelta c = 2 ^ (k - x);
  cw_nranks : 2 <= nranks c <= 2 ^ k;
  cw_postFreq : 0 < postFreq c <= aggFactor c;
  cw_parallel : parallelFactor c <= postFreq c;
  cw_rank : 0 <= rank c < nranks c;
  cw_chunk : 0 < chunkCount c;
}.

Lemma halve_pow2 m : 1 <= m -> 2 ^ m `quot` 2 = 2 ^ (m - 1).
Proof.
  intros. pose proof (pow2_pos m ltac:(lia)). rewrite quot_div_nonneg by lia.
  change 2 with (2 ^ 1) at 2. by rewrite <- Z.pow_sub_r by lia.
Qed.

(** Another doubling leaves at least one bit unaggregated. *)
Lemma agg_room k x n : 0 <= x -> 1 <= k -> n <= 2 ^ k -> 2 ^ x < n `quot` 2 -> x + 1 <= k - 1.
Proof.
  intros Hx Hk Hn Hlt. assert (2 ^ x < 2 ^ (k - 1)) as Hp.
  { rewrite <- halve_pow2 by lia. apply Z.lt_le_trans with (n `quot` 2); [done|]. apply Z.quot_le_mono; lia. }
  apply Z.pow_lt_mono_r_iff in Hp; lia.
Qed.

Lemma agg_loop_spec fuel stepSize size n k x :
  0 < size -> 1 <= k -> n <= 2 ^ k -> 0 <= x <= k - 1 -> k - x <= Z.of_nat fuel ->
  exists x', x <= x' <= k - 1 /\ agg_loop fuel stepSize size n (2 ^ x) (2 ^ (k - x)) = Ret (2 ^ x', 2 ^ (k - x')).
Proof.
  intros Hs Hk Hn. revert x. induction fuel as [|fuel IH]; intros x Hx Hf; [lia|]. cbn [agg_loop].
  pose proof (pow2_pos x ltac:(lia)). destruct (Z.eqb_spec (size * 2 ^ x) 0); [nia|]. cbn [negb require mbind outcome_bind].
  destruct (_ && _) eqn:E; [|by exists x; split; [lia|]].
  apply andb_true_iff in E as [_ E]. apply Z.ltb_lt, (agg_room k) in E; [|lia..].
  rewrite halve_pow2 by lia. replace (2 ^ x * 2) with (2 ^ (x + 1)) by (rewrite Z.pow_add_r by lia; done).
  replace (k - x - 1) with (k - (x + 1)) by lia.
  destruct (IH (x + 1)) as (x' & Hx' & ->); [lia|lia|]. exists x'. split; [lia|done].
Qed.

Lemma depth_loop_spec fuel d n k x :
  1 <= k -> n <= 2 ^ k -> 0 <= x <= k - 1 -> k - x <= Z.of_nat fuel ->
  exists x', x <= x' <= k - 1 /\ depth_loop fuel d n (2 ^ x) (2 ^ (k - x)) = Ret (2 ^ x', 2 ^ (k - x')).
Proof.
  intros Hk Hn. revert d x. induction fuel as [|fuel IH]; intros d x Hx Hf; [lia|]. cbn [depth_loop].
  destruct (_ && _) eqn:E; [|by exists x; split; [lia|]].
  apply andb_true_iff in E as [_ E]. apply Z.ltb_lt, (agg_room k) in E; [|lia..].
  rewrite halve_pow2 by lia. replace (2 ^ x * 2) with (2 ^ (x + 1)) by (rewrite Z.pow_add_r by lia; done).
  replace (k - x - 1) with (k - (x + 1)) by lia.
  destruct (IH (d `quot` 2) (x + 1)) as (x' & Hx' & ->); [lia|lia|]. exists x'. split; [lia|done].
Qed.

Lemma pat_cfg_wf eltSize stepSize stepDepth maxPar offset e count chunk r n :
  0 < eltSize -> offset < e -> 0 < chunk -> 0 <= r < n -> 2 <= n <= 2 ^ 30 ->
  exists c k x, pat_cfg eltSize stepSize stepDepth maxPar offset e count chunk r n = Ret c /\ cfg_wf c k x /\
    end_ c = e /\ Pat.count c = count /\ chunkCount c = chunk /\ rank c = r /\ nranks c = n.
Proof.
  intros He Ho Hc Hr Hn. unfold pat_cfg. rewrite log2Up_log2_up; [|change (builtin_width int32) with 32; lia
    |apply conv_in_range; [done|unfold in_range; cbn [ity_signed int32 ity_width]; lia]].
  set (k := Z.log2_up n). pose proof (Z.log2_up_spec n ltac:(lia)) as Hk. fold k in Hk.
  assert (1 <= k <= 30) as Hk30.
  { unfold k. split; [pose proof (Z.log2_up_pos n ltac:(lia)); lia|]. apply Z.log2_up_le_pow2; lia. }
  unfold shl1 at 1. destruct (Z.leb_spec 0 k); [|lia]. destruct (Z.ltb_spec k 31); [|lia]. cbn [andb mbind outcome_bind].
  destruct (agg_loop_spec 32 stepSize ((e - offset) * eltSize) n k 0) as (x & Hx & E1); [nia|lia|lia|lia|lia|].
  rewrite Z.sub_0_r in E1. change (2 ^ 0) with 1 in E1. rewrite E1. cbn [mbind outcome_bind].
  destruct (depth_loop_spec 32 stepDepth n k x) as (x' & Hx' & E2); [lia|lia|lia|lia|]. rewrite E2. cbn [mbind outcome_bind].
  eexists _, k, x'. split; [done|]. split; [|done]. pose proof (pow2_pos x ltac:(lia)).
  split; simpl; try done; try lia.
  - split; [lia|]. apply Z.pow_le_mono_r; lia.
  - destruct (Z.ltb_spec (2 ^ x) maxPar); lia.
Qed.

(** ** Proofs: reduce-scatter *)

Lemma firstBitSet_spec s k : 0 < s < 2 ^ k -> 0 <= k <= 30 ->
  let d := firstBitSet s (2 ^ k) in 0 <= d < k /\ 2 ^ d <= s /\ shl1 d = Ret (2 ^ d).
Proof.
  intros Hs Hk. unfold firstBitSet. assert (2 ^ k <= 2 ^ 30) by (apply Z.pow_le_mono_r; lia).
  assert (u32 s = s) as -> by (unfold u32; rewrite Z.mod_small; lia).
  destruct (ffs_spec s ltac:(lia)) as (Hf & Hb & _).
  destruct (Z.eqb_spec (ffs s) 0); [lia|]. cbn [negb]. cbv zeta.
  assert (ffs s - 1 < k).
  { destruct (Z.lt_ge_cases (ffs s - 1) k) as [|Hge]; [done|]. rewrite (testbit_high s k) in Hb; [done|lia|lia]. }
  split; [lia|]. split.
  - destruct (Z.le_gt_cases (2 ^ (ffs s - 1)) s) as [|Hlt]; [done|].
    rewrite (testbit_high s (ffs s - 1)) in Hb; [done|lia|lia].
  - unfold shl1. destruct (Z.leb_spec 0 (ffs s - 1)); [|lia]. by destruct (Z.ltb_spec (ffs s - 1) 31); [|lia].
Qed.

Module PatRSProofs.
Import PatRS.

(** What every descriptor that is not skipped promises: valid dimensions, buffer
    offsets inside the [postFreq] blocks of a step, and user data to read in range
    ([inpIx]; nothing is said of [outIx]). *)
Record step_safe (c : cfg) (k : Z) (ps : ncclPatStep) : Prop := {
  ss_recv : recvDim ps = -1 \/ (0 <= recvDim ps < k /\ 0 <= recvOffset ps <= (postFreq c - 1) * ps_nelem ps);
  ss_send : sendDim ps = -1 \/ (0 <= sendDim ps < k /\ 0 <= sendOffset ps <= (postFreq c - 1) * ps_nelem ps);
  ss_data : 0 <= inpIx ps /\ inpIx ps + ps_nelem ps <= nranks c * count c;
}.

(** The invariant of the state machine, [k] and [x] as in [cfg_wf]. *)
Definition phase_ok (c : cfg) (x : Z) (t : st) : Prop :=
  (phase t = 0 /\ scale t = 1 /\ lastA t = aggFactor c /\ Z.odd (as_ t) = true /\ 1 <= as_ t < aggDelta c) \/
  (phase t = 1 /\ scale t = 1 /\ lastA t = aggFactor c /\ 2 <= as_ t < aggDelta c) \/
  ((phase t = 2 \/ phase t = 3) /\ exists i, 0 <= i < x /\ scale t = 2 ^ i /\ lastA t = 2 ^ (x - 1 - i)) \/
  (phase t = 4 /\ lastA t = 1).

Record inv (c : cfg) (x : Z) (t : st) : Prop := {
  inv_phase : phase_ok c x t;
  inv_a : 0 <= sendSkipped t <= a t;
  inv_chunk : 0 <= offset t /\ (phase t = 4 /\ 1 <= a t \/ (offset t < end_ c /\ nelem t = getNelem c (offset t)));
}.

(** What the body of a call leaves alone. *)
Record kept (c : cfg) (t t' : st) : Prop := {
  kp_nelem : nelem t' = nelem t; kp_lastA : lastA t' = lastA t; kp_as : as_ t' = as_ t; kp_a : a t' = a t;
  kp_scale : scale t' = scale t; kp_phase : phase t' = phase t;
  kp_skipped : 0 <= sendSkipped t' <= a t;
  kp_offset : offset t' = offset t + (if (phase t =? 4) && (a t <? lastA t) then chunkCount c else 0);
}.

Section proofs.
  Context (c : cfg) (k x : Z) (Hc : cfg_wf c k x).
  Context (Hcount : end_ c <= count c).

Lemma block_offset w n : 0 <= w -> 0 <= n -> 0 <= w `rem` postFreq c * n <= (postFreq c - 1) * n.
Proof.
  intros Hw Hn. pose proof (cw_postFreq _ _ _ Hc). rewrite rem_mod_nonneg by lia.
  pose proof (Z.mod_pos_bound w (postFreq c) ltac:(lia)). nia.
Qed.

Lemma data_range t w : 0 <= w -> 0 <= offset t < end_ c -> nelem t = getNelem c (offset t) ->
  0 <= w `rem` nranks c * count c + offset t /\
  w `rem` nranks c * count c + offset t + nelem t <= nranks c * count c.
Proof.
  intros Hw Ho ->. pose proof (cw_nranks _ _ _ Hc). rewrite rem_mod_nonneg by lia.
  pose proof (Z.mod_pos_bound w (nranks c) ltac:(lia)). unfold getNelem. nia.
Qed.

(** The dimension a distance [s] belongs to. *)
Lemma dim_of s : 0 < s < 2 ^ k ->
  0 <= firstBitSet s (nrPow2 c) < k /\ 2 ^ firstBitSet s (nrPow2 c) <= s /\
  shl1 (firstBitSet s (nrPow2 c)) = Ret (2 ^ firstBitSet s (nrPow2 c)).
Proof. intros Hs. rewrite (cw_nrPow2 _ _ _ Hc). pose proof (cw_k _ _ _ Hc). apply firstBitSet_spec; lia. Qed.

Lemma send_dim_of s : 0 <= s < 2 ^ k ->
  (if negb (s =? 0) then firstBitSet s (nrPow2 c) else -1) = -1 \/
  0 <= (if negb (s =? 0) then firstBitSet s (nrPow2 c) else -1) < k.
Proof.
  intros Hs. destruct (Z.eqb_spec s 0); simpl; [by left|right]. by apply dim_of; lia.
Qed.

(** Distances of phases 0 and 1. *)
Lemma distance01 m as' : 0 <= m < aggFactor c -> 1 <= as' < aggDelta c -> 0 < m * aggDelta c + as' < 2 ^ k.
Proof.
  intros Hm Ha. destruct Hc. rewrite cw_aggFactor0 in Hm. rewrite cw_aggDelta0 in *.
  assert (2 ^ x * 2 ^ (k - x) = 2 ^ k) by (rewrite <- Z.pow_add_r by lia; f_equal; lia).
  pose proof (pow2_pos (k - x) ltac:(lia)). nia.
Qed.

(** Distances of phases 2 and 3. *)
Lemma distance23 m i : 0 <= i < x -> 0 <= m < 2 ^ (x - 1 - i) ->
  0 < (2 * m + 1) * 2 ^ i * aggDelta c < 2 ^ k.
Proof.
  intros Hi Hm. destruct Hc. rewrite cw_aggDelta0.
  assert (2 * 2 ^ (x - 1 - i) * (2 ^ i * 2 ^ (k - x)) = 2 ^ k) as E.
  { replace 2 with (2 ^ 1) at 1 by done. rewrite <- !Z.pow_add_r by lia. f_equal. lia. }
  pose proof (pow2_pos (k - x) ltac:(lia)). pose proof (pow2_pos i ltac:(lia)).
  set (u := 2 ^ i * 2 ^ (k - x)) in *. assert (0 < u) by nia.
  replace ((2 * m + 1) * 2 ^ i * 2 ^ (k - x)) with ((2 * m + 1) * u) by (unfold u; lia). nia.
Qed.

Lemma nelem_nonneg t : inv c x t -> phase t <> 4 \/ a t < 1 -> 0 <= nelem t /\ 0 <= offset t < end_ c /\ nelem t = getNelem c (offset t).
Proof.
  intros [_ _ [Ho Hcase]] Hne. destruct Hcase as [[? ?]|[? Hn]]; [lia|]. split; [|done].
  rewrite Hn. unfold getNelem. pose proof (cw_chunk _ _ _ Hc). lia.
Qed.

(** In the first four phases [mirrorInvert] permutes the steps of a round. *)
Lemma mirror_ok t : inv c x t -> phase t <> 4 -> exists m, mirrorInvert (a t) (lastA t) = Ret m /\ 0 <= m < lastA t.
Proof.
  intros [Hp _ _] Hne. destruct (cw_k _ _ _ Hc), (cw_x _ _ _ Hc).
  assert (exists j, 0 <= j <= 31 /\ lastA t = 2 ^ j) as (j & Hj & ->).
  { pose proof (cw_aggFactor _ _ _ Hc).
    destruct Hp as [(_ & _ & -> & _)|[(_ & _ & -> & _)|[(_ & i & Hi & _ & ->)|[? _]]]]; [exists x|exists x|eexists|done];
      (split; [|done]); lia. }
  by apply mirrorInvert_range.
Qed.

(** The contract of a call's body. *)
Definition body_ok (t : st) (r : st * ncclPatStep * bool) : Prop :=
  kept c t (fst (fst r)) /\ (snd r = false -> step_safe c k (snd (fst r))).

Lemma kept_refl t : 0 <= sendSkipped t <= a t -> phase t <> 4 \/ lastA t <= a t -> kept c t t.
Proof.
  intros Hs Hp. split; try done. destruct (Z.eqb_spec (phase t) 4), (Z.ltb_spec (a t) (lastA t)); simpl; lia.
Qed.

Lemma op0_ok t ps : inv c x t -> phase t = 0 -> a t < lastA t -> wp (op0 c t ps) (body_ok t).
Proof.
  intros Hinv Hp Ha. destruct (nelem_nonneg _ Hinv ltac:(lia)) as (Hn & Ho & Hne).
  destruct (mirror_ok t Hinv ltac:(lia)) as (m & Hmi & Hm).
  destruct Hinv as [[(_ & _ & Hl & _ & Has)|[[? _]|[[? _]|[? _]]]] Hsk _]; [|lia..].
  unfold op0. rewrite Hmi. cbn [mbind outcome_bind wpx]. rewrite Hl in Hm. pose proof (distance01 m (as_ t) Hm Has).
  pose proof (cw_rank _ _ _ Hc). pose proof (cw_k _ _ _ Hc). split; [apply (kept_refl t); [done|left; lia]|]. intros _. cbn [fst snd]. split; cbn.
  - by left.
  - right. split; [lia|]. apply block_offset; lia.
  - apply data_range; [lia|done|done].
Qed.

Lemma kept_restart t : 0 <= a t -> phase t <> 4 -> kept c t (restart t).
Proof. intros Ha Hp. split; try done; cbn; try lia. destruct (Z.eqb_spec (phase t) 4); simpl; lia. Qed.

Lemma kept_bump b t t' : kept c t t' -> kept c t (bump b t').
Proof. intros []. destruct b; split; done. Qed.

Lemma drop_recv_ok s d off p skip n :
  0 <= d < k -> 0 <= off <= (postFreq c - 1) * n ->
  exists r rOff pR sk, drop_recv c s d off p skip = (r, rOff, pR, sk) /\
    (r = -1 \/ (0 <= r < k /\ 0 <= rOff <= (postFreq c - 1) * n)).
Proof.
  intros Hd Ho. unfold drop_recv. destruct (_ && _); eexists _, _, _, _; (split; [done|]); [by left|by right].
Qed.

Lemma op1_send_ok t sd bit : 0 <= sendSkipped t <= a t -> phase t <> 4 -> 0 <= nelem t ->
  exists t' sOff pstep, op1_send c t sd bit = (t', sOff, pstep) /\ kept c t t' /\
    (sd = -1 \/ 0 <= sOff <= (postFreq c - 1) * nelem t).
Proof.
  intros Hsk Hp Hn. assert (kept c t t) by (apply kept_refl; [done|by left]). unfold op1_send.
  destruct (Z.eqb_spec sd (-1)); [by eexists _, _, _; split; [done|]; split; [done|left]|].
  destruct (Z.eqb_spec (as_ t - bit) 0).
  - eexists _, _, _. split; [done|]. destruct (newPeer (a t) (aggFactor c)).
    + split; [apply kept_restart; [lia|done]|]. right. cbn. apply block_offset; lia.
    + split; [done|]. right. apply block_offset; lia.
  - eexists _, _, _. split; [done|]. split; [done|]. right. apply block_offset; lia.
Qed.

Lemma op1_ok t ps : inv c x t -> phase t = 1 -> a t < lastA t -> wp (op1 c t ps) (body_ok t).
Proof.
  intros Hinv Hp Ha. destruct (nelem_nonneg _ Hinv ltac:(lia)) as (Hn & Ho & Hne).
  destruct (mirror_ok t Hinv ltac:(lia)) as (m & Hmi & Hm).
  destruct Hinv as [[[? _]|[(_ & _ & Hl & Has)|[[? _]|[? _]]]] Hsk _]; [lia| |lia..].
  unfold op1. rewrite Hmi. cbn [mbind outcome_bind]. rewrite Hl in Hm. pose proof (distance01 m (as_ t) Hm ltac:(lia)) as Hs.
  destruct (dim_of _ Hs) as (Hd & Hle & ->). cbn [mbind outcome_bind]. cbv zeta.
  set (s := m * aggDelta c + as_ t) in *. set (d := firstBitSet s (nrPow2 c)) in *.
  pose proof (pow2_pos d ltac:(lia)). pose proof (cw_rank _ _ _ Hc).
  pose proof (send_dim_of (s - 2 ^ d) ltac:(lia)) as Hsd.
  set (sd := if negb (s - 2 ^ d =? 0) then firstBitSet (s - 2 ^ d) (nrPow2 c) else -1) in *.
  destruct (op1_send_ok t sd (2 ^ d) Hsk ltac:(lia) Hn) as (t' & sOff & pstep & -> & Hk & HsOff).
  destruct (drop_recv_ok (s - 2 ^ d) d (a t `rem` postFreq c * nelem t) (b2z (post_due c t)) (s >=? nranks c) (nelem t) Hd)
    as (r & rOff & pR & sk & -> & Hr); [apply block_offset; lia|].
  split; [by apply kept_bump|]. intros _. cbn [fst snd]. split; cbn; [done| |apply data_range; [lia|done|done]].
  destruct Hsd as [Hsd|Hsd]; [by left|]. destruct HsOff as [|HsOff]; [by left|]. by right.
Qed.

Lemma op2_ok t ps : inv c x t -> phase t = 2 -> a t < lastA t -> wp (op2 c t ps) (body_ok t).
Proof.
  intros Hinv Hp Ha. destruct (nelem_nonneg _ Hinv ltac:(lia)) as (Hn & Ho & Hne).
  destruct (mirror_ok t Hinv ltac:(lia)) as (m & Hmi & Hm).
  destruct Hinv as [[[? _]|[[? _]|[(_ & i & Hi & Hsc & Hl)|[? _]]]] Hsk _]; [lia..| |lia].
  unfold op2. rewrite Hmi. cbn [mbind outcome_bind]. cbv zeta. rewrite Hl in Hm. pose proof (distance23 m i Hi Hm) as Hs.
  rewrite <- Hsc in Hs. set (s := (2 * m + 1) * scale t * aggDelta c) in *.
  replace (s + 1 - 1) with s by lia. pose proof (cw_rank _ _ _ Hc).
  pose proof (send_dim_of s ltac:(lia)) as Hsd. destruct (cw_postFreq _ _ _ Hc). pose proof (cw_k _ _ _ Hc).
  pose proof (pow2_pos i ltac:(lia)). pose proof (cw_aggFactor _ _ _ Hc). pose proof (pow2_pos x ltac:(lia)).
  assert (0 <= aggFactor c - aggFactor c `quot` scale t) as Hf.
  { rewrite quot_div_nonneg by lia. assert (aggFactor c / scale t <= aggFactor c); [|lia].
    apply Z.div_le_upper_bound; [lia|]. nia. }
  pose proof (block_offset (a t + aggFactor c - aggFactor c `quot` scale t) (nelem t) ltac:(lia) Hn) as Hb.
  pose proof (block_offset (a t) (nelem t) ltac:(lia) Hn) as Hb0.
  pose proof (data_range t (rank c + nranks c + s) ltac:(lia) Ho Hne) as Hdr.
  assert (kept c t t) as Hkt by (apply kept_refl; [done|left; lia]).
  destruct ((s <? nranks c) && (s + 1 >=? nranks c)).
  - split; [done|]. intros _. split; cbn; [by left| |done]. destruct Hsd as [|]; [by left|by right].
  - destruct (negb (s + 1 >=? nranks c)) eqn:Esk.
    + destruct (Z.eqb_spec (scale t) 0); [lia|]. split; [done|]. intros _.
      split; cbn; [right; split; [lia|done]| |done]. destruct Hsd as [|]; [by left|by right].
    + split; [done|]. cbn. intros Hfalse. rewrite Hfalse in Esk. done.
Qed.

Lemma op3_ok t ps : inv c x t -> phase t = 3 -> a t < lastA t -> wp (op3 c t ps) (body_ok t).
Proof.
  intros Hinv Hp Ha. destruct (nelem_nonneg _ Hinv ltac:(lia)) as (Hn & Ho & Hne).
  destruct (mirror_ok t Hinv ltac:(lia)) as (m & Hmi & Hm).
  destruct Hinv as [[[? _]|[[? _]|[(_ & i & Hi & Hsc & Hl)|[? _]]]] Hsk _]; [lia..| |lia].
  unfold op3. rewrite Hmi. cbn [mbind outcome_bind]. rewrite Hl in Hm. pose proof (distance23 m i Hi Hm) as Hs.
  rewrite <- Hsc in Hs. destruct (dim_of _ Hs) as (Hd & Hle & ->). cbn [mbind outcome_bind]. cbv zeta.
  set (s := (2 * m + 1) * scale t * aggDelta c) in *. set (d := firstBitSet s (nrPow2 c)) in *.
  pose proof (pow2_pos d ltac:(lia)). pose proof (cw_rank _ _ _ Hc).
  pose proof (send_dim_of (s - 2 ^ d) ltac:(lia)) as Hsd.
  edestruct (drop_recv_ok (s - 2 ^ d) d (a t `rem` postFreq c * nelem t)) with (n := nelem t)
    as (r & rOff & pR & sk & -> & Hr); [done|apply block_offset; lia|].
  set (t' := if newPeer _ _ then restart t else t).
  assert (kept c t t') as Hk.
  { unfold t'. destruct (newPeer _ _); [apply kept_restart; lia|apply kept_refl; [done|left; lia]]. }
  split; [by apply kept_bump|]. intros _. cbn [fst snd]. split; cbn; [done| |apply data_range; [lia|done|done]].
  destruct Hsd as [Hsd|Hsd]; [by left|right]. split; [done|].
  destruct (Z.geb_spec (if negb (s - 2 ^ d =? 0) then firstBitSet (s - 2 ^ d) (nrPow2 c) else -1) 0); [|lia].
  apply block_offset; [pose proof (kp_skipped _ _ _ Hk); lia|done].
Qed.

Lemma op4_ok t ps : inv c x t -> phase t = 4 -> a t < lastA t -> wp (op4 c t ps) (body_ok t).
Proof.
  intros Hinv Hp Ha.
  assert (lastA t = 1) as Hl by (destruct Hinv as [[[? _]|[[? _]|[[? _]|[_ ?]]]] _ _]; [lia..|done]).
  destruct (nelem_nonneg _ Hinv ltac:(lia)) as (Hn & Ho & Hne). destruct Hinv as [_ Hsk _].
  pose proof (cw_rank _ _ _ Hc). pose proof (cw_nranks _ _ _ Hc). pose proof (cw_k _ _ _ Hc). destruct (cw_postFreq _ _ _ Hc).
  split.
  - split; try done. cbn. rewrite Hp. simpl. destruct (Z.ltb_spec (a t) (lastA t)); lia.
  - intros _. split; cbn; [right; split; [lia|]|by left|].
    + apply block_offset; lia.
    + pose proof (data_range t (rank c) ltac:(lia) Ho Hne) as Hd. by rewrite Z.rem_small in Hd by lia.
Qed.

Lemma step_body_ok t ps : inv c x t -> wp (step_body c t ps) (body_ok t).
Proof.
  intros Hinv. unfold step_body. rewrite Z.geb_leb. destruct (Z.leb_spec (lastA t) (a t)).
  { split; [|done]. cbn. apply kept_refl; [apply (inv_a _ _ _ Hinv)|by right]. }
  repeat match goal with |- context [phase t =? ?n] => destruct (Z.eqb_spec (phase t) n) end.
  - by apply op0_ok.
  - by apply op1_ok.
  - by apply op2_ok.
  - by apply op3_ok.
  - by apply op4_ok.
  - exfalso. destruct Hinv as [[[? _]|[[? _]|[[? _]|[? _]]]] _ _]; lia.
Qed.

(** *** Progress *)

(** A round has steps left. *)
Definition busy (t : st) : Prop := a t < Z.max (lastA t) (parallelFactor c).

(** The last chunk has been output: the rounds of the other workers remain. *)
Definition in_final (t : st) : bool := (phase t =? 4) && (1 <=? a t) && (end_ c <=? offset t).

(** Rounds left before the chunk is output. *)
Definition rounds (t : st) : Z :=
  if phase t =? 0 then 2 * x + 4 + 2 * as_ t
  else if phase t =? 1 then 2 * x + 3 + 2 * as_ t
  else if phase t =? 2 then 2 * (x - Z.log2 (scale t)) + 2
  else if phase t =? 3 then 2 * (x - Z.log2 (scale t)) + 1
  else 0.

(** Elements left. *)
Definition todo (t : st) : Z :=
  Z.max 0 (end_ c - offset t) + (if (phase t =? 4) && (1 <=? a t) then 1 else 0).

Definition max_rounds : Z := 2 * x + 4 + 2 * aggDelta c.

Definition measure (t : st) : Z :=
  (todo t * (max_rounds + 1) + rounds t) * aggFactor c + (aggFactor c - 1 - a t).

Lemma phase_cases t : phase_ok c x t -> phase t = 0 \/ phase t = 1 \/ phase t = 2 \/ phase t = 3 \/ phase t = 4.
Proof. intros [[? _]|[[? _]|[[? _]|[? _]]]]; lia. Qed.

Lemma lastA_range t : phase_ok c x t -> 1 <= lastA t <= aggFactor c.
Proof.
  destruct (cw_k _ _ _ Hc), (cw_x _ _ _ Hc). pose proof (cw_aggFactor _ _ _ Hc) as E. pose proof (pow2_pos x ltac:(lia)).
  intros [(_ & _ & -> & _)|[(_ & _ & -> & _)|[(_ & i & Hi & _ & ->)|[_ ->]]]]; [lia..| |lia].
  pose proof (pow2_pos (x - 1 - i) ltac:(lia)). rewrite E. split; [lia|]. apply Z.pow_le_mono_r; lia.
Qed.

Lemma rounds_range t : phase_ok c x t -> 0 <= rounds t <= max_rounds.
Proof.
  destruct (cw_k _ _ _ Hc), (cw_x _ _ _ Hc). unfold rounds, max_rounds.
  pose proof (cw_aggDelta _ _ _ Hc) as E. pose proof (pow2_pos (k - x) ltac:(lia)).
  intros [(-> & _ & _ & _ & Ha)|[(-> & _ & _ & Ha)|[(Hp & i & Hi & -> & _)|[-> _]]]]; simpl; [lia..| |lia].
  rewrite Z.log2_pow2 by lia. destruct Hp as [-> | ->]; simpl; lia.
Qed.

Lemma measure_nonneg t : phase_ok c x t -> 0 <= a t -> busy t -> 0 <= measure t.
Proof.
  intros Hp Ha Hb. pose proof (rounds_range t Hp). pose proof (lastA_range t Hp). unfold measure, busy in *.
  pose proof (cw_parallel _ _ _ Hc). pose proof (cw_postFreq _ _ _ Hc).
  assert (0 <= todo t) by (unfold todo; destruct (_ && _); lia).
  assert (0 <= todo t * (max_rounds + 1)) by (apply Z.mul_nonneg_nonneg; lia).
  assert (0 <= (todo t * (max_rounds + 1) + rounds t) * aggFactor c) by (apply Z.mul_nonneg_nonneg; lia). lia.
Qed.

(** Fewer rounds to go, or fewer elements, make the measure smaller. *)
Lemma measure_rounds t t' : phase_ok c x t' -> 0 <= a t < aggFactor c -> a t' = 0 ->
  todo t' <= todo t -> rounds t' < rounds t -> measure t' < measure t.
Proof.
  intros Hp Ha Ha' Ht Hr. pose proof (rounds_range t' Hp). unfold measure. rewrite Ha'.
  assert (0 < aggFactor c) by lia. set (M := max_rounds + 1) in *. assert (0 <= M) by (unfold M, max_rounds in *; lia).
  assert (todo t' * M <= todo t * M) by (apply Z.mul_le_mono_nonneg_r; lia).
  assert ((todo t' * M + rounds t' + 1) * aggFactor c <= (todo t * M + rounds t) * aggFactor c) by (apply Z.mul_le_mono_nonneg_r; lia).
  lia.
Qed.

Lemma measure_todo t t' : phase_ok c x t -> phase_ok c x t' -> 0 <= a t < aggFactor c -> a t' = 0 ->
  todo t' < todo t -> measure t' < measure t.
Proof.
  intros Hp Hp' Ha Ha' Ht. pose proof (rounds_range t Hp). pose proof (rounds_range t' Hp'). unfold measure. rewrite Ha'.
  assert (0 < aggFactor c) by lia. set (M := max_rounds + 1) in *. assert (0 <= M) by (unfold M, max_rounds in *; lia).
  assert ((todo t' + 1) * M <= todo t * M) by (apply Z.mul_le_mono_nonneg_r; lia).
  assert ((todo t' * M + rounds t' + 1) * aggFactor c <= (todo t * M + rounds t) * aggFactor c); [|lia].
  apply Z.mul_le_mono_nonneg_r; [lia|]. unfold M in *. lia.
Qed.

Lemma measure_same t t' : a t' = a t + 1 -> 0 < aggFactor c -> 0 <= max_rounds ->
  todo t' <= todo t -> rounds t' = rounds t -> measure t' < measure t.
Proof.
  intros Ha Hf Hm Ht Hr. unfold measure. rewrite Ha, Hr.
  assert (todo t' * (max_rounds + 1) <= todo t * (max_rounds + 1)) by (apply Z.mul_le_mono_nonneg_r; lia).
  assert ((todo t' * (max_rounds + 1) + rounds t) * aggFactor c <= (todo t * (max_rounds + 1) + rounds t) * aggFactor c)
    by (apply Z.mul_le_mono_nonneg_r; lia).
  lia.
Qed.

Definition next_round (as' sc ph : Z) : Prop :=
  (ph = 0 /\ sc = 1 /\ Z.odd as' = true /\ 1 <= as' < aggDelta c) \/
  (ph = 1 /\ sc = 1 /\ 2 <= as' < aggDelta c) \/
  ((ph = 2 \/ ph = 3) /\ exists i, 0 <= i < x /\ sc = 2 ^ i) \/
  ph = 4.

Lemma resetA_ok off as' sc ph : 0 <= off < end_ c -> next_round as' sc ph ->
  let t := resetA c off (getNelem c off) as' sc ph in inv c x t /\ busy t /\ a t = 0 /\ in_final t = false.
Proof.
  intros Hoff Hph t. destruct (cw_k _ _ _ Hc), (cw_x _ _ _ Hc). pose proof (cw_aggFactor _ _ _ Hc) as E.
  assert (phase_ok c x t) as Hok.
  { unfold t, resetA. destruct Hph as [(-> & -> & ? & ?)|[(-> & -> & ?)|[(Hp & i & Hi & ->)| ->]]]; cbn.
    - by left.
    - right. by left.
    - right. right. left. assert (aggFactor c `quot` (2 * 2 ^ i) = 2 ^ (x - 1 - i)) as Eq.
      { pose proof (pow2_pos i ltac:(lia)). pose proof (pow2_pos x ltac:(lia)).
        rewrite E, quot_div_nonneg by lia. replace (2 * 2 ^ i) with (2 ^ (i + 1)) by (rewrite Z.pow_add_r by lia; lia).
        rewrite <- Z.pow_sub_r by lia. f_equal. lia. }
      destruct Hp as [-> | ->]; simpl; (split; [auto|]); exists i; done.
    - right. right. by right. }
  split; [|split; [|split; [done|]]].
  3: { unfold in_final, t, resetA. cbn. by rewrite andb_false_r. }
  - split; [done|simpl; lia|]. split; [simpl; lia|]. right. split; [simpl; lia|done].
  - unfold busy. pose proof (lastA_range _ Hok). simpl in *. lia.
Qed.

(** The outcome of one call in terms of the invariant. *)
Inductive progress (t t2 : st) : Z -> Prop :=
  | progress_done : phase t = 4 -> end_ c <= offset t + (if a t <? 1 then chunkCount c else 0) ->
      Z.max 1 (parallelFactor c) <= a t + 1 -> progress t t2 2
  | progress_final : inv c x t2 -> busy t2 -> in_final t2 = true -> a t2 = a t + 1 -> phase t = 4 ->
      end_ c <= offset t + (if a t <? 1 then chunkCount c else 0) -> measure t2 < measure t -> progress t t2 1
  | progress_more : inv c x t2 -> busy t2 -> in_final t2 = false -> in_final t = false -> measure t2 < measure t ->
      progress t t2 0.

Lemma todo_not4 t : phase t <> 4 -> todo t = Z.max 0 (end_ c - offset t).
Proof. intros. unfold todo. destruct (Z.eqb_spec (phase t) 4); [done|]. simpl. lia. Qed.

(** A round ends in one of the phases 0 to 3. *)
Lemma advance_round t t1 as' sc ph :
  inv c x t -> busy t -> kept c t t1 -> phase t <> 4 -> next_round as' sc ph ->
  rounds (resetA c (offset t1) (nelem t1) as' sc ph) < rounds t ->
  progress t (resetA c (offset t1) (nelem t1) as' sc ph) 0.
Proof.
  intros Hinv Hb Hk Hp Hnr Hlt. destruct (nelem_nonneg t Hinv (or_introl Hp)) as (_ & Ho & Hn).
  assert (offset t1 = offset t) as Eo.
  { rewrite (kp_offset _ _ _ Hk). destruct (Z.eqb_spec (phase t) 4); [done|]. simpl. lia. }
  rewrite (kp_nelem _ _ _ Hk), Hn, Eo in *. destruct (resetA_ok (offset t) as' sc ph Ho Hnr) as (Hi2 & Hb2 & Ha2 & Hf2).
  apply progress_more; [done|done|done| |].
  - unfold in_final. destruct (Z.eqb_spec (phase t) 4); [done|]. done.
  - pose proof (inv_a _ _ _ Hinv). pose proof (lastA_range _ (inv_phase _ _ _ Hinv)). unfold busy in Hb.
    pose proof (cw_parallel _ _ _ Hc). pose proof (cw_postFreq _ _ _ Hc).
    apply measure_rounds; [apply (inv_phase _ _ _ Hi2)|lia|done| |done].
    rewrite (todo_not4 t Hp). unfold todo. simpl. rewrite andb_false_r. lia.
Qed.

Lemma rounds_at t p : phase t = p -> rounds t =
  if p =? 0 then 2 * x + 4 + 2 * as_ t else if p =? 1 then 2 * x + 3 + 2 * as_ t
  else if p =? 2 then 2 * (x - Z.log2 (scale t)) + 2 else if p =? 3 then 2 * (x - Z.log2 (scale t)) + 1 else 0.
Proof. by intros <-. Qed.

Lemma rounds_resetA off n as' sc ph : rounds (resetA c off n as' sc ph) =
  if ph =? 0 then 2 * x + 4 + 2 * as' else if ph =? 1 then 2 * x + 3 + 2 * as'
  else if ph =? 2 then 2 * (x - Z.log2 sc) + 2 else if ph =? 3 then 2 * (x - Z.log2 sc) + 1 else 0.
Proof. done. Qed.

Lemma advance_switch t t1 :
  inv c x t -> busy t -> kept c t t1 -> phase t <> 4 ->
  lastA t1 <= a t1 + 1 -> parallelFactor c <= a t1 + 1 ->
  progress t (fst (advance c t1)) (snd (advance c t1)).
Proof.
  intros Hinv Hb Hk Hp Hl Hpf. destruct (cw_k _ _ _ Hc), (cw_x _ _ _ Hc).
  unfold advance. rewrite !Z.geb_leb. destruct (Z.leb_spec (lastA t1) (a t1 + 1)); [|lia].
  destruct (Z.leb_spec (parallelFactor c) (a t1 + 1)); [|lia]. cbn [andb]. cbv zeta.
  rewrite (kp_phase _ _ _ Hk), (kp_as _ _ _ Hk), (kp_scale _ _ _ Hk).
  pose proof (inv_phase _ _ _ Hinv) as [(E & Es & _ & Hodd & Has)|[(E & Es & _ & Has)|[(E & i & Hi & Es & _)|[E _]]]]; [..|done].
  - rewrite E. simpl. destruct (Z.eqb_spec (as_ t) 1) as [E1|E1].
    + pose proof (cw_aggFactor _ _ _ Hc) as EF. rewrite Z.gtb_ltb. destruct (Z.ltb_spec 1 (aggFactor c)).
      * apply advance_round; [done..| |].
        -- right. right. left. split; [by left|]. exists 0. split; [|done]. destruct (Z.eq_dec x 0) as [->|]; [simpl in EF; lia|lia].
        -- rewrite rounds_resetA, (rounds_at t _ E), Es. simpl. lia.
      * apply advance_round; [done..| |]; [by right; right; right|]. rewrite rounds_resetA, (rounds_at t _ E). simpl. lia.
    + apply advance_round; [done..| |]; [|rewrite rounds_resetA, (rounds_at t _ E); simpl; lia].
      right. left. split; [done|]. split; [done|]. lia.
  - rewrite E. simpl. apply Z.eqb_eq in E as E'. rewrite rem_mod_nonneg by lia.
    destruct (Z.eqb_spec ((as_ t - 1) mod 2) 1) as [Em|Em].
    + apply advance_round; [done..| |]; [|rewrite rounds_resetA, (rounds_at t _ E); simpl; lia].
      left. split; [done|]. split; [done|]. split; [|lia]. rewrite Zmod_odd in Em. by destruct (Z.odd (as_ t - 1)).
    + apply advance_round; [done..| |]; [|rewrite rounds_resetA, (rounds_at t _ E); simpl; lia].
      right. left. split; [done|]. split; [done|]. destruct (Z.eq_dec (as_ t) 2) as [E2|]; [|lia]. rewrite E2 in Em. done.
  - destruct E as [E|E]; rewrite E; simpl.
    + apply advance_round; [done..| |].
      * right. right. left. split; [by right|]. by exists i.
      * rewrite rounds_resetA, (rounds_at t _ E). simpl. lia.
    + pose proof (pow2_pos i ltac:(lia)).
      assert (scale t * 2 = 2 ^ (i + 1)) as E2 by (rewrite Es, Z.pow_add_r by lia; done). rewrite E2.
      rewrite (cw_aggFactor _ _ _ Hc). destruct (Z.ltb_spec (2 ^ (i + 1)) (2 ^ x)) as [Hlt|].
      * apply Z.pow_lt_mono_r_iff in Hlt; [|lia..]. apply advance_round; [done..| |].
        -- right. right. left. split; [by left|]. exists (i + 1). split; [lia|done].
        -- rewrite rounds_resetA, (rounds_at t _ E), Es, !Z.log2_pow2 by lia. simpl. lia.
      * apply advance_round; [done..| |]; [by right; right; right|].
        rewrite rounds_resetA, (rounds_at t _ E), Es, !Z.log2_pow2 by lia. simpl. lia.
Qed.

Lemma busy_lt t : phase_ok c x t -> busy t -> a t < aggFactor c.
Proof.
  intros Hp Hb. pose proof (lastA_range t Hp). unfold busy in Hb.
  pose proof (cw_parallel _ _ _ Hc). pose proof (cw_postFreq _ _ _ Hc). lia.
Qed.

Lemma max_rounds_nonneg : 0 <= max_rounds.
Proof.
  destruct (cw_k _ _ _ Hc), (cw_x _ _ _ Hc). unfold max_rounds. pose proof (pow2_pos (k - x) ltac:(lia)).
  rewrite (cw_aggDelta _ _ _ Hc). lia.
Qed.

(** The round goes on: only [a] moves. *)
Lemma advance_stay t t1 t2 l :
  inv c x t -> kept c t t1 -> advance c t1 = (t2, l) -> a t1 + 1 < lastA t1 \/ a t1 + 1 < parallelFactor c ->
  progress t t2 l.
Proof.
  intros Hinv Hk Hadv Hlt. unfold advance in Hadv. rewrite !Z.geb_leb in Hadv.
  destruct ((lastA t1 <=? a t1 + 1) && (parallelFactor c <=? a t1 + 1)) eqn:E.
  { apply andb_true_iff in E as [E1 E2]. apply Z.leb_le in E1. apply Z.leb_le in E2. lia. }
  injection Hadv as <- <-. destruct Hk as [E1 E2 E3 E4 E5 E6 Hsk Eo]. rewrite E4, E2 in Hlt.
  destruct (inv_chunk _ _ _ Hinv) as [Ho Hch]. pose proof (cw_chunk _ _ _ Hc) as Hcc.
  pose proof (inv_a _ _ _ Hinv) as Ha.
  set (t2 := MkSt _ _ _ _ _ _ _ _ _).
  assert (phase_ok c x t2) as Hp2. { unfold phase_ok, t2. cbn. rewrite E6, E5, E2, E3. apply (inv_phase _ _ _ Hinv). }
  assert (offset t <= offset t1) as Hmono by (rewrite Eo; destruct (_ && _); lia).
  assert (inv c x t2) as Hi2.
  { split; [done|cbn; lia|]. cbn. split; [lia|]. rewrite E6, E4.
    destruct Hch as [[H4 H1]|[Hlo Hn]]; [left; split; [done|lia]|].
    destruct (Z.eq_dec (phase t) 4) as [H4|H4]; [left; split; [done|lia]|right].
    rewrite Eo. destruct (Z.eqb_spec (phase t) 4); [done|]. simpl. rewrite Z.add_0_r, E1. done. }
  assert (busy t2) as Hb2 by (unfold busy, t2; cbn; lia).
  assert (rounds t2 = rounds t) as Hr by (unfold rounds, t2; cbn; by rewrite E6, E3, E5).
  assert (0 < aggFactor c) by (pose proof (cw_postFreq _ _ _ Hc); lia).
  assert (todo t2 <= todo t) as Htodo.
  { unfold todo, t2. cbn. rewrite E6, Eo. destruct (Z.eqb_spec (phase t) 4) as [H4|H4]; simpl; [|lia].
    assert (lastA t = 1) as Hl by (destruct (inv_phase _ _ _ Hinv) as [[? _]|[[? _]|[[? _]|[_ ?]]]]; [lia..|done]).
    destruct (Z.leb_spec 1 (a t1 + 1)); [|lia].
    destruct (Z.ltb_spec (a t) (lastA t)), (Z.leb_spec 1 (a t)); lia. }
  assert (measure t2 < measure t) as Hmeas by (apply measure_same; [cbn; lia|done|apply max_rounds_nonneg|done|done]).
  destruct (Z.eqb_spec (phase t1) 4) as [H4|H4]; simpl.
  - assert (lastA t = 1) as Hl by (destruct (inv_phase _ _ _ Hinv) as [[? _]|[[? _]|[[? _]|[_ ?]]]]; [lia..|done]).
    assert (offset t1 = offset t + (if a t <? 1 then chunkCount c else 0)) as Eo1.
    { rewrite Eo, Hl. rewrite <- E6, H4. done. }
    destruct (Z.leb_spec (end_ c) (offset t1)) as [Hge|Hlt'].
    + apply progress_final; [done|done| |cbn; lia|lia|lia|done].
      unfold in_final, t2. cbn. rewrite H4. cbn. apply andb_true_iff. split; apply Z.leb_le; lia.
    + apply progress_more; [done|done| | |done].
      * unfold in_final, t2. cbn. destruct (Z.leb_spec (end_ c) (offset t1)); [lia|]. apply andb_false_r.
      * unfold in_final. destruct (Z.leb_spec (end_ c) (offset t)); [lia|]. apply andb_false_r.
  - rewrite E6 in H4. apply progress_more; [done|done| | |done].
    + unfold in_final, t2. cbn. rewrite E6. by destruct (Z.eqb_spec (phase t) 4).
    + unfold in_final. by destruct (Z.eqb_spec (phase t) 4).
Qed.

Lemma first_round : next_round (aggDelta c - 1) 1 0.
Proof.
  destruct (cw_k _ _ _ Hc), (cw_x _ _ _ Hc). left. split; [done|]. split; [done|]. rewrite (cw_aggDelta _ _ _ Hc).
  assert (2 ^ (k - x) = 2 * 2 ^ (k - x - 1)) as ->.
  { replace (k - x) with (1 + (k - x - 1)) at 1 by lia. rewrite Z.pow_add_r by lia. done. }
  pose proof (pow2_pos (k - x - 1) ltac:(lia)). split; [|lia].
  replace (2 * 2 ^ (k - x - 1) - 1) with (1 + 2 * (2 ^ (k - x - 1) - 1)) by lia. by rewrite Z.odd_add_mul_2.
Qed.

(** The end of the last phase: the next chunk or the end. *)
Lemma advance_output t t1 t2 l :
  inv c x t -> busy t -> kept c t t1 -> advance c t1 = (t2, l) -> phase t = 4 ->
  lastA t1 <= a t1 + 1 -> parallelFactor c <= a t1 + 1 -> progress t t2 l.
Proof.
  intros Hinv Hb Hk Hadv H4 Hl Hpf. unfold advance in Hadv. rewrite !Z.geb_leb in Hadv.
  destruct (Z.leb_spec (lastA t1) (a t1 + 1)); [|lia]. destruct (Z.leb_spec (parallelFactor c) (a t1 + 1)); [|lia].
  cbn [andb] in Hadv. cbv zeta in Hadv. rewrite (kp_phase _ _ _ Hk), H4 in Hadv. simpl in Hadv.
  assert (lastA t = 1) as Hl1 by (destruct (inv_phase _ _ _ Hinv) as [[? _]|[[? _]|[[? _]|[_ ?]]]]; [lia..|done]).
  assert (offset t1 = offset t + (if a t <? 1 then chunkCount c else 0)) as Eo.
  { rewrite (kp_offset _ _ _ Hk), H4, Hl1. done. }
  rewrite (kp_a _ _ _ Hk) in *. pose proof (cw_chunk _ _ _ Hc). pose proof (inv_a _ _ _ Hinv).
  pose proof (busy_lt t (inv_phase _ _ _ Hinv) Hb).
  destruct (Z.leb_spec (end_ c) (offset t1)) as [Hge|Hlt]; injection Hadv as <- <-.
  - apply progress_done; lia.
  - destruct (inv_chunk _ _ _ Hinv) as [Ho Hch]. destruct (cw_k _ _ _ Hc), (cw_x _ _ _ Hc).
    assert (0 <= offset t1) by (destruct (a t <? 1); lia).
    destruct (resetA_ok (offset t1) (aggDelta c - 1) 1 0 ltac:(lia) first_round) as (Hi2 & Hb2 & Ha2 & Hf2).
    apply progress_more; [done|done|done| |].
    + unfold in_final. destruct (Z.leb_spec (end_ c) (offset t)); [|apply andb_false_r]. destruct (a t <? 1); lia.
    + apply measure_todo; [apply (inv_phase _ _ _ Hinv)|apply (inv_phase _ _ _ Hi2)|lia|done|].
      unfold todo. rewrite H4. cbn. rewrite Z.add_0_r, Eo. destruct (Z.ltb_spec (a t) 1), (Z.leb_spec 1 (a t)); lia.
Qed.

(** One call of [getNextOp]. *)
Lemma getNextOp_ok t ps : inv c x t -> busy t ->
  wp (getNextOp c t ps) (fun '(t2, ps') => progress t t2 (last ps') /\
    (Z.testbit (flags ps') 1 = false -> step_safe c k ps')).
Proof.
  intros Hinv Hb. unfold getNextOp. wp_bind. eapply wpx_mono; [apply (step_body_ok t ps Hinv)| |done].
  intros [[t1 ps1] skip] [Hk Hsafe]. cbn [fst snd] in Hk, Hsafe.
  destruct (advance c t1) as [t2 l] eqn:E. cbn [wpx]. split.
  - cbn [last set_last]. destruct (Z.le_gt_cases (lastA t1) (a t1 + 1)); [|eapply advance_stay; eauto].
    destruct (Z.le_gt_cases (parallelFactor c) (a t1 + 1)); [|eapply advance_stay; eauto].
    destruct (Z.eq_dec (phase t) 4); [by eapply advance_output|].
    pose proof (advance_switch t t1 Hinv Hb Hk) as Hs. rewrite E in Hs. by apply Hs.
  - intros Hf. destruct skip; [done|]. destruct (Hsafe eq_refl) as [H1 H2 H3]. by split.
Qed.

(** *** The whole schedule *)

Definition slots_ok (slots : list ncclPatStep) : Prop := Z.of_nat (length slots) = NCCL_SHMEM_PAT_STEPS.

Definition descriptor_ok (ps : ncclPatStep) : Prop := Z.testbit (flags ps) 1 = false -> step_safe c k ps.

(** The steps with [last] set are the final ones, [n] of them. *)
Definition ends_with (n : Z) (l : list ncclPatStep) : Prop :=
  exists l1 l2, l = l1 ++ l2 /\ Forall (fun ps => last ps = 0) l1 /\ Forall (fun ps => last ps <> 0) l2 /\ Z.of_nat (length l2) = n.

Lemma run_spec (n : nat) t slots step : inv c x t -> busy t -> slots_ok slots -> 0 <= step -> measure t < Z.of_nat n ->
  exists l, run n c t slots step = Ret l /\ Forall descriptor_ok l /\
    (if in_final t then Forall (fun ps => last ps <> 0) l /\ Z.of_nat (length l) = Z.max 1 (parallelFactor c) - a t
     else ends_with (Z.max 1 (parallelFactor c)) l).
Proof.
  revert t slots step. induction n as [|n IH]; intros t slots step Hinv Hb Hsl Hst Hm.
  { pose proof (measure_nonneg t (inv_phase _ _ _ Hinv) ltac:(pose proof (inv_a _ _ _ Hinv); lia) Hb). lia. }
  cbn [run]. unfold slots_ok, NCCL_SHMEM_PAT_STEPS in Hsl.
  assert (0 <= step `rem` NCCL_SHMEM_PAT_STEPS < 32) as Hr.
  { unfold NCCL_SHMEM_PAT_STEPS. rewrite rem_mod_nonneg by lia. apply Z.mod_pos_bound. lia. }
  destruct (zget_in_bounds slots (step `rem` NCCL_SHMEM_PAT_STEPS) ltac:(lia)) as (ps & -> & _). cbn [mbind outcome_bind].
  destruct (wp_elim _ _ (getNextOp_ok t ps Hinv Hb)) as ([t2 ps'] & -> & Hprog & Hsafe). cbn [mbind outcome_bind].
  rewrite zset_Ret by lia. cbn [mbind outcome_bind].
  assert (slots_ok (<[Z.to_nat (step `rem` NCCL_SHMEM_PAT_STEPS):=ps']> slots)) as Hsl' by (unfold slots_ok; by rewrite length_insert).
  assert (phase t = 4 -> lastA t = 1) as Hl4.
  { intros. destruct (inv_phase _ _ _ Hinv) as [[? _]|[[? _]|[[? _]|[_ ?]]]]; [lia..|done]. }
  remember (last ps') as la eqn:Ela. destruct Hprog as [H4 He Hpf|Hi2 Hb2 Hf2 Ha2 H4 He Hlt|Hi2 Hb2 Hf2 Hf Hlt].
  - simpl. exists [ps']. split; [done|]. split; [by apply Forall_singleton|].
    assert (last ps' <> 0) by lia. unfold busy in Hb. rewrite (Hl4 H4) in Hb.
    unfold in_final. rewrite H4. cbn [Z.eqb Pos.eqb andb]. pose proof (inv_a _ _ _ Hinv).
    destruct (Z.leb_spec 1 (a t)), (Z.leb_spec (end_ c) (offset t)); cbn [andb].
    + split; [by apply Forall_singleton|]. simpl. lia.
    + destruct (Z.ltb_spec (a t) 1); lia.
    + exists [], [ps']. split; [done|]. split; [done|]. split; [by apply Forall_singleton|]. simpl. lia.
    + exists [], [ps']. split; [done|]. split; [done|]. split; [by apply Forall_singleton|]. simpl. lia.
  - simpl. destruct (IH t2 _ (step + 1) Hi2 Hb2 Hsl' ltac:(lia) ltac:(lia)) as (l & -> & Hfl & Hend). rewrite Hf2 in Hend.
    destruct Hend as [Hall Hlen]. cbn [mbind outcome_bind]. exists (ps' :: l). split; [done|].
    split; [by apply Forall_cons|]. assert (last ps' <> 0) by lia. pose proof (inv_a _ _ _ Hinv).
    assert (Forall (fun ps => last ps <> 0) (ps' :: l)) as Hall' by by apply Forall_cons.
    unfold in_final. rewrite H4. cbn [Z.eqb Pos.eqb andb].
    destruct (Z.leb_spec 1 (a t)), (Z.leb_spec (end_ c) (offset t)); cbn [andb].
    + split; [done|]. cbn [length]. lia.
    + destruct (Z.ltb_spec (a t) 1); lia.
    + exists [], (ps' :: l). split; [done|]. split; [done|]. split; [done|]. cbn [length]. lia.
    + exists [], (ps' :: l). split; [done|]. split; [done|]. split; [done|]. cbn [length]. lia.
  - simpl. destruct (IH t2 _ (step + 1) Hi2 Hb2 Hsl' ltac:(lia) ltac:(lia)) as (l & -> & Hfl & Hend). rewrite Hf2 in Hend.
    cbn [mbind outcome_bind]. exists (ps' :: l). split; [done|]. split; [by apply Forall_cons|].
    rewrite Hf. destruct Hend as (l1 & l2 & -> & H1 & H2 & H3). exists (ps' :: l1), l2.
    split; [done|]. split; [by apply Forall_cons|]. done.
Qed.

Lemma reset_ok off : 0 <= off < end_ c -> inv c x (reset c off) /\ busy (reset c off) /\ in_final (reset c off) = false.
Proof.
  intros Hoff. destruct (resetA_ok off (aggDelta c - 1) 1 0 Hoff) as (? & ? & _ & ?); [|done]. apply first_round.
Qed.

End proofs.

Section schedule.
  Context (eltSize stepSize stepDepth maxPar offset e count chunk r n : Z) (slots : list ncclPatStep).
  Context (Helt : 0 < eltSize) (Hoff : 0 <= offset < e) (Hcount : e <= count) (Hchunk : 0 < chunk)
          (Hr : 0 <= r < n) (Hn : 2 <= n <= 2 ^ 30) (Hslots : Z.of_nat (length slots) = 32).

Lemma PatRS_run : exists c t k x fuel l,
  construct eltSize stepSize stepDepth maxPar offset e count chunk r n = Ret (c, t) /\ cfg_wf c k x /\
  Pat.count c = count /\ nranks c = n /\
  run fuel c t slots 0 = Ret l /\ Forall (descriptor_ok c k) l /\ ends_with (Z.max 1 (parallelFactor c)) l.
Proof.
  destruct (pat_cfg_wf eltSize stepSize stepDepth maxPar offset e count chunk r n) as (c & k & x & Hcfg & Hwf & Ee & Ec & _ & _ & En);
    [done|lia|done|done|done|].
  destruct (reset_ok c k x Hwf offset ltac:(lia)) as (Hi & Hb & Hf).
  destruct (run_spec c k x Hwf ltac:(lia) (S (Z.to_nat (measure c x (reset c offset)))) (reset c offset) slots 0 Hi Hb Hslots)
    as (l & Hl & Hok & Hend); [done|lia|].
  rewrite Hf in Hend. exists c, (reset c offset), k, x, (S (Z.to_nat (measure c x (reset c offset)))), l.
  unfold construct. rewrite Hcfg. done.
Qed.

End schedule.

(** (C31) The PAT reduce-scatter generator terminates and is safe: for any rank of
    any communicator of 2 to 2^30 ranks, whatever the step size, buffer depth and
    parallelism, calling [getNextOp] until [last] is 2 ends after finitely many
    calls without undefined behaviour, and every descriptor that is not marked
    skipped has its dimensions within the rank's bits, its buffer offsets inside
    the [postFreq] blocks of a step and its user data inside the [n] blocks of
    [count] elements. *)
Theorem PatRS_schedule_safe eltSize stepSize stepDepth maxPar offset e count chunk r n slots :
  0 < eltSize -> 0 <= offset < e -> e <= count -> 0 < chunk -> 0 <= r < n -> 2 <= n <= 2 ^ 30 ->
  Z.of_nat (length slots) = 32 ->
  exists c t k x fuel l,
    construct eltSize stepSize stepDepth maxPar offset e count chunk r n = Ret (c, t) /\ cfg_wf c k x /\
    Pat.count c = count /\ nranks c = n /\ run fuel c t slots 0 = Ret l /\
    Forall (fun ps => Z.testbit (flags ps) 1 = false -> step_safe c k ps) l.
Proof.
  intros. destruct (PatRS_run eltSize stepSize stepDepth maxPar offset e count chunk r n slots)
    as (c & t & k & x & fuel & l & ? & ? & ? & ? & ? & ? & _); [done..|].
  exists c, t, k, x, fuel, l. done.
Qed.

(** (C32) Every worker group of the PAT reduce-scatter kernel stops: group [g] runs
    the steps [g], [g + parallelFactor], ... until it sees [last] set, and the
    steps with [last] set are exactly the final [parallelFactor] ones, so that each
    group meets one of them. *)
Theorem PatRS_workers_stop eltSize stepSize stepDepth maxPar offset e count chunk r n slots :
  0 < eltSize -> 0 <= offset < e -> e <= count -> 0 < chunk -> 0 <= r < n -> 2 <= n <= 2 ^ 30 ->
  0 < maxPar -> Z.of_nat (length slots) = 32 ->
  exists c t fuel l,
    construct eltSize stepSize stepDepth maxPar offset e count chunk r n = Ret (c, t) /\
    run fuel c t slots 0 = Ret l /\ 1 <= parallelFactor c <= Z.of_nat (length l) /\
    forall i ps, l !! i = Some ps -> (last ps <> 0 <-> Z.of_nat (length l) - parallelFactor c <= Z.of_nat i).
Proof.
  intros Helt Hoff Hcnt Hch Hr Hn Hmax Hsl.
  destruct (PatRS_run eltSize stepSize stepDepth maxPar offset e count chunk r n slots)
    as (c & t & k & x & fuel & l & Hcon & Hwf & _ & _ & Hrun & _ & (l1 & l2 & -> & H1 & H2 & H3)); [done..|].
  assert (1 <= parallelFactor c) as Hpf.
  { revert Hcon. unfold construct, pat_cfg.
    destruct (shl1 _) as [np| |]; cbn [mbind outcome_bind]; [|done..].
    destruct (agg_loop _ _ _ _ _ _) as [[f d]| |] eqn:Ea; cbn [mbind outcome_bind]; [|done..].
    destruct (depth_loop _ _ _ _ _) as [[f' d']| |]; cbn [mbind outcome_bind]; [|done..]. intros [= <- _].
    pose proof (cw_postFreq _ _ _ Hwf) as Hp. cbn in Hp |- *. destruct (Z.ltb_spec f maxPar); lia. }
  exists c, t, fuel, (l1 ++ l2). split; [done|]. split; [done|]. rewrite length_app. split; [lia|].
  intros i ps Hi. rewrite lookup_app in Hi. destruct (l1 !! i) as [ps1|] eqn:E1.
  - injection Hi as ->. rewrite Forall_lookup in H1. specialize (H1 _ _ E1). apply lookup_lt_Some in E1. split; [done|lia].
  - rewrite Forall_lookup in H2. specialize (H2 _ _ Hi). apply lookup_ge_None in E1. split; [lia|done].
Qed.

Definition example_slots : list ncclPatStep := replicate 32 (MkStep 0 0 0 0 0 0 0 0 0 0 0 0).

Lemma PatRS_schedule_safe_witness :
  exists c t k x fuel l,
    construct 4 4096 8 16 0 1000 1000 256 3 6 = Ret (c, t) /\ cfg_wf c k x /\
    Pat.count c = 1000 /\ nranks c = 6 /\ run fuel c t example_slots 0 = Ret l /\
    Forall (fun ps => Z.testbit (flags ps) 1 = false -> step_safe c k ps) l.
Proof. apply (PatRS_schedule_safe 4 4096 8 16 0 1000 1000 256 3 6 example_slots); lia || done. Defined.

Lemma PatRS_workers_stop_witness :
  exists c t fuel l,
    construct 4 4096 8 16 0 1000 1000 256 3 6 = Ret (c, t) /\
    run fuel c t example_slots 0 = Ret l /\ 1 <= parallelFactor c <= Z.of_nat (length l) /\
    forall i ps, l !! i = Some ps -> (last ps <> 0 <-> Z.of_nat (length l) - parallelFactor c <= Z.of_nat i).
Proof. apply (PatRS_workers_stop 4 4096 8 16 0 1000 1000 256 3 6 example_slots); lia || done. Defined.

End PatRSProofs.
