(* ===== verification/Utils.v ===== *)
(** * String helpers (src/src/misc/utils.cc)

    Bus identifiers, lists of network interfaces and their matching.  A C string
    is the list of its bytes without the terminating null; [char_at] reads it
    with the null behind. *)
From S2P Require Import Prelude Bitops.

(** ** Bytes and the C library *)

Definition chr_0 : Z := 48.
Definition chr_comma : Z := 44.
Definition chr_colon : Z := 58.
Definition chr_dot : Z := 46.
Definition chr_minus : Z := 45.
Definition chr_plus : Z := 43.

Definition hex_char (d : Z) : Z := if d <? 10 then 48 + d else 97 + (d - 10).

(** The digits of [%lx] for a value below [16^n]. *)
Fixpoint hex_digits (n : nat) (z : Z) : list Z :=
  match n with
  | O => []
  | S n => if z <? 16 then [hex_char z] else hex_digits n (z / 16) ++ [hex_char (z mod 16)]
  end.

(** [%0<w>lx] of a 64-bit value. *)
Definition fmt_0lx (w : nat) (z : Z) : list Z :=
  let d := hex_digits 16 (u64 z) in replicate (w - length d) chr_0 ++ d.

Definition hex_value (c : Z) : option Z :=
  if (48 <=? c) && (c <=? 57) then Some (c - 48)
  else if (65 <=? c) && (c <=? 70) then Some (c - 55)
  else if (97 <=? c) && (c <=? 102) then Some (c - 87)
  else None.

(** [strtol(s, NULL, 16)] on a string of hexadecimal digits, saturating. *)
Definition hex_number (s : list Z) : Z :=
  fold_left (fun acc c => acc * 16 + match hex_value c with Some v => v | None => 0 end) s 0.
Definition strtol16 (s : list Z) : Z := Z.min (hex_number s) (2 ^ 63 - 1).

(** [strncmp(a, b, n) == 0] *)
Fixpoint strncmp_eq (a b : list Z) (n : nat) : bool :=
  match n with
  | O => true
  | S n =>
      let ca := hd 0 a in
      if ca =? hd 0 b then (if ca =? 0 then true else strncmp_eq (tl a) (tl b) n) else false
  end.

Definition is_digit (c : Z) : bool := (48 <=? c) && (c <=? 57).
Fixpoint digits_value (acc : Z) (s : list Z) : Z :=
  match s with [] => acc | c :: s => if is_digit c then digits_value (acc * 10 + (c - 48)) s else acc end.
Definition is_space (c : Z) : bool := (c =? 32) || ((9 <=? c) && (c <=? 13)).
Fixpoint skip_spaces (s : list Z) : list Z := match s with [] => [] | c :: s' => if is_space c then skip_spaces s' else s end.

(** [atoi]: optional white space and sign, then digits; a value out of range is
    undefined. *)
Definition atoi (s : list Z) : outcome Z :=
  let s := skip_spaces s in
  let v := if hd 0 s =? chr_minus then - digits_value 0 (tl s)
           else if hd 0 s =? chr_plus then digits_value 0 (tl s) else digits_value 0 s in
  arith int32 v.

(** ** Bus identifiers *)

Definition int64ToBusId (id : Z) : list Z :=
  fmt_0lx 4 (Z.shiftr id 20) ++ [chr_colon] ++ fmt_0lx 2 (Z.shiftr (Z.land id 0xff000) 12) ++ [chr_colon] ++
  fmt_0lx 2 (Z.shiftr (Z.land id 0xff0) 4) ++ [chr_dot] ++ fmt_0lx 1 (Z.land id 0xf).

(** The hexadecimal digits collected, at most 16. *)
Fixpoint collect_hex (room : nat) (busId : list Z) : list Z :=
  match room, busId with
  | O, _ | _, [] => []
  | S r, c :: busId =>
      if (c =? chr_dot) || (c =? chr_colon) then collect_hex room busId
      else match hex_value c with Some _ => c :: collect_hex r busId | None => [] end
  end.

Definition busIdToInt64 (busId : list Z) : Z := strtol16 (collect_hex 16 busId).

(** ** Lists of interfaces *)

Record netIf := MkNetIf { prefix : list Z; port : Z }.

Definition new_netIf : netIf := MkNetIf (replicate 64 0) 0.

(** The variables of [parseStringList]. *)
Record parse_state := MkParse { ifList : list netIf; ifNum : Z; ifC : Z }.

Definition put_char (st : parse_state) (c : Z) : outcome (list netIf) :=
  nf ← zget (ifList st) (ifNum st);
  p ← zset (prefix nf) (ifC st) c;
  zset (ifList st) (ifNum st) (MkNetIf p (port nf)).

Definition put_port (l : list netIf) (n p : Z) : outcome (list netIf) :=
  nf ← zget l n; zset l n (MkNetIf (prefix nf) p).

(** The end of an entry: terminate the name, store the port, start the next. *)
Definition end_entry (st : parse_state) (prt : outcome Z) : outcome parse_state :=
  if 0 <? ifC st then
    l ← put_char st 0;
    p ← prt;
    l ← put_port l (ifNum st) p;
    Ret (MkParse l (ifNum st + 1) 0)
  else Ret st.

(** [while (c != ',' && c != '\0') c = *(++ptr);] *)
Fixpoint skip_to_comma (s : list Z) : list Z :=
  match s with [] => [] | c :: s' => if c =? chr_comma then s else skip_to_comma s' end.

Fixpoint parse_loop (fuel : nat) (maxList : Z) (ptr : list Z) (st : parse_state) : outcome parse_state :=
  match fuel with
  | O => Stuck
  | S fuel =>
      let c := hd 0 ptr in
      '(st, ptr) ←
        (if c =? chr_colon then st ← end_entry st (atoi (tl ptr)); Ret (st, skip_to_comma ptr)
         else if (c =? chr_comma) || (c =? 0) then st ← end_entry st (Ret (-1)); Ret (st, ptr)
         else l ← put_char st c; Ret (MkParse l (ifNum st) (ifC st + 1), ptr));
      if (ifNum st <? maxList) && negb (hd 0 ptr =? 0) then parse_loop fuel maxList (tl ptr) st else Ret st
  end.

Definition parseStringList (string : option (list Z)) (l : list netIf) (maxList : Z) : outcome (list netIf * Z) :=
  match string with
  | None => Ret (l, 0)
  | Some s => st ← parse_loop (S (length s)) maxList s (MkParse l 0 0); Ret (ifList st, ifNum st)
  end.

Definition matchIf (string ref : list Z) (matchExact : bool) : bool :=
  strncmp_eq string ref (if matchExact then length string + 1 else length ref)%nat.

Definition matchPort (port1 port2 : Z) : bool :=
  if port1 =? -1 then true else if port2 =? -1 then true else if port1 =? port2 then true else false.

(** The C string in a buffer. *)
Fixpoint c_str (buf : list Z) : list Z := match buf with [] => [] | c :: buf => if c =? 0 then [] else c :: c_str buf end.

Fixpoint match_loop (string : list Z) (prt : Z) (l : list netIf) (matchExact : bool) : bool :=
  match l with
  | [] => false
  | nf :: l => if matchIf string (c_str (prefix nf)) matchExact && matchPort prt (port nf) then true
               else match_loop string prt l matchExact
  end.

Definition matchIfList (string : list Z) (prt : Z) (l : list netIf) (listSize : nat) (matchExact : bool) : bool :=
  if (listSize =? 0)%nat then true else match_loop string prt (take listSize l) matchExact.

(** ** Round trip of bus identifiers *)

Lemma hex_value_char d : 0 <= d < 16 -> hex_value (hex_char d) = Some d.
Proof. revert d. enum ltac:(reflexivity). Qed.

Lemma hex_char_plain d : 0 <= d < 16 -> (hex_char d =? chr_dot) || (hex_char d =? chr_colon) = false.
Proof. revert d. enum ltac:(reflexivity). Qed.

Definition is_hex (c : Z) : Prop := exists d, 0 <= d < 16 /\ c = hex_char d.

Lemma hex_number_acc s acc : fold_left (fun a c => a * 16 + match hex_value c with Some v => v | None => 0 end) s acc =
  acc * 16 ^ Z.of_nat (length s) + hex_number s.
Proof.
  revert acc. induction s as [|c s IH]; intros acc; [simpl; unfold hex_number; simpl; lia|].
  unfold hex_number. cbn [fold_left length]. rewrite IH, (IH (0 * 16 + _)). rewrite Nat2Z.inj_succ, Z.pow_succ_r by lia. ring.
Qed.

Lemma hex_number_app a b : hex_number (a ++ b) = hex_number a * 16 ^ Z.of_nat (length b) + hex_number b.
Proof. unfold hex_number at 1. rewrite fold_left_app. apply hex_number_acc. Qed.

Lemma hex_digits_spec n z : 0 <= z < 16 ^ Z.of_nat n -> (0 < n)%nat ->
  hex_number (hex_digits n z) = z /\ Forall is_hex (hex_digits n z) /\ (1 <= length (hex_digits n z) <= n)%nat.
Proof.
  revert z. induction n as [|n IH]; intros z Hz Hn; [lia|]. cbn [hex_digits].
  rewrite Nat2Z.inj_succ, Z.pow_succ_r in Hz by lia. destruct (Z.ltb_spec z 16) as [Hlt|Hge].
  - split; [unfold hex_number; simpl; rewrite hex_value_char by lia; lia|]. split; [|simpl; lia]. constructor; [|constructor]. exists z. split; [lia|done].
  - destruct n as [|n]; [change (16 ^ Z.of_nat 0) with 1 in Hz; lia|].
    destruct (IH (z / 16)) as (H1 & H2 & H3); [split; [apply Z.div_pos; lia|apply Z.div_lt_upper_bound; lia]|lia|].
    pose proof (Z.mod_pos_bound z 16 ltac:(lia)). rewrite hex_number_app, H1, length_app. split_and!.
    + cbn [length]. change (16 ^ Z.of_nat 1) with 16. unfold hex_number. simpl. rewrite hex_value_char by lia. dlia.
    + apply Forall_app. split; [done|]. constructor; [|constructor]. by exists (z mod 16).
    + cbn [length]. lia.
    + cbn [length]. lia.
Qed.

Lemma hex_digits_length n m z : 0 <= z < 16 ^ Z.of_nat m -> (0 < m <= n)%nat -> (length (hex_digits n z) <= m)%nat.
Proof.
  revert m z. induction n as [|n IH]; intros m z Hz Hn; [lia|]. cbn [hex_digits]. destruct (Z.ltb_spec z 16); [simpl; lia|].
  destruct m as [|[|m]]; [lia|change (16 ^ Z.of_nat 1) with 16 in Hz; lia|]. rewrite length_app. simpl.
  assert (length (hex_digits n (z / 16)) <= S m)%nat; [|lia]. apply IH; [|lia].
  rewrite Nat2Z.inj_succ, Z.pow_succ_r in Hz by lia. split; [apply Z.div_pos; lia|apply Z.div_lt_upper_bound; lia].
Qed.

Lemma fmt_0lx_spec w m z : 0 <= z < 16 ^ Z.of_nat m -> (0 < m <= 16)%nat -> (w <= m)%nat ->
  hex_number (fmt_0lx w z) = z /\ Forall is_hex (fmt_0lx w z) /\ (w <= length (fmt_0lx w z) <= m)%nat.
Proof.
  intros Hz Hm Hw. unfold fmt_0lx. assert (0 <= z < 2 ^ 64) as Hz64.
  { split; [lia|]. change (2 ^ 64) with (16 ^ Z.of_nat 16). pose proof (Z.pow_le_mono_r 16 (Z.of_nat m) (Z.of_nat 16) ltac:(lia) ltac:(lia)). lia. }
  unfold u64. rewrite Z.mod_small by done. destruct (hex_digits_spec 16 z) as (H1 & H2 & H3); [exact Hz64|lia|].
  pose proof (hex_digits_length 16 m z Hz ltac:(lia)) as H4. set (d := hex_digits 16 z) in *. rewrite length_app, length_replicate.
  split; [|split; [|lia]].
  - rewrite hex_number_app, H1. assert (forall k, hex_number (replicate k chr_0) = 0) as ->; [|lia].
    induction k as [|k IH]; [done|]. unfold hex_number in *. simpl. exact IH.
  - apply Forall_app. split; [|done]. apply Forall_replicate. exists 0. split; [lia|done].
Qed.

Lemma collect_hex_app d room rest : Forall is_hex d -> (length d <= room)%nat ->
  collect_hex room (d ++ rest) = d ++ collect_hex (room - length d) rest.
Proof.
  revert room. induction d as [|c d IH]; intros room Hd Hl; [by rewrite Nat.sub_0_r|]. apply Forall_cons in Hd as [(x & Hx & ->) Hd].
  destruct room as [|r]; [simpl in Hl; lia|]. cbn [app collect_hex]. rewrite hex_char_plain, hex_value_char by done. f_equal.
  apply IH; [done|]. simpl in Hl. lia.
Qed.

Lemma collect_hex_sep c room rest : (c =? chr_dot) || (c =? chr_colon) = true -> collect_hex room (c :: rest) = collect_hex room rest.
Proof. intros H. destruct room as [|r]; [by destruct rest|]. cbn [collect_hex]. by rewrite H. Qed.

(** Printing a bus identifier and reading it back gives the identifier, for
    every non-negative 64-bit identifier (up to the widest PCI domain). *)
Theorem busId_roundtrip id : 0 <= id < 2 ^ 63 -> busIdToInt64 (int64ToBusId id) = id.
Proof.
  intros Hid. unfold busIdToInt64, int64ToBusId.
  assert (forall k, Z.land (Z.shiftr id k) 255 = Z.shiftr id k mod 256) as H255 by (intros k; apply (Z.land_ones _ 8); lia).
  assert (Z.shiftr (Z.land id 0xff000) 12 = Z.shiftr id 12 mod 256) as -> by (rewrite Z.shiftr_land; apply H255).
  assert (Z.shiftr (Z.land id 0xff0) 4 = Z.shiftr id 4 mod 256) as -> by (rewrite Z.shiftr_land; apply H255).
  assert (Z.land id 0xf = id mod 16) as -> by (apply (Z.land_ones _ 4); lia). rewrite !Z.shiftr_div_pow2 by lia.
  destruct (fmt_0lx_spec 4 11 (id / 2 ^ 20)) as (A1 & A2 & A3); [split; [apply Z.div_pos; lia|apply Z.div_lt_upper_bound; lia]|lia|lia|].
  destruct (fmt_0lx_spec 2 2 (id / 2 ^ 12 mod 256)) as (B1 & B2 & B3); [apply Z.mod_pos_bound; lia|lia|lia|].
  destruct (fmt_0lx_spec 2 2 (id / 2 ^ 4 mod 256)) as (C1 & C2 & C3); [apply Z.mod_pos_bound; lia|lia|lia|].
  destruct (fmt_0lx_spec 1 1 (id mod 16)) as (D1 & D2 & D3); [apply Z.mod_pos_bound; lia|lia|lia|].
  rewrite collect_hex_app by (done || lia). cbn [app]. rewrite collect_hex_sep by done. rewrite collect_hex_app by (done || lia). cbn [app].
  rewrite collect_hex_sep by done. rewrite collect_hex_app by (done || lia). cbn [app]. rewrite collect_hex_sep by done.
  rewrite <- (app_nil_r (fmt_0lx 1 _)), collect_hex_app by (done || lia). unfold strtol16.
  assert (forall r, collect_hex r [] = []) as -> by (by intros []). rewrite !hex_number_app, A1, B1, C1, D1. rewrite !length_app. cbn [length].
  replace (length (fmt_0lx 2 (id / 2 ^ 12 mod 256))) with 2%nat by lia. replace (length (fmt_0lx 2 (id / 2 ^ 4 mod 256))) with 2%nat by lia.
  replace (length (fmt_0lx 1 (id mod 16))) with 1%nat by lia. change (hex_number []) with 0.
  change (16 ^ Z.of_nat (2 + (2 + (1 + 0)))) with (2 ^ 20). change (16 ^ Z.of_nat (2 + (1 + 0))) with (2 ^ 12).
  change (16 ^ Z.of_nat (1 + 0)) with (2 ^ 4). change (16 ^ Z.of_nat 0) with 1.
  rewrite Z.min_l; dlia.
Qed.

Lemma busId_roundtrip_witness : busIdToInt64 (int64ToBusId 0x1000a3b0c5) = 0x1000a3b0c5.
Proof. apply (busId_roundtrip 0x1000a3b0c5). lia. Defined.

(** ** Parsing a list of interfaces *)

Lemma zget_mid {A} (a : list A) x b : zget (a ++ x :: b) (Z.of_nat (length a)) = Ret x.
Proof. apply zget_Ret. split; [lia|]. rewrite Nat2Z.id. by apply list_lookup_middle. Qed.

Lemma zset_mid {A} (a : list A) x b y : zset (a ++ x :: b) (Z.of_nat (length a)) y = Ret (a ++ y :: b).
Proof.
  rewrite zset_Ret by (rewrite length_app; simpl; lia). f_equal. rewrite Nat2Z.id.
  rewrite insert_app_r_alt, Nat.sub_diag by lia. done.
Qed.

(** A character of an interface name. *)
Definition name_char (c : Z) : Prop := c <> chr_colon /\ c <> chr_comma /\ c <> 0.

(** An entry of the list: a name and an optional port. *)
Definition entry : Type := list Z * option Z.

Definition entry_ok (e : entry) : Prop :=
  0 < Z.of_nat (length e.1) < 64 /\ Forall name_char e.1 /\ match e.2 with Some p => 0 <= p <= INT_MAX | None => True end.

Fixpoint dec_digits (n : nat) (z : Z) : list Z :=
  match n with
  | O => []
  | S n => if z <? 10 then [48 + z] else dec_digits n (z / 10) ++ [48 + z mod 10]
  end.

Definition show_port (p : option Z) : list Z := match p with Some p => chr_colon :: dec_digits 10 p | None => [] end.
Definition show_entry (e : entry) : list Z := e.1 ++ show_port e.2.

(** The list the way NCCL_SOCKET_IFNAME and NCCL_IB_HCA write it. *)
Fixpoint show_entries (es : list entry) : list Z :=
  match es with [] => [] | [e] => show_entry e | e :: es => show_entry e ++ chr_comma :: show_entries es end.

Definition holds_entry (nf : netIf) (e : entry) : Prop := c_str (prefix nf) = e.1 /\ port nf = default (-1) e.2.

Lemma digits_value_app a b acc : Forall (fun c => is_digit c = true) a -> digits_value acc (a ++ b) = digits_value (digits_value acc a) b.
Proof. intros Ha. revert acc. induction Ha as [|c a Hc _ IH]; intros acc; [done|]. cbn [app digits_value]. rewrite Hc. apply IH. Qed.

Lemma digits_value_end a b : Forall (fun c => is_digit c = true) a -> is_digit (hd 0 b) = false -> digits_value 0 (a ++ b) = digits_value 0 a.
Proof. intros Ha Hb. rewrite digits_value_app by done. destruct b as [|c b]; [done|]. simpl in *. by rewrite Hb. Qed.

Lemma digit_char d : 0 <= d < 10 -> is_digit (48 + d) = true.
Proof. intros. unfold is_digit. zcases; lia. Qed.

Lemma dec_digits_spec n z : 0 <= z < 10 ^ Z.of_nat n -> (0 < n)%nat ->
  digits_value 0 (dec_digits n z) = z /\ Forall (fun c => is_digit c = true) (dec_digits n z) /\ dec_digits n z <> [].
Proof.
  revert z. induction n as [|n IH]; intros z Hz Hn; [lia|]. cbn [dec_digits].
  rewrite Nat2Z.inj_succ, Z.pow_succ_r in Hz by lia. destruct (Z.ltb_spec z 10) as [Hlt|Hge].
  - cbn [digits_value]. rewrite digit_char by lia. split; [lia|]. split; [|done]. constructor; [|done]. apply digit_char; lia.
  - destruct n as [|n]; [change (10 ^ Z.of_nat 0) with 1 in Hz; lia|].
    destruct (IH (z / 10)) as (H1 & H2 & H3); [split; [apply Z.div_pos; lia|apply Z.div_lt_upper_bound; lia]|lia|].
    pose proof (Z.mod_pos_bound z 10 ltac:(lia)). rewrite digits_value_app, H1 by done. cbn [digits_value].
    rewrite digit_char by done. split; [dlia|]. split; [|by intros [_ ?]%app_nil].
    apply Forall_app. split; [done|]. constructor; [by apply digit_char|done].
Qed.

Lemma atoi_port p rest : 0 <= p <= INT_MAX -> is_digit (hd 0 rest) = false -> atoi (dec_digits 10 p ++ rest) = Ret p.
Proof.
  intros Hp Hr. assert (0 <= p < 10 ^ Z.of_nat 10) as H10 by (change (10 ^ Z.of_nat 10) with 10000000000; unfold INT_MAX in Hp; lia).
  destruct (dec_digits_spec 10 p H10 ltac:(lia)) as (H1 & H2 & H3). pose proof (digits_value_end _ rest H2 Hr) as He. rewrite H1 in He.
  destruct (dec_digits 10 p) as [|c d]; [done|]. apply Forall_cons in H2 as [Hc _]. unfold atoi, is_digit in *. cbn [app skip_spaces hd].
  replace (is_space c) with false by (symmetry; unfold is_space; zcases; lia). cbn [hd].
  replace (c =? chr_minus) with false by (unfold chr_minus; zcases; lia). replace (c =? chr_plus) with false by (unfold chr_plus; zcases; lia).
  cbn [app] in He. rewrite He. apply arith_in_range. unfold in_range, INT_MAX in *. simpl. lia.
Qed.

Lemma skip_to_comma_app d rest : Forall (fun c => is_digit c = true) d -> hd 0 rest = chr_comma \/ rest = [] ->
  skip_to_comma (chr_colon :: d ++ rest) = rest.
Proof.
  intros Hd Hr. cbn [skip_to_comma]. change (chr_colon =? chr_comma) with false. cbn iota.
  induction Hd as [|c d Hc _ IH].
  - cbn [app]. destruct Hr as [Hr| ->]; [|done]. destruct rest as [|c r]; [done|]. simpl in *. subst. done.
  - cbn [app skip_to_comma]. unfold is_digit in Hc. replace (c =? chr_comma) with false by (unfold chr_comma; zcases; lia). exact IH.
Qed.

Lemma step_char fuel maxList c rest dn nf pre x tl later : name_char c -> Z.of_nat (length dn) < maxList -> prefix nf = pre ++ x :: tl ->
  parse_loop (S fuel) maxList (c :: rest) (MkParse (dn ++ nf :: later) (Z.of_nat (length dn)) (Z.of_nat (length pre))) =
  parse_loop fuel maxList rest (MkParse (dn ++ MkNetIf (pre ++ c :: tl) (port nf) :: later) (Z.of_nat (length dn)) (Z.of_nat (length (pre ++ [c])))).
Proof.
  intros (H1 & H2 & H3) Hn Hp. cbn [parse_loop hd]. rewrite (proj2 (Z.eqb_neq _ _) H1), (proj2 (Z.eqb_neq _ _) H2), (proj2 (Z.eqb_neq _ _) H3).
  unfold put_char. cbn [orb ifList ifNum ifC]. rewrite zget_mid. cbn [mbind outcome_bind]. rewrite Hp, zset_mid. cbn [mbind outcome_bind].
  rewrite zset_mid. cbn [mbind outcome_bind ifNum hd]. rewrite (proj2 (Z.eqb_neq _ _) H3). rewrite (proj2 (Z.ltb_lt _ _) Hn). cbn [andb negb List.tl].
  rewrite length_app. cbn [length]. do 2 f_equal. lia.
Qed.

Lemma parse_name fuel maxList name rest dn pre old prt later : Forall name_char name -> Z.of_nat (length dn) < maxList -> (length name <= length old)%nat ->
  parse_loop (length name + fuel) maxList (name ++ rest) (MkParse (dn ++ MkNetIf (pre ++ old) prt :: later) (Z.of_nat (length dn)) (Z.of_nat (length pre))) =
  parse_loop fuel maxList rest
    (MkParse (dn ++ MkNetIf ((pre ++ name) ++ drop (length name) old) prt :: later) (Z.of_nat (length dn)) (Z.of_nat (length (pre ++ name)))).
Proof.
  intros Hname Hn. revert pre old. induction Hname as [|c name Hc _ IH]; intros pre old Ho; [by rewrite app_nil_r|].
  destruct old as [|x old]; [simpl in Ho; lia|]. cbn [length Nat.add app drop]. rewrite (step_char _ _ c _ dn _ pre x old) by done. cbn [port].
  replace (pre ++ c :: old) with ((pre ++ [c]) ++ old) by (by rewrite <- app_assoc). rewrite IH by (simpl in Ho; lia). by rewrite <- !app_assoc.
Qed.

Lemma c_str_name name rest : Forall name_char name -> c_str (name ++ 0 :: rest) = name.
Proof. induction 1 as [|c name (_ & _ & Hc) _ IH]; [done|]. cbn [app c_str]. rewrite (proj2 (Z.eqb_neq _ _) Hc). by f_equal. Qed.

Lemma end_entry_spec dn name x tl prt0 later p : (0 < length name)%nat ->
  end_entry (MkParse (dn ++ MkNetIf (name ++ x :: tl) prt0 :: later) (Z.of_nat (length dn)) (Z.of_nat (length name))) (Ret p) =
  Ret (MkParse ((dn ++ [MkNetIf (name ++ 0 :: tl) p]) ++ later) (Z.of_nat (length (dn ++ [MkNetIf (name ++ 0 :: tl) p]))) 0).
Proof.
  intros Hl. unfold end_entry, put_char, put_port. cbn [ifList ifNum ifC]. replace (0 <? Z.of_nat (length name)) with true by (zcases; lia).
  rewrite zget_mid. cbn [mbind outcome_bind prefix port]. rewrite zset_mid. cbn [mbind outcome_bind]. rewrite zset_mid. cbn [mbind outcome_bind].
  rewrite zget_mid. cbn [mbind outcome_bind prefix]. rewrite zset_mid. cbn [mbind outcome_bind]. rewrite <- app_assoc, length_app. cbn [app length].
  repeat f_equal. lia.
Qed.

Definition buf_ok (nf : netIf) : Prop := length (prefix nf) = 64%nat.

(** One entry, up to the comma or the end of the string behind it. *)
Lemma parse_entry fuel maxList e rest dn nf later : entry_ok e -> hd 0 rest = chr_comma \/ rest = [] -> buf_ok nf ->
  Z.of_nat (length dn) < maxList -> (length (show_entry e ++ rest) < fuel)%nat ->
  exists nf' fuel', holds_entry nf' e /\ buf_ok nf' /\ (length (tl rest) < S fuel')%nat /\ (rest = [] \/ length (tl rest) < fuel')%nat /\
    let st := MkParse ((dn ++ [nf']) ++ later) (Z.of_nat (length (dn ++ [nf']))) 0 in
    parse_loop fuel maxList (show_entry e ++ rest) (MkParse (dn ++ nf :: later) (Z.of_nat (length dn)) 0) =
    if (Z.of_nat (length (dn ++ [nf'])) <? maxList) && negb (hd 0 rest =? 0) then parse_loop fuel' maxList (tl rest) st else Ret st.
Proof.
  destruct e as [name prt]. intros (Hl & Hname & Hprt) Hr Hb Hn Hf. unfold show_entry in *. cbn [fst snd] in *. rewrite <- app_assoc in *.
  rewrite !length_app in Hf. replace fuel with (length name + (fuel - length name))%nat by lia. destruct nf as [buf prt0]. unfold buf_ok in *. cbn [prefix] in *.
  rewrite (parse_name _ _ name _ dn [] buf prt0 later) by (done || lia). cbn [app].
  destruct (drop (length name) buf) as [|x tl0] eqn:Hd; [apply (f_equal length) in Hd; rewrite length_drop in Hd; simpl in Hd; lia|].
  assert (length tl0 = 63 - length name)%nat as Htl by (apply (f_equal length) in Hd; rewrite length_drop in Hd; simpl in Hd; lia).
  destruct (fuel - length name)%nat as [|fuel'] eqn:Hfu; [lia|]. exists (MkNetIf (name ++ 0 :: tl0) (default (-1) prt)), fuel'. split; [|split; [|split; [|split]]].
  - split; [|done]. by apply c_str_name.
  - cbn [prefix]. rewrite length_app. cbn [length]. lia.
  - destruct rest; simpl in *; lia.
  - destruct rest; [by left|right]. simpl in *. lia.
  - cbn [parse_loop]. destruct prt as [p|]; cbn [show_port app default].
    + cbn [hd]. change (chr_colon =? chr_colon) with true. cbn iota. cbn [tl].
      assert (is_digit (hd 0 rest) = false) as Hdig by (destruct Hr as [-> | ->]; done). assert (0 <= p < 10 ^ Z.of_nat 10) as H10.
      { change (10 ^ Z.of_nat 10) with 10000000000. unfold INT_MAX in Hprt. lia. }
      rewrite atoi_port, end_entry_spec by (done || lia). cbn [mbind outcome_bind].
      rewrite skip_to_comma_app by (done || apply (dec_digits_spec 10 p H10); lia). done.
    + assert ((hd 0 rest =? chr_colon) = false /\ (hd 0 rest =? chr_comma) || (hd 0 rest =? 0) = true) as [-> ->] by (destruct Hr as [-> | ->]; done).
      rewrite end_entry_spec by lia. done.
Qed.

Lemma parse_entries maxList e es fuel dn later : Forall entry_ok (e :: es) -> Forall buf_ok later -> Z.of_nat (length dn) < maxList ->
  maxList <= Z.of_nat (length dn + length later) -> (length (show_entries (e :: es)) < fuel)%nat ->
  exists new, Forall2 holds_entry new (take (Z.to_nat maxList - length dn) (e :: es)) /\
    parse_loop fuel maxList (show_entries (e :: es)) (MkParse (dn ++ later) (Z.of_nat (length dn)) 0) =
    Ret (MkParse (dn ++ new ++ drop (length new) later) (Z.of_nat (length dn + length new)) 0).
Proof.
  revert e fuel dn later. induction es as [|e' es IH]; intros e fuel dn later Hes Hb Hn Hm Hf; (destruct later as [|nf later]; [simpl in Hm; lia|]);
    apply Forall_cons in Hb as [Hnf Hb]; apply Forall_cons in Hes as [He Hes]; destruct (Z.to_nat maxList - length dn)%nat as [|k] eqn:Hk; try lia.
  - cbn [show_entries] in *. rewrite <- (app_nil_r (show_entry e)) in *. destruct (parse_entry fuel maxList e [] dn nf later) as (nf' & f' & H1 & _ & _ & _ & ->); auto.
    exists [nf']. split; [cbn [take]; rewrite take_nil; constructor; [done|constructor]|]. cbn [hd]. rewrite andb_false_r. rewrite <- app_assoc, length_app. done.
  - change (show_entries (e :: e' :: es)) with (show_entry e ++ chr_comma :: show_entries (e' :: es)) in *.
    destruct (parse_entry fuel maxList e (chr_comma :: show_entries (e' :: es)) dn nf later) as (nf' & f' & H1 & H2 & _ & [?|H4] & ->); auto; [done|].
    cbn [hd tl] in *. change (negb (chr_comma =? 0)) with true. rewrite andb_true_r. rewrite length_app. cbn [length].
    destruct (Z.ltb_spec (Z.of_nat (length dn + 1)) maxList) as [Hlt|Hge].
    + destruct (IH e' f' (dn ++ [nf']) later) as (new & Hnew & Heq); auto; try (rewrite length_app; simpl in *; lia). exists (nf' :: new).
      rewrite length_app in Heq, Hnew. cbn [length] in *. rewrite Heq. split; [|rewrite <- app_assoc; cbn [app drop]; do 2 f_equal; lia].
      cbn [take]. constructor; [done|]. by replace k with (Z.to_nat maxList - (length dn + 1))%nat by lia.
    + exists [nf']. split; [replace k with 0%nat by lia; cbn [take]; constructor; [done|constructor]|]. rewrite <- app_assoc. done.
Qed.

(** (C38) Round trip of the interface lists of the environment variables: for
    every list of entries with names of 1 to 63 characters and ports that fit an
    [int], [parseStringList] of the list as the user writes it
    (["eth0:8472,eth1"]) returns exactly the first [maxList] entries, a missing
    port as -1, stays inside the array and inside each 64-byte name, and leaves
    the rest of the array alone. *)
Theorem parseStringList_roundtrip es l maxList : Forall entry_ok es -> Forall buf_ok l -> 0 < maxList <= Z.of_nat (length l) ->
  let n := Nat.min (length es) (Z.to_nat maxList) in
  exists l', parseStringList (Some (show_entries es)) l maxList = Ret (l', Z.of_nat n) /\
    Forall2 holds_entry (take n l') (take n es) /\ drop n l' = drop n l.
Proof.
  intros Hes Hb Hm n. unfold parseStringList. destruct es as [|e es]; [exists l; split; [|done]; cbn; by rewrite andb_false_r|].
  destruct (parse_entries maxList e es (S (length (show_entries (e :: es)))) [] l) as (new & Hnew & Heq); try (done || simpl; lia).
  cbn [app length Z.of_nat Nat.add] in Heq, Hnew. change (Z.of_nat 0) with 0 in Heq. rewrite Heq. cbn [mbind outcome_bind ifList ifNum]. rewrite Nat.sub_0_r in Hnew.
  pose proof (Forall2_length _ _ _ Hnew) as Hlen. rewrite length_take in Hlen. assert (n = length new) as -> by (subst n; lia).
  exists (new ++ drop (length new) l). split; [done|]. rewrite take_app_length, drop_app_length. split; [|done].
  replace (take (length new) (e :: es)) with (take (Z.to_nat maxList) (e :: es)); [done|]. rewrite Hlen, Nat.min_comm.
  destruct (Nat.min_spec (length (e :: es)) (Z.to_nat maxList)) as [[? ->]|[? ->]]; [|done]. rewrite !take_ge by lia. done.
Qed.

(** "eth0:8472,ib1" *)
Definition sample_entries : list entry := [([101; 116; 104; 48], Some 8472); ([105; 98; 49], None)].

Lemma parseStringList_roundtrip_witness :
  exists l', parseStringList (Some [101; 116; 104; 48; 58; 56; 52; 55; 50; 44; 105; 98; 49]) (replicate 16 new_netIf) 16 = Ret (l', 2) /\
    Forall2 holds_entry (take 2 l') sample_entries /\ drop 2 l' = replicate 14 new_netIf.
Proof.
  apply (parseStringList_roundtrip sample_entries (replicate 16 new_netIf) 16); [|by apply Forall_replicate|cbn; lia].
  repeat constructor; cbn; done.
Defined.

(** ** Matching *)

Lemma strncmp_eq_prefix s ref : Forall (fun c => c <> 0) ref -> strncmp_eq s ref (length ref) = true <-> ref `prefix_of` s.
Proof.
  intros Hr. revert s. induction Hr as [|c ref Hc Hr IH]; intros s; [split; [intros; apply prefix_nil|done]|].
  cbn [length strncmp_eq hd tl]. destruct s as [|d s]; cbn [hd tl].
  - replace (0 =? c) with false by (zcases; lia). split; [done|]. intros ?%prefix_nil_not. done.
  - destruct (Z.eqb_spec d c) as [->|Hd].
    + replace (c =? 0) with false by (zcases; lia). rewrite IH. split; [apply prefix_cons|apply prefix_cons_inv_2].
    + split; [done|]. by intros ?%prefix_cons_inv_1.
Qed.

Lemma strncmp_eq_exact s ref : Forall (fun c => c <> 0) s -> Forall (fun c => c <> 0) ref -> strncmp_eq s ref (length s + 1) = true <-> s = ref.
Proof.
  intros Hs. revert ref. induction Hs as [|c s Hc Hs IH]; intros ref Hr.
  - destruct Hr as [|d ref Hd Hr]; [done|]. cbn [length Nat.add strncmp_eq hd]. rewrite (proj2 (Z.eqb_neq 0 d)) by lia. done.
  - cbn [length Nat.add strncmp_eq hd tl]. destruct Hr as [|d ref Hd Hr]; cbn [hd tl]; [replace (c =? 0) with false by (zcases; lia); done|].
    destruct (Z.eqb_spec c d) as [->|Hne]; [|split; [done|congruence]]. replace (d =? 0) with false by (zcases; lia). rewrite IH by done. naive_solver.
Qed.

Lemma c_str_nonzero buf : Forall (fun c => c <> 0) (c_str buf).
Proof. induction buf as [|c buf IH]; [done|]. cbn [c_str]. destruct (Z.eqb_spec c 0); [done|]. by constructor. Qed.

Definition matches (s : list Z) (prt : Z) (exact : bool) (nf : netIf) : Prop :=
  (if exact then s = c_str (prefix nf) else c_str (prefix nf) `prefix_of` s) /\ (prt = -1 \/ port nf = -1 \/ prt = port nf).

Lemma matchIf_spec s buf exact : Forall (fun c => c <> 0) s ->
  matchIf s (c_str buf) exact = true <-> if exact then s = c_str buf else c_str buf `prefix_of` s.
Proof. intros Hs. unfold matchIf. destruct exact; [apply strncmp_eq_exact|apply strncmp_eq_prefix]; auto using c_str_nonzero. Qed.

Lemma matchPort_spec p q : matchPort p q = true <-> p = -1 \/ q = -1 \/ p = q.
Proof. unfold matchPort. zcases; naive_solver lia. Qed.

(** [matchIfList] accepts an interface exactly when the list is empty or one
    of its entries names it (the whole name when [matchExact], else a prefix of
    it) with the same port, where -1 on either side stands for every port. *)
Theorem matchIfList_spec s prt l n exact : Forall (fun c => c <> 0) s ->
  matchIfList s prt l n exact = true <-> n = 0%nat \/ Exists (matches s prt exact) (take n l).
Proof.
  intros Hs. unfold matchIfList. destruct (Nat.eqb_spec n 0) as [->|Hn]; [naive_solver|].
  transitivity (Exists (matches s prt exact) (take n l)); [|naive_solver]. induction (take n l) as [|nf l' IH]; [cbn; by rewrite Exists_nil|].
  cbn [match_loop]. rewrite Exists_cons, <- IH. unfold matches at 1. rewrite <- (matchIf_spec s) by done. rewrite <- matchPort_spec.
  destruct (matchIf _ _ _), (matchPort _ _); cbn [andb]; naive_solver.
Qed.

Lemma matchIfList_spec_witness : matchIfList [101; 116; 104; 48] (-1) [MkNetIf [105; 98; 0] 7; MkNetIf [101; 116; 104; 0] 8472] 2 false = true.
Proof.
  apply (matchIfList_spec [101; 116; 104; 48]); [by repeat constructor|]. right. apply Exists_cons. right. apply Exists_cons. left.
  split; [by exists [48]|by left].
Defined.
