(* ===== verification/Queue.v ===== *)
(** * Intrusive queues and the memory pool (src/src/include/utils.h)

    Objects live at non-null addresses of a shared heap; a queue is linked through
    one pointer field of its objects, and an object can be in several queues
    through different fields.  The heap maps an address and a field to the pointer
    stored there; touching an address that is not allocated is [Stuck]. *)
From stdpp Require Export gmap.
From S2P Require Import Prelude.

Abbreviation ptr := Z (only parsing).
Definition nullptr : ptr := 0.
(** A pointer-to-member [T *T::*next]. *)
Abbreviation field := Z (only parsing).
Abbreviation heap := (gmap (Z * Z) Z).

Definition load (h : heap) (p : ptr) (f : field) : outcome ptr :=
  match h !! (p, f) with Some q => Ret q | None => Stuck end.

Definition store (h : heap) (p : ptr) (f : field) (q : ptr) : outcome heap :=
  match h !! (p, f) with Some _ => Ret (<[(p, f) := q]> h) | None => Stuck end.

Record ncclIntruQueue := MkQ { head : ptr; tail : ptr }.

Definition ncclIntruQueueConstruct : ncclIntruQueue := MkQ nullptr nullptr.
Definition ncclIntruQueueEmpty (me : ncclIntruQueue) : bool := head me =? nullptr.
Definition ncclIntruQueueHead (me : ncclIntruQueue) : ptr := head me.
Definition ncclIntruQueueTail (me : ncclIntruQueue) : ptr := tail me.

Section operations.
  Context (next : field).

Definition ncclIntruQueueEnqueue (h : heap) (me : ncclIntruQueue) (x : ptr) : outcome (heap * ncclIntruQueue) :=
  h ← store h x next nullptr;
  if negb (head me =? nullptr)
  then h ← store h (tail me) next x; Ret (h, MkQ (head me) x)
  else Ret (h, MkQ x x).

Definition ncclIntruQueueEnqueueFront (h : heap) (me : ncclIntruQueue) (x : ptr) : outcome (heap * ncclIntruQueue) :=
  let tail' := if head me =? nullptr then x else tail me in
  h ← store h x next (head me);
  Ret (h, MkQ x tail').

Definition ncclIntruQueueDequeue (h : heap) (me : ncclIntruQueue) : outcome (ncclIntruQueue * ptr) :=
  let ans := head me in
  head' ← load h ans next;
  Ret (MkQ head' (if head' =? nullptr then nullptr else tail me), ans).

Definition ncclIntruQueueTryDequeue (h : heap) (me : ncclIntruQueue) : outcome (ncclIntruQueue * ptr) :=
  let ans := head me in
  if negb (ans =? nullptr) then
    head' ← load h ans next;
    Ret (MkQ head' (if head' =? nullptr then nullptr else tail me), ans)
  else Ret (me, ans).

(** [while (cur) { if (cur == x) { found = true; break; } prev = cur; cur = cur->*next; }] *)
Fixpoint delete_find (fuel : nat) (h : heap) (x prev cur : ptr) : outcome (bool * ptr * ptr) :=
  if cur =? nullptr then Ret (false, prev, cur)
  else if cur =? x then Ret (true, prev, cur)
  else match fuel with
       | O => Stuck
       | S fuel => nx ← load h cur next; delete_find fuel h x cur nx
       end.

Definition ncclIntruQueueDelete (fuel : nat) (h : heap) (me : ncclIntruQueue) (x : ptr)
    : outcome (heap * ncclIntruQueue * bool) :=
  '(found, prev, cur) ← delete_find fuel h x nullptr (head me);
  if found : bool then
    nx ← load h cur next;
    '(h, head') ← (if prev =? nullptr then Ret (h, nx) else h ← store h prev next nx; Ret (h, head me));
    Ret (h, MkQ head' (if cur =? tail me then prev else tail me), true)
  else Ret (h, me, false).

(** [(dst->tail ? dst->tail->next : dst->head) = src->head]: the member named
    [next], whatever field the queue is linked through. *)
Definition ncclIntruQueueTransfer (member_next : field) (h : heap) (dst src : ncclIntruQueue)
    : outcome (heap * ncclIntruQueue * ncclIntruQueue) :=
  '(h, head') ← (if negb (tail dst =? nullptr)
                 then h ← store h (tail dst) member_next (head src); Ret (h, head dst)
                 else Ret (h, head src));
  let tail' := if negb (tail src =? nullptr) then tail src else tail dst in
  Ret (h, MkQ head' tail', MkQ nullptr nullptr).

End operations.

(** ** Memory pool: a free list through the first word of a cell *)
Record ncclMemoryPool := MkPool { pool_head : ptr; pool_tail : ptr }.

(** The field that overlays the object's first word. *)
Definition cell_next : field := 0.

Section pool.
  (** [ncclMemoryStack::allocate] for a cell: the new heap and the address. *)
  Context (stack : Type) (allocate : heap -> stack -> outcome (heap * stack * ptr)).

(** [memset] of the returned object clears the overlaid word. *)
Definition ncclMemoryPoolAlloc (h : heap) (me : ncclMemoryPool) (backing : stack)
    : outcome (heap * ncclMemoryPool * stack * ptr) :=
  if negb (pool_head me =? nullptr) then
    let cell := pool_head me in
    nx ← load h cell cell_next;
    h ← store h cell cell_next nullptr;
    Ret (h, MkPool nx (pool_tail me), backing, cell)
  else
    '(h, backing, cell) ← allocate h backing;
    h ← store h cell cell_next nullptr;
    Ret (h, me, backing, cell).

End pool.

Definition ncclMemoryPoolFree (h : heap) (me : ncclMemoryPool) (obj : ptr) : outcome (heap * ncclMemoryPool) :=
  h ← store h obj cell_next (pool_head me);
  Ret (h, MkPool obj (if pool_head me =? nullptr then obj else pool_tail me)).

Definition ncclMemoryPoolTakeAll (h : heap) (me from : ncclMemoryPool) : outcome (heap * ncclMemoryPool * ncclMemoryPool) :=
  if negb (pool_head from =? nullptr) then
    h ← store h (pool_tail from) cell_next (pool_head me);
    Ret (h, MkPool (pool_head from) (if pool_head me =? nullptr then pool_tail from else pool_tail me),
         MkPool nullptr (pool_tail from))
  else Ret (h, me, from).

(** ** Specification: lists *)

(** The objects [l] linked from [p] to [e]. *)
Fixpoint lseg (next : field) (h : heap) (p : ptr) (l : list ptr) (e : ptr) : Prop :=
  match l with
  | [] => p = e
  | x :: l => p = x /\ x <> nullptr /\ exists q, h !! (x, next) = Some q /\ lseg next h q l e
  end.

Abbreviation chain next h p l := (lseg next h p l nullptr).

(** The queue holds the objects [l] in order. *)
Record queue_rep (next : field) (h : heap) (q : ncclIntruQueue) (l : list ptr) : Prop := {
  qr_chain : chain next h (head q) l;
  qr_nodup : NoDup l;
  qr_tail : tail q = default nullptr (last l);
}.

(** An object that can be linked through the field. *)
Definition allocated (next : field) (h : heap) (x : ptr) : Prop := x <> nullptr /\ is_Some (h !! (x, next)).

Section lemmas.
  Context (next : field).

Lemma chain_ext h h' p l e :
  (forall x, x ∈ l -> h' !! (x, next) = h !! (x, next)) -> lseg next h p l e -> lseg next h' p l e.
Proof.
  revert p. induction l as [|x l IH]; intros p He; [done|]. intros (-> & Hx & q & Hq & Hl).
  split; [done|]. split; [done|]. exists q. split; [rewrite He by constructor; done|].
  apply IH; [|done]. intros y Hy. apply He. by constructor.
Qed.

Lemma chain_allocated h p l e x : lseg next h p l e -> x ∈ l -> allocated next h x.
Proof.
  revert p. induction l as [|y l IH]; intros p; simpl; [by intros _ ?%not_elem_of_nil|].
  intros (-> & Hy & q & Hq & Hl) [->|Hx]%elem_of_cons; [split; [done|by eexists]|by eapply IH].
Qed.

Lemma lseg_app h p l1 l2 e : lseg next h p (l1 ++ l2) e <-> exists m, lseg next h p l1 m /\ lseg next h m l2 e.
Proof.
  revert p. induction l1 as [|x l1 IH]; intros p; simpl; [naive_solver|]. setoid_rewrite IH. naive_solver.
Qed.

(** Redirecting the last object of a segment. *)
Lemma lseg_redirect h p l e t q : lseg next h p l e -> last l = Some t -> NoDup l ->
  lseg next (<[(t, next) := q]> h) p l q.
Proof.
  revert p. induction l as [|y l IH]; intros p Hch Hl Hnd; [done|].
  destruct Hch as (-> & Hy & r & Hr & Hch). apply NoDup_cons in Hnd as [Hyl Hnd].
  split; [done|]. split; [done|]. destruct l as [|z l].
  - simpl in Hl. injection Hl as <-. exists q. by rewrite lookup_insert_eq.
  - assert (t ∈ z :: l) as Ht by by apply last_Some_elem_of.
    exists r. rewrite lookup_insert_ne by (intros [=->]; done). split; [done|]. by apply IH.
Qed.

(** Joining two disjoint segments. *)
Lemma lseg_join h p l1 l2 t q e e' : lseg next h p l1 e' -> last l1 = Some t -> lseg next h q l2 e ->
  NoDup (l1 ++ l2) -> lseg next (<[(t, next) := q]> h) p (l1 ++ l2) e.
Proof.
  intros H1 Ht H2 (Hn1 & Hd & Hn2)%NoDup_app. apply lseg_app. exists q. split; [by eapply lseg_redirect|].
  eapply chain_ext; [|done]. intros y Hy. apply lookup_insert_ne. intros [= ->].
  apply (Hd y); [by apply last_Some_elem_of|done].
Qed.

End lemmas.
(** What an operation on a queue of [S] leaves alone: other fields, other
    objects, and what is allocated. *)
Definition framed (next : field) (S : list ptr) (h h' : heap) : Prop :=
  (forall p f, f <> next \/ p ∉ S -> h' !! (p, f) = h !! (p, f)) /\
  (forall k, is_Some (h' !! k) <-> is_Some (h !! k)).

Lemma framed_refl next S h : framed next S h h.
Proof. by split. Qed.

Lemma framed_trans next S h1 h2 h3 : framed next S h1 h2 -> framed next S h2 h3 -> framed next S h1 h3.
Proof. intros [H1 D1] [H2 D2]. split; [intros p f Hp; by rewrite H2, H1|]. intros. by rewrite D2. Qed.

Lemma framed_weaken next S S' h h' : S ⊆ S' -> framed next S h h' -> framed next S' h h'.
Proof. intros HS [H D]. split; [|done]. intros p f [|Hp]; apply H; [by left|right]. intros Hin. by apply Hp, HS. Qed.

Lemma framed_allocated next S h h' x : framed next S h h' -> allocated next h x -> allocated next h' x.
Proof. intros [_ D] [Hx Ha]. split; [done|]. by apply D. Qed.

Lemma store_spec next h x q : allocated next h x ->
  store h x next q = Ret (<[(x, next) := q]> h) /\ framed next [x] h (<[(x, next) := q]> h).
Proof.
  intros [_ [r Hr]]. unfold store. rewrite Hr. split; [done|]. split.
  - intros p f Hp. apply lookup_insert_ne. intros [= -> ->]. destruct Hp as [|Hp]; [done|]. apply Hp. by constructor.
  - intros k. rewrite lookup_insert_is_Some. destruct (decide ((x, next) = k)) as [<-|]; naive_solver.
Qed.

Section operations_spec.
  Context (next : field).

Lemma chain_head h p l : chain next h p l -> (p =? nullptr) = match l with [] => true | _ => false end.
Proof.
  destruct l as [|x l]; simpl; [by intros ->|]. intros (-> & Hx & _). by apply Z.eqb_neq.
Qed.

Lemma enqueue_spec h q l x : queue_rep next h q l -> allocated next h x -> x ∉ l ->
  exists h' q', ncclIntruQueueEnqueue next h q x = Ret (h', q') /\ queue_rep next h' q' (l ++ [x]) /\ framed next (x :: l) h h'.
Proof.
  intros [Hch Hnd Ht] Hx Hxl. unfold ncclIntruQueueEnqueue.
  destruct (store_spec next h x nullptr Hx) as [-> Hf1]. cbn [mbind outcome_bind].
  rewrite (chain_head _ _ _ Hch). set (h1 := <[(x, next):=nullptr]> h) in *.
  assert (chain next h1 (head q) l) as Hch1.
  { eapply chain_ext; [|done]. intros y Hy. apply lookup_insert_ne. intros [= ->]. done. }
  assert (NoDup (l ++ [x])) as Hnd'.
  { apply NoDup_app. split; [done|]. split; [|apply NoDup_singleton]. intros y Hy ->%list_elem_of_singleton. done. }
  destruct l as [|y l'].
  - simpl. eexists _, _. split; [done|]. split; [|done]. split; [|done|done]. simpl. split; [done|].
    split; [apply Hx|]. exists nullptr. split; [apply lookup_insert_eq|done].
  - destruct (last (y :: l')) as [t|] eqn:El; [|by apply last_None in El]. simpl in Ht.
    assert (t ∈ y :: l') as Htl by by apply last_Some_elem_of.
    assert (allocated next h1 t) as Hta by by eapply chain_allocated.
    simpl. rewrite Ht. destruct (store_spec next h1 t x Hta) as [-> Hf2]. cbn [mbind outcome_bind].
    eexists _, _. split; [done|]. split.
    + split; [|done|by rewrite app_comm_cons, last_snoc].
      apply (lseg_join next h1 (head q) (y :: l') [x] t x nullptr nullptr); [done|done| |done].
      split; [done|]. split; [apply Hx|]. exists nullptr. split; [apply lookup_insert_eq|done].
    + eapply framed_trans; [eapply framed_weaken; [|exact Hf1]|eapply framed_weaken; [|exact Hf2]]; set_solver.
Qed.

Lemma enqueueFront_spec h q l x : queue_rep next h q l -> allocated next h x -> x ∉ l ->
  exists h' q', ncclIntruQueueEnqueueFront next h q x = Ret (h', q') /\ queue_rep next h' q' (x :: l) /\ framed next (x :: l) h h'.
Proof.
  intros [Hch Hnd Ht] Hx Hxl. unfold ncclIntruQueueEnqueueFront.
  destruct (store_spec next h x (head q) Hx) as [-> Hf]. cbn [mbind outcome_bind]. rewrite (chain_head _ _ _ Hch).
  eexists _, _. split; [done|]. split; [|eapply framed_weaken; [|done]; set_solver]. split; simpl.
  - split; [done|]. split; [apply Hx|]. exists (head q). rewrite lookup_insert_eq. split; [done|].
    eapply chain_ext; [|done]. intros y Hy. apply lookup_insert_ne. intros [= ->]. done.
  - by apply NoDup_cons.
  - destruct l as [|y l]; [done|]. simpl in Ht |- *. rewrite Ht. destruct (last (y :: l)) eqn:El; [done|by apply last_None in El].
Qed.

Lemma dequeue_spec h q x l : queue_rep next h q (x :: l) ->
  exists q', ncclIntruQueueDequeue next h q = Ret (q', x) /\ queue_rep next h q' l.
Proof.
  intros [(Hh & Hx & r & Hr & Hch) Hnd Ht]. apply NoDup_cons in Hnd as [_ Hnd].
  unfold ncclIntruQueueDequeue, load. rewrite Hh, Hr. cbn [mbind outcome_bind]. rewrite (chain_head _ _ _ Hch).
  eexists. split; [done|]. split; [done|done|]. simpl. destruct l as [|y l]; [done|].
  simpl. rewrite Ht. rewrite last_cons_cons. done.
Qed.

Lemma tryDequeue_spec h q l : queue_rep next h q l ->
  exists q', ncclIntruQueueTryDequeue next h q = Ret (q', hd nullptr l) /\ queue_rep next h q' (tl l).
Proof.
  intros Hq. destruct l as [|x l].
  - destruct Hq as [Hh ? ?]. simpl in Hh. unfold ncclIntruQueueTryDequeue. rewrite Hh. simpl. eexists. split; [done|]. by split.
  - destruct (dequeue_spec h q x l Hq) as (q' & Hd & Hq'). exists q'. split; [|done]. cbn [hd]. rewrite <- Hd.
    destruct Hq as [(Hh & Hx & _) _ _]. unfold ncclIntruQueueTryDequeue, ncclIntruQueueDequeue. rewrite Hh.
    destruct (Z.eqb_spec x nullptr); done.
Qed.

Lemma delete_find_spec h x l prev cur fuel : chain next h cur l -> (length l <= fuel)%nat ->
  (x ∉ l -> exists p, delete_find next fuel h x prev cur = Ret (false, p, nullptr)) /\
  (forall l1 l2, l = l1 ++ x :: l2 -> x ∉ l1 ->
     delete_find next fuel h x prev cur = Ret (true, default prev (last l1), x)).
Proof.
  revert prev cur fuel. induction l as [|y l IH]; intros prev cur fuel Hch Hf.
  - simpl in Hch. subst. split; [exists prev; by destruct fuel|]. intros l1 l2 E. by destruct l1.
  - destruct Hch as (-> & Hy & q & Hq & Hch). destruct fuel as [|fuel]; [simpl in Hf; lia|]. simpl in Hf.
    cbn [delete_find]. destruct (Z.eqb_spec y nullptr); [done|].
    destruct (IH y q fuel Hch ltac:(lia)) as [IH1 IH2].
    destruct (Z.eqb_spec y x) as [->|Hyx].
    + split; [intros Hn; exfalso; apply Hn; constructor|]. intros l1 l2 E Hn. destruct l1 as [|z l1]; simplify_eq/=; [done|].
      exfalso. apply Hn. constructor.
    + unfold load. rewrite Hq. cbn [mbind outcome_bind]. split.
      * intros Hn. apply IH1. intros Hx. apply Hn. by constructor.
      * intros l1 l2 E Hn. destruct l1 as [|z l1]; simplify_eq/=. rewrite (IH2 l1 l2 eq_refl) by (intros Hx; apply Hn; by constructor).
        do 3 f_equal. destruct l1 as [|w l1]; [done|]. rewrite last_cons_cons.
        destruct (last (w :: l1)) eqn:El; [done|by apply last_None in El].
Qed.

Lemma last_middle {A} (l1 l2 : list A) x : last (l1 ++ x :: l2) = Some (default x (last l2)).
Proof. rewrite last_app, last_cons. by destruct (last l2). Qed.

Lemma filter_absent (x : Z) (l : list Z) : x ∉ l -> filter (.≠ x) l = l.
Proof.
  induction l as [|y l IH]; [done|]. intros [Hxy Hx]%not_elem_of_cons.
  rewrite filter_cons_True by congruence. f_equal. by apply IH.
Qed.

Lemma delete_spec h q l x fuel : queue_rep next h q l -> (length l <= fuel)%nat ->
  exists h' q', ncclIntruQueueDelete next fuel h q x = Ret (h', q', bool_decide (x ∈ l)) /\
    queue_rep next h' q' (filter (.≠ x) l) /\ framed next l h h'.
Proof.
  intros [Hch Hnd Ht] Hf. unfold ncclIntruQueueDelete.
  destruct (delete_find_spec h x l nullptr (head q) fuel Hch Hf) as [Hno Hyes].
  destruct (decide (x ∈ l)) as [Hx|Hx].
  - rewrite bool_decide_true by done. apply list_elem_of_split in Hx as (l1 & l2 & ->).
    apply NoDup_app in Hnd as (Hn1 & Hd & (Hx2 & Hn2)%NoDup_cons).
    assert (x ∉ l1) as Hx1 by (intros Hx1; apply (Hd x Hx1); constructor).
    assert (NoDup (l1 ++ l2)) as Hn12.
    { apply NoDup_app. split; [done|]. split; [|done]. intros y Hy Hy2. apply (Hd y Hy). by constructor. }
    rewrite (Hyes l1 l2 eq_refl Hx1). cbn [mbind outcome_bind].
    apply lseg_app in Hch as (m & Hc1 & -> & Hx0 & r & Hr & Hc2). unfold load. rewrite Hr. cbn [mbind outcome_bind].
    assert (filter (.≠ x) (l1 ++ x :: l2) = l1 ++ l2) as ->.
    { rewrite filter_app, filter_cons_False by naive_solver.
      by rewrite !filter_absent. }
    rewrite last_middle in Ht. simpl in Ht. destruct (last l1) as [t|] eqn:El1; simpl.
    + assert (t ∈ l1) as Htl by by apply last_Some_elem_of.
      destruct (chain_allocated next h _ l1 _ t Hc1 Htl) as [Ht0 Hta].
      destruct (Z.eqb_spec t nullptr); [done|].
      destruct (store_spec next h t r (conj Ht0 Hta)) as [-> Hfr]. cbn [mbind outcome_bind].
      eexists _, _. split; [done|]. split; [|eapply framed_weaken; [|done]; set_solver]. split; [|done|].
      * by eapply lseg_join.
      * simpl. rewrite last_app, Ht. destruct (last l2) as [u|] eqn:El2; simpl.
        -- destruct (Z.eqb_spec x u) as [->|]; [|done]. by apply last_Some_elem_of in El2.
        -- by rewrite Z.eqb_refl, El1.
    + apply last_None in El1 as ->. simpl in Hc1. eexists _, _. split; [done|]. split; [|apply framed_refl].
      split; [done|done|]. simpl. rewrite Ht. destruct (last l2) as [u|] eqn:El2; simpl.
      * destruct (Z.eqb_spec x u) as [->|]; [|done]. by apply last_Some_elem_of in El2.
      * by rewrite Z.eqb_refl.
  - rewrite bool_decide_false by done. destruct (Hno Hx) as (p & ->). cbn [mbind outcome_bind].
    exists h, q. split; [done|]. split; [|apply framed_refl].
    rewrite filter_absent by done. by split.
Qed.

(** Transfer works when the member called [next] is the queue's link field. *)
Lemma transfer_spec h dst src l1 l2 :
  queue_rep next h dst l1 -> queue_rep next h src l2 -> NoDup (l1 ++ l2) ->
  exists h' dst' src', ncclIntruQueueTransfer next h dst src = Ret (h', dst', src') /\
    queue_rep next h' dst' (l1 ++ l2) /\ queue_rep next h' src' [] /\ framed next l1 h h'.
Proof.
  intros [Hc1 Hn1 Ht1] [Hc2 Hn2 Ht2] Hnd. unfold ncclIntruQueueTransfer. rewrite Ht1.
  assert (forall h', queue_rep next h' (MkQ nullptr nullptr) []) as Hempty.
  { intros. split; [done|constructor|done]. }
  assert ((if negb (tail src =? nullptr) then tail src else tail dst) = default nullptr (last (l1 ++ l2))) as Htail.
  { rewrite Ht2, Ht1, last_app. destruct (last l2) as [u|] eqn:E; simpl; [|done].
    apply last_Some_elem_of in E. destruct (chain_allocated next h _ l2 _ u Hc2 E) as [Hu _].
    destruct (Z.eqb_spec u nullptr); done. }
  destruct (last l1) as [t|] eqn:El1; simpl.
  - assert (t ∈ l1) as Htl by by apply last_Some_elem_of.
    destruct (chain_allocated next h _ l1 _ t Hc1 Htl) as [Ht0 Hta].
    destruct (Z.eqb_spec t nullptr); [done|]. simpl.
    destruct (store_spec next h t (head src) (conj Ht0 Hta)) as [-> Hfr]. cbn [mbind outcome_bind].
    eexists _, _, _. split; [done|]. split; [|split; [done|eapply framed_weaken; [|done]; set_solver]].
    split; [|done|]; simpl; [by eapply lseg_join|]. rewrite <- Htail, Ht1. done.
  - apply last_None in El1 as ->. eexists _, _, _. split; [done|]. split; [|split; [done|apply framed_refl]].
    split; [done|done|]. simpl in Htail |- *. by rewrite <- Htail, Ht1.
Qed.

End operations_spec.

(** ** Refinement: a queue object behaves like a list *)

Inductive qop :=
  | Enq (x : ptr) | EnqFront (x : ptr) | Deq | TryDeq | Del (x : ptr).

(** What a call returns: an object, or for [Del] whether it was there. *)
Inductive qret := RUnit | RPtr (x : ptr) | RBool (b : bool).

(** The specification.  [None]: the caller broke the contract (enqueueing an
    object that is already in, dequeueing from an empty queue). *)
Definition spec_step (l : list ptr) (op : qop) : option (list ptr * qret) :=
  match op with
  | Enq x => if decide (x ∈ l) then None else Some (l ++ [x], RUnit)
  | EnqFront x => if decide (x ∈ l) then None else Some (x :: l, RUnit)
  | Deq => match l with [] => None | x :: l => Some (l, RPtr x) end
  | TryDeq => Some (tl l, RPtr (hd nullptr l))
  | Del x => Some (filter (.≠ x) l, RBool (bool_decide (x ∈ l)))
  end.

Fixpoint spec_run (l : list ptr) (ops : list qop) : option (list ptr * list qret) :=
  match ops with
  | [] => Some (l, [])
  | op :: ops =>
    '(l, r) ← spec_step l op;
    '(l, rs) ← spec_run l ops;
    Some (l, r :: rs)
  end.

(** The calls; [fuel] bounds the walk of [Delete]. *)
Definition impl_step (next : field) (fuel : nat) (h : heap) (q : ncclIntruQueue) (op : qop)
    : outcome (heap * ncclIntruQueue * qret) :=
  match op with
  | Enq x => '(h, q) ← ncclIntruQueueEnqueue next h q x; Ret (h, q, RUnit)
  | EnqFront x => '(h, q) ← ncclIntruQueueEnqueueFront next h q x; Ret (h, q, RUnit)
  | Deq => '(q, x) ← ncclIntruQueueDequeue next h q; Ret (h, q, RPtr x)
  | TryDeq => '(q, x) ← ncclIntruQueueTryDequeue next h q; Ret (h, q, RPtr x)
  | Del x => '(h, q, b) ← ncclIntruQueueDelete next fuel h q x; Ret (h, q, RBool b)
  end.

Fixpoint impl_run (next : field) (fuel : nat) (h : heap) (q : ncclIntruQueue) (ops : list qop)
    : outcome (heap * ncclIntruQueue * list qret) :=
  match ops with
  | [] => Ret (h, q, [])
  | op :: ops =>
    '(h, q, r) ← impl_step next fuel h q op;
    '(h, q, rs) ← impl_run next fuel h q ops;
    Ret (h, q, r :: rs)
  end.

(** The objects an operation links. *)
Definition operands (op : qop) : list ptr := match op with Enq x | EnqFront x => [x] | _ => [] end.

Lemma impl_step_refines next fuel h q l op l' r :
  queue_rep next h q l -> Forall (allocated next h) (operands op) -> (length l <= fuel)%nat ->
  spec_step l op = Some (l', r) ->
  exists h' q', impl_step next fuel h q op = Ret (h', q', r) /\ queue_rep next h' q' l' /\
    framed next (operands op ++ l) h h' /\ (length l' <= length l + 1)%nat /\ l' ⊆ operands op ++ l.
Proof.
  intros Hq Ha Hf Hs. destruct op as [x|x| | |x]; simpl in *.
  - case_decide as Hx; [done|]. injection Hs as <- <-. apply Forall_cons in Ha as [Ha _].
    destruct (enqueue_spec next h q l x Hq Ha Hx) as (h' & q' & -> & Hq' & Hfr). exists h', q'.
    rewrite length_app. simpl. split; [done|]. split; [done|]. split; [done|]. split; [lia|set_solver].
  - case_decide as Hx; [done|]. injection Hs as <- <-. apply Forall_cons in Ha as [Ha _].
    destruct (enqueueFront_spec next h q l x Hq Ha Hx) as (h' & q' & -> & Hq' & Hfr). exists h', q'.
    simpl. split; [done|]. split; [done|]. split; [done|]. split; [lia|set_solver].
  - destruct l as [|x l]; [done|]. injection Hs as <- <-.
    destruct (dequeue_spec next h q x l Hq) as (q' & -> & Hq'). exists h, q'. simpl.
    split; [done|]. split; [done|]. split; [apply framed_refl|]. split; [lia|set_solver].
  - injection Hs as <- <-. destruct (tryDequeue_spec next h q l Hq) as (q' & -> & Hq'). exists h, q'.
    split; [done|]. split; [done|]. split; [apply framed_refl|]. destruct l; simpl; [split; [lia|done]|split; [lia|set_solver]].
  - injection Hs as <- <-. destruct (delete_spec next h q l x fuel Hq Hf) as (h' & q' & -> & Hq' & Hfr). exists h', q'.
    split; [done|]. split; [done|]. split; [done|]. split; [|intros y [_ Hy]%list_elem_of_filter; done].
    pose proof (length_filter (.≠ x) l). lia.
Qed.

(** (C36) The intrusive queue refines a list: from a queue that represents the list
    [l], any sequence of enqueues (at either end, of allocated objects not already
    in), dequeues, try-dequeues and deletions that the list specification allows
    runs without undefined behaviour, returns what the specification returns and
    leaves a queue that represents the specified list; other link fields and
    other objects are untouched. *)
Theorem ncclIntruQueue_refines next ops fuel h q l l' rs :
  queue_rep next h q l -> Forall (allocated next h) (concat (operands <$> ops)) ->
  (length l + length ops <= fuel)%nat -> spec_run l ops = Some (l', rs) ->
  exists h' q', impl_run next fuel h q ops = Ret (h', q', rs) /\ queue_rep next h' q' l' /\
    framed next (concat (operands <$> ops) ++ l) h h'.
Proof.
  revert h q l l' rs. induction ops as [|op ops IH]; intros h q l l' rs Hq Ha Hf Hs; simpl in *.
  - injection Hs as <- <-. exists h, q. split; [done|]. split; [done|]. apply framed_refl.
  - destruct (spec_step l op) as [[l1 r]|] eqn:E1; [|done]. simpl in Hs.
    destruct (spec_run l1 ops) as [[l2 rs']|] eqn:E2; [|done]. simpl in Hs. injection Hs as <- <-.
    apply Forall_app in Ha as [Ha1 Ha2].
    destruct (impl_step_refines next fuel h q l op l1 r Hq Ha1 ltac:(lia) E1) as (h1 & q1 & -> & Hq1 & Hf1 & Hlen & Hsub).
    cbn [mbind outcome_bind].
    destruct (IH h1 q1 l1 l2 rs' Hq1) as (h2 & q2 & -> & Hq2 & Hf2); [|lia|done|].
    { eapply Forall_impl; [done|]. intros x Hx. by eapply framed_allocated. }
    cbn [mbind outcome_bind]. exists h2, q2. split; [done|]. split; [done|].
    eapply framed_trans; [eapply framed_weaken; [|exact Hf1]|eapply framed_weaken; [|exact Hf2]]; set_solver.
Qed.

Definition example_heap : heap := list_to_map ((fun x => ((x, 7), 99)) <$> [1; 2; 3; 4]).

Lemma ncclIntruQueue_refines_witness :
  exists h' q', impl_run 7 20 example_heap ncclIntruQueueConstruct [Enq 1; Enq 2; EnqFront 3; Del 1; Deq; Enq 4; TryDeq]
      = Ret (h', q', [RUnit; RUnit; RUnit; RBool true; RPtr 3; RUnit; RPtr 2]) /\ queue_rep 7 h' q' [4] /\
    framed 7 (concat (operands <$> [Enq 1; Enq 2; EnqFront 3; Del 1; Deq; Enq 4; TryDeq]) ++ []) example_heap h'.
Proof.
  apply (ncclIntruQueue_refines 7 [Enq 1; Enq 2; EnqFront 3; Del 1; Deq; Enq 4; TryDeq] 20 example_heap
    ncclIntruQueueConstruct [] [4]).
  - split; [done|constructor|done].
  - simpl. repeat (apply Forall_cons; split; [split; [done|by eexists]|]). constructor.
  - simpl. lia.
  - vm_compute. reflexivity.
Defined.

(** Linked through a field other than the member named [next], a transfer loses
    the moved objects: the chain of the destination is unchanged. *)
Lemma transfer_other_field next member_next h dst src l1 l2 :
  member_next <> next -> l1 <> [] -> queue_rep next h dst l1 ->
  (forall x, x ∈ l1 -> allocated member_next h x) ->
  exists h' dst' src', ncclIntruQueueTransfer member_next h dst src = Ret (h', dst', src') /\
    chain next h' (head dst') l1 /\ (l2 <> [] -> ~ queue_rep next h' dst' (l1 ++ l2)).
Proof.
  intros Hne Hl [Hc Hn Ht] Ha. unfold ncclIntruQueueTransfer. rewrite Ht.
  destruct (last l1) as [t|] eqn:El; [|by apply last_None in El]. simpl.
  assert (t ∈ l1) as Htl by by apply last_Some_elem_of. destruct (Ha t Htl) as [Ht0 _].
  destruct (Z.eqb_spec t nullptr); [done|]. simpl. destruct (store_spec member_next h t (head src) (Ha t Htl)) as [-> [Hfr _]].
  cbn [mbind outcome_bind]. eexists _, _, _. split; [done|]. simpl.
  assert (chain next (<[(t, member_next):=head src]> h) (head dst) l1) as Hc'.
  { eapply chain_ext; [|done]. intros x _. apply Hfr. left. congruence. }
  split; [done|]. intros Hl2 [Hc2 _ _]. simpl in Hc2. apply lseg_app in Hc2 as (m & Hc1 & Hc2).
  assert (m = nullptr) as ->.
  { clear -Hc1 Hc'. revert Hc1 Hc'. generalize (head dst). induction l1 as [|x l1 IH]; intros p; simpl; [congruence|].
    intros (-> & _ & q & Hq & H1) (_ & _ & q' & Hq' & H2). rewrite Hq in Hq'. injection Hq' as <-. by eapply IH. }
  destruct l2 as [|y l2]; [done|]. destruct Hc2 as (? & Hy & _). congruence.
Qed.

(** ** The memory pool *)

(** The pool holds the free cells [l], most recently freed first; [tail] only
    means something when there are some. *)
Record pool_rep (h : heap) (p : ncclMemoryPool) (l : list ptr) : Prop := {
  pr_chain : chain cell_next h (pool_head p) l;
  pr_nodup : NoDup l;
  pr_tail : l <> [] -> last l = Some (pool_tail p);
}.

Lemma ncclMemoryPoolFree_spec h p l x : pool_rep h p l -> allocated cell_next h x -> x ∉ l ->
  exists h' p', ncclMemoryPoolFree h p x = Ret (h', p') /\ pool_rep h' p' (x :: l) /\ framed cell_next [x] h h'.
Proof.
  intros [Hch Hnd Ht] Hx Hxl. unfold ncclMemoryPoolFree.
  destruct (store_spec cell_next h x (pool_head p) Hx) as [-> Hf]. cbn [mbind outcome_bind].
  rewrite (chain_head _ _ _ _ Hch). eexists _, _. split; [done|]. split; [|done]. split.
  - split; [done|]. split; [apply Hx|]. exists (pool_head p). rewrite lookup_insert_eq. split; [done|].
    eapply chain_ext; [|done]. intros y Hy. apply lookup_insert_ne. intros [= ->]. done.
  - by apply NoDup_cons.
  - intros _. destruct l as [|y l]; [done|]. rewrite last_cons_cons. by apply Ht.
Qed.

Lemma ncclMemoryPoolAlloc_spec {stack} (allocate : heap -> stack -> outcome (heap * stack * ptr)) h p l x b :
  pool_rep h p (x :: l) ->
  exists h' p', ncclMemoryPoolAlloc stack allocate h p b = Ret (h', p', b, x) /\ pool_rep h' p' l /\ framed cell_next [x] h h'.
Proof.
  intros [Hch Hnd Ht]. pose proof (chain_allocated _ _ _ _ _ x Hch ltac:(constructor)) as Ha.
  destruct Hch as (Hh & Hx & q & Hq & Hch). apply NoDup_cons in Hnd as [Hxl Hnd].
  unfold ncclMemoryPoolAlloc. rewrite Hh. destruct (Z.eqb_spec x nullptr); [done|]. simpl. unfold load. rewrite Hq.
  cbn [mbind outcome_bind]. destruct (store_spec cell_next h x nullptr Ha) as [-> Hf]. cbn [mbind outcome_bind].
  eexists _, _. split; [done|]. split; [|done]. split; [|done|].
  - eapply chain_ext; [|done]. intros y Hy. apply lookup_insert_ne. intros [= ->]. done.
  - intros Hl. simpl. specialize (Ht ltac:(done)). destruct l as [|y l]; [done|]. by rewrite last_cons_cons in Ht.
Qed.

(** The memory pool is a free list that never loses or duplicates a cell: with
    two pools of disjoint free cells, freeing an object puts it first, allocating
    hands out the first cell and keeps the rest, and [TakeAll] moves all cells of
    one pool in front of those of the other and leaves the first empty, whether or
    not either of them is empty. *)
Theorem ncclMemoryPool_freelist {stack} (allocate : heap -> stack -> outcome (heap * stack * ptr)) h me from l1 l2 x b :
  pool_rep h me l1 -> pool_rep h from l2 -> NoDup (l1 ++ l2) -> allocated cell_next h x -> x ∉ l1 ++ l2 ->
  (exists h' me', ncclMemoryPoolFree h me x = Ret (h', me') /\ pool_rep h' me' (x :: l1) /\ pool_rep h' from l2 /\
     exists h'' me'', ncclMemoryPoolAlloc stack allocate h' me' b = Ret (h'', me'', b, x) /\ pool_rep h'' me'' l1) /\
  (exists h' me' from', ncclMemoryPoolTakeAll h me from = Ret (h', me', from') /\
     pool_rep h' me' (l2 ++ l1) /\ pool_rep h' from' []).
Proof.
  intros Hme Hfrom Hnd Hx Hxl. apply NoDup_app in Hnd as (Hn1 & Hd & Hn2). rewrite elem_of_app in Hxl. split.
  - destruct (ncclMemoryPoolFree_spec h me l1 x Hme Hx ltac:(tauto)) as (h' & me' & -> & Hme' & Hfr).
    exists h', me'. split; [done|]. split; [done|]. split.
    + destruct Hfrom as [Hc ? ?]. split; [|done|done]. eapply chain_ext; [|done]. intros y Hy. apply Hfr. right.
      intros ->%list_elem_of_singleton. tauto.
    + destruct (ncclMemoryPoolAlloc_spec allocate h' me' l1 x b Hme') as (h'' & me'' & Hal & Hr & _). eauto.
  - destruct Hme as [Hc1 _ Ht1], Hfrom as [Hc2 _ Ht2]. unfold ncclMemoryPoolTakeAll.
    rewrite (chain_head _ _ _ _ Hc2). destruct l2 as [|y l2]; simpl.
    + eexists _, _, _. split; [done|]. split; [by split|]. by split.
    + specialize (Ht2 ltac:(done)). assert (pool_tail from ∈ y :: l2) as Hin by by apply last_Some_elem_of.
      pose proof (chain_allocated _ _ _ _ _ _ Hc2 Hin) as Ha.
      destruct (store_spec cell_next h (pool_tail from) (pool_head me) Ha) as [-> Hfr]. cbn [mbind outcome_bind].
      assert (NoDup ((y :: l2) ++ l1)) as Hnd' by (apply NoDup_app; split; [done|split; [|done]]; intros z Hz Hz1; by apply (Hd z)).
      eexists _, _, _. split; [done|]. split; [|split; [done|constructor|done]]. split; [|done|].
      * by apply (lseg_join cell_next h (pool_head from) (y :: l2) l1 (pool_tail from) (pool_head me) nullptr nullptr).
      * intros _. change (y :: l2 ++ l1) with ((y :: l2) ++ l1). rewrite last_app. simpl. rewrite (chain_head _ _ _ _ Hc1).
        destruct l1 as [|z l1]; [done|]. by rewrite Ht1.
Qed.

Lemma ncclMemoryPool_freelist_witness :
  let h : heap := list_to_map [((1, 0), 2); ((2, 0), 0); ((3, 0), 0); ((4, 0), 77)] in
  (exists h' me', ncclMemoryPoolFree h (MkPool 1 2) 4 = Ret (h', me') /\ pool_rep h' me' [4; 1; 2] /\ pool_rep h' (MkPool 3 3) [3] /\
     exists h'' me'', ncclMemoryPoolAlloc unit (fun _ _ => Stuck) h' me' tt = Ret (h'', me'', tt, 4) /\ pool_rep h'' me'' [1; 2]) /\
  (exists h' me' from', ncclMemoryPoolTakeAll h (MkPool 1 2) (MkPool 3 3) = Ret (h', me', from') /\
     pool_rep h' me' ([3] ++ [1; 2]) /\ pool_rep h' from' []).
Proof.
  intros h. apply (ncclMemoryPool_freelist (fun _ _ => Stuck) h (MkPool 1 2) (MkPool 3 3) [1; 2] [3] 4 tt).
  - split; [|by apply (bool_decide_unpack _); vm_compute|done]. split; [done|]. split; [done|]. exists 2. split; [done|].
    split; [done|]. split; [done|]. by exists 0.
  - split; [|by apply (bool_decide_unpack _); vm_compute|done]. split; [done|]. split; [done|]. by exists 0.
  - by apply (bool_decide_unpack _); vm_compute.
  - split; [done|]. by exists 77.
  - by apply (bool_decide_unpack _); vm_compute.
Defined.
