(* ===== verification/Mpsc.v ===== *)
(** * The multi-producer single-consumer queue (src/src/include/utils.h)

    [ncclIntruQueueMpsc] as a step relation: one transition per atomic access of
    the C++ code, interleaved arbitrarily (sequentially consistent accesses).
    Any number of producers run [Enqueue], each on an object of its own; one
    consumer runs [DequeueAll] and [Abandon].  The condition variable only puts
    the consumer to sleep and is represented by the [0x1] mark it leaves in
    [tail]; clocks and yields are not modelled. *)
From stdpp Require Import relations.
From S2P Require Import Prelude.

(** Where the producer of an object is in [ncclIntruQueueMpscEnqueue]. *)
Inductive producer :=
  | PIdle                  (* not called yet *)
  | PStored                (* x->next = nullptr done *)
  | PExch (utail : Z)      (* exchanged me->tail, got [utail] *)
  | PDone (ret : bool).    (* linked, returns [utail != 0x2] *)

(** Where the consumer is.  [ab]: in [Abandon] rather than [DequeueAll]. *)
Inductive consumer :=
  | CIdle                          (* outside, or polling me->head *)
  | CLoaded (ab : bool) (hd : Z)      (* loaded a non-null head *)
  | CStored (ab : bool) (hd : Z)      (* me->head = nullptr done *)
  | CWalk (hd tl x : Z).              (* exchanged me->tail, walking *)

(** Shared memory, program counters, and ghost state: the objects exchanged into
    [tail] since it was last taken, those of the walk in progress, the chains
    returned so far, and the order of all exchanges. *)
Record state := MkState {
  head : Z; tail : Z; next : Z -> Z; prod : Z -> producer; cons_ : consumer;
  pending : list Z; taken : list Z; returned : list (Z * list Z); history : list Z }.

Definition upd {A} (f : Z -> A) (x : Z) (v : A) : Z -> A := fun y => if y =? x then v else f y.

Definition ncclIntruQueueMpscConstruct (junk : Z -> Z) : state :=
  MkState 0 0 junk (fun _ => PIdle) CIdle [] [] [] [].

Definition ncclIntruQueueMpscEmpty (s : state) : bool := tail s <=? 2.

(** [utail <= 0x2 ? &me->head : &(prev->*next)] gets [x]. *)
Definition link (s : state) (u x : Z) : Z * (Z -> Z) :=
  if u <=? 2 then (x, next s) else (head s, upd (next s) u x).

(** The accesses of [ncclIntruQueueMpscEnqueue]: clear the link of [x], exchange
    [tail], write the predecessor's link (or [head]). *)
Definition do_store (s : state) (x : Z) : state :=
  MkState (head s) (tail s) (upd (next s) x 0) (upd (prod s) x PStored) (cons_ s)
    (pending s) (taken s) (returned s) (history s).
Definition do_exchange (s : state) (x : Z) : state :=
  MkState (head s) x (next s) (upd (prod s) x (PExch (tail s))) (cons_ s)
    (pending s ++ [x]) (taken s) (returned s) (history s ++ [x]).
Definition do_link (s : state) (u x : Z) : state :=
  MkState (fst (link s u x)) (tail s) (snd (link s u x)) (upd (prod s) x (PDone (negb (u =? 2)))) (cons_ s)
    (pending s) (taken s) (returned s) (history s).

Inductive step : state -> state -> Prop :=
  (* ncclIntruQueueMpscEnqueue *)
  | enqueue_store s x : 2 < x -> prod s x = PIdle -> step s (do_store s x)
  | enqueue_exchange s x : prod s x = PStored -> step s (do_exchange s x)
  | enqueue_link s x u : prod s x = PExch u -> step s (do_link s u x)
  (* ncclIntruQueueMpscDequeueAll: a null head returns or waits; waiting sets
     tail from 0x0 or 0x1 to 0x1 *)
  | dequeue_wait s : cons_ s = CIdle -> tail s = 0 \/ tail s = 1 ->
      step s (MkState (head s) 1 (next s) (prod s) CIdle (pending s) (taken s) (returned s) (history s))
  (* ncclIntruQueueMpscAbandon of an empty queue *)
  | abandon_empty s : cons_ s = CIdle -> tail s = 0 ->
      step s (MkState (head s) 2 (next s) (prod s) CIdle (pending s) (taken s) (returned s) (history s))
  (* both, on a non-null head *)
  | take_load s ab : cons_ s = CIdle -> head s <> 0 ->
      step s (MkState (head s) (tail s) (next s) (prod s) (CLoaded ab (head s))
                (pending s) (taken s) (returned s) (history s))
  | take_store s ab h : cons_ s = CLoaded ab h ->
      step s (MkState 0 (tail s) (next s) (prod s) (CStored ab h)
                (pending s) (taken s) (returned s) (history s))
  | take_exchange s (ab : bool) h : cons_ s = CStored ab h ->
      step s (MkState (head s) (if ab then 2 else 0) (next s) (prod s)
                (CWalk h (if tail s <=? 2 then 0 else tail s) h) [] (pending s) (returned s) (history s))
  | take_walk s h t x : cons_ s = CWalk h t x -> x <> t -> next s x <> 0 ->
      step s (MkState (head s) (tail s) (next s) (prod s) (CWalk h t (next s x))
                (pending s) (taken s) (returned s) (history s))
  | take_return s h t : cons_ s = CWalk h t t ->
      step s (MkState (head s) (tail s) (next s) (prod s) CIdle
                (pending s) [] (returned s ++ [(h, taken s)]) (history s)).

Inductive reachable (junk : Z -> Z) : state -> Prop :=
  | reach_init : reachable junk (ncclIntruQueueMpscConstruct junk)
  | reach_step s s' : reachable junk s -> step s s' -> reachable junk s'.

(** ** The invariant *)

Definition is_done (p : producer) : bool := match p with PDone _ => true | _ => false end.

(** [b] follows [a]: linked, or its producer is about to link it. *)
Definition link_ok (nx : Z -> Z) (pr : Z -> producer) (a b : Z) : Prop :=
  (pr b = PExch a /\ nx a = 0) \/ (is_done (pr b) = true /\ nx a = b).

(** Consecutive objects are linked and the last one ends the chain. *)
Fixpoint linked (nx : Z -> Z) (pr : Z -> producer) (l : list Z) : Prop :=
  match l with
  | [] => True
  | a :: l' => match l' with [] => nx a = 0 | b :: _ => link_ok nx pr a b end /\ linked nx pr l'
  end.

(** Objects linked from [p] to null, as the caller of [DequeueAll] follows them. *)
Fixpoint chainf (nx : Z -> Z) (p : Z) (l : list Z) : Prop :=
  match l with [] => p = 0 | x :: l => p = x /\ x <> 0 /\ chainf nx (nx x) l end.

(** The first pending object and [head], by the consumer's position. *)
Definition head_ok (s : state) : Prop :=
  match cons_ s with
  | CLoaded _ h => head s = h /\ exists l, pending s = h :: l /\ is_done (prod s h) = true
  | CStored _ h => head s = 0 /\ exists l, pending s = h :: l /\ is_done (prod s h) = true
  | _ => match pending s with
         | [] => head s = 0
         | g :: _ => (exists u, u <= 2 /\ prod s g = PExch u /\ head s = 0) \/ (is_done (prod s g) = true /\ head s = g)
         end
  end.

(** The walk: everything up to [x] is linked. *)
Definition walk_ok (s : state) : Prop :=
  match cons_ s with
  | CWalk h t x => exists l1 l2, taken s = l1 ++ x :: l2 /\ last (taken s) = Some t /\ List.head (taken s) = Some h /\
      Forall (fun y => is_done (prod s y) = true) (l1 ++ [x])
  | _ => taken s = []
  end.

Definition done_lists (s : state) : list Z := concat (snd <$> returned s).

Record inv (s : state) : Prop := {
  inv_history : history s = done_lists s ++ taken s ++ pending s;
  inv_nodup : NoDup (history s);
  inv_started x : x ∈ history s <-> exists u, prod s x = PExch u \/ is_done (prod s x) = true;
  inv_addr x : prod s x <> PIdle -> 2 < x;
  inv_stored x : prod s x = PStored -> next s x = 0;
  inv_tail : match last (pending s) with Some t => tail s = t | None => 0 <= tail s <= 2 end;
  inv_pending : linked (next s) (prod s) (pending s);
  inv_taken : linked (next s) (prod s) (taken s);
  inv_head : head_ok s;
  inv_walk : walk_ok s;
  inv_done : Forall (fun x => is_done (prod s x) = true) (done_lists s);
  inv_returned : Forall (fun r => chainf (next s) (fst r) (snd r)) (returned s);
}.

(** ** Preservation *)

Lemma upd_eq {A} (f : Z -> A) x v : upd f x v x = v.
Proof. unfold upd. by rewrite Z.eqb_refl. Qed.
Lemma upd_ne {A} (f : Z -> A) x y v : y <> x -> upd f x v y = f y.
Proof. intros. unfold upd. by destruct (Z.eqb_spec y x). Qed.

Lemma linked_ext nx pr nx' pr' l :
  (forall y, y ∈ l -> nx' y = nx y) -> (forall y, y ∈ tl l -> pr' y = pr y) -> linked nx pr l -> linked nx' pr' l.
Proof.
  induction l as [|a l IH]; [done|]. intros Hn Hp [Hl Hr]. simpl in Hp. split.
  - destruct l as [|b l]; [by rewrite Hn by constructor|]. unfold link_ok in *.
    rewrite Hn, Hp by constructor. done.
  - apply IH; [|intros y Hy; apply Hp; by destruct l; [|constructor]|done]. intros y Hy. apply Hn. by constructor.
Qed.

Lemma linked_snoc nx pr l x t : linked nx pr l -> x ∉ l -> last l = Some t -> nx x = 0 ->
  linked nx (upd pr x (PExch t)) (l ++ [x]).
Proof.
  induction l as [|a l IH]; [done|]. intros [Hl Hr] Hx Ht Hnx. apply not_elem_of_cons in Hx as [Hxa Hx].
  destruct l as [|b l].
  - simpl in *. injection Ht as <-. split; [|done]. left. by rewrite upd_eq.
  - split; [|by apply IH]. unfold link_ok in *. simpl. apply not_elem_of_cons in Hx as [Hxb _].
    by rewrite upd_ne by done.
Qed.

(** The predecessor of an unlinked object is the tail it got. *)
Lemma linked_pred nx pr a l x u : linked nx pr (a :: l) -> x ∈ l -> pr x = PExch u -> u ∈ a :: l.
Proof.
  revert a. induction l as [|b l IH]; intros a [Hl Hr] Hx Hp; [by apply not_elem_of_nil in Hx|].
  apply elem_of_cons in Hx as [->|Hx].
  - destruct Hl as [[Hb _]|[Hb _]]; rewrite Hp in Hb; [|done]. injection Hb as ->. constructor.
  - right. by eapply IH.
Qed.

Lemma linked_link nx pr a l x u r : linked nx pr (a :: l) -> NoDup (a :: l) -> x ∈ l -> pr x = PExch u ->
  linked (upd nx u x) (upd pr x (PDone r)) (a :: l).
Proof.
  revert a. induction l as [|b l IH]; intros a Hlk Hnd Hx Hp; [by apply not_elem_of_nil in Hx|].
  pose proof Hlk as [Hl Hr]. apply NoDup_cons in Hnd as [Ha Hnd]. destruct (decide (x = b)) as [->|Hxb].
  - destruct Hl as [[Hb Hna]|[Hb _]]; rewrite Hp in Hb; [|done]. injection Hb as ->. split.
    + right. by rewrite !upd_eq.
    + eapply linked_ext; [| |exact Hr].
      * intros y Hy. apply upd_ne. intros ->. done.
      * intros y Hy. simpl in Hy. apply upd_ne. intros ->. by apply NoDup_cons in Hnd as [? _].
  - apply elem_of_cons in Hx as [|Hx]; [done|]. pose proof (linked_pred _ _ _ _ _ _ Hr Hx Hp) as Hu. split; [|by apply IH].
    unfold link_ok in *. rewrite (upd_ne pr) by done. rewrite (upd_ne nx) by (intros ->; done). done.
Qed.

(** A fully linked segment is the chain a caller sees. *)
Lemma linked_chain nx pr a l : linked nx pr (a :: l) -> Forall (fun y => is_done (pr y) = true) l ->
  Forall (fun y => y <> 0) (a :: l) -> chainf nx a (a :: l).
Proof.
  revert a. induction l as [|b l IH]; intros a [Hl Hr] Hd Hz.
  - apply Forall_cons in Hz as [Hz _]. simpl. done.
  - apply Forall_cons in Hd as [Hb Hd]. apply Forall_cons in Hz as [Ha Hz]. split; [done|]. split; [done|].
    destruct Hl as [[Hp _]|[_ ->]]; [by rewrite Hp in Hb|]. by apply IH.
Qed.

Lemma chainf_ext nx nx' p l : (forall y, y ∈ l -> nx' y = nx y) -> chainf nx p l -> chainf nx' p l.
Proof.
  revert p. induction l as [|x l IH]; intros p He; [done|]. intros (-> & Hx & Hc). split; [done|]. split; [done|].
  rewrite He by constructor. apply IH; [|done]. intros y Hy. apply He. by constructor.
Qed.

Lemma nodup_split (l1 k1 l2 k2 : list Z) x : NoDup (l1 ++ x :: l2) -> l1 ++ x :: l2 = k1 ++ x :: k2 -> l1 = k1.
Proof.
  revert k1. induction l1 as [|a l1 IH]; intros [|b k1] Hnt Ek; simplify_eq/=; try done.
  - apply NoDup_cons in Hnt as [Ha _]. exfalso. apply Ha, elem_of_app. right. constructor.
  - apply NoDup_cons in Hnt as [Ha _]. exfalso. apply Ha, elem_of_app. right. constructor.
  - f_equal. apply NoDup_cons in Hnt as [_ Hnt]. by apply IH.
Qed.

Section preservation.
  Context (s : state) (Hinv : inv s).

Lemma in_history x : x ∈ done_lists s \/ x ∈ taken s \/ x ∈ pending s <-> x ∈ history s.
Proof. rewrite (inv_history _ Hinv), !elem_of_app. done. Qed.

(** An object that waits to be linked is the first pending one with [head] to
    write, or has its predecessor in the same list. *)
Lemma exch_place x u : prod s x = PExch u ->
  (u <= 2 /\ exists l, pending s = x :: l /\ head s = 0 /\
     match cons_ s with CLoaded _ _ | CStored _ _ => False | _ => True end) \/
  (2 < u /\ exists a l, (pending s = a :: l \/ taken s = a :: l) /\ x ∈ l).
Proof.
  intros Hp. destruct Hinv. assert (x ∈ history s) as Hx by (apply inv_started0; eauto).
  apply in_history in Hx as [Hx|[Hx|Hx]].
  - rewrite Forall_forall in inv_done0. specialize (inv_done0 x Hx). by rewrite Hp in inv_done0.
  - right. destruct (taken s) as [|a l] eqn:E; [by apply not_elem_of_nil in Hx|].
    apply elem_of_cons in Hx as [->|Hx].
    + exfalso. unfold walk_ok in inv_walk0. destruct (cons_ s); try (by rewrite E in inv_walk0).
      destruct inv_walk0 as (l1 & l2 & Ht & _ & _ & Hd). rewrite E in Ht.
      assert (is_done (prod s a) = true) as Hda; [|by rewrite Hp in Hda].
      rewrite Forall_forall in Hd. apply Hd. destruct l1; simplify_eq/=; by constructor.
    + split; [|by eauto]. pose proof (linked_pred _ _ _ _ _ _ inv_taken0 Hx Hp) as Hu. apply inv_addr0.
      assert (u ∈ history s) as Huh by (apply in_history; rewrite E; auto).
      apply inv_started0 in Huh as (w & Hw). intros E'. rewrite E' in Hw. naive_solver.
  - destruct (pending s) as [|a l] eqn:E; [by apply not_elem_of_nil in Hx|].
    apply elem_of_cons in Hx as [->|Hx].
    + left. unfold head_ok in inv_head0. rewrite E in inv_head0.
      destruct (cons_ s) as [|ab h|ab h|h t y].
      * destruct inv_head0 as [(w & Hw & Hpw & Hh)|[Hd _]]; [|by rewrite Hp in Hd]. rewrite Hp in Hpw. simplify_eq. eauto.
      * destruct inv_head0 as (_ & l' & E' & Hd). simplify_eq. by rewrite Hp in Hd.
      * destruct inv_head0 as (_ & l' & E' & Hd). simplify_eq. by rewrite Hp in Hd.
      * destruct inv_head0 as [(w & Hw & Hpw & Hh)|[Hd _]]; [|by rewrite Hp in Hd]. rewrite Hp in Hpw. simplify_eq. eauto.
    + right. split; [|by eauto]. pose proof (linked_pred _ _ _ _ _ _ inv_pending0 Hx Hp) as Hu. apply inv_addr0.
      assert (u ∈ history s) as Huh by (apply in_history; rewrite E; auto).
      apply inv_started0 in Huh as (w & Hw). intros E'. rewrite E' in Hw. naive_solver.
Qed.

Lemma returned_in r y : r ∈ returned s -> y ∈ snd r -> y ∈ done_lists s.
Proof.
  intros Hr Hy. unfold done_lists. apply list_elem_of_In, in_concat. exists (snd r).
  rewrite <- !list_elem_of_In. split; [|done]. apply list_elem_of_fmap. by exists r.
Qed.

Lemma not_started x : (prod s x = PIdle \/ prod s x = PStored) -> x ∉ history s.
Proof. intros Hp [u Hu]%(inv_started _ Hinv). destruct Hp as [Hp|Hp], Hu as [Hu|Hu]; rewrite Hp in Hu; done. Qed.

(** Changing the program counter and link of an object outside the queue. *)
Lemma outside_ext x nx pr : x ∉ history s ->
  (forall y, y <> x -> nx y = next s y) -> (forall y, y <> x -> pr y = prod s y) ->
  linked nx pr (pending s) /\ linked nx pr (taken s) /\
  Forall (fun y => is_done (pr y) = true) (done_lists s) /\
  Forall (fun r => chainf nx (fst r) (snd r)) (returned s).
Proof.
  intros Hx Hnx Hpr. assert (forall y, y ∈ history s -> y <> x) as Hne by (intros y Hy ->; done).
  destruct Hinv. split; [|split; [|split]].
  - eapply linked_ext; [| |done]; intros y Hy; [apply Hnx|apply Hpr]; apply Hne, in_history; [auto|].
    right. right. destruct (pending s); [done|]. by constructor.
  - eapply linked_ext; [| |done]; intros y Hy; [apply Hnx|apply Hpr]; apply Hne, in_history; [auto|].
    right. left. destruct (taken s); [done|]. by constructor.
  - rewrite Forall_forall in *. intros y Hy. rewrite Hpr; [by apply inv_done0|]. apply Hne, in_history. auto.
  - rewrite Forall_forall in *. intros r Hr. eapply chainf_ext; [|by apply inv_returned0]. intros y Hy. apply Hnx, Hne, in_history.
    left. by apply (returned_in r).
Qed.

Lemma head_ok_ext pr nx tl ta re hi : (forall y, List.head (pending s) = Some y -> pr y = prod s y) ->
  head_ok (MkState (head s) tl nx pr (cons_ s) (pending s) ta re hi).
Proof.
  intros Hpr. pose proof (inv_head _ Hinv) as H. unfold head_ok in *. simpl.
  destruct (cons_ s) as [|ab h|ab h|h t y].
  - destruct (pending s) as [|g l]; [done|]. rewrite Hpr by done. done.
  - destruct H as (? & l & E & ?). split; [done|]. exists l. rewrite Hpr by (by rewrite E). done.
  - destruct H as (? & l & E & ?). split; [done|]. exists l. rewrite Hpr by (by rewrite E). done.
  - destruct (pending s) as [|g l]; [done|]. rewrite Hpr by done. done.
Qed.

Lemma walk_ok_ext pr nx hd tl pe re hi : (forall y, y ∈ taken s -> is_done (prod s y) = true -> is_done (pr y) = true) ->
  walk_ok (MkState hd tl nx pr (cons_ s) pe (taken s) re hi).
Proof.
  intros Hpr. pose proof (inv_walk _ Hinv) as H. unfold walk_ok in *. simpl. destruct (cons_ s); try done.
  destruct H as (l1 & l2 & E & Hl & Hh & Hd). exists l1, l2. split; [done|]. split; [done|]. split; [done|].
  rewrite Forall_forall in *. intros y Hy. apply Hpr; [|by apply Hd]. rewrite E. set_solver.
Qed.

Lemma pres_store x : 2 < x -> prod s x = PIdle -> inv (do_store s x).
Proof.
  intros Hx2 Hp. pose proof (not_started x (or_introl Hp)) as Hx.
  destruct (outside_ext x (upd (next s) x 0) (upd (prod s) x PStored) Hx) as (H1 & H2 & H3 & H4); [intros; by apply upd_ne..|].
  assert (forall y, y ∈ history s -> upd (prod s) x PStored y = prod s y) as Hpr by (intros y Hy; apply upd_ne; intros ->; done).
  pose proof (head_ok_ext (upd (prod s) x PStored)) as Hh. pose proof (walk_ok_ext (upd (prod s) x PStored)) as Hw.
  pose proof Hinv as [Hhi Hnd Hst Had Hsn Ht _ _ _ _ _ _]. split; try done; simpl.
  - intros y. destruct (decide (y = x)) as [->|Hne]; [|by rewrite upd_ne].
    rewrite upd_eq. split; [done|]. intros (u & [|]); done.
  - intros y. destruct (decide (y = x)) as [->|Hne]; [done|]. rewrite upd_ne by done. apply Had.
  - intros y. destruct (decide (y = x)) as [->|Hne]; [by rewrite !upd_eq|]. rewrite !upd_ne by done. apply Hsn.
  - apply Hh. intros y Hy. apply Hpr, in_history. destruct (pending s); [done|]. simplify_eq/=. right. right. constructor.
  - apply Hw. intros y Hy. rewrite Hpr; [done|]. apply in_history. auto.
Qed.

Lemma pres_exchange x : prod s x = PStored -> inv (do_exchange s x).
Proof.
  intros Hp. pose proof (not_started x (or_intror Hp)) as Hx.
  destruct (outside_ext x (next s) (upd (prod s) x (PExch (tail s))) Hx) as (H1 & H2 & H3 & H4); [done|intros; by apply upd_ne|].
  assert (forall y, y ∈ history s -> upd (prod s) x (PExch (tail s)) y = prod s y) as Hpr by (intros y Hy; apply upd_ne; intros ->; done).
  pose proof (walk_ok_ext (upd (prod s) x (PExch (tail s)))) as Hw.
  assert (x ∉ pending s) as Hxp by (intros Hxp; apply Hx, in_history; auto).
  pose proof Hinv as [Hhi Hnd Hst Had Hsn Ht Hpe Hta Hh _ _ _]. split; try done; simpl.
  - rewrite Hhi. unfold done_lists. simpl. by rewrite <- !app_assoc.
  - apply NoDup_app. split; [done|]. split; [|apply NoDup_singleton]. intros y Hy ->%list_elem_of_singleton. done.
  - intros y. rewrite elem_of_app, list_elem_of_singleton. destruct (decide (y = x)) as [->|Hne].
    + rewrite upd_eq. split; [|auto]. intros _. eauto.
    + rewrite upd_ne by done. rewrite Hst. split; [intros [?|?]; done|by left].
  - intros y. destruct (decide (y = x)) as [->|Hne]; [intros _; apply Had; by rewrite Hp|]. rewrite upd_ne by done. apply Had.
  - intros y. destruct (decide (y = x)) as [->|Hne]; [by rewrite upd_eq|]. rewrite upd_ne by done. apply Hsn.
  - by rewrite last_snoc.
  - destruct (last (pending s)) as [t|] eqn:El.
    + rewrite Ht. by apply linked_snoc; [..|apply Hsn].
    + apply last_None in El. rewrite El. simpl. split; [by apply Hsn|done].
  - unfold head_ok in *. simpl. destruct (cons_ s) as [|ab h|ab h|h t y].
    + destruct (pending s) as [|g l] eqn:E; simpl in *.
      * left. exists (tail s). rewrite upd_eq. split; [lia|done].
      * rewrite Hpr by (apply in_history; rewrite E; right; right; constructor). done.
    + destruct Hh as (? & l & E & ?). split; [done|]. exists (l ++ [x]). rewrite E. split; [done|].
      rewrite Hpr by (apply in_history; rewrite E; right; right; constructor). done.
    + destruct Hh as (? & l & E & ?). split; [done|]. exists (l ++ [x]). rewrite E. split; [done|].
      rewrite Hpr by (apply in_history; rewrite E; right; right; constructor). done.
    + destruct (pending s) as [|g l] eqn:E; simpl in *.
      * left. exists (tail s). rewrite upd_eq. split; [lia|done].
      * rewrite Hpr by (apply in_history; rewrite E; right; right; constructor). done.
  - apply Hw. intros y Hy. rewrite Hpr; [done|]. apply in_history. auto.
Qed.

Lemma segments : NoDup (pending s) /\ NoDup (taken s) /\ (forall y, y ∈ taken s -> y ∉ pending s) /\
  (forall y, y ∈ done_lists s -> y ∉ taken s /\ y ∉ pending s).
Proof.
  pose proof (inv_nodup _ Hinv) as H. rewrite (inv_history _ Hinv) in H.
  apply NoDup_app in H as (_ & Hd & H). apply NoDup_app in H as (Ht & Htp & Hp).
  split_and!; try done. intros y Hy. specialize (Hd y Hy). rewrite elem_of_app in Hd. tauto.
Qed.

(** What linking [x] keeps, whatever word is written. *)
Lemma link_common x u r : prod s x = PExch u ->
  (forall y, y ∈ history s <-> exists u, upd (prod s) x (PDone r) y = PExch u \/ is_done (upd (prod s) x (PDone r) y) = true) /\
  (forall y, upd (prod s) x (PDone r) y <> PIdle -> 2 < y) /\
  (forall y, upd (prod s) x (PDone r) y = PStored -> prod s y = PStored) /\
  (forall y, is_done (prod s y) = true -> is_done (upd (prod s) x (PDone r) y) = true).
Proof.
  intros Hp. destruct Hinv as [_ _ Hst Had _ _ _ _ _ _ _ _]. split_and!; intros y; destruct (decide (y = x)) as [->|Hne];
    rewrite ?upd_eq, ?(upd_ne (prod s)) by done; try done.
  - rewrite Hst. split; intros _; exists u; auto.
  - intros _. apply Had. by rewrite Hp.
  - apply Had.
Qed.

(** The two lists and the returned chains after a link inside one of them. *)
Lemma link_inside x u r a l : prod s x = PExch u -> (pending s = a :: l \/ taken s = a :: l) -> x ∈ l ->
  linked (upd (next s) u x) (upd (prod s) x (PDone r)) (pending s) /\
  linked (upd (next s) u x) (upd (prod s) x (PDone r)) (taken s) /\
  List.head (pending s) <> Some x /\ u ∈ history s /\
  Forall (fun r => chainf (upd (next s) u x) (fst r) (snd r)) (returned s).
Proof.
  intros Hp Hal Hx. destruct segments as (Hnp & Hnt & Htp & Hd). destruct Hinv as [_ _ _ _ _ _ Hpe Hta _ _ _ Hre].
  assert (u ∈ a :: l) as Hu by (destruct Hal as [E|E]; rewrite E in *; by eapply linked_pred).
  assert (forall r y, r ∈ returned s -> y ∈ snd r -> y <> u) as Hru.
  { intros q y Hq Hy ->. apply (returned_in q) in Hy; [|done]. apply Hd in Hy. destruct Hal as [E|E]; rewrite E in Hy; tauto. }
  split_and!.
  - destruct Hal as [E|E]; [rewrite E in *; by apply linked_link|].
    eapply linked_ext; [| |exact Hpe]; intros y Hy; apply upd_ne; intros ->; eapply Htp; rewrite ?E; [|exact Hy| |].
    + done.
    + right. exact Hx.
    + by destruct (pending s); [|right].
  - destruct Hal as [E|E]; [|rewrite E in *; by apply linked_link].
    eapply linked_ext; [| |exact Hta]; intros y Hy; apply upd_ne; intros ->; eapply Htp; rewrite ?E; [exact Hy| | |].
    + done.
    + by destruct (taken s); [|right].
    + by right.
  - intros Hh. destruct Hal as [E|E].
    + rewrite E in *. simplify_eq/=. by apply NoDup_cons in Hnp as [? _].
    + apply (Htp x); [rewrite E; by right|]. destruct (pending s); [done|]. simplify_eq/=. constructor.
  - apply in_history. destruct Hal as [E|E]; rewrite E; auto.
  - rewrite Forall_forall in *. intros q Hq. eapply chainf_ext; [|by apply Hre]. intros y Hy. apply upd_ne. by eapply Hru.
Qed.

Lemma pres_link x u r : prod s x = PExch u ->
  inv (MkState (fst (link s u x)) (tail s) (snd (link s u x)) (upd (prod s) x (PDone r)) (cons_ s)
         (pending s) (taken s) (returned s) (history s)).
Proof.
  intros Hp. destruct (link_common x u r Hp) as (L1 & L2 & L3 & L4). destruct segments as (Hnp & Hnt & Htp & Hdj).
  pose proof Hinv as [Hhi Hnd Hst Had Hsn Ht Hpe Hta Hh Hw Hdn Hre].
  assert (Forall (fun y => is_done (upd (prod s) x (PDone r) y) = true) (done_lists s)) as Hdn'
    by (eapply Forall_impl; [exact Hdn|]; auto).
  pose proof (walk_ok_ext (upd (prod s) x (PDone r))) as Hw'.
  unfold link. destruct (exch_place x u Hp) as [(Hu & l & E & Hh0 & Hc)|(Hu & a & l & Hal & Hx)].
  - rewrite (proj2 (Z.leb_le u 2)) by done. simpl. split; try done; simpl; try by auto.
    + rewrite E in *. eapply linked_ext; [| |exact Hpe]; [done|]. intros y Hy. simpl in Hy. apply upd_ne. intros ->.
      by apply NoDup_cons in Hnp as [? _].
    + eapply linked_ext; [| |exact Hta]; [done|]. intros y Hy. apply upd_ne. intros ->. eapply (Htp x).
      * by destruct (taken s); [|right].
      * rewrite E. constructor.
    + unfold head_ok. simpl. rewrite E. destruct (cons_ s); try done; right; by rewrite upd_eq.
  - rewrite (proj2 (Z.leb_gt u 2)) by done. simpl. destruct (link_inside x u r a l Hp Hal Hx) as (H1 & H2 & H3 & H4 & H5).
    split; try done; simpl; try by auto.
    + intros y Hy. apply L3 in Hy. rewrite upd_ne; [by apply Hsn|]. intros ->. exact (not_started u (or_intror Hy) H4).
    + apply head_ok_ext. intros y Hy. apply upd_ne. intros ->. done.
Qed.

(** The steps of the consumer. *)
Lemma pres_mark m : 0 <= tail s <= 2 -> 0 <= m <= 2 ->
  inv (MkState (head s) m (next s) (prod s) (cons_ s) (pending s) (taken s) (returned s) (history s)).
Proof.
  intros Hm0 Hm.
  pose proof Hinv as [Hhi Hnd Hst Had Hsn Ht Hpe Hta Hh Hw Hdn Hre]. split; try done; simpl.
  destruct (last (pending s)) as [t|] eqn:E; [|done]. apply last_Some_elem_of in E.
  assert (2 < t); [|lia]. assert (t ∈ history s) as Hth by (apply in_history; auto).
  apply Had. apply Hst in Hth as (w & Hw'). intros E'. rewrite E' in Hw'. by destruct Hw'.
Qed.

Lemma pres_load ab : cons_ s = CIdle -> head s <> 0 ->
  inv (MkState (head s) (tail s) (next s) (prod s) (CLoaded ab (head s)) (pending s) (taken s) (returned s) (history s)).
Proof.
  intros Hc Hnz. pose proof Hinv as [Hhi Hnd Hst Had Hsn Ht Hpe Hta Hh Hw Hdn Hre].
  unfold head_ok, walk_ok in *. rewrite Hc in *. split; try done; unfold head_ok; simpl.
  split; [done|]. destruct (pending s) as [|g l]; [done|].
  destruct Hh as [(w & _ & _ & ?)|[Hd Hg]]; [done|]. rewrite Hg. eauto.
Qed.

Lemma pres_clear ab h : cons_ s = CLoaded ab h ->
  inv (MkState 0 (tail s) (next s) (prod s) (CStored ab h) (pending s) (taken s) (returned s) (history s)).
Proof.
  intros Hc. pose proof Hinv as [Hhi Hnd Hst Had Hsn Ht Hpe Hta Hh Hw Hdn Hre].
  unfold head_ok, walk_ok in *. rewrite Hc in *. split; try done; unfold head_ok; simpl. naive_solver.
Qed.

Lemma pres_take (ab : bool) h : cons_ s = CStored ab h ->
  inv (MkState (head s) (if ab then 2 else 0) (next s) (prod s)
         (CWalk h (if tail s <=? 2 then 0 else tail s) h) [] (pending s) (returned s) (history s)).
Proof.
  intros Hc. pose proof Hinv as [Hhi Hnd Hst Had Hsn Ht Hpe Hta Hh Hw Hdn Hre].
  unfold head_ok, walk_ok in *. rewrite Hc in *. destruct Hh as (Hh0 & l & E & Hd).
  split; try done; simpl.
  - rewrite Hhi, Hw. unfold done_lists. simpl. by rewrite app_nil_r.
  - destruct ab; lia.
  - exists [], l. rewrite E. split; [done|]. split_and!; [|done|by constructor].
    destruct (last (h :: l)) as [t|] eqn:El; [|by apply last_None in El]. rewrite E, El in Ht. subst t.
    assert (2 < tail s); [|by rewrite (proj2 (Z.leb_gt _ _))].
    apply last_Some_elem_of in El. assert (tail s ∈ history s) as Hth by (apply in_history; rewrite E; auto).
    apply Had. apply Hst in Hth as (w & Hw'). intros E'. rewrite E' in Hw'. by destruct Hw'.
Qed.

(** A walk that sees a non-null link moves to the next taken object. *)
Lemma walk_next h t x : cons_ s = CWalk h t x -> x <> t -> next s x <> 0 ->
  exists l1 l2, taken s = l1 ++ x :: next s x :: l2 /\ is_done (prod s (next s x)) = true.
Proof.
  intros Hc Hxt Hnx. pose proof Hinv as [_ _ _ _ _ _ _ Hta _ Hw _ _].
  unfold walk_ok in *. rewrite Hc in *. destruct Hw as (l1 & l2 & E & Hl & _ & _). rewrite E in *.
  destruct l2 as [|b l2]; [rewrite last_snoc in Hl; congruence|]. exists l1, l2.
  clear -Hta Hnx. induction l1 as [|a l1 IH]; [|destruct (IH (proj2 Hta)) as [E ?]; simpl; by rewrite E].
  destruct Hta as [[[_ ?]|[Hd <-]] _]; [done|]. done.
Qed.

Lemma pres_walk h t x : cons_ s = CWalk h t x -> x <> t -> next s x <> 0 ->
  inv (MkState (head s) (tail s) (next s) (prod s) (CWalk h t (next s x)) (pending s) (taken s) (returned s) (history s)).
Proof.
  intros Hc Hxt Hnx. destruct (walk_next h t x Hc Hxt Hnx) as (k1 & k2 & Ek & Hdk). destruct segments as (_ & Hnt & _ & _).
  pose proof Hinv as [Hhi Hnd Hst Had Hsn Ht Hpe Hta Hh Hw Hdn Hre]. split; try done; simpl.
  - unfold head_ok in *. by rewrite Hc in *.
  - unfold walk_ok in *. rewrite Hc in *. simpl. destruct Hw as (l1 & l2 & E & Hl & Hhd & Hd).
    exists (k1 ++ [x]), k2. rewrite <- app_assoc. split_and!; try done.
    apply Forall_app. split; [|by constructor].
    assert (l1 = k1) as <-; [|done]. rewrite E in Ek, Hnt. by eapply nodup_split.
Qed.

(** The end of a walk: the chain from the head is the whole taken list. *)
Lemma walk_end h t : cons_ s = CWalk h t t -> Forall (fun y => is_done (prod s y) = true) (taken s) /\ chainf (next s) h (taken s).
Proof.
  intros Hc. destruct segments as (_ & Hnt & _ & _). pose proof Hinv as [_ _ Hst Had _ _ _ Hta _ Hw _ _].
  unfold walk_ok in *. rewrite Hc in *. destruct Hw as (l1 & l2 & E & Hl & Hh & Hd).
  assert (l2 = []) as ->.
  { destruct (decide (l2 = [])) as [|Hne]; [done|]. exfalso. rewrite E in Hl, Hnt.
    rewrite last_app_cons in Hl. destruct l2 as [|b l2]; [done|].
    apply NoDup_app in Hnt as (_ & _ & Hnt). apply NoDup_cons in Hnt as [Hnt _]. apply Hnt.
    apply last_Some_elem_of. done. }
  rewrite <- E in Hd. split; [done|]. destruct (taken s) as [|a l] eqn:Et; [by destruct l1|]. simplify_eq/=.
  apply linked_chain with (pr := prod s); [done|by apply Forall_cons in Hd as [_ ?]|].
  apply Forall_forall. intros y Hy. assert (2 < y); [|lia].
  assert (y ∈ history s) as Hyh by (apply in_history; rewrite Et; auto).
  apply Had. apply Hst in Hyh as (w & Hw'). intros E'. rewrite E' in Hw'. by destruct Hw'.
Qed.

Lemma pres_return h t : cons_ s = CWalk h t t ->
  inv (MkState (head s) (tail s) (next s) (prod s) CIdle (pending s) [] (returned s ++ [(h, taken s)]) (history s)).
Proof.
  intros Hc. destruct (walk_end h t Hc) as [Hd Hch].
  pose proof Hinv as [Hhi Hnd Hst Had Hsn Ht Hpe Hta Hh Hw Hdn Hre].
  assert (forall hd tl nx pr c pe ta hi, done_lists (MkState hd tl nx pr c pe ta (returned s ++ [(h, taken s)]) hi) =
            done_lists s ++ taken s) as Hdl.
  { intros. unfold done_lists. simpl. by rewrite fmap_app, concat_app; simpl; rewrite app_nil_r. }
  split; try done; simpl.
  - rewrite Hdl, Hhi. by rewrite <- app_assoc.
  - unfold head_ok in *. by rewrite Hc in *.
  - rewrite Hdl. by apply Forall_app.
  - apply Forall_app. split; [done|]. by constructor.
Qed.

End preservation.

Lemma inv_step s s' : inv s -> step s s' -> inv s'.
Proof.
  intros Hi Hs. destruct Hs.
  - by apply pres_store.
  - by apply pres_exchange.
  - by apply pres_link.
  - rewrite <- H. apply pres_mark; [done|lia..].
  - rewrite <- H. apply pres_mark; [done|lia..].
  - by apply pres_load.
  - by apply pres_clear.
  - by apply pres_take.
  - by apply pres_walk.
  - by eapply pres_return.
Qed.

Lemma inv_init junk : inv (ncclIntruQueueMpscConstruct junk).
Proof.
  split; simpl; try done; try constructor.
  - intros H. by apply not_elem_of_nil in H.
  - intros (u & [|]); done.
Qed.

Lemma inv_reachable junk s : reachable junk s -> inv s.
Proof. induction 1; [apply inv_init|by eapply inv_step]. Qed.

(** ** Delivery *)

(** Steps of the consumer alone: the producers' program counters do not move. *)
Definition cstep (s s' : state) : Prop := step s s' /\ prod s' = prod s /\ history s' = history s.

Lemma inv_csteps s s' : inv s -> rtc cstep s s' -> inv s' /\ prod s' = prod s /\ history s' = history s.
Proof.
  intros Hi Hr. induction Hr as [|s1 s2 s3 (Hs & Hp & Hh) _ IH]; [done|].
  destruct IH as (? & -> & ->); [by eapply inv_step|]. done.
Qed.

Section delivery.
  Context (s : state) (Hquiet : forall x u, prod s x <> PExch u).

(** With no producer between its exchange and its link, links are all made. *)
Lemma quiet_link a l1 b l2 : linked (next s) (prod s) (l1 ++ a :: b :: l2) -> next s a = b.
Proof.
  induction l1 as [|c l1 IH]; [|intros H; apply IH, H]. intros [[[H _]|[_ H]] _]; [by apply Hquiet in H|done].
Qed.
End delivery.

Lemma finish_walk l2 : forall s h t x l1, inv s -> (forall x u, prod s x <> PExch u) ->
  cons_ s = CWalk h t x -> taken s = l1 ++ x :: l2 -> exists s', rtc cstep s s' /\ cons_ s' = CIdle /\ pending s' = pending s.
Proof.
  induction l2 as [|b l2 IH]; intros s h t x l1 Hi Hq Hc E.
  - assert (t = x) as ->.
    { pose proof (inv_walk _ Hi) as Hw. unfold walk_ok in Hw. rewrite Hc in Hw. destruct Hw as (k1 & k2 & _ & Hl & _).
      rewrite E, last_snoc in Hl. congruence. }
    eexists. split; [apply rtc_once; split; [by eapply take_return|done]|done].
  - assert (next s x = b) as Hn by (eapply quiet_link; [done|]; rewrite <- E; apply Hi).
    assert (x <> t) as Hxt.
    { pose proof (inv_walk _ Hi) as Hw. unfold walk_ok in Hw. rewrite Hc in Hw. destruct Hw as (k1 & k2 & _ & Hl & _).
      intros ->. destruct (segments s Hi) as (_ & Hnt & _). rewrite E in *. rewrite last_app_cons in Hl.
      apply NoDup_app in Hnt as (_ & _ & Hnt). apply NoDup_cons in Hnt as [Hnt _]. apply Hnt, last_Some_elem_of, Hl. }
    assert (next s x <> 0) as Hnz.
    { rewrite Hn. assert (2 < b); [|lia]. apply (inv_addr _ Hi). assert (b ∈ history s) as Hb.
      { apply (in_history s Hi). rewrite E. right. left. apply elem_of_app. right. right. constructor. }
      apply (inv_started _ Hi) in Hb as (w & Hw). intros E'. rewrite E' in Hw. by destruct Hw. }
    pose proof (take_walk s h t x Hc Hxt Hnz) as Hs.
    edestruct (IH _ h t (next s x) (l1 ++ [x]) (inv_step _ _ Hi Hs)) as (s' & Hr & Hc' & Hp'); [done|done| |].
    + simpl. rewrite E, Hn, <- app_assoc. done.
    + exists s'. split; [eapply rtc_l; [|exact Hr]; done|done].
Qed.

Lemma finish_exchange s ab h : inv s -> (forall x u, prod s x <> PExch u) -> cons_ s = CStored ab h ->
  exists s', rtc cstep s s' /\ cons_ s' = CIdle /\ pending s' = [].
Proof.
  intros Hi Hq Hc. pose proof (take_exchange s ab h Hc) as Hs. pose proof (inv_head _ Hi) as Hh.
  unfold head_ok in Hh. rewrite Hc in Hh. destruct Hh as (_ & l & E & _).
  edestruct (finish_walk l _ h (if tail s <=? 2 then 0 else tail s) h [] (inv_step _ _ Hi Hs)) as (s' & Hr & ?); [done|done|done|].
  exists s'. split; [eapply rtc_l; [|exact Hr]; done|done].
Qed.

Lemma finish_load s ab h : inv s -> (forall x u, prod s x <> PExch u) -> cons_ s = CLoaded ab h ->
  exists s', rtc cstep s s' /\ cons_ s' = CIdle /\ pending s' = [].
Proof.
  intros Hi Hq Hc. pose proof (take_store s ab h Hc) as Hs.
  edestruct (finish_exchange _ ab h (inv_step _ _ Hi Hs)) as (s' & Hr & ?); [done|done|].
  exists s'. split; [eapply rtc_l; [|exact Hr]; done|done].
Qed.

Lemma finish_idle s : inv s -> (forall x u, prod s x <> PExch u) -> cons_ s = CIdle ->
  exists s', rtc cstep s s' /\ cons_ s' = CIdle /\ pending s' = [].
Proof.
  intros Hi Hq Hc. destruct (pending s) as [|g l] eqn:E; [by exists s|].
  pose proof (inv_head _ Hi) as Hh. unfold head_ok in Hh. rewrite Hc, E in Hh.
  destruct Hh as [(u & _ & Hp & _)|[Hd Hg]]; [by apply Hq in Hp|].
  assert (head s <> 0) as Hnz.
  { assert (2 < g); [|lia]. apply (inv_addr _ Hi). intros E'. by rewrite E' in Hd. }
  pose proof (take_load s false Hc Hnz) as Hs.
  edestruct (finish_load _ false (head s) (inv_step _ _ Hi Hs)) as (s' & Hr & ?); [done|done|].
  exists s'. split; [eapply rtc_l; [|exact Hr]; done|done].
Qed.

Lemma finish s : inv s -> (forall x u, prod s x <> PExch u) ->
  exists s', rtc cstep s s' /\ cons_ s' = CIdle /\ pending s' = [].
Proof.
  intros Hi Hq. destruct (cons_ s) as [|ab h|ab h|h t x] eqn:Hc; [by apply finish_idle|by eapply finish_load|by eapply finish_exchange|].
  pose proof (inv_walk _ Hi) as Hw. unfold walk_ok in Hw. rewrite Hc in Hw. destruct Hw as (l1 & l2 & E & _).
  destruct (finish_walk l2 s h t x l1 Hi Hq Hc E) as (s1 & Hr & Hc1 & _).
  destruct (inv_csteps _ _ Hi Hr) as (Hi1 & Hp1 & _).
  destruct (finish_idle s1 Hi1) as (s2 & Hr2 & ?); [by rewrite Hp1|done|]. exists s2. split; [by etrans|done].
Qed.

Lemma empty_pending s : inv s -> ncclIntruQueueMpscEmpty s = true <-> pending s = [].
Proof.
  intros Hi. unfold ncclIntruQueueMpscEmpty. rewrite Z.leb_le. pose proof (inv_tail _ Hi) as Ht.
  destruct (last (pending s)) as [t|] eqn:E; [|apply last_None in E; rewrite E; split; [done|lia]].
  assert (2 < t) as H2.
  { apply last_Some_elem_of in E. apply (inv_addr _ Hi). assert (t ∈ history s) as Hb by (apply (in_history s Hi); auto).
    apply (inv_started _ Hi) in Hb as (w & Hw). intros E'. rewrite E' in Hw. by destruct Hw. }
  split; [lia|]. intros E'. by rewrite E' in E.
Qed.

(** ** Theorems *)

(** (C33) In every interleaving of any number of enqueuers with the consumer, the
    objects of the chains handed to the consumer, followed by the chain being
    collected and those still queued, are exactly the enqueued objects, each
    once, in the order of the exchanges of [tail]; every chain handed out is
    linked through [next] down to a null pointer and stays so; and
    [ncclIntruQueueMpscEmpty] tells whether an object is queued. *)
Theorem ncclIntruQueueMpsc_fifo junk s : reachable junk s ->
  history s = concat (snd <$> returned s) ++ taken s ++ pending s /\ NoDup (history s) /\
  (forall x, x ∈ history s <-> exists u, prod s x = PExch u \/ is_done (prod s x) = true) /\
  Forall (fun r => chainf (next s) (fst r) (snd r)) (returned s) /\
  (ncclIntruQueueMpscEmpty s = true <-> pending s = []).
Proof.
  intros Hr%inv_reachable. pose proof (empty_pending s Hr) as He. destruct Hr. split_and!; done.
Qed.

(** (C34) No object is lost and the consumer does not block: from any reachable
    state in which no producer stands between its exchange and its link, steps of
    the consumer alone reach a state where the queue is empty and every object
    ever enqueued has been handed out, in order. *)
Theorem ncclIntruQueueMpsc_delivers junk s : reachable junk s -> (forall x u, prod s x <> PExch u) ->
  exists s', rtc cstep s s' /\ ncclIntruQueueMpscEmpty s' = true /\ concat (snd <$> returned s') = history s.
Proof.
  intros Hi%inv_reachable Hq. destruct (finish s Hi Hq) as (s' & Hr & Hc & Hp). exists s'. split; [done|].
  destruct (inv_csteps _ _ Hi Hr) as (Hi' & _ & Hh). split; [by apply empty_pending|].
  pose proof (inv_history _ Hi') as H. pose proof (inv_walk _ Hi') as Hw. unfold walk_ok in Hw. rewrite Hc in Hw.
  rewrite Hp, Hw, !app_nil_r in H. unfold done_lists in H. congruence.
Qed.

(** Two producers whose exchanges and links cross, with the first object linked
    after the second. *)
Definition crossing_exchanged : state :=
  do_exchange (do_exchange (do_store (do_store (ncclIntruQueueMpscConstruct (fun _ => 77)) 100) 200) 100) 200.
Definition crossing : state := do_link (do_link crossing_exchanged 100 200) 0 100.

Lemma crossing_reachable : reachable (fun _ => 77) crossing.
Proof.
  assert (reachable (fun _ => 77) crossing_exchanged) as R.
  { eapply reach_step; [|by apply enqueue_exchange]. eapply reach_step; [|by apply enqueue_exchange].
    eapply reach_step; [|by apply enqueue_store]. eapply reach_step; [|by apply enqueue_store]. apply reach_init. }
  eapply reach_step; [|by apply enqueue_link]. eapply reach_step; [exact R|by apply enqueue_link].
Qed.

Lemma ncclIntruQueueMpsc_fifo_witness : reachable (fun _ => 77) crossing /\
  history crossing = concat (snd <$> returned crossing) ++ taken crossing ++ pending crossing /\
  ncclIntruQueueMpscEmpty crossing = false.
Proof.
  split; [exact crossing_reachable|]. destruct (ncclIntruQueueMpsc_fifo _ _ crossing_reachable) as (H & _).
  split; [exact H|reflexivity].
Defined.

Lemma ncclIntruQueueMpsc_delivers_witness : reachable (fun _ => 77) crossing /\
  exists s', rtc cstep crossing s' /\ ncclIntruQueueMpscEmpty s' = true /\ concat (snd <$> returned s') = [100; 200].
Proof.
  split; [exact crossing_reachable|]. apply (ncclIntruQueueMpsc_delivers _ _ crossing_reachable).
  intros x u. simpl. unfold upd. destruct (x =? 100); [done|]. destruct (x =? 200); [done|].
  destruct (x =? 200); [done|]. destruct (x =? 100); [done|]. destruct (x =? 200); [done|]. destruct (x =? 100); done.
Defined.
