(* ===== verification/Sorter.v ===== *)
(** * The sorter of collective tasks (src/src/include/comm.h)

    [ncclTaskCollSorter] keeps the tasks of a group in one linked list, roughly by
    descending size: the list is a sequence of bins, and [bins[b]] points to the
    pointer (a task's [next] or the sorter's [head]) behind which bin [b] starts.
    Tasks are objects of the heap of Queue.v. *)
From S2P Require Import Prelude Bitops Queue.

#[local] Open Scope Z_scope.

Definition UnitLog2 : Z := 10.
Definition MaxLog2 : Z := 30.
Definition MaxSize : Z := 2 ^ MaxLog2.
Definition BitsPerPow2 : Z := 2.
Definition BinsPerPow2 : Z := 2 ^ BitsPerPow2.
Definition BinCount : Z := 1 + (MaxLog2 - UnitLog2) * BinsPerPow2.

(** A [struct ncclTaskColl**]: the sorter's [head] or a task's [next]. *)
Inductive loc := AtHead | AtNext (x : ptr).

(** A null entry of [bins] is [None]. *)
Record ncclTaskCollSorter := MkSorter { so_head : ptr; so_tail : ptr; so_binEdge : Z; so_bins : list (option loc) }.

Definition zero_sorter : ncclTaskCollSorter := MkSorter nullptr nullptr 0 (replicate (Z.to_nat BinCount) None).

(** The field [next] of a task. *)
Definition task_next : field := 0.

Definition load_loc (h : heap) (me : ncclTaskCollSorter) (l : loc) : outcome ptr :=
  match l with AtHead => Ret (so_head me) | AtNext x => load h x task_next end.
Definition store_loc (h : heap) (me : ncclTaskCollSorter) (l : loc) (x : ptr) : outcome (heap * ncclTaskCollSorter) :=
  match l with
  | AtHead => Ret (h, MkSorter x (so_tail me) (so_binEdge me) (so_bins me))
  | AtNext y => h ← store h y task_next x; Ret (h, me)
  end.

(** [while (me->bins[succ] == nullptr) succ++;] *)
Fixpoint find_succ (fuel : nat) (bins : list (option loc)) (succ : Z) : outcome Z :=
  match fuel with
  | O => Stuck
  | S fuel => b ← zget bins succ; match b with None => find_succ fuel bins (succ + 1) | Some _ => Ret succ end
  end.

Definition bin_of (size : Z) : Z := BinCount - 1 - u32fpEncode (Z.shiftr (Z.min MaxSize size) UnitLog2) BitsPerPow2.

(** The entry of an empty bin. *)
Definition open_bin (me : ncclTaskCollSorter) (x : ptr) (bin : Z) : outcome ncclTaskCollSorter :=
  if so_binEdge me <=? bin then
    bins ← zset (so_bins me) bin (Some (if negb (so_tail me =? nullptr) then AtNext (so_tail me) else AtHead));
    Ret (MkSorter (so_head me) x (bin + 1) bins)
  else
    succ ← find_succ (Z.to_nat BinCount) (so_bins me) (bin + 1);
    s ← zget (so_bins me) succ;
    bins ← zset (so_bins me) bin s;
    bins ← zset bins succ (Some (AtNext x));
    Ret (MkSorter (so_head me) (so_tail me) (so_binEdge me) bins).

Definition ncclTaskCollSorterInsert (h : heap) (me : ncclTaskCollSorter) (x : ptr) (size : Z) : outcome (heap * ncclTaskCollSorter) :=
  let bin := bin_of size in
  b ← zget (so_bins me) bin;
  me ← (match b with None => open_bin me x bin | Some _ => Ret me end);
  b ← zget (so_bins me) bin;
  match b with
  | None => Stuck
  | Some l => old ← load_loc h me l; h ← store h x task_next old; store_loc h me l x
  end.

Definition ncclTaskCollSorterEmpty (me : ncclTaskCollSorter) : bool := so_head me =? nullptr.

Definition ncclTaskCollSorterDequeueAll (me : ncclTaskCollSorter) : ncclTaskCollSorter * ptr :=
  (if negb (so_head me =? nullptr) then zero_sorter else me, so_head me).

(** ** Inserting behind a location *)

(** The location behind the objects [A] of the list. *)
Definition loc_of (A : list ptr) : loc := match last A with Some a => AtNext a | None => AtHead end.

Definition with_head (me : ncclTaskCollSorter) (p : ptr) : ncclTaskCollSorter := MkSorter p (so_tail me) (so_binEdge me) (so_bins me).

Lemma insert_at h me A B x : chain task_next h (so_head me) (A ++ B) -> NoDup (A ++ B) -> allocated task_next h x -> x ∉ A ++ B ->
  exists h' p, (old ← load_loc h me (loc_of A); h ← store h x task_next old; store_loc h me (loc_of A) x) = Ret (h', with_head me p) /\
    chain task_next h' p (A ++ x :: B) /\ framed task_next (x :: A) h h'.
Proof.
  intros Hc Hnd Hx Hnew. apply lseg_app in Hc as (q & HA & HB). unfold loc_of. apply not_elem_of_app in Hnew as [HxA HxB].
  assert (chain task_next (<[(x, task_next) := q]> h) x (x :: B)) as HB1.
  { split; [done|]. split; [apply Hx|]. exists q. rewrite lookup_insert_eq. split; [done|]. eapply chain_ext; [|exact HB]. intros y Hy. apply lookup_insert_ne. by intros [= ->]. }
  destruct (store_spec task_next h x q Hx) as [Hst Hf].
  destruct (last A) as [a|] eqn:Ea.
  - assert (a ∈ A) as Ha by by apply last_Some_elem_of. cbn [load_loc].
    assert (load h a task_next = Ret q) as ->.
    { apply last_Some in Ea as [A' ->]. apply lseg_app in HA as (r & _ & (_ & _ & q' & Hq & E)). simpl in E. subst q'. unfold load. by rewrite Hq. }
    cbn [mbind outcome_bind]. rewrite Hst. cbn [mbind outcome_bind store_loc]. set (h1 := <[(x, task_next):=q]> h) in *.
    assert (lseg task_next h1 (so_head me) A q) as HA1 by (eapply chain_ext; [|exact HA]; intros y Hy; apply lookup_insert_ne; by intros [= ->]).
    assert (allocated task_next h1 a) as Haa by (by eapply chain_allocated). destruct (store_spec task_next h1 a x Haa) as [-> Hf2]. cbn [mbind outcome_bind].
    exists (<[(a, task_next):=x]> h1), (so_head me). split; [by destruct me|]. split.
    + eapply lseg_join; [exact HA1|exact Ea|exact HB1|]. apply NoDup_app in Hnd as (N1 & N2 & N3). apply NoDup_app. split_and!; [done| |by constructor].
      intros y Hy [->|Hy']%elem_of_cons; [done|by eapply N2].
    + eapply framed_trans; [eapply framed_weaken; [|exact Hf]|eapply framed_weaken; [|exact Hf2]]; set_solver.
  - apply last_None in Ea as ->. simpl in HA. subst q. cbn [load_loc mbind outcome_bind]. rewrite Hst. cbn [mbind outcome_bind store_loc].
    exists (<[(x, task_next):=so_head me]> h), x. split_and!; [done|done|]. eapply framed_weaken; [|exact Hf]. set_solver.
Qed.

(** ** The bins *)

(** [bins] points behind the bins before, where a bin is not empty. *)
Definition bins_ok (bins : list (option loc)) (ls : list (list ptr)) : Prop :=
  length bins = length ls /\ forall b l, ls !! b = Some l -> bins !! b = Some (match l with [] => None | _ => Some (loc_of (concat (take b ls))) end).

(** [edge] is the least index such that the bins from it on are empty. *)
Definition edge_ok (edge : Z) (ls : list (list ptr)) : Prop :=
  0 <= edge <= BinCount /\ (forall b l, ls !! b = Some l -> edge <= Z.of_nat b -> l = []) /\ (0 < edge -> exists l, ls !! Z.to_nat (edge - 1) = Some l /\ l <> []).

(** The sorter holds the bins [ls]. *)
Record sorter_rep (h : heap) (me : ncclTaskCollSorter) (ls : list (list ptr)) : Prop := {
  st_len : length ls = Z.to_nat BinCount;
  st_bins : bins_ok (so_bins me) ls;
  st_chain : chain task_next h (so_head me) (concat ls);
  st_nodup : NoDup (concat ls);
  st_tail : so_tail me = default nullptr (last (concat ls));
  st_edge : edge_ok (so_binEdge me) ls;
}.

Lemma last_app_r {A} (k l : list A) : l <> [] -> last (k ++ l) = last l.
Proof. intros Hl. rewrite last_app. destruct (last l) eqn:E; [done|]. by apply last_None in E. Qed.

Lemma concat_at (ls : list (list ptr)) b l : ls !! b = Some l -> concat ls = concat (take b ls) ++ l ++ concat (drop (S b) ls).
Proof. intros Hb. rewrite <- (take_drop_middle _ _ _ Hb) at 1. rewrite concat_app. done. Qed.

Lemma concat_insert (ls : list (list ptr)) b l l' : ls !! b = Some l -> concat (<[b := l']> ls) = concat (take b ls) ++ l' ++ concat (drop (S b) ls).
Proof.
  intros Hb. pose proof (lookup_lt_Some _ _ _ Hb) as Hlt. rewrite (concat_at _ b l') by (by apply list_lookup_insert_eq). by rewrite take_insert_ge, drop_insert_lt by lia.
Qed.

Lemma empty_between (ls : list (list ptr)) b n : (b <= n)%nat -> (n <= length ls)%nat -> (forall j l, (b <= j < n)%nat -> ls !! j = Some l -> l = []) -> concat (take n ls) = concat (take b ls).
Proof.
  intros Hbn Hn He. induction n as [|n IH]; [by replace b with 0%nat by lia|]. destruct (Nat.eq_dec b (S n)) as [->|]; [done|].
  destruct (lookup_lt_is_Some_2 ls n) as [l Hl]; [lia|]. rewrite (take_S_r _ _ _ Hl), concat_app, (He n l) by (done || lia). cbn [concat app]. rewrite app_nil_r. apply IH; [lia|lia|]. intros j k Hj. apply He. lia.
Qed.

(** Another element at the front of bin [b] moves the starts of no other bin but
    the first non-empty one behind, and that only if [b] was empty. *)
Lemma starts_after (ls : list (list ptr)) b lb x n : ls !! b = Some lb -> (n < length ls)%nat -> (b < n)%nat -> concat (take n ls) <> concat (take b ls) ->
  loc_of (concat (take n (<[b := x :: lb]> ls))) = loc_of (concat (take n ls)).
Proof.
  intros Hb Hn Hbn Hne. assert (take n ls !! b = Some lb) as Hb' by (by rewrite lookup_take_lt by lia).
  rewrite take_insert_lt by lia. rewrite (concat_insert _ _ _ (x :: lb) Hb'), (concat_at _ _ _ Hb') in *. rewrite take_take, Nat.min_l in * by lia.
  set (M := lb ++ concat (drop (S b) (take n ls))) in *. assert (M <> []) as HM by (intros E; apply Hne; by rewrite E, app_nil_r).
  unfold loc_of. change ((x :: lb) ++ concat (drop (S b) (take n ls))) with ([x] ++ M). by rewrite (app_assoc _ [x]), !last_app_r by done.
Qed.

Lemma find_succ_spec ls bins n ln : bins_ok bins ls -> ls !! n = Some ln -> ln <> [] -> forall fuel k, (k <= n)%nat -> (n - k < fuel)%nat ->
  exists s l, find_succ fuel bins (Z.of_nat k) = Ret (Z.of_nat s) /\ (k <= s <= n)%nat /\ ls !! s = Some l /\ l <> [] /\ forall j l', (k <= j < s)%nat -> ls !! j = Some l' -> l' = [].
Proof.
  intros [Hlen Hb] Hn Hne. induction fuel as [|fuel IH]; intros k Hk Hf; [lia|]. cbn [find_succ]. pose proof (lookup_lt_Some _ _ _ Hn) as Hlt.
  destruct (lookup_lt_is_Some_2 ls k) as [lk Hlk]; [lia|]. rewrite (proj2 (zget_Ret bins _ (match lk with [] => None | _ => Some (loc_of (concat (take k ls))) end))) by (rewrite Nat2Z.id; split; [lia|by apply Hb]).
  cbn [mbind outcome_bind]. destruct lk as [|y lk].
  - assert (k <> n) by congruence. destruct (IH (S k)) as (s & l & Hs & Hs1 & Hs2 & Hs3 & Hs4); [lia|lia|]. exists s, l. replace (Z.of_nat k + 1) with (Z.of_nat (S k)) by lia. split_and!; try done; try lia.
    intros j l' Hj Hl'. destruct (Nat.eq_dec j k) as [->|]; [congruence|]. by apply (Hs4 j); [lia|].
  - exists k, (y :: lk). split_and!; try done; try lia.
Qed.

(** ** The sorter before the last two assignments of an insertion *)

Section prepare.
Context (h : heap) (me : ncclTaskCollSorter) (ls : list (list ptr)) (x : ptr) (b : nat).

(** All but the list itself is that of [ls] with [x] in front of bin [b]. *)
Definition prepared (lb : list ptr) (me1 : ncclTaskCollSorter) : Prop :=
  so_head me1 = so_head me /\ bins_ok (so_bins me1) (<[b := x :: lb]> ls) /\ edge_ok (so_binEdge me1) (<[b := x :: lb]> ls) /\
  so_tail me1 = default nullptr (last (concat (<[b := x :: lb]> ls))).

Context (Hrep : sorter_rep h me ls) (Hx : x <> nullptr).

(** The entries before bin [b] keep their meaning. *)
Lemma bins_before lb n l : ls !! b = Some lb -> (n < b)%nat -> ls !! n = Some l ->
  so_bins me !! n = Some (match l with [] => None | _ => Some (loc_of (concat (take n (<[b := x :: lb]> ls)))) end).
Proof. intros Hlb Hn Hl. destruct (st_bins _ _ _ Hrep) as [_ Hb]. rewrite (Hb n l Hl). by rewrite take_insert_ge by lia. Qed.

Lemma prepare_filled lb : ls !! b = Some lb -> lb <> [] -> prepared lb me.
Proof.
  intros Hlb Hne. pose proof (lookup_lt_Some _ _ _ Hlb) as Hlt. destruct Hrep as [Hlen [Hbl Hb] Hc Hnd Ht (He1 & He2 & He3)]. unfold prepared. split_and!; [done|split|split_and!|].
  - by rewrite length_insert.
  - intros n l Hl. destruct (Nat.lt_total n b) as [Hn|[->|Hn]].
    + rewrite list_lookup_insert_ne in Hl by lia. by apply bins_before.
    + rewrite list_lookup_insert_eq in Hl by lia. injection Hl as <-. rewrite (Hb b lb Hlb), take_insert_ge by lia. by destruct lb.
    + rewrite list_lookup_insert_ne in Hl by lia. pose proof (lookup_lt_Some _ _ _ Hl). rewrite (Hb n l Hl). destruct l as [|y l]; [done|]. rewrite starts_after; [done|done|done|done|].
      assert (take n ls !! b = Some lb) as Hb' by (by rewrite lookup_take_lt by lia). rewrite (concat_at _ _ _ Hb'), take_take, Nat.min_l by lia.
      intros E. apply (f_equal length) in E. rewrite !length_app in E. destruct lb; [done|]. simpl in E. lia.
  - lia.
  - lia.
  - intros n l Hl Hn. destruct (Nat.eq_dec n b) as [->|Hnb]; [by rewrite (He2 b lb Hlb Hn) in Hne|]. rewrite list_lookup_insert_ne in Hl by done. by apply (He2 n).
  - intros He. destruct (He3 He) as (l & Hl & Hl0). destruct (Nat.eq_dec (Z.to_nat (so_binEdge me - 1)) b) as [E|E].
    + exists (x :: lb). rewrite E. by rewrite list_lookup_insert_eq.
    + exists l. by rewrite list_lookup_insert_ne by done.
  - rewrite Ht, (concat_insert _ _ _ _ Hlb), (concat_at _ _ _ Hlb). cbn [app]. change (x :: lb ++ concat (drop (S b) ls)) with ([x] ++ lb ++ concat (drop (S b) ls)).
    assert (lb ++ concat (drop (S b) ls) <> []) as HD by (by destruct lb). set (D := lb ++ _) in *. clearbody D. by rewrite (app_assoc _ [x]), !last_app_r.
Qed.

Lemma prepare_last : ls !! b = Some [] -> so_binEdge me <= Z.of_nat b -> wp (open_bin me x (Z.of_nat b)) (prepared []).
Proof.
  intros Hlb Hedge. pose proof (lookup_lt_Some _ _ _ Hlb) as Hlt. unfold open_bin. rewrite (proj2 (Z.leb_le _ _) Hedge).
  pose proof Hrep as [Hlen [Hbl Hb] Hc Hnd Ht (He1 & He2 & He3)]. pose proof (concat_at _ _ _ Hlb) as Hcat.
  assert (concat (drop (S b) ls) = []) as HD.
  { apply concat_nil_Forall, Forall_forall. intros l [i Hi]%list_elem_of_lookup_1. rewrite lookup_drop in Hi. apply (He2 _ _ Hi). lia. }
  rewrite HD in *. cbn [app] in *. rewrite app_nil_r in Hcat. rewrite zset_Ret by lia. cbn [mbind outcome_bind wpx].
  assert ((if negb (so_tail me =? nullptr) then AtNext (so_tail me) else AtHead) = loc_of (concat (take b ls))) as Hloc.
  { unfold loc_of. rewrite Ht, Hcat. destruct (last (concat (take b ls))) as [a|] eqn:Ea; [|done]. simpl. rewrite (proj2 (Z.eqb_neq a nullptr)); [done|].
    apply last_Some_elem_of in Ea. rewrite <- Hcat in Ea. by destruct (chain_allocated task_next h _ _ _ a Hc Ea). }
  unfold prepared. cbn [so_head so_bins so_binEdge so_tail]. rewrite Nat2Z.id, (concat_insert _ _ _ _ Hlb), HD.
  split_and!; [done|split; [by rewrite !length_insert|]|split_and!; [lia|lia| |]|by rewrite app_assoc, app_nil_r, last_snoc].
  - intros n l Hl. destruct (Nat.eq_dec n b) as [->|Hnb].
    + rewrite list_lookup_insert_eq in Hl by lia. rewrite list_lookup_insert_eq by lia. injection Hl as <-. by rewrite take_insert_ge, Hloc by lia.
    + rewrite list_lookup_insert_ne in Hl by done. rewrite list_lookup_insert_ne by done. destruct (Nat.lt_ge_cases n b) as [Hn|Hn]; [by apply bins_before|].
      rewrite (Hb n l Hl). rewrite (He2 _ _ Hl) by lia. done.
  - intros n l Hl Hn. rewrite list_lookup_insert_ne in Hl by lia. apply (He2 _ _ Hl). lia.
  - intros _. exists [x]. replace (Z.to_nat (Z.of_nat b + 1 - 1)) with b by lia. by rewrite list_lookup_insert_eq.
Qed.

Lemma prepare_succ : ls !! b = Some [] -> Z.of_nat b < so_binEdge me -> wp (open_bin me x (Z.of_nat b)) (prepared []).
Proof.
  intros Hlb Hedge. pose proof (lookup_lt_Some _ _ _ Hlb) as Hlt. unfold open_bin. rewrite (proj2 (Z.leb_gt _ _) Hedge).
  pose proof Hrep as [Hlen [Hbl Hb] Hc Hnd Ht (He1 & He2 & He3)]. destruct (He3 ltac:(lia)) as (le & Hle & Hle0). set (n := Z.to_nat (so_binEdge me - 1)) in *.
  assert (b <> n) as Hbn by (intros ->; congruence). replace (Z.of_nat b + 1) with (Z.of_nat (S b)) by lia.
  destruct (find_succ_spec ls (so_bins me) n le (conj Hbl Hb) Hle Hle0 (Z.to_nat BinCount) (S b)) as (s & l & -> & Hs & Hls & Hl0 & Hmid); [lia|lia|].
  cbn [mbind outcome_bind]. pose proof (lookup_lt_Some _ _ _ Hls) as Hslt.
  assert (concat (take s ls) = concat (take b ls)) as Hsame.
  { apply empty_between; [lia|lia|]. intros j lj Hj Hlj. destruct (Nat.eq_dec j b) as [->|]; [congruence|]. by apply (Hmid j); [lia|]. }
  rewrite (proj2 (zget_Ret (so_bins me) (Z.of_nat s) (Some (loc_of (concat (take b ls)))))) by (rewrite Nat2Z.id, (Hb s l Hls), Hsame; split; [lia|by destruct l]).
  cbn [mbind outcome_bind]. rewrite zset_Ret by lia. cbn [mbind outcome_bind]. rewrite zset_Ret by (rewrite length_insert; lia). cbn [mbind outcome_bind wpx].
  unfold prepared. cbn [so_head so_bins so_binEdge so_tail]. rewrite !Nat2Z.id. split_and!; [done|split; [by rewrite !length_insert|]|split_and!; [lia|lia| |]|].
  - intros j lj Hj. destruct (Nat.eq_dec j s) as [->|Hjs].
    + rewrite list_lookup_insert_ne in Hj by lia. rewrite list_lookup_insert_eq by (rewrite length_insert; lia). rewrite Hls in Hj. injection Hj as <-. destruct l as [|y l]; [done|].
      assert (take s ls !! b = Some []) as Hb' by (by rewrite lookup_take_lt by lia). rewrite take_insert_lt by lia. rewrite (concat_insert _ _ _ _ Hb').
      assert (concat (drop (S b) (take s ls)) = []) as -> by (rewrite (concat_at _ _ _ Hb'), take_take, Nat.min_l in Hsame by lia; cbn [app] in Hsame; by rewrite <- (app_nil_r (concat (take b ls))) in Hsame at 2; apply app_inv_head in Hsame).
      unfold loc_of. by rewrite app_nil_r, last_snoc.
    + rewrite list_lookup_insert_ne by done. destruct (Nat.lt_total j b) as [Hjb|[->|Hjb]].
      * rewrite list_lookup_insert_ne in Hj by lia. rewrite list_lookup_insert_ne by lia. by apply bins_before.
      * rewrite list_lookup_insert_eq in Hj by lia. rewrite list_lookup_insert_eq by lia. injection Hj as <-. by rewrite take_insert_ge by lia.
      * rewrite list_lookup_insert_ne in Hj by lia. rewrite list_lookup_insert_ne by lia. pose proof (lookup_lt_Some _ _ _ Hj). rewrite (Hb j lj Hj). destruct lj as [|y lj]; [done|].
        assert (s < j)%nat by (destruct (Nat.lt_ge_cases s j); [done|]; assert (y :: lj = []) by (apply (Hmid j); [lia|done]); done).
        rewrite starts_after; [done|done|done|done|]. rewrite <- Hsame. assert (take j ls !! s = Some l) as Hs' by (by rewrite lookup_take_lt by lia).
        rewrite (concat_at _ _ _ Hs'), take_take, Nat.min_l by lia. intros E. apply (f_equal length) in E. rewrite !length_app in E. destruct l; [done|]. simpl in E. lia.
  - intros j lj Hj Hn. rewrite list_lookup_insert_ne in Hj by lia. by apply (He2 _ _ Hj).
  - intros _. exists le. rewrite list_lookup_insert_ne by done. by split.
  - rewrite Ht, (concat_insert _ _ _ _ Hlb), (concat_at _ _ _ Hlb). cbn [app]. assert (concat (drop (S b) ls) <> []) as HD.
    { intros E. apply concat_nil_Forall in E. rewrite Forall_forall in E. apply Hl0, E. apply (list_elem_of_lookup_2 _ (s - S b)). rewrite lookup_drop. by replace (S b + (s - S b))%nat with s by lia. }
    change (x :: concat (drop (S b) ls)) with ([x] ++ concat (drop (S b) ls)). by rewrite (app_assoc _ [x]), !last_app_r.
Qed.
End prepare.

Lemma insert_spec h me ls x size b lb : sorter_rep h me ls -> allocated task_next h x -> x ∉ concat ls -> bin_of size = Z.of_nat b -> ls !! b = Some lb ->
  exists h' me', ncclTaskCollSorterInsert h me x size = Ret (h', me') /\ sorter_rep h' me' (<[b := x :: lb]> ls) /\ framed task_next (x :: concat ls) h h'.
Proof.
  intros Hrep Hx Hnew Hbin Hlb. unfold ncclTaskCollSorterInsert. rewrite Hbin. cbv zeta. pose proof Hrep as [Hlen [Hbl Hb] Hc Hnd _ (He & _)]. pose proof (lookup_lt_Some _ _ _ Hlb) as Hlt.
  rewrite (proj2 (zget_Ret (so_bins me) (Z.of_nat b) (match lb with [] => None | _ => Some (loc_of (concat (take b ls))) end))) by (rewrite Nat2Z.id; split; [lia|by apply Hb]).
  cbn [mbind outcome_bind]. set (m := match _ with None => _ | Some _ => _ end).
  assert (wp m (prepared me ls x b lb)) as (me1 & -> & Hh & [Hbl1 Hb1] & He1 & Ht1)%wp_elim.
  { unfold m. destruct lb as [|y lb]; [|by apply (prepare_filled h)]. destruct (Z.le_gt_cases (so_binEdge me) (Z.of_nat b)); [by apply (prepare_last h)|by apply (prepare_succ h)]. }
  cbn [mbind outcome_bind]. assert (take b (<[b := x :: lb]> ls) = take b ls) as Htb by (by rewrite take_insert_ge).
  rewrite (proj2 (zget_Ret (so_bins me1) (Z.of_nat b) (Some (loc_of (concat (take b ls)))))).
  2:{ rewrite Nat2Z.id. split; [lia|]. rewrite (Hb1 b (x :: lb)) by (by apply list_lookup_insert_eq). by rewrite Htb. }
  cbn [mbind outcome_bind]. pose proof (concat_at _ _ _ Hlb) as Hcat. rewrite Hcat in Hc, Hnd, Hnew. rewrite <- Hh in Hc.
  destruct (insert_at h me1 _ _ x Hc Hnd Hx Hnew) as (h' & p & -> & Hc' & Hf). exists h', (with_head me1 p). split; [done|]. split.
  - split; cbn [with_head so_head so_tail so_binEdge so_bins]; try done; [by rewrite length_insert|by rewrite (concat_insert _ _ _ _ Hlb)|].
    rewrite (concat_insert _ _ _ _ Hlb). cbn [app]. rewrite <- Permutation_middle. by constructor.
  - eapply framed_weaken; [|exact Hf]. rewrite Hcat. set_solver.
Qed.

(** ** The order of the bins *)

(** The size in units, as far as the bins tell sizes apart. *)
Definition units (size : Z) : Z := Z.shiftr (Z.min MaxSize size) UnitLog2.

Lemma units_range size : 0 <= size -> 0 <= units size <= 2 ^ 20.
Proof.
  intros Hs. unfold units, MaxSize, MaxLog2, UnitLog2. rewrite Z.shiftr_div_pow2 by lia. split; [apply Z.div_pos; lia|]. change (2 ^ 20) with (2 ^ 30 / 2 ^ 10). apply Z.div_le_mono; lia.
Qed.

Lemma land3 z : Z.land z 3 = z mod 4.
Proof. change 3 with (Z.ones 2). by rewrite Z.land_ones by lia. Qed.

Lemma encode2_small u : 0 <= u < 4 -> u32fpEncode u 2 = u.
Proof. intros Hu. assert (u = 0 \/ u = 1 \/ u = 2 \/ u = 3) as [-> | [-> | [-> | ->]]] by lia; reflexivity. Qed.

Lemma encode2_fields u : 4 <= u <= 2 ^ 20 -> let s := Z.log2 u - 2 in
  0 <= s <= 18 /\ 4 <= u / 2 ^ s < 8 /\ u32fpEncode u 2 = (s + 1) * 4 + (u / 2 ^ s - 4).
Proof.
  intros Hu s. assert (2 <= Z.log2 u <= 20) as HL.
  { split; [change 2 with (Z.log2 4); apply Z.log2_le_mono; lia|]. change 20 with (Z.log2 (2 ^ 20)). apply Z.log2_le_mono. lia. }
  pose proof (Z.log2_spec u ltac:(lia)) as Hsp. assert (0 < 2 ^ s) by (apply pow2_pos; lia).
  assert (4 * 2 ^ s = 2 ^ Z.log2 u) as H4 by (change 4 with (2 ^ 2); rewrite <- Z.pow_add_r by lia; f_equal; lia).
  rewrite Z.pow_succ_r in Hsp by lia. assert (4 <= u / 2 ^ s < 8) as Hq by (split; [apply Z.div_le_lower_bound; lia|apply Z.div_lt_upper_bound; lia]).
  split; [lia|]. split; [done|]. unfold u32fpEncode, clz. rewrite log2_lor1 by lia. replace (31 - (32 - 1 - Z.log2 u)) with (Z.log2 u) by lia.
  rewrite Z.geb_leb. destruct (Z.leb_spec 2 (Z.log2 u)); [|lia]. change (u32 (Z.shiftl 1 2 - 1)) with 3. rewrite land3. fold s. rewrite Z.shiftr_div_pow2 by lia.
  replace ((u / 2 ^ s) mod 4) with (u / 2 ^ s - 4) by dlia. unfold u32. rewrite (Z.mod_small (Z.log2 u - (2 - 1))) by lia.
  assert (Z.shiftl (Z.log2 u - (2 - 1)) 2 mod 2 ^ 32 = Z.shiftl (s + 1) 2) as -> by (rewrite !Z.shiftl_mul_pow2 by lia; rewrite Z.mod_small by lia; f_equal; lia).
  rewrite lor_shiftl_add by lia. lia.
Qed.

Lemma encode2_order u v : 0 <= u <= 2 ^ 20 -> 0 <= v <= 2 ^ 20 -> u32fpEncode v 2 <= u32fpEncode u 2 -> 4 * v <= 5 * u.
Proof.
  intros Hu Hv Hle. destruct (Z.lt_ge_cases v 4) as [Hv4|Hv4], (Z.lt_ge_cases u 4) as [Hu4|Hu4].
  - rewrite !encode2_small in Hle by lia. lia.
  - lia.
  - destruct (encode2_fields v ltac:(lia)) as (Hs & Hq & E). rewrite E, encode2_small in Hle by lia. lia.
  - destruct (encode2_fields v ltac:(lia)) as (Hs & Hq & E). destruct (encode2_fields u ltac:(lia)) as (Hs' & Hq' & E'). rewrite E, E' in Hle. clear E E'.
    set (s := Z.log2 v - 2) in *. set (s' := Z.log2 u - 2) in *. assert (0 < 2 ^ s) as Hp by (apply pow2_pos; lia). assert (0 < 2 ^ s') as Hp' by (apply pow2_pos; lia).
    pose proof (Z.div_mod v (2 ^ s) ltac:(lia)) as Dv. pose proof (Z.mod_pos_bound v (2 ^ s) Hp) as Mv. pose proof (Z.div_mod u (2 ^ s') ltac:(lia)) as Du. pose proof (Z.mod_pos_bound u (2 ^ s') Hp') as Mu.
    set (q := v / 2 ^ s) in *. set (q' := u / 2 ^ s') in *. destruct (Z.eq_dec s s') as [Es|Es].
    + rewrite <- Es in *. assert (q <= q') by lia. nia.
    + assert (s + 1 <= s') as Hlt by lia. assert (2 * 2 ^ s <= 2 ^ s') by (rewrite <- Z.pow_succ_r by lia; apply Z.pow_le_mono_r; lia). nia.
Qed.

Lemma encode2_range u : 0 <= u <= 2 ^ 20 -> 0 <= u32fpEncode u 2 < BinCount.
Proof.
  intros Hu. change BinCount with 81. destruct (Z.lt_ge_cases u 4); [rewrite encode2_small; lia|]. destruct (encode2_fields u ltac:(lia)) as (Hs & Hq & E). lia.
Qed.

Lemma bin_range size : 0 <= size -> 0 <= bin_of size < BinCount.
Proof. intros Hs. pose proof (encode2_range _ (units_range size Hs)). unfold bin_of. fold (units size). change BitsPerPow2 with 2. lia. Qed.

Lemma bin_order a b : 0 <= a -> 0 <= b -> bin_of a <= bin_of b -> 4 * units b <= 5 * units a.
Proof.
  intros Ha Hb Hle. apply encode2_order; [by apply units_range|by apply units_range|]. unfold bin_of in Hle. fold (units a) (units b) in Hle. change BitsPerPow2 with 2 in Hle. lia.
Qed.

(** ** A sequence of insertions *)

Fixpoint insert_all (h : heap) (me : ncclTaskCollSorter) (xs : list (ptr * Z)) : outcome (heap * ncclTaskCollSorter) :=
  match xs with [] => Ret (h, me) | (x, size) :: xs => '(h, me) ← ncclTaskCollSorterInsert h me x size; insert_all h me xs end.

(** Every object lies in the bin of its size; the first bin is [k]. *)
Definition binned (k : Z) (lss : list (list (ptr * Z))) : Prop :=
  forall b l p, lss !! b = Some l -> p ∈ l -> bin_of p.2 = k + Z.of_nat b /\ 0 <= p.2.

Definition roughly_before (p q : ptr * Z) : Prop := 4 * units q.2 <= 5 * units p.2.

Lemma binned_sorted k lss : binned k lss -> StronglySorted roughly_before (concat lss).
Proof.
  revert k. induction lss as [|l lss IH]; intros k Hb; [constructor|]. cbn [concat].
  assert (binned (k + 1) lss) as Hb' by (intros b l' p Hl Hp; destruct (Hb (S b) l' p Hl Hp); split; [lia|done]). specialize (IH _ Hb').
  assert (forall p, p ∈ l -> bin_of p.2 = k /\ 0 <= p.2) as Hl by (intros p Hp; destruct (Hb 0%nat l p eq_refl Hp); split; [lia|done]).
  assert (forall p, p ∈ concat lss -> k <= bin_of p.2 /\ 0 <= p.2) as Hr.
  { intros p Hp. apply list_elem_of_In, in_concat in Hp as (l' & Hl' & Hp). apply list_elem_of_In, list_elem_of_lookup_1 in Hl' as [b Hl']. apply list_elem_of_In in Hp. destruct (Hb' b l' p Hl' Hp). split; [lia|done]. }
  clear Hb Hb'. induction l as [|p l IHl]; [done|]. cbn [app]. constructor; [apply IHl; intros; apply Hl; by right|].
  destruct (Hl p ltac:(by left)) as [Ep Zp]. apply Forall_forall. intros q [Hq|Hq]%elem_of_app; unfold roughly_before; apply bin_order; try done; [apply Hl; by right| |apply Hr, Hq|].
  - rewrite Ep. destruct (Hl q ltac:(by right)). lia.
  - rewrite Ep. apply Hr, Hq.
Qed.

(** The objects without their sizes. *)
Definition objs (l : list (ptr * Z)) : list ptr := fst <$> l.

Lemma concat_objs (lss : list (list (ptr * Z))) : concat (objs <$> lss) = objs (concat lss).
Proof. induction lss as [|l lss IH]; [done|]. cbn [fmap list_fmap concat]. rewrite IH. unfold objs. by rewrite fmap_app. Qed.

Lemma insert_all_spec xs : forall h me lss, sorter_rep h me (objs <$> lss) -> binned 0 lss -> NoDup (objs (xs ++ concat lss)) ->
  (forall p, p ∈ xs -> allocated task_next h p.1 /\ 0 <= p.2) ->
  exists h' me' lss', insert_all h me xs = Ret (h', me') /\ sorter_rep h' me' (objs <$> lss') /\ binned 0 lss' /\ concat lss' ≡ₚ xs ++ concat lss.
Proof.
  induction xs as [|[x size] xs IH]; intros h me lss Hrep Hbin Hnd Hal; cbn [insert_all]; [by exists h, me, lss|].
  destruct (Hal (x, size) ltac:(by left)) as [Hx Hsize]. cbn [fst snd] in *. destruct (bin_range size Hsize) as [Hb0 Hb1]. pose proof (st_len _ _ _ Hrep) as Hlen. rewrite length_fmap in Hlen.
  destruct (lookup_lt_is_Some_2 lss (Z.to_nat (bin_of size))) as [lb Hlb]; [lia|]. set (b := Z.to_nat (bin_of size)) in *. change (objs (((x, size) :: xs) ++ concat lss)) with (x :: objs (xs ++ concat lss)) in Hnd. apply NoDup_cons in Hnd as [Hnew Hnd].
  destruct (insert_spec h me (objs <$> lss) x size b (objs lb) Hrep Hx) as (h1 & me1 & -> & Hrep1 & Hf); [| |by rewrite list_lookup_fmap, Hlb|].
  { rewrite concat_objs. intros Hin. apply Hnew. unfold objs. rewrite fmap_app. apply elem_of_app. by right. }
  { unfold b. lia. }
  cbn [mbind outcome_bind]. change (x :: (objs lb)) with (objs ((x, size) :: lb)) in Hrep1. rewrite <- list_fmap_insert in Hrep1.
  assert (concat (<[b := (x, size) :: lb]> lss) ≡ₚ (x, size) :: concat lss) as Hperm.
  { pose proof (lookup_lt_Some _ _ _ Hlb) as Hlt. rewrite <- (take_drop_middle _ _ _ Hlb) at 2. rewrite insert_take_drop by done. rewrite !concat_app. cbn [concat app]. by rewrite <- Permutation_middle. }
  destruct (IH h1 me1 (<[b := (x, size) :: lb]> lss) Hrep1) as (h' & me' & lss' & -> & Hrep' & Hbin' & Hp').
  - intros n l p Hl Hp. destruct (Nat.eq_dec n b) as [->|Hn]; [|rewrite list_lookup_insert_ne in Hl by done; by apply (Hbin n l)].
    rewrite list_lookup_insert_eq in Hl by (by eapply lookup_lt_Some). injection Hl as <-. apply elem_of_cons in Hp as [->|Hp]; [cbn [snd]; split; [unfold b; lia|done]|by apply (Hbin b lb)].
  - unfold objs in *. rewrite Hperm, <- Permutation_middle. by constructor.
  - intros p Hp. destruct (Hal p ltac:(by right)) as [Ha Hz]. split; [by eapply framed_allocated|done].
  - exists h', me', lss'. split_and!; try done. rewrite Hp', Hperm. by rewrite <- Permutation_middle.
Qed.

Lemma zero_rep h : sorter_rep h zero_sorter (objs <$> replicate (Z.to_nat BinCount) []).
Proof.
  assert (objs <$> replicate (Z.to_nat BinCount) [] = replicate (Z.to_nat BinCount) []) as -> by (by rewrite fmap_replicate).
  assert (concat (replicate (Z.to_nat BinCount) ([] : list ptr)) = []) as E by (vm_compute; reflexivity).
  split; rewrite ?E; cbn [zero_sorter so_head so_tail so_binEdge so_bins]; [by rewrite length_replicate| |done|constructor|done|].
  - split; [by rewrite !length_replicate|]. intros b l [-> Hb]%lookup_replicate. by apply lookup_replicate_2.
  - split_and!; [lia|vm_compute; congruence| |lia]. intros b l [-> _]%lookup_replicate _. done.
Qed.

(** (C35) The sorter of collective tasks.  Inserting distinct tasks with their
    sizes into a zeroed sorter and then dequeuing all gives back, linked from the
    returned head, exactly the inserted tasks; a task that comes later is at most
    a quarter larger (in units of 1 KB, sizes above 1 GB being equal) than one
    that comes earlier; and the sorter is zeroed again. *)
Theorem ncclTaskCollSorter_sorts h xs : NoDup (objs xs) -> (forall p, p ∈ xs -> allocated task_next h p.1 /\ 0 <= p.2) ->
  exists h' me' p out, insert_all h zero_sorter xs = Ret (h', me') /\ ncclTaskCollSorterDequeueAll me' = (zero_sorter, p) /\
    ncclTaskCollSorterEmpty me' = bool_decide (xs = []) /\
    chain task_next h' p (objs out) /\ out ≡ₚ xs /\ StronglySorted (fun a b => 4 * units b.2 <= 5 * units a.2) out.
Proof.
  intros Hnd Hal. destruct (insert_all_spec xs h zero_sorter (replicate (Z.to_nat BinCount) [])) as (h' & me' & lss & E & Hrep & Hbin & Hp).
  - apply zero_rep.
  - intros b l p [-> _]%lookup_replicate Hp. by apply not_elem_of_nil in Hp.
  - assert (concat (replicate (Z.to_nat BinCount) ([] : list (ptr * Z))) = []) as -> by (vm_compute; reflexivity). by rewrite app_nil_r.
  - done.
  - assert (concat (replicate (Z.to_nat BinCount) ([] : list (ptr * Z))) = []) as E0 by (vm_compute; reflexivity). rewrite E0, app_nil_r in Hp.
    pose proof (st_chain _ _ _ Hrep) as Hc. rewrite concat_objs in Hc. exists h', me', (so_head me'), (concat lss).
    assert ((so_head me' =? nullptr) = bool_decide (xs = [])) as Hhead.
    { rewrite (chain_head _ _ _ _ Hc). destruct xs as [|x xs]; [by apply Permutation_nil_r in Hp as ->|]. destruct (concat lss) as [|y l]; [by apply Permutation_nil_l in Hp|done]. }
    split_and!; [done| |done|done|done|by eapply binned_sorted].
    unfold ncclTaskCollSorterDequeueAll. rewrite Hhead. destruct xs as [|x xs]; [|done]. cbn [insert_all] in E. injection E as _ <-. done.
Qed.

(** Four tasks at the addresses 8, 16, 24 and 32. *)
Definition four_tasks : heap := <[(8, task_next) := 0]> (<[(16, task_next) := 0]> (<[(24, task_next) := 0]> {[(32, task_next) := 0]})).

Lemma ncclTaskCollSorter_sorts_witness : exists h' me' p out,
  insert_all four_tasks zero_sorter [(8, 3000); (16, 5000000); (24, 2 ^ 40); (32, 5100000)] = Ret (h', me') /\ chain task_next h' p (objs out) /\
  out ≡ₚ [(8, 3000); (16, 5000000); (24, 2 ^ 40); (32, 5100000)] /\ StronglySorted (fun a b => 4 * units b.2 <= 5 * units a.2) out.
Proof.
  destruct (ncclTaskCollSorter_sorts four_tasks [(8, 3000); (16, 5000000); (24, 2 ^ 40); (32, 5100000)]) as (h' & me' & p & out & E & _ & _ & Hc & Hp & Hs).
  - apply (bool_decide_unpack _). vm_compute. exact I.
  - apply Forall_forall. repeat constructor; vm_compute; (congruence || eexists; reflexivity).
  - exists h', me', p, out. exact (conj E (conj Hc (conj Hp Hs))).
Defined.
