(* ===== verification/ProxyOp.v ===== *)
(** * Proxy operations and collective tasks (src/src/include/proxy.h, comm.h)

    The data that the scheduler fills in and the proxy thread executes.  The
    fields of [ncclProxyOp] are grouped so that the functions that fill in one
    group leave the others alone; pointers and handles are addresses, 0 for
    null. *)
From S2P Require Import Prelude Bitops Device RingAlgo.

Inductive ncclPattern_t :=
  | ncclPatternRing | ncclPatternRingTwice | ncclPatternPipelineFrom | ncclPatternPipelineTo
  | ncclPatternTreeUp | ncclPatternTreeDown | ncclPatternTreeUpDown | ncclPatternCollnetChain
  | ncclPatternCollnetDirect | ncclPatternNvls | ncclPatternNvlsTree | ncclPatternPatUp
  | ncclPatternPatDown | ncclPatternSend | ncclPatternRecv | ncclPatternProfiler.

#[global] Instance ncclPattern_eq_dec : EqDecision ncclPattern_t.
Proof. solve_decision. Defined.

(** ** Proxy operations *)

(** Sizes and step counts. *)
Record op_shape := MkShape {
  op_nbytes : Z; op_nsteps : Z; op_chunkSize : Z; op_sliceSize : Z; op_loopSize : Z; op_loopOffset : Z;
  op_channelSize : Z; op_sliceSteps : Z; op_chunkSteps : Z }.

(** What is computed, and how. *)
Record op_kind := MkKind {
  op_root : Z; op_dtype : ncclDataType_t; op_redOp : Z; op_coll : ncclFunc_t; op_pattern : ncclPattern_t;
  op_protocol : Z; op_algorithm : Z }.

(** The algorithm object of a registered ring. *)
Inductive ring_object :=
  | RingAGObject (a : RingAG.RingAGAlgorithm)
  | RingARObject (a : RingAR.RingARAlgorithm)
  | RingBCObject (a : RingBC.RingBCAlgorithm).

(** Buffers and registrations. *)
Record op_buffers := MkBuffers {
  op_reg : bool; op_regp : bool; op_sendMhandle : Z; op_recvMhandle : Z; op_sendbuff : Z; op_recvbuff : Z;
  op_isOneRPN : bool; op_ringAlgo : option ring_object }.

(** [specifics.collnetDirect], the task and the bookkeeping. *)
Record op_meta := MkMeta {
  op_sizePerRank : Z; op_nNodes : Z; op_node : Z; op_task : Z; op_incWorkCounter : bool; op_eActivationMask : Z;
  op_rank : Z; op_peer : Z; op_peerRank : Z; op_workCounter : Z; op_ncclFuncTimes : Z; op_groupHash : Z }.

Record proxy_args := MkArgs { op_sh : op_shape; op_kd : op_kind; op_bf : op_buffers; op_mt : op_meta }.

Record ncclProxyOp := MkProxyOp { opCount : Z; op_channelId : Z; op_payload : proxy_args }.

Definition zero_shape : op_shape := MkShape 0 0 0 0 0 0 0 0 0.
Definition zero_kind : op_kind := MkKind 0 ncclInt8 0 ncclFuncBroadcast ncclPatternRing 0 0.
Definition zero_buffers : op_buffers := MkBuffers false false 0 0 0 0 false None.
Definition zero_meta : op_meta := MkMeta 0 0 0 0 false 0 0 0 0 0 0 0.
(** [memset(proxyOp, 0, sizeof( *proxyOp))] *)
Definition zero_args : proxy_args := MkArgs zero_shape zero_kind zero_buffers zero_meta.

Definition set_pattern (p : ncclPattern_t) (a : proxy_args) : proxy_args :=
  let k := op_kd a in
  MkArgs (op_sh a) (MkKind (op_root k) (op_dtype k) (op_redOp k) (op_coll k) p (op_protocol k) (op_algorithm k)) (op_bf a) (op_mt a).
Definition set_nsteps (n : Z) (a : proxy_args) : proxy_args :=
  let s := op_sh a in
  MkArgs (MkShape (op_nbytes s) n (op_chunkSize s) (op_sliceSize s) (op_loopSize s) (op_loopOffset s) (op_channelSize s)
            (op_sliceSteps s) (op_chunkSteps s)) (op_kd a) (op_bf a) (op_mt a).
Definition set_part (loopOffset channelSize : Z) (a : proxy_args) : proxy_args :=
  let s := op_sh a in
  MkArgs (MkShape (op_nbytes s) (op_nsteps s) (op_chunkSize s) (op_sliceSize s) (op_loopSize s) loopOffset channelSize
            (op_sliceSteps s) (op_chunkSteps s)) (op_kd a) (op_bf a) (op_mt a).
Definition set_ringAlgo (r : option ring_object) (a : proxy_args) : proxy_args :=
  let b := op_bf a in
  MkArgs (op_sh a) (op_kd a) (MkBuffers (op_reg b) (op_regp b) (op_sendMhandle b) (op_recvMhandle b) (op_sendbuff b) (op_recvbuff b)
                               (op_isOneRPN b) r) (op_mt a).
(** [task], [rank], [eActivationMask] and [incWorkCounter] of a collective. *)
Definition set_task (task rank mask : Z) (inc : bool) (a : proxy_args) : proxy_args :=
  let m := op_mt a in
  MkArgs (op_sh a) (op_kd a) (op_bf a)
    (MkMeta (op_sizePerRank m) (op_nNodes m) (op_node m) task inc mask rank (op_peer m) (op_peerRank m) (op_workCounter m)
       (op_ncclFuncTimes m) (op_groupHash m)).
Definition set_peerRank (peer rank : Z) (a : proxy_args) : proxy_args :=
  let m := op_mt a in
  MkArgs (op_sh a) (op_kd a) (op_bf a)
    (MkMeta (op_sizePerRank m) (op_nNodes m) (op_node m) (op_task m) (op_incWorkCounter m) (op_eActivationMask m) rank (op_peer m) peer
       (op_workCounter m) (op_ncclFuncTimes m) (op_groupHash m)).
Definition set_peer (peer : Z) (a : proxy_args) : proxy_args :=
  let m := op_mt a in
  MkArgs (op_sh a) (op_kd a) (op_bf a)
    (MkMeta (op_sizePerRank m) (op_nNodes m) (op_node m) (op_task m) (op_incWorkCounter m) (op_eActivationMask m) (op_rank m) peer
       (op_peerRank m) (op_workCounter m) (op_ncclFuncTimes m) (op_groupHash m)).
Definition set_workCounter (n : Z) (a : proxy_args) : proxy_args :=
  let m := op_mt a in
  MkArgs (op_sh a) (op_kd a) (op_bf a)
    (MkMeta (op_sizePerRank m) (op_nNodes m) (op_node m) (op_task m) (op_incWorkCounter m) (op_eActivationMask m) (op_rank m) (op_peer m)
       (op_peerRank m) n (op_ncclFuncTimes m) (op_groupHash m)).

(** ** Collective tasks *)

Record ncclTaskColl := MkTaskColl {
  t_id : Z; (* the address of the task *)
  t_func : ncclFunc_t; t_sendbuff : Z; t_recvbuff : Z; t_count : Z; t_root : Z; t_datatype : ncclDataType_t;
  t_opHost : Z; t_opDev : ncclDevRedOp_t; t_chunkSteps : Z; t_sliceSteps : Z;
  t_trafficBytes : Z; t_nMaxChannels : Z; t_nWarps : Z; t_algorithm : Z; t_protocol : Z;
  t_isCollnet : bool; t_isNvls : bool; t_devFuncId : Z; t_regBufType : Z; t_nCleanupQueueElts : Z;
  t_sendMhandle : Z; t_recvMhandle : Z;
  t_sendNetHandles : list Z; t_recvNetHandles : list Z; t_srecvNetHandles : list Z; t_eActivationMask : Z }.

Definition NCCL_IPC_REG_BUFFER : Z := 1.
Definition NCCL_NVLS_REG_BUFFER : Z := 2.
Definition NCCL_NET_REG_BUFFER : Z := 4.

Definition ncclFuncTrafficPerByte (func : ncclFunc_t) (nRanks : Z) : Z :=
  match func with
  | ncclFuncAllReduce => 2
  | ncclFuncAllGather => nRanks
  | ncclFuncReduceScatter => nRanks
  | _ => 1
  end.

Definition ncclFuncSendCount (func : ncclFunc_t) (nRanks count : Z) : Z :=
  match func with ncclFuncReduceScatter => u64 (nRanks * count) | _ => count end.
Definition ncclFuncRecvCount (func : ncclFunc_t) (nRanks count : Z) : Z :=
  match func with ncclFuncAllGather => u64 (nRanks * count) | _ => count end.
Definition ncclFuncMaxSendRecvCount (func : ncclFunc_t) (nRanks count : Z) : Z :=
  match func with ncclFuncAllGather | ncclFuncReduceScatter => u64 (nRanks * count) | _ => count end.
