(* ===== verification/Chunking.v ===== *)
(** * Chunk sizes and step counts of a collective (src/src/enqueue.cc)

    [calcCollChunking] chooses, for the part of a collective that one or more
    channels carry, the communication pattern, the size of a chunk and the
    number of steps of the proxy.  The floating point test of the tree algorithm
    is computed with the IEEE formats of [SpecFloat]. *)
From S2P Require Import Prelude Bitops Device RingAlgo ProxyOp.
From Stdlib Require Import SpecFloat.

(** The fields of [ncclComm] it reads; [cc_nvlsSlow] is
    [bandwidths[ncclFuncAllReduce][NCCL_ALGO_NVLS][NCCL_PROTO_SIMPLE] < 150]. *)
Record coll_comm := MkCollComm {
  cc_rank : Z; cc_nRanks : Z; cc_nNodes : Z; cc_node : Z; cc_buffSizes : list Z; cc_isOneRPN : bool;
  cc_nvlsChunkSize : Z; cc_nvlsSlow : bool; cc_nvlsTreeMaxChunkSize : Z;
  cc_direct_depth : Z; cc_direct_nHeads : Z; cc_direct_headRank : Z; cc_chain_depth : Z;
  cc_nvls_nHeads : Z; cc_nvls_headRank : Z; cc_groupHash : Z; cc_ncclFuncTimes : Z }.

(** ** Patterns *)

Definition choose_pattern (func : ncclFunc_t) (algorithm : Z) : outcome ncclPattern_t :=
  match func with
  | ncclFuncBroadcast => Ret (if algorithm =? NCCL_ALGO_TREE then ncclPatternTreeDown else ncclPatternPipelineFrom)
  | ncclFuncReduce => Ret (if algorithm =? NCCL_ALGO_TREE then ncclPatternTreeUp else ncclPatternPipelineTo)
  | ncclFuncReduceScatter =>
      Ret (if algorithm =? NCCL_ALGO_PAT then ncclPatternPatUp
           else if algorithm =? NCCL_ALGO_NVLS then ncclPatternNvls
           else if algorithm =? NCCL_ALGO_COLLNET_DIRECT then ncclPatternCollnetDirect
           else ncclPatternRing)
  | ncclFuncAllGather =>
      Ret (if algorithm =? NCCL_ALGO_PAT then ncclPatternPatDown
           else if algorithm =? NCCL_ALGO_NVLS then ncclPatternNvls
           else if algorithm =? NCCL_ALGO_COLLNET_DIRECT then ncclPatternCollnetDirect
           else ncclPatternRing)
  | ncclFuncAllReduce =>
      Ret (if algorithm =? NCCL_ALGO_NVLS then ncclPatternNvls
           else if algorithm =? NCCL_ALGO_NVLS_TREE then ncclPatternNvlsTree
           else if algorithm =? NCCL_ALGO_COLLNET_DIRECT then ncclPatternCollnetDirect
           else if algorithm =? NCCL_ALGO_COLLNET_CHAIN then ncclPatternCollnetChain
           else if algorithm =? NCCL_ALGO_TREE then ncclPatternTreeUpDown
           else ncclPatternRingTwice)
  | _ => Fail ncclInternalError
  end.

(** ** Chunk size *)

(** [while (cond && chunkSize > limit) chunkSize /= 2;] *)
Fixpoint halve_while (fuel : nat) (cond : Z -> outcome bool) (limit chunkSize : Z) : outcome Z :=
  match fuel with
  | O => Stuck
  | S fuel =>
      b ← cond chunkSize;
      if (b : bool) && (limit <? chunkSize) then halve_while fuel cond limit (chunkSize `quot` 2) else Ret chunkSize
  end.

(** [nBytes / (m * chunkSize)]: an [int] product, a [size_t] quotient. *)
Definition loops_of (nBytes m chunkSize : Z) : outcome Z :=
  p ← arith int32 (m * chunkSize);
  if p =? 0 then Stuck else Ret (nBytes / u64 p).

(** ... [< bound], with [bound] converted to [size_t]. *)
Definition fewer_loops (nBytes m bound chunkSize : Z) : outcome bool :=
  q ← loops_of nBytes m chunkSize; Ret (q <? u64 bound).

Definition float_of_Z (z : Z) : spec_float := binary_normalize 24 128 z 0 false.
Definition double_of_Z (z : Z) : spec_float := binary_normalize 53 1024 z 0 false.
Definition reformat (prec emax : Z) (x : spec_float) : spec_float :=
  match x with
  | S754_finite s m e => binary_normalize prec emax (if s then Z.neg m else Z.pos m) e s
  | _ => x
  end.

(** [float ppn = comm->nRanks / (float)nNodes;] *)
Definition tree_ppn (nRanks nNodes : Z) : spec_float := SFdiv 24 128 (float_of_Z nRanks) (float_of_Z nNodes).
(** [float nstepsLL128 = 1+log2i(nNodes) + 0.1*ppn;] *)
Definition tree_nstepsLL128 (nRanks nNodes : Z) : spec_float :=
  reformat 24 128
    (SFadd 53 1024 (double_of_Z (1 + log2Down int64 nNodes))
       (SFmul 53 1024 (SFdiv 53 1024 (double_of_Z 1) (double_of_Z 10)) (reformat 53 1024 (tree_ppn nRanks nNodes)))).
(** [nBytes / (nChannels*chunkSize) < nstepsLL128*k/ppn] *)
Definition tree_few (nRanks nNodes nChannels nBytes k chunkSize : Z) : outcome bool :=
  q ← loops_of nBytes nChannels chunkSize;
  Ret (SFltb (float_of_Z q)
         (SFdiv 24 128 (SFmul 24 128 (tree_nstepsLL128 nRanks nNodes) (float_of_Z k)) (tree_ppn nRanks nNodes))).

(** [if (nBytes < k * (concurrentOps * chunkSize) && chunkSize > size) chunkSize = size;] in [uint64_t]. *)
Definition cap_chunk (nBytes concurrentOps k size chunkSize : Z) : Z :=
  if (nBytes <? u64 (k * u64 (concurrentOps * chunkSize))) && (size <? chunkSize) then size else chunkSize.

Definition tune_chunk (comm : coll_comm) (info : ncclTaskColl) (nChannels nBytes chunkSteps chunkSize : Z) : outcome Z :=
  let alg := t_algorithm info in
  if alg =? NCCL_ALGO_COLLNET_DIRECT then
    m ← arith int32 (nChannels * cc_direct_nHeads comm);
    c ← halve_while 32 (fewer_loops nBytes m (cc_direct_depth comm * 64)) 131072 chunkSize;
    c ← halve_while 32 (fewer_loops nBytes m (cc_direct_depth comm * 8)) 65536 c;
    halve_while 32 (fewer_loops nBytes m (cc_direct_depth comm * 8)) 32768 c
  else if alg =? NCCL_ALGO_COLLNET_CHAIN then
    buff ← zget (cc_buffSizes comm) NCCL_PROTO_SIMPLE;
    s ← arith int32 (buff `quot` NCCL_STEPS * chunkSteps);
    c ← halve_while 32 (fewer_loops nBytes nChannels (cc_chain_depth comm * 64)) 131072 (Z.min (256 * 1024) s);
    c ← halve_while 32 (fewer_loops nBytes nChannels (cc_chain_depth comm * 8)) 65536 c;
    halve_while 32 (fewer_loops nBytes nChannels (cc_chain_depth comm)) 32768 c
  else if alg =? NCCL_ALGO_NVLS then
    let maxChunkSize := if (1 <? cc_nNodes comm) && cc_nvlsSlow comm then 32768 else cc_nvlsChunkSize comm in
    let c := if maxChunkSize <? chunkSize then maxChunkSize else chunkSize in
    m ← arith int32 (nChannels * cc_nvls_nHeads comm);
    let ops := u64 m in
    Ret (cap_chunk nBytes ops 2 16384 (cap_chunk nBytes ops 8 32768 (cap_chunk nBytes ops 64 65536 c)))
  else if alg =? NCCL_ALGO_NVLS_TREE then
    m ← arith int32 (nChannels * cc_nvls_nHeads comm);
    let ops := u64 m in
    let c := cc_nvlsChunkSize comm in
    let maxChunkSize := cc_nvlsTreeMaxChunkSize comm in
    let maxChunkSize := if maxChunkSize =? -2 then (if 4 <=? cc_nNodes comm then 65536 else c) else maxChunkSize in
    let c := Z.min c maxChunkSize in
    Ret (cap_chunk nBytes ops 1 32768 (cap_chunk nBytes ops 4 65536 (cap_chunk nBytes ops 16 131072 (cap_chunk nBytes ops 32 262144 c))))
  else if (alg =? NCCL_ALGO_TREE) && (t_protocol info =? NCCL_PROTO_LL128) then
    c ← halve_while 32 (tree_few (cc_nRanks comm) (cc_nNodes comm) nChannels nBytes 64) 131072 chunkSize;
    halve_while 32 (tree_few (cc_nRanks comm) (cc_nNodes comm) nChannels nBytes 16) 32768 c
  else if bool_decide (t_func info = ncclFuncAllGather) && (alg =? NCCL_ALGO_PAT) then
    halve_while 32 (fun c => p ← arith int32 (c * nChannels); p ← arith int32 (p * 32); Ret (nBytes <? u64 p)) 65536 chunkSize
  else if bool_decide (t_func info = ncclFuncReduceScatter) && (alg =? NCCL_ALGO_PAT) then
    halve_while 32 (fun c => p ← arith int32 (c * nChannels); p ← arith int32 (p * 16); Ret (nBytes <? u64 p)) 65536 chunkSize
  else Ret chunkSize.

(** [chunkSteps] or [sliceSteps]. *)
Definition ring_steps (info : ncclTaskColl) (steps : Z) : Z :=
  if (t_protocol info =? NCCL_PROTO_SIMPLE) && (t_algorithm info =? NCCL_ALGO_RING) then steps else 1.

Definition base_chunk (info : ncclTaskColl) (stepSize : Z) : outcome Z :=
  c ← arith int32 (stepSize * ring_steps info (t_chunkSteps info));
  let c := if t_protocol info =? NCCL_PROTO_LL then c `quot` 2 else c in
  Ret (if t_protocol info =? NCCL_PROTO_LL128 then c `quot` NCCL_LL128_LINEELEMS * NCCL_LL128_DATAELEMS else c).

(** ** Steps *)

(** [(nstepsPerLoop, nchunksPerLoop, loopOffset)] *)
Definition loop_shape (comm : coll_comm) (pattern : ncclPattern_t) (nChannels chunkSize : Z) : outcome (Z * Z * Z) :=
  match pattern with
  | ncclPatternTreeUp | ncclPatternTreeDown | ncclPatternTreeUpDown | ncclPatternPatUp | ncclPatternPatDown
  | ncclPatternPipelineFrom | ncclPatternPipelineTo | ncclPatternCollnetChain => Ret (1, 1, 0)
  | ncclPatternNvls =>
      p ← arith int32 (nChannels * chunkSize); p ← arith int32 (p * cc_nvls_headRank comm); Ret (1, cc_nvls_nHeads comm, u64 p)
  | ncclPatternCollnetDirect =>
      p ← arith int32 (nChannels * chunkSize); p ← arith int32 (p * cc_direct_headRank comm); Ret (1, cc_direct_nHeads comm, u64 p)
  | ncclPatternRing => Ret (cc_nRanks comm - 1, cc_nRanks comm, 0)
  | ncclPatternRingTwice => Ret (2 * (cc_nRanks comm - 1), cc_nRanks comm, 0)
  | ncclPatternNvlsTree => Ret (1, cc_nvls_nHeads comm, 0)
  | _ => Fail ncclInternalError
  end.

(** [DIVUP] on [size_t]. *)
Definition DIVUP_size (x y : Z) : outcome Z := if y =? 0 then Stuck else Ret (u64 (x + y - 1) / y).

(** Network registration: the shape and buffers of the operation. *)
Definition register_net (comm : coll_comm) (info : ncclTaskColl) (nChannels nBytes nstepsPerLoop nchunksPerLoop : Z) (sh : op_shape)
    (sb sm : Z) : outcome (op_shape * Z * Z) :=
  let alg := t_algorithm info in
  '(sh, sb, sm) ←
    (if (alg =? NCCL_ALGO_COLLNET_DIRECT) || (alg =? NCCL_ALGO_NVLS) || (alg =? NCCL_ALGO_COLLNET_CHAIN) then
       if cc_isOneRPN comm then
         Ret (MkShape (op_nbytes sh) 1 (op_chunkSize sh) (op_sliceSize sh) (op_loopSize sh) 0 (op_channelSize sh)
                (op_sliceSteps sh) (op_chunkSteps sh), t_sendbuff info, t_sendMhandle info)
       else
         match t_func info with
         | ncclFuncAllGather | ncclFuncReduceScatter =>
             _ ← require (negb (nchunksPerLoop =? 0));
             let sh := MkShape (nBytes / u64 nchunksPerLoop) (op_nsteps sh) (op_chunkSize sh) (op_sliceSize sh)
                         (op_loopSize sh / u64 nchunksPerLoop) 0 (op_channelSize sh) (op_sliceSteps sh) (op_chunkSteps sh) in
             Ret (match t_func info with
                  | ncclFuncAllGather => (sh, t_sendbuff info, t_sendMhandle info)
                  | _ => (sh, sb, sm)
                  end)
         | _ => Ret (sh, t_recvbuff info, t_recvMhandle info)
         end
     else if alg =? NCCL_ALGO_RING then
       if cc_isOneRPN comm && bool_decide (t_func info = ncclFuncAllGather) then
         let loopSize := u64 (u64 (nChannels * nchunksPerLoop) * NCCL_MAX_NET_SIZE) in
         n ← DIVUP_size nBytes loopSize;
         Ret (MkShape (op_nbytes sh) (conv int32 (u64 (n * nstepsPerLoop))) NCCL_MAX_NET_SIZE NCCL_MAX_NET_SIZE loopSize 0
                (op_channelSize sh) 1 1, sb, sm)
       else Ret (sh, sb, sm)
     else Fail ncclInternalError);
  Ret (MkShape nBytes (op_nsteps sh) (op_chunkSize sh) (op_sliceSize sh) (op_loopSize sh) (op_loopOffset sh) (op_channelSize sh)
         (op_sliceSteps sh) (op_chunkSteps sh), sb, sm).

Definition NCCL_P2P_WRITE : Z := 1.
Definition NCCL_P2P_READ : Z := 2.

(** The chunk size adapted to the bytes and the steps of the proxy:
    [(shape, nstepsPerLoop, nchunksPerLoop, directFlags)]. *)
Definition calc_steps (comm : coll_comm) (info : ncclTaskColl) (nChannels nBytes : Z) (pattern : ncclPattern_t) : outcome (op_shape * Z * Z * Z) :=
  let grainSize := u64 (ncclProtoGrainSize (t_protocol info)) in
  buff ← zget (cc_buffSizes comm) (t_protocol info);
  let stepSize := buff `quot` NCCL_STEPS in
  let chunkSteps := ring_steps info (t_chunkSteps info) in
  let sliceSteps := ring_steps info (t_sliceSteps info) in
  chunk ← base_chunk info stepSize;
  chunk ← tune_chunk comm info nChannels nBytes chunkSteps chunk;
  stepSize ← (if t_algorithm info =? NCCL_ALGO_COLLNET_CHAIN
              then buff ← zget (cc_buffSizes comm) NCCL_PROTO_SIMPLE; Ret (buff `quot` NCCL_STEPS) else Ret stepSize);
  _ ← require (negb (nChannels =? 0));
  let directFlags := if t_algorithm info =? NCCL_ALGO_COLLNET_DIRECT
                     then (if nBytes / u64 nChannels <=? 1024 * 4 then NCCL_P2P_READ else NCCL_P2P_WRITE) else 0 in
  let chunk := conv int32 (u64 (u64 chunk / grainSize * grainSize)) in
  '(nstepsPerLoop, nchunksPerLoop, loopOffset) ← loop_shape comm pattern nChannels chunk;
  let loopSize := u64 (u64 (u64 nChannels * u64 nchunksPerLoop) * u64 chunk) in
  n ← DIVUP_size nBytes loopSize;
  let nLoops := conv int32 n in
  nsteps ← arith int32 (nstepsPerLoop * nLoops);
  nsteps ← arith int32 (nsteps * chunkSteps);
  _ ← require (negb (chunkSteps =? 0));
  slice ← arith int32 (chunk `quot` chunkSteps * sliceSteps);
  nb ← arith int32 (stepSize * sliceSteps);
  Ret (MkShape nb nsteps (u64 chunk) (u64 slice) loopSize loopOffset 0 (u8 sliceSteps) (u8 chunkSteps), nstepsPerLoop, nchunksPerLoop, directFlags).

(** The outputs [(chunkSize, directFlags, proxyOp)]. *)
Definition calcCollChunking (comm : coll_comm) (info : ncclTaskColl) (nChannels nBytes : Z) : outcome (Z * Z * proxy_args) :=
  pattern ← choose_pattern (t_func info) (t_algorithm info);
  '(sh, nstepsPerLoop, nchunksPerLoop, directFlags) ← calc_steps comm info nChannels nBytes pattern;
  let redOp := match t_opDev info with ncclDevPreMulSum | ncclDevSumPostDiv => 0 (* ncclSum *) | _ => t_opHost info end in
  let reg := negb (Z.land (t_regBufType info) NCCL_NET_REG_BUFFER =? 0) in
  '(sh, bf) ←
    (if reg then
       '(sh, sb, sm) ← register_net comm info nChannels nBytes nstepsPerLoop nchunksPerLoop sh 0 0;
       Ret (sh, MkBuffers true false sm (t_recvMhandle info) sb (t_recvbuff info) (cc_isOneRPN comm) None)
     else Ret (sh, MkBuffers false false 0 0 0 0 (cc_isOneRPN comm) None));
  let '(sizePerRank, nn, nd) :=
    if decide (pattern = ncclPatternCollnetDirect) then
      (match t_func info with
       | ncclFuncAllGather | ncclFuncReduceScatter => u64 (t_count info * ncclTypeSize (t_datatype info)) | _ => 0 end, cc_nNodes comm, cc_node comm)
    else (0, 0, 0) in
  nb ← match pattern with ncclPatternPatUp | ncclPatternPatDown => DIVUP_size nBytes (u64 nChannels) | _ => Ret (op_nbytes sh) end;
  let sh := MkShape nb (op_nsteps sh) (op_chunkSize sh) (op_sliceSize sh) (op_loopSize sh) (op_loopOffset sh) (op_channelSize sh)
              (op_sliceSteps sh) (op_chunkSteps sh) in
  Ret (u32 (op_chunkSize sh), directFlags,
       MkArgs sh (MkKind (t_root info) (t_datatype info) redOp (t_func info) pattern (t_protocol info) (t_algorithm info)) bf
         (MkMeta sizePerRank nn nd 0 false 0 0 0 0 0 (cc_ncclFuncTimes comm) (cc_groupHash comm))).

(** ** Bounds of the chunk size *)

Lemma halve_while_spec cond limit c0 n : 2 <= limit -> (forall c, 0 < c <= c0 -> exists b, cond c = Ret b) ->
  forall c, 0 < c <= c0 -> c <= limit * 2 ^ Z.of_nat n ->
  wp (halve_while (S n) cond limit c) (fun c' => Z.min c (limit / 2) <= c' <= c).
Proof.
  intros Hl Hcond. induction n as [|n IH]; intros c Hc Hn.
  - change (2 ^ Z.of_nat 0) with 1 in Hn. cbn [halve_while]. destruct (Hcond c Hc) as [b ->]. cbn [mbind outcome_bind].
    replace (limit <? c) with false by (zcases; lia). rewrite andb_false_r. simpl. lia.
  - cbn [halve_while]. destruct (Hcond c Hc) as [b ->]. cbn [mbind outcome_bind]. destruct (b && (limit <? c)) eqn:E; [|simpl; lia].
    apply andb_true_iff in E as [_ E%Z.ltb_lt]. rewrite Nat2Z.inj_succ, Z.pow_succ_r in Hn by lia.
    pose proof (quot_div_nonneg c 2 ltac:(lia) ltac:(lia)) as Hq. eapply wpx_mono; [apply IH| |done].
    + rewrite Hq. dlia.
    + rewrite Hq. dlia.
    + simpl. rewrite Hq. intros c'. dlia.
Qed.

Lemma halve_while_32 cond limit c : 32768 <= limit -> 0 < c < 2 ^ 31 -> (forall x, 0 < x <= c -> exists b, cond x = Ret b) ->
  wp (halve_while 32 cond limit c) (fun c' => Z.min c 16384 <= c' <= c).
Proof.
  intros Hl Hc Hcond. eapply wpx_mono; [apply (halve_while_spec cond limit c 31)| |done]; [lia|done|lia| |].
  - change (2 ^ Z.of_nat 31) with (2 ^ 31). nia.
  - simpl. intros c'. dlia.
Qed.

Lemma int32_small z : - 2 ^ 31 <= z < 2 ^ 31 -> arith int32 z = Ret z.
Proof. intros. by apply arith_in_range. Qed.

Lemma loops_of_total nBytes m c : 0 < m * c < 2 ^ 31 -> loops_of nBytes m c = Ret (nBytes / u64 (m * c)).
Proof. intros H. unfold loops_of. rewrite int32_small by lia. cbn [mbind outcome_bind]. destruct (Z.eqb_spec (m * c) 0); [lia|done]. Qed.

Lemma cap_chunk_bounds nBytes ops k size c : 16384 <= size -> Z.min c 16384 <= cap_chunk nBytes ops k size c <= c.
Proof. intros. unfold cap_chunk. destruct (_ && _) eqn:E; [|lia]. apply andb_true_iff in E as [_ ?%Z.ltb_lt]. lia. Qed.

Ltac pattern_cases func alg :=
  destruct func; intros H; try discriminate; injection H as H; revert H;
  repeat match goal with |- context [alg =? ?x] => destruct (Z.eqb_spec alg x); [done|] end; done.

Lemma pattern_nvls func alg : choose_pattern func alg = Ret ncclPatternNvls -> alg = NCCL_ALGO_NVLS.
Proof. pattern_cases func alg. Qed.

Lemma pattern_nvlstree func alg : choose_pattern func alg = Ret ncclPatternNvlsTree -> alg = NCCL_ALGO_NVLS_TREE.
Proof. pattern_cases func alg. Qed.

Lemma pattern_direct func alg : choose_pattern func alg = Ret ncclPatternCollnetDirect -> alg = NCCL_ALGO_COLLNET_DIRECT.
Proof. pattern_cases func alg. Qed.

Lemma pattern_coll func alg p : choose_pattern func alg = Ret p -> p <> ncclPatternSend /\ p <> ncclPatternRecv /\ p <> ncclPatternProfiler.
Proof. destruct func; intros H; try discriminate; injection H as <-; repeat destruct (_ =? _); done. Qed.

Section chunk.
Context (comm : coll_comm) (info : ncclTaskColl) (nChannels nBytes : Z).

Definition grain : Z := ncclProtoGrainSize (t_protocol info).
Definition step_of (p : Z) : Z := znth (cc_buffSizes comm) p `quot` NCCL_STEPS.
(** The buffer of one step of the proxy. *)
Definition step_size : Z := step_of (if t_algorithm info =? NCCL_ALGO_COLLNET_CHAIN then NCCL_PROTO_SIMPLE else t_protocol info).
Definition chunk_steps : Z := ring_steps info (t_chunkSteps info).
Definition slice_steps : Z := ring_steps info (t_sliceSteps info).

Definition base_of (c : Z) : Z :=
  let c := if t_protocol info =? NCCL_PROTO_LL then c `quot` 2 else c in
  if t_protocol info =? NCCL_PROTO_LL128 then c `quot` NCCL_LL128_LINEELEMS * NCCL_LL128_DATAELEMS else c.

(** The chunk size before it is adapted to the number of bytes. *)
Definition start_chunk : Z :=
  if t_algorithm info =? NCCL_ALGO_COLLNET_CHAIN then Z.min (256 * 1024) (step_of NCCL_PROTO_SIMPLE * chunk_steps)
  else if t_algorithm info =? NCCL_ALGO_NVLS
  then Z.min (base_of (step_size * chunk_steps)) (if (1 <? cc_nNodes comm) && cc_nvlsSlow comm then 32768 else cc_nvlsChunkSize comm)
  else if t_algorithm info =? NCCL_ALGO_NVLS_TREE
  then Z.min (cc_nvlsChunkSize comm)
         (if cc_nvlsTreeMaxChunkSize comm =? -2 then (if 4 <=? cc_nNodes comm then 65536 else cc_nvlsChunkSize comm)
          else cc_nvlsTreeMaxChunkSize comm)
  else base_of (step_size * chunk_steps).

(** Chunks in flight at once, up to the factor of the PAT test. *)
Definition heads_of (alg : Z) : Z :=
  if alg =? NCCL_ALGO_COLLNET_DIRECT then cc_direct_nHeads comm
  else if (alg =? NCCL_ALGO_NVLS) || (alg =? NCCL_ALGO_NVLS_TREE) then cc_nvls_nHeads comm
  else if alg =? NCCL_ALGO_PAT then 32 else 1.

(** What the communicator and the task guarantee: a known protocol and
    algorithm, buffers in the range of the settings, and products that fit an
    [int].  That a chunk has room for a grain ([grain <= start_chunk]) is not part
    of it: the buffer sizes are settings of the user. *)
Record chunk_wf : Prop := {
  cw_proto : t_protocol info = NCCL_PROTO_LL \/ t_protocol info = NCCL_PROTO_LL128 \/ t_protocol info = NCCL_PROTO_SIMPLE;
  cw_alg : 0 <= t_algorithm info <= NCCL_ALGO_PAT;
  cw_buffs : length (cc_buffSizes comm) = 3%nat /\ Forall (fun b => 8 <= b < 2 ^ 31) (cc_buffSizes comm);
  cw_steps : 1 <= t_sliceSteps info <= t_chunkSteps info /\ t_chunkSteps info <= 8;
  cw_step : step_size * chunk_steps < 2 ^ 28;
  cw_start : 0 < start_chunk;
  cw_channels : 0 < nChannels <= MAXCHANNELS;
  cw_heads : 0 < heads_of (t_algorithm info) < 2 ^ 16;
  cw_fits : nChannels * heads_of (t_algorithm info) * start_chunk < 2 ^ 31;
}.

Context (Hwf : chunk_wf).

Lemma grain_cases : grain = 16 \/ grain = 1920 \/ grain = 512.
Proof. unfold grain. destruct (cw_proto Hwf) as [-> | [-> | ->]]; vm_compute; auto. Qed.

Lemma chunk_steps_range : 1 <= slice_steps <= chunk_steps /\ chunk_steps <= 8.
Proof. unfold slice_steps, chunk_steps, ring_steps. pose proof (cw_steps Hwf). destruct (_ && _); lia. Qed.

Lemma buff_at p : 0 <= p < 3 -> zget (cc_buffSizes comm) p = Ret (znth (cc_buffSizes comm) p) /\ 1 <= step_of p /\ 8 * step_of p <= znth (cc_buffSizes comm) p < 2 ^ 31.
Proof.
  intros Hp. destruct (cw_buffs Hwf) as [Hl Hf]. destruct (zget_in_bounds (cc_buffSizes comm) p ltac:(lia)) as (b & Hb & Hb').
  rewrite zget_znth in * by lia. injection Hb as Hb. split; [done|]. pose proof (Forall_lookup_1 _ _ _ _ Hf Hb') as Hr. simpl in Hr.
  unfold step_of. rewrite Hb. unfold NCCL_STEPS. rewrite quot_div_nonneg by lia. dlia.
Qed.

Lemma proto_range : 0 <= t_protocol info < 3.
Proof. destruct (cw_proto Hwf) as [-> | [-> | ->]]; vm_compute; split; congruence. Qed.

Lemma base_le c : 0 <= c -> 0 <= base_of c <= c.
Proof.
  intros Hc. unfold base_of. change NCCL_LL128_LINEELEMS with 16. change NCCL_LL128_DATAELEMS with 15.
  set (d := if t_protocol info =? NCCL_PROTO_LL then c `quot` 2 else c).
  assert (0 <= d <= c) as Hd by (unfold d; destruct (_ =? _); rewrite ?quot_div_nonneg by lia; dlia).
  destruct (_ =? NCCL_PROTO_LL128); rewrite ?quot_div_nonneg by lia; dlia.
Qed.

Lemma base_chunk_Ret : t_algorithm info <> NCCL_ALGO_COLLNET_CHAIN -> base_chunk info (step_of (t_protocol info)) = Ret (base_of (step_size * chunk_steps)).
Proof.
  intros Ha. unfold base_chunk, step_size. rewrite (proj2 (Z.eqb_neq _ _) Ha). pose proof (cw_step Hwf) as H. unfold step_size in H.
  rewrite (proj2 (Z.eqb_neq _ _) Ha) in H. fold chunk_steps. pose proof chunk_steps_range. pose proof (buff_at _ proto_range).
  rewrite int32_small by nia. done.
Qed.

Lemma base_chunk_total : exists c, base_chunk info (step_of (t_protocol info)) = Ret c /\
  (t_algorithm info <> NCCL_ALGO_COLLNET_CHAIN -> c = base_of (step_size * chunk_steps)).
Proof.
  destruct (decide (t_algorithm info = NCCL_ALGO_COLLNET_CHAIN)) as [Ha|Ha]; [|eexists; split; [by apply base_chunk_Ret|done]].
  pose proof (buff_at _ proto_range). unfold base_chunk, ring_steps. rewrite Ha. change (NCCL_ALGO_COLLNET_CHAIN =? NCCL_ALGO_RING) with false.
  rewrite andb_false_r, int32_small by lia. eexists. split; [done|congruence].
Qed.

Lemma start_pos : 0 < start_chunk.
Proof. exact (cw_start Hwf). Qed.

Lemma start_lt : start_chunk < 2 ^ 31.
Proof. pose proof (cw_fits Hwf). pose proof (cw_channels Hwf). pose proof (cw_heads Hwf). pose proof start_pos. nia. Qed.

(** The bound every halving keeps. *)
Definition tuned (c : Z) : Prop := Z.min start_chunk 16384 <= c <= start_chunk.

Lemma tuned_pos c : tuned c -> 0 < c < 2 ^ 31.
Proof. unfold tuned. pose proof start_pos. pose proof start_lt. lia. Qed.

Lemma halve_tuned cond limit c : 32768 <= limit -> tuned c -> (forall x, 0 < x <= start_chunk -> exists b, cond x = Ret b) ->
  wp (halve_while 32 cond limit c) tuned.
Proof.
  intros Hl Hc Hcond. pose proof (tuned_pos c Hc). unfold tuned in *. eapply wpx_mono; [apply halve_while_32; [done|done|]| |done].
  - intros x Hx. apply Hcond. lia.
  - simpl. intros c'. lia.
Qed.

Lemma prod_fits m x : m = nChannels * heads_of (t_algorithm info) \/ m = nChannels -> 0 < x <= start_chunk -> 0 < m * x < 2 ^ 31.
Proof.
  intros Hm Hx. pose proof (cw_fits Hwf) as Hf. pose proof (cw_channels Hwf). pose proof (cw_heads Hwf).
  set (h := heads_of (t_algorithm info)) in *. clearbody h. assert (0 < nChannels * h) by nia. set (q := nChannels * h) in *.
  assert (nChannels <= q) by nia. clearbody q. assert (m <= q /\ 0 < m) as [? ?] by lia. nia.
Qed.

Lemma few_total m bound x : m = nChannels * heads_of (t_algorithm info) \/ m = nChannels -> 0 < x <= start_chunk -> exists b, fewer_loops nBytes m bound x = Ret b.
Proof.
  intros Hm Hx. unfold fewer_loops. rewrite loops_of_total by (by apply prod_fits). by eexists.
Qed.

Lemma tree_total k x : 0 < x <= start_chunk -> exists b, tree_few (cc_nRanks comm) (cc_nNodes comm) nChannels nBytes k x = Ret b.
Proof.
  intros Hx. unfold tree_few. rewrite loops_of_total by (apply prod_fits; [by right|done]). by eexists.
Qed.

Lemma pat_total k x : heads_of (t_algorithm info) = 32 -> 0 < k <= 32 -> 0 < x <= start_chunk ->
  exists b, (p ← arith int32 (x * nChannels); p ← arith int32 (p * k); Ret (nBytes <? u64 p)) = Ret b.
Proof.
  intros Hh Hk Hx. pose proof (prod_fits _ x (or_introl eq_refl) Hx) as Hf. rewrite Hh in Hf. pose proof (cw_channels Hwf).
  rewrite int32_small by nia. cbn [mbind outcome_bind]. rewrite int32_small by nia. by eexists.
Qed.

Ltac chunk_case :=
  lazymatch goal with |- context [if ?b then _ else _] => destruct b eqn:?; try lia end.

Lemma tune_direct c : tuned c -> t_algorithm info = NCCL_ALGO_COLLNET_DIRECT -> wp (tune_chunk comm info nChannels nBytes chunk_steps c) tuned.
Proof.
  intros Hc Ha. unfold tune_chunk. rewrite Ha. cbn [Z.eqb NCCL_ALGO_COLLNET_DIRECT Pos.eqb].
  pose proof (cw_fits Hwf) as Hf. pose proof (cw_channels Hwf). pose proof (cw_heads Hwf) as Hh. pose proof start_pos.
  assert (heads_of (t_algorithm info) = cc_direct_nHeads comm) as E by (rewrite Ha; done). rewrite E in *.
  rewrite int32_small by nia. cbn [mbind outcome_bind].
  assert (forall bound x, 0 < x <= start_chunk -> exists b, fewer_loops nBytes (nChannels * cc_direct_nHeads comm) bound x = Ret b) as Hfew
    by (intros; apply few_total; [left; by rewrite E|done]).
  wp_bind. eapply wpx_mono; [apply (halve_tuned _ _ c); [lia|done|apply Hfew]| |done]. intros c1 H1.
  wp_bind. eapply wpx_mono; [apply (halve_tuned _ _ c1); [lia|done|apply Hfew]| |done]. intros c2 H2.
  apply halve_tuned; [lia|done|apply Hfew].
Qed.

Lemma tune_chain c : t_algorithm info = NCCL_ALGO_COLLNET_CHAIN -> wp (tune_chunk comm info nChannels nBytes chunk_steps c) tuned.
Proof.
  intros Ha. unfold tune_chunk. rewrite Ha. cbn [Z.eqb NCCL_ALGO_COLLNET_DIRECT NCCL_ALGO_COLLNET_CHAIN Pos.eqb].
  destruct (buff_at NCCL_PROTO_SIMPLE ltac:(done)) as (-> & Hs & Hb). cbn [mbind outcome_bind]. fold (step_of NCCL_PROTO_SIMPLE).
  assert (chunk_steps = 1) as Hcs by (unfold chunk_steps, ring_steps; rewrite Ha; change (NCCL_ALGO_COLLNET_CHAIN =? NCCL_ALGO_RING) with false; by rewrite andb_false_r).
  rewrite Hcs, int32_small by lia. cbn [mbind outcome_bind].
  assert (start_chunk = Z.min (256 * 1024) (step_of NCCL_PROTO_SIMPLE * 1)) as Hst by (unfold start_chunk; rewrite Ha, Hcs; done).
  assert (forall bound x, 0 < x <= start_chunk -> exists b, fewer_loops nBytes nChannels bound x = Ret b) as Hfew by (intros; apply few_total; [by right|done]).
  wp_bind. eapply wpx_mono; [apply halve_tuned; [lia| |apply Hfew]| |done]; [rewrite <- Hst; unfold tuned; pose proof start_pos; lia|]. intros c1 H1.
  wp_bind. eapply wpx_mono; [apply (halve_tuned _ _ c1); [lia|done|apply Hfew]| |done]. intros c2 H2.
  apply halve_tuned; [lia|done|apply Hfew].
Qed.

Lemma tune_nvls c : c = base_of (step_size * chunk_steps) -> t_algorithm info = NCCL_ALGO_NVLS -> wp (tune_chunk comm info nChannels nBytes chunk_steps c) tuned.
Proof.
  intros Hc Ha. unfold tune_chunk. rewrite Ha. cbn [Z.eqb NCCL_ALGO_COLLNET_DIRECT NCCL_ALGO_COLLNET_CHAIN NCCL_ALGO_NVLS Pos.eqb].
  pose proof (cw_fits Hwf) as Hf. pose proof (cw_channels Hwf). pose proof (cw_heads Hwf) as Hh. pose proof start_pos.
  rewrite Ha in Hf, Hh. change (heads_of NCCL_ALGO_NVLS) with (cc_nvls_nHeads comm) in *. rewrite int32_small by nia. cbn [mbind outcome_bind].
  set (mx := if (1 <? cc_nNodes comm) && cc_nvlsSlow comm then 32768 else cc_nvlsChunkSize comm).
  assert (start_chunk = Z.min c mx) as Hst by (unfold start_chunk; rewrite Ha, Hc; done).
  replace (if mx <? c then mx else c) with start_chunk by (rewrite Hst; zcases; lia). simpl. unfold tuned.
  set (ops := u64 (nChannels * cc_nvls_nHeads comm)).
  pose proof (cap_chunk_bounds nBytes ops 64 65536 start_chunk ltac:(lia)) as H1. set (c1 := cap_chunk _ _ 64 _ _) in *.
  pose proof (cap_chunk_bounds nBytes ops 8 32768 c1 ltac:(lia)) as H2. set (c2 := cap_chunk _ _ 8 _ _) in *.
  pose proof (cap_chunk_bounds nBytes ops 2 16384 c2 ltac:(lia)). lia.
Qed.

Lemma tune_nvlstree c : t_algorithm info = NCCL_ALGO_NVLS_TREE -> wp (tune_chunk comm info nChannels nBytes chunk_steps c) tuned.
Proof.
  intros Ha. unfold tune_chunk. rewrite Ha. cbn [Z.eqb NCCL_ALGO_COLLNET_DIRECT NCCL_ALGO_COLLNET_CHAIN NCCL_ALGO_NVLS NCCL_ALGO_NVLS_TREE Pos.eqb].
  pose proof (cw_fits Hwf) as Hf. pose proof (cw_channels Hwf). pose proof (cw_heads Hwf) as Hh. pose proof start_pos.
  rewrite Ha in Hf, Hh. change (heads_of NCCL_ALGO_NVLS_TREE) with (cc_nvls_nHeads comm) in *. rewrite int32_small by nia. cbn [mbind outcome_bind].
  set (ops := u64 (nChannels * cc_nvls_nHeads comm)).
  set (s := Z.min _ _). assert (start_chunk = s) as Hst by (unfold start_chunk; rewrite Ha; done). rewrite <- Hst. simpl. unfold tuned.
  pose proof (cap_chunk_bounds nBytes ops 32 262144 start_chunk ltac:(lia)) as H1. set (c1 := cap_chunk _ _ 32 _ _) in *.
  pose proof (cap_chunk_bounds nBytes ops 16 131072 c1 ltac:(lia)) as H2. set (c2 := cap_chunk _ _ 16 _ _) in *.
  pose proof (cap_chunk_bounds nBytes ops 4 65536 c2 ltac:(lia)) as H3. set (c3 := cap_chunk _ _ 4 _ _) in *.
  pose proof (cap_chunk_bounds nBytes ops 1 32768 c3 ltac:(lia)). lia.
Qed.

Lemma tune_spec c : (t_algorithm info <> NCCL_ALGO_COLLNET_CHAIN -> c = base_of (step_size * chunk_steps)) ->
  wp (tune_chunk comm info nChannels nBytes chunk_steps c) tuned.
Proof.
  intros Hc. destruct (decide (t_algorithm info = NCCL_ALGO_COLLNET_CHAIN)) as [Ha|H1]; [by apply tune_chain|]. specialize (Hc H1).
  destruct (decide (t_algorithm info = NCCL_ALGO_NVLS)) as [Ha|H2]; [by apply tune_nvls|].
  destruct (decide (t_algorithm info = NCCL_ALGO_NVLS_TREE)) as [Ha|H3]; [by apply tune_nvlstree|].
  assert (start_chunk = c) as Hst.
  { unfold start_chunk. rewrite (proj2 (Z.eqb_neq _ _) H1), (proj2 (Z.eqb_neq _ _) H2), (proj2 (Z.eqb_neq _ _) H3). done. }
  assert (tuned c) as Ht by (unfold tuned; pose proof start_pos; lia).
  destruct (decide (t_algorithm info = NCCL_ALGO_COLLNET_DIRECT)) as [Ha|H4]; [by apply tune_direct|].
  unfold tune_chunk. rewrite (proj2 (Z.eqb_neq _ _) H1), (proj2 (Z.eqb_neq _ _) H2), (proj2 (Z.eqb_neq _ _) H3), (proj2 (Z.eqb_neq _ _) H4).
  destruct ((t_algorithm info =? NCCL_ALGO_TREE) && _).
  { wp_bind. eapply wpx_mono; [apply (halve_tuned _ _ c); [lia|done|apply tree_total]| |done]. intros c1 Hc1. apply halve_tuned; [lia|done|apply tree_total]. }
  assert (forall f, bool_decide (t_func info = f) && (t_algorithm info =? NCCL_ALGO_PAT) = true -> heads_of (t_algorithm info) = 32) as H32
    by (intros f [_ Hp%Z.eqb_eq]%andb_true_iff; rewrite Hp; done).
  destruct (bool_decide (t_func info = ncclFuncAllGather) && _) eqn:E1; [apply halve_tuned; [lia|done|]; intros; apply pat_total; eauto; lia|].
  destruct (bool_decide (t_func info = ncclFuncReduceScatter) && _) eqn:E2; [apply halve_tuned; [lia|done|]; intros; apply pat_total; eauto; lia|]. exact Ht.
Qed.

Definition coll_func : Prop := t_func info <> ncclFuncSendRecv /\ t_func info <> ncclFuncSend /\ t_func info <> ncclFuncRecv.

(** The rest of what the communicator guarantees, for the steps. *)
Record steps_wf : Prop := {
  sw_func : coll_func;
  sw_ranks : 2 <= cc_nRanks comm < 2 ^ 20;
  sw_nvls : t_algorithm info = NCCL_ALGO_NVLS \/ t_algorithm info = NCCL_ALGO_NVLS_TREE ->
    0 < cc_nvls_nHeads comm < 2 ^ 16 /\ -1 <= cc_nvls_headRank comm < cc_nvls_nHeads comm;
  sw_direct : t_algorithm info = NCCL_ALGO_COLLNET_DIRECT -> 0 < cc_direct_nHeads comm < 2 ^ 16 /\ -1 <= cc_direct_headRank comm < cc_direct_nHeads comm;
  sw_bytes : 0 < nBytes /\ 16 * (nBytes / grain + 1 + cc_nRanks comm) < 2 ^ 31;
}.
Context (Hst : steps_wf).

(** What a chunk of [chunk] bytes gives in steps. *)
Lemma loop_shape_spec chunk pattern : 0 <= chunk <= start_chunk -> choose_pattern (t_func info) (t_algorithm info) = Ret pattern ->
  exists nsl ncl off, loop_shape comm pattern nChannels chunk = Ret (nsl, ncl, off) /\ 0 < ncl < 2 ^ 20 /\ 0 <= nsl /\ (nsl = 1 \/ nsl <= 2 * ncl /\ ncl = cc_nRanks comm).
Proof.
  intros Hc Hp. pose proof (sw_ranks Hst) as Hr.
  assert (forall h hr, heads_of (t_algorithm info) = h -> -1 <= hr < h -> 0 < h < 2 ^ 16 ->
    exists p, (p ← arith int32 (nChannels * chunk); arith int32 (p * hr)) = Ret p) as Hprod.
  { intros h hr Hh Hhr Hr'. destruct (decide (chunk = 0)) as [->|]; [rewrite Z.mul_0_r; by eexists|]. assert (0 < chunk <= start_chunk) as Hc' by lia. clear Hc. rename Hc' into Hc.
    pose proof (prod_fits _ chunk (or_intror eq_refl) Hc). pose proof (prod_fits _ chunk (or_introl eq_refl) Hc) as Hf. rewrite Hh in Hf.
    rewrite int32_small by lia. cbn [mbind outcome_bind]. rewrite int32_small by nia. by eexists. }
  destruct pattern; cbn [loop_shape]; try (eexists _, _, _; split; [reflexivity|]; lia); try (destruct (pattern_coll _ _ _ Hp) as (? & ? & ?); done).
  - pose proof (pattern_direct _ _ Hp) as Ha. destruct (sw_direct Hst Ha) as [Hdi Hdr]. destruct (Hprod (cc_direct_nHeads comm) (cc_direct_headRank comm) ltac:(by rewrite Ha) Hdr Hdi) as [p Hp'].
    destruct (arith int32 (nChannels * chunk)) as [q| |]; cbn [mbind outcome_bind] in *; try done. rewrite Hp'. eexists _, _, _. split; [reflexivity|]. lia.
  - pose proof (pattern_nvls _ _ Hp) as Ha. destruct (sw_nvls Hst (or_introl Ha)) as [Hnv Hnr]. destruct (Hprod (cc_nvls_nHeads comm) (cc_nvls_headRank comm) ltac:(by rewrite Ha) Hnr Hnv) as [p Hp'].
    destruct (arith int32 (nChannels * chunk)) as [q| |]; cbn [mbind outcome_bind] in *; try done. rewrite Hp'. eexists _, _, _. split; [reflexivity|]. lia.
  - pose proof (pattern_nvlstree _ _ Hp) as Ha. destruct (sw_nvls Hst (or_intror Ha)) as [Hnv Hnr]. eexists _, _, _. split; [reflexivity|]. lia.
Qed.

Lemma bytes_range : 0 < nBytes < 2 ^ 40.
Proof. destruct (sw_bytes Hst) as [H1 H2]. pose proof grain_cases as Hg. pose proof (sw_ranks Hst). split; [done|]. destruct Hg as [Hg | [Hg | Hg]]; rewrite Hg in H2; dlia. Qed.

(** Rounding to grains leaves at least one exactly when the starting size has one. *)
Lemma aligned_chunk c : tuned c ->
  let chunk := conv int32 (u64 (u64 c / u64 grain * u64 grain)) in (grain | chunk) /\ 0 <= chunk <= c /\ (if grain <=? start_chunk then grain <= chunk else chunk = 0).
Proof.
  intros Hc. pose proof (tuned_pos c Hc) as Hp. unfold tuned in Hc.
  assert (1920 < 2 ^ 16 /\ 0 < grain <= 1920) as [_ Hg] by (destruct grain_cases as [-> | [-> | ->]]; lia).
  pose proof (Z.mul_div_le c grain ltac:(lia)). pose proof (Z.mul_succ_div_gt c grain ltac:(lia)). pose proof (Z.div_pos c grain ltac:(lia) ltac:(lia)).
  assert (forall z, 0 <= z < 2 ^ 31 -> u64 z = z) as Hu by (intros; apply Z.mod_small; lia).
  rewrite (Hu grain), (Hu c), (Hu (c / grain * grain)) by lia. unfold conv. cbn [ity_signed int32 ity_width]. change (2 ^ (32 - 1)) with (2 ^ 31).
  rewrite Z.mod_small by lia. split; [by exists (c / grain); lia|]. split; [lia|]. destruct (Z.leb_spec grain start_chunk).
  - assert (1 <= c / grain) by (apply Z.div_le_lower_bound; lia). nia.
  - rewrite Z.div_small by lia. lia.
Qed.

(** The number of loops that cover [nBytes], and its size in steps. *)
Lemma loops_spec chunk nsl ncl : grain <= chunk <= start_chunk -> 0 < ncl < 2 ^ 20 -> 0 <= nsl -> (nsl = 1 \/ nsl <= 2 * ncl /\ ncl = cc_nRanks comm) ->
  let loopSize := u64 (u64 (u64 nChannels * u64 ncl) * u64 chunk) in
  loopSize = nChannels * ncl * chunk /\
  exists nLoops, DIVUP_size nBytes loopSize = Ret nLoops /\ conv int32 nLoops = nLoops /\ 0 < nLoops /\
    (nLoops - 1) * loopSize < nBytes <= nLoops * loopSize /\ 0 <= nsl * nLoops < 2 ^ 31 /\ 0 <= nsl * nLoops * chunk_steps < 2 ^ 31.
Proof.
  intros Hc Hn H0 Hs. pose proof (cw_channels Hwf) as Hch. unfold MAXCHANNELS in Hch. pose proof start_lt. pose proof bytes_range as Hb.
  assert (0 < grain) as Hg by (destruct grain_cases as [-> | [-> | ->]]; lia).
  assert (0 < nChannels * ncl < 2 ^ 27) by nia. assert (0 < nChannels * ncl * chunk < 2 ^ 60) as Hl by nia.
  unfold u64. rewrite (Z.mod_small nChannels), (Z.mod_small ncl), (Z.mod_small chunk) by lia. rewrite (Z.mod_small (nChannels * ncl)) by lia.
  rewrite (Z.mod_small (nChannels * ncl * chunk)) by lia. split; [done|]. set (L := nChannels * ncl * chunk) in *.
  assert (ncl * grain <= L) as HL by (unfold L; nia). unfold DIVUP_size. destruct (Z.eqb_spec L 0); [lia|].
  eexists. split; [reflexivity|]. unfold u64. rewrite Z.mod_small by lia. set (q := (nBytes + L - 1) / L).
  assert ((q - 1) * L < nBytes <= q * L) as Hq by (unfold q; clear -Hl Hb; dnia). assert (0 < q) as Hq0 by nia.
  destruct (sw_bytes Hst) as [_ Hsb]. pose proof (sw_ranks Hst). pose proof chunk_steps_range as Hcs.
  assert ((q - 1) * ncl <= nBytes / grain) as Hqn.
  { apply Z.div_le_lower_bound; [done|]. pose proof (Z.mul_le_mono_nonneg_l (ncl * grain) L (q - 1) ltac:(lia) HL). lia. }
  assert (nsl * q <= 2 * (nBytes / grain + 1 + cc_nRanks comm)) as Hnq by (destruct Hs as [-> | [? ->]]; nia).
  pose proof (Z.mul_le_mono_nonneg_l 1 ncl (q - 1) ltac:(lia) ltac:(lia)). assert (0 <= nsl * q) as Hnn by (apply Z.mul_nonneg_nonneg; lia).
  assert (q < 2 ^ 31) as Hq31 by lia. clearbody q. set (X := nsl * q) in *. clearbody X.
  pose proof (Z.mul_le_mono_nonneg_l chunk_steps 8 X ltac:(lia) ltac:(lia)). pose proof (Z.mul_nonneg_nonneg X chunk_steps ltac:(lia) ltac:(lia)).
  assert (conv int32 q = q) as Hconv; [|split_and!; try done; lia].
  unfold conv. cbn [ity_signed int32 ity_width]. change (2 ^ (32 - 1)) with (2 ^ 31). rewrite Z.mod_small; lia.
Qed.

Lemma step_size_Ret :
  (if t_algorithm info =? NCCL_ALGO_COLLNET_CHAIN
   then buff ← zget (cc_buffSizes comm) NCCL_PROTO_SIMPLE; Ret (buff `quot` NCCL_STEPS) else Ret (step_of (t_protocol info))) = Ret step_size.
Proof.
  unfold step_size. destruct (t_algorithm info =? NCCL_ALGO_COLLNET_CHAIN); [|done].
  destruct (buff_at NCCL_PROTO_SIMPLE ltac:(done)) as [-> _]. done.
Qed.

Lemma slice_range chunk : 0 < chunk < 2 ^ 31 -> let slice := chunk `quot` chunk_steps * slice_steps in 0 <= slice <= chunk.
Proof.
  intros Hc. pose proof chunk_steps_range. rewrite quot_div_nonneg by lia. pose proof (Z.mul_div_le chunk chunk_steps ltac:(lia)).
  pose proof (Z.div_pos chunk chunk_steps ltac:(lia) ltac:(lia)). nia.
Qed.

Lemma step_size_pos : 0 < step_size.
Proof.
  unfold step_size. destruct (_ =? _); [pose proof (buff_at NCCL_PROTO_SIMPLE ltac:(done))|pose proof (buff_at _ proto_range)]; lia.
Qed.

Lemma pattern_total : exists p, choose_pattern (t_func info) (t_algorithm info) = Ret p.
Proof. destruct (sw_func Hst) as (H1 & H2 & H3). destruct (t_func info); try done; by eexists. Qed.

(** The shape computed from the chunk size, before registration is looked at. *)
Record chunking (chunk nsl ncl : Z) (sh : op_shape) (pattern : ncclPattern_t) : Prop := {
  ck_grains : (grain | chunk) /\ grain <= chunk <= start_chunk;
  ck_chunk : op_chunkSize sh = chunk;
  ck_slice : op_sliceSize sh = chunk `quot` chunk_steps * slice_steps /\ 0 <= op_sliceSize sh <= chunk;
  ck_steps : op_chunkSteps sh = chunk_steps /\ op_sliceSteps sh = slice_steps;
  ck_loops : exists off nLoops, loop_shape comm pattern nChannels chunk = Ret (nsl, ncl, off) /\
    op_loopSize sh = nChannels * ncl * chunk /\ op_loopOffset sh = off /\ op_nsteps sh = nsl * nLoops * chunk_steps /\
    (nLoops - 1) * op_loopSize sh < nBytes <= nLoops * op_loopSize sh;
  ck_shape : 0 < ncl < 2 ^ 20 /\ 0 <= nsl /\ (nsl = 1 \/ nsl <= 2 * ncl);
  ck_bytes : op_nbytes sh = step_size * slice_steps;
}.

Lemma u64_small z : 0 <= z < 2 ^ 64 -> u64 z = z.
Proof. intros. by apply Z.mod_small. Qed.

(** Up to the loops the function is total, with the chunk that [aligned_chunk]
    describes; the number of loops divides by its size. *)
Lemma calc_steps_eq pattern : choose_pattern (t_func info) (t_algorithm info) = Ret pattern ->
  exists chunk nsl ncl off flags, (grain | chunk) /\ 0 <= chunk <= start_chunk /\ (if grain <=? start_chunk then grain <= chunk else chunk = 0) /\
    loop_shape comm pattern nChannels chunk = Ret (nsl, ncl, off) /\
    calc_steps comm info nChannels nBytes pattern =
      (let loopSize := u64 (u64 (u64 nChannels * u64 ncl) * u64 chunk) in
       n ← DIVUP_size nBytes loopSize;
       nsteps ← arith int32 (nsl * conv int32 n);
       nsteps ← arith int32 (nsteps * chunk_steps);
       _ ← require (negb (chunk_steps =? 0));
       slice ← arith int32 (chunk `quot` chunk_steps * slice_steps);
       nb ← arith int32 (step_size * slice_steps);
       Ret (MkShape nb nsteps (u64 chunk) (u64 slice) loopSize off 0 (u8 slice_steps) (u8 chunk_steps), nsl, ncl, flags)).
Proof.
  intros Hp. destruct (buff_at _ proto_range) as [Hb _]. destruct base_chunk_total as (c0 & Hc0 & Hc0').
  destruct (wp_elim _ _ (tune_spec c0 Hc0')) as (c & Hc & Htc). destruct (aligned_chunk c Htc) as (Hdiv & Hle & Hg). unfold tuned in Htc.
  unfold calc_steps. rewrite Hb. cbn [mbind outcome_bind]. fold (step_of (t_protocol info)).
  rewrite Hc0. cbn [mbind outcome_bind]. fold chunk_steps slice_steps. rewrite Hc. cbn [mbind outcome_bind].
  fold (step_of (t_protocol info)) in *. rewrite step_size_Ret. cbn [mbind outcome_bind]. pose proof (cw_channels Hwf) as Hch.
  rewrite (proj2 (Z.eqb_neq nChannels 0)) by lia. cbn [negb require mbind outcome_bind]. fold grain.
  set (chunk := conv int32 _) in *. clearbody chunk.
  destruct (loop_shape_spec chunk pattern ltac:(lia) Hp) as (nsl & ncl & off & Hsh & _).
  rewrite Hsh. cbn [mbind outcome_bind]. exists chunk, nsl, ncl, off. eexists. split_and!; [done|lia|lia|done|done|reflexivity].
Qed.

Lemma calc_steps_spec pattern : grain <= start_chunk -> choose_pattern (t_func info) (t_algorithm info) = Ret pattern ->
  exists chunk nsl ncl flags sh, calc_steps comm info nChannels nBytes pattern = Ret (sh, nsl, ncl, flags) /\ chunking chunk nsl ncl sh pattern.
Proof.
  intros Hgr Hp. destruct (calc_steps_eq pattern Hp) as (chunk & nsl & ncl & off & flags & Hdiv & Hle & Hg & Hsh & ->).
  rewrite (proj2 (Z.leb_le _ _) Hgr) in Hg. cbv zeta. pose proof grain_cases. pose proof start_lt. pose proof (cw_channels Hwf) as Hch.
  destruct (loop_shape_spec chunk pattern ltac:(lia) Hp) as (? & ? & ? & Hsh' & Hncl & Hnsl & Hns). rewrite Hsh in Hsh'. injection Hsh' as <- <- <-.
  destruct (loops_spec chunk nsl ncl ltac:(lia) Hncl Hnsl Hns) as (HL & nL & HD & Hconv & HnL & Hcov & Hf1 & Hf2).
  rewrite HD. cbn [mbind outcome_bind]. rewrite Hconv, (int32_small (nsl * nL)) by lia. cbn [mbind outcome_bind]. rewrite (int32_small (nsl * nL * chunk_steps)) by lia.
  cbn [mbind outcome_bind]. pose proof chunk_steps_range as Hcs. rewrite (proj2 (Z.eqb_neq chunk_steps 0)) by lia. cbn [negb require mbind outcome_bind].
  pose proof (slice_range chunk ltac:(lia)) as Hsl. cbv zeta in Hsl. rewrite (int32_small (chunk `quot` chunk_steps * slice_steps)) by lia. cbn [mbind outcome_bind].
  pose proof step_size_pos. pose proof (cw_step Hwf). rewrite (int32_small (step_size * slice_steps)) by nia. cbn [mbind outcome_bind].
  exists chunk. eexists nsl, ncl, _, _. split; [reflexivity|]. rewrite (u64_small chunk) in * by lia.
  split; cbn [op_chunkSize op_sliceSize op_chunkSteps op_sliceSteps op_loopSize op_loopOffset op_nsteps op_nbytes].
  - split; [done|lia].
  - done.
  - rewrite u64_small by lia. split; [done|lia].
  - split; apply Z.mod_small; lia.
  - exists off, nL. split_and!; done || lia.
  - pose proof (sw_ranks Hst). lia.
  - done.
Qed.

(** With less than a grain the loop size is zero, and it is divided by. *)
Lemma calc_steps_small pattern : start_chunk < grain -> choose_pattern (t_func info) (t_algorithm info) = Ret pattern ->
  calc_steps comm info nChannels nBytes pattern = Stuck.
Proof.
  intros Hgr Hp. destruct (calc_steps_eq pattern Hp) as (chunk & nsl & ncl & off & flags & _ & _ & Hg & _ & ->).
  rewrite (proj2 (Z.leb_gt _ _) Hgr) in Hg. subst chunk. cbv zeta. change (u64 0) with 0. rewrite Z.mul_0_r. reflexivity.
Qed.

(** ** Registered buffers *)

Definition net_reg : bool := negb (Z.land (t_regBufType info) NCCL_NET_REG_BUFFER =? 0).
(** Algorithms that reduce in the network. *)
Definition switch_alg : bool := (t_algorithm info =? NCCL_ALGO_COLLNET_DIRECT) || (t_algorithm info =? NCCL_ALGO_NVLS) || (t_algorithm info =? NCCL_ALGO_COLLNET_CHAIN).
Definition is_scatter : bool := match t_func info with ncclFuncAllGather | ncclFuncReduceScatter => true | _ => false end.
(** The network sends the registered buffer of a ring all-gather by itself. *)
Definition offloaded : bool := net_reg && (t_algorithm info =? NCCL_ALGO_RING) && cc_isOneRPN comm && bool_decide (t_func info = ncclFuncAllGather).

(** The operation that is returned: its chunk is the chunk size [out]; [chunk] is the
    one computed for the device. *)
Record chunked (out : Z) (op : proxy_args) : Prop := {
  cd_kind : choose_pattern (t_func info) (t_algorithm info) = Ret (op_pattern (op_kd op)) /\ op_coll (op_kd op) = t_func info /\ op_root (op_kd op) = t_root info;
  cd_reg : op_reg (op_bf op) = net_reg;
  cd_out : op_chunkSize (op_sh op) = out;
  cd_chunk : if offloaded then out = NCCL_MAX_NET_SIZE /\ op_sliceSize (op_sh op) = out /\ op_chunkSteps (op_sh op) = 1 /\ op_sliceSteps (op_sh op) = 1
    else (grain | out) /\ grain <= out <= start_chunk /\ op_sliceSize (op_sh op) = out `quot` chunk_steps * slice_steps /\ 0 <= op_sliceSize (op_sh op) <= out /\
         op_chunkSteps (op_sh op) = chunk_steps /\ op_sliceSteps (op_sh op) = slice_steps;
  cd_loops : exists chunk nsl ncl off nLoops, loop_shape comm (op_pattern (op_kd op)) nChannels chunk = Ret (nsl, ncl, off) /\ (offloaded = false -> chunk = out) /\ let L := nChannels * ncl * out in
    (nLoops - 1) * L < nBytes <= nLoops * L /\
    op_nsteps (op_sh op) = (if net_reg && switch_alg && cc_isOneRPN comm then 1 else nsl * nLoops * op_chunkSteps (op_sh op)) /\
    op_loopSize (op_sh op) = (if net_reg && switch_alg && negb (cc_isOneRPN comm) && is_scatter then nChannels * out else L) /\
    op_loopOffset (op_sh op) = (if offloaded || net_reg && switch_alg && (cc_isOneRPN comm || is_scatter) then 0 else off);
  cd_bytes : op_nbytes (op_sh op) = (if net_reg then nBytes else match op_pattern (op_kd op) with
    | ncclPatternPatUp | ncclPatternPatDown => divUp nBytes nChannels | _ => step_size * slice_steps end);
  cd_buffers : net_reg = true -> op_recvbuff (op_bf op) = t_recvbuff info /\ op_recvMhandle (op_bf op) = t_recvMhandle info /\
    (switch_alg = true -> if cc_isOneRPN comm || bool_decide (t_func info = ncclFuncAllGather) then op_sendbuff (op_bf op) = t_sendbuff info
                          else is_scatter = false -> op_sendbuff (op_bf op) = t_recvbuff info);
}.

(** What [register_net] leaves of the shape [sh]. *)
Lemma register_switch nsl ncl sh : switch_alg = true -> 0 < ncl < 2 ^ 20 -> exists sh' sb sm, register_net comm info nChannels nBytes nsl ncl sh 0 0 = Ret (sh', sb, sm) /\
  op_chunkSize sh' = op_chunkSize sh /\ op_sliceSize sh' = op_sliceSize sh /\ op_chunkSteps sh' = op_chunkSteps sh /\ op_sliceSteps sh' = op_sliceSteps sh /\
  op_nsteps sh' = (if cc_isOneRPN comm then 1 else op_nsteps sh) /\ op_loopSize sh' = (if negb (cc_isOneRPN comm) && is_scatter then op_loopSize sh / ncl else op_loopSize sh) /\
  op_loopOffset sh' = (if cc_isOneRPN comm || is_scatter then 0 else op_loopOffset sh) /\ op_nbytes sh' = nBytes /\
  (if cc_isOneRPN comm || bool_decide (t_func info = ncclFuncAllGather) then sb = t_sendbuff info else is_scatter = false -> sb = t_recvbuff info).
Proof.
  intros Hs Hn. unfold register_net. fold switch_alg. rewrite Hs. assert (u64 ncl = ncl) as En by (apply u64_small; lia). unfold is_scatter.
  destruct (cc_isOneRPN comm); cbn [mbind outcome_bind negb andb orb]; [by eexists _, _, _; split_and!|].
  destruct (t_func info); cbn [mbind outcome_bind]; rewrite ?En, ?(proj2 (Z.eqb_neq ncl 0)) by lia; cbn [negb require mbind outcome_bind]; by eexists _, _, _; split_and!.
Qed.

Lemma register_ring nsl ncl sh : t_algorithm info = NCCL_ALGO_RING -> net_reg = true -> 0 < ncl < 2 ^ 20 -> 0 <= nsl -> nsl = 1 \/ nsl <= 2 * ncl -> exists sh' sb sm,
  register_net comm info nChannels nBytes nsl ncl sh 0 0 = Ret (sh', sb, sm) /\ op_nbytes sh' = nBytes /\
  if offloaded then op_chunkSize sh' = NCCL_MAX_NET_SIZE /\ op_sliceSize sh' = NCCL_MAX_NET_SIZE /\ op_chunkSteps sh' = 1 /\ op_sliceSteps sh' = 1 /\ op_loopOffset sh' = 0 /\
    op_loopSize sh' = nChannels * ncl * NCCL_MAX_NET_SIZE /\ exists nLoops, op_nsteps sh' = nsl * nLoops /\ (nLoops - 1) * op_loopSize sh' < nBytes <= nLoops * op_loopSize sh'
  else op_chunkSize sh' = op_chunkSize sh /\ op_sliceSize sh' = op_sliceSize sh /\ op_chunkSteps sh' = op_chunkSteps sh /\ op_sliceSteps sh' = op_sliceSteps sh /\
    op_nsteps sh' = op_nsteps sh /\ op_loopSize sh' = op_loopSize sh /\ op_loopOffset sh' = op_loopOffset sh.
Proof.
  intros Ha Hr Hn H0 Hnsl. unfold register_net, offloaded. rewrite Ha, Hr. cbn [Z.eqb NCCL_ALGO_RING NCCL_ALGO_COLLNET_DIRECT NCCL_ALGO_NVLS NCCL_ALGO_COLLNET_CHAIN Pos.eqb orb andb].
  destruct (cc_isOneRPN comm && bool_decide (t_func info = ncclFuncAllGather)) eqn:E; [|by eexists _, _, _; cbn [mbind outcome_bind]; split_and!].
  pose proof (cw_channels Hwf) as Hch. unfold MAXCHANNELS in Hch. pose proof bytes_range as Hb. assert (0 < nChannels * ncl < 2 ^ 27) as Hp by nia.
  assert (ncl <= nChannels * ncl) as Hm by nia. change NCCL_MAX_NET_SIZE with (2 ^ 19).
  rewrite (u64_small (nChannels * ncl)) by lia. rewrite (u64_small (nChannels * ncl * 2 ^ 19)) by lia. set (m := nChannels * ncl) in *. clearbody m.
  unfold DIVUP_size. rewrite (proj2 (Z.eqb_neq (m * 2 ^ 19) 0)) by lia. cbn [mbind outcome_bind]. rewrite (u64_small (nBytes + m * 2 ^ 19 - 1)) by lia.
  set (q := (nBytes + m * 2 ^ 19 - 1) / (m * 2 ^ 19)). assert ((q - 1) * (m * 2 ^ 19) < nBytes <= q * (m * 2 ^ 19)) as Hq by (unfold q; clear -Hp Hb; dnia).
  assert (0 < q) as Hq0 by nia. assert ((q - 1) * m < 2 ^ 21) as Hqm by nia.
  assert ((q - 1) * ncl < 2 ^ 21) as Hqc by nia. assert (0 <= q * nsl < 2 ^ 31) as Hqn by (destruct Hnsl as [-> | ?]; nia).
  eexists _, _, _. split; [reflexivity|]. cbn. split; [done|]. do 5 (split; [done|]). split; [done|]. exists q. split; [|done].
  rewrite u64_small by lia. unfold conv. cbn [ity_signed int32 ity_width]. change (2 ^ (32 - 1)) with (2 ^ 31). rewrite Z.mod_small by lia. lia.
Qed.

(** ** The result of the function *)

Lemma pattern_pat func alg p : choose_pattern func alg = Ret p -> p = ncclPatternPatUp \/ p = ncclPatternPatDown -> alg = NCCL_ALGO_PAT.
Proof. intros H [-> | ->]; revert H; pattern_cases func alg. Qed.

(** The bytes of the operation, overridden for PAT. *)
Lemma pat_bytes pattern (n : Z) : match pattern with ncclPatternPatUp | ncclPatternPatDown => DIVUP_size nBytes (u64 nChannels) | _ => Ret n end =
  Ret (match pattern with ncclPatternPatUp | ncclPatternPatDown => divUp nBytes nChannels | _ => n end).
Proof.
  pose proof (cw_channels Hwf) as Hch. unfold MAXCHANNELS in Hch. pose proof bytes_range.
  assert (DIVUP_size nBytes (u64 nChannels) = Ret (divUp nBytes nChannels)) as E.
  { unfold DIVUP_size. rewrite (u64_small nChannels) by lia. rewrite (proj2 (Z.eqb_neq nChannels 0)) by lia. rewrite u64_small by lia. by rewrite divUp_div by lia. }
  by destruct pattern.
Qed.

Lemma not_pat pattern n m : choose_pattern (t_func info) (t_algorithm info) = Ret pattern -> t_algorithm info <> NCCL_ALGO_PAT ->
  match pattern with ncclPatternPatUp | ncclPatternPatDown => n | _ => m end = m :> Z.
Proof. intros Hp Ha. pose proof (pattern_pat _ _ _ Hp). destruct pattern; try done; destruct Ha; auto. Qed.

Lemma switch_cases : switch_alg = true -> t_algorithm info <> NCCL_ALGO_PAT /\ t_algorithm info <> NCCL_ALGO_RING.
Proof. intros H. split; intros Ha; unfold switch_alg in H; by rewrite Ha in H. Qed.

Ltac open_chunking := unfold calcCollChunking; fold net_reg.

Lemma chunked_plain : grain <= start_chunk -> net_reg = false -> exists out flags op, calcCollChunking comm info nChannels nBytes = Ret (out, flags, op) /\ chunked out op.
Proof.
  intros Hgr Hr. destruct pattern_total as [p Hp]. destruct (calc_steps_spec p Hgr Hp) as (chunk & nsl & ncl & flags & sh & Hc & [Hg Hck Hsl Hst' Hl _ Hb]).
  open_chunking. rewrite Hp. cbn [mbind outcome_bind]. rewrite Hc, Hr. cbn [mbind outcome_bind].
  destruct (if decide (p = ncclPatternCollnetDirect) then _ else _) as [[a1 a2] a3]. rewrite pat_bytes. cbn [mbind outcome_bind].
  pose proof start_lt. pose proof grain_cases. destruct Hl as (off & nL & Hsh & HL & Ho & Hn & Hcov). destruct Hst' as [Hcs Hss].
  eexists _, _, _. split; [reflexivity|]. unfold u32. cbn [op_chunkSize]. rewrite Hck, (Z.mod_small chunk) by lia.
  assert (offloaded = false) as Hof by (unfold offloaded; by rewrite Hr).
  split; cbn [op_kd op_sh op_bf op_pattern op_coll op_root op_reg op_chunkSize op_sliceSize op_chunkSteps op_sliceSteps op_nsteps op_loopSize op_loopOffset op_nbytes];
    rewrite ?Hof, ?Hr; try done.
  - destruct Hg, Hsl. done.
  - exists chunk, nsl, ncl, off, nL. cbn [andb orb]. rewrite <- HL, Hcs. split_and!; done || lia.
  - rewrite Hb. by destruct p.
Qed.

Lemma chunked_switch : grain <= start_chunk -> net_reg = true -> switch_alg = true ->
  exists out flags op, calcCollChunking comm info nChannels nBytes = Ret (out, flags, op) /\ chunked out op.
Proof.
  intros Hgr Hr Hs. destruct pattern_total as [p Hp]. destruct (calc_steps_spec p Hgr Hp) as (chunk & nsl & ncl & flags & sh & Hc & [Hg Hck Hsl Hst' Hl Hnc Hb]).
  destruct (switch_cases Hs) as [Hap Har]. destruct (register_switch nsl ncl sh Hs ltac:(lia)) as (sh' & sb & sm & HR & R1 & R2 & R3 & R4 & R5 & R6 & R7 & R8 & R9).
  open_chunking. rewrite Hp. cbn [mbind outcome_bind]. rewrite Hc, Hr. cbn [mbind outcome_bind]. rewrite HR. cbn [mbind outcome_bind].
  destruct (if decide (p = ncclPatternCollnetDirect) then _ else _) as [[a1 a2] a3]. rewrite pat_bytes, (not_pat _ _ _ Hp Hap). cbn [mbind outcome_bind].
  pose proof start_lt. pose proof grain_cases. destruct Hl as (off & nL & Hsh & HL & Ho & Hn & Hcov). destruct Hst' as [Hcs Hss].
  eexists _, _, _. split; [reflexivity|]. unfold u32. cbn [op_chunkSize]. rewrite R1, Hck, (Z.mod_small chunk) by lia.
  assert (offloaded = false) as Hof by (unfold offloaded; by rewrite Hr, (proj2 (Z.eqb_neq _ _) Har)).
  split; cbn [op_kd op_sh op_bf op_pattern op_coll op_root op_reg op_chunkSize op_sliceSize op_chunkSteps op_sliceSteps op_nsteps op_loopSize op_loopOffset op_nbytes
              op_recvbuff op_recvMhandle op_sendbuff]; rewrite ?Hof, ?Hr, ?Hs; try done.
  - rewrite R2, R3, R4. destruct Hg, Hsl. done.
  - exists chunk, nsl, ncl, off, nL. cbn [andb orb]. rewrite <- HL, R3, Hcs, R5, R6, R7, Hn, Ho. split_and!; try done || lia.
    destruct (negb _ && _); [|done]. rewrite HL. replace (nChannels * ncl * chunk) with (nChannels * chunk * ncl) by lia. apply Z.div_mul. lia.
Qed.

Lemma chunked_ring : grain <= start_chunk -> net_reg = true -> t_algorithm info = NCCL_ALGO_RING ->
  exists out flags op, calcCollChunking comm info nChannels nBytes = Ret (out, flags, op) /\ chunked out op.
Proof.
  intros Hgr Hr Ha. destruct pattern_total as [p Hp]. destruct (calc_steps_spec p Hgr Hp) as (chunk & nsl & ncl & flags & sh & Hc & [Hg Hck Hsl Hst' Hl Hnc Hb]).
  destruct (register_ring nsl ncl sh Ha Hr ltac:(lia) ltac:(lia) ltac:(lia)) as (sh' & sb & sm & HR & R8 & R).
  open_chunking. rewrite Hp. cbn [mbind outcome_bind]. rewrite Hc, Hr. cbn [mbind outcome_bind]. rewrite HR. cbn [mbind outcome_bind].
  destruct (if decide (p = ncclPatternCollnetDirect) then _ else _) as [[a1 a2] a3]. rewrite pat_bytes, (not_pat _ _ _ Hp) by (rewrite Ha; done). cbn [mbind outcome_bind].
  pose proof start_lt. pose proof grain_cases. destruct Hl as (off & nL & Hsh & HL & Ho & Hn & Hcov). destruct Hst' as [Hcs Hss].
  assert (switch_alg = false) as Hsw by (unfold switch_alg; by rewrite Ha).
  eexists _, _, _. split; [reflexivity|]. unfold u32. cbn [op_chunkSize].
  split; cbn [op_kd op_sh op_bf op_pattern op_coll op_root op_reg op_chunkSize op_sliceSize op_chunkSteps op_sliceSteps op_nsteps op_loopSize op_loopOffset op_nbytes
              op_recvbuff op_recvMhandle op_sendbuff]; rewrite ?Hr, ?Hsw; try done.
  - destruct offloaded; [destruct R as [-> _]; done|]. destruct R as [-> _]. rewrite Z.mod_small; lia.
  - destruct offloaded.
    + destruct R as (-> & -> & R). split; [done|]. tauto.
    + destruct R as (-> & -> & -> & -> & _). rewrite Hck, Z.mod_small by lia. destruct Hg, Hsl. split_and!; done || lia.
  - exists chunk, nsl, ncl, off. cbn [andb orb]. destruct offloaded; cbn [andb orb].
    + destruct R as (R1 & R2 & R3 & R4 & R5 & R6 & nL' & R7 & R9). exists nL'. split; [done|]. split; [done|]. cbv zeta. rewrite R1, R3, R5, R6, R7. change (NCCL_MAX_NET_SIZE mod 2 ^ 32) with NCCL_MAX_NET_SIZE.
      rewrite R6 in R9. split_and!; done || lia.
    + destruct R as (R1 & R2 & R3 & R4 & R5 & R6 & R7). exists nL. rewrite R1, Hck, Z.mod_small by lia. cbv zeta. rewrite R3, R5, R6, R7, Hcs, Hn, HL, Ho, <- HL. split_and!; done || lia.
Qed.

Lemma calcCollChunking_spec : grain <= start_chunk -> net_reg = false \/ switch_alg = true \/ t_algorithm info = NCCL_ALGO_RING ->
  exists out flags op, calcCollChunking comm info nChannels nBytes = Ret (out, flags, op) /\ chunked out op.
Proof.
  intros Hgr H. destruct net_reg eqn:Hr; [|by apply chunked_plain]. destruct H as [? | [? | ?]]; [done|by apply chunked_switch|by apply chunked_ring].
Qed.

(** The network knows no other algorithm. *)
Lemma calcCollChunking_refused : grain <= start_chunk -> net_reg = true -> switch_alg = false -> t_algorithm info <> NCCL_ALGO_RING ->
  calcCollChunking comm info nChannels nBytes = Fail ncclInternalError.
Proof.
  intros Hgr Hr Hs Ha. destruct pattern_total as [p Hp]. destruct (calc_steps_spec p Hgr Hp) as (chunk & nsl & ncl & flags & sh & Hc & _).
  open_chunking. rewrite Hp. cbn [mbind outcome_bind]. rewrite Hc, Hr. cbn [mbind outcome_bind]. unfold register_net. fold switch_alg. by rewrite Hs, (proj2 (Z.eqb_neq _ _) Ha).
Qed.

Lemma calcCollChunking_small : start_chunk < grain -> calcCollChunking comm info nChannels nBytes = Stuck.
Proof. intros Hgr. destruct pattern_total as [p Hp]. open_chunking. rewrite Hp. cbn [mbind outcome_bind]. by rewrite (calc_steps_small p Hgr Hp). Qed.
End chunk.

(** (C39) [calcCollChunking] for every collective, algorithm and protocol, under
    [chunk_wf] and [steps_wf]: the buffer sizes are [int]s, the chunk size times
    the channels and heads fits an [int], and so does the number of steps.
    - Where the connection buffer holds less than one grain of the protocol the
      chunk is rounded to nothing and the function divides by zero.
    - A buffer registered with the network is refused for algorithms other than
      the ring and those that reduce in the network.
    - Otherwise it returns.  The chunk is a positive multiple of the grain and at
      most the starting size that the connection buffers hold, or the largest
      network message when the network sends a registered ring all-gather by
      itself; a slice is its share of the chunk; the steps are those of the
      least number of loops whose size covers all the bytes, or one when the
      network reduces a registered buffer with one rank per node; and a
      registered operation carries the whole size and the user's buffers. *)
Theorem calcCollChunking_bounds comm info nChannels nBytes :
  chunk_wf comm info nChannels -> steps_wf comm info nBytes ->
  let r := calcCollChunking comm info nChannels nBytes in
  if start_chunk comm info <? grain info then r = Stuck
  else if net_reg info && negb (switch_alg info || (t_algorithm info =? NCCL_ALGO_RING)) then r = Fail ncclInternalError
  else exists out flags op, r = Ret (out, flags, op) /\ chunked comm info nChannels nBytes out op.
Proof.
  intros Hwf Hst r. destruct (Z.ltb_spec (start_chunk comm info) (grain info)) as [Hg|Hg]; [by apply calcCollChunking_small|].
  destruct (net_reg info) eqn:Hr, (switch_alg info) eqn:Hs, (Z.eqb_spec (t_algorithm info) NCCL_ALGO_RING); cbn [andb orb negb];
    try (apply calcCollChunking_spec; auto; done); by apply calcCollChunking_refused.
Qed.

(** Ranges of concrete tasks. *)
Ltac concrete := solve [repeat split; vm_compute; congruence | intros [?|?]; done | done].

(** Sixteen ranks on two nodes with the default buffers. *)
Definition sample_comm : coll_comm :=
  MkCollComm 3 16 2 0 [16 * 8 * 512 * 8; 120 * 8 * 640 * 8; 4194304] false 131072 false (-2) 0 1 0 0 0 (-1) 7 1.
Definition sample_task (func : ncclFunc_t) (count algorithm protocol : Z) : ncclTaskColl :=
  MkTaskColl 1 func 4096 8192 count 0 ncclFloat32 0 ncclDevSum 4 2 (2 * 4 * count) 4 16 algorithm protocol false false 5 0 0 0 0 [] [] [] 0.
(** Four ranks, one per node, and a task whose buffers the network registered. *)
Definition one_rpn_comm : coll_comm :=
  MkCollComm 3 4 4 3 [16 * 8 * 512 * 8; 120 * 8 * 640 * 8; 4194304] true 131072 false (-2) 0 1 0 0 8 0 7 1.
Definition registered_task : ncclTaskColl :=
  MkTaskColl 1 ncclFuncAllGather 4096 8192 1000000 0 ncclFloat32 0 ncclDevSum 4 2 16000000 4 16 NCCL_ALGO_RING NCCL_PROTO_SIMPLE false false 5 NCCL_NET_REG_BUFFER 0 0 0 [] [] [] 0.
(** [NCCL_BUFFSIZE=2048] leaves steps of 256 bytes, half a grain. *)
Definition tiny_comm : coll_comm :=
  MkCollComm 3 16 2 0 [16 * 8 * 512 * 8; 120 * 8 * 640 * 8; 2048] false 131072 false (-2) 0 1 0 0 0 (-1) 7 1.
Definition tree_task : ncclTaskColl := sample_task ncclFuncAllReduce 1000000 NCCL_ALGO_TREE NCCL_PROTO_SIMPLE.

Lemma calcCollChunking_bounds_witness :
  (exists out flags op, calcCollChunking sample_comm (sample_task ncclFuncAllReduce 1000000 NCCL_ALGO_RING NCCL_PROTO_SIMPLE) 1 4000000 = Ret (out, flags, op) /\
     chunked sample_comm (sample_task ncclFuncAllReduce 1000000 NCCL_ALGO_RING NCCL_PROTO_SIMPLE) 1 4000000 out op) /\
  (exists out flags op, calcCollChunking one_rpn_comm registered_task 1 4000000 = Ret (out, flags, op) /\ chunked one_rpn_comm registered_task 1 4000000 out op) /\
  calcCollChunking tiny_comm tree_task 1 4000000 = Stuck.
Proof.
  split_and!.
  - apply (calcCollChunking_bounds sample_comm (sample_task ncclFuncAllReduce 1000000 NCCL_ALGO_RING NCCL_PROTO_SIMPLE) 1 4000000);
      [split; [by right; right|concrete|split; [done|repeat constructor; concrete]|concrete..]|split; [by repeat split|concrete..]|done..].
  - apply (calcCollChunking_bounds one_rpn_comm registered_task 1 4000000);
      [split; [by right; right|concrete|split; [done|repeat constructor; concrete]|concrete..]|split; [by repeat split|concrete..]|done..].
  - apply (calcCollChunking_bounds tiny_comm tree_task 1 4000000);
      [split; [by right; right|concrete|split; [done|repeat constructor; concrete]|concrete..]|split; [by repeat split|concrete..]|done..].
Defined.
