(* ===== verification/Proxy.v ===== *)
(** * Handing operations to the proxy thread (src/src/proxy.cc)

    [ncclProxySaveOp] decides from the pattern of an operation which peers need
    the network proxy, and appends one operation per such peer to the pool shared
    with the proxy thread of its process.  The same function, asked only to
    inquire, tells the scheduler whether the operation is needed at all. *)
From S2P Require Import Prelude Bitops Device Rings RingAlgo Pat ProxyOp.

(** ** The pool of operations *)

Definition MAX_OPS_PER_PEER : Z := 2 * MAXCHANNELS * 2 * NCCL_MAX_DEV_WORK_P2P_PER_BATCH.

Record slot := MkSlot { sl_op : ncclProxyOp; sl_connection : Z; sl_next : Z }.

(** [ncclProxyOps] and the part of its pool the appending thread uses:
    [lo_poolFree] is [pool->freeOps[tpLocalRank]], [lo_poolNext] and [lo_poolEnd]
    the chain posted to the proxy thread. *)
Record local_ops := MkLocal {
  lo_slots : list slot; lo_count : Z; lo_freeOp : Z; lo_nextOps : Z; lo_nextOpsEnd : Z;
  lo_poolFree : Z; lo_poolNext : Z; lo_poolEnd : Z }.

Definition set_next (l : list slot) (i n : Z) : outcome (list slot) :=
  s ← zget l i; zset l i (MkSlot (sl_op s) (sl_connection s) n).

(** Under the pool's mutex. *)
Definition ncclProxyPost (p : local_ops) (nextOps nextOpsEnd : Z) : outcome local_ops :=
  if lo_poolNext p =? -1 then
    Ret (MkLocal (lo_slots p) (lo_count p) (lo_freeOp p) (lo_nextOps p) (lo_nextOpsEnd p) (lo_poolFree p) nextOps nextOpsEnd)
  else
    sl ← set_next (lo_slots p) (lo_poolEnd p) nextOps;
    Ret (MkLocal sl (lo_count p) (lo_freeOp p) (lo_nextOps p) (lo_nextOpsEnd p) (lo_poolFree p) (lo_poolNext p) nextOpsEnd).

(** Take a free operation: from the thread's own list, or all those the proxy
    thread gave back; with none the thread waits. *)
Definition take_free (p : local_ops) : outcome (Z * local_ops) :=
  '(i, free) ← (if negb (lo_freeOp p =? -1) then Ret (lo_freeOp p, lo_poolFree p)
                else if lo_poolFree p =? -1 then Stuck else Ret (lo_poolFree p, -1));
  s ← zget (lo_slots p) i;
  Ret (i, MkLocal (lo_slots p) (lo_count p) (sl_next s) (lo_nextOps p) (lo_nextOpsEnd p) free (lo_poolNext p) (lo_poolEnd p)).

(** The last operation of the chain whose [opCount] differs from the end's, and
    how many there are up to it. *)
Fixpoint find_cut (fuel : nat) (slots : list slot) (op stop lastOpCount ops : Z) (r : Z * Z) : outcome (Z * Z) :=
  match fuel with
  | O => Stuck
  | S fuel =>
      if op =? stop then Ret r
      else
        s ← zget slots op;
        let ops := ops + 1 in
        let r := if negb (opCount (sl_op s) =? lastOpCount) then (op, ops) else r in
        find_cut fuel slots (sl_next s) stop lastOpCount ops r
  end.

Definition cut_and_post (fuel : nat) (p : local_ops) : outcome local_ops :=
  e ← zget (lo_slots p) (lo_nextOpsEnd p);
  '(lastOp, toSend) ← find_cut fuel (lo_slots p) (lo_nextOps p) (lo_nextOpsEnd p) (opCount (sl_op e)) 0 (-1, 0);
  if lastOp =? -1 then Fail ncclInternalError
  else
    s ← zget (lo_slots p) lastOp;
    sl ← set_next (lo_slots p) lastOp (-1);
    p' ← ncclProxyPost (MkLocal sl (lo_count p) (lo_freeOp p) (sl_next s) (lo_nextOpsEnd p) (lo_poolFree p) (lo_poolNext p) (lo_poolEnd p))
           (lo_nextOps p) lastOp;
    Ret (MkLocal (lo_slots p') (lo_count p' - toSend) (lo_freeOp p') (lo_nextOps p') (lo_nextOpsEnd p') (lo_poolFree p') (lo_poolNext p') (lo_poolEnd p')).

Definition ncclLocalOpAppend (p : local_ops) (connection : Z) (proxyOp : ncclProxyOp) : outcome local_ops :=
  '(i, p) ← take_free p;
  sl ← zset (lo_slots p) i (MkSlot proxyOp connection (-1));
  '(sl, first) ← (if lo_nextOps p =? -1 then Ret (sl, i) else sl ← set_next sl (lo_nextOpsEnd p) i; Ret (sl, lo_nextOps p));
  let p := MkLocal sl (lo_count p + 1) (lo_freeOp p) first i (lo_poolFree p) (lo_poolNext p) (lo_poolEnd p) in
  if lo_count p =? MAX_OPS_PER_PEER then cut_and_post (Z.to_nat MAX_OPS_PER_PEER) p else Ret p.

(** ** Which peers need the proxy *)

Record connector := MkConnector { cn_transport : bool; cn_progress : bool; cn_tpLocalRank : Z; cn_connection : Z }.

(** What [ncclProxySaveOp] reads of a channel; [pc_peers send peer connIndex]. *)
Record proxy_channel := MkProxyChannel {
  pc_prev : Z; pc_next : Z; pc_userRanks : list Z; pc_treeUp : Z; pc_treeDown : list Z;
  pc_chainUp : Z; pc_directOut : Z; pc_nvlsOut : Z; pc_nvlsTreeUp : Z; pc_nvlsTreeDown : list Z;
  pc_peers : bool -> Z -> Z -> option connector }.

Record proxy_comm := MkProxyComm {
  px_rank : Z; px_nRanks : Z; px_channels : list proxy_channel; px_persistent : bool;
  px_profiler : ncclProxyOp -> bool; px_profSend : list connector; px_profRecv : list connector;
  px_workStarted : Z; px_workCompleted : Z }.

(** The pools by local rank, and [comm->profiler.workCounter]. *)
Record proxy_state := MkProxyState { xs_pools : list local_ops; xs_workCounter : list Z }.

Definition NeedProxy (send : bool) (pattern : ncclPattern_t) (root : Z) (userRanks : list Z) (nranks : Z) : outcome bool :=
  match pattern with
  | ncclPatternRing | ncclPatternRingTwice => Ret true
  | _ =>
      let index := if decide (pattern = ncclPatternPipelineFrom) then (if send then 1 else 0) else (if send then 0 else nranks - 1) in
      rank ← zget userRanks index;
      Ret (negb (root =? rank))
  end.

(** The state of a call: the operation, [*justInquire] and the rest. *)
Record call := MkCall { k_op : ncclProxyOp; k_needed : bool; k_state : proxy_state }.

Definition with_args (f : proxy_args -> proxy_args) (op : ncclProxyOp) : ncclProxyOp := MkProxyOp (opCount op) (op_channelId op) (f (op_payload op)).

Definition append_to (cn : connector) (op : ncclProxyOp) (s : proxy_state) : outcome proxy_state :=
  p ← zget (xs_pools s) (cn_tpLocalRank cn);
  p ← ncclLocalOpAppend p (cn_connection cn) op;
  ps ← zset (xs_pools s) (cn_tpLocalRank cn) p;
  Ret (MkProxyState ps (xs_workCounter s)).

(** [type] is [proxySend] when [send]. *)
Definition SaveProxy (comm : proxy_comm) (ch : proxy_channel) (send : bool) (peer connIndex : Z) (inquire : bool) (k : call) : outcome call :=
  if peer <? 0 then Ret k
  else
    let op := with_args (set_peerRank peer (px_rank comm)) (k_op k) in
    match pc_peers ch send peer connIndex with
    | None => Stuck
    | Some cn =>
        if negb (cn_transport cn) then Fail ncclInternalError
        else if negb (cn_progress cn) then Ret (MkCall op (k_needed k) (k_state k))
        else if inquire then Ret (MkCall op true (k_state k))
        else
          let op := with_args (set_peer peer) op in
          s ← append_to cn op (k_state k);
          Ret (MkCall op (k_needed k) s)
    end.

Fixpoint save_all (comm : proxy_comm) (ch : proxy_channel) (inquire : bool) (l : list (bool * Z * Z)) (k : call) : outcome call :=
  match l with
  | [] => Ret k
  | (send, peer, connIndex) :: l => k ← SaveProxy comm ch send peer connIndex inquire k; save_all comm ch inquire l k
  end.

Definition incWorkCounter (k : call) : outcome call :=
  let op := k_op k in
  w ← zget (xs_workCounter (k_state k)) (op_channelId op);
  let w := if op_incWorkCounter (op_mt (op_payload op)) then w + 1 else w in
  ws ← zset (xs_workCounter (k_state k)) (op_channelId op) w;
  Ret (MkCall (with_args (set_workCounter w) op) (k_needed k) (MkProxyState (xs_pools (k_state k)) ws)).

Definition set_buffers (sb rb : Z) (a : proxy_args) : proxy_args :=
  let b := op_bf a in
  MkArgs (op_sh a) (op_kd a)
    (MkBuffers (op_reg b) (op_regp b) (op_sendMhandle b) (op_recvMhandle b) sb rb (op_isOneRPN b) (op_ringAlgo b)) (op_mt a).

Definition SaveProxyProfiler (comm : proxy_comm) (inquire : bool) (k : call) : outcome call :=
  let op := k_op k in
  cn ← (match op_coll (op_kd (op_payload op)) with
        | ncclFuncRecv => zget (px_profRecv comm) (op_channelId op) | _ => zget (px_profSend comm) (op_channelId op) end);
  if inquire then
    let k := MkCall op true (k_state k) in
    if px_persistent comm then Ret k else incWorkCounter k
  else
    let k := MkCall (with_args (set_buffers (px_workStarted comm) (px_workCompleted comm)) op) (k_needed k) (k_state k) in
    k ← (if px_persistent comm then incWorkCounter k else Ret k);
    s ← append_to cn (k_op k) (k_state k);
    Ret (MkCall (k_op k) (k_needed k) s).

(** ** Counting the steps of a PAT schedule *)

Definition bump_at (l : list Z) (i : Z) : outcome (list Z) := n ← zget l i; zset l i (n + 1).

(** [do { getNextOp(&ps); ... } while (ps.last != 2)]: the steps received and sent per dimension. *)
Fixpoint pat_count {S} (fuel : nat) (next : S -> ncclPatStep -> outcome (S * ncclPatStep)) (t : S) (ps : ncclPatStep) (n : list Z * list Z)
    : outcome (list Z * list Z) :=
  match fuel with
  | O => Stuck
  | S fuel =>
      '(t, ps) ← next t ps;
      n ← (if negb (Z.land (flags ps) PatSkipped =? 0) then Ret n
           else
             r ← (if negb (recvDim ps =? -1) && negb (postRecv ps =? 0) then bump_at (fst n) (recvDim ps) else Ret (fst n));
             s ← (if negb (sendDim ps =? -1) && negb (postSend ps =? 0) then bump_at (snd n) (sendDim ps) else Ret (snd n));
             Ret (r, s));
      if last ps =? 2 then Ret n else pat_count fuel next t ps n
  end.

(** The operations of the dimensions, with their own step counts. *)
Definition pat_save (comm : proxy_comm) (ch : proxy_channel) (inquire up : bool) (recv send : list Z) (k : call) : outcome call :=
  let rank := px_rank comm in
  let nranks := px_nRanks comm in
  for_range 0 (log2Up int32 nranks) (fun i k =>
    d ← shl1 i;
    let fwd := (rank + d) `rem` nranks in
    let back := (rank - d + nranks) `rem` nranks in
    ns ← zget send i;
    k ← (if negb (ns =? 0) then
           SaveProxy comm ch true (if up then fwd else back) 0 inquire (MkCall (with_args (set_nsteps ns) (k_op k)) (k_needed k) (k_state k))
         else Ret k);
    nr ← zget recv i;
    if negb (nr =? 0) then
      SaveProxy comm ch false (if up then back else fwd) 0 inquire (MkCall (with_args (set_nsteps nr) (k_op k)) (k_needed k) (k_state k))
    else Ret k) k.

(** [fuel] bounds the PAT schedule; [junk] is the uninitialised step and the
    uninitialised counters of the all-gather generator. *)
Definition ncclProxySaveOp (fuel : nat) (junk : ncclPatStep * list Z * list Z) (comm : proxy_comm) (inquire : bool) (k : call) : outcome call :=
  let op := k_op k in
  let pattern := op_pattern (op_kd (op_payload op)) in
  let root := op_root (op_kd (op_payload op)) in
  ch ← zget (px_channels comm) (op_channelId op);
  let k := MkCall op (if inquire then false else k_needed k) (k_state k) in
  match pattern with
  | ncclPatternRing | ncclPatternRingTwice | ncclPatternPipelineFrom | ncclPatternPipelineTo =>
      r ← NeedProxy false pattern root (pc_userRanks ch) (px_nRanks comm);
      k ← (if r : bool then SaveProxy comm ch false (pc_prev ch) 0 inquire k else Ret k);
      s ← NeedProxy true pattern root (pc_userRanks ch) (px_nRanks comm);
      if s : bool then SaveProxy comm ch true (pc_next ch) 0 inquire k else Ret k
  | ncclPatternTreeUp | ncclPatternTreeDown | ncclPatternTreeUpDown =>
      d0 ← zget (pc_treeDown ch) 0; d1 ← zget (pc_treeDown ch) 1; d2 ← zget (pc_treeDown ch) 2;
      k ← (if decide (pattern = ncclPatternTreeDown) then Ret k
           else save_all comm ch inquire [(false, d0, 0); (false, d1, 0); (false, d2, 0); (true, pc_treeUp ch, 0)] k);
      if decide (pattern = ncclPatternTreeUp) then Ret k
      else save_all comm ch inquire [(true, d0, 0); (true, d1, 0); (true, d2, 0); (false, pc_treeUp ch, 0)] k
  | ncclPatternCollnetChain => save_all comm ch inquire [(true, pc_chainUp ch, 1); (false, pc_chainUp ch, 0)] k
  | ncclPatternCollnetDirect => save_all comm ch inquire [(true, pc_directOut ch, 1); (false, pc_directOut ch, 0)] k
  | ncclPatternNvls => save_all comm ch inquire [(true, pc_nvlsOut ch, 1); (false, pc_nvlsOut ch, 0)] k
  | ncclPatternNvlsTree =>
      d1 ← zget (pc_nvlsTreeDown ch) 1; d2 ← zget (pc_nvlsTreeDown ch) 2;
      save_all comm ch inquire [(false, d1, 0); (false, d2, 0); (true, pc_nvlsTreeUp ch, 0);
                                (true, d1, 0); (true, d2, 0); (false, pc_nvlsTreeUp ch, 0)] k
  | ncclPatternPatUp =>
      let sh := op_sh (op_payload op) in
      _ ← require (negb (px_nRanks comm =? 0));
      let size := op_nbytes sh `quot` px_nRanks comm in
      '(c, t) ← PatRS.construct 1 (op_chunkSize sh) NCCL_STEPS 16 0 size size (op_chunkSize sh) (px_rank comm) (px_nRanks comm);
      let zeros := replicate (Z.to_nat (log2Up int32 (px_nRanks comm))) 0 in
      '(r, s) ← pat_count fuel (PatRS.getNextOp c) t junk.1.1 (zeros, zeros);
      pat_save comm ch inquire true r s k
  | ncclPatternPatDown =>
      let sh := op_sh (op_payload op) in
      _ ← require (negb (px_nRanks comm =? 0));
      let size := op_nbytes sh `quot` px_nRanks comm in
      '(c, asDim, t) ← PatAG.construct 1 (op_chunkSize sh) NCCL_STEPS 16 0 size size (op_chunkSize sh) (px_rank comm) (px_nRanks comm) junk.1.2 junk.2;
      let zeros := replicate (Z.to_nat (log2Up int32 (px_nRanks comm))) 0 in
      '(r, s) ← pat_count fuel (PatAG.getNextOp c asDim) t junk.1.1 (zeros, zeros);
      pat_save comm ch inquire false r s k
  | ncclPatternSend | ncclPatternRecv =>
      if root =? px_rank comm then Ret k
      else SaveProxy comm ch (bool_decide (pattern = ncclPatternSend)) root 1 inquire k
  | ncclPatternProfiler => if px_profiler comm op then SaveProxyProfiler comm inquire k else incWorkCounter k
  end.

(** ** Chains of slots *)

(** The slots [l], linked from [i], the last one to [n]. *)
Fixpoint seg (sl : list slot) (i : Z) (l : list Z) (n : Z) : Prop :=
  match l with
  | [] => i = n
  | j :: l => i = j /\ 0 <= j /\ exists s, sl !! Z.to_nat j = Some s /\ seg sl (sl_next s) l n
  end.

(** What the slots of a chain hold. *)
Definition ops_at (sl : list slot) (l : list Z) : list (Z * ncclProxyOp) :=
  omap (fun j => s ← sl !! Z.to_nat j; Some (sl_connection s, sl_op s)) l.

Lemma seg_app sl i l1 l2 n : seg sl i (l1 ++ l2) n <-> exists m, seg sl i l1 m /\ seg sl m l2 n.
Proof.
  revert i. induction l1 as [|j l1 IH]; intros i; cbn [app seg].
  - split; [by eexists|]. by intros (m & -> & ?).
  - split.
    + intros (-> & Hj & s & Hs & (m & H1 & H2)%IH). exists m. split; [|done]. by split_and!; [..|exists s].
    + intros (m & (-> & Hj & s & Hs & H1) & H2). split_and!; [done..|]. exists s. split; [done|]. apply IH. by exists m.
Qed.

Lemma seg_nonneg sl i l n : seg sl i l n -> Forall (fun j => 0 <= j) l.
Proof. revert i. induction l as [|j l IH]; intros i; [done|]. intros (_ & Hj & s & _ & H). constructor; [done|]. by eapply IH. Qed.

Lemma seg_head sl i l n : seg sl i l n -> i = match l with [] => n | j :: _ => j end.
Proof. destruct l; cbn [seg]; naive_solver. Qed.

Lemma seg_range sl i l n j : seg sl i l n -> j ∈ l -> exists s, sl !! Z.to_nat j = Some s.
Proof.
  revert i. induction l as [|k l IH]; intros i; [by intros _ ?%not_elem_of_nil|]. intros (_ & _ & s & Hs & H) [->|Hj]%elem_of_cons; [by exists s|].
  by eapply IH.
Qed.

(** Changing slots outside a chain. *)
Lemma seg_other sl i l n k x : 0 <= k -> k ∉ l -> seg (<[Z.to_nat k := x]> sl) i l n <-> seg sl i l n.
Proof.
  intros Hk. revert i. induction l as [|j l IH]; intros i Hn; [done|]. apply not_elem_of_cons in Hn as [Hne Hn]. cbn [seg].
  split; intros (-> & Hj & s & Hs & H); (split; [done|]; split; [done|]; exists s);
    rewrite list_lookup_insert_ne in * by lia; (split; [done|]); apply IH; done.
Qed.

Lemma ops_other sl l k x : 0 <= k -> Forall (fun j => 0 <= j) l -> k ∉ l -> ops_at (<[Z.to_nat k := x]> sl) l = ops_at sl l.
Proof.
  intros Hk Hl. induction Hl as [|j l Hj Hl IH]; intros Hn; [done|]. apply not_elem_of_cons in Hn as [Hne Hn]. unfold ops_at in *. cbn [omap list_omap].
  rewrite list_lookup_insert_ne by lia. by rewrite IH.
Qed.

(** Changing only the link of a slot keeps what every slot holds. *)
Lemma ops_relink sl l k s n : sl !! Z.to_nat k = Some s -> 0 <= k -> Forall (fun j => 0 <= j) l ->
  ops_at (<[Z.to_nat k := MkSlot (sl_op s) (sl_connection s) n]> sl) l = ops_at sl l.
Proof.
  intros Hs Hk Hl. induction Hl as [|j l Hj Hl IH]; [done|]. unfold ops_at in *. cbn [omap list_omap]. rewrite IH.
  destruct (decide (j = k)) as [->|Hne]; [|by rewrite list_lookup_insert_ne by lia].
  rewrite list_lookup_insert_eq by (by eapply lookup_lt_Some). by rewrite Hs.
Qed.

Lemma set_next_Ret sl k s n : 0 <= k -> sl !! Z.to_nat k = Some s ->
  set_next sl k n = Ret (<[Z.to_nat k := MkSlot (sl_op s) (sl_connection s) n]> sl).
Proof.
  intros Hk Hs. unfold set_next. rewrite (proj2 (zget_Ret sl k s)) by done. cbn [mbind outcome_bind]. apply zset_Ret.
  apply lookup_lt_Some in Hs. lia.
Qed.

(** Relink the end of a chain. *)
Lemma seg_relink sl i l e n m s : seg sl i (l ++ [e]) n -> NoDup (l ++ [e]) -> sl !! Z.to_nat e = Some s ->
  seg (<[Z.to_nat e := MkSlot (sl_op s) (sl_connection s) m]> sl) i (l ++ [e]) m.
Proof.
  intros Hseg Hnd Hs. apply seg_app in Hseg as (k & H1 & -> & He & s' & Hs' & _). apply NoDup_app in Hnd as (_ & Hd & _).
  apply seg_app. exists e. split; [apply seg_other; [done| |done]; intros H; apply (Hd _ H); constructor|].
  cbn [seg]. split_and!; [done|done|]. eexists. split; [apply list_lookup_insert_eq; by eapply lookup_lt_Some|done].
Qed.

Lemma ops_app sl l1 l2 : ops_at sl (l1 ++ l2) = ops_at sl l1 ++ ops_at sl l2.
Proof. apply omap_app. Qed.

Lemma ops_length sl i l n : seg sl i l n -> length (ops_at sl l) = length l.
Proof.
  revert i. induction l as [|j l IH]; intros i; [done|]. intros (-> & _ & s & Hs & H). unfold ops_at in *. cbn [omap list_omap]. rewrite Hs. simpl.
  f_equal. by eapply IH.
Qed.

Lemma find_cut_spec sl e lc l : forall a fuel n r, seg sl a (l ++ [e]) (-1) -> e ∉ l -> (length l < fuel)%nat ->
  wp (find_cut fuel sl a e lc n r) (fun r' =>
    (r' = r /\ Forall (fun o => opCount o.2 = lc) (ops_at sl l)) \/
    (exists A x B s, l = A ++ x :: B /\ r' = (x, n + Z.of_nat (length A) + 1) /\ sl !! Z.to_nat x = Some s /\ opCount (sl_op s) <> lc /\
       Forall (fun o => opCount o.2 = lc) (ops_at sl B))).
Proof.
  induction l as [|j l IH]; intros a fuel n r Hseg He Hf; (destruct fuel as [|fuel]; [simpl in Hf; lia|]); cbn [find_cut].
  - destruct Hseg as (-> & _ & s & _ & _). rewrite Z.eqb_refl. left. split; [done|constructor].
  - apply not_elem_of_cons in He as [Hne He]. destruct Hseg as (-> & Hj & s & Hs & Hseg). rewrite (proj2 (Z.eqb_neq j e)) by done.
    rewrite (proj2 (zget_Ret sl j s)) by done. cbn [mbind outcome_bind].
    assert (ops_at sl (j :: l) = (sl_connection s, sl_op s) :: ops_at sl l) as Hops by (unfold ops_at; cbn [omap list_omap]; by rewrite Hs).
    eapply wpx_mono; [apply (IH (sl_next s)); [done|done|simpl in Hf; lia]| |done]. intros r' [[-> Hall]|(A & x & B & sx & -> & -> & Hx & Hne' & HB)].
    + destruct (Z.eqb_spec (opCount (sl_op s)) lc) as [Heq|Hneq]; cbn [negb].
      * left. split; [done|]. rewrite Hops. by constructor.
      * right. exists [], j, l, s. split_and!; try done. f_equal. simpl. lia.
    + right. exists (j :: A), x, B, sx. split_and!; try done. f_equal. cbn [length]. lia.
Qed.

(** ** The pool refines two lists

    [posted] went to the proxy thread, [pending] is still with the appending
    thread, [nfree] operations are free. *)
Definition ends (l : list Z) (e : Z) : Prop := l <> [] -> List.last l (-1) = e.

Record pool_lists (p : local_ops) (F G P Q : list Z) : Prop := {
  pl_free : seg (lo_slots p) (lo_freeOp p) F (-1);
  pl_pool : seg (lo_slots p) (lo_poolFree p) G (-1);
  pl_pending : seg (lo_slots p) (lo_nextOps p) P (-1);
  pl_posted : seg (lo_slots p) (lo_poolNext p) Q (-1);
  pl_end : ends P (lo_nextOpsEnd p);
  pl_poolEnd : ends Q (lo_poolEnd p);
  pl_nodup : NoDup (F ++ G ++ P ++ Q);
}.

Definition pool_inv (p : local_ops) (posted pending : list (Z * ncclProxyOp)) (nfree : nat) : Prop :=
  exists F G P Q, pool_lists p F G P Q /\ lo_count p = Z.of_nat (length P) /\ lo_count p < MAX_OPS_PER_PEER /\ ops_at (lo_slots p) P = pending /\ ops_at (lo_slots p) Q = posted /\ (length F + length G = nfree)%nat.

Lemma take_free_spec p F G P Q : pool_lists p F G P Q -> (0 < length F + length G)%nat ->
  exists i F' G', take_free p = Ret (i, MkLocal (lo_slots p) (lo_count p) (match F' with [] => -1 | j :: _ => j end) (lo_nextOps p) (lo_nextOpsEnd p)
      (match G' with [] => -1 | j :: _ => j end) (lo_poolNext p) (lo_poolEnd p)) /\
    F ++ G = i :: F' ++ G' /\ 0 <= i /\ (exists s, lo_slots p !! Z.to_nat i = Some s) /\
    seg (lo_slots p) (match F' with [] => -1 | j :: _ => j end) F' (-1) /\ seg (lo_slots p) (match G' with [] => -1 | j :: _ => j end) G' (-1).
Proof.
  intros [HF HG _ _ _ _ _] Hn. unfold take_free. destruct F as [|i F].
  - cbn [seg] in HF. rewrite HF. change (-1 =? -1) with true. cbn [negb]. destruct G as [|i G]; [simpl in Hn; lia|].
    destruct HG as (Hi & Hp & s & Hs & HG). rewrite Hi, (proj2 (Z.eqb_neq i (-1))) by lia. cbn [mbind outcome_bind].
    rewrite (proj2 (zget_Ret _ i s)) by done. cbn [mbind outcome_bind]. exists i, G, []. pose proof (seg_head _ _ _ _ HG) as Hh. rewrite Hh in *.
    split_and!; try done; [by rewrite app_nil_r|by exists s].
  - destruct HF as (Hi & Hp & s & Hs & HF). rewrite Hi, (proj2 (Z.eqb_neq i (-1))) by lia. cbn [negb mbind outcome_bind].
    rewrite (proj2 (zget_Ret _ i s)) by done. cbn [mbind outcome_bind]. exists i, F, G. pose proof (seg_head _ _ _ _ HF) as Hh.
    pose proof (seg_head _ _ _ _ HG) as Hh'. rewrite Hh, Hh' in *. split_and!; try done. by exists s.
Qed.

(** The pool after the operation is linked in, before any cut. *)
Definition linked_in (p : local_ops) (i connection : Z) (op : ncclProxyOp) : outcome local_ops :=
  sl ← zset (lo_slots p) i (MkSlot op connection (-1));
  '(sl, first) ← (if lo_nextOps p =? -1 then Ret (sl, i) else sl ← set_next sl (lo_nextOpsEnd p) i; Ret (sl, lo_nextOps p));
  Ret (MkLocal sl (lo_count p + 1) (lo_freeOp p) first i (lo_poolFree p) (lo_poolNext p) (lo_poolEnd p)).

Lemma nodup_head (i : Z) l : NoDup (i :: l) -> i ∉ l.
Proof. by intros [? _]%NoDup_cons. Qed.

(** Chains and contents are kept by a write to a slot outside. *)
Lemma write_fresh sl i x a l : 0 <= i -> i ∉ l -> seg sl a l (-1) ->
  seg (<[Z.to_nat i := x]> sl) a l (-1) /\ ops_at (<[Z.to_nat i := x]> sl) l = ops_at sl l.
Proof. intros Hi Hl H. split; [by apply seg_other|]. apply ops_other; [done| |done]. by eapply seg_nonneg. Qed.

Lemma ops_snoc sl l i s : sl !! Z.to_nat i = Some s -> ops_at sl (l ++ [i]) = ops_at sl l ++ [(sl_connection s, sl_op s)].
Proof. intros Hs. rewrite ops_app. f_equal. unfold ops_at. cbn [omap list_omap]. by rewrite Hs. Qed.

(** The last slot of a chain. *)
Lemma seg_end sl a l e : seg sl a (l ++ [e]) (-1) -> a <> -1 /\ 0 <= e /\ exists s, sl !! Z.to_nat e = Some s.
Proof.
  intros H. pose proof (seg_nonneg _ _ _ _ H) as Hn. rewrite Forall_app, Forall_singleton in Hn. split_and!; [|tauto|].
  - destruct l; destruct H as (? & ? & _); lia.
  - apply (seg_range _ _ _ _ e H). apply elem_of_app. right. constructor.
Qed.

Lemma ends_last l e e' : ends (l ++ [e]) e' -> e' = e.
Proof. intros H. unfold ends in H. rewrite last_last in H. symmetry. apply H. by destruct l. Qed.

(** A slot of one chain is in no other. *)
Lemma disjoint_end F G (l : list Z) e Q : NoDup (F ++ G ++ (l ++ [e]) ++ Q) -> e ∉ F /\ e ∉ G /\ e ∉ l /\ e ∉ Q /\ NoDup (l ++ [e]).
Proof.
  rewrite !NoDup_app. intros (_ & H1 & _ & H2 & (H3 & H4 & H5) & H6 & _).
  split_and!; try done; intros H; [apply (H1 _ H)|apply (H2 _ H)|apply (H4 _ H)|apply (H6 e)]; rewrite ?elem_of_app, ?list_elem_of_singleton; tauto.
Qed.

Lemma linked_in_spec p i F G P Q conn op s :
  pool_lists p F G P Q -> NoDup (i :: F ++ G ++ P ++ Q) -> 0 <= i -> lo_slots p !! Z.to_nat i = Some s ->
  exists p', linked_in p i conn op = Ret p' /\ pool_lists p' F G (P ++ [i]) Q /\ lo_count p' = lo_count p + 1 /\
    ops_at (lo_slots p') (P ++ [i]) = ops_at (lo_slots p) P ++ [(conn, op)] /\ ops_at (lo_slots p') Q = ops_at (lo_slots p) Q.
Proof.
  intros [HF HG HP HQ HE HE' Hnd] Hndi Hi Hs. pose proof (nodup_head _ _ Hndi) as Hout. rewrite !elem_of_app in Hout.
  pose proof (lookup_lt_Some _ _ _ Hs) as Hlt. unfold linked_in. rewrite zset_Ret by lia. cbn [mbind outcome_bind].
  set (new := MkSlot op conn (-1)). set (sl1 := <[Z.to_nat i := new]> (lo_slots p)).
  assert (sl1 !! Z.to_nat i = Some new) as Hi1 by (by apply list_lookup_insert_eq).
  destruct (write_fresh _ i new _ F Hi ltac:(tauto) HF) as [HF1 _], (write_fresh _ i new _ G Hi ltac:(tauto) HG) as [HG1 _].
  destruct (write_fresh _ i new _ P Hi ltac:(tauto) HP) as [HP1 HoP], (write_fresh _ i new _ Q Hi ltac:(tauto) HQ) as [HQ1 HoQ].
  fold sl1 in HF1, HG1, HP1, HQ1, HoP, HoQ. clearbody sl1. assert (NoDup (F ++ G ++ (P ++ [i]) ++ Q)) as Hnd'.
  { eapply NoDup_Permutation_proper; [|exact Hndi]. rewrite <- !app_assoc. rewrite (Permutation_app_comm [i] Q), !app_assoc. symmetry. apply Permutation_cons_append. }
  destruct (decide (P = [])) as [->|HPn].
  - cbn [seg] in HP. rewrite HP. change (-1 =? -1) with true. cbn [mbind outcome_bind]. eexists. split; [reflexivity|].
    split; [|split_and!; [done|by rewrite (ops_snoc _ _ _ new)|done]].
    split; cbn [lo_slots lo_freeOp lo_poolFree lo_nextOps lo_poolNext lo_nextOpsEnd lo_poolEnd lo_count]; try done.
    cbn [app seg]. split_and!; [done|done|]. by exists new.
  - destruct (exists_last HPn) as (P0 & e & ->). apply ends_last in HE. rewrite HE.
    destruct (seg_end _ _ _ _ HP1) as (Hne & He0 & se & Hse). rewrite (proj2 (Z.eqb_neq _ _) Hne).
    rewrite (set_next_Ret _ _ se) by done. cbn [mbind outcome_bind]. eexists. split; [reflexivity|].
    destruct (disjoint_end _ _ _ _ _ Hnd) as (HeF & HeG & _ & HeQ & HndP).
    assert (Z.to_nat e <> Z.to_nat i) as Hei by (intros ?; assert (e = i) as -> by lia; apply Hout; rewrite elem_of_app, list_elem_of_singleton; tauto).
    split; [|split_and!; [done|..]]; cbn [lo_slots].
    + split; cbn [lo_slots lo_freeOp lo_poolFree lo_nextOps lo_poolNext lo_nextOpsEnd lo_poolEnd lo_count]; try done; try (by apply seg_other).
      * apply seg_app. exists i. split; [by apply (seg_relink sl1 _ _ _ (-1))|]. cbn [seg]. split_and!; [done|done|]. exists new.
        split; [|done]. by rewrite list_lookup_insert_ne.
      * intros _. apply last_last.
    + rewrite ops_relink, (ops_snoc _ _ _ new), HoP; [done..|]. apply Forall_app. split; [by eapply seg_nonneg|by repeat constructor].
    + rewrite ops_relink; [done..|]. by eapply seg_nonneg.
Qed.

(** Posting a chain behind the ones already posted. *)
Lemma ncclProxyPost_spec p F G P Q l e a : pool_lists p F G P Q -> seg (lo_slots p) a (l ++ [e]) (-1) -> NoDup (F ++ G ++ P ++ Q ++ l ++ [e]) ->
  exists p', ncclProxyPost p a e = Ret p' /\ pool_lists p' F G P (Q ++ l ++ [e]) /\ lo_count p' = lo_count p /\
    forall l', Forall (fun j => 0 <= j) l' -> ops_at (lo_slots p') l' = ops_at (lo_slots p) l'.
Proof.
  intros [HF HG HP HQ HE HE' Hnd] Ha Hnd'. unfold ncclProxyPost. destruct (decide (Q = [])) as [->|HQn].
  - cbn [seg] in HQ. rewrite HQ. change (-1 =? -1) with true. eexists. split; [reflexivity|]. split; [|done].
    split; cbn [lo_slots lo_freeOp lo_poolFree lo_nextOps lo_poolNext lo_nextOpsEnd lo_poolEnd lo_count app]; try done. intros _. apply last_last.
  - destruct (exists_last HQn) as (Q0 & q & ->). apply ends_last in HE'. rewrite HE'.
    destruct (seg_end _ _ _ _ HQ) as (Hne & Hq0 & sq & Hsq). rewrite (proj2 (Z.eqb_neq _ _) Hne).
    rewrite (set_next_Ret _ _ sq) by done. cbn [mbind outcome_bind]. eexists. split; [reflexivity|].
    split; [|split; [done|]; intros l' Hl'; cbn [lo_slots]; by apply ops_relink].
    assert (q ∉ F /\ q ∉ G /\ q ∉ P /\ q ∉ l ++ [e] /\ NoDup (Q0 ++ [q])) as (H1 & H2 & H3 & H4 & H5).
    { assert (NoDup ((F ++ G ++ P) ++ [] ++ (Q0 ++ [q]) ++ l ++ [e])) as Hd by (cbn [app]; rewrite <- !app_assoc in *; exact Hnd').
      destruct (disjoint_end _ _ _ _ _ Hd) as (H1 & _ & _ & H4 & H5). rewrite !elem_of_app in H1. split_and!; tauto. }
    split; cbn [lo_slots lo_freeOp lo_poolFree lo_nextOps lo_poolNext lo_nextOpsEnd lo_poolEnd lo_count]; try done; try (by apply seg_other).
    + apply seg_app. exists a. split; [by apply (seg_relink _ _ _ _ (-1))|by apply seg_other].
    + intros _. rewrite app_assoc. apply last_last.
Qed.

(** The operations behind [P1] stay pending, [P1] is posted. *)
Lemma cut_at p F G A x B e Q sx : pool_lists p F G (A ++ x :: B ++ [e]) Q -> lo_slots p !! Z.to_nat x = Some sx ->
  exists p', ncclProxyPost (MkLocal (<[Z.to_nat x := MkSlot (sl_op sx) (sl_connection sx) (-1)]> (lo_slots p)) (lo_count p) (lo_freeOp p) (sl_next sx)
      (lo_nextOpsEnd p) (lo_poolFree p) (lo_poolNext p) (lo_poolEnd p)) (lo_nextOps p) x = Ret p' /\
    pool_lists p' F G (B ++ [e]) (Q ++ A ++ [x]) /\ lo_count p' = lo_count p /\
    forall l', Forall (fun j => 0 <= j) l' -> ops_at (lo_slots p') l' = ops_at (lo_slots p) l'.
Proof.
  intros [HF HG HP HQ HE HE' Hnd] Hx. set (p1 := MkLocal _ _ _ _ _ _ _ _).
  replace (A ++ x :: B ++ [e]) with ((A ++ [x]) ++ B ++ [e]) in * by (by rewrite <- app_assoc).
  assert (NoDup (F ++ G ++ (A ++ [x]) ++ (B ++ [e]) ++ Q)) as Hnd0 by (rewrite <- !app_assoc; rewrite <- !app_assoc in Hnd; exact Hnd).
  destruct (disjoint_end _ _ _ _ _ Hnd0) as (X1 & X2 & _ & X3 & HndA). rewrite elem_of_app in X3.
  pose proof (proj1 (seg_app _ _ (A ++ [x]) _ _) HP) as (m & HA & HB).
  pose proof (proj1 (seg_app _ _ A _ _) HA) as (? & HA0 & -> & Hx0 & sx' & Hx' & Hm). rewrite Hx in Hx'. injection Hx' as <-. cbn [seg] in Hm. subst m.
  destruct (ncclProxyPost_spec p1 F G (B ++ [e]) Q A x (lo_nextOps p)) as (p' & -> & Hpl & Hc & Hops).
  - split; cbn [p1 lo_slots lo_freeOp lo_poolFree lo_nextOps lo_poolNext lo_nextOpsEnd lo_poolEnd]; try (apply seg_other; tauto).
    + rewrite app_assoc in HE. apply ends_last in HE. rewrite HE. intros _. apply last_last.
    + done.
    + eapply sublist_NoDup; [exact Hnd0|]. do 2 (apply sublist_app; [done|]). by apply sublist_inserts_l.
  - cbn [p1 lo_slots]. by apply (seg_relink _ _ _ _ (sl_next sx)).
  - eapply NoDup_Permutation_proper; [|exact Hnd0]. do 2 f_equiv. rewrite (app_assoc (B ++ [e])). apply Permutation_app_comm.
  - exists p'. split_and!; try done. intros l' Hl'. rewrite Hops by done. cbn [p1 lo_slots]. by apply ops_relink.
Qed.

(** The chain is cut behind the last operation with another count than the end. *)
Lemma cut_and_post_spec fuel p F G L e Q se lc : pool_lists p F G (L ++ [e]) Q -> (length L < fuel)%nat ->
  lo_slots p !! Z.to_nat e = Some se -> lc = opCount (sl_op se) ->
  wpx (cut_and_post fuel p) (fun p' => exists A x B, L = A ++ x :: B /\ pool_lists p' F G (B ++ [e]) (Q ++ A ++ [x]) /\
      lo_count p' = lo_count p - Z.of_nat (length (A ++ [x])) /\ (forall l, Forall (fun j => 0 <= j) l -> ops_at (lo_slots p') l = ops_at (lo_slots p) l) /\
      Forall (fun o => opCount o.2 = lc) (ops_at (lo_slots p) B) /\ Forall (fun o => opCount o.2 <> lc) (ops_at (lo_slots p) [x]))
    (fun err => err = ncclInternalError /\ Forall (fun o => opCount o.2 = lc) (ops_at (lo_slots p) L)).
Proof.
  intros Hpl Hlen Hse ->. pose proof Hpl as [_ _ HP _ HE _ Hnd]. apply ends_last in HE. destruct (seg_end _ _ _ _ HP) as (_ & He0 & _).
  destruct (disjoint_end _ _ _ _ _ Hnd) as (_ & _ & HeL & _ & _).
  unfold cut_and_post. rewrite HE, (proj2 (zget_Ret _ e se)) by done. cbn [mbind outcome_bind].
  wp_bind.
  eapply wpx_mono; [apply (find_cut_spec _ _ _ L); [done|done|done]| |done].
  intros [lastOp toSend] [[[= -> ->] Hall]|(A & x & B & sx & -> & [= -> ->] & Hx & Hne & HB)]; [by split|].
  rewrite <- app_assoc in *. cbn [app] in *. pose proof (seg_nonneg _ _ _ _ HP) as Hnn. rewrite Forall_app, Forall_cons in Hnn. destruct Hnn as (_ & Hx0 & _).
  rewrite (proj2 (Z.eqb_neq x (-1))) by lia. rewrite (proj2 (zget_Ret _ x sx)) by done. cbn [mbind outcome_bind].
  rewrite (set_next_Ret _ _ sx) by done. cbn [mbind outcome_bind].
  destruct (cut_at p F G A x B e Q sx Hpl Hx) as (p' & Hpost & Hpl' & Hc & Hops). rewrite HE in Hpost. rewrite Hpost. cbn [mbind outcome_bind].
  exists A, x, B. split; [done|]. split; [by destruct Hpl'; split|]. split; [cbn [lo_count]; rewrite length_app; simpl; lia|].
  split; [exact Hops|]. split; [done|]. unfold ops_at. cbn [omap list_omap]. rewrite Hx. by repeat constructor.
Qed.

Lemma append_steps p conn op : ncclLocalOpAppend p conn op =
  ('(i, p) ← take_free p; p ← linked_in p i conn op;
   if lo_count p =? MAX_OPS_PER_PEER then cut_and_post (Z.to_nat MAX_OPS_PER_PEER) p else Ret p).
Proof.
  unfold ncclLocalOpAppend, linked_in. generalize (Z.to_nat MAX_OPS_PER_PEER) as fuel. intros fuel. destruct (take_free p) as [[i p']| |]; [|done|done].
  cbn [mbind outcome_bind]. destruct (zset _ _ _) as [sl| |]; [|done|done]. cbn [mbind outcome_bind].
  destruct (if lo_nextOps p' =? -1 then _ else _) as [[sl' first]| |]; done.
Qed.

(** (C40) The pool of proxy operations refines two lists: while an operation is
    free, [ncclLocalOpAppend] adds the new operation behind all the pending ones,
    in order and without losing any; when the pending ones reach
    [MAX_OPS_PER_PEER] it posts a prefix of them, cut where the operation count
    changes, so that the operations that stay pending all have the count of the
    newest one; and it fails only if all of them have the same count, so that
    there is no such place. *)
Theorem ncclLocalOpAppend_refines p posted pending nfree conn op : pool_inv p posted pending (S nfree) ->
  wpx (ncclLocalOpAppend p conn op)
    (fun p' => exists posted' pending', pool_inv p' posted' pending' nfree /\ posted' ++ pending' = posted ++ pending ++ [(conn, op)] /\
       (posted' = posted \/ exists A x, posted' = posted ++ A ++ [x] /\ opCount x.2 <> opCount op /\ Forall (fun o => opCount o.2 = opCount op) pending'))
    (fun err => err = ncclInternalError /\ Z.of_nat (length pending) + 1 = MAX_OPS_PER_PEER /\ Forall (fun o => opCount o.2 = opCount op) pending).
Proof.
  intros (F & G & P & Q & Hpl & Hcnt & Hmax & HoP & HoQ & Hfree). destruct (take_free_spec p F G P Q Hpl ltac:(lia)) as (i & F' & G' & Htake & HFG & Hi & [s Hs] & HF' & HG').
  assert (S (length F' + length G') = length F + length G)%nat as Hlen by (apply (f_equal length) in HFG; rewrite length_app in HFG; cbn [length] in HFG; rewrite length_app in HFG; lia).
  pose proof Hpl as [_ _ HP HQ HE HE' Hnd]. set (p0 := MkLocal _ _ _ _ _ _ _ _) in Htake.
  assert (NoDup (i :: F' ++ G' ++ P ++ Q)) as Hnd' by (rewrite app_assoc, HFG in Hnd; cbn [app] in Hnd; by rewrite <- app_assoc in Hnd).
  assert (pool_lists p0 F' G' P Q) as Hpl0 by (split; try done; by apply NoDup_cons in Hnd' as [_ ?]).
  destruct (linked_in_spec p0 i F' G' P Q conn op s Hpl0 Hnd' Hi Hs) as (p1 & Hlink & Hpl1 & Hc1 & Ho1 & Ho1').
  rewrite append_steps, Htake. cbn [mbind outcome_bind]. rewrite Hlink. cbn [mbind outcome_bind].
  change (lo_count p0) with (lo_count p) in *. change (lo_slots p0) with (lo_slots p) in *.
  destruct (seg_end _ _ _ _ (pl_pending _ _ _ _ _ Hpl1)) as (_ & _ & se & Hse).
  pose proof (ops_snoc _ P i se Hse) as Hsn. rewrite Ho1 in Hsn. apply app_inj_tail in Hsn as [HoP1 [= -> Hop]].
  destruct (Z.eqb_spec (lo_count p1) MAX_OPS_PER_PEER) as [Hfull|Hroom].
  - assert (length P < Z.to_nat MAX_OPS_PER_PEER)%nat as Hfuel by (rewrite <- Hfull; lia).
    eapply wpx_mono; [by apply (cut_and_post_spec _ p1 F' G' P i Q se (opCount op)); [..|rewrite Hop]| |].
    + intros p2 (A & x & B & -> & Hpl2 & Hc2 & Hops & HB & Hx). pose proof (seg_nonneg _ _ _ _ HP) as Hnn. pose proof (seg_nonneg _ _ _ _ HQ) as HnQ.
      rewrite Forall_app, Forall_cons in Hnn. destruct Hnn as (HnA & Hnx & HnB). destruct (seg_range _ _ _ _ x (pl_posted _ _ _ _ _ Hpl2)) as [sx Hsx]; [set_solver|].
      exists (posted ++ ops_at (lo_slots p2) (A ++ [x])), (ops_at (lo_slots p2) (B ++ [i])). split; [|split].
      * assert (length (A ++ x :: B) = length A + S (length B) /\ length (A ++ [x]) = length A + 1 /\ length (B ++ [i]) = length B + 1)%nat as (L1 & L2 & L3)
          by (rewrite !length_app; done).
        exists F', G', (B ++ [i]), (Q ++ A ++ [x]). rewrite (ops_app _ Q), (Hops Q), Ho1', HoQ by done. split_and!; done || lia.
      * rewrite <- app_assoc. f_equal. rewrite <- ops_app, Hops by (rewrite !Forall_app, !Forall_singleton; tauto). rewrite <- HoP, <- Ho1. f_equal. by rewrite <- !app_assoc.
      * right. exists (ops_at (lo_slots p2) A), (sl_connection sx, sl_op sx). split; [by rewrite (ops_snoc _ _ _ sx)|]. split.
        { rewrite <- (Hops [x]) in Hx by (by repeat constructor). unfold ops_at in Hx. cbn [omap list_omap] in Hx. rewrite Hsx in Hx. cbn [mbind option_bind] in Hx. by apply Forall_cons in Hx as [Hx _]. }
        rewrite Hops, (ops_snoc _ _ _ se) by (done || rewrite Forall_app, Forall_singleton; tauto). apply Forall_app. split; [done|]. constructor; [by rewrite Hop|done].
    + intros err [-> Hall]. split; [done|]. rewrite <- HoP, (ops_length _ _ _ _ HP), HoP1. split; [lia|]. by rewrite <- HoP1, HoP1.
  - exists posted, (pending ++ [(sl_connection se, op)]). split; [|split; [done|by left]]. exists F', G', (P ++ [i]), Q.
    rewrite Ho1, Ho1', HoP, HoQ, length_app. cbn [length]. split_and!; try done; lia.
Qed.

(** Four operations, the first pending, the second posted, two free. *)
Definition sample_slot (count next : Z) : slot := MkSlot (MkProxyOp count 0 zero_args) 9 next.
Definition sample_pool : local_ops :=
  MkLocal [sample_slot 4 (-1); sample_slot 2 (-1); sample_slot 0 3; sample_slot 0 (-1)] 1 2 0 0 (-1) 1 1.

Lemma ncclLocalOpAppend_refines_witness :
  let first := (9, MkProxyOp 2 0 zero_args) in
  let second := (9, MkProxyOp 4 0 zero_args) in
  wpx (ncclLocalOpAppend sample_pool 7 (MkProxyOp 6 0 zero_args))
    (fun p' => exists posted' pending', pool_inv p' posted' pending' 1 /\ posted' ++ pending' = [first] ++ [second] ++ [(7, MkProxyOp 6 0 zero_args)] /\
       (posted' = [first] \/ exists A x, posted' = [first] ++ A ++ [x] /\ opCount x.2 <> 6 /\ Forall (fun o => opCount o.2 = 6) pending'))
    (fun err => err = ncclInternalError /\ 1 + 1 = MAX_OPS_PER_PEER /\ Forall (fun o => opCount o.2 = 6) [second]).
Proof.
  apply (ncclLocalOpAppend_refines sample_pool [(9, MkProxyOp 2 0 zero_args)] [(9, MkProxyOp 4 0 zero_args)] 1 7 (MkProxyOp 6 0 zero_args)).
  exists [2; 3], [], [0], [1]. split; [|repeat split]. split; cbn; try (by intros); try done.
  - split_and!; [done|lia|]. eexists. split; [done|]. cbn. split_and!; [done|lia|]. eexists. by split.
  - split_and!; [done|lia|]. eexists. by split.
  - split_and!; [done|lia|]. eexists. by split.
  - apply (bool_decide_unpack _). vm_compute. exact I.
Defined.

(** ** Both ends of a ring connection agree *)

Definition ring_pattern (p : ncclPattern_t) : Prop :=
  p = ncclPatternRing \/ p = ncclPatternRingTwice \/ p = ncclPatternPipelineFrom \/ p = ncclPatternPipelineTo.

(** [ring.userRanks] of rank [x] on channel [c]: the ranks in the order they are met. *)
Definition userRanks_of (next : list Z) (nranks c x : Z) : list Z := ring_at next nranks c x <$> seqZ 0 nranks.

Lemma userRanks_at next nranks c x k : 0 <= k < nranks -> zget (userRanks_of next nranks c x) k = Ret (ring_at next nranks c x k).
Proof.
  intros Hk. apply zget_Ret. split; [lia|]. unfold userRanks_of. rewrite list_lookup_fmap, lookup_seqZ_lt by lia. simpl. do 2 f_equal. lia.
Qed.

(** The transfer from [r] to its successor is needed. *)
Definition transfer_needed (pattern : ncclPattern_t) (root r succ : Z) : bool :=
  match pattern with
  | ncclPatternPipelineFrom => negb (root =? succ)
  | ncclPatternPipelineTo => negb (root =? r)
  | _ => true
  end.

(** On a ring that passes all ranks, the sender and the receiver of every
    connection agree whether the proxy is needed: rank [r] registers a send to its
    successor exactly when the successor registers a receive from it, namely
    always for rings, except into the root for broadcast chains and except out of
    the root for reduce chains. *)
Theorem NeedProxy_paired next nranks c r pattern root : 2 <= nranks -> single_cycle next nranks c r -> ring_pattern pattern ->
  let succ := hop next nranks c r in
  NeedProxy true pattern root (userRanks_of next nranks c r) nranks = Ret (transfer_needed pattern root r succ) /\
  NeedProxy false pattern root (userRanks_of next nranks c succ) nranks = Ret (transfer_needed pattern root r succ).
Proof.
  intros Hn [Hclose _] Hp succ.
  assert (ring_at next nranks c succ (nranks - 1) = r) as Hprev.
  { etransitivity; [|exact Hclose]. unfold ring_at, succ. replace (Z.to_nat nranks) with (S (Z.to_nat (nranks - 1))) by lia. by rewrite Nat.iter_succ_r. }
  destruct Hp as [-> | [-> | [-> | ->]]]; [done|done|..]; unfold NeedProxy; cbn [decide_rel]; rewrite ?decide_True, ?decide_False by done;
    rewrite !userRanks_at by lia; cbn [mbind outcome_bind]; rewrite ?Hprev; done.
Qed.

Lemma NeedProxy_paired_witness :
  NeedProxy true ncclPatternPipelineFrom 0 (userRanks_of [2; 0; 1] 3 0 1) 3 = Ret false /\
  NeedProxy false ncclPatternPipelineFrom 0 (userRanks_of [2; 0; 1] 3 0 0) 3 = Ret false.
Proof.
  apply (NeedProxy_paired [2; 0; 1] 3 0 1 ncclPatternPipelineFrom 0); [lia| |by right; right; left].
  split; [done|]. vm_compute. apply perm_swap.
Defined.
