(* ===== verification/PatCount.v ===== *)
(** * Counting the steps of a PAT schedule

    [ncclProxySaveOp] runs the generators of the PAT algorithms to count the steps
    of each dimension.  The counts exist: the reduce-scatter generator ends for any
    number of ranks (PatRSProofs of Pat.v), the all-gather generator for up to
    [2 ^ 15] ranks, where the order of its distances, which bit counters produce,
    is checked by computation. *)
From S2P Require Import Prelude Bitops Device Rings RingAlgo Pat ProxyOp Proxy.

(** ** The counting loop *)

(** Dimensions that index the counters. *)
Definition dims_ok (k : Z) (ps : ncclPatStep) : Prop :=
  (recvDim ps = -1 \/ 0 <= recvDim ps < k) /\ (sendDim ps = -1 \/ 0 <= sendDim ps < k).

Lemma skipped_bit f : (Z.land f PatSkipped =? 0) = negb (Z.testbit f 1).
Proof.
  unfold PatSkipped. apply eq_iff_eq_true. rewrite Z.eqb_eq, negb_true_iff. split; intros H.
  - assert (Z.testbit (Z.land f 2) 1 = false) as E by (rewrite H; apply Z.bits_0). rewrite Z.land_spec in E. by rewrite andb_true_r in E.
  - apply Z.bits_inj_iff. intros i. rewrite Z.land_spec, Z.bits_0. destruct (Z.lt_trichotomy i 1) as [Hi|[->|Hi]].
    + destruct (Z.lt_ge_cases i 0); [by rewrite Z.testbit_neg_r|]. replace i with 0 by lia. by rewrite andb_false_r.
    + by rewrite H.
    + rewrite (testbit_high 2 2) by lia. by rewrite andb_false_r.
Qed.

Lemma bump_at_ok l i : 0 <= i < Z.of_nat (length l) -> exists l', bump_at l i = Ret l' /\ length l' = length l.
Proof.
  intros Hi. unfold bump_at. destruct (zget_in_bounds l i Hi) as (x & -> & _). cbn [mbind outcome_bind]. rewrite zset_Ret by done.
  eexists. split; [done|]. apply length_insert.
Qed.

(** A generator counts to the end when each call either ends the schedule or
    brings it closer to the end: [I n t], at most [n] calls follow. *)
Lemma pat_count_spec {S} (I : Z -> S -> Prop) (next : S -> ncclPatStep -> outcome (S * ncclPatStep)) (k : Z) :
  (forall n t ps, I n t -> 0 <= n /\ wp (next t ps) (fun '(t', ps') => (last ps' = 2 \/ exists n', n' < n /\ I n' t') /\ (Z.testbit (flags ps') 1 = false -> dims_ok k ps'))) ->
  forall fuel n t ps r s, I n t -> n < Z.of_nat fuel -> Z.of_nat (length r) = k -> Z.of_nat (length s) = k ->
  exists r' s', pat_count fuel next t ps (r, s) = Ret (r', s') /\ Z.of_nat (length r') = k /\ Z.of_nat (length s') = k.
Proof.
  intros Hn fuel. induction fuel as [|fuel IH]; intros n t ps r s HI Hf Hr Hs; destruct (Hn n t ps HI) as [H0 Hw]; [lia|]. cbn [pat_count].
  destruct (wp_elim _ _ Hw) as ([t' ps'] & -> & Hp & Hd). cbn [mbind outcome_bind fst snd]. rewrite skipped_bit, negb_involutive.
  assert (exists r' s', (if Z.testbit (flags ps') 1 then Ret (r, s) else
    r0 ← (if negb (recvDim ps' =? -1) && negb (postRecv ps' =? 0) then bump_at r (recvDim ps') else Ret r);
    s0 ← (if negb (sendDim ps' =? -1) && negb (postSend ps' =? 0) then bump_at s (sendDim ps') else Ret s); Ret (r0, s0)) = Ret (r', s') /\
    Z.of_nat (length r') = k /\ Z.of_nat (length s') = k) as (r' & s' & -> & Hr' & Hs').
  { destruct (Z.testbit (flags ps') 1); [by exists r, s|]. destruct (Hd eq_refl) as [Hd1 Hd2].
    assert (exists r0, (if negb (recvDim ps' =? -1) && negb (postRecv ps' =? 0) then bump_at r (recvDim ps') else Ret r) = Ret r0 /\ length r0 = length r) as (r0 & -> & Hr0).
    { destruct (Z.eqb_spec (recvDim ps') (-1)), (postRecv ps' =? 0); cbn [negb andb]; try by eexists. apply bump_at_ok. lia. }
    assert (exists s0, (if negb (sendDim ps' =? -1) && negb (postSend ps' =? 0) then bump_at s (sendDim ps') else Ret s) = Ret s0 /\ length s0 = length s) as (s0 & -> & Hs0).
    { destruct (Z.eqb_spec (sendDim ps') (-1)), (postSend ps' =? 0); cbn [negb andb]; try by eexists. apply bump_at_ok. lia. }
    cbn [mbind outcome_bind]. exists r0, s0. split_and!; [done|lia|lia]. }
  cbn [mbind outcome_bind]. destruct (Z.eqb_spec (last ps') 2); [by exists r', s'|]. destruct Hp as [?|(n' & Hlt & HI')]; [done|]. apply (IH n'); done || lia.
Qed.

(** ** The parameters of the generators *)

Lemma pat_cfg_fields eltSize stepSize stepDepth maxPar offset e count chunk r n c : pat_cfg eltSize stepSize stepDepth maxPar offset e count chunk r n = Ret c -> 0 < maxPar ->
  nrPow2 c = 2 ^ log2Up int32 n /\ 0 <= log2Up int32 n /\ (0 < postFreq c -> 0 < parallelFactor c).
Proof.
  unfold pat_cfg, shl1. destruct (Z.leb_spec 0 (log2Up int32 n)); [|done]. destruct (log2Up int32 n <? 31); [|done]. cbn [andb mbind outcome_bind].
  destruct (agg_loop _ _ _ _ _ _) as [[f d]| |]; [|done..]. cbn [mbind outcome_bind]. destruct (depth_loop _ _ _ _ _) as [[f' d']| |]; [|done..]. cbn [mbind outcome_bind].
  intros [= <-] Hm. cbn. split; [done|]. split; [done|]. destruct (Z.ltb_spec f maxPar); lia.
Qed.

Lemma cfg_bits eltSize stepSize stepDepth maxPar offset e count chunk r n c k x : pat_cfg eltSize stepSize stepDepth maxPar offset e count chunk r n = Ret c -> 0 < maxPar ->
  cfg_wf c k x -> k = log2Up int32 n /\ 0 < parallelFactor c.
Proof.
  intros Hc Hm Hwf. destruct (pat_cfg_fields _ _ _ _ _ _ _ _ _ _ _ Hc Hm) as (H1 & H2 & H3). pose proof (cw_k _ _ _ Hwf). pose proof (cw_postFreq _ _ _ Hwf).
  split; [|apply H3; lia]. rewrite (cw_nrPow2 _ _ _ Hwf) in H1. apply Z.pow_inj_r in H1; lia.
Qed.

(** ** Reduce-scatter *)

(** More calls than the generators make for [size] elements of up to [2 ^ 20] ranks. *)
Definition enough (size : Z) (fuel : nat) : Prop := (size + 1) * 2 ^ 42 <= Z.of_nat fuel.

Lemma cfg_small c k x : cfg_wf c k x -> k <= 20 -> 1 <= aggFactor c <= 2 ^ 19 /\ 2 <= aggDelta c <= 2 ^ 20.
Proof.
  intros Hwf Hk. destruct (cw_k _ _ _ Hwf), (cw_x _ _ _ Hwf). rewrite (cw_aggFactor _ _ _ Hwf), (cw_aggDelta _ _ _ Hwf). pose proof (pow2_pos x ltac:(lia)).
  pose proof (Z.pow_le_mono_r 2 x 19 ltac:(lia) ltac:(lia)). pose proof (Z.pow_le_mono_r 2 (k - x) 20 ltac:(lia) ltac:(lia)). pose proof (Z.pow_le_mono_r 2 1 (k - x) ltac:(lia) ltac:(lia)). lia.
Qed.

Lemma PatRS_counted fuel ps size chunk r n : 0 < size -> 0 < chunk -> 0 <= r < n -> 2 <= n <= 2 ^ 20 -> enough size fuel -> exists c t r' s',
  PatRS.construct 1 chunk NCCL_STEPS 16 0 size size chunk r n = Ret (c, t) /\ let zeros := replicate (Z.to_nat (log2Up int32 n)) 0 in
  pat_count fuel (PatRS.getNextOp c) t ps (zeros, zeros) = Ret (r', s') /\ Z.of_nat (length r') = log2Up int32 n /\ Z.of_nat (length s') = log2Up int32 n.
Proof.
  intros Hs Hc Hr Hn Hf. destruct (pat_cfg_wf 1 chunk NCCL_STEPS 16 0 size size chunk r n) as (c & k & x & Hcfg & Hwf & Ee & Ec & _ & _ & En); [lia..|].
  destruct (cfg_bits _ _ _ _ _ _ _ _ _ _ _ _ _ Hcfg ltac:(lia) Hwf) as [Ek _]. assert (k <= 20) as Hk.
  { rewrite Ek, log2Up_log2_up; [apply Z.log2_up_le_pow2; lia|change (builtin_width int32) with 32; lia|apply conv_in_range; [done|unfold in_range; cbn; lia]]. }
  destruct (PatRSProofs.reset_ok c k x Hwf 0 ltac:(lia)) as (Hi & Hb & _). exists c, (PatRS.reset c 0). pose proof (cw_k _ _ _ Hwf).
  destruct (pat_count_spec (fun m t => PatRSProofs.inv c x t /\ PatRSProofs.busy c t /\ m = PatRSProofs.measure c x t) (PatRS.getNextOp c) k) with
    (fuel := fuel) (n := PatRSProofs.measure c x (PatRS.reset c 0)) (t := PatRS.reset c 0) (ps := ps) (r := replicate (Z.to_nat (log2Up int32 n)) 0) (s := replicate (Z.to_nat (log2Up int32 n)) 0)
    as (r' & s' & Hrun & H1 & H2).
  - intros m t ps0 (Hit & Hbt & ->). split; [apply (PatRSProofs.measure_nonneg c k x Hwf); [apply Hit|pose proof (PatRSProofs.inv_a _ _ _ Hit); lia|done]|].
    eapply wpx_mono; [apply (PatRSProofs.getNextOp_ok c k x Hwf ltac:(lia) t ps0 Hit Hbt)| |done]. intros [t2 ps2] [Hp Hsafe]. split.
    + inversion Hp as [? ? ? E|? ? ? ? ? ? ? E|? ? ? ? ? E]; [by left|right; eexists; split; [eassumption|done]..].
    + intros Hfl. destruct (Hsafe Hfl) as [S1 S2 _]. split; [destruct S1; [by left|right; lia]|destruct S2; [by left|right; lia]].
  - done.
  - pose proof (cfg_small c k x Hwf Hk) as [Ha Hd]. pose proof (PatRSProofs.rounds_range c k x Hwf (PatRS.reset c 0) (PatRSProofs.inv_phase _ _ _ Hi)) as Hrd. pose proof (cw_x _ _ _ Hwf).
    unfold PatRSProofs.measure, enough in *. unfold PatRSProofs.todo. cbn [PatRS.reset PatRS.resetA PatRS.phase PatRS.a PatRS.offset] in *. rewrite Ee. cbn [Z.eqb andb]. rewrite Z.max_r by lia.
    assert (PatRSProofs.max_rounds c x + 1 <= 2 ^ 22) as Hmr by (unfold PatRSProofs.max_rounds; lia). set (M := PatRSProofs.max_rounds c x) in *. set (R0 := PatRSProofs.rounds _ _) in *. clearbody R0 M.
    set (A := aggFactor c) in *. clearbody A. assert ((size - 0 + 0) * (M + 1) + R0 <= (size + 1) * 2 ^ 22 - 1) as H1 by nia.
    assert (((size - 0 + 0) * (M + 1) + R0) * A <= ((size + 1) * 2 ^ 22 - 1) * 2 ^ 19) by nia. nia.
  - rewrite length_replicate. lia.
  - rewrite length_replicate. lia.
  - exists r', s'. rewrite <- Ek. unfold PatRS.construct. rewrite Hcfg. cbn [mbind outcome_bind]. split; [done|]. rewrite <- Ek in Hrun. done.
Qed.

(** ** The distances of the all-gather *)
Module PatAGProofs.
Import PatAG.

(** The distances that follow [w] are inside the ranks, until an odd one is
    followed by [aggDelta / 2] within [fuel]. *)
Fixpoint order_ok (asDim : Z) (fuel : nat) (w : Z * list Z * list Z) : bool :=
  match fuel with
  | O => false
  | S fuel =>
      (1 <=? w.1.1) && (w.1.1 <? 2 ^ asDim) &&
      match nextAs asDim w with
      | Ret w' => if Z.odd w.1.1 && (w'.1.1 =? 2 ^ (asDim - 1)) then true else order_ok asDim fuel w'
      | _ => false
      end
  end.

Definition order_start (asDim : Z) : outcome (Z * list Z * list Z) :=
  nextAs asDim (0, (fun i => asDim - i) <$> seqZ 0 asDim, replicate (Z.to_nat asDim) 1).

(** The longest order: [2 ^ asDim] distances. *)
Definition max_order : nat := 4096.

Lemma order_checked m : 1 <= m <= 12 -> exists w, order_start m = Ret w /\ order_ok m max_order w = true.
Proof.
  intros Hm. assert (m = 1 \/ m = 2 \/ m = 3 \/ m = 4 \/ m = 5 \/ m = 6 \/ m = 7 \/ m = 8 \/ m = 9 \/ m = 10 \/ m = 11 \/ m = 12) as Hc by lia.
  repeat (destruct Hc as [-> | Hc]; [eexists; split; [vm_compute; reflexivity|vm_compute; reflexivity]|]). subst m.
  eexists; split; [vm_compute; reflexivity|vm_compute; reflexivity].
Qed.

(** The counters beyond the dimensions are not looked at. *)
Definition ext (t1 t2 : list Z) (w : Z * list Z * list Z) : Z * list Z * list Z := (w.1.1, w.1.2 ++ t1, w.2 ++ t2).
Definition sized (m : Z) (w : Z * list Z * list Z) : Prop := Z.of_nat (length w.1.2) = m /\ Z.of_nat (length w.2) = m.

Lemma zget_app (l t : list Z) i : 0 <= i < Z.of_nat (length l) -> zget (l ++ t) i = zget l i.
Proof.
  intros Hi. destruct (zget_in_bounds l i Hi) as (x & -> & Hx). apply zget_Ret. split; [lia|]. by apply lookup_app_l_Some.
Qed.
Lemma zset_app (l t : list Z) i x : 0 <= i < Z.of_nat (length l) -> zset (l ++ t) i x = Ret (<[Z.to_nat i := x]> l ++ t).
Proof. intros Hi. rewrite zset_Ret by (rewrite length_app; lia). by rewrite insert_app_l by lia. Qed.

(** [m'] run on the counters and on their extension. *)
Definition extends (m : Z) (t1 t2 : list Z) (f : Z * list Z * list Z -> outcome (Z * list Z * list Z)) : Prop := forall w, sized m w ->
  match f w with Ret w' => sized m w' /\ f (ext t1 t2 w) = Ret (ext t1 t2 w') | _ => True end.

Lemma nextAs_dim_ext asDim d m t1 t2 : 0 <= d < m -> extends m t1 t2 (nextAs_dim asDim d).
Proof.
  intros Hd [[v bc] bz] [H1 H2]. cbn [fst snd] in H1, H2. unfold nextAs_dim, ext. cbn [fst snd]. destruct (shl1 d) as [p| |]; [|done|done]. cbn [mbind outcome_bind].
  rewrite (zget_app bc) by lia. destruct (zget bc d) as [b| |]; [|done|done]. cbn [mbind outcome_bind]. rewrite (zset_app bc), zset_Ret by lia. cbn [mbind outcome_bind].
  set (bc1 := <[Z.to_nat d := b - 1]> bc). assert (Z.of_nat (length bc1) = m) as H3 by (unfold bc1; by rewrite length_insert).
  destruct (b - 1 =? 0); [|by split]. destruct (Z.land (Z.lxor v p) p =? 0).
  - rewrite (zget_app bz) by lia. destruct (zget bz d) as [z| |]; [|done|done]. cbn [mbind outcome_bind].
    destruct (if p + (firstBitSet z asDim - 1) =? 0 then _ else _) as [v' c'].
    rewrite (zset_app bc1), (zset_Ret bc1) by lia. cbn [mbind outcome_bind]. rewrite (zset_app bz), (zset_Ret bz) by lia. cbn [mbind outcome_bind].
    split; [|done]. split; cbn [fst snd]; by rewrite length_insert.
  - rewrite (zset_app bc1), (zset_Ret bc1) by lia. cbn [mbind outcome_bind]. split; [|done]. split; cbn [fst snd]; by rewrite ?length_insert.
Qed.

Lemma nextAs_ext m t1 t2 : extends m t1 t2 (nextAs m).
Proof.
  unfold nextAs, for_range. rewrite Z.sub_0_r. assert (forall n i w, sized m w -> 0 <= i -> i + Z.of_nat n <= m ->
    match for_n n i (nextAs_dim m) w with Ret w' => sized m w' /\ for_n n i (nextAs_dim m) (ext t1 t2 w) = Ret (ext t1 t2 w') | _ => True end) as H.
  { induction n as [|n IH]; intros i w Hw Hi Hn; cbn [for_n]; [by split|]. pose proof (nextAs_dim_ext m i m t1 t2 ltac:(lia) w Hw) as Hd.
    destruct (nextAs_dim m i w) as [w'| |]; [|done|done]. destruct Hd as [Hs ->]. cbn [mbind outcome_bind]. apply IH; done || lia. }
  intros w Hw. apply H; [done|lia|]. destruct Hw. lia.
Qed.

(** The loop of [reset] over the counters. *)
Lemma reset_counters m t1 t2 bc bz : Z.of_nat (length bc) = m -> Z.of_nat (length bz) = m ->
  for_range 0 m (fun i '(bc, bz) => bc ← zset bc i (m - i); bz ← zset bz i 1; Ret (bc, bz)) (bc ++ t1, bz ++ t2) =
  Ret (((fun i => m - i) <$> seqZ 0 m) ++ t1, replicate (Z.to_nat m) 1 ++ t2).
Proof.
  intros Hc Hz. assert (forall f (l : list Z) i, 0 <= i < m -> Z.of_nat (length l) = m ->
    <[Z.to_nat i := f i]> ((f <$> seqZ 0 i) ++ drop (Z.to_nat i) l) = (f <$> seqZ 0 (i + 1)) ++ drop (Z.to_nat (i + 1)) l) as Hstep.
  { intros f l i Hi Hl. rewrite insert_app_r_alt by (rewrite length_fmap, length_seqZ; lia). rewrite length_fmap, length_seqZ.
    rewrite seqZ_app, fmap_app, <- app_assoc by lia. f_equal. destruct (lookup_lt_is_Some_2 l (Z.to_nat i)) as [y Hy]; [lia|]. rewrite (drop_S l y) by done.
    replace (Z.to_nat i - Z.to_nat i)%nat with 0%nat by lia. rewrite seqZ_cons by lia. rewrite seqZ_nil by lia. cbn [list_insert insert fmap list_fmap app].
    replace (S (Z.to_nat i)) with (Z.to_nat (i + 1)) by lia. by replace (0 + i) with i by lia. }
  assert (forall f (l : list Z) i, 0 <= i -> Z.of_nat (length l) = m -> i <= m -> Z.of_nat (length ((f <$> seqZ 0 i) ++ drop (Z.to_nat i) l : list Z)) = m) as Hlen
    by (intros; rewrite length_app, length_fmap, length_seqZ, length_drop; lia).
  assert ((fun _ => 1) <$> seqZ 0 m = replicate (Z.to_nat m) 1) as E1.
  { apply list_eq. intros i. rewrite list_lookup_fmap. destruct (Nat.lt_ge_cases i (Z.to_nat m)) as [Hi|Hi].
    - rewrite lookup_seqZ_lt by lia. rewrite lookup_replicate_2 by lia. done.
    - rewrite lookup_seqZ_ge by lia. symmetry. apply lookup_replicate_None. lia. }
  destruct (wp_elim (for_range 0 m (fun i '(bc, bz) => bc ← zset bc i (m - i); bz ← zset bz i 1; Ret (bc, bz)) (bc ++ t1, bz ++ t2))
    (fun r => r = (((fun i => m - i) <$> seqZ 0 m) ++ t1, replicate (Z.to_nat m) 1 ++ t2))) as (r & -> & ->); [|done].
  apply (wpx_for (fun i r => r = ((((fun i => m - i) <$> seqZ 0 i) ++ drop (Z.to_nat i) bc) ++ t1, (((fun _ => 1) <$> seqZ 0 i) ++ drop (Z.to_nat i) bz) ++ t2))).
  - lia.
  - by rewrite seqZ_nil by lia.
  - intros i r Hi ->. pose proof (Hlen (fun i => m - i) bc i ltac:(lia) Hc ltac:(lia)) as L1. pose proof (Hlen (fun _ => 1) bz i ltac:(lia) Hz ltac:(lia)) as L2. cbn beta in *.
    rewrite zset_app by lia. cbn [mbind outcome_bind]. rewrite zset_app by lia. cbn [mbind outcome_bind wpx].
    by rewrite (Hstep (fun i => m - i)), (Hstep (fun _ => 1)) by lia.
  - intros r ->. rewrite E1, !drop_ge, !app_nil_r by lia. done.
Qed.

Section proofs.
Context (c : cfg) (k x : Z) (Hc : cfg_wf c k x) (Hpar : 0 < parallelFactor c).
(** The bits of rank number that are not aggregated. *)
Let m := k - x.
Context (Hm : m <= 12).

(** The state machine; [f] distances of the order may follow. *)
Definition phase_ok (t : st) : Prop :=
  (phase t = 2 /\ exists i, 0 <= i < x /\ scale t = 2 ^ i /\ lastA t = 2 ^ (x - 1 - i)) \/
  (phase t = 1 /\ lastA t = aggFactor c) \/ (phase t = 0 /\ lastA t = aggFactor c /\ Z.odd (as_ t) = true).

Record inv (f : nat) (t : st) : Prop := {
  iv_order : exists bc t1 bz t2, bitCount t = bc ++ t1 /\ bitZeroStep t = bz ++ t2 /\ sized m (v t, bc, bz) /\ order_ok m f (v t, bc, bz) = true;
  iv_as : as_ t = v t;
  iv_phase : phase_ok t;
  iv_a : 0 <= a t;
  iv_offset : 0 <= offset t < end_ c;
}.

Definition busy (t : st) : Prop := a t < Z.max (lastA t) (parallelFactor c).

Lemma bits_range : 1 <= m <= 12 /\ aggDelta c = 2 ^ m.
Proof. destruct (cw_k _ _ _ Hc), (cw_x _ _ _ Hc). split; [unfold m in *; lia|apply Hc]. Qed.

Lemma as_range f t : inv f t -> 1 <= as_ t < aggDelta c.
Proof.
  intros [(bc & t1 & bz & t2 & _ & _ & _ & Ho) -> _ _ _]. destruct bits_range as [_ ->]. destruct f as [|f]; [done|]. cbn [order_ok fst snd] in Ho.
  apply andb_true_iff in Ho as [[Ho1%Z.leb_le Ho2%Z.ltb_lt]%andb_true_iff _]. done.
Qed.

Lemma ag_lastA_range t : phase_ok t -> 1 <= lastA t <= aggFactor c.
Proof.
  destruct (cw_k _ _ _ Hc), (cw_x _ _ _ Hc). pose proof (cw_aggFactor _ _ _ Hc) as E. pose proof (pow2_pos x ltac:(lia)).
  intros [(_ & i & Hi & _ & ->)|[(_ & ->)|(_ & -> & _)]]; [|lia..]. pose proof (pow2_pos (x - 1 - i) ltac:(lia)). rewrite E. split; [lia|]. apply Z.pow_le_mono_r; lia.
Qed.

(** The next distance, with the counters. *)
Lemma next_distance f t : inv f t -> exists f' v' bc' bz', f = S f' /\ nextAs m (v t, bitCount t, bitZeroStep t) = Ret (v', bc', bz') /\
  (exists b t1 z t2, bc' = b ++ t1 /\ bz' = z ++ t2 /\ sized m (v', b, z) /\ (Z.odd (as_ t) && (v' =? 2 ^ (m - 1)) = false -> order_ok m f' (v', b, z) = true)).
Proof.
  intros [(bc & t1 & bz & t2 & E1 & E2 & Hs & Ho) Ea _ _ _]. destruct f as [|f]; [done|]. cbn [order_ok fst snd] in Ho. apply andb_true_iff in Ho as [_ Ho].
  pose proof (nextAs_ext m t1 t2 (v t, bc, bz) Hs) as He. destruct (nextAs m (v t, bc, bz)) as [[[v' b] z]| |]; [|done|done]. destruct He as [Hs' He]. unfold ext in He. cbn [fst snd] in He.
  exists f, v', (b ++ t1), (z ++ t2). rewrite E1, E2. split; [done|]. split; [done|]. exists b, t1, z, t2. split_and!; [done|done|apply Hs'..|]. intros Hne. cbn [fst] in Ho. rewrite Ea in Hne. by rewrite Hne in Ho.
Qed.

(** *** The body of a call *)

Lemma send_recv_dims s : 0 < s < 2 ^ k -> let d := firstBitSet s (nrPow2 c) in 0 <= d < k /\ shl1 d = Ret (2 ^ d) /\ 0 <= s - 2 ^ d < 2 ^ k /\
  let rd := if negb (s - 2 ^ d =? 0) then firstBitSet (s - 2 ^ d) (nrPow2 c) else -1 in rd = -1 \/ 0 <= rd < k.
Proof.
  intros Hs d. destruct (PatRSProofs.dim_of c k x Hc s Hs) as (H1 & H2 & H3). pose proof (pow2_pos d ltac:(unfold d; lia)). split; [done|]. split; [done|]. split; [fold d in H2; lia|].
  apply (PatRSProofs.send_dim_of c k x Hc). fold d in H2. lia.
Qed.

Lemma body_ok f t ps : inv f t -> wp (step_body c t ps) (fun r => r.2 = false -> dims_ok k r.1).
Proof.
  intros Hi. pose proof (as_range f t Hi) as Has. destruct Hi as [_ _ Hp Ha _]. pose proof (cw_k _ _ _ Hc) as Hk. pose proof (cw_x _ _ _ Hc) as Hx. unfold step_body. destruct (Z.geb_spec (a t) (lastA t)) as [|Hlt]; [done|].
  destruct Hp as [(-> & i & Hii & Hsc & Hla)|[(-> & Hla)|(-> & Hla & _)]]; cbn [Z.eqb Pos.eqb].
  - unfold op2. cbv zeta. rewrite Hsc. destruct (send_recv_dims ((2 * a t + 1) * 2 ^ i * aggDelta c)) as (H1 & -> & _ & H3); [apply (PatRSProofs.distance23 c k x Hc); lia|].
    cbn [mbind outcome_bind]. destruct (if _ =? -1 then _ else _) as [rOff so]. cbn [wpx snd fst]. intros _. split; cbn [recvDim sendDim]; [done|by right].
  - unfold op1. cbv zeta. destruct (send_recv_dims (a t * aggDelta c + as_ t)) as (H1 & -> & _ & H3); [apply (PatRSProofs.distance01 c k x Hc); lia|].
    cbn [mbind outcome_bind]. destruct (if _ =? -1 then _ else _) as [[rOff pr] so]. destruct ((_ <? _) && _ && _); cbn [wpx snd fst]; intros _; split; cbn [recvDim sendDim]; auto.
  - unfold op0. cbn [wpx snd fst]. intros _. split; cbn [recvDim sendDim]; [right; lia|by left].
Qed.

(** *** Progress *)

Definition tracked (f : nat) (v' : Z) (bc' bz' : list Z) : Prop :=
  exists b t1 z t2, bc' = b ++ t1 /\ bz' = z ++ t2 /\ sized m (v', b, z) /\ order_ok m f (v', b, z) = true.

Definition next_phase (ph sc v' : Z) : Prop := (ph = 2 /\ exists i, 0 <= i < x /\ sc = 2 ^ i) \/ ph = 1 \/ (ph = 0 /\ Z.odd v' = true).

Lemma ag_resetA_ok off n v' sc ph bc' bz' f : tracked f v' bc' bz' -> 0 <= off < end_ c -> next_phase ph sc v' -> exists t', resetA c off n v' sc ph (v', bc', bz') = Ret t' /\
  inv f t' /\ busy t' /\ a t' = 0 /\ offset t' = off /\ phase t' = ph /\ scale t' = sc.
Proof.
  intros Ho Hoff Hph. pose proof (cw_k _ _ _ Hc) as Hk. pose proof (cw_x _ _ _ Hc) as Hx. pose proof (cw_aggFactor _ _ _ Hc) as E.
  assert (exists t', resetA c off n v' sc ph (v', bc', bz') = Ret t' /\ phase_ok t' /\ t' = MkSt off n (lastA t') v' 0 sc ph v' bc' bz') as (t' & Hr & Hok & Et).
  { unfold resetA. destruct Hph as [(-> & i & Hi & ->)|[->|(-> & Hodd)]]; cbn [Z.geb Z.compare Pos.compare Pos.compare_cont].
    - pose proof (pow2_pos i ltac:(lia)). pose proof (pow2_pos x ltac:(lia)). destruct (Z.eqb_spec (2 ^ i) 0); [lia|]. cbn [negb require mbind outcome_bind]. eexists. split; [done|]. split; [|done].
      left. split; [done|]. exists i. split; [done|]. split; [done|]. cbn [lastA]. rewrite E, quot_div_nonneg by lia.
      replace (2 * 2 ^ i) with (2 ^ (i + 1)) by (rewrite Z.pow_add_r by lia; lia). rewrite <- Z.pow_sub_r by lia. f_equal. lia.
    - cbn [mbind outcome_bind]. eexists. split; [done|]. split; [|done]. by right; left.
    - cbn [mbind outcome_bind]. eexists. split; [done|]. split; [|done]. by right; right. }
  exists t'. split; [done|]. pose proof (ag_lastA_range t' Hok) as Hla. rewrite Et in *. cbn [lastA] in Hla. split; [split; cbn; try done; lia|]. split; [unfold busy; cbn; lia|]. done.
Qed.

Lemma ag_reset_ok off bc bz : 0 <= off < end_ c -> m <= Z.of_nat (length bc) -> m <= Z.of_nat (length bz) -> exists t', reset c m off bc bz = Ret t' /\
  inv max_order t' /\ busy t' /\ a t' = 0 /\ offset t' = off.
Proof.
  intros Hoff Hb Hz. destruct bits_range as [Hr _]. pose proof (cw_k _ _ _ Hc) as Hk. pose proof (cw_x _ _ _ Hc) as Hx. pose proof (cw_aggFactor _ _ _ Hc) as E. unfold reset. cbv zeta.
  rewrite <- (take_drop (Z.to_nat m) bc), <- (take_drop (Z.to_nat m) bz). rewrite reset_counters by (rewrite length_take; lia). cbn [mbind outcome_bind].
  destruct (order_checked m Hr) as ([[v' b] z] & Hst & Hok). unfold order_start in Hst.
  pose proof (nextAs_ext m (drop (Z.to_nat m) bc) (drop (Z.to_nat m) bz) (0, (fun i => m - i) <$> seqZ 0 m, replicate (Z.to_nat m) 1)) as He. rewrite Hst in He. unfold ext in He. cbn [fst snd] in He.
  destruct He as [Hs ->]; [split; cbn [fst snd]; rewrite ?length_fmap, ?length_seqZ, ?length_replicate; lia|]. cbn [mbind outcome_bind].
  assert (tracked max_order v' (b ++ drop (Z.to_nat m) bc) (z ++ drop (Z.to_nat m) bz)) as Htr by (by exists b, (drop (Z.to_nat m) bc), z, (drop (Z.to_nat m) bz)).
  set (sc := aggFactor c `quot` 2). set (ph := if negb (sc =? 0) then 2 else 1).
  destruct (ag_resetA_ok off (getNelem c off) v' sc ph _ _ max_order Htr Hoff) as (t' & -> & Hi & Hbu & Ha & Ho & _); [|by exists t'].
  unfold ph, sc. rewrite E. destruct (Z.eq_dec x 0) as [Ex|Hx0]; [right; left; by replace (2 ^ x) with 1 by (by rewrite Ex)|]. rewrite halve_pow2 by lia. pose proof (pow2_pos (x - 1) ltac:(lia)).
  destruct (Z.eqb_spec (2 ^ (x - 1)) 0); [lia|]. cbn [negb]. left. split; [done|]. exists (x - 1). split; [lia|done].
Qed.

Let F := Z.of_nat max_order.
Definition rounds (f : nat) (t : st) : Z :=
  if phase t =? 2 then Z.log2 (scale t) + 2 * F + 2 else if phase t =? 1 then 2 * Z.of_nat f + 1 else 2 * Z.of_nat f.
Definition max_rounds : Z := x + 2 * F + 2.
Definition measure (f : nat) (t : st) : Z := (Z.max 0 (end_ c - offset t) * (max_rounds + 1) + rounds f t) * aggFactor c + (aggFactor c - 1 - a t).

Lemma ag_rounds_range f t : phase_ok t -> (f <= max_order)%nat -> 0 <= rounds f t <= max_rounds.
Proof.
  pose proof (cw_x _ _ _ Hc) as Hx. unfold rounds, max_rounds. intros Hp Hf. assert (0 <= F) by (unfold F; lia). assert (Z.of_nat f <= F) by (unfold F; lia).
  destruct Hp as [(-> & i & Hi & -> & _)|[(-> & _)|(-> & _)]]; cbn [Z.eqb Pos.eqb]; [rewrite Z.log2_pow2 by lia|..]; lia.
Qed.

Lemma ag_busy_lt t : phase_ok t -> busy t -> a t < aggFactor c.
Proof. intros Hp Hb. pose proof (ag_lastA_range t Hp). pose proof (cw_parallel _ _ _ Hc). pose proof (cw_postFreq _ _ _ Hc). unfold busy in Hb. lia. Qed.

Lemma ag_measure_nonneg f t : inv f t -> busy t -> (f <= max_order)%nat -> 0 <= measure f t.
Proof.
  intros Hi Hb Hf. pose proof (ag_rounds_range f t (iv_phase _ _ Hi) Hf). pose proof (ag_busy_lt t (iv_phase _ _ Hi) Hb). pose proof (iv_a _ _ Hi). unfold measure.
  assert (0 <= Z.max 0 (end_ c - offset t) * (max_rounds + 1)) by (apply Z.mul_nonneg_nonneg; lia).
  assert (0 <= (Z.max 0 (end_ c - offset t) * (max_rounds + 1) + rounds f t) * aggFactor c) by (apply Z.mul_nonneg_nonneg; lia). lia.
Qed.

(** A new round of the same chunk, or of a later one, is closer to the end. *)
Lemma measure_round f t f' t' : inv f t -> busy t -> (f <= max_order)%nat -> (f' <= max_order)%nat -> phase_ok t' -> a t' = 0 ->
  offset t' = offset t /\ rounds f' t' < rounds f t \/ offset t < offset t' < end_ c -> measure f' t' < measure f t.
Proof.
  intros Hi Hb Hf Hf' Hp' Ha' Hor. pose proof (ag_rounds_range f t (iv_phase _ _ Hi) Hf) as Hr. pose proof (ag_rounds_range f' t' Hp' Hf') as Hr'. pose proof (ag_busy_lt t (iv_phase _ _ Hi) Hb) as Hlt.
  pose proof (iv_a _ _ Hi) as Ha. unfold measure. rewrite Ha'. set (M := max_rounds) in *. set (A := aggFactor c) in *. assert (0 < A) by lia.
  set (T := Z.max 0 (end_ c - offset t)). set (T' := Z.max 0 (end_ c - offset t')).
  assert (T' * (M + 1) + rounds f' t' + 1 <= T * (M + 1) + rounds f t) as Hle.
  { destruct Hor as [[Eo ?]|Ho]; [unfold T', T; rewrite Eo; lia|]. assert (T' + 1 <= T) by (unfold T', T; lia). nia. }
  assert ((T' * (M + 1) + rounds f' t' + 1) * A <= (T * (M + 1) + rounds f t) * A) by (apply Z.mul_le_mono_nonneg_r; lia). lia.
Qed.

Definition left_steps (n : Z) (t : st) : Prop := exists f, (f <= max_order)%nat /\ inv f t /\ busy t /\ n = measure f t.

(** The rest of a round: only [a] changes. *)
Lemma ag_advance_stay f t : inv f t -> busy t -> (f <= max_order)%nat -> a t + 1 < lastA t \/ a t + 1 < parallelFactor c ->
  wp (advance c m t) (fun r => r.2 <> 2 /\ exists n', n' < measure f t /\ left_steps n' r.1).
Proof.
  intros Hi Hb Hf Hstay. unfold advance. cbv zeta. replace ((a t + 1 >=? lastA t) && (a t + 1 >=? parallelFactor c)) with false by (zcases; cbn [andb]; done || lia).
  set (l := if (phase t =? 0) && _ && _ then _ else _). assert (exists b, l = Ret b /\ b <> 2) as (b & -> & Hb2).
  { unfold l. destruct (_ && _ && _); [|by exists 0]. rewrite (proj2 (Z.eqb_neq (parallelFactor c) 0)) by lia. cbn [negb require mbind outcome_bind]. eexists. split; [done|]. unfold b2z. by destruct (_ >=? _). }
  cbn [mbind outcome_bind wpx fst snd]. split; [done|]. set (t' := MkSt _ _ _ _ _ _ _ _ _ _). assert (measure f t' < measure f t) by (unfold measure, rounds; cbn; lia).
  exists (measure f t'). split; [done|]. exists f. split_and!; try done; [destruct Hi as [H1 H2 H3 H4 H5]; split; cbn; try done; lia|unfold busy; cbn; lia].
Qed.

(** The end of a round. *)
Lemma ag_advance_round f t : inv f t -> busy t -> (f <= max_order)%nat -> lastA t <= a t + 1 -> parallelFactor c <= a t + 1 ->
  wp (advance c m t) (fun r => r.2 = 2 \/ exists n', n' < measure f t /\ left_steps n' r.1).
Proof.
  intros Hi Hb Hf H1 H2. pose proof Hi as [Ho Ea Hp Ha Hoff]. pose proof (cw_x _ _ _ Hc) as Hx. destruct bits_range as [Hmr Ed]. unfold advance. cbv zeta.
  replace ((a t + 1 >=? lastA t) && (a t + 1 >=? parallelFactor c)) with true by (zcases; cbn [andb]; done || lia).
  assert (forall f' v' bc' bz' n sc ph, (f' <= max_order)%nat -> tracked f' v' bc' bz' -> next_phase ph sc v' ->
    (forall t', phase t' = ph -> scale t' = sc -> rounds f' t' < rounds f t) ->
    wp (t' ← resetA c (offset t) n v' sc ph (v', bc', bz'); Ret (t', 0)) (fun r => r.2 = 2 \/ exists n', n' < measure f t /\ left_steps n' r.1)) as Hround.
  { intros f' v' bc' bz' n sc ph Hf' Htr Hph Hlt. destruct (ag_resetA_ok (offset t) n v' sc ph bc' bz' f' Htr Hoff Hph) as (t' & -> & Hi' & Hb' & Ha' & Ho' & Ep & Es).
    cbn [mbind outcome_bind wpx fst snd]. right. exists (measure f' t'). split; [|by exists f']. apply (measure_round f t f' t'); try done; [apply Hi'|]. left. split; [done|]. by apply Hlt. }
  destruct Hp as [(Ep & i & Hii & Hsc & Hla)|[(Ep & Hla)|(Ep & Hla & Hodd)]]; rewrite Ep; cbn [Z.eqb Pos.eqb andb orb].
  - cbn [mbind outcome_bind]. rewrite Ea. assert (rounds f t = i + 2 * F + 2) as Er by (unfold rounds; rewrite Ep, Hsc, Z.log2_pow2 by lia; done). rewrite Hsc.
    destruct (Z.eq_dec i 0) as [Ei|Hi0].
    + rewrite Ei. change (2 ^ 0 `quot` 2) with 0. cbn [Z.eqb negb]. apply (Hround f); [done|by destruct Ho as (bc & t1 & bz & t2 & ? & ? & ? & ?); exists bc, t1, bz, t2|by right; left|].
      intros t' E1 _. rewrite Er. unfold rounds. rewrite E1. cbn [Z.eqb Pos.eqb]. unfold F. lia.
    + rewrite halve_pow2 by lia. pose proof (pow2_pos (i - 1) ltac:(lia)). rewrite (proj2 (Z.eqb_neq (2 ^ (i - 1)) 0)) by lia. cbn [negb].
      apply (Hround f); [done|by destruct Ho as (bc & t1 & bz & t2 & ? & ? & ? & ?); exists bc, t1, bz, t2|left; split; [done|exists (i - 1); split; [lia|done]]|].
      intros t' E1 E2. rewrite Er. unfold rounds. rewrite E1, E2, Z.log2_pow2 by lia. cbn [Z.eqb Pos.eqb]. lia.
  - assert (rounds f t = 2 * Z.of_nat f + 1) as Er by (unfold rounds; by rewrite Ep). pose proof (as_range f t Hi) as Has. rewrite !rem_mod_nonneg by lia. pose proof (Zmod_odd (as_ t)) as Hmo.
    destruct (Z.odd (as_ t)) eqn:Eo; rewrite Hmo; cbn [Z.eqb Pos.eqb].
    + cbn [mbind outcome_bind]. rewrite Ea. apply (Hround f); [done|by destruct Ho as (bc & t1 & bz & t2 & ? & ? & ? & ?); exists bc, t1, bz, t2|right; right; by rewrite <- Ea|].
      intros t' E1 _. rewrite Er. unfold rounds. rewrite E1. cbn [Z.eqb]. lia.
    + destruct (next_distance f t Hi) as (f' & v' & bc' & bz' & -> & -> & (b & t1 & z & t2 & E1 & E2 & Hs & Hok)). cbn [mbind outcome_bind]. rewrite Eo in Hok. specialize (Hok eq_refl).
      apply (Hround f'); [lia|by exists b, t1, z, t2|by right; left|]. intros t' E3 _. rewrite Er. unfold rounds. rewrite E3. cbn [Z.eqb Pos.eqb]. lia.
  - assert (rounds f t = 2 * Z.of_nat f) as Er by (unfold rounds; by rewrite Ep).
    destruct (next_distance f t Hi) as (f' & v' & bc' & bz' & -> & -> & (b & t1 & z & t2 & E1 & E2 & Hs & Hok)). cbn [mbind outcome_bind]. rewrite Ed, halve_pow2 by lia. rewrite Hodd in Hok.
    destruct (Z.eqb_spec v' (2 ^ (m - 1))) as [Ev|Hne]; cbn [andb] in Hok |- *.
    + destruct (Z.geb_spec (offset t + chunkCount c) (end_ c)) as [|Hlt]; [by left|]. pose proof (cw_chunk _ _ _ Hc).
      destruct Hs as [Hs1 Hs2]. cbn [fst snd] in Hs1, Hs2.
      destruct (ag_reset_ok (offset t + chunkCount c) bc' bz') as (t' & -> & Hi' & Hb' & Ha' & Ho'); [lia|rewrite E1, length_app; lia|rewrite E2, length_app; lia|].
      cbn [mbind outcome_bind wpx fst snd]. right. exists (measure max_order t'). split; [|by exists max_order]. apply (measure_round (S f') t max_order t'); try done; [apply Hi'|]. right. lia.
    + apply (Hround f'); [lia|exists b, t1, z, t2; split_and!; try done; by apply Hok|by right; left|]. intros t' E3 _. rewrite Er. unfold rounds. rewrite E3. cbn [Z.eqb Pos.eqb]. lia.
Qed.

Lemma ag_getNextOp_ok n t ps : left_steps n t -> 0 <= n /\ wp (getNextOp c m t ps) (fun '(t', ps') => (last ps' = 2 \/ exists n', n' < n /\ left_steps n' t') /\
  (Z.testbit (flags ps') 1 = false -> dims_ok k ps')).
Proof.
  intros (f & Hf & Hi & Hb & ->). split; [by apply ag_measure_nonneg|]. unfold getNextOp. wp_bind. eapply wpx_mono; [by apply (body_ok f t ps)| |done].
  intros [ps1 skip] Hd. cbn [fst snd] in Hd. wp_bind. assert (wp (advance c m t) (fun r => r.2 = 2 \/ exists n', n' < measure f t /\ left_steps n' r.1)) as Hadv.
  { destruct (Z.le_gt_cases (lastA t) (a t + 1)), (Z.le_gt_cases (parallelFactor c) (a t + 1)); [by apply ag_advance_round|..];
      (eapply wpx_mono; [apply (ag_advance_stay f t); auto|intros r [_ Hr]; by right|done]). }
  eapply wpx_mono; [exact Hadv| |done]. intros [t' l] Hl. cbn [fst snd wpx] in *. split; [exact Hl|]. intros Hfl. destruct skip; [done|]. destruct (Hd eq_refl) as [D1 D2]. by split.
Qed.
End proofs.
End PatAGProofs.

(** ** All-gather *)

(** The depth of the buffers aggregates three bits, if there are as many. *)
Lemma depth_loop_min fuel n j : forall x f' d', 0 <= j -> 0 <= x -> depth_loop fuel (2 ^ j) n (2 ^ x) d' = Ret f' -> exists x', f'.1 = 2 ^ x' /\ x <= x' /\ (x + j <= x' \/ n `quot` 2 <= 2 ^ x').
Proof.
  revert j. induction fuel as [|fuel IH]; intros j x f' d' Hj Hx; cbn [depth_loop].
  - destruct (_ && _) eqn:E; [done|]. intros [= <-]. exists x. split; [done|]. split; [lia|]. apply andb_false_iff in E as [E|E%Z.ltb_ge]; [|by right]. left.
    destruct (Z.gtb_spec (2 ^ j) 1) as [|Hle]; [done|]. destruct (Z.eq_dec j 0); [lia|]. pose proof (Z.pow_le_mono_r 2 1 j ltac:(lia) ltac:(lia)). lia.
  - destruct (_ && _) eqn:E.
    + apply andb_true_iff in E as [E _]. destruct (Z.gtb_spec (2 ^ j) 1) as [Hgt|]; [|done]. destruct (Z.eq_dec j 0) as [->|Hj0]; [done|]. rewrite halve_pow2 by lia.
      replace (2 ^ x * 2) with (2 ^ (x + 1)) by (rewrite Z.pow_add_r by lia; lia). intros Hr. destruct (IH (j - 1) (x + 1) f' _ ltac:(lia) ltac:(lia) Hr) as (x' & Hx' & H1 & H2).
      exists x'. split; [done|]. split; [lia|]. destruct H2; [left; lia|by right].
    + intros [= <-]. exists x. split; [done|]. split; [lia|]. apply andb_false_iff in E as [E|E%Z.ltb_ge]; [|by right]. left.
      destruct (Z.gtb_spec (2 ^ j) 1) as [|Hle]; [done|]. destruct (Z.eq_dec j 0); [lia|]. pose proof (Z.pow_le_mono_r 2 1 j ltac:(lia) ltac:(lia)). lia.
Qed.

Lemma few_dims eltSize stepSize maxPar offset e count chunk r n c k x : pat_cfg eltSize stepSize NCCL_STEPS maxPar offset e count chunk r n = Ret c -> 0 < eltSize -> offset < e ->
  k = Z.log2_up n -> 2 <= n <= 2 ^ 20 -> cfg_wf c k x -> k - x <= Z.max 2 (k - 3).
Proof.
  intros Hcfg He Ho Hk Hn Hwf. pose proof (cw_k _ _ _ Hwf) as Hk1. pose proof (cw_x _ _ _ Hwf) as Hx1. pose proof (Z.log2_up_spec n ltac:(lia)) as Hl. rewrite <- Hk in Hl.
  assert (exists x0, 0 <= x0 /\ x0 + 3 <= x \/ n `quot` 2 <= 2 ^ x) as [x0 Hx0].
  { revert Hcfg. unfold pat_cfg. destruct (shl1 _) as [np| |] eqn:Enp; [|done..]. cbn [mbind outcome_bind].
    assert (np = 2 ^ k) as ->. { revert Enp. unfold shl1. rewrite log2Up_log2_up; [|change (builtin_width int32) with 32; lia|apply conv_in_range; [done|unfold in_range; cbn; lia]]. rewrite <- Hk. by destruct (_ && _); intros [= <-]. }
    destruct (agg_loop_spec 32 stepSize ((e - offset) * eltSize) n k 0) as (x0 & Hx0 & E1); [nia|lia|lia|lia|lia|].
    rewrite Z.sub_0_r in E1. change (2 ^ 0) with 1 in E1. rewrite E1. cbn [mbind outcome_bind].
    destruct (depth_loop _ _ _ _ _) as [f'| |] eqn:Ed; [|done..]. cbn [mbind outcome_bind]. change NCCL_STEPS with (2 ^ 3) in Ed.
    destruct (depth_loop_min _ n 3 x0 _ _ ltac:(lia) ltac:(lia) Ed) as (x' & Hf & H1 & H2). destruct f' as [f d]. cbn [fst] in Hf. cbn [mbind outcome_bind]. intros [= Ec].
    pose proof (cw_aggFactor _ _ _ Hwf) as Ea. rewrite <- Ec in Ea. cbn in Ea. rewrite Hf in Ea. apply Z.pow_inj_r in Ea; [|lia..]. exists x0. rewrite <- Ea. lia. }
  destruct Hx0 as [?|Hq]; [lia|]. destruct (Z.eq_dec k 1) as [|]; [lia|]. assert (2 ^ (k - 2) <= n `quot` 2) as Hle.
  { replace (2 ^ (k - 2)) with (2 ^ (k - 1) `quot` 2) by (rewrite halve_pow2 by lia; f_equal; lia). apply Z.quot_le_mono; [lia|]. replace (Z.pred k) with (k - 1) in Hl by lia. lia. }
  assert (k - 2 <= x); [|lia]. apply (Z.pow_le_mono_r_iff 2); lia.
Qed.

Lemma PatAG_counted fuel ps bc bz size chunk r n : 0 < size -> 0 < chunk -> 0 <= r < n -> 2 <= n <= 2 ^ 15 -> enough size fuel -> length bc = 32%nat -> length bz = 32%nat ->
  exists c asDim t r' s', PatAG.construct 1 chunk NCCL_STEPS 16 0 size size chunk r n bc bz = Ret (c, asDim, t) /\ let zeros := replicate (Z.to_nat (log2Up int32 n)) 0 in
  pat_count fuel (PatAG.getNextOp c asDim) t ps (zeros, zeros) = Ret (r', s') /\ Z.of_nat (length r') = log2Up int32 n /\ Z.of_nat (length s') = log2Up int32 n.
Proof.
  intros Hs Hc Hr Hn Hf Hb Hz. destruct (pat_cfg_wf 1 chunk NCCL_STEPS 16 0 size size chunk r n) as (c & k & x & Hcfg & Hwf & Ee & _ & _ & _ & _); [lia..|].
  destruct (cfg_bits _ _ _ _ _ _ _ _ _ _ _ _ _ Hcfg ltac:(lia) Hwf) as [Ek Hpar]. pose proof (cw_k _ _ _ Hwf) as Hk1. pose proof (cw_x _ _ _ Hwf) as Hx1.
  assert (k = Z.log2_up n /\ k <= 15) as [Ek' Hk15].
  { rewrite Ek, log2Up_log2_up; [split; [done|apply Z.log2_up_le_pow2; lia]|change (builtin_width int32) with 32; lia|apply conv_in_range; [done|unfold in_range; cbn; lia]]. }
  assert (k - x <= 12) as Hm by (pose proof (few_dims _ _ _ _ _ _ _ _ _ _ _ _ Hcfg ltac:(lia) ltac:(lia) Ek' ltac:(lia) Hwf); lia).
  assert (log2Up int32 (aggDelta c) = k - x) as Ed.
  { rewrite (cw_aggDelta _ _ _ Hwf). pose proof (Z.pow_le_mono_r 2 (k - x) 12 ltac:(lia) ltac:(lia)). pose proof (pow2_pos (k - x) ltac:(lia)).
    rewrite log2Up_log2_up; [apply Z.log2_up_pow2; lia|change (builtin_width int32) with 32; lia|apply conv_in_range; [done|unfold in_range; cbn; lia]]. }
  destruct (PatAGProofs.ag_reset_ok c k x Hwf Hm 0 bc bz) as (t & Hrs & Hi & Hbu & Ha & Ho); [lia|lia|lia|].
  exists c, (k - x), t. unfold PatAG.construct. rewrite Hcfg. cbn [mbind outcome_bind]. rewrite Ed, Hrs. cbn [mbind outcome_bind].
  destruct (pat_count_spec (PatAGProofs.left_steps c k x) (PatAG.getNextOp c (k - x)) k) with (fuel := fuel) (n := PatAGProofs.measure c x PatAGProofs.max_order t) (t := t) (ps := ps)
    (r := replicate (Z.to_nat (log2Up int32 n)) 0) (s := replicate (Z.to_nat (log2Up int32 n)) 0) as (r' & s' & Hrun & H1 & H2).
  - intros m t' ps'. by apply PatAGProofs.ag_getNextOp_ok.
  - by exists PatAGProofs.max_order.
  - pose proof (cfg_small c k x Hwf ltac:(lia)) as [HA _].
    pose proof (PatAGProofs.ag_rounds_range c k x Hwf PatAGProofs.max_order t (PatAGProofs.iv_phase _ _ _ _ _ Hi) ltac:(lia)) as Hrd.
    unfold PatAGProofs.measure, enough in *. rewrite Ha, Ho, Ee, Z.max_r by lia. assert (PatAGProofs.max_rounds x + 1 <= 2 ^ 14) as HM by (unfold PatAGProofs.max_rounds, PatAGProofs.max_order; lia).
    set (M := PatAGProofs.max_rounds x) in *. set (R0 := PatAGProofs.rounds _ _) in *. clearbody R0 M. set (A := aggFactor c) in *. clearbody A.
    assert ((size - 0) * (M + 1) + R0 <= (size + 1) * 2 ^ 22 - 1) by nia. assert (((size - 0) * (M + 1) + R0) * A <= ((size + 1) * 2 ^ 22 - 1) * 2 ^ 19) by nia. nia.
  - rewrite length_replicate. lia.
  - rewrite length_replicate. lia.
  - exists r', s'. rewrite <- Ek. rewrite <- Ek in Hrun. done.
Qed.
