(* ===== verification/Plan.v ===== *)
(** * Work batches: from the host's plan to the kernel's shared memory

    [addWorkBatchToPlan], [finishPlan] and [uploadWork] of src/src/enqueue.cc
    put the work structs of a plan into a buffer and describe, per channel,
    which of them its thread block runs: a list of [ncclDevWorkBatch], each a
    base offset with a 64-bit set of multiples of the struct size.  The kernel
    ([loadWorkBatchToShmem] and [ncclKernelMain] of src/src/device/common.h)
    follows that list and copies the structs into shared memory. *)
From S2P Require Import Prelude Bitops Device ProxyOp.

(** ** Data (src/src/include/device.h, src/src/include/comm.h) *)

Definition workType_code (t : ncclDevWorkType) : Z :=
  match t with ncclDevWorkTypeP2p => 0 | ncclDevWorkTypeColl => 1 | ncclDevWorkTypeCollReg => 2 end.

Record ncclDevWorkBatch := MkBatch {
  nextJump : Z; (* 14 bits *) nextExtends : Z; (* 1 bit *) workType : Z; (* 2 bits *) funcId : Z; (* 15 bits *)
  offsetBase : Z; (* 32 bits *) offsetBitset : Z (* 64 bits *) }.

(** [ncclKernelPlanner::WipPlan::Channel]; the queues as the lists they hold. *)
Record Channel := MkChannel {
  wip_workBytes : Z; wip_nP2ps : Z; wip_p2pRounds : list Z; nWorkBatchesP2p : Z;
  workBatchQueue : list ncclDevWorkBatch; proxyOpQueue : list ncclProxyOp }.

(** ** addWorkBatchToPlan *)

Definition set_extends (b : ncclDevWorkBatch) (x : bool) : ncclDevWorkBatch :=
  MkBatch (nextJump b) (Z.b2z x) (workType b) (funcId b) (offsetBase b) (offsetBitset b).
Definition set_bit (b : ncclDevWorkBatch) (i : Z) : ncclDevWorkBatch :=
  MkBatch (nextJump b) (nextExtends b) (workType b) (funcId b) (offsetBase b) (Z.lor (offsetBitset b) (u64 (Z.shiftl 1 i))).

(** A write through the tail pointer of a queue. *)
Fixpoint upd_last {A} (f : A -> A) (l : list A) : list A :=
  match l with [] => [] | [x] => [f x] | x :: l => x :: upd_last f l end.

(** The conditions that prevent appending to the current batch. *)
Definition needs_newBatch (chan : Channel) (wt : ncclDevWorkType) (devFuncId p2pRound : Z) : outcome bool :=
  match last (workBatchQueue chan) with
  | None => Ret true
  | Some batch =>
      let nb := negb (workType batch =? workType_code wt) in
      let nb := nb || negb (funcId batch =? devFuncId) in
      let nb := nb || (NCCL_MAX_DEV_WORK_BATCH_BYTES <? wip_workBytes chan + ncclDevWorkSize wt) in
      if decide (wt = ncclDevWorkTypeP2p) then
        let nb := nb || (wip_nP2ps chan =? NCCL_MAX_DEV_WORK_P2P_PER_BATCH) in
        for_range 0 (wip_nP2ps chan) (fun i nb => r ← zget (wip_p2pRounds chan) i; Ret (nb || (p2pRound =? r))) nb
      else Ret nb
  end.

Definition addWorkBatchToPlan (chan : Channel) (nWorkBatches : Z) (wt : ncclDevWorkType)
    (devFuncId workOffset p2pRound : Z) : outcome (Channel * Z) :=
  let workSize := ncclDevWorkSize wt in
  needs_newBatch chan wt devFuncId p2pRound ≫= fun newBatch : bool =>
  let offset := if newBatch then 0 else
    match last (workBatchQueue chan) with Some batch => u32 (workOffset - offsetBase batch) | None => 0 end in
  let extendBatch := (63 * workSize <? offset) || negb (offset mod workSize =? 0) in
  let '(chan, offset, nWorkBatches) :=
    if newBatch || extendBatch then
      let q := if newBatch then workBatchQueue chan else upd_last (fun b => set_extends b extendBatch) (workBatchQueue chan) in
      let q := q ++ [MkBatch 0 0 (workType_code wt) (devFuncId mod 2 ^ 15) workOffset 0] in
      if newBatch then
        (MkChannel 0 0 (wip_p2pRounds chan) (nWorkBatchesP2p chan + (if decide (wt = ncclDevWorkTypeP2p) then 1 else 0))
           q (proxyOpQueue chan), 0, nWorkBatches + 1)
      else
        (MkChannel (wip_workBytes chan) (wip_nP2ps chan) (wip_p2pRounds chan) (nWorkBatchesP2p chan)
           q (proxyOpQueue chan), 0, nWorkBatches + 1)
    else (chan, offset, nWorkBatches) in
  let q := upd_last (fun b => set_bit b (offset / workSize)) (workBatchQueue chan) in
  let bytes := wip_workBytes chan + workSize in
  if decide (wt = ncclDevWorkTypeP2p) then
    rounds ← zset (wip_p2pRounds chan) (wip_nP2ps chan) p2pRound;
    Ret (MkChannel bytes (wip_nP2ps chan + 1) rounds (nWorkBatchesP2p chan) q (proxyOpQueue chan), nWorkBatches)
  else Ret (MkChannel bytes (wip_nP2ps chan) (wip_p2pRounds chan) (nWorkBatchesP2p chan) q (proxyOpQueue chan), nWorkBatches).

(** A call, and the calls made for one channel in a row. *)
Record work := MkWork { w_type : ncclDevWorkType; w_func : Z; w_offset : Z; w_round : Z }.

Fixpoint add_works (chan : Channel) (n : Z) (ws : list work) : outcome (Channel * Z) :=
  match ws with
  | [] => Ret (chan, n)
  | w :: ws => '(chan, n) ← addWorkBatchToPlan chan n (w_type w) (w_func w) (w_offset w) (w_round w); add_works chan n ws
  end.

(** The state of a channel when a plan is begun: [memset] to zero. *)
Definition empty_channel : Channel := MkChannel 0 0 (replicate 8 0) 0 [] [].

(** ** What a list of batches denotes *)

Definition size_of_code (c : Z) : Z := if c =? 0 then 48 else if c =? 1 then 96 else 288.

(** The set bits, ascending. *)
Definition bits (m : Z) : list Z := filter (fun i => Z.testbit m i = true) (seqZ 0 64).

Definition batch_offsets (b : ncclDevWorkBatch) : list Z :=
  (fun i => offsetBase b + i * size_of_code (workType b)) <$> bits (offsetBitset b).

(** Batches are fused up to the first one without [nextExtends]: each fused
    batch is a work type, a function and the offsets of its structs. *)
Definition decode_step (st : list (Z * Z * list Z) * list Z) (b : ncclDevWorkBatch) : list (Z * Z * list Z) * list Z :=
  let acc := st.2 ++ batch_offsets b in
  if nextExtends b =? 0 then (st.1 ++ [(workType b, funcId b, acc)], []) else (st.1, acc).
Definition decode (q : list ncclDevWorkBatch) : list (Z * Z * list Z) * list Z := fold_left decode_step q ([], []).

Lemma decode_snoc q b : decode (q ++ [b]) = decode_step (decode q) b.
Proof. unfold decode. by rewrite fold_left_app. Qed.

(** The calls that went into one fused batch. *)
Definition show (g : list work) : Z * Z * list Z :=
  match g with [] => (0, 0, []) | w :: _ => (workType_code (w_type w), w_func w, w_offset <$> g) end.

Record group_ok (g : list work) : Prop := {
  group_nonempty : g <> [];
  group_same w w' : w ∈ g -> w' ∈ g -> w_type w = w_type w' /\ w_func w = w_func w';
  group_bytes w : w ∈ g -> Z.of_nat (length g) * ncclDevWorkSize (w_type w) <= NCCL_MAX_DEV_WORK_BATCH_BYTES;
  group_p2p w : w ∈ g -> w_type w = ncclDevWorkTypeP2p -> NoDup (w_round <$> g) /\ Z.of_nat (length g) <= 8 }.

Lemma size_code t : size_of_code (workType_code t) = ncclDevWorkSize t.
Proof. by destruct t. Qed.
Lemma size_pos t : 48 <= ncclDevWorkSize t <= 288.
Proof. destruct t; vm_compute; split; congruence. Qed.

Lemma upd_last_snoc {A} (f : A -> A) l x : upd_last f (l ++ [x]) = l ++ [f x].
Proof. induction l as [|y l IH]; [done|]. simpl. rewrite IH. by destruct l. Qed.

Lemma bits_snoc m i : 0 <= i < 64 -> (forall j, i <= j -> Z.testbit m j = false) ->
  bits (Z.lor m (u64 (Z.shiftl 1 i))) = bits m ++ [i].
Proof.
  intros Hi Hm. unfold bits, u64. rewrite Z.shiftl_1_l, Z.mod_small by (split; [lia|apply Z.pow_lt_mono_r; lia]).
  assert (seqZ 0 64 = seqZ 0 i ++ i :: seqZ (i + 1) (63 - i)) as ->.
  { transitivity (seqZ 0 (i + (64 - i))); [f_equal; lia|]. rewrite seqZ_app, Z.add_0_l by lia. f_equal.
    rewrite (seqZ_cons i (64 - i)) by lia. do 2 f_equal; lia. }
  rewrite !filter_app, !filter_cons. rewrite Z.lor_spec, Z.pow2_bits_true, orb_true_r by lia. rewrite decide_True by done.
  rewrite (decide_False (P := Z.testbit m i = true)) by (rewrite Hm by lia; done).
  rewrite !(filter_none _ (seqZ (i + 1) _)).
  - rewrite app_nil_r. f_equal. apply filter_ext_in. intros x Hx%elem_of_seqZ.
    rewrite Z.lor_spec, Z.pow2_bits_false, orb_false_r by lia. done.
  - intros x Hx%elem_of_seqZ. rewrite Hm by lia. done.
  - intros x Hx%elem_of_seqZ. rewrite Z.lor_spec, Hm, Z.pow2_bits_false by lia. done.
Qed.

Lemma bits_one i : 0 <= i < 64 -> bits (Z.lor 0 (u64 (Z.shiftl 1 i))) = [i].
Proof. intros. rewrite bits_snoc; [done|done|]. intros. apply Z.bits_0. Qed.

(** ** The invariant of a channel *)

(** The batch in progress [g], after the finished ones [gs0]. *)
Definition current (c : Channel) (gs0 : list (list work)) (g : list work) : Prop :=
  exists q0 b acc w i, workBatchQueue c = q0 ++ [b] /\ last g = Some w /\
    decode q0 = (show <$> gs0, acc) /\ show g = (workType b, funcId b, acc ++ batch_offsets b) /\ nextExtends b = 0 /\
    wip_workBytes c = Z.of_nat (length g) * ncclDevWorkSize (w_type w) /\
    (if decide (w_type w = ncclDevWorkTypeP2p)
     then wip_nP2ps c = Z.of_nat (length g) /\ take (length g) (wip_p2pRounds c) = w_round <$> g else wip_nP2ps c = 0) /\
    0 <= i < 64 /\ 0 <= offsetBase b /\ w_offset w = offsetBase b + i * ncclDevWorkSize (w_type w) /\
    (forall j, i < j -> Z.testbit (offsetBitset b) j = false).

Definition is_p2p (g : list work) : Prop := exists w, List.head g = Some w /\ w_type w = ncclDevWorkTypeP2p.
#[global] Instance is_p2p_dec g : Decision (is_p2p g).
Proof.
  destruct g as [|w g]; [right; by intros (? & ? & ?)|]. destruct (decide (w_type w = ncclDevWorkTypeP2p)).
  - left. by exists w.
  - right. intros (w' & E & Hw). simpl in E. congruence.
Defined.

(** A batch the kernel can read: a work type of the enumeration, a non-empty
    64-bit set; and batches that are fused agree on type and function. *)
Definition batch_wf (b : ncclDevWorkBatch) : Prop :=
  (exists t, workType b = workType_code t) /\ 0 < offsetBitset b < 2 ^ 64.
Fixpoint fusable (q : list ncclDevWorkBatch) : Prop :=
  match q with
  | [] => True
  | b :: q' =>
      match q' with
      | [] => True
      | b' :: _ => nextExtends b <> 0 -> workType b = workType b' /\ funcId b = funcId b'
      end /\ fusable q'
  end.

Lemma fusable_snoc q b b' : fusable (q ++ [b]) -> (nextExtends b <> 0 -> workType b = workType b' /\ funcId b = funcId b') ->
  fusable ((q ++ [b]) ++ [b']).
Proof.
  induction q as [|x q IH]; [by simpl|]. intros [Hx Hq] Hb. split; [|by apply IH]. by destruct q.
Qed.
Lemma fusable_last q b b' : fusable (q ++ [b]) -> workType b' = workType b -> funcId b' = funcId b -> fusable (q ++ [b']).
Proof.
  intros Hq Hw Hf. induction q as [|x q IH]; [done|]. destruct Hq as [Hx Hq]. split; [|by apply IH].
  destruct q; simpl in *; [by rewrite Hw, Hf|done].
Qed.

Record chan_inv (c : Channel) (gs : list (list work)) : Prop := {
  ci_rounds : length (wip_p2pRounds c) = 8%nat;
  ci_jump : Forall (fun b => nextJump b = 0) (workBatchQueue c);
  ci_wf : Forall batch_wf (workBatchQueue c);
  ci_fusable : fusable (workBatchQueue c);
  ci_groups : Forall group_ok gs;
  ci_p2p : nWorkBatchesP2p c = Z.of_nat (length (filter is_p2p gs));
  ci_cur : (gs = [] /\ workBatchQueue c = []) \/ exists gs0 g, gs = gs0 ++ [g] /\ current c gs0 g }.

Lemma last_in {A} (l : list A) x : last l = Some x -> x ∈ l.
Proof. intros. by apply last_Some_elem_of. Qed.

Lemma needs_newBatch_spec c gs0 g w' : chan_inv c (gs0 ++ [g]) -> current c gs0 g -> 
  exists nb, needs_newBatch c (w_type w') (w_func w') (w_round w') = Ret nb /\
  (nb = false -> group_ok (g ++ [w']) /\ exists w, last g = Some w /\ w_type w = w_type w' /\ w_func w = w_func w').
Proof.
  intros [Hr _ _ _ Hg _ _] (q0 & b & acc & w & i & Hq & Hl & _ & Hs & _ & Hb & Hp & _). unfold needs_newBatch. rewrite Hq, last_snoc.
  apply Forall_app in Hg as [_ [Hg _]%Forall_cons]. pose proof (last_in _ _ Hl) as Hw.
  assert (workType b = workType_code (w_type w) /\ funcId b = w_func w) as [-> ->].
  { destruct g as [|w0 g']; [done|]. simpl in Hs. destruct (group_same _ Hg w0 w) as [E1 E2]; [constructor|done|].
    injection Hs as <- <- _. by rewrite E1, E2. }
  set (nb0 := _ || (_ <? _)).
  assert (nb0 = false -> w_type w = w_type w' /\ w_func w = w_func w' /\
    Z.of_nat (length (g ++ [w'])) * ncclDevWorkSize (w_type w') <= NCCL_MAX_DEV_WORK_BATCH_BYTES) as Hnb0.
  { intros E. unfold nb0 in E. apply orb_false_iff in E as [[E1 E2]%orb_false_iff E3].
    apply negb_false_iff, Z.eqb_eq in E1. apply negb_false_iff, Z.eqb_eq in E2. apply Z.ltb_ge in E3.
    assert (w_type w = w_type w') as Ht by (destruct (w_type w), (w_type w'); done).
    rewrite Hb, Ht in E3. rewrite length_app. simpl. split_and!; [done|done|lia]. }
  assert (w_type w = w_type w' -> w_func w = w_func w' -> forall x, x ∈ g ++ [w'] -> w_type x = w_type w' /\ w_func x = w_func w') as Hall.
  { intros Ht Hf x [Hx|Hx]%elem_of_app; [|by apply list_elem_of_singleton in Hx as ->].
    destruct (group_same _ Hg x w Hx Hw) as [-> ->]. done. }
  clearbody nb0. destruct (decide (w_type w' = ncclDevWorkTypeP2p)) as [Ht'|Ht'].
  - assert (wp (for_range 0 (wip_nP2ps c) (fun i nb => r ← zget (wip_p2pRounds c) i; Ret (nb || (w_round w' =? r)))
        (nb0 || (wip_nP2ps c =? NCCL_MAX_DEV_WORK_P2P_PER_BATCH)))
      (fun nb => nb = false -> nb0 = false /\ wip_nP2ps c <> 8 /\ w_round w' ∉ take (Z.to_nat (wip_nP2ps c)) (wip_p2pRounds c))) as Hwp.
    { assert (0 <= wip_nP2ps c <= 8) as Hn8.
      { destruct (decide (w_type w = ncclDevWorkTypeP2p)) as [Ht|Ht]; [|lia]. destruct (group_p2p _ Hg w Hw Ht) as [_ ?]. lia. }
      eapply (wpx_for (fun k nb => nb = false -> nb0 = false /\ wip_nP2ps c <> 8 /\ w_round w' ∉ take (Z.to_nat k) (wip_p2pRounds c))).
      - lia.
      - intros [-> E]%orb_false_iff. apply Z.eqb_neq in E. split_and!; [done|done|]. simpl. apply not_elem_of_nil.
      - intros k nb Hk IH. wp_bind. destruct (zget_in_bounds (wip_p2pRounds c) k) as (r & -> & Hrk); [lia|]. simpl.
        intros [E1 E2]%orb_false_iff. destruct (IH E1) as (H1 & H2 & H3). split_and!; [done|done|].
        replace (Z.to_nat (k + 1)) with (S (Z.to_nat k)) by lia. rewrite (take_S_r _ _ _ Hrk).
        apply Z.eqb_neq in E2. rewrite elem_of_app, list_elem_of_singleton. naive_solver.
      - done. }
    apply wp_elim in Hwp as (nb & -> & Hnb). exists nb. split; [done|]. intros ->. destruct (Hnb eq_refl) as (H1 & H2 & H3).
    destruct (Hnb0 H1) as (Ht & Hf & Hby). split; [|by eauto]. specialize (Hall Ht Hf).
    rewrite Ht, decide_True in Hp by done. destruct Hp as [Hn Htk]. rewrite Hn, Nat2Z.id, Htk in H3.
    rewrite Ht' in Ht. destruct (group_p2p _ Hg w Hw Ht) as [Hnd H8]. split.
    + by destruct g.
    + intros x y Hx%Hall Hy%Hall. naive_solver congruence.
    + intros x [-> _]%Hall. done.
    + intros _ _ _. rewrite fmap_app, length_app. simpl. split; [|lia]. apply NoDup_app. split; [done|]. split; [|apply NoDup_singleton].
      intros r Hr1 ->%list_elem_of_singleton. done.
  - exists nb0. split; [done|]. intros E. destruct (Hnb0 E) as (Ht & Hf & Hby). split; [|by eauto]. specialize (Hall Ht Hf). split.
    + by destruct g.
    + intros x y Hx%Hall Hy%Hall. naive_solver congruence.
    + intros x [-> _]%Hall. done.
    + intros x [-> _]%Hall. done.
Qed.

Lemma decode_full c gs : chan_inv c gs -> decode (workBatchQueue c) = (show <$> gs, []).
Proof.
  intros [_ _ _ _ _ _ [[-> ->]|(gs0 & g & -> & q0 & b & acc & w & i & -> & _ & Hd & Hs & He & _)]]; [done|].
  rewrite decode_snoc, Hd. unfold decode_step. simpl. rewrite He, fmap_app. simpl. by rewrite Hs.
Qed.

Lemma group_ok_single w : group_ok [w].
Proof.
  split; [done| | |].
  - intros ? ? ->%list_elem_of_singleton ->%list_elem_of_singleton. done.
  - intros x ->%list_elem_of_singleton. pose proof (size_pos (w_type w)). unfold NCCL_MAX_DEV_WORK_BATCH_BYTES. simpl length. lia.
  - intros x ->%list_elem_of_singleton _. split; [apply NoDup_singleton|simpl; lia].
Qed.

Lemma is_p2p_snoc g w w' : last g = Some w -> group_ok (g ++ [w']) -> is_p2p (g ++ [w']) <-> is_p2p g.
Proof. intros Hl Hg. destruct g as [|w0 g]; [done|]. done. Qed.

Lemma show_snoc g w : g <> [] -> show (g ++ [w]) = ((show g).1, (show g).2 ++ [w_offset w]).
Proof. destruct g as [|w0 g]; [done|]. intros _. simpl. by rewrite fmap_app. Qed.

(** What the end of [addWorkBatchToPlan] leaves, given the batch it marks. *)
Lemma finish_work c gs0 g w q0 b acc i (n : Z) (G : list (list work)) :
  length (wip_p2pRounds c) = 8%nat -> Forall (fun b => nextJump b = 0) (q0 ++ [b]) ->
  Forall batch_wf q0 -> fusable (q0 ++ [b]) -> 0 <= offsetBitset b < 2 ^ 64 ->
  G = gs0 ++ [g ++ [w]] -> Forall group_ok G ->
  nWorkBatchesP2p c = Z.of_nat (length (filter is_p2p G)) ->
  workBatchQueue c = q0 ++ [b] -> decode q0 = (show <$> gs0, acc) ->
  show (g ++ [w]) = (workType b, funcId b, acc ++ batch_offsets b ++ [w_offset w]) -> nextExtends b = 0 ->
  wip_workBytes c = Z.of_nat (length g) * ncclDevWorkSize (w_type w) ->
  (if decide (w_type w = ncclDevWorkTypeP2p)
   then wip_nP2ps c = Z.of_nat (length g) /\ take (length g) (wip_p2pRounds c) = w_round <$> g else wip_nP2ps c = 0) ->
  0 <= i < 64 -> 0 <= offsetBase b -> w_offset w = offsetBase b + i * ncclDevWorkSize (w_type w) ->
  workType b = workType_code (w_type w) -> (forall j, i <= j -> Z.testbit (offsetBitset b) j = false) ->
  wp (let q := upd_last (fun b => set_bit b i) (workBatchQueue c) in
      let bytes := wip_workBytes c + ncclDevWorkSize (w_type w) in
      if decide (w_type w = ncclDevWorkTypeP2p) then
        rounds ← zset (wip_p2pRounds c) (wip_nP2ps c) (w_round w);
        Ret (MkChannel bytes (wip_nP2ps c + 1) rounds (nWorkBatchesP2p c) q (proxyOpQueue c), n)
      else Ret (MkChannel bytes (wip_nP2ps c) (wip_p2pRounds c) (nWorkBatchesP2p c) q (proxyOpQueue c), n))
    (fun r : Channel * Z => chan_inv r.1 G /\ r.2 = n /\ length (workBatchQueue r.1) = length (q0 ++ [b]) /\ proxyOpQueue r.1 = proxyOpQueue c).
Proof.
  intros Hr8 Hj Hwf Hfu Hbr -> HG Hp2p Hq Hd Hs He Hby Hp Hi Hb0 Hoff Hwt Hbits. rewrite Hq, upd_last_snoc. simpl.
  assert (Forall (fun b => nextJump b = 0) (q0 ++ [set_bit b i])) as Hj'.
  { apply Forall_app in Hj as [? [? _]%Forall_cons]. apply Forall_app. split; [done|]. by repeat constructor. }
  assert (Forall batch_wf (q0 ++ [set_bit b i])) as Hwf'.
  { apply Forall_app. split; [done|]. apply Forall_cons. split; [|done]. split; [by exists (w_type w)|]. simpl.
    unfold u64. rewrite Z.shiftl_1_l, Z.mod_small by (split; [lia|apply Z.pow_lt_mono_r; lia]).
    pose proof (pow2_pos i ltac:(lia)) as Hpi. assert (0 <= Z.lor (offsetBitset b) (2 ^ i)) as H0 by (apply Z.lor_nonneg; lia).
    split.
    - assert (Z.lor (offsetBitset b) (2 ^ i) <> 0); [|lia]. intros E. apply Z.lor_eq_0_iff in E. lia.
    - apply lt_pow2_bits; [lia|done|]. intros j Hj1. rewrite Z.lor_spec, (testbit_high _ 64), Z.pow2_bits_false by lia. done. }
  assert (fusable (q0 ++ [set_bit b i])) as Hfu' by (by eapply fusable_last).
  assert (batch_offsets (set_bit b i) = batch_offsets b ++ [w_offset w]) as Hbo.
  { unfold batch_offsets. simpl. rewrite bits_snoc, fmap_app by done. simpl. by rewrite Hwt, size_code, <- Hoff. }
  assert (forall j, i < j -> Z.testbit (Z.lor (offsetBitset b) (u64 (Z.shiftl 1 i))) j = false) as Hb'.
  { intros j Hj1. rewrite Z.lor_spec, Hbits by lia. unfold u64. rewrite Z.shiftl_1_l, Z.mod_small by
      (split; [lia|apply Z.pow_lt_mono_r; lia]). by rewrite Z.pow2_bits_false by lia. }
  destruct (decide (w_type w = ncclDevWorkTypeP2p)) as [Ht|Ht].
  - destruct Hp as [Hn Htk]. apply Forall_app in HG as HG'. destruct HG' as [_ [Hg _]%Forall_cons].
    destruct (group_p2p _ Hg w) as [_ H8]; [apply elem_of_app; right; constructor|done|]. rewrite length_app in H8. simpl in H8.
    rewrite zset_Ret by lia. simpl. split_and!; [|done|by rewrite !length_app|done]. split; simpl; try done.
    + by rewrite length_insert.
    + right. exists gs0, (g ++ [w]). split; [done|]. exists q0, (set_bit b i), acc, w, i.
      rewrite last_snoc, Hbo, Hs, length_app. simpl. split_and!; try done; try lia.
      rewrite decide_True by done. split; [lia|]. replace (Z.to_nat (wip_nP2ps c)) with (length g) by lia.
      rewrite Nat.add_1_r, (take_S_r _ _ (w_round w)) by (rewrite list_lookup_insert_eq; [done|lia]).
      rewrite fmap_app, <- Htk. simpl. f_equal. by rewrite take_insert_ge by lia.
  - simpl. split_and!; [|done|by rewrite !length_app|done]. split; simpl; try done.
    right. exists gs0, (g ++ [w]). split; [done|]. exists q0, (set_bit b i), acc, w, i.
    rewrite last_snoc, Hbo, Hs, length_app. simpl. split_and!; try done; try lia. by rewrite decide_False.
Qed.

(** Offsets handed out within a plan: 32-bit, ascending along each channel. *)
Definition work_ok (w : work) : Prop := 0 <= w_func w < 2 ^ 15 /\ 0 <= w_offset w < 2 ^ 32.

Lemma filter_snoc {A} (P : A -> Prop) `{!forall x, Decision (P x)} (l : list A) x :
  filter P (l ++ [x]) = filter P l ++ (if decide (P x) then [x] else []).
Proof. rewrite filter_app, filter_cons, filter_nil. done. Qed.

(** A new batch. *)
Lemma add_new c gs w n : chan_inv c gs -> work_ok w -> needs_newBatch c (w_type w) (w_func w) (w_round w) = Ret true ->
  wp (addWorkBatchToPlan c n (w_type w) (w_func w) (w_offset w) (w_round w))
    (fun r => chan_inv r.1 (gs ++ [[w]]) /\ r.2 = n + 1 /\ length (workBatchQueue r.1) = S (length (workBatchQueue c)) /\
       proxyOpQueue r.1 = proxyOpQueue c).
Proof.
  intros Hc [Hf Ho] Hn. pose proof (decode_full c gs Hc) as Hd. destruct Hc as [Hr Hj Hwf Hfu Hg Hp Hcur].
  unfold addWorkBatchToPlan. rewrite Hn. cbn [mbind outcome_bind]. cbv zeta. simpl (true || _). cbv iota beta.
  change (0 / ncclDevWorkSize (w_type w)) with (0 `div` ncclDevWorkSize (w_type w)). rewrite Z.div_0_l by (pose proof (size_pos (w_type w)); lia).
  eapply wpx_mono; [eapply (finish_work (MkChannel 0 0 _ _ (workBatchQueue c ++ [_]) (proxyOpQueue c)) gs [] w (workBatchQueue c) _ [] 0 (n + 1))| |done];
    simpl; try done.
  - apply Forall_app. split; [done|]. by repeat constructor.
  - destruct Hcur as [[_ ->]|(gs0 & g & _ & q0 & b & acc & w0 & i & Hq & _ & _ & _ & He & _)]; [done|].
    rewrite Hq in *. apply fusable_snoc; [done|]. intros. done.
  - simpl. lia.
  - apply Forall_app. split; [done|]. apply Forall_cons. split; [apply group_ok_single|done].
  - rewrite filter_snoc, length_app, Hp. destruct (decide (w_type w = ncclDevWorkTypeP2p)) as [Ht|Ht].
    + rewrite decide_True by (by exists w). simpl. lia.
    + rewrite decide_False; [simpl; lia|]. intros (w' & E & ?). simpl in E. congruence.
  - rewrite Z.mod_small by done. done.
  - by case_decide.
  - simpl. lia.
  - simpl. lia.
  - intros. apply Z.bits_0.
  - intros [c' n'] (H1 & H2 & H3 & H4). simpl in *. split_and!; try done. rewrite H3, length_app. simpl. lia.
Qed.

(** Appending to the batch in progress, through an extension batch or not. *)
Lemma add_append c gs0 g w n : chan_inv c (gs0 ++ [g]) -> work_ok w ->
  needs_newBatch c (w_type w) (w_func w) (w_round w) = Ret false ->
  (forall w', last g = Some w' -> w_offset w' < w_offset w) ->
  wp (addWorkBatchToPlan c n (w_type w) (w_func w) (w_offset w) (w_round w))
    (fun r => chan_inv r.1 (gs0 ++ [g ++ [w]]) /\ r.2 - n = Z.of_nat (length (workBatchQueue r.1)) - Z.of_nat (length (workBatchQueue c)) /\
       proxyOpQueue r.1 = proxyOpQueue c).
Proof.
  intros Hc [Hf Ho] Hn Hlt. pose proof Hc as [Hr Hj Hwf Hfu Hg Hp Hcur].
  destruct Hcur as [[? _]|(gs1 & g1 & E & Hcur)]; [by destruct gs0|]. apply app_inj_tail in E as [<- <-].
  destruct (needs_newBatch_spec c gs0 g w Hc Hcur) as (nb & Hnb & Hok). rewrite Hn in Hnb. injection Hnb as <-.
  destruct (Hok eq_refl) as (Hgw & w0 & Hl & Ht & Hfn). destruct Hcur as (q0 & b & acc & w1 & i & Hq & Hl1 & Hd & Hs & He & Hby & Hp2 & Hi & Hb0 & Hoff & Hbits).
  rewrite Hl in Hl1. injection Hl1 as <-. rewrite Ht in *. specialize (Hlt w0 Hl).
  assert (g <> []) as Hgne by (by destruct g). pose proof (size_pos (w_type w)) as Hsz.
  assert (workType b = workType_code (w_type w) /\ funcId b = w_func w) as [Hwt Hfb].
  { destruct g as [|x g']; [done|]. simpl in Hs. destruct (group_same _ Hgw x w) as [E1 E2]; [constructor|apply elem_of_app; right; constructor|].
    injection Hs as <- <- _. by rewrite E1, E2. }
  assert (Forall group_ok (gs0 ++ [g ++ [w]])) as Hgs.
  { apply Forall_app in Hg as [? _]. apply Forall_app. split; [done|]. by apply Forall_cons. }
  assert (nWorkBatchesP2p c = Z.of_nat (length (filter is_p2p (gs0 ++ [g ++ [w]])))) as Hp'.
  { rewrite Hp, !filter_snoc, !length_app. do 2 f_equal. pose proof (is_p2p_snoc g w0 w Hl Hgw). repeat case_decide; simpl; tauto. }
  unfold addWorkBatchToPlan. rewrite Hn. cbn [mbind outcome_bind]. cbv zeta. rewrite Hq, last_snoc. simpl (false || _). cbv iota beta.
  set (off := u32 (w_offset w - offsetBase b)).
  assert (off = w_offset w - offsetBase b) as Eo by (unfold off, u32; apply Z.mod_small; nia).
  rewrite Hq, Forall_app in Hj. destruct Hj as [Hj0 [Hjb _]%Forall_cons].
  destruct ((63 * ncclDevWorkSize (w_type w) <? off) || negb (off mod ncclDevWorkSize (w_type w) =? 0)) eqn:Eext; cbv iota beta.
  - rewrite Z.div_0_l by lia. rewrite upd_last_snoc.
    eapply wpx_mono; [eapply (finish_work (MkChannel _ _ _ _ ((q0 ++ [_]) ++ [_]) (proxyOpQueue c)) gs0 g w (q0 ++ [set_extends b true]) _ (acc ++ batch_offsets b) 0 (n + 1))| |done];
      simpl; try done.
    + rewrite !Forall_app. by repeat constructor.
    + rewrite Hq, Forall_app in Hwf. apply Forall_app. split; [apply Hwf|]. apply Forall_cons. split; [|done].
      destruct Hwf as [_ [Hwb _]%Forall_cons]. exact Hwb.
    + apply fusable_snoc; [rewrite Hq in Hfu; by eapply fusable_last|]. intros _. simpl. rewrite Hwt, Hfb, Z.mod_small by done. done.
    + simpl. lia.
    + rewrite decode_snoc, Hd. unfold decode_step. simpl. done.
    + rewrite show_snoc, Hs, Hfb, Hwt by done. rewrite Z.mod_small by done. simpl. by rewrite <- app_assoc.
    + simpl. lia.
    + simpl. lia.
    + intros. apply Z.bits_0.
    + intros [c' n'] (H1 & H2 & H3 & H4). simpl in *. split_and!; try done. rewrite H3, H2, !length_app. simpl. lia.
  - apply orb_false_iff in Eext as [E1 E2]. apply Z.ltb_ge in E1. apply negb_false_iff, Z.eqb_eq in E2.
    assert (off = off / ncclDevWorkSize (w_type w) * ncclDevWorkSize (w_type w)) as Eq by dlia.
    assert (i < off / ncclDevWorkSize (w_type w) < 64) as Hi' by nia.
    eapply wpx_mono; [eapply (finish_work c gs0 g w q0 b acc (off / ncclDevWorkSize (w_type w)) n)| |done]; simpl; try done.
    + rewrite Forall_app. by repeat constructor.
    + rewrite Hq, Forall_app in Hwf. apply Hwf.
    + by rewrite Hq in Hfu.
    + rewrite Hq, Forall_app in Hwf. destruct Hwf as [_ [[_ Hwb] _]%Forall_cons]. lia.
    + rewrite show_snoc, Hs by done. simpl. by rewrite <- app_assoc.
    + lia.
    + lia.
    + intros j Hj. apply Hbits. lia.
    + intros [c' n'] (H1 & H2 & H3 & H4). simpl in *. split_and!; try done. rewrite H3, H2. lia.
Qed.

Lemma strongly_sorted_lt (l : list Z) x y l' : StronglySorted Z.lt (l ++ y :: l') -> x ∈ l -> x < y.
Proof.
  induction l as [|a l IH]; intros Hs Hx; [by apply not_elem_of_nil in Hx|].
  inversion Hs as [|? ? Hs' Hall]; subst. apply elem_of_cons in Hx as [->|Hx]; [|by apply IH].
  rewrite List.Forall_forall in Hall. apply Hall, list_elem_of_In, elem_of_app. right. constructor.
Qed.

Lemma add_works_spec ws : forall c gs n, chan_inv c gs -> Forall work_ok ws ->
  StronglySorted Z.lt (w_offset <$> concat gs ++ ws) ->
  wp (add_works c n ws) (fun r => exists gs', chan_inv r.1 gs' /\ concat gs' = concat gs ++ ws /\
    r.2 - n = Z.of_nat (length (workBatchQueue r.1)) - Z.of_nat (length (workBatchQueue c)) /\ proxyOpQueue r.1 = proxyOpQueue c).
Proof.
  induction ws as [|w ws IH]; intros c gs n Hc Hw Hs.
  - simpl. exists gs. rewrite app_nil_r. split_and!; try done. lia.
  - apply Forall_cons in Hw as [Hw Hws]. cbn [add_works]. wp_bind.
    assert (wp (addWorkBatchToPlan c n (w_type w) (w_func w) (w_offset w) (w_round w))
      (fun r => exists gs', chan_inv r.1 gs' /\ concat gs' = concat gs ++ [w] /\
        r.2 - n = Z.of_nat (length (workBatchQueue r.1)) - Z.of_nat (length (workBatchQueue c)) /\ proxyOpQueue r.1 = proxyOpQueue c)) as H1.
    { assert (needs_newBatch c (w_type w) (w_func w) (w_round w) = Ret true \/ exists gs0 g, gs = gs0 ++ [g] /\
        needs_newBatch c (w_type w) (w_func w) (w_round w) = Ret false) as [Hn|(gs0 & g & -> & Hn)].
      { pose proof (ci_cur _ _ Hc) as [[-> Hq]|(gs0 & g & -> & Hcur)].
        - left. unfold needs_newBatch. by rewrite Hq.
        - destruct (needs_newBatch_spec _ _ _ w Hc Hcur) as ([|] & Hn & _); [by left|]. right. eauto. }
      - eapply wpx_mono; [by apply (add_new c gs w n)| |done]. intros [c' n'] (H1 & H2 & H3 & H4). exists (gs ++ [[w]]). simpl in *.
        rewrite concat_app. simpl. split_and!; try done. lia.
      - eapply wpx_mono; [apply (add_append c gs0 g w n); try done| |done].
        + intros w' Hw'. rewrite fmap_app in Hs. simpl in Hs. eapply strongly_sorted_lt; [exact Hs|].
          apply list_elem_of_fmap. exists w'. split; [done|]. rewrite concat_app. simpl. rewrite app_nil_r.
          apply elem_of_app. right. by apply last_in.
        + intros [c' n'] (H1 & H2 & H3). exists (gs0 ++ [g ++ [w]]). rewrite !concat_app in *. simpl in *. rewrite !app_nil_r in *.
          rewrite app_assoc. split_and!; try done. }
    eapply wpx_mono; [exact H1| |done]. intros [c' n'] (gs' & Hc' & Hcat & Hn' & Hpq). simpl in *.
    eapply wpx_mono; [apply (IH c' gs' n'); [done|done|]| |done].
    + rewrite Hcat, <- app_assoc. done.
    + intros [c2 n2] (gs2 & ? & Hcat2 & ? & ?). simpl in *. exists gs2. split; [done|]. rewrite Hcat2, Hcat, <- app_assoc. simpl.
      split_and!; [done|lia|congruence].
Qed.

Lemma empty_channel_inv : chan_inv empty_channel [].
Proof. split; simpl; try done. by left. Qed.

(** (C21) The batches [addWorkBatchToPlan] builds for a channel from any sequence
    of works with ascending 32-bit offsets denote, read back by fused batch,
    exactly those works in order.  Every fused batch has one work type and one
    function, at most 1024 bytes of structs (what the kernel can load), and for
    point-to-point works at most eight, all of different rounds; the counts of
    batches and of point-to-point batches are exact. *)
Theorem addWorkBatchToPlan_decodes ws n : Forall work_ok ws -> StronglySorted Z.lt (w_offset <$> ws) ->
  exists c gs, add_works empty_channel n ws = Ret (c, n + Z.of_nat (length (workBatchQueue c))) /\
    concat gs = ws /\ Forall group_ok gs /\ decode (workBatchQueue c) = (show <$> gs, []) /\
    nWorkBatchesP2p c = Z.of_nat (length (filter is_p2p gs)).
Proof.
  intros Hw Hs. pose proof (add_works_spec ws empty_channel [] n empty_channel_inv Hw Hs) as H.
  apply wp_elim in H as ([c n'] & -> & gs & Hc & Hcat & Hn & _). simpl in *. exists c, gs. split; [do 2 f_equal; lia|].
  split_and!; [done|apply Hc|by apply decode_full|apply Hc].
Qed.

(** Works that need an extension batch (a gap of more than 63 structs), a second
    point-to-point batch (a repeated round) and a batch of another type. *)
Definition example_works : list work :=
  [MkWork ncclDevWorkTypeP2p 3 0 1; MkWork ncclDevWorkTypeP2p 3 96 2; MkWork ncclDevWorkTypeP2p 3 9600 4;
   MkWork ncclDevWorkTypeP2p 3 9648 2; MkWork ncclDevWorkTypeColl 7 9700 (-1)].

Lemma addWorkBatchToPlan_decodes_witness :
  Forall work_ok example_works /\ StronglySorted Z.lt (w_offset <$> example_works) /\
  exists c gs, add_works empty_channel 5 example_works = Ret (c, 5 + Z.of_nat (length (workBatchQueue c))) /\
    concat gs = example_works /\ decode (workBatchQueue c) = (show <$> gs, []).
Proof.
  assert (Forall work_ok example_works) as H1 by (repeat constructor; simpl; lia).
  assert (StronglySorted Z.lt (w_offset <$> example_works)) as H2 by (repeat constructor; simpl; lia).
  split; [exact H1|]. split; [exact H2|]. destruct (addWorkBatchToPlan_decodes example_works 5 H1 H2) as (c & gs & E & Ec & _ & Ed & _).
  exists c, gs. exact (conj E (conj Ec Ed)).
Defined.
