(* ===== verification/FinishPlan.v ===== *)
(** * Finishing a plan: laying out batches and merging proxy operations

    [finishPlan] of src/src/enqueue.cc.  It decides where the work structs are
    stored, places the channels' batches in the kernel arguments round robin, so
    that block [b] finds its first batch at index [b] and each next one by a
    relative jump, and merges the channels' proxy operations by operation
    count. *)
From S2P Require Import Prelude Bitops Device ProxyOp Plan.

(** ** finishPlan *)

Inductive ncclDevWorkStorageType := ncclDevWorkStorageTypeArgs | ncclDevWorkStorageTypeFifo | ncclDevWorkStorageTypePersistent.
#[global] Instance ncclDevWorkStorageType_eq_dec : EqDecision ncclDevWorkStorageType.
Proof. solve_decision. Defined.

(** The fields of [ncclKernelPlan] that [finishPlan] reads and writes; [batches]
    is the array behind [kernelArgs]. *)
Record ncclKernelPlan := MkPlan {
  channelMask : Z; threadPerBlock : Z; nWorkBatches : Z; workBytes : Z; workStorageType : ncclDevWorkStorageType;
  kernelArgsSize : Z; batches : list ncclDevWorkBatch; hasProxyOps : bool; plan_proxyOps : list ncclProxyOp; proxyOpCnt : Z }.

Definition zero_batch : ncclDevWorkBatch := MkBatch 0 0 0 0 0 0.

(** [batchPrev[c]->nextJump = ...], a 14-bit field. *)
Definition set_jump (b : ncclDevWorkBatch) (j : Z) : ncclDevWorkBatch :=
  MkBatch (j mod 2 ^ 14) (nextExtends b) (workType b) (funcId b) (offsetBase b) (offsetBitset b).

Definition set_queue (c : Channel) (q : list ncclDevWorkBatch) : Channel :=
  MkChannel (wip_workBytes c) (wip_nP2ps c) (wip_p2pRounds c) (nWorkBatchesP2p c) q (proxyOpQueue c).
Definition set_proxyOps (c : Channel) (q : list ncclProxyOp) : Channel :=
  MkChannel (wip_workBytes c) (wip_nP2ps c) (wip_p2pRounds c) (nWorkBatchesP2p c) (workBatchQueue c) q.

(** The variables of the round robin; [batchPrev[c]] as an index, -1 for null. *)
Record rr := MkRR { hasBatchMask : Z; wipChannels : list Channel; batchPrev : list Z; batchZero : list ncclDevWorkBatch; batchIx : Z }.

(** The body of the inner loop for channel [c]. *)
Definition rr_place (c : Z) (s : rr) : outcome rr :=
  chan ← zget (wipChannels s) c;
  s ← match workBatchQueue chan with
      | [] => Ret s
      | batch :: rest =>
          prev ← zget (batchPrev s) c;
          bz ← (if prev =? -1 then Ret (batchZero s)
                else b ← zget (batchZero s) prev; zset (batchZero s) prev (set_jump b (batchIx s - prev)));
          bp ← zset (batchPrev s) c (batchIx s);
          bz ← zset bz (batchIx s) batch;
          chans ← zset (wipChannels s) c (set_queue chan rest);
          Ret (MkRR (hasBatchMask s) chans bp bz (batchIx s + 1))
      end;
  chan ← zget (wipChannels s) c;
  Ret (match workBatchQueue chan with
       | [] => MkRR (Z.lxor (hasBatchMask s) (u64 (Z.shiftl 1 c))) (wipChannels s) (batchPrev s) (batchZero s) (batchIx s)
       | _ => s
       end).

(** [do { c = popFirstOneBit(&tmpMask); ... } while (tmpMask != 0)] *)
Fixpoint rr_round (fuel : nat) (tmpMask : Z) (s : rr) : outcome rr :=
  match fuel with
  | O => Stuck
  | S fuel =>
      let '(tmpMask, c) := popFirstOneBit uint64 tmpMask in
      s ← rr_place c s;
      if tmpMask =? 0 then Ret s else rr_round fuel tmpMask s
  end.

Definition rr_loop (fuel : nat) (s : rr) : outcome rr :=
  while_fuel fuel (fun s => negb (hasBatchMask s =? 0)) (fun s => rr_round 64 (hasBatchMask s) s) s.

(** The merge of the channels' proxy operations by [opCount]. *)
Definition uint64_m1 : Z := 2 ^ 64 - 1.
Definition head_id (q : list ncclProxyOp) : Z := match q with [] => uint64_m1 | op :: _ => opCount op end.
(** Move the tag bit to order collectives before p2p's. *)
Definition rot_id (id : Z) : Z := Z.lor (Z.shiftr id 1) (u64 (Z.shiftl id 63)).

Record heads := MkHeads { headIds : list Z; nHeads : Z; channelUbound : Z; any_op : bool }.

Definition scan_heads (chans : list Channel) (hasOps : bool) : outcome heads :=
  for_range 0 MAXCHANNELS (fun c h =>
    chan ← zget chans c;
    let op := negb (bool_decide (proxyOpQueue chan = [])) in
    ids ← zset (headIds h) c (head_id (proxyOpQueue chan));
    Ret (MkHeads ids (if op then nHeads h + 1 else nHeads h) (if op then c + 1 else channelUbound h) (op || any_op h)))
    (MkHeads (replicate 64 0) 0 0 hasOps).

(** The channel with the least head, -1 if none. *)
Definition least_head (ids : list Z) (ubound : Z) : outcome Z :=
  r ← for_range 0 ubound (fun c1 (r : Z * Z) =>
        id ← zget ids c1;
        Ret (if rot_id id <? r.2 then (c1, rot_id id) else r)) (-1, uint64_m1);
  Ret r.1.

Record merging := MkMerge { m_ids : list Z; m_nHeads : Z; m_chans : list Channel; m_out : list ncclProxyOp; m_cnt : Z }.

Definition merge_step (ubound : Z) (m : merging) : outcome merging :=
  c ← least_head (m_ids m) ubound;
  chan ← zget (m_chans m) c;
  match proxyOpQueue chan with
  | [] => Stuck
  | op :: rest =>
      ids ← zset (m_ids m) c (head_id rest);
      chans ← zset (m_chans m) c (set_proxyOps chan rest);
      Ret (MkMerge ids (m_nHeads m - (if decide (rest = []) then 1 else 0)) chans (m_out m ++ [op]) (m_cnt m + 1))
  end.

Definition merge_ops (fuel ubound : nat) (m : merging) : outcome merging :=
  while_fuel fuel (fun m => negb (m_nHeads m =? 0)) (merge_step (Z.of_nat ubound)) m.

Definition finishPlan (fuel : nat) (workArgsBytes : Z) (chans : list Channel) (plan : ncclKernelPlan)
    : outcome (list Channel * ncclKernelPlan) :=
  let batchBytes := nWorkBatches plan * sizeof_ncclDevWorkBatch in
  let tpb := Z.max (threadPerBlock plan) NCCL_MIN_NTHREADS in
  let wst := if sizeof_ncclDevKernelArgs + batchBytes + workBytes plan <=? workArgsBytes
             then ncclDevWorkStorageTypeArgs else workStorageType plan in
  let size := sizeof_ncclDevKernelArgs + batchBytes in
  let size := size + (if decide (wst = ncclDevWorkStorageTypeArgs) then workBytes plan else 0) in
  let size := alignUp size 16 in
  s ← rr_loop fuel (MkRR (channelMask plan) chans (replicate 64 (-1)) (replicate (Z.to_nat (nWorkBatches plan)) zero_batch) 0);
  h ← scan_heads (wipChannels s) (hasProxyOps plan);
  m ← merge_ops fuel (Z.to_nat (channelUbound h)) (MkMerge (headIds h) (nHeads h) (wipChannels s) (plan_proxyOps plan) 0);
  Ret (m_chans m, MkPlan (channelMask plan) tpb (nWorkBatches plan) (workBytes plan) wst size (batchZero s)
                    (any_op h) (m_out m) (m_cnt m)).

(** ** The round robin *)

(** How often a channel was served. *)
Definition cnt (c : Z) (ow : list Z) : nat := length (filter (fun x => x = c) ow).

Lemma cnt_app c l l' : cnt c (l ++ l') = (cnt c l + cnt c l')%nat.
Proof. unfold cnt. by rewrite filter_app, length_app. Qed.
Lemma cnt_snoc c ow x : cnt c (ow ++ [x]) = (cnt c ow + (if decide (x = c) then 1 else 0))%nat.
Proof. unfold cnt. rewrite filter_snoc, length_app. by destruct (decide (x = c)). Qed.
Lemma cnt_nil c ow : cnt c ow = 0%nat <-> c ∉ ow.
Proof.
  unfold cnt. rewrite length_zero_iff_nil. split.
  - intros H Hc. apply (filter_nil_not_elem_of (fun x => x = c) ow c H) in Hc; done.
  - intros Hc. apply filter_none. intros x Hx ->. done.
Qed.

(** [j] is the next index after [i] owned by [c]. *)
Definition next_of (ow : list Z) (c : Z) (i j : nat) : Prop :=
  (i < j)%nat /\ ow !! j = Some c /\ forall k, (i < k < j)%nat -> ow !! k <> Some c.
Definition none_after (ow : list Z) (c : Z) (i : nat) : Prop := forall k, (i < k)%nat -> ow !! k <> Some c.

Lemma popcount_le_64 m : 0 <= m < 2 ^ 64 -> popcount m <= 64.
Proof.
  destruct m as [|p|p]; [done| |lia]. intros [_ Hp]. simpl.
  assert (forall n q, Z.pos q < 2 ^ Z.of_nat n -> pos_popcount q <= Z.of_nat n) as H; [|by apply (H 64%nat)].
  clear. induction n as [|n IH]; intros q Hq; [change (2 ^ Z.of_nat 0) with 1 in Hq; lia|].
  rewrite Nat2Z.inj_succ, Z.pow_succ_r in Hq by lia. destruct q as [q|q|]; cbn [pos_popcount]; [| |lia].
  - specialize (IH q). lia.
  - specialize (IH q). lia.
Qed.

Lemma popAll_nonempty fuel m : m <> 0 -> (0 < length (popAll (S fuel) m))%nat.
Proof. intros Hm. cbn [popAll]. destruct (Z.eqb_spec m 0); [done|]. destruct (popFirstOneBit uint64 m). simpl. lia. Qed.

Lemma sorted_nodup (l : list Z) : StronglySorted Z.lt l -> NoDup l.
Proof.
  induction 1 as [|x l Hs IH Hall]; constructor; [|done]. rewrite List.Forall_forall in Hall.
  intros Hx%list_elem_of_In%Hall. lia.
Qed.
Lemma sum_with_ext {A} (f g : A -> nat) l : (forall x, x ∈ l -> f x = g x) -> sum_list_with f l = sum_list_with g l.
Proof.
  induction l as [|x l IH]; intros H; [done|]. simpl. rewrite H by constructor. rewrite IH; [done|].
  intros y Hy. apply H. by constructor.
Qed.
Lemma sum_cnt_snoc L ow x : NoDup L -> x ∈ L ->
  sum_list_with (fun c => cnt c (ow ++ [x])) L = S (sum_list_with (fun c => cnt c ow) L).
Proof.
  induction L as [|y L IH]; intros Hnd Hx; [by apply not_elem_of_nil in Hx|]. apply NoDup_cons in Hnd as [Hy Hnd]. simpl.
  rewrite cnt_snoc. destruct (decide (x = y)) as [->|Hne].
  - rewrite (sum_with_ext (fun c => cnt c (ow ++ [y])) (fun c => cnt c ow)); [lia|].
    intros z Hz. rewrite cnt_snoc, decide_False; [lia|]. intros ->. done.
  - apply elem_of_cons in Hx as [|Hx]; [done|]. rewrite IH by done. lia.
Qed.
Lemma length_sum_cnt L ow : NoDup L -> (forall x, x ∈ ow -> x ∈ L) -> length ow = sum_list_with (fun c => cnt c ow) L.
Proof.
  intros Hnd. induction ow as [|x ow IH] using rev_ind; intros H.
  - induction L; simpl; [done|]. apply NoDup_cons in Hnd as [_ ?]. rewrite <- IHL; [done|done|]. intros x Hx. by apply not_elem_of_nil in Hx.
  - rewrite sum_cnt_snoc; [|done|apply H, elem_of_app; right; constructor]. rewrite <- IH.
    + rewrite length_app. simpl. lia.
    + intros y Hy. apply H, elem_of_app. by left.
Qed.
Lemma sum_with_lt {A} (f g : A -> nat) l x : (forall y, (f y <= g y)%nat) -> x ∈ l -> (f x < g x)%nat ->
  (sum_list_with f l < sum_list_with g l)%nat.
Proof.
  intros Hle. assert (forall l, (sum_list_with f l <= sum_list_with g l)%nat) as Hl.
  { intros k. induction k as [|y k IH]; simpl; [done|]. specialize (Hle y). lia. }
  induction l as [|y l IH]; intros Hx Hlt; [by apply not_elem_of_nil in Hx|]. simpl.
  apply elem_of_cons in Hx as [->|Hx]; [specialize (Hl l); lia|]. specialize (IH Hx Hlt). specialize (Hle y). lia.
Qed.

Lemma none_after_snoc ow c c' i : c <> c' -> none_after ow c i -> none_after (ow ++ [c']) c i.
Proof.
  intros Hne H k Hk E. apply lookup_app_Some in E as [E|[_ E]]; [by apply (H k)|].
  destruct (k - length ow)%nat as [|m]; simpl in E; [congruence|by destruct m].
Qed.
Lemma next_of_snoc ow c c' i j : next_of ow c i j -> next_of (ow ++ [c']) c i j.
Proof.
  intros (Hij & Hj & Hk). split; [done|]. split; [by apply lookup_app_l_Some|].
  intros k Hk'. rewrite lookup_app_l; [by apply Hk|]. apply lookup_lt_Some in Hj. lia.
Qed.
Lemma next_of_end ow c i : (i < length ow)%nat -> none_after ow c i -> next_of (ow ++ [c]) c i (length ow).
Proof.
  intros Hi H. split; [done|]. split.
  - by rewrite lookup_app_r, Nat.sub_diag by lia.
  - intros k Hk. rewrite lookup_app_l by lia. apply H. lia.
Qed.
Lemma none_after_end ow c x : none_after (ow ++ [x]) c (length ow).
Proof. intros k Hk. rewrite lookup_ge_None_2; [done|]. rewrite length_app. simpl. lia. Qed.
Lemma cnt_take_between c ow i j : (i <= j <= length ow)%nat -> (forall k, (i <= k < j)%nat -> ow !! k <> Some c) ->
  cnt c (take j ow) = cnt c (take i ow).
Proof.
  intros Hij H. rewrite <- (take_drop i (take j ow)), cnt_app, take_take, Nat.min_l by lia.
  assert (cnt c (drop i (take j ow)) = 0)%nat; [|lia]. apply cnt_nil. intros [k Hk]%list_elem_of_lookup_1.
  rewrite lookup_drop in Hk. apply lookup_take_Some in Hk as [Hk Hlt]. apply (H (i + k)%nat); [lia|done].
Qed.

Lemma cnt_take_S c ow i : ow !! i = Some c -> cnt c (take (S i) ow) = S (cnt c (take i ow)).
Proof. intros H. rewrite (take_S_r _ _ _ H), cnt_snoc, decide_True by done. lia. Qed.


Section round_robin.
  Context (chans0 : list Channel) (mask0 : Z) (N : nat).
  Context (Hlen : length chans0 = 64%nat) (Hmask : 0 <= mask0 < 2 ^ 64).

Definition Q (c : Z) : list ncclDevWorkBatch :=
  match chans0 !! Z.to_nat c with Some ch => workBatchQueue ch | None => [] end.

  Context (Hjump : forall c b, b ∈ Q c -> nextJump b = 0).

(** The state after serving the channels [ow] in this order. *)
Record rr_inv (ow : list Z) (s : rr) : Prop := {
  ri_chans : wipChannels s = imap (fun i ch => set_queue ch (drop (cnt (Z.of_nat i) ow) (workBatchQueue ch))) chans0;
  ri_mask c : 0 <= c -> Z.testbit (hasBatchMask s) c = Z.testbit mask0 c && bool_decide (cnt c ow < length (Q c))%nat;
  ri_mask_pos : 0 <= hasBatchMask s;
  ri_own c : c ∈ ow -> 0 <= c /\ Z.testbit mask0 c = true;
  ri_cnt c : (cnt c ow <= length (Q c))%nat;
  ri_prev_len : length (batchPrev s) = 64%nat;
  ri_prev c : 0 <= c < 64 -> exists p, batchPrev s !! Z.to_nat c = Some p /\
    ((p = -1 /\ c ∉ ow) \/ exists i, p = Z.of_nat i /\ ow !! i = Some c /\ none_after ow c i);
  ri_ix : batchIx s = Z.of_nat (length ow);
  ri_len : length (batchZero s) = N;
  ri_content i c : ow !! i = Some c -> exists b, Q c !! cnt c (take i ow) = Some b /\
    ((none_after ow c i /\ batchZero s !! i = Some b) \/
     exists j, next_of ow c i j /\ batchZero s !! i = Some (set_jump b (Z.of_nat j - Z.of_nat i))) }.


Lemma bit_range c : 0 <= c -> Z.testbit mask0 c = true -> 0 <= c < 64.
Proof.
  intros Hc Hb. destruct (Z.lt_ge_cases c 64) as [|Hge]; [lia|]. by rewrite (testbit_high _ 64) in Hb by lia.
Qed.

Lemma chan_lookup c : 0 <= c < 64 -> exists ch, chans0 !! Z.to_nat c = Some ch /\ Q c = workBatchQueue ch.
Proof.
  intros Hc. destruct (lookup_lt_is_Some_2 chans0 (Z.to_nat c)) as [ch Hch]; [lia|]. exists ch. split; [done|]. unfold Q. by rewrite Hch.
Qed.

(** The array after the link from the previous batch of [c] and the new entry. *)
Lemma place_content ow s c b p bz : rr_inv ow s -> Q c !! cnt c ow = Some b -> (length ow < N)%nat ->
  batchPrev s !! Z.to_nat c = Some p ->
  ((p = -1 /\ c ∉ ow /\ bz = batchZero s) \/ exists i b', p = Z.of_nat i /\ ow !! i = Some c /\ none_after ow c i /\
     batchZero s !! i = Some b' /\ bz = <[i := set_jump b' (Z.of_nat (length ow) - p)]> (batchZero s)) ->
  length bz = N /\
  forall i d, (ow ++ [c]) !! i = Some d -> exists b', Q d !! cnt d (take i (ow ++ [c])) = Some b' /\
    ((none_after (ow ++ [c]) d i /\ <[length ow := b]> bz !! i = Some b') \/
     exists j, next_of (ow ++ [c]) d i j /\ <[length ow := b]> bz !! i = Some (set_jump b' (Z.of_nat j - Z.of_nat i))).
Proof.
  intros Hi HQ Hn Hp Hbz. split.
  { destruct Hbz as [(_ & _ & ->)|(i & b' & _ & _ & _ & _ & ->)]; rewrite ?length_insert; apply Hi. }
  intros i d Hd. apply lookup_app_Some in Hd as [Hd|[Hge Hd]].
  - pose proof (lookup_lt_Some _ _ _ Hd) as Hlt. rewrite take_app_le by lia. rewrite list_lookup_insert_ne by lia.
    destruct (ri_content _ _ Hi i d Hd) as (b' & Hb' & Hcase). exists b'. split; [done|].
    destruct (decide (d = c)) as [->|Hne].
    + destruct Hbz as [(_ & Hnin & _)|(i' & b'' & -> & Hi' & Hna' & Hbi' & ->)]; [exfalso; apply Hnin; by eapply list_elem_of_lookup_2|].
      destruct Hcase as [[Hna Hbi]|(j & Hnx & Hbi)].
      * right. exists (length ow). split; [by apply next_of_end|].
        assert (i = i') as <-.
        { destruct (lt_eq_lt_dec i i') as [[Hl|]|Hl]; [exfalso; by eapply Hna|done|exfalso; by eapply Hna']. }
        rewrite Hbi in Hbi'. injection Hbi' as <-. apply list_lookup_insert_eq. rewrite (ri_len _ _ Hi). lia.
      * right. exists j. split; [by apply next_of_snoc|]. rewrite list_lookup_insert_ne; [done|].
        intros ->. destruct Hnx as (Hij & Hj & _). by eapply Hna'.
    + assert (bz !! i = batchZero s !! i) as ->.
      { destruct Hbz as [(_ & _ & ->)|(i' & b'' & -> & Hi' & Hna' & Hbi' & ->)]; [done|].
        rewrite list_lookup_insert_ne; [done|]. intros ->. congruence. }
      destruct Hcase as [[Hna Hbi]|(j & Hnx & Hbi)].
      * left. split; [by apply none_after_snoc|done].
      * right. exists j. split; [by apply next_of_snoc|done].
  - destruct (i - length ow)%nat as [|m] eqn:E; simpl in Hd; [|by destruct m]. injection Hd as <-. replace i with (length ow) by lia.
    exists b. rewrite take_app_length. split; [done|]. left. split; [apply none_after_end|]. apply list_lookup_insert_eq.
    destruct Hbz as [(_ & _ & ->)|(i' & b'' & _ & _ & _ & _ & ->)]; rewrite ?length_insert, (ri_len _ _ Hi); lia.
Qed.

Lemma place_chans ow c ch : chans0 !! Z.to_nat c = Some ch -> 0 <= c ->
  <[Z.to_nat c := set_queue ch (drop (S (cnt c ow)) (workBatchQueue ch))]>
    (imap (fun i ch => set_queue ch (drop (cnt (Z.of_nat i) ow) (workBatchQueue ch))) chans0) =
  imap (fun i ch => set_queue ch (drop (cnt (Z.of_nat i) (ow ++ [c])) (workBatchQueue ch))) chans0.
Proof.
  intros Hch Hc. apply list_eq. intros i. destruct (decide (i = Z.to_nat c)) as [->|Hne].
  - rewrite list_lookup_insert_eq by (rewrite length_imap; by eapply lookup_lt_Some). rewrite list_lookup_imap, Hch. simpl.
    rewrite cnt_snoc, Z2Nat.id, decide_True, Nat.add_1_r by lia. done.
  - rewrite list_lookup_insert_ne by done. rewrite !list_lookup_imap. destruct (chans0 !! i); [|done]. simpl.
    rewrite cnt_snoc, decide_False, Nat.add_0_r by lia. done.
Qed.

Lemma set_queue_twice c q q' : set_queue (set_queue c q) q' = set_queue c q'.
Proof. done. Qed.

Lemma place_prev ow s c : rr_inv ow s -> 0 <= c < 64 -> forall d, 0 <= d < 64 ->
  exists p, <[Z.to_nat c := Z.of_nat (length ow)]> (batchPrev s) !! Z.to_nat d = Some p /\
    ((p = -1 /\ d ∉ ow ++ [c]) \/ exists i, p = Z.of_nat i /\ (ow ++ [c]) !! i = Some d /\ none_after (ow ++ [c]) d i).
Proof.
  intros Hi Hc d Hd. destruct (decide (d = c)) as [->|Hne].
  - exists (Z.of_nat (length ow)). rewrite list_lookup_insert_eq by (rewrite (ri_prev_len _ _ Hi); lia). split; [done|].
    right. exists (length ow). split; [done|]. split; [by rewrite lookup_app_r, Nat.sub_diag by lia|apply none_after_end].
  - rewrite list_lookup_insert_ne by lia. destruct (ri_prev _ _ Hi d Hd) as (p & Hp & Hcase). exists p. split; [done|].
    destruct Hcase as [[-> Hn]|(i & -> & Hi1 & Hi2)].
    + left. split; [done|]. rewrite elem_of_app, list_elem_of_singleton. naive_solver.
    + right. exists i. split; [done|]. split; [by apply lookup_app_l_Some|by apply none_after_snoc].
Qed.

Lemma place_mask m c c' : 0 <= c < 64 -> 0 <= c' -> Z.testbit (Z.lxor m (u64 (Z.shiftl 1 c))) c' =
  if decide (c' = c) then negb (Z.testbit m c') else Z.testbit m c'.
Proof.
  intros Hc Hc'. unfold u64. rewrite Z.shiftl_1_l, Z.mod_small by (split; [lia|apply Z.pow_lt_mono_r; lia]).
  rewrite Z.lxor_spec. destruct (decide (c' = c)) as [->|Hne].
  - rewrite Z.pow2_bits_true by lia. apply xorb_true_r.
  - rewrite Z.pow2_bits_false by lia. apply xorb_false_r.
Qed.

Lemma rr_place_spec ow s c : rr_inv ow s -> (length ow < N)%nat -> 0 <= c -> Z.testbit (hasBatchMask s) c = true ->
  wp (rr_place c s) (fun s' => rr_inv (ow ++ [c]) s' /\ forall d, 0 <= d -> d <> c -> Z.testbit (hasBatchMask s') d = Z.testbit (hasBatchMask s) d).
Proof.
  intros Hi Hn Hc Hbit. pose proof Hbit as Hm. rewrite (ri_mask _ _ Hi) in Hm by done. apply andb_true_iff in Hm as [Hm0 Hcnt].
  apply bool_decide_eq_true in Hcnt. pose proof (bit_range c Hc Hm0) as Hc64.
  destruct (chan_lookup c Hc64) as (ch & Hch & HQ). destruct (lookup_lt_is_Some_2 (Q c) (cnt c ow) Hcnt) as [b Hb].
  destruct (ri_prev _ _ Hi c Hc64) as (p & Hp & Hpc). unfold rr_place.
  assert (zget (wipChannels s) c = Ret (set_queue ch (drop (cnt c ow) (workBatchQueue ch)))) as ->.
  { apply zget_Ret. split; [done|]. rewrite (ri_chans _ _ Hi), list_lookup_imap, Hch. simpl. by rewrite Z2Nat.id. }
  cbn [mbind outcome_bind]. simpl workBatchQueue. rewrite <- HQ, (drop_S _ b) by done.
  rewrite (proj2 (zget_Ret (batchPrev s) c p)) by done. cbn [mbind outcome_bind].
  set (bzm := if p =? -1 then _ else _).
  assert (exists bz, bzm = Ret bz /\ ((p = -1 /\ c ∉ ow /\ bz = batchZero s) \/ exists i b', p = Z.of_nat i /\ ow !! i = Some c /\
    none_after ow c i /\ batchZero s !! i = Some b' /\ bz = <[i := set_jump b' (Z.of_nat (length ow) - p)]> (batchZero s))) as (bz & -> & Hbz).
  { unfold bzm. destruct Hpc as [[-> Hni]|(i & -> & Hoi & Hna)]; [exists (batchZero s); split; [done|by left]|].
    destruct (Z.eqb_spec (Z.of_nat i) (-1)); [lia|]. pose proof (lookup_lt_Some _ _ _ Hoi) as Hil.
    destruct (lookup_lt_is_Some_2 (batchZero s) i) as [b' Hb']; [rewrite (ri_len _ _ Hi); lia|].
    rewrite (proj2 (zget_Ret (batchZero s) (Z.of_nat i) b')) by (rewrite Nat2Z.id; split; [lia|done]). cbn [mbind outcome_bind].
    rewrite zset_Ret by (rewrite (ri_len _ _ Hi); lia). rewrite Nat2Z.id, (ri_ix _ _ Hi). eexists. split; [done|]. right. eauto 10. }
  destruct (place_content ow s c b p bz Hi Hb Hn Hp Hbz) as [Hbl Hcont]. cbn [mbind outcome_bind]. rewrite (ri_ix _ _ Hi).
  rewrite (zset_Ret (batchPrev s)) by (rewrite (ri_prev_len _ _ Hi); lia). cbn [mbind outcome_bind].
  rewrite (zset_Ret bz) by lia. cbn [mbind outcome_bind]. rewrite set_queue_twice, HQ, Nat2Z.id.
  rewrite (ri_chans _ _ Hi), (zset_Ret (imap _ _)) by (rewrite length_imap; lia). cbn [mbind outcome_bind wipChannels].
  rewrite (place_chans ow c ch Hch Hc).
  rewrite (proj2 (zget_Ret (imap _ chans0) c (set_queue ch (drop (S (cnt c ow)) (workBatchQueue ch))))) by
    (split; [done|]; rewrite list_lookup_imap, Hch; simpl; rewrite cnt_snoc, Z2Nat.id, decide_True, Nat.add_1_r by lia; done).
  cbn [mbind outcome_bind wpx]. simpl workBatchQueue.
  assert (forall m, 0 <= m -> (forall d, 0 <= d -> Z.testbit m d = Z.testbit mask0 d && bool_decide (cnt d (ow ++ [c]) < length (Q d))%nat) ->
     rr_inv (ow ++ [c]) (MkRR m (imap (fun i ch => set_queue ch (drop (cnt (Z.of_nat i) (ow ++ [c])) (workBatchQueue ch))) chans0)
       (<[Z.to_nat c := Z.of_nat (length ow)]> (batchPrev s)) (<[length ow := b]> bz) (Z.of_nat (length ow) + 1))) as Hall.
  { intros m Hm Hbits. split; simpl; try done.
    - intros d [Hd|Hd]%elem_of_app; [by apply (ri_own _ _ Hi)|]. apply list_elem_of_singleton in Hd as ->. done.
    - intros d. rewrite cnt_snoc. pose proof (ri_cnt _ _ Hi d). destruct (decide (c = d)) as [->|]; lia.
    - rewrite length_insert. apply Hi.
    - by apply place_prev.
    - rewrite length_app. simpl. lia.
    - by rewrite length_insert. }
  destruct (drop (S (cnt c ow)) (workBatchQueue ch)) as [|b1 rest] eqn:Er.
  - assert (length (Q c) = S (cnt c ow)) as Hl.
    { apply (f_equal length) in Er. rewrite length_drop, <- HQ in Er. simpl in Er. lia. }
    split; [|intros d Hd Hne; simpl; rewrite place_mask, decide_False by done; done]. apply Hall.
    + simpl. apply Z.lxor_nonneg. pose proof (ri_mask_pos _ _ Hi). unfold u64. split; [|done]. intros _. apply Z.mod_pos_bound. lia.
    + intros d Hd. simpl. rewrite place_mask by done. rewrite cnt_snoc. destruct (decide (d = c)) as [->|Hne].
      * rewrite Hbit, Hm0, decide_True by done. symmetry. simpl. apply bool_decide_eq_false. lia.
      * rewrite (ri_mask _ _ Hi) by done. rewrite decide_False by done. by rewrite Nat.add_0_r.
  - assert (length (Q c) > S (cnt c ow))%nat as Hl.
    { apply (f_equal length) in Er. rewrite length_drop, <- HQ in Er. simpl in Er. lia. }
    split; [|done]. apply Hall; [apply Hi|]. intros d Hd. simpl. rewrite (ri_mask _ _ Hi) by done. rewrite cnt_snoc. f_equal.
    destruct (decide (c = d)) as [<-|Hne]; [|by rewrite Nat.add_0_r]. rewrite !bool_decide_eq_true_2 by lia. done.
Qed.

(** The channels of the plan, ascending, and the number of their batches. *)
Definition chan_list : list Z := popAll 64 mask0.

Lemma chan_list_elem c : c ∈ chan_list <-> 0 <= c /\ Z.testbit mask0 c = true.
Proof. apply popAll_elem; [done|]. by apply popcount_le_64. Qed.

Lemma chan_list_nodup : NoDup chan_list.
Proof. apply sorted_nodup, popAll_sorted; [done|]. by apply popcount_le_64. Qed.

  Context (Htotal : sum_list_with (fun c => length (Q c)) chan_list = N).
  Context (Hne : forall c, c ∈ chan_list -> Q c <> []).

Lemma room ow s c : rr_inv ow s -> 0 <= c -> Z.testbit (hasBatchMask s) c = true -> (length ow < N)%nat.
Proof.
  intros Hi Hc Hb. rewrite (ri_mask _ _ Hi) in Hb by done. apply andb_true_iff in Hb as [Hb Hl]. apply bool_decide_eq_true in Hl.
  rewrite <- Htotal, (length_sum_cnt chan_list ow chan_list_nodup) by (intros x Hx; apply chan_list_elem; by apply (ri_own _ _ Hi)).
  apply (sum_with_lt _ _ _ c); [apply Hi|by apply chan_list_elem|done].
Qed.

Lemma rr_round_spec fuel : forall tmp ow s, rr_inv ow s -> 0 < tmp < 2 ^ 64 -> popcount tmp <= Z.of_nat fuel ->
  (forall c, 0 <= c -> Z.testbit tmp c = true -> Z.testbit (hasBatchMask s) c = true) ->
  wp (rr_round fuel tmp s) (rr_inv (ow ++ popAll fuel tmp)).
Proof.
  induction fuel as [|fuel IH]; intros tmp ow s Hi Ht Hp Hsub.
  { destruct tmp as [|p|p]; try lia. pose proof (pos_popcount_pos p). simpl in Hp. lia. }
  cbn [rr_round popAll]. destruct (Z.eqb_spec tmp 0); [lia|]. destruct (popFirstOneBit_u64 tmp Ht) as [-> Hlt].
  destruct (ffs_spec tmp) as (Hf0 & Hf1 & _); [lia|]. wp_bind. set (c := ffs tmp - 1) in *.
  pose proof (Hsub c Hf0 Hf1) as Hc. eapply wpx_mono; [apply (rr_place_spec ow s c Hi); [by eapply room|done|done]| |done].
  intros s' [Hi' Hbits]. pose proof (popcount_land_pred tmp) as Hpp. destruct (Z.eqb_spec (Z.land tmp (tmp - 1)) 0) as [E|E].
  - simpl. rewrite E. destruct fuel; exact Hi'.
  - rewrite cons_middle, app_assoc. apply IH; [done|lia|lia|]. intros d Hd Hb.
    rewrite land_pred_bits in Hb by lia. apply andb_true_iff in Hb as [Hb Hdc]. fold c in Hdc. apply negb_true_iff, Z.eqb_neq in Hdc.
    rewrite Hbits by done. by apply Hsub.
Qed.

Lemma mask_bits_eq ow s : rr_inv ow s -> (forall c, c ∈ chan_list -> (cnt c ow < length (Q c))%nat) -> hasBatchMask s = mask0.
Proof.
  intros Hi H. apply Z.bits_inj'. intros d Hd. rewrite (ri_mask _ _ Hi) by done. destruct (Z.testbit mask0 d) eqn:E; [|done].
  simpl. apply bool_decide_eq_true, H, chan_list_elem. done.
Qed.

Lemma mask_range ow s : rr_inv ow s -> 0 <= hasBatchMask s < 2 ^ 64.
Proof.
  intros Hi. pose proof (ri_mask_pos _ _ Hi). split; [done|]. apply lt_pow2_bits; [lia|done|].
  intros i Hge. rewrite (ri_mask _ _ Hi), (testbit_high mask0 64) by lia. done.
Qed.

(** The whole round robin: it ends with every batch placed, the first batches in
    channel order. *)
Lemma rr_loop_spec fuel s : rr_inv [] s -> (N < fuel)%nat ->
  wp (rr_loop fuel s) (fun s' => exists ow, rr_inv ow s' /\ (forall c, c ∈ chan_list -> cnt c ow = length (Q c)) /\ chan_list `prefix_of` ow).
Proof.
  intros Hs Hf. unfold rr_loop.
  apply (wpx_while (fun s => exists ow, rr_inv ow s /\ (ow = [] \/ chan_list `prefix_of` ow)) (fun s => (N - Z.to_nat (batchIx s))%nat)).
  - exists []. auto.
  - rewrite (ri_ix _ _ Hs). simpl. lia.
  - intros t (ow & Hi & Hpre) Hc. apply negb_true_iff, Z.eqb_neq in Hc. pose proof (mask_range _ _ Hi) as Hm.
    assert (0 < hasBatchMask t) as Hpos by lia. destruct (ffs_spec _ Hpos) as (Hf0 & Hf1 & _). pose proof (room _ _ _ Hi Hf0 Hf1) as Hroom.
    eapply wpx_mono; [apply (rr_round_spec 64 (hasBatchMask t) ow t Hi); [lia|apply popcount_le_64; lia|done]| |done].
    intros t' Hi'. split.
    + exists (ow ++ popAll 64 (hasBatchMask t)). split; [done|]. right. destruct Hpre as [->|Hpre]; [|by apply prefix_app_r].
      rewrite (mask_bits_eq _ _ Hi); [done|]. intros c Hc'. specialize (Hne c Hc'). destruct (Q c); simpl; [done|unfold cnt; simpl; lia].
    + rewrite (ri_ix _ _ Hi), (ri_ix _ _ Hi'), !Nat2Z.id, length_app.
      pose proof (popAll_nonempty 63 (hasBatchMask t) Hc). lia.
  - intros t (ow & Hi & Hpre) Hc. apply negb_false_iff, Z.eqb_eq in Hc. exists ow. split; [done|].
    assert (forall c, c ∈ chan_list -> cnt c ow = length (Q c)) as Hfull.
    { intros c [Hc0 Hcb]%chan_list_elem. pose proof (ri_mask _ _ Hi c Hc0) as H. rewrite Hc, Z.bits_0, Hcb in H. symmetry in H.
      apply bool_decide_eq_false in H. pose proof (ri_cnt _ _ Hi c). lia. }
    split; [done|]. destruct Hpre as [->|]; [|done]. destruct chan_list as [|c l] eqn:E; [done|]. exfalso.
    apply (Hne c); [constructor|]. apply length_zero_iff_nil. rewrite <- Hfull by constructor. done.
Qed.

Lemma rr_inv_init : rr_inv [] (MkRR mask0 chans0 (replicate 64 (-1)) (replicate N zero_batch) 0).
Proof.
  split; cbn [wipChannels hasBatchMask batchPrev batchZero batchIx]; try done.
  - apply list_eq. intros i. rewrite list_lookup_imap. destruct (chans0 !! i) as [[]|]; done.
  - intros c Hc. destruct (Z.testbit mask0 c) eqn:E; [|done]. symmetry. apply bool_decide_eq_true.
    assert (Q c <> []) as H by (by apply Hne, chan_list_elem). destruct (Q c); [done|]. unfold cnt. simpl. lia.
  - lia.
  - intros c H. by apply not_elem_of_nil in H.
  - intros c. unfold cnt. simpl. lia.
  - intros c Hc. exists (-1). split; [rewrite lookup_replicate_2; [done|lia]|]. left. split; [done|]. apply not_elem_of_nil.
  - apply length_replicate.
Qed.

(** The walk of a block: the batches [l] from index [i], each found from the
    previous by its jump, the last with jump 0. *)
Fixpoint chain_at (bz : list ncclDevWorkBatch) (i : nat) (l : list ncclDevWorkBatch) : Prop :=
  match l with
  | [] => False
  | b :: l' =>
      match l' with
      | [] => bz !! i = Some b
      | _ => exists j, (i < j)%nat /\ bz !! i = Some (set_jump b (Z.of_nat j - Z.of_nat i)) /\ chain_at bz j l'
      end
  end.

Lemma rr_chain ow s c : rr_inv ow s -> cnt c ow = length (Q c) -> forall n i, (length ow - i <= n)%nat -> ow !! i = Some c ->
  chain_at (batchZero s) i (drop (cnt c (take i ow)) (Q c)).
Proof.
  intros Hi Hfull. induction n as [|n IH]; intros i Hn Ho; pose proof (lookup_lt_Some _ _ _ Ho) as Hlt; [lia|].
  destruct (ri_content _ _ Hi i c Ho) as (b & Hb & Hcase). rewrite (drop_S _ _ _ Hb). pose proof (cnt_take_S c ow i Ho) as HS.
  destruct Hcase as [[Hna Hbz]|(j & (Hij & Hj & Hbet) & Hbz)].
  - assert (cnt c (take (length ow) ow) = cnt c (take (S i) ow)) as E.
    { apply cnt_take_between; [lia|]. intros k Hk. apply Hna. lia. }
    rewrite firstn_all, Hfull, HS in E. rewrite <- E, drop_all. exact Hbz.
  - pose proof (lookup_lt_Some _ _ _ Hj) as Hjl.
    assert (cnt c (take j ow) = cnt c (take (S i) ow)) as E by (apply cnt_take_between; [lia|]; intros k Hk; apply Hbet; lia).
    specialize (IH j). rewrite E, HS in IH. cbn [chain_at].
    destruct (drop (S (cnt c (take i ow))) (Q c)) as [|b1 l1] eqn:Ed; [exfalso; apply IH; [lia|done]|].
    exists j. split; [done|]. split; [done|]. apply IH; [lia|done].
Qed.

(** Every block [n] finds the batches of the [n]th channel of the plan. *)
Lemma rr_blocks fuel : (N < fuel)%nat ->
  wp (rr_loop fuel (MkRR mask0 chans0 (replicate 64 (-1)) (replicate N zero_batch) 0))
    (fun s => length (batchZero s) = N /\
       wipChannels s = imap (fun i ch => if Z.testbit mask0 (Z.of_nat i) then set_queue ch [] else ch) chans0 /\
       forall n c, chan_list !! n = Some c -> chain_at (batchZero s) n (Q c)).
Proof.
  intros Hf. eapply wpx_mono; [apply rr_loop_spec; [apply rr_inv_init|done]| |done].
  intros s (ow & Hi & Hfull & [ow' Hpre]). split; [apply Hi|]. split.
  - rewrite (ri_chans _ _ Hi). apply list_eq. intros i. rewrite !list_lookup_imap. destruct (chans0 !! i) as [ch|] eqn:E; [|done]. simpl. f_equal.
    assert (Q (Z.of_nat i) = workBatchQueue ch) as HQ by (unfold Q; by rewrite Nat2Z.id, E).
    destruct (Z.testbit mask0 (Z.of_nat i)) eqn:Eb.
    + rewrite Hfull, HQ, drop_all by (apply chan_list_elem; split; [lia|done]). done.
    + rewrite (proj2 (cnt_nil _ _)); [by destruct ch|]. intros [_ Hx]%(ri_own _ _ Hi). congruence.
  - intros n c Hn. pose proof (list_elem_of_lookup_2 _ _ _ Hn) as Hc. assert (ow !! n = Some c) as Ho by (rewrite Hpre; by apply lookup_app_l_Some).
    pose proof (rr_chain ow s c Hi (Hfull c Hc) _ n (le_n _) Ho) as H.
    assert (cnt c (take n ow) = 0)%nat as E; [|by rewrite E, drop_0 in H]. apply cnt_nil.
    intros [k Hk]%list_elem_of_lookup_1. apply lookup_take_Some in Hk as [Hk Hlt]. pose proof (lookup_lt_Some _ _ _ Hn).
    rewrite Hpre, lookup_app_l in Hk by lia. pose proof (NoDup_lookup _ _ _ _ chan_list_nodup Hk Hn). lia.
Qed.
End round_robin.

(** ** The merge of proxy operations *)

Lemma rot_id_eq id : 0 <= id < 2 ^ 64 -> rot_id id = id / 2 + (id mod 2) * 2 ^ 63.
Proof.
  intros Hid. unfold rot_id, u64. rewrite Z.shiftr_div_pow2, Z.shiftl_mul_pow2 by lia. change (2 ^ 1) with 2.
  replace ((id * 2 ^ 63) mod 2 ^ 64) with ((id mod 2) * 2 ^ 63) by (change (2 ^ 64) with (2 * 2 ^ 63); by rewrite <- Zmult_mod_distr_r).
  rewrite Z.lor_comm, <- Z.shiftl_mul_pow2, lor_shiftl_add by (try lia; dlia). rewrite Z.shiftl_mul_pow2 by lia. lia.
Qed.

Lemma rot_id_range id : 0 <= id < uint64_m1 -> 0 <= rot_id id < uint64_m1.
Proof. unfold uint64_m1. intros. rewrite rot_id_eq by lia. dlia. Qed.
Lemma rot_id_max : rot_id uint64_m1 = uint64_m1.
Proof. done. Qed.

Definition op_key (op : ncclProxyOp) : Z := rot_id (opCount op).
Definition op_ok (op : ncclProxyOp) : Prop := 0 <= opCount op < uint64_m1.

(** The search over the heads. *)
Lemma least_head_spec ids ub : 0 <= ub <= Z.of_nat (length ids) ->
  (forall i id, (Z.of_nat i < ub) -> ids !! i = Some id -> 0 <= id <= uint64_m1) ->
  wp (least_head ids ub) (fun c => (c = -1 /\ forall i id, Z.of_nat i < ub -> ids !! i = Some id -> id = uint64_m1) \/
    exists n id, c = Z.of_nat n /\ c < ub /\ ids !! n = Some id /\ id <> uint64_m1 /\
      forall i id', Z.of_nat i < ub -> ids !! i = Some id' -> rot_id id <= rot_id id').
Proof.
  intros Hub Hids. unfold least_head. wp_bind.
  eapply (wpx_for (fun k r => (r = (-1, uint64_m1) /\ forall i id, Z.of_nat i < k -> ids !! i = Some id -> id = uint64_m1) \/
    exists n id, r = (Z.of_nat n, rot_id id) /\ Z.of_nat n < k /\ ids !! n = Some id /\ id <> uint64_m1 /\
      forall i id', Z.of_nat i < k -> ids !! i = Some id' -> rot_id id <= rot_id id')).
  - lia.
  - left. split; [done|]. intros. lia.
  - intros k r Hk Hr. wp_bind. destruct (zget_in_bounds ids k) as (id & -> & Hid); [lia|]. simpl.
    pose proof (Hids (Z.to_nat k) id (ltac:(lia)) Hid) as Hidr.
    assert (forall i, Z.of_nat i < k + 1 -> Z.of_nat i < k \/ i = Z.to_nat k) as Hsplit by lia.
    assert (id <> uint64_m1 -> rot_id id < uint64_m1) as Hlt by (intros; apply rot_id_range; lia).
    destruct Hr as [[-> Hall]|(n & id0 & -> & Hn & Hn0 & Hne & Hmin)]; simpl.
    + destruct (Z.ltb_spec (rot_id id) uint64_m1) as [Hl|Hg].
      * right. exists (Z.to_nat k), id. rewrite Z2Nat.id by lia. split_and!; [done|lia|done|intros ->; rewrite rot_id_max in Hl; lia|].
        intros i id' [Hi| ->]%Hsplit Hi'; [|replace id' with id by congruence; lia]. rewrite (Hall i id' Hi Hi'), rot_id_max. lia.
      * left. split; [done|]. intros i id' [Hi| ->]%Hsplit Hi'; [by eapply Hall|].
        destruct (decide (id = uint64_m1)) as [->|Hn]; [congruence|]. specialize (Hlt Hn). lia.
    + destruct (Z.ltb_spec (rot_id id) (rot_id id0)) as [Hl|Hg].
      * right. exists (Z.to_nat k), id. rewrite Z2Nat.id by lia. split_and!; [done|lia|done| |].
        { intros ->. rewrite rot_id_max in Hl. assert (rot_id id0 < uint64_m1); [|lia]. apply rot_id_range.
          pose proof (Hids n id0 (ltac:(lia)) Hn0). lia. }
        intros i id' [Hi| ->]%Hsplit Hi'; [|replace id' with id by congruence; lia]. specialize (Hmin i id' Hi Hi'). lia.
      * right. exists n, id0. split; [done|]. split; [lia|]. split; [exact Hn0|]. split; [exact Hne|].
        intros i id' [Hi| ->]%Hsplit Hi'; [by eapply Hmin|]. replace id' with id by congruence. lia.
  - intros r [[-> Hall]|(n & id & -> & Hn & H)]; simpl; [by left|]. right. exists n, id. done.
Qed.

Definition nonempty (ch : Channel) : Prop := proxyOpQueue ch <> [].
#[global] Instance nonempty_dec ch : Decision (nonempty ch).
Proof. unfold nonempty. destruct (proxyOpQueue ch); [right; naive_solver|by left]. Defined.

Section merge.
  Context (P0 : nat -> list ncclProxyOp) (out0 : list ncclProxyOp).
  Context (Hop : forall c op, op ∈ P0 c -> op_ok op /\ op_channelId op = Z.of_nat c).
  Context (Hsorted : forall c, StronglySorted (fun a b => op_key a <= op_key b) (P0 c)).

Definition of_channel (c : nat) (l : list ncclProxyOp) : list ncclProxyOp := filter (fun op => op_channelId op = Z.of_nat c) l.

Record merge_inv (ub : Z) (new : list ncclProxyOp) (m : merging) : Prop := {
  mi_len : length (m_chans m) = 64%nat;
  mi_ids : m_ids m = (fun ch => head_id (proxyOpQueue ch)) <$> m_chans m;
  mi_heads : m_nHeads m = Z.of_nat (length (filter nonempty (m_chans m)));
  mi_ub c ch : m_chans m !! c = Some ch -> ub <= Z.of_nat c -> proxyOpQueue ch = [];
  mi_queue c ch : m_chans m !! c = Some ch -> of_channel c new ++ proxyOpQueue ch = P0 c;
  mi_out : m_out m = out0 ++ new;
  mi_cnt : m_cnt m = Z.of_nat (length new);
  mi_sorted : StronglySorted (fun a b => op_key a <= op_key b) new;
  mi_below c ch a b : m_chans m !! c = Some ch -> a ∈ new -> b ∈ proxyOpQueue ch -> op_key a <= op_key b }.

Lemma sorted_snoc (l : list ncclProxyOp) x : StronglySorted (fun a b => op_key a <= op_key b) l ->
  (forall a, a ∈ l -> op_key a <= op_key x) -> StronglySorted (fun a b => op_key a <= op_key b) (l ++ [x]).
Proof.
  induction 1 as [|a l Hs IH Hall]; intros Hx; simpl; [repeat constructor|]. constructor.
  - apply IH. intros b Hb. apply Hx. by constructor.
  - apply List.Forall_app. split; [done|]. repeat constructor. apply Hx. constructor.
Qed.

Lemma sorted_head (l1 : list ncclProxyOp) x l2 y : StronglySorted (fun a b => op_key a <= op_key b) (l1 ++ x :: l2) ->
  y ∈ x :: l2 -> op_key x <= op_key y.
Proof.
  intros Hs. induction l1 as [|a l1 IH]; [|apply IH; by inversion Hs]. inversion Hs as [|? ? _ Hall]; subst.
  intros [->|Hy]%elem_of_cons; [done|]. rewrite List.Forall_forall in Hall. by apply Hall, list_elem_of_In.
Qed.

Lemma filter_insert_len (chans : list Channel) n ch ch' : chans !! n = Some ch -> nonempty ch ->
  Z.of_nat (length (filter nonempty (<[n := ch']> chans))) =
  Z.of_nat (length (filter nonempty chans)) - (if decide (nonempty ch') then 0 else 1).
Proof.
  revert n. induction chans as [|x l IH]; intros [|n] Hn Hne; simplify_eq/=.
  - rewrite !filter_cons. rewrite (decide_True (P := nonempty ch)) by done. destruct (decide (nonempty ch')); simpl; lia.
  - specialize (IH n Hn Hne). rewrite !filter_cons. destruct (decide (nonempty x)); simpl; lia.
Qed.

Definition remaining (ch : Channel) : nat := length (proxyOpQueue ch).
Definition no_ops (ch : Channel) : Prop := proxyOpQueue ch = [].

Lemma sum_insert_lt {A} (f : A -> nat) (l : list A) n x y : l !! n = Some x -> (f y < f x)%nat ->
  (sum_list_with f (<[n := y]> l) < sum_list_with f l)%nat.
Proof.
  revert n. induction l as [|a l IH]; intros [|n] Hn Hlt; simplify_eq/=; [lia|]. specialize (IH n Hn Hlt). lia.
Qed.

Lemma merge_step_spec ub new m : 0 <= ub <= 64 -> merge_inv ub new m -> m_nHeads m <> 0 ->
  wp (merge_step ub m) (fun m' => exists op, merge_inv ub (new ++ [op]) m' /\
    (sum_list_with remaining (m_chans m') < sum_list_with remaining (m_chans m))%nat).
Proof.
  intros Hub Hi Hn. pose proof Hi as [Hl Hids Hh Hu Hq Ho Hc Hs Hb]. unfold merge_step. wp_bind.
  assert (forall c ch op, m_chans m !! c = Some ch -> op ∈ proxyOpQueue ch -> op_ok op /\ op_channelId op = Z.of_nat c) as Hop'.
  { intros c ch op Hch Hin. apply Hop. rewrite <- (Hq c ch Hch). apply elem_of_app. by right. }
  assert (forall i id, m_ids m !! i = Some id -> exists ch, m_chans m !! i = Some ch /\ id = head_id (proxyOpQueue ch)) as Hidc.
  { intros i id Hid. rewrite Hids in Hid. apply list_lookup_fmap_Some in Hid as (ch & -> & Hch). eauto. }
  eapply wpx_mono; [apply (least_head_spec (m_ids m) ub)| |done].
  - rewrite Hids, length_fmap. lia.
  - intros i id _ (ch & Hch & ->)%Hidc. unfold head_id. destruct (proxyOpQueue ch) as [|op l] eqn:E; [unfold uint64_m1; lia|].
    destruct (Hop' i ch op Hch) as [Hok _]; [rewrite E; constructor|]. unfold op_ok in Hok. lia.
  - intros c [[-> Hall]|(n & id & -> & Hlt & Hid & Hne & Hmin)].
    + exfalso. apply Hn. rewrite Hh. rewrite filter_none; [done|]. intros ch [i Hch]%list_elem_of_lookup_1 Hnon. apply Hnon.
      destruct (Z.lt_ge_cases (Z.of_nat i) ub) as [Hlt|Hge]; [|by eapply Hu]. destruct (proxyOpQueue ch) as [|op l] eqn:E; [done|].
      assert (opCount op = uint64_m1) as E1.
      { apply (Hall i); [done|]. rewrite Hids, list_lookup_fmap, Hch. simpl. by rewrite E. }
      destruct (Hop' i ch op Hch) as [Hok _]; [rewrite E; constructor|]. unfold op_ok in Hok. lia.
    + destruct (Hidc n id Hid) as (ch & Hch & ->). pose proof (lookup_lt_Some _ _ _ Hch) as Hnl.
      rewrite (proj2 (zget_Ret (m_chans m) (Z.of_nat n) ch)) by (rewrite Nat2Z.id; split; [lia|done]). cbn [mbind outcome_bind].
      destruct (proxyOpQueue ch) as [|op rest] eqn:E; [done|].
      rewrite (zset_Ret (m_ids m)) by (rewrite Hids, length_fmap; lia). cbn [mbind outcome_bind].
      rewrite (zset_Ret (m_chans m)) by lia. cbn [mbind outcome_bind wpx]. rewrite !Nat2Z.id. exists op.
      destruct (Hop' n ch op Hch) as [Hok Hcid]; [rewrite E; constructor|].
      assert (forall i ch0 b, m_chans m !! i = Some ch0 -> b ∈ proxyOpQueue ch0 -> op_key op <= op_key b) as Hleast.
      { intros i ch0 b Hch0 Hb0. destruct (Z.lt_ge_cases (Z.of_nat i) ub) as [Hlti|Hge];
          [|rewrite (Hu i ch0 Hch0 Hge) in Hb0; by apply not_elem_of_nil in Hb0].
        destruct (proxyOpQueue ch0) as [|op0 l0] eqn:E0; [by apply not_elem_of_nil in Hb0|].
        assert (op_key op <= op_key op0) as H1.
        { specialize (Hmin i (opCount op0) Hlti). rewrite Hids, list_lookup_fmap, Hch0 in Hmin. simpl in Hmin. rewrite E0 in Hmin. by apply Hmin. }
        assert (op_key op0 <= op_key b) as H2; [|lia]. eapply (sorted_head (of_channel i new) op0 l0); [|done].
        rewrite <- E0, (Hq i ch0 Hch0). apply Hsorted. }
      split; [|simpl; apply (sum_insert_lt _ _ _ ch); [done|unfold remaining; rewrite E; simpl; lia]].
      split; simpl.
      * by rewrite length_insert.
      * rewrite Hids, list_fmap_insert. done.
      * rewrite (filter_insert_len _ _ ch) by (done || (unfold nonempty; by rewrite E)). rewrite Hh.
        destruct (decide (nonempty (set_proxyOps ch rest))) as [Hx|Hx]; unfold nonempty in Hx; simpl in Hx;
          destruct (decide (rest = [])); solve [done | lia | by exfalso; auto].
      * intros c ch0 Hch0 Hge. rewrite list_lookup_insert_ne in Hch0 by (intros ->; lia). by eapply Hu.
      * intros c ch0 Hch0. unfold of_channel. rewrite filter_snoc. destruct (decide (n = c)) as [<-|Hnc].
        -- rewrite list_lookup_insert_eq in Hch0 by done. simplify_eq. simpl. rewrite decide_True by done.
           rewrite <- (Hq n ch Hch), E, <- app_assoc. done.
        -- rewrite list_lookup_insert_ne in Hch0 by done. rewrite decide_False by (rewrite Hcid; lia). rewrite app_nil_r. by apply Hq.
      * by rewrite Ho, app_assoc.
      * rewrite Hc, length_app. simpl. lia.
      * apply sorted_snoc; [done|]. intros a Ha. eapply Hb; [exact Hch|done|]. rewrite E. constructor.
      * intros c ch0 a b Hch0 Ha Hb0. destruct (decide (n = c)) as [<-|Hnc].
        -- rewrite list_lookup_insert_eq in Hch0 by done. simplify_eq. simpl in Hb0.
           apply elem_of_app in Ha as [Ha|Ha]; [eapply Hb; [exact Hch|done|rewrite E; by right]|].
           apply list_elem_of_singleton in Ha as ->. eapply Hleast; [exact Hch|]. rewrite E. by right.
        -- rewrite list_lookup_insert_ne in Hch0 by done. apply elem_of_app in Ha as [Ha|Ha]; [by eapply Hb|].
           apply list_elem_of_singleton in Ha as ->. by eapply Hleast.
Qed.

Lemma merge_ops_spec fuel ub m : (ub <= 64)%nat -> merge_inv (Z.of_nat ub) [] m ->
  (sum_list_with remaining (m_chans m) < fuel)%nat ->
  wp (merge_ops fuel ub m) (fun m' => exists new, m_out m' = out0 ++ new /\ m_cnt m' = Z.of_nat (length new) /\
    StronglySorted (fun a b => op_key a <= op_key b) new /\ (forall c, (c < 64)%nat -> of_channel c new = P0 c) /\
    Forall no_ops (m_chans m')).
Proof.
  intros Hub Hi Hf. unfold merge_ops.
  apply (wpx_while (fun m => exists new, merge_inv (Z.of_nat ub) new m) (fun m => sum_list_with remaining (m_chans m))); [by eauto|done| |].
  - intros t (new & Ht) Hc. apply negb_true_iff, Z.eqb_neq in Hc.
    eapply wpx_mono; [apply (merge_step_spec (Z.of_nat ub) new t); [lia|done|done]| |done]. intros t' (op & Ht' & Hlt). eauto.
  - intros t (new & Ht) Hc. apply negb_false_iff, Z.eqb_eq in Hc. exists new.
    assert (forall ch, ch ∈ m_chans t -> proxyOpQueue ch = []) as Hall.
    { rewrite (mi_heads _ _ _ Ht) in Hc. intros ch Hch. destruct (decide (nonempty ch)) as [Hn|Hn].
      - assert (ch ∈ filter nonempty (m_chans t)) as Hin by (by apply list_elem_of_filter).
        destruct (filter nonempty (m_chans t)); [by apply not_elem_of_nil in Hin|simpl in Hc; lia].
      - unfold nonempty in Hn. destruct (proxyOpQueue ch); [done|]. exfalso. by apply Hn. }
    split_and!; [apply Ht|apply Ht|apply Ht| |].
    + intros c Hc64. destruct (lookup_lt_is_Some_2 (m_chans t) c) as [ch Hch]; [rewrite (mi_len _ _ _ Ht); lia|].
      rewrite <- (mi_queue _ _ _ Ht c ch Hch), Hall, app_nil_r; [done|]. by eapply list_elem_of_lookup_2.
    + apply Forall_forall. done.
Qed.
End merge.

(** The scan of the channels before the merge. *)
Lemma scan_heads_spec chans hasOps : length chans = 64%nat ->
  wp (scan_heads chans hasOps) (fun h => headIds h = (fun ch => head_id (proxyOpQueue ch)) <$> chans /\
    nHeads h = Z.of_nat (length (filter nonempty chans)) /\ 0 <= channelUbound h <= 64 /\
    (forall c ch, chans !! c = Some ch -> channelUbound h <= Z.of_nat c -> proxyOpQueue ch = []) /\
    (any_op h = true <-> hasOps = true \/ exists ch, ch ∈ chans /\ nonempty ch)).
Proof.
  intros Hl. unfold scan_heads.
  apply (wpx_for (fun k h => length (headIds h) = 64%nat /\
    take (Z.to_nat k) (headIds h) = (fun ch => head_id (proxyOpQueue ch)) <$> take (Z.to_nat k) chans /\
    nHeads h = Z.of_nat (length (filter nonempty (take (Z.to_nat k) chans))) /\ 0 <= channelUbound h <= k /\
    (forall c ch, chans !! c = Some ch -> Z.of_nat c < k -> channelUbound h <= Z.of_nat c -> proxyOpQueue ch = []) /\
    (any_op h = true <-> hasOps = true \/ exists ch, ch ∈ take (Z.to_nat k) chans /\ nonempty ch))).
  - unfold MAXCHANNELS. lia.
  - cbn [headIds nHeads channelUbound any_op]. rewrite length_replicate. split_and!; try done; try lia.
    split; [by left|]. intros [|(ch & Hch & _)]; [done|]. by apply not_elem_of_nil in Hch.
  - unfold MAXCHANNELS. intros k h Hk (H1 & H2 & H3 & H4 & H5 & H6). wp_bind.
    destruct (zget_in_bounds chans k) as (ch & -> & Hch); [lia|]. cbn [wpx]. wp_bind. rewrite zset_Ret by lia. cbn [wpx headIds nHeads channelUbound any_op].
    assert (Z.to_nat (k + 1) = S (Z.to_nat k)) as -> by lia.
    rewrite (take_S_r chans _ ch Hch), (take_S_r _ _ (head_id (proxyOpQueue ch))) by (apply list_lookup_insert_eq; lia).
    rewrite take_insert_ge, H2, fmap_app, filter_snoc, length_app by lia.
    assert (negb (bool_decide (proxyOpQueue ch = [])) = bool_decide (nonempty ch)) as ->.
    { case_bool_decide as E1; case_bool_decide as E2; unfold nonempty in E2; try done; exfalso; by apply E2. }
    split_and!.
    + by rewrite length_insert.
    + done.
    + destruct (decide (nonempty ch)); case_bool_decide; simpl; lia || done.
    + case_bool_decide; lia.
    + case_bool_decide; lia.
    + intros c ch0 Hc Hlt Hge. destruct (decide (c = Z.to_nat k)) as [->|Hne].
      * rewrite Hch in Hc. injection Hc as <-. case_bool_decide as Hn; [lia|]. unfold nonempty in Hn. destruct (proxyOpQueue ch); [done|].
        exfalso. by apply Hn.
      * apply (H5 c ch0 Hc); [lia|]. case_bool_decide; lia.
    + rewrite orb_true_iff, bool_decide_eq_true, H6. setoid_rewrite elem_of_app. setoid_rewrite list_elem_of_singleton. naive_solver.
  - intros h (H1 & H2 & H3 & H4 & H5 & H6). unfold MAXCHANNELS in *. rewrite !take_ge in * by lia. split_and!; try done; try lia.
    intros c ch Hc. apply H5; [done|]. apply lookup_lt_Some in Hc. lia.
Qed.

(** ** Theorems *)

(** What the scheduling functions hand to [finishPlan]: batches on exactly the
    channels of the mask, counted by [nWorkBatches], and proxy operations queued
    on their channel in launch order. *)
Record plan_ready (chans : list Channel) (plan : ncclKernelPlan) : Prop := {
  pr_len : length chans = 64%nat;
  pr_mask : 0 <= channelMask plan < 2 ^ 64;
  pr_jump c b : b ∈ Q chans c -> nextJump b = 0;
  pr_total : Z.of_nat (sum_list_with (fun c => length (Q chans c)) (chan_list (channelMask plan))) = nWorkBatches plan;
  pr_nonempty c : c ∈ chan_list (channelMask plan) -> Q chans c <> [];
  pr_ops c ch op : chans !! c = Some ch -> op ∈ proxyOpQueue ch -> op_ok op /\ op_channelId op = Z.of_nat c;
  pr_sorted c ch : chans !! c = Some ch -> StronglySorted (fun a b => op_key a <= op_key b) (proxyOpQueue ch) }.

Definition ops_of (chans : list Channel) (c : nat) : list ncclProxyOp :=
  match chans !! c with Some ch => proxyOpQueue ch | None => [] end.

(** Fuel for the loops: the number of batches and of proxy operations. *)
Definition plan_fuel (chans : list Channel) (plan : ncclKernelPlan) : nat :=
  S (Z.to_nat (nWorkBatches plan) + sum_list_with remaining chans).

Lemma sum_imap {A} (f : A -> nat) (g : nat -> A -> A) (l : list A) : (forall i x, f (g i x) = f x) ->
  sum_list_with f (imap g l) = sum_list_with f l.
Proof.
  revert g. induction l as [|x l IH]; intros g H; [done|]. simpl. rewrite H, IH; [done|]. intros i y. apply H.
Qed.

Lemma finishPlan_spec fuel args chans plan : plan_ready chans plan -> (plan_fuel chans plan <= fuel)%nat ->
  wp (finishPlan fuel args chans plan) (fun r =>
    (length (batches r.2) = Z.to_nat (nWorkBatches plan) /\
     forall n c, chan_list (channelMask plan) !! n = Some c -> chain_at (batches r.2) n (Q chans c)) /\
    (exists new, plan_proxyOps r.2 = plan_proxyOps plan ++ new /\ proxyOpCnt r.2 = Z.of_nat (length new) /\
       StronglySorted (fun a b => op_key a <= op_key b) new /\
       (forall c, (c < 64)%nat -> of_channel c new = ops_of chans c)) /\
    (hasProxyOps r.2 = true <-> hasProxyOps plan = true \/ exists ch, ch ∈ chans /\ nonempty ch) /\
    r.2 = MkPlan (channelMask plan) (Z.max (threadPerBlock plan) NCCL_MIN_NTHREADS) (nWorkBatches plan) (workBytes plan)
            (workStorageType r.2) (kernelArgsSize r.2) (batches r.2) (hasProxyOps r.2) (plan_proxyOps r.2) (proxyOpCnt r.2)).
Proof.
  intros [Hl Hm Hj Ht Hne Hop Hso] Hf. unfold plan_fuel in Hf. unfold finishPlan. cbv zeta. wp_bind.
  assert (0 <= nWorkBatches plan) by lia.
  eapply wpx_mono; [apply (rr_blocks chans (channelMask plan) (Z.to_nat (nWorkBatches plan))); try done; lia| |done].
  intros s (Hbl & Hw & Hch). wp_bind.
  assert (forall c ch, wipChannels s !! c = Some ch -> exists ch0, chans !! c = Some ch0 /\ proxyOpQueue ch = proxyOpQueue ch0) as Hws.
  { intros c ch E. rewrite Hw, list_lookup_imap in E. destruct (chans !! c) as [ch0|]; [|done]. exists ch0. split; [done|].
    simpl in E. destruct (Z.testbit _ _); by simplify_eq. }
  assert (length (wipChannels s) = 64%nat) as Hwl by (rewrite Hw, length_imap; lia).
  eapply wpx_mono; [by apply scan_heads_spec| |done]. intros h (H1 & H2 & H3 & H4 & H5). wp_bind.
  assert (forall c op, op ∈ ops_of chans c -> op_ok op /\ op_channelId op = Z.of_nat c) as Hop'.
  { intros c op Hin. unfold ops_of in Hin. destruct (chans !! c) as [ch|] eqn:E; [|by apply not_elem_of_nil in Hin]. by eapply Hop. }
  assert (forall c, StronglySorted (fun a b => op_key a <= op_key b) (ops_of chans c)) as Hso'.
  { intros c. unfold ops_of. destruct (chans !! c) as [ch|] eqn:E; [by eapply Hso|constructor]. }
  eapply wpx_mono; [apply (merge_ops_spec (ops_of chans) (plan_proxyOps plan) Hop' Hso')| |done].
  - lia.
  - rewrite Z2Nat.id by lia. split; cbn [m_chans m_ids m_nHeads m_out m_cnt]; try done.
    + intros c ch E. destruct (Hws c ch E) as (ch0 & E0 & ->). unfold ops_of. by rewrite E0.
    + by rewrite app_nil_r.
    + constructor.
    + intros c ch a b _ Ha. by apply not_elem_of_nil in Ha.
  - cbn [m_chans]. rewrite Hw, sum_imap; [lia|]. intros i x. by destruct (Z.testbit _ _).
  - intros m (new & N1 & N2 & N3 & N4 & _). simpl. split_and!; try done.
    + by exists new.
    + rewrite H5. assert (forall P Q Q' : Prop, (Q <-> Q') -> P \/ Q <-> P \/ Q') as Hor by tauto. apply Hor. split.
      * intros (ch & [i E]%list_elem_of_lookup_1 & Hn). destruct (Hws i ch E) as (ch0 & E0 & Eq). exists ch0.
        split; [by eapply list_elem_of_lookup_2|]. unfold nonempty in *. by rewrite <- Eq.
      * intros (ch & [i E]%list_elem_of_lookup_1 & Hn). destruct (lookup_lt_is_Some_2 (wipChannels s) i) as [ch1 E1].
        { apply lookup_lt_Some in E. lia. } exists ch1. split; [by eapply list_elem_of_lookup_2|].
        destruct (Hws i ch1 E1) as (ch0 & E0 & Eq). unfold nonempty in *. rewrite Eq. congruence.
Qed.

(** (C22) The proxy operations of a plan: [finishPlan] returns, appends to the
    plan's queue exactly the operations of the channels, each channel's in its
    order, sorted so that collectives come first and operation counts ascend;
    counts them; and reports whether there is any. *)
Theorem finishPlan_proxy_order fuel args chans plan : plan_ready chans plan -> (plan_fuel chans plan <= fuel)%nat ->
  exists chans' plan' new, finishPlan fuel args chans plan = Ret (chans', plan') /\
    plan_proxyOps plan' = plan_proxyOps plan ++ new /\ proxyOpCnt plan' = Z.of_nat (length new) /\
    StronglySorted (fun a b => op_key a <= op_key b) new /\
    (forall c, (c < 64)%nat -> of_channel c new = ops_of chans c) /\
    (hasProxyOps plan' = true <-> hasProxyOps plan = true \/ exists ch, ch ∈ chans /\ nonempty ch).
Proof.
  intros Hr Hf. destruct (wp_elim _ _ (finishPlan_spec fuel args chans plan Hr Hf)) as ([chans' plan'] & E & _ & (new & N1 & N2 & N3 & N4) & N5 & _).
  exists chans', plan', new. split_and!; done.
Qed.

(** Two channels with proxy operations (tag bit 1 for p2p) and one batch each. *)
Definition sample_op (count channel nbytes : Z) : ncclProxyOp :=
  MkProxyOp count channel (MkArgs (MkShape nbytes 1 0 0 0 0 0 1 1) zero_kind zero_buffers zero_meta).
Definition ops_channel (ops : list ncclProxyOp) : Channel := MkChannel 0 0 (replicate 8 0) 0 [MkBatch 0 0 1 5 0 1] ops.
Definition ops_chans : list Channel :=
  ops_channel [sample_op 4 0 10; sample_op 7 0 11] :: ops_channel [sample_op 2 1 20; sample_op 6 1 21; sample_op 5 1 22] ::
  replicate 62 empty_channel.
Definition ops_plan : ncclKernelPlan := MkPlan 3 64 2 192 ncclDevWorkStorageTypeFifo 0 [] false [] 0.

Lemma ops_ready : plan_ready ops_chans ops_plan.
Proof.
  assert (forall c ch, ops_chans !! c = Some ch -> (c = 0%nat /\ ch = ops_channel [sample_op 4 0 10; sample_op 7 0 11]) \/
    (c = 1%nat /\ ch = ops_channel [sample_op 2 1 20; sample_op 6 1 21; sample_op 5 1 22]) \/ ch = empty_channel) as Hcases.
  { intros [|[|c]] ch E; [left|right; left|right; right]; [by injection E as <-|by injection E as <-|].
    change (replicate 62 empty_channel !! c = Some ch) in E. by apply lookup_replicate in E as [-> _]. }
  split.
  - reflexivity.
  - simpl. lia.
  - intros c b. unfold Q. destruct (ops_chans !! Z.to_nat c) as [ch|] eqn:E; [|intros H; by apply not_elem_of_nil in H].
    apply Hcases in E as [[_ ->]|[[_ ->]| ->]]; simpl; [intros ->%list_elem_of_singleton; done..|intros H; by apply not_elem_of_nil in H].
  - reflexivity.
  - assert (chan_list (channelMask ops_plan) = [0; 1]) as -> by (vm_compute; reflexivity).
    intros c [->|[->|H]%elem_of_cons]%elem_of_cons; [discriminate..|by apply not_elem_of_nil in H].
  - intros c ch op E Hop. apply Hcases in E as [[-> ->]|[[-> ->]| ->]]; [| |by apply not_elem_of_nil in Hop];
      revert op Hop; apply Forall_forall; repeat constructor; simpl; unfold uint64_m1; lia.
  - intros c ch E. apply Hcases in E as [[_ ->]|[[_ ->]| ->]]; repeat constructor; vm_compute; congruence.
Qed.

Lemma finishPlan_proxy_order_witness : exists chans' plan' new, finishPlan 20 4096 ops_chans ops_plan = Ret (chans', plan') /\
  plan_proxyOps plan' = new /\ StronglySorted (fun a b => op_key a <= op_key b) new /\
  of_channel 1 new = [sample_op 2 1 20; sample_op 6 1 21; sample_op 5 1 22].
Proof.
  destruct (finishPlan_proxy_order 20 4096 ops_chans ops_plan ops_ready ltac:(vm_compute; lia)) as (chans' & plan' & new & E & H1 & _ & H3 & H4 & _).
  exists chans', plan', new. split; [exact E|]. split; [exact H1|]. split; [exact H3|]. exact (H4 1%nat ltac:(lia)).
Defined.

(** ** Budgets *)

Record ncclKernelPlanBudget := MkBudget { inArgsBytes : Z; outArgsBytes : Z }.

Definition testBudget (budget : ncclKernelPlanBudget) (nWorkBatches workBytes : Z) : bool :=
  let batchBytes := nWorkBatches * sizeof_ncclDevWorkBatch in
  (batchBytes + workBytes <=? inArgsBytes budget) ||
  ((batchBytes <=? inArgsBytes budget) && (workBytes <=? outArgsBytes budget)).

(** [ncclLaunchPrepare]'s budget for a plan. *)
Definition plan_budget (workArgsBytes workFifoBytes : Z) (persistent : bool) : ncclKernelPlanBudget :=
  MkBudget (workArgsBytes - sizeof_ncclDevKernelArgs) (if persistent then 2 ^ 30 else workFifoBytes `quot` 2).

(** (C23) A plan within its budget fits where [finishPlan] puts it: the kernel
    arguments, with the work structs when they are stored there, take no more
    than the argument limit, and structs stored outside take no more than half of
    the fifo (or [2^30] bytes for a persistent plan). *)
Theorem finishPlan_within_budget fuel args fifo persistent chans plan : plan_ready chans plan -> (plan_fuel chans plan <= fuel)%nat ->
  args mod 16 = 0 -> workBytes plan mod 16 = 0 -> 0 <= workBytes plan ->
  workStorageType plan <> ncclDevWorkStorageTypeArgs ->
  testBudget (plan_budget args fifo persistent) (nWorkBatches plan) (workBytes plan) = true ->
  exists chans' plan', finishPlan fuel args chans plan = Ret (chans', plan') /\ kernelArgsSize plan' <= args /\
    match workStorageType plan' with
    | ncclDevWorkStorageTypeArgs => 32 + 16 * nWorkBatches plan + workBytes plan <= kernelArgsSize plan'
    | _ => workBytes plan <= (if persistent then 2 ^ 30 else fifo `quot` 2) /\ workStorageType plan' = workStorageType plan
    end.
Proof.
  intros Hr Hf Ha Hw Hw0 Hst Hb. destruct (wp_elim _ _ (finishPlan_spec fuel args chans plan Hr Hf)) as ([chans' plan'] & E & _).
  exists chans', plan'. split; [done|]. unfold testBudget, plan_budget, sizeof_ncclDevKernelArgs, sizeof_ncclDevWorkBatch in Hb. cbn [inArgsBytes outArgsBytes] in Hb.
  unfold finishPlan in E. cbv zeta in E. unfold sizeof_ncclDevKernelArgs, sizeof_ncclDevWorkBatch in E.
  assert (0 <= nWorkBatches plan) by (rewrite <- (pr_total _ _ Hr); lia).
  destruct (rr_loop _ _) as [s| |]; [|done|done]. cbn [mbind outcome_bind] in E. destruct (scan_heads _ _) as [h| |]; [|done|done].
  cbn [mbind outcome_bind] in E. destruct (merge_ops _ _ _) as [m| |]; [|done|done]. cbn [mbind outcome_bind] in E. injection E as _ <-.
  cbn [kernelArgsSize workStorageType]. pose proof (alignUp_spec (32 + nWorkBatches plan * 16 + workBytes plan) 4 ltac:(lia)) as H1.
  pose proof (alignUp_spec (32 + nWorkBatches plan * 16) 4 ltac:(lia)) as H2. change (2 ^ 4) with 16 in *.
  destruct H1 as [[x1 Hx1] H1], H2 as [[x2 Hx2] H2].
  destruct (Z.leb_spec (32 + nWorkBatches plan * 16 + workBytes plan) args) as [Hle|Hgt].
  - rewrite decide_True by done. split; dlia.
  - rewrite decide_False by done. rewrite Z.add_0_r. apply orb_true_iff in Hb as [Hb|[Hb1 Hb2]%andb_true_iff]; [apply Z.leb_le in Hb; lia|].
    apply Z.leb_le in Hb1, Hb2. split; [dlia|]. destruct (workStorageType plan); done.
Qed.

Lemma finishPlan_within_budget_witness : exists chans' plan', finishPlan 20 128 ops_chans ops_plan = Ret (chans', plan') /\ kernelArgsSize plan' <= 128 /\
  workStorageType plan' = ncclDevWorkStorageTypeFifo.
Proof.
  destruct (finishPlan_within_budget 20 128 1024 false ops_chans ops_plan ops_ready ltac:(vm_compute; lia) eq_refl eq_refl ltac:(vm_compute; congruence)
    ltac:(discriminate) eq_refl) as (chans' & plan' & E & H1 & H2).
  exists chans', plan'. split; [exact E|]. split; [exact H1|]. vm_compute in E. injection E as _ <-. reflexivity.
Defined.
