(* ===== verification/CollSched.v ===== *)
(** * Scheduling collectives on channels (src/src/enqueue.cc)

    [scheduleCollTasksToPlan] moves tasks from the planner into the plan being
    built.  It first estimates how many tasks fit the budget and how much traffic
    each channel should carry, then gives every task a run of consecutive
    channels: the elements are divided into cells, the first channel takes what
    is left of its share of traffic, the next ones full shares and the last one
    the rest.  The device finds its part again with [ncclCollCbdPart]. *)
From S2P Require Import Prelude Bitops Device RingAlgo Pat ProxyOp Chunking Proxy Plan FinishPlan.

Definition MinTrafficPerChannel : Z := 16 * 2 ^ 10.

(** [divUp] on [size_t]. *)
Definition udivUp (x y : Z) : outcome Z := if y =? 0 then Stuck else Ret (u64 (x + y - 1) / y).
Definition udiv (x y : Z) : outcome Z := if y =? 0 then Stuck else Ret (x / y).
Definition umod (x y : Z) : outcome Z := if y =? 0 then Stuck else Ret (x mod y).

(** ** Dividing a task over channels *)

(** The local variables that survive the division. *)
Record split := MkSplit {
  sp_channelId : Z; sp_nChannels : Z; sp_nMid : Z; sp_countLo : Z; sp_countMid : Z; sp_countHi : Z;
  sp_cellsLo : Z; sp_cellsHi : Z; sp_elementsPerCell : Z; sp_trafficPerElement : Z }.

(** The number of middle channels, the cells per middle channel and those of the
    last channel, cut to the [nMax] channels there are. *)
Definition mid_channels (cells cellsLo cellsPerChannel channelId nMax : Z) : outcome (Z * Z * Z) :=
  q ← udiv (u64 (cells - cellsLo)) cellsPerChannel;
  cellsHi ← umod (u64 (cells - cellsLo)) cellsPerChannel;
  let nMid := conv int32 q in
  let nChannels := (if cellsLo =? 0 then 0 else 1) + nMid + (if cellsHi =? 0 then 0 else 1) in
  if nMax <? channelId + nChannels then
    let nMid := nMax - channelId - 2 in
    cpc ← udiv (u64 (cells - cellsLo)) (u64 (nMid + 1));
    r ← umod (u64 (cells - cellsLo)) (u64 (nMid + 1));
    Ret (nMid, cpc, u64 (cpc + r))
  else Ret (nMid, cellsPerChannel, cellsHi).

Definition split_cells (count elementSize trafficPerByte trafficPerChannel currentTraffic channelId nMax : Z) : outcome split :=
  c0 ← udivUp MinTrafficPerChannel (u64 trafficPerByte);
  c1 ← udivUp c0 16;
  let cellSize := u64 (c1 * 16) in
  e ← udiv cellSize elementSize;
  let elementsPerCell := conv int32 e in
  cells ← udivUp (u64 (count * elementSize)) cellSize;
  let trafficPerElement := u64 (elementSize * u64 trafficPerByte) in
  let trafficPerCell := u64 (cellSize * u64 trafficPerByte) in
  share ← udivUp trafficPerChannel trafficPerCell;
  let cellsPerChannel := Z.min cells share in
  cellsLo ← (if channelId + 1 =? nMax then Ret cells
             else d ← udivUp (u64 (trafficPerChannel - currentTraffic)) trafficPerCell; Ret (Z.min cells d));
  '(nMid, cellsPerChannel, cellsHi) ← mid_channels cells cellsLo cellsPerChannel channelId nMax;
  let '(cellsHi, nMid) := if (cellsHi =? 0) && negb (nMid =? 0) then (cellsPerChannel, nMid - 1) else (cellsHi, nMid) in
  let '(channelId, cellsLo, cellsHi, nMid) :=
    if cellsLo =? 0 then
      (if nMid =? 0 then (channelId + 1, cellsHi, 0, nMid) else (channelId + 1, cellsPerChannel, cellsHi, nMid - 1))
    else (channelId, cellsLo, cellsHi, nMid) in
  let countMid := if nMid =? 0 then 0 else u64 (cellsPerChannel * elementsPerCell) in
  let countLo := u64 (cellsLo * elementsPerCell) in
  let countHi := u64 (cellsHi * elementsPerCell) in
  let over := u64 (u64 (cells * elementsPerCell) - count) in
  let '(countLo, countHi) := if countHi =? 0 then (u64 (countLo - over), countHi) else (countLo, u64 (countHi - over)) in
  let nChannels := (if countLo =? 0 then 0 else 1) + nMid + (if cellsHi =? 0 then 0 else 1) in
  Ret (MkSplit channelId nChannels nMid countLo countMid countHi cellsLo cellsHi elementsPerCell trafficPerElement).

(** The next task's channel, and the traffic it already has. *)
Definition next_channel (sp : split) (currentTraffic trafficPerChannel nMax : Z) : Z * Z :=
  let '(channelId, currentTraffic) :=
    if negb (sp_countHi sp =? 0) then
      (sp_channelId sp + sp_nChannels sp - 1, u64 (sp_cellsHi sp * sp_elementsPerCell sp * sp_trafficPerElement sp))
    else if negb (sp_nMid sp =? 0) then (sp_channelId sp + sp_nChannels sp, 0)
    else (sp_channelId sp, u64 (currentTraffic + u64 (sp_cellsLo sp * sp_elementsPerCell sp * sp_trafficPerElement sp))) in
  if (trafficPerChannel <=? currentTraffic) && negb (channelId + 1 =? nMax) then (channelId + 1, 0) else (channelId, currentTraffic).

(** ** Work structs and the plan *)

(** The union of [ncclDevWorkColl]. *)
Inductive coll_part :=
  | Cbd (w : ncclDevWorkColl)
  | Collnet (lo hi count chunkCount : Z).

Record ncclWorkList := MkWorkList { wn_type : ncclDevWorkType; wn_size : Z; wn_part : option coll_part; wn_direct : Z }.

(** The fields of [ncclKernelPlan] the schedulers fill in. *)
Record coll_plan := MkCollPlan {
  pl_channelMask : Z; pl_threadPerBlock : Z; pl_kernelFn : Z; pl_specialized : bool; pl_collOpCount : Z; pl_nWorkBatches : Z; pl_workBytes : Z;
  pl_tasks : list ncclTaskColl; pl_works : list ncclWorkList; pl_cleanup : list Z }.

(** The planner, the plan and the channels being built. *)
Record sched := MkSched {
  sd_tasks : list ncclTaskColl; sd_works : list ncclWorkList; sd_nTasksColl : Z; sd_cleanup : list Z;
  sd_channels : list Channel; sd_plan : coll_plan; sd_proxy : proxy_state }.

(** What is read of the communicator; [sc_specialized] is the generated table
    [ncclDevKernelForFuncIsSpecialized], [sc_fuel] and [sc_junk] go to
    [ncclProxySaveOp]. *)
Record sched_comm := MkSchedComm {
  sc_coll : coll_comm; sc_nChannels : Z; sc_nvlsChannels : Z; sc_rings : list (list Z * Z); sc_proxy : proxy_comm;
  sc_specialized : Z -> bool; sc_fuel : nat; sc_junk : ncclPatStep * list Z * list Z }.

Definition set_chans (s : sched) (chans : list Channel) (nWorkBatches : Z) (px : proxy_state) : sched :=
  let p := sd_plan s in
  MkSched (sd_tasks s) (sd_works s) (sd_nTasksColl s) (sd_cleanup s) chans
    (MkCollPlan (pl_channelMask p) (pl_threadPerBlock p) (pl_kernelFn p) (pl_specialized p) (pl_collOpCount p) nWorkBatches (pl_workBytes p)
       (pl_tasks p) (pl_works p) (pl_cleanup p)) px.

Definition add_batch (s : sched) (channelId : Z) (wt : ncclDevWorkType) (devFuncId workOffset p2pRound : Z) : outcome sched :=
  chan ← zget (sd_channels s) channelId;
  '(chan, n) ← addWorkBatchToPlan chan (pl_nWorkBatches (sd_plan s)) wt devFuncId (u32 workOffset) p2pRound;
  chans ← zset (sd_channels s) channelId chan;
  Ret (set_chans s chans n (sd_proxy s)).

(** The operation as the inquiry leaves it, and the state. *)
Definition addProxyOpIfNeeded (comm : sched_comm) (op : ncclProxyOp) (s : sched) : outcome (ncclProxyOp * sched) :=
  k ← ncclProxySaveOp (sc_fuel comm) (sc_junk comm) (sc_proxy comm) true (MkCall op true (sd_proxy s));
  let op := k_op k in
  if k_needed k then
    chan ← zget (sd_channels s) (op_channelId op);
    chans ← zset (sd_channels s) (op_channelId op) (set_proxyOps chan (proxyOpQueue chan ++ [op]));
    Ret (op, set_chans s chans (pl_nWorkBatches (sd_plan s)) (k_state k))
  else Ret (op, set_chans s (sd_channels s) (pl_nWorkBatches (sd_plan s)) (k_state k)).

Definition addProfilerProxyOpIfNeeded (comm : sched_comm) (op : ncclProxyOp) (s : sched) : outcome (ncclProxyOp * sched) :=
  let tmp := op_pattern (op_kd (op_payload op)) in
  '(op, s) ← addProxyOpIfNeeded comm (with_args (set_pattern ncclPatternProfiler) op) s;
  Ret (with_args (set_pattern tmp) op, s).

(** ** The estimate *)

Definition kind_of (t : ncclTaskColl) : Z := 2 * Z.b2z (t_isCollnet t) + Z.b2z (t_isNvls t).

Definition nMaxChannels_of (comm : sched_comm) : list Z := [sc_nChannels comm; sc_nvlsChannels comm; sc_nChannels comm; sc_nvlsChannels comm].

Record estimate := MkEst { es_nPlanColls : Z; es_workBytes : Z; es_traffic : list Z; es_nChannels : list Z }.

Fixpoint estimate_loop (comm : sched_comm) (budget : ncclKernelPlanBudget) (tasks : list ncclTaskColl) (works : list ncclWorkList) (e : estimate)
    : outcome estimate :=
  match tasks with
  | [] => Ret e
  | task :: tasks =>
      match works with
      | [] => Stuck
      | workNode :: works =>
          if negb (testBudget budget (divUp (es_nPlanColls e) 4) (es_workBytes e + wn_size workNode)) then Ret e
          else
            let kind := kind_of task in
            tr ← zget (es_traffic e) kind;
            tr ← zset (es_traffic e) kind (u64 (tr + Z.max MinTrafficPerChannel (t_trafficBytes task)));
            nc ← zget (es_nChannels e) kind;
            mx ← zget (nMaxChannels_of comm) kind;
            nc ← zset (es_nChannels e) kind (Z.min (nc + t_nMaxChannels task) mx);
            estimate_loop comm budget tasks works (MkEst (es_nPlanColls e + 1) (es_workBytes e + wn_size workNode) tr nc)
      end
  end.

(** ** One task *)

(** A chunk size in grains, a 21-bit field. *)
Definition grains_of (proto chunkSize : Z) : Z := (chunkSize / u64 (ncclProtoGrainSize proto)) mod 2 ^ 21.

(** [calcCollChunking] for a part of [count] elements, if there is one: the
    grains of its chunks and its operation. *)
Definition chunk_part (comm : sched_comm) (task : ncclTaskColl) (bytesPerElement count : Z) (direct : Z) : outcome (Z * Z * proxy_args) :=
  if count =? 0 then Ret (0, direct, zero_args)
  else
    '(chunk, flags, op) ← calcCollChunking (sc_coll comm) task 1 (u64 (bytesPerElement * count));
    Ret (grains_of (t_protocol task) chunk, flags, op).

Definition ring_of (comm : sched_comm) (c : Z) : outcome (list Z * Z) := zget (sc_rings comm) c.

(** The algorithm object of a registered ring. *)
Definition make_ringAlgo (comm : sched_comm) (task : ncclTaskColl) (c : Z) (a : proxy_args) : outcome (option ring_object) :=
  if op_reg (op_bf a) && (t_algorithm task =? NCCL_ALGO_RING) then
    rh ← zget (t_recvNetHandles task) c;
    sh ← zget (t_sendNetHandles task) c;
    if negb (rh =? 0) || negb (sh =? 0) then
      '(userRanks, index) ← ring_of comm c;
      srh ← zget (t_srecvNetHandles task) c;
      let s := op_sh a in
      let es := ncclTypeSize (t_datatype task) in
      match t_func task with
      | ncclFuncAllGather =>
          r ← RingAG.construct (t_sendbuff task) (t_recvbuff task) (cc_nRanks (sc_coll comm)) userRanks (op_chunkSteps s) (op_sliceSteps s)
                (op_chunkSize s) (op_sliceSize s) (op_loopOffset s) (op_channelSize s) es (u64 (t_count task * es)) sh rh srh;
          Ret (Some (RingAGObject r))
      | ncclFuncAllReduce =>
          r ← RingAR.construct (t_sendbuff task) (t_recvbuff task) (cc_nRanks (sc_coll comm)) index (op_chunkSteps s) (op_sliceSteps s)
                (op_chunkSize s) (op_sliceSize s) (op_loopOffset s) (op_channelSize s) es sh rh srh;
          Ret (Some (RingARObject r))
      | ncclFuncBroadcast =>
          r ← RingBC.construct (t_sendbuff task) (t_recvbuff task) (cc_rank (sc_coll comm)) (t_root task) (cc_nRanks (sc_coll comm)) userRanks
                (op_chunkSteps s) (op_sliceSteps s) (op_chunkSize s) (op_sliceSize s) (op_loopOffset s) (op_channelSize s) sh rh srh;
          Ret (Some (RingBCObject r))
      | _ => Stuck
      end
    else Ret None
  else Ret None.

(** The operations of the first, middle and last channels. *)
Record ops3 := MkOps3 { op_lo : ncclProxyOp; op_mid : ncclProxyOp; op_hi : ncclProxyOp }.

(** [which] completed for channel [c], and its work and operations added. *)
Definition channel_op (comm : sched_comm) (task : ncclTaskColl) (wt : ncclDevWorkType) (proxyOpId c : Z) (which : ncclProxyOp) (offset size : Z) (s : sched)
    : outcome (ncclProxyOp * sched) :=
  let a := set_part offset size (op_payload which) in
  r ← make_ringAlgo comm task c a;
  let a := set_task (t_id task) (cc_rank (sc_coll comm)) (t_eActivationMask task) true (set_ringAlgo r a) in
  let op := MkProxyOp proxyOpId (u8 c) a in
  s ← add_batch s c wt (t_devFuncId task) (pl_workBytes (sd_plan s)) (-1);
  '(op, s) ← addProxyOpIfNeeded comm op s;
  addProfilerProxyOpIfNeeded comm op s.

(** The body of the loop over the channels of a task. *)
Definition cbd_channel (comm : sched_comm) (task : ncclTaskColl) (wt : ncclDevWorkType) (w : ncclDevWorkColl) (nMid proxyOpId c : Z)
    (st : ops3 * sched) : outcome (ops3 * sched) :=
  let '(ops, s) := st in
  let es := ncclTypeSize (t_datatype task) in
  let lo := channelLo w in
  if c =? lo then
    '(op, s) ← channel_op comm task wt proxyOpId c (op_lo ops) 0 (u64 (countLo w * es)) s;
    Ret (MkOps3 op (op_mid ops) (op_hi ops), s)
  else if c =? channelHi w then
    '(op, s) ← channel_op comm task wt proxyOpId c (op_hi ops) (u64 ((countLo w + nMid * countMid w) * es)) (u64 (countHi w * es)) s;
    Ret (MkOps3 (op_lo ops) (op_mid ops) op, s)
  else
    '(op, s) ← channel_op comm task wt proxyOpId c (op_mid ops) (u64 ((countLo w + (c - lo - 1) * countMid w) * es)) (u64 (countMid w * es)) s;
    Ret (MkOps3 (op_lo ops) op (op_hi ops), s).

(** The loop of a task scheduled through the network switch: every channel gets
    the same operation. *)
Definition collnet_channel (comm : sched_comm) (task : ncclTaskColl) (wt : ncclDevWorkType) (proxyOpId c : Z) (st : ncclProxyOp * sched)
    : outcome (ncclProxyOp * sched) :=
  let '(op, s) := st in
  let op := MkProxyOp proxyOpId (u8 c)
              (set_task (t_id task) (cc_rank (sc_coll comm)) (t_eActivationMask task) true (op_payload op)) in
  s ← add_batch s c wt (t_devFuncId task) (pl_workBytes (sd_plan s)) (-1);
  '(op, s) ← addProxyOpIfNeeded comm op s;
  addProfilerProxyOpIfNeeded comm op s.

(** [plan->collOpCount++] *)
Definition bump_opCount (s : sched) : sched :=
  let p := sd_plan s in
  MkSched (sd_tasks s) (sd_works s) (sd_nTasksColl s) (sd_cleanup s) (sd_channels s)
    (MkCollPlan (pl_channelMask p) (pl_threadPerBlock p) (pl_kernelFn p) (pl_specialized p) (pl_collOpCount p + 1) (pl_nWorkBatches p) (pl_workBytes p)
       (pl_tasks p) (pl_works p) (pl_cleanup p)) (sd_proxy s).

Definition op_id (s : sched) : Z := u64 (Z.shiftl (pl_collOpCount (sd_plan s)) 1).

(** The channel the next task starts on. *)
Record cursor := MkCursor { cu_kindPrev : Z; cu_trafficPerChannel : Z; cu_channelId : Z; cu_currentTraffic : Z }.

(** [None]: the budget is used up. *)
Definition place_collnet (comm : sched_comm) (budget : ncclKernelPlanBudget) (task : ncclTaskColl) (node : ncclWorkList) (s : sched)
    : outcome (option (coll_part * Z * sched)) :=
  let nChannels := t_nMaxChannels task in
  if negb (testBudget budget (pl_nWorkBatches (sd_plan s) + nChannels) (pl_workBytes (sd_plan s) + wn_size node)) then Ret None
  else
    let es := ncclTypeSize (t_datatype task) in
    let bytesPerElement := u64 (es * ncclFuncMaxSendRecvCount (t_func task) (cc_nRanks (sc_coll comm)) 1) in
    '(chunk, direct, op) ← calcCollChunking (sc_coll comm) task nChannels (u64 (bytesPerElement * t_count task));
    let id := op_id s in
    '(_, s) ← for_range 0 (u8 (nChannels - 1) + 1) (collnet_channel comm task (wn_type node) id) (MkProxyOp id 0 op, bump_opCount s);
    Ret (Some (Collnet 0 (u8 (nChannels - 1)) (t_count task) (u32 (chunk / es)), direct mod 4, s)).

Definition place_cbd (comm : sched_comm) (budget : ncclKernelPlanBudget) (task : ncclTaskColl) (node : ncclWorkList) (cu : cursor) (nMax : Z) (s : sched)
    : outcome (option (coll_part * Z * cursor * sched)) :=
  let es := ncclTypeSize (t_datatype task) in
  let perByte := ncclFuncTrafficPerByte (t_func task) (cc_nRanks (sc_coll comm)) * (if t_protocol task =? NCCL_PROTO_LL then 4 else 1) in
  sp ← split_cells (t_count task) es perByte (cu_trafficPerChannel cu) (cu_currentTraffic cu) (cu_channelId cu) nMax;
  if negb (testBudget budget (pl_nWorkBatches (sd_plan s) + sp_nChannels sp) (pl_workBytes (sd_plan s) + wn_size node)) then Ret None
  else
    let lo := u8 (sp_channelId sp) in
    let hi := u8 (sp_channelId sp + sp_nChannels sp - 1) in
    let bytesPerElement := u64 (es * ncclFuncMaxSendRecvCount (t_func task) (cc_nRanks (sc_coll comm)) 1) in
    '(gLo, d, aLo) ← chunk_part comm task bytesPerElement (sp_countLo sp) 0;
    '(gHi, d, aHi) ← chunk_part comm task bytesPerElement (sp_countHi sp) d;
    '(gMid, d, aMid) ← (if sp_nMid sp =? 0 then Ret (0, d, zero_args)
                        else '(chunk, flags, op) ← calcCollChunking (sc_coll comm) task 1 (u64 (bytesPerElement * sp_countMid sp));
                             Ret (grains_of (t_protocol task) chunk, flags, op));
    let w := Build_ncclDevWorkColl lo hi (sp_countLo sp) (sp_countMid sp) (sp_countHi sp) gLo gMid gHi in
    let '(channelId, traffic) := next_channel sp (cu_currentTraffic cu) (cu_trafficPerChannel cu) nMax in
    let id := op_id s in
    '(_, s) ← for_range lo (hi + 1) (cbd_channel comm task (wn_type node) w (sp_nMid sp) id)
                (MkOps3 (MkProxyOp id 0 aLo) (MkProxyOp id 0 aMid) (MkProxyOp id 0 aHi), bump_opCount s);
    Ret (Some (Cbd w, d mod 4, MkCursor (cu_kindPrev cu) (cu_trafficPerChannel cu) channelId traffic, s)).

(** ** The loop over the tasks *)

Definition part_lo (p : coll_part) : Z := match p with Cbd w => channelLo w | Collnet lo _ _ _ => lo end.
Definition part_hi (p : coll_part) : Z := match p with Cbd w => channelHi w | Collnet _ hi _ _ => hi end.

(** The end of an iteration: the plan takes over the head task and its work. *)
Definition commit_task (comm : sched_comm) (task : ncclTaskColl) (node : ncclWorkList) (part : coll_part) (direct : Z) (s : sched) : outcome sched :=
  let p := sd_plan s in
  let mask := Z.lor (pl_channelMask p) (u64 (u64 (Z.shiftl 2 (part_hi part)) - u64 (Z.shiftl 1 (part_lo part)))) in
  let fn := t_devFuncId task in
  _ ← require (t_nCleanupQueueElts task <=? Z.of_nat (length (sd_cleanup s)));
  let n := Z.to_nat (t_nCleanupQueueElts task) in
  let node := MkWorkList (wn_type node) (wn_size node) (Some part) direct in
  Ret (MkSched (tail (sd_tasks s)) (tail (sd_works s)) (sd_nTasksColl s - 1) (drop n (sd_cleanup s)) (sd_channels s)
         (MkCollPlan mask (Z.max (pl_threadPerBlock p) (t_nWarps task * WARP_SIZE))
            (if pl_specialized p then pl_kernelFn p else fn) (if pl_specialized p then true else sc_specialized comm fn)
            (pl_collOpCount p) (pl_nWorkBatches p) (pl_workBytes p + wn_size node)
            (pl_tasks p ++ [task]) (pl_works p ++ [node]) (pl_cleanup p ++ take n (sd_cleanup s))) (sd_proxy s)).

Fixpoint sched_loop (comm : sched_comm) (budget : ncclKernelPlanBudget) (traffic nChannels : list Z) (nPlanColls : nat) (cu : cursor) (s : sched)
    : outcome sched :=
  match nPlanColls with
  | O => Ret s
  | S nPlanColls =>
      match sd_tasks s, sd_works s with
      | [], _ => Ret s
      | _, [] => Stuck
      | task :: _, node :: _ =>
          let kind := kind_of task in
          nMax ← zget (nMaxChannels_of comm) kind;
          cu ← (if negb (kind =? cu_kindPrev cu) then
                  tr ← zget traffic kind; nc ← zget nChannels kind;
                  q ← udiv tr (u64 nc);
                  Ret (MkCursor kind (Z.max MinTrafficPerChannel q) 0 0)
                else Ret cu);
          r ← (if t_isCollnet task then
                 o ← place_collnet comm budget task node s;
                 Ret (match o with Some (part, direct, s) => Some (part, direct, cu, s) | None => None end)
               else place_cbd comm budget task node cu nMax s);
          match r with
          | None => Ret s
          | Some (part, direct, cu, s) =>
              s ← commit_task comm task node part direct s;
              sched_loop comm budget traffic nChannels nPlanColls cu s
          end
      end
  end.

Definition scheduleCollTasksToPlan (comm : sched_comm) (budget : ncclKernelPlanBudget) (s : sched) : outcome sched :=
  e ← estimate_loop comm budget (sd_tasks s) (sd_works s) (MkEst 0 0 [0; 0; 0; 0] [0; 0; 0; 0]);
  sched_loop comm budget (es_traffic e) (es_nChannels e) (Z.to_nat (es_nPlanColls e)) (MkCursor (-1) 0 0 0) s.

(** ** The division covers the task *)

Lemma usmall z : 0 <= z < 2 ^ 64 -> u64 z = z.
Proof. intros. by apply Z.mod_small. Qed.

Lemma udivUp_Ret x y : 0 <= x -> 0 < y -> x + y < 2 ^ 64 -> udivUp x y = Ret (divUp x y).
Proof. intros. unfold udivUp. rewrite (proj2 (Z.eqb_neq y 0)), usmall by lia. by rewrite divUp_div by lia. Qed.

Lemma udiv_Ret x y : 0 < y -> udiv x y = Ret (x / y).
Proof. intros. unfold udiv. by rewrite (proj2 (Z.eqb_neq y 0)) by lia. Qed.

Lemma umod_Ret x y : 0 < y -> umod x y = Ret (x mod y).
Proof. intros. unfold umod. by rewrite (proj2 (Z.eqb_neq y 0)) by lia. Qed.

Lemma conv_int32_small z : 0 <= z < 2 ^ 31 -> conv int32 z = z.
Proof. intros. unfold conv. cbn [ity_signed int32 ity_width]. change (2 ^ (32 - 1)) with (2 ^ 31). rewrite Z.mod_small; lia. Qed.

(** What a correct division of [count] elements over the channels from
    [channelId] on below [nMax] is. *)
Record split_ok (count channelId nMax : Z) (sp : split) : Prop := {
  so_channel : sp_channelId sp = channelId;
  so_channels : sp_nChannels sp = 1 + sp_nMid sp + (if sp_countHi sp =? 0 then 0 else 1);
  so_fits : channelId + sp_nChannels sp <= nMax;
  so_mid : 0 <= sp_nMid sp /\ (sp_nMid sp = 0 -> sp_countMid sp = 0) /\ (sp_countHi sp = 0 -> sp_nMid sp = 0);
  so_midpos : sp_nMid sp <> 0 -> 0 < sp_countMid sp;
  so_counts : 0 < sp_countLo sp /\ 0 <= sp_countMid sp /\ 0 <= sp_countHi sp;
  so_total : sp_countLo sp + sp_nMid sp * sp_countMid sp + sp_countHi sp = count;
}.

(** The cells of the three kinds of channels. *)
Record cells_ok (cells channelId nMax cellsLo nMid cpc cellsHi : Z) : Prop := {
  co_mid : 0 <= nMid; co_lo : 0 < cellsLo; co_cpc : 0 <= cpc; co_hi : 0 <= cellsHi;
  co_total : cellsLo + nMid * cpc + cellsHi = cells;
  co_fits : channelId + 1 + nMid + (if cellsHi =? 0 then 0 else 1) <= nMax;
  co_pos : nMid <> 0 -> 0 < cpc;
}.

Lemma mid_channels_spec cells cellsLo cpc0 channelId nMax : 0 < cellsLo <= cells -> cells < 2 ^ 62 -> 0 < cpc0 -> cells / cpc0 < 2 ^ 31 ->
  0 <= channelId < nMax -> nMax <= 64 -> (channelId + 1 = nMax -> cellsLo = cells) ->
  exists nMid cpc cellsHi, mid_channels cells cellsLo cpc0 channelId nMax = Ret (nMid, cpc, cellsHi) /\ cells_ok cells channelId nMax cellsLo nMid cpc cellsHi.
Proof.
  intros Hlo Hc Hcpc Hq Hch Hmax Hlast. unfold mid_channels. rewrite (usmall (cells - cellsLo)) by lia. set (r := cells - cellsLo) in *.
  rewrite (udiv_Ret r cpc0), (umod_Ret r cpc0) by done. cbn [mbind outcome_bind].
  assert (0 <= r / cpc0 <= cells / cpc0) as Hrq by (split; [apply Z.div_pos; lia|apply Z.div_le_mono; lia]).
  rewrite conv_int32_small by lia. rewrite (proj2 (Z.eqb_neq cellsLo 0)) by lia.
  pose proof (Z.div_mod r cpc0 ltac:(lia)) as Hdm. pose proof (Z.mod_pos_bound r cpc0 Hcpc) as Hm. set (q := r / cpc0) in *. set (h := r mod cpc0) in *.
  destruct (Z.ltb_spec nMax (channelId + (1 + q + (if h =? 0 then 0 else 1)))) as [Hov|Hfit].
  - assert (channelId + 1 <> nMax) as Hnl.
    { intros E. specialize (Hlast E). assert (q = 0 /\ h = 0) as [-> ->] by nia. change (0 =? 0) with true in Hov. lia. }
    rewrite (usmall (nMax - channelId - 2 + 1)) by lia. set (n := nMax - channelId - 2) in *. rewrite (udiv_Ret r (n + 1)), (umod_Ret r (n + 1)) by lia. cbn [mbind outcome_bind].
    assert (n + 2 <= r) as Hr by (destruct (Z.eqb_spec h 0); nia).
    pose proof (Z.div_mod r (n + 1) ltac:(lia)) as Hd. pose proof (Z.mod_pos_bound r (n + 1) ltac:(lia)) as Hm'.
    assert (1 <= r / (n + 1)) as H1 by (apply Z.div_le_lower_bound; lia). set (c := r / (n + 1)) in *. set (k := r mod (n + 1)) in *.
    assert (c <= r) by nia. rewrite usmall by lia. exists n, c, (c + k). split; [done|]. split; try lia. destruct (Z.eqb_spec (c + k) 0); lia.
  - exists q, cpc0, h. split; [done|]. split; try lia.
Qed.

(** The cell of a type and a traffic factor. *)
Lemma cell_size_spec tpb : 0 < tpb < 2 ^ 40 -> exists c1, (c0 ← udivUp MinTrafficPerChannel (u64 tpb); udivUp c0 16) = Ret c1 /\ 0 < c1 <= 1024.
Proof.
  intros Ht. rewrite (usmall tpb) by lia. unfold MinTrafficPerChannel. change (16 * 2 ^ 10) with 16384. rewrite udivUp_Ret by lia. cbn [mbind outcome_bind].
  pose proof (divUp_spec 16384 tpb ltac:(lia) ltac:(lia)) as [H0 H1]. assert (0 < divUp 16384 tpb) by nia. assert (divUp 16384 tpb <= 16384) by nia.
  rewrite udivUp_Ret by lia. eexists. split; [done|]. pose proof (divUp_spec (divUp 16384 tpb) 16 ltac:(lia) ltac:(lia)). lia.
Qed.

(** From cells to elements: the last used channel gives up the excess. *)
Lemma counts_of_cells cells epc count channelId nMax cellsLo nMid cpc cellsHi : cells_ok cells channelId nMax cellsLo nMid cpc cellsHi ->
  (cellsHi = 0 -> nMid = 0) -> 0 < epc -> 0 < count -> (cells - 1) * epc < count <= cells * epc -> cells * epc < 2 ^ 62 ->
  let cm := if nMid =? 0 then 0 else u64 (cpc * epc) in
  let l := u64 (cellsLo * epc) in let h := u64 (cellsHi * epc) in let over := u64 (u64 (cells * epc) - count) in
  let '(l, h) := if h =? 0 then (u64 (l - over), h) else (l, u64 (h - over)) in
  0 < l /\ 0 <= cm /\ 0 <= h /\ (h = 0 <-> cellsHi = 0) /\ l + nMid * cm + h = count /\ (nMid = 0 -> cm = 0) /\ (nMid <> 0 -> 0 < cm).
Proof.
  intros [H1 H2 H3 H4 Htot Hfit Hpos] Hz He Hc Hb Hbig. assert (0 <= nMid * cpc) as Hm0 by (apply Z.mul_nonneg_nonneg; lia).
  assert (cellsLo * epc + nMid * (cpc * epc) + cellsHi * epc = cells * epc) as Htot' by (rewrite <- Htot; ring).
  assert (0 <= nMid * (cpc * epc)) as Hm1 by (apply Z.mul_nonneg_nonneg; [lia|apply Z.mul_nonneg_nonneg; lia]).
  assert (epc <= cellsLo * epc) as Hl1 by nia. assert (0 <= cellsHi * epc) as Hh1 by nia.
  assert (nMid <> 0 -> 0 <= cpc * epc <= nMid * (cpc * epc)) as Hm2 by (intros Hn; assert (0 <= cpc * epc) by (apply Z.mul_nonneg_nonneg; lia); nia).
  rewrite (usmall (cells * epc)), (usmall (cells * epc - count)), (usmall (cellsLo * epc)), (usmall (cellsHi * epc)) by lia. cbv zeta.
  assert ((if nMid =? 0 then 0 else u64 (cpc * epc)) = if nMid =? 0 then 0 else cpc * epc) as -> by (destruct (Z.eqb_spec nMid 0); [done|rewrite usmall; lia]).
  assert (nMid * (if nMid =? 0 then 0 else cpc * epc) = nMid * (cpc * epc)) as -> by (destruct (Z.eqb_spec nMid 0) as [->|]; lia).
  assert (0 <= (if nMid =? 0 then 0 else cpc * epc)) by (destruct (Z.eqb_spec nMid 0); lia).
  assert (nMid = 0 -> (if nMid =? 0 then 0 else cpc * epc) = 0) as Hmz by (by intros ->).
  assert (nMid <> 0 -> 0 < (if nMid =? 0 then 0 else cpc * epc)) as Hmp by (intros Hn; rewrite (proj2 (Z.eqb_neq _ _) Hn); specialize (Hpos Hn); nia).
  set (cm := if nMid =? 0 then 0 else cpc * epc) in *. clearbody cm.
  assert (cellsHi * epc = 0 <-> cellsHi = 0) as Hiff by (rewrite Z.mul_eq_0; lia).
  destruct (Z.eqb_spec (cellsHi * epc) 0) as [E|E].
  - apply Hiff in E. specialize (Hz E). rewrite Hz in *. rewrite usmall by lia. split_and!; try lia; try done.
  - assert (epc <= cellsHi * epc) by (assert (cellsHi <> 0) by tauto; nia). rewrite usmall by lia. split_and!; try lia; done.
Qed.

(** The size of an element: 1, 2, 4 or 8 bytes. *)
Definition elt_size (es : Z) : Prop := es = 1 \/ es = 2 \/ es = 4 \/ es = 8.

Lemma elt_size_type t : elt_size (ncclTypeSize t).
Proof. unfold elt_size. destruct t; simpl; lia. Qed.

Lemma cells_bound cells cellSize bytes tpb tpc share : 0 < tpb -> 0 < cellSize -> 0 < cells -> (cells - 1) * cellSize < bytes -> bytes * tpb <= 2 ^ 20 * tpc ->
  tpc <= share * (cellSize * tpb) -> 0 < share -> cells / Z.min cells share < 2 ^ 31.
Proof.
  intros Ht Hs Hc Hb Htr Hsh Hs0. destruct (Z.min_spec cells share) as [[_ ->]|[_ ->]]; [rewrite Z.div_same by lia; lia|].
  apply Z.div_lt_upper_bound; [done|]. set (t := cellSize * tpb) in *. assert (0 < t) by (unfold t; nia).
  assert ((cells - 1) * t < bytes * tpb) as H1 by (unfold t; nia). assert ((cells - 1) * t < 2 ^ 20 * share * t) as H2 by lia.
  assert (cells - 1 < 2 ^ 20 * share) by nia. lia.
Qed.

Section split.
Context (count es tpb tpc cur channelId nMax : Z).
Context (Hes : elt_size es) (Htpb : 0 < tpb < 2 ^ 24) (Hcount : 0 < count) (Hbytes : count * es < 2 ^ 60).
Context (Htpc : 2 ^ 14 <= tpc < 2 ^ 62) (Htraffic : count * es * tpb <= 2 ^ 20 * tpc).
Context (Hch : 0 <= channelId < nMax) (HnMax : nMax <= 64).
Context (Hcur : 0 <= cur) (Hroom : cur < tpc \/ channelId + 1 = nMax).

Lemma split_cells_spec : exists sp, split_cells count es tpb tpc cur channelId nMax = Ret sp /\ split_ok count channelId nMax sp.
Proof.
  unfold split_cells. destruct (cell_size_spec tpb ltac:(lia)) as (c1 & Hc1 & Hc1').
  destruct (udivUp MinTrafficPerChannel (u64 tpb)) as [c0| |]; cbn [mbind outcome_bind] in *; try done. rewrite Hc1. cbn [mbind outcome_bind].
  assert (0 < es <= 8) as Hes' by (destruct Hes; lia). rewrite (usmall (c1 * 16)) by lia. rewrite (udiv_Ret (c1 * 16) es) by lia. cbn [mbind outcome_bind].
  assert (exists epc, c1 * 16 / es = epc /\ c1 * 16 = epc * es /\ 0 < epc <= 2 ^ 14) as (epc & -> & Hepc & Hepc').
  { destruct Hes as [-> | [-> | [-> | ->]]]; [exists (c1 * 16)|exists (c1 * 8)|exists (c1 * 4)|exists (c1 * 2)]; split_and!; dlia. }
  rewrite conv_int32_small by lia. rewrite (usmall (count * es)) by nia. rewrite (udivUp_Ret (count * es)) by nia. cbn [mbind outcome_bind].
  pose proof (divUp_spec (count * es) (c1 * 16) ltac:(nia) ltac:(lia)) as [_ Hcells]. set (cells := divUp (count * es) (c1 * 16)) in *.
  assert (0 < cells) as Hc0 by nia. rewrite (usmall tpb) by lia. rewrite (usmall (c1 * 16 * tpb)) by nia. assert (0 < c1 * 16 * tpb < 2 ^ 40) as Htc by nia.
  rewrite (udivUp_Ret tpc) by lia. cbn [mbind outcome_bind]. pose proof (divUp_spec tpc (c1 * 16 * tpb) ltac:(lia) ltac:(lia)) as [_ Hshare].
  pose proof (divUp_pos tpc (c1 * 16 * tpb) ltac:(lia) ltac:(lia)) as Hshare0. set (share := divUp tpc (c1 * 16 * tpb)) in *.
  assert (cells * epc < 2 ^ 62) as Hce by nia. assert ((cells - 1) * epc < count <= cells * epc) as Hcnt.
  { rewrite Hepc in Hcells. clear -Hcells Hes'. nia. }
  assert (exists cellsLo, (if channelId + 1 =? nMax then Ret cells else d ← udivUp (u64 (tpc - cur)) (c1 * 16 * tpb); Ret (Z.min cells d)) = Ret cellsLo /\
    0 < cellsLo <= cells /\ (channelId + 1 = nMax -> cellsLo = cells)) as (cellsLo & -> & Hlo & Hlast).
  { destruct (Z.eqb_spec (channelId + 1) nMax) as [E|E]; [exists cells; split_and!; done || lia|]. rewrite (usmall (tpc - cur)) by lia.
    rewrite udivUp_Ret by lia. cbn [mbind outcome_bind]. pose proof (divUp_pos (tpc - cur) (c1 * 16 * tpb) ltac:(lia) ltac:(lia)). eexists. split; [done|]. lia. }
  cbn [mbind outcome_bind]. assert (cells < 2 ^ 62) by nia.
  destruct (mid_channels_spec cells cellsLo (Z.min cells share) channelId nMax) as (nMid & cpc & cellsHi & -> & Hok); try done; try lia.
  { apply (cells_bound cells (c1 * 16) (count * es) tpb tpc share); lia. }
  cbn [mbind outcome_bind]. clear Hc1 Hshare Hshare0 Htc Hcells.
  assert (exists cellsHi' nMid', (if (cellsHi =? 0) && negb (nMid =? 0) then (cpc, nMid - 1) else (cellsHi, nMid)) = (cellsHi', nMid') /\
    cells_ok cells channelId nMax cellsLo nMid' cpc cellsHi' /\ (cellsHi' = 0 -> nMid' = 0)) as (cellsHi' & nMid' & -> & Hok' & Hz).
  { destruct Hok as [? ? ? ? ? Hf Hp]. destruct (Z.eqb_spec cellsHi 0) as [->|Hne]; [|exists cellsHi, nMid; split; [done|split; [|lia]]; split; try done].
    - destruct (Z.eqb_spec nMid 0) as [->|Hn]; cbn [andb negb]; [exists 0, 0; split; [done|split; [|lia]]; by split|].
      specialize (Hp Hn). exists cpc, (nMid - 1). split; [done|]. change (0 =? 0) with true in Hf. split; [|lia]. split; try lia. rewrite (proj2 (Z.eqb_neq cpc 0)) by lia. lia.
    - by rewrite (proj2 (Z.eqb_neq _ _) Hne). }
  rewrite (proj2 (Z.eqb_neq cellsLo 0)) by lia.
  pose proof (counts_of_cells cells epc count channelId nMax cellsLo nMid' cpc cellsHi' Hok' Hz ltac:(lia) Hcount Hcnt Hce) as Hfin. cbv zeta in Hfin.
  destruct (if u64 (cellsHi' * epc) =? 0 then _ else _) as [l h]. destruct Hfin as (H1 & H2 & H3 & H4 & H5 & H6 & H7). eexists. split; [reflexivity|].
  rewrite (proj2 (Z.eqb_neq l 0)) by lia. assert ((if cellsHi' =? 0 then 0 else 1) = (if h =? 0 then 0 else 1)) as Hhi.
  { destruct (Z.eqb_spec cellsHi' 0), (Z.eqb_spec h 0); tauto || done. }
  destruct Hok' as [? ? ? ? ? Hf Hp]. rewrite Hhi in *. split; cbn [sp_channelId sp_nChannels sp_nMid sp_countLo sp_countMid sp_countHi]; try done; try lia.
Qed.
End split.

Lemma next_channel_spec count channelId nMax sp cur tpc : split_ok count channelId nMax sp -> 0 <= channelId < nMax -> 0 <= cur -> 0 < tpc ->
  let '(c', cur') := next_channel sp cur tpc nMax in 0 <= c' < nMax /\ 0 <= cur' /\ (cur' < tpc \/ c' + 1 = nMax).
Proof.
  intros [H1 H2 H3 (H4 & H5 & H6) _ _ _] Hch Hcur Htpc. unfold next_channel.
  set (q := if negb (sp_countHi sp =? 0) then _ else _).
  assert (0 <= q.1 < nMax /\ 0 <= q.2) as [Hq1 Hq2].
  { pose proof (Z.mod_pos_bound) as Hm. unfold q, u64. destruct (Z.eqb_spec (sp_countHi sp) 0) as [E|E]; cbn [negb].
    - specialize (H6 E). rewrite H6 in *. change (0 =? 0) with true. cbn [negb fst snd]. split; [lia|]. apply Hm. lia.
    - cbn [fst snd]. split; [lia|]. apply Hm. lia. }
  destruct q as [c' cur']. cbn [fst snd] in *. destruct (Z.leb_spec tpc cur'), (Z.eqb_spec (c' + 1) nMax); cbn [andb negb]; lia.
Qed.

(** ** What an inquiry leaves alone *)

(** The result of [m], if there is one, satisfies [P]. *)
Definition ensures {A} (m : outcome A) (P : A -> Prop) : Prop := forall a, m = Ret a -> P a.

Lemma ensures_ret {A} (a : A) (P : A -> Prop) : P a -> ensures (Ret a) P.
Proof. by intros H b [= <-]. Qed.
Lemma ensures_bind {A B} (m : outcome A) (f : A -> outcome B) (R : A -> Prop) (P : B -> Prop) :
  ensures m R -> (forall a, R a -> ensures (f a) P) -> ensures (m ≫= f) P.
Proof. intros Hm Hf b. destruct m as [a| |]; [|done|done]. cbn [mbind outcome_bind]. by apply Hf, Hm. Qed.
Lemma ensures_any {A} (m : outcome A) : ensures m (fun _ => True).
Proof. done. Qed.
Lemma ensures_zset {A} (l : list A) i x : ensures (zset l i x) (fun l' => length l' = length l).
Proof. intros l'. unfold zset. repeat case_match; try done. intros [= <-]. apply length_insert. Qed.
Lemma ensures_for {S} (I : S -> Prop) lo hi (body : Z -> S -> outcome S) s : I s -> (forall i s, I s -> ensures (body i s) I) -> ensures (for_range lo hi body s) I.
Proof.
  intros Hs Hb. unfold for_range. generalize (Z.to_nat (hi - lo)) as n. intros n. revert lo s Hs. induction n as [|n IH]; intros lo s Hs; cbn [for_n]; [by apply ensures_ret|].
  eapply ensures_bind; [by apply Hb|]. intros s' Hs'. by apply IH.
Qed.

(** An inquiry may set the peer, the steps of a PAT schedule and the counters. *)
Record same_part (a b : proxy_args) : Prop := {
  sm_kind : op_kd a = op_kd b; sm_buffers : op_bf a = op_bf b;
  sm_shape : op_nbytes (op_sh a) = op_nbytes (op_sh b) /\ op_chunkSize (op_sh a) = op_chunkSize (op_sh b) /\ op_sliceSize (op_sh a) = op_sliceSize (op_sh b) /\
    op_loopSize (op_sh a) = op_loopSize (op_sh b) /\ op_loopOffset (op_sh a) = op_loopOffset (op_sh b) /\ op_channelSize (op_sh a) = op_channelSize (op_sh b);
  sm_steps : op_sliceSteps (op_sh a) = op_sliceSteps (op_sh b) /\ op_chunkSteps (op_sh a) = op_chunkSteps (op_sh b);
}.

Record kept_by (k k' : call) : Prop := {
  kb_count : opCount (k_op k') = opCount (k_op k); kb_channel : op_channelId (k_op k') = op_channelId (k_op k);
  kb_part : same_part (op_payload (k_op k')) (op_payload (k_op k));
  kb_pools : xs_pools (k_state k') = xs_pools (k_state k);
  kb_counter : length (xs_workCounter (k_state k')) = length (xs_workCounter (k_state k));
}.

Lemma kept_by_refl k : kept_by k k.
Proof. by split. Qed.

Lemma kept_by_trans k1 k2 k3 : kept_by k1 k2 -> kept_by k2 k3 -> kept_by k1 k3.
Proof. intros [? ? [? ? ? ?] ? ?] [? ? [? ? ? ?] ? ?]. split; try congruence. split; try congruence; intuition congruence. Qed.

Lemma kept_args k f n : (forall a, same_part (f a) a) -> kept_by k (MkCall (with_args f (k_op k)) n (k_state k)).
Proof. intros Hf. by split; cbn [k_op k_state with_args opCount op_channelId op_payload]. Qed.

Lemma same_peer p r a : same_part (set_peerRank p r a) a.
Proof. by split. Qed.
Lemma same_nsteps n a : same_part (set_nsteps n a) a.
Proof. by split. Qed.

Lemma SaveProxy_inquire comm ch send peer ci k k0 : kept_by k0 k -> ensures (SaveProxy comm ch send peer ci true k) (kept_by k0).
Proof.
  intros Hk. unfold SaveProxy. destruct (peer <? 0); [by apply ensures_ret|]. destruct (pc_peers ch send peer ci) as [cn|]; [|done].
  destruct (cn_transport cn); [|done]. cbn [negb]. destruct (cn_progress cn); cbn [negb]; apply ensures_ret; (eapply kept_by_trans; [exact Hk|]); apply kept_args; intros; apply same_peer.
Qed.

Lemma save_all_inquire comm ch l k k0 : kept_by k0 k -> ensures (save_all comm ch true l k) (kept_by k0).
Proof.
  revert k. induction l as [|[[send peer] ci] l IH]; intros k Hk; cbn [save_all]; [by apply ensures_ret|].
  eapply ensures_bind; [by apply SaveProxy_inquire|]. exact IH.
Qed.

Lemma incWorkCounter_keeps k k0 : kept_by k0 k -> ensures (incWorkCounter k) (kept_by k0).
Proof.
  intros Hk. unfold incWorkCounter. eapply ensures_bind; [apply ensures_any|]. intros w _. cbv zeta. eapply ensures_bind; [apply ensures_zset|]. intros ws Hws.
  apply ensures_ret. eapply kept_by_trans; [exact Hk|]. by split.
Qed.

Lemma pat_save_inquire comm ch up r s k k0 : kept_by k0 k -> ensures (pat_save comm ch true up r s k) (kept_by k0).
Proof.
  intros Hk. unfold pat_save. apply ensures_for; [done|]. intros i k' Hk'. eapply ensures_bind; [apply ensures_any|]. intros d _.
  eapply ensures_bind; [apply ensures_any|]. intros ns _. eapply (ensures_bind _ _ (kept_by k0)).
  - destruct (negb (ns =? 0)); [|by apply ensures_ret]. apply SaveProxy_inquire. eapply kept_by_trans; [exact Hk'|]. apply kept_args. intros. apply same_nsteps.
  - intros k2 Hk2. eapply ensures_bind; [apply ensures_any|]. intros nr _. destruct (negb (nr =? 0)); [|by apply ensures_ret]. apply SaveProxy_inquire.
    eapply kept_by_trans; [exact Hk2|]. apply kept_args. intros. apply same_nsteps.
Qed.

Lemma inquire_keeps fuel junk comm k : ensures (ncclProxySaveOp fuel junk comm true k) (kept_by k).
Proof.
  unfold ncclProxySaveOp. eapply ensures_bind; [apply ensures_any|]. intros ch _. cbv zeta. set (k1 := MkCall (k_op k) false (k_state k)).
  assert (kept_by k k1) as Hk1 by (by split).
  destruct (op_pattern (op_kd (op_payload (k_op k)))); try (by apply save_all_inquire);
    try (by eapply ensures_bind; [apply ensures_any|]; intros r _; eapply (ensures_bind _ _ (kept_by k));
         [destruct r; [by apply SaveProxy_inquire|by apply ensures_ret]|]; intros k2 Hk2; eapply ensures_bind; [apply ensures_any|]; intros b _;
         destruct b; [by apply SaveProxy_inquire|by apply ensures_ret]);
    try (eapply ensures_bind; [apply ensures_any|]; intros d0 _; eapply ensures_bind; [apply ensures_any|]; intros d1 _; eapply ensures_bind; [apply ensures_any|]; intros d2 _;
         eapply (ensures_bind _ _ (kept_by k)); [case_decide; [by apply ensures_ret|by apply save_all_inquire]|]; intros k2 Hk2; case_decide; [by apply ensures_ret|by apply save_all_inquire]).
  - eapply ensures_bind; [apply ensures_any|]; intros d1 _. eapply ensures_bind; [apply ensures_any|]; intros d2 _. by apply save_all_inquire.
  - eapply ensures_bind; [apply ensures_any|]; intros ? _. eapply ensures_bind; [apply ensures_any|]; intros [c t] _.
    eapply ensures_bind; [apply ensures_any|]; intros [r s] _. by apply pat_save_inquire.
  - eapply ensures_bind; [apply ensures_any|]; intros ? _. eapply ensures_bind; [apply ensures_any|]; intros [[c asd] t] _.
    eapply ensures_bind; [apply ensures_any|]; intros [r s] _. by apply pat_save_inquire.
  - destruct (_ =? _); [by apply ensures_ret|by apply SaveProxy_inquire].
  - destruct (_ =? _); [by apply ensures_ret|by apply SaveProxy_inquire].
  - destruct (px_profiler comm (k_op k)); [|by apply incWorkCounter_keeps]. unfold SaveProxyProfiler. eapply ensures_bind; [apply ensures_any|]. intros cn _.
    assert (kept_by k (MkCall (k_op k1) true (k_state k1))) by (by split). destruct (px_persistent comm); [by apply ensures_ret|by apply incWorkCounter_keeps].
Qed.
