(* ===== verification/CollPlan.v ===== *)
(** * The plan built from collectives

    Proofs about [scheduleCollTasksToPlan] of CollSched.v: every task it takes is
    divided completely over its channels, the batches of each channel are those
    of exactly the tasks that use it, and the proxy operations of a channel carry
    the same part of the data that the device computes for itself. *)
From S2P Require Import Prelude Bitops Device RingAlgo Pat ProxyOp Chunking Proxy PatCount Plan FinishPlan CollSched.

(** ** Adding works to the channels of a plan *)

Lemma set_proxyOps_id ch : set_proxyOps ch (proxyOpQueue ch) = ch.
Proof. by destruct ch. Qed.

Lemma needs_newBatch_ops ch q wt fn round : needs_newBatch (set_proxyOps ch q) wt fn round = needs_newBatch ch wt fn round.
Proof. done. Qed.

(** The channel's result depends neither on the plan's batch count nor on the
    proxy operations. *)
Lemma addWorkBatchToPlan_frame ch n m q wt fn off round : addWorkBatchToPlan (set_proxyOps ch q) n wt fn off round =
  ('(ch', k) ← addWorkBatchToPlan ch m wt fn off round; Ret (set_proxyOps ch' q, n + (k - m))).
Proof.
  unfold addWorkBatchToPlan. rewrite needs_newBatch_ops. destruct (needs_newBatch ch wt fn round) as [nb| |]; [|done|done]. cbn [mbind outcome_bind].
  change (workBatchQueue (set_proxyOps ch q)) with (workBatchQueue ch).
  set (off' := if nb then 0 else _). set (ext := (63 * ncclDevWorkSize wt <? off') || _).
  assert (n = n + (m - m)) as Hn by lia. assert (n + 1 = n + (m + 1 - m)) as Hn1 by lia.
  destruct (nb || ext), nb, (decide (wt = ncclDevWorkTypeP2p)); cbn [wip_workBytes wip_nP2ps wip_p2pRounds workBatchQueue proxyOpQueue set_proxyOps];
    try (destruct (zset _ _ _) as [r| |]; [|done|done]); cbn [mbind outcome_bind set_proxyOps]; rewrite <- ?Hn, <- ?Hn1; done.
Qed.

Lemma add_works_snoc ch n ws w : add_works ch n (ws ++ [w]) =
  ('(ch, n) ← add_works ch n ws; addWorkBatchToPlan ch n (w_type w) (w_func w) (w_offset w) (w_round w)).
Proof.
  revert ch n. induction ws as [|v ws IH]; intros ch n; cbn [app add_works].
  - cbn [mbind outcome_bind]. destruct (addWorkBatchToPlan _ _ _ _ _ _) as [[ch' n']| |]; done.
  - destruct (addWorkBatchToPlan _ _ _ _ _ _) as [[ch' n']| |]; [|done|done]. apply IH.
Qed.

(** A function of channels changed at one. *)
Definition at_chan {A} (c : Z) (f : A -> A) (g : Z -> A) (x : Z) : A := if x =? c then f (g x) else g x.

Lemma at_chan_eq {A} c (f : A -> A) g : at_chan c f g c = f (g c).
Proof. unfold at_chan. by rewrite Z.eqb_refl. Qed.
Lemma at_chan_ne {A} c (f : A -> A) g x : x <> c -> at_chan c f g x = g x.
Proof. intros. unfold at_chan. by rewrite (proj2 (Z.eqb_neq x c)). Qed.

Definition batches_at (chans : list Channel) (c : Z) : list ncclDevWorkBatch :=
  match chans !! Z.to_nat c with Some ch => workBatchQueue ch | None => [] end.

Definition total_batches (chans : list Channel) : nat := sum_list_with (fun ch => length (workBatchQueue ch)) chans.

Lemma total_insert chans i ch ch' : chans !! i = Some ch ->
  (total_batches (<[i := ch']> chans) + length (workBatchQueue ch) = total_batches chans + length (workBatchQueue ch'))%nat.
Proof.
  revert i. unfold total_batches. induction chans as [|x chans IH]; intros [|i] H; try done; simpl in *; [injection H as ->; lia|]. specialize (IH i H). lia.
Qed.

(** The state of a plan in progress: on each channel the batches of the works
    [ws c], whose offsets are below [bnd c]; and proxy operations of which [R]
    holds, in order of their counts up to [key c]. *)
Record sched_inv (s : sched) (ws : Z -> list work) (bnd key : Z -> Z) (R : Z -> ncclProxyOp -> Prop) : Prop := {
  si_len : length (sd_channels s) = 64%nat;
  si_chan c : 0 <= c < 64 -> exists ch ch0 d, sd_channels s !! Z.to_nat c = Some ch /\ add_works empty_channel 0 (ws c) = Ret (ch0, d) /\
    ch = set_proxyOps ch0 (proxyOpQueue ch);
  si_works c : 0 <= c < 64 -> Forall work_ok (ws c) /\ StronglySorted Z.lt (w_offset <$> ws c) /\ Forall (fun w => w_offset w < bnd c) (ws c);
  si_batches : pl_nWorkBatches (sd_plan s) = Z.of_nat (total_batches (sd_channels s));
  si_ops c ch op : 0 <= c < 64 -> sd_channels s !! Z.to_nat c = Some ch -> op ∈ proxyOpQueue ch -> R c op /\ op_key op <= key c;
  si_sorted c ch : 0 <= c < 64 -> sd_channels s !! Z.to_nat c = Some ch -> StronglySorted (fun a b => op_key a <= op_key b) (proxyOpQueue ch);
  si_counter : length (xs_workCounter (sd_proxy s)) = 64%nat;
}.

(** A plan that has just been begun. *)
Lemma empty_inv s bnd key R : sd_channels s = replicate 64 empty_channel -> pl_nWorkBatches (sd_plan s) = 0 -> length (xs_workCounter (sd_proxy s)) = 64%nat ->
  sched_inv s (fun _ => []) bnd key R.
Proof.
  intros H1 H2 H3. assert (forall c, 0 <= c < 64 -> sd_channels s !! Z.to_nat c = Some empty_channel) as Hlk.
  { intros c Hc. rewrite H1. apply lookup_replicate_2. lia. }
  split; try done.
  - by rewrite H1.
  - intros c Hc. rewrite (Hlk c Hc). by exists empty_channel, empty_channel, 0.
  - intros c Hc. repeat constructor.
  - rewrite H2, H1. vm_compute. done.
  - intros c ch op Hc. rewrite (Hlk c Hc). intros [= <-] Hop. by apply not_elem_of_nil in Hop.
  - intros c ch Hc. rewrite (Hlk c Hc). intros [= <-]. constructor.
Qed.

(** Everything but the channels, the batch count and the proxy's counters. *)
Definition same_frame (s s' : sched) : Prop :=
  exists chans n px, s' = set_chans s chans n px.

Lemma same_frame_refl s : same_frame s s.
Proof. exists (sd_channels s), (pl_nWorkBatches (sd_plan s)), (sd_proxy s). destruct s as [? ? ? ? ? [] ?]. done. Qed.
Lemma same_frame_trans s1 s2 s3 : same_frame s1 s2 -> same_frame s2 s3 -> same_frame s1 s3.
Proof. intros (? & ? & ? & ->) (chans & n & px & ->). by exists chans, n, px. Qed.

Lemma strongly_sorted_snoc (l : list Z) x : StronglySorted Z.lt l -> Forall (fun y => y < x) l -> StronglySorted Z.lt (l ++ [x]).
Proof.
  induction 1 as [|y l Hs IH Hy]; intros Hx; [by repeat constructor|]. apply Forall_cons in Hx as [Hyx Hx]. cbn [app]. constructor; [by apply IH|].
  rewrite List.Forall_forall in *. intros z Hz. apply in_app_or in Hz as [Hz|[<-|[]]]; [by apply Hy|done].
Qed.

Lemma add_batch_spec s ws bnd key R c w offset : sched_inv s ws bnd key R -> 0 <= c < 64 -> work_ok w -> w_offset w = u32 offset -> bnd c <= w_offset w ->
  wp (add_batch s c (w_type w) (w_func w) offset (w_round w)) (fun s' =>
    sched_inv s' (at_chan c (fun l => l ++ [w]) ws) (at_chan c (fun _ => w_offset w + 1) bnd) key R /\ same_frame s s').
Proof.
  intros [Hl Hch Hw Hb Hop Hso Hct] Hc Hwok Hoff Hbnd. destruct (Hch c Hc) as (ch & ch0 & d & Hlk & Hadd & Heq). unfold add_batch.
  rewrite (proj2 (zget_Ret _ c ch)) by (split; [lia|done]). cbn [mbind outcome_bind]. rewrite <- Hoff.
  destruct (Hw c Hc) as (Hwk & Hsrt & Hlt). assert (StronglySorted Z.lt (w_offset <$> ws c ++ [w])) as Hsrt'.
  { rewrite fmap_app. apply strongly_sorted_snoc; [done|]. apply Forall_fmap. eapply Forall_impl; [exact Hlt|]. simpl. lia. }
  assert (Forall work_ok (ws c ++ [w])) as Hwk' by (apply Forall_app; split; [done|constructor; [done|constructor]]).
  pose proof (add_works_spec _ empty_channel [] 0 empty_channel_inv Hwk' Hsrt') as Hspec. rewrite add_works_snoc, Hadd in Hspec. cbn [mbind outcome_bind] in Hspec.
  pose proof (add_works_spec _ empty_channel [] 0 empty_channel_inv Hwk Hsrt) as Hspec0. rewrite Hadd in Hspec0. destruct Hspec0 as (_ & _ & _ & Hd & _). cbn [fst snd] in Hd.
  rewrite Heq, (addWorkBatchToPlan_frame ch0 _ d). destruct (addWorkBatchToPlan ch0 d _ _ _ _) as [[ch1 d1]| |] eqn:Eadd; [|done|done]. destruct Hspec as (_ & _ & _ & Hd1 & _). cbn [fst snd] in Hd1.
  cbn [mbind outcome_bind]. rewrite zset_Ret by lia. cbn [mbind outcome_bind wpx]. split; [|by eexists _, _, _].
  set (q := proxyOpQueue ch) in *. assert (Z.to_nat c < length (sd_channels s))%nat as Hlt' by lia.
  assert (forall x, 0 <= x < 64 -> x <> c -> <[Z.to_nat c:=set_proxyOps ch1 q]> (sd_channels s) !! Z.to_nat x = sd_channels s !! Z.to_nat x) as Hne
    by (intros; apply list_lookup_insert_ne; lia).
  split; cbn [sd_channels sd_plan pl_nWorkBatches sd_proxy set_chans].
  - by rewrite length_insert.
  - intros x Hx. destruct (decide (x = c)) as [->|Hxc]; [|rewrite Hne, at_chan_ne by done; by apply Hch].
    rewrite at_chan_eq, list_lookup_insert_eq, add_works_snoc, Hadd by done. cbn [mbind outcome_bind]. eexists _, ch1, d1. split; [done|]. by split.
  - intros x Hx. destruct (decide (x = c)) as [->|Hxc]; [|rewrite !at_chan_ne by done; by apply Hw]. rewrite !at_chan_eq. split_and!; [done|done|].
    apply Forall_app. split; [eapply Forall_impl; [exact Hlt|]; simpl; lia|]. constructor; [lia|done].
  - pose proof (total_insert (sd_channels s) _ _ (set_proxyOps ch1 q) Hlk) as Ht. rewrite Hb, Heq in *.
    change (workBatchQueue (set_proxyOps ch1 q)) with (workBatchQueue ch1) in Ht. change (workBatchQueue (set_proxyOps ch0 q)) with (workBatchQueue ch0) in Ht. simpl in Hd, Hd1. lia.
  - intros x chx op Hx. destruct (decide (x = c)) as [->|Hxc]; [|rewrite Hne by done; by apply Hop]. rewrite list_lookup_insert_eq by done. intros [= <-]. by apply (Hop c ch).
  - intros x chx Hx. destruct (decide (x = c)) as [->|Hxc]; [|rewrite Hne by done; by apply Hso]. rewrite list_lookup_insert_eq by done. intros [= <-]. by apply (Hso c ch).
  - done.
Qed.

(** ** When the inquiry succeeds *)

(** The connections a pattern uses, but for PAT, which depends on its steps. *)
Definition links (ch : proxy_channel) (pattern : ncclPattern_t) : list (bool * Z * Z) :=
  match pattern with
  | ncclPatternRing | ncclPatternRingTwice | ncclPatternPipelineFrom | ncclPatternPipelineTo => [(false, pc_prev ch, 0); (true, pc_next ch, 0)]
  | ncclPatternTreeUp | ncclPatternTreeDown | ncclPatternTreeUpDown =>
      ((fun d => (false, d, 0)) <$> pc_treeDown ch) ++ ((fun d => (true, d, 0)) <$> pc_treeDown ch) ++ [(true, pc_treeUp ch, 0); (false, pc_treeUp ch, 0)]
  | ncclPatternCollnetChain => [(true, pc_chainUp ch, 1); (false, pc_chainUp ch, 0)]
  | ncclPatternCollnetDirect => [(true, pc_directOut ch, 1); (false, pc_directOut ch, 0)]
  | ncclPatternNvls => [(true, pc_nvlsOut ch, 1); (false, pc_nvlsOut ch, 0)]
  | ncclPatternNvlsTree =>
      ((fun d => (false, d, 0)) <$> pc_nvlsTreeDown ch) ++ ((fun d => (true, d, 0)) <$> pc_nvlsTreeDown ch) ++
      [(true, pc_nvlsTreeUp ch, 0); (false, pc_nvlsTreeUp ch, 0)]
  | _ => []
  end.

Definition has_transport (ch : proxy_channel) (l : bool * Z * Z) : Prop :=
  0 <= l.1.2 -> exists cn, pc_peers ch l.1.1 l.1.2 l.2 = Some cn /\ cn_transport cn = true.

(** The patterns of collectives other than PAT. *)
Definition plain_pattern (p : ncclPattern_t) : Prop :=
  p <> ncclPatternPatUp /\ p <> ncclPatternPatDown /\ p <> ncclPatternSend /\ p <> ncclPatternRecv.

(** The channels are set up and connected for [pattern]. *)
Record wired (px : proxy_comm) (pattern : ncclPattern_t) : Prop := {
  wd_channels : length (px_channels px) = 64%nat;
  wd_profiler : length (px_profSend px) = 64%nat;
  wd_ranks : 2 <= px_nRanks px;
  wd_sizes ch : ch ∈ px_channels px -> length (pc_userRanks ch) = Z.to_nat (px_nRanks px) /\ length (pc_treeDown ch) = 3%nat /\ length (pc_nvlsTreeDown ch) = 3%nat;
  wd_links ch : ch ∈ px_channels px -> Forall (has_transport ch) (links ch pattern);
}.

Lemma SaveProxy_total px ch send peer ci k : has_transport ch (send, peer, ci) -> exists k', SaveProxy px ch send peer ci true k = Ret k'.
Proof.
  intros Ht. unfold SaveProxy. destruct (Z.ltb_spec peer 0) as [|Hp]; [by eexists|]. destruct (Ht Hp) as (cn & E & Hcn). simpl in E. rewrite E, Hcn.
  cbn [negb]. destruct (cn_progress cn); by eexists.
Qed.

Lemma save_all_total px ch l k : Forall (has_transport ch) l -> exists k', save_all px ch true l k = Ret k'.
Proof.
  intros Hl. revert k. induction Hl as [|[[send peer] ci] l Ht Hl IH]; intros k; cbn [save_all]; [by eexists|].
  destruct (SaveProxy_total px ch send peer ci k Ht) as [k' ->]. apply IH.
Qed.

Lemma save_two px ch m f k : m = Ret k \/ (exists l, m = save_all px ch true l k /\ Forall (has_transport ch) l) ->
  (forall k', f k' = Ret k' \/ exists l, f k' = save_all px ch true l k' /\ Forall (has_transport ch) l) -> exists k' : call, m ≫= f = Ret k'.
Proof.
  intros Hm Hf. assert (exists k', m = Ret k') as [k' ->] by (destruct Hm as [-> |(l & -> & Hl)]; [by eexists|by apply save_all_total]).
  cbn [mbind outcome_bind]. destruct (Hf k') as [-> |(l & -> & Hl)]; [by eexists|by apply save_all_total].
Qed.

Lemma incWorkCounter_total k : length (xs_workCounter (k_state k)) = 64%nat -> 0 <= op_channelId (k_op k) < 64 -> exists k', incWorkCounter k = Ret k'.
Proof.
  intros Hl Hc. unfold incWorkCounter. destruct (zget_in_bounds (xs_workCounter (k_state k)) (op_channelId (k_op k))) as (w & -> & _); [lia|].
  cbn [mbind outcome_bind]. rewrite zset_Ret by lia. by eexists.
Qed.

Lemma NeedProxy_total send p root users n : 2 <= n -> length users = Z.to_nat n -> exists b, NeedProxy send p root users n = Ret b.
Proof.
  intros Hn Hl. unfold NeedProxy. destruct p; try (by eexists); case_decide; try done; destruct send;
    (match goal with |- exists b, (rank ← zget ?l ?i; _) = _ => destruct (zget_in_bounds l i) as (x & -> & _); [lia|by eexists] end).
Qed.

Lemma inquiry_total fuel junk px p op st : wired px p -> plain_pattern p -> op_pattern (op_kd (op_payload op)) = p -> 0 <= op_channelId op < 64 ->
  op_coll (op_kd (op_payload op)) <> ncclFuncRecv -> length (xs_workCounter st) = 64%nat ->
  exists k, ncclProxySaveOp fuel junk px true (MkCall op true st) = Ret k.
Proof.
  intros [Hl Hpr Hr Hs Hk] (Hp1 & Hp2 & Hp3 & Hp4) Hp Hc Hrecv Hct. unfold ncclProxySaveOp. cbn [k_op k_state k_needed]. rewrite Hp.
  destruct (zget_in_bounds (px_channels px) (op_channelId op)) as (ch & -> & Hch); [lia|]. cbn [mbind outcome_bind].
  pose proof (list_elem_of_lookup_2 _ _ _ Hch) as Hin. destruct (Hs ch Hin) as (Hu & Htd & Hnd). specialize (Hk ch Hin).
  destruct (NeedProxy_total false p (op_root (op_kd (op_payload op))) _ _ Hr Hu) as [b1 E1]. destruct (NeedProxy_total true p (op_root (op_kd (op_payload op))) _ _ Hr Hu) as [b2 E2].
  destruct (pc_treeDown ch) as [|t0 [|t1 [|t2 [|]]]] eqn:Et; try done. destruct (pc_nvlsTreeDown ch) as [|n0 [|n1 [|n2 [|]]]] eqn:En; try done.
  set (k := MkCall op false st).
  destruct p; try done; cbn [links] in Hk; rewrite ?Et, ?En in Hk; rewrite ?Forall_cons in Hk; cbn [fmap list_fmap app] in Hk; rewrite ?Forall_cons in Hk;
    try (apply save_all_total; rewrite !Forall_cons; tauto);
    try (rewrite E1, E2; cbn [mbind outcome_bind]; assert (exists k', (if b1 then SaveProxy px ch false (pc_prev ch) 0 true k else Ret k) = Ret k') as [k' ->]
      by (destruct b1; [apply SaveProxy_total; tauto|by eexists]); cbn [mbind outcome_bind]; destruct b2; [apply SaveProxy_total; tauto|by eexists]);
    try (change (zget [t0; t1; t2] 0) with (Ret t0); change (zget [t0; t1; t2] 1) with (Ret t1); change (zget [t0; t1; t2] 2) with (Ret t2); cbn [mbind outcome_bind];
      apply (save_two px ch _ _ k); [case_decide; [by left|right]|intros k'; case_decide; [by left|right]]; eexists; (split; [reflexivity|]); rewrite !Forall_cons; tauto).
  destruct (px_profiler px op); [|by apply incWorkCounter_total]. unfold SaveProxyProfiler.
  destruct (zget_in_bounds (px_profSend px) (op_channelId op)) as (cn & E & _); [lia|]. cbn [k_op k].
  destruct (op_coll (op_kd (op_payload op))) eqn:Ec; try done; rewrite E; cbn [mbind outcome_bind]; (destruct (px_persistent px); [by eexists|by apply incWorkCounter_total]).
Qed.

(** ** Adding operations to the channels *)

(** An operation that stands for [op]: what the inquiry may change is changed. *)
Record like (op op' : ncclProxyOp) : Prop := {
  lk_count : opCount op' = opCount op; lk_channel : op_channelId op' = op_channelId op; lk_part : same_part (op_payload op') (op_payload op) }.

Lemma like_trans a b c : like a b -> like b c -> like a c.
Proof. intros [? ? [? ? ? ?]] [? ? [? ? ? ?]]. split; try congruence. split; try congruence; intuition congruence. Qed.

Lemma key_sorted_snoc (l : list ncclProxyOp) x : StronglySorted (fun a b => op_key a <= op_key b) l -> (forall y, y ∈ l -> op_key y <= op_key x) ->
  StronglySorted (fun a b => op_key a <= op_key b) (l ++ [x]).
Proof.
  induction 1 as [|y l Hs IH Hy]; intros Hx; [by repeat constructor|]. cbn [app]. constructor; [apply IH; intros; apply Hx; by right|].
  apply Forall_app. split; [done|]. apply Forall_singleton. apply Hx. by left.
Qed.

(** A queue with one more operation. *)
Lemma inv_push s ws bnd key R c ch op px : sched_inv s ws bnd key R -> 0 <= c < 64 -> sd_channels s !! Z.to_nat c = Some ch -> R c op -> op_key op = key c ->
  length (xs_workCounter px) = 64%nat ->
  sched_inv (set_chans s (<[Z.to_nat c := set_proxyOps ch (proxyOpQueue ch ++ [op])]> (sd_channels s)) (pl_nWorkBatches (sd_plan s)) px) ws bnd key R.
Proof.
  intros [Hl Hch Hw Hb Hop Hso Hct] Hc Hlk HR Hkey Hpx. assert (Z.to_nat c < length (sd_channels s))%nat as Hlt by lia.
  assert (forall x y, 0 <= x < 64 -> x <> c -> <[Z.to_nat c:=y]> (sd_channels s) !! Z.to_nat x = sd_channels s !! Z.to_nat x) as Hne
    by (intros; apply list_lookup_insert_ne; lia).
  split; cbn [sd_channels sd_plan pl_nWorkBatches sd_proxy set_chans]; try done.
  - by rewrite length_insert.
  - intros x Hx. destruct (decide (x = c)) as [->|Hxc]; [|rewrite Hne by done; by apply Hch]. rewrite list_lookup_insert_eq by done.
    destruct (Hch c Hc) as (ch' & ch0 & d & Hlk' & Ha & Heq). rewrite Hlk in Hlk'. injection Hlk' as <-. eexists _, ch0, d. split_and!; [done|done|].
    rewrite Heq. done.
  - rewrite Hb. f_equal. pose proof (total_insert (sd_channels s) _ _ (set_proxyOps ch (proxyOpQueue ch ++ [op])) Hlk) as Ht.
    change (workBatchQueue (set_proxyOps ch (proxyOpQueue ch ++ [op]))) with (workBatchQueue ch) in Ht. lia.
  - intros x chx o Hx. destruct (decide (x = c)) as [->|Hxc]; [|rewrite Hne by done; by apply Hop]. rewrite list_lookup_insert_eq by done. intros [= <-].
    cbn [proxyOpQueue set_proxyOps]. rewrite elem_of_app, list_elem_of_singleton. intros [Ho| ->]; [by apply (Hop c ch)|]. split; [done|lia].
  - intros x chx Hx. destruct (decide (x = c)) as [->|Hxc]; [|rewrite Hne by done; by apply Hso]. rewrite list_lookup_insert_eq by done. intros [= <-].
    cbn [proxyOpQueue set_proxyOps]. apply key_sorted_snoc; [by apply (Hso c)|]. intros y Hy. rewrite Hkey. by apply (Hop c ch).
Qed.

Lemma inv_counters s ws bnd key R px : sched_inv s ws bnd key R -> length (xs_workCounter px) = 64%nat ->
  sched_inv (set_chans s (sd_channels s) (pl_nWorkBatches (sd_plan s)) px) ws bnd key R.
Proof. intros [Hl Hch Hw Hb Hop Hso Hct] Hpx. by split. Qed.

(** The inquiry for [op] is answered, in every state of the counters. *)
Definition answers (comm : sched_comm) (op : ncclProxyOp) : Prop := forall st, length (xs_workCounter st) = 64%nat ->
  exists k, ncclProxySaveOp (sc_fuel comm) (sc_junk comm) (sc_proxy comm) true (MkCall op true st) = Ret k.

Lemma answers_plain comm p op : wired (sc_proxy comm) p -> plain_pattern p -> op_pattern (op_kd (op_payload op)) = p -> 0 <= op_channelId op < 64 ->
  op_coll (op_kd (op_payload op)) <> ncclFuncRecv -> answers comm op.
Proof. intros Hwd Hpl Hp Hc Hrecv st Hst. by eapply inquiry_total. Qed.

Lemma wp_ensures {A} (m : outcome A) (P Q : A -> Prop) : wp m P -> ensures m Q -> wp m (fun a => P a /\ Q a).
Proof. destruct m as [a| |]; [|done|done]. intros HP HQ. split; [done|by apply HQ]. Qed.

Lemma ensures_skip {A B} (m : outcome A) (f : A -> outcome B) (P : B -> Prop) : (forall a, ensures (f a) P) -> ensures (m ≫= f) P.
Proof. intros Hf. eapply ensures_bind; [apply ensures_any|]. intros a _. apply Hf. Qed.

Section add_ops.
Context (comm : sched_comm) (ws : Z -> list work) (bnd key : Z -> Z) (R : Z -> ncclProxyOp -> Prop).

(** Whenever the inquiry returns. *)
Lemma addProxyOp_inquired op s c k : sched_inv s ws bnd key R ->
  ncclProxySaveOp (sc_fuel comm) (sc_junk comm) (sc_proxy comm) true (MkCall op true (sd_proxy s)) = Ret k ->
  op_channelId op = c -> 0 <= c < 64 -> op_key op = key c -> (forall op', like op op' -> R c op') ->
  wp (addProxyOpIfNeeded comm op s) (fun r => sched_inv r.2 ws bnd key R /\ same_frame s r.2 /\ like op r.1).
Proof.
  intros Hinv Hk Hc Hc64 Hkey HR. unfold addProxyOpIfNeeded. pose proof (si_counter _ _ _ _ _ Hinv) as Hct.
  pose proof (inquire_keeps _ _ _ _ k Hk) as [Hk1 Hk2 Hk3 _ Hk5]. cbn [k_op k_state] in *. rewrite Hk. cbn [mbind outcome_bind].
  assert (like op (k_op k)) as Hlike by (by split). assert (length (xs_workCounter (k_state k)) = 64%nat) as Hlen by lia.
  destruct (k_needed k).
  - rewrite Hk2, Hc. destruct (zget_in_bounds (sd_channels s) c) as (ch & -> & Hch); [rewrite (si_len _ _ _ _ _ Hinv); lia|].
    cbn [mbind outcome_bind]. rewrite zset_Ret by (rewrite (si_len _ _ _ _ _ Hinv); lia). cbn [mbind outcome_bind wpx fst snd]. split; [|split; [by eexists _, _, _|done]].
    apply inv_push; try done; [by apply HR|unfold op_key; by rewrite Hk1].
  - cbn [wpx fst snd]. split; [|split; [by eexists _, _, _|done]]. by apply inv_counters.
Qed.

Lemma addProxyOpIfNeeded_spec op s c : sched_inv s ws bnd key R -> answers comm op ->
  op_channelId op = c -> 0 <= c < 64 -> op_key op = key c -> (forall op', like op op' -> R c op') ->
  wp (addProxyOpIfNeeded comm op s) (fun r => sched_inv r.2 ws bnd key R /\ same_frame s r.2 /\ like op r.1).
Proof.
  intros Hinv Ha Hc Hc64 Hkey HR. destruct (Ha (sd_proxy s) (si_counter _ _ _ _ _ Hinv)) as [k Hk]. by eapply addProxyOp_inquired.
Qed.

Lemma addProfilerProxyOpIfNeeded_spec p op s c : sched_inv s ws bnd key R -> wired (sc_proxy comm) p ->
  op_coll (op_kd (op_payload op)) <> ncclFuncRecv -> op_channelId op = c -> 0 <= c < 64 -> op_key op = key c ->
  (forall op', like (with_args (set_pattern ncclPatternProfiler) op) op' -> R c op') ->
  wp (addProfilerProxyOpIfNeeded comm op s) (fun r => sched_inv r.2 ws bnd key R /\ same_frame s r.2 /\ like op r.1).
Proof.
  intros Hinv Hwd Hrecv Hc Hc64 Hkey HR. unfold addProfilerProxyOpIfNeeded. cbv zeta. apply wpx_bind. eapply wpx_mono.
  - apply (addProxyOpIfNeeded_spec _ _ c Hinv); try done. apply (answers_plain comm ncclPatternProfiler); try done; [|by rewrite <- Hc in Hc64].
    destruct Hwd as [? ? ? ? _]. by split.
  - intros [op' s'] (Hi & Hf & [H1 H2 H3]). cbn [fst snd] in *. cbn [wpx]. split_and!; [done|done|]. split; cbn [with_args opCount op_channelId op_payload fst]; try done.
    destruct H3 as [Hk Hb Hs Hst]. split; cbn [set_pattern op_kd op_bf op_sh] in *; [|done|done|done]. rewrite Hk.
    cbn [with_args op_payload op_kd op_root op_dtype op_redOp op_coll op_protocol op_algorithm op_pattern set_pattern]. by destruct (op_kd (op_payload op)).
  - done.
Qed.
End add_ops.

(** ** What is added to the queues *)

Definition queue_at (s : sched) (c : Z) : list ncclProxyOp :=
  match sd_channels s !! Z.to_nat c with Some ch => proxyOpQueue ch | None => [] end.

(** The queue of channel [c] has grown by [l]; the others are as before. *)
Definition appended (s s' : sched) (c : Z) (l : list ncclProxyOp) : Prop :=
  forall x, 0 <= x -> queue_at s' x = queue_at s x ++ (if x =? c then l else []).

Lemma appended_nil s s' c : (forall x, queue_at s' x = queue_at s x) -> appended s s' c [].
Proof. intros H x _. rewrite H. by destruct (x =? c); rewrite app_nil_r. Qed.
Lemma appended_app s1 s2 s3 c l l' : appended s1 s2 c l -> appended s2 s3 c l' -> appended s1 s3 c (l ++ l').
Proof. intros H1 H2 x Hx. rewrite H2, H1, <- app_assoc by done. by destruct (x =? c). Qed.

Lemma queue_insert s chans n px c ch q : 0 <= c -> chans = <[Z.to_nat c := ch]> (sd_channels s) -> (Z.to_nat c < length (sd_channels s))%nat ->
  proxyOpQueue ch = queue_at s c ++ q -> appended s (set_chans s chans n px) c q.
Proof.
  intros Hc -> Hl Hq x Hx. unfold queue_at at 1. cbn [sd_channels set_chans]. destruct (Z.eqb_spec x c) as [->|Hne].
  - by rewrite list_lookup_insert_eq.
  - rewrite list_lookup_insert_ne by lia. by rewrite app_nil_r.
Qed.

(** The inquiry for [op] is answered by [needed], and leaves [op] as [r]. *)
Definition asked (comm : sched_comm) (op r : ncclProxyOp) (needed : bool) : Prop := exists st k,
  ncclProxySaveOp (sc_fuel comm) (sc_junk comm) (sc_proxy comm) true (MkCall op true st) = Ret k /\ k_op k = r /\ k_needed k = needed.

Lemma asked_like comm op r b : asked comm op r b -> like op r.
Proof. intros (st & k & Hk & <- & _). destruct (inquire_keeps _ _ _ _ k Hk) as [H1 H2 H3 _ _]. by split. Qed.

(** What a channel gets for [op]: the operation, if it needs the proxy, and the
    one that times its kernel, if a profiler wants it. *)
Definition op_group (comm : sched_comm) (op : ncclProxyOp) (g : list ncclProxyOp) : Prop := exists r1 b1 r2 b2,
  asked comm op r1 b1 /\ asked comm (with_args (set_pattern ncclPatternProfiler) r1) r2 b2 /\
  g = (if b1 then [r1] else []) ++ (if b2 then [r2] else []).

Lemma addWorkBatch_queue ch n wt fn off round : ensures (addWorkBatchToPlan ch n wt fn off round) (fun r => proxyOpQueue r.1 = proxyOpQueue ch).
Proof.
  intros r Hr. pose proof (addWorkBatchToPlan_frame ch n n (proxyOpQueue ch) wt fn off round) as H. rewrite set_proxyOps_id, Hr in H.
  cbn [mbind outcome_bind] in H. destruct r as [ch' k]. injection H as -> _. done.
Qed.

Lemma zget_found {A} (l : list A) i x : zget l i = Ret x -> 0 <= i /\ l !! Z.to_nat i = Some x /\ (Z.to_nat i < length l)%nat.
Proof. intros [H1 H2]%zget_Ret. split; [done|]. split; [done|]. by eapply lookup_lt_Some. Qed.

Lemma add_batch_queue s c wt fn off round : ensures (add_batch s c wt fn off round) (fun s' => appended s s' c []).
Proof.
  intros s' Hs. unfold add_batch in Hs. destruct (zget (sd_channels s) c) as [ch| |] eqn:E; [|done|done]. apply zget_found in E as (Hc & E & Hl). cbn [mbind outcome_bind] in Hs.
  destruct (addWorkBatchToPlan _ _ _ _ _ _) as [[ch' n]| |] eqn:Ea; [|done|done]. cbn [mbind outcome_bind] in Hs. apply addWorkBatch_queue in Ea. cbn [fst] in Ea.
  rewrite zset_Ret in Hs by lia. injection Hs as <-. eapply queue_insert; [done|done|done|]. rewrite app_nil_r, Ea. unfold queue_at. by rewrite E.
Qed.

Lemma addProxyOp_queue comm op s : ensures (addProxyOpIfNeeded comm op s) (fun r => exists b, asked comm op r.1 b /\ appended s r.2 (op_channelId op) (if b then [r.1] else [])).
Proof.
  intros r Hr. unfold addProxyOpIfNeeded in Hr. destruct (ncclProxySaveOp _ _ _ _ _) as [k| |] eqn:Ek; [|done|done]. cbn [mbind outcome_bind] in Hr.
  pose proof (kb_channel _ _ (inquire_keeps _ _ _ _ k Ek)) as Hch. cbn [k_op] in Hch. destruct (k_needed k) eqn:En.
  - destruct (zget (sd_channels s) _) as [ch| |] eqn:E; [|done|done]. apply zget_found in E as (Hc & E & Hl). cbn [mbind outcome_bind] in Hr. rewrite zset_Ret in Hr by lia.
    injection Hr as <-. exists true. split; [by exists (sd_proxy s), k|]. rewrite <- Hch. eapply queue_insert; [done|done|done|]. cbn [proxyOpQueue set_proxyOps fst]. unfold queue_at. by rewrite E.
  - injection Hr as <-. exists false. split; [by exists (sd_proxy s), k|]. by apply appended_nil.
Qed.

Lemma addProfiler_queue comm op s : ensures (addProfilerProxyOpIfNeeded comm op s) (fun r => exists r' b, asked comm (with_args (set_pattern ncclPatternProfiler) op) r' b /\
  appended s r.2 (op_channelId op) (if b then [r'] else [])).
Proof.
  intros r Hr. unfold addProfilerProxyOpIfNeeded in Hr. cbv zeta in Hr. destruct (addProxyOpIfNeeded _ _ s) as [[op' s']| |] eqn:E; [|done|done].
  destruct (addProxyOp_queue _ _ _ _ E) as (b & Hb & Ha). injection Hr as <-. cbn [fst snd] in *. by exists op', b.
Qed.

(** The three calls of an iteration, for the operation [op]. *)
Lemma added_group comm op c wt fn off s : op_channelId op = c ->
  ensures (s ← add_batch s c wt fn off (-1); '(op, s) ← addProxyOpIfNeeded comm op s; addProfilerProxyOpIfNeeded comm op s)
    (fun r => exists g, op_group comm op g /\ appended s r.2 c g).
Proof.
  intros Hc. eapply ensures_bind; [apply add_batch_queue|]. intros s1 A1. eapply ensures_bind; [apply addProxyOp_queue|]. intros [op1 s2] (b1 & Q1 & A2). cbn [fst snd] in *.
  intros r Hr. apply addProfiler_queue in Hr as (op2 & b2 & Q2 & A3). pose proof (lk_channel _ _ (asked_like _ _ _ _ Q1)) as Hc1. rewrite Hc1, Hc in A3. rewrite Hc in A2.
  exists ((if b1 then [op1] else []) ++ (if b2 then [op2] else [])). split; [by exists op1, b1, op2, b2|].
  exact (appended_app _ _ _ _ _ _ A1 (appended_app _ _ _ _ _ _ A2 A3)).
Qed.

(** The queues of the channels from [lo] on below [hi] have grown, each by
    operations that satisfy [A]. *)
Definition grown (A : Z -> list ncclProxyOp -> Prop) (s s' : sched) (lo hi : Z) : Prop := exists f : Z -> list ncclProxyOp,
  (forall x, lo <= x < hi -> A x (f x)) /\ forall x, 0 <= x -> queue_at s' x = queue_at s x ++ (if (lo <=? x) && (x <? hi) then f x else []).

Lemma grown_start A s lo : grown A s s lo lo.
Proof. exists (fun _ => []). split; [lia|]. intros x _. by destruct (_ && _); rewrite app_nil_r. Qed.

Lemma grown_step A s s1 s2 lo c g : lo <= c -> grown A s s1 lo c -> appended s1 s2 c g -> A c g -> grown A s s2 lo (c + 1).
Proof.
  intros Hc (f & Hf & Hq) Ha HA. exists (fun x => if x =? c then g else f x). split.
  - intros x Hx. destruct (Z.eqb_spec x c) as [->|]; [done|]. apply Hf. lia.
  - intros x Hx. rewrite (Ha x Hx), (Hq x Hx), <- app_assoc. f_equal.
    destruct (Z.eqb_spec x c), (Z.leb_spec lo x), (Z.ltb_spec x c), (Z.ltb_spec x (c + 1)); cbn [andb app]; rewrite ?app_nil_r; done || lia.
Qed.

(** ** The channels of one task *)

(** A function changed on the channels from [lo] on below [hi]. *)
Definition spread {A} (lo hi : Z) (f : A -> A) (g : Z -> A) (x : Z) : A := if (lo <=? x) && (x <? hi) then f (g x) else g x.

Lemma spread_nil {A} lo (f : A -> A) g x : spread lo lo f g x = g x.
Proof. unfold spread. destruct (Z.leb_spec lo x), (Z.ltb_spec x lo); simpl; done || lia. Qed.

Lemma spread_next {A} lo c (f : A -> A) g x : lo <= c -> at_chan c f (spread lo c f g) x = spread lo (c + 1) f g x.
Proof.
  intros Hc. unfold at_chan, spread. destruct (Z.eqb_spec x c) as [E|E]; destruct (Z.leb_spec lo x), (Z.ltb_spec x c), (Z.ltb_spec x (c + 1)); simpl; done || lia.
Qed.

Lemma inv_ext s ws ws' bnd bnd' key R : (forall c, 0 <= c < 64 -> ws c = ws' c) -> (forall c, 0 <= c < 64 -> bnd c <= bnd' c) ->
  sched_inv s ws bnd key R -> sched_inv s ws' bnd' key R.
Proof.
  intros Hws Hbnd [Hl Hch Hw Hb Hop Hso Hct]. split; try done; intros c Hc; rewrite <- (Hws c Hc); [by apply Hch|].
  destruct (Hw c Hc) as (H1 & H2 & H3). split_and!; try done. eapply Forall_impl; [exact H3|]. intros w Hlt. specialize (Hbnd c Hc). simpl in *. lia.
Qed.

Definition per_byte (comm : sched_comm) (t : ncclTaskColl) : Z :=
  ncclFuncTrafficPerByte (t_func t) (cc_nRanks (sc_coll comm)) * (if t_protocol t =? NCCL_PROTO_LL then 4 else 1).
Definition per_element (comm : sched_comm) (t : ncclTaskColl) : Z := ncclTypeSize (t_datatype t) * ncclFuncMaxSendRecvCount (t_func t) (cc_nRanks (sc_coll comm)) 1.
Definition nMax_of (comm : sched_comm) (t : ncclTaskColl) : Z := if t_isNvls t then sc_nvlsChannels comm else sc_nChannels comm.

(** A ring whose buffers the network registered: the collectives and the
    protocol that [ncclRegisterCollBuffers] registers, with handles for every
    channel. *)
Record ring_ready (comm : sched_comm) (t : ncclTaskColl) : Prop := {
  rr_func : t_func t = ncclFuncAllGather \/ t_func t = ncclFuncAllReduce \/ t_func t = ncclFuncBroadcast;
  rr_proto : t_protocol t = NCCL_PROTO_SIMPLE;
  rr_handles : nMax_of comm t <= Z.of_nat (length (t_sendNetHandles t)) /\ nMax_of comm t <= Z.of_nat (length (t_recvNetHandles t)) /\
    nMax_of comm t <= Z.of_nat (length (t_srecvNetHandles t));
  rr_rings : nMax_of comm t <= Z.of_nat (length (sc_rings comm)) /\ Forall (fun r => (2 <= length r.1)%nat) (sc_rings comm);
}.

Lemma make_ringAlgo_total comm t c a : (op_reg (op_bf a) = true -> t_algorithm t = NCCL_ALGO_RING -> ring_ready comm t) -> op_sliceSteps (op_sh a) <> 0 -> 0 <= c < nMax_of comm t ->
  exists r, make_ringAlgo comm t c a = Ret r.
Proof.
  intros Hr Hs Hc. unfold make_ringAlgo. destruct (op_reg (op_bf a)), (Z.eqb_spec (t_algorithm t) NCCL_ALGO_RING) as [Ha|]; cbn [andb]; try by eexists.
  destruct (Hr eq_refl Ha) as [Hf _ (H1 & H2 & H3) [H4 H5]].
  destruct (zget_in_bounds (t_recvNetHandles t) c) as (rh & -> & _); [lia|]. destruct (zget_in_bounds (t_sendNetHandles t) c) as (sh & -> & _); [lia|]. cbn [mbind outcome_bind].
  destruct (_ || _); [|by eexists]. unfold ring_of. destruct (zget_in_bounds (sc_rings comm) c) as ([ur ix] & -> & Hl); [lia|]. cbn [mbind outcome_bind].
  destruct (zget_in_bounds (t_srecvNetHandles t) c) as (srh & -> & _); [lia|]. cbn [mbind outcome_bind].
  destruct Hf as [-> | [-> | ->]]; unfold RingAG.construct, RingAR.construct, RingBC.construct; rewrite ?(proj2 (Z.eqb_neq _ _) Hs); cbn [negb require mbind outcome_bind]; try by eexists.
  rewrite Forall_lookup in H5. specialize (H5 _ _ Hl). cbn [fst] in H5. destruct (zget_in_bounds ur 1) as (nx & -> & _); [lia|]. by eexists.
Qed.

(** The sizes of the operation of a task that all channels share. *)
Definition same_sizes (a b : op_shape) : Prop :=
  op_nbytes a = op_nbytes b /\ op_chunkSize a = op_chunkSize b /\ op_sliceSize a = op_sliceSize b /\ op_loopSize a = op_loopSize b /\ op_loopOffset a = op_loopOffset b.

(** An operation for channel [c] that carries the part of the device: for a task
    divided over channels, the part that the device computes for itself; for one
    that is reduced in the network, the chunk of all channels. *)
Definition carries (comm : sched_comm) (task : ncclTaskColl) (part : coll_part) (c : Z) (sh : op_shape) : Prop :=
  let es := ncclTypeSize (t_datatype task) in
  match part with
  | Cbd w => let d := ncclCollCbdPart w c (t_protocol task) es in
      op_loopOffset sh = cp_partOffset d * es /\ op_channelSize sh = cp_partCount d * es /\ op_chunkSize sh = cp_chunkCount d * es
  | Collnet lo hi n chunkCount => exists flags a,
      calcCollChunking (sc_coll comm) task (hi - lo + 1) (per_element comm task * n) = Ret (chunkCount * es, flags, a) /\ same_sizes sh (op_sh a)
  end.

Record part_op (comm : sched_comm) (task : ncclTaskColl) (part : coll_part) (count : Z) (pattern : ncclPattern_t) (c : Z) (op : ncclProxyOp) : Prop := {
  po_count : opCount op = count; po_channel : op_channelId op = c;
  po_pattern : op_pattern (op_kd (op_payload op)) = pattern \/ op_pattern (op_kd (op_payload op)) = ncclPatternProfiler;
  po_part : carries comm task part c (op_sh (op_payload op));
}.

(** What channel [c] gets for a task: the operation that carries its part is
    asked for. *)
Definition asks (comm : sched_comm) (task : ncclTaskColl) (part : coll_part) (count : Z) (pattern : ncclPattern_t) (c : Z) (g : list ncclProxyOp) : Prop :=
  exists op, part_op comm task part count pattern c op /\ op_pattern (op_kd (op_payload op)) = pattern /\ op_group comm op g.

Lemma carries_same comm task part c sh sh' : same_sizes sh sh' -> op_channelSize sh = op_channelSize sh' -> carries comm task part c sh' -> carries comm task part c sh.
Proof.
  intros Hs Hc. pose proof Hs as (E1 & E2 & E3 & E4 & E5). destruct part; cbn [carries]; [by rewrite E2, E5, Hc|]. intros (flags & a & H & H').
  exists flags, a. split; [done|]. destruct H' as (F1 & F2 & F3 & F4 & F5). split_and!; congruence.
Qed.

(** The operation, and its copy for the profiler, as the inquiry leaves them. *)
Lemma part_op_like comm task part count pattern c op op' : part_op comm task part count pattern c op -> like op op' -> part_op comm task part count pattern c op'.
Proof.
  intros [H1 H2 H3 H4] [L1 L2 [Lk _ (L3 & L4 & L5 & L6 & L7 & L8) _]]. split; [congruence|congruence|by rewrite Lk|]. by eapply carries_same.
Qed.
Lemma part_op_profiler comm task part count pattern c op : part_op comm task part count pattern c op ->
  part_op comm task part count pattern c (with_args (set_pattern ncclPatternProfiler) op).
Proof. intros [H1 H2 H3 H4]. split; try done. by right. Qed.

Section task.
Context (comm : sched_comm) (task : ncclTaskColl) (wt : ncclDevWorkType) (w : ncclDevWorkColl) (nMid count off : Z) (pattern : ncclPattern_t).
Let es := ncclTypeSize (t_datatype task).

(** The part the device computes for channel [c]. *)
Definition part_at (c : Z) : cbd_part := ncclCollCbdPart w c (t_protocol task) es.

(** The operation that [calcCollChunking] made for a part of [task]. *)
Record made_op (op : ncclProxyOp) : Prop := {
  md_reg : op_reg (op_bf (op_payload op)) = net_reg task; md_pattern : op_pattern (op_kd (op_payload op)) = pattern;
  md_coll : op_coll (op_kd (op_payload op)) <> ncclFuncRecv; md_steps : op_sliceSteps (op_sh (op_payload op)) <> 0;
  md_pat : pattern = ncclPatternPatUp \/ pattern = ncclPatternPatDown ->
    (exists m, 0 < m <= t_count task /\ op_nbytes (op_sh (op_payload op)) = per_element comm task * m) /\
    grain task <= op_chunkSize (op_sh (op_payload op)) <= start_chunk (sc_coll comm) task;
}.

(** An operation ready to be completed for channel [c]. *)
Definition good (c : Z) (op : ncclProxyOp) : Prop := made_op op /\ op_chunkSize (op_sh (op_payload op)) = cp_chunkCount (part_at c) * es.

Lemma made_same a b n c n' c' : same_part a b -> made_op (MkProxyOp n c b) -> made_op (MkProxyOp n' c' a).
Proof.
  intros [Hk Hbf (Hn & Hcs & _) [Hst _]] [M1 M2 M3 M4 M5]. cbn [op_payload] in *. split; cbn [op_payload]; rewrite ?Hk, ?Hbf, ?Hst, ?Hn, ?Hcs; done.
Qed.

Lemma made_like op op' : like op op' -> made_op op -> made_op op'.
Proof. destruct op, op'. intros [_ _ Hl]. by apply made_same. Qed.

Context (Hwired : wired (sc_proxy comm) pattern) (Hans : forall op, made_op op -> 0 <= op_channelId op < 64 -> answers comm op).
Context (Hring : net_reg task = true -> t_algorithm task = NCCL_ALGO_RING -> ring_ready comm task).
Context (Hfunc : 0 <= t_devFuncId task < 2 ^ 15) (Hoff : 0 <= off < 2 ^ 32) (HnMax : nMax_of comm task <= 64).
Let wk := MkWork wt (t_devFuncId task) off (-1).

(** The batch and the operations of one channel, for the operation [op]. *)
Lemma added_spec part R op c s ws0 bnd0 : 0 <= c < 64 -> made_op op -> part_op comm task part count pattern c op ->
  (forall op', part_op comm task part count pattern c op' -> R c op') ->
  sched_inv s ws0 bnd0 (fun _ => rot_id count) R -> bnd0 c <= off ->
  wp (s ← add_batch s c wt (t_devFuncId task) off (-1); '(op, s) ← addProxyOpIfNeeded comm op s; addProfilerProxyOpIfNeeded comm op s) (fun r => like op r.1 /\ same_frame s r.2 /\
    sched_inv r.2 (at_chan c (fun l => l ++ [wk]) ws0) (at_chan c (fun _ => off + 1) bnd0) (fun _ => rot_id count) R /\
    exists g, asks comm task part count pattern c g /\ appended s r.2 c g).
Proof.
  intros Hc Hm Hp HR Hinv Hb. assert (work_ok wk) as Hwk by done. assert (u32 off = off) as Hu by (by apply Z.mod_small).
  pose proof (po_channel _ _ _ _ _ _ _ Hp) as Hch. pose proof (po_count _ _ _ _ _ _ _ Hp) as Hct.
  eapply wpx_mono; [eapply wp_ensures; [|by apply added_group]| |done].
  - wp_bind. eapply wpx_mono; [apply (add_batch_spec s ws0 bnd0 (fun _ => rot_id count) R c wk off Hinv Hc Hwk); [by rewrite Hu|done]| |done].
    intros s1 [Hi1 Hf1]. wp_bind.
    eapply wpx_mono; [apply (addProxyOpIfNeeded_spec comm _ _ _ _ op s1 c Hi1); try done; [apply Hans; [done|lia]|unfold op_key; by rewrite Hct|]| |done].
    { intros op' Hl. apply HR. by eapply part_op_like. }
    intros [op2 s2] (Hi2 & Hf2 & Hl2). cbn [fst snd] in *.
    eapply wpx_mono; [apply (addProfilerProxyOpIfNeeded_spec comm _ _ _ _ pattern op2 s2 c Hi2 Hwired)| |done].
    + apply (md_coll _ (made_like _ _ Hl2 Hm)).
    + by rewrite (lk_channel _ _ Hl2).
    + done.
    + unfold op_key. by rewrite (lk_count _ _ Hl2), Hct.
    + intros op' Hl. apply HR. eapply part_op_like; [|exact Hl]. apply part_op_profiler. by eapply part_op_like.
    + intros [op3 s3] (Hi3 & Hf3 & Hl3). cbn [fst snd] in *. instantiate (1 := fun r => like op r.1 /\ same_frame s r.2 /\
        sched_inv r.2 (at_chan c (fun l => l ++ [wk]) ws0) (at_chan c (fun _ => off + 1) bnd0) (fun _ => rot_id count) R).
      split_and!; [by eapply like_trans|by eapply same_frame_trans, same_frame_trans|done].
  - intros [op' s'] [(Hl & Hf & Hi) (g & Hg & Ha)]. cbn [fst snd] in *. split_and!; try done. exists g. split; [|done]. exists op. split_and!; try done. apply Hm.
Qed.

Context (ws : Z -> list work) (bnd : Z -> Z) (R : Z -> ncclProxyOp -> Prop) (HR : forall c op, channelLo w <= c <= channelHi w -> part_op comm task (Cbd w) count pattern c op -> R c op).
Abbreviation asks_cbd := (asks comm task (Cbd w) count pattern).

Lemma channel_op_spec c which offset size s bnd0 ws0 : channelLo w <= c <= channelHi w -> 0 <= c < nMax_of comm task -> good c which ->
  offset = cp_partOffset (part_at c) * es -> size = cp_partCount (part_at c) * es ->
  sched_inv s ws0 bnd0 (fun _ => rot_id count) R -> pl_workBytes (sd_plan s) = off -> bnd0 c <= off ->
  wp (channel_op comm task wt count c which offset size s) (fun r => good c r.1 /\ same_frame s r.2 /\
    sched_inv r.2 (at_chan c (fun l => l ++ [wk]) ws0) (at_chan c (fun _ => off + 1) bnd0) (fun _ => rot_id count) R /\ exists g, asks_cbd c g /\ appended s r.2 c g).
Proof.
  intros Hcw Hc [Hm Hchunk] Hoffs Hsize Hinv Hwb Hb. unfold channel_op. cbv zeta. destruct (make_ringAlgo_total comm task c (set_part offset size (op_payload which))) as [r ->]; [| |done|].
  { cbn [set_part op_bf]. rewrite (md_reg _ Hm). apply Hring. }
  { apply (md_steps _ Hm). }
  cbn [mbind outcome_bind]. rewrite Hwb. assert (u8 c = c) as -> by (apply Z.mod_small; lia). set (op := MkProxyOp count c _).
  assert (made_op op) as Hmo by (destruct Hm; by split).
  assert (part_op comm task (Cbd w) count pattern c op) as Hp by (split; [done|done|left; apply Hm|]; split_and!; done).
  eapply wpx_mono; [apply (added_spec (Cbd w) R op c s ws0 bnd0); [lia|done|done|intros; by apply HR|done|done]| |done].
  intros [op' s'] (Hl & Hf & Hi & Hg). cbn [fst snd] in *. split_and!; try done. split; [by eapply made_like|]. destruct Hl as [_ _ [_ _ (_ & -> & _) _]]. done.
Qed.

Lemma same_frame_bytes s s' : same_frame s s' -> pl_workBytes (sd_plan s') = pl_workBytes (sd_plan s).
Proof. by intros (? & ? & ? & ->). Qed.

Context (Hcbd : cbd_wf w) (Hlo : 0 <= channelLo w) (Hhi : channelHi w < nMax_of comm task) (HnMid : channelLo w < channelHi w -> nMid = channelHi w - channelLo w - 1).
Context (Hbytes : (countLo w + countMid w * (channelHi w - channelLo w - 1) + countHi w) * es < 2 ^ 60).

Lemma part_small c : channelLo w < c <= channelHi w -> 0 <= (countLo w + (c - channelLo w - 1) * countMid w) * es < 2 ^ 60 /\
  u64 (countLo w + (c - channelLo w - 1) * countMid w) = countLo w + (c - channelLo w - 1) * countMid w.
Proof.
  intros Hc. destruct Hcbd as [_ _ (H1 & H2 & H3) _]. assert (0 < es <= 8) as He by (unfold es; destruct (elt_size_type (t_datatype task)); lia).
  assert (0 <= (c - channelLo w - 1) * countMid w) by (apply Z.mul_nonneg_nonneg; lia).
  assert ((c - channelLo w - 1) * countMid w <= countMid w * (channelHi w - channelLo w - 1)) by (rewrite Z.mul_comm; apply Z.mul_le_mono_nonneg_l; lia).
  set (x := countLo w + (c - channelLo w - 1) * countMid w) in *. assert (0 <= x <= countLo w + countMid w * (channelHi w - channelLo w - 1) + countHi w) as Hx by lia.
  assert (x * es <= (countLo w + countMid w * (channelHi w - channelLo w - 1) + countHi w) * es) by (apply Z.mul_le_mono_nonneg_r; lia).
  assert (x <= x * es) by nia. split; [nia|]. apply usmall. lia.
Qed.

Lemma counts_small : 0 <= countLo w * es < 2 ^ 60 /\ (channelLo w < channelHi w -> 0 <= countHi w * es < 2 ^ 60) /\ (channelLo w + 1 < channelHi w -> 0 <= countMid w * es < 2 ^ 60).
Proof.
  destruct Hcbd as [Hle Hs (H1 & H2 & H3) _]. assert (0 < es <= 8) as He by (unfold es; destruct (elt_size_type (t_datatype task)); lia).
  destruct (Z.eq_dec (channelLo w) (channelHi w)) as [E|E].
  - destruct (Hs E) as [Hm Hh]. rewrite Hm, Hh in *. split; [nia|lia].
  - set (n := channelHi w - channelLo w - 1) in *. assert (0 <= n) by lia. assert (0 <= countMid w * n) by (apply Z.mul_nonneg_nonneg; lia). split; [nia|]. split; [nia|]. intros Hn.
    assert (countMid w <= countMid w * n) by nia. nia.
Qed.

Lemma good_mid c op : channelLo w < c < channelHi w -> good (channelLo w + 1) op <-> good c op.
Proof.
  intros Hc. assert (cp_chunkCount (part_at c) = cp_chunkCount (part_at (channelLo w + 1))) as E.
  { unfold part_at, ncclCollCbdPart. rewrite !(proj2 (Z.eqb_neq _ _)) by lia. done. }
  unfold good. by rewrite E.
Qed.

(** The values the loop computes are those of the device's part. *)
Lemma part_values c : channelLo w <= c <= channelHi w ->
  cp_partOffset (part_at c) * es = (if c =? channelLo w then 0 else if c =? channelHi w then u64 ((countLo w + nMid * countMid w) * es)
                                    else u64 ((countLo w + (c - channelLo w - 1) * countMid w) * es)) /\
  cp_partCount (part_at c) * es = u64 ((if c =? channelLo w then countLo w else if c =? channelHi w then countHi w else countMid w) * es).
Proof.
  intros Hc. destruct counts_small as (Hs1 & Hs2 & Hs3). unfold part_at, ncclCollCbdPart.
  destruct (Z.eqb_spec c (channelLo w)) as [E1|E1]; cbn [cp_partOffset cp_partCount]; [split; [lia|by rewrite usmall by lia]|].
  destruct (part_small c ltac:(lia)) as [Hp1 Hp2]. destruct (Z.eqb_spec c (channelHi w)) as [E2|E2]; cbn [cp_partOffset cp_partCount].
  - rewrite HnMid, <- E2, Hp2 by lia. rewrite E2 in *. rewrite !usmall by lia. done.
  - rewrite Hp2. rewrite !usmall by lia. done.
Qed.

(** The state of the loop before channel [c]. *)
Definition loop_inv (s0 : sched) (c : Z) (r : ops3 * sched) : Prop := same_frame s0 r.2 /\ grown asks_cbd s0 r.2 (channelLo w) c /\
  sched_inv r.2 (spread (channelLo w) c (fun l => l ++ [wk]) ws) (spread (channelLo w) c (fun _ => off + 1) bnd) (fun _ => rot_id count) R /\
  good (channelLo w) (op_lo r.1) /\ (channelLo w < channelHi w -> good (channelHi w) (op_hi r.1)) /\ (channelLo w + 1 < channelHi w -> good (channelLo w + 1) (op_mid r.1)).

Lemma channel_step s0 s c which offset size : channelLo w <= c <= channelHi w -> pl_workBytes (sd_plan s0) = off -> (forall c, bnd c <= off) -> same_frame s0 s -> grown asks_cbd s0 s (channelLo w) c ->
  sched_inv s (spread (channelLo w) c (fun l => l ++ [wk]) ws) (spread (channelLo w) c (fun _ => off + 1) bnd) (fun _ => rot_id count) R -> good c which ->
  offset = cp_partOffset (part_at c) * es -> size = cp_partCount (part_at c) * es ->
  wp (channel_op comm task wt count c which offset size s) (fun r => good c r.1 /\ same_frame s0 r.2 /\ grown asks_cbd s0 r.2 (channelLo w) (c + 1) /\
    sched_inv r.2 (spread (channelLo w) (c + 1) (fun l => l ++ [wk]) ws) (spread (channelLo w) (c + 1) (fun _ => off + 1) bnd) (fun _ => rot_id count) R).
Proof.
  intros Hc Hwb Hb Hf Hgr Hi Hg Ho Hs. assert (pl_workBytes (sd_plan s) = off) as Hwb' by (by rewrite (same_frame_bytes _ _ Hf)).
  assert (spread (channelLo w) c (fun _ => off + 1) bnd c <= off) as Hb' by (unfold spread; destruct (Z.leb_spec (channelLo w) c), (Z.ltb_spec c c); simpl; try lia; apply Hb).
  eapply wpx_mono; [eapply channel_op_spec; [exact Hc|lia|exact Hg|exact Ho|exact Hs|exact Hi|exact Hwb'|exact Hb']| |done].
  intros [op s'] (Hg' & Hf' & Hi' & g & Hga & Hap). cbn [fst snd] in *. split_and!; [done|by eapply same_frame_trans|by eapply grown_step; [lia|..]|]. revert Hi'. apply inv_ext; intros x Hx; rewrite spread_next by lia; done || lia.
Qed.

Lemma channels_spec ops s0 : sched_inv s0 ws bnd (fun _ => rot_id count) R -> pl_workBytes (sd_plan s0) = off -> (forall c, bnd c <= off) ->
  good (channelLo w) (op_lo ops) -> (channelLo w < channelHi w -> good (channelHi w) (op_hi ops)) -> (channelLo w + 1 < channelHi w -> good (channelLo w + 1) (op_mid ops)) ->
  wp (for_range (channelLo w) (channelHi w + 1) (cbd_channel comm task wt w nMid count) (ops, s0)) (fun r => same_frame s0 r.2 /\ grown asks_cbd s0 r.2 (channelLo w) (channelHi w + 1) /\
    sched_inv r.2 (spread (channelLo w) (channelHi w + 1) (fun l => l ++ [wk]) ws) (fun _ => off + 1) (fun _ => rot_id count) R).
Proof.
  intros Hinv Hwb Hb Hg1 Hg2 Hg3. pose proof (cbd_channels _ Hcbd) as Hle. eapply (wpx_for (loop_inv s0)); [lia|..].
  - split_and!; try done; [apply same_frame_refl|apply grown_start|]. eapply inv_ext; [..|exact Hinv]; intros; cbn beta; rewrite spread_nil; done || lia.
  - intros c [o s] Hc (Hf & Hgr & Hi & G1 & G2 & G3). cbn [fst snd] in *. unfold cbd_channel. cbv zeta. fold es.
    destruct (part_values c ltac:(lia)) as [Vo Vs].
    destruct (Z.eqb_spec c (channelLo w)) as [E1|E1]; [|destruct (Z.eqb_spec c (channelHi w)) as [E2|E2]]; apply wpx_bind;
      (eapply wpx_mono; [eapply (channel_step s0 s c); [lia|exact Hwb|exact Hb|exact Hf|exact Hgr|exact Hi| |by symmetry|by symmetry]| |done]).
    + by rewrite E1.
    + intros [op s'] (Hg & Hf' & Hgr' & Hi'). rewrite E1 in Hg at 1. split_and!; done.
    + rewrite E2. apply G2. lia.
    + intros [op s'] (Hg & Hf' & Hgr' & Hi'). rewrite E2 in Hg at 1. split_and!; done.
    + apply (good_mid c); [lia|apply G3; lia].
    + intros [op s'] (Hg & Hf' & Hgr' & Hi'). split_and!; try done. intros _. apply (good_mid c); [lia|done].
  - intros [o s] (Hf & Hgr & Hi & _). cbn [fst snd] in *. split; [done|]. split; [done|]. eapply inv_ext; [..|exact Hi]; intros x Hx; [done|].
    unfold spread. specialize (Hb x). destruct (_ && _); lia.
Qed.
End task.

(** ** One task *)

(** The number of channels [calcCollChunking] is asked for. *)
Definition width (t : ncclTaskColl) : Z := if t_isCollnet t then t_nMaxChannels t else 1.

(** PAT connects all ranks; the model counts the steps of its schedule within the
    fuel, and finds the counters of the generator as they were. *)
Record pat_ready (comm : sched_comm) (t : ncclTaskColl) : Prop := {
  pr_ranks : px_nRanks (sc_proxy comm) = cc_nRanks (sc_coll comm) /\ px_nRanks (sc_proxy comm) <= 2 ^ 15 /\ 0 <= px_rank (sc_proxy comm) < px_nRanks (sc_proxy comm);
  pr_fuel : enough (ncclTypeSize (t_datatype t) * t_count t) (sc_fuel comm);
  pr_junk : length (sc_junk comm).1.2 = 32%nat /\ length (sc_junk comm).2 = 32%nat;
  pr_peers ch send peer : ch ∈ px_channels (sc_proxy comm) -> 0 <= peer < px_nRanks (sc_proxy comm) -> has_transport ch (send, peer, 0);
}.

Lemma pat_save_total px ch up r s k : ch ∈ px_channels px -> 2 <= px_nRanks px <= 2 ^ 15 -> 0 <= px_rank px < px_nRanks px ->
  (forall send peer, 0 <= peer < px_nRanks px -> has_transport ch (send, peer, 0)) ->
  Z.of_nat (length r) = log2Up int32 (px_nRanks px) -> Z.of_nat (length s) = log2Up int32 (px_nRanks px) -> exists k', pat_save px ch true up r s k = Ret k'.
Proof.
  intros Hch Hn Hr Hp Hlr Hls. destruct (wp_elim (pat_save px ch true up r s k) (fun _ => True)) as (k' & H & _); [|by exists k']. unfold pat_save. cbv zeta.
  apply (wpx_for (fun _ _ => True)); try done; [lia|]. intros i k0 Hi _. assert (i < 31) as Hi31.
  { destruct Hi as [_ Hi]. rewrite log2Up_log2_up in Hi; [|change (builtin_width int32) with 32; lia|apply conv_in_range; [done|unfold in_range; cbn; lia]].
    pose proof (Z.log2_up_le_pow2 (px_nRanks px) 15 ltac:(lia)) as [H _]. specialize (H ltac:(lia)). lia. }
  unfold shl1. rewrite (proj2 (Z.leb_le 0 i)), (proj2 (Z.ltb_lt i 31)) by lia. cbn [andb mbind outcome_bind]. set (n := px_nRanks px) in *.
  assert (2 ^ i < n) as Hd.
  { destruct Hi as [Hi0 Hi]. rewrite log2Up_log2_up in Hi; [|change (builtin_width int32) with 32; lia|apply conv_in_range; [done|unfold in_range; cbn; lia]].
    pose proof (Z.log2_up_lt_pow2 n i ltac:(lia)) as [_ H]. tauto. }
  pose proof (pow2_pos i ltac:(lia)) as Hp2.
  destruct (zget_in_bounds s i) as (ns & -> & _); [lia|]. cbn [mbind outcome_bind]. rewrite !rem_mod_nonneg by lia.
  pose proof (Z.mod_pos_bound (px_rank px + 2 ^ i) n ltac:(lia)) as M1. pose proof (Z.mod_pos_bound (px_rank px - 2 ^ i + n) n ltac:(lia)) as M2.
  assert (forall send k1, exists k2, SaveProxy px ch send (if up then (px_rank px + 2 ^ i) mod n else (px_rank px - 2 ^ i + n) mod n) 0 true k1 = Ret k2) as T1
    by (intros; apply SaveProxy_total, Hp; by destruct up).
  assert (forall send k1, exists k2, SaveProxy px ch send (if up then (px_rank px - 2 ^ i + n) mod n else (px_rank px + 2 ^ i) mod n) 0 true k1 = Ret k2) as T2
    by (intros; apply SaveProxy_total, Hp; by destruct up).
  set (m1 := if negb (ns =? 0) then _ else _). assert (exists k2, m1 = Ret k2) as [k2 ->] by (unfold m1; destruct (negb _); [apply T1|by eexists]). cbn [mbind outcome_bind].
  destruct (zget_in_bounds r i) as (nr & -> & _); [lia|]. cbn [mbind outcome_bind]. destruct (negb _); [|done]. match goal with |- wp (SaveProxy _ _ _ _ _ _ ?kk) _ => destruct (T2 false kk) as [k3 ->] end. done.
Qed.

(** A task the scheduler handles without error: its channels are connected, its
    chunks hold a grain, its sizes fit their types, and if the network registered
    its buffers then as [ncclRegisterCollBuffers] does. *)
Record task_wf (comm : sched_comm) (t : ncclTaskColl) (pattern : ncclPattern_t) : Prop := {
  tw_reg : net_reg t = false \/ switch_alg t = true \/ t_algorithm t = NCCL_ALGO_RING;
  tw_ring : net_reg t = true -> t_algorithm t = NCCL_ALGO_RING -> ring_ready comm t;
  tw_collnet : t_isCollnet t = true -> t_algorithm t = NCCL_ALGO_COLLNET_DIRECT \/ t_algorithm t = NCCL_ALGO_COLLNET_CHAIN;
  tw_count : 0 < t_count t;
  tw_func : 0 <= t_devFuncId t < 2 ^ 15;
  tw_pattern : choose_pattern (t_func t) (t_algorithm t) = Ret pattern;
  tw_wired : wired (sc_proxy comm) pattern;
  tw_pat : pattern = ncclPatternPatUp \/ pattern = ncclPatternPatDown -> pat_ready comm t;
  tw_chunk : chunk_wf (sc_coll comm) t (width t);
  tw_room : grain t <= start_chunk (sc_coll comm) t;
  tw_steps : steps_wf (sc_coll comm) t (per_element comm t * t_count t);
  tw_grains : start_chunk (sc_coll comm) t / grain t < 2 ^ 21;
  tw_traffic : t_count t * ncclTypeSize (t_datatype t) * per_byte comm t <= t_trafficBytes t;
  tw_channels : 1 <= t_nMaxChannels t /\ 0 < nMax_of comm t <= 64 /\ (t_isCollnet t = true -> t_nMaxChannels t <= nMax_of comm t);
  tw_cleanup : 0 <= t_nCleanupQueueElts t;
}.

Section place.
Context (comm : sched_comm) (t : ncclTaskColl) (pattern : ncclPattern_t) (Ht : task_wf comm t pattern).
Let es := ncclTypeSize (t_datatype t).

Lemma per_element_spec : es <= per_element comm t < 2 ^ 24 /\ u64 (per_element comm t) = per_element comm t.
Proof.
  assert (0 < es <= 8) as He by (unfold es; destruct (elt_size_type (t_datatype t)); lia). pose proof (sw_ranks _ _ _ (tw_steps _ _ _ Ht)) as Hr.
  assert (1 <= ncclFuncMaxSendRecvCount (t_func t) (cc_nRanks (sc_coll comm)) 1 <= 2 ^ 20) as Hm.
  { unfold ncclFuncMaxSendRecvCount. destruct (t_func t); rewrite ?usmall by lia; lia. }
  unfold per_element. fold es. assert (es <= es * ncclFuncMaxSendRecvCount (t_func t) (cc_nRanks (sc_coll comm)) 1 < 2 ^ 24) by nia. split; [done|]. apply usmall. lia.
Qed.

Lemma per_byte_spec : 0 < per_byte comm t < 2 ^ 24.
Proof.
  pose proof (sw_ranks _ _ _ (tw_steps _ _ _ Ht)) as Hr. unfold per_byte. assert (1 <= ncclFuncTrafficPerByte (t_func t) (cc_nRanks (sc_coll comm)) < 2 ^ 20) as H1.
  { unfold ncclFuncTrafficPerByte. destruct (t_func t); lia. }
  destruct (_ =? _); lia.
Qed.

Lemma total_bytes : per_element comm t * t_count t < 2 ^ 40 /\ t_count t * es < 2 ^ 40.
Proof.
  destruct (sw_bytes _ _ _ (tw_steps _ _ _ Ht)) as [Hp Hb]. pose proof (grain_cases _ _ _ (tw_chunk _ _ _ Ht)) as Hg. pose proof (sw_ranks _ _ _ (tw_steps _ _ _ Ht)) as Hr.
  destruct per_element_spec as [He _]. pose proof (tw_count _ _ _ Ht). set (n := per_element comm t * t_count t) in *.
  assert (n < 2 ^ 40) as Hn by (pose proof (Z.div_mod n (grain t)); pose proof (Z.mod_pos_bound n (grain t)); nia). split; [done|]. nia.
Qed.

Lemma steps_part m : 0 < m <= t_count t -> steps_wf (sc_coll comm) t (per_element comm t * m).
Proof.
  intros Hm. destruct (tw_steps _ _ _ Ht) as [H1 H2 H3 H4 [H5 H6]]. split; try done. pose proof (grain_cases _ _ _ (tw_chunk _ _ _ Ht)) as Hg.
  destruct per_element_spec as [He _]. assert (0 < es) by (unfold es; destruct (elt_size_type (t_datatype t)); lia). split; [nia|].
  assert (per_element comm t * m / grain t <= per_element comm t * t_count t / grain t) by (apply Z.div_le_mono; [lia|apply Z.mul_le_mono_nonneg_l; lia]). lia.
Qed.

(** A grain is a whole number of elements. *)
Lemma grain_elements : exists e, grain t `quot` es = e /\ e * es = grain t /\ 0 < e <= 1920.
Proof.
  pose proof (grain_cases _ _ _ (tw_chunk _ _ _ Ht)) as Hgc.
  unfold es. destruct (elt_size_type (t_datatype t)) as [-> | [-> | [-> | ->]]], Hgc as [-> | [-> | ->]]; eexists; (split; [reflexivity|]); vm_compute; split; congruence || split; congruence.
Qed.

(** The grains given to the device denote the chunk of the proxy. *)
Lemma grains_exact chunk : (grain t | chunk) -> 0 <= chunk / grain t < 2 ^ 21 ->
  u64 (grains_of (t_protocol t) chunk * (ncclProtoGrainSize (t_protocol t) `quot` es)) * es = chunk.
Proof.
  intros [q ->] Hc. pose proof (grain_cases _ _ _ (tw_chunk _ _ _ Ht)) as Hgc. unfold grains_of. fold (grain t).
  rewrite (usmall (grain t)) by lia. rewrite Z.div_mul in * by lia. rewrite (Z.mod_small q) by lia. destruct grain_elements as (e & -> & He & He').
  rewrite usmall by nia. nia.
Qed.

Lemma pat_funcs func alg p : choose_pattern func alg = Ret p -> p = ncclPatternPatUp \/ p = ncclPatternPatDown -> func = ncclFuncAllGather \/ func = ncclFuncReduceScatter.
Proof.
  intros H Hp. destruct func; auto; cbn [choose_pattern] in H; try discriminate; injection H as <-; exfalso; revert Hp;
    repeat match goal with |- context [?a =? ?b] => destruct (a =? b) end; by intros [?|?].
Qed.

(** The inquiry for a PAT operation counts its schedule to the end. *)
Lemma pat_answers op m : pattern = ncclPatternPatUp \/ pattern = ncclPatternPatDown -> op_pattern (op_kd (op_payload op)) = pattern -> 0 <= op_channelId op < 64 ->
  0 < m <= t_count t -> op_nbytes (op_sh (op_payload op)) = per_element comm t * m -> 0 < op_chunkSize (op_sh (op_payload op)) -> answers comm op.
Proof.
  intros Hp Hop Hc Hm Hnb Hck st _. destruct (tw_pat _ _ _ Ht Hp) as [(Hn & Hn15 & Hr) Hf [Hj1 Hj2] Hpe]. destruct (tw_wired _ _ _ Ht) as [Hl _ Hn2 _ _].
  unfold ncclProxySaveOp. cbn [k_op k_state k_needed]. rewrite Hop. destruct (zget_in_bounds (px_channels (sc_proxy comm)) (op_channelId op)) as (ch & -> & Hch); [lia|]. cbn [mbind outcome_bind].
  apply list_elem_of_lookup_2 in Hch. set (px := sc_proxy comm) in *. assert (0 < es) as Hes by (unfold es; destruct (elt_size_type (t_datatype t)); lia).
  assert (op_nbytes (op_sh (op_payload op)) `quot` px_nRanks px = es * m) as Hsz.
  { rewrite Hnb. unfold per_element. fold es. assert (ncclFuncMaxSendRecvCount (t_func t) (cc_nRanks (sc_coll comm)) 1 = px_nRanks px) as ->.
    { rewrite <- Hn. pose proof (pat_funcs _ _ _ (tw_pattern _ _ _ Ht) Hp) as [-> | ->]; cbn [ncclFuncMaxSendRecvCount]; rewrite usmall by lia; lia. }
    replace (es * px_nRanks px * m) with (es * m * px_nRanks px) by lia. apply Z.quot_mul. lia. }
  assert (enough (es * m) (sc_fuel comm)) as Hf' by (unfold enough in *; fold es in Hf; nia). assert (0 < es * m) as Hpos by nia.
  destruct Hp as [-> | ->]; rewrite (proj2 (Z.eqb_neq (px_nRanks px) 0)) by lia; cbn [negb require mbind outcome_bind]; rewrite Hsz.
  - destruct (PatRS_counted (sc_fuel comm) (sc_junk comm).1.1 (es * m) (op_chunkSize (op_sh (op_payload op))) (px_rank px) (px_nRanks px)) as (c & g & r & s & -> & Hcnt & H1 & H2); try done; [lia|].
    cbv zeta in Hcnt. cbn [mbind outcome_bind]. rewrite Hcnt. cbn [mbind outcome_bind]. by apply pat_save_total; try done; intros; apply Hpe.
  - destruct (PatAG_counted (sc_fuel comm) (sc_junk comm).1.1 (sc_junk comm).1.2 (sc_junk comm).2 (es * m) (op_chunkSize (op_sh (op_payload op))) (px_rank px) (px_nRanks px))
      as (c & ad & g & r & s & -> & Hcnt & H1 & H2); try done.
    cbv zeta in Hcnt. cbn [mbind outcome_bind]. rewrite Hcnt. cbn [mbind outcome_bind]. by apply pat_save_total; try done; intros; apply Hpe.
Qed.

Lemma answers_made op : made_op comm t pattern op -> 0 <= op_channelId op < 64 -> answers comm op.
Proof.
  intros [H1 H2 H3 H4 H5] Hc. assert (is_pat : {pattern = ncclPatternPatUp \/ pattern = ncclPatternPatDown} + {pattern <> ncclPatternPatUp /\ pattern <> ncclPatternPatDown})
    by (destruct pattern; auto; by right).
  destruct is_pat as [Hp|Hp].
  - destruct (H5 Hp) as ((m & Hm & Hn) & Hk). pose proof (grain_cases _ _ _ (tw_chunk _ _ _ Ht)). apply (pat_answers op m); done || lia.
  - apply (answers_plain comm pattern); try done; [apply Ht|]. destruct (pattern_coll _ _ _ (tw_pattern _ _ _ Ht)) as (? & ? & ?). by repeat split; try apply Hp.
Qed.

(** The operation that [calcCollChunking] makes of [m] elements over [n] channels,
    and its chunk. *)
Lemma made_part n m : chunk_wf (sc_coll comm) t n -> (t_algorithm t = NCCL_ALGO_PAT -> n = 1) -> 0 < m <= t_count t -> exists chunk flags a,
  calcCollChunking (sc_coll comm) t n (u64 (u64 (per_element comm t) * m)) = Ret (chunk, flags, a) /\ u64 (u64 (per_element comm t) * m) = per_element comm t * m /\
  made_op comm t pattern (MkProxyOp 0 0 a) /\ op_chunkSize (op_sh a) = chunk /\ (grain t | chunk) /\ 0 <= chunk / grain t < 2 ^ 21.
Proof.
  intros Hwf Hpat1 Hm. destruct per_element_spec as [He ->]. destruct total_bytes as [Hb _]. assert (0 < es) by (unfold es; destruct (elt_size_type (t_datatype t)); lia).
  rewrite usmall by nia. destruct (calcCollChunking_spec _ _ n _ Hwf (steps_part m Hm) (tw_room _ _ _ Ht) (tw_reg _ _ _ Ht)) as (chunk & flags & a & E & [Hk Hr Ho Hc _ Hbt _]).
  destruct Hk as (Hk & Hco & _). rewrite (tw_pattern _ _ _ Ht) in Hk. injection Hk as Hk. pose proof (chunk_steps_range _ _ _ Hwf) as Hcs.
  assert (op_sliceSteps (op_sh a) <> 0) as Hss by (destruct (offloaded _ _); [destruct Hc as (_ & _ & _ & ->); lia|destruct Hc as (_ & _ & _ & _ & _ & ->); lia]).
  exists chunk, flags, a. split; [done|]. split; [done|].
  assert ((grain t | chunk) /\ 0 <= chunk / grain t < 2 ^ 21) as Hgr.
  { pose proof (grain_cases _ _ _ Hwf) as Hgc. destruct (offloaded (sc_coll comm) t) eqn:Hof.
    - destruct Hc as (-> & _). unfold offloaded in Hof. rewrite !andb_true_iff, Z.eqb_eq in Hof. destruct Hof as [[[Hn Hri] _] _]. pose proof (rr_proto _ _ (tw_ring _ _ _ Ht Hn Hri)) as Hp.
      unfold grain. rewrite Hp. split; [by exists 1024|by vm_compute].
    - destruct Hc as (Hd & Hle & _). split; [done|]. split; [apply Z.div_pos; lia|]. eapply Z.le_lt_trans; [|exact (tw_grains _ _ _ Ht)]. apply Z.div_le_mono; lia. }
  split_and!; try done; try apply Hgr. split; cbn [op_payload]; try done; [rewrite Hco; apply (sw_func _ _ _ (tw_steps _ _ _ Ht))|]. intros Hp.
  pose proof (pattern_pat _ _ _ (tw_pattern _ _ _ Ht) Hp) as Ha. assert (net_reg t = false) as Hnr.
  { destruct (tw_reg _ _ _ Ht) as [?|[Hs|Hs]]; [done| |]; [unfold switch_alg in Hs|]; rewrite Ha in Hs; done. }
  assert (offloaded (sc_coll comm) t = false) as Hof by (unfold offloaded; by rewrite Hnr). rewrite Hof in Hc. rewrite Hnr, <- Hk, (Hpat1 Ha) in Hbt.
  split; [|rewrite Ho; tauto]. exists m. split; [done|]. rewrite Hbt. assert (0 <= per_element comm t * m) by nia. destruct Hp as [-> | ->]; (rewrite divUp_div by lia; rewrite Z.div_1_r; lia).
Qed.

Definition ready_args (g : Z) (a : proxy_args) : Prop := made_op comm t pattern (MkProxyOp 0 0 a) /\
  op_chunkSize (op_sh a) = u64 (g * (ncclProtoGrainSize (t_protocol t) `quot` es)) * es.

Lemma chunking_part m : t_isCollnet t = false -> 0 < m <= t_count t -> exists chunk flags a,
  calcCollChunking (sc_coll comm) t 1 (u64 (u64 (per_element comm t) * m)) = Ret (chunk, flags, a) /\ ready_args (grains_of (t_protocol t) chunk) a.
Proof.
  intros Hnc Hm. pose proof (tw_chunk _ _ _ Ht) as Hwf. unfold width in Hwf. rewrite Hnc in Hwf. destruct (made_part 1 m Hwf ltac:(done) Hm) as (chunk & flags & a & E & _ & Hmd & Hck & Hd & Hg).
  exists chunk, flags, a. split; [done|]. split; [done|]. rewrite Hck. symmetry. by apply grains_exact.
Qed.

Lemma chunk_part_spec m d : t_isCollnet t = false -> 0 <= m <= t_count t -> exists g d' a, chunk_part comm t (u64 (per_element comm t)) m d = Ret (g, d', a) /\ (0 < m -> ready_args g a).
Proof.
  intros Hnc Hm. unfold chunk_part. destruct (Z.eqb_spec m 0) as [->|Hne]; [eexists _, _, _; split; [done|lia]|].
  destruct (chunking_part m Hnc ltac:(lia)) as (chunk & flags & a & -> & Ha). by eexists _, _, _.
Qed.

(** A work struct that distributes the task over channels below [nMax]. *)
Record cbd_for (w : ncclDevWorkColl) : Prop := {
  wf_cbd : cbd_wf w; wf_channels : 0 <= channelLo w /\ channelHi w < nMax_of comm t;
  wf_total : countLo w + countMid w * (channelHi w - channelLo w - 1) + countHi w = t_count t; wf_first : 0 < countLo w }.

(** A task that is reduced in the network runs whole on its first channels. *)
Definition work_for (part : coll_part) : Prop :=
  match part with
  | Cbd w => t_isCollnet t = false /\ cbd_for w
  | Collnet lo hi n _ => t_isCollnet t = true /\ lo = 0 /\ hi = t_nMaxChannels t - 1 /\ n = t_count t
  end.

Lemma work_channels part : work_for part -> 0 <= part_lo part <= part_hi part /\ part_hi part < nMax_of comm t.
Proof.
  destruct part as [w|lo hi n k]; intros H; cbn [part_lo part_hi].
  - destruct H as [_ [[? _ _ _] ? _ _]]. lia.
  - destruct H as (Hn & -> & -> & _). destruct (tw_channels _ _ _ Ht) as (? & _ & Hle). specialize (Hle Hn). lia.
Qed.

(** Where the next task starts. *)
Record cursor_ok (cu : cursor) : Prop := {
  cr_traffic : 2 ^ 14 <= cu_trafficPerChannel cu < 2 ^ 62 /\ t_trafficBytes t <= 2 ^ 20 * cu_trafficPerChannel cu;
  cr_channel : 0 <= cu_channelId cu < nMax_of comm t;
  cr_current : 0 <= cu_currentTraffic cu /\ (cu_currentTraffic cu < cu_trafficPerChannel cu \/ cu_channelId cu + 1 = nMax_of comm t);
}.

(** The next task's cursor, if it is of the same kind. *)
Record cursor_next (cu cu' : cursor) : Prop := {
  cn_same : cu_kindPrev cu' = cu_kindPrev cu /\ cu_trafficPerChannel cu' = cu_trafficPerChannel cu;
  cn_channel : 0 <= cu_channelId cu' < nMax_of comm t;
  cn_current : 0 <= cu_currentTraffic cu' /\ (cu_currentTraffic cu' < cu_trafficPerChannel cu' \/ cu_channelId cu' + 1 = nMax_of comm t);
}.

Lemma split_work sp w channelId gLo gMid gHi : split_ok (t_count t) channelId (nMax_of comm t) sp -> 0 <= channelId ->
  w = Build_ncclDevWorkColl (u8 channelId) (u8 (channelId + sp_nChannels sp - 1)) (sp_countLo sp) (sp_countMid sp) (sp_countHi sp) gLo gMid gHi ->
  cbd_for w /\ channelLo w = channelId /\ channelHi w = channelId + sp_nChannels sp - 1 /\ (channelLo w < channelHi w -> sp_nMid sp = channelHi w - channelLo w - 1 /\ 0 < sp_countHi sp) /\
  (channelLo w + 1 < channelHi w -> sp_nMid sp <> 0).
Proof.
  intros [H1 H2 H3 (H4 & H5 & H6) _ (H7 & H8 & H9) H10] Hc ->. assert (1 <= sp_nChannels sp) as Hn1 by (destruct (_ =? _) in H2; lia). destruct (tw_channels _ _ _ Ht) as (_ & Hm & _). destruct total_bytes as [_ Hb].
  assert (t_count t < 2 ^ 40) as Hcount by (assert (0 < es) by (unfold es; destruct (elt_size_type (t_datatype t)); lia); nia).
  assert (0 <= sp_nMid sp * sp_countMid sp) by (apply Z.mul_nonneg_nonneg; lia).
  assert (u8 channelId = channelId) as -> by (apply Z.mod_small; lia). assert (u8 (channelId + sp_nChannels sp - 1) = channelId + sp_nChannels sp - 1) as ->.
  { apply Z.mod_small. destruct (_ =? _) in H2; lia. }
  cbn [channelLo channelHi]. destruct (Z.eqb_spec (sp_countHi sp) 0) as [E|E].
  - specialize (H6 E). specialize (H5 H6). rewrite H6, H5, E in *. split; [|lia].
    split; cbn [channelLo channelHi countLo countMid countHi]; try lia. split; cbn [channelLo channelHi countLo countMid countHi]; lia.
  - split; [|lia]. replace (channelId + sp_nChannels sp - 1 - channelId - 1) with (sp_nMid sp) in * by lia.
    assert (channelId + sp_nChannels sp - 1 - channelId - 1 = sp_nMid sp) as En by lia.
    split; cbn [channelLo channelHi countLo countMid countHi]; rewrite ?En; try lia. split; cbn [channelLo channelHi countLo countMid countHi]; rewrite ?En; lia.
Qed.

Lemma bump_inv s ws bnd key R : sched_inv s ws bnd key R -> sched_inv (bump_opCount s) ws bnd key R.
Proof. intros [? ? ? ? ? ? ?]. by split. Qed.

(** The operations of the parts, handed to the loop over the channels. *)
Lemma place_channels node s ws bnd off i (R : Z -> ncclProxyOp -> Prop) w nMid aLo aMid aHi : cbd_for w -> (channelLo w < channelHi w -> nMid = channelHi w - channelLo w - 1) ->
  0 <= off < 2 ^ 32 -> 0 <= i < 2 ^ 31 -> (forall c op, channelLo w <= c <= channelHi w -> part_op comm t (Cbd w) (2 * i) pattern c op -> R c op) ->
  sched_inv s ws bnd (fun _ => i) R -> pl_workBytes (sd_plan s) = off -> (forall c, bnd c <= off) ->
  ready_args (chunkGrainsLo w) aLo -> (channelLo w < channelHi w -> ready_args (chunkGrainsHi w) aHi) -> (channelLo w + 1 < channelHi w -> ready_args (chunkGrainsMid w) aMid) ->
  wp (for_range (channelLo w) (channelHi w + 1) (cbd_channel comm t (wn_type node) w nMid (2 * i))
       (MkOps3 (MkProxyOp (2 * i) 0 aLo) (MkProxyOp (2 * i) 0 aMid) (MkProxyOp (2 * i) 0 aHi), bump_opCount s))
    (fun r => same_frame (bump_opCount s) r.2 /\ grown (asks comm t (Cbd w) (2 * i) pattern) (bump_opCount s) r.2 (channelLo w) (channelHi w + 1) /\
       sched_inv r.2 (spread (channelLo w) (channelHi w + 1) (fun l => l ++ [MkWork (wn_type node) (t_devFuncId t) off (-1)]) ws) (fun _ => off + 1) (fun _ => i) R).
Proof.
  intros Hw HnMid Hoff Hi HR Hinv Hwb Hbnd HLo HHi HMid. destruct total_bytes as [_ Hb]. destruct (tw_channels _ _ _ Ht) as (_ & Hm & _). pose proof (wf_channels _ Hw).
  assert (rot_id (2 * i) = i) as Hrot by (rewrite rot_id_eq by lia; dlia).
  assert (forall a g c, ready_args g a -> cp_chunkCount (part_at t w c) = u64 (g * (ncclProtoGrainSize (t_protocol t) `quot` es)) -> good comm t w pattern c (MkProxyOp (2 * i) 0 a)) as Hgood.
  { intros a g c (A1 & A4) Hg. split; [destruct A1; by split|]. cbn [op_payload]. rewrite Hg. done. }
  eapply wpx_mono; [eapply (channels_spec comm t (wn_type node) w nMid (2 * i) off pattern) with (bnd := bnd) (R := R)| |done]; cbn [op_lo op_hi op_mid];
    [apply Ht|apply answers_made|apply Ht|apply Ht|done|lia|done|apply Hw|lia|lia|done|rewrite (wf_total _ Hw); fold es; lia|rewrite Hrot; by apply bump_inv|done|done|..].
  - apply (Hgood _ _ _ HLo). unfold part_at, ncclCollCbdPart. by rewrite Z.eqb_refl.
  - intros Hlt. apply (Hgood _ _ _ (HHi Hlt)). unfold part_at, ncclCollCbdPart. by rewrite Z.eqb_refl, (proj2 (Z.eqb_neq _ _)) by lia.
  - intros Hlt. apply (Hgood _ _ _ (HMid Hlt)). unfold part_at, ncclCollCbdPart. by rewrite !(proj2 (Z.eqb_neq _ _)) by lia.
  - intros r Hr. by rewrite Hrot in Hr.
Qed.

(** The result of placing the task: the works of the channels, the operations; or
    the budget does not allow the task. *)
Definition placed_part (budget : ncclKernelPlanBudget) (node : ncclWorkList) (s : sched) (ws : Z -> list work) (off i : Z)
    (R : coll_part -> Z -> ncclProxyOp -> Prop) (part : coll_part) (s' : sched) : Prop :=
  work_for part /\ same_frame (bump_opCount s) s' /\ testBudget budget (pl_nWorkBatches (sd_plan s) + (part_hi part - part_lo part + 1)) (off + wn_size node) = true /\
  grown (asks comm t part (2 * i) pattern) s s' (part_lo part) (part_hi part + 1) /\
  sched_inv s' (spread (part_lo part) (part_hi part + 1) (fun l => l ++ [MkWork (wn_type node) (t_devFuncId t) off (-1)]) ws) (fun _ => off + 1) (fun _ => i) (R part).

Definition no_room (budget : ncclKernelPlanBudget) (node : ncclWorkList) (s : sched) (off : Z) : Prop :=
  exists n, 1 <= n <= nMax_of comm t /\ testBudget budget (pl_nWorkBatches (sd_plan s) + n) (off + wn_size node) = false.

Section placing.
Context (budget : ncclKernelPlanBudget) (node : ncclWorkList) (s : sched) (ws : Z -> list work) (bnd : Z -> Z) (off i : Z) (R : coll_part -> Z -> ncclProxyOp -> Prop).
Context (Hinv : forall part, sched_inv s ws bnd (fun _ => i) (R part)) (Hwb : pl_workBytes (sd_plan s) = off) (Hoff : 0 <= off < 2 ^ 32) (Hbnd : forall c, bnd c <= off).
Context (Hcc : pl_collOpCount (sd_plan s) = i) (Hi : 0 <= i < 2 ^ 31).
Context (HR : forall part c op, work_for part -> part_lo part <= c <= part_hi part -> part_op comm t part (2 * i) pattern c op -> R part c op).

Lemma op_id_eq : op_id s = 2 * i.
Proof. unfold op_id. rewrite Hcc, Z.shiftl_mul_pow2 by lia. change (2 ^ 1) with 2. rewrite usmall by lia. lia. Qed.

Lemma place_cbd_spec cu : t_isCollnet t = false -> cursor_ok cu ->
  wp (place_cbd comm budget t node cu (nMax_of comm t) s) (fun r => match r with
    | None => no_room budget node s off
    | Some (part, _, cu', s') => cursor_next cu cu' /\ placed_part budget node s ws off i R part s' end).
Proof.
  intros Hnc [[Htpc Htr] Hch [Hcur Hroom]]. destruct total_bytes as [_ Hb]. pose proof per_byte_spec as Hpb. pose proof (tw_traffic _ _ _ Ht) as Htt.
  destruct (tw_channels _ _ _ Ht) as (_ & Hm & _). pose proof (tw_count _ _ _ Ht) as Hcnt. unfold place_cbd. cbv zeta. fold (per_byte comm t). fold (per_element comm t). fold es in Htt |- *.
  destruct (split_cells_spec (t_count t) es (per_byte comm t) (cu_trafficPerChannel cu) (cu_currentTraffic cu) (cu_channelId cu) (nMax_of comm t)
    (elt_size_type _) Hpb Hcnt ltac:(lia) Htpc ltac:(lia) Hch ltac:(lia) Hcur Hroom) as (sp & -> & Hsp).
  cbn [mbind outcome_bind]. rewrite Hwb. pose proof Hsp as [Hsc Hsn Hsf (Hs1 & Hs2 & Hs3) Hsp' (Hs4 & Hs5 & Hs6) Hs7].
  assert (1 <= sp_nChannels sp <= nMax_of comm t) as Hn by (destruct (_ =? _) in Hsn; lia).
  destruct (testBudget budget _ _) eqn:Eb; cbn [negb]; [|cbn [wpx]; by exists (sp_nChannels sp)].
  assert (0 <= sp_nMid sp * sp_countMid sp) by (apply Z.mul_nonneg_nonneg; lia).
  destruct (chunk_part_spec (sp_countLo sp) 0 Hnc ltac:(lia)) as (gLo & d1 & aLo & -> & HLo). cbn [mbind outcome_bind].
  destruct (chunk_part_spec (sp_countHi sp) d1 Hnc ltac:(lia)) as (gHi & d2 & aHi & -> & HHi). cbn [mbind outcome_bind].
  set (mid := if sp_nMid sp =? 0 then _ else _).
  assert (exists gMid d3 aMid, mid = Ret (gMid, d3, aMid) /\ (sp_nMid sp <> 0 -> ready_args gMid aMid)) as (gMid & d3 & aMid & -> & HMid).
  { unfold mid. destruct (Z.eqb_spec (sp_nMid sp) 0) as [E|E]; [by eexists _, _, _|].
    specialize (Hsp' E). destruct (chunking_part (sp_countMid sp) Hnc ltac:(nia)) as (chunk & flags & a & -> & Ha). by eexists _, _, _. }
  cbn [mbind outcome_bind]. rewrite Hsc. set (w := Build_ncclDevWorkColl _ _ _ _ _ _ _ _).
  destruct (split_work sp w (cu_channelId cu) gLo gMid gHi Hsp ltac:(lia) eq_refl) as (Hw & Ew1 & Ew2 & Ew3 & Ew4).
  pose proof (next_channel_spec _ _ _ sp (cu_currentTraffic cu) (cu_trafficPerChannel cu) Hsp Hch Hcur ltac:(lia)) as Hnext.
  destruct (next_channel sp (cu_currentTraffic cu) (cu_trafficPerChannel cu) (nMax_of comm t)) as [c' cur']. destruct Hnext as (Hn1 & Hn2 & Hn3). rewrite op_id_eq.
  change (u8 (cu_channelId cu)) with (channelLo w). change (u8 (cu_channelId cu + sp_nChannels sp - 1)) with (channelHi w).
  apply wpx_bind. eapply wpx_mono; [apply (place_channels node s ws bnd off i (R (Cbd w))); [done|intros Hlt; by apply Ew3|done|done|intros c op Hcc0 Hop; by apply HR|apply Hinv|done|done|by apply HLo|intros Hlt; apply HHi, Ew3; lia|intros Hlt; by apply HMid, Ew4]| |done].
  intros [o s'] (Hf & Hg & Hi'). cbn [fst snd wpx] in *. split; [by split|]. split; [done|]. cbn [part_lo part_hi]. split_and!; try done.
  replace (channelHi w - channelLo w + 1) with (sp_nChannels sp) by lia. done.
Qed.

(** *** Tasks reduced in the network *)

Lemma collnet_step part a c op s0 s1 : let wk := MkWork (wn_type node) (t_devFuncId t) off (-1) in
  work_for part -> part_lo part <= c <= part_hi part -> made_op comm t pattern (MkProxyOp 0 0 a) -> same_part (op_payload op) a -> carries comm t part c (op_sh a) ->
  pl_workBytes (sd_plan s0) = off -> same_frame s0 s1 -> grown (asks comm t part (2 * i) pattern) s0 s1 (part_lo part) c ->
  sched_inv s1 (spread (part_lo part) c (fun l => l ++ [wk]) ws) (spread (part_lo part) c (fun _ => off + 1) bnd) (fun _ => i) (R part) ->
  wp (collnet_channel comm t (wn_type node) (2 * i) c (op, s1)) (fun r => same_part (op_payload r.1) a /\ same_frame s0 r.2 /\
    grown (asks comm t part (2 * i) pattern) s0 r.2 (part_lo part) (c + 1) /\
    sched_inv r.2 (spread (part_lo part) (c + 1) (fun l => l ++ [wk]) ws) (spread (part_lo part) (c + 1) (fun _ => off + 1) bnd) (fun _ => i) (R part)).
Proof.
  intros wk Hw Hc Hm Hsp Hca Hwb0 Hf Hg Hiv. unfold collnet_channel. rewrite (same_frame_bytes _ _ Hf), Hwb0. destruct (work_channels _ Hw) as [Hlh Hlt].
  destruct (tw_channels _ _ _ Ht) as (_ & Hn & _). assert (u8 c = c) as -> by (apply Z.mod_small; lia). assert (rot_id (2 * i) = i) as Hrot by (rewrite rot_id_eq by lia; dlia).
  cbv zeta. set (op1 := MkProxyOp (2 * i) c _).
  assert (made_op comm t pattern op1) as Hm1 by (eapply made_same; [|exact Hm]; destruct Hsp; by split).
  assert (part_op comm t part (2 * i) pattern c op1) as Hp1.
  { split; [done|done|left; apply Hm1|]. destruct Hsp as [_ _ (E1 & E2 & E3 & E4 & E5 & E6) _]. by eapply carries_same. }
  assert (spread (part_lo part) c (fun _ => off + 1) bnd c <= off) as Hb' by (unfold spread; destruct (Z.leb_spec (part_lo part) c), (Z.ltb_spec c c); simpl; try lia; apply Hbnd).
  eapply wpx_mono; [apply (added_spec comm t (wn_type node) (2 * i) off pattern (tw_wired _ _ _ Ht) answers_made (tw_func _ _ _ Ht) Hoff part (R part) op1 c s1); try done; [lia|intros; by apply HR|by rewrite Hrot]| |done].
  intros [op' s'] (Hl & Hf' & Hi' & g & Hga & Hap). rewrite Hrot in Hi'. cbn [fst snd] in *. split_and!; [|by eapply same_frame_trans|by eapply grown_step; [lia|..]|].
  - destruct Hl as [_ _ Hl]. cbn [op_payload op1] in Hl. destruct Hl as [L1 L2 L3 L4], Hsp as [S1 S2 S3 S4]. split; cbn in *; try congruence; intuition congruence.
  - revert Hi'. apply inv_ext; intros x Hx; rewrite spread_next by lia; done || lia.
Qed.

Lemma place_collnet_spec : t_isCollnet t = true ->
  wp (place_collnet comm budget t node s) (fun r => match r with
    | None => no_room budget node s off
    | Some (part, _, s') => placed_part budget node s ws off i R part s' end).
Proof.
  intros Hnc. destruct (tw_channels _ _ _ Ht) as (Hn1 & Hn & HnM). specialize (HnM Hnc). pose proof (tw_count _ _ _ Ht) as Hcnt. unfold place_collnet. cbv zeta. rewrite Hwb.
  destruct (testBudget budget _ _) eqn:Eb; cbn [negb]; [|cbn [wpx]; by exists (t_nMaxChannels t)]. fold (per_element comm t).
  pose proof (tw_chunk _ _ _ Ht) as Hwf. unfold width in Hwf. rewrite Hnc in Hwf.
  destruct (made_part (t_nMaxChannels t) (t_count t) Hwf) as (chunk & flags & a & E & Eb' & Hmd & Hck & Hd & Hg); [|lia|].
  { intros Ha. destruct (tw_collnet _ _ _ Ht Hnc) as [Ha'|Ha']; rewrite Ha in Ha'; done. }
  fold es. rewrite E. cbn [mbind outcome_bind]. rewrite op_id_eq. assert (u8 (t_nMaxChannels t - 1) = t_nMaxChannels t - 1) as -> by (apply Z.mod_small; lia).
  set (part := Collnet 0 (t_nMaxChannels t - 1) (t_count t) (u32 (chunk / es))). assert (work_for part) as Hw by done.
  assert (u32 (chunk / es) * es = chunk) as Hex.
  { destruct grain_elements as (e & _ & He & He'). assert (0 < es <= 8) as Hes by (unfold es; destruct (elt_size_type (t_datatype t)); lia). destruct Hd as [q ->]. rewrite <- He in *.
    replace (q * (e * es)) with (q * e * es) in * by lia. rewrite Z.div_mul by lia. assert (0 <= q < 2 ^ 21) as Hq by (rewrite <- (Z.div_mul q (e * es)) by nia; replace (q * (e * es)) with (q * e * es) by lia; done).
    unfold u32. rewrite Z.mod_small by nia. done. }
  assert (forall c, carries comm t part c (op_sh a)) as Hca.
  { intros c. cbn [carries part]. fold es. rewrite Hex. exists flags, a. replace (t_nMaxChannels t - 1 - 0 + 1) with (t_nMaxChannels t) by lia. rewrite <- Eb' at 1. split; [done|by split_and!]. }
  apply wpx_bind. apply (wpx_for (fun c (r : ncclProxyOp * sched) => same_part (op_payload r.1) a /\ same_frame (bump_opCount s) r.2 /\
    grown (asks comm t part (2 * i) pattern) (bump_opCount s) r.2 0 c /\ sched_inv r.2 (spread 0 c (fun l => l ++ [MkWork (wn_type node) (t_devFuncId t) off (-1)]) ws) (spread 0 c (fun _ => off + 1) bnd) (fun _ => i) (R part))).
  - lia.
  - split_and!; [by split|apply same_frame_refl|apply grown_start|]. cbn [snd]. eapply inv_ext; [..|apply bump_inv, (Hinv part)]; intros; cbn beta; rewrite spread_nil; done || lia.
  - intros c [op s1] Hc (H1 & H2 & H3 & H4). apply (collnet_step part a c op (bump_opCount s) s1); cbn [part_lo part_hi part]; done || lia.
  - intros [op s1] (H1 & H2 & H3 & H4). cbn [fst snd wpx] in *. split; [done|]. split; [done|]. cbn [part_lo part_hi part]. split_and!; try done.
    + by replace (t_nMaxChannels t - 1 - 0 + 1) with (t_nMaxChannels t) by lia.
    + eapply inv_ext; [..|exact H4]; intros x Hx; [done|]. unfold spread. specialize (Hbnd x). destruct (_ && _); lia.
Qed.
End placing.
End place.

(** ** The number of batches *)

(** A task adds at most one batch per channel. *)
Definition nb (s : sched) : Z := pl_nWorkBatches (sd_plan s).

(** The state with other bookkeeping, weaker keys and a weaker predicate. *)
Lemma inv_same s s' ws bnd key key' (R R' : Z -> ncclProxyOp -> Prop) : sd_channels s' = sd_channels s -> nb s' = nb s -> sd_proxy s' = sd_proxy s -> (forall c, 0 <= c < 64 -> key c <= key' c) ->
  (forall c op, R c op -> R' c op) -> sched_inv s ws bnd key R -> sched_inv s' ws bnd key' R'.
Proof.
  unfold nb. intros E1 E2 E3 Hk HR [H1 H2 H3 H4 H5 H6 H7]. split; rewrite ?E1, ?E2, ?E3; try done. intros c ch op Hc Hch Hop. destruct (H5 c ch op Hc Hch Hop). specialize (Hk c Hc). split; [by apply HR|lia].
Qed.

Lemma ensures_count {S} (f : S -> Z) lo hi (body : Z -> S -> outcome S) s : (forall i s, ensures (body i s) (fun s' => f s' <= f s + 1)) ->
  ensures (for_range lo hi body s) (fun s' => f s' <= f s + Z.max 0 (hi - lo)).
Proof.
  intros Hb. unfold for_range. replace (Z.max 0 (hi - lo)) with (Z.of_nat (Z.to_nat (hi - lo))) by lia. generalize (Z.to_nat (hi - lo)) as n. intros n. revert lo s.
  induction n as [|n IH]; intros lo s; cbn [for_n]; [apply ensures_ret; lia|]. eapply ensures_bind; [apply Hb|]. intros s1 H1 s2 H2. specialize (IH _ _ s2 H2). cbn beta in *. lia.
Qed.

Lemma addWorkBatchToPlan_count ch n wt fn off round : ensures (addWorkBatchToPlan ch n wt fn off round) (fun r => r.2 <= n + 1).
Proof.
  unfold addWorkBatchToPlan. apply ensures_skip. intros b. set (off' := if b then 0 else _). set (ext := (63 * ncclDevWorkSize wt <? off') || _).
  destruct (b || ext), b, (decide (wt = ncclDevWorkTypeP2p)); try (apply ensures_skip; intros); apply ensures_ret; cbn [snd]; lia.
Qed.

Lemma add_batch_count s c wt fn off round : ensures (add_batch s c wt fn off round) (fun s' => nb s' <= nb s + 1).
Proof.
  unfold add_batch. apply ensures_skip. intros ch. eapply ensures_bind; [apply addWorkBatchToPlan_count|]. intros [ch' n] Hn. cbn [snd] in Hn.
  apply ensures_skip. intros chans. by apply ensures_ret.
Qed.

Lemma addProxyOp_count comm op s : ensures (addProxyOpIfNeeded comm op s) (fun r => nb r.2 = nb s).
Proof.
  unfold addProxyOpIfNeeded. apply ensures_skip. intros k. cbv zeta. destruct (k_needed k); [|by apply ensures_ret]. do 2 (apply ensures_skip; intros ?). by apply ensures_ret.
Qed.

Lemma channel_op_count comm task wt id c which o z s : ensures (channel_op comm task wt id c which o z s) (fun r => nb r.2 <= nb s + 1).
Proof.
  unfold channel_op. apply ensures_skip. intros r. eapply ensures_bind; [apply add_batch_count|]. intros s1 H1.
  eapply ensures_bind; [apply addProxyOp_count|]. intros [op s2] H2. unfold addProfilerProxyOpIfNeeded. eapply ensures_bind; [apply addProxyOp_count|].
  intros [op' s3] H3. apply ensures_ret. cbn [fst snd] in *. lia.
Qed.

Lemma cbd_channel_count comm task wt w nMid id c st : ensures (cbd_channel comm task wt w nMid id c st) (fun r => nb r.2 <= nb st.2 + 1).
Proof.
  destruct st as [ops s]. unfold cbd_channel. cbv zeta. repeat destruct (_ =? _); (eapply ensures_bind; [apply channel_op_count|]); intros [op s1] H1; by apply ensures_ret.
Qed.

Lemma place_cbd_count comm budget t node cu nMax s : ensures (place_cbd comm budget t node cu nMax s) (fun r =>
  match r with Some (part, _, _, s') => nb s' <= nb s + Z.max 0 (part_hi part - part_lo part + 1) | _ => True end).
Proof.
  unfold place_cbd. apply ensures_skip. intros sp. destruct (negb _); [by apply ensures_ret|]. apply ensures_skip. intros [[gLo d1] aLo].
  apply ensures_skip. intros [[gHi d2] aHi]. apply ensures_skip. intros [[gMid d3] aMid]. destruct (next_channel _ _ _ _) as [c' cur'].
  eapply ensures_bind; [apply (ensures_count (fun r : ops3 * sched => nb r.2)); intros; apply cbd_channel_count|]. intros [o s'] Hs. apply ensures_ret.
  cbn [snd part_lo part_hi channelLo channelHi] in *. change (nb (bump_opCount s)) with (nb s) in Hs. lia.
Qed.

Lemma collnet_channel_count comm task wt id c st : ensures (collnet_channel comm task wt id c st) (fun r => nb r.2 <= nb st.2 + 1).
Proof.
  destruct st as [op s]. unfold collnet_channel. cbv zeta. eapply ensures_bind; [apply add_batch_count|]. intros s1 H1.
  eapply ensures_bind; [apply addProxyOp_count|]. intros [op1 s2] H2. unfold addProfilerProxyOpIfNeeded. eapply ensures_bind; [apply addProxyOp_count|].
  intros [op2 s3] H3. apply ensures_ret. cbn [fst snd] in *. lia.
Qed.

Lemma place_collnet_count comm budget t node s : ensures (place_collnet comm budget t node s) (fun r =>
  match r with Some (part, _, s') => nb s' <= nb s + Z.max 0 (part_hi part - part_lo part + 1) | _ => True end).
Proof.
  unfold place_collnet. cbv zeta. destruct (negb _); [by apply ensures_ret|]. apply ensures_skip. intros [[chunk d] op].
  eapply ensures_bind; [apply (ensures_count (fun r : ncclProxyOp * sched => nb r.2)); intros; apply collnet_channel_count|]. intros [o s'] Hs. apply ensures_ret.
  cbn [snd part_lo part_hi] in *. change (nb (bump_opCount s)) with (nb s) in Hs. lia.
Qed.
