(* ===== verification/Fifo.v ===== *)
(** * The work fifo

    [devCommSetup]'s choice of the fifo size (src/src/init.cc) and
    [waitWorkFifoAvailable] (src/src/enqueue.cc): the host writes work structs
    into a circular buffer of [workFifoBytes] bytes at the 32-bit cursor
    [workFifoProduced]; each channel's block publishes in [workFifoConsumed] how
    far it has read. *)
From S2P Require Import Prelude Bitops Device ProxyOp Plan FinishPlan.

(** The fields of [ncclComm] involved; [chan_workFifoProduced] is
    [channels[c].workFifoProduced]. *)
Record comm_fifo := MkFifo {
  workFifoBuf : list Z; workFifoBytes : Z; workFifoProduced : Z; workFifoConsumedLeast : Z;
  workFifoConsumed : list Z; chan_workFifoProduced : list Z }.

(** ** The size of the fifo (init.cc) *)

Definition NCCL_WORK_FIFO_BYTES_DEFAULT : Z := 2 ^ 20.

(** [workFifoBytes] is a [uint32_t] field; the parameter is a 64-bit integer. *)
Definition choose_workFifoBytes (ccEnable mnnvl : bool) (compCap workFifoBytesParam : Z) : Z :=
  if ccEnable then 0
  else if workFifoBytesParam =? -1 then
    if mnnvl && (100 <=? compCap) then 0 else NCCL_WORK_FIFO_BYTES_DEFAULT
  else
    let bytes := if negb (Z.land workFifoBytesParam (workFifoBytesParam - 1) =? 0) then NCCL_WORK_FIFO_BYTES_DEFAULT else 0 in
    let bytes := u32 (Z.min (u64 workFifoBytesParam) (2 ^ 30)) in
    bytes.

Definition init_fifo (bytes : Z) : comm_fifo :=
  MkFifo (replicate (Z.to_nat (bytes / 16)) 0) bytes 0 0 (replicate 64 0) (replicate 64 0).

(** ** waitWorkFifoAvailable *)

(** One pass of the polling loop over the values read from the device. *)
Definition least_consumed (produced : Z) (consumed chanProduced : list Z) : outcome Z :=
  for_range 0 MAXCHANNELS (fun c least =>
    cc ← zget consumed c; pc ← zget chanProduced c;
    Ret (if negb (cc =? pc) then (if u32 (produced - least) <? u32 (produced - cc) then cc else least) else least)) produced.

Definition advance_quiesced (least : Z) (consumed : list Z) (s : list Z * list Z) : outcome (list Z * list Z) :=
  for_range 0 MAXCHANNELS (fun c s =>
    cc ← zget consumed c; pc ← zget (fst s) c;
    if cc =? pc then
      chanProduced ← zset (fst s) c least;
      live ← zset (snd s) c least;
      Ret (chanProduced, live)
    else Ret s) s.

Definition hasRoom (comm : comm_fifo) (desiredProduced least : Z) : bool :=
  u32 (desiredProduced - least) <=? workFifoBytes comm.

(** [polls]: the counters the device shows at each pass. *)
Fixpoint wait_loop (polls : list (list Z)) (comm : comm_fifo) (desiredProduced : Z) : outcome comm_fifo :=
  match polls with
  | [] => Stuck
  | consumed :: polls =>
      least ← least_consumed (workFifoProduced comm) consumed (chan_workFifoProduced comm);
      s ← advance_quiesced least consumed (chan_workFifoProduced comm, consumed);
      let comm := MkFifo (workFifoBuf comm) (workFifoBytes comm) (workFifoProduced comm) least (snd s) (fst s) in
      if hasRoom comm desiredProduced least then Ret comm else wait_loop polls comm desiredProduced
  end.

Definition waitWorkFifoAvailable (polls : list (list Z)) (comm : comm_fifo) (desiredProduced : Z) : outcome comm_fifo :=
  if hasRoom comm desiredProduced (workFifoConsumedLeast comm) then Ret comm else wait_loop polls comm desiredProduced.

(** ** Flow control

    The counters as they would be without wrap-around: [P] bytes produced, [C c]
    bytes channel [c] is done with, [O] the channels with unread works. *)
Definition poll_ok (P : Z) (C : Z -> Z) (O : Z -> Prop) (chanProduced consumed : list Z) : Prop :=
  length consumed = 64%nat /\
  exists D : Z -> Z,
    (forall c, 0 <= c < 64 -> consumed !! Z.to_nat c = Some (u32 (D c)) /\ P - 2 ^ 31 < D c <= P /\ D c <= C c) /\
    (forall c, O c -> 0 <= c < 64 /\ consumed !! Z.to_nat c <> chanProduced !! Z.to_nat c).

(** The least counter the host relies on is behind every unread work. *)
Definition least_ok (P : Z) (C : Z -> Z) (O : Z -> Prop) (least : Z) : Prop :=
  exists L, least = u32 L /\ P - 2 ^ 31 < L <= P /\ forall c, O c -> L <= C c.

Lemma u32_diff a b : 0 <= a - b < 2 ^ 32 -> u32 (u32 a - u32 b) = a - b.
Proof. intros. unfold u32. rewrite <- Zminus_mod. by apply Z.mod_small. Qed.

Lemma u32_idem z : u32 (u32 z) = u32 z.
Proof. unfold u32. by rewrite Z.mod_mod. Qed.

Lemma least_consumed_spec P C O chanP consumed : length chanP = 64%nat -> poll_ok P C O chanP consumed ->
  wp (least_consumed (u32 P) consumed chanP) (fun least => exists L, least = u32 L /\ P - 2 ^ 31 < L <= P /\
    (forall c, O c -> L <= C c) /\ ((forall c, 0 <= c < 64 -> consumed !! Z.to_nat c = Some (u32 P)) -> L = P)).
Proof.
  intros Hl [Hlc (D & HD & HO)]. unfold least_consumed, MAXCHANNELS.
  apply (wpx_for (fun k least => exists L, least = u32 L /\ P - 2 ^ 31 < L <= P /\ (forall c, O c -> c < k -> L <= C c) /\
    ((forall c, 0 <= c < 64 -> consumed !! Z.to_nat c = Some (u32 P)) -> L = P))).
  - lia.
  - exists P. split; [done|]. split; [lia|]. split; [|done]. intros c Hc Hlt. destruct (HO c Hc). lia.
  - intros k least Hk (L & -> & HL & Hbelow & HP). wp_bind.
    destruct (HD k) as (Hck & Hdk & HCk); [lia|]. rewrite (proj2 (zget_Ret consumed k (u32 (D k)))) by (split; [lia|done]). cbn [wpx]. wp_bind.
    destruct (zget_in_bounds chanP k) as (pk & -> & Hpk); [lia|]. cbn [wpx].
    assert (forall c, O c -> c < k + 1 -> c < k \/ (c = k /\ u32 (D k) <> pk)) as Hsplit.
    { intros c Hc Hlt. destruct (HO c Hc) as [Hr Hne]. destruct (decide (c = k)) as [->|]; [|lia]. right. split; [done|].
      rewrite Hck, Hpk in Hne. congruence. }
    rewrite !u32_diff by lia. destruct (Z.eqb_spec (u32 (D k)) pk) as [E|E]; cbn [negb].
    + exists L. split_and!; try done; try lia. intros c Hc [Hlt|[_ ?]]%Hsplit; [by apply Hbelow|done|done].
    + destruct (Z.ltb_spec (P - L) (P - D k)) as [Hlt|Hge].
      * exists (D k). split_and!; try done; try lia.
        -- intros c Hc [Hck'|[-> _]]%Hsplit; [|lia|done]. specialize (Hbelow c Hc Hck'). lia.
        -- intros Hall. assert (u32 (D k) = u32 P) as Eu by (rewrite Hall in Hck by lia; congruence).
           assert (u32 (u32 P - u32 (D k)) = P - D k) as Ed by (apply u32_diff; lia). rewrite Eu, Z.sub_diag in Ed. change (u32 0) with 0 in Ed. lia.
      * exists L. split_and!; try done; try lia. intros c Hc [Hlt|[-> _]]%Hsplit; [by apply Hbelow|lia|done].
  - intros least (L & -> & HL & Hbelow & HP). exists L. split; [done|]. split; [done|]. split; [|exact HP].
    intros c Hc. apply Hbelow; [done|]. destruct (HO c Hc). lia.
Qed.

(** Only channels whose counter equals the recorded one are advanced. *)
Lemma advance_quiesced_spec least consumed chanP : length chanP = 64%nat -> length consumed = 64%nat ->
  wp (advance_quiesced least consumed (chanP, consumed)) (fun s => length s.1 = 64%nat /\ length s.2 = 64%nat /\
    forall c, consumed !! c <> chanP !! c -> s.1 !! c = chanP !! c /\ s.2 !! c = consumed !! c).
Proof.
  intros H1 H2. unfold advance_quiesced, MAXCHANNELS.
  apply (wpx_for (fun k s => length s.1 = 64%nat /\ length s.2 = 64%nat /\
    (forall c, consumed !! c <> chanP !! c -> s.1 !! c = chanP !! c /\ s.2 !! c = consumed !! c) /\
    (forall c, k <= Z.of_nat c -> s.1 !! c = chanP !! c))); [lia| | |].
  - done.
  - intros k [a b] Hk (L1 & L2 & Hne & Hge). simpl in *. wp_bind. destruct (zget_in_bounds consumed k) as (cc & -> & Hcc); [lia|]. cbn [wpx]. wp_bind.
    destruct (zget_in_bounds a k) as (pc & -> & Hpc); [lia|]. cbn [wpx]. destruct (Z.eqb_spec cc pc) as [->|E].
    + rewrite (zset_Ret a) by lia. cbn [mbind outcome_bind]. rewrite (zset_Ret b) by lia. cbn [mbind outcome_bind wpx fst snd].
      rewrite !length_insert. rewrite (Hge (Z.to_nat k)) in Hpc by lia. split_and!; try done.
      * intros c Hc. assert (c <> Z.to_nat k) by (intros ->; congruence). rewrite !list_lookup_insert_ne by done. by apply Hne.
      * intros c Hc. rewrite list_lookup_insert_ne by lia. apply Hge. lia.
    + simpl. split_and!; try done. intros c Hc. apply Hge. lia.
  - intros s (L1 & L2 & Hne & _). done.
Qed.

(** *** The polling loop

    The device makes progress while the host polls: [C k c] is how far channel [c]
    is done with its works when the host has polled [k] times. The [k]-th poll may
    only show what the device was done with by then. *)
Section flow_control.
Context (P n : Z) (O : Z -> Prop) (comm : comm_fifo).

Definition polls_ok (C : nat -> Z -> Z) (chanProduced : list Z) (polls : list (list Z)) : Prop :=
  forall k consumed, polls !! k = Some consumed -> poll_ok P (C (S k)) O chanProduced consumed.

(** What the host may rely on when it has polled [k] times and goes on with
    [comm']: it wrote nothing, and the [n] bytes from [P] on end at most one fifo
    length after a point [L] that every tracked channel has passed. *)
Definition room_granted (C : nat -> Z -> Z) (k : nat) (comm' : comm_fifo) : Prop :=
  workFifoProduced comm' = u32 P /\ workFifoBuf comm' = workFifoBuf comm /\ workFifoBytes comm' = workFifoBytes comm /\
  exists L, workFifoConsumedLeast comm' = u32 L /\ P + n - L <= workFifoBytes comm /\ L <= P /\ forall c, O c -> L <= C k c.

Hypothesis Hn : 0 <= n <= workFifoBytes comm.
Hypothesis Hb : workFifoBytes comm <= 2 ^ 30.

Lemma hasRoom_diff cm L : P - 2 ^ 31 < L <= P -> workFifoBytes cm = workFifoBytes comm ->
  hasRoom cm (u32 (P + n)) (u32 L) = (P + n - L <=? workFifoBytes comm).
Proof. intros HL E. unfold hasRoom. rewrite E, u32_diff by lia. done. Qed.

(** Quiesced channels are moved on, tracked ones are not: the remaining polls are
    still fit for the loop's new record. *)
Lemma polls_ok_tail C chanP chanP' consumed polls : polls_ok C chanP (consumed :: polls) ->
  (forall c, consumed !! c <> chanP !! c -> chanP' !! c = chanP !! c) -> polls_ok (fun k => C (S k)) chanP' polls.
Proof.
  intros Hp Hne k x Hx. destruct (Hp (S k) x Hx) as [Hl (D & HD & HO)]. split; [done|]. exists D. split; [done|].
  intros c Hc. destruct (HO c Hc) as [Hr Hx']. split; [done|]. destruct (Hp 0%nat consumed eq_refl) as [_ (_ & _ & HO0)].
  rewrite Hne; [done|]. by apply HO0.
Qed.

Lemma wait_loop_spec polls : forall C cm,
  workFifoBytes cm = workFifoBytes comm -> workFifoProduced cm = u32 P -> workFifoBuf cm = workFifoBuf comm ->
  length (chan_workFifoProduced cm) = 64%nat -> polls_ok C (chan_workFifoProduced cm) polls ->
  last polls = Some (replicate 64 (u32 P)) ->
  exists k comm', (k < length polls)%nat /\ wait_loop (take (S k) polls) cm (u32 (P + n)) = Ret comm' /\
    wait_loop polls cm (u32 (P + n)) = Ret comm' /\
    (forall j, (j <= k)%nat -> wait_loop (take j polls) cm (u32 (P + n)) = Stuck) /\ room_granted C (S k) comm'.
Proof.
  induction polls as [|consumed polls IH]; intros C cm E1 E2 E3 E4 Hp Hlast; [done|].
  pose proof (Hp 0%nat consumed eq_refl) as Hp0.
  destruct (wp_elim _ _ (least_consumed_spec P (C 1%nat) O _ _ E4 Hp0)) as (least & Hl & L & -> & HL & HC & Hall).
  destruct (wp_elim _ _ (advance_quiesced_spec (u32 L) consumed _ E4 (proj1 Hp0))) as ([a b] & Ha & La & Lb & Hne). cbn [fst snd] in *.
  set (cm' := MkFifo (workFifoBuf cm) (workFifoBytes cm) (u32 P) (u32 L) b a).
  assert (forall ps, wait_loop (consumed :: ps) cm (u32 (P + n)) =
    if P + n - L <=? workFifoBytes comm then Ret cm' else wait_loop ps cm' (u32 (P + n))) as Hstep.
  { intros ps. cbn [wait_loop]. rewrite E2, Hl. cbn [mbind outcome_bind]. rewrite Ha. cbn [mbind outcome_bind fst snd]. cbv zeta. fold cm'.
    by rewrite (hasRoom_diff cm' L) by done. }
  destruct (Z.leb_spec (P + n - L) (workFifoBytes comm)) as [Hr|Hr].
  - eexists 0%nat, _. split; [simpl; lia|]. cbn [take]. rewrite !Hstep. split_and!; [done|done| |].
    + intros j Hj. by replace j with 0%nat by lia.
    + split_and!; try done. exists L. split_and!; try done; lia.
  - destruct polls as [|c2 polls].
    { exfalso. change (last [consumed]) with (Some consumed) in Hlast. assert (consumed = replicate 64 (u32 P)) as -> by congruence. assert (L = P); [|lia]. apply Hall. intros c Hc. apply lookup_replicate_2. lia. }
    destruct (IH (fun k => C (S k)) cm') as (k & comm' & Hk & H1 & H2 & H3 & H4);
      try done.
    { eapply polls_ok_tail; [exact Hp|]. intros c Hc. by apply Hne. }
    exists (S k), comm'. split; [simpl in *; lia|]. cbn [take] in *. rewrite !Hstep. split_and!; [done|done| |done].
    intros [|j] Hj; [done|]. cbn [take]. rewrite Hstep. apply (H3 j). lia.
Qed.
End flow_control.


(** A fifo of 4096 bytes with 5000 bytes produced, the device done up to byte 3000
    when the call comes: 3000 more bytes need it to get to 3904. The first poll
    sees channel 3 at 3500, too early; at the second it is at 4608. *)
Definition example_fifo : comm_fifo := MkFifo (replicate 256 0) 4096 5000 3000 (replicate 64 0) (replicate 64 7).

Definition example_polls : list (list Z) :=
  [<[3%nat := 3500]> (replicate 64 5000); <[3%nat := 4608]> (replicate 64 5000); replicate 64 5000].

Definition example_progress (k : nat) (c : Z) : Z :=
  if c =? 3 then match k with 0%nat => 3000 | 1%nat => 3500 | 2%nat => 4608 | _ => 5000 end else 5000.

Lemma example_polls_ok : polls_ok 5000 (fun c => c = 3) example_progress (chan_workFifoProduced example_fifo) example_polls.
Proof.
  assert (forall k x y, example_polls !! k = Some x -> example_polls !! k = Some y -> x = y) as Hx by congruence.
  intros k consumed Hk. destruct k as [|[|[|k]]]; [| | |done].
  1: rewrite (Hx _ _ _ Hk eq_refl); split; [done|]; exists (fun c => if c =? 3 then 3500 else 5000).
  2: rewrite (Hx _ _ _ Hk eq_refl); split; [done|]; exists (fun c => if c =? 3 then 4608 else 5000).
  3: rewrite (Hx _ _ _ Hk eq_refl); split; [done|]; exists (fun _ => 5000).
  all: clear consumed Hk Hx.
  all: split; [enum ltac:(vm_compute; repeat split; (reflexivity || discriminate))|intros c ->; split; [lia|by vm_compute]].
Qed.


(** A block that was launched but has not started is not seen: as long as no
    device counter has moved, every channel counts as quiesced ([consumed[c]]
    still equals [channels[c].workFifoProduced], which a launch does not
    advance), and the call returns at its first poll with the whole fifo free,
    whatever was written into it. *)
Theorem waitWorkFifoAvailable_unstarted bytes P n polls buf : 0 < n <= bytes -> bytes <= P -> P + n < 2 ^ 31 ->
  exists comm', waitWorkFifoAvailable (replicate 64 0 :: polls) (MkFifo buf bytes P 0 (replicate 64 0) (replicate 64 0)) (P + n) = Ret comm' /\
    workFifoConsumedLeast comm' = P /\ workFifoConsumed comm' = replicate 64 P.
Proof.
  intros Hn Hb HP.
  assert (forall k, 0 <= k < 64 -> zget (replicate 64 0) k = Ret 0) as Hget.
  { intros k Hk. apply zget_Ret. split; [lia|]. apply lookup_replicate_2. lia. }
  assert (wp (least_consumed P (replicate 64 0) (replicate 64 0)) (fun l => l = P)) as [l [Hl ->]]%wp_elim.
  { unfold least_consumed. apply (wpx_for (fun _ l => l = P)); [unfold MAXCHANNELS; lia|done| |done].
    unfold MAXCHANNELS. intros k l Hk ->. rewrite (Hget k) by lia. done. }
  assert (wp (advance_quiesced P (replicate 64 0) (replicate 64 0, replicate 64 0)) (fun s => s.2 = replicate 64 P)) as [s [Hs Hs2]]%wp_elim.
  { unfold advance_quiesced, MAXCHANNELS.
    apply (wpx_for (fun k s => s.1 = s.2 /\ length s.2 = 64%nat /\ forall i, (i < 64)%nat -> s.2 !! i = Some (if Z.of_nat i <? k then P else 0))).
    - lia.
    - split; [done|]. split; [done|]. intros i Hi. destruct (Z.ltb_spec (Z.of_nat i) 0); [lia|]. by apply lookup_replicate_2.
    - intros k [a b] Hk (E & Lb & Hb'). simpl in E, Lb, Hb'. subst a. rewrite (Hget k) by lia. cbn [mbind outcome_bind fst snd].
      rewrite (proj2 (zget_Ret b k 0)) by (split; [lia|]; rewrite Hb' by lia; destruct (Z.ltb_spec (Z.of_nat (Z.to_nat k)) k); [lia|done]).
      cbn [mbind outcome_bind]. rewrite Z.eqb_refl, zset_Ret by lia. cbn [mbind outcome_bind wpx fst snd].
      split; [done|]. rewrite length_insert. split; [done|]. intros i Hi. destruct (decide (i = Z.to_nat k)) as [->|Hne].
      + rewrite list_lookup_insert_eq by lia. destruct (Z.ltb_spec (Z.of_nat (Z.to_nat k)) (k + 1)); [done|lia].
      + rewrite list_lookup_insert_ne, Hb' by lia. destruct (Z.ltb_spec (Z.of_nat i) k), (Z.ltb_spec (Z.of_nat i) (k + 1)); lia || done.
    - intros [a b] (_ & Lb & Hb'). cbn [fst snd] in *. apply list_eq. intros i. destruct (decide (i < 64)%nat) as [Hi|Hi].
      + rewrite Hb', lookup_replicate_2 by done. destruct (Z.ltb_spec (Z.of_nat i) 64); [done|lia].
      + rewrite !lookup_ge_None_2; [done|rewrite length_replicate; lia|lia]. }
  unfold waitWorkFifoAvailable, hasRoom. cbn [workFifoConsumedLeast workFifoBytes]. unfold u32 at 1. rewrite Z.mod_small by lia.
  destruct (Z.leb_spec (P + n - 0) bytes); [lia|]. cbn [wait_loop workFifoProduced chan_workFifoProduced]. rewrite Hl. cbn [mbind outcome_bind].
  rewrite Hs. cbn [mbind outcome_bind]. unfold hasRoom. cbn [workFifoBytes]. unfold u32. rewrite Z.mod_small by lia.
  destruct (Z.leb_spec (P + n - P) bytes); [|lia]. eexists. split; [done|]. split; [done|exact Hs2].
Qed.

Lemma waitWorkFifoAvailable_unstarted_witness :
  exists comm', waitWorkFifoAvailable [replicate 64 0] (MkFifo (replicate 64 9) 1024 1024 0 (replicate 64 0) (replicate 64 0)) (1024 + 512) = Ret comm' /\
    workFifoConsumedLeast comm' = 1024.
Proof.
  destruct (waitWorkFifoAvailable_unstarted 1024 1024 512 [] (replicate 64 9)) as (comm' & H1 & H2 & _); [lia|lia|lia|].
  exists comm'. split; [exact H1|exact H2].
Defined.

(** The size taken for the fifo when [NCCL_WORK_FIFO_BYTES] is set: values
    that are not a power of two are kept (up to [2^30]), although the warning says
    they are ignored; and the mask [workFifoBytes - 1] then maps different places
    of the fifo to one. *)
Theorem choose_workFifoBytes_kept mnnvl compCap p : 0 < p <= 2 ^ 30 -> choose_workFifoBytes false mnnvl compCap p = p.
Proof.
  intros Hp. unfold choose_workFifoBytes. destruct (Z.eqb_spec p (-1)); [lia|]. cbv zeta. unfold u64, u32.
  rewrite (Z.mod_small p) by lia. rewrite Z.min_l by lia. apply Z.mod_small. lia.
Qed.

Lemma choose_workFifoBytes_kept_witness :
  let bytes := choose_workFifoBytes false false 90 (3 * 2 ^ 20) in
  bytes = 3 * 2 ^ 20 /\ Z.land (2 ^ 20) (bytes - 1) = Z.land 0 (bytes - 1).
Proof.
  cbv zeta. rewrite (choose_workFifoBytes_kept false 90 (3 * 2 ^ 20)) by lia. split; [reflexivity|vm_compute; reflexivity].
Defined.
