(* ===== verification/Kernel.v ===== *)
(** * Uploading a plan and reading it back in the kernel

    [uploadWork] (src/src/enqueue.cc) writes the work structs of a plan behind
    the batches in the kernel arguments, into the work fifo, or into a buffer of
    its own; [loadWorkBatchToShmem] and [ncclKernelMain]
    (src/src/device/common.h) follow the batches of one block and copy the
    structs of each fused batch into shared memory.  The theorem at the end
    composes them with [addWorkBatchToPlan] and [finishPlan]: every block runs
    exactly the works added to its channel.

    Structs are sequences of 16-byte packs, the unit of all the copies; a pack is
    an opaque [Z].  Buffers are lists of packs. *)
From S2P Require Import Prelude Bitops Device ProxyOp Plan FinishPlan Fifo.

(** ** The device side *)

(** The shared memory written by [loadWorkBatchToShmem]; [workStorage] is 1024
    bytes. *)
Record ncclShmemData := MkShmem {
  sh_batchIx : Z; sh_nextBatchIx : Z; sh_workType : Z; sh_funcId : Z; sh_nWorks : Z; sh_workSize : Z; sh_workConsumed : Z;
  workStorage : list Z }.

(** [fnsOfBitset]: each lane stores its index at the number of set bits below
    it, for the low and the high half of the set. *)
Definition fnsOfBitset (bitset : Z) : outcome (list Z) :=
  let lo := u32 bitset in
  let hi := u32 (Z.shiftr bitset 32) in
  for_range 0 32 (fun lane fns =>
    fns ← (if Z.testbit lo lane then zset fns (popcount (Z.land lo (2 ^ lane - 1))) lane else Ret fns);
    if Z.testbit hi lane then zset fns (popcount lo + popcount (Z.land hi (2 ^ lane - 1))) (32 + lane) else Ret fns)
    (replicate 64 0).

(** One thread's copy of one pack. *)
Definition copy_pack (read : Z -> outcome Z) (fns : list Z) (base workSize nPacks workCursor : Z) (tid : Z) (st : list Z)
    : outcome (list Z) :=
  if tid <? nPacks then
    let packInWork := tid mod (workSize / 16) in
    let dstWork := tid / (workSize / 16) in
    srcWork ← zget fns dstWork;
    tmp ← read (u32 (base + srcWork * workSize + packInWork * 16));
    zset st ((workCursor + dstWork) * (workSize / 16) + packInWork) tmp
  else Ret st.

Fixpoint for_each {A S} (l : list A) (f : A -> S -> outcome S) (s : S) : outcome S :=
  match l with [] => Ret s | x :: l => s ← f x s; for_each l f s end.

(** [tid -= 64; if (tid < 0) tid += tn;] *)
Definition rotate (tn tid : Z) : Z := if tid - 64 <? 0 then tid - 64 + tn else tid - 64.

(** The loop over fused batches, for the threads [tids] of a block. *)
Fixpoint load_loop (fuel : nat) (tn : Z) (tids : list Z) (bz : list ncclDevWorkBatch) (read : Z -> outcome Z)
    (batchIx workCursor : Z) (sh : ncclShmemData) : outcome ncclShmemData :=
  match fuel with
  | O => Stuck
  | S fuel =>
      batch ← zget bz batchIx;
      fns ← fnsOfBitset (offsetBitset batch);
      let nWorks := popcount (u32 (offsetBitset batch)) + popcount (u32 (Z.shiftr (offsetBitset batch) 32)) in
      let workSize := size_of_code (workType batch) in
      let nPacks := nWorks * (workSize / 16) in
      st ← for_each tids (copy_pack read fns (offsetBase batch) workSize nPacks workCursor) (workStorage sh);
      let consumed := u32 (offsetBase batch + (64 - clz 64 (offsetBitset batch)) * workSize) in
      let has0 := bool_decide (0 ∈ tids) in
      let sh := MkShmem (sh_batchIx sh) (sh_nextBatchIx sh) (sh_workType sh) (sh_funcId sh) (sh_nWorks sh)
                  (if has0 then workSize else sh_workSize sh) (if has0 then consumed else sh_workConsumed sh) st in
      let workCursor := workCursor + nWorks in
      if negb (nextExtends batch =? 0)
      then load_loop fuel tn (rotate tn <$> tids) bz read (batchIx + nextJump batch) workCursor sh
      else Ret (if has0
                then MkShmem batchIx (if nextJump batch =? 0 then -1 else batchIx + nextJump batch) (workType batch) (funcId batch)
                       workCursor (sh_workSize sh) (sh_workConsumed sh) (workStorage sh)
                else sh)
  end.

Definition loadWorkBatchToShmem (fuel : nat) (tn : Z) (bz : list ncclDevWorkBatch) (read : Z -> outcome Z) (batchIx : Z)
    (sh : ncclShmemData) : outcome ncclShmemData :=
  load_loop fuel tn (seqZ 0 tn) bz read batchIx 0 sh.

(** The channel of a block: thread [tid] writes it when [blockIdx.x] is the
    number of channels below. *)
Definition block_channelId (mask blockIdx junk : Z) : Z :=
  fold_left (fun ch tid => if Z.testbit mask tid && (blockIdx =? popcount (Z.land mask (2 ^ tid - 1))) then tid else ch)
    (seqZ 0 64) junk.

(** The rest of [ncclKernelMain]: the contents of shared memory at each run of a
    work batch, in order.  The first load is done by the threads after the first
    two warps. *)
Fixpoint kernel_loop (fuel fuelb : nat) (tn : Z) (bz : list ncclDevWorkBatch) (read : Z -> outcome Z) (sh : ncclShmemData)
    : outcome (list ncclShmemData) :=
  match fuel with
  | O => Stuck
  | S fuel =>
      if sh_nextBatchIx sh =? -1 then Ret [sh]
      else sh' ← loadWorkBatchToShmem fuelb tn bz read (sh_nextBatchIx sh) sh;
           rest ← kernel_loop fuel fuelb tn bz read sh';
           Ret (sh :: rest)
  end.

Definition ncclKernelMain (fuel : nat) (tn : Z) (mask : Z) (bz : list ncclDevWorkBatch) (read : Z -> outcome Z) (blockIdx : Z)
    (sh : ncclShmemData) : outcome (Z * list ncclShmemData) :=
  sh ← loadWorkBatchToShmem fuel (tn - 2 * 32) bz read blockIdx sh;
  runs ← kernel_loop fuel fuel tn bz read sh;
  Ret (block_channelId mask blockIdx 0, runs).

(** ** Set bits and their ranks *)

(** The number of set bits below [i]. *)
Definition rank (m i : Z) : nat := length (filter (fun j => Z.testbit m j = true) (seqZ 0 i)).

Lemma sorted_ext (l l' : list Z) : StronglySorted Z.lt l -> StronglySorted Z.lt l' -> (forall x, x ∈ l <-> x ∈ l') -> l = l'.
Proof.
  intros H. revert l'. induction H as [|x l Hs IH Hx]; intros l' H' He.
  - destruct l' as [|y l']; [done|]. exfalso. apply (not_elem_of_nil y), He. constructor.
  - destruct H' as [|y l' Hs' Hy]; [exfalso; apply (not_elem_of_nil x), He; constructor|].
    rewrite List.Forall_forall in Hx, Hy. assert (x = y) as ->.
    { pose proof (proj1 (He x) (list_elem_of_here x l)) as [|H1]%elem_of_cons; [done|].
      pose proof (proj2 (He y) (list_elem_of_here y l')) as [|H2]%elem_of_cons; [done|].
      apply list_elem_of_In, Hy in H1. apply list_elem_of_In, Hx in H2. lia. }
    f_equal. apply IH; [done|]. intros z. specialize (He z). rewrite !elem_of_cons in He.
    split; intros Hz; [destruct (proj1 He (or_intror Hz)) as [->|]|destruct (proj2 He (or_intror Hz)) as [->|]]; try done;
      apply list_elem_of_In in Hz; [apply Hx in Hz|apply Hy in Hz]; lia.
Qed.

Lemma seqZ_sorted a n : StronglySorted Z.lt (seqZ a n).
Proof.
  destruct (Z.le_gt_cases n 0); [rewrite seqZ_nil by lia; constructor|].
  replace n with (Z.of_nat (Z.to_nat n)) by lia. revert a. induction (Z.to_nat n) as [|k IH]; intros a; [constructor|].
  rewrite seqZ_cons by lia. replace (Z.pred (Z.of_nat (S k))) with (Z.of_nat k) by lia. constructor; [apply IH|].
  apply List.Forall_forall. intros x Hx%list_elem_of_In%elem_of_seqZ. lia.
Qed.

Lemma filter_sorted (P : Z -> Prop) `{!forall x, Decision (P x)} l : StronglySorted Z.lt l -> StronglySorted Z.lt (filter P l).
Proof.
  induction 1 as [|x l Hs IH Hx]; [constructor|]. rewrite filter_cons. destruct (decide (P x)); [|done]. constructor; [done|].
  rewrite List.Forall_forall in *. intros y [_ Hy]%list_elem_of_In%list_elem_of_filter. by apply Hx, list_elem_of_In.
Qed.

Lemma bits_elem m i : i ∈ bits m <-> 0 <= i < 64 /\ Z.testbit m i = true.
Proof. unfold bits. rewrite list_elem_of_filter, elem_of_seqZ. naive_solver lia. Qed.

Lemma bits_popAll m : 0 <= m < 2 ^ 64 -> bits m = popAll 64 m.
Proof.
  intros Hm. apply sorted_ext; [apply filter_sorted, seqZ_sorted|apply popAll_sorted; [done|by apply popcount_le_64]|].
  intros x. rewrite bits_elem, popAll_elem by (done || by apply popcount_le_64). split; [naive_solver|].
  intros [Hx Hb]. destruct (Z.lt_ge_cases x 64); [done|]. by rewrite (testbit_high m 64) in Hb by lia.
Qed.

Lemma popAll_length fuel m : 0 <= m < 2 ^ 64 -> popcount m <= Z.of_nat fuel -> Z.of_nat (length (popAll fuel m)) = popcount m.
Proof.
  revert m. induction fuel as [|fuel IH]; intros m Hm Hp.
  - pose proof (popcount_nonneg m). simpl. lia.
  - cbn [popAll]. destruct (Z.eqb_spec m 0) as [->|]; [done|]. destruct (popFirstOneBit_u64 m) as [-> Hlt]; [lia|].
    pose proof (popcount_land_pred m ltac:(lia)). cbn [length]. rewrite Nat2Z.inj_succ, IH by lia. lia.
Qed.

Lemma popcount_bits m : 0 <= m < 2 ^ 64 -> popcount m = Z.of_nat (length (bits m)).
Proof. intros. rewrite bits_popAll by done. by rewrite popAll_length by (done || by apply popcount_le_64). Qed.

Lemma seqZ_split i n : 0 <= i <= n -> seqZ 0 n = seqZ 0 i ++ seqZ i (n - i).
Proof. intros. transitivity (seqZ 0 (i + (n - i))); [f_equal; lia|]. rewrite seqZ_app by lia. by rewrite Z.add_0_l. Qed.

(** The population count of the bits below a lane is its rank. *)
Lemma popcount_below m i : 0 <= m < 2 ^ 64 -> 0 <= i <= 64 -> popcount (Z.land m (2 ^ i - 1)) = Z.of_nat (rank m i).
Proof.
  intros Hm Hi. replace (2 ^ i - 1) with (Z.ones i) by (rewrite Z.ones_equiv; lia).
  rewrite Z.land_ones by lia. pose proof (pow2_pos i ltac:(lia)) as Hpi.
  assert (0 <= m mod 2 ^ i < 2 ^ 64) as Hr by (split; [apply Z.mod_pos_bound; lia|]; apply Z.le_lt_trans with m; [apply Z.mod_le|]; lia).
  rewrite popcount_bits by done. unfold bits, rank. f_equal. rewrite (seqZ_split i 64), filter_app by lia.
  rewrite (filter_none _ (seqZ i (64 - i))).
  - rewrite app_nil_r. f_equal. apply filter_ext_in. intros j Hj%elem_of_seqZ. by rewrite Z.mod_pow2_bits_low by lia.
  - intros j Hj%elem_of_seqZ. by rewrite Z.mod_pow2_bits_high by lia.
Qed.

Lemma seqZ_shift a n : seqZ a n = (fun j => a + j) <$> seqZ 0 n.
Proof. rewrite fmap_add_seqZ. f_equal. lia. Qed.

Lemma rank_high m i : 0 <= i -> rank m (32 + i) = (rank m 32 + rank (Z.shiftr m 32) i)%nat.
Proof.
  intros Hi. unfold rank. rewrite (seqZ_split 32 (32 + i)), filter_app, length_app by lia. f_equal.
  replace (32 + i - 32) with i by lia. rewrite (seqZ_shift 32 i). rewrite filter_fmap_comm, length_fmap. f_equal. apply filter_ext_in.
  intros j Hj%elem_of_seqZ. rewrite Z.shiftr_spec by lia. by rewrite Z.add_comm.
Qed.

Lemma rank_lt m i j : 0 <= i < j -> Z.testbit m i = true -> (rank m i < rank m j)%nat.
Proof.
  intros Hij Hb. unfold rank. rewrite (seqZ_split i j), filter_app, length_app by lia. rewrite (seqZ_cons i) by lia.
  rewrite filter_cons, decide_True by done. simpl. lia.
Qed.

Lemma bits_rank m i : 0 <= i < 64 -> Z.testbit m i = true -> bits m !! rank m i = Some i.
Proof.
  intros Hi Hb. unfold bits, rank. rewrite (seqZ_split i 64), filter_app by lia. rewrite (seqZ_cons i) by lia.
  rewrite filter_cons, decide_True by done. by rewrite list_lookup_middle.
Qed.

Lemma rank_bits m n i : bits m !! n = Some i -> 0 <= i < 64 /\ Z.testbit m i = true /\ rank m i = n.
Proof.
  intros Hn. pose proof (list_elem_of_lookup_2 _ _ _ Hn) as [Hi Hb]%bits_elem. split; [done|]. split; [done|].
  pose proof (bits_rank m i Hi Hb) as Hr. eapply NoDup_lookup; [|exact Hr|exact Hn].
  apply sorted_nodup, filter_sorted, seqZ_sorted.
Qed.

Lemma rank_le m i : 0 <= i -> (rank m i <= Z.to_nat i)%nat.
Proof. intros. unfold rank. etrans; [apply length_filter|]. rewrite length_seqZ. lia. Qed.

Lemma rank_inj m i j : 0 <= i -> 0 <= j -> Z.testbit m i = true -> Z.testbit m j = true -> rank m i = rank m j -> i = j.
Proof.
  intros Hi Hj Hbi Hbj E. destruct (Z.lt_trichotomy i j) as [Hl|[|Hl]]; [|done|].
  - pose proof (rank_lt m i j ltac:(lia) Hbi). lia.
  - pose proof (rank_lt m j i ltac:(lia) Hbj). lia.
Qed.

Section fns.
  Context (m : Z) (Hm : 0 <= m < 2 ^ 64).

Lemma lo_bits i : 0 <= i < 32 -> Z.testbit (u32 m) i = Z.testbit m i.
Proof. intros. unfold u32. by rewrite Z.mod_pow2_bits_low by lia. Qed.
Lemma hi_eq : u32 (Z.shiftr m 32) = Z.shiftr m 32.
Proof. unfold u32. apply Z.mod_small. rewrite Z.shiftr_div_pow2 by lia. split; [apply Z.div_pos; lia|apply Z.div_lt_upper_bound; lia]. Qed.
Lemma hi_bits i : 0 <= i -> Z.testbit (u32 (Z.shiftr m 32)) i = Z.testbit m (32 + i).
Proof. intros. rewrite hi_eq, Z.shiftr_spec by lia. by rewrite Z.add_comm. Qed.

Lemma u32_range z : 0 <= u32 z < 2 ^ 32.
Proof. apply Z.mod_pos_bound. lia. Qed.

Lemma rank_lo i : 0 <= i <= 32 -> rank (u32 m) i = rank m i.
Proof. intros. unfold rank. f_equal. apply filter_ext_in. intros j Hj%elem_of_seqZ. by rewrite lo_bits by lia. Qed.

Lemma popcount_lo : popcount (u32 m) = Z.of_nat (rank m 32).
Proof.
  pose proof (u32_range m). rewrite <- (rank_lo 32), <- popcount_below by lia. f_equal.
  replace (2 ^ 32 - 1) with (Z.ones 32) by done. rewrite Z.land_ones by lia. unfold u32. by rewrite Z.mod_mod.
Qed.

Lemma popcount_hi i : 0 <= i <= 32 -> popcount (u32 m) + popcount (Z.land (u32 (Z.shiftr m 32)) (2 ^ i - 1)) = Z.of_nat (rank m (32 + i)).
Proof.
  intros Hi. pose proof (u32_range (Z.shiftr m 32)). rewrite popcount_lo, popcount_below, rank_high, hi_eq by lia. lia.
Qed.

(** The number of works of a batch. *)
Lemma nWorks_bits : popcount (u32 m) + popcount (u32 (Z.shiftr m 32)) = Z.of_nat (length (bits m)).
Proof.
  rewrite <- popcount_bits by done.
  assert (popcount m = Z.of_nat (rank m 64)) as ->.
  { rewrite <- popcount_below by lia. f_equal. replace (2 ^ 64 - 1) with (Z.ones 64) by done. rewrite Z.land_ones by lia. by rewrite Z.mod_small. }
  replace 64 with (32 + 32) by lia. rewrite <- popcount_hi by lia. f_equal. f_equal.
  replace (2 ^ 32 - 1) with (Z.ones 32) by done. rewrite Z.land_ones by lia. unfold u32. by rewrite Z.mod_mod.
Qed.

Lemma fnsOfBitset_spec : exists fns, fnsOfBitset m = Ret fns /\ forall n i, bits m !! n = Some i -> fns !! n = Some i.
Proof.
  assert (wp (fnsOfBitset m) (fun fns => forall i, 0 <= i < 64 -> Z.testbit m i = true -> fns !! rank m i = Some i)) as H.
  { unfold fnsOfBitset. cbv zeta.
    apply (wpx_for (fun k fns => length fns = 64%nat /\ forall i, 0 <= i < k \/ 32 <= i < 32 + k -> Z.testbit m i = true -> fns !! rank m i = Some i)).
    - lia.
    - split; [apply length_replicate|lia].
    - intros k fns Hk [Hl Hf]. wp_bind. rewrite lo_bits by lia.
      assert (wp (if Z.testbit m k then zset fns (popcount (Z.land (u32 m) (2 ^ k - 1))) k else Ret fns)
        (fun fns => length fns = 64%nat /\ forall i, 0 <= i < k + 1 \/ 32 <= i < 32 + k -> Z.testbit m i = true -> fns !! rank m i = Some i)) as H1.
      { pose proof (u32_range m). pose proof (rank_le m k ltac:(lia)). destruct (Z.testbit m k) eqn:Eb.
        - rewrite popcount_below, rank_lo, zset_Ret by lia. cbn [wpx]. rewrite length_insert, Nat2Z.id. split; [done|]. intros i Hi Hb.
          destruct (decide (i = k)) as [->|Hne]; [apply list_lookup_insert_eq; lia|]. rewrite list_lookup_insert_ne; [apply Hf; [lia|done]|].
          intros E. apply Hne. eapply rank_inj; [| |exact Hb|exact Eb|by symmetry]; lia.
        - cbn [wpx]. split; [done|]. intros i Hi Hb. apply Hf; [|done]. destruct (decide (i = k)) as [->|]; [congruence|lia]. }
      eapply wpx_mono; [exact H1| |done]. intros fns1 [Hl1 Hf1]. rewrite hi_bits by lia. pose proof (rank_le m (32 + k) ltac:(lia)).
      destruct (Z.testbit m (32 + k)) eqn:Eb.
      + rewrite popcount_hi, zset_Ret by lia. cbn [wpx]. rewrite length_insert, Nat2Z.id. split; [done|]. intros i Hi Hb.
        destruct (decide (i = 32 + k)) as [->|Hne]; [apply list_lookup_insert_eq; lia|]. rewrite list_lookup_insert_ne; [apply Hf1; [lia|done]|].
        intros E. apply Hne. eapply rank_inj; [| |exact Hb|exact Eb|by symmetry]; lia.
      + cbn [wpx]. split; [done|]. intros i Hi Hb. apply Hf1; [|done]. destruct (decide (i = 32 + k)) as [->|]; [congruence|lia].
    - intros fns [_ Hf] i Hi Hb. apply Hf; [lia|done]. }
  apply wp_elim in H as (fns & -> & Hf). exists fns. split; [done|]. intros n i Hn. destruct (rank_bits m n i Hn) as (Hi & Hb & <-). by apply Hf.
Qed.
End fns.

(** ** Loading one fused batch *)

Definition all_threads (tn : Z) (tids : list Z) : Prop := NoDup tids /\ forall t, t ∈ tids <-> 0 <= t < tn.

Lemma all_threads_seq tn : all_threads tn (seqZ 0 tn).
Proof. split; [apply NoDup_seqZ|]. intros t. rewrite elem_of_seqZ. lia. Qed.

Lemma all_threads_rotate tn tids : 64 <= tn -> all_threads tn tids -> all_threads tn (rotate tn <$> tids).
Proof.
  intros Htn [Hnd Hall]. split.
  - apply NoDup_fmap_2_strong; [|done]. intros x y Hx%Hall Hy%Hall. unfold rotate.
    destruct (Z.ltb_spec (x - 64) 0), (Z.ltb_spec (y - 64) 0); lia.
  - intros t. rewrite list_elem_of_fmap. split.
    + intros (x & -> & Hx%Hall). unfold rotate. destruct (Z.ltb_spec (x - 64) 0); lia.
    + intros Ht. destruct (Z.lt_ge_cases (t + 64) tn).
      * exists (t + 64). unfold rotate. destruct (Z.ltb_spec (t + 64 - 64) 0); [lia|]. split; [lia|]. apply Hall. lia.
      * exists (t + 64 - tn). unfold rotate. destruct (Z.ltb_spec (t + 64 - tn - 64) 0); [|lia]. split; [lia|]. apply Hall. lia.
Qed.

Section load.
  Context (read : Z -> outcome Z) (pack : Z -> Z -> Z).

Lemma copy_threads fns base ws nPacks cursor (val : Z -> Z) tids : forall st, 0 < ws / 16 -> 0 <= cursor ->
  NoDup tids -> (forall t, t ∈ tids -> 0 <= t) -> cursor * (ws / 16) + nPacks <= Z.of_nat (length st) ->
  (forall t, 0 <= t < nPacks -> exists src, fns !! Z.to_nat (t / (ws / 16)) = Some src /\
     read (u32 (base + src * ws + t mod (ws / 16) * 16)) = Ret (val t)) ->
  wp (for_each tids (copy_pack read fns base ws nPacks cursor) st) (fun st' => length st' = length st /\
    (forall t, t ∈ tids -> t < nPacks -> st' !! Z.to_nat (cursor * (ws / 16) + t) = Some (val t)) /\
    (forall p, (forall t, t ∈ tids -> t < nPacks -> p <> Z.to_nat (cursor * (ws / 16) + t)) -> st' !! p = st !! p)).
Proof.
  induction tids as [|t tids IH]; intros st HK Hc Hnd Hpos Hlen Hread; cbn [for_each].
  { simpl. split; [done|]. split; [|done]. intros t Ht. by apply not_elem_of_nil in Ht. }
  apply NoDup_cons in Hnd as [Ht Hnd]. wp_bind. assert (0 <= t) as Ht0 by (apply Hpos; constructor).
  assert (forall x, x ∈ tids -> 0 <= x) as Hpos' by (intros x Hx; apply Hpos; by constructor).
  set (K := ws / 16) in *. unfold copy_pack at 1. destruct (Z.ltb_spec t nPacks) as [Hlt|Hge].
  - destruct (Hread t) as (src & Hsrc & Hrd); [lia|]. cbv zeta. fold K.
    assert (0 <= t / K) as Hq by (apply Z.div_pos; lia).
    rewrite (proj2 (zget_Ret fns (t / K) src)) by done. cbn [mbind outcome_bind]. rewrite Hrd. cbn [mbind outcome_bind].
    replace ((cursor + t / K) * K + t mod K) with (cursor * K + t) by dlia.
    rewrite zset_Ret by nia. cbn [wpx].
    eapply wpx_mono; [apply IH; try done; by rewrite length_insert| |done]. intros st' (H1 & H2 & H3). rewrite length_insert in H1.
    assert (forall x, x ∈ tids -> Z.to_nat (cursor * K + t) <> Z.to_nat (cursor * K + x)) as Hne.
    { intros x Hx E. assert (t = x) as ->; [|done]. specialize (Hpos' x Hx). nia. }
    split; [done|]. split.
    + intros x [->|Hx]%elem_of_cons Hxl; [|by apply H2]. rewrite H3; [apply list_lookup_insert_eq; nia|]. intros y Hy _. by apply Hne.
    + intros p Hp. rewrite H3; [|intros y Hy; apply Hp; by constructor]. apply list_lookup_insert_ne.
      intros E. apply (Hp t); [constructor|done|done].
  - cbn [wpx]. eapply wpx_mono; [apply IH; done| |done]. intros st' (H1 & H2 & H3). split; [done|]. split.
    + intros x [->|Hx]%elem_of_cons Hxl; [lia|by apply H2].
    + intros p Hp. apply H3. intros y Hy. apply Hp. by constructor.
Qed.

(** The first works of shared memory are those at the offsets [offs]. *)
Definition loaded (st : list Z) (K : Z) (offs : list Z) : Prop :=
  forall w off p, offs !! w = Some off -> 0 <= p < K -> st !! Z.to_nat (Z.of_nat w * K + p) = Some (pack off p).

Lemma load_batch tn tids b fns st acc : all_threads tn tids -> 64 <= tn -> batch_wf b ->
  (forall n i, bits (offsetBitset b) !! n = Some i -> fns !! n = Some i) ->
  (forall off p, off ∈ batch_offsets b -> 0 <= p < size_of_code (workType b) / 16 -> read (u32 (off + p * 16)) = Ret (pack off p)) ->
  loaded st (size_of_code (workType b) / 16) acc -> length st = 64%nat ->
  Z.of_nat (length (acc ++ batch_offsets b)) * (size_of_code (workType b) / 16) <= 64 ->
  wp (for_each tids (copy_pack read fns (offsetBase b) (size_of_code (workType b))
        (Z.of_nat (length (bits (offsetBitset b))) * (size_of_code (workType b) / 16)) (Z.of_nat (length acc))) st)
    (fun st' => length st' = 64%nat /\ loaded st' (size_of_code (workType b) / 16) (acc ++ batch_offsets b)).
Proof.
  intros [Hnd Hall] Htn [[ty Hty] _] Hfns Hread Hld Hst Hsz. set (ws := size_of_code (workType b)) in *. set (K := ws / 16) in *.
  assert (0 < K) as HK by (unfold K, ws; rewrite Hty, size_code; by destruct ty).
  rewrite length_app in Hsz. unfold batch_offsets in Hsz. rewrite length_fmap in Hsz.
  set (bs := bits (offsetBitset b)) in *.
  assert (forall t, 0 <= t < Z.of_nat (length bs) * K -> exists i, bs !! Z.to_nat (t / K) = Some i) as Hbs.
  { intros t Ht. apply lookup_lt_is_Some_2. assert (t / K < Z.of_nat (length bs)) by (apply Z.div_lt_upper_bound; lia).
    assert (0 <= t / K) by (apply Z.div_pos; lia). lia. }
  assert (forall n i, bs !! n = Some i -> batch_offsets b !! n = Some (offsetBase b + i * ws)) as Hbo.
  { intros n i Hn. unfold batch_offsets. rewrite list_lookup_fmap. fold bs. by rewrite Hn. }
  eapply wpx_mono; [apply (copy_threads fns (offsetBase b) ws (Z.of_nat (length bs) * K) (Z.of_nat (length acc))
    (fun t => pack (match bs !! Z.to_nat (t / K) with Some i => offsetBase b + i * ws | None => 0 end) (t mod K)) tids)| |done].
  - done.
  - lia.
  - done.
  - intros t Ht%Hall. lia.
  - fold K. nia.
  - fold K. intros t Ht. destruct (Hbs t Ht) as [i Hi]. exists i. split; [by apply Hfns|]. rewrite Hi. apply Hread.
    + eapply list_elem_of_lookup_2. by apply Hbo.
    + apply Z.mod_pos_bound. lia.
  - fold K. intros st' (H1 & H2 & H3). split; [lia|]. intros w off p Hw Hp. apply lookup_app_Some in Hw as [Hw|[Hge Hw]].
    + rewrite H3; [by apply Hld|]. intros t Ht%Hall _. apply lookup_lt_Some in Hw. nia.
    + pose proof (lookup_lt_Some _ _ _ Hw) as Hwl. unfold batch_offsets in Hwl. rewrite length_fmap in Hwl. fold bs in Hwl.
      set (t := Z.of_nat (w - length acc) * K + p).
      replace (Z.of_nat w * K + p) with (Z.of_nat (length acc) * K + t) by (unfold t; nia).
      assert (t / K = Z.of_nat (w - length acc)) as Ed by (unfold t; rewrite Z.div_add_l, Z.div_small by lia; lia).
      assert (t mod K = p) as Em by (unfold t; rewrite Z.add_comm, Z_mod_plus_full, Z.mod_small by lia; lia).
      rewrite H2.
      * rewrite Ed, Em, Nat2Z.id. f_equal. destruct (lookup_lt_is_Some_2 bs (w - length acc)) as [i Hi]; [done|].
        rewrite Hi. apply Hbo in Hi. f_equal. congruence.
      * apply Hall. unfold t. nia.
      * unfold t. nia.
Qed.

(** A maximal sequence of fused batches. *)
Fixpoint is_run (r : list ncclDevWorkBatch) : Prop :=
  match r with
  | [] => False
  | b :: r' => match r' with [] => nextExtends b = 0 | _ => nextExtends b <> 0 /\ is_run r' end
  end.

Definition run_offsets (r : list ncclDevWorkBatch) : list Z := concat (batch_offsets <$> r).

(** Following one jump. *)
Lemma chain_step bz i b l : (length bz < Z.to_nat (2 ^ 14))%nat -> chain_at bz i (b :: l) -> (l = [] -> nextJump b = 0) ->
  exists b', bz !! i = Some b' /\ nextExtends b' = nextExtends b /\ workType b' = workType b /\ funcId b' = funcId b /\
    offsetBase b' = offsetBase b /\ offsetBitset b' = offsetBitset b /\
    match l with
    | [] => nextJump b' = 0
    | _ => exists j, nextJump b' = Z.of_nat j - Z.of_nat i /\ nextJump b' <> 0 /\ chain_at bz j l
    end.
Proof.
  intros Hlen Hc Hz. cbn [chain_at] in Hc. destruct l as [|b1 l].
  - exists b. split_and!; try done. by apply Hz.
  - destruct Hc as (j & Hij & Hbi & Hc). eexists. split; [exact Hbi|]. split_and!; try done. exists j.
    assert (j < length bz)%nat as Hj.
    { cbn [chain_at] in Hc. destruct l; [by eapply lookup_lt_Some|]. destruct Hc as (? & _ & Hc & _). by eapply lookup_lt_Some. }
    simpl. rewrite Z.mod_small by lia. split_and!; [done|lia|done].
Qed.

  Context (tn : Z) (bz : list ncclDevWorkBatch) (Htn : 64 <= tn) (Hbz : (length bz < Z.to_nat (2 ^ 14))%nat).

Lemma load_loop_spec ty fn q2 r : forall fuel i acc sh tids, is_run r -> all_threads tn tids -> (length r <= fuel)%nat ->
  chain_at bz i (r ++ q2) -> Forall (fun b => nextJump b = 0) (r ++ q2) -> Forall batch_wf r ->
  Forall (fun b => workType b = workType_code ty /\ funcId b = fn) r ->
  (forall off p, off ∈ run_offsets r -> 0 <= p < ncclDevWorkSize ty / 16 -> read (u32 (off + p * 16)) = Ret (pack off p)) ->
  loaded (workStorage sh) (ncclDevWorkSize ty / 16) acc -> length (workStorage sh) = 64%nat ->
  Z.of_nat (length (acc ++ run_offsets r)) * (ncclDevWorkSize ty / 16) <= 64 ->
  wp (load_loop fuel tn tids bz read (Z.of_nat i) (Z.of_nat (length acc)) sh) (fun sh' =>
    loaded (workStorage sh') (ncclDevWorkSize ty / 16) (acc ++ run_offsets r) /\ length (workStorage sh') = 64%nat /\
    sh_workType sh' = workType_code ty /\ sh_funcId sh' = fn /\ sh_nWorks sh' = Z.of_nat (length (acc ++ run_offsets r)) /\
    sh_workSize sh' = ncclDevWorkSize ty /\
    match q2 with [] => sh_nextBatchIx sh' = -1 | _ => exists j, sh_nextBatchIx sh' = Z.of_nat j /\ chain_at bz j q2 end).
Proof.
  induction r as [|b r IH]; [done|]. intros [|fuel] i acc sh tids Hrun Hth Hf Hch Hj Hwf Hty Hrd Hld Hl Hsz; [simpl in Hf; lia|].
  apply Forall_cons in Hwf as [Hwb Hwf]. apply Forall_cons in Hty as [[Hb1 Hb2] Hty]. apply Forall_cons in Hj as [Hjb Hj].
  destruct (chain_step bz i b (r ++ q2) Hbz Hch (fun _ => Hjb)) as (b' & Hbi & He & Hw & Hfn & Hob & Hos & Hnext).
  pose proof Hwb as [_ Hbr].
  assert (run_offsets (b :: r) = batch_offsets b ++ run_offsets r) as Ero by done. rewrite Ero in *.
  cbn [load_loop]. rewrite (proj2 (zget_Ret bz (Z.of_nat i) b')) by (rewrite Nat2Z.id; split; [lia|done]). cbn [mbind outcome_bind].
  rewrite Hos. destruct (fnsOfBitset_spec (offsetBitset b)) as (fns & -> & Hfns); [lia|]. cbn [mbind outcome_bind]. cbv zeta.
  rewrite nWorks_bits by lia. rewrite Hob, Hw, He. wp_bind.
  assert (length (batch_offsets b) = length (bits (offsetBitset b))) as Hbl by (unfold batch_offsets; apply length_fmap).
  assert (size_of_code (workType b) = ncclDevWorkSize ty) as Esz by (rewrite Hb1; apply size_code).
  assert (0 < ncclDevWorkSize ty / 16) as HK by (by destruct ty).
  eapply wpx_mono; [apply (load_batch tn tids b fns (workStorage sh) acc Hth Htn Hwb Hfns)| |done].
  - intros off p Hoff Hp. apply Hrd; [apply elem_of_app; by left|by rewrite <- Esz].
  - by rewrite Esz.
  - done.
  - rewrite Esz. rewrite !length_app in *. nia.
  - intros st [Hst1 Hst2]. rewrite Esz in *.
    assert (bool_decide (0 ∈ tids) = true) as -> by (apply bool_decide_eq_true; apply Hth; lia).
    destruct r as [|b1 r].
    + cbn [is_run] in Hrun. rewrite Hrun. simpl. rewrite app_nil_r. rewrite Hfn, Hb1, Hb2. split_and!; try done.
      * rewrite length_app, Hbl. lia.
      * simpl in Hnext. destruct q2 as [|b2 q2]; [by rewrite Hnext|]. destruct Hnext as (j & Hnj & Hn0 & Hcj).
        destruct (Z.eqb_spec (nextJump b') 0); [done|]. exists j. split; [lia|done].
    + destruct Hrun as [Hext Hrun]. destruct (Z.eqb_spec (nextExtends b) 0); [done|]. cbn [negb].
      destruct Hnext as (j & Hnj & _ & Hcj). replace (Z.of_nat i + nextJump b') with (Z.of_nat j) by lia.
      replace (Z.of_nat (length acc) + Z.of_nat (length (bits (offsetBitset b)))) with (Z.of_nat (length (acc ++ batch_offsets b)))
        by (rewrite length_app; lia).
      rewrite app_assoc. apply IH; try done.
      * by apply all_threads_rotate.
      * simpl in Hf |- *. lia.
      * intros off p Hoff. apply Hrd. apply elem_of_app. by right.
      * rewrite <- app_assoc. done.
Qed.
End load.

Lemma decode_prefix q : forall G a, fold_left decode_step q (G, a) = (G ++ (fold_left decode_step q ([], a)).1, (fold_left decode_step q ([], a)).2).
Proof.
  induction q as [|b q IH]; intros G a; [simpl; by rewrite app_nil_r|]. cbn [fold_left]. unfold decode_step at 2 4 6. simpl.
  destruct (nextExtends b =? 0); [|apply IH]. rewrite (IH (G ++ _)), (IH ([(_, _, _)])). simpl. by rewrite <- app_assoc.
Qed.

Lemma decode_run wt fn q2 r : forall acc, is_run r -> Forall (fun b => workType b = wt /\ funcId b = fn) r ->
  fold_left decode_step (r ++ q2) ([], acc) = ((wt, fn, acc ++ run_offsets r) :: (decode q2).1, (decode q2).2).
Proof.
  induction r as [|b r IH]; intros acc Hr Hty; [done|]. apply Forall_cons in Hty as [[Hw Hf] Hty]. cbn [app fold_left].
  unfold decode_step at 2. destruct r as [|b1 r].
  - cbn [is_run] in Hr. rewrite Hr. simpl. rewrite decode_prefix, Hw, Hf. unfold run_offsets. simpl. rewrite app_nil_r. done.
  - destruct Hr as [He Hr]. destruct (Z.eqb_spec (nextExtends b) 0); [done|]. simpl snd. simpl fst. rewrite IH by done.
    rewrite <- app_assoc. done.
Qed.

Lemma split_run q : q <> [] -> (forall b, last q = Some b -> nextExtends b = 0) ->
  exists r q2, q = r ++ q2 /\ is_run r /\ (forall b, last q2 = Some b -> nextExtends b = 0).
Proof.
  induction q as [|b q IH]; [done|]. intros _ Hl. destruct (decide (nextExtends b = 0)) as [E|E].
  - exists [b], q. split; [done|]. split; [done|]. intros b' Hb'. apply Hl. destruct q; done.
  - destruct q as [|b1 q]; [exfalso; apply E, Hl; done|]. destruct IH as (r & q2 & Eq & Hr & Hl2); [done|done|].
    exists (b :: r), q2. split; [by rewrite Eq|]. split; [|done]. destruct r; [done|]. by split.
Qed.

Lemma run_same b r q2 : is_run (b :: r) -> fusable (b :: r ++ q2) ->
  Forall (fun x => workType x = workType b /\ funcId x = funcId b) (b :: r) /\ fusable q2.
Proof.
  revert b. induction r as [|b1 r IH]; intros b Hr Hf.
  - split; [by repeat constructor|]. by destruct Hf.
  - destruct Hr as [He Hr]. destruct Hf as [Hb Hf]. destruct (Hb He) as [Ew Ef]. destruct (IH b1 Hr Hf) as [Hall Hq]. split; [|done].
    constructor; [done|]. eapply Forall_impl; [exact Hall|]. intros x [-> ->]. done.
Qed.

(** What a block needs of the batches of its channel. *)
Record queue_ok (read : Z -> outcome Z) (pack : Z -> Z -> Z) (q : list ncclDevWorkBatch) : Prop := {
  qk_jump : Forall (fun b => nextJump b = 0) q;
  qk_wf : Forall batch_wf q;
  qk_fusable : fusable q;
  qk_last b : last q = Some b -> nextExtends b = 0;
  qk_bytes g : g ∈ (decode q).1 -> Z.of_nat (length g.2) * size_of_code g.1.1 <= NCCL_MAX_DEV_WORK_BATCH_BYTES;
  qk_read g off p : g ∈ (decode q).1 -> off ∈ g.2 -> 0 <= p < size_of_code g.1.1 / 16 -> read (u32 (off + p * 16)) = Ret (pack off p) }.

(** Shared memory holds the fused batch [g]: its type, function, and the structs
    at its offsets in order. *)
Definition holds (pack : Z -> Z -> Z) (g : Z * Z * list Z) (sh : ncclShmemData) : Prop :=
  sh_workType sh = g.1.1 /\ sh_funcId sh = g.1.2 /\ sh_nWorks sh = Z.of_nat (length g.2) /\ sh_workSize sh = size_of_code g.1.1 /\
  loaded pack (workStorage sh) (size_of_code g.1.1 / 16) g.2.

Section kernel.
  Context (read : Z -> outcome Z) (pack : Z -> Z -> Z) (bz : list ncclDevWorkBatch) (Hbz : (length bz < Z.to_nat (2 ^ 14))%nat).

(** One load from the head of a queue. *)
Lemma load_spec tn q i fuel sh : 64 <= tn -> q <> [] -> queue_ok read pack q -> chain_at bz i q -> (length q <= fuel)%nat ->
  length (workStorage sh) = 64%nat ->
  wp (loadWorkBatchToShmem fuel tn bz read (Z.of_nat i) sh) (fun sh' => exists g q2, (decode q).1 = g :: (decode q2).1 /\
    (length q2 < length q)%nat /\ holds pack g sh' /\ length (workStorage sh') = 64%nat /\ queue_ok read pack q2 /\
    ((q2 = [] /\ sh_nextBatchIx sh' = -1) \/ (q2 <> [] /\ exists j, sh_nextBatchIx sh' = Z.of_nat j /\ chain_at bz j q2))).
Proof.
  intros Htn Hne [Hj Hwf Hfu Hl Hby Hrd] Hch Hf Hst. destruct (split_run q Hne Hl) as (r & q2 & -> & Hrun & Hl2).
  destruct r as [|b r]; [done|]. destruct (run_same b r q2 Hrun Hfu) as [Hsame Hfu2].
  apply Forall_app in Hwf as [Hwr Hwq]. apply Forall_app in Hj as Hj'. destruct Hj' as [_ Hjq].
  pose proof Hwr as [[[ty Hty] _] _]%Forall_cons. rewrite Hty in Hsame.
  assert (decode ((b :: r) ++ q2) = ((workType_code ty, funcId b, run_offsets (b :: r)) :: (decode q2).1, (decode q2).2)) as Hd.
  { unfold decode at 1. by rewrite (decode_run (workType_code ty) (funcId b) q2 (b :: r) []). }
  rewrite Hd in *. simpl fst in *. set (g := (workType_code ty, funcId b, run_offsets (b :: r))) in *.
  assert (Z.of_nat (length (run_offsets (b :: r))) * ncclDevWorkSize ty <= 1024) as Hbg.
  { rewrite <- size_code. exact (Hby g (list_elem_of_here _ _)). }
  unfold loadWorkBatchToShmem. rewrite length_app in Hf.
  eapply wpx_mono; [eapply (load_loop_spec read pack tn bz Htn Hbz ty (funcId b) q2 (b :: r) fuel i [] sh (seqZ 0 tn)); try done| |done].
  - apply all_threads_seq.
  - lia.
  - intros off p Hoff Hp. apply (Hrd g); [constructor|done|]. simpl. by rewrite size_code.
  - change ([] ++ run_offsets (b :: r)) with (run_offsets (b :: r)). clear -Hbg.
    destruct ty; [change (ncclDevWorkSize _) with 48 in *|change (ncclDevWorkSize _) with 96 in *|change (ncclDevWorkSize _) with 288 in *];
      [change (48 / 16) with 3|change (96 / 16) with 6|change (288 / 16) with 18]; lia.
  - intros sh' (H1 & H2 & H3 & H4 & H5 & H6 & H7). exists g, q2. split; [done|]. split; [rewrite length_app; simpl; lia|].
    split; [unfold holds; simpl; rewrite size_code; done|]. split; [done|]. split.
    + split; try done; intros; [apply Hby|eapply Hrd]; try done; by constructor.
    + destruct q2; [by left|]. right. done.
Qed.

Lemma kernel_loop_spec tn fuelb : 64 <= tn -> forall n q sh fuel, (length q <= n)%nat -> (n < fuel)%nat -> (length q <= fuelb)%nat ->
  queue_ok read pack q -> length (workStorage sh) = 64%nat ->
  ((q = [] /\ sh_nextBatchIx sh = -1) \/ (q <> [] /\ exists j, sh_nextBatchIx sh = Z.of_nat j /\ chain_at bz j q)) ->
  wp (kernel_loop fuel fuelb tn bz read sh) (fun runs => exists rest, runs = sh :: rest /\ Forall2 (holds pack) (decode q).1 rest).
Proof.
  intros Htn. induction n as [|n IH]; intros q sh [|fuel] Hn Hf Hfb Hq Hst Hnext; try lia; cbn [kernel_loop].
  - destruct q; [|simpl in Hn; lia]. destruct Hnext as [[_ ->]|[? _]]; [|done]. simpl. exists []. split; [done|]. constructor.
  - destruct Hnext as [[-> ->]|[Hne (j & -> & Hc)]]; [simpl; exists []; split; [done|]; constructor|].
    destruct (Z.eqb_spec (Z.of_nat j) (-1)); [lia|]. wp_bind.
    eapply wpx_mono; [by apply (load_spec tn q j fuelb sh)| |done]. intros sh' (g & q2 & Hd & Hlt & Hg & Hl' & Hq2 & Hnx).
    wp_bind. eapply wpx_mono; [apply (IH q2 sh' fuel); try done; lia| |done]. intros runs (rest & -> & Hall). simpl.
    exists (sh' :: rest). split; [done|]. rewrite Hd. by constructor.
Qed.
End kernel.

(** ** The host side: uploadWork *)

(** What a launch passes to the kernel: the argument buffer, and the device's
    view of the work buffer with its mask. *)
Record kernel_args := MkArgs {
  ka_storage : ncclDevWorkStorageType; ka_argsBuf : list Z; ka_workBuf : list Z; ka_workMask : Z; ka_batches : list ncclDevWorkBatch }.

Definition shift_base (cursor : Z) (b : ncclDevWorkBatch) : ncclDevWorkBatch :=
  MkBatch (nextJump b) (nextExtends b) (workType b) (funcId b) (u32 (offsetBase b + cursor)) (offsetBitset b).

(** One work struct, pack by pack. *)
Fixpoint write_packs (mask : Z) (packs : list Z) (s : list Z * Z) : outcome (list Z * Z) :=
  match packs with
  | [] => Ret s
  | v :: packs =>
      buf ← zset (fst s) (Z.land (snd s) mask / 16) v;
      write_packs mask packs (buf, u32 (snd s + 16))
  end.

Definition write_nodes (mask : Z) (nodes : list (list Z)) (s : list Z * Z) : outcome (list Z * Z) :=
  for_each nodes (write_packs mask) s.

(** [cudaUpload] stands for the allocation and copy of a persistent buffer.
    [argsBuf] is the memory of [plan->kernelArgs], [workQueue] the packs of the
    plan's work structs. *)
Definition uploadWork (polls : list (list Z)) (cudaUpload : list Z -> outcome (list Z)) (comm : comm_fifo) (plan : ncclKernelPlan)
    (argsBuf : list Z) (workQueue : list (list Z)) : outcome (comm_fifo * kernel_args) :=
  let batchBytes := nWorkBatches plan * sizeof_ncclDevWorkBatch in
  '(comm, buf, cursor, mask) ←
    match workStorageType plan with
    | ncclDevWorkStorageTypeArgs => Ret (comm, argsBuf, u32 (sizeof_ncclDevKernelArgs + batchBytes), 2 ^ 32 - 1)
    | ncclDevWorkStorageTypeFifo =>
        comm ← waitWorkFifoAvailable polls comm (u32 (workFifoProduced comm + workBytes plan));
        Ret (comm, workFifoBuf comm, workFifoProduced comm, u32 (workFifoBytes comm - 1))
    | ncclDevWorkStorageTypePersistent =>
        Ret (comm, replicate (Z.to_nat (ROUNDUP (workBytes plan) 16 / 16)) 0, 0, 2 ^ 32 - 1)
    end;
  let n := Z.to_nat (nWorkBatches plan) in
  let bz := (shift_base cursor <$> take n (batches plan)) ++ drop n (batches plan) in
  '(buf, cursor) ← write_nodes mask workQueue (buf, cursor);
  match workStorageType plan with
  | ncclDevWorkStorageTypeArgs => Ret (comm, MkArgs ncclDevWorkStorageTypeArgs buf [] mask bz)
  | ncclDevWorkStorageTypeFifo =>
      Ret (MkFifo buf (workFifoBytes comm) cursor (workFifoConsumedLeast comm) (workFifoConsumed comm) (chan_workFifoProduced comm),
           MkArgs ncclDevWorkStorageTypeFifo argsBuf buf mask bz)
  | ncclDevWorkStorageTypePersistent =>
      dev ← cudaUpload buf;
      Ret (comm, MkArgs ncclDevWorkStorageTypePersistent argsBuf dev mask bz)
  end.

(** The loads of [loadWorkBatchToShmem]. *)
Definition device_read (ka : kernel_args) (addr : Z) : outcome Z :=
  if decide (ka_storage ka = ncclDevWorkStorageTypeArgs) then zget (ka_argsBuf ka) (addr / 16)
  else zget (ka_workBuf ka) (Z.land addr (ka_workMask ka) / 16).

(** ** What the device reads back *)

Lemma for_each_packs mask nodes : forall s, write_nodes mask nodes s = write_packs mask (concat nodes) s.
Proof.
  assert (forall l l' s, write_packs mask (l ++ l') s = (write_packs mask l s ≫= write_packs mask l')) as Happ.
  { induction l as [|v l IH]; intros l' [buf c]; [done|]. simpl. destruct (zset buf (Z.land c mask / 16) v); [|done|done]. apply IH. }
  unfold write_nodes. induction nodes as [|n nodes IH]; intros s; [done|]. simpl. rewrite Happ. destruct (write_packs mask n s); [|done|done]. apply IH.
Qed.

Section upload.
  Context (mask cur0 : Z) (slot : nat -> nat) (len total : nat).
  Context (Hslot : forall i, (i < total)%nat -> Z.land (u32 (cur0 + 16 * Z.of_nat i)) mask / 16 = Z.of_nat (slot i)).
  Context (Hin : forall i, (i < total)%nat -> (slot i < len)%nat).
  Context (Hinj : forall i j, (i < total)%nat -> (j < total)%nat -> slot i = slot j -> i = j).

Lemma write_packs_spec W : forall k buf, length buf = len -> (k + length W <= total)%nat ->
  wp (write_packs mask W (buf, u32 (cur0 + 16 * Z.of_nat k))) (fun s => length s.1 = len /\
    s.2 = u32 (cur0 + 16 * Z.of_nat (k + length W)) /\
    (forall i v, W !! i = Some v -> s.1 !! slot (k + i) = Some v) /\
    (forall x, (forall i, (i < length W)%nat -> x <> slot (k + i)) -> s.1 !! x = buf !! x)).
Proof.
  induction W as [|v W IH]; intros k buf Hl Hk; cbn [write_packs].
  - cbn [wpx fst snd length]. rewrite Nat.add_0_r. split_and!; done.
  - cbn [length fst snd] in *. pose proof (Hin k ltac:(lia)) as Hs. rewrite Hslot by lia. rewrite zset_Ret by lia. cbn [mbind outcome_bind].
    rewrite Nat2Z.id. replace (u32 (u32 (cur0 + 16 * Z.of_nat k) + 16)) with (u32 (cur0 + 16 * Z.of_nat (S k))).
    2:{ unfold u32. rewrite Zplus_mod_idemp_l. f_equal. lia. }
    eapply wpx_mono; [apply (IH (S k)); [by rewrite length_insert|lia]| |done]. intros [b c] (H1 & H2 & H3 & H4). cbn [fst snd] in *.
    split; [done|]. split; [rewrite H2; f_equal; lia|].
    assert (forall i, (i < length W)%nat -> slot k <> slot (S k + i)) as Hne by (intros i Hi E; apply Hinj in E; lia).
    split.
    + intros [|i] x Hx; simpl in Hx.
      * injection Hx as ->. rewrite Nat.add_0_r, H4 by done. apply list_lookup_insert_eq. lia.
      * replace (k + S i)%nat with (S k + i)%nat by lia. by apply H3.
    + intros x Hx. rewrite H4; [apply list_lookup_insert_ne|].
      * intros E. apply (Hx 0%nat); [lia|]. by rewrite Nat.add_0_r.
      * intros i Hi. replace (S k + i)%nat with (k + S i)%nat by lia. apply Hx. lia.
Qed.
End upload.

Lemma land_ones_mod x k : 0 <= k -> Z.land x (2 ^ k - 1) = x mod 2 ^ k.
Proof. intros. rewrite <- Z.land_ones by done. f_equal. rewrite Z.ones_equiv. lia. Qed.

(** Where the packs go: contiguously, or around a power of two. *)
Lemma slot_linear cur n : 0 <= cur -> cur mod 16 = 0 -> cur + 16 * Z.of_nat n <= 2 ^ 32 ->
  forall i, (i < n)%nat -> Z.land (u32 (cur + 16 * Z.of_nat i)) (2 ^ 32 - 1) / 16 = Z.of_nat (Z.to_nat (cur / 16) + i).
Proof.
  intros Hc Hm Hn i Hi. rewrite land_ones_mod by lia. unfold u32. rewrite Z.mod_mod, Z.mod_small by lia. dlia.
Qed.

Lemma slot_wrap cur k : 4 <= k <= 32 -> cur mod 16 = 0 ->
  forall i, Z.land (u32 (cur + 16 * Z.of_nat i)) (2 ^ k - 1) / 16 = Z.of_nat (Z.to_nat ((cur / 16 + Z.of_nat i) mod 2 ^ (k - 4))).
Proof.
  intros Hk Hm i. rewrite land_ones_mod by lia. unfold u32. rewrite <- Znumtheory.Zmod_div_mod; [| |lia|].
  - pose proof (Z.pow_add_r 2 4 (k - 4) ltac:(lia) ltac:(lia)) as E. replace (4 + (k - 4)) with k in E by lia. change (2 ^ 4) with 16 in E.
    pose proof (pow2_pos (k - 4) ltac:(lia)). rewrite E. replace (cur + 16 * Z.of_nat i) with (16 * (cur / 16 + Z.of_nat i)) by dlia.
    rewrite Zmult_mod_distr_l. rewrite Z.mul_comm, Z.div_mul by lia.
    rewrite Z2Nat.id; [done|]. apply Z.mod_pos_bound. lia.
  - apply pow2_pos. lia.
  - exists (2 ^ (32 - k)). rewrite <- Z.pow_add_r by lia. f_equal. lia.
Qed.

Lemma wrap_inj a m i j : 0 < m -> Z.of_nat i < m -> Z.of_nat j < m ->
  Z.to_nat ((a + Z.of_nat i) mod m) = Z.to_nat ((a + Z.of_nat j) mod m) -> i = j.
Proof.
  intros Hm Hi Hj E. assert ((a + Z.of_nat i) mod m = (a + Z.of_nat j) mod m) as E1.
  { pose proof (Z.mod_pos_bound (a + Z.of_nat i) m Hm). pose proof (Z.mod_pos_bound (a + Z.of_nat j) m Hm). lia. }
  pose proof (Z.div_mod (a + Z.of_nat i) m ltac:(lia)) as Ei. pose proof (Z.div_mod (a + Z.of_nat j) m ltac:(lia)) as Ej.
  rewrite E1 in Ei. set (q := (a + Z.of_nat i) / m) in *. set (q' := (a + Z.of_nat j) / m) in *.
  destruct (Z.lt_trichotomy q q') as [Hq|[Hq|Hq]]; nia.
Qed.

Lemma wait_same polls : forall comm d comm', waitWorkFifoAvailable polls comm d = Ret comm' ->
  workFifoBuf comm' = workFifoBuf comm /\ workFifoBytes comm' = workFifoBytes comm /\ workFifoProduced comm' = workFifoProduced comm.
Proof.
  assert (forall polls comm d comm', wait_loop polls comm d = Ret comm' ->
    workFifoBuf comm' = workFifoBuf comm /\ workFifoBytes comm' = workFifoBytes comm /\ workFifoProduced comm' = workFifoProduced comm) as Hl.
  { clear polls. induction polls as [|p polls IH]; intros comm d comm' H; [done|]. cbn [wait_loop] in H.
    destruct (least_consumed _ _ _) as [l| |]; [|done|done]. cbn [mbind outcome_bind] in H.
    destruct (advance_quiesced _ _ _) as [s| |]; [|done|done]. cbn [mbind outcome_bind] in H. cbv zeta in H.
    destruct (hasRoom _ _ _); [by simplify_eq|]. apply IH in H. done. }
  intros comm d comm'. unfold waitWorkFifoAvailable. destruct (hasRoom _ _ _); [intros; by simplify_eq|apply Hl].
Qed.

Record upload_ok (polls : list (list Z)) (cudaUpload : list Z -> outcome (list Z)) (comm : comm_fifo) (plan : ncclKernelPlan)
    (argsBuf : list Z) (nodes : list (list Z)) : Prop := {
  uo_batches : nWorkBatches plan = Z.of_nat (length (batches plan)) /\ nWorkBatches plan < 2 ^ 14;
  uo_bytes : workBytes plan = 16 * Z.of_nat (length (concat nodes)) /\ workBytes plan <= 2 ^ 30;
  uo_storage : match workStorageType plan with
    | ncclDevWorkStorageTypeArgs => 32 + 16 * nWorkBatches plan + workBytes plan <= 16 * Z.of_nat (length argsBuf)
    | ncclDevWorkStorageTypeFifo => exists k, 4 <= k <= 30 /\ workFifoBytes comm = 2 ^ k /\ Z.of_nat (length (workFifoBuf comm)) = 2 ^ (k - 4) /\
        workFifoProduced comm mod 16 = 0 /\ 0 <= workFifoProduced comm < 2 ^ 32 /\ workBytes plan <= workFifoBytes comm /\
        exists comm1, waitWorkFifoAvailable polls comm (u32 (workFifoProduced comm + workBytes plan)) = Ret comm1
    | ncclDevWorkStorageTypePersistent => forall buf, cudaUpload buf = Ret buf
    end }.

Lemma uploadWork_spec polls cudaUpload comm plan argsBuf nodes : upload_ok polls cudaUpload comm plan argsBuf nodes ->
  wp (uploadWork polls cudaUpload comm plan argsBuf nodes) (fun r => exists cursor, 0 <= cursor < 2 ^ 32 /\ cursor mod 16 = 0 /\
    ka_batches r.2 = shift_base cursor <$> batches plan /\
    (forall i v, concat nodes !! i = Some v -> device_read r.2 (u32 (cursor + 16 * Z.of_nat i)) = Ret v)).
Proof.
  intros [[Hb Hb14] [Hw Hw30] Hst]. unfold uploadWork. cbv zeta. rewrite Hb.
  assert (forall cur, (shift_base cur <$> take (Z.to_nat (Z.of_nat (length (batches plan)))) (batches plan)) ++
    drop (Z.to_nat (Z.of_nat (length (batches plan)))) (batches plan) = shift_base cur <$> batches plan) as Hall.
  { intros cur. by rewrite Nat2Z.id, firstn_all, drop_all, app_nil_r. }
  destruct (workStorageType plan).
  - cbn [mbind outcome_bind]. unfold sizeof_ncclDevKernelArgs, sizeof_ncclDevWorkBatch.
    set (cur := 32 + Z.of_nat (length (batches plan)) * 16). assert (u32 cur = cur) as Ec by (unfold u32, cur; apply Z.mod_small; lia).
    assert (cur mod 16 = 0) as Hc16 by (unfold cur; dlia). rewrite for_each_packs. wp_bind.
    replace (u32 cur) with (u32 (cur + 16 * Z.of_nat 0)) by (f_equal; lia).
    pose proof (slot_linear cur (length (concat nodes)) ltac:(unfold cur; lia) Hc16 ltac:(unfold cur; lia)) as Hslot.
    eapply wpx_mono; [apply (write_packs_spec _ cur _ (length argsBuf) (length (concat nodes)) Hslot)| |done].
    + intros i Hi. unfold cur. dlia.
    + intros i j _ _ E. lia.
    + done.
    + lia.
    + intros [buf c] (H1 & H2 & H3 & _). cbn [wpx fst snd] in *. exists cur. split; [unfold cur; lia|]. split; [done|].
      split; [simpl ka_batches; rewrite Hall; replace (cur + 16 * Z.of_nat 0) with cur by lia; by rewrite Ec|]. intros i v Hv. unfold device_read. simpl ka_storage. rewrite decide_True by done.
      pose proof (lookup_lt_Some _ _ _ Hv) as Hi. specialize (Hslot i Hi). rewrite land_ones_mod in Hslot by lia.
      unfold u32 in Hslot |- *. rewrite Z.mod_mod in Hslot by lia. rewrite Hslot. apply zget_Ret. split; [lia|]. rewrite Nat2Z.id. by apply (H3 i).
  - destruct Hst as (k & Hk & Hby & Hlen & H16 & Hcur & Hfit & comm1 & Hwait). rewrite Hwait. cbn [mbind outcome_bind].
    destruct (wait_same _ _ _ _ Hwait) as (-> & -> & ->). set (cur := workFifoProduced comm) in *. rewrite Hby in *.
    assert (u32 (2 ^ k - 1) = 2 ^ k - 1) as ->.
    { unfold u32. apply Z.mod_small. pose proof (pow2_pos k ltac:(lia)). pose proof (Z.pow_le_mono_r 2 k 30 ltac:(lia) ltac:(lia)). lia. }
    pose proof (Z.pow_add_r 2 4 (k - 4) ltac:(lia) ltac:(lia)) as Ep. replace (4 + (k - 4)) with k in Ep by lia. change (2 ^ 4) with 16 in Ep.
    pose proof (pow2_pos (k - 4) ltac:(lia)) as Hp4.
    rewrite for_each_packs. wp_bind. assert (u32 cur = cur) as Ec by (unfold u32; by apply Z.mod_small).
    pose proof (slot_wrap cur k ltac:(lia) H16) as Hslot.
    pose proof (write_packs_spec _ cur _ (length (workFifoBuf comm)) (length (concat nodes)) (fun i _ => Hslot i)) as Hspec.
    eapply wpx_mono; [rewrite <- Ec at 1; replace cur with (cur + 16 * Z.of_nat 0) at 1 by lia; apply Hspec| |done].
    + intros i Hi. pose proof (Z.mod_pos_bound (cur / 16 + Z.of_nat i) (2 ^ (k - 4)) Hp4). lia.
    + intros i j Hi Hj. apply wrap_inj; lia.
    + done.
    + lia.
    + intros [buf c] (H1 & H2 & H3 & _). cbn [wpx fst snd] in *. exists cur. split; [done|]. split; [done|]. split; [apply Hall|].
      intros i v Hv. unfold device_read. simpl ka_storage. rewrite decide_False by done. cbn [ka_workBuf ka_workMask snd]. rewrite Hslot.
      apply zget_Ret. split; [lia|]. rewrite Nat2Z.id. by apply (H3 i).
  - cbn [mbind outcome_bind]. rewrite for_each_packs. wp_bind.
    set (buf0 := replicate _ 0). change 0 with (u32 (0 + 16 * Z.of_nat 0)) at 1.
    pose proof (slot_linear 0 (length (concat nodes)) ltac:(lia) eq_refl ltac:(lia)) as Hslot.
    assert (length buf0 = length (concat nodes)) as Hl0.
    { unfold buf0. rewrite length_replicate. unfold ROUNDUP, DIVUP. rewrite quot_div_nonneg by lia. rewrite Hw. dlia. }
    eapply wpx_mono; [apply (write_packs_spec _ 0 _ (length buf0) (length (concat nodes)) Hslot)| |done].
    + intros i Hi. rewrite Hl0. change (Z.to_nat (0 / 16)) with 0%nat. lia.
    + intros i j _ _ E. lia.
    + done.
    + lia.
    + intros [buf c] (H1 & H2 & H3 & _). cbn [fst snd] in *. rewrite Hst. cbn [mbind outcome_bind wpx]. exists 0. split; [lia|]. split; [done|]. split; [apply Hall|].
      intros i v Hv. unfold device_read. simpl ka_storage. rewrite decide_False by done. cbn [ka_workBuf ka_workMask snd].
      pose proof (lookup_lt_Some _ _ _ Hv) as Hi. rewrite (Hslot i Hi). apply zget_Ret. split; [lia|]. rewrite Nat2Z.id. by apply (H3 i).
Qed.

(** ** From the scheduler to the blocks *)

Lemma last_writer {A} (P : A -> bool) (l : list A) c j : c ∈ l -> P c = true -> (forall t, t ∈ l -> P t = true -> t = c) ->
  fold_left (fun ch t => if P t then t else ch) l j = c.
Proof.
  induction l as [|x l IH] using rev_ind; intros Hc HP Hu; [by apply not_elem_of_nil in Hc|]. rewrite fold_left_app. simpl.
  destruct (P x) eqn:E; [apply Hu; [apply elem_of_app; right; constructor|done]|].
  apply elem_of_app in Hc as [Hc|Hc]; [|apply list_elem_of_singleton in Hc as ->; congruence].
  apply IH; [done|done|]. intros t Ht. apply Hu. apply elem_of_app. by left.
Qed.

Lemma block_channelId_spec mask n c j : 0 <= mask < 2 ^ 64 -> chan_list mask !! n = Some c -> block_channelId mask (Z.of_nat n) j = c.
Proof.
  intros Hm Hn. unfold chan_list in Hn. rewrite <- bits_popAll in Hn by done. destruct (rank_bits mask n c Hn) as (Hc & Hb & Hr).
  unfold block_channelId. apply (last_writer (fun tid => Z.testbit mask tid && (Z.of_nat n =? popcount (Z.land mask (2 ^ tid - 1))))).
  - apply elem_of_seqZ. lia.
  - rewrite Hb, popcount_below, Hr, Z.eqb_refl by lia. done.
  - intros t Ht%elem_of_seqZ [Htb Htr]%andb_true_iff. apply Z.eqb_eq in Htr. rewrite popcount_below in Htr by lia.
    eapply rank_inj; [| |exact Htb|exact Hb|]; lia.
Qed.

Section shift.
  Context (cursor : Z).

(** Offsets after the translation, modulo [2^32]. *)
Definition shifted (offs offs' : list Z) : Prop := Forall2 (fun o o' => u32 o' = u32 (o + cursor)) offs offs'.

Lemma batch_offsets_shift b : shifted (batch_offsets b) (batch_offsets (shift_base cursor b)).
Proof.
  unfold shifted, batch_offsets. cbn [shift_base offsetBase workType offsetBitset]. rewrite Forall2_fmap_l, Forall2_fmap_r. apply Forall_Forall2_diag, Forall_forall. intros i _.
  unfold compose, u32. rewrite Zplus_mod_idemp_l. f_equal. lia.
Qed.

Definition shifted_group (g g' : Z * Z * list Z) : Prop := g.1 = g'.1 /\ shifted g.2 g'.2.

Lemma decode_shift q : Forall2 shifted_group (decode q).1 (decode (shift_base cursor <$> q)).1.
Proof.
  unfold decode. assert (forall G G' a a', Forall2 shifted_group G G' -> shifted a a' ->
    Forall2 shifted_group (fold_left decode_step q (G, a)).1 (fold_left decode_step (shift_base cursor <$> q) (G', a')).1) as H; [|apply H; constructor].
  induction q as [|b q IH]; intros G G' a a' HG Ha; [done|]. cbn [fmap list_fmap fold_left]. unfold decode_step at 2 4. simpl.
  assert (shifted (a ++ batch_offsets b) (a' ++ batch_offsets (shift_base cursor b))) as Happ by (apply Forall2_app; [done|apply batch_offsets_shift]).
  destruct (nextExtends b =? 0); apply IH; try done; [|constructor]. apply Forall2_app; [done|]. constructor; [|constructor]. done.
Qed.

Lemma chain_shift bz i q : chain_at bz i q -> chain_at (shift_base cursor <$> bz) i (shift_base cursor <$> q).
Proof.
  revert i. induction q as [|b q IH]; intros i; [done|]. cbn [chain_at fmap list_fmap]. destruct q as [|b1 q].
  - intros H. simpl. by rewrite list_lookup_fmap, H.
  - intros (j & Hij & Hb & Hc). simpl. exists j. split; [done|]. split; [by rewrite list_lookup_fmap, Hb|]. by apply IH.
Qed.

Lemma fusable_shift q : fusable q -> fusable (shift_base cursor <$> q).
Proof. induction q as [|b q IH]; [done|]. intros [Hb Hq]. split; [|by apply IH]. by destruct q. Qed.
End shift.

(** Shared memory holds the structs of the works [g], from the packs [W]. *)
Definition runs_group (W : list Z) (g : list work) (sh : ncclShmemData) : Prop :=
  exists t f, (forall w, w ∈ g -> w_type w = t /\ w_func w = f) /\ sh_workType sh = workType_code t /\ sh_funcId sh = f /\
    sh_nWorks sh = Z.of_nat (length g) /\ sh_workSize sh = ncclDevWorkSize t /\
    forall k w p, g !! k = Some w -> 0 <= p < ncclDevWorkSize t / 16 ->
      workStorage sh !! Z.to_nat (Z.of_nat k * (ncclDevWorkSize t / 16) + p) = W !! Z.to_nat (w_offset w / 16 + p).

Section channel.
  Context (W : list Z) (cursor : Z) (read : Z -> outcome Z).
  Context (Hread : forall i v, W !! i = Some v -> read (u32 (cursor + 16 * Z.of_nat i)) = Ret v).

Definition pack_at (a p : Z) : Z := match W !! Z.to_nat (u32 (a - cursor) / 16 + p) with Some v => v | None => 0 end.

(** The struct of a work lies in the uploaded packs. *)
Definition work_in (w : work) : Prop :=
  0 <= w_offset w < 2 ^ 32 /\ w_offset w mod 16 = 0 /\ w_offset w + ncclDevWorkSize (w_type w) <= 16 * Z.of_nat (length W).

Lemma pack_at_read w o' p : work_in w -> u32 o' = u32 (w_offset w + cursor) -> 0 <= p < ncclDevWorkSize (w_type w) / 16 ->
  read (u32 (o' + p * 16)) = Ret (pack_at o' p) /\ W !! Z.to_nat (w_offset w / 16 + p) = Some (pack_at o' p).
Proof.
  intros (Ho & H16 & Hin) Heq Hp. assert (u32 (o' - cursor) = w_offset w) as E.
  { unfold u32 in *. rewrite Zminus_mod, Heq, <- Zminus_mod. replace (w_offset w + cursor - cursor) with (w_offset w) by lia. by apply Z.mod_small. }
  unfold pack_at. rewrite E. destruct (lookup_lt_is_Some_2 W (Z.to_nat (w_offset w / 16 + p))) as [v Hv]; [dlia|]. rewrite Hv. split; [|done].
  replace (u32 (o' + p * 16)) with (u32 (cursor + 16 * Z.of_nat (Z.to_nat (w_offset w / 16 + p)))); [by apply Hread|].
  unfold u32 in *. rewrite (Zplus_mod o'), Heq, <- Zplus_mod. f_equal. dlia.
Qed.

Lemma show_in g w : group_ok g -> w ∈ g -> show g = (workType_code (w_type w), w_func w, w_offset <$> g).
Proof.
  intros Hg Hw. destruct g as [|w0 g]; [by apply not_elem_of_nil in Hw|]. simpl.
  destruct (group_same _ Hg w0 w (list_elem_of_here _ _) Hw) as [-> ->]. done.
Qed.

Lemma queue_ok_shift c gs : chan_inv c gs -> (forall w, w ∈ concat gs -> work_in w) -> queue_ok read pack_at (shift_base cursor <$> workBatchQueue c).
Proof.
  intros Hc Hin. pose proof (decode_full c gs Hc) as Hd. pose proof (decode_shift cursor (workBatchQueue c)) as Hsh. rewrite Hd in Hsh. simpl in Hsh.
  assert (forall g', g' ∈ (decode (shift_base cursor <$> workBatchQueue c)).1 -> exists g, g ∈ gs /\ group_ok g /\ shifted_group cursor (show g) g') as Hg'.
  { intros g' [i Hi]%list_elem_of_lookup_1. destruct (Forall2_lookup_r _ _ _ _ _ Hsh Hi) as (sg & Hsg & Hrel).
    apply list_lookup_fmap_Some in Hsg as (g & -> & Hg). exists g. pose proof (list_elem_of_lookup_2 _ _ _ Hg) as Hgs.
    split_and!; try done. pose proof (ci_groups _ _ Hc) as Hall. rewrite Forall_forall in Hall. by apply Hall. }
  destruct Hc as [_ Hj Hwf Hfu Hgs _ Hcur]. split.
  - rewrite Forall_fmap. eapply Forall_impl; [exact Hj|done].
  - rewrite Forall_fmap. eapply Forall_impl; [exact Hwf|done].
  - by apply fusable_shift.
  - intros b Hb. rewrite fmap_last in Hb. destruct Hcur as [[_ E]|(gs0 & g & _ & q0 & b0 & acc & w & i & E & _ & _ & _ & He & _)]; rewrite E in Hb; [done|].
    rewrite last_snoc in Hb. simpl in Hb. simplify_eq. exact He.
  - intros g' (g & _ & Hgo & [E1 E2])%Hg'. destruct g as [|w g0] eqn:Eg; [by destruct (group_nonempty _ Hgo)|]. rewrite <- Eg in *.
    assert (w ∈ g) as Hw by (rewrite Eg; constructor). rewrite (show_in g w Hgo Hw) in E1, E2. simpl in E1, E2.
    rewrite <- E1. simpl. apply Forall2_length in E2. rewrite length_fmap in E2. rewrite <- E2, size_code. by apply (group_bytes _ Hgo).
  - intros g' o' p (g & Hgs' & Hgo & [E1 E2])%Hg' Ho' Hp. apply list_elem_of_lookup_1 in Ho' as [k Hk].
    destruct (Forall2_lookup_r _ _ _ _ _ E2 Hk) as (o & Hok & Ho). destruct g as [|w0 g0] eqn:Eg; [by destruct (group_nonempty _ Hgo)|]. rewrite <- Eg in *.
    assert (w0 ∈ g) as Hw0 by (rewrite Eg; constructor). rewrite (show_in g w0 Hgo Hw0) in E1, Hok. simpl in E1, Hok.
    apply list_lookup_fmap_Some in Hok as (w & -> & Hw). pose proof (list_elem_of_lookup_2 _ _ _ Hw) as Hwg.
    destruct (group_same _ Hgo w0 w Hw0 Hwg) as [Et _]. rewrite <- E1, Et in Hp. simpl in Hp. rewrite size_code in Hp.
    apply (pack_at_read w); [|done|done]. apply Hin. apply list_elem_of_In, in_concat. exists g. by rewrite <- !list_elem_of_In.
Qed.

Lemma runs_groups c gs runs : chan_inv c gs -> (forall w, w ∈ concat gs -> work_in w) ->
  Forall2 (holds pack_at) (decode (shift_base cursor <$> workBatchQueue c)).1 runs -> Forall2 (runs_group W) gs runs.
Proof.
  intros Hc Hin Hh. pose proof (decode_full c gs Hc) as Hd. pose proof (decode_shift cursor (workBatchQueue c)) as Hsh. rewrite Hd in Hsh. simpl in Hsh.
  pose proof (ci_groups _ _ Hc) as Hgs. rewrite Forall_forall in Hgs. apply Forall2_same_length_lookup. split.
  { apply Forall2_length in Hh, Hsh. rewrite length_fmap in Hsh. lia. }
  intros i g sh Hg Hsh'. destruct (Forall2_lookup_r _ _ _ _ _ Hh Hsh') as (g' & Hg' & (H1 & H2 & H3 & H4 & H5)).
  destruct (Forall2_lookup_r _ _ _ _ _ Hsh Hg') as (sg & Hsg & [E1 E2]). rewrite list_lookup_fmap, Hg in Hsg. injection Hsg as <-.
  pose proof (list_elem_of_lookup_2 _ _ _ Hg) as Hgi. pose proof (Hgs g Hgi) as Hgo.
  destruct g as [|w0 g0] eqn:Eg; [by destruct (group_nonempty _ Hgo)|]. rewrite <- Eg in *.
  assert (w0 ∈ g) as Hw0 by (rewrite Eg; constructor). rewrite (show_in g w0 Hgo Hw0) in E1, E2. simpl in E1, E2.
  rewrite <- E1 in *. simpl in H1, H2, H4, H5. rewrite size_code in H4, H5. exists (w_type w0), (w_func w0). split_and!; try done.
  - intros w Hw. destruct (group_same _ Hgo w0 w Hw0 Hw) as [-> ->]. done.
  - rewrite H3. apply Forall2_length in E2. rewrite length_fmap in E2. lia.
  - intros k w p Hw Hp. assert ((w_offset <$> g) !! k = Some (w_offset w)) as Ho by (by rewrite list_lookup_fmap, Hw).
    destruct (Forall2_lookup_l _ _ _ _ _ E2 Ho) as (o' & Ho' & Heq). rewrite (H5 k o' p Ho' Hp). symmetry.
    pose proof (list_elem_of_lookup_2 _ _ _ Hw) as Hwg. destruct (group_same _ Hgo w0 w Hw0 Hwg) as [Et _]. rewrite Et in Hp.
    apply (pack_at_read w); [|done|done]. apply Hin. apply list_elem_of_In, in_concat. exists g. by rewrite <- !list_elem_of_In.
Qed.
End channel.

(** ** Theorems *)

(** The channels of a plan after the calls [ws] of [addWorkBatchToPlan]. *)
Definition scheduled (ws : Z -> list work) (chans : list Channel) : Prop :=
  forall c, 0 <= c < 64 -> Forall work_ok (ws c) /\ StronglySorted Z.lt (w_offset <$> ws c) /\
    exists n n' ch0 ch, add_works empty_channel n (ws c) = Ret (ch0, n') /\ chans !! Z.to_nat c = Some ch /\
      workBatchQueue ch = workBatchQueue ch0.

Lemma scheduled_inv ws chans c : scheduled ws chans -> 0 <= c < 64 -> exists ch0 gs, chan_inv ch0 gs /\ concat gs = ws c /\
  Q chans c = workBatchQueue ch0.
Proof.
  intros Hs Hc. destruct (Hs c Hc) as (Hw & Hso & n & n' & ch0 & ch & Ha & Hch & Hq).
  pose proof (add_works_spec (ws c) empty_channel [] n empty_channel_inv Hw Hso) as H. rewrite Ha in H. simpl in H.
  destruct H as (gs & Hi & Hcat & _). exists ch0, gs. split; [done|]. split; [done|]. unfold Q. by rewrite Hch.
Qed.

Lemma kernel_spec ws chans plan fuel args tn : plan_ready chans plan -> scheduled ws chans ->
  (plan_fuel chans plan <= fuel)%nat -> 128 <= tn ->
  wp (finishPlan fuel args chans plan) (fun r => forall polls cudaUpload comm argsBuf nodes,
    upload_ok polls cudaUpload comm r.2 argsBuf nodes ->
    (forall c w, 0 <= c < 64 -> w ∈ ws c -> work_in (concat nodes) w) ->
    wp (uploadWork polls cudaUpload comm r.2 argsBuf nodes) (fun u => forall n c sh,
      chan_list (channelMask plan) !! n = Some c -> length (workStorage sh) = 64%nat ->
      wp (ncclKernelMain fuel tn (channelMask plan) (ka_batches u.2) (device_read u.2) (Z.of_nat n) sh) (fun k =>
        k.1 = c /\ exists gs, concat gs = ws c /\ Forall2 (runs_group (concat nodes)) gs k.2))).
Proof.
  intros Hr Hs Hf Htn. eapply wpx_mono; [by apply finishPlan_spec| |done].
  intros [chans' plan'] ([Hbl Hchain] & _). cbn [snd] in *. intros polls cudaUpload comm argsBuf nodes Huo Hin.
  eapply wpx_mono; [by apply uploadWork_spec| |done]. intros u (cursor & _ & _ & Hba & Hrd) n c sh Hn Hst.
  pose proof Hr as [Hl Hm _ Ht Hne _ _]. pose proof (list_elem_of_lookup_2 _ _ _ Hn) as Hcl.
  assert (0 <= c < 64) as Hc.
  { apply chan_list_elem in Hcl as [Hc0 Hcb]; [|done]. destruct (Z.lt_ge_cases c 64); [done|]. by rewrite (testbit_high _ 64) in Hcb by lia. }
  destruct (scheduled_inv ws chans c Hs Hc) as (ch0 & gs & Hi & Hcat & HQ).
  specialize (Hchain n c Hn). apply (chain_shift cursor) in Hchain. rewrite <- Hba, HQ in Hchain.
  assert (forall w, w ∈ concat gs -> work_in (concat nodes) w) as Hin' by (intros w Hw; apply (Hin c); [done|by rewrite <- Hcat]).
  pose proof (queue_ok_shift (concat nodes) cursor (device_read u.2) Hrd ch0 gs Hi Hin') as Hq.
  assert (length (ka_batches u.2) < Z.to_nat (2 ^ 14))%nat as Hb14.
  { rewrite Hba, length_fmap. destruct (uo_batches _ _ _ _ _ _ Huo). lia. }
  assert (shift_base cursor <$> workBatchQueue ch0 <> []) as Hqne.
  { rewrite <- HQ. specialize (Hne c Hcl). by destruct (Q chans c). }
  assert (length (shift_base cursor <$> workBatchQueue ch0) < fuel)%nat as Hqf.
  { rewrite length_fmap, <- HQ. unfold plan_fuel in Hf.
    assert (length (Q chans c) <= sum_list_with (fun c => length (Q chans c)) (chan_list (channelMask plan)))%nat; [|lia].
    exact (sum_list_with_in c (fun c => length (Q chans c)) _ Hcl). }
  unfold ncclKernelMain. wp_bind.
  eapply wpx_mono; [apply (load_spec (device_read u.2) (pack_at (concat nodes) cursor) (ka_batches u.2) Hb14 (tn - 2 * 32)
    (shift_base cursor <$> workBatchQueue ch0) n fuel sh); [lia|done|done|done|lia|done]| |done].
  intros sh1 (g & q2 & Hd & Hlt & Hg & Hst1 & Hq2 & Hnx). wp_bind.
  eapply wpx_mono; [apply (kernel_loop_spec (device_read u.2) (pack_at (concat nodes) cursor) (ka_batches u.2) Hb14 tn fuel ltac:(lia)
    (length q2) q2 sh1 fuel); [done|lia|lia|done|done|done]| |done].
  intros runs (rest & -> & Hall). cbn [wpx fst snd]. split; [by apply block_channelId_spec|]. exists gs. split; [done|].
  eapply runs_groups; [exact Hrd|exact Hi|done|]. rewrite Hd. by constructor.
Qed.

(** (C20) Every block runs exactly its channel's works.  Take the works scheduled
    on each channel with [addWorkBatchToPlan], the plan laid out by [finishPlan]
    and uploaded by [uploadWork] to the kernel arguments, the work fifo or a
    persistent buffer.  Then [finishPlan] and [uploadWork] return, and the block
    launched for the [n]th channel of the plan finds its channel number, and runs
    one batch after the other, the fused batches of that channel's works: each
    with the works' type and function, and the works' structs in shared memory in
    the order they were added. *)
Theorem kernel_runs_scheduled_works ws chans plan fuel args tn : plan_ready chans plan -> scheduled ws chans ->
  (plan_fuel chans plan <= fuel)%nat -> 128 <= tn ->
  wp (finishPlan fuel args chans plan) (fun r => forall polls cudaUpload comm argsBuf nodes,
    upload_ok polls cudaUpload comm r.2 argsBuf nodes ->
    (forall c w, 0 <= c < 64 -> w ∈ ws c -> work_in (concat nodes) w) ->
    wp (uploadWork polls cudaUpload comm r.2 argsBuf nodes) (fun u => forall n c sh,
      chan_list (channelMask plan) !! n = Some c -> length (workStorage sh) = 64%nat ->
      wp (ncclKernelMain fuel tn (channelMask plan) (ka_batches u.2) (device_read u.2) (Z.of_nat n) sh) (fun k =>
        k.1 = c /\ exists gs, concat gs = ws c /\ Forall2 (runs_group (concat nodes)) gs k.2))).
Proof. apply kernel_spec. Qed.

(** Three works on channel 1 and one on channel 4, all stored in the kernel
    arguments. *)
Definition example_ws (c : Z) : list work :=
  if c =? 1 then [MkWork ncclDevWorkTypeP2p 3 0 1; MkWork ncclDevWorkTypeP2p 3 48 2; MkWork ncclDevWorkTypeP2p 3 96 2]
  else if c =? 4 then [MkWork ncclDevWorkTypeColl 7 144 (-1)] else [].
Definition channel_with (ws : list work) : Channel :=
  match add_works empty_channel 0 ws with Ret (ch, _) => ch | _ => empty_channel end.
Definition example_chans : list Channel := (fun c => channel_with (example_ws c)) <$> seqZ 0 64.
Definition example_plan : ncclKernelPlan :=
  MkPlan (2 ^ 1 + 2 ^ 4) 0 3 240 ncclDevWorkStorageTypeFifo 0 [] false [] 0.

Lemma example_ready : plan_ready example_chans example_plan.
Proof.
  assert (forall c ch, example_chans !! c = Some ch -> proxyOpQueue ch = []) as Hops.
  { intros c ch (x & -> & Hx)%list_lookup_fmap_Some. unfold channel_with, example_ws.
    destruct (x =? 1); [reflexivity|]. destruct (x =? 4); reflexivity. }
  split.
  - reflexivity.
  - simpl. lia.
  - intros c b. unfold Q. destruct (example_chans !! Z.to_nat c) as [ch|] eqn:E; [|intros H; by apply not_elem_of_nil in H].
    apply list_lookup_fmap_Some in E as (x & -> & _). revert b. apply Forall_forall. unfold channel_with, example_ws.
    destruct (x =? 1); [repeat constructor|]. destruct (x =? 4); repeat constructor.
  - reflexivity.
  - simpl channelMask. assert (chan_list (2 ^ 1 + 2 ^ 4) = [1; 4]) as -> by (vm_compute; reflexivity).
    intros c [->|[->|H]%elem_of_cons]%elem_of_cons; [vm_compute; discriminate..|by apply not_elem_of_nil in H].
  - intros c ch op Hch Hin. rewrite (Hops c ch Hch) in Hin. by apply not_elem_of_nil in Hin.
  - intros c ch Hch. rewrite (Hops c ch Hch). constructor.
Qed.

Lemma example_scheduled : scheduled example_ws example_chans.
Proof.
  intros c Hc. unfold example_chans. split_and!.
  - unfold example_ws. destruct (c =? 1); [repeat constructor; simpl; lia|]. destruct (c =? 4); repeat constructor; simpl; lia.
  - unfold example_ws. destruct (c =? 1); [repeat constructor; simpl; lia|]. destruct (c =? 4); repeat constructor.
  - destruct (add_works empty_channel 0 (example_ws c)) as [[ch n]| |] eqn:E.
    + exists 0, n, ch, (channel_with (example_ws c)). split; [done|]. split; [|unfold channel_with; by rewrite E].
      rewrite list_lookup_fmap, lookup_seqZ_lt by lia. simpl. do 3 f_equal. lia.
    + exfalso. revert E. unfold example_ws. destruct (c =? 1); [vm_compute; discriminate|]. destruct (c =? 4); vm_compute; discriminate.
    + exfalso. revert E. unfold example_ws. destruct (c =? 1); [vm_compute; discriminate|]. destruct (c =? 4); vm_compute; discriminate.
Qed.

Definition example_finished : ncclKernelPlan :=
  Eval vm_compute in match finishPlan 10 4096 example_chans example_plan with Ret r => r.2 | _ => example_plan end.
Definition example_nodes : list (list Z) := [seqZ 1 3; seqZ 4 3; seqZ 7 3; seqZ 10 6].
Definition example_shmem : ncclShmemData := MkShmem 0 0 0 0 0 0 0 (replicate 64 0).

Lemma kernel_runs_scheduled_works_witness : exists r u k,
  finishPlan 10 4096 example_chans example_plan = Ret r /\ workStorageType r.2 = ncclDevWorkStorageTypeArgs /\
  uploadWork [] Ret (init_fifo 0) r.2 (replicate 20 0) example_nodes = Ret u /\
  ncclKernelMain 10 128 18 (ka_batches u.2) (device_read u.2) 1 example_shmem = Ret k /\
  k.1 = 4 /\ exists gs, concat gs = example_ws 4 /\ Forall2 (runs_group (concat example_nodes)) gs k.2.
Proof.
  destruct (wp_elim _ _ (kernel_runs_scheduled_works example_ws example_chans example_plan 10 4096 128 example_ready example_scheduled
    ltac:(vm_compute; lia) ltac:(lia))) as (r & Hr & H).
  assert (r.2 = example_finished) as E.
  { assert (exists r', finishPlan 10 4096 example_chans example_plan = Ret r' /\ r'.2 = example_finished) as (r' & Hr' & <-)
      by (eexists; split; [vm_compute; reflexivity|reflexivity]). rewrite Hr in Hr'. by injection Hr' as ->. }
  specialize (H [] Ret (init_fifo 0) (replicate 20 0) example_nodes). rewrite E in H.
  destruct (wp_elim _ _ (H ltac:(split; vm_compute; (split; congruence) || congruence)
    ltac:(intros c w _; unfold example_ws; destruct (c =? 1); [|destruct (c =? 4)]; revert w; apply Forall_forall;
          repeat constructor; vm_compute; congruence))) as (u & Hu & H').
  destruct (wp_elim _ _ (H' 1%nat 4 example_shmem ltac:(vm_compute; reflexivity) ltac:(reflexivity))) as (k & Hk & Hk4 & Hgs).
  exists r, u, k. rewrite E. split; [exact Hr|]. split; [reflexivity|]. split; [exact Hu|]. split; [exact Hk|]. split; [exact Hk4|exact Hgs].
Defined.
