(* ===== verification/Schedule.v ===== *)
(** * The collectives of a plan, as scheduled

    The loops of [scheduleCollTasksToPlan]: the estimate of the traffic, the loop
    over the tasks and what the plan holds afterwards. *)
From S2P Require Import Prelude Bitops Device RingAlgo Pat ProxyOp Chunking Proxy Plan PatCount FinishPlan CollSched CollPlan Fifo Kernel.

(** ** The estimate *)

Definition weight (t : ncclTaskColl) : Z := Z.max MinTrafficPerChannel (t_trafficBytes t).
Definition weights (ts : list ncclTaskColl) : Z := foldr (fun t a => weight t + a) 0 ts.

Lemma weights_nonneg ts : 0 <= weights ts.
Proof. induction ts as [|t ts IH]; simpl; [lia|]. unfold weight, MinTrafficPerChannel. lia. Qed.

(** Arrays indexed by the kind of a task. *)
Definition at_kind (l : list Z) (t : ncclTaskColl) : Z := znth l (kind_of t).

Lemma kind_range t : 0 <= kind_of t < 4.
Proof. unfold kind_of. destruct (t_isCollnet t), (t_isNvls t); simpl; lia. Qed.

Lemma nMax_kind comm t : zget (nMaxChannels_of comm) (kind_of t) = Ret (nMax_of comm t) /\ at_kind (nMaxChannels_of comm) t = nMax_of comm t.
Proof. unfold at_kind, nMaxChannels_of, nMax_of, kind_of. by destruct (t_isCollnet t), (t_isNvls t). Qed.

(** A task counted in the estimate: the traffic [T] and the channels [N] of each
    kind. *)
Record counted (T N : list Z) (t : ncclTaskColl) : Prop := {
  ct_traffic : t_trafficBytes t <= at_kind T t < 2 ^ 62;
  ct_channels : 1 <= at_kind N t <= 64;
}.

Definition schedulable (comm : sched_comm) (t : ncclTaskColl) : Prop := exists pattern, task_wf comm t pattern.

Section estimate.
Context (comm : sched_comm) (budget : ncclKernelPlanBudget).
Context (Hch : 0 <= sc_nChannels comm <= 64) (Hnv : 0 <= sc_nvlsChannels comm <= 64).

(** The sums so far, with room for the weight [w] of the tasks to come. *)
Record sums_ok (w : Z) (T N : list Z) : Prop := {
  so_len : length T = 4%nat /\ length N = 4%nat;
  so_traffic j : 0 <= j < 4 -> 0 <= znth T j /\ znth T j + w < 2 ^ 62;
  so_channels j : 0 <= j < 4 -> 0 <= znth N j <= znth (nMaxChannels_of comm) j;
}.

(** [k] tasks are counted; the sums only grow. *)
Definition estimated (ts : list ncclTaskColl) (ns : list ncclWorkList) (e0 e : estimate) : Prop :=
  exists k, es_nPlanColls e = es_nPlanColls e0 + Z.of_nat k /\ (k <= length ts)%nat /\ sums_ok 0 (es_traffic e) (es_nChannels e) /\
    (forall j, 0 <= j < 4 -> znth (es_traffic e0) j <= znth (es_traffic e) j /\ znth (es_nChannels e0) j <= znth (es_nChannels e) j) /\
    Forall (counted (es_traffic e) (es_nChannels e)) (take k ts) /\
    (k = 0%nat -> forall nd, head ns = Some nd -> testBudget budget (divUp (es_nPlanColls e0) 4) (es_workBytes e0 + wn_size nd) = false).

Lemma sums_weaken w w' T N : w' <= w -> sums_ok w T N -> sums_ok w' T N.
Proof. intros Hw [H1 H2 H3]. split; [done| |done]. intros j Hj. specialize (H2 j Hj). lia. Qed.

Lemma sums_add w v T N k n : 0 <= k < 4 -> 0 <= v -> 0 <= n <= znth (nMaxChannels_of comm) k -> sums_ok (v + w) T N ->
  sums_ok w (<[Z.to_nat k := znth T k + v]> T) (<[Z.to_nat k := n]> N).
Proof.
  intros Hk Hv Hn [[H1 H1'] H2 H3]. split.
  - by rewrite !length_insert.
  - intros j Hj. rewrite znth_insert by lia. pose proof (H2 j Hj). destruct (Z.eqb_spec k j) as [->|]; lia.
  - intros j Hj. rewrite znth_insert by lia. pose proof (H3 j Hj). destruct (Z.eqb_spec k j) as [->|]; lia.
Qed.

Lemma estimate_spec ts : forall ns e, length ns = length ts -> Forall (schedulable comm) ts -> sums_ok (weights ts) (es_traffic e) (es_nChannels e) ->
  wp (estimate_loop comm budget ts ns e) (estimated ts ns e).
Proof.
  induction ts as [|t ts IH]; intros ns e Hlen Hok Hs; cbn [estimate_loop].
  - exists 0%nat. simpl in *. split_and!; try done; try lia. by destruct ns.
  - destruct ns as [|nd ns]; [done|]. apply Forall_cons in Hok as [[p Ht] Hok]. injection Hlen as Hlen. cbn [weights foldr] in Hs. fold (weights ts) in Hs. pose proof (weights_nonneg ts) as Hw.
    assert (0 <= weight t) as Hw0 by (unfold weight, MinTrafficPerChannel; lia). assert (t_trafficBytes t <= weight t) as Hwt by (unfold weight; lia).
    destruct (testBudget _ _ _) eqn:Eb; cbn [negb]; [|exists 0%nat; split_and!; try done; try lia; [by eapply sums_weaken, Hs; lia|by intros _ ? [= <-]]].
    cbv zeta. pose proof (kind_range t) as Hk. destruct (nMax_kind comm t) as [Em1 Em2]. unfold at_kind in Em2. destruct (tw_channels _ _ _ Ht) as (Hmx & HnM & _).
    pose proof Hs as [[L1 L2] S1 S2]. specialize (S1 _ Hk). specialize (S2 _ Hk). rewrite Em2 in S2.
    rewrite (zget_znth (es_traffic e)) by lia. cbn [mbind outcome_bind]. rewrite zset_Ret by lia. cbn [mbind outcome_bind]. rewrite (zget_znth (es_nChannels e)) by lia. cbn [mbind outcome_bind].
    rewrite Em1. cbn [mbind outcome_bind]. rewrite zset_Ret by lia. cbn [mbind outcome_bind]. fold (weight t). rewrite usmall by lia.
    set (n := Z.min _ _). assert (1 <= n <= nMax_of comm t /\ znth (es_nChannels e) (kind_of t) <= n) as [Hn Hn'] by lia.
    eapply wpx_mono; [apply (IH ns _ Hlen Hok); apply sums_add; try done; rewrite ?Em2; lia| |done]. cbn [es_traffic es_nChannels].
    intros e' (k & H3 & H4 & H5 & H6 & H7 & _). cbn [es_nPlanColls es_traffic es_nChannels] in *. exists (S k). simpl length. split_and!; try done; try lia.
    + intros j Hj. specialize (H6 j Hj). rewrite !znth_insert in H6 by lia. destruct (Z.eqb_spec (kind_of t) j) as [E|]; [rewrite <- E in *|]; lia.
    + constructor; [|done]. specialize (H6 _ Hk). rewrite !znth_insert, !Z.eqb_refl in H6 by lia. destruct H5 as [_ S1' S2']. specialize (S1' _ Hk). specialize (S2' _ Hk). rewrite Em2 in S2'.
      split; unfold at_kind; lia.
Qed.
End estimate.

(** ** What a plan holds *)

(** A task in the plan: its work node and the part of the struct that distributes it. *)
Record placement := MkPlaced { pm_task : ncclTaskColl; pm_node : ncclWorkList; pm_part : coll_part }.

Definition uses (p : placement) (c : Z) : Prop := part_lo (pm_part p) <= c <= part_hi (pm_part p).
#[global] Instance uses_dec p c : Decision (uses p c).
Proof. unfold uses. apply _. Defined.

Definition bytes_of (ps : list placement) : Z := foldr (fun p a => wn_size (pm_node p) + a) 0 ps.

(** The works of channel [c], the structs stored one after the other from [off] on. *)
Fixpoint works_on (ps : list placement) (off c : Z) : list work :=
  match ps with
  | [] => []
  | p :: ps => (if decide (uses p c) then [MkWork (wn_type (pm_node p)) (t_devFuncId (pm_task p)) off (-1)] else []) ++ works_on ps (off + wn_size (pm_node p)) c
  end.

(** An operation of channel [c] belongs to a task that uses the channel, and
    carries the part that the device computes for the channel. *)
Definition op_of (comm : sched_comm) (ps : list placement) (c : Z) (op : ncclProxyOp) : Prop :=
  exists i p pattern, ps !! i = Some p /\ uses p c /\ choose_pattern (t_func (pm_task p)) (t_algorithm (pm_task p)) = Ret pattern /\
    part_op comm (pm_task p) (pm_part p) (2 * Z.of_nat i) pattern c op.

(** The tasks of channel [c], with their numbers from [i] on. *)
Fixpoint on_channel (ps : list placement) (i c : Z) : list (Z * placement) :=
  match ps with
  | [] => []
  | p :: ps => (if decide (uses p c) then [(i, p)] else []) ++ on_channel ps (i + 1) c
  end.

(** The operations that channel [c] gets for the [i]th task: the one that carries
    its part is asked for, and then the profiler's. *)
Definition group_of (comm : sched_comm) (c : Z) (ip : Z * placement) (g : list ncclProxyOp) : Prop :=
  exists pattern, choose_pattern (t_func (pm_task ip.2)) (t_algorithm (pm_task ip.2)) = Ret pattern /\
    asks comm (pm_task ip.2) (pm_part ip.2) (2 * ip.1) pattern c g.

(** The proxy operations of channel [c], task by task: nothing is missing and
    nothing is added. *)
Definition ops_complete (comm : sched_comm) (ps : list placement) (c : Z) (q : list ncclProxyOp) : Prop :=
  exists gs, q = concat gs /\ Forall2 (group_of comm c) (on_channel ps 0 c) gs.

Lemma on_channel_snoc ps p i c : on_channel (ps ++ [p]) i c = on_channel ps i c ++ (if decide (uses p c) then [(i + Z.of_nat (length ps), p)] else []).
Proof.
  revert i. induction ps as [|q ps IH]; intros i; cbn [app on_channel length]; [by rewrite app_nil_r, Z.add_0_r|].
  rewrite IH, <- app_assoc. replace (i + 1 + Z.of_nat (length ps)) with (i + Z.of_nat (S (length ps))) by lia. done.
Qed.

Lemma bytes_snoc ps p : bytes_of (ps ++ [p]) = bytes_of ps + wn_size (pm_node p).
Proof. induction ps as [|q ps IH]; simpl; [lia|]. unfold bytes_of in *. lia. Qed.

Lemma works_snoc ps p off c : works_on (ps ++ [p]) off c = works_on ps off c ++
  (if decide (uses p c) then [MkWork (wn_type (pm_node p)) (t_devFuncId (pm_task p)) (off + bytes_of ps) (-1)] else []).
Proof.
  revert off. induction ps as [|q ps IH]; intros off; cbn [app works_on bytes_of foldr]; [by rewrite app_nil_r, Z.add_0_r|].
  rewrite IH, <- app_assoc. fold (bytes_of ps). by rewrite Z.add_assoc.
Qed.

Lemma works_spread ps p c : spread (part_lo (pm_part p)) (part_hi (pm_part p) + 1) (fun l => l ++ [MkWork (wn_type (pm_node p)) (t_devFuncId (pm_task p)) (bytes_of ps) (-1)])
  (works_on ps 0) c = works_on (ps ++ [p]) 0 c.
Proof.
  rewrite works_snoc. unfold spread. rewrite Z.add_0_l. case_decide as Hu; unfold uses in Hu;
    destruct (Z.leb_spec (part_lo (pm_part p)) c), (Z.ltb_spec c (part_hi (pm_part p) + 1)); cbn [andb]; try lia; by rewrite ?app_nil_r.
Qed.

Lemma op_of_mono comm ps p c op : op_of comm ps c op -> op_of comm (ps ++ [p]) c op.
Proof. intros (i & q & pat & Hi & H). exists i, q, pat. split; [by apply lookup_app_l_Some|done]. Qed.

(** [channelMask |= (2ull << hi) - (1ull << lo)] *)
Lemma mask_bits lo hi c : 0 <= lo <= hi -> hi < 64 -> 0 <= c < 64 ->
  Z.testbit (u64 (u64 (Z.shiftl 2 hi) - u64 (Z.shiftl 1 lo))) c = bool_decide (lo <= c <= hi).
Proof.
  intros Hlh Hhi Hc. rewrite !Z.shiftl_mul_pow2 by lia. rewrite Z.mul_1_l. replace (2 * 2 ^ hi) with (2 ^ (hi + 1)) by (rewrite Z.pow_add_r by lia; lia).
  unfold u64. rewrite <- Zminus_mod. rewrite Z.mod_pow2_bits_low by lia.
  replace (2 ^ (hi + 1) - 2 ^ lo) with (Z.shiftl (Z.ones (hi + 1 - lo)) lo).
  - rewrite Z.shiftl_spec by lia. rewrite Z.testbit_ones by lia. apply eq_iff_eq_true. rewrite bool_decide_eq_true, andb_true_iff, Z.leb_le, Z.ltb_lt. lia.
  - rewrite Z.shiftl_mul_pow2, Z.ones_equiv by lia. rewrite <- Z.sub_1_r, Z.mul_sub_distr_r, <- Z.pow_add_r by lia. f_equal; [f_equal|]; lia.
Qed.

(** The callbacks the tasks own. *)
Definition cleanups (ts : list ncclTaskColl) : Z := foldr (fun t a => t_nCleanupQueueElts t + a) 0 ts.

Section loop.
Context (comm : sched_comm) (budget : ncclKernelPlanBudget) (s0 : sched).

(** The plan after the tasks [ps] were taken from [s0]. *)
Record holds_tasks (ps : list placement) (s : sched) : Prop := {
  ht_tasks : sd_tasks s0 = (pm_task <$> ps) ++ sd_tasks s /\ pl_tasks (sd_plan s) = pm_task <$> ps;
  ht_works : sd_works s0 = (pm_node <$> ps) ++ sd_works s;
  ht_nodes : Forall2 (fun p n => wn_type n = wn_type (pm_node p) /\ wn_size n = wn_size (pm_node p) /\ wn_part n = Some (pm_part p)) ps (pl_works (sd_plan s));
  ht_left : sd_nTasksColl s = sd_nTasksColl s0 - Z.of_nat (length ps) /\ pl_collOpCount (sd_plan s) = Z.of_nat (length ps);
  ht_cleanup : sd_cleanup s0 = pl_cleanup (sd_plan s) ++ sd_cleanup s /\ cleanups (sd_tasks s) <= Z.of_nat (length (sd_cleanup s));
  ht_bytes : pl_workBytes (sd_plan s) = bytes_of ps;
  ht_mask : 0 <= pl_channelMask (sd_plan s) < 2 ^ 64 /\ forall c, 0 <= c < 64 -> Z.testbit (pl_channelMask (sd_plan s)) c = true <-> exists p, p ∈ ps /\ uses p c;
  ht_placed : Forall (fun p => 0 < wn_size (pm_node p) /\ schedulable comm (pm_task p) /\ work_for comm (pm_task p) (pm_part p)) ps;
  ht_budget : ps <> [] -> testBudget budget (nb s) (bytes_of ps) = true;
  ht_inv : sched_inv s (works_on ps 0) (fun _ => bytes_of ps) (fun _ => Z.of_nat (length ps)) (op_of comm ps);
  ht_ops : forall c, 0 <= c < 64 -> ops_complete comm ps c (queue_at s c);
}.

Lemma testBudget_mono n n' b : n' <= n -> testBudget budget n b = true -> testBudget budget n' b = true.
Proof.
  unfold testBudget, sizeof_ncclDevWorkBatch. intros Hn. rewrite !orb_true_iff, !andb_true_iff, !Z.leb_le. intros [H|[H1 H2]]; [left|right]; lia.
Qed.

Lemma mask_step m lo hi c : 0 <= m < 2 ^ 64 -> 0 <= lo <= hi -> hi < 64 ->
  let m' := Z.lor m (u64 (u64 (Z.shiftl 2 hi) - u64 (Z.shiftl 1 lo))) in 0 <= m' < 2 ^ 64 /\ (0 <= c < 64 -> Z.testbit m' c = true <-> Z.testbit m c = true \/ lo <= c <= hi).
Proof.
  intros Hm Hlh Hhi m'. assert (0 <= u64 (u64 (Z.shiftl 2 hi) - u64 (Z.shiftl 1 lo)) < 2 ^ 64) as Hu by (apply Z.mod_pos_bound; lia). split.
  - assert (0 <= m') by (apply Z.lor_nonneg; lia). split; [done|]. apply lt_pow2_bits; [lia|lia|]. intros i Hi. unfold m'. by rewrite Z.lor_spec, !(testbit_high _ 64) by lia.
  - intros Hc. unfold m'. rewrite Z.lor_spec, orb_true_iff, mask_bits, bool_decide_eq_true by lia. done.
Qed.

(** One more task on the channels it uses. *)
Lemma complete_step ps s s' t node part pattern c : choose_pattern (t_func t) (t_algorithm t) = Ret pattern -> 0 <= c < 64 ->
  grown (asks comm t part (2 * Z.of_nat (length ps)) pattern) s s' (part_lo part) (part_hi part + 1) ->
  ops_complete comm ps c (queue_at s c) -> ops_complete comm (ps ++ [MkPlaced t node part]) c (queue_at s' c).
Proof.
  intros Hp Hc (f & Hf & Hq) (gs & Hcat & Hgs). rewrite (Hq c ltac:(lia)). unfold ops_complete. rewrite on_channel_snoc, Z.add_0_l.
  case_decide as Hu; unfold uses in Hu; cbn [pm_part] in Hu; destruct (Z.leb_spec (part_lo part) c), (Z.ltb_spec c (part_hi part + 1)); cbn [andb]; try lia; rewrite ?app_nil_r.
  - exists (gs ++ [f c]). split; [by rewrite concat_app, Hcat; cbn [concat]; rewrite app_nil_r|]. apply Forall2_app; [done|]. constructor; [|constructor].
    exists pattern. split; [done|]. apply Hf. lia.
  - by exists gs.
  - by exists gs.
  - by exists gs.
Qed.

Lemma commit_step ps s t ts node ns part d s' pattern : holds_tasks ps s -> sd_tasks s = t :: ts -> sd_works s = node :: ns -> 0 < wn_size node -> task_wf comm t pattern ->
  work_for comm t part -> same_frame (bump_opCount s) s' -> testBudget budget (nb s') (bytes_of ps + wn_size node) = true -> 0 <= cleanups ts ->
  grown (asks comm t part (2 * Z.of_nat (length ps)) pattern) s s' (part_lo part) (part_hi part + 1) ->
  sched_inv s' (works_on (ps ++ [MkPlaced t node part]) 0) (fun _ => bytes_of ps + 1) (fun _ => Z.of_nat (length ps)) (op_of comm (ps ++ [MkPlaced t node part])) ->
  wp (commit_task comm t node part d s') (holds_tasks (ps ++ [MkPlaced t node part])).
Proof.
  intros [[T1 T2] W1 N1 [L1 L2] [C1 C2] B1 [M0 M1] P1 _ _ O1] Et En Hsz Ht Hw (chans & n & px & ->) Hb Hcl Hgr Hinv. unfold commit_task. cbv zeta.
  pose proof (tw_cleanup _ _ _ Ht) as Hn0. rewrite Et in C2. cbn [cleanups foldr] in C2. fold (cleanups ts) in C2.
  destruct (work_channels _ _ _ Ht _ Hw) as [Hlh Hlt]. destruct (tw_channels _ _ _ Ht) as (_ & HnM & _).
  cbn [sd_cleanup set_chans bump_opCount]. rewrite (proj2 (Z.leb_le _ _)) by lia. cbn [require mbind outcome_bind wpx].
  assert (forall c, uses (MkPlaced t node part) c <-> part_lo part <= c <= part_hi part) as Hu by done.
  split; cbn [sd_tasks sd_works sd_nTasksColl sd_cleanup sd_plan pl_tasks pl_works pl_collOpCount pl_cleanup pl_workBytes pl_channelMask set_chans bump_opCount wn_size wn_type].
  - rewrite T1, T2, Et, fmap_app, <- app_assoc. done.
  - rewrite W1, En, fmap_app, <- app_assoc. done.
  - apply Forall2_app; [done|]. by repeat constructor.
  - rewrite length_app. simpl. lia.
  - rewrite <- app_assoc, take_drop, Et. cbn [tail]. split; [done|]. rewrite length_drop. lia.
  - rewrite bytes_snoc. cbn [pm_node]. lia.
  - destruct (mask_step (pl_channelMask (sd_plan s)) (part_lo part) (part_hi part) 0 M0 ltac:(lia) ltac:(lia)) as [Hm0 _]. split; [done|]. intros c Hc.
    destruct (mask_step (pl_channelMask (sd_plan s)) (part_lo part) (part_hi part) c M0 ltac:(lia) ltac:(lia)) as [_ Hmc]. rewrite (Hmc Hc), (M1 c Hc). split.
    + intros [(p & Hp & Hpu)|Hr]; [exists p|exists (MkPlaced t node part)]; rewrite elem_of_app; [tauto|]. split; [right; by apply list_elem_of_singleton|done].
    + intros (p & [Hp|Hp%list_elem_of_singleton]%elem_of_app & Hpu); [left; eauto|right]. by rewrite Hp in Hpu.
  - apply Forall_app. split; [done|]. apply Forall_singleton. split; [done|]. split; [by exists pattern|done].
  - intros _. rewrite bytes_snoc. exact Hb.
  - refine (inv_same _ _ _ _ _ _ _ _ _ _ _ _ _ (inv_ext _ _ _ _ _ _ _ _ _ Hinv)); try done; [intros; rewrite length_app; lia|].
    intros c Hc. cbn beta. rewrite bytes_snoc. cbn [pm_node]. lia.
  - intros c Hc. eapply (complete_step ps s); [apply Ht|done|exact Hgr|by apply O1].
Qed.

(** ** The loop over the tasks *)

Context (T N : list Z) (Hsums : sums_ok comm 0 T N).

Definition share (t : ncclTaskColl) : Z := Z.max MinTrafficPerChannel (at_kind T t / at_kind N t).

Lemma share_ok t : counted T N t -> 2 ^ 14 <= share t < 2 ^ 62 /\ t_trafficBytes t <= 2 ^ 20 * share t.
Proof.
  intros [Ht Hc]. unfold share, MinTrafficPerChannel. change (16 * 2 ^ 10) with (2 ^ 14). set (x := at_kind T t) in *. set (y := at_kind N t) in *.
  assert (0 <= x) by (apply (so_traffic _ _ _ _ Hsums), kind_range).
  pose proof (Z.div_mod x y ltac:(lia)) as Hd. pose proof (Z.mod_pos_bound x y ltac:(lia)) as Hm. assert (x / y < 2 ^ 62) by (apply Z.div_lt_upper_bound; nia).
  set (q := x / y) in *. split; [lia|]. assert (y * q <= 64 * Z.max (2 ^ 14) q) by nia. lia.
Qed.

(** The cursor fits the next task of its kind. *)
Definition cursor_inv (cu : cursor) : Prop := forall t, kind_of t = cu_kindPrev cu ->
  cu_trafficPerChannel cu = share t /\ 0 <= cu_channelId cu < nMax_of comm t /\ 0 <= cu_currentTraffic cu /\
  (cu_currentTraffic cu < cu_trafficPerChannel cu \/ cu_channelId cu + 1 = nMax_of comm t).

Lemma same_kind t t' : kind_of t' = kind_of t -> share t' = share t /\ nMax_of comm t' = nMax_of comm t.
Proof. intros E. rewrite <- !(proj2 (nMax_kind comm _)). unfold share, at_kind. by rewrite E. Qed.

(** The cursor for task [t]: the old one, or a new one when the kind changes. *)
Lemma cursor_for t cu : schedulable comm t -> counted T N t -> cursor_inv cu ->
  wp (if negb (kind_of t =? cu_kindPrev cu) then
        tr ← zget T (kind_of t); nc ← zget N (kind_of t); q ← udiv tr (u64 nc); Ret (MkCursor (kind_of t) (Z.max MinTrafficPerChannel q) 0 0)
      else Ret cu) (fun cu' => cu_kindPrev cu' = kind_of t /\ cu_trafficPerChannel cu' = share t /\ cursor_ok comm t cu').
Proof.
  intros [p Ht] Hct Hcu. destruct (share_ok t Hct) as [Hs1 Hs2]. destruct (tw_channels _ _ _ Ht) as (_ & HnM & _). pose proof (kind_range t) as Hk. destruct (so_len _ _ _ _ Hsums) as [L1 L2].
  destruct (Z.eqb_spec (kind_of t) (cu_kindPrev cu)) as [E|E]; cbn [negb].
  - cbn [wpx]. destruct (Hcu t E) as (H1 & H2 & H3 & H4). split; [done|]. split; [done|]. split; [by rewrite H1|done|done].
  - rewrite !zget_znth by lia. fold (at_kind T t) (at_kind N t).
    cbn [mbind outcome_bind]. destruct (ct_channels _ _ _ Hct) as [Hc1 Hc2]. rewrite (usmall (at_kind N t)), udiv_Ret by lia. cbn [mbind outcome_bind wpx].
    fold (share t). split; [done|]. split; [done|]. split; cbn [cu_trafficPerChannel cu_channelId cu_currentTraffic]; [done|lia|]. split; [lia|left; lia].
Qed.

Lemma cursor_next_inv t cu cu' : cu_kindPrev cu = kind_of t -> cu_trafficPerChannel cu = share t -> cursor_next comm t cu cu' -> cursor_inv cu'.
Proof.
  intros Hk Hs [[H1 H2] H3 H4] t' Hk'. destruct (same_kind t t' ltac:(congruence)) as [-> ->]. rewrite <- Hs. split_and!; try done; apply H3 || apply H4.
Qed.

Lemma cursor_stays t cu : cursor_ok comm t cu -> cursor_next comm t cu cu.
Proof. intros [_ H2 H3]. by split. Qed.

Context (Htasks : Forall (schedulable comm) (sd_tasks s0)) (Hworks : Forall (fun nd => 0 < wn_size nd) (sd_works s0)) (Hlen : length (sd_works s0) = length (sd_tasks s0)).
Context (Hbudget : inArgsBytes budget < 2 ^ 31 /\ outArgsBytes budget < 2 ^ 31).

Lemma cleanups_nonneg ts : Forall (schedulable comm) ts -> 0 <= cleanups ts.
Proof. induction 1 as [|t ts [p Ht] _ IH]; simpl; [done|]. pose proof (tw_cleanup _ _ _ Ht). lia. Qed.

Lemma nb_nonneg s ws bnd key R : sched_inv s ws bnd key R -> 0 <= nb s.
Proof. clear Hlen. intros [_ _ _ H _ _ _]. unfold nb. lia. Qed.

Lemma holds_small ps s : holds_tasks ps s -> 0 <= bytes_of ps < 2 ^ 32 /\ Z.of_nat (length ps) < 2 ^ 31.
Proof.
  clear Hlen. intros [_ _ _ _ _ _ _ Hp Hb Hi _]. assert (Z.of_nat (length ps) <= bytes_of ps) as Hle.
  { clear -Hp. induction Hp as [|p ps (H & _) _ IH]; [done|]. cbn [length bytes_of foldr]. fold (bytes_of ps). lia. }
  destruct ps as [|p ps]; [by simpl|]. specialize (Hb ltac:(done)). pose proof (nb_nonneg _ _ _ _ _ Hi). unfold testBudget, sizeof_ncclDevWorkBatch in Hb.
  rewrite orb_true_iff, andb_true_iff, !Z.leb_le in Hb. lia.
Qed.

(** The first task that is left does not fit, whatever channels it takes. *)
Definition full (ps : list placement) (s : sched) : Prop :=
  exists t ts node ns x, sd_tasks s = t :: ts /\ sd_works s = node :: ns /\ 1 <= x <= nMax_of comm t /\ testBudget budget (nb s + x) (bytes_of ps + wn_size node) = false.

(** A task placed one way or the other is committed. *)
Lemma loop_step ps s t ts node ns pat part d s' : holds_tasks ps s -> sd_tasks s = t :: ts -> sd_works s = node :: ns -> 0 < wn_size node -> task_wf comm t pat -> 0 <= cleanups ts ->
  placed_part comm t pat budget node s (works_on ps 0) (bytes_of ps) (Z.of_nat (length ps)) (fun part => op_of comm (ps ++ [MkPlaced t node part])) part s' ->
  nb s' <= nb s + Z.max 0 (part_hi part - part_lo part + 1) -> wp (commit_task comm t node part d s') (holds_tasks (ps ++ [MkPlaced t node part])).
Proof.
  clear Hlen. intros Hh Et En Hsz Ht Hcl (Hw & Hf & Hbt & Hg & Hi) Hn. destruct (work_channels _ _ _ Ht _ Hw) as [Hlh _].
  apply (commit_step ps s t ts node ns part d s' pat); try done.
  - eapply testBudget_mono; [|exact Hbt]. unfold nb in *. lia.
  - eapply inv_ext; [..|exact Hi]; intros c Hc0; cbn beta; [|lia]. by rewrite <- works_spread.
Qed.

(** The body of the loop up to the commit. *)
Lemma place_step ps s t ts node ns cu : holds_tasks ps s -> sd_tasks s = t :: ts -> sd_works s = node :: ns -> 0 < wn_size node -> schedulable comm t -> 0 <= cleanups ts ->
  cursor_ok comm t cu ->
  wp (if t_isCollnet t then
        o ← place_collnet comm budget t node s; Ret (match o with Some (part, direct, s) => Some (part, direct, cu, s) | None => None end)
      else place_cbd comm budget t node cu (nMax_of comm t) s) (fun r => match r with
    | None => full ps s
    | Some (part, d, cu', s') => cursor_next comm t cu cu' /\ wp (commit_task comm t node part d s') (holds_tasks (ps ++ [MkPlaced t node part]))
    end).
Proof.
  intros Hh Et En Hsz [pat Ht] Hcl Hcu. destruct (holds_small _ _ Hh) as [Hb Hl]. pose proof Hh as [_ _ _ [_ Lc] _ B1 _ _ _ Hi _].
  assert (forall part, sched_inv s (works_on ps 0) (fun _ => bytes_of ps) (fun _ => Z.of_nat (length ps)) (op_of comm (ps ++ [MkPlaced t node part]))) as Hinv.
  { intros w. refine (inv_same _ _ _ _ _ _ _ _ _ _ _ _ _ Hi); try done. intros c op. apply op_of_mono. }
  assert (forall part c op, work_for comm t part -> part_lo part <= c <= part_hi part -> part_op comm t part (2 * Z.of_nat (length ps)) pat c op -> op_of comm (ps ++ [MkPlaced t node part]) c op) as HR.
  { intros part c op Hw Hc Hop. exists (length ps), (MkPlaced t node part), pat. split_and!; try done; [by apply list_lookup_middle|apply Ht]. }
  destruct (t_isCollnet t) eqn:Enc.
  - wp_bind. eapply wpx_mono; [eapply (wp_ensures _ _ _ (place_collnet_spec comm t pat Ht budget node s (works_on ps 0) (fun _ => bytes_of ps) (bytes_of ps) (Z.of_nat (length ps)) _
      Hinv B1 Hb (fun _ => Z.le_refl _) Lc (conj (Nat2Z.is_nonneg _) Hl) HR Enc) (place_collnet_count _ _ _ _ _))| |done].
    intros [[[part d] s']|]; cbn [wpx].
    + intros [Hp Hn]. split; [by apply cursor_stays|]. by eapply loop_step.
    + intros [(x & Hx & Hbf) _]. by exists t, ts, node, ns, x.
  - eapply wpx_mono; [eapply (wp_ensures _ _ _ (place_cbd_spec comm t pat Ht budget node s (works_on ps 0) (fun _ => bytes_of ps) (bytes_of ps) (Z.of_nat (length ps)) _
      Hinv B1 Hb (fun _ => Z.le_refl _) Lc (conj (Nat2Z.is_nonneg _) Hl) HR cu Enc Hcu) (place_cbd_count _ _ _ _ _ _ _))| |done].
    intros [[[[part d] cu'] s']|].
    + intros [[Hc Hp] Hn]. split; [done|]. by eapply loop_step.
    + intros [(x & Hx & Hbf) _]. by exists t, ts, node, ns, x.
Qed.

Lemma sched_loop_spec k : forall cu s ps, holds_tasks ps s -> cursor_inv cu -> (k <= length (sd_tasks s))%nat -> Forall (counted T N) (take k (sd_tasks s)) ->
  wp (sched_loop comm budget T N k cu s) (fun s' => exists qs, holds_tasks (ps ++ qs) s' /\ (length qs = k \/ full (ps ++ qs) s')).
Proof.
  induction k as [|k IH]; intros cu s ps Hh Hcu Hk Hct; cbn [sched_loop]; [exists []; rewrite app_nil_r; split; [done|by left]|].
  destruct (ht_tasks _ _ Hh) as [T1 _]. pose proof (ht_works _ _ Hh) as W1. destruct (sd_tasks s) as [|t ts] eqn:Et; [simpl in Hk; lia|].
  pose proof Hlen as Hl. rewrite T1, W1, !length_app, !length_fmap in Hl. destruct (sd_works s) as [|node ns] eqn:En; [simpl in Hl; lia|].
  pose proof Htasks as HT. rewrite T1 in HT. apply Forall_app in HT as [_ [Hs HT]%Forall_cons]. pose proof Hworks as HW. rewrite W1 in HW. apply Forall_app in HW as [_ [Hsz _]%Forall_cons].
  cbn [take] in Hct. apply Forall_cons in Hct as [Hct Hcts]. rewrite (proj1 (nMax_kind comm t)).
  cbn [mbind outcome_bind]. apply wpx_bind. eapply wpx_mono; [by apply cursor_for| |done]. intros cu1 (Hk1 & Hs1 & Hok). apply wpx_bind.
  eapply wpx_mono; [by eapply place_step, Hok; try done; apply cleanups_nonneg| |done].
  intros [[[[part d] cu2] s2]|]; [|intros Hf; exists []; rewrite app_nil_r; split; [done|by right]]. intros (Hn & Hc). apply wpx_bind.
  eapply wpx_mono; [exact Hc| |done]. intros s3 Hh3. destruct (ht_tasks _ _ Hh3) as [T3 _].
  assert (sd_tasks s3 = ts) as Et3 by (rewrite T1, fmap_app, <- app_assoc in T3; apply app_inv_head in T3; by injection T3 as <-).
  eapply wpx_mono; [apply (IH cu2 s3 _ Hh3)| |done].
  - by eapply cursor_next_inv.
  - rewrite Et3. simpl in Hk. lia.
  - by rewrite Et3.
  - intros s4 (qs & Hh4 & Hq). rewrite <- app_assoc in Hh4, Hq. exists ([MkPlaced t node part] ++ qs). split; [done|]. simpl length. destruct Hq as [->|Hq]; [by left|by right].
Qed.
End loop.

(** ** Theorems *)

(** The planner before the collectives of a new plan are scheduled. *)
Record sched_ready (comm : sched_comm) (budget : ncclKernelPlanBudget) (s : sched) : Prop := {
  sr_channels : sd_channels s = replicate 64 empty_channel;
  sr_counters : length (xs_workCounter (sd_proxy s)) = 64%nat;
  sr_plan : pl_channelMask (sd_plan s) = 0 /\ pl_collOpCount (sd_plan s) = 0 /\ pl_nWorkBatches (sd_plan s) = 0 /\ pl_workBytes (sd_plan s) = 0;
  sr_lists : pl_tasks (sd_plan s) = [] /\ pl_works (sd_plan s) = [] /\ pl_cleanup (sd_plan s) = [];
  sr_tasks : Forall (schedulable comm) (sd_tasks s) /\ weights (sd_tasks s) < 2 ^ 62;
  sr_works : Forall (fun nd => 0 < wn_size nd) (sd_works s) /\ length (sd_works s) = length (sd_tasks s);
  sr_cleanup : cleanups (sd_tasks s) <= Z.of_nat (length (sd_cleanup s));
  sr_comm : 0 <= sc_nChannels comm <= 64 /\ 0 <= sc_nvlsChannels comm <= 64;
  sr_budget : inArgsBytes budget < 2 ^ 31 /\ outArgsBytes budget < 2 ^ 31;
}.

Lemma ready_holds comm budget s : sched_ready comm budget s -> holds_tasks comm budget s [] s.
Proof.
  intros [H1 H2 (P1 & P2 & P3 & P4) (L1 & L2 & L3) _ _ H6 _ _].
  split; rewrite ?L1, ?L2, ?L3, ?P1, ?P2, ?P4; try done.
  - split; [simpl; lia|done].
  - split; [lia|]. intros c _. rewrite Z.bits_0. split; [done|]. intros (p & Hp & _). by apply not_elem_of_nil in Hp.
  - by apply empty_inv.
  - intros c Hc. exists []. split; [|constructor]. unfold queue_at. rewrite H1, lookup_replicate_2 by lia. done.
Qed.

Lemma no_works s bnd key R c ws : sched_inv s ws bnd key R -> 0 <= c < 64 -> ws c = [] -> Q (sd_channels s) c = [].
Proof.
  intros [_ H2 _ _ _ _ _] Hc E. unfold Q. destruct (H2 c Hc) as (ch & ch0 & d & -> & Ha & ->). rewrite E in Ha. cbn [add_works] in Ha. by injection Ha as <- _.
Qed.

Lemma sum_with_fmap {A B} (f : B -> nat) (g : A -> B) l : sum_list_with f (g <$> l) = sum_list_with (f ∘ g) l.
Proof. induction l as [|x l IH]; [done|]. cbn [fmap list_fmap sum_list_with]. by rewrite <- IH. Qed.

(** The batches of all channels, and of the channels of a plan. *)
Lemma total_Q chans : length chans = 64%nat -> total_batches chans = sum_list_with (fun c => length (Q chans c)) (seqZ 0 64).
Proof.
  intros Hl. unfold total_batches. assert (chans = (fun c => default empty_channel (chans !! Z.to_nat c)) <$> seqZ 0 64) as E.
  { apply list_eq. intros i. rewrite list_lookup_fmap. destruct (Nat.lt_ge_cases i 64) as [Hi|Hi].
    - rewrite lookup_seqZ_lt by lia. simpl. replace (Z.to_nat (0 + Z.of_nat i)) with i by lia. destruct (lookup_lt_is_Some_2 chans i) as [ch ->]; [lia|done].
    - rewrite lookup_seqZ_ge by lia. simpl. apply lookup_ge_None. lia. }
  rewrite E at 1. rewrite sum_with_fmap. apply sum_with_ext. intros c Hc%elem_of_seqZ. unfold Q, compose. destruct (lookup_lt_is_Some_2 chans (Z.to_nat c)) as [ch ->]; [lia|done].
Qed.

Lemma nb_empty s bnd key R : sched_inv s (works_on [] 0) bnd key R -> nb s = 0.
Proof.
  intros Hi. unfold nb. rewrite (si_batches _ _ _ _ _ Hi), total_Q by apply Hi. erewrite (sum_with_ext _ (fun _ => 0%nat)); [by vm_compute|].
  intros c Hc%elem_of_seqZ. cbn beta. rewrite (no_works s bnd key R c _ Hi); [done|lia|done].
Qed.

Lemma schedule_spec comm budget s0 : sched_ready comm budget s0 -> wp (scheduleCollTasksToPlan comm budget s0) (fun s => exists ps, holds_tasks comm budget s0 ps s /\
  (ps = [] -> forall t node, head (sd_tasks s0) = Some t -> head (sd_works s0) = Some node -> testBudget budget (nMax_of comm t) (wn_size node) = false)).
Proof.
  intros Hr. pose proof (ready_holds _ _ _ Hr) as Hh. destruct Hr as [_ _ (_ & _ & P3 & _) _ [Ht Hwt] [Hw Hl] _ [Hc Hn] Hb]. unfold scheduleCollTasksToPlan. apply wpx_bind.
  eapply wpx_mono; [apply (estimate_spec comm budget); [done|done|]| |done].
  { split; [done|..]; intros j Hj; cbn [es_traffic es_nChannels]; assert (j = 0 \/ j = 1 \/ j = 2 \/ j = 3) as [-> | [-> | [-> | ->]]] by lia; cbv [znth Z.to_nat Pos.to_nat Pos.iter_op nth nMaxChannels_of Nat.add]; lia. }
  intros e (k & -> & Hk & Hsums & _ & Hct & Hk0). cbn [es_nPlanColls es_workBytes] in *. rewrite Z.add_0_l, Nat2Z.id.
  eapply wpx_mono; [apply (sched_loop_spec comm budget s0 _ _ Hsums Ht Hw Hl Hb k _ s0 [] Hh); [|done|done]| |done].
  - intros t Hkd. cbn [cu_kindPrev] in Hkd. pose proof (kind_range t). lia.
  - intros s (ps & Hps & Hend). cbn [app] in *. exists ps. split; [done|]. intros -> t node Et En. destruct Hend as [Hend|Hend].
    + symmetry in Hend. apply Hk0 with (nd := node) in Hend; [|done]. apply not_true_is_false. intros Hbt. rewrite (testBudget_mono budget (nMax_of comm t)) in Hend; [done| |done].
      destruct (sd_tasks s0) as [|t0 ts]; [done|]. injection Et as ->. apply Forall_cons in Ht as [[p Ht] _]. destruct (tw_channels _ _ _ Ht) as (_ & HnM & _). change (divUp 0 4) with 0. lia.
    + destruct Hend as (t' & ts & node' & ns & x & E1 & E2 & Hx & Hbf). destruct (ht_tasks _ _ _ _ _ Hps) as [T1 _]. pose proof (ht_works _ _ _ _ _ Hps) as W1.
      cbn [fmap list_fmap app] in T1, W1. rewrite T1, E1 in Et. rewrite W1, E2 in En. injection Et as <-. injection En as <-.
      apply not_true_is_false. intros Hbt. rewrite (testBudget_mono budget (nMax_of comm t')) in Hbf; [done| |done].
      rewrite (nb_empty _ _ _ _ (ht_inv _ _ _ _ _ Hps)). lia.
Qed.


(** ** From the schedule to the kernel *)

(** The plan as [finishPlan] finds it. *)
Definition kernel_plan_of (p : coll_plan) (storage : ncclDevWorkStorageType) : ncclKernelPlan :=
  MkPlan (pl_channelMask p) (pl_threadPerBlock p) (pl_nWorkBatches p) (pl_workBytes p) storage 0 [] false [] 0.

Lemma works_nonempty ps off c : (exists p, p ∈ ps /\ uses p c) <-> works_on ps off c <> [].
Proof.
  revert off. induction ps as [|q ps IH]; intros off; cbn [works_on].
  - split; [intros (p & Hp & _); by apply not_elem_of_nil in Hp|done].
  - case_decide as Hq; cbn [app]; [split; [done|]; intros _; exists q; split; [by left|done]|]. rewrite <- (IH (off + wn_size (pm_node q))). split; intros (p & Hp & Hu).
    + apply elem_of_cons in Hp as [->|Hp]; [done|by exists p].
    + exists p. split; [by right|done].
Qed.

Lemma channel_inv s ws bnd key R c : sched_inv s ws bnd key R -> 0 <= c < 64 -> exists ch gs, sd_channels s !! Z.to_nat c = Some ch /\ Forall (fun b => nextJump b = 0) (workBatchQueue ch) /\
  concat gs = ws c /\ (workBatchQueue ch = [] -> gs = []).
Proof.
  intros Hi Hc. destruct (si_chan _ _ _ _ _ Hi c Hc) as (ch & ch0 & d & Hlk & Ha & Heq). destruct (si_works _ _ _ _ _ Hi c Hc) as (Hw & Hso & _).
  pose proof (add_works_spec (ws c) empty_channel [] 0 empty_channel_inv Hw Hso) as H. rewrite Ha in H. destruct H as (gs & Hci & Hcat & _).
  exists ch, gs. rewrite Heq. split_and!; [by rewrite <- Heq|apply (ci_jump _ _ Hci)|done|]. intros Hq. destruct (ci_cur _ _ Hci) as [[-> _]|(gs0 & g & _ & q0 & b0 & acc & w & i & E & _)]; [done|].
  cbn [fst set_proxyOps workBatchQueue] in *. rewrite Hq in E. by destruct q0.
Qed.

Lemma holds_scheduled comm budget s0 ps s : holds_tasks comm budget s0 ps s -> scheduled (works_on ps 0) (sd_channels s).
Proof.
  intros Hh c Hc. pose proof (ht_inv _ _ _ _ _ Hh) as Hi. destruct (si_works _ _ _ _ _ Hi c Hc) as (Hw & Hso & _). destruct (si_chan _ _ _ _ _ Hi c Hc) as (ch & ch0 & d & Hlk & Ha & Heq).
  split_and!; [done|done|]. exists 0, d, ch0, ch. split_and!; [done|done|]. by rewrite Heq.
Qed.

Lemma holds_ready comm budget s0 ps s storage : inArgsBytes budget < 2 ^ 31 /\ outArgsBytes budget < 2 ^ 31 -> holds_tasks comm budget s0 ps s ->
  plan_ready (sd_channels s) (kernel_plan_of (sd_plan s) storage).
Proof.
  intros Hbud Hh. pose proof (ht_inv _ _ _ _ _ Hh) as Hi. destruct (ht_mask _ _ _ _ _ Hh) as [M0 M1]. destruct (holds_small comm budget s0 Hbud ps s Hh) as [_ Hlen].
  assert (forall c, c ∈ chan_list (pl_channelMask (sd_plan s)) <-> c ∈ seqZ 0 64 /\ works_on ps 0 c <> []) as Hcl.
  { intros c. rewrite chan_list_elem, elem_of_seqZ, <- works_nonempty by done. split.
    - intros [Hc Hb]. assert (c < 64) by (destruct (Z.lt_ge_cases c 64); [done|]; by rewrite (testbit_high _ 64) in Hb by lia). split; [lia|]. by apply M1.
    - intros [Hc Hu]. split; [lia|]. apply M1; [lia|done]. }
  split; cbn [kernel_plan_of channelMask nWorkBatches].
  - apply Hi.
  - done.
  - intros c b Hb. unfold Q in Hb. destruct (sd_channels s !! Z.to_nat c) as [ch|] eqn:E; [|by apply not_elem_of_nil in Hb].
    pose proof (lookup_lt_Some _ _ _ E) as Hlt. rewrite (si_len _ _ _ _ _ Hi) in Hlt. destruct (channel_inv _ _ _ _ _ (Z.of_nat (Z.to_nat c)) Hi ltac:(lia)) as (ch' & gs & E' & Hj & _).
    rewrite Nat2Z.id, E in E'. injection E' as <-. rewrite Forall_forall in Hj. by apply Hj.
  - rewrite (si_batches _ _ _ _ _ Hi), total_Q by apply Hi. f_equal. set (f := fun c => length (Q (sd_channels s) c)).
    assert (chan_list (pl_channelMask (sd_plan s)) ≡ₚ filter (fun c => works_on ps 0 c <> []) (seqZ 0 64)) as ->.
    { apply NoDup_Permutation; [by apply chan_list_nodup|apply NoDup_filter, NoDup_seqZ|]. intros c. rewrite Hcl, list_elem_of_filter. tauto. }
    assert (forall l, (forall c, c ∈ l -> 0 <= c < 64) -> sum_list_with f (filter (fun c => works_on ps 0 c <> []) l) = sum_list_with f l) as Hsum.
    { induction l as [|c l IHl]; intros Hl; [done|]. rewrite filter_cons. case_decide as Hw; cbn [sum_list_with]; rewrite IHl by (intros; apply Hl; by right); [done|].
      unfold f at 2. rewrite (no_works s _ _ _ c _ Hi); [done|apply Hl; by left|]. by destruct (works_on ps 0 c). }
    apply Hsum. intros c Hc%elem_of_seqZ. lia.
  - intros c [Hc%elem_of_seqZ Hw]%Hcl. unfold Q. destruct (channel_inv _ _ _ _ _ c Hi ltac:(lia)) as (ch & gs & -> & _ & Hcat & Hq). intros E. rewrite (Hq E) in Hcat. by destruct Hw.
  - intros c ch op Hch Hop. pose proof (lookup_lt_Some _ _ _ Hch) as Hlt. rewrite (si_len _ _ _ _ _ Hi) in Hlt.
    destruct (si_ops _ _ _ _ _ Hi (Z.of_nat c) ch op ltac:(lia)) as [(i & p & pat & Hp & _ & _ & Hpo) _]; [by rewrite Nat2Z.id|done|].
    apply lookup_lt_Some in Hp. split; [|apply Hpo]. unfold op_ok, uint64_m1. rewrite (po_count _ _ _ _ _ _ _ Hpo). lia.
  - intros c ch Hch. pose proof (lookup_lt_Some _ _ _ Hch) as Hlt. rewrite (si_len _ _ _ _ _ Hi) in Hlt. apply (si_sorted _ _ _ _ _ Hi (Z.of_nat c)); [lia|by rewrite Nat2Z.id].
Qed.

(** The structs of the works lie one after the other in the uploaded packs. *)
Lemma works_in ps (nodes : list (list Z)) : Forall2 (fun p nd => 16 * Z.of_nat (length nd) = wn_size (pm_node p)) ps nodes ->
  Forall (fun p => wn_size (pm_node p) = ncclDevWorkSize (wn_type (pm_node p))) ps -> 16 * Z.of_nat (length (concat nodes)) = bytes_of ps /\
  forall off c w, w ∈ works_on ps off c -> off mod 16 = 0 -> off <= w_offset w /\ w_offset w mod 16 = 0 /\ w_offset w + ncclDevWorkSize (w_type w) <= off + bytes_of ps.
Proof.
  induction 1 as [|p nd ps nodes Hl _ IH]; intros Hs; [by split; [|intros off c w Hw; apply not_elem_of_nil in Hw]|].
  apply Forall_cons in Hs as [Hs1 Hs]. destruct (IH Hs) as [IH1 IH2]. cbn [concat bytes_of foldr works_on]. fold (bytes_of ps). rewrite length_app. split; [lia|].
  intros off c w Hw Ho. assert (0 <= bytes_of ps) by lia. assert (0 < ncclDevWorkSize (wn_type (pm_node p))) by (destruct (wn_type (pm_node p)); done).
  apply elem_of_app in Hw as [Hw|Hw].
  - case_decide; [|by apply not_elem_of_nil in Hw]. apply list_elem_of_singleton in Hw as ->. cbn [w_offset w_type]. lia.
  - destruct (IH2 _ _ _ Hw) as (H1 & H2 & H3); [|lia]. rewrite <- Hl. dlia.
Qed.


(** ** An instance: all-reduces of sixteen ranks on four channels *)

(** On a ring, with a connection to the network switch as peer 16. *)
Definition sample_connector : connector := MkConnector true true 0 0.
Definition sample_pchannel : proxy_channel :=
  MkProxyChannel 2 4 (seqZ 3 13 ++ seqZ 0 3) (-1) [-1; -1; -1] (-1) 16 (-1) (-1) [-1; -1; -1] (fun _ _ _ => Some sample_connector).
Definition sample_pcomm : proxy_comm :=
  MkProxyComm 3 16 (replicate 64 sample_pchannel) false (fun _ => false) (replicate 64 sample_connector) (replicate 64 sample_connector) 0 0.
Definition sample_scomm : sched_comm :=
  MkSchedComm sample_comm 4 0 (replicate 64 (seqZ 3 13 ++ seqZ 0 3, 3)) sample_pcomm (fun _ => true) 0 (MkStep 0 0 0 0 0 0 0 0 0 0 0 0, [], []).
Definition sample_big : ncclTaskColl := sample_task ncclFuncAllReduce 1000000 NCCL_ALGO_RING NCCL_PROTO_SIMPLE.
Definition sample_small : ncclTaskColl := sample_task ncclFuncAllReduce 5000 NCCL_ALGO_RING NCCL_PROTO_SIMPLE.
(** Reduced in the network, on three channels. *)
Definition sample_collnet : ncclTaskColl :=
  MkTaskColl 2 ncclFuncAllReduce 4096 8192 1000000 0 ncclFloat32 0 ncclDevSum 1 1 8000000 3 16 NCCL_ALGO_COLLNET_DIRECT NCCL_PROTO_SIMPLE true false 6 0 0 0 0 [] [] [] 0.
(** On the ring, with buffers that the network registered. *)
Definition sample_registered : ncclTaskColl :=
  MkTaskColl 3 ncclFuncAllReduce 4096 8192 30000 0 ncclFloat32 0 ncclDevSum 4 2 240000 4 16 NCCL_ALGO_RING NCCL_PROTO_SIMPLE false false 5 NCCL_NET_REG_BUFFER 0 0 0
    [11; 12; 13; 14] [21; 22; 23; 24] [31; 32; 33; 34] 0.
Definition sample_node : ncclWorkList := MkWorkList ncclDevWorkTypeColl 96 None 0.
Definition sample_sched : sched :=
  MkSched [sample_big; sample_collnet; sample_registered; sample_small] (replicate 4 sample_node) 4 [] (replicate 64 empty_channel)
    (MkCollPlan 0 0 0 false 0 0 0 [] [] []) (MkProxyState [] (replicate 64 0)).
Definition sample_budget : ncclKernelPlanBudget := MkBudget 4064 (2 ^ 20).
Definition sample_result : sched := Eval vm_compute in match scheduleCollTasksToPlan sample_scomm sample_budget sample_sched with Ret s => s | _ => sample_sched end.

Lemma sample_wired p : p = ncclPatternRingTwice \/ p = ncclPatternCollnetDirect -> wired sample_pcomm p.
Proof.
  intros Hp. split; [reflexivity|reflexivity|vm_compute; congruence|intros ch ->%elem_of_replicate_inv; done|].
  intros ch ->%elem_of_replicate_inv. destruct Hp as [-> | ->]; repeat constructor; by exists sample_connector.
Qed.

Lemma sample_task_ok count : 0 < count <= 1000000 -> schedulable sample_scomm (sample_task ncclFuncAllReduce count NCCL_ALGO_RING NCCL_PROTO_SIMPLE).
Proof.
  intros Hc. exists ncclPatternRingTwice. split; try reflexivity; try done; try (cbn; lia).
  - apply sample_wired. by left.
  - by intros [?|?].
  - split; [by right; right|concrete|split; [done|repeat constructor; concrete]|concrete..].
  - split; [by repeat split|cbn; lia|concrete|concrete|]. change (grain _) with 512. change (per_element sample_scomm _) with 4. cbn [t_count sample_task sc_coll sample_scomm cc_nRanks sample_comm]. dlia.
  - change (per_byte sample_scomm _) with 2. cbn. lia.
Qed.



Lemma sample_collnet_ok : schedulable sample_scomm sample_collnet.
Proof.
  exists ncclPatternCollnetDirect.
  split; [by left|done|by left|concrete|concrete|done|apply sample_wired; by right|by intros [?|?]| |concrete| |concrete|concrete|concrete|concrete].
  - split; [by right; right|concrete|split; [done|repeat constructor; concrete]|concrete..].
  - split; [by repeat split|concrete..].
Qed.

Lemma sample_registered_ok : schedulable sample_scomm sample_registered.
Proof.
  exists ncclPatternRingTwice.
  split; [by right; right|intros _ _|done|concrete|concrete|done|apply sample_wired; by left|by intros [?|?]| |concrete| |concrete|concrete|concrete|concrete].
  - split; [by right; left|done|concrete|]. split; [concrete|]. apply Forall_replicate. vm_compute. lia.
  - split; [by right; right|concrete|split; [done|repeat constructor; concrete]|concrete..].
  - split; [by repeat split|concrete..].
Qed.

Lemma sample_ready : sched_ready sample_scomm sample_budget sample_sched.
Proof.
  split; try reflexivity; try (by repeat split).
  - split; [|by vm_compute]. constructor; [by apply sample_task_ok|]. constructor; [apply sample_collnet_ok|]. constructor; [apply sample_registered_ok|]. constructor; [by apply sample_task_ok|constructor].
  - split; [by repeat constructor|done].
Qed.

Lemma sample_run : scheduleCollTasksToPlan sample_scomm sample_budget sample_sched = Ret sample_result.
Proof. vm_compute. reflexivity. Qed.

(** A PAT reduce-scatter and a PAT all-gather. *)
Definition pat_task (func : ncclFunc_t) : ncclTaskColl :=
  MkTaskColl 4 func 4096 8192 5000 0 ncclFloat32 0 ncclDevSum 1 1 (16 * 4 * 5000) 4 16 NCCL_ALGO_PAT NCCL_PROTO_SIMPLE false false 7 0 0 0 0 [] [] [] 0.
Definition pat_scomm (fuel : nat) : sched_comm :=
  MkSchedComm sample_comm 4 0 [] sample_pcomm (fun _ => true) fuel (MkStep 0 0 0 0 0 0 0 0 0 0 0 0, replicate 32 0, replicate 32 0).
Definition pat_sched : sched :=
  MkSched [pat_task ncclFuncReduceScatter; pat_task ncclFuncAllGather] (replicate 2 sample_node) 2 [] (replicate 64 empty_channel)
    (MkCollPlan 0 0 0 false 0 0 0 [] [] []) (MkProxyState [] (replicate 64 0)).

Lemma pat_wired p : p = ncclPatternPatUp \/ p = ncclPatternPatDown -> wired sample_pcomm p.
Proof.
  intros Hp. split; [reflexivity|reflexivity|vm_compute; congruence|intros ch ->%elem_of_replicate_inv; done|].
  intros ch _. destruct Hp as [-> | ->]; constructor.
Qed.

Lemma pat_task_ok fuel func : func = ncclFuncReduceScatter \/ func = ncclFuncAllGather -> enough (4 * 5000) fuel -> schedulable (pat_scomm fuel) (pat_task func).
Proof.
  intros Hfn Hf. assert (pat_ready (pat_scomm fuel) (pat_task func)) as Hp.
  { split; [concrete|exact Hf|done|]. intros ch send peer ->%elem_of_replicate_inv _ _. by exists sample_connector. }
  destruct Hfn as [-> | ->]; [exists ncclPatternPatUp|exists ncclPatternPatDown];
    (split; [by left|done|done|concrete|concrete|done|apply pat_wired; auto|intros _; exact Hp| |concrete| |concrete|concrete|concrete|concrete]);
    try (split; [by right; right|concrete|split; [done|repeat constructor; concrete]|concrete..]); split; [by repeat split|concrete..].
Qed.

Lemma pat_sched_ready fuel : enough (4 * 5000) fuel -> sched_ready (pat_scomm fuel) sample_budget pat_sched.
Proof.
  intros Hf. split; try reflexivity; try (by repeat split).
  - split; [|by vm_compute]. constructor; [apply pat_task_ok; auto|]. constructor; [apply pat_task_ok; auto|constructor].
  - split; [by repeat constructor|done].
Qed.


Definition sample_finished : ncclKernelPlan :=
  Eval vm_compute in match finishPlan 20 4096 (sd_channels sample_result) (kernel_plan_of (sd_plan sample_result) ncclDevWorkStorageTypeFifo) with
                     | Ret r => r.2 | _ => kernel_plan_of (sd_plan sample_result) ncclDevWorkStorageTypeFifo end.
Definition sample_nodes : list (list Z) := [seqZ 1 6; seqZ 7 6; seqZ 13 6; seqZ 19 6].

Lemma sample_nodes_ok ps : holds_tasks sample_scomm sample_budget sample_sched ps sample_result ->
  Forall2 (fun p (nd : list Z) => 16 * Z.of_nat (length nd) = wn_size (pm_node p)) ps sample_nodes.
Proof.
  intros Hh. destruct (ht_tasks _ _ _ _ _ Hh) as [_ Hps]. pose proof (ht_works _ _ _ _ _ Hh) as Hw. clear Hh. apply (f_equal length) in Hps. rewrite length_fmap in Hps.
  change (length (pl_tasks (sd_plan sample_result))) with 4%nat in Hps. change (sd_works sample_sched) with [sample_node; sample_node; sample_node; sample_node] in Hw.
  destruct ps as [|p1 [|p2 [|p3 [|p4 [|]]]]]; try discriminate Hps. cbn [fmap list_fmap app] in Hw. injection Hw as E1 E2 E3 E4.
  repeat (constructor; [by rewrite <- ?E1, <- ?E2, <- ?E3, <- ?E4|]). constructor.
Qed.

