(* ===== verification/P2pRounds.v ===== *)
(** * Nodes, local ranks and the point-to-point schedule (src/src/init.cc)

    Every rank numbers the nodes by the first rank of their first ring, numbers
    the ranks of each node in order, and derives from that the order in which it
    sends to and receives from its peers.  The ranks compute this alone; their
    schedules have to pair up. *)
From S2P Require Import Prelude Bitops Device.
From Stdlib Require Znumtheory Zpow_facts.

(** ** Nodes *)

(** [for (node=0; node<comm->nNodes && nodesFirstRank[node] != firstRank; node++);] *)
Fixpoint find_node (fuel : nat) (nodesFirstRank : list Z) (nNodes firstRank node : Z) : outcome Z :=
  match fuel with
  | O => Stuck
  | S fuel =>
    if node <? nNodes then
      f ← zget nodesFirstRank node;
      if f =? firstRank then Ret node else find_node fuel nodesFirstRank nNodes firstRank (node + 1)
    else Ret node
  end.

Record node_map := MkNodeMap { nm_nNodes : Z; nm_nodesFirstRank : list Z; nm_nodesTreePatterns : list Z; nm_rankToNode : list Z }.

(** What each rank contributed: [topoRanks.ringRecv[0]] and the tree pattern. *)
Record node_info := MkNodeInfo { ni_firstRank : Z; ni_treePattern : Z }.

Definition assign_node (infos : list node_info) (r : Z) (m : node_map) : outcome node_map :=
  info ← zget infos r;
  node ← find_node (S (Z.to_nat (nm_nNodes m))) (nm_nodesFirstRank m) (nm_nNodes m) (ni_firstRank info) 0;
  m ← (if node =? nm_nNodes m then
         firsts ← zset (nm_nodesFirstRank m) node (ni_firstRank info);
         pats ← zset (nm_nodesTreePatterns m) node (ni_treePattern info);
         Ret (MkNodeMap (nm_nNodes m + 1) firsts pats (nm_rankToNode m))
       else Ret m);
  nodes ← zset (nm_rankToNode m) r node;
  Ret (MkNodeMap (nm_nNodes m) (nm_nodesFirstRank m) (nm_nodesTreePatterns m) nodes).

Definition zeros (n : Z) : list Z := replicate (Z.to_nat n) 0.

Definition assign_nodes (nranks : Z) (infos : list node_info) : outcome node_map :=
  for_range 0 nranks (assign_node infos) (MkNodeMap 0 (zeros nranks) (zeros nranks) (zeros nranks)).

(** ** Local ranks *)

Record ncclNodeRanks := MkNodeRanks { nr_localRanks : Z; nr_localRankToRank : list Z }.

Definition count_local (rankToNode : list Z) (r : Z) (st : list Z * list ncclNodeRanks) : outcome (list Z * list ncclNodeRanks) :=
  node ← zget rankToNode r;
  nr ← zget st.2 node;
  rtl ← zset st.1 r (nr_localRanks nr);
  nrs ← zset st.2 node (MkNodeRanks (nr_localRanks nr + 1) (nr_localRankToRank nr));
  Ret (rtl, nrs).

(** The allocation of one node's array, with the maximum so far. *)
Definition alloc_local (n : Z) (st : Z * list ncclNodeRanks) : outcome (Z * list ncclNodeRanks) :=
  nr ← zget st.2 n;
  nrs ← zset st.2 n (MkNodeRanks 0 (zeros (nr_localRanks nr)));
  Ret (Z.max st.1 (nr_localRanks nr), nrs).

Definition fill_local (rankToNode : list Z) (r : Z) (nrs : list ncclNodeRanks) : outcome (list ncclNodeRanks) :=
  node ← zget rankToNode r;
  nr ← zget nrs node;
  l ← zset (nr_localRankToRank nr) (nr_localRanks nr) r;
  zset nrs node (MkNodeRanks (nr_localRanks nr + 1) l).

(** The fields of [ncclComm] this fills in. *)
Record node_comm := MkNodeComm {
  nc_rank : Z; nc_nRanks : Z; nc_nNodes : Z; nc_rankToNode : list Z; nc_rankToLocalRank : list Z; nc_nodeRanks : list ncclNodeRanks;
  nc_maxLocalRanks : Z; nc_node : Z; nc_localRank : Z; nc_localRanks : Z; nc_localRankToRank : list Z }.

Definition init_nodes (nRanks rank : Z) (infos : list node_info) : outcome node_comm :=
  m ← assign_nodes nRanks infos;
  let nNodes := nm_nNodes m in
  '(rtl, nrs) ← for_range 0 nRanks (count_local (nm_rankToNode m)) (zeros nRanks, replicate (Z.to_nat nNodes) (MkNodeRanks 0 []));
  '(maxLocalRanks, nrs) ← for_range 0 nNodes alloc_local (0, nrs);
  nrs ← for_range 0 nRanks (fill_local (nm_rankToNode m)) nrs;
  node ← zget (nm_rankToNode m) rank;
  nr ← zget nrs node;
  localRank ← zget rtl rank;
  first ← zget (nr_localRankToRank nr) 0;
  if (localRank =? -1) || (first =? -1) || (nr_localRanks nr =? 0) then Fail ncclInternalError
  else Ret (MkNodeComm rank nRanks nNodes (nm_rankToNode m) rtl nrs maxLocalRanks node localRank (nr_localRanks nr) (nr_localRankToRank nr)).

(** ** The point-to-point schedule *)

Record P2pSchedulePair := MkPair { sendRank : Z; recvRank : Z }.

(** The loops over node deltas and over local deltas have one shape:
    [do { if (delta < n) body; round += 1; delta = (delta + round) & (pow2 - 1); } while (round != pow2);]
    on [uint32_t]. *)
Fixpoint quad_loop {S} (fuel : nat) (n pow2 : Z) (body : Z -> S -> outcome S) (round delta : Z) (s : S) : outcome S :=
  match fuel with
  | O => Stuck
  | Datatypes.S fuel =>
    s ← (if delta <? n then body delta s else Ret s);
    let round := u32 (round + 1) in
    let delta := Z.land (u32 (delta + round)) (pow2 - 1) in
    if round =? pow2 then Ret s else quad_loop fuel n pow2 body round delta s
  end.

(** The values [flat], [nNodes], [nLocals] and [local] after the test for nodes
    of different sizes; the assignment to [node] there is to the loop's own
    variable. *)
Record p2p_shape := MkP2pShape { ps_flat : bool; ps_nNodes : Z; ps_nLocals : Z; ps_local : Z }.

Fixpoint find_flat (fuel : nat) (comm : node_comm) (node : Z) : outcome bool :=
  match fuel with
  | O => Stuck
  | S fuel =>
    if node <? nc_nNodes comm then
      nr ← zget (nc_nodeRanks comm) node;
      if negb (nr_localRanks nr =? nc_maxLocalRanks comm) then Ret true else find_flat fuel comm (node + 1)
    else Ret false
  end.

Definition p2p_shape_of (comm : node_comm) : outcome p2p_shape :=
  flat ← find_flat (S (Z.to_nat (nc_nNodes comm))) comm 0;
  Ret (if flat : bool then MkP2pShape true 1 (nc_nRanks comm) (nc_rank comm)
       else MkP2pShape false (nc_nNodes comm) (nc_maxLocalRanks comm) (nc_localRank comm)).

Definition rank_of (comm : node_comm) (flat : bool) (node local : Z) : outcome Z :=
  if flat then Ret local else nr ← zget (nc_nodeRanks comm) node; zget (nr_localRankToRank nr) local.

(** [round] and the array. *)
Definition p2p_local_body (comm : node_comm) (sh : p2p_shape) (sendNode recvNode localDelta : Z) (st : Z * list P2pSchedulePair)
    : outcome (Z * list P2pSchedulePair) :=
  let sendLocal := u32 (ps_local sh + localDelta) mod ps_nLocals sh in
  let recvLocal := u32 (ps_local sh - localDelta + ps_nLocals sh) mod ps_nLocals sh in
  s ← rank_of comm (ps_flat sh) sendNode sendLocal;
  r ← rank_of comm (ps_flat sh) recvNode recvLocal;
  sched ← zset st.2 st.1 (MkPair s r);
  Ret (st.1 + 1, sched).

Definition p2p_node_body (comm : node_comm) (sh : p2p_shape) (nLocalsPow2 nodeDelta : Z) (st : Z * list P2pSchedulePair)
    : outcome (Z * list P2pSchedulePair) :=
  let sendNode := u32 (nc_node comm + nodeDelta) mod ps_nNodes sh in
  let recvNode := u32 (nc_node comm - nodeDelta + ps_nNodes sh) mod ps_nNodes sh in
  quad_loop (Z.to_nat nLocalsPow2) (ps_nLocals sh) nLocalsPow2 (p2p_local_body comm sh sendNode recvNode) 0 0 st.

Definition build_p2pSchedule (comm : node_comm) : outcome (list P2pSchedulePair) :=
  sh ← p2p_shape_of comm;
  nNodesPow2 ← pow2Up int32 (ps_nNodes sh);
  nLocalsPow2 ← pow2Up int32 (ps_nLocals sh);
  '(round, sched) ← quad_loop (Z.to_nat nNodesPow2) (ps_nNodes sh) nNodesPow2 (p2p_node_body comm sh nLocalsPow2) 0 0
                      (0, replicate (Z.to_nat (nc_nRanks comm)) (MkPair 0 0));
  if negb (round =? nc_nRanks comm) then Fail ncclInternalError else Ret sched.

(** What one rank computes from the gathered data. *)
Definition init_p2pSchedule (nRanks rank : Z) (infos : list node_info) : outcome (list P2pSchedulePair) :=
  comm ← init_nodes nRanks rank infos; build_p2pSchedule comm.

(** ** The quadratic sequence *)

Definition tri (k : Z) : Z := k * (k + 1) / 2.

(** The deltas below [n] in the order of the loop. *)
Definition deltas (n N : Z) : list Z := filter (fun d => d < n) ((fun k => tri k mod N) <$> seqZ 0 N).

Lemma tri_twice k : 2 * tri k = k * (k + 1).
Proof.
  unfold tri. assert (k * (k + 1) mod 2 = 0) as He; [|dlia].
  rewrite Z.mul_mod by lia. destruct (Z.mod_pos_bound k 2 ltac:(lia)).
  assert (k mod 2 = 0 \/ k mod 2 = 1) as [E|E] by lia; rewrite (Z.add_mod k 1), E by lia; reflexivity.
Qed.

Lemma tri_succ k : tri (k + 1) = tri k + (k + 1).
Proof. pose proof (tri_twice k). pose proof (tri_twice (k + 1)). lia. Qed.

(** A power of two that divides a product with an odd factor divides the other. *)
Lemma pow2_odd_divide m x y : 0 <= m -> (2 ^ m | (2 * x + 1) * y) -> (2 ^ m | y).
Proof.
  intros Hm Hd. apply (Znumtheory.Gauss _ (2 * x + 1)); [done|]. apply Znumtheory.rel_prime_sym, Zpow_facts.rel_prime_Zpower_r; [done|].
  apply Znumtheory.bezout_rel_prime. apply Znumtheory.Bezout_intro with 1 (- x). lia.
Qed.

Lemma divide_small a b : (a | b) -> - a < b < a -> b = 0.
Proof. intros [c ->] H. destruct (Z.eq_dec c 0); [lia|nia]. Qed.

(** On a power of two the sequence is injective. *)
Lemma tri_inj m i j : 0 <= m -> 0 <= i < 2 ^ m -> 0 <= j < 2 ^ m -> tri i mod 2 ^ m = tri j mod 2 ^ m -> i = j.
Proof.
  intros Hm Hi Hj He. pose proof (pow2_pos m Hm).
  assert (2 ^ (m + 1) | (i - j) * (i + j + 1)) as Hd.
  { exists (tri i / 2 ^ m - tri j / 2 ^ m). rewrite Z.pow_add_r, Z.pow_1_r by lia.
    pose proof (Z.div_mod (tri i) (2 ^ m) ltac:(lia)). pose proof (Z.div_mod (tri j) (2 ^ m) ltac:(lia)).
    pose proof (tri_twice i). pose proof (tri_twice j). nia. }
  assert (2 ^ (m + 1) = 2 * 2 ^ m) as Hp by (rewrite Z.pow_add_r, Z.pow_1_r by lia; lia).
  destruct (Z.Even_or_Odd (i - j)) as [[c Hc]|[c Hc]].
  - assert (2 ^ (m + 1) | i - j) as Hd'.
    { apply pow2_odd_divide with (c + j); [lia|]. replace ((2 * (c + j) + 1) * (i - j)) with ((i - j) * (i + j + 1)) by nia. done. }
    apply divide_small in Hd'; lia.
  - assert (2 ^ (m + 1) | i + j + 1) as Hd' by (apply pow2_odd_divide with c; [lia|]; by rewrite <- Hc).
    apply divide_small in Hd'; lia.
Qed.

Lemma deltas_perm m n : 0 <= m -> 0 <= n <= 2 ^ m -> deltas n (2 ^ m) ≡ₚ seqZ 0 n.
Proof.
  intros Hm Hn. pose proof (pow2_pos m Hm).
  assert (NoDup ((fun k => tri k mod 2 ^ m) <$> seqZ 0 (2 ^ m))) as Hnd.
  { apply NoDup_fmap_2_strong; [|apply NoDup_seqZ]. intros i j Hi%elem_of_seqZ Hj%elem_of_seqZ. apply tri_inj; lia. }
  assert ((fun k => tri k mod 2 ^ m) <$> seqZ 0 (2 ^ m) ≡ₚ seqZ 0 (2 ^ m)) as Hall.
  { apply submseteq_length_Permutation; [|by rewrite length_fmap].
    apply NoDup_submseteq; [done|]. intros x (k & -> & Hk)%list_elem_of_fmap. apply elem_of_seqZ.
    pose proof (Z.mod_pos_bound (tri k) (2 ^ m)). lia. }
  apply NoDup_Permutation.
  - by apply NoDup_filter.
  - apply NoDup_seqZ.
  - intros x. unfold deltas. rewrite list_elem_of_filter, Hall, !elem_of_seqZ. lia.
Qed.

(** ** The loop over deltas *)

Fixpoint run_list {A S} (body : A -> S -> outcome S) (l : list A) (s : S) : outcome S :=
  match l with [] => Ret s | a :: l => s ← body a s; run_list body l s end.

Lemma run_list_app {A S} (body : A -> S -> outcome S) l1 l2 s :
  run_list body (l1 ++ l2) s = (run_list body l1 s ≫= run_list body l2).
Proof. revert s. induction l1 as [|a l1 IH]; intros s; simpl; [done|]. destruct (body a s); simpl; [apply IH|done|done]. Qed.

Lemma quad_loop_from {S} m n (body : Z -> S -> outcome S) fuel : forall k s,
  0 <= m <= 31 -> 0 <= k < 2 ^ m -> Z.of_nat fuel = 2 ^ m - k ->
  quad_loop fuel n (2 ^ m) body k (tri k mod 2 ^ m) s =
  run_list body (filter (fun d => d < n) ((fun k => tri k mod 2 ^ m) <$> seqZ k (2 ^ m - k))) s.
Proof.
  induction fuel as [|fuel IH]; intros k s Hm Hk Hf; [lia|].
  assert (0 < 2 ^ m <= 2 ^ 31) as HN by (split; [apply pow2_pos; lia|apply Z.pow_le_mono_r; lia]).
  rewrite seqZ_cons by lia. rewrite fmap_cons, filter_cons. cbn [quad_loop].
  assert (u32 (k + 1) = k + 1) as Hr by (unfold u32; rewrite Z.mod_small; lia).
  pose proof (Z.mod_pos_bound (tri k) (2 ^ m) ltac:(lia)) as Hb.
  assert (Z.land (u32 (tri k mod 2 ^ m + (k + 1))) (2 ^ m - 1) = tri (k + 1) mod 2 ^ m) as Hd.
  { unfold u32. rewrite Z.mod_small by lia. replace (2 ^ m - 1) with (Z.ones m) by (rewrite Z.ones_equiv; lia).
    rewrite Z.land_ones, Z.add_mod_idemp_l, tri_succ by lia. done. }
  rewrite Hr, Hd. replace (2 ^ m - Z.succ k) with (2 ^ m - (k + 1)) in * by lia.
  assert (forall s, (if k + 1 =? 2 ^ m then Ret s else quad_loop fuel n (2 ^ m) body (k + 1) (tri (k + 1) mod 2 ^ m) s) =
    run_list body (filter (fun d => d < n) ((fun k => tri k mod 2 ^ m) <$> seqZ (Z.succ k) (Z.pred (2 ^ m - k)))) s) as Htail.
  { intros s'. destruct (Z.eqb_spec (k + 1) (2 ^ m)) as [E|E].
    - replace (Z.pred (2 ^ m - k)) with 0 by lia. done.
    - rewrite IH by lia. by replace (Z.pred (2 ^ m - k)) with (2 ^ m - (k + 1)) by lia. }
  destruct (Z.ltb_spec (tri k mod 2 ^ m) n).
  - rewrite decide_True by lia. cbn [run_list]. destruct (body (tri k mod 2 ^ m) s) as [s'|e|]; cbn; [apply Htail|done|done].
  - rewrite decide_False by lia. cbn. apply Htail.
Qed.

Lemma quad_loop_eq {S} m n (body : Z -> S -> outcome S) s : 0 <= m <= 31 ->
  quad_loop (Z.to_nat (2 ^ m)) n (2 ^ m) body 0 0 s = run_list body (deltas n (2 ^ m)) s.
Proof.
  intros Hm. pose proof (pow2_pos m ltac:(lia)). pose proof (quad_loop_from m n body (Z.to_nat (2 ^ m)) 0 s) as E.
  rewrite Z.sub_0_r in E. apply E; lia.
Qed.

Lemma pow2Up_eq x : 0 < x <= 2 ^ 30 -> pow2Up int32 x = Ret (2 ^ Z.log2_up x) /\ 0 <= Z.log2_up x <= 30 /\ x <= 2 ^ Z.log2_up x.
Proof.
  intros Hx.
  assert (0 <= Z.log2_up x <= 30) as Hl.
  { split; [apply Z.log2_up_nonneg|]. apply Z.log2_up_le_pow2; lia. }
  assert (x <= 2 ^ Z.log2_up x).
  { destruct (Z.eq_dec x 1) as [->|]; [done|]. apply Z.log2_up_spec. lia. }
  split; [|done]. unfold pow2Up. rewrite log2Up_log2_up.
  - unfold one_shl. change (builtin_width int32) with 32. zcases; try lia. rewrite Z.shiftl_1_l.
    assert (2 ^ Z.log2_up x <= 2 ^ 30) by (apply Z.pow_le_mono_r; lia). pose proof (pow2_pos (Z.log2_up x) ltac:(lia)).
    f_equal. unfold conv. cbn [ity_signed int32 ity_width]. change (2 ^ (32 - 1)) with (2 ^ 31). change (2 ^ 32) with (2 * 2 ^ 31).
    change (2 ^ 30) with 1073741824 in *. change (2 ^ 31) with 2147483648. rewrite Z.mod_small; lia.
  - change (builtin_width int32) with 32. lia.
  - unfold conv. cbn [ity_signed int32 ity_width]. change (2 ^ (32 - 1)) with 2147483648. change (2 ^ 32) with 4294967296.
    change (2 ^ 30) with 1073741824 in *. rewrite Z.mod_small; lia.
Qed.

(** Run one bind of a returned value. *)
Ltac ret_step :=
  match goal with |- context [@mbind outcome ?i ?A ?B ?f (Ret ?a)] => change (@mbind outcome i A B f (Ret a)) with (f a); cbv beta; cbn [fst snd] end.

(** ** Arrays given by a function *)

Definition table {A} (n : Z) (f : Z -> A) : list A := f <$> seqZ 0 n.

Lemma table_lookup {A} n (f : Z -> A) i : 0 <= i < n -> table n f !! Z.to_nat i = Some (f i).
Proof. intros Hi. unfold table. rewrite list_lookup_fmap, lookup_seqZ_lt by lia. simpl. f_equal. f_equal. lia. Qed.
Lemma table_length {A} n (f : Z -> A) : length (table n f) = Z.to_nat n.
Proof. unfold table. by rewrite length_fmap, length_seqZ. Qed.
Lemma table_ext {A} n (f g : Z -> A) : (forall i, 0 <= i < n -> f i = g i) -> table n f = table n g.
Proof. intros H. apply list_fmap_ext. intros i x Hx%lookup_seqZ. apply H. lia. Qed.
Lemma zget_table {A} n (f : Z -> A) i : 0 <= i < n -> zget (table n f) i = Ret (f i).
Proof. intros Hi. apply zget_Ret. split; [lia|by apply table_lookup]. Qed.
Lemma zset_table {A} n (f : Z -> A) i x : 0 <= i < n ->
  zset (table n f) i x = Ret (table n (fun j => if j =? i then x else f j)).
Proof.
  intros Hi. rewrite zset_Ret by (rewrite table_length; lia). f_equal. apply list_eq. intros j.
  destruct (decide (j < Z.to_nat n)%nat) as [Hj|Hj].
  - rewrite <- (Nat2Z.id j). rewrite (table_lookup n (fun j => if j =? i then x else f j)) by lia.
    destruct (Z.eqb_spec (Z.of_nat j) i) as [E|E].
    + rewrite E, list_lookup_insert_eq; [done|rewrite table_length; lia].
    + rewrite list_lookup_insert_ne by lia. by rewrite table_lookup by lia.
  - rewrite !lookup_ge_None_2; [done|rewrite table_length; lia|rewrite length_insert, table_length; lia].
Qed.
Lemma table_const {A} n (x : A) : replicate (Z.to_nat n) x = table n (fun _ => x).
Proof. symmetry. unfold table. rewrite const_fmap with (y := x) by done. by rewrite length_seqZ. Qed.

(** A loop whose states are known. *)
Lemma for_range_states {S} lo hi body (F : Z -> S) : lo <= hi ->
  (forall k, lo <= k < hi -> body k (F k) = Ret (F (k + 1))) -> for_range lo hi body (F lo) = Ret (F hi).
Proof.
  intros Hle Hs. assert (wp (for_range lo hi body (F lo)) (fun t => t = F hi)) as W.
  { eapply (wpx_for (fun k t => t = F k)); [done|done| |done]. intros k t Hk ->. by rewrite Hs. }
  apply wp_elim in W as (t & -> & ->). done.
Qed.

(** ** The numbering of nodes *)

Lemma find_node_spec seen rest firstRank : forall fuel i, 0 <= i <= Z.of_nat (length seen) -> (length seen - Z.to_nat i < fuel)%nat ->
  firstRank ∉ take (Z.to_nat i) seen ->
  wp (find_node fuel (seen ++ rest) (Z.of_nat (length seen)) firstRank i) (fun node =>
    (0 <= node < Z.of_nat (length seen) /\ seen !! Z.to_nat node = Some firstRank) \/
    (node = Z.of_nat (length seen) /\ firstRank ∉ seen)).
Proof.
  induction fuel as [|fuel IH]; intros i Hi Hf Hn; [lia|]. cbn [find_node].
  destruct (Z.ltb_spec i (Z.of_nat (length seen))) as [Hlt|Hge].
  - wp_bind. destruct (lookup_lt_is_Some_2 seen (Z.to_nat i)) as [f Hfl]; [lia|].
    apply wpx_zget. exists f. split; [lia|]. split; [by apply lookup_app_l_Some|].
    destruct (Z.eqb_spec f firstRank) as [->|Hne]; [left; split; [lia|done]|].
    apply IH; [lia|lia|]. replace (Z.to_nat (i + 1)) with (S (Z.to_nat i)) by lia.
    rewrite (take_S_r _ _ f) by done. rewrite not_elem_of_app, list_elem_of_singleton. naive_solver.
  - right. split; [lia|]. rewrite firstn_all2 in Hn by lia. done.
Qed.

(** After the first [k] ranks: the nodes seen are numbered in order of appearance. *)
Record nodes_at (nranks : Z) (first : Z -> Z) (k : Z) (seen : list Z) (m : node_map) : Prop := {
  na_nodup : NoDup seen;
  na_nNodes : nm_nNodes m = Z.of_nat (length seen);
  na_le : nm_nNodes m <= k;
  na_firsts : nm_nodesFirstRank m = seen ++ zeros (nranks - nm_nNodes m);
  na_pats : length (nm_nodesTreePatterns m) = Z.to_nat nranks;
  na_len : length (nm_rankToNode m) = Z.to_nat nranks;
  na_node r : 0 <= r < k -> 0 <= znth (nm_rankToNode m) r < nm_nNodes m;
  na_same r : 0 <= r < k -> seen !! Z.to_nat (znth (nm_rankToNode m) r) = Some (first r);
  na_inhabited n : 0 <= n < nm_nNodes m -> exists r, 0 <= r < k /\ znth (nm_rankToNode m) r = n }.

Lemma zeros_split n : 0 < n -> zeros n = 0 :: zeros (n - 1).
Proof. intros. unfold zeros. replace (Z.to_nat n) with (S (Z.to_nat (n - 1))) by lia. done. Qed.

Lemma assign_node_spec nranks infos k seen m :
  length infos = Z.to_nat nranks -> 0 <= k < nranks ->
  nodes_at nranks (fun r => default 0 (ni_firstRank <$> infos !! Z.to_nat r)) k seen m ->
  wp (assign_node infos k m) (fun m' => exists seen', nodes_at nranks (fun r => default 0 (ni_firstRank <$> infos !! Z.to_nat r)) (k + 1) seen' m').
Proof.
  intros Hl Hk [Hnd Hn Hle Hfs Hpl Hrl Hnode Hsame Hinh]. unfold assign_node.
  destruct (lookup_lt_is_Some_2 infos (Z.to_nat k)) as [info Hinfo]; [lia|].
  wp_bind. apply wpx_zget. exists info. split; [lia|]. split; [done|]. wp_bind.
  rewrite Hfs, Hn. eapply wpx_mono; [apply find_node_spec; [lia|lia|]; apply not_elem_of_nil| |done].
  intros node Hcase. wp_bind. rewrite <- Hn in *.
  destruct Hcase as [[Hr Hs]|[-> Hs]].
  - destruct (Z.eqb_spec node (nm_nNodes m)) as [E|_]; [lia|]. cbn. wp_bind.
    apply wpx_zset; [lia|]. exists seen. constructor; cbn [nm_nNodes nm_nodesFirstRank nm_nodesTreePatterns nm_rankToNode]; [done|done|lia|done|done|by rewrite length_insert| | |].
    + intros r Hrk. rewrite znth_insert by lia. zcases; [lia|]. apply Hnode. lia.
    + intros r Hrk. rewrite znth_insert by lia. zcases; [subst r; by rewrite Hinfo|]. apply Hsame. lia.
    + intros n Hnn. destruct (Hinh n Hnn) as (r & Hr' & <-). exists r. split; [lia|]. rewrite znth_insert by lia. zcases; [lia|done].
  - rewrite Z.eqb_refl. wp_bind. rewrite (zeros_split (nranks - nm_nNodes m)) by lia.
    apply wpx_zset; [rewrite length_app; simpl; lia|]. wp_bind. apply wpx_zset; [lia|]. cbn. wp_bind. cbn.
    apply wpx_zset; [lia|]. exists (seen ++ [ni_firstRank info]). constructor; cbn [nm_nNodes nm_nodesFirstRank nm_nodesTreePatterns nm_rankToNode].
    + apply NoDup_app. split; [done|]. split; [|apply NoDup_singleton]. intros x Hx ->%list_elem_of_singleton. done.
    + rewrite length_app. simpl. lia.
    + lia.
    + replace (Z.to_nat (nm_nNodes m)) with (length seen + 0)%nat by lia. rewrite insert_app_r. simpl.
      rewrite <- app_assoc. simpl. by replace (nranks - (nm_nNodes m + 1)) with (nranks - nm_nNodes m - 1) by lia.
    + by rewrite length_insert.
    + by rewrite length_insert.
    + intros r Hrk. rewrite znth_insert by lia. zcases; [lia|]. pose proof (Hnode r). lia.
    + intros r Hrk. rewrite znth_insert by lia. zcases.
      * subst r. rewrite Hinfo. cbn. rewrite lookup_app_r by lia. replace (_ - _)%nat with 0%nat by lia. done.
      * apply lookup_app_l_Some, Hsame. lia.
    + intros n Hnn. destruct (Z.eq_dec n (nm_nNodes m)) as [->|Hne].
      * exists k. split; [lia|]. rewrite znth_insert by lia. by rewrite Z.eqb_refl.
      * destruct (Hinh n) as (r & Hr' & <-); [lia|]. exists r. split; [lia|]. rewrite znth_insert by lia. zcases; [lia|done].
Qed.

Lemma assign_nodes_spec nranks infos : 0 <= nranks -> length infos = Z.to_nat nranks ->
  wp (assign_nodes nranks infos) (fun m => exists seen, nodes_at nranks (fun r => default 0 (ni_firstRank <$> infos !! Z.to_nat r)) nranks seen m).
Proof.
  intros Hn Hl. unfold assign_nodes.
  eapply (wpx_for (fun k m => exists seen, nodes_at nranks _ k seen m)); [lia| | |done].
  - exists []. constructor; cbn [nm_nNodes nm_nodesFirstRank nm_nodesTreePatterns nm_rankToNode]; try (unfold zeros; rewrite ?length_replicate; done || lia); [constructor|by rewrite Z.sub_0_r|..]; intros; lia.
  - intros k m Hk (seen & Hm). by eapply assign_node_spec.
Qed.

(** ** The numbering of local ranks *)
Section Locals.
  Context (nRanks nNodes : Z) (rankToNode : list Z).
  Context (Hpos : 0 < nRanks) (Hlen : length rankToNode = Z.to_nat nRanks).
  Context (Hrange : forall r, 0 <= r < nRanks -> 0 <= znth rankToNode r < nNodes).

(** The ranks below [k] on node [n]. *)
Definition ranks_of (n k : Z) : list Z := filter (fun r => znth rankToNode r = n) (seqZ 0 k).
Definition size_of (n k : Z) : Z := Z.of_nat (length (ranks_of n k)).
Definition local_of (r : Z) : Z := size_of (znth rankToNode r) r.
Definition max_size (k : Z) : Z := fold_left Z.max ((fun n => size_of n nRanks) <$> seqZ 0 k) 0.

Lemma ranks_of_succ n k : 0 <= k ->
  ranks_of n (k + 1) = ranks_of n k ++ if decide (znth rankToNode k = n) then [k] else [].
Proof using. clear Hpos Hlen Hrange.
  intros Hk. unfold ranks_of. rewrite seqZ_app by lia. by rewrite filter_app, Z.add_0_l.
Qed.

Lemma size_of_succ n k : 0 <= k -> size_of n (k + 1) = size_of n k + if decide (znth rankToNode k = n) then 1 else 0.
Proof using. clear Hpos Hlen Hrange. intros. unfold size_of. rewrite ranks_of_succ, length_app by done. case_decide; simpl; lia. Qed.

Lemma size_of_mono n k k' : 0 <= k <= k' -> size_of n k <= size_of n k'.
Proof using. clear Hpos Hlen Hrange.
  intros H. replace k' with (k + Z.of_nat (Z.to_nat (k' - k))) by lia. induction (Z.to_nat (k' - k)) as [|d IH]; [by rewrite Z.add_0_r|].
  replace (k + Z.of_nat (S d)) with (k + Z.of_nat d + 1) by lia. rewrite size_of_succ by lia. case_decide; lia.
Qed.

Lemma node_get r : 0 <= r < nRanks -> zget rankToNode r = Ret (znth rankToNode r).
Proof using Hlen. clear Hpos Hrange. intros. apply zget_znth. lia. Qed.

Lemma count_locals_eq :
  for_range 0 nRanks (count_local rankToNode) (zeros nRanks, replicate (Z.to_nat nNodes) (MkNodeRanks 0 [])) =
  Ret (table nRanks local_of, table nNodes (fun n => MkNodeRanks (size_of n nRanks) [])).
Proof using Hlen Hpos Hrange.
  set (F k := (table nRanks (fun r => if r <? k then local_of r else 0), table nNodes (fun n => MkNodeRanks (size_of n k) []))).
  transitivity (for_range 0 nRanks (count_local rankToNode) (F 0)).
  { f_equal. unfold F, zeros. rewrite !table_const. f_equal; apply table_ext; intros i Hi; zcases; done || lia. }
  rewrite (for_range_states 0 nRanks _ F); [|lia|].
  - unfold F. do 2 f_equal. apply table_ext. intros r Hr. zcases; [done|lia].
  - intros k Hk. unfold count_local, F. cbn [fst snd]. rewrite node_get by lia. ret_step.
    rewrite zget_table by (by apply Hrange). ret_step. rewrite (zset_table nRanks) by lia. ret_step. rewrite zset_table by (by apply Hrange). ret_step.
    do 2 f_equal; apply table_ext; intros i Hi; zcases; subst; try done; try lia.
    + rewrite size_of_succ, decide_True by (done || lia). done.
    + rewrite size_of_succ, decide_False by (done || lia). by rewrite Z.add_0_r.
Qed.

Lemma alloc_locals_eq : 0 <= nNodes ->
  for_range 0 nNodes alloc_local (0, table nNodes (fun n => MkNodeRanks (size_of n nRanks) [])) =
  Ret (max_size nNodes, table nNodes (fun n => MkNodeRanks 0 (zeros (size_of n nRanks)))).
Proof using. clear Hpos Hlen Hrange.
  intros Hn. set (F k := (max_size k, table nNodes (fun n => if n <? k then MkNodeRanks 0 (zeros (size_of n nRanks)) else MkNodeRanks (size_of n nRanks) []))).
  transitivity (for_range 0 nNodes alloc_local (F 0)).
  { f_equal. unfold F. f_equal. apply table_ext. intros i Hi. zcases; [lia|done]. }
  rewrite (for_range_states 0 nNodes _ F); [|lia|].
  - unfold F. do 2 f_equal. apply table_ext. intros r Hr. zcases; [done|lia].
  - intros k Hk. unfold alloc_local, F. cbn [fst snd]. rewrite zget_table by lia. ret_step. rewrite zset_table by lia. ret_step.
    rewrite Z.ltb_irrefl. cbn. do 2 f_equal.
    + unfold max_size. rewrite seqZ_app, fmap_app, fold_left_app by lia. rewrite Z.add_0_l. rewrite (seqZ_cons k 1) by lia. done.
    + apply table_ext. intros i Hi. zcases; subst; done || lia.
Qed.

Lemma fill_locals_eq :
  for_range 0 nRanks (fill_local rankToNode) (table nNodes (fun n => MkNodeRanks 0 (zeros (size_of n nRanks)))) =
  Ret (table nNodes (fun n => MkNodeRanks (size_of n nRanks) (ranks_of n nRanks))).
Proof using Hlen Hpos Hrange.
  set (F k := table nNodes (fun n => MkNodeRanks (size_of n k) (ranks_of n k ++ zeros (size_of n nRanks - size_of n k)))).
  transitivity (for_range 0 nRanks (fill_local rankToNode) (F 0)).
  { f_equal. unfold F. apply table_ext. intros i Hi. unfold size_of at 2 4, ranks_of. cbn. by rewrite Z.sub_0_r. }
  rewrite (for_range_states 0 nRanks _ F); [|lia|].
  - unfold F. f_equal. apply table_ext. intros r Hr. rewrite Z.sub_diag. unfold zeros. by rewrite app_nil_r.
  - intros k Hk. unfold fill_local, F. rewrite node_get by lia. ret_step. rewrite zget_table by (by apply Hrange). ret_step.
    cbn [nr_localRankToRank nr_localRanks]. set (n := znth rankToNode k). pose proof (size_of_succ n k ltac:(lia)) as Hs. rewrite decide_True in Hs by done.
    pose proof (size_of_mono n (k + 1) nRanks ltac:(lia)).
    rewrite zset_Ret by (rewrite length_app; unfold zeros, size_of in *; rewrite length_replicate; lia). ret_step.
    rewrite zset_table by (by apply Hrange). f_equal. apply table_ext. intros i Hi. rewrite size_of_succ, ranks_of_succ by lia.
    destruct (Z.eqb_spec i n) as [->|Hne].
    + rewrite decide_True by done. f_equal. rewrite (zeros_split (_ - size_of n k)) by lia.
      replace (Z.to_nat (size_of n k)) with (length (ranks_of n k) + 0)%nat by (unfold size_of; lia). rewrite insert_app_r. simpl.
      rewrite <- app_assoc. simpl. f_equal. rewrite decide_True by done. simpl. do 2 f_equal. lia.
    + rewrite decide_False by (unfold n in *; congruence). rewrite decide_False by (unfold n in *; congruence). by rewrite Z.add_0_r, app_nil_r.
Qed.
End Locals.

(** ** Ranks as pairs of a node and a local rank *)

Record layout (nRanks nN nL : Z) (rank_at : Z -> Z -> Z) (nodeOf localOf : Z -> Z) : Prop := {
  ly_nN : 0 < nN; ly_nL : 0 < nL; ly_size : nN * nL = nRanks;
  ly_node r : 0 <= r < nRanks -> 0 <= nodeOf r < nN;
  ly_local r : 0 <= r < nRanks -> 0 <= localOf r < nL;
  ly_rank r : 0 <= r < nRanks -> rank_at (nodeOf r) (localOf r) = r;
  ly_at n l : 0 <= n < nN -> 0 <= l < nL -> 0 <= rank_at n l < nRanks /\ nodeOf (rank_at n l) = n /\ localOf (rank_at n l) = l }.

(** The deltas of the rounds, and the peers at given deltas. *)
Definition offsets (nN nL : Z) : list (Z * Z) :=
  nd ← deltas nN (2 ^ Z.log2_up nN); (fun ld => (nd, ld)) <$> deltas nL (2 ^ Z.log2_up nL).
Definition peers_at (nN nL : Z) (rank_at : Z -> Z -> Z) (node local : Z) (d : Z * Z) : P2pSchedulePair :=
  MkPair (rank_at ((node + d.1) mod nN) ((local + d.2) mod nL)) (rank_at ((node - d.1) mod nN) ((local - d.2) mod nL)).

Lemma offsets_elem nN nL nd ld : 0 < nN <= 2 ^ 30 -> 0 < nL <= 2 ^ 30 -> (nd, ld) ∈ offsets nN nL <-> 0 <= nd < nN /\ 0 <= ld < nL.
Proof.
  intros Hn Hl. pose proof (pow2Up_eq nN Hn) as (_ & Hm & Hle). pose proof (pow2Up_eq nL Hl) as (_ & Hm' & Hle').
  unfold offsets. rewrite list_elem_of_bind. split.
  - intros (x & (y & [= -> ->] & Hy)%list_elem_of_fmap & Hx). rewrite deltas_perm, elem_of_seqZ in Hx by lia. rewrite deltas_perm, elem_of_seqZ in Hy by lia. lia.
  - intros [H1 H2]. exists nd. split; [|rewrite deltas_perm, elem_of_seqZ; lia]. apply list_elem_of_fmap. exists ld. split; [done|].
    rewrite deltas_perm, elem_of_seqZ; lia.
Qed.

Lemma bind_length {A B} (l : list A) (f : A -> list B) n : (forall a, length (f a) = n) -> length (l ≫= f) = (length l * n)%nat.
Proof. intros H. induction l as [|a l IH]; [done|]. cbn [mbind list_bind]. rewrite length_app, H. simpl. by rewrite <- IH. Qed.

Lemma offsets_length nN nL : 0 < nN <= 2 ^ 30 -> 0 < nL <= 2 ^ 30 -> Z.of_nat (length (offsets nN nL)) = nN * nL.
Proof.
  intros Hn Hl. pose proof (pow2Up_eq nN Hn) as (_ & Hm & Hle). pose proof (pow2Up_eq nL Hl) as (_ & Hm' & Hle').
  unfold offsets. rewrite (bind_length _ _ (Z.to_nat nL)) by (intros; rewrite length_fmap, deltas_perm, length_seqZ; lia).
  rewrite deltas_perm, length_seqZ by lia. nia.
Qed.

Section Pairing.
  Context {nRanks nN nL : Z} {rank_at : Z -> Z -> Z} {nodeOf localOf : Z -> Z}.
  Context (HL : layout nRanks nN nL rank_at nodeOf localOf) (Hmax : nRanks <= 2 ^ 30).

Definition schedule_of (r : Z) : list P2pSchedulePair := peers_at nN nL rank_at (nodeOf r) (localOf r) <$> offsets nN nL.

Lemma layout_small : 0 < nN <= 2 ^ 30 /\ 0 < nL <= 2 ^ 30.
Proof using HL Hmax. destruct HL. nia. Qed.

Lemma schedule_length r : Z.of_nat (length (schedule_of r)) = nRanks.
Proof using HL Hmax. destruct layout_small. unfold schedule_of. rewrite length_fmap, offsets_length by done. apply HL. Qed.

(** If [a] sends to [b] at some deltas then [b] receives from [a] there. *)
Lemma peers_pair a b d : 0 <= a < nRanks -> 0 <= b < nRanks ->
  sendRank (peers_at nN nL rank_at (nodeOf a) (localOf a) d) = b <-> recvRank (peers_at nN nL rank_at (nodeOf b) (localOf b) d) = a.
Proof using HL.
  intros Ha Hb. destruct HL as [Hn Hl _ Hnode Hloc Hr Hat]. unfold peers_at. cbn.
  assert (forall x y, 0 <= rank_at (x mod nN) (y mod nL) < nRanks /\ nodeOf (rank_at (x mod nN) (y mod nL)) = x mod nN /\ localOf (rank_at (x mod nN) (y mod nL)) = y mod nL) as Hm.
  { intros x y. apply Hat; apply Z.mod_pos_bound; lia. }
  split.
  - intros <-. destruct (Hm (nodeOf a + d.1) (localOf a + d.2)) as (_ & -> & ->). rewrite <- (Hr a Ha) at 3.
    f_equal; rewrite Zminus_mod_idemp_l; rewrite Z.add_simpl_r; apply Z.mod_small; auto.
  - intros <-. destruct (Hm (nodeOf b - d.1) (localOf b - d.2)) as (_ & -> & ->). rewrite <- (Hr b Hb) at 3.
    f_equal; rewrite Zplus_mod_idemp_l; rewrite Z.sub_add; apply Z.mod_small; auto.
Qed.

Lemma schedule_pairs a b i p q : 0 <= a < nRanks -> 0 <= b < nRanks -> schedule_of a !! i = Some p -> schedule_of b !! i = Some q ->
  sendRank p = b <-> recvRank q = a.
Proof using HL.
  intros Ha Hb. unfold schedule_of. rewrite !list_lookup_fmap. destruct (offsets nN nL !! i) as [d|]; [|done].
  intros [= <-] [= <-]. by apply peers_pair.
Qed.

(** A list of [nRanks] ranks with every rank in it is a permutation. *)
Lemma all_ranks_perm (l : list Z) : Z.of_nat (length l) = nRanks -> (forall b, 0 <= b < nRanks -> b ∈ l) -> l ≡ₚ seqZ 0 nRanks.
Proof using. clear HL Hmax.
  intros Hl Ha. symmetry. apply submseteq_length_Permutation; [|rewrite length_seqZ; lia].
  apply NoDup_submseteq; [apply NoDup_seqZ|]. intros b Hb%elem_of_seqZ. apply Ha. lia.
Qed.

Lemma schedule_sends a : 0 <= a < nRanks -> sendRank <$> schedule_of a ≡ₚ seqZ 0 nRanks.
Proof using HL Hmax.
  intros Ha. destruct layout_small as [H1 H2]. apply all_ranks_perm; [rewrite length_fmap; apply schedule_length|]. intros b Hb.
  unfold schedule_of. rewrite <- list_fmap_compose. apply list_elem_of_fmap. exists ((nodeOf b - nodeOf a) mod nN, (localOf b - localOf a) mod nL).
  split; [|apply offsets_elem; [done|done|]; split; apply Z.mod_pos_bound; lia].
  unfold compose, peers_at. cbn. rewrite !Zplus_mod_idemp_r, !Zplus_minus. destruct HL as [Hn Hl _ Hnode Hloc Hr Hat].
  rewrite !Z.mod_small by auto. by rewrite Hr.
Qed.

Lemma schedule_recvs a : 0 <= a < nRanks -> recvRank <$> schedule_of a ≡ₚ seqZ 0 nRanks.
Proof using HL Hmax.
  intros Ha. apply all_ranks_perm; [rewrite length_fmap; apply schedule_length|]. intros b Hb.
  assert (a ∈ sendRank <$> schedule_of b) as (p & -> & [i Hi]%list_elem_of_lookup)%list_elem_of_fmap.
  { rewrite (schedule_sends b Hb). apply elem_of_seqZ. lia. }
  destruct (lookup_lt_is_Some_2 (schedule_of (sendRank p)) i) as [q Hq].
  { pose proof (schedule_length (sendRank p)). pose proof (schedule_length b). apply lookup_lt_Some in Hi. lia. }
  apply list_elem_of_fmap. exists q. split; [|by apply list_elem_of_lookup_2 in Hq].
  symmetry. by apply (schedule_pairs b (sendRank p) i p q).
Qed.
End Pairing.

(** ** The schedule that is built *)

Lemma run_list_append {A} (body : A -> Z * list P2pSchedulePair -> outcome (Z * list P2pSchedulePair)) (f : A -> list P2pSchedulePair) total l :
  (forall a d, a ∈ l -> (length d + length (f a) <= total)%nat ->
     body a (Z.of_nat (length d), d ++ replicate (total - length d) (MkPair 0 0)) =
     Ret (Z.of_nat (length (d ++ f a)), (d ++ f a) ++ replicate (total - length (d ++ f a)) (MkPair 0 0))) ->
  forall d, (length d + length (l ≫= f) <= total)%nat ->
  run_list body l (Z.of_nat (length d), d ++ replicate (total - length d) (MkPair 0 0)) =
  Ret (Z.of_nat (length (d ++ (l ≫= f))), (d ++ (l ≫= f)) ++ replicate (total - length (d ++ (l ≫= f))) (MkPair 0 0)).
Proof.
  induction l as [|a l IH]; intros Hb d Hd; cbn [run_list].
  - by rewrite app_nil_r.
  - rewrite bind_cons in *. rewrite length_app in Hd. rewrite Hb by (constructor || lia). ret_step. rewrite IH.
    + by rewrite <- app_assoc.
    + intros a' d' Ha'. apply Hb. by constructor.
    + rewrite length_app. lia.
Qed.

Lemma append_pair (d : list P2pSchedulePair) p total : (length d + 1 <= total)%nat ->
  zset (d ++ replicate (total - length d) (MkPair 0 0)) (Z.of_nat (length d)) p =
  Ret ((d ++ [p]) ++ replicate (total - length (d ++ [p])) (MkPair 0 0)).
Proof.
  intros Hd. rewrite zset_Ret by (rewrite length_app, length_replicate; lia). rewrite Nat2Z.id.
  replace (total - length d)%nat with (S (total - length (d ++ [p]))) by (rewrite length_app; simpl; lia).
  replace (length d) with (length d + 0)%nat at 1 by lia. rewrite insert_app_r. simpl. by rewrite <- app_assoc.
Qed.

Lemma u32_small x : 0 <= x < 2 ^ 32 -> u32 x = x.
Proof. intros. unfold u32. by rewrite Z.mod_small. Qed.

Section Build.
  Context {nRanks nN nL : Z} {rank_at : Z -> Z -> Z} {nodeOf localOf : Z -> Z}.
  Context (HL : layout nRanks nN nL rank_at nodeOf localOf) (Hmax : nRanks <= 2 ^ 30).
  Context (comm : node_comm) (flat : bool) (r : Z) (Hr : 0 <= r < nRanks).
  Context (Hshape : p2p_shape_of comm = Ret (MkP2pShape flat nN nL (localOf r))).
  Context (Hnode : 0 <= nc_node comm <= 2 ^ 30 /\ nc_node comm mod nN = nodeOf r) (Hranks : nc_nRanks comm = nRanks).
  Context (Hat : forall n l, 0 <= n < nN -> 0 <= l < nL -> rank_of comm flat n l = Ret (rank_at n l)).

Abbreviation shape := (MkP2pShape flat nN nL (localOf r)).

Lemma local_body_eq sn rn ld d total : 0 <= sn < nN -> 0 <= rn < nN -> 0 <= ld < nL -> (length d + 1 <= total)%nat ->
  p2p_local_body comm shape sn rn ld (Z.of_nat (length d), d ++ replicate (total - length d) (MkPair 0 0)) =
  let p := MkPair (rank_at sn ((localOf r + ld) mod nL)) (rank_at rn ((localOf r - ld) mod nL)) in
  Ret (Z.of_nat (length (d ++ [p])), (d ++ [p]) ++ replicate (total - length (d ++ [p])) (MkPair 0 0)).
Proof using HL Hmax Hr Hat.
  intros Hsn Hrn Hld Hd. destruct (layout_small HL Hmax) as [H1 H2]. pose proof (ly_local _ _ _ _ _ _ HL r Hr) as Hloc.
  unfold p2p_local_body. cbn [ps_local ps_nLocals ps_flat fst snd]. change (2 ^ 30) with 1073741824 in *.
  rewrite !u32_small by (change (2 ^ 32) with 4294967296; lia).
  rewrite !Hat by (try apply Z.mod_pos_bound; lia). do 2 ret_step.
  rewrite append_pair by lia. ret_step. replace ((localOf r - ld + nL) mod nL) with ((localOf r - ld) mod nL).
  - rewrite !length_app. cbn [length]. do 2 f_equal. lia.
  - rewrite <- (Z.mod_add (localOf r - ld) 1 nL) by lia. by rewrite Z.mul_1_l.
Qed.

Definition local_pairs (nd ld : Z) : list P2pSchedulePair := [peers_at nN nL rank_at (nodeOf r) (localOf r) (nd, ld)].
Definition node_pairs (nd : Z) : list P2pSchedulePair := deltas nL (2 ^ Z.log2_up nL) ≫= local_pairs nd.

Lemma node_body_eq nd d total : 0 <= nd < nN -> (length d + length (node_pairs nd) <= total)%nat ->
  p2p_node_body comm shape (2 ^ Z.log2_up nL) nd (Z.of_nat (length d), d ++ replicate (total - length d) (MkPair 0 0)) =
  Ret (Z.of_nat (length (d ++ node_pairs nd)), (d ++ node_pairs nd) ++ replicate (total - length (d ++ node_pairs nd)) (MkPair 0 0)).
Proof using HL Hmax Hr Hat Hnode.
  intros Hnd Hd. destruct (layout_small HL Hmax) as [H1 H2]. pose proof (pow2Up_eq nL H2) as (_ & Hm & Hle).
  unfold p2p_node_body. cbn [ps_nNodes ps_nLocals]. rewrite quad_loop_eq by lia. apply run_list_append; [|done].
  intros ld d' Hld Hd'. cbn in Hd'. rewrite deltas_perm, elem_of_seqZ in Hld by lia. destruct Hnode as [Hn1 Hn2].
  change (2 ^ 30) with 1073741824 in *. rewrite !u32_small by (change (2 ^ 32) with 4294967296; lia).
  rewrite local_body_eq by (try apply Z.mod_pos_bound; lia). unfold local_pairs, peers_at. cbn zeta. cbn [fst snd].
  replace ((nc_node comm + nd) mod nN) with ((nodeOf r + nd) mod nN) by (by rewrite <- Hn2, Zplus_mod_idemp_l).
  replace ((nc_node comm - nd + nN) mod nN) with ((nodeOf r - nd) mod nN); [done|].
  rewrite <- Hn2, Zminus_mod_idemp_l, <- (Z.mod_add (nc_node comm - nd) 1 nN) by lia. by rewrite Z.mul_1_l.
Qed.

Lemma schedule_of_pairs : deltas nN (2 ^ Z.log2_up nN) ≫= node_pairs = schedule_of (nN := nN) (nL := nL) (rank_at := rank_at) (nodeOf := nodeOf) (localOf := localOf) r.
Proof using.
  clear. unfold schedule_of, offsets. induction (deltas nN _) as [|nd l IH]; [done|]. cbn [mbind list_bind]. rewrite fmap_app. f_equal; [|exact IH].
  unfold node_pairs. clear IH. induction (deltas nL _) as [|ld l' IH]; [done|]. cbn. by f_equal.
Qed.

Lemma build_eq : build_p2pSchedule comm = Ret (schedule_of (nN := nN) (nL := nL) (rank_at := rank_at) (nodeOf := nodeOf) (localOf := localOf) r).
Proof using HL Hmax Hr Hat Hnode Hranks Hshape.
  destruct (layout_small HL Hmax) as [H1 H2]. pose proof (schedule_length HL Hmax r) as Hlen. rewrite <- schedule_of_pairs in *.
  unfold build_p2pSchedule. rewrite Hshape. ret_step. cbn [ps_nNodes ps_nLocals].
  pose proof (pow2Up_eq nN H1) as (-> & Hm & Hle). ret_step. pose proof (pow2Up_eq nL H2) as (-> & Hm' & Hle'). ret_step.
  rewrite quad_loop_eq by lia. pose proof (run_list_append (p2p_node_body comm shape (2 ^ Z.log2_up nL)) node_pairs (Z.to_nat nRanks)
    (deltas nN (2 ^ Z.log2_up nN))) as E. specialize (E ltac:(
      intros nd d Hnd Hd; apply node_body_eq; [rewrite deltas_perm, elem_of_seqZ in Hnd by lia; lia|done]) [] ltac:(simpl; lia)).
  simpl length in E. rewrite Nat.sub_0_r in E. simpl app in E. change (Z.of_nat 0) with 0 in E. rewrite Hranks, E. ret_step. cbn.
  rewrite Hlen, Z.eqb_refl. cbn. replace (Z.to_nat nRanks - _)%nat with 0%nat by lia. by rewrite app_nil_r.
Qed.
End Build.

(** ** The communicator as every rank computes it *)
Section Comm.
  Context (nRanks nNodes : Z) (rtn : list Z).
  Context (Hpos : 0 < nRanks) (Hlen : length rtn = Z.to_nat nRanks).
  Context (Hrange : forall r, 0 <= r < nRanks -> 0 <= znth rtn r < nNodes).

Definition comm_of (r : Z) : node_comm :=
  MkNodeComm r nRanks nNodes rtn (table nRanks (local_of rtn)) (table nNodes (fun n => MkNodeRanks (size_of rtn n nRanks) (ranks_of rtn n nRanks)))
    (max_size nRanks rtn nNodes) (znth rtn r) (local_of rtn r) (size_of rtn (znth rtn r) nRanks) (ranks_of rtn (znth rtn r) nRanks).

Lemma ranks_of_split n k k' : 0 <= k <= k' ->
  ranks_of rtn n k' = ranks_of rtn n k ++ filter (fun r => znth rtn r = n) (seqZ k (k' - k)).
Proof using. clear. intros H. unfold ranks_of. replace k' with (k + (k' - k)) at 1 by lia. rewrite seqZ_app by lia. by rewrite filter_app, Z.add_0_l. Qed.

Lemma ranks_of_local r : 0 <= r < nRanks -> ranks_of rtn (znth rtn r) nRanks !! Z.to_nat (local_of rtn r) = Some r.
Proof using. clear.
  intros Hr. rewrite (ranks_of_split _ (r + 1)), ranks_of_succ, decide_True by (done || lia).
  unfold local_of, size_of. rewrite Nat2Z.id, <- app_assoc, lookup_app_r, Nat.sub_diag by lia. done.
Qed.

Lemma ranks_of_inv n l r : ranks_of rtn n nRanks !! l = Some r -> 0 <= r < nRanks /\ znth rtn r = n /\ local_of rtn r = Z.of_nat l.
Proof using. clear.
  intros Hl. pose proof (list_elem_of_lookup_2 _ _ _ Hl) as [Hn Hs%elem_of_seqZ]%list_elem_of_filter. split; [lia|]. split; [done|].
  pose proof (ranks_of_local r ltac:(lia)) as Hl'. rewrite Hn in Hl'.
  assert (Z.to_nat (local_of rtn r) = l) as <-.
  { eapply NoDup_lookup; [|exact Hl'|exact Hl]. apply NoDup_filter, NoDup_seqZ. }
  unfold local_of, size_of. lia.
Qed.

Lemma init_comm infos r m : assign_nodes nRanks infos = Ret m -> nm_rankToNode m = rtn -> nm_nNodes m = nNodes -> 0 <= r < nRanks ->
  init_nodes nRanks r infos = Ret (comm_of r).
Proof using Hpos Hlen Hrange.
  intros Hm Hrtn HnN Hr. unfold init_nodes. rewrite Hm. ret_step. rewrite Hrtn, HnN.
  pose proof (Hrange r Hr) as Hn. rewrite count_locals_eq by done. ret_step. rewrite alloc_locals_eq by lia. ret_step.
  rewrite fill_locals_eq by done. ret_step. rewrite (zget_znth rtn) by lia. ret_step. rewrite !zget_table by lia. do 2 ret_step.
  cbn [nr_localRanks nr_localRankToRank]. pose proof (ranks_of_local r Hr) as Hl.
  assert (0 <= local_of rtn r) by (unfold local_of, size_of; lia).
  pose proof (lookup_lt_Some _ _ _ Hl) as Hlt.
  destruct (lookup_lt_is_Some_2 (ranks_of rtn (znth rtn r) nRanks) 0) as [f Hf]; [lia|].
  assert (zget (ranks_of rtn (znth rtn r) nRanks) 0 = Ret f) as -> by (apply zget_Ret; split; [lia|done]). ret_step.
  destruct (ranks_of_inv _ _ _ Hf) as [Hfr _]. assert (0 < size_of rtn (znth rtn r) nRanks) by (unfold size_of; lia).
  zcases; try lia. done.
Qed.

Lemma max_size_ge n : 0 <= n < nNodes -> size_of rtn n nRanks <= max_size nRanks rtn nNodes.
Proof using. clear.
  intros Hn. unfold max_size.
  assert (forall l a, a <= fold_left Z.max l a /\ (forall x, x ∈ l -> x <= fold_left Z.max l a)) as Hf.
  { induction l as [|x l IH]; intros a; simpl; [split; [lia|]; intros x Hx; by apply elem_of_nil in Hx|].
    destruct (IH (Z.max a x)) as [H1 H2]. split; [lia|]. intros y [->|Hy]%elem_of_cons; [lia|auto]. }
  apply Hf. apply list_elem_of_fmap. exists n. split; [done|]. apply elem_of_seqZ. lia.
Qed.

(** The test for nodes of different sizes. *)
Lemma find_flat_spec r : 0 <= nNodes -> wp (find_flat (S (Z.to_nat nNodes)) (comm_of r) 0) (fun flat =>
  flat = false -> forall n, 0 <= n < nNodes -> size_of rtn n nRanks = max_size nRanks rtn nNodes).
Proof using. clear.
  intros Hn. assert (forall fuel k, (Z.to_nat (nNodes - k) < fuel)%nat -> 0 <= k <= nNodes -> wp (find_flat fuel (comm_of r) k) (fun flat =>
    flat = false -> forall n, k <= n < nNodes -> size_of rtn n nRanks = max_size nRanks rtn nNodes)) as H; [|apply H; lia].
  induction fuel as [|fuel IH]; intros k Hf Hk; [lia|]. cbn [find_flat]. cbn [nc_nNodes nc_nodeRanks nc_maxLocalRanks comm_of].
  destruct (Z.ltb_spec k nNodes); [|intros _ n Hk'; lia]. rewrite zget_table by lia. ret_step. cbn [nr_localRanks].
  destruct (Z.eqb_spec (size_of rtn k nRanks) (max_size nRanks rtn nNodes)) as [E|E]; [|done]. cbn [negb].
  eapply wpx_mono; [apply IH; lia| |done]. intros flat Hflat Hff n Hkn.
  destruct (Z.eq_dec n k) as [->|]; [done|]. apply Hflat; [done|lia].
Qed.

Lemma find_flat_same fuel r r' : forall k, find_flat fuel (comm_of r) k = find_flat fuel (comm_of r') k.
Proof using. clear.
  induction fuel as [|f IH]; intros k; [done|]. cbn [find_flat comm_of nc_nNodes nc_nodeRanks nc_maxLocalRanks].
  destruct (k <? nNodes); [|done]. destruct (zget _ k) as [nr|e|]; [|done|done]. cbn. destruct (negb _); [done|]. apply IH.
Qed.

(** The ranks are the disjoint union of the nodes. *)
Lemma ranks_total L : 0 <= nNodes -> (forall n, 0 <= n < nNodes -> size_of rtn n nRanks = L) -> nNodes * L = nRanks.
Proof using Hpos Hlen Hrange.
  intros Hn HL. assert ((seqZ 0 nNodes ≫= fun n => ranks_of rtn n nRanks) ≡ₚ seqZ 0 nRanks) as Hp.
  { apply NoDup_Permutation; [|apply NoDup_seqZ|].
    - apply NoDup_bind; [|intros; apply NoDup_filter, NoDup_seqZ|apply NoDup_seqZ].
      intros n n' x _ _ [? _]%list_elem_of_filter [? _]%list_elem_of_filter. congruence.
    - intros x. rewrite list_elem_of_bind. unfold ranks_of. split.
      + intros (n & [_ ?]%list_elem_of_filter & _). done.
      + intros Hx. exists (znth rtn x). apply elem_of_seqZ in Hx as Hx'. rewrite list_elem_of_filter. split; [done|].
        apply elem_of_seqZ. pose proof (Hrange x). lia. }
  apply Permutation_length in Hp. rewrite length_seqZ in Hp.
  assert (forall l, (forall n, n ∈ l -> 0 <= n < nNodes) -> Z.of_nat (length (l ≫= fun n => ranks_of rtn n nRanks)) = Z.of_nat (length l) * L) as Hc.
  { induction l as [|n l IH]; intros Hl; [done|]. rewrite bind_cons, length_app, length_cons, Nat2Z.inj_add, IH by (intros; apply Hl; by constructor).
    pose proof (HL n (Hl n (list_elem_of_here _ _))). unfold size_of in *. lia. }
  specialize (Hc (seqZ 0 nNodes) ltac:(intros n Hn'%elem_of_seqZ; lia)). rewrite length_seqZ in Hc. lia.
Qed.

Lemma nodes_layout : 0 <= nNodes -> (forall n, 0 <= n < nNodes -> size_of rtn n nRanks = max_size nRanks rtn nNodes) ->
  layout nRanks nNodes (max_size nRanks rtn nNodes) (fun n l => znth (ranks_of rtn n nRanks) l) (znth rtn) (local_of rtn).
Proof using Hpos Hlen Hrange.
  intros Hn Hs. pose proof (ranks_total _ Hn Hs) as Ht. pose proof (Hrange 0 ltac:(lia)).
  assert (forall r, 0 <= r < nRanks -> 0 <= local_of rtn r < max_size nRanks rtn nNodes) as Hloc.
  { intros r Hr. pose proof (ranks_of_local r Hr) as Hl. apply lookup_lt_Some in Hl. rewrite <- (Hs (znth rtn r)) by auto. unfold local_of, size_of in *. lia. }
  constructor; [lia|pose proof (Hloc 0); lia|done|auto|auto|..].
  - intros r Hr. unfold znth at 1. by apply nth_lookup_Some, ranks_of_local.
  - intros n l Hn' Hl. assert (exists x, ranks_of rtn n nRanks !! Z.to_nat l = Some x) as [x Hx].
    { apply lookup_lt_is_Some_2. specialize (Hs n Hn'). unfold size_of in Hs. lia. }
    unfold znth. rewrite (nth_lookup_Some _ _ (-1) _ Hx). destruct (ranks_of_inv _ _ _ Hx) as (H1 & H2 & H3).
    split; [done|]. split; [done|lia].
Qed.

Lemma flat_layout : layout nRanks 1 nRanks (fun _ l => l) (fun _ => 0) (fun r => r).
Proof using Hpos. clear Hlen Hrange. constructor; intros; lia || naive_solver lia. Qed.
End Comm.

(** All ranks build their schedules over one layout. *)
Lemma init_p2pSchedule_spec nRanks infos : 0 < nRanks <= 2 ^ 30 -> length infos = Z.to_nat nRanks ->
  exists nN nL rank_at nodeOf localOf, layout nRanks nN nL rank_at nodeOf localOf /\
  forall r, 0 <= r < nRanks -> init_p2pSchedule nRanks r infos =
    Ret (schedule_of (nN := nN) (nL := nL) (rank_at := rank_at) (nodeOf := nodeOf) (localOf := localOf) r).
Proof.
  intros Hn Hl. destruct (wp_elim _ _ (assign_nodes_spec nRanks infos ltac:(lia) Hl)) as (m & Hm & seen & Hs).
  destruct Hs as [_ _ Hle _ _ Hrl Hnode _ _]. set (rtn := nm_rankToNode m) in *. set (nNodes := nm_nNodes m) in *.
  pose proof (Hnode 0 ltac:(lia)) as Hn0.
  destruct (wp_elim _ _ (find_flat_spec nRanks nNodes rtn 0 ltac:(lia))) as (flat & Hflat & Hsame).
  assert (forall r, find_flat (S (Z.to_nat nNodes)) (comm_of nRanks nNodes rtn r) 0 = Ret flat) as Hflat'.
  { intros r. rewrite <- Hflat. apply find_flat_same. }
  assert (forall r, 0 <= r < nRanks -> init_p2pSchedule nRanks r infos = build_p2pSchedule (comm_of nRanks nNodes rtn r)) as Hi.
  { intros r Hr. unfold init_p2pSchedule. by rewrite (init_comm nRanks nNodes rtn ltac:(lia) Hrl Hnode infos r m Hm). }
  destruct flat.
  - exists 1, nRanks, (fun _ l => l), (fun _ => 0), (fun r => r). pose proof (flat_layout nRanks ltac:(lia)) as HL. split; [done|].
    intros r Hr. rewrite Hi by done. pose proof (Hnode r Hr). apply (build_eq HL ltac:(lia) _ true r Hr).
    + unfold p2p_shape_of. cbn [comm_of nc_nNodes]. by rewrite Hflat'.
    + cbn. rewrite Z.mod_1_r. lia.
    + done.
    + done.
  - specialize (Hsame eq_refl). pose proof (nodes_layout nRanks nNodes rtn ltac:(lia) Hrl Hnode ltac:(lia) Hsame) as HL.
    eexists _, _, _, _, _. split; [exact HL|].
    intros r Hr. rewrite Hi by done. pose proof (Hnode r Hr). apply (build_eq HL ltac:(lia) _ false r Hr).
    + unfold p2p_shape_of. cbn [comm_of nc_nNodes]. by rewrite Hflat'.
    + cbn. rewrite Z.mod_small by lia. lia.
    + done.
    + intros n l Hn' Hl'. unfold rank_of. cbn [comm_of nc_nodeRanks]. rewrite zget_table by done. ret_step. cbn [nr_localRankToRank].
      apply zget_znth. rewrite <- (Hsame n Hn') in Hl'. unfold size_of in Hl'. lia.
Qed.

(** (C17) The point-to-point schedules that the ranks build alone fit together.  For
    every assignment of ranks to nodes, also with nodes of different sizes, every
    rank builds its schedule without running out of the array and without the
    internal error; in its rounds it sends to every rank once and receives from
    every rank once; and in each round [a] sends to [b] exactly if [b] receives
    from [a]. *)
Theorem p2pSchedule_pairs nRanks infos : 0 < nRanks <= 2 ^ 30 -> length infos = Z.to_nat nRanks ->
  exists sched : Z -> list P2pSchedulePair, forall a, 0 <= a < nRanks ->
    init_p2pSchedule nRanks a infos = Ret (sched a) /\
    sendRank <$> sched a ≡ₚ seqZ 0 nRanks /\ recvRank <$> sched a ≡ₚ seqZ 0 nRanks /\
    forall b i p q, 0 <= b < nRanks -> sched a !! i = Some p -> sched b !! i = Some q -> sendRank p = b <-> recvRank q = a.
Proof.
  intros Hn Hl. destruct (init_p2pSchedule_spec nRanks infos Hn Hl) as (nN & nL & rank_at & nodeOf & localOf & HL & Hs). destruct Hn as [_ Hmax].
  eexists. intros a Ha. split; [by apply Hs|]. split; [by apply (schedule_sends HL Hmax)|]. split; [by apply (schedule_recvs HL Hmax)|].
  intros b i p q Hb. by apply (schedule_pairs HL).
Qed.

Lemma p2pSchedule_pairs_witness :
  let infos := (fun f => MkNodeInfo f 0) <$> [0; 0; 0; 3; 3] in
  (0 < 5 <= 2 ^ 30 /\ length infos = Z.to_nat 5) /\
  exists s0 s3, init_p2pSchedule 5 0 infos = Ret s0 /\ init_p2pSchedule 5 3 infos = Ret s3 /\ sendRank <$> s3 ≡ₚ seqZ 0 5 /\
    forall i p q, s0 !! i = Some p -> s3 !! i = Some q -> sendRank p = 3 <-> recvRank q = 0.
Proof.
  intros infos. split; [split; [lia|done]|]. destruct (p2pSchedule_pairs 5 infos ltac:(lia) eq_refl) as (sched & H).
  destruct (H 0 ltac:(lia)) as (E0 & _ & _ & P0). destruct (H 3 ltac:(lia)) as (E3 & S3 & _ & _). exists (sched 0), (sched 3).
  split; [exact E0|]. split; [exact E3|]. split; [exact S3|]. intros i p q. apply (P0 3 i p q). lia.
Defined.
