(* ===== verification/P2pSched.v ===== *)
(** * Point-to-point tasks (src/src/enqueue.cc, register/sendrecv_reg.cc)

    A send or receive becomes a task in the queue of its peer; the channels it
    will use are marked for connection.  [scheduleP2pTasksToPlan] then goes
    through the rounds of the schedule and pairs the next send with the next
    receive of each round in one work struct. *)
From S2P Require Import Prelude Bitops Device RingAlgo Pat ProxyOp Chunking Proxy Plan FinishPlan CollSched P2pRounds.

(** ** Data (src/src/include/comm.h, device.h) *)

Record ncclTaskP2p := MkTaskP2p {
  tp_id : Z; (* the address of the task *)
  tp_func : ncclFunc_t; tp_buff : Z; tp_count : Z; tp_datatype : ncclDataType_t; tp_root : Z; tp_bytes : Z;
  tp_ncclFuncTimes : Z; tp_groupHash : Z; tp_eActivationMask : Z }.

(** [ncclKernelPlanner::Peer]; the queues as the lists they hold. *)
Record Peer := MkPeer { sendSeen : bool; recvSeen : bool; sendQueue : list ncclTaskP2p; recvQueue : list ncclTaskP2p }.

Record psmSelfCopy := MkSelfCopy { sc_dst : Z; sc_src : Z; sc_bytes : Z }.

Record ncclDevWorkP2p := MkDevWorkP2p {
  dw_sendAddr : Z; dw_recvAddr : Z; dw_sendBytes : Z; dw_recvBytes : Z; dw_sendRank : Z; dw_recvRank : Z;
  dw_nP2pChannels : Z; dw_channelBase : Z; dw_nSendChannels : Z; dw_nRecvChannels : Z;
  dw_sendChunkSize_u32fp8 : Z; dw_recvChunkSize_u32fp8 : Z;
  dw_sendProtoLL : bool; dw_recvProtoLL : bool; dw_sendNetReg : bool; dw_recvNetReg : bool;
  dw_sendIpcReg : bool; dw_recvIpcReg : bool; dw_profilerEnabled : bool }.

(** What is read of connector 1 of a peer. *)
Inductive transport := TransportNet | TransportPsmNet | TransportOther.
#[global] Instance transport_eq_dec : EqDecision transport.
Proof. solve_decision. Defined.

Record p2p_conn := MkP2pConn { pn_hasLL : bool; pn_transport : transport; pn_sameProcess : bool; pn_flags : Z }.

(** The parameters of the environment and the answers of the profiler. *)
Record p2p_params := MkP2pParams {
  pp_passSm : bool; pp_llThreshold : Z; pp_chunkSize : Z; pp_pxnDisable : bool; pp_graphRegister : bool; pp_localRegister : bool;
  pp_profilerLoaded : bool; pp_profileKernelCh : Z; pp_eventMask : Z }.

(** The registration services: the flag, the handle or remote address and
    offset, and the cleanups they queue. *)
Record p2p_services := MkP2pServices {
  sv_netUnpack : bool; (* netDeviceType is NCCL_NET_DEVICE_UNPACK *)
  sv_netGraph : Z -> Z -> Z -> Z -> bool -> bool * Z * list Z; sv_netLocal : Z -> Z -> Z -> Z -> bool -> bool * Z;
  sv_ipcGraph : Z -> Z -> Z -> bool * (Z * Z) * list Z; sv_ipcLocal : Z -> Z -> Z -> bool * (Z * Z) }.

(** [qc_conns] by channel and peer: the receive and the send connector;
    [qc_funcId] is [ncclDevFuncId_P2p()], an entry of a generated table. *)
Record p2p_comm := MkP2pComm {
  qc_rank : Z; qc_nRanks : Z; qc_nNodes : Z; qc_maxLocalRanks : Z; qc_p2pnChannels : Z; qc_p2pnChannelsPerPeer : Z;
  qc_p2pSchedule : list P2pSchedulePair; qc_conns : list (list (p2p_conn * p2p_conn)); qc_buffSizes : list Z; qc_p2pChunkSize : Z;
  qc_isAllNvlink : bool; qc_persistent : bool; qc_funcId : Z; qc_sched : sched_comm; qc_params : p2p_params; qc_services : p2p_services }.

(** ** Appending a task *)

(** [hasSeen] of the connectors by channel and peer, [connectSend] and
    [connectRecv] by peer, the planner's queues, whether the communicator is in
    the list of those to be connected, and the address of the next task. *)
Record append_state := MkAppend {
  ap_peers : list Peer; ap_nTasksP2p : Z; ap_sendSeen : list (list bool); ap_recvSeen : list (list bool);
  ap_connectSend : list Z; ap_connectRecv : list Z; ap_preconnect : bool; ap_next : Z }.

(** [while (peer != sched[round].sendRank) round += 1;] and the same for [recvRank]. *)
Fixpoint find_round (fuel : nat) (sched : list P2pSchedulePair) (send : bool) (peer round : Z) : outcome Z :=
  match fuel with
  | O => Stuck
  | S fuel =>
    p ← zget sched round;
    if peer =? (if send then sendRank p else recvRank p) then Ret round else find_round fuel sched send peer (round + 1)
  end.

Definition seen_of (send : bool) (s : append_state) : list (list bool) := if send then ap_sendSeen s else ap_recvSeen s.
Definition masks_of (send : bool) (s : append_state) : list Z := if send then ap_connectSend s else ap_connectRecv s.
(** [hasSeen = 1], the bit in the mask, and [ncclGroupCommPreconnect]. *)
Definition set_marks (send : bool) (seen : list (list bool)) (masks : list Z) (s : append_state) : append_state :=
  if send then MkAppend (ap_peers s) (ap_nTasksP2p s) seen (ap_recvSeen s) masks (ap_connectRecv s) true (ap_next s)
  else MkAppend (ap_peers s) (ap_nTasksP2p s) (ap_sendSeen s) seen (ap_connectSend s) masks true (ap_next s).

(** One channel: mark it unless the connector was seen before. *)
Definition mark_channel (comm : p2p_comm) (send : bool) (peer base c : Z) (s : append_state) : outcome append_state :=
  channelId ← ncclP2pChannelForPart (qc_p2pnChannels comm) base c;
  row ← zget (seen_of send s) channelId;
  b ← zget row peer;
  if b : bool then Ret s
  else
    row ← zset row peer true;
    seen ← zset (seen_of send s) channelId row;
    m ← zget (masks_of send s) peer;
    masks ← zset (masks_of send s) peer (Z.lor m (u64 (Z.shiftl 1 channelId)));
    Ret (set_marks send seen masks s).

(** What [ncclInfo] says of a send or receive. *)
Record p2p_info := MkP2pInfo { if_send : bool; if_peer : Z; if_buff : Z; if_count : Z; if_datatype : ncclDataType_t }.

(** A task from the pool is zeroed; the fields named in [taskAppend] are set. *)
Definition new_task (comm : p2p_comm) (info : p2p_info) (id : Z) : ncclTaskP2p :=
  MkTaskP2p id (if if_send info then ncclFuncSend else ncclFuncRecv) (if_buff info) (if_count info) (if_datatype info) (if_peer info)
    (u64 (if_count info * ncclTypeSize (if_datatype info))) 0 0 (pp_eventMask (qc_params comm)).

Definition push_task (send : bool) (t : ncclTaskP2p) (p : Peer) : Peer :=
  if send then MkPeer (sendSeen p) (recvSeen p) (sendQueue p ++ [t]) (recvQueue p)
  else MkPeer (sendSeen p) (recvSeen p) (sendQueue p) (recvQueue p ++ [t]).
Definition set_seen (send : bool) (p : Peer) : Peer :=
  if send then MkPeer true (recvSeen p) (sendQueue p) (recvQueue p) else MkPeer (sendSeen p) true (sendQueue p) (recvQueue p).

(** The branch of [taskAppend] for [ncclFuncSend] and [ncclFuncRecv]. *)
Definition taskAppend_p2p (comm : p2p_comm) (info : p2p_info) (s : append_state) : outcome append_state :=
  let peer := if_peer info in
  let send := if_send info in
  p ← zget (ap_peers s) peer;
  let p := push_task send (new_task comm info (ap_next s)) p in
  peers ← zset (ap_peers s) peer p;
  let s := MkAppend peers (ap_nTasksP2p s + 1) (ap_sendSeen s) (ap_recvSeen s) (ap_connectSend s) (ap_connectRecv s) (ap_preconnect s) (ap_next s + 1) in
  if qc_rank comm =? peer then Ret s
  else if (if send then sendSeen p else recvSeen p) then Ret s
  else
    peers ← zset peers peer (set_seen send p);
    let s := MkAppend peers (ap_nTasksP2p s) (ap_sendSeen s) (ap_recvSeen s) (ap_connectSend s) (ap_connectRecv s) (ap_preconnect s) (ap_next s) in
    round ← find_round (S (length (qc_p2pSchedule comm))) (qc_p2pSchedule comm) send peer 0;
    let base := ncclP2pChannelBaseForRound (qc_nNodes comm) (qc_maxLocalRanks comm) round in
    for_range 0 (qc_p2pnChannelsPerPeer comm) (mark_channel comm send peer base) s.

(** ** Registered buffers *)

Definition NCCL_DIRECT_NIC : Z := 4.
Definition has_flag (flags f : Z) : bool := negb (Z.land flags f =? 0).

(** The flag, the handle ([old] is kept unless one is written) and the cleanups. *)
Definition ncclRegisterP2pNetBuffer (comm : p2p_comm) (addr size channelId peer : Z) (send : bool) (old : Z) : bool * Z * list Z :=
  let sv := qc_services comm in
  let pm := qc_params comm in
  if sv_netUnpack sv then (false, old, [])
  else
    let '(flag, handle, cleanup) :=
      if qc_persistent comm && pp_graphRegister pm then
        let '(f, h, q) := sv_netGraph sv addr size channelId peer send in if f then (true, h, q) else (false, old, q)
      else (false, old, []) in
    if negb flag && pp_localRegister pm then
      let '(f, h) := sv_netLocal sv addr size channelId peer send in if f then (true, h, cleanup) else (false, handle, cleanup)
    else (flag, handle, cleanup).

(** The flag, the peer's address of the buffer and the cleanups. *)
Definition ncclRegisterP2pIpcBuffer (comm : p2p_comm) (addr size peerRank : Z) : bool * Z * list Z :=
  let sv := qc_services comm in
  let pm := qc_params comm in
  let '(flag, a, off, cleanup) :=
    if qc_persistent comm && pp_graphRegister pm then let '(f, (a, o), q) := sv_ipcGraph sv addr size peerRank in (f, a, o, q) else (false, 0, 0, []) in
  let '(flag, a, off) :=
    if negb flag && pp_localRegister pm then let '(f, (a, o)) := sv_ipcLocal sv addr size peerRank in (f, a, o) else (flag, a, off) in
  (flag, if flag then u64 (a + off) else 0, cleanup).

(** ** One direction of a transfer

    The loops over [dir] in [addP2pToPlan] treat the two directions
    independently; [send] is [dir == 1]. *)

Definition conn_at (comm : p2p_comm) (channelId peer : Z) (send : bool) : outcome p2p_conn :=
  row ← zget (qc_conns comm) channelId;
  c ← zget row peer;
  Ret (if send then snd c else fst c).

Definition is_network (comm : p2p_comm) (c : p2p_conn) : bool :=
  bool_decide (pn_transport c = if pp_passSm (qc_params comm) then TransportPsmNet else TransportNet).

(** [protoLL], [network] and [proxySameProcess]. *)
Record probe := MkProbe { pb_protoLL : bool; pb_network : bool; pb_sameProcess : bool }.

Definition probe_part (comm : p2p_comm) (base peer : Z) (send : bool) (part : Z) (p : probe) : outcome probe :=
  channelId ← ncclP2pChannelForPart (qc_p2pnChannels comm) base part;
  c ← conn_at comm channelId peer send;
  Ret (MkProbe (pb_protoLL p && pn_hasLL c) (pb_network p || is_network comm c) (pb_sameProcess p && pn_sameProcess c)).

Definition probe_dir (comm : p2p_comm) (base nChannelsMax peer : Z) (send selfSend : bool) : outcome probe :=
  let p := MkProbe (negb selfSend) false true in
  if selfSend then Ret p else for_range 0 nChannelsMax (probe_part comm base peer send) p.

(** [protoLL], [protocol], [stepSize], [chunkSize] and [chunkDataSize_u32fp8]. *)
Record dir_chunk := MkDirChunk { dc_protoLL : bool; dc_protocol : Z; dc_stepSize : Z; dc_chunkSize : Z; dc_u32fp8 : Z }.

Definition chunk_dir (comm : p2p_comm) (nChannelsMax bytes : Z) (p : probe) : outcome dir_chunk :=
  let thresholdLL := nChannelsMax * pp_llThreshold (qc_params comm) in
  let param := pp_chunkSize (qc_params comm) in
  let protoLL := if negb (bytes =? -1) then pb_protoLL p && (bytes <=? thresholdLL) else pb_protoLL p in
  let protocol := if protoLL then NCCL_PROTO_LL else NCCL_PROTO_SIMPLE in
  buffSize ← zget (qc_buffSizes comm) protocol;
  let stepSize := if protocol =? NCCL_PROTO_SIMPLE then qc_p2pChunkSize comm else buffSize `quot` NCCL_STEPS in
  chunkSize ← (
    if negb (param =? 0) then Ret (conv int32 param)
    else if pb_network p then
      if (protocol =? NCCL_PROTO_SIMPLE) && (bytes <? stepSize) then Ret (stepSize `quot` 4)
      else lim ← arith int32 (8 * stepSize); Ret (if bytes <? lim then stepSize `quot` 2 else stepSize)
    else Ret stepSize);
  let dataSize := if protocol =? NCCL_PROTO_LL then chunkSize `quot` 2 else chunkSize in
  let code := u32fp8Encode (u32 dataSize) in
  dataSize ← u32fp8Decode code;
  let dataSize := conv int32 dataSize in
  chunkSize ← (if protocol =? NCCL_PROTO_LL then arith int32 (dataSize * 2) else Ret dataSize);
  Ret (MkDirChunk protoLL protocol stepSize chunkSize code).

(** [netRegistered], [handles], [ipcRegistered], the address the work struct
    gets, and the cleanups. *)
Record dir_reg := MkDirReg { dr_net : bool; dr_handles : list Z; dr_ipc : bool; dr_addr : Z; dr_cleanup : list Z }.

(** The loop over the parts, left when one is not registered. *)
Fixpoint register_parts (fuel : nat) (comm : p2p_comm) (base addr bytes peer : Z) (send : bool) (part : Z) (regFlag : bool) (handles : list Z)
    (cleanup : list Z) : outcome (bool * list Z * list Z) :=
  match fuel with
  | O => Ret (regFlag, handles, cleanup)
  | S fuel =>
    channelId ← ncclP2pChannelForPart (qc_p2pnChannels comm) base part;
    c ← conn_at comm channelId peer send;
    old ← zget handles part;
    let '(regFlag, handle, q) :=
      if has_flag (pn_flags c) NCCL_DIRECT_NIC then ncclRegisterP2pNetBuffer comm addr bytes channelId peer send old else (regFlag, old, []) in
    handles ← zset handles part handle;
    if negb regFlag then Ret (regFlag, handles, cleanup ++ q)
    else register_parts fuel comm base addr bytes peer send (part + 1) regFlag handles (cleanup ++ q)
  end.

Definition register_dir (comm : p2p_comm) (base nChannelsMax addr bytes peer : Z) (send selfSend : bool) (p : probe) (protocol : Z) : outcome dir_reg :=
  if pb_network p then
    let pxnUsed := negb (pp_pxnDisable (qc_params comm)) && qc_isAllNvlink comm && (qc_maxLocalRanks comm >? 1) in
    if (bytes >? 0) && pb_sameProcess p && (protocol =? NCCL_PROTO_SIMPLE) && negb pxnUsed then
      '(regFlag, handles, cleanup) ← register_parts (Z.to_nat nChannelsMax) comm base addr bytes peer send 0 false
                                       (replicate (Z.to_nat nChannelsMax) 0) [];
      Ret (MkDirReg regFlag handles false addr cleanup)
    else Ret (MkDirReg false [] false addr [])
  else if (bytes >? 0) && negb (addr =? 0) && (protocol =? NCCL_PROTO_SIMPLE) && negb selfSend then
    channelId ← ncclP2pChannelForPart (qc_p2pnChannels comm) base 0;
    c ← conn_at comm channelId peer send;
    if has_flag (pn_flags c) (Z.lor NCCL_P2P_WRITE NCCL_P2P_READ) then
      let '(regFlag, regAddr, cleanup) := ncclRegisterP2pIpcBuffer comm addr bytes peer in
      let replaced := regFlag && has_flag (pn_flags c) (if send then NCCL_P2P_READ else NCCL_P2P_WRITE) in
      Ret (MkDirReg false [] regFlag (if replaced then regAddr else addr) cleanup)
    else Ret (MkDirReg false [] false addr [])
  else Ret (MkDirReg false [] false addr []).

(** [divUp] on [ssize_t]. *)
Definition sdivUp (x y : Z) : outcome Z := if y =? 0 then Stuck else Ret (divUp x y).

(** [while (partSize > maxPartSize && nChannels <= nChannelsMax/2)]; a count
    doubles at most 31 times. *)
Fixpoint split_parts (fuel : nat) (div : Z -> Z -> outcome Z) (bytes maxPartSize nChannelsMax nChannels partSize : Z) : outcome Z :=
  match fuel with
  | O => Stuck
  | S fuel =>
    if (maxPartSize <? partSize) && (nChannels <=? nChannelsMax `quot` 2) then
      let nChannels := nChannels * 2 in
      partSize ← div bytes nChannels;
      split_parts fuel div bytes maxPartSize nChannelsMax nChannels (u64 partSize)
    else Ret nChannels
  end.

Definition parts_dir (comm : p2p_comm) (nChannelsMin nChannelsMax bytes stepSize : Z) : outcome Z :=
  if bytes =? -1 then Ret 0
  else if bytes =? 0 then Ret 1
  else
    let minPartSize := if qc_nNodes comm >? 1 then stepSize `quot` 2 else stepSize `quot` 8 in
    maxPartSize ← (if qc_nNodes comm >? 1 then Ret stepSize else arith int32 (stepSize * 32));
    n ← sdivUp bytes minPartSize;
    let nChannels := Z.min nChannelsMin (conv int32 n) in
    p ← sdivUp bytes nChannels;
    split_parts 32 sdivUp bytes (u64 maxPartSize) nChannelsMax nChannels (u64 (Z.max minPartSize p)).

(** The same loop as a function of its own on [size_t]; nothing calls it. *)
Definition calcP2pChannelCount (totalSize minChannels maxChannels minSize maxSize : Z) : outcome Z :=
  size ← udivUp totalSize minChannels;
  split_parts 32 udivUp totalSize maxSize maxChannels minChannels (Z.max minSize size).

Record dir_plan := MkDirPlan { dp_probe : probe; dp_chunk : dir_chunk; dp_reg : dir_reg; dp_nChannels : Z }.

Definition plan_dir (comm : p2p_comm) (base nChannelsMin nChannelsMax addr bytes peer : Z) (send selfSend : bool) : outcome dir_plan :=
  p ← probe_dir comm base nChannelsMax peer send selfSend;
  c ← chunk_dir comm nChannelsMax bytes p;
  r ← register_dir comm base nChannelsMax addr bytes peer send selfSend p (dc_protocol c);
  n ← parts_dir comm nChannelsMin nChannelsMax bytes (dc_stepSize c);
  Ret (MkDirPlan p c r n).

(** ** A transfer *)

(** The planner's queues and the plan.  [pt_sched] holds the plan, the channels
    and the proxy; the structs behind the plan's work nodes are in [pt_works]. *)
Record p2p_state := MkP2pState {
  pt_sched : sched; pt_works : list ncclDevWorkP2p; pt_peers : list Peer; pt_nTasksP2p : Z;
  pt_tasks : list ncclTaskP2p; (* plan->p2pTaskQueue *)
  pt_selfCopies : list psmSelfCopy; (* plan->pscTaskQueue *)
  pt_freed : list ncclTaskP2p (* given back to the pool *) }.

Definition with_sched (f : sched -> sched) (s : p2p_state) : p2p_state :=
  MkP2pState (f (pt_sched s)) (pt_works s) (pt_peers s) (pt_nTasksP2p s) (pt_tasks s) (pt_selfCopies s) (pt_freed s).

(** [plan->workQueue], [plan->workBytes] and [plan->cleanupQueue]. *)
Definition push_work (cleanup : list Z) (s : sched) : sched :=
  let p := sd_plan s in
  MkSched (sd_tasks s) (sd_works s) (sd_nTasksColl s) (sd_cleanup s) (sd_channels s)
    (MkCollPlan (pl_channelMask p) (pl_threadPerBlock p) (pl_kernelFn p) (pl_specialized p) (pl_collOpCount p) (pl_nWorkBatches p)
       (pl_workBytes p + sizeof_ncclDevWorkP2p) (pl_tasks p) (pl_works p ++ [MkWorkList ncclDevWorkTypeP2p sizeof_ncclDevWorkP2p None 0])
       (pl_cleanup p ++ cleanup)) (sd_proxy s).

Definition mark_plan (channelId : Z) (s : sched) : sched :=
  let p := sd_plan s in
  MkSched (sd_tasks s) (sd_works s) (sd_nTasksColl s) (sd_cleanup s) (sd_channels s)
    (MkCollPlan (Z.lor (pl_channelMask p) (u64 (Z.shiftl 1 channelId))) (pl_threadPerBlock p) (pl_kernelFn p) (pl_specialized p) (pl_collOpCount p)
       (pl_nWorkBatches p) (pl_workBytes p) (pl_tasks p) (pl_works p) (pl_cleanup p)) (sd_proxy s).

(** The fields of the proxy operation of a direction that all parts share. *)
Definition dir_op (comm : p2p_comm) (peer : Z) (send : bool) (d : dir_plan) (task : option ncclTaskP2p) : ncclProxyOp :=
  let func := match task with Some t => tp_func t | None => ncclFuncBroadcast end in
  let mask := match task with Some t => tp_eActivationMask t | None => 0 end in
  let id := match task with Some t => tp_id t | None => 0 end in
  MkProxyOp 0 0 (MkArgs
    (MkShape 0 0 (dc_chunkSize (dp_chunk d)) 0 0 0 0 1 1)
    (MkKind peer ncclInt8 0 func (if send then ncclPatternSend else ncclPatternRecv) (dc_protocol (dp_chunk d)) 0)
    (MkBuffers (dr_net (dp_reg d)) (dr_ipc (dp_reg d)) 0 0 0 0 false None)
    (MkMeta 0 0 0 id false mask (qc_rank comm) 0 0 0 0 0)).

Definition set_size (nbytes nsteps : Z) (a : proxy_args) : proxy_args :=
  let s := op_sh a in
  MkArgs (MkShape nbytes nsteps (op_chunkSize s) (op_sliceSize s) (op_loopSize s) (op_loopOffset s) (op_channelSize s) (op_sliceSteps s) (op_chunkSteps s))
    (op_kd a) (op_bf a) (op_mt a).
(** [sendbuff] or [recvbuff]. *)
Definition set_buff (send : bool) (addr : Z) (a : proxy_args) : proxy_args :=
  if send then set_buffers addr (op_recvbuff (op_bf a)) a else set_buffers (op_sendbuff (op_bf a)) addr a.
Definition set_mhandle (send : bool) (h : Z) (a : proxy_args) : proxy_args :=
  let b := op_bf a in
  MkArgs (op_sh a) (op_kd a)
    (MkBuffers (op_reg b) (op_regp b) (if send then h else op_sendMhandle b) (if send then op_recvMhandle b else h) (op_sendbuff b) (op_recvbuff b)
       (op_isOneRPN b) (op_ringAlgo b)) (op_mt a).
Definition set_incWorkCounter (a : proxy_args) : proxy_args :=
  let m := op_mt a in
  MkArgs (op_sh a) (op_kd a) (op_bf a)
    (MkMeta (op_sizePerRank m) (op_nNodes m) (op_node m) (op_task m) true (op_eActivationMask m) (op_rank m) (op_peer m) (op_peerRank m)
       (op_workCounter m) (op_ncclFuncTimes m) (op_groupHash m)).
Definition set_telemetry (times hash : Z) (a : proxy_args) : proxy_args :=
  let m := op_mt a in
  MkArgs (op_sh a) (op_kd a) (op_bf a)
    (MkMeta (op_sizePerRank m) (op_nNodes m) (op_node m) (op_task m) (op_incWorkCounter m) (op_eActivationMask m) (op_rank m) (op_peer m)
       (op_peerRank m) (op_workCounter m) times hash).

(** [nbytes] of the LL protocol carries flags beside the data. *)
Definition ll_bytes (protocol nbytes : Z) : Z := if protocol =? NCCL_PROTO_LL then roundUp (nbytes * 2) 16 else nbytes.

(** The steps and bytes of one part; [addr], [bytes] and [nParts] are the work
    struct's. *)
Definition part_args (comm : p2p_comm) (send : bool) (nParts addr bytes code : Z) (handles : list Z) (part : Z) (a : proxy_args) : outcome proxy_args :=
  let a := set_buffers (op_sendbuff (op_bf a)) 0 a in
  if nParts <=? part then Ret (set_nsteps 0 a)
  else if bytes =? 0 then Ret (set_size 0 1 a)
  else
    chunkDataSize ← u32fp8Decode code;
    let '(partBeg, partEnd) := ncclP2pPartBounds nParts part bytes in
    let len := u64 (partEnd - partBeg) in
    a ← (if op_reg (op_bf a) then
           h ← zget handles part;
           Ret (set_size len (conv int32 (DIVUP len NCCL_MAX_NET_SIZE)) (set_mhandle send h (set_buff send (addr + partBeg) a)))
         else
           steps ← udivUp len chunkDataSize;
           if pp_passSm (qc_params comm) then Ret (set_size len (conv int32 steps) (set_buff send (addr + partBeg) a))
           else Ret (set_size (Z.min len chunkDataSize) (conv int32 steps) a));
    Ret (set_size (ll_bytes (op_protocol (op_kd a)) (op_nbytes (op_sh a))) (op_nsteps (op_sh a)) a).

(** One direction of one part: its operation with the counter's owner so far. *)
Definition add_part_dir (comm : p2p_comm) (channelId part : Z) (send : bool) (nParts addr bytes code times hash : Z) (handles : list Z)
    (st : ncclProxyOp * bool * sched) : outcome (ncclProxyOp * bool * sched) :=
  let '(op, counted, s) := st in
  a ← part_args comm send nParts addr bytes code handles part (op_payload op);
  if op_nsteps (op_sh a) =? 0 then Ret (MkProxyOp (opCount op) (op_channelId op) a, counted, s)
  else
    let a := if counted then a else set_incWorkCounter a in
    chan ← zget (sd_channels s) channelId;
    let op := MkProxyOp (Z.lor (u64 (Z.shiftl (nWorkBatchesP2p chan) 1)) 1) channelId (set_telemetry times hash a) in
    '(op, s) ← addProxyOpIfNeeded (qc_sched comm) op s;
    '(op, s) ← addProfilerProxyOpIfNeeded (qc_sched comm) op s;
    Ret (op, true, s).

(** One iteration of the loop over the parts. *)
Definition add_part (comm : p2p_comm) (base p2pRound workOffset : Z) (selfSend : bool) (w : ncclDevWorkP2p) (recv send : dir_plan) (times hashes : Z * Z)
    (part : Z) (st : ncclProxyOp * ncclProxyOp * sched) : outcome (ncclProxyOp * ncclProxyOp * sched) :=
  let '(opR, opS, s) := st in
  channelId ← ncclP2pChannelForPart (qc_p2pnChannels comm) base part;
  s ← add_batch (mark_plan channelId s) channelId ncclDevWorkTypeP2p (qc_funcId comm) workOffset p2pRound;
  if selfSend then Ret (opR, opS, s)
  else
    '(opR, counted, s) ← add_part_dir comm channelId part false (dw_nRecvChannels w) (dw_recvAddr w) (dw_recvBytes w) (dw_recvChunkSize_u32fp8 w)
                           (fst times) (fst hashes) (dr_handles (dp_reg recv)) (opR, false, s);
    '(opS, _, s) ← add_part_dir comm channelId part true (dw_nSendChannels w) (dw_sendAddr w) (dw_sendBytes w) (dw_sendChunkSize_u32fp8 w)
                     (snd times) (snd hashes) (dr_handles (dp_reg send)) (opS, counted, s);
    Ret (opR, opS, s).

Definition bytes_of (t : option ncclTaskP2p) : Z := match t with Some t => conv int64 (tp_bytes t) | None => -1 end.
Definition buff_of (t : option ncclTaskP2p) : Z := match t with Some t => tp_buff t | None => 0 end.
Definition times_of (t : option ncclTaskP2p) : Z := match t with Some t => tp_ncclFuncTimes t | None => 0 end.
Definition hash_of (t : option ncclTaskP2p) : Z := match t with Some t => tp_groupHash t | None => 0 end.

Definition dev_work (comm : p2p_comm) (base sendRank recvRank sendBytes recvBytes : Z) (recv send : dir_plan) (first : option ncclTaskP2p) : ncclDevWorkP2p :=
  MkDevWorkP2p (dr_addr (dp_reg send)) (dr_addr (dp_reg recv)) (if sendBytes =? -1 then 0 else u64 sendBytes) (if recvBytes =? -1 then 0 else u64 recvBytes)
    sendRank recvRank (u8 (qc_p2pnChannels comm)) base (u8 (dp_nChannels send)) (u8 (dp_nChannels recv)) (dc_u32fp8 (dp_chunk send)) (dc_u32fp8 (dp_chunk recv))
    (dc_protoLL (dp_chunk send)) (dc_protoLL (dp_chunk recv)) (dr_net (dp_reg send)) (dr_net (dp_reg recv)) (dr_ipc (dp_reg send)) (dr_ipc (dp_reg recv))
    (pp_profilerLoaded (qc_params comm) &&
       has_flag (match first with Some t => tp_eActivationMask t | None => 0 end) (pp_profileKernelCh (qc_params comm))).

Definition addP2pToPlan (comm : p2p_comm) (nChannelsMin nChannelsMax p2pRound sendRank recvRank : Z) (send recv : option ncclTaskP2p) (s : p2p_state)
    : outcome p2p_state :=
  let selfSend := sendRank =? qc_rank comm in
  let base := ncclP2pChannelBaseForRound (qc_nNodes comm) (qc_maxLocalRanks comm) p2pRound in
  dR ← plan_dir comm base nChannelsMin nChannelsMax (buff_of recv) (bytes_of recv) recvRank false selfSend;
  dS ← plan_dir comm base nChannelsMin nChannelsMax (buff_of send) (bytes_of send) sendRank true selfSend;
  let workOffset := u32 (pl_workBytes (sd_plan (pt_sched s))) in
  let w := dev_work comm base sendRank recvRank (bytes_of send) (bytes_of recv) dR dS (if recv then recv else send) in
  let sc := push_work (dr_cleanup (dp_reg dR) ++ dr_cleanup (dp_reg dS)) (pt_sched s) in
  '(_, _, sc) ← for_range 0 (Z.max (dp_nChannels dR) (dp_nChannels dS))
                  (add_part comm base p2pRound workOffset selfSend w dR dS (times_of recv, times_of send) (hash_of recv, hash_of send))
                  (dir_op comm recvRank false dR recv, dir_op comm sendRank true dS send, sc);
  Ret (MkP2pState sc (pt_works s ++ [w]) (pt_peers s) (pt_nTasksP2p s) (pt_tasks s) (pt_selfCopies s) (pt_freed s)).

(** ** The rounds *)

Definition pop_send (p : Peer) : Peer := MkPeer (sendSeen p) (recvSeen p) (tail (sendQueue p)) (recvQueue p).
Definition pop_recv (p : Peer) : Peer := MkPeer (sendSeen p) (recvSeen p) (sendQueue p) (tail (recvQueue p)).
Definition update_peer (f : Peer -> Peer) (peer : Z) (s : p2p_state) : outcome p2p_state :=
  p ← zget (pt_peers s) peer;
  peers ← zset (pt_peers s) peer (f p);
  Ret (MkP2pState (pt_sched s) (pt_works s) peers (pt_nTasksP2p s) (pt_tasks s) (pt_selfCopies s) (pt_freed s)).

(** The plan takes over the head of a queue. *)
Definition take_task (f : Peer -> Peer) (peer : Z) (t : option ncclTaskP2p) (s : p2p_state) : outcome p2p_state :=
  match t with
  | None => Ret s
  | Some t =>
    s ← update_peer f peer s;
    Ret (MkP2pState (pt_sched s) (pt_works s) (pt_peers s) (pt_nTasksP2p s - 1) (pt_tasks s ++ [t]) (pt_selfCopies s) (pt_freed s))
  end.

(** One round; [None]: the budget is used up and the function returns. *)
Definition p2p_round (comm : p2p_comm) (budget : ncclKernelPlanBudget) (nChannelsMin nChannelsMax round : Z) (s : p2p_state)
    : outcome (option p2p_state) :=
  pr ← zget (qc_p2pSchedule comm) round;
  let sendRank := sendRank pr in
  let recvRank := recvRank pr in
  pS ← zget (pt_peers s) sendRank;
  pR ← zget (pt_peers s) recvRank;
  let send := head (sendQueue pS) in
  let recv := head (recvQueue pR) in
  let self := sendRank =? qc_rank comm in
  if bool_decide (send = None) && bool_decide (recv = None) then Ret (Some s)
  else if self && (bool_decide (send = None) || bool_decide (recv = None)) then Fail ncclInvalidUsage
  else if self && (buff_of send =? buff_of recv) then
    s ← update_peer pop_send sendRank s;
    s ← update_peer pop_recv recvRank s;
    Ret (Some (MkP2pState (pt_sched s) (pt_works s) (pt_peers s) (pt_nTasksP2p s - 2) (pt_tasks s) (pt_selfCopies s)
                 (pt_freed s ++ option_list send ++ option_list recv)))
  else if negb (testBudget budget (pl_nWorkBatches (sd_plan (pt_sched s)) + nChannelsMax) (pl_workBytes (sd_plan (pt_sched s)) + sizeof_ncclDevWorkP2p))
  then Ret None
  else
    let copies := if pp_passSm (qc_params comm) && self then [MkSelfCopy (buff_of recv) (buff_of send) (match send with Some t => tp_bytes t | None => 0 end)] else [] in
    let s := MkP2pState (pt_sched s) (pt_works s) (pt_peers s) (pt_nTasksP2p s) (pt_tasks s) (pt_selfCopies s ++ copies) (pt_freed s) in
    s ← addP2pToPlan comm nChannelsMin nChannelsMax round sendRank recvRank send recv s;
    s ← take_task pop_send sendRank send s;
    s ← take_task pop_recv recvRank recv s;
    Ret (Some s).

(** A result and whether the function returned early. *)
Fixpoint p2p_rounds (n : nat) (comm : p2p_comm) (budget : ncclKernelPlanBudget) (nChannelsMin nChannelsMax round : Z) (s : p2p_state)
    : outcome (bool * p2p_state) :=
  match n with
  | O => Ret (false, s)
  | S n =>
    r ← p2p_round comm budget nChannelsMin nChannelsMax round s;
    match r with
    | None => Ret (true, s)
    | Some s => p2p_rounds n comm budget nChannelsMin nChannelsMax (round + 1) s
    end
  end.

(** [while (comm->planner.nTasksP2p != 0)] *)
Fixpoint p2p_passes (fuel : nat) (comm : p2p_comm) (budget : ncclKernelPlanBudget) (nChannelsMin nChannelsMax : Z) (s : p2p_state) : outcome p2p_state :=
  if pt_nTasksP2p s =? 0 then Ret s
  else match fuel with
  | O => Stuck
  | S fuel =>
    '(stop, s) ← p2p_rounds (Z.to_nat (qc_nRanks comm)) comm budget nChannelsMin nChannelsMax 0 s;
    if stop : bool then Ret s else p2p_passes fuel comm budget nChannelsMin nChannelsMax s
  end.

(** [while (nChannelsMin*nRanks > comm->p2pnChannels && nChannelsMin > 1) nChannelsMin /= 2;] *)
Fixpoint fit_channels (fuel : nat) (nRanks p2pnChannels nChannelsMin : Z) : outcome Z :=
  prod ← arith int32 (nChannelsMin * nRanks);
  if (p2pnChannels <? prod) && (1 <? nChannelsMin) then
    match fuel with O => Stuck | S fuel => fit_channels fuel nRanks p2pnChannels (nChannelsMin `quot` 2) end
  else Ret nChannelsMin.

Definition use_kernel (comm : p2p_comm) (s : sched) : sched :=
  let p := sd_plan s in
  MkSched (sd_tasks s) (sd_works s) (sd_nTasksColl s) (sd_cleanup s) (sd_channels s)
    (MkCollPlan (pl_channelMask p) (Z.max (pl_threadPerBlock p) NCCL_MAX_NTHREADS)
       (if pl_specialized p then pl_kernelFn p else qc_funcId comm)
       (if pl_specialized p then true else sc_specialized (qc_sched comm) (qc_funcId comm))
       (pl_collOpCount p) (pl_nWorkBatches p) (pl_workBytes p) (pl_tasks p) (pl_works p) (pl_cleanup p)) (sd_proxy s).

(** [fuel] bounds the passes over all rounds. *)
Definition scheduleP2pTasksToPlan (fuel : nat) (comm : p2p_comm) (budget : ncclKernelPlanBudget) (s : p2p_state) : outcome p2p_state :=
  let s := with_sched (use_kernel comm) s in
  nChannelsMin ← fit_channels 32 (qc_nRanks comm) (qc_p2pnChannels comm) (qc_p2pnChannelsPerPeer comm);
  p2p_passes fuel comm budget nChannelsMin (qc_p2pnChannelsPerPeer comm) s.
