(* ===== verification/P2pPlan.v ===== *)
(** * The plan built from point-to-point tasks

    Proofs about [scheduleP2pTasksToPlan] of P2pSched.v: which tasks it takes,
    in which order, on which channels, and that both ends of a transfer make the
    same choices. *)
From S2P Require Import Prelude Bitops Device RingAlgo Pat ProxyOp Chunking Proxy Plan FinishPlan CollSched CollPlan P2pRounds P2pSched.

(** ** Communicators that are set up *)

(** The schedule visits every rank once in each direction, and the rank itself in
    one round for both. *)
Record schedule_ok (rank nRanks : Z) (sched : list P2pSchedulePair) : Prop := {
  so_sends : sendRank <$> sched ≡ₚ seqZ 0 nRanks;
  so_recvs : recvRank <$> sched ≡ₚ seqZ 0 nRanks;
  so_self p : p ∈ sched -> sendRank p = rank <-> recvRank p = rank }.

(** [2^k] channels; sizes such that no [int] overflows; connector 1 of every
    peer is set up in both directions. *)
Record p2p_wf (comm : p2p_comm) (k : Z) : Prop := {
  pw_k : 0 <= k <= 6;
  pw_channels : qc_p2pnChannels comm = 2 ^ k;
  pw_perPeer : 1 <= qc_p2pnChannelsPerPeer comm <= 2 ^ k;
  pw_nRanks : 0 < qc_nRanks comm <= 2 ^ 24;
  pw_rank : 0 <= qc_rank comm < qc_nRanks comm;
  pw_schedule : schedule_ok (qc_rank comm) (qc_nRanks comm) (qc_p2pSchedule comm);
  pw_conns : length (qc_conns comm) = 64%nat;
  pw_row row : row ∈ qc_conns comm -> length row = Z.to_nat (qc_nRanks comm);
  pw_buffSizes : exists ll ll128 simple, qc_buffSizes comm = [ll; ll128; simple] /\ 2 ^ 16 <= ll < 2 ^ 28;
  pw_chunk : 2 ^ 13 <= qc_p2pChunkSize comm < 2 ^ 26;
  pw_param : pp_chunkSize (qc_params comm) = 0 \/ 4 <= pp_chunkSize (qc_params comm) < 2 ^ 31;
  pw_func : 0 <= qc_funcId comm < 2 ^ 15;
  pw_pxRank : px_rank (sc_proxy (qc_sched comm)) = qc_rank comm;
  pw_px : length (px_channels (sc_proxy (qc_sched comm))) = 64%nat /\ length (px_profSend (sc_proxy (qc_sched comm))) = 64%nat /\
    length (px_profRecv (sc_proxy (qc_sched comm))) = 64%nat;
  pw_transport ch send peer : ch ∈ px_channels (sc_proxy (qc_sched comm)) -> 0 <= peer < qc_nRanks comm -> peer <> qc_rank comm ->
    has_transport ch (send, peer, 1) }.

(** A queued task: its size fits 40 bits. *)
Definition p2p_task_ok (t : ncclTaskP2p) : Prop := 0 <= tp_bytes t < 2 ^ 40.
Definition bytes_ok (bytes : Z) : Prop := -1 <= bytes < 2 ^ 40.

Lemma bytes_of_ok t : (forall x, t = Some x -> p2p_task_ok x) -> bytes_ok (bytes_of t).
Proof.
  intros H. destruct t as [x|]; [|by split]. specialize (H x eq_refl). unfold p2p_task_ok in H. unfold bytes_ok, bytes_of, conv. cbn [ity_signed int64 ity_width].
  change (2 ^ (64 - 1)) with (2 ^ 63). rewrite Z.mod_small; [|change (2 ^ 64) with (2 * 2 ^ 63); change (2 ^ 63) with (2 ^ 23 * 2 ^ 40); lia]. lia.
Qed.

(** ** The number of parts *)

Lemma split_parts_spec div bytes maxPart nMax : (forall n, 0 < n -> exists q, div bytes n = Ret q) -> forall fuel n p,
  1 <= n <= nMax -> nMax < n * 2 ^ Z.of_nat fuel -> wp (split_parts fuel div bytes maxPart nMax n p) (fun m => n <= m <= nMax).
Proof.
  intros Hdiv. induction fuel as [|fuel IH]; intros n p Hn Hf; [simpl in Hf; lia|]. cbn [split_parts].
  destruct (maxPart <? p); cbn [andb]; [|simpl; lia]. destruct (Z.leb_spec n (nMax `quot` 2)) as [Hle|]; [|simpl; lia].
  rewrite quot_div_nonneg in Hle by lia. destruct (Hdiv (n * 2) ltac:(lia)) as [q ->]. cbn [mbind outcome_bind].
  eapply wpx_mono; [apply IH; [dlia|]|simpl; lia|done]. rewrite Nat2Z.inj_succ, Z.pow_succ_r in Hf by lia. nia.
Qed.

Lemma sdivUp_Ret x y : 0 < y -> sdivUp x y = Ret (divUp x y).
Proof. intros. unfold sdivUp. by rewrite (proj2 (Z.eqb_neq y 0)) by lia. Qed.
Lemma sdivUp_total x y : 0 < y -> exists q, sdivUp x y = Ret q.
Proof. intros. rewrite sdivUp_Ret by done. by eexists. Qed.

Lemma parts_dir_spec comm nMin nMax bytes step : 1 <= nMin <= nMax -> nMax <= 64 -> bytes_ok bytes -> 2 ^ 13 <= step < 2 ^ 26 ->
  wp (parts_dir comm nMin nMax bytes step) (fun n => 0 <= n <= nMax /\ (bytes = -1 <-> n = 0)).
Proof.
  intros Hm Hx [Hb1 Hb2] Hs. unfold parts_dir. destruct (Z.eqb_spec bytes (-1)); [simpl; lia|]. destruct (Z.eqb_spec bytes 0); [simpl; lia|].
  set (minp := if qc_nNodes comm >? 1 then _ else _). assert (2 ^ 10 <= minp < 2 ^ 26) as Hmin by (unfold minp; destruct (_ >? _); rewrite quot_div_nonneg by lia; dlia).
  assert (exists m, (if qc_nNodes comm >? 1 then Ret step else arith int32 (step * 32)) = Ret m) as [m ->].
  { destruct (_ >? _); [by eexists|]. rewrite arith_in_range; [by eexists|]. unfold in_range. cbn [ity_signed int32 ity_width].
    change (2 ^ (32 - 1)) with (2 ^ 26 * 32). lia. }
  cbn [mbind outcome_bind]. rewrite (sdivUp_Ret bytes minp) by lia. cbn [mbind outcome_bind].
  pose proof (divUp_spec bytes minp ltac:(lia) ltac:(lia)) as Hd.
  set (start := Z.min nMin (conv int32 (divUp bytes minp))).
  assert (conv int32 (divUp bytes minp) = divUp bytes minp /\ 1 <= divUp bytes minp) as [Hc Hpos].
  { split; [|nia]. apply conv_int32_small. change (2 ^ 40) with (2 ^ 30 * 2 ^ 10) in *. change (2 ^ 31) with (2 * 2 ^ 30). nia. }
  assert (1 <= start <= nMax) as Hstart by (unfold start; lia). destruct (sdivUp_total bytes start ltac:(lia)) as [q ->]. cbn [mbind outcome_bind].
  eapply wpx_mono; [apply split_parts_spec; [intros; by apply sdivUp_total|done|change (2 ^ Z.of_nat 32) with 4294967296; nia]| |done]. simpl. lia.
Qed.

(** ** The chunk size *)

Lemma fp8_floor_pos x : 0 < x < 2 ^ 32 -> u32fp8Decode (u32fp8Encode x) = Ret (u32fp8_floor x) /\ 0 < u32fp8_floor x <= x.
Proof.
  intros Hx. split; [apply u32fp8_decode_encode; lia|]. unfold u32fp8_floor. destruct (Z.ltb_spec x 8); [lia|].
  pose proof (pow2_pos (Z.log2 x - 3)). assert (3 <= Z.log2 x) by (change 3 with (Z.log2 8); by apply Z.log2_le_mono).
  pose proof (Z.log2_spec x ltac:(lia)) as [Hlo _].
  assert (2 ^ (Z.log2 x - 3) <= x) by (etransitivity; [|exact Hlo]; apply Z.pow_le_mono_r; lia). split; [|dnia].
  apply Z.mul_pos_pos; [apply Z.div_str_pos; lia|lia].
Qed.

Record chunk_ok (c : dir_chunk) : Prop := {
  co_step : 2 ^ 13 <= dc_stepSize c < 2 ^ 26;
  co_proto : dc_protocol c = if dc_protoLL c then NCCL_PROTO_LL else NCCL_PROTO_SIMPLE;
  co_decode : exists x, u32fp8Decode (dc_u32fp8 c) = Ret x /\ 0 < x < 2 ^ 31 /\ dc_chunkSize c = (if dc_protoLL c then 2 * x else x) }.

Lemma chunk_dir_spec comm k nMax bytes p : p2p_wf comm k -> bytes_ok bytes -> wp (chunk_dir comm nMax bytes p) chunk_ok.
Proof.
  intros Hwf Hb. destruct (pw_buffSizes _ _ Hwf) as (ll & ll128 & simple & Hbs & Hll). pose proof (pw_chunk _ _ Hwf) as Hch. pose proof (pw_param _ _ Hwf) as Hpar.
  unfold chunk_dir. cbv zeta. set (L := if negb (bytes =? -1) then _ else _). set (proto := if L then NCCL_PROTO_LL else NCCL_PROTO_SIMPLE).
  assert (exists b, zget (qc_buffSizes comm) proto = Ret b /\ (L = true -> b = ll)) as (b & -> & Hbl).
  { rewrite Hbs. unfold proto. destruct L; eexists; split; done. }
  cbn [mbind outcome_bind]. set (step := if proto =? NCCL_PROTO_SIMPLE then _ else _). set (isLL := proto =? NCCL_PROTO_LL).
  assert (isLL = L) as HL by (unfold isLL, proto; by destruct L). assert (2 ^ 13 <= step < 2 ^ 26) as Hstep.
  { unfold step, proto. destruct L; [|done]. rewrite (Hbl eq_refl). change (NCCL_PROTO_LL =? NCCL_PROTO_SIMPLE) with false. cbn [negb]. change NCCL_STEPS with 8.
    rewrite quot_div_nonneg by lia. change (2 ^ 28) with (2 ^ 26 * 4) in Hll. change (2 ^ 16) with (2 ^ 13 * 8) in Hll. dlia. }
  clearbody step. wp_bind. apply wpx_mono with (fun x => 4 <= x < 2 ^ 31) (fun _ => False); [| |done].
  { destruct (Z.eqb_spec (pp_chunkSize (qc_params comm)) 0) as [E|E]; cbn [negb]; [|simpl; destruct Hpar; [done|]; rewrite conv_int32_small; lia].
    destruct (pb_network p); [|simpl; lia]. destruct ((proto =? NCCL_PROTO_SIMPLE) && _); [cbn [wpx]; rewrite quot_div_nonneg by lia; dlia|]. rewrite arith_in_range.
    - cbn [mbind outcome_bind wpx]. destruct (bytes <? _); [rewrite quot_div_nonneg by lia; dlia|lia].
    - unfold in_range. cbn [ity_signed int32 ity_width]. change (2 ^ (32 - 1)) with (2 ^ 26 * 32). lia. }
  intros cs Hcs. rewrite HL. set (ds := if L then cs `quot` 2 else cs). assert (0 < ds < 2 ^ 31 /\ (L = true -> ds < 2 ^ 30)) as [Hds HdL].
  { unfold ds. destruct L; [rewrite quot_div_nonneg by lia; change (2 ^ 31) with (2 * 2 ^ 30) in *; split; [dlia|intros _; dlia]|split; [lia|done]]. }
  rewrite u32_small by lia. destruct (fp8_floor_pos ds ltac:(lia)) as [Hdec Hfl]. rewrite Hdec. cbn [mbind outcome_bind]. rewrite conv_int32_small by lia.
  wp_bind. apply wpx_mono with (fun x => x = if L then 2 * u32fp8_floor ds else u32fp8_floor ds) (fun _ => False); [| |done].
  { destruct L; [|done]. rewrite arith_in_range; [simpl; lia|]. unfold in_range. cbn [ity_signed int32 ity_width]. specialize (HdL eq_refl).
    change (2 ^ (32 - 1)) with (2 ^ 30 * 2). lia. }
  intros x ->. constructor; cbn [dc_stepSize dc_protocol dc_protoLL dc_u32fp8 dc_chunkSize]; [done|done|]. exists (u32fp8_floor ds). split; [done|]. split; [lia|done].
Qed.

(** ** The channels of a transfer *)

Definition channel_at (comm : p2p_comm) (base part : Z) : Z :=
  match ncclP2pChannelForPart (qc_p2pnChannels comm) base part with Ret c => c | _ => 0 end.

Section Wf.
  Context (comm : p2p_comm) (k : Z) (Hwf : p2p_wf comm k).

Lemma pow2k_le : 0 < 2 ^ k <= 64.
Proof using Hwf. destruct (pw_k _ _ Hwf). split; [apply pow2_pos; lia|]. change 64 with (2 ^ 6). apply Z.pow_le_mono_r; lia. Qed.

Lemma channel_at_spec base part : 0 <= base -> 0 <= part < 2 ^ k ->
  ncclP2pChannelForPart (qc_p2pnChannels comm) base part = Ret (channel_at comm base part) /\ 0 <= channel_at comm base part < 2 ^ k /\
  ncclP2pChannelToPart (qc_p2pnChannels comm) base (channel_at comm base part) = Ret part.
Proof using Hwf.
  intros Hb Hp. destruct (pw_k _ _ Hwf). unfold channel_at. rewrite (pw_channels _ _ Hwf).
  destruct (channel_of_part k base part ltac:(lia) Hb Hp) as (c & -> & Hc & Ht). done.
Qed.

Lemma channel_at_inj base i j : 0 <= base -> 0 <= i < 2 ^ k -> 0 <= j < 2 ^ k -> channel_at comm base i = channel_at comm base j -> i = j.
Proof using Hwf.
  intros Hb Hi Hj E. destruct (channel_at_spec base i Hb Hi) as (_ & _ & H1). destruct (channel_at_spec base j Hb Hj) as (_ & _ & H2). congruence.
Qed.

Lemma conn_at_total c peer send : 0 <= c < 64 -> 0 <= peer < qc_nRanks comm -> exists x, conn_at comm c peer send = Ret x.
Proof using Hwf.
  intros Hc Hp. unfold conn_at. destruct (zget_in_bounds (qc_conns comm) c) as (row & -> & Hrow); [rewrite (pw_conns _ _ Hwf); lia|].
  cbn [mbind outcome_bind]. pose proof (pw_row _ _ Hwf row (list_elem_of_lookup_2 _ _ _ Hrow)) as Hl.
  destruct (zget_in_bounds row peer) as (x & -> & _); [lia|]. by eexists.
Qed.

Section Dir.
  Context (base nMin nMax peer : Z) (Hbase : 0 <= base) (HnMax : 1 <= nMin <= nMax) (HnMax2 : nMax <= 2 ^ k) (Hpeer : 0 <= peer < qc_nRanks comm).

Lemma probe_dir_total send self : exists p, probe_dir comm base nMax peer send self = Ret p.
Proof using Hwf Hbase HnMax HnMax2 Hpeer.
  unfold probe_dir. destruct self; [by eexists|]. pose proof pow2k_le.
  destruct (wp_elim (for_range 0 nMax (probe_part comm base peer send) (MkProbe (negb false) false true)) (fun _ => True)) as (p & -> & _); [|by eexists].
  eapply (wpx_for (fun _ _ => True)); [lia|done| |done]. intros i p Hi _. unfold probe_part.
  destruct (channel_at_spec base i Hbase ltac:(lia)) as (-> & Hc & _). cbn [mbind outcome_bind].
  destruct (conn_at_total (channel_at comm base i) peer send ltac:(lia) Hpeer) as [x ->]. done.
Qed.

Lemma register_parts_spec addr bytes send fuel : forall part regFlag handles cleanup, 0 <= part -> part + Z.of_nat fuel = nMax -> length handles = Z.to_nat nMax ->
  wp (register_parts fuel comm base addr bytes peer send part regFlag handles cleanup) (fun r => length r.1.2 = Z.to_nat nMax).
Proof using Hwf Hbase HnMax2 Hpeer.
  clear HnMax. pose proof pow2k_le. induction fuel as [|fuel IH]; intros part regFlag handles cleanup Hp Hn Hl; [done|]. cbn [register_parts].
  destruct (channel_at_spec base part Hbase ltac:(lia)) as (-> & Hc & _). cbn [mbind outcome_bind].
  destruct (conn_at_total (channel_at comm base part) peer send ltac:(lia) Hpeer) as [x ->]. cbn [mbind outcome_bind].
  destruct (zget_in_bounds handles part) as (old & -> & _); [lia|]. cbn [mbind outcome_bind].
  set (r := if has_flag _ _ then _ else _). destruct r as [[f h] q]. rewrite zset_Ret by lia. cbn [mbind outcome_bind].
  destruct f; cbn [negb]; [apply IH; [lia|lia|by rewrite length_insert]|]. simpl. by rewrite length_insert.
Qed.

Lemma register_dir_spec addr bytes send self p proto : wp (register_dir comm base nMax addr bytes peer send self p proto) (fun r =>
  dr_net r = true -> length (dr_handles r) = Z.to_nat nMax).
Proof using Hwf Hbase HnMax HnMax2 Hpeer.
  pose proof pow2k_le. unfold register_dir. destruct (pb_network p).
  - destruct (_ && _); [|done]. wp_bind. eapply wpx_mono; [apply register_parts_spec; [lia|lia|by rewrite length_replicate]| |done]. intros [[f h] q] Hl _. exact Hl.
  - destruct (_ && _); [|done]. destruct (channel_at_spec base 0 Hbase ltac:(lia)) as (-> & Hc & _). cbn [mbind outcome_bind].
    destruct (conn_at_total (channel_at comm base 0) peer send ltac:(lia) Hpeer) as [x ->]. cbn [mbind outcome_bind].
    destruct (has_flag _ _); [|done]. destruct (ncclRegisterP2pIpcBuffer _ _ _ _) as [[f a] q]. done.
Qed.

(** What holds of one direction. *)
Record dir_ok (bytes : Z) (d : dir_plan) : Prop := {
  do_chunk : chunk_ok (dp_chunk d);
  do_handles : dr_net (dp_reg d) = true -> length (dr_handles (dp_reg d)) = Z.to_nat nMax;
  do_parts : 0 <= dp_nChannels d <= nMax;
  do_none : bytes = -1 <-> dp_nChannels d = 0 }.

Lemma plan_dir_spec addr bytes send self : bytes_ok bytes -> wp (plan_dir comm base nMin nMax addr bytes peer send self) (dir_ok bytes).
Proof using Hwf Hbase HnMax HnMax2 Hpeer.
  intros Hb. pose proof pow2k_le. unfold plan_dir. destruct (probe_dir_total send self) as [p ->]. cbn [mbind outcome_bind].
  wp_bind. eapply wpx_mono; [by eapply chunk_dir_spec| |done]. intros c Hc. wp_bind. eapply wpx_mono; [apply register_dir_spec| |done]. intros r Hr.
  wp_bind. eapply wpx_mono; [apply parts_dir_spec; [done|lia|done|apply Hc]| |done]. intros n [Hn1 Hn2]. by split.
Qed.
End Dir.
End Wf.

(** ** Operation counts of point-to-point batches *)

Lemma addWorkBatch_count ch n wt fn off r :
  ensures (addWorkBatchToPlan ch n wt fn off r) (fun x => nWorkBatchesP2p ch <= nWorkBatchesP2p x.1 <= nWorkBatchesP2p ch + 1).
Proof.
  intros x. unfold addWorkBatchToPlan. destruct (needs_newBatch ch wt fn r) as [nb| |]; [|done|done]. cbn [mbind outcome_bind].
  set (off' := if nb then 0 else _). set (ext := (63 * ncclDevWorkSize wt <? off') || _).
  destruct (nb || ext), nb, (decide (wt = ncclDevWorkTypeP2p)); cbn [wip_workBytes wip_nP2ps wip_p2pRounds workBatchQueue proxyOpQueue nWorkBatchesP2p];
    try (destruct (zset _ _ _) as [r'| |]; [|done|done]); cbn [mbind outcome_bind]; intros [= <-]; cbn [fst nWorkBatchesP2p]; lia.
Qed.

(** [nWorkBatchesP2p] of a channel with given works. *)
Definition nb_of (ws : list work) : Z := match add_works empty_channel 0 ws with Ret (ch, _) => nWorkBatchesP2p ch | _ => 0 end.

Lemma nb_of_snoc ws w : (exists r, add_works empty_channel 0 (ws ++ [w]) = Ret r) -> nb_of ws <= nb_of (ws ++ [w]) <= nb_of ws + 1.
Proof.
  unfold nb_of. rewrite add_works_snoc. destruct (add_works empty_channel 0 ws) as [[ch n]| |]; [|by intros [? ?]|by intros [? ?]]. cbn [mbind outcome_bind].
  intros [[ch' n'] E]. rewrite E. by apply (addWorkBatch_count _ _ _ _ _ _ _ E).
Qed.

Lemma sorted_offsets_length (l : list Z) b : StronglySorted Z.lt l -> Forall (fun x => 0 <= x < b) l -> Z.of_nat (length l) <= Z.max 0 b.
Proof.
  intros Hs Hf. assert (length l <= length (seqZ 0 b))%nat as H; [|rewrite length_seqZ in H; lia]. apply submseteq_length, NoDup_submseteq.
  - induction Hs as [|x l Hs IH Hx]; constructor; [|apply IH; by inversion Hf]. intros Hin. rewrite List.Forall_forall in Hx.
    specialize (Hx x (proj1 (list_elem_of_In _ _) Hin)). lia.
  - intros x Hx. rewrite Forall_forall in Hf. apply elem_of_seqZ. specialize (Hf x Hx). lia.
Qed.

Lemma add_works_prefix ws w r : add_works empty_channel 0 (ws ++ [w]) = Ret r -> exists r', add_works empty_channel 0 ws = Ret r'.
Proof. rewrite add_works_snoc. destruct (add_works empty_channel 0 ws) as [x| |]; [by eexists|done|done]. Qed.

Lemma nb_of_range ws r : add_works empty_channel 0 ws = Ret r -> 0 <= nb_of ws <= Z.of_nat (length ws).
Proof.
  revert r. induction ws as [|w ws IH] using rev_ind; intros r Hr; [vm_compute; split; congruence|].
  destruct (add_works_prefix _ _ _ Hr) as [r' Hr']. specialize (IH _ Hr'). pose proof (nb_of_snoc ws w (ex_intro _ r Hr)). rewrite length_app. simpl. lia.
Qed.

(** [opCount] of the operations of a batch. *)
Definition p2p_id (n : Z) : Z := Z.lor (u64 (Z.shiftl n 1)) 1.
Definition p2p_key (ws : Z -> list work) (c : Z) : Z := rot_id (p2p_id (nb_of (ws c))).

Lemma p2p_id_key n : 0 <= n < 2 ^ 62 -> rot_id (p2p_id n) = n + 2 ^ 63.
Proof.
  intros Hn. unfold p2p_id. rewrite Z.shiftl_mul_pow2, Z.pow_1_r, usmall by lia. assert (Z.lor (n * 2) 1 = 2 * n + 1) as -> by (destruct n; [done| |lia]; by rewrite Z.mul_comm).
  rewrite rot_id_eq by lia. replace ((2 * n + 1) / 2) with n by dlia. replace ((2 * n + 1) mod 2) with 1 by dlia. lia.
Qed.

(** The state of a plan with point-to-point works. *)
Abbreviation p2p_inv s ws bnd R := (sched_inv s ws bnd (p2p_key ws) R).

Lemma inv_nb s ws bnd key R c : sched_inv s ws bnd key R -> 0 <= c < 64 ->
  exists ch, sd_channels s !! Z.to_nat c = Some ch /\ nWorkBatchesP2p ch = nb_of (ws c) /\ 0 <= nb_of (ws c) <= 2 ^ 32.
Proof.
  intros Hi Hc. destruct (si_chan _ _ _ _ _ Hi c Hc) as (ch & ch0 & d & Hlk & Ha & Heq). exists ch. split; [done|]. split; [rewrite Heq; unfold nb_of; by rewrite Ha|].
  pose proof (nb_of_range _ _ Ha) as Hr. destruct (si_works _ _ _ _ _ Hi c Hc) as (Hw & Hs & _).
  pose proof (sorted_offsets_length (w_offset <$> ws c) (2 ^ 32) Hs) as Hl. rewrite length_fmap in Hl.
  assert (Z.of_nat (length (ws c)) <= Z.max 0 (2 ^ 32)); [|lia]. apply Hl. apply Forall_fmap. eapply Forall_impl; [exact Hw|]. intros w [_ ?]. done.
Qed.

(** A batch with the works of one more transfer. *)
Lemma add_batch_p2p s ws bnd R c w offset : p2p_inv s ws bnd R -> 0 <= c < 64 -> work_ok w -> w_offset w = u32 offset -> bnd c <= w_offset w ->
  wp (add_batch s c (w_type w) (w_func w) offset (w_round w)) (fun s' =>
    p2p_inv s' (at_chan c (fun l => l ++ [w]) ws) (at_chan c (fun _ => w_offset w + 1) bnd) R /\ same_frame s s').
Proof.
  intros Hi Hc Hw Ho Hb. eapply wpx_mono; [by eapply add_batch_spec| |done]. intros s' [Hi' Hf]. split; [|done].
  apply (inv_same s' s' _ _ (p2p_key ws) _ R R); try done. intros x Hx. destruct (decide (x = c)) as [->|Hne]; [|unfold p2p_key; by rewrite at_chan_ne].
  destruct (inv_nb _ _ _ _ _ c Hi Hc) as (_ & _ & _ & Hn). destruct (inv_nb _ _ _ _ _ c Hi' Hc) as (_ & _ & _ & Hn').
  destruct (si_chan _ _ _ _ _ Hi' c Hc) as (_ & ch0 & d & _ & Ha & _). rewrite at_chan_eq in *. pose proof (nb_of_snoc (ws c) w (ex_intro _ _ Ha)).
  unfold p2p_key. rewrite at_chan_eq, !p2p_id_key by lia. lia.
Qed.

(** ** Proxy operations *)
Section Ops.
  Context (comm : p2p_comm) (k : Z) (Hwf : p2p_wf comm k).

Lemma inquiry_p2p op st : op_pattern (op_kd (op_payload op)) = ncclPatternSend \/ op_pattern (op_kd (op_payload op)) = ncclPatternRecv ->
  0 <= op_root (op_kd (op_payload op)) < qc_nRanks comm -> 0 <= op_channelId op < 64 ->
  exists r, ncclProxySaveOp (sc_fuel (qc_sched comm)) (sc_junk (qc_sched comm)) (sc_proxy (qc_sched comm)) true (MkCall op true st) = Ret r.
Proof using Hwf.
  intros Hp Hr Hc. unfold ncclProxySaveOp. cbn [k_op k_state k_needed]. destruct (pw_px _ _ Hwf) as (Hl & _).
  destruct (zget_in_bounds (px_channels (sc_proxy (qc_sched comm))) (op_channelId op)) as (ch & -> & Hch); [lia|]. cbn [mbind outcome_bind].
  rewrite (pw_pxRank _ _ Hwf). assert (forall send x, exists r, (if op_root (op_kd (op_payload op)) =? qc_rank comm then Ret x
    else SaveProxy (sc_proxy (qc_sched comm)) ch send (op_root (op_kd (op_payload op))) 1 true x) = Ret r) as H.
  { intros send x. destruct (Z.eqb_spec (op_root (op_kd (op_payload op))) (qc_rank comm)); [by eexists|]. apply SaveProxy_total.
    apply (pw_transport _ _ Hwf); [by eapply list_elem_of_lookup_2|done|done]. }
  destruct Hp as [-> | ->]; apply H.
Qed.

Lemma inquiry_profiler op st : op_pattern (op_kd (op_payload op)) = ncclPatternProfiler -> 0 <= op_channelId op < 64 -> length (xs_workCounter st) = 64%nat ->
  exists r, ncclProxySaveOp (sc_fuel (qc_sched comm)) (sc_junk (qc_sched comm)) (sc_proxy (qc_sched comm)) true (MkCall op true st) = Ret r.
Proof using Hwf.
  intros Hp Hc Hct. unfold ncclProxySaveOp. cbn [k_op k_state k_needed]. rewrite Hp. destruct (pw_px _ _ Hwf) as (Hl & Hs & Hr).
  destruct (zget_in_bounds (px_channels (sc_proxy (qc_sched comm))) (op_channelId op)) as (ch & -> & Hch); [lia|]. cbn [mbind outcome_bind].
  destruct (px_profiler _ op); [|by apply incWorkCounter_total]. unfold SaveProxyProfiler. cbn [k_op k_state k_needed].
  destruct (zget_in_bounds (px_profSend (sc_proxy (qc_sched comm))) (op_channelId op)) as (c1 & E1 & _); [lia|].
  destruct (zget_in_bounds (px_profRecv (sc_proxy (qc_sched comm))) (op_channelId op)) as (c2 & E2 & _); [lia|].
  destruct (op_coll _); rewrite ?E1, ?E2; cbn [mbind outcome_bind]; (destruct (px_persistent _); [by eexists|by apply incWorkCounter_total]).
Qed.

(** Both operations of a part of a direction. *)
Lemma add_ops_spec op s ws bnd R c : p2p_inv s ws bnd R -> 0 <= c < 64 -> op_channelId op = c -> opCount op = p2p_id (nb_of (ws c)) ->
  op_pattern (op_kd (op_payload op)) = ncclPatternSend \/ op_pattern (op_kd (op_payload op)) = ncclPatternRecv ->
  0 <= op_root (op_kd (op_payload op)) < qc_nRanks comm ->
  (forall op', like op op' \/ like (with_args (set_pattern ncclPatternProfiler) op) op' -> R c op') ->
  wp ('(op, s) ← addProxyOpIfNeeded (qc_sched comm) op s; '(op, s) ← addProfilerProxyOpIfNeeded (qc_sched comm) op s; Ret (op, true, s))
    (fun r => p2p_inv r.2 ws bnd R /\ same_frame s r.2 /\ like op r.1.1 /\ r.1.2 = true).
Proof using Hwf.
  intros Hi Hc Hch Hct Hp Hr HR. assert (op_key op = p2p_key ws c) as Hkey by (unfold op_key, p2p_key; by rewrite Hct).
  wp_bind. destruct (inquiry_p2p op (sd_proxy s) Hp Hr ltac:(lia)) as [k1 Hk1].
  eapply wpx_mono; [eapply addProxyOp_inquired; try done; intros op' Hl; apply HR; by left| |done].
  intros [op1 s1] (Hi1 & Hf1 & Hl1). cbn [fst snd] in *. destruct Hl1 as [L1 L2 L3]. unfold addProfilerProxyOpIfNeeded. cbv zeta. wp_bind. wp_bind.
  set (op1' := with_args (set_pattern ncclPatternProfiler) op1).
  destruct (inquiry_profiler op1' (sd_proxy s1)) as [k2 Hk2]; [done|cbn; lia|apply Hi1|].
  assert (like (with_args (set_pattern ncclPatternProfiler) op) op1') as Hlp.
  { destruct L3 as [Hk Hb Hs Ht]. unfold op1'. split; [done|done|]. cbn [with_args op_payload]. split; unfold set_pattern; cbn [op_kd op_bf op_sh]; [by rewrite Hk|done|done|done]. }
  eapply wpx_mono; [eapply (addProxyOp_inquired _ _ _ _ _ op1' s1 c k2); try done| |done].
  - cbn. lia.
  - unfold op_key. cbn [op1' with_args opCount]. rewrite L1. exact Hkey.
  - intros op' Hl'. apply HR. right. by eapply like_trans.
  - intros [op2 s2] (Hi2 & Hf2 & [M1 M2 M3]). cbn [fst snd wpx mbind outcome_bind] in *. split; [done|]. split; [by eapply same_frame_trans|]. split; [|done].
    split; cbn [with_args opCount op_channelId op_payload]; [by rewrite M1|by rewrite M2|]. destruct M3 as [Hk Hb Hs Ht], L3 as [Hk' Hb' Hs' Ht'].
    split; cbn [set_pattern op_kd op_bf op_sh op1' with_args op_payload] in *; [|congruence|..].
    + rewrite Hk. cbn. rewrite Hk'. by destruct (op_kd (op_payload op)).
    + intuition congruence.
    + intuition congruence.
Qed.
End Ops.

(** ** The parts of a direction *)

(** The size of a chunk as sender, receiver and device decode it. *)
Definition chunk_data (d : dir_plan) : Z := match u32fp8Decode (dc_u32fp8 (dp_chunk d)) with Ret x => x | _ => 0 end.

(** [nbytes] of the operation of one part. *)
Definition part_bytes (comm : p2p_comm) (d : dir_plan) (bytes part : Z) : Z :=
  if bytes =? 0 then 0
  else
    let len := (ncclP2pPartBounds (dp_nChannels d) part bytes).2 - (ncclP2pPartBounds (dp_nChannels d) part bytes).1 in
    ll_bytes (dc_protocol (dp_chunk d)) (if dr_net (dp_reg d) || pp_passSm (qc_params comm) then len else Z.min len (chunk_data d)).

(** An operation of a direction on channel [c]: that of the part the channel
    carries, or the profiler's copy of it. *)
Definition carries (comm : p2p_comm) (base peer : Z) (send : bool) (d : dir_plan) (bytes c : Z) (op : ncclProxyOp) : Prop :=
  exists part, 0 <= part < dp_nChannels d /\ c = channel_at comm base part /\ op_root (op_kd (op_payload op)) = peer /\
    (op_pattern (op_kd (op_payload op)) = (if send then ncclPatternSend else ncclPatternRecv) \/ op_pattern (op_kd (op_payload op)) = ncclPatternProfiler) /\
    op_protocol (op_kd (op_payload op)) = dc_protocol (dp_chunk d) /\ op_nbytes (op_sh (op_payload op)) = part_bytes comm d bytes part.

Section Parts.
  Context (comm : p2p_comm) (k : Z) (Hwf : p2p_wf comm k).
  Context (base nMax peer : Z) (Hbase : 0 <= base) (HnMax : 1 <= nMax <= 2 ^ k) (Hpeer : 0 <= peer < qc_nRanks comm).
  Context (send : bool) (bytes : Z) (Hbytes : bytes_ok bytes) (d : dir_plan) (Hd : dir_ok nMax bytes d).

(** What all parts share. *)
Definition op_shared (a : proxy_args) : Prop :=
  op_root (op_kd a) = peer /\ op_pattern (op_kd a) = (if send then ncclPatternSend else ncclPatternRecv) /\
  op_protocol (op_kd a) = dc_protocol (dp_chunk d) /\ op_reg (op_bf a) = dr_net (dp_reg d).

Lemma op_shared_same a a' : op_kd a' = op_kd a -> op_reg (op_bf a') = op_reg (op_bf a) -> op_shared a -> op_shared a'.
Proof using. clear. unfold op_shared. by intros -> ->. Qed.

Lemma part_args_spec addr part a : 0 <= part < nMax -> op_shared a ->
  wp (part_args comm send (dp_nChannels d) addr (if bytes =? -1 then 0 else u64 bytes) (dc_u32fp8 (dp_chunk d)) (dr_handles (dp_reg d)) part a)
    (fun a' => op_shared a' /\ (op_nsteps (op_sh a') <> 0 -> part < dp_nChannels d /\ op_nbytes (op_sh a') = part_bytes comm d bytes part)).
Proof using Hwf HnMax Hbytes Hd.
  intros Hp Hsh. pose proof Hsh as (S1 & S2 & S3 & S4). destruct Hd as [Hc Hh Hn Hnone]. pose proof (pow2k_le comm k Hwf) as Hk. destruct Hbytes as [Hb1 Hb2].
  unfold part_args. cbv zeta. destruct (Z.leb_spec (dp_nChannels d) part) as [Hle|Hlt]; [by repeat split|].
  assert (bytes <> -1) as Hne by (intros E; apply Hnone in E; lia). rewrite (proj2 (Z.eqb_neq bytes (-1)) Hne).
  rewrite usmall by lia. destruct (Z.eqb_spec bytes 0) as [E0|E0]; [unfold part_bytes; rewrite E0; by repeat split|].
  destruct (co_decode _ Hc) as (x & Hx & Hxr & _). rewrite Hx. cbn [mbind outcome_bind].
  assert (chunk_data d = x) as Hcd by (unfold chunk_data; by rewrite Hx).
  destruct (ncclP2pPartBounds_eq (dp_nChannels d) part bytes ltac:(lia) ltac:(lia) ltac:(lia) ltac:(change (2 ^ 64) with (2 ^ 24 * 2 ^ 40); nia)) as (Hpb & _ & Heq).
  set (pb := alignUp (divUp bytes (dp_nChannels d)) 4096) in *. rewrite Heq. cbv beta iota zeta.
  set (lo := Z.min (part * pb) bytes). set (hi := Z.min ((part + 1) * pb) bytes). assert (0 <= lo <= hi /\ hi <= bytes) as [Hlo Hhi] by (unfold lo, hi; nia).
  rewrite usmall by lia. wp_bind. set (b' := dr_net (dp_reg d) || pp_passSm (qc_params comm)).
  apply wpx_mono with (fun a' => op_shared a' /\ op_nbytes (op_sh a') = if b' then hi - lo else Z.min (hi - lo) x) (fun _ => False); [| |done].
  - cbn [set_buffers op_bf op_reg]. rewrite S4. unfold b'. destruct (dr_net (dp_reg d)) eqn:Er; cbn [orb].
    + destruct (zget_in_bounds (dr_handles (dp_reg d)) part) as (h & -> & _); [rewrite Hh by done; lia|]. cbn [mbind outcome_bind wpx]. unfold set_buff. destruct send; (split; [by apply (op_shared_same a)|done]).
    + rewrite udivUp_Ret by lia. cbn [mbind outcome_bind]. unfold set_buff. destruct (pp_passSm (qc_params comm)); destruct send; (split; [by apply (op_shared_same a)|done]).
  - intros a' [(T1 & T2 & T3 & T4) Hnb]. cbn [wpx]. split; [by repeat split|]. intros _. split; [done|]. cbn [set_size op_sh op_nbytes].
    rewrite T3, Hnb. unfold part_bytes. rewrite (proj2 (Z.eqb_neq bytes 0)) by done. cbv zeta. rewrite Heq, Hcd. done.
Qed.

Lemma add_part_dir_spec addr times hash part ws bnd (R : Z -> ncclProxyOp -> Prop) op counted s : 0 <= part < nMax -> op_shared (op_payload op) ->
  p2p_inv s ws bnd R -> (forall c op, carries comm base peer send d bytes c op -> R c op) ->
  wp (add_part_dir comm (channel_at comm base part) part send (dp_nChannels d) addr (if bytes =? -1 then 0 else u64 bytes) (dc_u32fp8 (dp_chunk d)) times hash
        (dr_handles (dp_reg d)) (op, counted, s))
    (fun r => p2p_inv r.2 ws bnd R /\ same_frame s r.2 /\ op_shared (op_payload r.1.1)).
Proof using Hwf HnMax Hbytes Hd Hbase Hpeer.
  intros Hp Hsh Hi HR. pose proof (pow2k_le comm k Hwf) as Hk. destruct (channel_at_spec comm k Hwf base part Hbase ltac:(lia)) as (_ & Hc & _).
  unfold add_part_dir. wp_bind. eapply wpx_mono; [by apply part_args_spec| |done]. intros a [Ha Hst]. destruct (Z.eqb_spec (op_nsteps (op_sh a)) 0) as [E|E].
  { simpl. split; [done|]. split; [apply same_frame_refl|done]. }
  destruct (Hst E) as [Hlt Hnb]. set (a1 := if counted then a else set_incWorkCounter a).
  assert (op_kd a1 = op_kd a /\ op_bf a1 = op_bf a /\ op_sh a1 = op_sh a) as (E1 & E2 & E3) by (unfold a1; by destruct counted).
  destruct (inv_nb _ _ _ _ _ (channel_at comm base part) Hi ltac:(lia)) as (ch & Hch & Hnbc & _).
  rewrite (proj2 (zget_Ret (sd_channels s) (channel_at comm base part) ch)) by (split; [lia|done]). cbn [mbind outcome_bind]. rewrite Hnbc.
  destruct Ha as (T1 & T2 & T3 & T4). eapply wpx_mono; [apply (add_ops_spec comm k Hwf _ s ws bnd R (channel_at comm base part)); try done| |done].
  - lia.
  - cbn. rewrite E1, T2. destruct send; auto.
  - cbn. rewrite E1. lia.
  - intros op' Hl. apply HR. exists part. split; [lia|]. split; [done|].
    assert (op_kd (op_payload op') = op_kd a \/ op_kd (op_payload op') = op_kd (set_pattern ncclPatternProfiler a)) as HK.
    { destruct Hl as [[_ _ [Hk' _ _]]|[_ _ [Hk' _ _]]]; rewrite Hk'; cbn; rewrite E1; auto. }
    assert (op_nbytes (op_sh (op_payload op')) = op_nbytes (op_sh a)) as HN by (destruct Hl as [[_ _ [_ _ (Hs & _)]]|[_ _ [_ _ (Hs & _)]]]; rewrite Hs; cbn; by rewrite E3).
    rewrite HN. destruct HK as [-> | ->]; cbn; auto 10.
  - intros [[op' c'] s'] (Hi' & Hf & [_ _ [Hk' Hb' _]] & _). cbn [fst snd] in *. split; [done|]. split; [done|]. unfold op_shared. rewrite Hk', Hb'. cbn. rewrite E1, E2. done.
Qed.
End Parts.

(** ** The works of a transfer *)

Definition touches (comm : p2p_comm) (base n c : Z) : bool := existsb (fun part => channel_at comm base part =? c) (seqZ 0 n).
Definition works_after (comm : p2p_comm) (base n : Z) (w : work) (ws : Z -> list work) (c : Z) : list work :=
  if touches comm base n c then ws c ++ [w] else ws c.

(** The mask has the channels with works. *)
Definition mask_ok (s : sched) (ws : Z -> list work) : Prop :=
  forall c, 0 <= c < 64 -> Z.testbit (pl_channelMask (sd_plan s)) c = true <-> ws c <> [].

Definition set_mask (m : Z) (s : sched) : sched :=
  let p := sd_plan s in
  MkSched (sd_tasks s) (sd_works s) (sd_nTasksColl s) (sd_cleanup s) (sd_channels s)
    (MkCollPlan m (pl_threadPerBlock p) (pl_kernelFn p) (pl_specialized p) (pl_collOpCount p)
       (pl_nWorkBatches p) (pl_workBytes p) (pl_tasks p) (pl_works p) (pl_cleanup p)) (sd_proxy s).

(** Everything but the channels, the batches, the mask and the proxy's counters. *)
Definition plan_frame (s s' : sched) : Prop := exists m, same_frame (set_mask m s) s'.

Lemma plan_frame_refl s : plan_frame s s.
Proof. exists (pl_channelMask (sd_plan s)). destruct s as [? ? ? ? ? [] ?]. apply same_frame_refl. Qed.
Lemma plan_frame_trans s1 s2 s3 : plan_frame s1 s2 -> plan_frame s2 s3 -> plan_frame s1 s3.
Proof. intros (m & chans & n & px & ->) (m' & chans' & n' & px' & ->). exists m', chans', n', px'. done. Qed.
Lemma plan_frame_mark c s s' : same_frame (mark_plan c s) s' -> plan_frame s s'.
Proof. intros H. by exists (Z.lor (pl_channelMask (sd_plan s)) (u64 (Z.shiftl 1 c))). Qed.
Lemma same_plan_frame s s' : same_frame s s' -> plan_frame s s'.
Proof. intros (chans & n & px & ->). exists (pl_channelMask (sd_plan s)), chans, n, px. by destruct s as [? ? ? ? ? [] ?]. Qed.

Lemma touches_succ comm base n c : 0 <= n -> touches comm base (n + 1) c = touches comm base n c || (channel_at comm base n =? c).
Proof.
  intros Hn. unfold touches. rewrite seqZ_app, existsb_app, Z.add_0_l by lia. f_equal. rewrite (seqZ_cons n 1) by lia. simpl. by rewrite orb_false_r.
Qed.

Lemma touches_true comm base n c : touches comm base n c = true <-> exists part, 0 <= part < n /\ channel_at comm base part = c.
Proof.
  unfold touches. rewrite existsb_exists. split.
  - intros (x & Hx%list_elem_of_In & E%Z.eqb_eq). apply elem_of_seqZ in Hx. exists x. split; [lia|done].
  - intros (x & Hx & E). exists x. split; [apply list_elem_of_In, elem_of_seqZ; lia|by apply Z.eqb_eq].
Qed.

Lemma touches_fresh comm k base n : p2p_wf comm k -> 0 <= base -> 0 <= n < 2 ^ k -> touches comm base n (channel_at comm base n) = false.
Proof.
  intros Hwf Hb Hn. apply not_true_is_false. intros (i & Hi & E)%touches_true. apply (channel_at_inj comm k Hwf) in E; lia.
Qed.

Lemma testbit_mark m c x : 0 <= c < 64 -> 0 <= x -> Z.testbit (Z.lor m (u64 (Z.shiftl 1 c))) x = Z.testbit m x || (c =? x).
Proof.
  intros Hc Hx. rewrite Z.lor_spec, Z.shiftl_1_l, usmall by (split; [apply Z.pow_nonneg; lia|apply Z.pow_lt_mono_r; lia]). f_equal.
  by rewrite Z.pow2_bits_eqb by lia.
Qed.

Lemma at_works comm k base i w ws c : p2p_wf comm k -> 0 <= base -> 0 <= i < 2 ^ k ->
  at_chan (channel_at comm base i) (fun l => l ++ [w]) (works_after comm base i w ws) c = works_after comm base (i + 1) w ws c.
Proof.
  intros Hwf Hb Hi. unfold works_after. rewrite touches_succ by lia. unfold at_chan. destruct (Z.eqb_spec c (channel_at comm base i)) as [->|Hne].
  - by rewrite (touches_fresh comm k), Z.eqb_refl.
  - rewrite (proj2 (Z.eqb_neq (channel_at comm base i) c)) by done. by rewrite orb_false_r.
Qed.

Lemma mark_ok comm k base i w ws s s' : p2p_wf comm k -> 0 <= base -> 0 <= i < 2 ^ k -> mask_ok s (works_after comm base i w ws) ->
  same_frame (mark_plan (channel_at comm base i) s) s' -> mask_ok s' (works_after comm base (i + 1) w ws).
Proof.
  intros Hwf Hb Hi Hm (chans & n & px & ->) c Hc. cbn [set_chans mark_plan sd_plan pl_channelMask].
  pose proof (pow2k_le comm k Hwf). destruct (channel_at_spec comm k Hwf base i Hb Hi) as (_ & Hch & _). rewrite testbit_mark by lia.
  rewrite <- (at_works comm k) by done. unfold at_chan. rewrite orb_true_iff, (Hm c Hc). destruct (Z.eqb_spec (channel_at comm base i) c) as [->|Hne].
  - rewrite Z.eqb_refl. split; [intros _; by destruct (works_after _ _ _ _ _ _)|auto].
  - rewrite (proj2 (Z.eqb_neq c _)) by done. split; [intros [?|?]; done|auto].
Qed.

(** What a transfer adds: its deadline in the plan and the two directions. *)
Section Transfer.
  Context (comm : p2p_comm) (k : Z) (Hwf : p2p_wf comm k).
  Context (base nMax round off sendPeer recvPeer : Z) (self : bool) (Hbase : 0 <= base < 256) (HnMax : 1 <= nMax <= 2 ^ k).
  Context (HsP : 0 <= sendPeer < qc_nRanks comm) (HrP : 0 <= recvPeer < qc_nRanks comm) (Hoff : 0 <= off < 2 ^ 32).
  Context (bS bR : Z) (HbS : bytes_ok bS) (HbR : bytes_ok bR) (dR dS : dir_plan) (HdR : dir_ok nMax bR dR) (HdS : dir_ok nMax bS dS).
  Context (task : option ncclTaskP2p) (times hashes : Z * Z).
  Context (ws : Z -> list work) (bnd : Z -> Z) (R : Z -> ncclProxyOp -> Prop) (Hbnd : forall c, bnd c <= off).
  Context (HR : self = false -> forall c op, carries comm base recvPeer false dR bR c op \/ carries comm base sendPeer true dS bS c op -> R c op).

Let w := dev_work comm base sendPeer recvPeer bS bR dR dS task.
Let wk := MkWork ncclDevWorkTypeP2p (qc_funcId comm) off round.

Record parts_inv (s0 : sched) (i : Z) (st : ncclProxyOp * ncclProxyOp * sched) : Prop := {
  pi_inv : p2p_inv st.2 (works_after comm base i wk ws) (fun c => if touches comm base i c then off + 1 else bnd c) R;
  pi_mask : mask_ok st.2 (works_after comm base i wk ws);
  pi_frame : plan_frame s0 st.2;
  pi_recv : op_shared recvPeer false dR (op_payload st.1.1);
  pi_send : op_shared sendPeer true dS (op_payload st.1.2) }.

Lemma add_part_spec s0 i st : 0 <= i < nMax -> parts_inv s0 i st ->
  wp (add_part comm base round off self w dR dS times hashes i st) (parts_inv s0 (i + 1)).
Proof using Hwf Hbase HnMax HsP HrP Hoff HbS HbR HdR HdS Hbnd HR.
  destruct st as [[opR opS] s]. intros Hi [Hinv Hmask Hfr HoR HoS]. cbn [fst snd] in *. pose proof (pow2k_le comm k Hwf) as Hk.
  unfold add_part. destruct (channel_at_spec comm k Hwf base i ltac:(lia) ltac:(lia)) as (-> & Hc & _). cbn [mbind outcome_bind]. set (c := channel_at comm base i) in *.
  wp_bind. eapply wpx_mono.
  { apply (add_batch_p2p (mark_plan c s) _ _ R c wk off (inv_same s (mark_plan c s) _ _ _ _ R R eq_refl eq_refl eq_refl ltac:(done) ltac:(done) Hinv)); [lia| | |].
    - split; [apply Hwf|done].
    - by rewrite u32_small.
    - cbn. unfold c. rewrite (touches_fresh comm k) by (done || lia). apply Hbnd. }
  2: done.
  intros s1 [Hi1 Hf1].
  assert (p2p_inv s1 (works_after comm base (i + 1) wk ws) (fun c => if touches comm base (i + 1) c then off + 1 else bnd c) R) as Hi1'.
  { assert (forall x, at_chan c (fun l => l ++ [wk]) (works_after comm base i wk ws) x = works_after comm base (i + 1) wk ws x) as Ew
      by (intros x; apply (at_works comm k); done || lia).
    apply (inv_same s1 s1 _ _ (p2p_key (at_chan c (fun l => l ++ [wk]) (works_after comm base i wk ws))) _ R R); try done.
    - intros x _. unfold p2p_key. by rewrite Ew.
    - eapply inv_ext; [intros; apply Ew| |exact Hi1]. intros x Hx. rewrite touches_succ by lia. fold c. unfold at_chan. rewrite Z.eqb_sym. cbn [w_offset wk].
      destruct (c =? x), (touches comm base i x); cbn [orb]; lia. }
  pose proof (mark_ok comm k base i wk ws s s1 Hwf ltac:(lia) ltac:(lia) Hmask Hf1) as Hm1. pose proof (plan_frame_mark _ _ _ Hf1) as Hfr1.
  destruct self; [split; cbn [fst snd]; try done; by eapply plan_frame_trans|]. specialize (HR eq_refl).
  assert (u8 (dp_nChannels dR) = dp_nChannels dR /\ u8 (dp_nChannels dS) = dp_nChannels dS) as [U1 U2].
  { destruct HdR as [_ _ H1 _], HdS as [_ _ H2 _]. unfold u8. rewrite !Z.mod_small by lia. done. }
  unfold w, dev_work. cbn [dw_nRecvChannels dw_recvAddr dw_recvBytes dw_recvChunkSize_u32fp8 dw_nSendChannels dw_sendAddr dw_sendBytes dw_sendChunkSize_u32fp8]. rewrite U1, U2.
  wp_bind. eapply wpx_mono; [eapply (add_part_dir_spec comm k Hwf base nMax recvPeer ltac:(lia) HnMax HrP false bR HbR dR HdR); [done|done|exact Hi1'|auto]| |done].
  intros [[opR' counted] s2] (Hi2 & Hf2 & HoR'). cbn [fst snd] in *. wp_bind.
  eapply wpx_mono; [eapply (add_part_dir_spec comm k Hwf base nMax sendPeer ltac:(lia) HnMax HsP true bS HbS dS HdS); [done|done|exact Hi2|auto]| |done].
  intros [[opS' counted'] s3] (Hi3 & Hf3 & HoS'). cbn [fst snd wpx] in *. assert (same_frame s1 s3) as Hf13 by (by eapply same_frame_trans).
  split; cbn [fst snd]; try done.
  - intros x Hx. rewrite <- (Hm1 x Hx). destruct Hf13 as (? & ? & ? & ->). done.
  - eapply plan_frame_trans; [exact Hfr|]. eapply plan_frame_trans; [exact Hfr1|]. by apply same_plan_frame.
Qed.
End Transfer.

Lemma add_part_dir_count comm c part send nParts addr bytes code times hash handles st :
  ensures (add_part_dir comm c part send nParts addr bytes code times hash handles st) (fun r => nb r.2 = nb st.2).
Proof.
  destruct st as [[op counted] s]. unfold add_part_dir. apply ensures_skip. intros a. destruct (_ =? 0); [by apply ensures_ret|]. apply ensures_skip. intros ch.
  eapply ensures_bind; [apply addProxyOp_count|]. intros [op1 s1] H1. unfold addProfilerProxyOpIfNeeded. cbv zeta. intros r Hr.
  pose proof (addProxyOp_count (qc_sched comm) (with_args (set_pattern ncclPatternProfiler) op1) s1) as Hc.
  destruct (addProxyOpIfNeeded _ _ s1) as [[op2 s2]| |]; [|done|done]. specialize (Hc _ eq_refl). injection Hr as <-. cbn [fst snd] in *. congruence.
Qed.

Lemma add_part_count comm base round off self w dR dS times hashes i st :
  ensures (add_part comm base round off self w dR dS times hashes i st) (fun r => nb r.2 <= nb st.2 + 1).
Proof.
  destruct st as [[opR opS] s]. unfold add_part. apply ensures_skip. intros c. eapply ensures_bind; [apply add_batch_count|]. intros s1 H1.
  change (nb (mark_plan c s)) with (nb s) in H1. destruct self; [by apply ensures_ret|]. eapply ensures_bind; [apply add_part_dir_count|]. intros [[o1 b1] s2] H2.
  eapply ensures_bind; [apply add_part_dir_count|]. intros [[o2 b2] s3] H3. apply ensures_ret. cbn [fst snd] in *. lia.
Qed.

Definition base_of (comm : p2p_comm) (round : Z) : Z := ncclP2pChannelBaseForRound (qc_nNodes comm) (qc_maxLocalRanks comm) round.

Lemma base_of_range comm round : 0 <= base_of comm round < 256.
Proof.
  unfold base_of, ncclP2pChannelBaseForRound. assert (forall x, 0 <= Z.land x 255 < 256) as H.
  { intros x. change 255 with (Z.ones 8). rewrite Z.land_ones by lia. apply Z.mod_pos_bound. done. }
  destruct (_ >? 1); apply H.
Qed.

(** A pair of a send and a receive that a round puts into the plan. *)
Record transfer := MkTransfer { tf_round : Z; tf_send : option ncclTaskP2p; tf_recv : option ncclTaskP2p; tf_sendPlan : dir_plan; tf_recvPlan : dir_plan }.

Definition tf_parts (t : transfer) : Z := Z.max (dp_nChannels (tf_recvPlan t)) (dp_nChannels (tf_sendPlan t)).
Definition tf_work (comm : p2p_comm) (off : Z) (t : transfer) : work := MkWork ncclDevWorkTypeP2p (qc_funcId comm) off (tf_round t).
Definition tf_struct (comm : p2p_comm) (pr : P2pSchedulePair) (t : transfer) : ncclDevWorkP2p :=
  dev_work comm (base_of comm (tf_round t)) (sendRank pr) (recvRank pr) (bytes_of (tf_send t)) (bytes_of (tf_recv t)) (tf_recvPlan t) (tf_sendPlan t)
    (if tf_recv t then tf_recv t else tf_send t).
Definition tf_op (comm : p2p_comm) (pr : P2pSchedulePair) (t : transfer) (c : Z) (op : ncclProxyOp) : Prop :=
  sendRank pr <> qc_rank comm /\
  (carries comm (base_of comm (tf_round t)) (recvRank pr) false (tf_recvPlan t) (bytes_of (tf_recv t)) c op \/
   carries comm (base_of comm (tf_round t)) (sendRank pr) true (tf_sendPlan t) (bytes_of (tf_send t)) c op).

(** The directions of a transfer are those [addP2pToPlan] computes. *)
Record planned (comm : p2p_comm) (nMin nMax : Z) (pr : P2pSchedulePair) (t : transfer) : Prop := {
  pd_recv : plan_dir comm (base_of comm (tf_round t)) nMin nMax (buff_of (tf_recv t)) (bytes_of (tf_recv t)) (recvRank pr) false (sendRank pr =? qc_rank comm) = Ret (tf_recvPlan t);
  pd_send : plan_dir comm (base_of comm (tf_round t)) nMin nMax (buff_of (tf_send t)) (bytes_of (tf_send t)) (sendRank pr) true (sendRank pr =? qc_rank comm) = Ret (tf_sendPlan t);
  pd_recv_ok : dir_ok nMax (bytes_of (tf_recv t)) (tf_recvPlan t);
  pd_send_ok : dir_ok nMax (bytes_of (tf_send t)) (tf_sendPlan t) }.

Section Add.
  Context (comm : p2p_comm) (k : Z) (Hwf : p2p_wf comm k) (nMin nMax : Z) (HnMax : 1 <= nMin <= nMax) (HnMax2 : nMax <= 2 ^ k).
  Context (round : Z) (pr : P2pSchedulePair) (HsP : 0 <= sendRank pr < qc_nRanks comm) (HrP : 0 <= recvRank pr < qc_nRanks comm).
  Context (send recv : option ncclTaskP2p) (HbS : bytes_ok (bytes_of send)) (HbR : bytes_ok (bytes_of recv)).

(** The state of the plan around the call. *)
Record added (s s' : p2p_state) (ws : Z -> list work) (R : Z -> ncclProxyOp -> Prop) (t : transfer) : Prop := {
  ad_planned : planned comm nMin nMax pr t;
  ad_state : exists sc, s' = MkP2pState sc (pt_works s ++ [tf_struct comm pr t]) (pt_peers s) (pt_nTasksP2p s) (pt_tasks s) (pt_selfCopies s) (pt_freed s);
  ad_inv : p2p_inv (pt_sched s') (works_after comm (base_of comm round) (tf_parts t) (tf_work comm (pl_workBytes (sd_plan (pt_sched s))) t) ws)
             (fun _ => pl_workBytes (sd_plan (pt_sched s)) + 1) (fun c op => R c op \/ tf_op comm pr t c op);
  ad_mask : mask_ok (pt_sched s') (works_after comm (base_of comm round) (tf_parts t) (tf_work comm (pl_workBytes (sd_plan (pt_sched s))) t) ws);
  ad_bytes : pl_workBytes (sd_plan (pt_sched s')) = pl_workBytes (sd_plan (pt_sched s)) + 48;
  ad_nodes : pl_works (sd_plan (pt_sched s')) = pl_works (sd_plan (pt_sched s)) ++ [MkWorkList ncclDevWorkTypeP2p 48 None 0];
  ad_batches : nb (pt_sched s') <= nb (pt_sched s) + nMax }.

Lemma addP2pToPlan_spec s ws bnd R : p2p_inv (pt_sched s) ws bnd R -> mask_ok (pt_sched s) ws ->
  (forall c, bnd c <= pl_workBytes (sd_plan (pt_sched s))) -> 0 <= pl_workBytes (sd_plan (pt_sched s)) < 2 ^ 32 ->
  wp (addP2pToPlan comm nMin nMax round (sendRank pr) (recvRank pr) send recv s) (fun s' =>
    exists dS dR, added s s' ws R (MkTransfer round send recv dS dR)).
Proof using Hwf HnMax HnMax2 HsP HrP HbS HbR.
  intros Hi Hm Hb Ho. pose proof (base_of_range comm round) as Hbase. unfold addP2pToPlan. cbv zeta. fold (base_of comm round). set (self := sendRank pr =? qc_rank comm).
  destruct (wp_elim _ _ (plan_dir_spec comm k Hwf (base_of comm round) nMin nMax (recvRank pr) ltac:(lia) HnMax HnMax2 HrP (buff_of recv) (bytes_of recv) false self HbR)) as (dR & ER & HdR).
  destruct (wp_elim _ _ (plan_dir_spec comm k Hwf (base_of comm round) nMin nMax (sendRank pr) ltac:(lia) HnMax HnMax2 HsP (buff_of send) (bytes_of send) true self HbS)) as (dS & ES & HdS).
  rewrite ER. cbn [mbind outcome_bind]. rewrite ES. cbn [mbind outcome_bind]. rewrite u32_small by done.
  set (off := pl_workBytes (sd_plan (pt_sched s))) in *. set (t := MkTransfer round send recv dS dR). set (cl := dr_cleanup (dp_reg dR) ++ dr_cleanup (dp_reg dS)).
  set (R' := fun c op => R c op \/ tf_op comm pr t c op). set (wk := tf_work comm off t). fold (tf_struct comm pr t).
  set (st0 := (dir_op comm (recvRank pr) false dR recv, dir_op comm (sendRank pr) true dS send, push_work cl (pt_sched s))).
  assert (0 <= tf_parts t <= nMax) as Hparts by (destruct HdR as [_ _ H1 _], HdS as [_ _ H2 _]; unfold tf_parts; simpl; lia).
  assert (parts_inv comm (base_of comm round) round off (sendRank pr) (recvRank pr) dR dS ws bnd R' (push_work cl (pt_sched s)) 0 st0) as H0.
  { split; cbn [fst snd st0].
    - apply (inv_same (pt_sched s) _ _ _ (p2p_key ws) _ R R'); try done. intros c op Hop. by left.
    - exact Hm.
    - apply plan_frame_refl.
    - done.
    - done. }
  wp_bind. change (Z.max (dp_nChannels dR) (dp_nChannels dS)) with (tf_parts t).
  eapply wpx_mono; [apply wp_ensures with (P := parts_inv comm (base_of comm round) round off (sendRank pr) (recvRank pr) dR dS ws bnd R' (push_work cl (pt_sched s)) (tf_parts t))
    (Q := fun r => nb r.2 <= nb (push_work cl (pt_sched s)) + Z.max 0 (tf_parts t - 0))| |done].
  { eapply (wpx_for (fun i => parts_inv comm (base_of comm round) round off (sendRank pr) (recvRank pr) dR dS ws bnd R' (push_work cl (pt_sched s)) i)); [lia|exact H0| |done].
    intros i st Hit Hst. apply (add_part_spec comm k Hwf (base_of comm round) nMax round off (sendRank pr) (recvRank pr) self Hbase ltac:(lia) HsP HrP Ho
      (bytes_of send) (bytes_of recv) HbS HbR dR dS HdR HdS); try done; [|lia].
    intros Hs c op Hop. right. split; [|exact Hop]. by apply Z.eqb_neq. }
  { apply (ensures_count (fun r : ncclProxyOp * ncclProxyOp * sched => nb r.2)). intros; apply add_part_count. }
  intros [[opR opS] sc] [[Hinv Hmask Hfr _ _] Hnb]. cbn [fst snd] in *. destruct Hfr as (m & chans & n & px & Es). change (nb (push_work cl (pt_sched s))) with (nb (pt_sched s)) in Hnb.
  exists dS, dR. fold t. split; cbn [pt_sched sd_plan set_chans set_mask push_work pl_workBytes pl_works].
  - by split.
  - by eexists.
  - eapply inv_ext; [done| |exact Hinv]. intros c Hc. cbn. specialize (Hb c). destruct (touches _ _ _ _); lia.
  - exact Hmask.
  - by rewrite Es.
  - by rewrite Es.
  - lia.
Qed.
End Add.
