(* ===== verification/P2pTasks.v ===== *)
(** * Which point-to-point tasks a plan takes, and that both ends agree

    The rounds of [scheduleP2pTasksToPlan] as a sequence of events, each a pair
    of tasks taken from the heads of their queues; what the plan holds after
    them; and the theorem that the two ends of a transfer use the same channels
    and cut the data in the same way. *)
From S2P Require Import Prelude Bitops Device RingAlgo Pat ProxyOp Chunking Proxy Plan FinishPlan CollSched CollPlan Schedule P2pRounds P2pSched P2pPlan.

(** ** Events *)

(** A transfer put into the plan, or a send to self in place, which is dropped. *)
Inductive event := Added (t : transfer) | InPlace (round : Z) (send recv : ncclTaskP2p).

Definition ev_round (e : event) : Z := match e with Added t => tf_round t | InPlace r _ _ => r end.
Definition ev_send (e : event) : option ncclTaskP2p := match e with Added t => tf_send t | InPlace _ t _ => Some t end.
Definition ev_recv (e : event) : option ncclTaskP2p := match e with Added t => tf_recv t | InPlace _ _ t => Some t end.
Definition ev_tasks (e : event) : list ncclTaskP2p := option_list (ev_send e) ++ option_list (ev_recv e).

(** The transfers among the events, and the tasks that were dropped. *)
Definition transfers (log : list event) : list transfer := omap (fun e => match e with Added t => Some t | _ => None end) log.
Definition dropped (log : list event) : list ncclTaskP2p := log ≫= fun e => match e with InPlace _ _ _ => ev_tasks e | _ => [] end.

Definition pair_of (comm : p2p_comm) (round : Z) : P2pSchedulePair := default (MkPair (-1) (-1)) (qc_p2pSchedule comm !! Z.to_nat round).

(** The tasks taken from one queue, in order. *)
Definition sends_to (comm : p2p_comm) (peer : Z) (log : list event) : list ncclTaskP2p :=
  omap ev_send (filter (fun e => sendRank (pair_of comm (ev_round e)) = peer) log).
Definition recvs_from (comm : p2p_comm) (peer : Z) (log : list event) : list ncclTaskP2p :=
  omap ev_recv (filter (fun e => recvRank (pair_of comm (ev_round e)) = peer) log).

(** The works of the transfers on each channel, from an offset on. *)
Definition place (comm : p2p_comm) (st : Z * (Z -> list work)) (t : transfer) : Z * (Z -> list work) :=
  (st.1 + 48, works_after comm (base_of comm (tf_round t)) (tf_parts t) (tf_work comm st.1 t) st.2).
Definition p2p_works (comm : p2p_comm) (off : Z) (ws : Z -> list work) (ts : list transfer) : Z -> list work := (fold_left (place comm) ts (off, ws)).2.

Lemma place_off comm ts st : (fold_left (place comm) ts st).1 = st.1 + 48 * Z.of_nat (length ts).
Proof. revert st. induction ts as [|t ts IH]; intros st; simpl; [lia|]. rewrite IH. simpl. lia. Qed.

Lemma p2p_works_snoc comm off ws ts t : p2p_works comm off ws (ts ++ [t]) =
  works_after comm (base_of comm (tf_round t)) (tf_parts t) (tf_work comm (off + 48 * Z.of_nat (length ts)) t) (p2p_works comm off ws ts).
Proof. unfold p2p_works. rewrite fold_left_app. simpl. rewrite place_off. done. Qed.

Lemma transfers_app l1 l2 : transfers (l1 ++ l2) = transfers l1 ++ transfers l2.
Proof. apply omap_app. Qed.
Lemma dropped_app l1 l2 : dropped (l1 ++ l2) = dropped l1 ++ dropped l2.
Proof. apply bind_app. Qed.
Lemma sends_to_snoc comm p log e :
  sends_to comm p (log ++ [e]) = sends_to comm p log ++ if decide (sendRank (pair_of comm (ev_round e)) = p) then option_list (ev_send e) else [].
Proof. unfold sends_to. rewrite filter_app, omap_app, filter_cons. f_equal. case_decide; simpl; [by destruct (ev_send e)|done]. Qed.
Lemma recvs_from_snoc comm p log e :
  recvs_from comm p (log ++ [e]) = recvs_from comm p log ++ if decide (recvRank (pair_of comm (ev_round e)) = p) then option_list (ev_recv e) else [].
Proof. unfold recvs_from. rewrite filter_app, omap_app, filter_cons. f_equal. case_decide; simpl; [by destruct (ev_recv e)|done]. Qed.

(** ** The queues *)

Definition total_tasks (ps : list Peer) : nat := sum_list_with (fun p => length (sendQueue p) + length (recvQueue p))%nat ps.

Definition pop_if (f : Peer -> Peer) (t : option ncclTaskP2p) (peer : Z) (ps : list Peer) : list Peer :=
  if t then alter f (Z.to_nat peer) ps else ps.
Definition popped (pr : P2pSchedulePair) (e : event) (ps : list Peer) : list Peer :=
  pop_if pop_recv (ev_recv e) (recvRank pr) (pop_if pop_send (ev_send e) (sendRank pr) ps).

Definition set_peers (ps : list Peer) (s : p2p_state) : p2p_state :=
  MkP2pState (pt_sched s) (pt_works s) ps (pt_nTasksP2p s) (pt_tasks s) (pt_selfCopies s) (pt_freed s).

Lemma alter_insert_peer (f : Peer -> Peer) (i : nat) (ps : list Peer) p : ps !! i = Some p -> <[i := f p]> ps = alter f i ps.
Proof.
  intros Hp. apply list_eq. intros j. destruct (decide (i = j)) as [<-|Hne].
  - rewrite list_lookup_alter_eq, Hp, list_lookup_insert_eq; [done|by eapply lookup_lt_Some].
  - by rewrite list_lookup_alter_ne, list_lookup_insert_ne.
Qed.

Lemma update_peer_eq f peer s : 0 <= peer < Z.of_nat (length (pt_peers s)) -> update_peer f peer s = Ret (set_peers (alter f (Z.to_nat peer) (pt_peers s)) s).
Proof.
  intros Hp. unfold update_peer. destruct (zget_in_bounds (pt_peers s) peer Hp) as (p & -> & Hlk). cbn [mbind outcome_bind].
  rewrite zset_Ret by done. cbn [mbind outcome_bind]. by rewrite (alter_insert_peer f _ _ p Hlk).
Qed.

Lemma total_alter f (i : nat) (ps : list Peer) p n : ps !! i = Some p -> (length (sendQueue (f p)) + length (recvQueue (f p)) + n = length (sendQueue p) + length (recvQueue p))%nat ->
  (total_tasks (alter f i ps) + n = total_tasks ps)%nat.
Proof.
  unfold total_tasks. revert i. induction ps as [|q ps IH]; intros [|i] Hi Hn; [done|done|injection Hi as ->; simpl; lia|]. specialize (IH i Hi Hn). simpl. change (list_alter f i ps) with (alter f i ps). lia.
Qed.

(** The heads of the queues of a round. *)
Definition round_heads (pr : P2pSchedulePair) (ps : list Peer) : option ncclTaskP2p * option ncclTaskP2p :=
  (ps !! Z.to_nat (sendRank pr) ≫= fun p => head (sendQueue p), ps !! Z.to_nat (recvRank pr) ≫= fun p => head (recvQueue p)).

Lemma popped_length pr e ps : length (popped pr e ps) = length ps.
Proof. unfold popped, pop_if. destruct (ev_recv e), (ev_send e); by rewrite ?length_alter. Qed.

Lemma total_pop_send t peer (ps : list Peer) : ps !! Z.to_nat peer ≫= (fun p => head (sendQueue p)) = t ->
  (total_tasks (pop_if pop_send t peer ps) + length (option_list t) = total_tasks ps)%nat.
Proof.
  intros H. unfold pop_if. destruct t as [t|]; [|simpl; lia]. destruct (ps !! Z.to_nat peer) as [p|] eqn:Ep; [|done]. simpl in H.
  eapply total_alter; [done|]. destruct p as [a b q1 q2]. simpl in *. destruct q1; [done|]. simpl. lia.
Qed.
Lemma total_pop_recv t peer (ps : list Peer) : ps !! Z.to_nat peer ≫= (fun p => head (recvQueue p)) = t ->
  (total_tasks (pop_if pop_recv t peer ps) + length (option_list t) = total_tasks ps)%nat.
Proof.
  intros H. unfold pop_if. destruct t as [t|]; [|simpl; lia]. destruct (ps !! Z.to_nat peer) as [p|] eqn:Ep; [|done]. simpl in H.
  eapply total_alter; [done|]. destruct p as [a b q1 q2]. simpl in *. destruct q2; [done|]. simpl. lia.
Qed.

(** Popping sends leaves the receives alone. *)
Lemma pop_send_recvs t peer ps i p' : pop_if pop_send t peer ps !! i = Some p' -> exists p, ps !! i = Some p /\ recvQueue p' = recvQueue p /\
  sendQueue p' = (if t then if decide (Z.to_nat peer = i) then tail (sendQueue p) else sendQueue p else sendQueue p) /\ sendSeen p' = sendSeen p /\ recvSeen p' = recvSeen p.
Proof.
  unfold pop_if. destruct t as [t|]; [|intros; by exists p']. rewrite list_lookup_alter. case_decide as E; [|intros; by exists p'].
  subst i. destruct (ps !! Z.to_nat peer) as [p|]; [|done]. intros [= <-]. by exists p.
Qed.
Lemma pop_recv_sends t peer ps i p' : pop_if pop_recv t peer ps !! i = Some p' -> exists p, ps !! i = Some p /\ sendQueue p' = sendQueue p /\
  recvQueue p' = (if t then if decide (Z.to_nat peer = i) then tail (recvQueue p) else recvQueue p else recvQueue p) /\ sendSeen p' = sendSeen p /\ recvSeen p' = recvSeen p.
Proof.
  unfold pop_if. destruct t as [t|]; [|intros; by exists p']. rewrite list_lookup_alter. case_decide as E; [|intros; by exists p'].
  subst i. destruct (ps !! Z.to_nat peer) as [p|]; [|done]. intros [= <-]. by exists p.
Qed.

Lemma heads_after_send pr e (ps : list Peer) : (pop_if pop_send (ev_send e) (sendRank pr) ps) !! Z.to_nat (recvRank pr) ≫= (fun p => head (recvQueue p)) =
  ps !! Z.to_nat (recvRank pr) ≫= (fun p => head (recvQueue p)).
Proof.
  unfold pop_if. destruct (ev_send e); [|done]. rewrite list_lookup_alter. case_decide as E; [|done]. rewrite E. by destruct (ps !! _).
Qed.

Lemma total_popped pr e ps : round_heads pr ps = (ev_send e, ev_recv e) -> (total_tasks (popped pr e ps) + length (ev_tasks e) = total_tasks ps)%nat.
Proof.
  intros [= H1 H2]. unfold popped, ev_tasks. rewrite length_app. pose proof (total_pop_send _ _ _ H1) as T1.
  rewrite <- (heads_after_send pr e) in H2. pose proof (total_pop_recv _ _ _ H2). lia.
Qed.

(** The queues after the events of [log]. *)
Record queues_after (comm : p2p_comm) (ps0 : list Peer) (log : list event) (ps : list Peer) : Prop := {
  qa_len : length ps = length ps0;
  qa_queues p P : 0 <= p -> ps !! Z.to_nat p = Some P -> exists P0, ps0 !! Z.to_nat p = Some P0 /\
    sendQueue P0 = sends_to comm p log ++ sendQueue P /\ recvQueue P0 = recvs_from comm p log ++ recvQueue P /\
    sendSeen P = sendSeen P0 /\ recvSeen P = recvSeen P0;
  qa_sum : (total_tasks ps + length (log ≫= ev_tasks) = total_tasks ps0)%nat }.

Lemma queues_start comm ps : queues_after comm ps [] ps.
Proof. split; [done| |simpl; lia]. intros p P Hp HP. by exists P. Qed.

Lemma queues_snoc comm ps0 log ps e : queues_after comm ps0 log ps -> 0 <= sendRank (pair_of comm (ev_round e)) -> 0 <= recvRank (pair_of comm (ev_round e)) ->
  round_heads (pair_of comm (ev_round e)) ps = (ev_send e, ev_recv e) -> queues_after comm ps0 (log ++ [e]) (popped (pair_of comm (ev_round e)) e ps).
Proof.
  intros [Hl Hq Hs] Hps Hpr Hh. split.
  - by rewrite popped_length.
  - intros p P' Hp HP. set (pr := pair_of comm (ev_round e)) in *. unfold popped in HP. destruct (pop_recv_sends _ _ _ _ _ HP) as (P1 & HP1 & R1 & R2 & R3 & R4).
    destruct (pop_send_recvs _ _ _ _ _ HP1) as (P & HPP & S1 & S2 & S3 & S4). destruct (Hq p P Hp HPP) as (P0 & H0 & Q1 & Q2 & Q3 & Q4).
    exists P0. split; [done|]. rewrite sends_to_snoc, recvs_from_snoc. fold pr. injection Hh as Hh1 Hh2. rewrite R1, R2, S1, S2, R3, R4, S3, S4. split; [|split; [|done]].
    + rewrite Q1, <- app_assoc. f_equal. destruct (decide (sendRank pr = p)) as [<-|Hne].
      * rewrite HPP in Hh1. simpl in Hh1. rewrite <- Hh1. rewrite decide_True by done. by destruct (sendQueue P).
      * destruct (ev_send e); [|done]. rewrite decide_False by lia. done.
    + rewrite Q2, <- app_assoc. f_equal. destruct (decide (recvRank pr = p)) as [<-|Hne].
      * rewrite HPP in Hh2. simpl in Hh2. rewrite <- Hh2. rewrite decide_True by done. by destruct (recvQueue P).
      * destruct (ev_recv e); [|done]. rewrite decide_False by lia. done.
  - rewrite bind_app, length_app. pose proof (total_popped _ _ _ Hh). simpl. rewrite app_nil_r. lia.
Qed.

(** ** Progress *)

Definition tf_tasks (t : transfer) : list ncclTaskP2p := option_list (tf_send t) ++ option_list (tf_recv t).
Definition self_copy (comm : p2p_comm) (t : transfer) : list psmSelfCopy :=
  if pp_passSm (qc_params comm) && (sendRank (pair_of comm (tf_round t)) =? qc_rank comm)
  then [MkSelfCopy (buff_of (tf_recv t)) (buff_of (tf_send t)) (match tf_send t with Some x => tp_bytes x | None => 0 end)] else [].

(** A rank sends to itself exactly what it receives from itself, and in place
    nothing is to be done. *)
Definition event_ok (comm : p2p_comm) (nMin nMax : Z) (e : event) : Prop :=
  0 <= ev_round e < qc_nRanks comm /\ ev_tasks e <> [] /\
  (sendRank (pair_of comm (ev_round e)) = qc_rank comm -> is_Some (ev_send e) /\ is_Some (ev_recv e)) /\
  match e with
  | Added t => planned comm nMin nMax (pair_of comm (tf_round t)) t
  | InPlace r a b => sendRank (pair_of comm r) = qc_rank comm /\ tp_buff a = tp_buff b
  end.

Definition wb (s : p2p_state) : Z := pl_workBytes (sd_plan (pt_sched s)).

Record progress (comm : p2p_comm) (budget : ncclKernelPlanBudget) (nMin nMax : Z) (s0 : p2p_state) (ws0 : Z -> list work) (R0 : Z -> ncclProxyOp -> Prop)
    (log : list event) (s : p2p_state) : Prop := {
  pg_events : Forall (event_ok comm nMin nMax) log;
  pg_queues : queues_after comm (pt_peers s0) log (pt_peers s);
  pg_count : pt_nTasksP2p s = Z.of_nat (total_tasks (pt_peers s));
  pg_tasks : pt_tasks s = pt_tasks s0 ++ (transfers log ≫= tf_tasks);
  pg_freed : pt_freed s = pt_freed s0 ++ dropped log;
  pg_structs : pt_works s = pt_works s0 ++ ((fun t => tf_struct comm (pair_of comm (tf_round t)) t) <$> transfers log);
  pg_copies : pt_selfCopies s = pt_selfCopies s0 ++ (transfers log ≫= self_copy comm);
  pg_inv : p2p_inv (pt_sched s) (p2p_works comm (wb s0) ws0 (transfers log)) (fun _ => wb s)
    (fun c op => R0 c op \/ exists t, t ∈ transfers log /\ tf_op comm (pair_of comm (tf_round t)) t c op);
  pg_mask : mask_ok (pt_sched s) (p2p_works comm (wb s0) ws0 (transfers log));
  pg_bytes : wb s = wb s0 + 48 * Z.of_nat (length (transfers log));
  pg_nodes : pl_works (sd_plan (pt_sched s)) = pl_works (sd_plan (pt_sched s0)) ++ replicate (length (transfers log)) (MkWorkList ncclDevWorkTypeP2p 48 None 0);
  pg_budget : transfers log <> [] -> testBudget budget (nb (pt_sched s)) (wb s) = true }.

(** The sends a rank has queued for itself are not matched by receives. *)
Definition self_unmatched (comm : p2p_comm) (s : p2p_state) : Prop :=
  exists P, pt_peers s !! Z.to_nat (qc_rank comm) = Some P /\ length (sendQueue P) <> length (recvQueue P).

Lemma self_events comm nMin nMax log : schedule_ok (qc_rank comm) (qc_nRanks comm) (qc_p2pSchedule comm) -> length (qc_p2pSchedule comm) = Z.to_nat (qc_nRanks comm) ->
  Forall (event_ok comm nMin nMax) log -> length (sends_to comm (qc_rank comm) log) = length (recvs_from comm (qc_rank comm) log).
Proof.
  intros Hs Hl. induction log as [|e log IH] using rev_ind; intros He; [done|]. apply Forall_app in He as [He Hx]. apply Forall_singleton in Hx as (Hr & _ & Hself & _).
  rewrite sends_to_snoc, recvs_from_snoc, !length_app, (IH He). f_equal.
  assert (pair_of comm (ev_round e) ∈ qc_p2pSchedule comm) as Hin.
  { unfold pair_of. destruct (lookup_lt_is_Some_2 (qc_p2pSchedule comm) (Z.to_nat (ev_round e))) as [p Hp]; [lia|]. rewrite Hp. by eapply list_elem_of_lookup_2. }
  pose proof (so_self _ _ _ Hs _ Hin) as Hiff. destruct (decide (sendRank _ = _)) as [E|E].
  - rewrite decide_True by (by apply Hiff). destruct (Hself E) as [[x ->] [y ->]]. done.
  - rewrite decide_False by (by rewrite <- Hiff). done.
Qed.

(** ** One round *)
Section Rounds.
  Context (comm : p2p_comm) (k : Z) (Hwf : p2p_wf comm k) (budget : ncclKernelPlanBudget) (nMin : Z) (HnMin : 1 <= nMin <= qc_p2pnChannelsPerPeer comm).
  Context (Hbudget : inArgsBytes budget <= 2 ^ 31 /\ outArgsBytes budget <= 2 ^ 31).
  Context (s0 : p2p_state) (ws0 : Z -> list work) (R0 : Z -> ncclProxyOp -> Prop).
  Context (Hlen0 : length (pt_peers s0) = Z.to_nat (qc_nRanks comm)) (Hwb0 : 0 <= wb s0).
  Context (Htasks0 : forall P t, P ∈ pt_peers s0 -> t ∈ sendQueue P \/ t ∈ recvQueue P -> p2p_task_ok t).

Abbreviation nMax := (qc_p2pnChannelsPerPeer comm).
Abbreviation prog := (progress comm budget nMin nMax s0 ws0 R0).

Lemma sched_length : length (qc_p2pSchedule comm) = Z.to_nat (qc_nRanks comm).
Proof using Hwf. clear - Hwf. pose proof (Permutation_length (so_sends _ _ _ (pw_schedule _ _ Hwf))) as H. rewrite length_fmap, length_seqZ in H. done. Qed.

Lemma pair_at r : 0 <= r < qc_nRanks comm -> qc_p2pSchedule comm !! Z.to_nat r = Some (pair_of comm r) /\
  0 <= sendRank (pair_of comm r) < qc_nRanks comm /\ 0 <= recvRank (pair_of comm r) < qc_nRanks comm /\
  (sendRank (pair_of comm r) = qc_rank comm <-> recvRank (pair_of comm r) = qc_rank comm).
Proof using Hwf. clear - Hwf.
  intros Hr. pose proof sched_length as Hl. destruct (lookup_lt_is_Some_2 (qc_p2pSchedule comm) (Z.to_nat r)) as [p Hp]; [lia|].
  unfold pair_of. rewrite Hp. simpl. pose proof (list_elem_of_lookup_2 _ _ _ Hp) as Hin. destruct (pw_schedule _ _ Hwf) as [H1 H2 H3].
  assert (sendRank p ∈ sendRank <$> qc_p2pSchedule comm) as Hs by (by apply list_elem_of_fmap_2).
  assert (recvRank p ∈ recvRank <$> qc_p2pSchedule comm) as Hv by (by apply list_elem_of_fmap_2).
  rewrite H1, elem_of_seqZ in Hs. rewrite H2, elem_of_seqZ in Hv. split; [done|]. split; [lia|]. split; [lia|by apply H3].
Qed.

(** The heads of a round's queues are tasks of the start. *)
Lemma heads_ok log s r : prog log s -> 0 <= r < qc_nRanks comm ->
  bytes_ok (bytes_of (round_heads (pair_of comm r) (pt_peers s)).1) /\ bytes_ok (bytes_of (round_heads (pair_of comm r) (pt_peers s)).2).
Proof using Hwf Htasks0. clear - Hwf Htasks0.
  intros Hp Hr. destruct (pair_at r Hr) as (_ & Hs & Hv & _). destruct (pg_queues _ _ _ _ _ _ _ _ _ Hp) as [_ Hq _].
  split; apply bytes_of_ok; intros t Ht; simpl in Ht.
  - destruct (pt_peers s !! Z.to_nat (sendRank _)) as [P|] eqn:EP; [|done]. simpl in Ht. destruct (Hq (sendRank (pair_of comm r)) P ltac:(lia) EP) as (P0 & H0 & Q1 & _).
    apply (Htasks0 P0); [by eapply list_elem_of_lookup_2|]. left. rewrite Q1. apply elem_of_app. right. by apply head_Some_elem_of.
  - destruct (pt_peers s !! Z.to_nat (recvRank _)) as [P|] eqn:EP; [|done]. simpl in Ht. destruct (Hq (recvRank (pair_of comm r)) P ltac:(lia) EP) as (P0 & H0 & _ & Q2 & _).
    apply (Htasks0 P0); [by eapply list_elem_of_lookup_2|]. right. rewrite Q2. apply elem_of_app. right. by apply head_Some_elem_of.
Qed.

Lemma budget_bytes n b : testBudget budget n b = true -> 0 <= n -> b <= 2 ^ 31.
Proof using Hbudget. clear - Hbudget. unfold testBudget, sizeof_ncclDevWorkBatch. rewrite orb_true_iff, andb_true_iff, !Z.leb_le. lia. Qed.

Lemma budget_mono n n' b : n' <= n -> testBudget budget n b = true -> testBudget budget n' b = true.
Proof using. clear. unfold testBudget, sizeof_ncclDevWorkBatch. intros Hn. rewrite !orb_true_iff, !andb_true_iff, !Z.leb_le. intros [H|[H1 H2]]; [left|right]; lia. Qed.

(** Taking both heads. *)
Lemma take_tasks pr t s : 0 <= sendRank pr < Z.of_nat (length (pt_peers s)) -> 0 <= recvRank pr < Z.of_nat (length (pt_peers s)) ->
  (s ← take_task pop_send (sendRank pr) (tf_send t) s; take_task pop_recv (recvRank pr) (tf_recv t) s) =
  Ret (MkP2pState (pt_sched s) (pt_works s) (popped pr (Added t) (pt_peers s)) (pt_nTasksP2p s - Z.of_nat (length (tf_tasks t))) (pt_tasks s ++ tf_tasks t)
         (pt_selfCopies s) (pt_freed s)).
Proof using.
  clear. intros H1 H2. unfold take_task, popped, pop_if, tf_tasks, ev_send, ev_recv. destruct s as [sc w ps n ts cp fr]. cbn [pt_peers] in *.
  destruct (tf_send t) as [a|]; [rewrite update_peer_eq by done|]; cbn [mbind outcome_bind set_peers pt_sched pt_works pt_peers pt_nTasksP2p pt_tasks pt_selfCopies pt_freed];
    (destruct (tf_recv t) as [b|]; [rewrite update_peer_eq by (cbn; rewrite ?length_alter; done)|]);
    cbn [mbind outcome_bind set_peers pt_sched pt_works pt_peers pt_nTasksP2p pt_tasks pt_selfCopies pt_freed option_list app length];
    rewrite <- ?app_assoc, ?app_nil_r, ?Z.sub_0_r; f_equal; f_equal; (done || (simpl; lia)).
Qed.

(** The state after a transfer was added and its tasks were taken. *)
Lemma progress_added log s s1 r t : prog log s -> 0 <= r < qc_nRanks comm -> tf_round t = r -> round_heads (pair_of comm r) (pt_peers s) = (tf_send t, tf_recv t) ->
  tf_tasks t <> [] -> (sendRank (pair_of comm r) = qc_rank comm -> is_Some (tf_send t) /\ is_Some (tf_recv t)) ->
  testBudget budget (nb (pt_sched s) + nMax) (wb s + 48) = true ->
  added comm nMin nMax r (pair_of comm r) (MkP2pState (pt_sched s) (pt_works s) (pt_peers s) (pt_nTasksP2p s) (pt_tasks s) (pt_selfCopies s ++ self_copy comm t) (pt_freed s))
    s1 (p2p_works comm (wb s0) ws0 (transfers log)) (fun c op => R0 c op \/ exists t, t ∈ transfers log /\ tf_op comm (pair_of comm (tf_round t)) t c op) t ->
  prog (log ++ [Added t]) (MkP2pState (pt_sched s1) (pt_works s1) (popped (pair_of comm r) (Added t) (pt_peers s)) (pt_nTasksP2p s1 - Z.of_nat (length (tf_tasks t)))
     (pt_tasks s1 ++ tf_tasks t) (pt_selfCopies s1) (pt_freed s1)).
Proof using Hwf HnMin. clear - Hwf HnMin.
  intros [He Hq Hct Htk Hfr Hst Hcp Hi Hm Hb Hnd Hbu] Hr Htr Hh Hne Hself Hbt [Apl (sc & Es) Ainv Amask Ab And Anb].
  destruct (pair_at r Hr) as (_ & Hs & Hv & _). assert (ev_round (Added t) = r) as Her by done.
  assert (tf_work comm (wb s) t = tf_work comm (wb s0 + 48 * Z.of_nat (length (transfers log))) t) as Hwk by (by rewrite Hb).
  subst s1. cbn [pt_sched pt_works pt_nTasksP2p pt_tasks pt_selfCopies pt_freed] in *. fold (wb s) in *.
  split; cbn [pt_sched pt_works pt_peers pt_nTasksP2p pt_tasks pt_selfCopies pt_freed];
    rewrite ?transfers_app, ?dropped_app; cbn [transfers omap list_omap dropped]; rewrite ?app_nil_r.
  - apply Forall_app. split; [done|]. apply Forall_singleton. split; [by rewrite Her|]. split; [done|]. rewrite Her. split; [done|]. by rewrite Htr.
  - rewrite <- Her. apply queues_snoc; rewrite ?Her; [done|lia|lia|done].
  - rewrite Hct. pose proof (total_popped (pair_of comm r) (Added t) _ Hh) as Ht. change (ev_tasks (Added t)) with (tf_tasks t) in Ht. lia.
  - rewrite Htk, bind_app, <- app_assoc. simpl. by rewrite app_nil_r.
  - simpl. by rewrite ?app_nil_r.
  - rewrite Hst, fmap_app, <- app_assoc. simpl. by rewrite Htr.
  - rewrite Hcp, bind_app, <- app_assoc. simpl. by rewrite app_nil_r.
  - rewrite p2p_works_snoc, <- Hwk, Htr. eapply inv_same; [reflexivity|reflexivity|reflexivity|done| |eapply inv_ext; [done| |exact Ainv]].
    + intros c op [[Hop|(t' & Ht' & Hop)]|Hop]; [by left|right; exists t'; split; [apply elem_of_app; by left|done]|].
      right. exists t. split; [apply elem_of_app; right; by left|by rewrite Htr].
    + intros c _. cbn beta. unfold wb in *. cbn [pt_sched] in *. lia.
  - rewrite p2p_works_snoc, <- Hwk, Htr. exact Amask.
  - unfold wb in *. cbn [pt_sched]. rewrite Ab, Hb, length_app. simpl. lia.
  - rewrite And, Hnd, length_app, <- app_assoc. simpl. by rewrite replicate_add.
  - intros _. unfold wb in *. cbn [pt_sched]. rewrite Ab. eapply budget_mono; [|exact Hbt]. exact Anb.
Qed.

Lemma progress_inplace log s r a b : prog log s -> 0 <= r < qc_nRanks comm -> round_heads (pair_of comm r) (pt_peers s) = (Some a, Some b) ->
  sendRank (pair_of comm r) = qc_rank comm -> tp_buff a = tp_buff b ->
  prog (log ++ [InPlace r a b]) (MkP2pState (pt_sched s) (pt_works s) (popped (pair_of comm r) (InPlace r a b) (pt_peers s)) (pt_nTasksP2p s - 2) (pt_tasks s)
    (pt_selfCopies s) (pt_freed s ++ [a; b])).
Proof using Hwf. clear - Hwf.
  intros [He Hq Hct Htk Hfr Hst Hcp Hi Hm Hb Hnd Hbu] Hr Hh Hself Hbuf. destruct (pair_at r Hr) as (_ & Hs & Hv & _).
  assert (transfers (log ++ [InPlace r a b]) = transfers log) as Et by (rewrite transfers_app; simpl; by rewrite app_nil_r).
  split; cbn [pt_sched pt_works pt_peers pt_nTasksP2p pt_tasks pt_selfCopies pt_freed]; rewrite ?Et; try done.
  - apply Forall_app. split; [done|]. apply Forall_singleton. split; [done|]. split; [done|]. split; [|done]. intros _. by split; eexists.
  - apply (queues_snoc comm (pt_peers s0) log (pt_peers s) (InPlace r a b)); cbn [ev_round]; [done|lia|lia|done].
  - rewrite Hct. pose proof (total_popped (pair_of comm r) (InPlace r a b) _ Hh) as Ht. simpl in Ht. lia.
  - rewrite Hfr, dropped_app, <- app_assoc. done.
Qed.

Lemma peers_at_pair log s r : prog log s -> 0 <= r < qc_nRanks comm -> exists pS pR,
  pt_peers s !! Z.to_nat (sendRank (pair_of comm r)) = Some pS /\ zget (pt_peers s) (sendRank (pair_of comm r)) = Ret pS /\
  pt_peers s !! Z.to_nat (recvRank (pair_of comm r)) = Some pR /\ zget (pt_peers s) (recvRank (pair_of comm r)) = Ret pR.
Proof using Hwf Hlen0. clear - Hwf Hlen0.
  intros Hp Hr. destruct (pair_at r Hr) as (_ & Hs & Hv & _). destruct (pg_queues _ _ _ _ _ _ _ _ _ Hp) as [Hl _ _].
  destruct (zget_in_bounds (pt_peers s) (sendRank (pair_of comm r))) as (pS & E1 & E2); [lia|].
  destruct (zget_in_bounds (pt_peers s) (recvRank (pair_of comm r))) as (pR & E3 & E4); [lia|]. by exists pS, pR.
Qed.

(** At the rank itself a head without a partner shows that the queues differ. *)
Lemma self_mismatch log s r : prog log s -> 0 <= r < qc_nRanks comm -> sendRank (pair_of comm r) = qc_rank comm ->
  (round_heads (pair_of comm r) (pt_peers s)).1 = None /\ (round_heads (pair_of comm r) (pt_peers s)).2 <> None \/
  (round_heads (pair_of comm r) (pt_peers s)).1 <> None /\ (round_heads (pair_of comm r) (pt_peers s)).2 = None -> self_unmatched comm s0.
Proof using Hwf Hlen0. clear - Hwf Hlen0.
  intros Hp Hr Hself Hh. destruct (pair_at r Hr) as (_ & Hs & Hv & Hiff). destruct (peers_at_pair log s r Hp Hr) as (pS & pR & E1 & _ & E2 & _).
  pose proof (proj1 Hiff Hself) as Hself'. unfold round_heads in Hh. rewrite Hself, Hself' in *. rewrite E1 in E2. injection E2 as <-. rewrite E1 in Hh. simpl in Hh.
  destruct (pg_queues _ _ _ _ _ _ _ _ _ Hp) as [_ Hq _]. destruct (Hq (qc_rank comm) pS ltac:(lia) E1) as (P0 & H0 & Q1 & Q2 & _). exists P0. split; [done|].
  rewrite Q1, Q2, !length_app. rewrite (self_events comm nMin nMax log (pw_schedule _ _ Hwf) sched_length (pg_events _ _ _ _ _ _ _ _ _ Hp)).
  destruct (sendQueue pS), (recvQueue pS); simpl in *; try lia; destruct Hh as [[? ?]|[? ?]]; done.
Qed.

Lemma p2p_round_spec log s r : prog log s -> 0 <= r < qc_nRanks comm ->
  wpx (p2p_round comm budget nMin nMax r s) (fun o => match o with
    | None => testBudget budget (nb (pt_sched s) + nMax) (wb s + 48) = false
    | Some s' => s' = s /\ round_heads (pair_of comm r) (pt_peers s) = (None, None) \/ exists e, prog (log ++ [e]) s' end)
    (fun e => e = ncclInvalidUsage /\ self_unmatched comm s0).
Proof using Hwf HnMin Hbudget Hlen0 Hwb0 Htasks0.
  intros Hp Hr. destruct (pair_at r Hr) as (Hpr & Hs & Hv & Hiff). destruct (peers_at_pair log s r Hp Hr) as (pS & pR & E1 & E1' & E2 & E2').
  pose proof (heads_ok log s r Hp Hr) as [HbS HbR]. pose proof (self_mismatch log s r Hp Hr) as Hmis. pose proof (pow2k_le comm k Hwf) as Hk. pose proof (pw_perPeer _ _ Hwf) as Hpp.
  unfold p2p_round. rewrite (proj2 (zget_Ret (qc_p2pSchedule comm) r _)) by (split; [lia|exact Hpr]). cbn [mbind outcome_bind]. cbv zeta. rewrite E1', E2'. cbn [mbind outcome_bind].
  assert (round_heads (pair_of comm r) (pt_peers s) = (head (sendQueue pS), head (recvQueue pR))) as Hh by (unfold round_heads; by rewrite E1, E2). rewrite Hh in *. cbn [fst snd] in *.
  set (send := head (sendQueue pS)) in *. set (recv := head (recvQueue pR)) in *. clearbody send recv.
  assert (0 <= sendRank (pair_of comm r) < Z.of_nat (length (pt_peers s)) /\ 0 <= recvRank (pair_of comm r) < Z.of_nat (length (pt_peers s))) as [Hls Hlv].
  { destruct (pg_queues _ _ _ _ _ _ _ _ _ Hp) as [Hl _ _]. lia. }
  destruct (decide (send = None /\ recv = None)) as [[-> ->]|Hsome]; [by left|].
  set (self := sendRank (pair_of comm r) =? qc_rank comm). set (bad := bool_decide (send = None) || bool_decide (recv = None)).
  destruct (bool_decide (send = None) && bool_decide (recv = None)) eqn:Enone.
  { apply andb_true_iff in Enone as [N1%bool_decide_eq_true N2%bool_decide_eq_true]. by destruct Hsome. }
  destruct (self && bad) eqn:Ebad.
  { unfold bad in Ebad. apply andb_true_iff in Ebad as [Es%Z.eqb_eq Eb%orb_true_iff]. simpl. split; [done|]. apply (Hmis Es).
    destruct Eb as [N%bool_decide_eq_true|N%bool_decide_eq_true]; rewrite N in *; [left|right]; (split; [done|intros N'; by apply Hsome]) || (split; [intros N'; by apply Hsome|done]). }
  assert (sendRank (pair_of comm r) = qc_rank comm -> is_Some send /\ is_Some recv) as Hboth.
  { intros Es. unfold self, bad in Ebad. rewrite Es, Z.eqb_refl in Ebad. cbn [andb] in Ebad. apply orb_false_iff in Ebad as [N1%bool_decide_eq_false N2%bool_decide_eq_false]. by rewrite <- !not_eq_None_Some. }
  destruct (self && (buff_of send =? buff_of recv)) eqn:Ein.
  { apply andb_true_iff in Ein as [Es%Z.eqb_eq Eb%Z.eqb_eq]. destruct (Hboth Es) as [[a ->] [b ->]]. simpl in Eb.
    rewrite update_peer_eq by done. cbn [mbind outcome_bind]. rewrite update_peer_eq by (cbn; rewrite length_alter; done). cbn [mbind outcome_bind wpx]. right. exists (InPlace r a b).
    exact (progress_inplace log s r a b Hp Hr Hh Es Eb). }
  destruct (testBudget budget _ _) eqn:Ebud; cbn [negb]; [|done].
  set (t0 := MkTransfer r send recv). set (s1 := MkP2pState _ _ _ _ _ _ _).
  assert (0 <= nb (pt_sched s)) as Hnb0 by (unfold nb; rewrite (si_batches _ _ _ _ _ (pg_inv _ _ _ _ _ _ _ _ _ Hp)); lia).
  pose proof (budget_bytes _ _ Ebud ltac:(unfold nb in Hnb0; lia)) as Hwbu. change (pl_workBytes (sd_plan (pt_sched s))) with (wb s) in Hwbu.
  change sizeof_ncclDevWorkP2p with 48 in *. pose proof (pg_bytes _ _ _ _ _ _ _ _ _ Hp) as Hwb.
  wp_bind. eapply wpx_mono; [eapply (addP2pToPlan_spec comm k Hwf nMin nMax ltac:(lia) ltac:(lia) r (pair_of comm r) Hs Hv send recv HbS HbR s1 _ (fun _ => wb s));
    [exact (pg_inv _ _ _ _ _ _ _ _ _ Hp)|exact (pg_mask _ _ _ _ _ _ _ _ _ Hp)|done|change (pl_workBytes (sd_plan (pt_sched s1))) with (wb s); lia]| |done].
  intros s2 (dS & dR & Hadd). set (t := MkTransfer r send recv dS dR) in *.
  assert (pt_peers s2 = pt_peers s) as Hps by (destruct (ad_state _ _ _ _ _ _ _ _ _ _ Hadd) as [sc ->]; done).
  pose proof (take_tasks (pair_of comm r) t s2 ltac:(by rewrite Hps) ltac:(by rewrite Hps)) as Htake. cbn [tf_send tf_recv t] in Htake.
  destruct (take_task pop_send _ send s2) as [s3| |]; [|done|done]. cbn [mbind outcome_bind] in *. rewrite Htake. cbn [mbind outcome_bind wpx]. right. exists (Added t).
  rewrite Hps. apply (progress_added log s s2 r t); try done. destruct send; [done|]. destruct recv; [done|]. by destruct Hsome.
Qed.

(** ** All rounds *)

Lemma p2p_rounds_spec n : forall log s r, prog log s -> 0 <= r -> r + Z.of_nat n <= qc_nRanks comm ->
  wpx (p2p_rounds n comm budget nMin nMax r s) (fun x => exists log', prog (log ++ log') x.2 /\
    (if x.1 : bool then testBudget budget (nb (pt_sched x.2) + nMax) (wb x.2 + 48) = false
     else log' <> [] \/ forall i, r <= i < r + Z.of_nat n -> round_heads (pair_of comm i) (pt_peers s) = (None, None)))
    (fun e => e = ncclInvalidUsage /\ self_unmatched comm s0).
Proof using Hwf HnMin Hbudget Hlen0 Hwb0 Htasks0.
  induction n as [|n IH]; intros log s r Hp Hr Hn; cbn [p2p_rounds].
  { exists []. rewrite app_nil_r. split; [done|]. right. intros i Hi. lia. }
  wp_bind. eapply wpx_mono; [apply (p2p_round_spec log s r Hp); lia| |done]. intros [s1|] Ho.
  - destruct Ho as [[-> Hh]|[e Hp1]].
    + eapply wpx_mono; [apply (IH log s (r + 1) Hp); lia| |done]. intros [b s'] (log' & Hp' & Hx). exists log'. split; [done|]. cbn [fst snd] in *. destruct b; [done|].
      destruct Hx as [?|Hx]; [by left|right]. intros i Hi. destruct (Z.eq_dec i r) as [->|]; [done|]. apply Hx. lia.
    + eapply wpx_mono; [apply (IH (log ++ [e]) s1 (r + 1) Hp1); lia| |done]. intros [b s'] (log' & Hp' & Hx). exists (e :: log'). rewrite <- app_assoc in Hp'. split; [done|].
      cbn [fst snd] in *. destruct b; [done|]. by left.
  - exists []. rewrite app_nil_r. by split.
Qed.

(** If no round finds a task there is none. *)
Lemma no_heads_no_tasks log s : prog log s -> (forall i, 0 <= i < qc_nRanks comm -> round_heads (pair_of comm i) (pt_peers s) = (None, None)) -> total_tasks (pt_peers s) = 0%nat.
Proof using Hwf Hlen0. clear - Hwf Hlen0.
  intros Hp Hh. destruct (pg_queues _ _ _ _ _ _ _ _ _ Hp) as [Hl _ _]. pose proof sched_length as Hsl.
  assert (forall P, P ∈ pt_peers s -> sendQueue P = [] /\ recvQueue P = []) as Hempty.
  { intros P [j Hj]%list_elem_of_lookup. pose proof (lookup_lt_Some _ _ _ Hj) as Hjl.
    assert (Z.of_nat j ∈ seqZ 0 (qc_nRanks comm)) as Hin by (apply elem_of_seqZ; lia). destruct (pw_schedule _ _ Hwf) as [H1 H2 _].
    pose proof Hin as Hin2. rewrite <- H1 in Hin. rewrite <- H2 in Hin2.
    apply list_elem_of_fmap in Hin as (p & Ep & [i Hi]%list_elem_of_lookup). apply list_elem_of_fmap in Hin2 as (p2 & Ep2 & [i2 Hi2]%list_elem_of_lookup).
    pose proof (lookup_lt_Some _ _ _ Hi) as Hil. pose proof (lookup_lt_Some _ _ _ Hi2) as Hil2.
    pose proof (Hh (Z.of_nat i) ltac:(lia)) as G1. pose proof (Hh (Z.of_nat i2) ltac:(lia)) as G2. unfold pair_of in G1, G2. rewrite Nat2Z.id in G1, G2. rewrite Hi in G1. rewrite Hi2 in G2.
    unfold round_heads in G1, G2. cbn [default from_option id] in G1, G2. rewrite <- Ep, Nat2Z.id, Hj in G1. rewrite <- Ep2, Nat2Z.id, Hj in G2. injection G1 as G1 _. injection G2 as _ G2. simpl in G1, G2.
    by destruct (sendQueue P), (recvQueue P). }
  clear - Hempty. unfold total_tasks. induction (pt_peers s) as [|P ps IH]; [done|]. simpl. destruct (Hempty P ltac:(by left)) as [-> ->]. simpl. apply IH. intros Q HQ. apply Hempty. by right.
Qed.

Lemma p2p_passes_spec fuel : forall log s, prog log s -> (total_tasks (pt_peers s) < fuel)%nat ->
  wpx (p2p_passes fuel comm budget nMin nMax s) (fun s' => exists log', prog (log ++ log') s' /\
    (pt_nTasksP2p s' = 0 \/ testBudget budget (nb (pt_sched s') + nMax) (wb s' + 48) = false))
    (fun e => e = ncclInvalidUsage /\ self_unmatched comm s0).
Proof using Hwf HnMin Hbudget Hlen0 Hwb0 Htasks0.
  induction fuel as [|fuel IH]; intros log s Hp Hf; [lia|]. cbn [p2p_passes]. pose proof (pg_count _ _ _ _ _ _ _ _ _ Hp) as Hct.
  destruct (Z.eqb_spec (pt_nTasksP2p s) 0) as [E|E]; [exists []; rewrite app_nil_r; split; [done|by left]|]. pose proof (pw_nRanks _ _ Hwf) as Hn.
  wp_bind. eapply wpx_mono; [apply (p2p_rounds_spec (Z.to_nat (qc_nRanks comm)) log s 0 Hp); lia| |done]. intros [stop s1] (log1 & Hp1 & Hx). cbn [fst snd] in *. destruct stop.
  { exists log1. split; [done|by right]. }
  destruct Hx as [Hne|Hall].
  - destruct (pg_queues _ _ _ _ _ _ _ _ _ Hp1) as [_ _ Hsum1]. destruct (pg_queues _ _ _ _ _ _ _ _ _ Hp) as [_ _ Hsum]. rewrite bind_app, length_app in Hsum1.
    assert (0 < length (log1 ≫= ev_tasks))%nat as Hpos.
    { pose proof (pg_events _ _ _ _ _ _ _ _ _ Hp1) as He. apply Forall_app in He as [_ He]. destruct log1 as [|e log1]; [done|]. apply Forall_cons in He as [(_ & Hev & _) _].
      simpl. rewrite length_app. destruct (ev_tasks e); [done|]. simpl. lia. }
    eapply wpx_mono; [apply (IH (log ++ log1) s1 Hp1); lia| |done]. intros s' (log2 & Hp2 & Hend). exists (log1 ++ log2). rewrite app_assoc. by split.
  - rewrite (no_heads_no_tasks log s Hp) in Hct; [lia|]. intros i Hi. apply Hall. lia.
Qed.
End Rounds.

(** ** The scheduler *)

Lemma fit_channels_spec nRanks chans : 0 < nRanks <= 2 ^ 24 -> forall fuel n, 1 <= n <= 64 -> n < 2 ^ Z.of_nat fuel ->
  wp (fit_channels fuel nRanks chans n) (fun m => 1 <= m <= n).
Proof.
  intros Hr. induction fuel as [|fuel IH]; intros n Hn Hf; [simpl in Hf; lia|]. cbn [fit_channels].
  rewrite arith_in_range by (unfold in_range; cbn [ity_signed int32 ity_width]; change (2 ^ (32 - 1)) with (2 ^ 24 * 128); nia). cbn [mbind outcome_bind].
  destruct (Z.ltb_spec chans (n * nRanks)); cbn [andb]; [|simpl; lia]. destruct (Z.ltb_spec 1 n); [|simpl; lia]. rewrite quot_div_nonneg by lia.
  eapply wpx_mono; [apply IH; [dlia|]|simpl; dlia|done]. rewrite Nat2Z.inj_succ, Z.pow_succ_r in Hf by lia. dlia.
Qed.

(** The planner and the plan before the call: the plan may hold collectives. *)
Record p2p_ready (comm : p2p_comm) (s : p2p_state) (ws : Z -> list work) (R : Z -> ncclProxyOp -> Prop) : Prop := {
  rd_inv : p2p_inv (pt_sched s) ws (fun _ => wb s) R;
  rd_mask : mask_ok (pt_sched s) ws;
  rd_bytes : 0 <= wb s;
  rd_peers : length (pt_peers s) = Z.to_nat (qc_nRanks comm);
  rd_tasks P t : P ∈ pt_peers s -> t ∈ sendQueue P \/ t ∈ recvQueue P -> p2p_task_ok t;
  rd_count : pt_nTasksP2p s = Z.of_nat (total_tasks (pt_peers s)) }.

Lemma ready_progress comm budget nMin s ws R : p2p_ready comm s ws R ->
  progress comm budget nMin (qc_p2pnChannelsPerPeer comm) (with_sched (use_kernel comm) s) ws R [] (with_sched (use_kernel comm) s).
Proof.
  intros [Hi Hm Hb Hl Ht Hc]. split; cbn [transfers omap list_omap dropped mbind list_bind fmap list_fmap]; rewrite ?app_nil_r; try done.
  - apply queues_start.
  - apply (inv_same (pt_sched s) _ _ _ (p2p_key ws) _ R _); try done. intros c op Hop. by left.
  - change (wb (with_sched (use_kernel comm) s)) with (wb s). simpl. lia.
Qed.

(** Progress does not depend on the kernel and the block size. *)
Lemma progress_kernel comm budget nMin nMax s ws R log s' : progress comm budget nMin nMax (with_sched (use_kernel comm) s) ws R log s' ->
  progress comm budget nMin nMax s ws R log s'.
Proof. intros [? ? ? ? ? ? ? ? ? ? ? ?]. by split. Qed.

(** (C14) [scheduleP2pTasksToPlan] is correct for every state of the queues: given
    fuel for one pass per task it returns, or fails with [ncclInvalidUsage] only
    when the sends a rank has queued for itself are not matched by receives.  When
    it returns, the tasks were taken in a sequence of events, each the heads of the
    queues of one round, so every queue keeps its order and nothing is lost; sends
    to self in place are freed; every other event is one work struct, whose batches
    are on exactly the channels of its parts, in the order of the events, and whose
    proxy operations carry the parts; the channel mask and the byte count are right
    and the plan is within the budget.  It stops only when no task is left or the
    budget does not allow another transfer. *)
Theorem scheduleP2pTasksToPlan_correct fuel comm k budget s ws R : p2p_wf comm k -> p2p_ready comm s ws R ->
  inArgsBytes budget <= 2 ^ 31 -> outArgsBytes budget <= 2 ^ 31 -> (total_tasks (pt_peers s) < fuel)%nat ->
  exists nMin, 1 <= nMin <= qc_p2pnChannelsPerPeer comm /\
  wpx (scheduleP2pTasksToPlan fuel comm budget s) (fun s' => exists log,
    progress comm budget nMin (qc_p2pnChannelsPerPeer comm) s ws R log s' /\
    (pt_nTasksP2p s' = 0 \/ testBudget budget (nb (pt_sched s') + qc_p2pnChannelsPerPeer comm) (wb s' + 48) = false))
    (fun e => e = ncclInvalidUsage /\ self_unmatched comm s).
Proof.
  intros Hwf Hrd Hb1 Hb2 Hf. pose proof (pow2k_le comm k Hwf) as Hk. pose proof (pw_perPeer _ _ Hwf) as Hpp. unfold scheduleP2pTasksToPlan. cbv zeta.
  destruct (wp_elim _ _ (fit_channels_spec (qc_nRanks comm) (qc_p2pnChannels comm) (pw_nRanks _ _ Hwf) 32 (qc_p2pnChannelsPerPeer comm) ltac:(lia)
    ltac:(change (2 ^ Z.of_nat 32) with 4294967296; lia))) as (nMin & -> & Hn).
  exists nMin. split; [done|]. cbn [mbind outcome_bind]. set (s1 := with_sched (use_kernel comm) s).
  eapply wpx_mono; [apply (p2p_passes_spec comm k Hwf budget nMin Hn (conj Hb1 Hb2) s1 ws R (rd_peers _ _ _ _ Hrd) (rd_bytes _ _ _ _ Hrd) (rd_tasks _ _ _ _ Hrd) fuel [] s1);
    [by apply ready_progress|done]| |done].
  intros s' (log & Hp & Hend). exists log. split; [by apply progress_kernel|done].
Qed.

(** ** A rank of sixteen *)

(** The schedules the ranks build are as the scheduler needs them. *)
Lemma init_schedule_ok nRanks infos r sched : 0 < nRanks <= 2 ^ 30 -> length infos = Z.to_nat nRanks -> 0 <= r < nRanks ->
  init_p2pSchedule nRanks r infos = Ret sched -> schedule_ok r nRanks sched.
Proof.
  intros Hn Hl Hr Hs. destruct (init_p2pSchedule_spec nRanks infos Hn Hl) as (nN & nL & rank_at & nodeOf & localOf & HL & Hall). destruct Hn as [_ Hmax].
  rewrite (Hall r Hr) in Hs. injection Hs as <-. split; [by apply (schedule_sends HL Hmax)|by apply (schedule_recvs HL Hmax)|].
  intros p [i Hi]%list_elem_of_lookup. by apply (schedule_pairs HL r r i p p).
Qed.

(** Two nodes of eight ranks; rank 3 sends to 5 and itself and receives from 12. *)
Definition sample_infos : list node_info := (fun f => MkNodeInfo f 0) <$> (replicate 8 0 ++ replicate 8 8).
Definition sample_schedule (r : Z) : list P2pSchedulePair := match init_p2pSchedule 16 r sample_infos with Ret s => s | _ => [] end.
Definition sample_params : p2p_params := MkP2pParams false 16384 0 false false false false 0 0.
Definition sample_services : p2p_services := MkP2pServices false (fun _ _ _ _ _ => (false, 0, [])) (fun _ _ _ _ _ => (false, 0)) (fun _ _ _ => (false, (0, 0), [])) (fun _ _ _ => (false, (0, 0))).
Definition sample_conn : p2p_conn := MkP2pConn true TransportNet true 0.
Definition sample_p2p (r : Z) : p2p_comm :=
  MkP2pComm r 16 2 8 8 4 (sample_schedule r) (replicate 64 (replicate 16 (sample_conn, sample_conn))) [524288; 4915200; 4194304] 131072 true false 4
    (MkSchedComm sample_comm 4 0 [] (MkProxyComm r 16 (replicate 64 sample_pchannel) false (fun _ => false) (replicate 64 sample_connector)
       (replicate 64 sample_connector) 0 0) (fun _ => true) 0 (MkStep 0 0 0 0 0 0 0 0 0 0 0 0, [], [])) sample_params sample_services.

Lemma sample_p2p_wf r : 0 <= r < 16 -> p2p_wf (sample_p2p r) 3.
Proof.
  intros Hr. split; cbn [sample_p2p qc_p2pnChannels qc_p2pnChannelsPerPeer qc_nRanks qc_rank qc_p2pSchedule qc_conns qc_buffSizes qc_p2pChunkSize qc_params qc_funcId qc_sched sc_proxy
    px_rank px_channels px_profSend px_profRecv sample_params pp_chunkSize]; try done; try lia.
  - destruct (init_p2pSchedule_spec 16 sample_infos ltac:(lia) eq_refl) as (nN & nL & rank_at & nodeOf & localOf & HL & Hall).
    apply init_schedule_ok with sample_infos; [lia|done|done|]. unfold sample_schedule. by rewrite (Hall r Hr).
  - intros row ->%elem_of_replicate_inv. done.
  - exists 524288, 4915200, 4194304. split; [done|lia].
  - intros ch send peer ->%elem_of_replicate_inv _ _ _. by exists sample_connector.
Qed.

Definition sample_p2p_task (id bytes : Z) (func : ncclFunc_t) (peer : Z) : ncclTaskP2p := MkTaskP2p id func (1000 * id) bytes ncclInt8 peer bytes 0 0 0.
Definition no_tasks : Peer := MkPeer false false [] [].
Definition sample_peers : list Peer :=
  <[3%nat := MkPeer false false [sample_p2p_task 1 7000 ncclFuncSend 3] [sample_p2p_task 2 7000 ncclFuncRecv 3]]>
  (<[5%nat := MkPeer true false [sample_p2p_task 3 3000000 ncclFuncSend 5; sample_p2p_task 4 0 ncclFuncSend 5] []]>
  (<[12%nat := MkPeer false true [] [sample_p2p_task 5 500 ncclFuncRecv 12]]> (replicate 16 no_tasks))).
Definition sample_p2p_state : p2p_state :=
  MkP2pState (MkSched [] [] 0 [] (replicate 64 empty_channel) (MkCollPlan 0 0 0 false 0 0 0 [] [] []) (MkProxyState [] (replicate 64 0))) [] sample_peers 5 [] [] [].

Lemma sample_p2p_ready : p2p_ready (sample_p2p 3) sample_p2p_state (fun _ => []) (fun _ _ => False).
Proof.
  split; try done.
  - by apply empty_inv.
  - intros c Hc. cbn. rewrite Z.bits_0. split; [done|]. by intros [].
  - intros P t [i Hi]%list_elem_of_lookup. assert (i < 16)%nat by (apply (lookup_lt_Some _ _ _ Hi)). do 16 (destruct i as [|i]; [injection Hi as <-; cbn; set_unfold; naive_solver (unfold p2p_task_ok; cbn; lia)|]). lia.
Qed.

Lemma scheduleP2pTasksToPlan_correct_witness : p2p_ready (sample_p2p 3) sample_p2p_state (fun _ => []) (fun _ _ => False) /\
  exists nMin s log, scheduleP2pTasksToPlan 6 (sample_p2p 3) sample_budget sample_p2p_state = Ret s /\
    progress (sample_p2p 3) sample_budget nMin 4 sample_p2p_state (fun _ => []) (fun _ _ => False) log s /\ pt_nTasksP2p s = 0.
Proof.
  split; [exact sample_p2p_ready|].
  destruct (scheduleP2pTasksToPlan_correct 6 (sample_p2p 3) 3 sample_budget sample_p2p_state (fun _ => []) (fun _ _ => False)
    (sample_p2p_wf 3 ltac:(lia)) sample_p2p_ready ltac:(cbn; lia) ltac:(cbn; lia) ltac:(vm_compute; lia)) as (nMin & _ & H).
  assert (exists s, scheduleP2pTasksToPlan 6 (sample_p2p 3) sample_budget sample_p2p_state = Ret s /\ pt_nTasksP2p s = 0) as (s & Es & Hs).
  { eexists. split; [vm_compute; reflexivity|vm_compute; reflexivity]. }
  rewrite Es in H. destruct H as (log & Hp & _). exists nMin, s, log. split; [exact Es|]. split; [exact Hp|exact Hs].
Defined.
