(* ===== verification/P2pEnds.v ===== *)
(** * Both ends of a point-to-point transfer

    When a task is appended its channels are marked for connection; when it is
    scheduled the sender and the receiver choose protocol, chunk size and number
    of parts alone.  The theorems here say that the channels a transfer uses have
    been marked at both ends and that both ends choose alike. *)
From S2P Require Import Prelude Bitops Device RingAlgo Pat ProxyOp Chunking Proxy Plan FinishPlan CollSched CollPlan Schedule P2pRounds P2pSched P2pPlan P2pTasks.

(** ** Rounds of a peer *)

Definition pick (send : bool) (p : P2pSchedulePair) : Z := if send then sendRank p else recvRank p.

Lemma pick_unique comm k send i j : p2p_wf comm k -> 0 <= i < qc_nRanks comm -> 0 <= j < qc_nRanks comm ->
  pick send (pair_of comm i) = pick send (pair_of comm j) -> i = j.
Proof.
  intros Hwf Hi Hj E. destruct (pair_at comm k Hwf i Hi) as (Li & _). destruct (pair_at comm k Hwf j Hj) as (Lj & _).
  assert (NoDup (pick send <$> qc_p2pSchedule comm)) as Hnd.
  { destruct (pw_schedule _ _ Hwf) as [H1 H2 _]. destruct send; [rewrite H1|rewrite H2]; apply NoDup_seqZ. }
  assert (Z.to_nat i = Z.to_nat j); [|lia]. eapply NoDup_lookup; [exact Hnd| |]; rewrite list_lookup_fmap; [by rewrite Li|rewrite Lj; simpl; by rewrite E].
Qed.

Lemma peer_round comm k send peer : p2p_wf comm k -> 0 <= peer < qc_nRanks comm -> exists i, 0 <= i < qc_nRanks comm /\ pick send (pair_of comm i) = peer.
Proof.
  intros Hwf Hp. assert (peer ∈ pick send <$> qc_p2pSchedule comm) as Hin.
  { destruct (pw_schedule _ _ Hwf) as [H1 H2 _]. destruct send; [rewrite H1|rewrite H2]; apply elem_of_seqZ; lia. }
  apply list_elem_of_fmap in Hin as (p & -> & [i Hi]%list_elem_of_lookup). pose proof (lookup_lt_Some _ _ _ Hi) as Hl. rewrite (sched_length comm k Hwf) in Hl.
  exists (Z.of_nat i). split; [lia|]. unfold pair_of. by rewrite Nat2Z.id, Hi.
Qed.

Lemma find_round_spec comm k send peer : p2p_wf comm k -> 0 <= peer < qc_nRanks comm -> forall fuel r, 0 <= r ->
  (forall i, 0 <= i < r -> pick send (pair_of comm i) <> peer) -> (Z.to_nat (qc_nRanks comm - r) < fuel)%nat ->
  wp (find_round fuel (qc_p2pSchedule comm) send peer r) (fun i => 0 <= i < qc_nRanks comm /\ pick send (pair_of comm i) = peer).
Proof.
  intros Hwf Hp. destruct (peer_round comm k send peer Hwf Hp) as (j & Hj & Ej). induction fuel as [|fuel IH]; intros r Hr Hno Hf; [lia|]. cbn [find_round].
  assert (r <= j) as Hrj by (destruct (Z.le_gt_cases r j); [done|]; by destruct (Hno j ltac:(lia))).
  destruct (pair_at comm k Hwf r ltac:(lia)) as (Lr & _). rewrite (proj2 (zget_Ret _ r _)) by (split; [lia|exact Lr]). cbn [mbind outcome_bind].
  change (if send then sendRank (pair_of comm r) else recvRank (pair_of comm r)) with (pick send (pair_of comm r)).
  destruct (Z.eqb_spec peer (pick send (pair_of comm r))) as [E|E]; [simpl; split; [lia|done]|].
  apply IH; [lia| |lia]. intros i Hi. destruct (Z.eq_dec i r) as [->|]; [congruence|]. apply Hno. lia.
Qed.

(** ** Marking channels *)

Definition cell (m : list (list bool)) (c p : Z) : bool := match m !! Z.to_nat c with Some row => default false (row !! Z.to_nat p) | None => false end.
Definition seen_at (s : append_state) (send : bool) (c p : Z) : bool := cell (seen_of send s) c p.
Definition mask_at (s : append_state) (send : bool) (p : Z) : Z := znth (masks_of send s) p.

Record marks_wf (nRanks : Z) (s : append_state) (send : bool) : Prop := {
  mw_rows : length (seen_of send s) = 64%nat;
  mw_row row : row ∈ seen_of send s -> length row = Z.to_nat nRanks;
  mw_masks : length (masks_of send s) = Z.to_nat nRanks }.

(** A connector that is marked as seen was so before, or is in the mask. *)
Definition marked (old : bool -> Z -> Z -> bool) (s : append_state) (send : bool) : Prop :=
  forall c p, 0 <= c < 64 -> 0 <= p -> seen_at s send c p = true -> old send c p = true \/ Z.testbit (mask_at s send p) c = true /\ ap_preconnect s = true.

Lemma cell_insert m c p row x y : 0 <= c < 64 -> length m = 64%nat -> m !! Z.to_nat c = Some row -> 0 <= p < Z.of_nat (length row) -> 0 <= x -> 0 <= y ->
  cell (<[Z.to_nat c := <[Z.to_nat p := true]> row]> m) x y = if (x =? c) && (y =? p) then true else cell m x y.
Proof.
  intros Hc Hl Hrow Hp Hx Hy. unfold cell. destruct (Z.eqb_spec x c) as [->|Hxc]; cbn [andb].
  - rewrite list_lookup_insert_eq by lia. rewrite Hrow. destruct (Z.eqb_spec y p) as [->|Hyp].
    + by rewrite list_lookup_insert_eq by lia.
    + by rewrite list_lookup_insert_ne by lia.
  - by rewrite list_lookup_insert_ne by lia.
Qed.

(** What marking leaves alone. *)
Definition same_rest (send : bool) (s s' : append_state) : Prop :=
  ap_peers s' = ap_peers s /\ ap_nTasksP2p s' = ap_nTasksP2p s /\ ap_next s' = ap_next s /\ seen_of (negb send) s' = seen_of (negb send) s /\
  masks_of (negb send) s' = masks_of (negb send) s /\ (ap_preconnect s = true -> ap_preconnect s' = true).

Section Mark.
  Context (comm : p2p_comm) (k : Z) (Hwf : p2p_wf comm k) (old : bool -> Z -> Z -> bool) (send : bool) (peer base : Z) (Hpeer : 0 <= peer < qc_nRanks comm) (Hbase : 0 <= base).

Record mark_inv (s0 : append_state) (n : Z) (s : append_state) : Prop := {
  mi_wf : marks_wf (qc_nRanks comm) s send;
  mi_marked : marked old s send;
  mi_rest : same_rest send s0 s;
  mi_mono c p : 0 <= c < 64 -> 0 <= p -> seen_at s0 send c p = true -> seen_at s send c p = true;
  mi_done i : 0 <= i < n -> seen_at s send (channel_at comm base i) peer = true }.

Lemma mark_channel_spec s0 n s : 0 <= n < 2 ^ k -> mark_inv s0 n s -> wp (mark_channel comm send peer base n s) (mark_inv s0 (n + 1)).
Proof using Hwf Hpeer Hbase.
  intros Hn [[W1 W2 W3] Hm Hrest Hmono Hdone]. unfold mark_channel. pose proof (pow2k_le comm k Hwf) as Hk.
  destruct (channel_at_spec comm k Hwf base n Hbase Hn) as (-> & Hc & _). cbn [mbind outcome_bind]. set (c := channel_at comm base n) in *.
  destruct (zget_in_bounds (seen_of send s) c) as (row & -> & Hrow); [lia|]. cbn [mbind outcome_bind].
  pose proof (W2 row (list_elem_of_lookup_2 _ _ _ Hrow)) as Hrl. destruct (zget_in_bounds row peer) as (b & -> & Hb); [lia|]. cbn [mbind outcome_bind].
  assert (seen_at s send c peer = b) as Hsb by (unfold seen_at, cell; by rewrite Hrow, Hb).
  destruct b.
  { simpl. split; try done. intros i Hi. destruct (Z.eq_dec i n) as [->|]; [done|]. apply Hdone. lia. }
  rewrite zset_Ret by lia. cbn [mbind outcome_bind]. rewrite zset_Ret by lia. cbn [mbind outcome_bind]. rewrite zget_znth by lia. cbn [mbind outcome_bind].
  rewrite zset_Ret by lia. cbn [mbind outcome_bind wpx]. set (seen' := <[Z.to_nat c := _]> _). set (masks' := <[Z.to_nat peer := _]> _). set (s' := set_marks send seen' masks' s).
  assert (seen_of send s' = seen' /\ masks_of send s' = masks' /\ ap_preconnect s' = true) as (E1 & E2 & E3) by (unfold s', set_marks, seen_of, masks_of; by destruct send).
  assert (forall x y, 0 <= x -> 0 <= y -> seen_at s' send x y = if (x =? c) && (y =? peer) then true else seen_at s send x y) as Hcell.
  { intros x y Hx Hy. unfold seen_at. rewrite E1. apply cell_insert; done || lia. }
  assert (forall y, 0 <= y -> mask_at s' send y = if peer =? y then Z.lor (mask_at s send peer) (u64 (Z.shiftl 1 c)) else mask_at s send y) as Hmask.
  { intros y Hy. unfold mask_at. rewrite E2. apply znth_insert; lia. }
  split.
  - split; rewrite ?E1, ?E2.
    + unfold seen'. by rewrite length_insert.
    + intros r [i Hi]%list_elem_of_lookup. unfold seen' in Hi. destruct (decide (Z.to_nat c = i)) as [<-|Hne].
      * rewrite list_lookup_insert_eq in Hi by lia. injection Hi as <-. by rewrite length_insert.
      * rewrite list_lookup_insert_ne in Hi by done. by apply W2, (list_elem_of_lookup_2 _ i).
    + unfold masks'. by rewrite length_insert.
  - intros x y Hx Hy. rewrite (Hcell x y) by lia. rewrite (Hmask y Hy). intros Hs. destruct ((x =? c) && (y =? peer)) eqn:Exy.
    + apply andb_true_iff in Exy as [->%Z.eqb_eq ->%Z.eqb_eq]. right. rewrite Z.eqb_refl, testbit_mark, Z.eqb_refl, orb_true_r by lia. done.
    + destruct (Hm x y Hx Hy Hs) as [?|[Hbit _]]; [by left|right]. split; [|done]. destruct (Z.eqb_spec peer y) as [->|]; [|done]. rewrite testbit_mark by lia. by rewrite Hbit.
  - destruct Hrest as (R1 & R2 & R3 & R4 & R5 & R6). unfold s', set_marks, seen_of, masks_of in *. destruct send; by repeat split.
  - intros x y Hx Hy Hs. rewrite Hcell by lia. rewrite (Hmono x y Hx Hy Hs). by destruct (_ && _).
  - intros i Hi. destruct (channel_at_spec comm k Hwf base i Hbase ltac:(lia)) as (_ & Hci & _). rewrite Hcell by lia. rewrite Z.eqb_refl, andb_true_r. fold c.
    destruct (Z.eqb_spec (channel_at comm base i) c) as [|Hne]; [done|]. apply Hdone. destruct (Z.eq_dec i n) as [->|]; [done|lia].
Qed.

Lemma mark_channels_spec s : marks_wf (qc_nRanks comm) s send -> marked old s send ->
  wp (for_range 0 (qc_p2pnChannelsPerPeer comm) (mark_channel comm send peer base) s) (mark_inv s (qc_p2pnChannelsPerPeer comm)).
Proof using Hwf Hpeer Hbase.
  intros Hw Hm. pose proof (pw_perPeer _ _ Hwf). eapply (wpx_for (fun n => mark_inv s n)); [lia| |intros n t Hn; apply mark_channel_spec; lia|done].
  split; try done. intros i Hi. lia.
Qed.
End Mark.

(** ** Appending a task *)

Definition flag (send : bool) (P : Peer) : bool := if send then sendSeen P else recvSeen P.
Definition queue (send : bool) (P : Peer) : list ncclTaskP2p := if send then sendQueue P else recvQueue P.

(** The planner between calls; [old] are the connectors that were seen before,
    by communicators that share them. *)
Record append_inv (comm : p2p_comm) (old : bool -> Z -> Z -> bool) (s : append_state) : Prop := {
  ai_peers : length (ap_peers s) = Z.to_nat (qc_nRanks comm);
  ai_wf send : marks_wf (qc_nRanks comm) s send;
  ai_marked send : marked old s send;
  ai_seen send p P : 0 <= p -> ap_peers s !! Z.to_nat p = Some P -> flag send P = true ->
    forall i part, 0 <= i < qc_nRanks comm -> pick send (pair_of comm i) = p -> 0 <= part < qc_p2pnChannelsPerPeer comm ->
    seen_at s send (channel_at comm (base_of comm i) part) p = true;
  ai_count : ap_nTasksP2p s = Z.of_nat (total_tasks (ap_peers s)) }.

Lemma push_flag send send' t P : flag send' (push_task send t P) = flag send' P.
Proof. by destruct send, send'. Qed.
Lemma seen_flag send send' P : flag send' (set_seen send P) = if Bool.eqb send send' then true else flag send' P.
Proof. by destruct send, send'. Qed.
Lemma push_queue send send' t P : queue send' (push_task send t P) = if Bool.eqb send send' then queue send' P ++ [t] else queue send' P.
Proof. by destruct send, send'. Qed.
Lemma seen_queue send send' P : queue send' (set_seen send P) = queue send' P.
Proof. by destruct send, send'. Qed.

Lemma total_insert_peer (i : nat) (ps : list Peer) P P' n : ps !! i = Some P ->
  (length (queue true P') + length (queue false P') = length (queue true P) + length (queue false P) + n)%nat ->
  (total_tasks (<[i := P']> ps) = total_tasks ps + n)%nat.
Proof.
  unfold total_tasks. revert i. induction ps as [|q ps IH]; intros [|i] Hi Hn; [done|done|injection Hi as ->; simpl in *; lia|].
  simpl in *. specialize (IH i Hi Hn). change (list_insert i P' ps) with (<[i := P']> ps). lia.
Qed.

Lemma push_total send t P : (length (queue true (push_task send t P)) + length (queue false (push_task send t P)) = length (queue true P) + length (queue false P) + 1)%nat.
Proof. rewrite !push_queue. destruct send; simpl; rewrite length_app; simpl; lia. Qed.

(** Marks of a state with other queues. *)
Lemma marks_same s s' send : seen_of send s' = seen_of send s -> masks_of send s' = masks_of send s -> ap_preconnect s' = ap_preconnect s ->
  forall comm old, marks_wf (qc_nRanks comm) s send -> marked old s send -> marks_wf (qc_nRanks comm) s' send /\ marked old s' send.
Proof.
  intros E1 E2 E3 comm old [W1 W2 W3] Hm. split; [split; rewrite ?E1, ?E2; done|]. intros c p. unfold seen_at, mask_at. rewrite E1, E2, E3. apply Hm.
Qed.

(** The new head of the call: the queue with the task. *)
Definition enqueued (comm : p2p_comm) (info : p2p_info) (s : append_state) (P : Peer) (s' : append_state) : Prop :=
  exists P', ap_peers s' !! Z.to_nat (if_peer info) = Some P' /\ queue (if_send info) P' = queue (if_send info) P ++ [new_task comm info (ap_next s)] /\
    queue (negb (if_send info)) P' = queue (negb (if_send info)) P /\
    (forall q, 0 <= q -> q <> if_peer info -> ap_peers s' !! Z.to_nat q = ap_peers s !! Z.to_nat q).

(** A peer replaced by one with the same flags and one task more. *)
Lemma append_inv_peer comm old s s' p P P' : append_inv comm old s -> 0 <= p -> ap_peers s !! Z.to_nat p = Some P -> ap_peers s' = <[Z.to_nat p := P']> (ap_peers s) ->
  ap_nTasksP2p s' = ap_nTasksP2p s + 1 -> (forall send, seen_of send s' = seen_of send s /\ masks_of send s' = masks_of send s) -> ap_preconnect s' = ap_preconnect s ->
  (length (queue true P') + length (queue false P') = length (queue true P) + length (queue false P) + 1)%nat ->
  (forall send, flag send P' = flag send P) -> append_inv comm old s'.
Proof.
  intros [H1 H2 H3 H4 H5] Hp HP Hps Hn Hmk Hpre Hq Hfl. split.
  - by rewrite Hps, length_insert.
  - intros send. destruct (Hmk send) as [E1 E2]. by apply (marks_same s s' send E1 E2 Hpre comm old).
  - intros send. destruct (Hmk send) as [E1 E2]. by apply (marks_same s s' send E1 E2 Hpre comm old).
  - intros send q Q Hq0 HQ Hf i part Hi Hpk Hpart. unfold seen_at. rewrite (proj1 (Hmk send)). rewrite Hps in HQ. destruct (Z.eq_dec q p) as [->|Hne].
    + rewrite list_lookup_insert_eq in HQ by (by eapply lookup_lt_Some). injection HQ as <-. rewrite Hfl in Hf. by apply (H4 send p P).
    + rewrite list_lookup_insert_ne in HQ by lia. by apply (H4 send q Q).
  - rewrite Hn, H5, Hps, (total_insert_peer _ _ _ _ _ HP Hq). lia.
Qed.

(** After the channels were marked and the flag is set. *)
Lemma append_inv_marked comm k old s s2 s' send p P base i0 : p2p_wf comm k -> append_inv comm old s -> 0 <= p -> ap_peers s !! Z.to_nat p = Some P ->
  ap_peers s2 = <[Z.to_nat p := set_seen send P]> (ap_peers s) -> ap_nTasksP2p s2 = ap_nTasksP2p s ->
  (forall d, seen_of d s2 = seen_of d s /\ masks_of d s2 = masks_of d s) -> ap_preconnect s2 = ap_preconnect s ->
  0 <= i0 < qc_nRanks comm -> pick send (pair_of comm i0) = p -> base = base_of comm i0 ->
  mark_inv comm old send p base s2 (qc_p2pnChannelsPerPeer comm) s' -> append_inv comm old s'.
Proof.
  intros Hwf [H1 H2 H3 H4 H5] Hp HP Hps Hn Hmk Hpre Hi0 Hpk0 -> [Mw Mm (R1 & R2 & R3 & R4 & R5 & R6) Mmono Mdone].
  assert (forall d, d <> send -> seen_of d s' = seen_of d s /\ masks_of d s' = masks_of d s) as Hother.
  { intros d Hd. assert (d = negb send) as -> by (by destruct d, send). rewrite R4, R5. apply Hmk. }
  split.
  - by rewrite R1, Hps, length_insert.
  - intros d. destruct (Bool.bool_dec d send) as [->|Hd]; [done|]. destruct (Hother d Hd) as [E1 E2]. destruct (H2 d) as [W1 W2 W3]. split; rewrite ?E1, ?E2; done.
  - intros d. destruct (Bool.bool_dec d send) as [->|Hd]; [done|]. destruct (Hother d Hd) as [E1 E2]. intros c q Hc Hq. unfold seen_at, mask_at. rewrite E1, E2. intros Hs.
    destruct (H3 d c q Hc Hq Hs) as [?|[Hb Hpr]]; [by left|right]. split; [done|]. apply R6. by rewrite Hpre.
  - intros d q Q Hq0 HQ Hf i part Hi Hpk Hpart. rewrite R1, Hps in HQ. pose proof (base_of_range comm i) as Hbi. pose proof (pow2k_le comm k Hwf) as Hk. pose proof (pw_perPeer _ _ Hwf) as Hpp.
    destruct (channel_at_spec comm k Hwf (base_of comm i) part ltac:(lia) ltac:(lia)) as (_ & Hci & _). destruct (Bool.bool_dec d send) as [->|Hd].
    + destruct (Z.eq_dec q p) as [->|Hne]; [rewrite <- Hpk0 in Hpk; rewrite (pick_unique comm k send i i0 Hwf Hi Hi0 Hpk); by apply Mdone|].
      rewrite list_lookup_insert_ne in HQ by lia. apply Mmono; [lia|done|]. unfold seen_at. rewrite (proj1 (Hmk send)). by apply (H4 send q Q).
    + unfold seen_at. rewrite (proj1 (Hother d Hd)). destruct (Z.eq_dec q p) as [->|Hne].
      * rewrite list_lookup_insert_eq in HQ by (by eapply lookup_lt_Some). injection HQ as <-. rewrite seen_flag in Hf.
        destruct (Bool.eqb send d) eqn:Eb; [apply Bool.eqb_prop in Eb; by destruct Hd|]. by apply (H4 d p P).
      * rewrite list_lookup_insert_ne in HQ by lia. by apply (H4 d q Q).
  - rewrite R2, Hn, H5, R1, Hps. rewrite (total_insert_peer _ _ _ _ 0 HP); [by rewrite Nat.add_0_r|]. rewrite !seen_queue. lia.
Qed.

(** The channels of a peer whose flag is set are marked or were seen before. *)
Lemma flag_connected comm k old s send p P : p2p_wf comm k -> append_inv comm old s -> 0 <= p -> ap_peers s !! Z.to_nat p = Some P -> flag send P = true ->
  forall i part, 0 <= i < qc_nRanks comm -> pick send (pair_of comm i) = p -> 0 <= part < qc_p2pnChannelsPerPeer comm ->
  old send (channel_at comm (base_of comm i) part) p = true \/ Z.testbit (mask_at s send p) (channel_at comm (base_of comm i) part) = true /\ ap_preconnect s = true.
Proof.
  intros Hwf Hi Hp HP Hf i part Hir Hpk Hpart. pose proof (base_of_range comm i). pose proof (pow2k_le comm k Hwf). pose proof (pw_perPeer _ _ Hwf).
  destruct (channel_at_spec comm k Hwf (base_of comm i) part ltac:(lia) ltac:(lia)) as (_ & Hc & _).
  apply (ai_marked _ _ _ Hi send); [lia|done|]. by apply (ai_seen _ _ _ Hi send p P).
Qed.

(** (C19) Appending a send or receive keeps the planner's invariant: the count is the
    number of queued tasks, and the channels of a peer that was seen are marked for
    connection or were seen before by a communicator that shares the connectors.
    The search of the round ends, the task is the last of its queue and no other
    queue changes; afterwards every channel on which a part of the transfer may be
    placed, in the round of this peer, is connected or about to be. *)
Theorem taskAppend_p2p_connects comm k old info s : p2p_wf comm k -> append_inv comm old s -> 0 <= if_peer info < qc_nRanks comm ->
  wp (taskAppend_p2p comm info s) (fun s' => append_inv comm old s' /\
    (exists P, ap_peers s !! Z.to_nat (if_peer info) = Some P /\ enqueued comm info s P s') /\
    (if_peer info <> qc_rank comm -> forall i part, 0 <= i < qc_nRanks comm -> pick (if_send info) (pair_of comm i) = if_peer info ->
       0 <= part < qc_p2pnChannelsPerPeer comm -> let c := channel_at comm (base_of comm i) part in
       old (if_send info) c (if_peer info) = true \/ Z.testbit (mask_at s' (if_send info) (if_peer info)) c = true /\ ap_preconnect s' = true)).
Proof.
  intros Hwf Hi Hp. set (send := if_send info). set (peer := if_peer info) in *. pose proof (ai_peers _ _ _ Hi) as Hl.
  unfold taskAppend_p2p. cbv zeta. fold send. fold peer. destruct (zget_in_bounds (ap_peers s) peer) as (P & -> & HP); [lia|]. cbn [mbind outcome_bind].
  set (P1 := push_task send _ P). rewrite zset_Ret by lia. cbn [mbind outcome_bind].
  set (s1 := MkAppend _ _ _ _ _ _ _ _). assert (append_inv comm old s1) as Hi1.
  { apply (append_inv_peer comm old s s1 peer P P1 Hi); [lia|done|done|done|by intros []|done|apply push_total|intros; apply push_flag]. }
  assert (ap_peers s1 !! Z.to_nat peer = Some P1) as HP1 by (apply list_lookup_insert_eq; lia).
  assert (enqueued comm info s P s1) as Henq.
  { exists P1. split; [done|]. unfold P1. rewrite !push_queue. fold send. split; [by rewrite Bool.eqb_reflx|]. split; [by destruct send|]. intros q Hq Hne. apply list_lookup_insert_ne. fold peer in Hne. lia. }
  destruct (Z.eqb_spec (qc_rank comm) peer) as [Eself|Eself]; [split; [done|]; split; [by exists P|]; intros Hne; by destruct Hne|].
  change (if send then sendSeen P1 else recvSeen P1) with (flag send P1). destruct (flag send P1) eqn:Ef.
  { split; [done|]. split; [by exists P|]. intros _. apply (flag_connected comm k old s1 send peer P1); [done|done|lia|done|done]. }
  rewrite zset_Ret by (rewrite length_insert; lia). cbn [mbind outcome_bind].
  set (s2 := MkAppend (<[_ := _]> (<[_ := _]> _)) _ _ _ _ _ _ _). wp_bind.
  eapply wpx_mono; [apply (find_round_spec comm k send peer Hwf Hp); [lia|intros i Hi0; lia|rewrite (sched_length comm k Hwf); lia]| |done]. intros i0 [Hi0 Hpk0].
  fold (base_of comm i0). pose proof (base_of_range comm i0).
  assert (marks_wf (qc_nRanks comm) s2 send /\ marked old s2 send) as [Hw2 Hm2].
  { apply (marks_same s1 s2 send); try done; [apply Hi1|apply Hi1]. }
  eapply wpx_mono; [apply (mark_channels_spec comm k Hwf old send peer (base_of comm i0) Hp ltac:(lia) s2 Hw2 Hm2)| |done]. intros s' Hmi.
  assert (append_inv comm old s') as Hi'.
  { apply (append_inv_marked comm k old s1 s2 s' send peer P1 (base_of comm i0) i0 Hwf Hi1 ltac:(lia) HP1); done. }
  assert (ap_peers s' !! Z.to_nat peer = Some (set_seen send P1) /\ forall q, 0 <= q -> q <> peer -> ap_peers s' !! Z.to_nat q = ap_peers s1 !! Z.to_nat q) as [HPs Hoth].
  { destruct (mi_rest _ _ _ _ _ _ _ _ Hmi) as (R1 & _). rewrite R1. split; [apply list_lookup_insert_eq; rewrite length_insert; lia|]. intros q Hq Hne. cbn. by rewrite list_lookup_insert_ne by lia. }
  split; [done|]. split.
  - exists P. split; [done|]. destruct Henq as (Q & HQ & Q1 & Q2 & Q3). fold peer in HQ. rewrite HP1 in HQ. injection HQ as <-. exists (set_seen send P1). fold send in Q1, Q2 |- *. fold peer.
    split; [done|]. rewrite !seen_queue. split; [done|]. split; [done|]. intros q Hq Hne. rewrite (Hoth q Hq Hne). by apply Q3.
  - intros _. apply (flag_connected comm k old s' send peer (set_seen send P1)); [done|done|lia|done|]. by rewrite seen_flag, Bool.eqb_reflx.
Qed.

Definition sample_append : append_state :=
  MkAppend (replicate 16 no_tasks) 0 (replicate 64 (replicate 16 false)) (replicate 64 (replicate 16 false)) (zeros 16) (zeros 16) false 1.

Lemma sample_append_inv : append_inv (sample_p2p 3) (fun _ _ _ => false) sample_append.
Proof.
  split; try done.
  - intros send. split; [by destruct send| |by destruct send]. intros row Hrow. destruct send; apply elem_of_replicate_inv in Hrow as ->; done.
  - intros send c p Hc Hp Hs. assert (seen_at sample_append send c p = false) as E; [|congruence]. unfold seen_at, cell. destruct (_ !! Z.to_nat c) as [row|] eqn:Er; [|done].
    destruct send; apply list_elem_of_lookup_2, elem_of_replicate_inv in Er as ->; (destruct (_ !! Z.to_nat p) as [b|] eqn:Eb; [|done]);
      by apply list_elem_of_lookup_2, elem_of_replicate_inv in Eb as ->.
  - intros send p P Hp HP Hf. apply list_elem_of_lookup_2, elem_of_replicate_inv in HP as ->. exfalso. destruct send; discriminate Hf.
Qed.

Lemma taskAppend_p2p_connects_witness : append_inv (sample_p2p 3) (fun _ _ _ => false) sample_append /\
  exists s, taskAppend_p2p (sample_p2p 3) (MkP2pInfo true 5 1000 3000 ncclFloat32) sample_append = Ret s /\ append_inv (sample_p2p 3) (fun _ _ _ => false) s /\
    Z.testbit (mask_at s true 5) (channel_at (sample_p2p 3) (base_of (sample_p2p 3) 4) 1) = true.
Proof.
  split; [exact sample_append_inv|].
  destruct (wp_elim _ _ (taskAppend_p2p_connects (sample_p2p 3) 3 (fun _ _ _ => false) (MkP2pInfo true 5 1000 3000 ncclFloat32) sample_append
    (sample_p2p_wf 3 ltac:(lia)) sample_append_inv ltac:(change (0 <= 5 < 16); lia))) as (s & Es & Hs & _ & Hc).
  exists s. split; [exact Es|]. split; [exact Hs|].
  assert (exists i, 0 <= i < 16 /\ pick true (pair_of (sample_p2p 3) i) = 5 /\ i = 4) as (i & Hi & Hpk & ->) by (exists 4; split; [lia|]; split; [vm_compute; reflexivity|reflexivity]).
  destruct (Hc ltac:(change (5 <> 3); lia) 4 1 ltac:(change (0 <= 4 < 16); lia) Hpk ltac:(change (0 <= 1 < 4); lia)) as [?|[Hb _]]; [discriminate|exact Hb].
Defined.

(** ** Both ends choose alike *)

(** The settings two ranks of a communicator share, and that the transport gave
    the two ends of each connection the same LL buffers and the same kind. *)
Record ends (A B : p2p_comm) : Prop := {
  en_nRanks : qc_nRanks A = qc_nRanks B;
  en_nNodes : qc_nNodes A = qc_nNodes B;
  en_locals : qc_maxLocalRanks A = qc_maxLocalRanks B;
  en_channels : qc_p2pnChannels A = qc_p2pnChannels B;
  en_perPeer : qc_p2pnChannelsPerPeer A = qc_p2pnChannelsPerPeer B;
  en_sizes : qc_buffSizes A = qc_buffSizes B /\ qc_p2pChunkSize A = qc_p2pChunkSize B;
  en_params : pp_llThreshold (qc_params A) = pp_llThreshold (qc_params B) /\ pp_chunkSize (qc_params A) = pp_chunkSize (qc_params B);
  en_conns c x y : conn_at A c (qc_rank B) true = Ret x -> conn_at B c (qc_rank A) false = Ret y -> pn_hasLL x = pn_hasLL y /\ is_network A x = is_network B y }.

(** Two loops in step. *)
Lemma for_range_step2 {S T} (Rel : S -> T -> Prop) lo hi (f : Z -> S -> outcome S) (g : Z -> T -> outcome T) : forall s t,
  Rel s t -> (forall i s t, lo <= i < hi -> Rel s t -> exists s' t', f i s = Ret s' /\ g i t = Ret t' /\ Rel s' t') ->
  exists s' t', for_range lo hi f s = Ret s' /\ for_range lo hi g t = Ret t' /\ Rel s' t'.
Proof.
  intros s t HR Hst. unfold for_range. set (n := Z.to_nat (hi - lo)). assert (lo + Z.of_nat n <= Z.max lo hi) as Hn by (unfold n; lia).
  assert (forall i, lo <= i < lo + Z.of_nat n -> lo <= i < hi) as Hin by (intros; lia). clearbody n. clear Hn. revert lo s t HR Hst Hin.
  induction n as [|n IH]; intros lo s t HR Hst Hin; [by exists s, t|]. cbn [for_n]. destruct (Hst lo s t ltac:(apply Hin; lia) HR) as (s1 & t1 & -> & -> & HR1). cbn [mbind outcome_bind].
  apply (IH (lo + 1) s1 t1 HR1); [intros i u v Hi; apply Hst; lia|]. intros i Hi. specialize (Hin i). lia.
Qed.

Section Agree.
  Context (A B : p2p_comm) (k : Z) (HA : p2p_wf A k) (HB : p2p_wf B k) (He : ends A B) (base : Z) (Hbase : 0 <= base).

Lemma channel_at_same part : channel_at A base part = channel_at B base part.
Proof using He. unfold channel_at. by rewrite (en_channels _ _ He). Qed.

Lemma probe_agree nMax : nMax <= 2 ^ k -> exists p q, probe_dir A base nMax (qc_rank B) true false = Ret p /\ probe_dir B base nMax (qc_rank A) false false = Ret q /\
  pb_protoLL p = pb_protoLL q /\ pb_network p = pb_network q.
Proof using HA HB He Hbase.
  intros Hn. unfold probe_dir. pose proof (pow2k_le A k HA) as Hk.
  apply (for_range_step2 (fun p q => pb_protoLL p = pb_protoLL q /\ pb_network p = pb_network q)); [done|]. intros i p q Hi [E1 E2]. unfold probe_part.
  destruct (channel_at_spec A k HA base i Hbase ltac:(lia)) as (-> & Hc & _). destruct (channel_at_spec B k HB base i Hbase ltac:(lia)) as (-> & _ & _).
  rewrite <- channel_at_same. cbn [mbind outcome_bind].
  destruct (conn_at_total A k HA (channel_at A base i) (qc_rank B) true ltac:(lia) ltac:(rewrite (en_nRanks _ _ He); apply HB)) as [x Ex].
  destruct (conn_at_total B k HB (channel_at A base i) (qc_rank A) false ltac:(lia) ltac:(rewrite <- (en_nRanks _ _ He); apply HA)) as [y Ey].
  rewrite Ex, Ey. cbn [mbind outcome_bind]. destruct (en_conns _ _ He _ _ _ Ex Ey) as [Hl Hw]. eexists _, _. split; [done|]. split; [done|]. cbn. by rewrite E1, E2, Hl, Hw.
Qed.

Lemma chunk_agree nMax bytes p q : pb_protoLL p = pb_protoLL q -> pb_network p = pb_network q -> chunk_dir A nMax bytes p = chunk_dir B nMax bytes q.
Proof using He.
  intros E1 E2. destruct (en_sizes _ _ He) as [S1 S2]. destruct (en_params _ _ He) as [P1 P2]. unfold chunk_dir. by rewrite E1, E2, S1, S2, P1, P2.
Qed.

Lemma parts_agree nMin nMax bytes step : parts_dir A nMin nMax bytes step = parts_dir B nMin nMax bytes step.
Proof using He. unfold parts_dir. by rewrite (en_nNodes _ _ He). Qed.

Lemma plan_agree nMin nMax addr addr' bytes : 1 <= nMin <= nMax -> nMax <= 2 ^ k -> bytes_ok bytes -> exists dS dR,
  plan_dir A base nMin nMax addr bytes (qc_rank B) true false = Ret dS /\ plan_dir B base nMin nMax addr' bytes (qc_rank A) false false = Ret dR /\
  dp_chunk dS = dp_chunk dR /\ dp_nChannels dS = dp_nChannels dR.
Proof using HA HB He Hbase.
  intros Hn Hx Hb. destruct (probe_agree nMax Hx) as (p & q & Ep & Eq & E1 & E2).
  destruct (wp_elim _ _ (chunk_dir_spec A k nMax bytes p HA Hb)) as (c & Ec & Hc). pose proof Ec as Ec'. rewrite (chunk_agree nMax bytes p q E1 E2) in Ec'.
  pose proof (pw_rank _ _ HA) as RA. pose proof (pw_rank _ _ HB) as RB. rewrite (en_nRanks _ _ He) in RA. rewrite <- (en_nRanks _ _ He) in RB.
  destruct (wp_elim _ _ (register_dir_spec A k HA base nMin nMax (qc_rank B) Hbase Hn Hx RB addr bytes true false p (dc_protocol c))) as (r & Er & _).
  destruct (wp_elim _ _ (register_dir_spec B k HB base nMin nMax (qc_rank A) Hbase Hn Hx RA addr' bytes false false q (dc_protocol c))) as (r' & Er' & _).
  pose proof (pow2k_le A k HA). destruct (wp_elim _ _ (parts_dir_spec A nMin nMax bytes (dc_stepSize c) Hn ltac:(lia) Hb (co_step _ Hc))) as (n & En & _).
  pose proof En as En'. rewrite parts_agree in En'. exists (MkDirPlan p c r n), (MkDirPlan q c r' n).
  unfold plan_dir. rewrite Ep, Eq. cbn [mbind outcome_bind]. rewrite Ec, Ec'. cbn [mbind outcome_bind]. rewrite Er, Er'. cbn [mbind outcome_bind]. by rewrite En, En'.
Qed.
End Agree.

(** (C18) The two ends of a point-to-point transfer agree.  For ranks [a] and [b] that
    built their schedules from the same gathered data there is exactly one round in
    which [a] schedules its sends to [b], and it is the round in which [b] schedules
    its receives from [a]; for the same number of bytes both choose the same
    protocol, chunk size and number of parts, the part of every channel is the same
    range of bytes at both ends, the device finds the part back from the channel,
    and the parts lie among the channels that were connected for the peer. *)
Theorem p2p_ends_agree A B k infos : p2p_wf A k -> p2p_wf B k -> ends A B -> length infos = Z.to_nat (qc_nRanks A) ->
  init_p2pSchedule (qc_nRanks A) (qc_rank A) infos = Ret (qc_p2pSchedule A) -> init_p2pSchedule (qc_nRanks B) (qc_rank B) infos = Ret (qc_p2pSchedule B) ->
  exists r, 0 <= r < qc_nRanks A /\ (forall i, 0 <= i < qc_nRanks A -> sendRank (pair_of A i) = qc_rank B <-> i = r) /\
    (forall i, 0 <= i < qc_nRanks A -> recvRank (pair_of B i) = qc_rank A <-> i = r) /\
    forall nMin addr addr' bytes, 1 <= nMin <= qc_p2pnChannelsPerPeer A -> bytes_ok bytes -> exists dS dR,
      plan_dir A (base_of A r) nMin (qc_p2pnChannelsPerPeer A) addr bytes (qc_rank B) true false = Ret dS /\
      plan_dir B (base_of B r) nMin (qc_p2pnChannelsPerPeer B) addr' bytes (qc_rank A) false false = Ret dR /\
      dp_chunk dS = dp_chunk dR /\ dp_nChannels dS = dp_nChannels dR /\ dp_nChannels dS <= qc_p2pnChannelsPerPeer A /\
      forall part, 0 <= part < dp_nChannels dS -> channel_at A (base_of A r) part = channel_at B (base_of B r) part /\
        ncclP2pChannelToPart (qc_p2pnChannels A) (base_of A r) (channel_at A (base_of A r) part) = Ret part.
Proof.
  intros HA HB He Hl SA SB. pose proof (pw_rank _ _ HA) as RA. pose proof (pw_rank _ _ HB) as RB. pose proof (pw_nRanks _ _ HA) as Hn. pose proof (en_nRanks _ _ He) as EN. rewrite <- EN in *.
  destruct (init_p2pSchedule_spec (qc_nRanks A) infos ltac:(lia) Hl) as (nN & nL & rank_at & nodeOf & localOf & HL & Hall).
  rewrite (Hall _ RA) in SA. rewrite (Hall _ RB) in SB. injection SA as SA. injection SB as SB.
  assert (forall i, 0 <= i < qc_nRanks A -> sendRank (pair_of A i) = qc_rank B <-> recvRank (pair_of B i) = qc_rank A) as Hpair.
  { intros i Hi. destruct (pair_at A k HA i Hi) as (La & _). destruct (pair_at B k HB i ltac:(lia)) as (Lb & _). rewrite <- SA in La. rewrite <- SB in Lb. by apply (schedule_pairs HL _ _ (Z.to_nat i)). }
  destruct (peer_round A k true (qc_rank B) HA RB) as (r & Hr & Er). exists r. split; [done|].
  assert (forall i, 0 <= i < qc_nRanks A -> sendRank (pair_of A i) = qc_rank B <-> i = r) as Hone.
  { intros i Hi. split; [|by intros ->]. intros E. apply (pick_unique A k true i r HA Hi Hr). cbn. simpl in Er. congruence. }
  split; [done|]. split; [intros i Hi; by rewrite <- (Hpair i Hi), (Hone i Hi)|]. intros nMin addr addr' bytes Hnm Hb.
  pose proof (base_of_range A r) as Hbase. assert (base_of B r = base_of A r) as Eb by (unfold base_of; by rewrite (en_nNodes _ _ He), (en_locals _ _ He)). rewrite Eb.
  pose proof (pw_perPeer _ _ HA) as Hpp. destruct (plan_agree A B k HA HB He (base_of A r) ltac:(lia) nMin (qc_p2pnChannelsPerPeer A) addr addr' bytes Hnm ltac:(lia) Hb)
    as (dS & dR & ES & ER & E1 & E2). exists dS, dR. rewrite <- (en_perPeer _ _ He). split; [done|]. split; [done|]. split; [done|]. split; [done|].
  destruct (wp_elim _ _ (plan_dir_spec A k HA (base_of A r) nMin (qc_p2pnChannelsPerPeer A) (qc_rank B) ltac:(lia) Hnm ltac:(lia) RB addr bytes true false Hb)) as (d & Ed & [_ _ Hd _]).
  rewrite ES in Ed. injection Ed as <-. split; [lia|]. intros part Hpart. split; [by apply channel_at_same|]. by apply (channel_at_spec A k HA); lia.
Qed.

Lemma p2p_ends_agree_witness : (p2p_wf (sample_p2p 3) 3 /\ p2p_wf (sample_p2p 12) 3 /\ ends (sample_p2p 3) (sample_p2p 12)) /\
  exists r dS dR, sendRank (pair_of (sample_p2p 3) r) = 12 /\ recvRank (pair_of (sample_p2p 12) r) = 3 /\
    plan_dir (sample_p2p 3) (base_of (sample_p2p 3) r) 1 4 1000 3000000 12 true false = Ret dS /\
    plan_dir (sample_p2p 12) (base_of (sample_p2p 12) r) 1 4 9000 3000000 3 false false = Ret dR /\ dp_chunk dS = dp_chunk dR /\ dp_nChannels dS = dp_nChannels dR.
Proof.
  assert (ends (sample_p2p 3) (sample_p2p 12)) as He.
  { split; try done. intros c x y Hx Hy. assert (forall r p send z, conn_at (sample_p2p r) c p send = Ret z -> z = sample_conn) as Hz.
    { intros r p send z. unfold conn_at. cbn [sample_p2p qc_conns]. destruct (zget _ c) as [row| |] eqn:Er; [|done|done]. apply zget_Ret in Er as [_ Er].
      apply list_elem_of_lookup_2, elem_of_replicate_inv in Er as ->. cbn [mbind outcome_bind]. destruct (zget _ p) as [q| |] eqn:Eq; [|done|done]. apply zget_Ret in Eq as [_ Eq].
      apply list_elem_of_lookup_2, elem_of_replicate_inv in Eq as ->. cbn [mbind outcome_bind]. intros [= <-]. by destruct send. }
    by rewrite (Hz _ _ _ _ Hx), (Hz _ _ _ _ Hy). }
  pose proof (sample_p2p_wf 3 ltac:(lia)) as H3. pose proof (sample_p2p_wf 12 ltac:(lia)) as H12. split; [done|].
  destruct (p2p_ends_agree (sample_p2p 3) (sample_p2p 12) 3 sample_infos H3 H12 He eq_refl ltac:(vm_compute; reflexivity) ltac:(vm_compute; reflexivity)) as (r & Hr & Hs & Hv & H).
  destruct (H 1 1000 9000 3000000 ltac:(change (1 <= 1 <= 4); lia) ltac:(split; lia)) as (dS & dR & E1 & E2 & E3 & E4 & _). exists r, dS, dR.
  split; [by apply (Hs r Hr)|]. split; [by apply (Hv r Hr)|]. split; [exact E1|]. split; [exact E2|]. split; [exact E3|exact E4].
Defined.
