(* ===== verification/UserOps.v ===== *)
(** * Reduction operators (src/src/enqueue.cc, include/comm.h, misc/argcheck.cc)

    A reduction operator is a built-in value or a handle of an operator the user
    created.  The operators of a communicator are in an array with a free list
    through it; a handle is the index of an entry, scrambled with a hash of the
    communicator's address so that a handle is refused by another communicator.
    [hostToDevRedOp] turns an operator into what the device is given. *)
From S2P Require Import Prelude Bitops Device RingAlgo.
From stdpp Require Import gmap.

#[local] Open Scope Z_scope.

(** ** Operators *)

(** An [ncclRedOp_t] is the integer the program compares it as. *)
Definition ncclSum : Z := 0.
Definition ncclProd : Z := 1.
Definition ncclMax : Z := 2.
Definition ncclMin : Z := 3.
Definition ncclAvg : Z := 4.
Definition ncclNumOps : Z := 5.
Definition ncclMaxRedOp : Z := 0x7fffffff.

Record ncclDevRedOpFull := MkRedOpFull { ro_op : ncclDevRedOp_t; ro_proxyOp : Z; ro_scalarArgIsPtr : bool; ro_scalarArg : Z }.

(** [freeNext] is -1 for an allocated entry, else the index of the next free one. *)
Record ncclUserRedOp := MkUserRedOp { ur_freeNext : Z; ur_datatype : ncclDataType_t; ur_opFull : ncclDevRedOpFull }.

(** The fields of [ncclComm]; [uc_addr] is its address. *)
Record user_comm := MkUserComm {
  uc_addr : Z; uc_magic : Z * Z; uc_rank : Z; uc_nRanks : Z; uc_checkPointers : bool;
  uc_capacity : Z; uc_freeHead : Z; uc_ops : list ncclUserRedOp }.

Definition NCCL_MAGIC : Z := 0x0280028002800280.

Definition with_ops (comm : user_comm) (capacity freeHead : Z) (ops : list ncclUserRedOp) : user_comm :=
  MkUserComm (uc_addr comm) (uc_magic comm) (uc_rank comm) (uc_nRanks comm) (uc_checkPointers comm) capacity freeHead ops.

(** The 31-bit hash of the communicator's address. *)
Definition comm_hash (addr : Z) : Z :=
  let h := u64 addr in
  let h := Z.lxor h (Z.shiftr h 32) in
  let h := u64 (h * 0x9e3779b97f4a7c13) in
  Z.land (Z.shiftr h 32) ncclMaxRedOp.

Definition ncclUserRedOpMangle (addr op : Z) : Z :=
  if op <? ncclNumOps then op
  else let op1 := Z.lxor (comm_hash addr) op in if op1 <? ncclNumOps then op else op1.

(** ** Creating and destroying operators *)

Definition PtrCheck (ptr : Z) : outcome unit := if ptr =? 0 then Fail ncclInvalidArgument else Ret tt.

Definition CommCheck (comm : user_comm) : outcome unit :=
  _ ← PtrCheck (uc_addr comm);
  if negb (fst (uc_magic comm) =? NCCL_MAGIC) || negb (snd (uc_magic comm) =? NCCL_MAGIC) then Fail ncclInvalidArgument else Ret tt.

(** The array of twice the capacity; [junk] is what [new] leaves in an entry. *)
Definition grow_ops (junk : ncclUserRedOp) (comm : user_comm) : outcome user_comm :=
  if uc_freeHead comm =? uc_capacity comm then
    cap ← arith int32 (2 * uc_capacity comm);
    let cap := if cap <? 4 then 4 else cap in
    let fresh := (fun ix => MkUserRedOp (ix + 1) (ur_datatype junk) (ur_opFull junk)) <$> seqZ (uc_capacity comm) (cap - uc_capacity comm) in
    Ret (with_ops comm cap (uc_freeHead comm) (take (Z.to_nat (uc_capacity comm)) (uc_ops comm) ++ fresh))
  else Ret comm.

Inductive ncclScalarResidence_t := ncclScalarDevice | ncclScalarHostImmediate.

(** [memcpy] of [size] bytes over the low bytes of a word. *)
Definition overlay (old size value : Z) : Z := old / 2 ^ (8 * size) * 2 ^ (8 * size) + value.

(** The value of [size] bytes of memory. *)
Definition read_bytes (mem : Z -> Z) (addr size : Z) : Z := le_word ((fun i => u8 (mem (addr + i))) <$> seqZ 0 size).

(** [ensureReady] is the result of [ncclCommEnsureReady], [scalar] an address and
    [mem] the memory; the handle and the communicator are returned.  The test for a
    size below 1 is not written: every constructor of [ncclDataType_t] has a size. *)
Definition ncclRedOpCreatePreMulSum (ensureReady : outcome unit) (junk : ncclUserRedOp) (mem : Z -> Z) (scalar : Z) (datatype : ncclDataType_t)
    (residence : ncclScalarResidence_t) (comm : user_comm) : outcome (Z * user_comm) :=
  _ ← CommCheck comm;
  _ ← ensureReady;
  comm ← grow_ops junk comm;
  let ix := uc_freeHead comm in
  user ← zget (uc_ops comm) ix;
  let full := ur_opFull user in
  let full := match residence with
    | ncclScalarHostImmediate => MkRedOpFull ncclDevPreMulSum (ro_proxyOp full) false (overlay (ro_scalarArg full) (ncclTypeSize datatype) (read_bytes mem scalar (ncclTypeSize datatype)))
    | ncclScalarDevice => MkRedOpFull ncclDevPreMulSum (ro_proxyOp full) true (u64 scalar)
    end in
  ops ← zset (uc_ops comm) ix (MkUserRedOp (-1) datatype full);
  op ← arith int32 (ncclNumOps + ix);
  Ret (ncclUserRedOpMangle (uc_addr comm) op, with_ops comm (uc_capacity comm) (ur_freeNext user) ops).

(** The test for an operator the communicator does not know. *)
Definition unknown_op (comm : user_comm) (ix : Z) : outcome bool :=
  if uc_capacity comm <=? ix then Ret true else user ← zget (uc_ops comm) ix; Ret (negb (ur_freeNext user =? -1)).

(** A null communicator is one at address 0. *)
Definition ncclRedOpDestroy (op : Z) (comm : user_comm) : outcome user_comm :=
  if (0 <=? op) && (op <? ncclNumOps) then Fail ncclInvalidArgument
  else if (op <? 0) || (ncclMaxRedOp <? op) then Fail ncclInvalidArgument
  else if uc_addr comm =? 0 then Fail ncclInvalidArgument
  else
    let ix := ncclUserRedOpMangle (uc_addr comm) op - ncclNumOps in
    b ← unknown_op comm ix;
    if b : bool then Fail ncclInvalidArgument
    else
      user ← zget (uc_ops comm) ix;
      ops ← zset (uc_ops comm) ix (MkUserRedOp (uc_freeHead comm) (ur_datatype user) (ur_opFull user));
      Ret (with_ops comm (uc_capacity comm) ix ops).

(** ** Using an operator *)

(** What [ArgsCheck] reads of [ncclInfo]; the data type as the integer given. *)
Record check_info := MkCheckInfo {
  ck_coll : ncclFunc_t; ck_root : Z; ck_datatype : Z; ck_op : Z; ck_count : Z; ck_sendbuff : Z; ck_recvbuff : Z }.

(** [cudaPointerAttributes]: the device pointer, whether the memory is the
    device's, and the device; [attr] stands for [cudaPointerGetAttributes], [None] an error. *)
Record ptr_attr := MkPtrAttr { at_devicePointer : Z; at_isDevice : bool; at_device : Z }.

Definition CudaPtrCheck (attr : Z -> option ptr_attr) (cudaDev pointer : Z) : outcome unit :=
  match attr pointer with
  | None => Fail ncclInvalidArgument
  | Some a =>
    if at_devicePointer a =? 0 then Fail ncclInvalidArgument
    else if at_isDevice a && negb (at_device a =? cudaDev) then Fail ncclInvalidArgument
    else Ret tt
  end.

Definition check_pointers (attr : Z -> option ptr_attr) (cudaDev : Z) (comm : user_comm) (info : check_info) : outcome unit :=
  if uc_checkPointers comm then
    if bool_decide (ck_coll info = ncclFuncSend) || bool_decide (ck_coll info = ncclFuncRecv) then
      if 0 <? ck_count info then CudaPtrCheck attr cudaDev (ck_recvbuff info) else Ret tt
    else
      _ ← (if negb (bool_decide (ck_coll info = ncclFuncBroadcast)) || (uc_rank comm =? ck_root info) then CudaPtrCheck attr cudaDev (ck_sendbuff info) else Ret tt);
      if negb (bool_decide (ck_coll info = ncclFuncReduce)) || (uc_rank comm =? ck_root info) then CudaPtrCheck attr cudaDev (ck_recvbuff info) else Ret tt
  else Ret tt.

Definition ArgsCheck (attr : Z -> option ptr_attr) (cudaDev : Z) (comm : user_comm) (info : check_info) : outcome unit :=
  if (ck_root info <? 0) || (uc_nRanks comm <=? ck_root info) then Fail ncclInvalidArgument
  else if (ck_datatype info <? 0) || (ncclNumTypes <=? ck_datatype info) then Fail ncclInvalidArgument
  else if (ck_op info <? 0) || (ncclMaxRedOp <? ck_op info) then Fail ncclInvalidArgument
  else
    let opIx := ncclUserRedOpMangle (uc_addr comm) (ck_op info) - ncclNumOps in
    b ← (if ncclNumOps <=? ck_op info then unknown_op comm opIx else Ret false);
    if b : bool then Fail ncclInvalidArgument else check_pointers attr cudaDev comm info.

(** The masks of the integer types. *)
Definition allBits (datatype : ncclDataType_t) : Z := Z.shiftr (u64 (-1)) (64 - 8 * ncclTypeSize datatype).
Definition signBit (datatype : ncclDataType_t) : Z := Z.lxor (allBits datatype) (Z.shiftr (allBits datatype) 1).

Definition is_signed (datatype : ncclDataType_t) : bool :=
  match datatype with ncclInt8 | ncclInt32 | ncclInt64 => true | _ => false end.
Definition is_integer (datatype : ncclDataType_t) : bool :=
  match datatype with ncclInt8 | ncclUint8 | ncclInt32 | ncclUint32 | ncclInt64 | ncclUint64 => true | _ => false end.

(** [recip t n] are the bits of [1.0/n] in the floating point type [t]; [opFull] is
    the struct written to.  The test [nbits <= 0] is not written: every constructor of
    [ncclDataType_t] has a size. *)
Definition hostToDevRedOp (recip : ncclDataType_t -> Z -> Z) (opFull : ncclDevRedOpFull) (op : Z) (datatype : ncclDataType_t) (comm : user_comm)
    : outcome ncclDevRedOpFull :=
  if op =? ncclSum then Ret (MkRedOpFull ncclDevSum op false (ro_scalarArg opFull))
  else if op =? ncclProd then Ret (MkRedOpFull ncclDevProd op false (ro_scalarArg opFull))
  else if (op =? ncclMin) || (op =? ncclMax) then
    let arg := if is_signed datatype then Z.lxor 0 (signBit datatype) else 0 in
    Ret (MkRedOpFull ncclDevMinMax op false (Z.lxor arg (if op =? ncclMax then allBits datatype else 0)))
  else if op =? ncclAvg then
    if is_integer datatype then
      n ← arith int32 (Z.shiftl (uc_nRanks comm) 1);
      Ret (MkRedOpFull ncclDevSumPostDiv op false (u64 (Z.lor n (Z.b2z (is_signed datatype)))))
    else Ret (MkRedOpFull ncclDevPreMulSum op false (recip datatype (uc_nRanks comm)))
  else
    user ← zget (uc_ops comm) (ncclUserRedOpMangle (uc_addr comm) op - ncclNumOps);
    if bool_decide (datatype = ur_datatype user) then Ret (ur_opFull user) else Fail ncclInvalidArgument.

(** ** Handles *)

Lemma comm_hash_range addr : 0 <= comm_hash addr < 2 ^ 31.
Proof. unfold comm_hash. change ncclMaxRedOp with (Z.ones 31). rewrite Z.land_ones by lia. by apply Z.mod_pos_bound. Qed.

Lemma lxor_bound a b n : 0 <= n -> 0 <= a < 2 ^ n -> 0 <= b < 2 ^ n -> 0 <= Z.lxor a b < 2 ^ n.
Proof.
  intros Hn Ha Hb. assert (0 <= Z.lxor a b) as H0 by (apply Z.lxor_nonneg; lia). split; [done|].
  apply lt_pow2_bits; [done|done|]. intros i Hi. by rewrite Z.lxor_spec, !(testbit_high _ n).
Qed.

(** The values that can be handles. *)
Definition is_handle (op : Z) : Prop := ncclNumOps <= op <= ncclMaxRedOp.

Lemma mangle_handle addr op : is_handle op -> is_handle (ncclUserRedOpMangle addr op).
Proof.
  unfold is_handle, ncclUserRedOpMangle, ncclNumOps, ncclMaxRedOp. intros H. pose proof (comm_hash_range addr).
  pose proof (lxor_bound (comm_hash addr) op 31 ltac:(lia) ltac:(lia) ltac:(lia)). zcases; lia.
Qed.

Lemma mangle_cases addr op : let x := Z.lxor (comm_hash addr) op in is_handle op ->
  x < ncclNumOps /\ ncclUserRedOpMangle addr op = op \/ ncclNumOps <= x /\ ncclUserRedOpMangle addr op = x.
Proof. intros x H. unfold is_handle, ncclUserRedOpMangle in *. destruct (Z.ltb_spec op ncclNumOps); [lia|]. fold x. destruct (Z.ltb_spec x ncclNumOps); auto. Qed.

(** Scrambling twice gives the operator back. *)
Lemma mangle_involutive addr op : is_handle op -> ncclUserRedOpMangle addr (ncclUserRedOpMangle addr op) = op.
Proof.
  intros H. pose proof (mangle_handle addr op H) as H'. destruct (mangle_cases addr op H) as [[_ E]|[Hx E]]; [by rewrite !E|].
  destruct (mangle_cases addr _ H') as [[Hx' E']|[_ E']]; rewrite E', E in *; rewrite <- Z.lxor_assoc, Z.lxor_nilpotent, Z.lxor_0_l in *; [unfold is_handle in H; lia|done].
Qed.

(** The index of a handle and the handle of an index. *)
Definition index_of (addr h : Z) : Z := ncclUserRedOpMangle addr h - ncclNumOps.
Definition handle_of (addr ix : Z) : Z := ncclUserRedOpMangle addr (ncclNumOps + ix).

Lemma index_of_range addr h : is_handle h -> 0 <= index_of addr h.
Proof. intros H. pose proof (mangle_handle addr h H) as H'. unfold index_of, is_handle in *. lia. Qed.

Lemma handle_of_index addr ix : 0 <= ix <= ncclMaxRedOp - ncclNumOps -> is_handle (handle_of addr ix) /\ index_of addr (handle_of addr ix) = ix.
Proof.
  intros H. assert (is_handle (ncclNumOps + ix)) as Hh by (unfold is_handle; lia). split; [by apply mangle_handle|].
  unfold index_of, handle_of. rewrite mangle_involutive by done. lia.
Qed.

Lemma index_of_inj addr h h' : is_handle h -> is_handle h' -> index_of addr h = index_of addr h' -> h = h'.
Proof. unfold index_of. intros H H' E. rewrite <- (mangle_involutive addr h), <- (mangle_involutive addr h') by done. f_equal. lia. Qed.

(** ** The free list *)

Fixpoint freeseg (ops : list ncclUserRedOp) (p : Z) (l : list Z) (e : Z) : Prop :=
  match l with
  | [] => p = e
  | x :: l => p = x /\ 0 <= x /\ exists u, ops !! Z.to_nat x = Some u /\ freeseg ops (ur_freeNext u) l e
  end.

Lemma freeseg_ext ops ops' p l e : (forall x u, x ∈ l -> ops !! Z.to_nat x = Some u -> ops' !! Z.to_nat x = Some u) -> freeseg ops p l e -> freeseg ops' p l e.
Proof.
  revert p. induction l as [|x l IH]; intros p He; [done|]. intros (-> & Hx & u & Hu & Hl). split; [done|]. split; [done|]. exists u.
  split; [apply He; [by left|done]|]. apply IH; [|done]. intros y v Hy. apply He. by right.
Qed.

Lemma freeseg_in ops p l e x : freeseg ops p l e -> x ∈ l -> 0 <= x < Z.of_nat (length ops).
Proof.
  revert p. induction l as [|y l IH]; intros p; [by intros _ ?%not_elem_of_nil|]. intros (-> & Hy & u & Hu & Hl) [->|Hx]%elem_of_cons; [|by eapply IH].
  apply lookup_lt_Some in Hu. lia.
Qed.

(** Entries that each point to the next one. *)
Lemma freeseg_fresh junk ops k n : (forall i, 0 <= i < Z.of_nat n -> ops !! Z.to_nat (k + i) = Some (MkUserRedOp (k + i + 1) (ur_datatype junk) (ur_opFull junk))) -> 0 <= k ->
  freeseg ops k (seqZ k (Z.of_nat n)) (k + Z.of_nat n).
Proof.
  revert k. induction n as [|n IH]; intros k He Hk; [simpl; lia|]. rewrite Nat2Z.inj_succ, seqZ_cons by lia. split; [done|]. split; [done|].
  exists (MkUserRedOp (k + 1) (ur_datatype junk) (ur_opFull junk)). split; [specialize (He 0 ltac:(lia)); rewrite Z.add_0_r in He; exact He|].
  cbn [ur_freeNext]. replace (Z.succ k) with (k + 1) by lia. replace (Z.pred (Z.succ (Z.of_nat n))) with (Z.of_nat n) by lia.
  replace (k + Z.succ (Z.of_nat n)) with (k + 1 + Z.of_nat n) by lia. apply IH; [|lia]. intros i Hi. specialize (He (i + 1) ltac:(lia)).
  by replace (k + 1 + i) with (k + (i + 1)) by lia.
Qed.

(** ** Specification: a finite map from handles to operators *)

Record user_op := MkUserOp { uo_datatype : ncclDataType_t; uo_isPtr : bool; uo_value : Z }.

(** The operator an entry holds: of an immediate scalar the bytes of its type. *)
Definition op_ok (a : user_op) (dt : ncclDataType_t) (f : ncclDevRedOpFull) : Prop :=
  dt = uo_datatype a /\ ro_op f = ncclDevPreMulSum /\ ro_scalarArgIsPtr f = uo_isPtr a /\
  (if uo_isPtr a then ro_scalarArg f else ro_scalarArg f mod 2 ^ (8 * ncclTypeSize dt)) = uo_value a.

Inductive uop :=
  | Create (junk : ncclUserRedOp) (mem : Z -> Z) (scalar : Z) (dt : ncclDataType_t) (res : ncclScalarResidence_t)
  | Destroy (h : Z)
  | Use (h : Z) (dt : ncclDataType_t) (junk : ncclDevRedOpFull).
Inductive ures := RHandle (h : Z) | RDone | RFull (f : ncclDevRedOpFull) | RError (e : ncclResult_t).

Definition created (mem : Z -> Z) (scalar : Z) (dt : ncclDataType_t) (res : ncclScalarResidence_t) : user_op :=
  match res with
  | ncclScalarHostImmediate => MkUserOp dt false (read_bytes mem scalar (ncclTypeSize dt))
  | ncclScalarDevice => MkUserOp dt true (u64 scalar)
  end.

(** A handle is usable from its creation to its destruction; a new one is fresh. *)
Definition uspec (M : gmap Z user_op) (op : uop) (M' : gmap Z user_op) (r : ures) : Prop :=
  match op with
  | Create _ mem scalar dt res => exists h, r = RHandle h /\ is_handle h /\ M !! h = None /\ M' = <[h := created mem scalar dt res]> M
  | Destroy h => if M !! h then r = RDone /\ M' = delete h M else r = RError ncclInvalidArgument /\ M' = M
  | Use h dt _ =>
    M' = M /\
    if decide (0 <= h < ncclNumOps) then exists f, r = RFull f
    else match M !! h with
    | Some a => if decide (dt = uo_datatype a) then exists f, r = RFull f /\ op_ok a dt f else r = RError ncclInvalidArgument
    | None => r = RError ncclInvalidArgument
    end
  end.

Fixpoint uspec_run (M : gmap Z user_op) (ops : list uop) (rs : list ures) (M' : gmap Z user_op) : Prop :=
  match ops, rs with
  | [], [] => M' = M
  | op :: ops, r :: rs => exists M1, uspec M op M1 r /\ uspec_run M1 ops rs M'
  | _, _ => False
  end.

(** ** Running the code *)

(** An error is reported and leaves the communicator as it was. *)
Definition or_error {A} (m : outcome A) (comm : user_comm) (f : A -> user_comm * ures) : outcome (user_comm * ures) :=
  match m with Ret a => Ret (f a) | Fail e => Ret (comm, RError e) | Stuck => Stuck end.

(** A collective checks its arguments before it reads the operator. *)
Definition use_op (recip : ncclDataType_t -> Z -> Z) (junk : ncclDevRedOpFull) (comm : user_comm) (h : Z) (dt : ncclDataType_t) : outcome ncclDevRedOpFull :=
  _ ← ArgsCheck (fun _ => Some (MkPtrAttr 1 true 0)) 0 comm (MkCheckInfo ncclFuncAllReduce 0 (datatype_index dt) h 1 0 0);
  hostToDevRedOp recip junk h dt comm.

Definition ustep (recip : ncclDataType_t -> Z -> Z) (comm : user_comm) (op : uop) : outcome (user_comm * ures) :=
  match op with
  | Create junk mem scalar dt res => or_error (ncclRedOpCreatePreMulSum (Ret tt) junk mem scalar dt res comm) comm (fun p => (p.2, RHandle p.1))
  | Destroy h => or_error (ncclRedOpDestroy h comm) comm (fun c => (c, RDone))
  | Use h dt junk => or_error (use_op recip junk comm h dt) comm (fun f => (comm, RFull f))
  end.

Fixpoint urun (recip : ncclDataType_t -> Z -> Z) (comm : user_comm) (ops : list uop) : outcome (user_comm * list ures) :=
  match ops with
  | [] => Ret (comm, [])
  | op :: ops => '(comm, r) ← ustep recip comm op; '(comm, rs) ← urun recip comm ops; Ret (comm, r :: rs)
  end.

(** ** Representation *)

Definition free_entry (u : ncclUserRedOp) : Prop := ur_freeNext u <> -1.

(** What the map says of the entry of a handle. *)
Definition entry_ok (a : option user_op) (u : ncclUserRedOp) : Prop :=
  match a with Some a => ~ free_entry u /\ op_ok a (ur_datatype u) (ur_opFull u) | None => free_entry u end.

(** [free] lists the free entries; at most [n] are in use. *)
Record ops_rep (comm : user_comm) (free : list Z) (M : gmap Z user_op) (n : Z) : Prop := {
  or_comm : uc_addr comm <> 0 /\ uc_magic comm = (NCCL_MAGIC, NCCL_MAGIC) /\ 0 < uc_nRanks comm < 2 ^ 30;
  or_length : Z.of_nat (length (uc_ops comm)) = uc_capacity comm;
  or_free : freeseg (uc_ops comm) (uc_freeHead comm) free (uc_capacity comm);
  or_nodup : NoDup free;
  or_alloc : forall i u, uc_ops comm !! i = Some u -> free_entry u <-> Z.of_nat i ∈ free;
  or_dom : forall h a, M !! h = Some a -> is_handle h /\ index_of (uc_addr comm) h < uc_capacity comm;
  or_map : forall h u, is_handle h -> uc_ops comm !! Z.to_nat (index_of (uc_addr comm) h) = Some u -> entry_ok (M !! h) u;
  or_count : uc_capacity comm - Z.of_nat (length free) <= n /\ uc_capacity comm <= Z.max 4 (2 * n);
}.

Section steps.
Context (recip : ncclDataType_t -> Z -> Z).

Lemma map_None comm free M n h : ops_rep comm free M n -> ~ is_handle h -> M !! h = None.
Proof. intros Hr Hh. destruct (M !! h) as [a|] eqn:E; [|done]. by destruct (or_dom _ _ _ _ Hr h a E). Qed.

(** The test finds out whether the map has the handle. *)
Lemma unknown_spec comm free M n h : ops_rep comm free M n -> is_handle h -> unknown_op comm (index_of (uc_addr comm) h) = Ret (bool_decide (M !! h = None)).
Proof.
  intros Hr Hh. unfold unknown_op. pose proof (index_of_range (uc_addr comm) h Hh). destruct (Z.leb_spec (uc_capacity comm) (index_of (uc_addr comm) h)) as [Hc|Hc].
  - rewrite bool_decide_true; [done|]. destruct (M !! h) as [a|] eqn:E; [|done]. destruct (or_dom _ _ _ _ Hr h a E). lia.
  - pose proof (or_length _ _ _ _ Hr). destruct (zget_in_bounds (uc_ops comm) (index_of (uc_addr comm) h)) as (u & -> & Hu); [lia|]. cbn [mbind outcome_bind].
    pose proof (or_map _ _ _ _ Hr h u Hh Hu) as He. unfold entry_ok, free_entry in He. f_equal. destruct (M !! h); destruct (Z.eqb_spec (ur_freeNext u) (-1)); naive_solver.
Qed.

Lemma live_entry comm free M n h a : ops_rep comm free M n -> M !! h = Some a ->
  is_handle h /\ 0 <= index_of (uc_addr comm) h < uc_capacity comm /\
  exists u, zget (uc_ops comm) (index_of (uc_addr comm) h) = Ret u /\ uc_ops comm !! Z.to_nat (index_of (uc_addr comm) h) = Some u /\ op_ok a (ur_datatype u) (ur_opFull u) /\ ur_freeNext u = -1.
Proof.
  intros Hr E. destruct (or_dom _ _ _ _ Hr h a E) as [Hh Hc]. pose proof (index_of_range (uc_addr comm) h Hh). pose proof (or_length _ _ _ _ Hr).
  split; [done|]. split; [lia|]. destruct (zget_in_bounds (uc_ops comm) (index_of (uc_addr comm) h)) as (u & Eu & Hu); [lia|]. exists u. split; [done|]. split; [done|].
  pose proof (or_map _ _ _ _ Hr h u Hh Hu) as He. rewrite E in He. destruct He as [Hf Hok]. split; [done|]. unfold free_entry in Hf. lia.
Qed.

Lemma use_spec comm free M n h dt junk : ops_rep comm free M n -> exists r, ustep recip comm (Use h dt junk) = Ret (comm, r) /\ uspec M (Use h dt junk) M r.
Proof.
  intros Hr. destruct (or_comm _ _ _ _ Hr) as (_ & _ & Hn). cbn [ustep uspec]. unfold use_op, ArgsCheck. cbn [ck_root ck_datatype ck_op].
  assert ((0 <? 0) || (uc_nRanks comm <=? 0) = false) as -> by (zcases; lia).
  assert ((datatype_index dt <? 0) || (ncclNumTypes <=? datatype_index dt) = false) as -> by (by destruct dt).
  assert (check_pointers (fun _ => Some (MkPtrAttr 1 true 0)) 0 comm (MkCheckInfo ncclFuncAllReduce 0 (datatype_index dt) h 1 0 0) = Ret tt) as Hck.
  { unfold check_pointers. by destruct (uc_checkPointers comm). }
  destruct (decide (is_handle h)) as [Hh|Hh].
  - assert ((h <? 0) || (ncclMaxRedOp <? h) = false) as -> by (unfold is_handle, ncclNumOps in Hh; zcases; lia).
    assert ((ncclNumOps <=? h) = true) as -> by (unfold is_handle in Hh; zcases; lia). fold (index_of (uc_addr comm) h). rewrite (unknown_spec comm free M n h Hr Hh).
    cbn [mbind outcome_bind]. destruct (decide (0 <= h < ncclNumOps)) as [?|_]; [unfold is_handle in Hh; lia|]. destruct (M !! h) as [a|] eqn:E.
    + rewrite bool_decide_false by done. rewrite Hck. cbn [mbind outcome_bind]. destruct (live_entry comm free M n h a Hr E) as (_ & _ & u & Eu & _ & Hok & _).
      unfold hostToDevRedOp. fold (index_of (uc_addr comm) h). rewrite Eu. cbn [mbind outcome_bind].
      assert ((h =? ncclSum) = false /\ (h =? ncclProd) = false /\ (h =? ncclMin) || (h =? ncclMax) = false /\ (h =? ncclAvg) = false) as (-> & -> & -> & ->).
      { unfold is_handle, ncclNumOps, ncclSum, ncclProd, ncclMin, ncclMax, ncclAvg in *. split_and!; zcases; lia. }
      pose proof (proj1 Hok) as Hdt. case_bool_decide as Hd; rewrite Hdt in Hd; eexists; (split; [reflexivity|split; [done|]]).
      * rewrite decide_True by done. eexists. split; [done|]. by rewrite Hd, <- Hdt.
      * by rewrite decide_False.
    + rewrite bool_decide_true by done. eexists. split; [reflexivity|done].
  - destruct (decide (0 <= h < ncclNumOps)) as [Hb|Hb].
    + assert ((h <? 0) || (ncclMaxRedOp <? h) = false) as -> by (unfold ncclNumOps, ncclMaxRedOp in *; zcases; lia).
      assert ((ncclNumOps <=? h) = false) as -> by (zcases; lia). cbn [mbind outcome_bind]. rewrite Hck. cbn [mbind outcome_bind]. unfold hostToDevRedOp.
      assert (arith int32 (Z.shiftl (uc_nRanks comm) 1) = Ret (2 * uc_nRanks comm)) as ->.
      { rewrite Z.shiftl_mul_pow2, Z.mul_comm by lia. apply arith_in_range. unfold in_range, int32. simpl. lia. }
      assert (h = 0 \/ h = 1 \/ h = 2 \/ h = 3 \/ h = 4) as [->|[->|[->|[->| ->]]]] by (unfold ncclNumOps in Hb; lia); simpl; [| | | |destruct (is_integer dt)]; eexists; (split; [reflexivity|split; [done|by eexists]]).
    + assert ((h <? 0) || (ncclMaxRedOp <? h) = true) as -> by (unfold is_handle, ncclNumOps, ncclMaxRedOp in *; zcases; lia).
      eexists. split; [reflexivity|]. split; [done|]. by rewrite (map_None comm free M n h Hr Hh).
Qed.

(** Destroying puts the entry in front of the free list. *)
Lemma destroy_spec comm free M n h : ops_rep comm free M n -> exists comm' r free' M', ustep recip comm (Destroy h) = Ret (comm', r) /\ uspec M (Destroy h) M' r /\ ops_rep comm' free' M' n.
Proof.
  intros Hr. destruct (or_comm _ _ _ _ Hr) as (Ha & Hrest). cbn [ustep uspec]. unfold ncclRedOpDestroy. rewrite (proj2 (Z.eqb_neq _ _) Ha). destruct (M !! h) as [a|] eqn:E.
  - destruct (live_entry comm free M n h a Hr E) as (Hh & Hix & u & Eu & Hu & Hok & Hlive). set (ix := index_of (uc_addr comm) h) in *.
    assert ((0 <=? h) && (h <? ncclNumOps) = false /\ (h <? 0) || (ncclMaxRedOp <? h) = false) as [-> ->] by (unfold is_handle, ncclNumOps in Hh; split; zcases; unfold ncclNumOps in *; lia).
    fold (index_of (uc_addr comm) h). fold ix. rewrite (unknown_spec comm free M n h Hr Hh : unknown_op comm ix = _), E, bool_decide_false by done. cbn [mbind outcome_bind].
    rewrite Eu. cbn [mbind outcome_bind]. pose proof (or_length _ _ _ _ Hr) as Hl. rewrite zset_Ret by lia. cbn [mbind outcome_bind or_error]. set (u' := MkUserRedOp _ _ _).
    assert (ix ∉ free) as Hnf. { rewrite <- (Z2Nat.id ix) by lia. rewrite <- (or_alloc _ _ _ _ Hr _ u Hu). unfold free_entry. lia. }
    assert (uc_freeHead comm <> -1) as Hhd. { pose proof (or_free _ _ _ _ Hr) as Hf. destruct free as [|y l]; [simpl in Hf; lia|]. simpl in Hf. lia. }
    eexists _, _, (ix :: free), (delete h M). split; [reflexivity|]. split; [done|]. split; cbn [with_ops uc_addr uc_magic uc_nRanks uc_capacity uc_freeHead uc_ops].
    + done.
    + by rewrite length_insert.
    + split; [done|]. split; [lia|]. exists u'. split; [apply list_lookup_insert_eq; lia|]. eapply freeseg_ext; [|apply (or_free _ _ _ _ Hr)].
      intros x v Hx Hv. rewrite list_lookup_insert_ne; [done|]. pose proof (freeseg_in _ _ _ _ _ (or_free _ _ _ _ Hr) Hx). intros Exy. apply Hnf. by replace ix with x by lia.
    + constructor; [done|apply Hr].
    + intros i v [(<- & <- & _)|[Hne Hv]]%list_lookup_insert_Some; [rewrite Z2Nat.id by lia; split; [by left|done]|].
      rewrite (or_alloc _ _ _ _ Hr i v Hv), elem_of_cons. split; [by right|]. intros [Ei|]; [lia|done].
    + intros h' b [_ Hb]%lookup_delete_Some. apply (or_dom _ _ _ _ Hr h' b Hb).
    + intros h' v Hh' Hv. destruct (decide (h' = h)) as [->|Hne].
      * rewrite lookup_delete_eq. fold ix in Hv. rewrite list_lookup_insert_eq in Hv by lia. by injection Hv as <-.
      * rewrite lookup_delete_ne by done. rewrite list_lookup_insert_ne in Hv; [by apply (or_map _ _ _ _ Hr)|].
        pose proof (index_of_range (uc_addr comm) h' Hh'). intros Ei. apply Hne, (index_of_inj (uc_addr comm)); [done|done|]. fold ix. lia.
    + destruct (or_count _ _ _ _ Hr). cbn [length]. lia.
  - exists comm, (RError ncclInvalidArgument), free, M. split; [|by split].
    destruct ((0 <=? h) && (h <? ncclNumOps)) eqn:B1; [done|]. destruct ((h <? 0) || (ncclMaxRedOp <? h)) eqn:B2; [done|].
    assert (is_handle h) as Hh by (unfold is_handle; revert B1 B2; zcases; try done; lia). fold (index_of (uc_addr comm) h). rewrite (unknown_spec comm free M n h Hr Hh), E.
    by rewrite bool_decide_true.
Qed.

(** After growing there is a free entry; the map is the same. *)
Lemma grow_spec junk comm free M n : ops_rep comm free M n -> 0 <= n < 2 ^ 28 ->
  exists comm' x free', grow_ops junk comm = Ret comm' /\ ops_rep comm' (x :: free') M n /\ uc_freeHead comm' = x.
Proof.
  intros Hr Hn. unfold grow_ops. pose proof (or_length _ _ _ _ Hr) as Hl. destruct free as [|x free].
  - pose proof (or_free _ _ _ _ Hr) as Hf. simpl in Hf. rewrite Hf, Z.eqb_refl. destruct (or_count _ _ _ _ Hr) as [Hc _]. cbn [length] in Hc. set (cap := uc_capacity comm) in *.
    rewrite arith_in_range by (unfold in_range, int32; simpl; lia). cbn [mbind outcome_bind]. set (cap' := if 2 * cap <? 4 then 4 else 2 * cap).
    assert (Z.max 4 (2 * cap) = cap') as Ecap by (unfold cap'; zcases; lia). set (fresh := fmap _ _).
    rewrite take_ge by lia. eexists _, cap, (seqZ (cap + 1) (cap' - cap - 1)). split; [reflexivity|]. split; [|done].
    assert (forall i, 0 <= i < cap' - cap -> (uc_ops comm ++ fresh) !! Z.to_nat (cap + i) = Some (MkUserRedOp (cap + i + 1) (ur_datatype junk) (ur_opFull junk))) as Hfresh.
    { intros i Hi. rewrite lookup_app_r by lia. replace (Z.to_nat (cap + i) - length (uc_ops comm))%nat with (Z.to_nat i) by lia. unfold fresh. rewrite list_lookup_fmap, lookup_seqZ_lt by lia. simpl. f_equal. f_equal. lia. }
    assert (cap :: seqZ (cap + 1) (cap' - cap - 1) = seqZ cap (cap' - cap)) as Eseq by (rewrite (seqZ_cons cap) by lia; f_equal; f_equal; lia). rewrite Eseq.
    split; cbn [with_ops uc_addr uc_magic uc_nRanks uc_capacity uc_freeHead uc_ops].
    + apply Hr.
    + rewrite length_app. unfold fresh. rewrite length_fmap, length_seqZ. lia.
    + rewrite <- (Z2Nat.id (cap' - cap)) by lia. replace cap' with (cap + Z.of_nat (Z.to_nat (cap' - cap))) at 2 by lia. apply (freeseg_fresh junk); [|lia]. intros i Hi. apply Hfresh. lia.
    + apply NoDup_seqZ.
    + intros i u Hu. rewrite elem_of_seqZ. destruct (Nat.lt_ge_cases i (length (uc_ops comm))) as [Hlt|Hge].
      * rewrite lookup_app_l in Hu by done. rewrite (or_alloc _ _ _ _ Hr i u Hu), elem_of_nil. split; [done|lia].
      * pose proof (lookup_lt_Some _ _ _ Hu) as Hi. rewrite length_app in Hi. unfold fresh in Hi. rewrite length_fmap, length_seqZ in Hi.
        pose proof (Hfresh (Z.of_nat i - cap) ltac:(lia)) as Hu'. replace (Z.to_nat (cap + (Z.of_nat i - cap))) with i in Hu' by lia. rewrite Hu in Hu'. injection Hu' as ->.
        unfold free_entry. cbn [ur_freeNext]. split; intros _; lia.
    + intros h a Ha. destruct (or_dom _ _ _ _ Hr h a Ha). split; [done|]. unfold cap in *. lia.
    + intros h u Hh Hu. pose proof (index_of_range (uc_addr comm) h Hh). set (ix := index_of (uc_addr comm) h) in *. destruct (Z.lt_ge_cases ix cap) as [Hlt|Hge].
      * rewrite lookup_app_l in Hu by lia. by apply (or_map _ _ _ _ Hr).
      * assert (M !! h = None) as ->. { destruct (M !! h) as [a|] eqn:E; [|done]. destruct (or_dom _ _ _ _ Hr h a E). unfold cap in *. lia. }
        pose proof (lookup_lt_Some _ _ _ Hu) as Hi. rewrite length_app in Hi. unfold fresh in Hi. rewrite length_fmap, length_seqZ in Hi.
        pose proof (Hfresh (ix - cap) ltac:(lia)) as Hu'. replace (cap + (ix - cap)) with ix in Hu' by lia. rewrite Hu in Hu'. injection Hu' as ->. unfold entry_ok, free_entry. cbn. lia.
    + rewrite length_seqZ. lia.
  - assert (uc_freeHead comm = x /\ 0 <= x < uc_capacity comm) as [Hx Hb].
    { pose proof (or_free _ _ _ _ Hr) as Hf. rewrite <- Hl. split; [apply Hf|]. eapply freeseg_in; [exact Hf|by left]. }
    destruct (Z.eqb_spec (uc_freeHead comm) (uc_capacity comm)); [lia|]. by exists comm, x, free.
Qed.

Lemma read_bytes_range mem a size : 0 <= size -> 0 <= read_bytes mem a size < 2 ^ (8 * size).
Proof.
  intros Hs. unfold read_bytes. pose proof (le_word_range ((fun i => u8 (mem (a + i))) <$> seqZ 0 size)) as H. rewrite length_fmap, length_seqZ, Z2Nat.id in H by lia.
  apply H, Forall_fmap, Forall_true. intros i. unfold is_byte, u8. simpl. apply Z.mod_pos_bound. lia.
Qed.

Lemma overlay_mod old size v : 0 <= size -> 0 <= v < 2 ^ (8 * size) -> overlay old size v mod 2 ^ (8 * size) = v.
Proof. intros Hs Hv. unfold overlay. rewrite Z.add_comm, Z.mod_add by (apply Z.pow_nonzero; lia). by apply Z.mod_small. Qed.

(** Creating takes the first free entry. *)
Lemma create_spec junk mem scalar dt res comm free M n : ops_rep comm free M n -> 0 <= n < 2 ^ 28 -> exists comm' r free' M',
  ustep recip comm (Create junk mem scalar dt res) = Ret (comm', r) /\ uspec M (Create junk mem scalar dt res) M' r /\ ops_rep comm' free' M' (n + 1).
Proof.
  intros Hr0 Hn. destruct (or_comm _ _ _ _ Hr0) as (Ha & Hm & _). cbn [ustep uspec]. unfold ncclRedOpCreatePreMulSum, CommCheck, PtrCheck.
  rewrite (proj2 (Z.eqb_neq _ _) Ha), Hm. simpl ((_ || _) : bool). cbn [mbind outcome_bind].
  destruct (grow_spec junk comm free M n Hr0 Hn) as (c & x & fr & -> & Hr & Hhd). cbn [mbind outcome_bind]. rewrite Hhd.
  destruct (or_free _ _ _ _ Hr) as (_ & Hx & u & Hu & Hseg). pose proof (or_length _ _ _ _ Hr) as Hl. pose proof (lookup_lt_Some _ _ _ Hu) as Hlt. destruct (or_count _ _ _ _ Hr) as [Hc1 Hc2]. cbn [length] in Hc1.
  rewrite (proj2 (zget_Ret (uc_ops c) x u) (conj Hx Hu)). cbn [mbind outcome_bind]. rewrite zset_Ret by lia. cbn [mbind outcome_bind].
  rewrite arith_in_range by (unfold in_range, int32, ncclNumOps; simpl; lia). cbn [mbind outcome_bind or_error fst snd]. set (f := match res with ncclScalarDevice => _ | _ => _ end).
  fold (handle_of (uc_addr c) x). destruct (handle_of_index (uc_addr c) x) as [Hh Hix]; [unfold ncclMaxRedOp, ncclNumOps; lia|]. set (h := handle_of (uc_addr c) x) in *.
  assert (free_entry u) as Hfree by (apply (or_alloc _ _ _ _ Hr _ u Hu); rewrite Z2Nat.id by done; by left).
  assert (M !! h = None) as Hnew.
  { pose proof (or_map _ _ _ _ Hr h u Hh) as He. rewrite Hix in He. specialize (He Hu). destruct (M !! h); [by destruct He|done]. }
  pose proof (or_nodup _ _ _ _ Hr) as [Hxf Hnd]%NoDup_cons.
  eexists _, _, fr, _. split; [reflexivity|]. split; [exists h; done|]. split; cbn [with_ops uc_addr uc_magic uc_nRanks uc_capacity uc_freeHead uc_ops].
  - apply Hr.
  - by rewrite length_insert.
  - eapply freeseg_ext; [|exact Hseg]. intros y v Hy Hv. rewrite list_lookup_insert_ne; [done|]. pose proof (freeseg_in _ _ _ _ _ Hseg Hy). intros Exy. apply Hxf. by replace x with y by lia.
  - done.
  - intros i v [(<- & <- & _)|[Hne Hv]]%list_lookup_insert_Some; [rewrite Z2Nat.id by lia; by split|].
    rewrite (or_alloc _ _ _ _ Hr i v Hv), elem_of_cons. split; [|by right]. intros [Ei|]; [lia|done].
  - intros h' b [[<- _]|[_ Hb]]%lookup_insert_Some; [split; [done|lia]|]. apply (or_dom _ _ _ _ Hr h' b Hb).
  - intros h' v Hh' Hv. destruct (decide (h' = h)) as [->|Hne].
    + rewrite lookup_insert_eq. rewrite Hix, list_lookup_insert_eq in Hv by lia. injection Hv as <-. split; [by intros []|]. cbn [ur_datatype ur_opFull].
      unfold op_ok, f, created. destruct res; cbn; [done|]. split_and!; try done. apply overlay_mod; [destruct dt; simpl; lia|]. apply read_bytes_range. destruct dt; simpl; lia.
    + rewrite lookup_insert_ne by done. rewrite list_lookup_insert_ne in Hv; [by apply (or_map _ _ _ _ Hr)|].
      pose proof (index_of_range (uc_addr c) h' Hh'). intros Ei. apply Hne, (index_of_inj (uc_addr c)); [done|done|]. rewrite Hix. lia.
  - lia.
Qed.

Lemma ops_rep_weaken comm free M n n' : n <= n' -> ops_rep comm free M n -> ops_rep comm free M n'.
Proof. intros Hn [? ? ? ? ? ? ? [? ?]]. split; try done. split; lia. Qed.

Lemma urun_spec ops comm free M n : ops_rep comm free M n -> 0 <= n -> n + Z.of_nat (length ops) < 2 ^ 28 -> exists comm' rs free' M',
  urun recip comm ops = Ret (comm', rs) /\ uspec_run M ops rs M' /\ ops_rep comm' free' M' (n + Z.of_nat (length ops)).
Proof.
  revert comm free M n. induction ops as [|op ops IH]; intros comm free M n Hr Hn Hb; cbn [length] in *.
  { exists comm, [], free, M. rewrite Z.add_0_r. done. }
  assert (exists comm' r free' M', ustep recip comm op = Ret (comm', r) /\ uspec M op M' r /\ ops_rep comm' free' M' (n + 1)) as (c & r & f & M1 & Es & Hs & Hr1).
  { destruct op as [junk mem scalar dt res|h|h dt junk].
    - apply (create_spec junk mem scalar dt res comm free); [done|lia].
    - destruct (destroy_spec comm free M n h Hr) as (c & r & f & M1 & E & Hs & Hr1). exists c, r, f, M1. split; [done|]. split; [done|]. eapply ops_rep_weaken; [|exact Hr1]. lia.
    - destruct (use_spec comm free M n h dt junk Hr) as (r & E & Hs). exists comm, r, free, M. split; [done|]. split; [done|]. eapply ops_rep_weaken; [|exact Hr]. lia. }
  destruct (IH c f M1 (n + 1) Hr1) as (c' & rs & f' & M' & Er & Hrs & Hr'); [lia|lia|]. exists c', (r :: rs), f', M'. cbn [urun]. rewrite Es. cbn [mbind outcome_bind]. rewrite Er. cbn [mbind outcome_bind].
  split; [done|]. split; [by exists M1|]. by replace (n + Z.of_nat (S (length ops))) with (n + 1 + Z.of_nat (length ops)) by lia.
Qed.
End steps.

(** A communicator as it is initialised. *)
Definition new_comm (addr rank nRanks : Z) (checkPointers : bool) : user_comm := MkUserComm addr (NCCL_MAGIC, NCCL_MAGIC) rank nRanks checkPointers 0 0 [].

(** (C28) User-created reduction operators behave as a finite map.  Whatever sequence
    of creations, destructions and uses a program makes, no call reads or writes
    outside the array of operators; creating returns a handle that is no built-in
    operator and differs from every handle in use; a collective that is given a
    handle in use gets the scalar and the type it was created with, and is refused
    for another type; a handle that was never created or was destroyed is refused
    by [ArgsCheck] and by [ncclRedOpDestroy], so nothing is freed twice. *)
Theorem userRedOps_refine recip addr rank nRanks check ops : addr <> 0 -> 0 < nRanks < 2 ^ 30 -> Z.of_nat (length ops) < 2 ^ 28 ->
  exists comm rs free M, urun recip (new_comm addr rank nRanks check) ops = Ret (comm, rs) /\ uspec_run ∅ ops rs M /\ ops_rep comm free M (Z.of_nat (length ops)).
Proof.
  intros Ha Hn Hl. apply (urun_spec recip ops (new_comm addr rank nRanks check) [] ∅ 0); [|lia|lia].
  split; cbn [new_comm uc_addr uc_magic uc_nRanks uc_capacity uc_freeHead uc_ops]; try done; constructor.
Qed.

(** Two operators are created, one is destroyed and its entry used again. *)
Definition sample_junk : ncclUserRedOp := MkUserRedOp 77 ncclInt8 (MkRedOpFull ncclDevSum 9 false (2 ^ 64 - 1)).
Definition sample_uops : list uop :=
  [Create sample_junk (fun a => a) 5 ncclInt32 ncclScalarHostImmediate; Create sample_junk (fun a => a) 4096 ncclFloat32 ncclScalarDevice;
   Use (handle_of 0x7f0012345678 0) ncclInt32 (ur_opFull sample_junk); Destroy (handle_of 0x7f0012345678 0); Destroy (handle_of 0x7f0012345678 0);
   Use (handle_of 0x7f0012345678 0) ncclInt32 (ur_opFull sample_junk); Create sample_junk (fun a => a) 4096 ncclInt64 ncclScalarDevice].

Lemma userRedOps_refine_witness : exists comm rs free M,
  urun (fun _ _ => 0) (new_comm 0x7f0012345678 0 4 true) sample_uops = Ret (comm, rs) /\ uspec_run ∅ sample_uops rs M /\ ops_rep comm free M 7 /\
  rs = [RHandle (handle_of 0x7f0012345678 0); RHandle (handle_of 0x7f0012345678 1); RFull (MkRedOpFull ncclDevPreMulSum 9 false 0xffffffff08070605);
        RDone; RError ncclInvalidArgument; RError ncclInvalidArgument; RHandle (handle_of 0x7f0012345678 0)].
Proof.
  destruct (userRedOps_refine (fun _ _ => 0) 0x7f0012345678 0 4 true sample_uops) as (comm & rs & free & M & E & Hs & Hr); [lia|lia|vm_compute; reflexivity|].
  exists comm, rs, free, M. split; [exact E|]. split; [exact Hs|]. split; [exact Hr|]. vm_compute in E. injection E as _ <-. vm_compute. reflexivity.
Defined.
