(* ===== verification/Reduce.v ===== *)
(** * Reductions on the device (src/src/device/reduce_kernel.h)

    The device reduces packs of up to 16 bytes.  A pack is split into halves down
    to single elements, except where a routine handles four bytes in one register.
    Elements are the unsigned integer types, on which the generator also runs the
    signed ones: the host passes an argument that makes the unsigned code compute
    the signed result. *)
From S2P Require Import Prelude Bitops Device RingAlgo UserOps.

(** ** Reduction functions on an element of [w] bits *)

Inductive red_fn :=
  | FuncSum
  | FuncProd
  | FuncMinMax (xormask : Z)
  | FuncPreMulSum (scalar : Z)
  | FuncSumPostDiv (divisor : Z) (isSigned : bool) (recip : Z).

(** [UintType]: [uint64_t] for 8-byte elements, else [uint32_t]. *)
Definition uint_bits (w : Z) : Z := if w =? 64 then 64 else 32.

(** The constructors; the device's division by zero gives some value, here 0. *)
Definition make_fn (w : Z) (op : ncclDevRedOp_t) (opArg : Z) : red_fn :=
  match op with
  | ncclDevSum => FuncSum
  | ncclDevProd => FuncProd
  | ncclDevMinMax => FuncMinMax (opArg mod 2 ^ w)
  | ncclDevPreMulSum => FuncPreMulSum (opArg mod 2 ^ w)
  | ncclDevSumPostDiv =>
    let divisor := Z.shiftr opArg 1 mod 2 ^ 31 in
    FuncSumPostDiv divisor (Z.testbit opArg 0) ((2 ^ uint_bits w - 1) / divisor)
  end.

(** [FuncSumPostDiv::divide] *)
Definition divide (w divisor : Z) (isSigned : bool) (recip x : Z) : Z :=
  let uw := uint_bits w in
  let xneg := isSigned && negb (Z.land x (Z.lnot (Z.shiftr (2 ^ w - 1) 1)) =? 0) in
  let xabs := if xneg then (- x) mod 2 ^ w else x in
  let q := xabs * recip / 2 ^ uw in
  let q := if divisor <=? (xabs - q * divisor) mod 2 ^ uw then (q + 1) mod 2 ^ uw else q in
  if xneg then (- (q mod 2 ^ w)) mod 2 ^ w else q mod 2 ^ w.

(** [Apply_Reduce] of one element. *)
Definition reduce1 (w : Z) (fn : red_fn) (a b : Z) : Z :=
  match fn with
  | FuncSum | FuncPreMulSum _ | FuncSumPostDiv _ _ _ => (a + b) mod 2 ^ w
  | FuncProd => (a * b) mod 2 ^ w
  | FuncMinMax m => if Z.lxor a m <? Z.lxor b m then a else b
  end.

(** [Apply_PreOp] and [Apply_PostOp] of one element. *)
Definition preOp1 (w : Z) (fn : red_fn) (a : Z) : Z :=
  match fn with FuncPreMulSum scalar => (a * scalar) mod 2 ^ w | _ => a end.
Definition postOp1 (w : Z) (fn : red_fn) (a : Z) : Z :=
  match fn with FuncSumPostDiv divisor isSigned recip => divide w divisor isSigned recip a | _ => a end.

(** ** Four bytes in a register *)

(** [__byte_perm]: byte [i] of the result is the byte of [y:x] that nibble [i] of
    the selector names. *)
Definition byte_at (x i : Z) : Z := Z.shiftr x (8 * i) mod 256.
Definition byte_perm (x y s : Z) : Z :=
  let sel i := let n := Z.land (Z.shiftr s (4 * i)) 7 in if n <? 4 then byte_at x n else byte_at y (n - 4) in
  le_word [sel 0; sel 1; sel 2; sel 3].

Definition even : Z := 0x00ff00ff.
Definition ones : Z := 0x01010101.

Definition sum4 (a b : Z) : Z :=
  let x := u32 (Z.land a even + Z.land b even) in
  let y := u32 (Z.land a (u32 (Z.lnot even)) + Z.land b (u32 (Z.lnot even))) in
  byte_perm x y 0x7250.

Definition minmax4 (xormask a b : Z) : Z :=
  let x := u32 (xormask * ones) in
  let ax := Z.lxor a x in
  let bx := Z.lxor b x in
  let d0 := u32 (Z.land ax even + Z.land (u32 (Z.lnot bx)) even + ones) in
  let d1 := u32 (Z.land (Z.shiftr ax 8) even + Z.land (u32 (Z.lnot (Z.shiftr bx 8))) even + ones) in
  let s := Z.land (byte_perm d0 d1 0x7351) ones in
  let s := u32 (s * 0xff) in
  Z.lor (Z.land a s) (Z.land b (u32 (Z.lnot s))).

(** [mad.lo.u32], [mul.hi.u32] and [mad.hi.u32]. *)
Definition mad_lo (a b c : Z) : Z := u32 (a * b + c).
Definition mul_hi (a b : Z) : Z := Z.shiftr (a * b) 32.
Definition mad_hi (a b c : Z) : Z := u32 (Z.shiftr (a * b) 32 + c).

Definition prod4 (a b : Z) : Z :=
  let ab0 := Z.land (u32 (a * b)) 0xff in
  let ab0 := mad_lo (Z.land a 0xff00) (Z.land b 0xff00) ab0 in
  let ab1 := mul_hi (Z.land a 0xff0000) (Z.land b 0xff0000) in
  let ab1 := mad_hi (Z.land a 0xff000000) (Z.land b 0xff000000) ab1 in
  byte_perm ab0 ab1 0x6420.

(** ** Packs

    A pack of [2^n] elements of [w] bits as one integer; [half[0]] is the low half. *)

Definition half_bits (w : Z) (n : nat) : Z := w * 2 ^ Z.of_nat n.

(** The specialisation for four bytes. *)
Definition reduce4 (fn : red_fn) (a b : Z) : Z :=
  match fn with
  | FuncSum | FuncPreMulSum _ | FuncSumPostDiv _ _ _ => sum4 a b
  | FuncProd => prod4 a b
  | FuncMinMax m => minmax4 m a b
  end.

Fixpoint apply_reduce (w : Z) (fn : red_fn) (n : nat) (a b : Z) : Z :=
  match n with
  | O => reduce1 w fn a b
  | S k =>
    if (w =? 8) && (n =? 2)%nat then reduce4 fn a b
    else
      let h := 2 ^ half_bits w k in
      apply_reduce w fn k (a mod h) (b mod h) + h * apply_reduce w fn k (a / h) (b / h)
  end.

(** Where the function of an element is the identity the pack is not taken apart. *)
Definition pre_identity (fn : red_fn) : bool := match fn with FuncPreMulSum _ => false | _ => true end.
Definition post_identity (fn : red_fn) : bool := match fn with FuncSumPostDiv _ _ _ => false | _ => true end.

Fixpoint apply_pack (identity : bool) (f : Z -> Z) (w : Z) (n : nat) (a : Z) : Z :=
  match n with
  | O => f a
  | S k => if identity then a else let h := 2 ^ half_bits w k in apply_pack identity f w k (a mod h) + h * apply_pack identity f w k (a / h)
  end.

Definition apply_preOp (w : Z) (fn : red_fn) (n : nat) (a : Z) : Z := apply_pack (pre_identity fn) (preOp1 w fn) w n a.
Definition apply_postOp (w : Z) (fn : red_fn) (n : nat) (a : Z) : Z := apply_pack (post_identity fn) (postOp1 w fn) w n a.

(** ** Words as bytes *)

Lemma testbit_byte x u i : is_byte x -> 0 <= i -> Z.testbit (x + 256 * u) i = if i <? 8 then Z.testbit x i else Z.testbit u (i - 8).
Proof.
  intros Hx Hi. unfold is_byte in Hx. destruct (Z.ltb_spec i 8).
  - rewrite <- (Z.mod_pow2_bits_low (x + 256 * u) 8) by lia. replace (x + 256 * u) with (x + u * 2 ^ 8) by lia. rewrite Z.mod_add by lia. by rewrite Z.mod_small by lia.
  - replace i with (i - 8 + 8) at 1 by lia. rewrite <- Z.div_pow2_bits by lia. replace (x + 256 * u) with (x + u * 2 ^ 8) by lia. rewrite Z.div_add by lia. by rewrite (Z.div_small x) by lia.
Qed.

(** A bitwise operation on words is one on their bytes. *)
Section bitwise.
  Context (op : Z -> Z -> Z) (bop : bool -> bool -> bool).
  Context (op_spec : forall a b i, Z.testbit (op a b) i = bop (Z.testbit a i) (Z.testbit b i)) (bop_false : bop false false = false).

Lemma op_byte x y : is_byte x -> is_byte y -> is_byte (op x y).
Proof.
  unfold is_byte. intros Hx Hy. assert (0 <= op x y) as H0.
  { apply Z.bits_iff_nonneg_ex. exists 8. intros m Hm. rewrite op_spec, !(testbit_high _ 8) by lia. done. }
  split; [done|]. apply (lt_pow2_bits _ 8); [lia|done|]. intros i Hi. by rewrite op_spec, !(testbit_high _ 8) by lia.
Qed.

Lemma op_cons x y u v : is_byte x -> is_byte y -> op (x + 256 * u) (y + 256 * v) = op x y + 256 * op u v.
Proof.
  intros Hx Hy. apply Z.bits_inj'. intros i Hi. rewrite op_spec, !testbit_byte by (done || by apply op_byte). rewrite !op_spec. by destruct (i <? 8).
Qed.

Lemma op_le_word l m : Forall is_byte l -> Forall is_byte m -> length l = length m -> op (le_word l) (le_word m) = le_word (zip_with op l m).
Proof.
  intros Hl. revert m. induction Hl as [|x l Hx Hl IH]; intros m Hm; destruct Hm as [|y m Hy Hm]; intros E; try done.
  - simpl. apply Z.bits_inj'. intros i _. by rewrite op_spec, Z.testbit_0_l, bop_false.
  - cbn [le_word zip_with]. rewrite op_cons by done. f_equal. f_equal. apply IH; [done|]. by injection E.
Qed.
End bitwise.

Definition land_word := op_le_word Z.land andb Z.land_spec eq_refl.
Definition lor_word := op_le_word Z.lor orb Z.lor_spec eq_refl.
Definition lxor_word := op_le_word Z.lxor xorb Z.lxor_spec eq_refl.
Definition lxor_byte := op_byte Z.lxor xorb Z.lxor_spec eq_refl.
Definition land_byte := op_byte Z.land andb Z.land_spec eq_refl.

(** The bytes of a 32-bit word. *)
Definition bytes4 (a : Z) : list Z := [byte_at a 0; byte_at a 1; byte_at a 2; byte_at a 3].

Lemma byte_at_byte a i : is_byte (byte_at a i).
Proof. unfold is_byte, byte_at. apply Z.mod_pos_bound. lia. Qed.

Lemma byte_at_div a i : 0 <= i -> byte_at a i = a / 2 ^ (8 * i) mod 256.
Proof. intros. unfold byte_at. by rewrite Z.shiftr_div_pow2 by lia. Qed.

Lemma le_word_bytes4 a : 0 <= a < 2 ^ 32 -> le_word (bytes4 a) = a.
Proof. intros H. unfold bytes4. rewrite !byte_at_div by lia. cbn [le_word Z.mul Pos.mul]. change (2 ^ 0) with 1. change (2 ^ 8) with 256. change (2 ^ 16) with 65536. change (2 ^ 24) with 16777216. dlia. Qed.

(** Every word is one of four bytes. *)
Lemma word_bytes a : 0 <= a < 2 ^ 32 -> exists a0 a1 a2 a3, a = le_word [a0; a1; a2; a3] /\ is_byte a0 /\ is_byte a1 /\ is_byte a2 /\ is_byte a3.
Proof. intros H. eexists _, _, _, _. split; [symmetry; by apply le_word_bytes4|]. split_and!; apply byte_at_byte. Qed.

Lemma bytes4_word a0 a1 a2 a3 : is_byte a0 -> is_byte a1 -> is_byte a2 -> is_byte a3 -> bytes4 (le_word [a0; a1; a2; a3]) = [a0; a1; a2; a3].
Proof.
  unfold is_byte. intros. unfold bytes4. rewrite !byte_at_div by lia. cbn [le_word Z.mul Pos.mul]. change (2 ^ 0) with 1. change (2 ^ 8) with 256. change (2 ^ 16) with 65536. change (2 ^ 24) with 16777216.
  f_equal; [dlia|]. f_equal; [dlia|]. f_equal; [dlia|]. f_equal. dlia.
Qed.

Lemma lnot_word b0 b1 b2 b3 : is_byte b0 -> is_byte b1 -> is_byte b2 -> is_byte b3 -> u32 (Z.lnot (le_word [b0; b1; b2; b3])) = le_word [255 - b0; 255 - b1; 255 - b2; 255 - b3].
Proof. unfold is_byte, u32, Z.lnot. intros. cbn [le_word]. rewrite <- (Z.mod_add _ 1) by lia. rewrite Z.mod_small by lia. lia. Qed.

Lemma shiftr8_word b0 b1 b2 b3 : is_byte b0 -> Z.shiftr (le_word [b0; b1; b2; b3]) 8 = le_word [b1; b2; b3; 0].
Proof. unfold is_byte. intros. rewrite Z.shiftr_div_pow2 by lia. cbn [le_word]. dlia. Qed.

Lemma land_255 x : is_byte x -> Z.land x 255 = x.
Proof. intros H. change 255 with (Z.ones 8). rewrite Z.land_ones by lia. by apply Z.mod_small. Qed.

Lemma land_1 x : Z.land x 1 = x mod 2.
Proof. change 1 with (Z.ones 1). by rewrite Z.land_ones by lia. Qed.

(** ** The routines on four bytes *)

#[local] Hint Extern 1 (is_byte _) => (unfold is_byte in *; lia) : bytes.
#[local] Hint Resolve lxor_byte land_byte byte_at_byte : bytes.
Ltac bytes := repeat (apply Forall_cons_2; [solve [auto with bytes]|]); apply Forall_nil_2.

Lemma even_word : even = le_word [255; 0; 255; 0].
Proof. reflexivity. Qed.
Lemma ones_word : ones = le_word [1; 1; 1; 1].
Proof. reflexivity. Qed.

(** Masks pick bytes. *)
Lemma land_even b0 b1 b2 b3 : is_byte b0 -> is_byte b1 -> is_byte b2 -> is_byte b3 -> Z.land (le_word [b0; b1; b2; b3]) even = b0 + 65536 * b2.
Proof. intros. rewrite even_word, land_word by (done || bytes). cbn [zip_with]. rewrite !land_255, !Z.land_0_r by done. cbn [le_word]. lia. Qed.

Lemma land_odd b0 b1 b2 b3 : is_byte b0 -> is_byte b1 -> is_byte b2 -> is_byte b3 -> Z.land (le_word [b0; b1; b2; b3]) (u32 (Z.lnot even)) = 256 * b1 + 16777216 * b3.
Proof. intros. change (u32 (Z.lnot even)) with (le_word [0; 255; 0; 255]). rewrite land_word by (done || bytes). cbn [zip_with]. rewrite !land_255, !Z.land_0_r by done. cbn [le_word]. lia. Qed.

(** A byte of two lanes of 16 bits. *)
Lemma byte_lanes l h : 0 <= l < 65536 -> 0 <= h < 65536 ->
  byte_at (u32 (l + 65536 * h)) 0 = l mod 256 /\ byte_at (u32 (l + 65536 * h)) 1 = l / 256 /\ byte_at (u32 (l + 65536 * h)) 2 = h mod 256 /\ byte_at (u32 (l + 65536 * h)) 3 = h / 256.
Proof.
  intros Hl Hh. unfold u32. rewrite (Z.mod_small (l + 65536 * h)) by lia. rewrite !byte_at_div by lia.
  change (2 ^ (8 * 0)) with 1. change (2 ^ (8 * 1)) with 256. change (2 ^ (8 * 2)) with 65536. change (2 ^ (8 * 3)) with 16777216. split_and!; dlia.
Qed.

Lemma sum4_bytes a b : 0 <= a < 2 ^ 32 -> 0 <= b < 2 ^ 32 -> sum4 a b = le_word (zip_with (fun x y => (x + y) mod 256) (bytes4 a) (bytes4 b)).
Proof.
  intros (a0 & a1 & a2 & a3 & -> & A0 & A1 & A2 & A3)%word_bytes (b0 & b1 & b2 & b3 & -> & B0 & B1 & B2 & B3)%word_bytes. rewrite !bytes4_word by done. unfold sum4. rewrite !land_even, !land_odd by done.
  unfold is_byte in *. destruct (byte_lanes (a0 + b0) (a2 + b2) ltac:(lia) ltac:(lia)) as (E0 & _ & E2 & _).
  replace (a0 + 65536 * a2 + (b0 + 65536 * b2)) with (a0 + b0 + 65536 * (a2 + b2)) by lia.
  set (x := u32 _) in *. set (y := u32 _). change (byte_perm x y 0x7250) with (le_word [byte_at x 0; byte_at y 1; byte_at x 2; byte_at y 3]). rewrite E0, E2. cbn [zip_with].
  assert (byte_at y 1 = (a1 + b1) mod 256) as ->. { rewrite byte_at_div by lia. unfold y, u32. change (2 ^ (8 * 1)) with 256. dlia. }
  assert (byte_at y 3 = (a3 + b3) mod 256) as ->. { rewrite byte_at_div by lia. unfold y, u32. change (2 ^ (8 * 3)) with 16777216. dlia. } done.
Qed.

Lemma prod4_bytes a b : 0 <= a < 2 ^ 32 -> 0 <= b < 2 ^ 32 -> prod4 a b = le_word (zip_with (fun x y => (x * y) mod 256) (bytes4 a) (bytes4 b)).
Proof.
  intros (a0 & a1 & a2 & a3 & -> & A0 & A1 & A2 & A3)%word_bytes (b0 & b1 & b2 & b3 & -> & B0 & B1 & B2 & B3)%word_bytes. rewrite !bytes4_word by done. unfold prod4, mad_lo, mul_hi, mad_hi.
  assert (Z.land (u32 (le_word [a0; a1; a2; a3] * le_word [b0; b1; b2; b3])) 255 = (a0 * b0) mod 256) as ->.
  { change 255 with (Z.ones 8). rewrite Z.land_ones by lia. unfold u32. change (2 ^ 32) with (2 ^ 8 * 16777216). rewrite Z.rem_mul_r by lia. rewrite Z.mul_comm with (n := 2 ^ 8). rewrite Z.mod_add, Z.mod_mod by lia.
    cbn [le_word]. change (2 ^ 8) with 256. rewrite Z.mul_mod by lia. rewrite !(Z.mul_comm 256), !Z.mod_add by lia. by rewrite <- Z.mul_mod by lia. }
  change 0xff00 with (le_word [0; 255; 0; 0]). change 0xff0000 with (le_word [0; 0; 255; 0]). change 0xff000000 with (le_word [0; 0; 0; 255]).
  rewrite !land_word by (done || bytes). cbn [zip_with]. rewrite !land_255, !Z.land_0_r by done. cbn [le_word]. rewrite !Z.shiftr_div_pow2 by lia. unfold is_byte in *.
  assert (0 <= a1 * b1 < 65536 /\ 0 <= a2 * b2 < 65536 /\ 0 <= a3 * b3 < 65536) as (P1 & P2 & P3) by nia. pose proof (Z.mod_pos_bound (a0 * b0) 256 ltac:(lia)) as P0.
  destruct (byte_lanes ((a0 * b0) mod 256) (a1 * b1) ltac:(lia) P1) as (E0 & _ & E2 & _). destruct (byte_lanes (a2 * b2) (a3 * b3) P2 P3) as (F0 & _ & F2 & _). rewrite Z.mod_mod in E0 by lia.
  match goal with |- byte_perm ?X ?Y _ = _ => replace X with (u32 ((a0 * b0) mod 256 + 65536 * (a1 * b1))) by (f_equal; lia); replace Y with (u32 (a2 * b2 + 65536 * (a3 * b3))) by (f_equal; dlia) end.
  match goal with |- byte_perm ?X ?Y _ = _ => change (byte_perm X Y 0x6420) with (le_word [byte_at X 0; byte_at X 2; byte_at Y 0; byte_at Y 2]) end. by rewrite E0, E2, F0, F2.
Qed.

(** Nine bits tell the sign of a difference of bytes. *)
Lemma lane_sign a b : is_byte a -> is_byte b -> (a + (255 - b) + 257) / 256 mod 2 = Z.b2z (a <? b).
Proof. unfold is_byte. intros Ha Hb. destruct (Z.ltb_spec a b); simpl; dlia. Qed.

(** A byte selected by a bit. *)
Lemma select_byte (c : bool) a b : is_byte a -> is_byte b -> Z.lor (Z.land a (255 * Z.b2z c)) (Z.land b (255 - 255 * Z.b2z c)) = if c then a else b.
Proof. intros Ha Hb. destruct c; simpl; rewrite land_255, Z.land_0_r by done; [apply Z.lor_0_r|apply Z.lor_0_l]. Qed.

Lemma b2z_byte (c : bool) : is_byte (255 * Z.b2z c) /\ is_byte (255 - 255 * Z.b2z c) /\ is_byte (Z.b2z c).
Proof. unfold is_byte. destruct c; simpl; lia. Qed.

Lemma minmax4_bytes m a b : is_byte m -> 0 <= a < 2 ^ 32 -> 0 <= b < 2 ^ 32 ->
  minmax4 m a b = le_word (zip_with (fun x y => if Z.lxor x m <? Z.lxor y m then x else y) (bytes4 a) (bytes4 b)).
Proof.
  intros Hm (a0 & a1 & a2 & a3 & -> & A0 & A1 & A2 & A3)%word_bytes (b0 & b1 & b2 & b3 & -> & B0 & B1 & B2 & B3)%word_bytes. rewrite !bytes4_word by done. unfold minmax4.
  assert (u32 (m * ones) = le_word [m; m; m; m]) as ->. { unfold u32, ones, is_byte in *. cbn [le_word]. rewrite Z.mod_small; lia. }
  cbv zeta. rewrite !lxor_word by (done || bytes). cbn [zip_with]. set (x0 := Z.lxor a0 m). set (x1 := Z.lxor a1 m). set (x2 := Z.lxor a2 m). set (x3 := Z.lxor a3 m).
  set (y0 := Z.lxor b0 m). set (y1 := Z.lxor b1 m). set (y2 := Z.lxor b2 m). set (y3 := Z.lxor b3 m).
  assert (is_byte x0 /\ is_byte x1 /\ is_byte x2 /\ is_byte x3) as (X0 & X1 & X2 & X3) by (split_and!; by apply lxor_byte).
  assert (is_byte y0 /\ is_byte y1 /\ is_byte y2 /\ is_byte y3) as (Y0 & Y1 & Y2 & Y3) by (split_and!; by apply lxor_byte).
  rewrite !shiftr8_word by done. rewrite !lnot_word by (done || auto with bytes). rewrite !land_even by auto with bytes.
  replace (x0 + 65536 * x2 + (255 - y0 + 65536 * (255 - y2)) + ones) with (x0 + (255 - y0) + 257 + 65536 * (x2 + (255 - y2) + 257)) by (unfold ones; lia).
  replace (x1 + 65536 * x3 + (255 - y1 + 65536 * (255 - y3)) + ones) with (x1 + (255 - y1) + 257 + 65536 * (x3 + (255 - y3) + 257)) by (unfold ones; lia).
  match goal with |- context [byte_perm ?X ?Y 0x7351] => change (byte_perm X Y 0x7351) with (le_word [byte_at X 1; byte_at Y 1; byte_at X 3; byte_at Y 3]) end.
  rewrite ones_word, land_word by (done || bytes). cbn [zip_with]. rewrite !land_1.
  destruct (byte_lanes (x0 + (255 - y0) + 257) (x2 + (255 - y2) + 257)) as (_ & -> & _ & ->); [unfold is_byte in *; lia..|].
  destruct (byte_lanes (x1 + (255 - y1) + 257) (x3 + (255 - y3) + 257)) as (_ & -> & _ & ->); [unfold is_byte in *; lia..|]. rewrite !lane_sign by done.
  set (c0 := x0 <? y0). set (c1 := x1 <? y1). set (c2 := x2 <? y2). set (c3 := x3 <? y3).
  assert (u32 (le_word [Z.b2z c0; Z.b2z c1; Z.b2z c2; Z.b2z c3] * 255) = le_word [255 * Z.b2z c0; 255 * Z.b2z c1; 255 * Z.b2z c2; 255 * Z.b2z c3]) as ->.
  { unfold u32. rewrite Z.mod_small; destruct c0, c1, c2, c3; simpl; lia. }
  pose proof (b2z_byte c0) as (C0 & D0 & _). pose proof (b2z_byte c1) as (C1 & D1 & _). pose proof (b2z_byte c2) as (C2 & D2 & _). pose proof (b2z_byte c3) as (C3 & D3 & _).
  rewrite lnot_word by done. rewrite !land_word by (done || bytes). cbn [zip_with]. rewrite lor_word by (done || bytes). cbn [zip_with]. by rewrite !select_byte.
Qed.

(** ** Packs are reduced element by element *)

(** The elements of a pack, in memory order. *)
Fixpoint elts (w : Z) (n : nat) (a : Z) : list Z :=
  match n with O => [a] | S k => let h := 2 ^ half_bits w k in elts w k (a mod h) ++ elts w k (a / h) end.

Definition in_pack (w : Z) (n : nat) (a : Z) : Prop := 0 <= a < 2 ^ half_bits w n.

(** The argument of a function fits its element type. *)
Definition fn_ok (w : Z) (fn : red_fn) : Prop := match fn with FuncMinMax m => 0 <= m < 2 ^ w | _ => True end.

Lemma half_bits_S w n : half_bits w (S n) = half_bits w n + half_bits w n.
Proof. unfold half_bits. rewrite Nat2Z.inj_succ, Z.pow_succ_r by lia. lia. Qed.

Lemma half_bits_nonneg w n : 0 < w -> 0 < half_bits w n.
Proof. intros. unfold half_bits. apply Z.mul_pos_pos; [done|]. apply pow2_pos. lia. Qed.

Section packs.
Context (w : Z) (Hw : 0 < w).

Lemma length_elts n a : length (elts w n a) = (2 ^ n)%nat.
Proof. revert a. induction n as [|n IH]; intros a; [done|]. cbn [elts]. rewrite length_app, !IH. simpl. lia. Qed.

(** A pack of two halves. *)
Lemma pack_halves n a : in_pack w (S n) a -> in_pack w n (a mod 2 ^ half_bits w n) /\ in_pack w n (a / 2 ^ half_bits w n).
Proof.
  unfold in_pack. rewrite half_bits_S. pose proof (half_bits_nonneg w n Hw). rewrite Z.pow_add_r by lia. pose proof (pow2_pos (half_bits w n) ltac:(lia)). intros Ha.
  split; [by apply Z.mod_pos_bound|]. split; [apply Z.div_pos; lia|]. apply Z.div_lt_upper_bound; lia.
Qed.

Lemma pack_join n x y : in_pack w n x -> in_pack w n y -> in_pack w (S n) (x + 2 ^ half_bits w n * y) /\ elts w (S n) (x + 2 ^ half_bits w n * y) = elts w n x ++ elts w n y.
Proof.
  unfold in_pack. rewrite half_bits_S. pose proof (half_bits_nonneg w n Hw). rewrite Z.pow_add_r by lia. pose proof (pow2_pos (half_bits w n) ltac:(lia)) as Hp. intros Hx Hy. split; [nia|].
  cbn [elts]. rewrite (Z.mul_comm _ y), Z.mod_add, Z.div_add by lia. by rewrite Z.mod_small, Z.div_small.
Qed.

Lemma reduce1_range fn a b : 0 <= a < 2 ^ w -> 0 <= b < 2 ^ w -> 0 <= reduce1 w fn a b < 2 ^ w.
Proof using Hw. intros Ha Hb. pose proof (pow2_pos w ltac:(lia)). destruct fn; simpl; try (by apply Z.mod_pos_bound). by destruct (_ <? _). Qed.
End packs.

Lemma elts_bytes4 a : 0 <= a < 2 ^ 32 -> elts 8 2 a = bytes4 a.
Proof.
  intros H. cbn [elts app half_bits]. unfold bytes4. rewrite !byte_at_div by lia. change (2 ^ half_bits 8 1) with 65536. change (2 ^ half_bits 8 0) with 256.
  change (2 ^ (8 * 0)) with 1. change (2 ^ (8 * 1)) with 256. change (2 ^ (8 * 2)) with 65536. change (2 ^ (8 * 3)) with 16777216.
  repeat (apply (f_equal2 cons); [dlia|]). done.
Qed.

Lemma reduce4_elts fn a b : fn_ok 8 fn -> 0 <= a < 2 ^ 32 -> 0 <= b < 2 ^ 32 -> 0 <= reduce4 fn a b < 2 ^ 32 /\ elts 8 2 (reduce4 fn a b) = zip_with (reduce1 8 fn) (elts 8 2 a) (elts 8 2 b).
Proof.
  intros Hf Ha Hb. assert (reduce4 fn a b = le_word (zip_with (reduce1 8 fn) (bytes4 a) (bytes4 b))) as ->.
  { destruct fn as [| |m| |]; [by apply sum4_bytes|by apply prod4_bytes|by apply minmax4_bytes|by apply sum4_bytes|by apply sum4_bytes]. }
  assert (forall i, is_byte (reduce1 8 fn (byte_at a i) (byte_at b i))) as Hr by (intros i; apply (reduce1_range 8); [lia|apply byte_at_byte|apply byte_at_byte]).
  cbn [bytes4 zip_with]. set (l := [_; _; _; _]). assert (0 <= le_word l < 2 ^ 32) as Hl by (apply (le_word_range l); unfold l; repeat (apply Forall_cons_2; [apply Hr|]); apply Forall_nil_2). split; [done|].
  rewrite !elts_bytes4 by done. unfold l. rewrite bytes4_word; [done|apply Hr..].
Qed.

Lemma apply_reduce_elts w fn n a b : 0 < w -> fn_ok w fn -> in_pack w n a -> in_pack w n b ->
  in_pack w n (apply_reduce w fn n a b) /\ elts w n (apply_reduce w fn n a b) = zip_with (reduce1 w fn) (elts w n a) (elts w n b).
Proof.
  intros Hw Hf. revert a b. induction n as [|n IH]; intros a b Ha Hb.
  - split; [|done]. unfold in_pack, half_bits in *. rewrite Z.mul_1_r in *. by apply reduce1_range.
  - cbn [apply_reduce]. destruct ((w =? 8) && (S n =? 2)%nat) eqn:E.
    + apply andb_true_iff in E as [->%Z.eqb_eq [= ->]%Nat.eqb_eq]. by apply reduce4_elts.
    + destruct (pack_halves w Hw n a Ha) as [A0 A1]. destruct (pack_halves w Hw n b Hb) as [B0 B1]. destruct (IH _ _ A0 B0) as [R0 E0]. destruct (IH _ _ A1 B1) as [R1 E1].
      destruct (pack_join w Hw n _ _ R0 R1) as [Hr ->]. split; [done|]. rewrite E0, E1. cbn [elts]. by rewrite zip_with_app by (by rewrite !length_elts).
Qed.

Lemma apply_pack_elts w (identity : bool) f n a : 0 < w -> (forall x, 0 <= x < 2 ^ w -> 0 <= f x < 2 ^ w) -> (identity = true -> forall x, f x = x) -> in_pack w n a ->
  in_pack w n (apply_pack identity f w n a) /\ elts w n (apply_pack identity f w n a) = f <$> elts w n a.
Proof.
  intros Hw Hf Hid. revert a. induction n as [|n IH]; intros a Ha.
  - split; [|done]. unfold in_pack, half_bits in *. rewrite Z.mul_1_r in *. by apply Hf.
  - cbn [apply_pack]. destruct identity.
    + split; [done|]. symmetry. rewrite <- (list_fmap_id (elts w (S n) a)) at 2. apply list_fmap_ext. intros i x _. by apply Hid.
    + destruct (pack_halves w Hw n a Ha) as [A0 A1]. destruct (IH _ A0) as [R0 E0]. destruct (IH _ A1) as [R1 E1].
      destruct (pack_join w Hw n _ _ R0 R1) as [Hr ->]. split; [done|]. rewrite E0, E1. cbn [elts]. by rewrite fmap_app.
Qed.

(** ** Division by a reciprocal *)

(** The product with the reciprocal is at most one below the quotient. *)
Lemma recip_quotient N d x : 1 <= d -> 0 <= x < N -> x / d - 1 <= x * ((N - 1) / d) / N <= x / d.
Proof.
  intros Hd Hx. set (r := (N - 1) / d). assert (d * r <= N - 1 < d * r + d) as Hr by (unfold r; pose proof (Z.div_mod (N - 1) d ltac:(lia)); pose proof (Z.mod_pos_bound (N - 1) d ltac:(lia)); lia).
  pose proof (Z.div_mod x d ltac:(lia)) as Ex. pose proof (Z.mod_pos_bound x d ltac:(lia)) as Hm. set (q := x / d) in *. set (m := x mod d) in *.
  assert (0 <= q) by (unfold q; apply Z.div_pos; lia). assert (0 <= r) by (unfold r; apply Z.div_pos; lia). split.
  - apply Z.div_le_lower_bound; [lia|]. assert (q * (N - d) <= q * (d * r)) by (apply Z.mul_le_mono_nonneg_l; lia). assert (0 <= m * r) by (apply Z.mul_nonneg_nonneg; lia). nia.
  - apply Z.lt_succ_r, Z.div_lt_upper_bound; [lia|]. assert (x * (d * r) <= x * (N - 1)) by (apply Z.mul_le_mono_nonneg_l; lia). apply (Z.mul_lt_mono_pos_l d); [lia|]. nia.
Qed.

Definition word_width (w : Z) : Prop := w = 8 \/ w = 32 \/ w = 64.

Lemma uint_bits_width w : word_width w -> w <= uint_bits w /\ 32 <= uint_bits w <= 64.
Proof. intros [->|[->| ->]]; unfold uint_bits; simpl; lia. Qed.

(** The value of an element: two's complement for a signed type. *)
Definition value_of (w : Z) (signed : bool) (x : Z) : Z := if signed && (2 ^ (w - 1) <=? x) then x - 2 ^ w else x.

Lemma negative_bit w x : 0 < w -> 0 <= x < 2 ^ w -> (Z.land x (Z.lnot (Z.shiftr (2 ^ w - 1) 1)) =? 0) = (x <? 2 ^ (w - 1)).
Proof.
  intros Hw Hx. replace (2 ^ w - 1) with (Z.ones w) by (rewrite Z.ones_equiv; lia). rewrite Z.shiftr_div_pow2, Z.ones_div_pow2 by lia. rewrite <- Z.ldiff_land, Z.ldiff_ones_r by lia.
  rewrite Z.shiftl_mul_pow2, Z.shiftr_div_pow2 by lia. pose proof (pow2_pos (w - 1) ltac:(lia)). pose proof (Z.div_mod x (2 ^ (w - 1)) ltac:(lia)). pose proof (Z.mod_pos_bound x (2 ^ (w - 1)) ltac:(lia)).
  destruct (Z.ltb_spec x (2 ^ (w - 1))); [apply Z.eqb_eq; by rewrite Z.div_small by lia|]. apply Z.eqb_neq. nia.
Qed.

(** The fixed-up quotient. *)
Lemma divide_abs uw d x : 32 <= uw -> 1 <= d < 2 ^ 31 -> 0 <= x < 2 ^ uw -> let q := x * ((2 ^ uw - 1) / d) / 2 ^ uw in
  (if d <=? (x - q * d) mod 2 ^ uw then (q + 1) mod 2 ^ uw else q) = x / d.
Proof.
  intros Hu Hd Hx q. pose proof (recip_quotient (2 ^ uw) d x ltac:(lia) Hx) as Hq. fold q in Hq. assert (2 ^ 32 <= 2 ^ uw) by (apply Z.pow_le_mono_r; lia).
  pose proof (Z.div_mod x d ltac:(lia)) as Ex. pose proof (Z.mod_pos_bound x d ltac:(lia)) as Hm. set (k := x / d) in *. set (m := x mod d) in *. assert (0 <= k) by (unfold k; apply Z.div_pos; lia).
  assert (q = k \/ q = k - 1) as [->| ->] by lia.
  - replace (x - k * d) with m by lia. rewrite Z.mod_small by lia. destruct (Z.leb_spec d m); [lia|done].
  - replace (x - (k - 1) * d) with (m + d) by lia. rewrite Z.mod_small by lia. destruct (Z.leb_spec d (m + d)); [|lia]. rewrite Z.mod_small by nia. lia.
Qed.

Lemma divide_spec w d s x : word_width w -> 1 <= d < 2 ^ 31 -> 0 <= x < 2 ^ w ->
  divide w d s ((2 ^ uint_bits w - 1) / d) x = (value_of w s x `quot` d) mod 2 ^ w.
Proof.
  intros Hw Hd Hx. destruct (uint_bits_width w Hw) as [Hu1 Hu2]. assert (0 < w) as Hw0 by (destruct Hw as [->|[->| ->]]; lia). unfold divide, value_of. rewrite (negative_bit w x Hw0 Hx).
  assert (2 ^ w <= 2 ^ uint_bits w) by (apply Z.pow_le_mono_r; lia). assert (2 ^ w = 2 * 2 ^ (w - 1)) by (rewrite <- Z.pow_succ_r by lia; f_equal; lia).
  rewrite <- Z.leb_antisym. destruct (s && (2 ^ (w - 1) <=? x)) eqn:E; cbv zeta.
  - assert ((- x) mod 2 ^ w = 2 ^ w - x) as ->. { apply andb_true_iff in E as [_ E%Z.leb_le]. rewrite <- (Z.mod_add _ 1) by lia. rewrite Z.mod_small; lia. }
    apply andb_true_iff in E as [_ E%Z.leb_le]. rewrite divide_abs by lia. replace (x - 2 ^ w) with (- (2 ^ w - x)) by lia. rewrite Z.quot_opp_l, Z.quot_div_nonneg by lia.
    rewrite <- Z.sub_0_l, Zminus_mod_idemp_r. done.
  - rewrite divide_abs by lia. by rewrite Z.quot_div_nonneg by lia.
Qed.

(** ** The host's argument *)

Lemma value_range w s x : 0 < w -> 0 <= x < 2 ^ w -> value_of w s x mod 2 ^ w = x /\ - 2 ^ (w - 1) <= value_of w s x < 2 ^ w /\ (s = true -> value_of w s x < 2 ^ (w - 1)).
Proof.
  intros Hw Hx. unfold value_of. assert (2 ^ w = 2 * 2 ^ (w - 1)) by (rewrite <- Z.pow_succ_r by lia; f_equal; lia). destruct s; simpl; [|rewrite Z.mod_small by lia; split_and!; [done|lia..|done]].
  destruct (Z.leb_spec (2 ^ (w - 1)) x); [|rewrite Z.mod_small by lia; split_and!; lia].
  split_and!; [|lia..]. rewrite <- (Z.mod_add _ 1) by lia. rewrite Z.mod_small; lia.
Qed.

(** Flipping the sign bit orders the signed values as unsigned ones. *)
Lemma lxor_sign w x : 0 < w -> 0 <= x < 2 ^ w -> Z.lxor x (2 ^ (w - 1)) = value_of w true x + 2 ^ (w - 1).
Proof.
  intros Hw Hx. assert (2 ^ w = 2 * 2 ^ (w - 1)) by (rewrite <- Z.pow_succ_r by lia; f_equal; lia).
  assert (forall y, 0 <= y < 2 ^ (w - 1) -> y + 2 ^ (w - 1) = Z.lxor y (2 ^ (w - 1))) as Hadd.
  { intros y Hy. apply Z.add_nocarry_lxor. apply Z.bits_inj'. intros i Hi. rewrite Z.land_spec, Z.testbit_0_l, Z.pow2_bits_eqb by lia. destruct (Z.eqb_spec (w - 1) i); [|apply andb_false_r]. by rewrite (testbit_high y (w - 1)) by lia. }
  unfold value_of. simpl. destruct (Z.leb_spec (2 ^ (w - 1)) x); [|rewrite Hadd by lia; done].
  replace x with (x - 2 ^ (w - 1) + 2 ^ (w - 1)) at 1 by lia. rewrite Hadd by lia. rewrite Z.lxor_assoc, Z.lxor_nilpotent, Z.lxor_0_r. lia.
Qed.

(** Flipping all bits reverses the order. *)
Lemma lxor_all w x : 0 <= w -> 0 <= x < 2 ^ w -> Z.lxor x (2 ^ w - 1) = 2 ^ w - 1 - x.
Proof.
  intros Hw Hx. replace (2 ^ w - 1) with (Z.ones w) by (rewrite Z.ones_equiv; lia). rewrite Z.sub_nocarry_ldiff.
  - apply Z.bits_inj'. intros i Hi. rewrite Z.lxor_spec, Z.ldiff_spec, Z.testbit_ones_nonneg by lia. destruct (Z.ltb_spec i w); [apply xorb_true_r|by rewrite (testbit_high x w)].
  - apply Z.bits_inj'. intros i Hi. rewrite Z.ldiff_spec, Z.testbit_0_l, Z.testbit_ones_nonneg by lia. destruct (Z.ltb_spec i w); [apply andb_false_r|by rewrite (testbit_high x w)].
Qed.

Definition mask_of (w : Z) (signed max : bool) : Z := Z.lxor (if signed then 2 ^ (w - 1) else 0) (if max then 2 ^ w - 1 else 0).

Lemma mask_order w signed max a b : 0 < w -> 0 <= a < 2 ^ w -> 0 <= b < 2 ^ w ->
  (Z.lxor a (mask_of w signed max) <? Z.lxor b (mask_of w signed max)) = if max then value_of w signed b <? value_of w signed a else value_of w signed a <? value_of w signed b.
Proof.
  intros Hw Ha Hb. assert (2 ^ w = 2 * 2 ^ (w - 1)) by (rewrite <- Z.pow_succ_r by lia; f_equal; lia).
  assert (forall x, 0 <= x < 2 ^ w -> 0 <= Z.lxor x (if signed then 2 ^ (w - 1) else 0) < 2 ^ w /\ Z.lxor x (if signed then 2 ^ (w - 1) else 0) = value_of w signed x + (if signed then 2 ^ (w - 1) else 0)) as Hs.
  { intros x Hx. destruct (value_range w signed x Hw Hx) as (_ & H1 & H2). destruct signed; [|rewrite Z.lxor_0_r; unfold value_of; simpl; lia]. rewrite lxor_sign by done. specialize (H2 eq_refl). lia. }
  unfold mask_of. rewrite <- !Z.lxor_assoc. destruct (Hs a Ha) as [Ra Ea]. destruct (Hs b Hb) as [Rb Eb]. destruct max.
  - rewrite !lxor_all by lia. rewrite Ea, Eb. zcases; lia.
  - rewrite !Z.lxor_0_r, Ea, Eb. zcases; lia.
Qed.

Lemma mask_of_range w signed max : 0 < w -> 0 <= mask_of w signed max < 2 ^ w.
Proof.
  intros Hw. pose proof (pow2_pos (w - 1) ltac:(lia)). assert (2 ^ w = 2 * 2 ^ (w - 1)) by (rewrite <- Z.pow_succ_r by lia; f_equal; lia).
  unfold mask_of. apply lxor_bound; [lia| |]; [destruct signed|destruct max]; lia.
Qed.

Definition width_of (dt : ncclDataType_t) : Z := 8 * ncclTypeSize dt.

Lemma bits_of_type dt : is_integer dt = true -> allBits dt = 2 ^ width_of dt - 1 /\ signBit dt = 2 ^ (width_of dt - 1) /\ word_width (width_of dt).
Proof. destruct dt; intros H; try discriminate H; (split; [reflexivity|split; [reflexivity|unfold word_width, width_of; simpl; lia]]). Qed.

(** ** What the built-in operators mean *)

Definition spec_reduce (op x y : Z) : Z :=
  if op =? ncclProd then x * y else if op =? ncclMax then Z.max x y else if op =? ncclMin then Z.min x y else x + y.
Definition spec_final (op nRanks x : Z) : Z := if op =? ncclAvg then x `quot` nRanks else x.

Lemma minmax_value w signed max a b : 0 < w -> 0 <= a < 2 ^ w -> 0 <= b < 2 ^ w ->
  reduce1 w (FuncMinMax (mask_of w signed max)) a b = (if max then Z.max else Z.min) (value_of w signed a) (value_of w signed b) mod 2 ^ w.
Proof.
  intros Hw Ha Hb. cbn [reduce1]. rewrite mask_order by done. destruct (value_range w signed a Hw Ha) as (Ea & _). destruct (value_range w signed b Hw Hb) as (Eb & _).
  destruct max.
  - destruct (Z.ltb_spec (value_of w signed b) (value_of w signed a)); [rewrite Z.max_l by lia|rewrite Z.max_r by lia]; by rewrite ?Ea, ?Eb.
  - destruct (Z.ltb_spec (value_of w signed a) (value_of w signed b)); [rewrite Z.min_l by lia|rewrite Z.min_r by lia]; by rewrite ?Ea, ?Eb.
Qed.

Lemma mod_values (f : Z -> Z -> Z) w signed a b : 0 < w -> 0 <= a < 2 ^ w -> 0 <= b < 2 ^ w -> (forall x y, f x y mod 2 ^ w = f (x mod 2 ^ w) (y mod 2 ^ w) mod 2 ^ w) ->
  f a b mod 2 ^ w = f (value_of w signed a) (value_of w signed b) mod 2 ^ w.
Proof. intros Hw Ha Hb Hf. rewrite (Hf (value_of _ _ _)). destruct (value_range w signed a Hw Ha) as (-> & _). by destruct (value_range w signed b Hw Hb) as (-> & _). Qed.

(** The argument of an average: twice the ranks, and whether the type is signed. *)
Lemma avg_arg n b : 0 < n < 2 ^ 30 -> u64 (Z.lor (Z.shiftl n 1) (Z.b2z b)) = 2 * n + Z.b2z b.
Proof.
  intros Hn. rewrite Z.shiftl_mul_pow2, Z.lor_comm by lia. change (2 ^ 1) with 2. unfold u64. destruct b; simpl Z.b2z; [|rewrite Z.lor_0_l, Z.mod_small; lia].
  rewrite <- Z.add_nocarry_lor; [rewrite Z.mod_small; lia|]. change 1 with (Z.ones 1). rewrite Z.land_comm, Z.land_ones by lia. by apply Z.mod_mul.
Qed.

Lemma avg_fn w n b : 0 < n < 2 ^ 30 -> make_fn w ncclDevSumPostDiv (2 * n + Z.b2z b) = FuncSumPostDiv n b ((2 ^ uint_bits w - 1) / n).
Proof.
  intros Hn. cbn [make_fn]. rewrite Z.testbit_0_r. rewrite Z.shiftr_div_pow2, Z.mul_comm, Z.div_add_l by lia. rewrite (Z.div_small (Z.b2z b)) by (destruct b; simpl; lia). rewrite Z.add_0_r.
  by rewrite Z.mod_small by lia.
Qed.

(** (C27) The built-in operators on integers mean the same on host and device.  For every
    integer type and built-in operator, the unsigned device function the host
    chooses, with the argument it passes, computes sum and product modulo the
    width, minimum and maximum of the values (signed for a signed type), and for
    an average the sum followed by the division by the number of ranks, rounded
    toward zero; the reciprocal and its correction never give another quotient. *)
Theorem builtin_integer_ops recip junk op dt comm : is_integer dt = true -> 0 <= op < ncclNumOps -> 0 < uc_nRanks comm < 2 ^ 30 ->
  let w := width_of dt in let v := value_of w (is_signed dt) in
  exists f, hostToDevRedOp recip junk op dt comm = Ret f /\
  let fn := make_fn w (ro_op f) (ro_scalarArg f) in
  fn_ok w fn /\ (forall x, preOp1 w fn x = x) /\
  (forall a b, 0 <= a < 2 ^ w -> 0 <= b < 2 ^ w -> reduce1 w fn a b = spec_reduce op (v a) (v b) mod 2 ^ w) /\
  (forall x, 0 <= x < 2 ^ w -> postOp1 w fn x = spec_final op (uc_nRanks comm) (v x) mod 2 ^ w).
Proof.
  intros Hi Hop Hn w v. destruct (bits_of_type dt Hi) as (Eall & Esign & Hw). fold w in Eall, Esign, Hw. assert (0 < w) as Hw0 by (destruct Hw as [->|[->| ->]]; lia).
  assert (forall x, 0 <= x < 2 ^ w -> x = v x mod 2 ^ w) as Hv by (intros x Hx; by destruct (value_range w (is_signed dt) x Hw0 Hx)).
  assert (forall a b, 0 <= a < 2 ^ w -> 0 <= b < 2 ^ w -> (a + b) mod 2 ^ w = (v a + v b) mod 2 ^ w) as Hsum by (intros; apply mod_values; [done|done|done|intros; apply Z.add_mod, Z.pow_nonzero; lia]).
  assert (forall a b, 0 <= a < 2 ^ w -> 0 <= b < 2 ^ w -> (a * b) mod 2 ^ w = (v a * v b) mod 2 ^ w) as Hprod by (intros; apply mod_values; [done|done|done|intros; apply Z.mul_mod, Z.pow_nonzero; lia]).
  assert (forall max, (Z.lxor (if is_signed dt then Z.lxor 0 (signBit dt) else 0) (if max : bool then allBits dt else 0)) mod 2 ^ w = mask_of w (is_signed dt) max) as Hmask.
  { intros max. rewrite Z.lxor_0_l, Eall, Esign. fold (mask_of w (is_signed dt) max). apply Z.mod_small. by apply mask_of_range. }
  assert (op = 0 \/ op = 1 \/ op = 2 \/ op = 3 \/ op = 4) as [->|[->|[->|[->| ->]]]] by (unfold ncclNumOps in Hop; lia); cbn [hostToDevRedOp Z.eqb Pos.eqb orb ncclSum ncclProd ncclMin ncclMax ncclAvg].
  - eexists. split; [reflexivity|]. split; [done|]. by split_and!.
  - eexists. split; [reflexivity|]. split; [done|]. by split_and!.
  - eexists. split; [reflexivity|]. cbn [make_fn ro_op ro_scalarArg]. rewrite (Hmask true). split; [by apply mask_of_range|]. split_and!; [done| |done]. intros a b. by apply (minmax_value w (is_signed dt) true).
  - eexists. split; [reflexivity|]. cbn [make_fn ro_op ro_scalarArg]. rewrite (Hmask false). split; [by apply mask_of_range|]. split_and!; [done| |done]. intros a b. by apply (minmax_value w (is_signed dt) false).
  - rewrite Hi, arith_in_range by (rewrite Z.shiftl_mul_pow2 by lia; unfold in_range, int32; simpl; lia). cbn [mbind outcome_bind]. eexists. split; [reflexivity|]. cbn [ro_op ro_scalarArg].
    rewrite avg_arg, avg_fn by done. split; [done|]. split_and!; [done|done|]. intros x Hx. cbn [postOp1]. apply divide_spec; [done|lia|done].
Qed.

Lemma builtin_integer_ops_witness : let comm := new_comm 4096 0 3 false in
  (is_integer ncclInt8 = true /\ 0 <= ncclAvg < ncclNumOps /\ 0 < uc_nRanks comm < 2 ^ 30) /\
  exists f, hostToDevRedOp (fun _ _ => 0) (MkRedOpFull ncclDevSum 0 false 0) ncclAvg ncclInt8 comm = Ret f /\
    postOp1 8 (make_fn 8 (ro_op f) (ro_scalarArg f)) 0xF9 = (-7) `quot` 3 mod 2 ^ 8.
Proof.
  intros comm. split; [vm_compute; split_and!; congruence|].
  destruct (builtin_integer_ops (fun _ _ => 0) (MkRedOpFull ncclDevSum 0 false 0) ncclAvg ncclInt8 comm) as (f & E & _ & _ & _ & H); [reflexivity|vm_compute; split; congruence|vm_compute; split; congruence|].
  exists f. split; [exact E|]. apply (H 0xF9). vm_compute. split; congruence.
Defined.

(** ** Packs of elements *)

Lemma preOp_elts w fn n a : 0 < w -> in_pack w n a -> in_pack w n (apply_preOp w fn n a) /\ elts w n (apply_preOp w fn n a) = preOp1 w fn <$> elts w n a.
Proof.
  intros Hw Ha. pose proof (pow2_pos w ltac:(lia)). apply apply_pack_elts; [done| | |done].
  - intros x Hx. destruct fn; try done. by apply Z.mod_pos_bound.
  - by destruct fn.
Qed.

Lemma postOp_elts w fn n a : 0 < w -> in_pack w n a -> in_pack w n (apply_postOp w fn n a) /\ elts w n (apply_postOp w fn n a) = postOp1 w fn <$> elts w n a.
Proof.
  intros Hw Ha. pose proof (pow2_pos w ltac:(lia)). apply apply_pack_elts; [done| | |done].
  - intros x Hx. destruct fn; try done. cbn [postOp1]. unfold divide. cbv zeta. destruct (_ && _); by apply Z.mod_pos_bound.
  - by destruct fn.
Qed.

(** (C26) Reducing a pack of any size is reducing it element by element: the elements
    of the result of [applyReduce], also where it runs the routines that handle
    four bytes in one register, are the reductions of the elements at the same
    places, and the same holds for [applyPreOp] and [applyPostOp], which leave the
    pack whole where the operation is the identity. *)
Theorem packs_elementwise w fn n a b : 0 < w -> fn_ok w fn -> in_pack w n a -> in_pack w n b ->
  elts w n (apply_reduce w fn n a b) = zip_with (reduce1 w fn) (elts w n a) (elts w n b) /\
  elts w n (apply_preOp w fn n a) = preOp1 w fn <$> elts w n a /\ elts w n (apply_postOp w fn n a) = postOp1 w fn <$> elts w n a.
Proof. intros Hw Hf Ha Hb. split; [by apply apply_reduce_elts|]. split; [by apply preOp_elts|by apply postOp_elts]. Qed.

Lemma packs_elementwise_witness :
  let a := 0x80ff017f00112233 in let b := 0x7f00fe8010ee22ff in
  (0 < 8 /\ fn_ok 8 (FuncMinMax 0x80) /\ in_pack 8 3 a /\ in_pack 8 3 b) /\
  elts 8 3 (apply_reduce 8 (FuncMinMax 0x80) 3 a b) = zip_with (reduce1 8 (FuncMinMax 0x80)) (elts 8 3 a) (elts 8 3 b).
Proof.
  intros a b. assert (fn_ok 8 (FuncMinMax 0x80) /\ in_pack 8 3 a /\ in_pack 8 3 b) as (H1 & H2 & H3) by (vm_compute; split_and!; congruence).
  split; [split; [lia|]; exact (conj H1 (conj H2 H3))|]. apply (packs_elementwise 8 (FuncMinMax 0x80) 3 a b); [lia|exact H1|exact H2|exact H3].
Defined.
