(* ===== verification/ReduceCopy.v ===== *)
(** * Copying and reducing on the device (src/src/device/common_kernel.h, onerank.cu)

    [reduceCopy] is run by all threads of a group: it reduces any number of source
    buffers and writes the result to any number of destinations.  The data is gone
    through in passes of decreasing pack size; in a pass the warps take hunks in
    turn, and afterwards the warps are renumbered so that the one with the least
    work comes first.  The threads do not synchronise. *)
From S2P Require Import Prelude Bitops Device RingAlgo UserOps Reduce.

(** ** Which packs a thread handles *)

(** A thread's number and what all threads of the group agree on: the bytes done
    and the bytes left. *)
Record pos := MkPos { p_thread : Z; p_behind : Z; p_ahead : Z }.

(** One iteration of the loop: the size of a pack and, for each step of the
    unrolled loops, its offset by the pointers kept for the first sources and
    destinations and by [threadBytesBehind]. *)
Record iter := MkIter { it_bytes : Z; it_offs : list (Z * Z) }.

(** [while (Unroll==1 ? (BytePerPack <= threadBytesAhead) : (0 < nHunksAhead))];
    the iterations and the final [nHunksAhead]. *)
Fixpoint packs_loop (fuel : nat) (unroll bytes nWarps off behind ahead nHunks : Z) : outcome (list iter * Z) :=
  if (if unroll =? 1 then bytes <=? ahead else 0 <? nHunks) then
    match fuel with
    | O => Stuck
    | S fuel =>
      let hunk := unroll * WARP_SIZE * bytes in
      '(its, h) ← packs_loop fuel unroll bytes nWarps (off + unroll * (WARP_SIZE * bytes) + (nWarps - 1) * hunk) (behind + nWarps * hunk) (ahead - nWarps * hunk) (nHunks - nWarps);
      Ret (MkIter bytes ((fun u => (off + u * (WARP_SIZE * bytes), behind + u * (WARP_SIZE * bytes))) <$> seqZ 0 unroll) :: its, h)
    end
  else Ret ([], nHunks).

(** The counters of bytes, of the template type [IntBytes] ([int] or [ssize_t]), are
    unbounded here: the callers pass counts of a chunk where the type is [int]. *)
Definition reduceCopyPacks (unroll bytes nThreads : Z) (p : pos) : outcome (list iter * pos) :=
  if bytes =? 0 then Stuck
  else
    let hunk := unroll * WARP_SIZE * bytes in
    let nWarps := nThreads `quot` WARP_SIZE in
    let warp := p_thread p `quot` WARP_SIZE in
    let lane := p_thread p `rem` WARP_SIZE in
    let threadBehind := p_behind p + (warp * hunk + lane * bytes) in
    let threadAhead := p_ahead p - (warp * hunk + lane * bytes) in
    let nHunks := p_ahead p `quot` (if hunk =? 0 then 1 else hunk) in
    let behind := p_behind p + nHunks * hunk in
    let ahead := p_ahead p - nHunks * hunk in
    let '(nHunks, behind, ahead) :=
      if (unroll =? 1) && (bytes <=? ahead) then (nHunks + 1, behind + (ahead - ahead `rem` bytes), ahead `rem` bytes) else (nHunks, behind, ahead) in
    '(its, h) ← packs_loop (S (Z.to_nat (p_ahead p))) unroll bytes nWarps threadBehind threadBehind threadAhead (nHunks - warp);
    let h := if (unroll =? 1) && (0 <? h) then h - nWarps else h in
    Ret (its, MkPos (- h * WARP_SIZE + lane) behind ahead).

(** The last two passes of [reduceCopy], by elements of [size] bytes. *)
Definition element_passes (unroll size nThreads : Z) (p : pos) : outcome (list iter) :=
  '(l, p) ← reduceCopyPacks ((unroll * (16 `quot` size)) `quot` 2) size nThreads p;
  if p_ahead p =? 0 then Ret l
  else '(l', _) ← reduceCopyPacks 1 size nThreads p; Ret (l ++ l').

(** All passes; [aligned] is the vote of the warp and [big] is [BigPackSize]. *)
Definition reduceCopy_iters (unroll size big : Z) (aligned : bool) (nThreads thread nElts : Z) : outcome (list iter) :=
  let p := MkPos thread 0 (nElts * size) in
  if (size <? big) && aligned then
    '(l, p) ← reduceCopyPacks unroll big nThreads p;
    if p_ahead p =? 0 then Ret l
    else
      '(l', p) ← reduceCopyPacks 1 big nThreads p;
      if p_ahead p =? 0 then Ret (l ++ l') else l'' ← element_passes unroll size nThreads p; Ret (l ++ l' ++ l'')
  else element_passes unroll size nThreads p.

(** ** What is done with a pack *)

(** Buffers are numbered; the same number twice is a buffer used in place. *)
Abbreviation memory := (Z -> Z -> Z) (only parsing).

(** The template arguments, the functions built from [redArg] and [preOpArgs], and
    the buffers.  Multimem sources and destinations are left out. *)
Record rc_config := MkRc {
  rc_size : Z; rc_minSrcs : Z; rc_maxSrcs : Z; rc_minDsts : Z; rc_maxDsts : Z; rc_preOpSrcs : Z;
  rc_redFn : red_fn; rc_preFn : Z -> red_fn; rc_postOp : bool; rc_srcs : list Z; rc_dsts : list Z }.

Definition rc_w (c : rc_config) : Z := 8 * rc_size c.
Definition levels (c : rc_config) (bytes : Z) : nat := Z.to_nat (Z.log2 (bytes / rc_size c)).

Definition read (mem : memory) (buf off size : Z) : Z := le_word ((fun i => mem buf (off + i)) <$> seqZ 0 size).
Definition write (mem : memory) (buf off size v : Z) : memory :=
  fun b x => if (b =? buf) && (off <=? x) && (x <? off + size) then byte_at v (x - off) else mem b x.

(** The number of buffers the two loops go through. *)
Definition used (min max n : Z) : Z := if min <? max then Z.max min (Z.min max n) else min.

Definition load_pre (c : rc_config) (s bytes v : Z) : Z := if s <? rc_preOpSrcs c then apply_preOp (rc_w c) (rc_preFn c s) (levels c bytes) v else v.

(** [acc] of one step: the sources, reduced, and the final operation. *)
Definition load_pack (c : rc_config) (mem : memory) (bytes : Z) (o : Z * Z) : outcome Z :=
  b ← zget (rc_srcs c) 0;
  let acc := load_pre c 0 bytes (read mem b (fst o) bytes) in
  acc ← for_range 1 (used (rc_minSrcs c) (rc_maxSrcs c) (Z.of_nat (length (rc_srcs c)))) (fun s acc =>
    b ← zget (rc_srcs c) s;
    let tmp := load_pre c s bytes (read mem b (if s <? rc_minSrcs c then fst o else snd o) bytes) in
    Ret (apply_reduce (rc_w c) (rc_redFn c) (levels c bytes) acc tmp)) acc;
  Ret (if rc_postOp c then apply_postOp (rc_w c) (rc_redFn c) (levels c bytes) acc else acc).

(** The stores of one step. *)
Definition store_pack (c : rc_config) (bytes : Z) (o : Z * Z) (v : Z) (mem : memory) : outcome memory :=
  for_range 0 (used (rc_minDsts c) (rc_maxDsts c) (Z.of_nat (length (rc_dsts c)))) (fun d mem =>
    b ← zget (rc_dsts c) d;
    Ret (write mem b (if d <? rc_minDsts c then fst o else snd o) bytes v)) mem.

Fixpoint load_all (c : rc_config) (mem : memory) (bytes : Z) (os : list (Z * Z)) : outcome (list Z) :=
  match os with [] => Ret [] | o :: os => v ← load_pack c mem bytes o; vs ← load_all c mem bytes os; Ret (v :: vs) end.
Fixpoint store_all (c : rc_config) (bytes : Z) (os : list (Z * Z)) (vs : list Z) (mem : memory) : outcome memory :=
  match os, vs with
  | o :: os, v :: vs => mem ← store_pack c bytes o v mem; store_all c bytes os vs mem
  | _, _ => Ret mem
  end.

(** ** Threads

    A thread is in an iteration before its loads or, with the values in
    registers, before its stores.  The threads run in any order. *)
Record thread_state := MkThread { th_prog : list iter; th_acc : option (list Z) }.

Inductive rc_step (c : rc_config) : memory * list thread_state -> memory * list thread_state -> Prop :=
  | step_load mem ts t i p vs : ts !! t = Some (MkThread (i :: p) None) -> load_all c mem (it_bytes i) (it_offs i) = Ret vs ->
      rc_step c (mem, ts) (mem, <[t := MkThread (i :: p) (Some vs)]> ts)
  | step_store mem mem' ts t i p vs : ts !! t = Some (MkThread (i :: p) (Some vs)) -> store_all c (it_bytes i) (it_offs i) vs mem = Ret mem' ->
      rc_step c (mem, ts) (mem', <[t := MkThread p None]> ts).

Definition finished (ts : list thread_state) : Prop := Forall (fun t => t = MkThread [] None) ts.

(** The vote on alignment: lane [i] looks at source and destination [i]. *)
Definition aligned_vote (big : Z) (base : Z -> Z) (c : rc_config) : bool :=
  forallb (fun lane =>
    match rc_srcs c !! Z.to_nat lane with Some b => base b mod big =? 0 | None => true end &&
    match rc_dsts c !! Z.to_nat lane with Some b => base b mod big =? 0 | None => true end) (seqZ 0 WARP_SIZE).

(** The iterations of a thread, with the first tests of [reduceCopy]. *)
Definition reduceCopy (unroll : Z) (base : Z -> Z) (c : rc_config) (nThreads thread nElts : Z) : outcome (list iter) :=
  if (rc_maxDsts c =? 0) || ((rc_minDsts c =? 0) && (Z.of_nat (length (rc_dsts c)) =? 0)) then Ret []
  else reduceCopy_iters unroll (rc_size c) 16 (aligned_vote 16 base c) nThreads thread nElts.

(** ** One pass *)

(** The packs of some iterations, as offset and size. *)
Definition packs_of (its : list iter) : list (Z * Z) := its ≫= fun i => (fun o => (fst o, it_bytes i)) <$> it_offs i.

(** The two ways to an offset agree. *)
Definition even_iter (i : iter) : Prop := Forall (fun o => fst o = snd o) (it_offs i).

(** Consecutive packs from [b] on. *)
Definition tiles (b n bytes : Z) : list (Z * Z) := (fun k => (b + k * bytes, bytes)) <$> seqZ 0 n.

Lemma fmap_bind {A B C} (f : B -> C) (g : A -> list B) l : f <$> (l ≫= g) = l ≫= fun x => f <$> g x.
Proof. induction l as [|x l IH]; [done|]. by rewrite !bind_cons, fmap_app, IH. Qed.

Section pass.
Context (unroll bytes nWarps : Z) (Hu : 1 <= unroll) (Hb : 1 <= bytes) (Hn : 1 <= nWarps).
Let hunk := unroll * WARP_SIZE * bytes.

(** Iteration [j] of a thread that starts at [off]. *)
Definition iter_at (off j : Z) : iter :=
  MkIter bytes ((fun u => (off + j * (nWarps * hunk) + u * (WARP_SIZE * bytes), off + j * (nWarps * hunk) + u * (WARP_SIZE * bytes))) <$> seqZ 0 unroll).

Definition goes_on (ahead nHunks j : Z) : bool := if unroll =? 1 then bytes <=? ahead - j * (nWarps * hunk) else 0 <? nHunks - j * nWarps.

Lemma packs_loop_closed J fuel off ahead nHunks : (J <= fuel)%nat -> (forall j, 0 <= j < Z.of_nat J -> goes_on ahead nHunks j = true) -> goes_on ahead nHunks (Z.of_nat J) = false ->
  packs_loop fuel unroll bytes nWarps off off ahead nHunks = Ret (iter_at off <$> seqZ 0 (Z.of_nat J), nHunks - Z.of_nat J * nWarps).
Proof.
  revert fuel off ahead nHunks. induction J as [|J IH]; intros fuel off ahead nHunks Hf Ht He.
  - unfold goes_on in He. rewrite !Z.mul_0_l, !Z.sub_0_r in He. assert (forall A (x y : A), (if (if unroll =? 1 then bytes <=? ahead else 0 <? nHunks) then x else y) = y) as Hif by (intros; by rewrite He).
    destruct fuel; cbn [packs_loop]; rewrite Hif; simpl; by rewrite Z.sub_0_r.
  - destruct fuel as [|fuel]; [lia|]. pose proof (Ht 0 ltac:(lia)) as H0. unfold goes_on in H0. rewrite !Z.mul_0_l, !Z.sub_0_r in H0. cbn [packs_loop]. rewrite H0. fold hunk.
    replace (off + unroll * (WARP_SIZE * bytes) + (nWarps - 1) * hunk) with (off + nWarps * hunk) by (unfold hunk; lia).
    rewrite (IH fuel (off + nWarps * hunk) (ahead - nWarps * hunk) (nHunks - nWarps)); [|lia| |].
    + cbn [mbind outcome_bind]. rewrite Nat2Z.inj_succ, (seqZ_cons 0 (Z.succ (Z.of_nat J))) by lia. rewrite fmap_cons, Z.pred_succ. f_equal. f_equal; [|lia]. f_equal.
      * unfold iter_at. f_equal. apply list_fmap_ext. intros i u _. f_equal; lia.
      * change (Z.succ 0) with (1 + 0). rewrite <- (fmap_add_seqZ 1 0 (Z.of_nat J)), <- list_fmap_compose. apply list_fmap_ext. intros i j _. unfold iter_at, compose. f_equal. apply list_fmap_ext. intros i' u _. f_equal; lia.
    + intros j Hj. rewrite <- (Ht (j + 1)) by lia. unfold goes_on. destruct (unroll =? 1); [f_equal|f_equal]; lia.
    + rewrite <- He. unfold goes_on. destruct (unroll =? 1); [f_equal|f_equal]; lia.
Qed.

(** How often a stride of [n] from [w] stays below [N]. *)
Definition strides (N w n : Z) : Z := (N - w + n - 1) / n.

Lemma strides_spec N w n : 0 <= N -> 0 <= w < n ->
  0 <= strides N w n /\ (forall j, 0 <= j -> j < strides N w n <-> w + j * n < N) /\ - n < N - w - strides N w n * n <= 0 /\ - (N - w - strides N w n * n) = (w - N) mod n.
Proof.
  intros HN Hw. unfold strides. set (x := N - w + n - 1). pose proof (Z.div_mod x n ltac:(lia)) as E. pose proof (Z.mod_pos_bound x n ltac:(lia)) as Hm. set (J := x / n) in *.
  assert (0 <= J) by (unfold J; apply Z.div_pos; unfold x; lia). split; [done|]. split; [|split; [unfold x in *; lia|]].
  - intros j Hj. unfold x in *. split; intros H'; [assert (j * n <= (J - 1) * n) by (apply Z.mul_le_mono_nonneg_r; lia); lia|].
    destruct (Z.lt_ge_cases j J) as [|Hge]; [done|]. assert (J * n <= j * n) by (apply Z.mul_le_mono_nonneg_r; lia). lia.
  - apply Z.mod_unique with (- J); [left|]; unfold x in *; lia.
Qed.

(** The pack at step [u] of hunk [h] in lane [l]. *)
Definition pack_index (h u l : Z) : Z := (h * unroll + u) * WARP_SIZE + l.

Lemma pack_index_parts h u l : 0 <= u < unroll -> 0 <= l < WARP_SIZE ->
  pack_index h u l mod WARP_SIZE = l /\ pack_index h u l / WARP_SIZE mod unroll = u /\ pack_index h u l / (unroll * WARP_SIZE) = h.
Proof.
  intros H1 H2. unfold pack_index. rewrite (Z.add_comm (_ * WARP_SIZE)), Z.mod_add, Z.div_add by (unfold WARP_SIZE; lia). rewrite (Z.mod_small l), (Z.div_small l) by lia. split; [done|].
  rewrite Z.add_0_l, Z.add_comm, Z.mod_add, Z.mod_small by lia. split; [done|]. rewrite (Z.mul_comm unroll), <- Z.div_div by (unfold WARP_SIZE; lia).
  rewrite Z.div_add by (unfold WARP_SIZE; lia). rewrite (Z.div_small l), Z.add_0_l by lia. rewrite Z.div_add, Z.div_small by lia. lia.
Qed.

Lemma pack_index_of k : pack_index (k / (unroll * WARP_SIZE)) (k / WARP_SIZE mod unroll) (k mod WARP_SIZE) = k.
Proof.
  unfold pack_index. rewrite (Z.mul_comm unroll), <- Z.div_div by (unfold WARP_SIZE; lia).
  pose proof (Z.div_mod (k / WARP_SIZE) unroll ltac:(lia)). pose proof (Z.div_mod k WARP_SIZE ltac:(unfold WARP_SIZE; lia)). nia.
Qed.

(** The thread, by its position, that handles pack [k]. *)
Definition owner (k : Z) : Z := k / (unroll * WARP_SIZE) mod nWarps * WARP_SIZE + k mod WARP_SIZE.

(** The packs of [J] iterations of the thread at position [q]. *)
Definition indices (q J : Z) : list Z := seqZ 0 J ≫= fun j => (fun u => pack_index (q / WARP_SIZE + j * nWarps) u (q mod WARP_SIZE)) <$> seqZ 0 unroll.

Lemma indices_packs behind q J : packs_of (iter_at (behind + (q / WARP_SIZE * hunk + q mod WARP_SIZE * bytes)) <$> seqZ 0 J) = (fun k => (behind + k * bytes, bytes)) <$> indices q J.
Proof.
  unfold packs_of, indices. induction (seqZ 0 J) as [|j js IH]; [done|]. rewrite fmap_cons, !bind_cons, fmap_app, IH. f_equal. unfold iter_at. cbn [it_offs it_bytes].
  rewrite <- !list_fmap_compose. apply list_fmap_ext. intros i u _. unfold compose, pack_index. cbn [fst]. f_equal. unfold hunk. lia.
Qed.

Lemma thread_parts q : 0 <= q < nWarps * WARP_SIZE -> 0 <= q / WARP_SIZE < nWarps /\ 0 <= q mod WARP_SIZE < WARP_SIZE /\ q = q / WARP_SIZE * WARP_SIZE + q mod WARP_SIZE.
Proof. unfold WARP_SIZE. intros. dlia. Qed.

Lemma elem_of_indices q J k : 0 <= q < nWarps * WARP_SIZE -> 0 <= J -> k ∈ indices q J <-> 0 <= k /\ owner k = q /\ k / (unroll * WARP_SIZE) < q / WARP_SIZE + J * nWarps.
Proof.
  intros Hq HJ. destruct (thread_parts q Hq) as (Hw & Hl & Eq). set (w := q / WARP_SIZE) in *. set (l := q mod WARP_SIZE) in *. unfold indices. rewrite list_elem_of_bind. fold w l. split.
  - intros (j & (u & -> & Hu'%elem_of_seqZ)%list_elem_of_fmap & Hj%elem_of_seqZ). destruct (pack_index_parts (w + j * nWarps) u l ltac:(lia) Hl) as (E1 & _ & E3).
    split; [unfold pack_index, WARP_SIZE in *; nia|]. unfold owner. rewrite E1, E3, Z.mod_add, Z.mod_small by lia. split; [done|]. nia.
  - intros (Hk & Ho & Hh). set (h := k / (unroll * WARP_SIZE)) in *. pose proof (Z.mod_pos_bound h nWarps ltac:(lia)) as Hm. pose proof (Z.mod_pos_bound k WARP_SIZE ltac:(done)) as Hm'.
    unfold owner in Ho. fold h in Ho. assert (h mod nWarps = w /\ k mod WARP_SIZE = l) as [Ew El] by (unfold WARP_SIZE in *; lia). pose proof (Z.div_mod h nWarps ltac:(lia)) as Eh. rewrite Ew in Eh.
    assert (0 <= h) by (unfold h; apply Z.div_pos; unfold WARP_SIZE; lia). exists (h / nWarps). split.
    + apply list_elem_of_fmap. exists (k / WARP_SIZE mod unroll). split; [|apply elem_of_seqZ; pose proof (Z.mod_pos_bound (k / WARP_SIZE) unroll ltac:(lia)); lia].
      replace (w + h / nWarps * nWarps) with h by lia. rewrite <- El. symmetry. apply pack_index_of.
    + apply elem_of_seqZ. split; [by apply Z.div_pos; lia|]. assert (h / nWarps * nWarps < J * nWarps) by lia. apply (Z.mul_lt_mono_pos_r nWarps); lia.
Qed.

Lemma NoDup_indices q J : 0 <= q < nWarps * WARP_SIZE -> NoDup (indices q J).
Proof.
  intros Hq. destruct (thread_parts q Hq) as (Hw & Hl & Eq). set (w := q / WARP_SIZE) in *. set (l := q mod WARP_SIZE) in *. unfold indices. fold w l. apply NoDup_bind; [| |apply NoDup_seqZ].
  - intros j j' k _ _ (u & -> & Hu1%elem_of_seqZ)%list_elem_of_fmap (u' & E & Hu2%elem_of_seqZ)%list_elem_of_fmap.
    destruct (pack_index_parts (w + j * nWarps) u l ltac:(lia) Hl) as (_ & _ & E3). destruct (pack_index_parts (w + j' * nWarps) u' l ltac:(lia) Hl) as (_ & _ & E3'). rewrite E in E3.
    apply (Z.mul_reg_r _ _ nWarps); lia.
  - intros j _. apply NoDup_fmap_2_strong; [|apply NoDup_seqZ]. intros u u' Hu1%elem_of_seqZ Hu2%elem_of_seqZ E.
    destruct (pack_index_parts (w + j * nWarps) u l ltac:(lia) Hl) as (_ & E2 & _). destruct (pack_index_parts (w + j * nWarps) u' l ltac:(lia) Hl) as (_ & E2' & _). congruence.
Qed.

(** The packs and the hunks of a pass over [A] bytes, and the renumbering after it. *)
Definition packs_done (A : Z) : Z := if unroll =? 1 then A / bytes else A / hunk * (unroll * WARP_SIZE).
Definition hunks_done (A : Z) : Z := if unroll =? 1 then (A / bytes + WARP_SIZE - 1) / WARP_SIZE else A / hunk.
Definition next_thread (A q : Z) : Z := (q / WARP_SIZE - hunks_done A) mod nWarps * WARP_SIZE + q mod WARP_SIZE.

Lemma hunk_pos : bytes <= hunk.
Proof. unfold hunk, WARP_SIZE. nia. Qed.

(** The test of an iteration tells whether the thread's next pack is there. *)
Lemma unrolled_test a A q j : unroll <> 1 -> goes_on a (A / hunk - q / WARP_SIZE) j = (q / WARP_SIZE + j * nWarps <? A / hunk).
Proof. intros H. unfold goes_on. destruct (Z.eqb_spec unroll 1); [done|]. zcases; lia. Qed.

Lemma single_test A q j n : unroll = 1 -> 0 <= q -> goes_on (A - (q / WARP_SIZE * hunk + q mod WARP_SIZE * bytes)) n j = (q + j * (nWarps * WARP_SIZE) <? A / bytes).
Proof.
  intros E Hq. unfold goes_on. rewrite (proj2 (Z.eqb_eq unroll 1) E). pose proof (Z.div_mod A bytes ltac:(lia)). pose proof (Z.mod_pos_bound A bytes ltac:(lia)).
  pose proof (Z.div_mod q WARP_SIZE ltac:(done)) as Eq. set (k := q + j * (nWarps * WARP_SIZE)).
  replace (A - (q / WARP_SIZE * hunk + q mod WARP_SIZE * bytes) - j * (nWarps * hunk)) with (A - k * bytes) by (unfold hunk, k; rewrite E; nia).
  destruct (Z.leb_spec bytes (A - k * bytes)), (Z.ltb_spec k (A / bytes)); try done; nia.
Qed.

(** Only the last hunk of a pass without unrolling can be partial. *)
Lemma partial_hunk P q : 0 <= P -> 0 <= q < nWarps * WARP_SIZE -> let w := q / WARP_SIZE in let H := (P + WARP_SIZE - 1) / WARP_SIZE in let J := strides P q (nWarps * WARP_SIZE) in
  let h := H - w - J * nWarps in - (if 0 <? h then h - nWarps else h) = (w - H) mod nWarps.
Proof.
  intros HP Hq w H J h. destruct (thread_parts q Hq) as (Hw & Hl & Eq). fold w in Hw, Eq. assert (WARP_SIZE * (H - 1) < P <= WARP_SIZE * H) as HH by (unfold H, WARP_SIZE; dlia).
  destruct (strides_spec P q (nWarps * WARP_SIZE) HP ltac:(lia)) as (HJ & HJs & _). fold J in HJ, HJs. destruct (strides_spec H w nWarps ltac:(unfold WARP_SIZE in *; lia) Hw) as (HJ2 & HJ2s & HJ2r & HJ2m).
  set (J2 := strides H w nWarps) in *. assert (J <= J2 <= J + 1) as HJJ.
  { split.
    - apply Z.le_ngt. intros Hlt. pose proof (proj1 (HJs J2 ltac:(lia)) Hlt) as H1. assert (~ w + J2 * nWarps < H) as H2 by (intros E; apply HJ2s in E; lia). unfold WARP_SIZE in *. nia.
    - apply Z.le_ngt. intros Hlt. assert (w + (J + 1) * nWarps < H) as H1 by (apply HJ2s; lia). assert (~ q + J * (nWarps * WARP_SIZE) < P) as H2 by (intros E; apply HJs in E; lia). unfold WARP_SIZE in *. nia. }
  rewrite <- HJ2m. unfold h. assert (J = J2 \/ J = J2 - 1) as [-> | ->] by lia; destruct (Z.ltb_spec 0 (H - w - J2 * nWarps)), (Z.ltb_spec 0 (H - w - (J2 - 1) * nWarps)); lia.
Qed.

Lemma single_bounds A : unroll = 1 -> 0 <= A ->
  (if bytes <=? A - A / hunk * hunk then (A / hunk + 1, A / hunk * hunk + (A - A / hunk * hunk - (A - A / hunk * hunk) mod bytes), (A - A / hunk * hunk) mod bytes)
   else (A / hunk, A / hunk * hunk, A - A / hunk * hunk)) = ((A / bytes + WARP_SIZE - 1) / WARP_SIZE, A / bytes * bytes, A - A / bytes * bytes).
Proof.
  intros E HA. assert (hunk = bytes * WARP_SIZE) as Eh by (unfold hunk; lia). rewrite Eh. rewrite <- Z.div_div by (unfold WARP_SIZE; lia). set (P := A / bytes).
  pose proof (Z.div_mod A bytes ltac:(lia)) as EA. pose proof (Z.mod_pos_bound A bytes ltac:(lia)) as Hm. fold P in EA. set (m := A mod bytes) in *.
  pose proof (Z.div_mod P WARP_SIZE ltac:(done)) as EP. pose proof (Z.mod_pos_bound P WARP_SIZE ltac:(done)) as Hp. set (H := P / WARP_SIZE) in *. set (r := P mod WARP_SIZE) in *.
  replace (A - H * (bytes * WARP_SIZE)) with (m + r * bytes) by nia. rewrite Z.mod_add, Z.mod_small by lia.
  destruct (Z.leb_spec bytes (m + r * bytes)).
  - assert (1 <= r) by nia. replace ((P + WARP_SIZE - 1) / WARP_SIZE) with (H + 1) by (apply Z.div_unique with (r - 1); unfold WARP_SIZE in *; lia). f_equal; [f_equal|]; nia.
  - assert (r = 0) as Hr0 by nia. replace ((P + WARP_SIZE - 1) / WARP_SIZE) with H by (apply Z.div_unique with (WARP_SIZE - 1); unfold WARP_SIZE in *; lia). f_equal; [f_equal|]; nia.
Qed.

Lemma owner_parts k q : 0 <= q < nWarps * WARP_SIZE -> 0 <= k -> owner k = q ->
  k mod WARP_SIZE = q mod WARP_SIZE /\ 0 <= k / (unroll * WARP_SIZE) / nWarps /\ k / (unroll * WARP_SIZE) = q / WARP_SIZE + k / (unroll * WARP_SIZE) / nWarps * nWarps.
Proof.
  intros Hq Hk Ho. destruct (thread_parts q Hq) as (Hw & Hl & Eq). unfold owner in Ho. set (h := k / (unroll * WARP_SIZE)) in *. pose proof (Z.mod_pos_bound h nWarps ltac:(lia)).
  pose proof (Z.mod_pos_bound k WARP_SIZE ltac:(done)). assert (h mod nWarps = q / WARP_SIZE /\ k mod WARP_SIZE = q mod WARP_SIZE) as [Em El] by (unfold WARP_SIZE in *; lia). split; [done|].
  pose proof (Z.div_mod h nWarps ltac:(lia)). split; [|lia]. apply Z.div_pos; [|lia]. unfold h. apply Z.div_pos; [done|]. unfold WARP_SIZE. lia.
Qed.

Lemma below_stride h w J : 0 <= h / nWarps -> h = w + h / nWarps * nWarps -> h < w + J * nWarps <-> h / nWarps < J.
Proof. intros Hj E. rewrite E at 1. split; intros; [apply (Z.mul_lt_mono_pos_r nWarps); lia|]. assert (h / nWarps * nWarps < J * nWarps) by (apply Z.mul_lt_mono_pos_r; lia). lia. Qed.

Lemma single_indices q P k : unroll = 1 -> 0 <= P -> 0 <= q < nWarps * WARP_SIZE -> k ∈ indices q (strides P q (nWarps * WARP_SIZE)) <-> 0 <= k < P /\ owner k = q.
Proof.
  intros E1 HP Hq. destruct (strides_spec P q (nWarps * WARP_SIZE) HP Hq) as (HJ & HJs & _). rewrite elem_of_indices by done. destruct (thread_parts q Hq) as (_ & _ & Eq).
  assert (0 <= k -> owner k = q -> k / (unroll * WARP_SIZE) < q / WARP_SIZE + strides P q (nWarps * WARP_SIZE) * nWarps <-> k < P) as Hiff; [|naive_solver].
  intros Hk Ho. destruct (owner_parts k q Hq Hk Ho) as (El & Hj & Eh). rewrite (below_stride _ _ _ Hj Eh), (HJs _ Hj). set (j := k / (unroll * WARP_SIZE) / nWarps) in *.
  rewrite E1, Z.mul_1_l in Eh. pose proof (Z.div_mod k WARP_SIZE ltac:(done)). assert (k = q + j * (nWarps * WARP_SIZE)) as <- by nia. done.
Qed.

Lemma unrolled_indices q H k : 0 <= H -> 0 <= q < nWarps * WARP_SIZE -> k ∈ indices q (strides H (q / WARP_SIZE) nWarps) <-> 0 <= k < H * (unroll * WARP_SIZE) /\ owner k = q.
Proof.
  intros HH Hq. destruct (thread_parts q Hq) as (Hw & _ & Eq). destruct (strides_spec H (q / WARP_SIZE) nWarps HH Hw) as (HJ & HJs & _). rewrite elem_of_indices by done.
  assert (0 <= k -> owner k = q -> k / (unroll * WARP_SIZE) < q / WARP_SIZE + strides H (q / WARP_SIZE) nWarps * nWarps <-> k < H * (unroll * WARP_SIZE)) as Hiff; [|naive_solver].
  intros Hk Ho. destruct (owner_parts k q Hq Hk Ho) as (El & Hj & Eh). rewrite (below_stride _ _ _ Hj Eh), (HJs _ Hj), <- Eh. assert (0 < unroll * WARP_SIZE) as HU by (unfold WARP_SIZE; lia).
  pose proof (Z.div_mod k (unroll * WARP_SIZE) ltac:(lia)). pose proof (Z.mod_pos_bound k (unroll * WARP_SIZE) HU). split; intros; nia.
Qed.

(** The loop of one thread: its iterations and the final [nHunksAhead]. *)
Lemma single_loop off q A n : unroll = 1 -> 0 <= A -> 0 <= q < nWarps * WARP_SIZE -> let J := strides (A / bytes) q (nWarps * WARP_SIZE) in
  packs_loop (S (Z.to_nat A)) unroll bytes nWarps off off (A - (q / WARP_SIZE * hunk + q mod WARP_SIZE * bytes)) n = Ret (iter_at off <$> seqZ 0 J, n - J * nWarps).
Proof.
  intros E1 HA Hq J. assert (0 <= A / bytes <= A) as HP by (split; [apply Z.div_pos; lia|apply Z.div_le_upper_bound; nia]). destruct (strides_spec (A / bytes) q (nWarps * WARP_SIZE) ltac:(lia) Hq) as (HJ & HJs & _). fold J in HJ, HJs.
  assert (J <= A) as HJA. { apply Z.le_ngt. intros Hlt. assert (q + A * (nWarps * WARP_SIZE) < A / bytes) by (apply HJs; lia). unfold WARP_SIZE in *. nia. }
  rewrite <- (Z2Nat.id J) by done. apply packs_loop_closed; [lia|intros j Hj|]; rewrite single_test by lia; [apply Z.ltb_lt, HJs; lia|apply Z.ltb_ge]. rewrite Z2Nat.id by done.
  apply Z.le_ngt. intros Hlt. apply HJs in Hlt; lia.
Qed.

Lemma unrolled_loop off q A a : unroll <> 1 -> 0 <= A -> 0 <= q < nWarps * WARP_SIZE -> let J := strides (A / hunk) (q / WARP_SIZE) nWarps in
  packs_loop (S (Z.to_nat A)) unroll bytes nWarps off off a (A / hunk - q / WARP_SIZE) = Ret (iter_at off <$> seqZ 0 J, A / hunk - q / WARP_SIZE - J * nWarps).
Proof.
  intros E1 HA Hq J. destruct (thread_parts q Hq) as (Hw & _). pose proof hunk_pos. assert (0 <= A / hunk <= A) as HP by (split; [apply Z.div_pos; lia|apply Z.div_le_upper_bound; nia]).
  destruct (strides_spec (A / hunk) (q / WARP_SIZE) nWarps ltac:(lia) Hw) as (HJ & HJs & _). fold J in HJ, HJs.
  assert (J <= A) as HJA. { apply Z.le_ngt. intros Hlt. assert (q / WARP_SIZE + A * nWarps < A / hunk) by (apply HJs; lia). nia. }
  assert (forall j, goes_on a (A / hunk - q / WARP_SIZE) j = (q / WARP_SIZE + j * nWarps <? A / hunk)) as Hgo by (intros j; by apply unrolled_test).
  rewrite <- (Z2Nat.id J) by done. apply packs_loop_closed; [lia|intros j Hj|]; rewrite Hgo; [apply Z.ltb_lt, HJs; lia|apply Z.ltb_ge]. rewrite Z2Nat.id by done.
  apply Z.le_ngt. intros Hlt. apply HJs in Hlt; lia.
Qed.

(** The iterations of the thread at position [q]. *)
Definition iterations (A q : Z) : Z := if unroll =? 1 then strides (A / bytes) q (nWarps * WARP_SIZE) else strides (A / hunk) (q / WARP_SIZE) nWarps.

(** One thread in one pass. *)
Lemma thread_pass behind A q : 0 <= A -> 0 <= q < nWarps * WARP_SIZE ->
  reduceCopyPacks unroll bytes (nWarps * WARP_SIZE) (MkPos q behind A) =
    Ret (iter_at (behind + (q / WARP_SIZE * hunk + q mod WARP_SIZE * bytes)) <$> seqZ 0 (iterations A q), MkPos (next_thread A q) (behind + packs_done A * bytes) (A - packs_done A * bytes)) /\
  forall k, k ∈ indices q (iterations A q) <-> 0 <= k < packs_done A /\ owner k = q.
Proof.
  intros HA Hq. destruct (thread_parts q Hq) as (Hw & Hl & Eq). pose proof hunk_pos as Hh. assert (0 <= A / bytes /\ 0 <= A / hunk) as [HP HH] by (split; apply Z.div_pos; lia).
  unfold reduceCopyPacks. destruct (Z.eqb_spec bytes 0); [lia|]. cbn [p_thread p_behind p_ahead]. fold hunk. destruct (Z.eqb_spec hunk 0); [lia|].
  rewrite (quot_div_nonneg (nWarps * WARP_SIZE)), (quot_div_nonneg q), (quot_div_nonneg A hunk), (rem_mod_nonneg q) by (try lia; unfold WARP_SIZE; lia). rewrite Z.div_mul by done.
  pose proof (Z.mul_div_le A hunk ltac:(lia)). rewrite rem_mod_nonneg by lia. unfold next_thread, hunks_done, packs_done, iterations. destruct (Z.eqb_spec unroll 1) as [E1|E1]; cbn [andb].
  - split; [|intros k; by apply single_indices]. pose proof (single_bounds A E1 HA) as Hs. pose proof (partial_hunk (A / bytes) q HP Hq) as Hp. cbv zeta in Hp.
    destruct (bytes <=? A - A / hunk * hunk); injection Hs as Es1 Es2 Es3; rewrite single_loop by done; cbn [mbind outcome_bind]; rewrite Es1, Hp; f_equal; f_equal; f_equal; lia.
  - split; [|intros k; by apply unrolled_indices]. rewrite unrolled_loop by done. cbn [mbind outcome_bind].
    destruct (strides_spec (A / hunk) (q / WARP_SIZE) nWarps HH Hw) as (_ & _ & _ & HJm). rewrite HJm. f_equal. f_equal. f_equal; unfold hunk; lia.
Qed.

(** ** A pass of all threads *)

Lemma owner_range k : 0 <= owner k < nWarps * WARP_SIZE.
Proof. unfold owner. pose proof (Z.mod_pos_bound (k / (unroll * WARP_SIZE)) nWarps ltac:(lia)). pose proof (Z.mod_pos_bound k WARP_SIZE ltac:(done)). unfold WARP_SIZE in *. lia. Qed.

(** The threads share the packs out. *)
Lemma all_indices A : 0 <= A -> (seqZ 0 (nWarps * WARP_SIZE) ≫= fun q => indices q (iterations A q)) ≡ₚ seqZ 0 (packs_done A).
Proof.
  intros HA. apply NoDup_Permutation; [apply NoDup_bind|apply NoDup_seqZ|].
  - intros q q' k Hq%elem_of_seqZ Hq'%elem_of_seqZ H1 H2. apply (thread_pass 0) in H1 as [_ <-]; [|done|lia]. apply (thread_pass 0) in H2 as [_ <-]; [done|done|lia].
  - intros q Hq%elem_of_seqZ. apply NoDup_indices. lia.
  - apply NoDup_seqZ.
  - intros k. rewrite list_elem_of_bind, elem_of_seqZ, Z.add_0_l. split.
    + intros (q & Hk & Hq%elem_of_seqZ). apply (thread_pass 0) in Hk; [tauto|done|lia].
    + intros Hk. pose proof (owner_range k). exists (owner k). split; [by apply (thread_pass 0)|]. apply elem_of_seqZ. lia.
Qed.

Lemma permutes (f : Z -> Z) n : (forall q, 0 <= q < n -> 0 <= f q < n) -> (forall q q', 0 <= q < n -> 0 <= q' < n -> f q = f q' -> q = q') -> f <$> seqZ 0 n ≡ₚ seqZ 0 n.
Proof.
  intros Hr Hi. apply submseteq_length_Permutation; [|by rewrite length_fmap]. apply NoDup_submseteq.
  - apply NoDup_fmap_2_strong; [|apply NoDup_seqZ]. intros q q' Hq%elem_of_seqZ Hq'%elem_of_seqZ. apply Hi; lia.
  - intros x (q & -> & Hq%elem_of_seqZ)%list_elem_of_fmap. apply elem_of_seqZ. specialize (Hr q). lia.
Qed.

Lemma next_thread_permutes A : next_thread A <$> seqZ 0 (nWarps * WARP_SIZE) ≡ₚ seqZ 0 (nWarps * WARP_SIZE).
Proof.
  apply permutes; unfold next_thread; set (H := hunks_done A).
  - intros q Hq. destruct (thread_parts q Hq) as (_ & Hl & _). pose proof (Z.mod_pos_bound (q / WARP_SIZE - H) nWarps ltac:(lia)). unfold WARP_SIZE in *. lia.
  - intros q q' Hq Hq' E. destruct (thread_parts q Hq) as (Hw & Hl & Eq). destruct (thread_parts q' Hq') as (Hw' & Hl' & Eq').
    pose proof (Z.mod_pos_bound (q / WARP_SIZE - H) nWarps ltac:(lia)). pose proof (Z.mod_pos_bound (q' / WARP_SIZE - H) nWarps ltac:(lia)).
    assert ((q / WARP_SIZE - H) mod nWarps = (q' / WARP_SIZE - H) mod nWarps /\ q mod WARP_SIZE = q' mod WARP_SIZE) as [E1 E2] by (unfold WARP_SIZE in *; lia).
    pose proof (Z.div_mod (q / WARP_SIZE - H) nWarps ltac:(lia)) as D1. pose proof (Z.div_mod (q' / WARP_SIZE - H) nWarps ltac:(lia)) as D2. rewrite E1 in D1.
    assert (q / WARP_SIZE - q' / WARP_SIZE = nWarps * ((q / WARP_SIZE - H) / nWarps - (q' / WARP_SIZE - H) / nWarps)) as D by lia.
    set (x := (q / WARP_SIZE - H) / nWarps - (q' / WARP_SIZE - H) / nWarps) in *. assert (x = 0) by nia. lia.
Qed.

(** What a pass gives to the thread at position [q]. *)
Definition pass_iters (behind A q : Z) : list iter := iter_at (behind + (q / WARP_SIZE * hunk + q mod WARP_SIZE * bytes)) <$> seqZ 0 (iterations A q).

Lemma pass_eq behind A q : 0 <= A -> 0 <= q < nWarps * WARP_SIZE ->
  reduceCopyPacks unroll bytes (nWarps * WARP_SIZE) (MkPos q behind A) = Ret (pass_iters behind A q, MkPos (next_thread A q) (behind + packs_done A * bytes) (A - packs_done A * bytes)).
Proof. intros HA Hq. by apply thread_pass. Qed.

Lemma pass_shape behind A q : Forall (fun i => it_bytes i = bytes /\ even_iter i) (pass_iters behind A q).
Proof. unfold pass_iters. apply Forall_fmap, Forall_true. intros j. split; [done|]. unfold even_iter, iter_at. cbn [it_offs]. by apply Forall_fmap, Forall_true. Qed.

Lemma pass_tiles behind A : 0 <= A -> (seqZ 0 (nWarps * WARP_SIZE) ≫= fun q => packs_of (pass_iters behind A q)) ≡ₚ tiles behind (packs_done A) bytes.
Proof.
  intros HA. unfold tiles. rewrite <- (all_indices A HA), fmap_bind. apply reflexive_eq, list_bind_ext; [|done]. intros q. unfold pass_iters. apply indices_packs.
Qed.

Lemma packs_done_range A : 0 <= A -> 0 <= packs_done A /\ 0 <= A - packs_done A * bytes /\ (unroll = 1 -> A - packs_done A * bytes < bytes).
Proof.
  intros HA. pose proof hunk_pos. pose proof (Z.div_mod A bytes ltac:(lia)). pose proof (Z.mod_pos_bound A bytes ltac:(lia)). pose proof (Z.div_mod A hunk ltac:(lia)). pose proof (Z.mod_pos_bound A hunk ltac:(lia)).
  assert (0 <= A / bytes /\ 0 <= A / hunk) as [HP HH] by (split; apply Z.div_pos; lia). unfold packs_done. destruct (Z.eqb_spec unroll 1); [split_and!; lia|].
  split; [unfold WARP_SIZE; nia|]. replace (A / hunk * (unroll * WARP_SIZE) * bytes) with (hunk * (A / hunk)) by (unfold hunk; lia). split; [lia|done].
Qed.
End pass.

(** ** All passes *)

(** The packs of [l] follow each other from [lo] to [hi]. *)
Fixpoint tiling (lo : Z) (l : list (Z * Z)) (hi : Z) : Prop :=
  match l with [] => lo = hi | p :: l => p.1 = lo /\ 0 < p.2 /\ tiling (lo + p.2) l hi end.

Lemma tiling_app lo l1 mid l2 hi : tiling lo l1 mid -> tiling mid l2 hi -> tiling lo (l1 ++ l2) hi.
Proof. revert lo. induction l1 as [|p l1 IH]; intros lo; simpl; [by intros ->|]. intros (-> & Hp & H1) H2. split_and!; [done|done|by apply IH]. Qed.

Lemma tiles_tiling b n bytes : 0 < bytes -> 0 <= n -> tiling b (tiles b n bytes) (b + n * bytes).
Proof.
  intros Hb Hn. unfold tiles. rewrite <- (Z2Nat.id n) by done. clear Hn. induction (Z.to_nat n) as [|m IH]; [simpl; lia|]. rewrite seqZ_S, fmap_app. eapply tiling_app; [exact IH|]. simpl. split_and!; lia.
Qed.

Lemma bind_app_perm {A B} (f g : A -> list B) l : (l ≫= fun x => f x ++ g x) ≡ₚ (l ≫= f) ++ (l ≫= g).
Proof. induction l as [|x l IH]; [done|]. rewrite !bind_cons, IH. rewrite <- !(assoc_L (++)). f_equiv. rewrite !(assoc_L (++)). f_equiv. apply Permutation_app_comm. Qed.

Section group.
Context (size nWarps hi : Z) (Hs : 0 < size) (Hn : 1 <= nWarps).
Let nT := nWarps * WARP_SIZE.

(** A pack of [2^n] elements. *)
Definition pack_size (bytes : Z) : Prop := exists n : nat, bytes = size * 2 ^ Z.of_nat n.

Lemma pack_size_divides bytes : pack_size bytes -> 0 < bytes /\ (size | bytes).
Proof. intros [n ->]. pose proof (pow2_pos (Z.of_nat n) ltac:(lia)). split; [nia|]. exists (2 ^ Z.of_nat n). lia. Qed.

Definition iter_ok (i : iter) : Prop := even_iter i /\ pack_size (it_bytes i).

(** The threads of a group after some passes: their positions, the iterations so
    far, and the bytes done. *)
Record group (q : Z -> Z) (its : Z -> list iter) (lo : Z) : Prop := {
  gr_positions : q <$> seqZ 0 nT ≡ₚ seqZ 0 nT;
  gr_iters : forall t, 0 <= t < nT -> Forall iter_ok (its t);
  gr_tiling : exists L, (seqZ 0 nT ≫= fun t => packs_of (its t)) ≡ₚ L /\ tiling 0 L lo;
  gr_left : lo <= hi /\ (size | hi - lo);
}.

Lemma group_start : 0 <= hi -> (size | hi) -> group (fun t => t) (fun _ => []) 0.
Proof.
  intros H0 Hd. split; [by rewrite list_fmap_id|by constructor| |by rewrite Z.sub_0_r].
  exists []. split; [|done]. apply reflexive_eq. induction (seqZ 0 nT) as [|x l IH]; [done|]. by rewrite bind_cons, IH.
Qed.

Lemma group_position q its lo t : group q its lo -> 0 <= t < nT -> 0 <= q t < nT.
Proof. intros Hg Ht. assert (q t ∈ seqZ 0 nT) as H%elem_of_seqZ; [|lia]. rewrite <- (gr_positions _ _ _ Hg). apply list_elem_of_fmap_2, elem_of_seqZ. lia. Qed.

Lemma packs_of_app l l' : packs_of (l ++ l') = packs_of l ++ packs_of l'.
Proof. unfold packs_of. apply bind_app. Qed.

Lemma group_pass unroll bytes q its lo : group q its lo -> 1 <= unroll -> pack_size bytes -> let A := hi - lo in let K := packs_done unroll bytes A in
  let q' t := next_thread unroll bytes nWarps A (q t) in let ext t := pass_iters unroll bytes nWarps lo A (q t) in
  (forall t, 0 <= t < nT -> reduceCopyPacks unroll bytes nT (MkPos (q t) lo A) = Ret (ext t, MkPos (q' t) (lo + K * bytes) (hi - (lo + K * bytes)))) /\
  group q' (fun t => its t ++ ext t) (lo + K * bytes) /\ (unroll = 1 -> hi - (lo + K * bytes) < bytes).
Proof.
  intros Hg Hu Hps A K q' ext. destruct (pack_size_divides bytes Hps) as [Hb Hd]. destruct (gr_left _ _ _ Hg) as [Hle Hdiv]. assert (0 <= A) as HA by (unfold A; lia). destruct (packs_done_range unroll bytes ltac:(lia) ltac:(lia) A HA) as (HK0 & HK1 & HK2). fold K in HK0, HK1, HK2.
  split_and!.
  - intros t Ht. replace (hi - (lo + K * bytes)) with (A - K * bytes) by (unfold A; lia). apply pass_eq; [lia|lia|lia|done|]. by apply (group_position q its lo).
  - split.
    + unfold q'. rewrite (list_fmap_compose q (next_thread unroll bytes nWarps A)). rewrite (gr_positions _ _ _ Hg). apply next_thread_permutes; lia.
    + intros t Ht. apply Forall_app. split; [by apply (gr_iters _ _ _ Hg)|]. eapply Forall_impl; [apply pass_shape|]. intros i [Eb Hi]. unfold iter_ok. by rewrite Eb.
    + destruct (gr_tiling _ _ _ Hg) as (L & HL & Ht). exists (L ++ tiles lo K bytes). split.
      * rewrite <- HL. transitivity (seqZ 0 nT ≫= fun t => packs_of (its t) ++ packs_of (ext t)); [apply reflexive_eq, list_bind_ext; [intros t; apply packs_of_app|done]|].
        rewrite bind_app_perm. f_equiv. change (fun t => packs_of (ext t)) with ((fun x => packs_of (pass_iters unroll bytes nWarps lo A x)) ∘ q). rewrite <- list_fmap_bind.
        rewrite (gr_positions _ _ _ Hg). apply pass_tiles; lia.
      * eapply tiling_app; [exact Ht|]. by apply tiles_tiling.
    + split; [unfold A in *; lia|]. replace (hi - (lo + K * bytes)) with (hi - lo - K * bytes) by lia. apply Z.divide_sub_r; [done|]. by apply Z.divide_mul_r.
  - intros E. replace (hi - (lo + K * bytes)) with (A - K * bytes) by (unfold A; lia). by apply HK2.
Qed.
End group.

Definition elt_bytes (size : Z) : Prop := size = 1 \/ size = 2 \/ size = 4 \/ size = 8.

Section passes.
Context (unroll size nWarps hi : Z) (Hu : 1 <= unroll) (Hs : elt_bytes size) (Hn : 1 <= nWarps).
Let nT := nWarps * WARP_SIZE.

Lemma element_unroll : 1 <= (unroll * (16 `quot` size)) `quot` 2.
Proof.
  assert (exists m, 16 `quot` size = m * 2 /\ 1 <= m) as (m & -> & Hm) by (destruct Hs as [->|[->|[->| ->]]]; [exists 8|exists 4|exists 2|exists 1]; done).
  rewrite Z.mul_assoc, Z.quot_mul by done. nia.
Qed.

Lemma elt_size_pos : 0 < size.
Proof. destruct Hs as [->|[->|[->| ->]]]; lia. Qed.

Lemma own_size : pack_size size size.
Proof. exists 0%nat. simpl. lia. Qed.

Lemma big_size : pack_size size 16.
Proof. destruct Hs as [->|[->|[->| ->]]]; [exists 4%nat|exists 3%nat|exists 2%nat|exists 1%nat]; done. Qed.

(** A group that has done everything. *)
Lemma group_done q its lo : group size nWarps hi q its lo -> hi - lo < size -> lo = hi.
Proof. intros Hg Hlt. destruct (gr_left _ _ _ _ _ _ Hg) as [Hle [k Hk]]. assert (0 < size) as H0 by (destruct Hs as [->|[->|[->| ->]]]; lia). assert (k = 0) as -> by (clear Hs; nia). lia. Qed.

Lemma element_passes_group q its lo : group size nWarps hi q its lo -> exists q' ext,
  (forall t, 0 <= t < nT -> element_passes unroll size nT (MkPos (q t) lo (hi - lo)) = Ret (ext t)) /\ group size nWarps hi q' (fun t => its t ++ ext t) hi.
Proof.
  intros Hg. assert (0 < size) as H0 by (destruct Hs as [->|[->|[->| ->]]]; lia). unfold element_passes. pose proof element_unroll as Hu2. set (u := (unroll * (16 `quot` size)) `quot` 2) in *.
  destruct (group_pass size nWarps hi elt_size_pos Hn u size q its lo Hg Hu2 own_size) as (E1 & G1 & _). fold nT in E1.
  set (lo1 := lo + packs_done u size (hi - lo) * size) in *. set (q1 := fun t => next_thread u size nWarps (hi - lo) (q t)) in *. set (e1 := fun t => pass_iters u size nWarps lo (hi - lo) (q t)).
  destruct (Z.eqb_spec (hi - lo1) 0) as [Ez|Ez].
  - exists q1, e1. split; [|by replace hi with lo1 at 2 by lia]. intros t Ht. rewrite E1 by done. cbn [mbind outcome_bind p_ahead]. by rewrite Ez.
  - destruct (group_pass size nWarps hi elt_size_pos Hn 1 size q1 _ lo1 G1 ltac:(lia) own_size) as (E2 & G2 & Hl). fold nT in E2. eexists _, (fun t => e1 t ++ pass_iters 1 size nWarps lo1 (hi - lo1) (q1 t)). split.
    + intros t Ht. rewrite E1 by done. cbn [mbind outcome_bind p_ahead]. rewrite (proj2 (Z.eqb_neq _ _) Ez). pose proof (E2 t Ht) as E2t. unfold q1 in E2t. rewrite E2t. reflexivity.
    + pose proof (group_done _ _ _ G2 (Hl eq_refl)) as Eh. rewrite <- Eh at 2. destruct G2 as [P1 P2 (L & P3 & P4) P5]. split; [exact P1| | |exact P5].
      * intros t Ht. rewrite (assoc_L (++)). by apply P2.
      * exists L. split; [|done]. rewrite <- P3. apply reflexive_eq, list_bind_ext; [|done]. intros t. by rewrite (assoc_L (++)).
Qed.

(** The iterations of all threads go through every byte once. *)
Lemma reduceCopy_group aligned nElts : 0 <= nElts -> hi = nElts * size -> exists q its,
  (forall t, 0 <= t < nT -> reduceCopy_iters unroll size 16 aligned nT t nElts = Ret (its t)) /\ group size nWarps hi q its hi.
Proof.
  intros He Ehi. assert (0 < size) as H0 by (destruct Hs as [->|[->|[->| ->]]]; lia). 
  pose proof (group_start size nWarps hi ltac:(nia) ltac:(exists nElts; lia)) as G0. unfold reduceCopy_iters. rewrite <- Ehi. assert ((size <? 16) = true) as -> by (destruct Hs as [->|[->|[->| ->]]]; done). cbn [andb].
  destruct aligned.
  - destruct (group_pass size nWarps hi elt_size_pos Hn unroll 16 _ _ 0 G0 Hu big_size) as (E1 & G1 & _). fold nT in E1. rewrite Z.sub_0_r in *. rewrite Z.add_0_l in *.
    set (lo1 := packs_done unroll 16 hi * 16) in *. destruct (Z.eqb_spec (hi - lo1) 0) as [Ez|Ez].
    + eexists _, _. split; [|replace hi with lo1 at 2 by lia; exact G1]. intros t Ht. rewrite E1 by done. cbn [mbind outcome_bind p_ahead]. by rewrite Ez.
    + destruct (group_pass size nWarps hi elt_size_pos Hn 1 16 _ _ lo1 G1 ltac:(lia) big_size) as (E2 & G2 & _). fold nT in E2. set (lo2 := lo1 + packs_done 1 16 (hi - lo1) * 16) in *.
      destruct (Z.eqb_spec (hi - lo2) 0) as [Ez2|Ez2].
      * eexists _, _. split; [|replace hi with lo2 at 2 by lia; exact G2]. intros t Ht. rewrite E1 by done. cbn [mbind outcome_bind p_ahead]. rewrite (proj2 (Z.eqb_neq _ _) Ez), (E2 t Ht). cbn [mbind outcome_bind p_ahead]. by rewrite Ez2.
      * destruct (element_passes_group _ _ _ G2) as (q3 & e3 & E3 & G3). eexists q3, _. split; [|exact G3]. intros t Ht. rewrite E1 by done. cbn [mbind outcome_bind p_ahead].
        rewrite (proj2 (Z.eqb_neq _ _) Ez), (E2 t Ht). cbn [mbind outcome_bind p_ahead]. rewrite (proj2 (Z.eqb_neq _ _) Ez2), (E3 t Ht). cbn [mbind outcome_bind]. cbn [app]. by rewrite (assoc_L (++)).
  - destruct (element_passes_group _ _ _ G0) as (q3 & e3 & E3 & G3). rewrite Z.sub_0_r in E3. exists q3, e3. split; [exact E3|exact G3].
Qed.
End passes.
