(* ===== verification/ReduceRun.v ===== *)
(** * The result of [reduceCopy]

    The threads of a group run their iterations in any order and interleaving of
    loads and stores; the result is the element-wise reduction of the sources. *)
From stdpp Require Import relations.
From S2P Require Import Prelude Bitops Device RingAlgo UserOps Reduce ReduceCopy.

(** ** Memory *)

Definition mem_ok (mem : memory) : Prop := forall b x, is_byte (mem b x).

Lemma read_range mem b off n : mem_ok mem -> 0 <= n -> 0 <= read mem b off n < 2 ^ (8 * n).
Proof.
  intros Hm Hn. unfold read. pose proof (le_word_range ((fun i => mem b (off + i)) <$> seqZ 0 n)) as H. rewrite length_fmap, length_seqZ, Z2Nat.id in H by done. apply H, Forall_fmap, Forall_true. intros i. apply Hm.
Qed.

Lemma le_word_app l1 l2 : le_word (l1 ++ l2) = le_word l1 + 2 ^ (8 * Z.of_nat (length l1)) * le_word l2.
Proof.
  induction l1 as [|x l1 IH]; [simpl; lia|]. cbn [app le_word length]. rewrite IH. replace (8 * Z.of_nat (S (length l1))) with (8 + 8 * Z.of_nat (length l1)) by lia. rewrite Z.pow_add_r by lia. change (2 ^ 8) with 256. lia.
Qed.

Lemma read_app mem b off n m : 0 <= n -> 0 <= m -> read mem b off (n + m) = read mem b off n + 2 ^ (8 * n) * read mem b (off + n) m.
Proof.
  intros Hn Hm. unfold read. rewrite seqZ_app, fmap_app, le_word_app by done. rewrite length_fmap, length_seqZ, Z2Nat.id by done. f_equal. f_equal. f_equal.
  rewrite Z.add_0_l. rewrite <- (Z.add_0_r n) at 1. rewrite <- (fmap_add_seqZ n 0), <- list_fmap_compose. apply list_fmap_ext. intros i x _. unfold compose. f_equal. lia.
Qed.

Lemma read_ext mem mem' b off n : (forall x, off <= x < off + n -> mem b x = mem' b x) -> read mem b off n = read mem' b off n.
Proof. intros H. unfold read. f_equal. apply list_fmap_ext. intros i x Hx%list_elem_of_lookup_2%elem_of_seqZ. apply H. lia. Qed.

(** Reading back the bytes of a value. *)
Lemma read_bytes_of mem b off n v : 0 <= n -> 0 <= v < 2 ^ (8 * n) -> (forall x, off <= x < off + n -> mem b x = byte_at v (x - off)) -> read mem b off n = v.
Proof.
  intros Hn. revert off v. rewrite <- (Z2Nat.id n) by done. clear Hn. induction (Z.to_nat n) as [|m IH]; intros off v Hv Hb; [simpl in Hv; unfold read; simpl; lia|].
  rewrite Nat2Z.inj_succ in *. replace (Z.succ (Z.of_nat m)) with (1 + Z.of_nat m) in * by lia. rewrite read_app by lia. replace (8 * (1 + Z.of_nat m)) with (8 + 8 * Z.of_nat m) in Hv by lia. rewrite Z.pow_add_r in Hv by lia. change (2 ^ 8) with 256 in Hv.
  rewrite (IH (off + 1) (v / 256)).
  - unfold read. cbn [seqZ]. change (seqZ 0 1) with [0]. cbn [fmap list_fmap le_word]. replace (off + 0) with off by lia. rewrite Hb by lia. rewrite Z.sub_diag. unfold byte_at. rewrite Z.shiftr_0_r. change (2 ^ (8 * 1)) with 256. pose proof (Z.div_mod v 256). lia.
  - split; [apply Z.div_pos; lia|apply Z.div_lt_upper_bound; lia].
  - intros x Hx. rewrite Hb by lia. unfold byte_at. rewrite !Z.shiftr_div_pow2 by lia. change 256 with (2 ^ 8) at 2. rewrite Z.div_div by (try lia; apply Z.pow_pos_nonneg; lia). rewrite <- Z.pow_add_r by lia. f_equal. f_equal. f_equal. lia.
Qed.

(** The elements of a pack in memory. *)
Lemma elts_read mem b off size n : mem_ok mem -> 0 < size -> elts (8 * size) n (read mem b off (size * 2 ^ Z.of_nat n)) = (fun k => read mem b (off + k * size) size) <$> seqZ 0 (2 ^ Z.of_nat n).
Proof.
  intros Hm Hs. revert off. induction n as [|n IH]; intros off.
  - change (2 ^ Z.of_nat 0) with 1. change (seqZ 0 1) with [0]. cbn [elts fmap list_fmap]. by rewrite Z.mul_1_r, Z.mul_0_l, Z.add_0_r.
  - pose proof (pow2_pos (Z.of_nat n) ltac:(lia)) as Hp. replace (2 ^ Z.of_nat (S n)) with (2 ^ Z.of_nat n + 2 ^ Z.of_nat n) by (rewrite Nat2Z.inj_succ, Z.pow_succ_r by lia; lia).
    rewrite Z.mul_add_distr_l, read_app by nia. replace (8 * (size * 2 ^ Z.of_nat n)) with (half_bits (8 * size) n) by (unfold half_bits; lia).
    assert (forall o, in_pack (8 * size) n (read mem b o (size * 2 ^ Z.of_nat n))) as Hin.
    { intros o. unfold in_pack. replace (half_bits (8 * size) n) with (8 * (size * 2 ^ Z.of_nat n)) by (unfold half_bits; lia). apply read_range; [done|nia]. }
    destruct (pack_join (8 * size) ltac:(lia) n _ _ (Hin off) (Hin (off + size * 2 ^ Z.of_nat n))) as [_ ->]. rewrite !IH, seqZ_app, fmap_app by lia. f_equal.
    rewrite Z.add_0_l. replace (seqZ (2 ^ Z.of_nat n) (2 ^ Z.of_nat n)) with (seqZ (2 ^ Z.of_nat n + 0) (2 ^ Z.of_nat n)) by (f_equal; lia). rewrite <- (fmap_add_seqZ (2 ^ Z.of_nat n) 0), <- list_fmap_compose. apply list_fmap_ext. intros i k _. unfold compose. f_equal. lia.
Qed.

(** ** The value of a pack *)

Record rc_ok (c : rc_config) : Prop := {
  ro_size : elt_bytes (rc_size c);
  ro_srcs : 1 <= rc_minSrcs c <= Z.of_nat (length (rc_srcs c)) /\ Z.of_nat (length (rc_srcs c)) <= rc_maxSrcs c;
  ro_dsts : 0 <= rc_minDsts c <= Z.of_nat (length (rc_dsts c)) /\ Z.of_nat (length (rc_dsts c)) <= rc_maxDsts c;
  ro_fn : fn_ok (rc_w c) (rc_redFn c);
}.

(** What an element of the destinations is to be: the elements of the sources,
    each with its operation before, reduced in order, and the operation after. *)
Definition pre_value (c : rc_config) (s v : Z) : Z := if s <? rc_preOpSrcs c then preOp1 (rc_w c) (rc_preFn c s) v else v.
Definition fold_value (reduce : Z -> Z -> Z) (vs : list Z) : Z := match vs with [] => 0 | v :: vs => foldl reduce v vs end.
Definition elem_value (c : rc_config) (vs : list Z) : Z :=
  let a := fold_value (reduce1 (rc_w c) (rc_redFn c)) (imap (fun i v => pre_value c (Z.of_nat i) v) vs) in
  if rc_postOp c then postOp1 (rc_w c) (rc_redFn c) a else a.

Definition pack_value (c : rc_config) (mem : memory) (bytes off : Z) : Z :=
  let a := fold_value (apply_reduce (rc_w c) (rc_redFn c) (levels c bytes)) (imap (fun i b => load_pre c (Z.of_nat i) bytes (read mem b off bytes)) (rc_srcs c)) in
  if rc_postOp c then apply_postOp (rc_w c) (rc_redFn c) (levels c bytes) a else a.

Lemma used_all min max n : min <= n <= max -> used min max n = n.
Proof. intros H. unfold used. zcases; lia. Qed.

(** A loop that folds the rest of an array. *)
Lemma for_fold {A S} (l : list A) (body : Z -> S -> outcome S) (r : S -> Z -> A -> S) lo acc : (forall s acc b, zget l s = Ret b -> body s acc = Ret (r acc s b)) -> (lo <= length l)%nat ->
  for_range (Z.of_nat lo) (Z.of_nat (length l)) body acc = Ret (foldl (fun acc p => r acc p.1 p.2) acc (imap (fun i b => (Z.of_nat (lo + i), b)) (drop lo l))).
Proof.
  intros Hb Hlo. remember (length l - lo)%nat as m eqn:Em. revert lo acc Hlo Em. induction m as [|m IH]; intros lo acc Hlo Em.
  - rewrite for_range_empty by lia. rewrite drop_ge by lia. done.
  - destruct (lookup_lt_is_Some_2 l lo ltac:(lia)) as [b Hl]. rewrite for_range_step by lia. rewrite (Hb _ _ b) by (apply zget_Ret; rewrite Nat2Z.id; split; [lia|done]). cbn [mbind outcome_bind].
    replace (Z.of_nat lo + 1) with (Z.of_nat (Datatypes.S lo)) by lia. rewrite IH by lia. rewrite (drop_S _ _ _ Hl). cbn [imap foldl fst snd]. f_equal. rewrite Nat.add_0_r. f_equal. apply imap_ext. intros i x _. unfold compose. do 2 f_equal. lia.
Qed.

Lemma foldl_map {A B C} (f : C -> B -> C) (g : A -> B) l acc : foldl f acc (g <$> l) = foldl (fun acc x => f acc (g x)) acc l.
Proof. revert acc. induction l as [|x l IH]; intros acc; [done|]. cbn. by rewrite IH. Qed.

Lemma load_pack_eq c mem bytes o : rc_ok c -> load_pack c mem bytes (o, o) = Ret (pack_value c mem bytes o).
Proof.
  intros Hc. destruct (ro_srcs _ Hc) as [H1 H2]. unfold load_pack. rewrite used_all by lia. unfold pack_value. destruct (rc_srcs c) as [|b bs] eqn:E; [simpl in H1; lia|]. rewrite <- E.
  rewrite (proj2 (zget_Ret (rc_srcs c) 0 b)) by (split; [lia|]; by rewrite E). cbn [mbind outcome_bind fst snd].
  change 1 with (Z.of_nat 1) at 1.
  rewrite (for_fold (rc_srcs c) _ (fun acc s b => apply_reduce (rc_w c) (rc_redFn c) (levels c bytes) acc (load_pre c s bytes (read mem b o bytes))) 1);
    [|intros s acc x ->; cbn [mbind outcome_bind]; by destruct (s <? rc_minSrcs c)|rewrite E; simpl; lia].
  cbn [mbind outcome_bind]. rewrite E. cbn [drop imap fold_value]. rewrite <- (foldl_map (apply_reduce (rc_w c) (rc_redFn c) (levels c bytes)) (fun p => load_pre c p.1 bytes (read mem p.2 o bytes))). by rewrite fmap_imap.
Qed.

(** ** Element by element *)

Section values.
Context (c : rc_config) (Hc : rc_ok c) (n : nat) (ks : list Z).
Let w := rc_w c.

Lemma rc_w_pos : 0 < w.
Proof. unfold w, rc_w. destruct (ro_size _ Hc) as [->|[->|[->| ->]]]; lia. Qed.

(** The pack [v] has the elements [f k]. *)
Definition has_elts (v : Z) (f : Z -> Z) : Prop := in_pack w n v /\ elts w n v = f <$> ks.

Lemma zip_with_both {A} (r : Z -> Z -> Z) (f g : A -> Z) (l : list A) : zip_with r (f <$> l) (g <$> l) = (fun k => r (f k) (g k)) <$> l.
Proof. induction l as [|x l IH]; [done|]. cbn. by rewrite IH. Qed.

Lemma foldl_elts vs gs v f : Forall2 has_elts vs gs -> has_elts v f -> has_elts (foldl (apply_reduce w (rc_redFn c) n) v vs) (fun k => foldl (reduce1 w (rc_redFn c)) (f k) ((fun g => g k) <$> gs)).
Proof.
  intros Hv. revert v f. induction Hv as [|v' g vs gs [Hi He] Hv IH]; intros v f [Hi0 He0]; [done|]. cbn [foldl fmap list_fmap]. apply IH. pose proof rc_w_pos.
  destruct (apply_reduce_elts w (rc_redFn c) n v v') as [Hr Er]; [done|apply (ro_fn _ Hc)|done|done|]. split; [done|]. by rewrite Er, He, He0, zip_with_both.
Qed.

Lemma fold_value_elts vs gs : Forall2 has_elts vs gs -> vs <> [] -> has_elts (fold_value (apply_reduce w (rc_redFn c) n) vs) (fun k => fold_value (reduce1 w (rc_redFn c)) ((fun g => g k) <$> gs)).
Proof. intros [|v g vs' gs' Hv Hvs] Hne; [done|]. cbn [fold_value fmap list_fmap]. by apply foldl_elts. Qed.

Lemma load_pre_elts s v f bytes : levels c bytes = n -> has_elts v f -> has_elts (load_pre c s bytes v) (fun k => pre_value c s (f k)).
Proof.
  intros Hl [Hi He]. pose proof rc_w_pos. unfold load_pre, pre_value. destruct (s <? rc_preOpSrcs c); [|done]. rewrite Hl. destruct (preOp_elts w (rc_preFn c s) n v) as [Hp Ep]; [done|done|]. split; [done|].
  fold w. rewrite Ep, He. by rewrite <- list_fmap_compose.
Qed.

Lemma post_elts v f bytes : levels c bytes = n -> has_elts v f ->
  has_elts (if rc_postOp c then apply_postOp w (rc_redFn c) (levels c bytes) v else v) (fun k => if rc_postOp c then postOp1 w (rc_redFn c) (f k) else f k).
Proof.
  intros Hl [Hi He]. pose proof rc_w_pos. destruct (rc_postOp c); [|done]. rewrite Hl. destruct (postOp_elts w (rc_redFn c) n v) as [Hp Ep]; [done|done|]. split; [done|]. rewrite Ep, He. by rewrite <- list_fmap_compose.
Qed.
End values.

(** The pack sizes used. *)
Definition pack_bytes (c : rc_config) (bytes : Z) : Prop := exists n, bytes = rc_size c * 2 ^ Z.of_nat n.

Lemma levels_bytes c n : 0 < rc_size c -> levels c (rc_size c * 2 ^ Z.of_nat n) = n.
Proof. intros H. unfold levels. rewrite (Z.mul_comm (rc_size c)), Z.div_mul by lia. rewrite Z.log2_pow2 by lia. lia. Qed.

Lemma pack_value_elts c mem n off : rc_ok c -> mem_ok mem -> has_elts c n (seqZ 0 (2 ^ Z.of_nat n)) (pack_value c mem (rc_size c * 2 ^ Z.of_nat n) off)
  (fun k => elem_value c ((fun b => read mem b (off + k * rc_size c) (rc_size c)) <$> rc_srcs c)).
Proof.
  intros Hc Hm. assert (0 < rc_size c) as Hs by (destruct (ro_size _ Hc) as [->|[->|[->| ->]]]; lia). pose proof (levels_bytes c n Hs) as Hl. set (bytes := rc_size c * 2 ^ Z.of_nat n) in *.
  unfold pack_value, elem_value. apply (post_elts c Hc n _ _ (fun k => fold_value _ (imap _ (_ <$> _)))); [done|]. rewrite Hl.
  assert (Forall2 (has_elts c n (seqZ 0 (2 ^ Z.of_nat n))) (imap (fun i b => load_pre c (Z.of_nat i) bytes (read mem b off bytes)) (rc_srcs c))
    (imap (fun i b k => pre_value c (Z.of_nat i) (read mem b (off + k * rc_size c) (rc_size c))) (rc_srcs c))) as H2.
  { apply Forall2_same_length_lookup_2; [by rewrite !length_imap|]. intros i x y Hx Hy. rewrite list_lookup_imap in Hx. rewrite list_lookup_imap in Hy. destruct (rc_srcs c !! i) as [b|]; [|done]. injection Hx as <-. injection Hy as <-.
    apply (load_pre_elts c Hc n _ (Z.of_nat i) _ (fun k => read mem b (off + k * rc_size c) (rc_size c)) bytes Hl). split; [|by apply elts_read].
    unfold in_pack. replace (half_bits (rc_w c) n) with (8 * bytes) by (unfold half_bits, rc_w, bytes; lia). apply read_range; [done|]. unfold bytes. pose proof (pow2_pos (Z.of_nat n)). nia. }
  pose proof (fold_value_elts c Hc n _ _ _ H2) as Hf. destruct Hf as [Hi He].
  { destruct (ro_srcs _ Hc) as [H1 _]. intros E%(f_equal length). rewrite length_imap in E. simpl in E. lia. }
  split; [done|]. rewrite He. apply list_fmap_ext. intros i k _. f_equal. rewrite imap_fmap. rewrite fmap_imap. done.
Qed.

(** ** Packs that do not overlap *)

Definition contains (x : Z) (p : Z * Z) : Prop := p.1 <= x < p.1 + p.2.
#[global] Instance contains_dec x p : Decision (contains x p).
Proof. unfold contains. apply _. Defined.

(** No byte is in two packs. *)
Definition sep (l : list (Z * Z)) : Prop := forall x, (length (filter (contains x) l) <= 1)%nat.

#[global] Instance sep_proper : Proper ((≡ₚ) ==> iff) sep.
Proof. intros l l' E. unfold sep. by setoid_rewrite E. Qed.

Lemma sep_cons p l : sep (p :: l) -> sep l /\ forall x p', contains x p -> p' ∈ l -> ~ contains x p'.
Proof.
  intros H. split.
  - intros x. specialize (H x). rewrite filter_cons in H. destruct (decide _); simpl in H; lia.
  - intros x p' Hx Hp' Hx'. specialize (H x). rewrite filter_cons_True in H by done. assert (p' ∈ filter (contains x) l) as Hin by (by apply list_elem_of_filter).
    destruct (filter (contains x) l); [by apply not_elem_of_nil in Hin|]. simpl in H. lia.
Qed.

Lemma sep_skip p k l : sep (p :: k ++ l) -> sep (p :: l).
Proof. intros H x. specialize (H x). rewrite filter_cons in H |- *. rewrite filter_app in H. destruct (decide (contains x p)); cbn [length] in *; rewrite length_app in H; lia. Qed.

Lemma tiling_bounds lo l hi : tiling lo l hi -> lo <= hi /\ forall x p, p ∈ l -> contains x p -> lo <= x < hi.
Proof.
  revert lo. induction l as [|p l IH]; intros lo; simpl; [intros ->; split; [lia|]; intros x p Hp; by apply not_elem_of_nil in Hp|].
  intros (E & Hp & Ht). destruct (IH _ Ht) as [Hle Hin]. split; [lia|]. unfold contains in *. intros x p' [->|Hp']%elem_of_cons Hx; [lia|]. specialize (Hin x p' Hp' Hx). lia.
Qed.

Lemma tiling_sep lo l hi : tiling lo l hi -> sep l.
Proof.
  revert lo. induction l as [|p l IH]; intros lo; simpl; [intros _ x; simpl; lia|]. intros (E & Hp & Ht) x. rewrite filter_cons. destruct (decide (contains x p)) as [Hx|Hx]; [|by apply (IH _ Ht)].
  destruct (tiling_bounds _ _ _ Ht) as [_ Hin]. rewrite filter_none; [done|]. intros p' Hp' Hx'. specialize (Hin x p' Hp' Hx'). unfold contains in Hx. lia.
Qed.

Lemma tiling_cover lo l hi x : tiling lo l hi -> lo <= x < hi -> exists p, p ∈ l /\ contains x p.
Proof.
  revert lo. induction l as [|p l IH]; intros lo; simpl; [lia|]. intros (E & Hp & Ht) Hx. destruct (Z.lt_ge_cases x (lo + p.2)) as [|Hge].
  - exists p. split; [by left|]. unfold contains. lia.
  - destruct (IH _ Ht ltac:(lia)) as (p' & Hin & Hx'). exists p'. split; [by right|done].
Qed.

Lemma tiling_divides size lo l hi p : tiling lo l hi -> (size | lo) -> Forall (fun p => (size | p.2)) l -> p ∈ l -> (size | p.1).
Proof.
  revert lo. induction l as [|q l IH]; intros lo; simpl; [intros _ _ _ Hp; by apply not_elem_of_nil in Hp|]. intros (E & Hq & Ht) Hlo [Hd Hds]%Forall_cons [->|Hp]%elem_of_cons; [by rewrite E|].
  apply (IH _ Ht); [by apply Z.divide_add_r|done|done].
Qed.

(** ** Stores and loads *)

Section run.
Context (c : rc_config) (Hc : rc_ok c) (mem0 : memory) (Hm0 : mem_ok mem0).

(** The value the pack is to have. *)
Definition goal_value (p : Z * Z) : Z := pack_value c mem0 p.2 p.1.

(** The packs [D] are done, the rest of memory is as at the start. *)
Record mem_inv (D : list (Z * Z)) (mem : memory) : Prop := {
  mi_kept : forall b x, b ∉ rc_dsts c \/ (forall p, p ∈ D -> ~ contains x p) -> mem b x = mem0 b x;
  mi_done : forall p b x, p ∈ D -> b ∈ rc_dsts c -> contains x p -> mem b x = byte_at (goal_value p) (x - p.1);
}.

Lemma snd_imap {A} (f : nat -> Z) (l : list A) : snd <$> imap (fun i b => (f i, b)) l = l.
Proof. revert f. induction l as [|x l IH]; intros f; [done|]. cbn. f_equal. apply (IH (f ∘ S)). Qed.

Lemma foldl_write (l : list (Z * Z)) o bytes v mem b x :
  foldl (fun mem p => write mem p.2 o bytes v) mem l b x = if bool_decide (b ∈ snd <$> l /\ contains x (o, bytes)) then byte_at v (x - o) else mem b x.
Proof.
  revert mem. induction l as [|p l IH]; intros mem; [rewrite bool_decide_false; [done|]; cbn; rewrite elem_of_nil; tauto|]. cbn [foldl fmap list_fmap]. rewrite IH. unfold contains. cbn [fst snd]. unfold write.
  destruct (Z.eqb_spec b p.2) as [->|Hne], (Z.leb_spec o x), (Z.ltb_spec x (o + bytes)); simpl; repeat case_bool_decide; try done; rewrite elem_of_cons in *; naive_solver lia.
Qed.

Lemma store_pack_spec bytes o v mem : exists mem', store_pack c bytes (o, o) v mem = Ret mem' /\
  forall b x, mem' b x = if bool_decide (b ∈ rc_dsts c /\ contains x (o, bytes)) then byte_at v (x - o) else mem b x.
Proof.
  destruct (ro_dsts _ Hc) as [H1 H2]. unfold store_pack. rewrite used_all by lia. change 0 with (Z.of_nat 0) at 1.
  rewrite (for_fold (rc_dsts c) _ (fun mem s b => write mem b o bytes v) 0); [|intros s mm b ->; cbn [mbind outcome_bind fst snd]; by destruct (s <? rc_minDsts c)|lia].
  eexists. split; [reflexivity|]. intros b x. rewrite foldl_write. by rewrite drop_0, snd_imap.
Qed.

Lemma store_step p D mem : mem_inv D mem -> sep (p :: D) -> exists mem', store_pack c p.2 (p.1, p.1) (goal_value p) mem = Ret mem' /\ mem_inv (p :: D) mem'.
Proof.
  intros [Hk Hd] [_ Hs]%sep_cons. destruct (store_pack_spec p.2 p.1 (goal_value p) mem) as (mem' & E & Hm). exists mem'. split; [done|]. split.
  - intros b x H. rewrite Hm, bool_decide_false; [|intros [H1 H2]; destruct H as [H|H]; [done|by apply (H p); [left|destruct p]]]. apply Hk. destruct H as [H|H]; [by left|right]. intros q Hq. apply H. by right.
  - intros q b x [->|Hq]%elem_of_cons Hb Hx.
    + rewrite Hm, bool_decide_true; [done|]. split; [done|by destruct p].
    + rewrite Hm, bool_decide_false; [by apply Hd|]. intros [_ Hx']. apply (Hs x q); [by destruct p|done|done].
Qed.

Definition iter_packs (i : iter) : list (Z * Z) := (fun o => (fst o, it_bytes i)) <$> it_offs i.
Definition iter_values (i : iter) : list Z := (fun o => goal_value (fst o, it_bytes i)) <$> it_offs i.

Lemma store_all_spec bytes os D mem : mem_inv D mem -> Forall (fun o => fst o = snd o) os -> sep (((fun o => (fst o, bytes)) <$> os) ++ D) ->
  exists mem' D', store_all c bytes os ((fun o => goal_value (fst o, bytes)) <$> os) mem = Ret mem' /\ D' ≡ₚ ((fun o => (fst o, bytes)) <$> os) ++ D /\ mem_inv D' mem'.
Proof.
  intros Hi He. revert D mem Hi. induction He as [|[o o'] os E He IH]; intros D mem Hi Hs; [by exists mem, D|]. cbn [fst snd] in E. subst o'. cbn [fmap list_fmap store_all fst].
  destruct (store_step (o, bytes) D mem Hi) as (m1 & E1 & H1).
  { by apply sep_skip in Hs. }
  cbn [fst snd] in E1. rewrite E1. cbn [mbind outcome_bind]. destruct (IH ((o, bytes) :: D) m1 H1) as (m2 & D2 & E2 & P2 & H2).
  { cbn in Hs. by rewrite Permutation_middle in Hs. }
  exists m2, D2. split; [done|]. split; [|done]. rewrite P2. cbn. by rewrite Permutation_middle.
Qed.

Lemma pack_value_ext mem mem' bytes o : (forall b x, o <= x < o + bytes -> mem b x = mem' b x) -> pack_value c mem bytes o = pack_value c mem' bytes o.
Proof.
  intros H. unfold pack_value. assert (imap (fun i b => load_pre c (Z.of_nat i) bytes (read mem b o bytes)) (rc_srcs c) = imap (fun i b => load_pre c (Z.of_nat i) bytes (read mem' b o bytes)) (rc_srcs c)) as ->; [|done].
  apply imap_ext. intros i b _. f_equal. apply read_ext. intros x Hx. by apply H.
Qed.

(** Packs that are not done are still as at the start. *)
Lemma load_all_spec bytes os D mem : mem_inv D mem -> Forall (fun o => fst o = snd o) os -> sep (((fun o => (fst o, bytes)) <$> os) ++ D) ->
  load_all c mem bytes os = Ret ((fun o => goal_value (fst o, bytes)) <$> os).
Proof.
  intros Hi He. induction He as [|[o o'] os E He IH]; intros Hs; [done|]. cbn [fst snd] in E. subst o'. cbn [fmap list_fmap load_all fst] in *.
  rewrite load_pack_eq by done. cbn [mbind outcome_bind]. rewrite IH by (apply sep_cons in Hs; tauto). cbn [mbind outcome_bind]. f_equal. f_equal. unfold goal_value. cbn [fst snd].
  apply pack_value_ext. intros b x Hx. apply (mi_kept _ _ Hi). right. intros p Hp. apply sep_cons in Hs as [_ Hs]. apply (Hs x p); [done|]. apply elem_of_app. by right.
Qed.

(** ** The threads *)

Definition pending (ts : list thread_state) : list (Z * Z) := ts ≫= fun t => packs_of (th_prog t).

Definition thread_ok (t : thread_state) : Prop := Forall (iter_ok (rc_size c)) (th_prog t) /\
  match th_acc t with None => True | Some vs => exists i p, th_prog t = i :: p /\ vs = iter_values i end.

Record run_inv (L : list (Z * Z)) (s : memory * list thread_state) : Prop := {
  ri_threads : Forall thread_ok s.2;
  ri_mem : exists D, D ++ pending s.2 ≡ₚ L /\ mem_inv D s.1;
}.

Lemma pending_at ts t th : ts !! t = Some th -> pending ts ≡ₚ packs_of (th_prog th) ++ pending (delete t ts).
Proof. intros H. unfold pending. rewrite (delete_Permutation _ _ _ H) at 1. by rewrite bind_cons. Qed.

Lemma pending_insert ts t th th' : ts !! t = Some th -> pending (<[t := th']> ts) ≡ₚ packs_of (th_prog th') ++ pending (delete t ts).
Proof.
  intros H. rewrite (pending_at _ t th') by (apply list_lookup_insert_eq; by eapply lookup_lt_Some). f_equiv. unfold pending. apply reflexive_eq. f_equal.
  revert t H. induction ts as [|x ts IH]; intros [|t] H; try done. cbn. f_equal. by apply IH.
Qed.

(** The packs of a thread's next iteration are apart from each other and from those done. *)
Lemma next_packs L D ts t i p a : sep L -> D ++ pending ts ≡ₚ L -> ts !! t = Some (MkThread (i :: p) a) -> sep (iter_packs i ++ D).
Proof.
  intros Hs HP Ht. rewrite <- HP, (pending_at _ _ _ Ht) in Hs. cbn [th_prog] in Hs. change (packs_of (i :: p)) with (iter_packs i ++ packs_of p) in Hs.
  intros x. specialize (Hs x). rewrite !filter_app, !length_app in *. lia.
Qed.

Lemma run_step L s s' : sep L -> run_inv L s -> rc_step c s s' -> run_inv L s'.
Proof.
  intros Hs [Ht (D & HP & Hi)] Hst. destruct Hst as [mem ts t i p vs Hl Hload|mem mem' ts t i p vs Hl Hstore]; cbn [fst snd] in *.
  - pose proof (Forall_lookup_1 _ _ _ _ Ht Hl) as [Hit _]. cbn [th_prog] in Hit. split; cbn [fst snd].
    + apply Forall_insert; [done|]. split; [done|]. cbn [th_acc]. exists i, p. split; [done|]. pose proof (next_packs L D ts t i p None Hs HP Hl) as Hsep. apply Forall_cons in Hit as [[He _] _].
      rewrite (load_all_spec (it_bytes i) (it_offs i) D mem Hi He Hsep) in Hload. by injection Hload as <-.
    + exists D. split; [|done]. rewrite (pending_insert _ _ _ _ Hl). cbn [th_prog]. rewrite <- HP, (pending_at _ _ _ Hl). done.
  - pose proof (Forall_lookup_1 _ _ _ _ Ht Hl) as [Hit (i' & p' & Ep & ->)]. cbn [th_prog] in Hit, Ep. injection Ep as <- <-. pose proof (next_packs L D ts t i p _ Hs HP Hl) as Hsep. apply Forall_cons in Hit as [[He Hps] Hit].
    destruct (store_all_spec (it_bytes i) (it_offs i) D mem Hi He Hsep) as (m & D' & E & HD & Hi'). unfold iter_values in Hstore. rewrite E in Hstore. injection Hstore as <-. split; cbn [fst snd].
    + apply Forall_insert; [done|]. by split.
    + exists D'. split; [|done]. rewrite HD, (pending_insert _ _ _ _ Hl). cbn [th_prog]. rewrite <- HP, (pending_at _ _ _ Hl). cbn [th_prog]. change (packs_of (i :: p)) with (iter_packs i ++ packs_of p).
      change ((fun o => (fst o, it_bytes i)) <$> it_offs i) with (iter_packs i). solve_Permutation.
Qed.

#[global] Instance done_dec t : Decision (t = MkThread [] None).
Proof. destruct t as [[|] [|]]; (by left) || (by right). Defined.

#[global] Instance finished_dec ts : Decision (finished ts).
Proof. unfold finished. apply Forall_dec. intros t. apply _. Defined.

(** A thread that has something to do can do it. *)
Lemma run_progress L s : sep L -> run_inv L s -> ~ finished s.2 -> exists s', rc_step c s s'.
Proof.
  intros Hs [Ht (D & HP & Hi)] Hf. destruct s as [mem ts]. cbn [fst snd] in *. apply not_Forall_Exists, Exists_exists in Hf as (th & [t Hl]%list_elem_of_lookup & Hne); [|intros x; apply _].
  pose proof (Forall_lookup_1 _ _ _ _ Ht Hl) as [Hit Hacc]. destruct th as [[|i p] [vs|]]; cbn [th_prog th_acc] in *; [by destruct Hacc as (? & ? & ? & _)|by destruct Hne| |].
  - destruct Hacc as (i' & p' & [= <- <-] & ->). pose proof (next_packs L D ts t i p _ Hs HP Hl) as Hsep. apply Forall_cons in Hit as [[He _] _].
    destruct (store_all_spec (it_bytes i) (it_offs i) D mem Hi He Hsep) as (m & D' & E & _). eexists. by eapply step_store.
  - pose proof (next_packs L D ts t i p _ Hs HP Hl) as Hsep. apply Forall_cons in Hit as [[He _] _]. eexists. eapply step_load; [done|]. by apply (load_all_spec _ _ D).
Qed.

(** ** How long it takes *)

Definition steps_left (ts : list thread_state) : nat := sum_list_with (fun t => 2 * length (th_prog t) - match th_acc t with None => 0 | Some _ => 1 end)%nat ts.

Lemma sum_insert {A} (f : A -> nat) l i x y : l !! i = Some x -> (sum_list_with f (<[i := y]> l) + f x = sum_list_with f l + f y)%nat.
Proof. revert i. induction l as [|z l IH]; intros [|i] H; simpl in *; simplify_eq; [lia|]. specialize (IH _ H). lia. Qed.

Lemma step_left s s' : rc_step c s s' -> (steps_left s'.2 < steps_left s.2)%nat.
Proof.
  intros [mem ts t i p vs Hl _|mem mem' ts t i p vs Hl _]; cbn [fst snd]; unfold steps_left;
    match goal with |- context [sum_list_with ?f (<[_ := ?y]> _)] => pose proof (sum_insert f ts t _ y Hl) as H end; cbn [th_prog th_acc length] in H; lia.
Qed.

Lemma steps_bound k s s' : nsteps (rc_step c) k s s' -> (k + steps_left s'.2 <= steps_left s.2)%nat.
Proof. induction 1 as [s|k s1 s2 s3 H1 H2 IH]; [lia|]. apply step_left in H1. lia. Qed.

(** ** The result *)

Lemma mem_inv_ok D mem : mem_inv D mem -> mem_ok mem.
Proof.
  intros [Hk Hd] b x. destruct (decide (b ∈ rc_dsts c)) as [Hb|Hb]; [|rewrite Hk by (by left); apply Hm0].
  destruct (decide (Exists (contains x) D)) as [(p & Hp & Hx)%Exists_exists|Hn]; [rewrite (Hd p b x) by done; unfold is_byte, byte_at; apply Z.mod_pos_bound; lia|].
  rewrite Hk; [apply Hm0|]. right. intros p Hp Hx. apply Hn, Exists_exists. by exists p.
Qed.

(** An element of a pack that is done. *)
Lemma done_element D mem p n d k : mem_inv D mem -> p ∈ D -> p.2 = rc_size c * 2 ^ Z.of_nat n -> d ∈ rc_dsts c -> 0 <= k < 2 ^ Z.of_nat n ->
  read mem d (p.1 + k * rc_size c) (rc_size c) = elem_value c ((fun b => read mem0 b (p.1 + k * rc_size c) (rc_size c)) <$> rc_srcs c).
Proof.
  intros Hi Hp E Hd Hk. assert (0 < rc_size c) as Hs by (destruct (ro_size _ Hc) as [->|[->|[->| ->]]]; lia). destruct (pack_value_elts c mem0 n p.1 Hc Hm0) as [Hin He].
  assert (read mem d p.1 (rc_size c * 2 ^ Z.of_nat n) = pack_value c mem0 (rc_size c * 2 ^ Z.of_nat n) p.1) as Er.
  { apply read_bytes_of; [nia| |].
    - replace (8 * (rc_size c * 2 ^ Z.of_nat n)) with (half_bits (rc_w c) n) by (unfold half_bits, rc_w; lia). exact Hin.
    - intros x Hx. rewrite (mi_done _ _ Hi p d x Hp Hd) by (unfold contains; lia). unfold goal_value. by rewrite E. }
  rewrite <- Er in He. unfold rc_w in He. rewrite (elts_read _ _ _ _ _ (mem_inv_ok _ _ Hi) Hs) in He. apply (f_equal (lookup (Z.to_nat k))) in He.
  rewrite !list_lookup_fmap, lookup_seqZ_lt in He by lia. cbn [fmap option_fmap option_map] in He. injection He as He. rewrite Z.add_0_l, Z2Nat.id in He by lia. exact He.
Qed.

Lemma packs_sizes its p : Forall (iter_ok (rc_size c)) its -> p ∈ packs_of its -> pack_size (rc_size c) p.2.
Proof. intros H (i & (o & -> & _)%list_elem_of_fmap & Hi)%list_elem_of_bind. rewrite Forall_forall in H. by destruct (H i Hi) as [_ Hps]. Qed.

Lemma finished_pending ts : finished ts -> pending ts = [].
Proof. intros H. unfold pending. induction H as [|x ts -> _ IH]; [done|]. by rewrite bind_cons, IH. Qed.

(** When no thread has anything left. *)
Lemma run_result L s nElts : tiling 0 L (nElts * rc_size c) -> (forall p, p ∈ L -> pack_size (rc_size c) p.2) -> run_inv L s -> finished s.2 ->
  (forall d e, d ∈ rc_dsts c -> 0 <= e < nElts -> read s.1 d (e * rc_size c) (rc_size c) = elem_value c ((fun b => read mem0 b (e * rc_size c) (rc_size c)) <$> rc_srcs c)) /\
  (forall b x, b ∉ rc_dsts c \/ ~ 0 <= x < nElts * rc_size c -> s.1 b x = mem0 b x).
Proof.
  intros Ht Hps [_ (D & HP & Hi)] Hf. rewrite (finished_pending _ Hf), app_nil_r in HP. assert (0 < rc_size c) as Hs by (destruct (ro_size _ Hc) as [->|[->|[->| ->]]]; lia). split.
  - intros d e Hd He. destruct (tiling_cover _ _ _ (e * rc_size c) Ht) as (p & Hp & Hx); [nia|]. destruct (Hps p Hp) as [n En].
    assert (rc_size c | p.1) as [a Ea].
    { apply (tiling_divides _ _ _ _ _ Ht); [by exists 0| |done]. apply Forall_forall. intros p' Hp'. destruct (Hps p' Hp') as [n' ->]. by exists (2 ^ Z.of_nat n'); lia. }
    unfold contains in Hx. rewrite En, Ea in Hx. replace (e * rc_size c) with (p.1 + (e - a) * rc_size c) by lia. apply (done_element D _ p n); [done|by rewrite HP|done|done|nia].
  - intros b x Hb. apply (mi_kept _ _ Hi). destruct Hb as [Hb|Hx]; [by left|right]. intros p Hp Hx'. apply Hx. rewrite HP in Hp. by apply (tiling_bounds _ _ _ Ht) in Hx'.
Qed.
End run.

(** ** All threads together *)

Definition start (nThreads : Z) (its : Z -> list iter) : list thread_state := (fun t => MkThread (its t) None) <$> seqZ 0 nThreads.

Lemma start_inv c mem0 size nWarps hi q its : let nT := nWarps * WARP_SIZE in size = rc_size c -> group size nWarps hi q its hi ->
  exists L, tiling 0 L hi /\ (forall p, p ∈ L -> pack_size (rc_size c) p.2) /\ run_inv c mem0 L (mem0, start nT its).
Proof.
  intros nT -> Hg. destruct (gr_tiling _ _ _ _ _ _ Hg) as (L & HL & Ht). exists L. split; [done|].
  assert (forall t, t ∈ seqZ 0 nT -> Forall (iter_ok (rc_size c)) (its t)) as Hok by (intros t H%elem_of_seqZ; apply (gr_iters _ _ _ _ _ _ Hg); lia). split.
  - intros p Hp. rewrite <- HL in Hp. apply list_elem_of_bind in Hp as (t & Hp & Hti). by apply (packs_sizes c (its t)); [apply Hok|].
  - split; cbn [fst snd].
    + apply Forall_fmap, Forall_forall. intros t Hti. split; [by apply Hok|done].
    + exists []. split; [|split; [done|intros p b x Hp; by apply not_elem_of_nil in Hp]]. rewrite <- HL. unfold pending, start. rewrite list_fmap_bind. done.
Qed.

Lemma run_reachable c mem0 L s s' : rc_ok c -> mem_ok mem0 -> sep L -> run_inv c mem0 L s -> rtc (rc_step c) s s' -> run_inv c mem0 L s'.
Proof. intros Hc Hm Hs Hi Hr. induction Hr as [s|s1 s2 s3 H1 _ IH]; [done|]. apply IH. by apply (run_step c Hc mem0 L s1). Qed.

(** With nothing to write the threads are done at once. *)
Lemma no_destinations c mem0 nThreads nElts : rc_ok c -> (rc_maxDsts c =? 0) || ((rc_minDsts c =? 0) && (Z.of_nat (length (rc_dsts c)) =? 0)) = true -> let s0 := (mem0, start nThreads (fun _ => [])) in
  (exists n, forall k s, nsteps (rc_step c) k s0 s -> (k <= n)%nat) /\
  forall s, rtc (rc_step c) s0 s -> (finished s.2 \/ exists s', rc_step c s s') /\
    (finished s.2 ->
      (forall d e, d ∈ rc_dsts c -> 0 <= e < nElts -> read s.1 d (e * rc_size c) (rc_size c) = elem_value c ((fun b => read mem0 b (e * rc_size c) (rc_size c)) <$> rc_srcs c)) /\
      (forall b x, b ∉ rc_dsts c \/ ~ 0 <= x < nElts * rc_size c -> s.1 b x = mem0 b x)).
Proof.
  intros Hc Hd s0. assert (steps_left s0.2 = 0%nat) as H0 by (unfold s0, start; cbn [snd]; induction (seqZ 0 nThreads) as [|t l IH]; [done|by cbn]).
  split; [exists 0%nat; intros k s Hk%steps_bound; lia|]. intros s (k & Hk)%rtc_nsteps. pose proof (steps_bound _ _ _ _ Hk). assert (k = 0%nat) as -> by lia. inversion Hk; subst s.
  assert (finished s0.2) as Hf by (apply Forall_fmap, Forall_true; done). split; [by left|]. intros _. split; [|done]. intros d e Hin.
  assert (rc_dsts c = []) as Hnil; [|rewrite Hnil in Hin; by apply not_elem_of_nil in Hin]. apply length_zero_iff_nil. destruct (ro_dsts _ Hc). zcases; simpl in *; try done; lia.
Qed.

(** (C25) [reduceCopy], run by the threads of a group without any synchronisation
    and in any order of their loads and stores, for any number of elements, any
    alignment and any number of sources and destinations, some of them possibly
    the same buffers: no thread goes wrong or waits for ever, the number of steps is bounded,
    and when all threads are done every destination has, element by element, the
    reduction of the sources as they were at the start, with the operations
    before and after, and nothing else in memory has changed. *)
Theorem reduceCopy_correct c base mem0 unroll nWarps nElts : rc_ok c -> mem_ok mem0 -> 1 <= unroll -> 1 <= nWarps -> 0 <= nElts -> let nThreads := nWarps * WARP_SIZE in
  exists its : Z -> list iter,
    (forall t, 0 <= t < nThreads -> reduceCopy unroll base c nThreads t nElts = Ret (its t)) /\
    (exists n, forall k s, nsteps (rc_step c) k (mem0, start nThreads its) s -> (k <= n)%nat) /\
    forall s, rtc (rc_step c) (mem0, start nThreads its) s ->
      (finished s.2 \/ exists s', rc_step c s s') /\
      (finished s.2 ->
        (forall d e, d ∈ rc_dsts c -> 0 <= e < nElts -> read s.1 d (e * rc_size c) (rc_size c) = elem_value c ((fun b => read mem0 b (e * rc_size c) (rc_size c)) <$> rc_srcs c)) /\
        (forall b x, b ∉ rc_dsts c \/ ~ 0 <= x < nElts * rc_size c -> s.1 b x = mem0 b x)).
Proof.
  intros Hc Hm Hu Hn He nThreads. unfold reduceCopy. destruct (_ || _) eqn:Hdst.
  { exists (fun _ => []). split; [done|]. by apply no_destinations. }
  destruct (reduceCopy_group unroll (rc_size c) nWarps (nElts * rc_size c) Hu (ro_size _ Hc) Hn (aligned_vote 16 base c) nElts He eq_refl) as (q & its & Hits & Hg).
  exists its. split; [exact Hits|]. split; [exists (steps_left (start nThreads its)); intros k s Hk%steps_bound; cbn [snd] in Hk; lia|].
  destruct (start_inv c mem0 _ _ _ _ _ eq_refl Hg) as (L & Ht & Hps & Hi0). pose proof (tiling_sep _ _ _ Ht) as Hsep. intros s Hr. pose proof (run_reachable _ _ _ _ _ Hc Hm Hsep Hi0 Hr) as Hi. split.
  - destruct (decide (finished s.2)) as [|Hf]; [by left|right]. by apply (run_progress c Hc mem0 L).
  - by apply (run_result c Hc mem0 Hm L).
Qed.

(** Two sources of 32-bit integers, summed into a buffer of their own and into the
    first source; the second buffer is not aligned. *)
Definition example_rc : rc_config := MkRc 4 2 2 1 2 0 FuncSum (fun _ => FuncSum) false [0; 1] [2; 0].
Definition example_mem : memory := fun b x => (100 * b + 7 * x) mod 256.

Lemma bounded_finishes {A} (R : A -> A -> Prop) (P : A -> Prop) x n : (forall k y, nsteps R k x y -> (k <= n)%nat) -> (forall y, rtc R x y -> P y \/ exists z, R y z) -> exists y, rtc R x y /\ P y.
Proof.
  intros Hb Hp. assert (forall k, (exists y, rtc R x y /\ P y) \/ exists y, nsteps R k x y) as H.
  { induction k as [|k [IH|[y Hy]]]; [right; exists x; constructor|by left|]. destruct (Hp y) as [Hd|[z Hz]]; [by apply rtc_nsteps; exists k|left; exists y; split; [by apply rtc_nsteps; exists k|done]|right; exists z; by eapply nsteps_r]. }
  destruct (H (S n)) as [|[y Hy]]; [done|]. apply Hb in Hy. lia.
Qed.

Lemma reduceCopy_correct_witness :
  (rc_ok example_rc /\ mem_ok example_mem) /\
  exists its s, rtc (rc_step example_rc) (example_mem, start 64 its) s /\ finished s.2 /\ read s.1 2 16 4 = 0x6F615344 /\ read s.1 0 16 4 = read s.1 2 16 4 /\ s.1 2 40 = example_mem 2 40.
Proof.
  assert (rc_ok example_rc) as Hc by (split; [right; right; by left|vm_compute; split_and!; congruence|vm_compute; split_and!; congruence|done]).
  assert (mem_ok example_mem) as Hm by (intros b x; apply Z.mod_pos_bound; lia). split; [done|].
  destruct (reduceCopy_correct example_rc (fun b => 16 * b + b) example_mem 4 2 10 Hc Hm ltac:(lia) ltac:(lia) ltac:(lia)) as (its & _ & [n Hn] & Hr).
  destruct (bounded_finishes _ (fun s => finished s.2) _ n Hn) as (s & Hs & Hf); [intros y Hy; by apply Hr|]. exists its, s. destruct (Hr s Hs) as [_ H]. destruct (H Hf) as [Hv Hk]. split_and!; [exact Hs|exact Hf| | |].
  - etransitivity; [apply (Hv 2 4); [set_solver|vm_compute; split; congruence]|vm_compute; reflexivity].
  - etransitivity; [apply (Hv 0 4); [set_solver|vm_compute; split; congruence]|symmetry; apply (Hv 2 4); [set_solver|vm_compute; split; congruence]].
  - apply Hk. right. vm_compute. intros [_ H']. congruence.
Defined.
