(* ===== verification/OneRank.v ===== *)
(** * Reductions on one rank (src/src/device/onerank.cu)

    A communicator of one rank copies, or for an operator that scales first runs
    a kernel whose blocks each call [reduceCopy] on a part of the elements. *)
From S2P Require Import Prelude Bitops Device RingAlgo UserOps Reduce ReduceCopy.

(** The elements of block [bid] of [bn], as first and end: [size_t] arithmetic. *)
Definition oneRank_range (nElts eltSize bn bid : Z) : Z * Z :=
  let EltPerPack := 16 `quot` eltSize in
  let part := u64 (alignUp (nElts `quot` bn) EltPerPack) in
  (Z.min (u64 ((bid + 0) * part)) nElts, Z.min (u64 ((bid + 1) * part)) nElts).

(** [redOpArg] once a pointer to the scalar has been followed: the width is told
    by the alignment. *)
Definition oneRank_arg (mem : Z -> Z) (redOpArg : Z) (redOpArgIsPtr : bool) : Z :=
  let load n := le_word ((fun i => mem (redOpArg + i)) <$> seqZ 0 n) in
  if redOpArgIsPtr then
    if negb (redOpArg mod 2 =? 0) then load 1
    else if negb (redOpArg mod 4 =? 0) then load 2
    else if negb (redOpArg mod 8 =? 0) then load 4
    else load 8
  else redOpArg.

(** What the stream is given. *)
Inductive one_rank_work := OrNothing | OrMemcpy (bytes : Z) | OrKernel (eltSize grid block : Z).

(** [__CUDA_ARCH__] is not defined in host code, so the two [case]s for FP8 are
    not compiled; [bf16] is [__CUDA_BF16_TYPES_EXIST__]. *)
Definition ncclLaunchOneRank (bf16 : bool) (dst src nElts : Z) (redOp : ncclDevRedOpFull) (eltType : ncclDataType_t) : outcome one_rank_work :=
  let eltSize := ncclTypeSize eltType in
  match ro_op redOp with
  | ncclDevPreMulSum =>
    if match eltType with ncclFloat8e4m3 | ncclFloat8e5m2 => true | ncclBfloat16 => negb bf16 | _ => false end then Fail ncclInvalidArgument
    else Ret (OrKernel eltSize (Z.min 32 (conv int32 (u64 (u64 (nElts * eltSize) + Z.shiftl 16 10 - 1) `quot` Z.shiftl 16 10))) 512)
  | _ => Ret (if negb (dst =? src) then OrMemcpy (u64 (nElts * eltSize)) else OrNothing)
  end.

(** ** The blocks' parts *)

Section blocks.
Context (nElts es bn : Z) (Hs : elt_bytes es) (Hn : 0 < nElts < 2 ^ 44) (Hb : 1 <= bn <= 32).
Let E := 16 / es.
Let part := alignUp (nElts / bn) E.

Lemma elts_per_pack : exists k, 0 <= k /\ E = 2 ^ k /\ 2 <= E <= 16.
Proof. unfold E. destruct Hs as [->|[->|[->| ->]]]; [exists 4|exists 3|exists 2|exists 1]; split_and!; done. Qed.

Lemma part_bounds : nElts / bn <= part < nElts / bn + E /\ (nElts / bn mod E = 0 -> part = nElts / bn) /\ (nElts / bn mod E <> 0 -> nElts / bn < part).
Proof.
  destruct elts_per_pack as (k & Hk & Ek & HE). unfold part. rewrite Ek in *. destruct (alignUp_spec (nElts / bn) k Hk) as [[a Ha] Hr]. split; [done|]. set (q := nElts / bn) in *. split; intros Hm.
  - apply Z.mod_divide in Hm as [a' Ha']; [|lia]. assert (a = a') by nia. lia.
  - destruct (Z.eq_dec (alignUp q (2 ^ k)) q) as [Eq|]; [|lia]. destruct Hm. rewrite <- Eq, Ha. apply Z.mod_mul. lia.
Qed.

Lemma range_eq bid : 0 <= bid <= bn -> oneRank_range nElts es bn bid = (Z.min (bid * part) nElts, Z.min ((bid + 1) * part) nElts).
Proof.
  intros Hbid. assert (0 <= nElts / bn <= nElts) as Hq by (split; [apply Z.div_pos; lia|apply Z.div_le_upper_bound; nia]). destruct part_bounds as (Hp & _). destruct elts_per_pack as (k & Hk & Ek & HE). unfold oneRank_range.
  rewrite (quot_div_nonneg nElts), (quot_div_nonneg 16) by (destruct Hs as [->|[->|[->| ->]]]; lia). fold E part. unfold u64. rewrite !(Z.mod_small part) by lia. rewrite Z.add_0_r. rewrite !Z.mod_small by nia. done.
Qed.

Lemma all_blocks_iff : (forall e, 0 <= e < nElts -> exists b, 0 <= b < bn /\ (oneRank_range nElts es bn b).1 <= e < (oneRank_range nElts es bn b).2) <-> nElts <= bn * part.
Proof.
  assert (0 <= nElts / bn) as Hq by (apply Z.div_pos; lia). destruct part_bounds as (Hp & _). split.
  - intros H. destruct (H (nElts - 1)) as (b & Hbb & He); [lia|]. rewrite range_eq in He by lia. cbn [fst snd] in He. nia.
  - intros Hle e He. assert (0 < part) by nia. exists (e / part). pose proof (Z.div_mod e part ltac:(lia)). pose proof (Z.mod_pos_bound e part ltac:(lia)). assert (0 <= e / part < bn) as Hd by (split; [apply Z.div_pos; lia|apply Z.div_lt_upper_bound; nia]).
    split; [done|]. rewrite range_eq by lia. cbn [fst snd]. nia.
Qed.

Lemma parts_suffice : nElts <= bn * part <-> nElts mod bn = 0 \/ (nElts / bn) mod E <> 0.
Proof.
  destruct part_bounds as (Hp & H0 & H1). pose proof (Z.div_mod nElts bn ltac:(lia)) as Ed. pose proof (Z.mod_pos_bound nElts bn ltac:(lia)) as Hm. destruct (decide (nElts / bn mod E = 0)) as [Hz|Hz].
  - rewrite (H0 Hz). split; [intros; left; lia|intros [?|?]; [lia|done]].
  - specialize (H1 Hz). split; [by right|]. nia.
Qed.
End blocks.

Lemma type_bytes dt : elt_bytes (ncclTypeSize dt).
Proof. unfold elt_bytes. destruct dt; simpl; tauto. Qed.

Lemma grid_range n : 0 < n < 2 ^ 44 -> let g := Z.min 32 (conv int32 (u64 (u64 n + Z.shiftl 16 10 - 1) `quot` Z.shiftl 16 10)) in 1 <= g <= 32.
Proof.
  intros Hn g. unfold g. change (Z.shiftl 16 10) with 16384. unfold u64. rewrite (Z.mod_small n), Z.mod_small by lia. rewrite quot_div_nonneg by lia. unfold conv. cbn [ity_signed int32 ity_width].
  assert (1 <= (n + 16384 - 1) / 16384 < 2 ^ 31 - 1) by (split; [apply Z.div_le_lower_bound; lia|apply Z.div_lt_upper_bound; lia]). rewrite Z.mod_small by lia. lia.
Qed.

(** (C37) The kernel for one rank.  When a kernel is launched its blocks take
    consecutive parts of the elements; but the parts, of [nElts/bn] elements
    rounded up to whole packs, reach the end of the data only when the number of
    blocks divides the number of elements or the rounding adds something: else
    the last [nElts % bn] elements of the result are never written. *)
Theorem oneRank_elements bf16 dst src nElts redOp dt es bn block : 0 < nElts -> nElts * ncclTypeSize dt < 2 ^ 44 ->
  ncclLaunchOneRank bf16 dst src nElts redOp dt = Ret (OrKernel es bn block) ->
  es = ncclTypeSize dt /\ 1 <= bn <= 32 /\
  (oneRank_range nElts es bn 0).1 = 0 /\
  (forall b, 0 <= b < bn -> (oneRank_range nElts es bn b).1 <= (oneRank_range nElts es bn b).2 <= nElts /\ (oneRank_range nElts es bn b).2 = (oneRank_range nElts es bn (b + 1)).1) /\
  ((forall e, 0 <= e < nElts -> exists b, 0 <= b < bn /\ (oneRank_range nElts es bn b).1 <= e < (oneRank_range nElts es bn b).2) <->
   nElts mod bn = 0 \/ (nElts / bn) mod (16 / es) <> 0).
Proof.
  intros Hn Hlt Hl. pose proof (type_bytes dt) as Hs. assert (1 <= ncclTypeSize dt) as H1 by (destruct Hs as [->|[->|[->| ->]]]; lia). assert (0 < nElts < 2 ^ 44) as Hn' by nia.
  unfold ncclLaunchOneRank in Hl. destruct (ro_op redOp); try (destruct (negb _); discriminate Hl). match type of Hl with (if ?b then _ else _) = _ => destruct b; [done|] end. injection Hl as <- <- _.
  pose proof (grid_range (nElts * ncclTypeSize dt) ltac:(nia)) as Hb. cbv zeta in Hb. set (bn := Z.min _ _) in *. split; [done|]. split; [done|].
  pose proof (range_eq nElts _ bn Hs Hn' Hb) as Hr. assert (0 <= nElts / bn) as Hq by (apply Z.div_pos; lia). destruct (part_bounds nElts _ bn Hs) as (Hp & _). split_and!.
  - rewrite Hr by lia. cbn [fst]. lia.
  - intros b Hbb. rewrite !Hr by lia. cbn [fst snd]. split; [nia|done].
  - rewrite all_blocks_iff by done. by apply parts_suffice.
Qed.

(** 16417 bytes on two blocks: both take 8208, byte 16416 belongs to none. *)
Lemma oneRank_elements_witness : exists bn, ncclLaunchOneRank true 4096 8192 16417 (MkRedOpFull ncclDevPreMulSum 5 false 3) ncclUint8 = Ret (OrKernel 1 bn 512) /\ bn = 2 /\
  ~ (forall e, 0 <= e < 16417 -> exists b, 0 <= b < bn /\ (oneRank_range 16417 1 bn b).1 <= e < (oneRank_range 16417 1 bn b).2).
Proof.
  exists 2. split; [reflexivity|]. split; [done|].
  destruct (oneRank_elements true 4096 8192 16417 (MkRedOpFull ncclDevPreMulSum 5 false 3) ncclUint8 1 2 512) as (_ & _ & _ & _ & H); [lia|vm_compute; reflexivity|reflexivity|].
  rewrite H. vm_compute. intros [?|?]; congruence.
Defined.
