(* ===== verification/Tuning.v ===== *)
(** * The choice of algorithm, protocol, channels and threads (src/src/enqueue.cc, graph/tuning.cc)

    [getAlgoInfo] asks the cost model for the time of every algorithm and
    protocol, lets a tuner plugin change the table, takes the least and then
    chooses the number of channels and of warps.  Times are [float]s, computed
    with the IEEE formats of [SpecFloat]. *)
From S2P Require Import Prelude Bitops Device RingAlgo UserOps ProxyOp Chunking.
From Stdlib Require Import SpecFloat.

Definition NCCL_NUM_ALGORITHMS : Z := 7.
Definition NCCL_ALGO_UNDEF : Z := -1.
Definition NCCL_PROTO_UNDEF : Z := -1.

(** The fields of [ncclComm] that are read; [tn_nHeads] is that of
    [channels[0].collnetDirect]. *)
Record tune_comm := MkTuneComm {
  tn_nRanks : Z; tn_nNodes : Z; tn_nChannels : Z; tn_nvlsChannels : Z; tn_maxLocalRanks : Z; tn_minCompCap : Z;
  tn_collNetSupport : Z; tn_collNetSupportMatrix : list (list Z); tn_nHeads : Z;
  tn_bandwidths : ncclFunc_t -> Z -> Z -> spec_float; tn_latencies : ncclFunc_t -> Z -> Z -> spec_float;
  tn_maxThreads : Z -> Z -> Z; tn_threadThresholds : Z -> Z -> Z }.

(** ** The cost model *)

(** The literal [n / 10] as a [double] and as a [float]. *)
Definition tenths (n : Z) : spec_float := SFdiv 53 1024 (double_of_Z n) (double_of_Z 10).
Definition tenths_f (n : Z) : spec_float := reformat 24 128 (tenths n).

Definition treeCorrectionFactor : list (list Z) :=
  [[10; 10; 10; 10; 9; 8; 7; 7; 7; 7; 6; 5; 4; 4; 5; 6; 7; 8; 9; 10; 10; 10; 10];
   [10; 10; 10; 10; 10; 9; 8; 8; 8; 7; 6; 6; 6; 6; 6; 6; 8; 9; 9; 9; 9; 10; 10];
   [9; 9; 9; 9; 9; 9; 9; 8; 7; 6; 6; 5; 5; 5; 5; 6; 7; 8; 7; 7; 8; 9; 9]].

Definition NCCL_MAX_DEV_WORK_BATCH_COLLS : Z := NCCL_MAX_DEV_WORK_BATCH_BYTES `quot` sizeof_ncclDevWorkColl.

Definition float_mul := SFmul 24 128.
Definition minus_one : spec_float := float_of_Z (-1).

Definition ncclTopoGetAlgoTime (comm : tune_comm) (coll : ncclFunc_t) (algorithm protocol nBytes numPipeOps : Z) : outcome spec_float :=
  let bw := tn_bandwidths comm coll algorithm protocol in
  let lat := tn_latencies comm coll algorithm protocol in
  if SFeqb bw (S754_zero false) then Ret minus_one
  else
    let logSize := log2Down int64 (Z.shiftr nBytes 6) in
    bw ← (if (algorithm =? NCCL_ALGO_TREE) && bool_decide (coll = ncclFuncAllReduce) && (0 <=? logSize) && (logSize <? 23) then
            row ← zget treeCorrectionFactor protocol; f ← zget row logSize; Ret (float_mul bw (tenths_f f))
          else Ret bw);
    lat ← (if (algorithm =? NCCL_ALGO_RING) && (protocol =? NCCL_PROTO_SIMPLE) && (1 <? tn_nNodes comm) && bool_decide (coll = ncclFuncAllReduce) then
             n ← arith int32 (tn_nChannels comm * tn_nRanks comm);
             if n =? 0 then Stuck
             else Ret (if 64 <=? nBytes `quot` u64 n then reformat 24 128 (SFmul 53 1024 (reformat 53 1024 lat) (tenths (if tn_minCompCap comm <? 80 then 19 else 14))) else lat)
           else Ret lat);
    let latCount := if algorithm =? NCCL_ALGO_RING then numPipeOps else conv int32 (u64 (numPipeOps + NCCL_MAX_DEV_WORK_BATCH_COLLS - 1) `quot` NCCL_MAX_DEV_WORK_BATCH_COLLS) in
    Ret (SFadd 24 128 (float_mul lat (float_of_Z latCount)) (SFdiv 24 128 (float_of_Z nBytes) (float_mul (float_of_Z 1000) bw))).

(** ** The table of costs *)

Definition getCollNetSupport (comm : tune_comm) (info : ncclTaskColl) : outcome Z :=
  let netOp := match t_opDev info with ncclDevPreMulSum | ncclDevSumPostDiv => ncclSum | _ => t_opHost info end in
  match t_func info with
  | ncclFuncAllReduce | ncclFuncReduce | ncclFuncReduceScatter =>
    row ← zget (tn_collNetSupportMatrix comm) netOp; b ← zget row (datatype_index (t_datatype info)); Ret (Z.land (tn_collNetSupport comm) b)
  | _ => Ret (tn_collNetSupport comm)
  end.

Definition cost_table : Type := list (list spec_float).

(** All entries [NCCL_ALGO_PROTO_IGNORE]. *)
Definition initCollCostTable : cost_table := replicate (Z.to_nat NCCL_NUM_ALGORITHMS) (replicate (Z.to_nat NCCL_NUM_PROTOCOLS) minus_one).

Definition table_get (table : cost_table) (a p : Z) : outcome spec_float := row ← zget table a; zget row p.
Definition table_set (table : cost_table) (a p : Z) (v : spec_float) : outcome cost_table := row ← zget table a; row ← zset row p v; zset table a row.

(** The [continue]s of the loop over algorithms. *)
Definition skip_algo (comm : tune_comm) (info : ncclTaskColl) (collNetSupport nvlsSupport a : Z) : bool :=
  let isfn f := bool_decide (t_func info = f) in
  (((a =? NCCL_ALGO_COLLNET_DIRECT) || (a =? NCCL_ALGO_COLLNET_CHAIN)) && negb (collNetSupport =? 1)) ||
  ((a =? NCCL_ALGO_COLLNET_DIRECT) && (NCCL_MAX_DIRECT_ARITY + 1 <? tn_maxLocalRanks comm)) ||
  (((a =? NCCL_ALGO_NVLS) || (a =? NCCL_ALGO_NVLS_TREE)) && negb (nvlsSupport =? 1) && negb (isfn ncclFuncAllGather)) ||
  ((a =? NCCL_ALGO_NVLS) && negb (collNetSupport =? 1) && (1 <? tn_nNodes comm)) ||
  ((a =? NCCL_ALGO_NVLS) && (isfn ncclFuncAllGather || isfn ncclFuncReduceScatter) && ((1 <? tn_nNodes comm) || (NCCL_MAX_NVLS_ARITY <? tn_nRanks comm))) ||
  ((a =? NCCL_ALGO_PAT) && isfn ncclFuncReduceScatter && match t_opDev info with ncclDevPreMulSum | ncclDevSumPostDiv => true | _ => false end).

(** The time of an algorithm and protocol; deep reduction trees of FP8 are relegated. *)
Definition algo_cost (comm : tune_comm) (info : ncclTaskColl) (nBytes numPipeOps a p : Z) : outcome spec_float :=
  time ← ncclTopoGetAlgoTime comm (t_func info) a p nBytes numPipeOps;
  Ret (if match t_datatype info with ncclFloat8e4m3 | ncclFloat8e5m2 => true | _ => false end && ((a =? NCCL_ALGO_RING) && (8 <? tn_nRanks comm))
       then reformat 24 128 (SFmul 53 1024 (reformat 53 1024 time) (double_of_Z 1024)) else time).

Definition updateCollCostTable (comm : tune_comm) (info : ncclTaskColl) (nBytes collNetSupport nvlsSupport numPipeOps : Z) (table : cost_table) : outcome cost_table :=
  if tn_nRanks comm =? 1 then table_set table NCCL_ALGO_RING NCCL_PROTO_SIMPLE (S754_zero false)
  else
    for_range 0 NCCL_NUM_ALGORITHMS (fun a table =>
      if skip_algo comm info collNetSupport nvlsSupport a then Ret table
      else
        for_range 0 NCCL_NUM_PROTOCOLS (fun p table =>
          time ← algo_cost comm info nBytes numPipeOps a p;
          table_set table a p time) table) table.

(** ** Algorithm and protocol *)

(** [3600000000.0] as a [float]. *)
Definition max_time : spec_float := float_of_Z 3600000000.

Record choice := MkChoice { ch_algorithm : Z; ch_protocol : Z; ch_minTime : spec_float }.

(** The two loops that look for the least time. *)
Definition select_algo (table : cost_table) : outcome choice :=
  for_range 0 NCCL_NUM_ALGORITHMS (fun a st =>
    for_range 0 NCCL_NUM_PROTOCOLS (fun p st =>
      t ← table_get table a p;
      if SFeqb t minus_one then Ret st
      else if SFleb (S754_zero false) t && SFltb t (ch_minTime st) then Ret (MkChoice a p t) else Ret st) st)
    (MkChoice NCCL_ALGO_UNDEF NCCL_PROTO_UNDEF max_time).

(** ** Channels and threads *)

(** [nBytes < nc*nt*threadThreshold]: [int] products, compared as [size_t]. *)
Definition too_small (nBytes : Z) (factors : list Z) : outcome bool :=
  m ← foldl (fun acc f => x ← acc; arith int32 (x * f)) (Ret 1) factors; Ret (nBytes <? u64 m).

(** The channels of ring and tree. *)
Fixpoint ring_channels (fuel : nat) (nBytes nt threshold nc : Z) : outcome Z :=
  b ← too_small nBytes [nc; nt; threshold];
  if b : bool then
    if 2 <=? nc then match fuel with O => Stuck | S fuel => ring_channels fuel nBytes nt threshold (nc - 1) end else Ret nc
  else Ret nc.

(** The inner loop for CollNet: [flag], the channels and the threshold. *)
Fixpoint collnet_inner (fuel : nat) (nBytes nt heads ncSwitch nc threshold : Z) : outcome (bool * Z * Z) :=
  flag ← too_small nBytes [nc; nt; heads; threshold];
  if (flag : bool) && (ncSwitch <? nc) then
    match fuel with
    | O => Stuck
    | S fuel => collnet_inner fuel nBytes nt heads ncSwitch (nc - 1) (if nc =? ncSwitch + ncSwitch `quot` 2 then threshold `quot` 2 else threshold)
    end
  else Ret (flag, nc, threshold).

Fixpoint collnet_channels (fuel : nat) (nBytes nt heads ncSwitch : Z) (flag : bool) (nc threshold : Z) : outcome (Z * Z) :=
  if (1 <=? ncSwitch) && flag then
    match fuel with
    | O => Stuck
    | S fuel =>
      '(flag, nc, threshold) ← collnet_inner (Z.to_nat nc) nBytes nt heads ncSwitch nc threshold;
      collnet_channels fuel nBytes nt heads (ncSwitch `quot` 2) flag nc threshold
    end
  else Ret (nc, threshold).

(** [while (nBytes < nc * nt * threadThreshold)] over the threads. *)
Fixpoint halve_threads (fuel : nat) (nBytes nc threshold nt : Z) : outcome Z :=
  b ← too_small nBytes [nc; nt; threshold];
  if b : bool then
    if nt `rem` 128 =? 0 then match fuel with O => Stuck | S fuel => halve_threads fuel nBytes nc threshold (nt `quot` 2) end else Ret nt
  else Ret nt.

Definition nvls_algo (a : Z) : bool := (a =? NCCL_ALGO_NVLS) || (a =? NCCL_ALGO_NVLS_TREE).

Definition tune_channels (comm : tune_comm) (algorithm nBytes nt threshold : Z) : outcome (Z * Z) :=
  let nc := tn_nChannels comm in
  if algorithm =? NCCL_ALGO_COLLNET_DIRECT then collnet_channels 5 nBytes nt (tn_nHeads comm) 16 true nc threshold
  else if nvls_algo algorithm then Ret (tn_nvlsChannels comm, threshold)
  else nc ← ring_channels (Z.to_nat nc) nBytes nt threshold nc; Ret (nc, threshold).

Definition tune_threads (algorithm protocol nBytes nc threshold nt : Z) : outcome Z :=
  nt ← (if negb (algorithm =? NCCL_ALGO_NVLS) && negb (algorithm =? NCCL_ALGO_NVLS_TREE) && negb (algorithm =? NCCL_ALGO_COLLNET_DIRECT)
        then halve_threads 32 nBytes nc threshold nt else Ret nt);
  let nt := if protocol =? NCCL_PROTO_SIMPLE then
      let nt := if algorithm =? NCCL_ALGO_RING then nt + WARP_SIZE else nt in
      if algorithm =? NCCL_ALGO_TREE then nt + 4 * WARP_SIZE else nt
    else nt in
  let nt := if nt `quot` WARP_SIZE <? 3 then 3 * WARP_SIZE else nt in
  let nt := if algorithm =? NCCL_ALGO_TREE then NCCL_MAX_NTHREADS else nt in
  Ret (if algorithm =? NCCL_ALGO_PAT then NCCL_MAX_NTHREADS else nt).

(** The fields of a task written here, bit-fields of 8 bits. *)
Definition set_tuned (t : ncclTaskColl) (algorithm protocol nMaxChannels nWarps : Z) : ncclTaskColl :=
  MkTaskColl (t_id t) (t_func t) (t_sendbuff t) (t_recvbuff t) (t_count t) (t_root t) (t_datatype t) (t_opHost t) (t_opDev t) (t_chunkSteps t) (t_sliceSteps t)
    (t_trafficBytes t) (conv int8 nMaxChannels) (conv int8 nWarps) (conv int8 algorithm) (conv int8 protocol) (t_isCollnet t) (t_isNvls t) (t_devFuncId t) (t_regBufType t)
    (t_nCleanupQueueElts t) (t_sendMhandle t) (t_recvMhandle t) (t_sendNetHandles t) (t_recvNetHandles t) (t_srecvNetHandles t) (t_eActivationMask t).

(** [envSet] tells whether NCCL_ALGO or NCCL_PROTO is set; the time is what
    [simInfo] is given. *)
Definition topoGetAlgoInfo (envSet : bool) (comm : tune_comm) (info : ncclTaskColl) (nBytes : Z) (table : cost_table) : outcome (ncclTaskColl * spec_float) :=
  ch ← select_algo table;
  let algorithm := ch_algorithm ch in
  let protocol := ch_protocol ch in
  if (algorithm =? NCCL_ALGO_UNDEF) || (protocol =? NCCL_PROTO_UNDEF) then Fail (if envSet then ncclInvalidUsage else ncclInternalError)
  else
    let nt := tn_maxThreads comm algorithm protocol in
    let threshold := conv int32 (tn_threadThresholds comm algorithm protocol) in
    '(nc, threshold) ← tune_channels comm algorithm nBytes nt threshold;
    nt ← tune_threads algorithm protocol nBytes nc threshold nt;
    Ret (set_tuned info algorithm protocol nc (nt `quot` WARP_SIZE), ch_minTime ch).

(** A tuner plugin: it may change the table and ask for a number of channels.
    [regBuff] is the answer of the registration cache. *)
Definition tuner : Type := ncclFunc_t -> Z -> Z -> cost_table -> bool -> outcome (cost_table * Z).

Definition getAlgoInfo (envSet : bool) (plugin : option tuner) (regBuff : ncclTaskColl -> bool) (comm : tune_comm) (info : ncclTaskColl) (collNetSupport nvlsSupport numPipeOps : Z)
    : outcome (ncclTaskColl * spec_float) :=
  let nBytes := u64 (ncclTypeSize (t_datatype info) * ncclFuncMaxSendRecvCount (t_func info) (tn_nRanks comm) (t_count info)) in
  table ← updateCollCostTable comm info nBytes collNetSupport nvlsSupport numPipeOps initCollCostTable;
  '(table, nMaxChannels) ← match plugin with
    | None => Ret (table, 0)
    | Some getCollInfo => getCollInfo (t_func info) nBytes numPipeOps table (regBuff info)
    end;
  '(info, time) ← topoGetAlgoInfo envSet comm info nBytes table;
  Ret (if nMaxChannels =? 0 then info else set_tuned info (t_algorithm info) (t_protocol info) nMaxChannels (t_nWarps info), time).

(** ** Threads and thresholds (ncclTopoTuneModel) *)

Definition NCCL_SIMPLE_MAX_NTHREADS : Z := 512.
Definition NCCL_LL_MAX_NTHREADS : Z := 512.
Definition NCCL_LL128_MAX_NTHREADS : Z := 640.
Definition NCCL_LL_THREAD_THRESHOLD : Z := 8.
Definition NCCL_LL128_THREAD_THRESHOLD : Z := 8.
Definition NCCL_SIMPLE_THREAD_THRESHOLD : Z := 64.
Definition PCI_BW : spec_float := double_of_Z 12.

Definition getNthreads (env min max def : Z) : Z :=
  let nt := env in
  if 0 <? nt then
    if negb (nt `rem` WARP_SIZE =? 0) then max
    else if max <? nt then max
    else if nt <? min then min
    else nt
  else def.

(** An assignment to [table[a][p]]. *)
Definition cell_set (table : Z -> Z -> Z) (a p v : Z) : Z -> Z -> Z := fun a' p' => if (a' =? a) && (p' =? p) then v else table a' p'.

(** The numbers of threads, in a communicator that was cleared when it was
    allocated; [nthreads] and [ll128Nthreads] are the values of NCCL_NTHREADS and
    NCCL_LL128_NTHREADS, [bwIntra] and [nChannels] those of the ring's graph. *)
Definition tune_maxThreads (nthreads ll128Nthreads : Z) (bwIntra : spec_float) (nChannels : Z) : Z -> Z -> Z :=
  let simpleDefaultThreads := if SFleb (reformat 53 1024 (float_mul bwIntra (float_of_Z nChannels))) PCI_BW then 256 else NCCL_SIMPLE_MAX_NTHREADS in
  let t := fun _ _ => 0 in
  let t := cell_set t NCCL_ALGO_RING NCCL_PROTO_SIMPLE (getNthreads nthreads (2 * WARP_SIZE) NCCL_SIMPLE_MAX_NTHREADS simpleDefaultThreads) in
  let t := cell_set t NCCL_ALGO_TREE NCCL_PROTO_SIMPLE (getNthreads nthreads (2 * WARP_SIZE) NCCL_SIMPLE_MAX_NTHREADS NCCL_SIMPLE_MAX_NTHREADS) in
  let t := foldr (fun a t => cell_set t a NCCL_PROTO_SIMPLE NCCL_MAX_NTHREADS) t [NCCL_ALGO_COLLNET_DIRECT; NCCL_ALGO_COLLNET_CHAIN; NCCL_ALGO_NVLS; NCCL_ALGO_NVLS_TREE] in
  let ll := getNthreads nthreads (2 * WARP_SIZE) NCCL_LL_MAX_NTHREADS NCCL_LL_MAX_NTHREADS in
  let t := cell_set (cell_set t NCCL_ALGO_TREE NCCL_PROTO_LL ll) NCCL_ALGO_RING NCCL_PROTO_LL ll in
  let ll128 := getNthreads ll128Nthreads (NCCL_LL128_MAX_NTHREADS `quot` 4) NCCL_LL128_MAX_NTHREADS NCCL_LL128_MAX_NTHREADS in
  cell_set (cell_set t NCCL_ALGO_TREE NCCL_PROTO_LL128 ll128) NCCL_ALGO_RING NCCL_PROTO_LL128 ll128.

(** [env]: the numbers of NCCL_THREAD_THRESHOLDS, of tree and then of ring; those
    that are negative or missing are not used. *)
Definition tune_thresholds (nRanks : Z) (env : list Z) : Z -> Z -> Z :=
  let t := fun _ p => if p =? NCCL_PROTO_LL then NCCL_LL_THREAD_THRESHOLD else if p =? NCCL_PROTO_LL128 then NCCL_LL128_THREAD_THRESHOLD else NCCL_SIMPLE_THREAD_THRESHOLD in
  let t := cell_set t NCCL_ALGO_RING NCCL_PROTO_LL (t NCCL_ALGO_RING NCCL_PROTO_LL * nRanks) in
  let t := cell_set t NCCL_ALGO_COLLNET_DIRECT NCCL_PROTO_SIMPLE 512 in
  let t := cell_set t NCCL_ALGO_COLLNET_CHAIN NCCL_PROTO_SIMPLE 512 in
  fun a p => let v := default (-2) (env !! Z.to_nat (3 * a + p)) in if (a <? 2) && (0 <=? v) then v else t a p.

(** The communicator with its tables of threads. *)
Definition with_threads (comm : tune_comm) (maxThreads thresholds : Z -> Z -> Z) : tune_comm :=
  MkTuneComm (tn_nRanks comm) (tn_nNodes comm) (tn_nChannels comm) (tn_nvlsChannels comm) (tn_maxLocalRanks comm) (tn_minCompCap comm)
    (tn_collNetSupport comm) (tn_collNetSupportMatrix comm) (tn_nHeads comm) (tn_bandwidths comm) (tn_latencies comm) maxThreads thresholds.

(** ** The order of times *)

(** Times that can be chosen: not negative, below [max_time]. *)
Definition usable (t : spec_float) : bool := SFleb (S754_zero false) t && SFltb t max_time.

(** Less, on numbers that are not negative. *)
Definition flt (x y : spec_float) : Prop :=
  match x, y with
  | S754_zero _, S754_finite false _ _ => True
  | S754_finite false m1 e1, S754_finite false m2 e2 => e1 < e2 \/ (e1 = e2 /\ (m1 < m2)%positive)
  | _, _ => False
  end.

Definition nonneg (x : spec_float) : Prop := match x with S754_zero _ | S754_finite false _ _ => True | _ => False end.

Lemma SFltb_flt x y : nonneg x -> nonneg y -> SFltb x y = true <-> flt x y.
Proof.
  intros Hx Hy. unfold SFltb. destruct x as [sx|sx| |[] mx ex], y as [sy|sy| |[] my ey]; cbn in *; try done.
  destruct (Z.compare_spec ex ey) as [->|Hl|Hg]; [|split; [by left|done]|split; [done|lia]].
  change (Pos.compare_cont Eq mx my) with (Pos.compare mx my). destruct (Pos.compare_spec mx my) as [->|Hl|Hg]; (split; [done || by right|lia]) || (split; [done|lia]).
Qed.

Lemma usable_nonneg t : usable t = true -> nonneg t.
Proof.
  unfold usable. intros [H1 H2]%andb_true_iff. destruct t as [s|[]| |[] m e]; try done.
Qed.

Lemma usable_not_ignored t : SFleb (S754_zero false) t = true -> SFeqb t minus_one = false.
Proof. destruct t as [s|[]| |[] m e]; done. Qed.

Lemma flt_trans x y z : flt x y -> flt y z -> flt x z.
Proof. destruct x as [sx|sx| |[] mx ex], y as [sy|sy| |[] my ey], z as [sz|sz| |[] mz ez]; simpl; try done. lia. Qed.

Lemma flt_total x y z : nonneg x -> nonneg y -> nonneg z -> flt x y -> ~ flt z y -> flt x z.
Proof. destruct x as [sx|sx| |[] mx ex], y as [sy|sy| |[] my ey], z as [sz|sz| |[] mz ez]; simpl; try done; try tauto. lia. Qed.

Lemma nonneg_max : nonneg max_time.
Proof. vm_compute. done. Qed.

(** ** The least entry *)

Section select.
Context (entry : Z -> spec_float).

(** The best of the first [k] entries, in the order of the loops. *)
Definition best (k : Z) (st : choice) : Prop :=
  (st = MkChoice NCCL_ALGO_UNDEF NCCL_PROTO_UNDEF max_time /\ forall j, 0 <= j < k -> usable (entry j) = false) \/
  exists i, 0 <= i < k /\ st = MkChoice (i / 3) (i mod 3) (entry i) /\ usable (entry i) = true /\
    forall j, 0 <= j < k -> usable (entry j) = true -> SFltb (entry j) (entry i) = false /\ (j < i -> SFltb (entry i) (entry j) = true).

Lemma best_step k st : 0 <= k -> best k st ->
  best (k + 1) (if SFeqb (entry k) minus_one then st else if SFleb (S754_zero false) (entry k) && SFltb (entry k) (ch_minTime st) then MkChoice (k / 3) (k mod 3) (entry k) else st).
Proof.
  intros Hk Hb. assert (forall st', (SFeqb (entry k) minus_one = true \/ SFleb (S754_zero false) (entry k) && SFltb (entry k) (ch_minTime st) = false) -> st' = st -> best (k + 1) st') as Hsame.
  { intros st' Hno ->. assert (SFleb (S754_zero false) (entry k) && SFltb (entry k) (ch_minTime st) = false) as Hn.
    { destruct Hno as [He|]; [|done]. destruct (SFleb _ (entry k)) eqn:E; [|done]. by rewrite (usable_not_ignored _ E) in He. }
    destruct Hb as [[-> Hu]|(i & Hi & -> & Hui & Hj)]; cbn [ch_minTime] in Hn.
    - left. split; [done|]. intros j Hj. destruct (decide (j = k)) as [->|]; [exact Hn|apply Hu; lia].
    - right. exists i. split_and!; [lia|lia|done|done|]. intros j Hjk Huj. destruct (decide (j = k)) as [->|]; [|apply Hj; [lia|done]]. split; [|lia].
      unfold usable in Huj. apply andb_true_iff in Huj as [E _]. by rewrite E in Hn. }
  destruct (SFeqb (entry k) minus_one) eqn:He; [by apply Hsame; [left|]|]. destruct (_ && _) eqn:Hc; [|by apply Hsame; [right|]].
  apply andb_true_iff in Hc as [H0 Hlt]. right. exists k. destruct Hb as [[-> Hu]|(i & Hi & -> & Hui & Hj)]; cbn [ch_minTime] in Hlt.
  - assert (usable (entry k) = true) as Huk by (unfold usable; by rewrite H0, Hlt). split_and!; [lia|lia|done|done|]. intros j Hjk Huj. assert (j = k) as -> by (destruct (decide (j = k)); [done|]; rewrite Hu in Huj by lia; done).
    split; [|lia]. apply not_true_is_false. intros E%SFltb_flt; [|by apply usable_nonneg..]. destruct (entry k) as [s|s| |[] m e]; simpl in E; try done. lia.
  - pose proof (usable_nonneg _ Hui) as Ni. assert (nonneg (entry k)) as Nk by (destruct (entry k) as [s|[]| |[] m e]; try done; by destruct (entry i) as [?|[]| |[] ? ?]).
    assert (usable (entry k) = true) as Huk.
    { unfold usable in Hui |- *. rewrite H0. apply andb_true_iff in Hui as [_ Hui]. apply SFltb_flt; [done|apply nonneg_max|]. apply SFltb_flt in Hlt; [|done..]. apply SFltb_flt in Hui; [|done|apply nonneg_max]. by eapply flt_trans. }
    apply SFltb_flt in Hlt; [|done..]. split_and!; [lia|lia|done|done|]. intros j Hjk Huj. pose proof (usable_nonneg _ Huj) as Nj. destruct (decide (j = k)) as [->|Hne].
    + split; [|lia]. apply not_true_is_false. intros E%SFltb_flt; [|done..]. destruct (entry k) as [s|s| |[] m e]; simpl in E; try done. lia.
    + destruct (Hj j ltac:(lia) Huj) as [Hnlt _]. assert (~ flt (entry j) (entry i)) as Hn by (intros E%SFltb_flt; [by rewrite E in Hnlt|done..]). split; [|intros _; apply SFltb_flt; [done..|]; by apply (flt_total _ (entry i))].
      apply not_true_is_false. intros E%SFltb_flt; [|done..]. apply Hn. by eapply flt_trans.
Qed.
End select.

(** ** The table *)

(** The table with the entries [e 0], [e 1], ..., row by row. *)
Definition tab (e : Z -> spec_float) : cost_table := (fun a => (fun p => e (3 * a + p)) <$> seqZ 0 3) <$> seqZ 0 7.

Definition cell (a p : Z) : Prop := 0 <= a < NCCL_NUM_ALGORITHMS /\ 0 <= p < NCCL_NUM_PROTOCOLS.

Ltac cells a p :=
  assert (a = 0 \/ a = 1 \/ a = 2 \/ a = 3 \/ a = 4 \/ a = 5 \/ a = 6) as Ha by (unfold cell, NCCL_NUM_ALGORITHMS in *; lia);
  assert (p = 0 \/ p = 1 \/ p = 2) as Hp by (unfold cell, NCCL_NUM_PROTOCOLS in *; lia);
  destruct Ha as [->|[->|[->|[->|[->|[->| ->]]]]]], Hp as [->|[->| ->]].

Lemma tab_get e a p : cell a p -> table_get (tab e) a p = Ret (e (3 * a + p)).
Proof. intros H. cells a p; reflexivity. Qed.

Lemma tab_set e a p v : cell a p -> table_set (tab e) a p v = Ret (tab (fun j => if j =? 3 * a + p then v else e j)).
Proof. intros H. cells a p; reflexivity. Qed.

Lemma tab_ext e e' : (forall j, 0 <= j < 21 -> e j = e' j) -> tab e = tab e'.
Proof.
  intros H. unfold tab. apply list_fmap_ext. intros i a Ha%list_elem_of_lookup_2%elem_of_seqZ. apply list_fmap_ext. intros i' p Hp%list_elem_of_lookup_2%elem_of_seqZ. apply H. lia.
Qed.

Lemma tab_inj e e' k : tab e = tab e' -> 0 <= k < 21 -> e k = e' k.
Proof.
  intros Ht Hk. assert (cell (k / 3) (k mod 3)) as Hcell by (unfold cell, NCCL_NUM_ALGORITHMS, NCCL_NUM_PROTOCOLS; dlia).
  pose proof (tab_get e _ _ Hcell) as Hg. rewrite Ht, tab_get in Hg by done. replace (3 * (k / 3) + k mod 3) with k in Hg by dlia. congruence.
Qed.

Lemma cell_index a p : cell a p -> (3 * a + p) / 3 = a /\ (3 * a + p) mod 3 = p.
Proof. unfold cell, NCCL_NUM_PROTOCOLS. intros [_ H]. dlia. Qed.

Lemma select_spec e : wp (select_algo (tab e)) (best e 21).
Proof.
  unfold select_algo. apply (wpx_for (fun a => best e (3 * a))); [done|left; split; [done|lia]| |done]. intros a st Ha Hb.
  apply (wpx_for (fun p => best e (3 * a + p))); [done|by rewrite Z.add_0_r| |intros st' H; by replace (3 * (a + 1)) with (3 * a + NCCL_NUM_PROTOCOLS) by (unfold NCCL_NUM_PROTOCOLS; lia)].
  intros p st' Hp Hb'. rewrite tab_get by done. cbn [mbind outcome_bind]. destruct (cell_index a p (conj Ha Hp)) as [E1 E2]. pose proof (best_step e (3 * a + p) st' ltac:(lia) Hb') as Hs. rewrite E1, E2 in Hs.
  replace (3 * a + (p + 1)) with (3 * a + p + 1) by lia. destruct (SFeqb _ _); [done|]. by destruct (_ && _).
Qed.

(** ** The costs *)

(** What the cost model relies on.  Algorithms for which [ncclTopoTuneModel] sets no
    number of threads have 0 of them; a communicator without NVLS has no NVLS channels,
    and then no NVLS bandwidth either ([graphs[NCCL_ALGO_NVLS]->nChannels] is 0, a
    factor of it).  [to_product]: the products of [topoGetAlgoInfo] fit in an [int]. *)
Record tune_ok (comm : tune_comm) : Prop := {
  to_ranks : 1 < tn_nRanks comm < 2 ^ 20;
  to_channels : 1 <= tn_nChannels comm <= 64 /\ 0 <= tn_nvlsChannels comm <= 64;
  to_nvls : tn_nvlsChannels comm = 0 -> forall f a p, nvls_algo a = true -> SFeqb (tn_bandwidths comm f a p) (S754_zero false) = true;
  to_heads : 0 <= tn_nHeads comm <= 8;
  to_threads : forall a p, cell a p -> 0 <= tn_maxThreads comm a p <= NCCL_MAX_NTHREADS;
  to_ring : tn_maxThreads comm NCCL_ALGO_RING NCCL_PROTO_SIMPLE + WARP_SIZE <= NCCL_MAX_NTHREADS;
  to_thresholds : forall a p, cell a p -> 0 <= tn_threadThresholds comm a p < 2 ^ 31;
  to_product : forall a p, cell a p -> tn_nChannels comm * tn_maxThreads comm a p * (if a =? NCCL_ALGO_COLLNET_DIRECT then Z.max 1 (tn_nHeads comm) else 1) * tn_threadThresholds comm a p < 2 ^ 31;
}.

(** The tables [ncclTopoTuneModel] makes are such tables, whatever NCCL_NTHREADS and
    NCCL_LL128_NTHREADS are, as long as the product for the ring in LL, whose threshold
    grows with the ranks, fits: with 64 channels up to 8191 ranks. *)
Lemma getNthreads_range env min max def : 0 <= min <= max -> 0 <= def <= max -> 0 <= getNthreads env min max def <= max.
Proof. intros. unfold getNthreads. repeat case_match; lia. Qed.

Lemma tune_tables_ok comm nthreads ll128 bw nc : 1 < tn_nRanks comm < 2 ^ 20 -> 1 <= tn_nChannels comm <= 64 -> 0 <= tn_nvlsChannels comm <= 64 ->
  (tn_nvlsChannels comm = 0 -> forall f a p, nvls_algo a = true -> SFeqb (tn_bandwidths comm f a p) (S754_zero false) = true) -> 0 <= tn_nHeads comm <= 8 ->
  tn_nChannels comm * tn_nRanks comm < 2 ^ 19 ->
  tune_ok (with_threads comm (tune_maxThreads nthreads ll128 bw nc) (tune_thresholds (tn_nRanks comm) [])).
Proof.
  intros Hr Hc Hv Hn Hh Hpr.
  assert (forall d, 0 <= d <= 512 -> 0 <= getNthreads nthreads (2 * WARP_SIZE) 512 d <= 512) as H1 by (intros; apply getNthreads_range; unfold WARP_SIZE; lia).
  pose proof (getNthreads_range ll128 (640 `quot` 4) 640 640 ltac:(done) ltac:(done)) as H2.
  pose proof (H1 512 ltac:(lia)) as H3. pose proof (H1 256 ltac:(lia)) as H4.
  assert (forall a p, cell a p -> 0 <= tune_maxThreads nthreads ll128 bw nc a p <= 640 /\ (p = 0 -> tune_maxThreads nthreads ll128 bw nc a p <= 512) /\ (p = 2 -> a <= 1 -> tune_maxThreads nthreads ll128 bw nc a p <= 512)) as Ht.
  { intros a p Hcell. unfold tune_maxThreads. destruct (SFleb _ _); cells a p; cbn -[getNthreads Z.quot Z.mul]; unfold NCCL_SIMPLE_MAX_NTHREADS, NCCL_LL_MAX_NTHREADS, NCCL_LL128_MAX_NTHREADS, NCCL_MAX_NTHREADS in *; lia. }
  assert (forall a p, cell a p -> 0 <= tune_thresholds (tn_nRanks comm) [] a p <= (if (a =? 1) && (p =? 0) then 8 * tn_nRanks comm else 512)) as Hth by (intros a p Hcell; unfold tune_thresholds; rewrite lookup_nil, andb_false_r; cells a p; cbn -[Z.mul]; unfold NCCL_LL_THREAD_THRESHOLD, NCCL_LL128_THREAD_THRESHOLD, NCCL_SIMPLE_THREAD_THRESHOLD; lia).
  split; cbn [with_threads tn_nRanks tn_nChannels tn_nvlsChannels tn_bandwidths tn_nHeads tn_maxThreads tn_threadThresholds]; try done.
  - intros a p Hcell. by apply Ht.
  - destruct (Ht 1 2) as (_ & _ & H); [done|]. specialize (H eq_refl ltac:(lia)). unfold WARP_SIZE, NCCL_MAX_NTHREADS, NCCL_ALGO_RING, NCCL_PROTO_SIMPLE. lia.
  - intros a p Hcell. specialize (Hth a p Hcell). destruct (_ && _); lia.
  - intros a p Hcell. destruct (Ht a p Hcell) as (Hb & Hb0 & _). specialize (Hth a p Hcell). set (mt := tune_maxThreads _ _ _ _ _ _) in *. set (th := tune_thresholds _ _ _ _) in *. set (h := if a =? _ then _ else 1).
    assert (1 <= h <= 8) as Hh8 by (unfold h; clear -Hh; destruct (a =? NCCL_ALGO_COLLNET_DIRECT); lia). destruct ((a =? 1) && (p =? 0)) eqn:E.
    + apply andb_true_iff in E as [->%Z.eqb_eq ->%Z.eqb_eq]. specialize (Hb0 eq_refl). change h with 1. rewrite Z.mul_1_r. assert (0 <= tn_nChannels comm * mt <= tn_nChannels comm * 512) by nia. assert (tn_nChannels comm * mt * th <= tn_nChannels comm * 512 * (8 * tn_nRanks comm)) by (apply Z.mul_le_mono_nonneg; lia). lia.
    + assert (0 <= tn_nChannels comm * mt <= 64 * 640) by nia. assert (0 <= tn_nChannels comm * mt * h <= 64 * 640 * 8) by nia. assert (tn_nChannels comm * mt * h * th <= 64 * 640 * 8 * 512) by (apply Z.mul_le_mono_nonneg; lia). lia.
Qed.

Lemma algo_cost_total comm info nBytes numPipeOps a p : tune_ok comm -> cell a p -> exists t, algo_cost comm info nBytes numPipeOps a p = Ret t.
Proof.
  intros Hc Hcell. pose proof (to_ranks _ Hc). pose proof (to_channels _ Hc). assert (exists t, ncclTopoGetAlgoTime comm (t_func info) a p nBytes numPipeOps = Ret t) as [t Et]; [|unfold algo_cost; rewrite Et; by eexists].
  unfold ncclTopoGetAlgoTime. destruct (SFeqb _ _); [by eexists|]. set (logSize := log2Down int64 (Z.shiftr nBytes 6)).
  assert (forall A (x y : outcome A), (exists v, x = Ret v) -> (exists v, y = Ret v) -> forall b : bool, exists v, (if b then x else y) = Ret v) as Hif by (intros A x y Hx Hy []; done).
  match goal with |- exists _, mbind _ ?m = _ => assert (exists v, m = Ret v) as [v ->] end.
  { destruct (_ && _) eqn:E; [|by eexists]. rewrite !andb_true_iff, Z.leb_le, Z.ltb_lt in E. destruct E as ((_ & Hlo) & Hhi). destruct Hcell as [_ Hp].
    assert (exists row, zget treeCorrectionFactor p = Ret row /\ length row = 23%nat) as (row & -> & Hl).
    { assert (p = 0 \/ p = 1 \/ p = 2) as [->|[->| ->]] by (unfold NCCL_NUM_PROTOCOLS in Hp; lia); by eexists. }
    cbn [mbind outcome_bind]. destruct (lookup_lt_is_Some_2 row (Z.to_nat logSize)) as [f Hf]; [lia|]. rewrite (proj2 (zget_Ret row logSize f)) by (split; [lia|done]). by eexists. }
  cbn [mbind outcome_bind]. match goal with |- exists _, mbind _ ?m = _ => assert (exists v, m = Ret v) as [v' ->] end.
  { destruct (_ && _); [|by eexists]. rewrite arith_in_range by (unfold in_range, int32; simpl; nia). cbn [mbind outcome_bind]. destruct (Z.eqb_spec (tn_nChannels comm * tn_nRanks comm) 0); [nia|by eexists]. }
  by eexists.
Qed.

(** The table of a group of tasks: skipped algorithms are ignored. *)
Definition costs (comm : tune_comm) (info : ncclTaskColl) (nBytes collNetSupport nvlsSupport numPipeOps k : Z) : spec_float :=
  if skip_algo comm info collNetSupport nvlsSupport (k / 3) then minus_one
  else match algo_cost comm info nBytes numPipeOps (k / 3) (k mod 3) with Ret t => t | _ => minus_one end.

Lemma update_spec comm info nBytes cn nv np : tune_ok comm -> updateCollCostTable comm info nBytes cn nv np initCollCostTable = Ret (tab (costs comm info nBytes cn nv np)).
Proof.
  intros Hc. unfold updateCollCostTable. pose proof (to_ranks _ Hc). rewrite (proj2 (Z.eqb_neq _ _)) by lia. set (C := costs comm info nBytes cn nv np).
  match goal with |- ?m = _ => enough (wp m (fun t => t = tab C)) as (t & E & ->)%wp_elim by done end.
  apply (wpx_for (fun a t => t = tab (fun j => if j <? 3 * a then C j else minus_one))); [done|reflexivity| |intros t ->; apply tab_ext; intros j Hj; by rewrite (proj2 (Z.ltb_lt _ _)) by (unfold NCCL_NUM_ALGORITHMS; lia)].
  intros a t Ha ->. destruct (skip_algo comm info cn nv a) eqn:Hs.
  - apply wpx_ret, tab_ext. intros j Hj. destruct (Z.ltb_spec j (3 * a)), (Z.ltb_spec j (3 * (a + 1))); try done; [lia|]. unfold C, costs. replace (j / 3) with a by dlia. by rewrite Hs.
  - apply (wpx_for (fun p t => t = tab (fun j => if j <? 3 * a + p then C j else minus_one))); [done|by rewrite Z.add_0_r| |intros t ->; by replace (3 * (a + 1)) with (3 * a + NCCL_NUM_PROTOCOLS) by (unfold NCCL_NUM_PROTOCOLS; lia)].
    intros p t Hp ->. destruct (algo_cost_total comm info nBytes np a p Hc (conj Ha Hp)) as [v Ev]. rewrite Ev. cbn [mbind outcome_bind]. rewrite tab_set by done. apply wpx_ret, tab_ext. intros j Hj.
    destruct (cell_index a p (conj Ha Hp)) as [E1 E2]. destruct (Z.eqb_spec j (3 * a + p)) as [->|].
    + rewrite (proj2 (Z.ltb_lt _ _)) by lia. unfold C, costs. rewrite E1, E2, Hs, Ev. done.
    + destruct (Z.ltb_spec j (3 * a + p)), (Z.ltb_spec j (3 * a + (p + 1))); done || lia.
Qed.

(** ** Channels and threads *)

Lemma too_small3 nBytes a b c : 0 <= a -> 0 <= b -> 0 <= c -> a * b < 2 ^ 31 -> a < 2 ^ 31 -> a * b * c < 2 ^ 31 -> too_small nBytes [a; b; c] = Ret (nBytes <? a * b * c).
Proof.
  intros. unfold too_small. cbn [foldl]. repeat (cbn [mbind outcome_bind]; rewrite arith_in_range by (unfold in_range, int32; simpl; nia)). cbn [mbind outcome_bind]. unfold u64. rewrite Z.mod_small by nia. by rewrite Z.mul_1_l.
Qed.

Lemma too_small4 nBytes a b c d : 0 <= a -> 0 <= b -> 0 <= c -> 0 <= d -> a < 2 ^ 31 -> a * b < 2 ^ 31 -> a * b * c < 2 ^ 31 -> a * b * c * d < 2 ^ 31 -> too_small nBytes [a; b; c; d] = Ret (nBytes <? a * b * c * d).
Proof.
  intros. unfold too_small. cbn [foldl]. repeat (cbn [mbind outcome_bind]; rewrite arith_in_range by (unfold in_range, int32; simpl; nia)). cbn [mbind outcome_bind]. unfold u64. rewrite Z.mod_small by nia. by rewrite Z.mul_1_l.
Qed.

Lemma product_mono a a' b c d d' : 0 <= a' <= a -> 0 <= b -> 0 <= c -> 0 <= d' <= d -> a' * b * c * d' <= a * b * c * d.
Proof.
  intros Ha Hb Hc Hd. assert (a' * b <= a * b) by nia. assert (a' * b * c <= a * b * c) by (apply Z.mul_le_mono_nonneg_r; lia). apply Z.mul_le_mono_nonneg; [|lia|lia|lia]. apply Z.mul_nonneg_nonneg; [nia|lia].
Qed.

Section tuned.
Context (nBytes nt heads : Z) (Hnt : 0 <= nt <= NCCL_MAX_NTHREADS) (Hh : 0 <= heads <= 8).

(** As many channels as the size can keep busy. *)
Lemma ring_channels_spec threshold fuel nc : 1 <= nc <= 64 -> nc <= Z.of_nat fuel + 1 -> 0 <= threshold -> nc * nt * threshold < 2 ^ 31 -> exists nc', ring_channels fuel nBytes nt threshold nc = Ret nc' /\ 1 <= nc' <= nc /\
  (nc' = 1 \/ nc' * nt * threshold <= nBytes) /\ (nc' < nc -> nBytes < (nc' + 1) * nt * threshold).
Proof.
  revert nc. unfold WARP_SIZE, NCCL_MAX_NTHREADS in Hnt. induction fuel as [|fuel IH]; intros nc Hnc Hf Ht Hp; cbn [ring_channels]; rewrite too_small3 by nia; cbn [mbind outcome_bind].
  - destruct (Z.ltb_spec nBytes (nc * nt * threshold)); [|by exists nc; split_and!; [done|lia|lia|right; lia|lia]]. assert (nc = 1) as -> by lia. exists 1. split_and!; [done|lia|lia|by left|lia].
  - destruct (Z.ltb_spec nBytes (nc * nt * threshold)) as [Hlt|]; [|by exists nc; split_and!; [done|lia|lia|right; lia|lia]]. destruct (Z.leb_spec 2 nc); [|exists nc; split_and!; [done|lia|lia|left; lia|lia]].
    destruct (IH (nc - 1)) as (nc' & E & Hr & H1 & H2); [lia|lia|done|nia|]. exists nc'. split_and!; [done|lia|lia|done|]. intros _. destruct (decide (nc' = nc - 1)) as [->|]; [by replace (nc - 1 + 1) with nc by lia|apply H2; lia].
Qed.

Lemma collnet_inner_spec sw fuel nc threshold : 1 <= sw -> 1 <= nc <= 64 -> nc <= Z.of_nat fuel + 1 -> 0 <= threshold -> nc * nt * heads * threshold < 2 ^ 31 ->
  exists flag nc' thr', collnet_inner fuel nBytes nt heads sw nc threshold = Ret (flag, nc', thr') /\ 1 <= nc' <= nc /\ 0 <= thr' <= threshold.
Proof.
  intros Hsw. revert nc threshold. unfold WARP_SIZE, NCCL_MAX_NTHREADS in Hnt. induction fuel as [|fuel IH]; intros nc threshold Hnc Hf Ht Hp; assert (nc * nt <= 64 * 640) by nia; cbn [collnet_inner]; rewrite too_small4 by nia; cbn [mbind outcome_bind].
  - assert (nc = 1) as -> by lia. rewrite (proj2 (Z.ltb_ge sw 1)), andb_false_r by lia. eexists _, _, _; split; [reflexivity|lia].
  - destruct (_ && (sw <? nc)) eqn:E; [|eexists _, _, _; split; [reflexivity|lia]]. apply andb_true_iff in E as [_ E%Z.ltb_lt].
    set (thr := if nc =? sw + sw `quot` 2 then threshold `quot` 2 else threshold). assert (0 <= thr <= threshold) as Hthr by (unfold thr; destruct (_ =? _); [rewrite quot_div_nonneg by lia; dlia|lia]).
    destruct (IH (nc - 1) thr) as (flag & nc' & thr' & E1 & H1 & H2); [lia|lia|lia|pose proof (product_mono nc (nc - 1) nt heads threshold thr); lia|]. exists flag, nc', thr'. split_and!; [done|lia|lia|lia|lia].
Qed.

Lemma collnet_channels_spec fuel sw flag nc threshold : 0 <= sw < 2 ^ Z.of_nat fuel -> 1 <= nc <= 64 -> 0 <= threshold -> nc * nt * heads * threshold < 2 ^ 31 ->
  exists nc' thr', collnet_channels fuel nBytes nt heads sw flag nc threshold = Ret (nc', thr') /\ 1 <= nc' <= nc /\ 0 <= thr' <= threshold.
Proof.
  revert sw flag nc threshold. induction fuel as [|fuel IH]; intros sw flag nc threshold Hsw Hnc Ht Hp; cbn [collnet_channels].
  - simpl in Hsw. assert (sw = 0) as -> by lia. eexists _, _; split; [reflexivity|lia].
  - destruct (_ && flag) eqn:E; [|eexists _, _; split; [reflexivity|lia]]. apply andb_true_iff in E as [E%Z.leb_le _]. destruct (collnet_inner_spec sw (Z.to_nat nc) nc threshold) as (fl & n1 & t1 & -> & H1 & H2); [lia|lia|lia|lia|lia|].
    cbn [mbind outcome_bind]. rewrite Nat2Z.inj_succ, Z.pow_succ_r in Hsw by lia. unfold WARP_SIZE in Hnt. destruct (IH (sw `quot` 2) fl n1 t1) as (n2 & t2 & E2 & H3 & H4); [rewrite quot_div_nonneg by lia; dlia|lia|lia|pose proof (product_mono nc n1 nt heads threshold t1); lia|]. exists n2, t2. split_and!; [done|lia|lia|lia|lia].
Qed.
End tuned.

Lemma halve_threads_spec nBytes nc threshold fuel nt : 0 <= nBytes -> nt < 2 ^ Z.of_nat fuel -> 0 <= nt <= NCCL_MAX_NTHREADS -> 0 <= nc <= 64 -> 0 <= threshold -> nc * nt * threshold < 2 ^ 31 ->
  exists nt', halve_threads fuel nBytes nc threshold nt = Ret nt' /\ 0 <= nt' <= nt.
Proof.
  intros Hb. revert nt. unfold WARP_SIZE, NCCL_MAX_NTHREADS. induction fuel as [|fuel IH]; intros nt Hf Hnt Hnc Ht Hp; cbn [halve_threads]; [simpl in Hf; assert (nt = 0) as -> by lia|].
  { rewrite too_small3 by lia. cbn [mbind outcome_bind]. rewrite Z.mul_0_r, Z.mul_0_l, (proj2 (Z.ltb_ge _ _)) by lia. by exists 0. }
  rewrite too_small3 by nia. cbn [mbind outcome_bind].
  destruct (_ <? _); [|exists nt; split; [done|lia]]. destruct (Z.eqb_spec (nt `rem` 128) 0) as [Hr|]; [|exists nt; split; [done|lia]]. rewrite rem_mod_nonneg in Hr by lia. rewrite quot_div_nonneg by lia. rewrite Nat2Z.inj_succ, Z.pow_succ_r in Hf by lia.
  assert (0 <= nt / 2 <= nt) as Hd by dlia. assert (nc * (nt / 2) * threshold <= nc * nt * threshold) by (apply Z.mul_le_mono_nonneg_r; nia). destruct (IH (nt / 2)) as (nt' & E & Hle); [dlia|lia|lia|lia|lia|]. exists nt'. split; [done|lia].
Qed.

(** The factor of the CollNet heads is only in the products of CollNet. *)
Lemma product_plain comm a p : tune_ok comm -> cell a p -> tn_nChannels comm * tn_maxThreads comm a p * tn_threadThresholds comm a p < 2 ^ 31.
Proof.
  intros Hc Hcell. pose proof (to_product _ Hc a p Hcell) as Hpr. pose proof (to_channels _ Hc). pose proof (to_threads _ Hc a p Hcell). pose proof (to_thresholds _ Hc a p Hcell).
  set (h := if a =? _ then _ else 1) in Hpr. assert (1 <= h) by (unfold h; destruct (_ =? _); lia). assert (0 <= tn_nChannels comm * tn_maxThreads comm a p) by nia.
  assert (tn_nChannels comm * tn_maxThreads comm a p * tn_threadThresholds comm a p <= tn_nChannels comm * tn_maxThreads comm a p * h * tn_threadThresholds comm a p) by (apply Z.mul_le_mono_nonneg_r; nia). lia.
Qed.

Lemma tune_channels_spec comm a p nBytes : tune_ok comm -> cell a p -> let nt := tn_maxThreads comm a p in let thr := tn_threadThresholds comm a p in
  exists nc thr', tune_channels comm a nBytes nt thr = Ret (nc, thr') /\ 0 <= thr' <= thr /\ (if nvls_algo a then nc = tn_nvlsChannels comm else 1 <= nc <= tn_nChannels comm).
Proof.
  intros Hc Hcell nt thr. pose proof (to_channels _ Hc) as [Hn Hv]. pose proof (to_threads _ Hc a p Hcell) as Hnt. pose proof (to_thresholds _ Hc a p Hcell) as Hthr. pose proof (to_product _ Hc a p Hcell) as Hpr. pose proof (to_heads _ Hc) as Hh.
  pose proof (product_plain comm a p Hc Hcell) as Hpl. fold nt thr in Hnt, Hthr, Hpr, Hpl. unfold tune_channels. destruct (Z.eqb_spec a NCCL_ALGO_COLLNET_DIRECT) as [->|].
  - change (nvls_algo NCCL_ALGO_COLLNET_DIRECT) with false. cbv iota in *.
    destruct (collnet_channels_spec nBytes nt (tn_nHeads comm) Hnt Hh 5 16 true (tn_nChannels comm) thr) as (nc & thr' & E & H1 & H2); [simpl; lia|lia|lia| |].
    { assert (0 <= tn_nChannels comm * nt) by nia. assert (tn_nChannels comm * nt * tn_nHeads comm * thr <= tn_nChannels comm * nt * Z.max 1 (tn_nHeads comm) * thr) by (apply Z.mul_le_mono_nonneg_r; nia). lia. }
    exists nc, thr'. split_and!; try done; lia.
  - destruct (nvls_algo a) eqn:E; [by exists (tn_nvlsChannels comm), thr; split_and!; try done; lia|].
    destruct (ring_channels_spec nBytes nt Hnt thr (Z.to_nat (tn_nChannels comm)) (tn_nChannels comm)) as (nc & -> & H1 & _); [lia|lia|lia|lia|]. exists nc, thr. split_and!; try done; lia.
Qed.

Lemma tune_threads_spec comm a p nBytes nc thr : tune_ok comm -> cell a p -> 0 <= nBytes -> 0 <= thr <= tn_threadThresholds comm a p -> (if nvls_algo a then nc = tn_nvlsChannels comm else 1 <= nc <= tn_nChannels comm) ->
  exists nt, tune_threads a p nBytes nc thr (tn_maxThreads comm a p) = Ret nt /\ 3 <= nt `quot` WARP_SIZE <= NCCL_MAX_NTHREADS `quot` WARP_SIZE.
Proof.
  intros Hc Hcell Hb Hthr Hnc. pose proof (to_threads _ Hc a p Hcell) as Hnt. pose proof (product_plain comm a p Hc Hcell) as Hpr. pose proof (to_ring _ Hc) as Hring. pose proof (to_channels _ Hc) as [Hn _]. set (nt := tn_maxThreads comm a p) in *. unfold tune_threads.
  match goal with |- context [mbind _ ?m] => assert (exists nt', m = Ret nt' /\ 0 <= nt' <= nt) as (nt' & -> & Hnt') end.
  { unfold nvls_algo in Hnc. destruct (Z.eqb_spec a NCCL_ALGO_NVLS), (Z.eqb_spec a NCCL_ALGO_NVLS_TREE), (Z.eqb_spec a NCCL_ALGO_COLLNET_DIRECT); cbn [negb andb orb] in *; try (exists nt; split; [done|lia]).
    unfold NCCL_MAX_NTHREADS in *. apply halve_threads_spec; unfold NCCL_MAX_NTHREADS; try lia.
    assert (nc * nt * thr <= tn_nChannels comm * nt * tn_threadThresholds comm a p) by (apply Z.mul_le_mono_nonneg; nia). lia. }
  cbn [mbind outcome_bind]. eexists. split; [reflexivity|]. change (NCCL_MAX_NTHREADS `quot` WARP_SIZE) with 20. unfold WARP_SIZE, NCCL_MAX_NTHREADS in *.
  assert (forall x, 0 <= x <= 640 -> 3 <= (if x `quot` 32 <? 3 then 3 * 32 else x) `quot` 32 <= 20) as Hq.
  { intros x Hx. destruct (Z.ltb_spec (x `quot` 32) 3); [done|]. rewrite quot_div_nonneg in * by lia. dlia. }
  destruct (Z.eqb_spec a NCCL_ALGO_PAT); [done|]. destruct (Z.eqb_spec a NCCL_ALGO_TREE); [done|]. apply Hq. destruct (Z.eqb_spec p NCCL_PROTO_SIMPLE) as [Ep|]; [|lia]. destruct (Z.eqb_spec a NCCL_ALGO_RING) as [Ea|]; [|lia].
  unfold nt in Hnt'. rewrite Ea, Ep in Hnt'. lia.
Qed.

(** ** The choice *)

Lemma conv_int8 z : -128 <= z < 128 -> conv int8 z = z.
Proof. intros H. unfold conv, int8. cbn [ity_signed ity_width]. change (2 ^ (8 - 1)) with 128. change (2 ^ 8) with 256. rewrite Z.mod_small by lia. lia. Qed.

(** The first of the fastest: no usable entry is faster, and those that come
    before it are slower. *)
Definition first_fastest (e : Z -> spec_float) (k : Z) : Prop :=
  0 <= k < 21 /\ usable (e k) = true /\ forall j, 0 <= j < 21 -> usable (e j) = true -> SFltb (e j) (e k) = false /\ (j < k -> SFltb (e k) (e j) = true).

Lemma topo_spec envSet comm info nBytes e : tune_ok comm -> 0 <= nBytes ->
  wpx (topoGetAlgoInfo envSet comm info nBytes (tab e))
    (fun r => exists k nc nw, first_fastest e k /\ r = (set_tuned info (k / 3) (k mod 3) nc nw, e k) /\
       (if nvls_algo (k / 3) then nc = tn_nvlsChannels comm else 1 <= nc <= tn_nChannels comm) /\ 3 <= nw <= 20)
    (fun err => (forall j, 0 <= j < 21 -> usable (e j) = false) /\ err = if envSet then ncclInvalidUsage else ncclInternalError).
Proof.
  intros Hc Hnb. unfold topoGetAlgoInfo. destruct (wp_elim _ _ (select_spec e)) as (st & -> & Hb). cbn [mbind outcome_bind]. destruct Hb as [[-> Hu]|(k & Hk & -> & Huk & Hj)]; cbn [ch_algorithm ch_protocol ch_minTime]; [by split|].
  assert (cell (k / 3) (k mod 3)) as Hcell by (unfold cell, NCCL_NUM_ALGORITHMS, NCCL_NUM_PROTOCOLS; dlia). destruct (Z.eqb_spec (k / 3) NCCL_ALGO_UNDEF) as [E|_]; [unfold cell, NCCL_ALGO_UNDEF in *; lia|].
  destruct (Z.eqb_spec (k mod 3) NCCL_PROTO_UNDEF) as [E|_]; [unfold cell, NCCL_PROTO_UNDEF in *; lia|]. cbn [orb]. pose proof (to_thresholds _ Hc _ _ Hcell) as Hthr.
  assert (conv int32 (tn_threadThresholds comm (k / 3) (k mod 3)) = tn_threadThresholds comm (k / 3) (k mod 3)) as -> by (unfold conv, int32; cbn [ity_signed ity_width]; rewrite Z.mod_small by lia; lia).
  destruct (tune_channels_spec comm _ _ nBytes Hc Hcell) as (nc & thr & -> & Ht & Hnc). cbn [mbind outcome_bind]. destruct (tune_threads_spec comm _ _ nBytes nc thr Hc Hcell Hnb Ht Hnc) as (nt & -> & Hw). cbn [mbind outcome_bind wpx].
  exists k, nc, (nt `quot` WARP_SIZE). split; [by split|]. split; [done|]. split; [done|exact Hw].
Qed.

(** An entry of the table that can be used is not ruled out and has a bandwidth. *)
Lemma costs_usable comm info nBytes cn nv np k : usable (costs comm info nBytes cn nv np k) = true ->
  skip_algo comm info cn nv (k / 3) = false /\ algo_cost comm info nBytes np (k / 3) (k mod 3) = Ret (costs comm info nBytes cn nv np k) /\
  SFeqb (tn_bandwidths comm (t_func info) (k / 3) (k mod 3)) (S754_zero false) = false.
Proof.
  unfold costs. destruct (skip_algo _ _ _ _ _); [done|]. unfold algo_cost, ncclTopoGetAlgoTime. destruct (SFeqb _ _) eqn:Eb.
  - cbn [mbind outcome_bind]. destruct (_ && _); (intros H; exfalso; revert H; vm_compute; discriminate).
  - set (m := mbind _ _). destruct m; try done.
Qed.

(** Without NVLS channels the entries of NVLS are ignored. *)
Lemma costs_without_nvls comm info nBytes cn nv np k : tune_ok comm -> tn_nvlsChannels comm = 0 -> nvls_algo (k / 3) = true -> SFeqb (costs comm info nBytes cn nv np k) minus_one = true.
Proof.
  intros Hc E Ha. unfold costs. destruct (skip_algo _ _ _ _ _); [done|]. unfold algo_cost, ncclTopoGetAlgoTime. rewrite (to_nvls _ Hc E) by done. cbn [mbind outcome_bind].
  destruct (Z.eqb_spec (k / 3) NCCL_ALGO_RING) as [Er|]; [by rewrite Er in Ha|]. by rewrite andb_false_r.
Qed.

(** NVLS is chosen only by a communicator that has channels for it. *)
Lemma costs_nvls comm info nBytes cn nv np k : tune_ok comm -> usable (costs comm info nBytes cn nv np k) = true -> nvls_algo (k / 3) = true -> 1 <= tn_nvlsChannels comm.
Proof.
  intros Hc (_ & _ & Hb)%costs_usable Ha. destruct (to_channels _ Hc) as [_ Hv]. destruct (decide (tn_nvlsChannels comm = 0)) as [E|]; [|lia].
  by rewrite (to_nvls _ Hc E) in Hb.
Qed.

Lemma set_tuned_again info a p nc nw n : 0 <= a < 128 -> 0 <= p < 128 -> 0 <= nw < 128 ->
  let t := set_tuned info a p nc nw in set_tuned t (t_algorithm t) (t_protocol t) n (t_nWarps t) = set_tuned info a p n nw.
Proof. intros Ha Hp Hw t. unfold t, set_tuned. cbn -[conv]. by rewrite !(conv_int8 a), !(conv_int8 p), !(conv_int8 nw) by lia. Qed.

(** The table the choice is made from: the costs, as the plugin leaves them, with the
    number of channels it asks for (0: none). *)
Definition tuned_table (plugin : option tuner) (regBuff : ncclTaskColl -> bool) (comm : tune_comm) (info : ncclTaskColl) (cn nv np : Z) : outcome (cost_table * Z) :=
  let nBytes := u64 (ncclTypeSize (t_datatype info) * ncclFuncMaxSendRecvCount (t_func info) (tn_nRanks comm) (t_count info)) in
  let table := tab (costs comm info nBytes cn nv np) in
  match plugin with None => Ret (table, 0) | Some f => f (t_func info) nBytes np table (regBuff info) end.

Lemma getAlgoInfo_table envSet plugin regBuff comm info cn nv np : tune_ok comm ->
  getAlgoInfo envSet plugin regBuff comm info cn nv np =
    (let nBytes := u64 (ncclTypeSize (t_datatype info) * ncclFuncMaxSendRecvCount (t_func info) (tn_nRanks comm) (t_count info)) in
     '(table, nMaxChannels) ← tuned_table plugin regBuff comm info cn nv np;
     '(info, time) ← topoGetAlgoInfo envSet comm info nBytes table;
     Ret (if nMaxChannels =? 0 then info else set_tuned info (t_algorithm info) (t_protocol info) nMaxChannels (t_nWarps info), time)).
Proof. intros Hc. unfold getAlgoInfo, tuned_table. rewrite update_spec by done. by destruct plugin. Qed.

(** Once the table is there: the first of the fastest, or an error if there is none. *)
Lemma getAlgoInfo_choice envSet plugin regBuff comm info cn nv np e n : tune_ok comm -> tuned_table plugin regBuff comm info cn nv np = Ret (tab e, n) ->
  wpx (getAlgoInfo envSet plugin regBuff comm info cn nv np)
    (fun r => exists k nc nw, first_fastest e k /\ r = (set_tuned info (k / 3) (k mod 3) nc nw, e k) /\ 3 <= nw <= 20 /\
       (n <> 0 -> nc = n) /\ (n = 0 -> if nvls_algo (k / 3) then nc = tn_nvlsChannels comm else 1 <= nc <= tn_nChannels comm))
    (fun err => (forall j, 0 <= j < 21 -> usable (e j) = false) /\ err = if envSet then ncclInvalidUsage else ncclInternalError).
Proof.
  intros Hc Ht. rewrite getAlgoInfo_table, Ht by done. cbv zeta. cbn [mbind outcome_bind]. apply wpx_bind. eapply wpx_mono; [apply topo_spec; [done|apply Z.mod_pos_bound; lia]| |done].
  intros r (k & nc & nw & Hk & -> & Hnc & Hnw). cbn [wpx]. destruct (Z.eqb_spec n 0) as [->|Hn0].
  - exists k, nc, nw. split; [done|]. split; [done|]. split; [done|]. split; [lia|]. by intros _.
  - exists k, n, nw. split; [done|]. split; [|split; [done|]; split; [done|lia]]. destruct Hk as [Hk _]. by rewrite set_tuned_again by (dlia || lia).
Qed.


(** An all-reduce of 1 MB on 16 ranks and 2 nodes, without NVLS: ring and tree in
    the simple protocol are available.  The tables of threads are those of
    [ncclTopoTuneModel] with no variable set. *)
Definition sample_tune : tune_comm :=
  with_threads (MkTuneComm 16 2 8 0 8 90 0 (replicate 4 (replicate 12 0)) 1
      (fun f a p => if (a <=? 1) && (p =? 2) then float_of_Z (40 + a) else S754_zero false) (fun f a p => float_of_Z (if a =? 0 then 25 else 60)) (fun _ _ => 0) (fun _ _ => 0))
    (tune_maxThreads (-2) (-2) (float_of_Z 20) 8) (tune_thresholds 16 []).
Definition sample_tune_task : ncclTaskColl := MkTaskColl 1 ncclFuncAllReduce 4096 8192 262144 0 ncclFloat32 0 ncclDevSum 4 2 0 0 0 0 0 false false 0 0 0 0 0 [] [] [] 0.

Definition sample_costs : Z -> spec_float := costs sample_tune sample_tune_task (u64 (4 * 262144)) 0 0 1.

Lemma sample_tune_ok : tune_ok sample_tune.
Proof.
  unfold sample_tune. apply (tune_tables_ok (MkTuneComm _ _ _ _ _ _ _ _ _ _ _ _ _)); cbn; try lia. intros _ f a p Ha.
  unfold nvls_algo, NCCL_ALGO_NVLS, NCCL_ALGO_NVLS_TREE in Ha. destruct (Z.leb_spec a 1); [|done]. apply orb_true_iff in Ha as [Ha%Z.eqb_eq|Ha%Z.eqb_eq]; lia.
Qed.

