(* ===== verification/RegCache.v ===== *)
(** * The cache of registered buffers (src/src/register/register.cc)

    Buffers are registered with a communicator by the user or by a captured
    graph.  The cache keeps the records sorted by address, in whole pages; a
    buffer inside one that is registered shares its record, and a record goes
    when no reference is left. *)
From S2P Require Import Prelude Bitops Device RingAlgo UserOps.
From stdpp Require Import gmap.

#[local] Open Scope Z_scope.

Definition NCCL_MAX_LOCAL_RANKS : Z := 72.
Definition NET_REG_COMPLETE : Z := 0x01.
Definition NVLS_REG_COMPLETE : Z := 0x02.
Definition COLLNET_REG_COMPLETE : Z := 0x10.
Definition IPC_REG_COMPLETE : Z := 0x20.
Definition PSM_NET_REG_COMPLETE : Z := 0x1000.
Definition PSM_P2P_REG_COMPLETE : Z := 0x2000.

(** A record: its address, and the handles a transport has registered for it. *)
Record ncclReg := MkReg {
  rg_id : Z; rg_addr : Z; rg_pages : Z; rg_localRefs : Z; rg_graphRefs : Z; rg_state : Z;
  rg_netHandles : list Z; rg_psmNetHandles : list Z; rg_regAddr : Z; rg_collnetHandle : Z; rg_ipcInfos : list Z; rg_psmIpcInfos : list Z }.

(** [slots[0..population)]. *)
Record ncclRegCache := MkCache { ca_slots : list ncclReg; ca_capacity : Z; ca_pageSize : Z }.

Definition with_slots (cache : ncclRegCache) (slots : list ncclReg) : ncclRegCache := MkCache slots (ca_capacity cache) (ca_pageSize cache).
Definition population (cache : ncclRegCache) : Z := Z.of_nat (length (ca_slots cache)).

(** The first page of a buffer and its number of pages. *)
Definition page_addr (pageSize data : Z) : Z := Z.land data (u64 (- pageSize)).
Definition page_count (pageSize data size : Z) : Z := u64 (data + size - page_addr pageSize data + pageSize - 1) `quot` pageSize.

(** The test for a buffer inside a record. *)
Definition inside (pageSize addr pages : Z) (reg : ncclReg) : bool :=
  (rg_addr reg <=? addr) && (u64 ((addr - rg_addr reg) `quot` pageSize + pages) <=? rg_pages reg).

(** The loop over the slots. *)
Fixpoint find_slot (pageSize addr pages : Z) (slots : list ncclReg) : option ncclReg :=
  match slots with
  | [] => None
  | reg :: slots =>
    if addr <? rg_addr reg then None
    else if inside pageSize addr pages reg then Some reg else find_slot pageSize addr pages slots
  end.

Definition ncclRegFind (cache : ncclRegCache) (data size : Z) : option ncclReg :=
  let pageSize := ca_pageSize cache in
  find_slot pageSize (page_addr pageSize data) (page_count pageSize data size) (ca_slots cache).

Definition ncclRegLocalIsValid (reg : ncclReg) : bool := negb (rg_localRefs reg =? 0).

(** ** Registering *)

Definition add_refs (reg : ncclReg) (isGraph : bool) (n : Z) : outcome ncclReg :=
  l ← (if isGraph then Ret (rg_localRefs reg) else arith int32 (rg_localRefs reg + n));
  g ← (if isGraph then arith int32 (rg_graphRefs reg + n) else Ret (rg_graphRefs reg));
  Ret (MkReg (rg_id reg) (rg_addr reg) (rg_pages reg) l g (rg_state reg) (rg_netHandles reg) (rg_psmNetHandles reg) (rg_regAddr reg) (rg_collnetHandle reg) (rg_ipcInfos reg) (rg_psmIpcInfos reg)).

(** A zeroed record at the address [fresh]. *)
Definition new_reg (fresh addr pages : Z) (isGraph : bool) : ncclReg :=
  MkReg fresh addr pages (if isGraph then 0 else 1) (if isGraph then 1 else 0) 0 [] [] 0 0 [] [].

(** The loop of [ncclRegister]: the slots, the handle and whether a slot was added. *)
Fixpoint register_slot (pageSize addr pages : Z) (isGraph : bool) (fresh : Z) (slots : list ncclReg) : outcome (list ncclReg * Z * bool) :=
  match slots with
  | [] => Ret ([new_reg fresh addr pages isGraph], fresh, true)
  | reg :: rest =>
    if addr <? rg_addr reg then Ret (new_reg fresh addr pages isGraph :: slots, fresh, true)
    else if inside pageSize addr pages reg then reg ← add_refs reg isGraph 1; Ret (reg :: rest, rg_id reg, false)
    else '(rest, h, added) ← register_slot pageSize addr pages isGraph fresh rest; Ret (reg :: rest, h, added)
  end.

(** The capacity when a slot is added to a full cache. *)
Definition grow (cache : ncclRegCache) : outcome Z :=
  if population cache =? ca_capacity cache then (if ca_capacity cache <? 32 then Ret 32 else arith int32 (2 * ca_capacity cache)) else Ret (ca_capacity cache).

Definition ncclRegister (attr : Z -> option ptr_attr) (cudaDev : Z) (comm : user_comm) (cache : ncclRegCache) (data size : Z) (isGraph : bool) (fresh : Z) : outcome (ncclRegCache * Z) :=
  _ ← CommCheck comm;
  let pageSize := ca_pageSize cache in
  _ ← (if uc_checkPointers comm then CudaPtrCheck attr cudaDev data else Ret tt);
  '(slots, h, added) ← register_slot pageSize (page_addr pageSize data) (page_count pageSize data size) isGraph fresh (ca_slots cache);
  cap ← (if added : bool then grow cache else Ret (ca_capacity cache));
  Ret (MkCache slots cap pageSize, h).

(** A handle is 0 when NCCL_LOCAL_REGISTER is off. *)
Definition ncclCommRegister (localRegister : bool) (attr : Z -> option ptr_attr) (cudaDev : Z) (comm : user_comm) (cache : ncclRegCache) (buff size fresh : Z) : outcome (ncclRegCache * Z) :=
  if localRegister then ncclRegister attr cudaDev comm cache buff size false fresh else Ret (cache, 0).
Definition ncclCommGraphRegister (attr : Z -> option ptr_attr) (cudaDev : Z) (comm : user_comm) (cache : ncclRegCache) (buff size fresh : Z) : outcome (ncclRegCache * Z) :=
  ncclRegister attr cudaDev comm cache buff size true fresh.

(** ** Deregistering *)

(** The calls that undo a registration. *)
Inductive dereg_call := DeregPsmNet (handle : Z) | DeregNvls (addr : Z) | DeregCollnet (handle : Z) | DeregIpc (info : Z) | DeregPsmIpc (info : Z).

Definition regCleanup (forceZeroCopy : bool) (reg : ncclReg) : list dereg_call :=
  let has flag := negb (Z.land (rg_state reg) flag =? 0) in
  let infos l := filter (fun i => i <> 0) (take (Z.to_nat NCCL_MAX_LOCAL_RANKS) l) in
  (if has PSM_NET_REG_COMPLETE && negb forceZeroCopy then DeregPsmNet <$> rg_psmNetHandles reg else []) ++
  (if has NVLS_REG_COMPLETE then [DeregNvls (rg_regAddr reg)] else []) ++
  (if has COLLNET_REG_COMPLETE then [DeregCollnet (rg_collnetHandle reg)] else []) ++
  (if has IPC_REG_COMPLETE then DeregIpc <$> infos (rg_ipcInfos reg) else []) ++
  (if has PSM_P2P_REG_COMPLETE && negb forceZeroCopy then DeregPsmIpc <$> infos (rg_psmIpcInfos reg) else []).

Definition ncclRegCleanup (forceZeroCopy : bool) (cache : ncclRegCache) : list dereg_call := ca_slots cache ≫= regCleanup forceZeroCopy.

(** The cache, the current device of the thread, and the calls made so far. *)
Record reg_world := MkWorld { rw_cache : ncclRegCache; rw_dev : Z; rw_calls : list dereg_call }.

(** The reference taken off the record [reg] of the slots. *)
Fixpoint find_handle (reg : Z) (slots : list ncclReg) : option (list ncclReg * ncclReg * list ncclReg) :=
  match slots with
  | [] => None
  | r :: slots => if rg_id r =? reg then Some ([], r, slots) else match find_handle reg slots with Some (pre, x, post) => Some (r :: pre, x, post) | None => None end
  end.

Definition commDeregister (forceZeroCopy : bool) (cudaDev : Z) (comm : user_comm) (isGraph : bool) (reg : Z) (w : reg_world) : outcome (reg_world * ncclResult_t) :=
  _ ← CommCheck comm;
  if reg =? 0 then Ret (w, ncclSuccess)
  else
    let saveDev := rw_dev w in
    let w := MkWorld (rw_cache w) cudaDev (rw_calls w) in
    let cache := rw_cache w in
    match find_handle reg (ca_slots cache) with
    | None => Ret (w, ncclInvalidUsage)
    | Some (pre, r, post) =>
      r ← add_refs r isGraph (-1);
      if negb (rg_localRefs r =? 0) || negb (rg_graphRefs r =? 0) then Ret (MkWorld (with_slots cache (pre ++ r :: post)) (rw_dev w) (rw_calls w), ncclSuccess)
      else Ret (MkWorld (with_slots cache (pre ++ post)) saveDev (rw_calls w ++ regCleanup forceZeroCopy r), ncclSuccess)
    end.

Definition ncclCommDeregister forceZeroCopy cudaDev comm handle w := commDeregister forceZeroCopy cudaDev comm false handle w.
Definition ncclCommGraphDeregister forceZeroCopy cudaDev comm handle w := commDeregister forceZeroCopy cudaDev comm true handle w.

(** ** Pages *)

Section pages.
Context (k : Z) (Hk : 0 <= k < 64).
Let ps := 2 ^ k.

Lemma ps_pos : 0 < ps <= 2 ^ 63.
Proof. split; [apply pow2_pos; lia|apply Z.pow_le_mono_r; lia]. Qed.

Lemma page_addr_div data : 0 <= data < 2 ^ 64 -> page_addr ps data = data / ps * ps.
Proof.
  intros Hd. unfold page_addr, u64. rewrite <- (Z.land_ones (- ps)) by lia. rewrite (Z.land_comm (- ps)), Z.land_assoc, Z.land_ones, Z.mod_small by lia. unfold ps. rewrite land_opp_pow2 by lia. pose proof (Z.div_mod data (2 ^ k) ltac:(apply Z.pow_nonzero; lia)). lia.
Qed.

Lemma page_count_div data size : 0 <= data -> 0 <= size -> data + size + ps <= 2 ^ 64 -> page_count ps data size = (data + size + ps - 1) / ps - data / ps.
Proof.
  intros Hd Hs Hb. pose proof ps_pos. unfold page_count. rewrite page_addr_div by lia. pose proof (Z.div_mod data ps ltac:(lia)). pose proof (Z.mod_pos_bound data ps ltac:(lia)). assert (0 <= data / ps * ps) by (apply Z.mul_nonneg_nonneg; [apply Z.div_pos|]; lia). unfold u64. rewrite Z.mod_small by lia. rewrite quot_div_nonneg by lia.
  replace (data + size - data / ps * ps + ps - 1) with (data + size + ps - 1 + (- (data / ps)) * ps) by lia. rewrite Z.div_add by lia. lia.
Qed.

(** A record of whole pages below the end of memory. *)
Definition reg_ok (reg : ncclReg) : Prop := (ps | rg_addr reg) /\ 0 <= rg_addr reg /\ 0 <= rg_pages reg /\ rg_addr reg + rg_pages reg * ps <= 2 ^ 64.

Lemma floor_ge n x : n <= x / ps <-> n * ps <= x.
Proof.
  pose proof ps_pos. split; intros H'; [|apply Z.div_le_lower_bound; lia]. pose proof (Z.mul_div_le x ps ltac:(lia)). assert (n * ps <= x / ps * ps) by (apply Z.mul_le_mono_nonneg_r; lia). lia.
Qed.

Lemma ceil_le n x : (x + ps - 1) / ps <= n <-> x <= n * ps.
Proof.
  pose proof ps_pos. pose proof (floor_ge (n + 1) (x + ps - 1)) as H'. rewrite Z.mul_add_distr_r in H'. lia.
Qed.

(** The test is about the bytes of the buffer. *)
Lemma inside_spec reg data size : reg_ok reg -> 0 <= data -> 0 <= size -> data + size + ps <= 2 ^ 64 ->
  inside ps (page_addr ps data) (page_count ps data size) reg = true <-> rg_addr reg <= data /\ data + size <= rg_addr reg + rg_pages reg * ps.
Proof.
  intros ([a Ha] & H0 & Hp & He) Hd Hs Hb. pose proof ps_pos as Hps. unfold inside. rewrite page_count_div, page_addr_div by lia. rewrite andb_true_iff, !Z.leb_le, Ha. rewrite <- Z.mul_add_distr_r, <- (floor_ge a data), <- (ceil_le (a + rg_pages reg)).
  set (d := data / ps). set (e := (data + size + ps - 1) / ps). assert (0 <= a) by (apply (Z.mul_le_mono_pos_r 0 a ps); lia). assert (0 <= d) by (unfold d; apply Z.div_pos; lia). assert (d <= e) by (unfold d, e; apply Z.div_le_mono; lia).
  assert (e <= data + size + ps - 1) by (unfold e; apply Z.div_le_upper_bound; nia). rewrite <- Z.mul_sub_distr_r, Z.quot_mul by lia. rewrite <- (Z.mul_le_mono_pos_r a d ps) by lia.
  assert (a <= d -> u64 (d - a + (e - d)) = e - a) as Hu by (intros; unfold u64; rewrite Z.mod_small; lia).
  split; intros [H4 H5]; (split; [done|]); rewrite Hu in * by done; lia.
Qed.

Lemma inside_addr reg addr pages : inside ps addr pages reg = true -> rg_addr reg <= addr.
Proof. unfold inside. rewrite andb_true_iff, Z.leb_le. tauto. Qed.

Lemma new_reg_ok fresh data size isGraph : 0 <= data -> 0 <= size -> data + size + ps <= 2 ^ 64 -> reg_ok (new_reg fresh (page_addr ps data) (page_count ps data size) isGraph).
Proof.
  intros Hd Hs Hb. pose proof ps_pos. unfold reg_ok. cbn [rg_addr rg_pages new_reg]. rewrite page_count_div, page_addr_div by lia. pose proof (Z.div_mod data ps ltac:(lia)). pose proof (Z.mod_pos_bound data ps ltac:(lia)).
  pose proof (Z.div_mod (data + size + ps - 1) ps ltac:(lia)). pose proof (Z.mod_pos_bound (data + size + ps - 1) ps ltac:(lia)). assert (data / ps <= (data + size + ps - 1) / ps) by (apply Z.div_le_mono; lia).
  split_and!; [by exists (data / ps)|apply Z.mul_nonneg_nonneg; [apply Z.div_pos|]; lia|lia|lia].
Qed.

(** ** The loops over the slots *)

Definition before (a b : ncclReg) : Prop := rg_addr a <= rg_addr b.

Lemma find_slot_spec slots data size : StronglySorted before slots -> Forall reg_ok slots -> 0 <= data -> 0 <= size -> data + size + ps <= 2 ^ 64 ->
  match find_slot ps (page_addr ps data) (page_count ps data size) slots with
  | Some reg => reg ∈ slots /\ inside ps (page_addr ps data) (page_count ps data size) reg = true
  | None => forall reg, reg ∈ slots -> inside ps (page_addr ps data) (page_count ps data size) reg = false
  end.
Proof.
  intros Hso Hok Hd Hs Hb. induction Hso as [|reg slots _ IH Hall]; [intros reg H; by apply not_elem_of_nil in H|]. apply Forall_cons in Hok as [Hr Hok]. cbn [find_slot]. specialize (IH Hok). set (addr := page_addr ps data) in *. set (pages := page_count ps data size) in *.
  destruct (Z.ltb_spec addr (rg_addr reg)) as [Hlt|Hge].
  - intros reg' Hin. apply not_true_is_false. intros Hi%inside_addr. apply elem_of_cons in Hin as [->|Hin]; [lia|]. rewrite Forall_forall in Hall. specialize (Hall reg' Hin). unfold before in Hall. lia.
  - destruct (inside ps addr pages reg) eqn:E; [split; [by left|done]|]. destruct (find_slot ps addr pages slots); [destruct IH; split; [by right|done]|]. intros reg' [->|Hin]%elem_of_cons; [done|by apply IH].
Qed.

(** What registering does to the slots: a reference is added to the record
    found, or a new record is put where it belongs. *)
Lemma register_slot_spec slots addr pages isGraph fresh : StronglySorted before slots ->
  match find_slot ps addr pages slots with
  | Some reg => exists pre post, slots = pre ++ reg :: post /\ (forall r, r ∈ pre -> inside ps addr pages r = false) /\ register_slot ps addr pages isGraph fresh slots = (r ← add_refs reg isGraph 1; Ret (pre ++ r :: post, rg_id r, false))
  | None => exists pre post, slots = pre ++ post /\ register_slot ps addr pages isGraph fresh slots = Ret (pre ++ new_reg fresh addr pages isGraph :: post, fresh, true) /\
      StronglySorted before (pre ++ new_reg fresh addr pages isGraph :: post)
  end.
Proof.
  induction 1 as [|reg slots Hso IH Hall]; cbn [find_slot register_slot]; [exists [], []; split_and!; [done|done|repeat constructor]|].
  destruct (Z.ltb_spec addr (rg_addr reg)) as [Hlt|Hge].
  - exists [], (reg :: slots). split_and!; [done|done|]. constructor; [by constructor|]. apply Forall_cons. unfold before. cbn [rg_addr new_reg]. split; [lia|]. eapply Forall_impl; [exact Hall|]. unfold before. intros; lia.
  - destruct (inside ps addr pages reg) eqn:E; [exists [], slots; split_and!; [done| |done]; intros r Hr; by apply not_elem_of_nil in Hr|]. destruct (find_slot ps addr pages slots) as [x|].
    + destruct IH as (pre & post & -> & Hpre & ->). exists (reg :: pre), post. split; [done|]. split; [intros r [->|Hr]%elem_of_cons; [done|by apply Hpre]|]. by destruct (add_refs x isGraph 1).
    + destruct IH as (pre & post & -> & -> & Hso'). exists (reg :: pre), post. split_and!; [done|done|]. constructor; [done|]. apply Forall_app in Hall as [H1 H2]. apply Forall_app. split; [done|]. apply Forall_cons. split; [by unfold before|done].
Qed.
End pages.

Lemma find_handle_spec h slots :
  match find_handle h slots with
  | Some (pre, r, post) => slots = pre ++ r :: post /\ rg_id r = h
  | None => forall r, r ∈ slots -> rg_id r <> h
  end.
Proof.
  induction slots as [|x slots IH]; [intros r Hr; by apply not_elem_of_nil in Hr|]. cbn [find_handle]. destruct (Z.eqb_spec (rg_id x) h) as [E|E]; [done|].
  destruct (find_handle h slots) as [[[pre r] post]|]; [destruct IH as [-> Hr]; by split|]. intros r [->|Hr]%elem_of_cons; [done|by apply IH].
Qed.

(** ** What the cache promises *)

(** A registered range of bytes with its references. *)
Record range := MkRange { ra_lo : Z; ra_hi : Z; ra_local : Z; ra_graph : Z }.

Definition covers (a : range) (data size : Z) : Prop := ra_lo a <= data /\ data + size <= ra_hi a.
Definition bump (a : range) (isGraph : bool) (n : Z) : range := MkRange (ra_lo a) (ra_hi a) (if isGraph then ra_local a else ra_local a + n) (if isGraph then ra_graph a + n else ra_graph a).

Inductive rop := Register (isGraph : bool) (data size fresh : Z) | Deregister (isGraph : bool) (handle : Z) | Find (data size : Z).
Inductive rres := GotHandle (h : Z) | GotResult (r : ncclResult_t) | GotRecord (h : option Z).

(** Ranges by handle.  A range is shared by what is inside; else it is the pages
    of the buffer. *)
Definition rspec (ps : Z) (M : gmap Z range) (op : rop) (M' : gmap Z range) (r : rres) : Prop :=
  match op with
  | Register isGraph data size fresh => exists h, r = GotHandle h /\
      ((exists a, M !! h = Some a /\ covers a data size /\ M' = <[h := bump a isGraph 1]> M) \/
       (h = fresh /\ (forall h a, M !! h = Some a -> ~ covers a data size) /\
        M' = <[h := bump (MkRange (data / ps * ps) ((data + size + ps - 1) / ps * ps) 0 0) isGraph 1]> M))
  | Deregister isGraph h =>
      if h =? 0 then r = GotResult ncclSuccess /\ M' = M
      else match M !! h with
        | None => r = GotResult ncclInvalidUsage /\ M' = M
        | Some a => let a := bump a isGraph (-1) in
            r = GotResult ncclSuccess /\ M' = if (ra_local a =? 0) && (ra_graph a =? 0) then delete h M else <[h := a]> M
        end
  | Find data size => M' = M /\ exists o, r = GotRecord o /\
      match o with Some h => exists a, M !! h = Some a /\ covers a data size | None => forall h a, M !! h = Some a -> ~ covers a data size end
  end.

(** The operations on the cache of a sound communicator on device [cudaDev]. *)
Definition rstep (comm : user_comm) (cudaDev : Z) (w : reg_world) (op : rop) : outcome (reg_world * rres) :=
  match op with
  | Register isGraph data size fresh =>
      '(cache, h) ← ncclRegister (fun _ => Some (MkPtrAttr 1 true cudaDev)) cudaDev comm (rw_cache w) data size isGraph fresh; Ret (MkWorld cache (rw_dev w) (rw_calls w), GotHandle h)
  | Deregister isGraph h => '(w, r) ← commDeregister false cudaDev comm isGraph h w; Ret (w, GotResult r)
  | Find data size => Ret (w, GotRecord (rg_id <$> ncclRegFind (rw_cache w) data size))
  end.

(** Buffers are in memory, and the allocator gives an address not in use. *)
Definition op_valid (w : reg_world) (op : rop) : Prop :=
  let buffer data size := 0 <= data /\ 0 <= size /\ data + size + ca_pageSize (rw_cache w) <= 2 ^ 64 in
  match op with
  | Register _ data size fresh => buffer data size /\ fresh <> 0 /\ fresh ∉ rg_id <$> ca_slots (rw_cache w)
  | Deregister _ _ => True
  | Find data size => buffer data size
  end.

(** ** Representation *)

Definition abs (ps : Z) (reg : ncclReg) : range := MkRange (rg_addr reg) (rg_addr reg + rg_pages reg * ps) (rg_localRefs reg) (rg_graphRefs reg).
Definition ranges (ps : Z) (slots : list ncclReg) : gmap Z range := list_to_map ((fun reg => (rg_id reg, abs ps reg)) <$> slots).

Record cache_inv (k : Z) (w : reg_world) (n : Z) : Prop := {
  ci_page : 0 <= k < 64 /\ ca_pageSize (rw_cache w) = 2 ^ k;
  ci_sorted : StronglySorted before (ca_slots (rw_cache w));
  ci_ok : Forall (reg_ok k) (ca_slots (rw_cache w));
  ci_ids : NoDup (rg_id <$> ca_slots (rw_cache w));
  ci_refs : Forall (fun reg => - n <= rg_localRefs reg <= n /\ - n <= rg_graphRefs reg <= n) (ca_slots (rw_cache w));
  ci_count : 0 <= n /\ population (rw_cache w) <= n /\ population (rw_cache w) <= ca_capacity (rw_cache w) <= Z.max 32 (2 * n);
}.

Lemma ranges_fst ps slots : ((fun reg => (rg_id reg, abs ps reg)) <$> slots).*1 = rg_id <$> slots.
Proof. rewrite <- list_fmap_compose. done. Qed.

Lemma ranges_lookup ps slots h a : NoDup (rg_id <$> slots) -> ranges ps slots !! h = Some a <-> exists reg, reg ∈ slots /\ rg_id reg = h /\ abs ps reg = a.
Proof.
  intros Hnd. unfold ranges. rewrite <- elem_of_list_to_map by (by rewrite ranges_fst). rewrite list_elem_of_fmap. split; [intros (reg & [= -> ->] & Hr); by exists reg|intros (reg & Hr & <- & <-); by exists reg].
Qed.

Lemma ranges_app ps pre post : ranges ps (pre ++ post) = ranges ps pre ∪ ranges ps post.
Proof. unfold ranges. by rewrite fmap_app, list_to_map_app. Qed.

Lemma ranges_cons ps r post : ranges ps (r :: post) = <[rg_id r := abs ps r]> (ranges ps post).
Proof. done. Qed.

Lemma ranges_not ps slots h : h ∉ rg_id <$> slots -> ranges ps slots !! h = None.
Proof. intros H. unfold ranges. apply not_elem_of_list_to_map_1. by rewrite ranges_fst. Qed.

Lemma ranges_middle ps pre r post : rg_id r ∉ rg_id <$> pre -> ranges ps (pre ++ r :: post) = <[rg_id r := abs ps r]> (ranges ps (pre ++ post)).
Proof. intros H. rewrite !ranges_app, ranges_cons. symmetry. apply insert_union_r. by apply ranges_not. Qed.

Lemma ids_middle pre r post : NoDup (rg_id <$> pre ++ r :: post) -> rg_id r ∉ rg_id <$> pre /\ rg_id r ∉ rg_id <$> pre ++ post /\ NoDup (rg_id <$> pre ++ post).
Proof.
  rewrite !fmap_app, fmap_cons. intros (H1 & H2 & [H3 H4]%NoDup_cons)%NoDup_app. split; [intros H; apply (H2 _ H); by left|]. split; [rewrite not_elem_of_app; split; [intros H; apply (H2 _ H); by left|done]|].
  apply NoDup_app. split_and!; [done| |done]. intros x Hx Hx'. apply (H2 x Hx). by right.
Qed.

Lemma ranges_delete ps pre r post : NoDup (rg_id <$> pre ++ r :: post) -> delete (rg_id r) (ranges ps (pre ++ r :: post)) = ranges ps (pre ++ post).
Proof. intros (H1 & H2 & _)%ids_middle. rewrite ranges_middle by done. apply delete_insert_id. by apply ranges_not. Qed.

Lemma ranges_replace ps pre r r' post : rg_id r' = rg_id r -> NoDup (rg_id <$> pre ++ r :: post) -> ranges ps (pre ++ r' :: post) = <[rg_id r := abs ps r']> (ranges ps (pre ++ r :: post)).
Proof. intros E (H1 & H2 & _)%ids_middle. rewrite !ranges_middle by (by rewrite ?E). by rewrite E, insert_insert_eq. Qed.

(** ** Steps *)

Lemma add_refs_spec ps reg isGraph n : -1 <= n <= 1 -> - 2 ^ 30 <= rg_localRefs reg <= 2 ^ 30 -> - 2 ^ 30 <= rg_graphRefs reg <= 2 ^ 30 ->
  exists r, add_refs reg isGraph n = Ret r /\ rg_id r = rg_id reg /\ rg_addr r = rg_addr reg /\ rg_pages r = rg_pages reg /\ abs ps r = bump (abs ps reg) isGraph n.
Proof.
  intros Hn Hl Hg. unfold add_refs. destruct isGraph; cbn [mbind outcome_bind]; rewrite arith_in_range by (unfold in_range, int32; simpl; lia); cbn [mbind outcome_bind]; eexists; (split; [reflexivity|]); done.
Qed.

Definition refs_ok (n : Z) (reg : ncclReg) : Prop := - n <= rg_localRefs reg <= n /\ - n <= rg_graphRefs reg <= n.

Lemma refs_bump ps n r r' isGraph d : refs_ok n r -> -1 <= d <= 1 -> abs ps r' = bump (abs ps r) isGraph d -> refs_ok (n + 1) r'.
Proof. unfold refs_ok, abs, bump. intros [H1 H2] Hd [= _ _ -> ->]. destruct isGraph; lia. Qed.

Lemma refs_weaken n slots : Forall (refs_ok n) slots -> Forall (refs_ok (n + 1)) slots.
Proof. intros H. eapply Forall_impl; [exact H|]. unfold refs_ok. intros; lia. Qed.

(** Replacing a record by one of the same place. *)
Lemma sorted_replace pre r r' post : rg_addr r' = rg_addr r -> StronglySorted before (pre ++ r :: post) -> StronglySorted before (pre ++ r' :: post).
Proof.
  intros E. induction pre as [|x pre IH]; cbn [app]; intros [H1 H2]%StronglySorted_inv.
  - constructor; [done|]. eapply Forall_impl; [exact H2|]. unfold before. by rewrite E.
  - constructor; [by apply IH|]. apply Forall_app in H2 as [H3 [H4 H5]%Forall_cons]. apply Forall_app. split; [done|]. apply Forall_cons. split; [|done]. unfold before in *. by rewrite E.
Qed.

Lemma sorted_delete pre r post : StronglySorted before (pre ++ r :: post) -> StronglySorted before (pre ++ post).
Proof.
  induction pre as [|x pre IH]; cbn [app]; intros [H1 H2]%StronglySorted_inv; [done|]. constructor; [by apply IH|]. apply Forall_app in H2 as [H3 [H4 H5]%Forall_cons]. by apply Forall_app.
Qed.

Section steps.
Context (comm : user_comm) (cudaDev k : Z) (Hcomm : CommCheck comm = Ret tt).
Let ps := 2 ^ k.

Lemma covers_abs reg data size : 0 <= k < 64 -> reg_ok k reg -> 0 <= data -> 0 <= size -> data + size + ps <= 2 ^ 64 ->
  covers (abs ps reg) data size <-> inside ps (page_addr ps data) (page_count ps data size) reg = true.
Proof. intros. unfold covers, abs. cbn [ra_lo ra_hi]. symmetry. by apply inside_spec. Qed.

Lemma no_range slots data size : 0 <= k < 64 -> NoDup (rg_id <$> slots) -> Forall (reg_ok k) slots -> 0 <= data -> 0 <= size -> data + size + ps <= 2 ^ 64 ->
  (forall reg, reg ∈ slots -> inside ps (page_addr ps data) (page_count ps data size) reg = false) -> forall h a, ranges ps slots !! h = Some a -> ~ covers a data size.
Proof.
  intros Hk Hnd Hok Hd Hs Hb Hno h a (reg & Hr & _ & <-)%ranges_lookup Hc; [|done]. rewrite Forall_forall in Hok. apply covers_abs in Hc; [|by auto..]. by rewrite Hno in Hc.
Qed.

Lemma find_sim w n data size : cache_inv k w n -> op_valid w (Find data size) -> rspec ps (ranges ps (ca_slots (rw_cache w))) (Find data size) (ranges ps (ca_slots (rw_cache w))) (GotRecord (rg_id <$> ncclRegFind (rw_cache w) data size)).
Proof.
  intros [(Hk & Hps) Hso Hok Hnd _ _] (Hd & Hs & Hb). cbn [rspec]. split; [done|]. eexists. split; [reflexivity|]. unfold ncclRegFind. rewrite Hps in *. fold ps in Hb |- *. pose proof (find_slot_spec k Hk _ data size Hso Hok Hd Hs Hb) as Hf. fold ps in Hf.
  destruct (find_slot ps _ _ _) as [reg|]; cbn [fmap option_fmap option_map]; [|by apply no_range]. destruct Hf as [Hin Hi]. exists (abs ps reg). split; [apply ranges_lookup; [done|]; by exists reg|]. apply covers_abs; [done|by eapply Forall_forall|done..].
Qed.

Lemma register_sim w n isGraph data size fresh : cache_inv k w n -> n < 2 ^ 29 -> op_valid w (Register isGraph data size fresh) ->
  wp (rstep comm cudaDev w (Register isGraph data size fresh)) (fun '(w', r) => rspec ps (ranges ps (ca_slots (rw_cache w))) (Register isGraph data size fresh) (ranges ps (ca_slots (rw_cache w'))) r /\ cache_inv k w' (n + 1)).
Proof.
  intros [(Hk & Hps) Hso Hok Hnd Hrf (Hn0 & Hpop & Hcap)] Hn ((Hd & Hs & Hb) & Hf0 & Hfr). cbn [rstep]. unfold ncclRegister. rewrite Hcomm. cbn [mbind outcome_bind]. rewrite Hps in *. fold ps in Hb |- *.
  assert ((if uc_checkPointers comm then CudaPtrCheck (fun _ => Some (MkPtrAttr 1 true cudaDev)) cudaDev data else Ret tt) = Ret tt) as -> by (destruct (uc_checkPointers comm); [|done]; unfold CudaPtrCheck; cbn; by rewrite Z.eqb_refl).
  cbn [mbind outcome_bind]. set (addr := page_addr ps data). set (pages := page_count ps data size). pose proof (find_slot_spec k Hk _ data size Hso Hok Hd Hs Hb) as Hf. pose proof (register_slot_spec k Hk (ca_slots (rw_cache w)) addr pages isGraph fresh Hso) as Hr. fold ps addr pages in Hf, Hr.
  destruct (find_slot ps addr pages (ca_slots (rw_cache w))) as [reg|].
  - destruct Hr as (pre & post & Es & _ & ->). destruct Hf as [_ Hi]. rewrite Es in *. apply Forall_app in Hrf as [R1 [R2 R3]%Forall_cons]. apply Forall_app in Hok as [O1 [O2 O3]%Forall_cons].
    destruct (add_refs_spec ps reg isGraph 1) as (r & -> & E1 & E2 & E3 & E4); [lia|lia|lia|]. cbn [mbind outcome_bind wpx rw_cache ca_slots]. split.
    + exists (rg_id r). split; [done|]. left. exists (abs ps reg). rewrite E1, <- E4. split_and!; [apply ranges_lookup; [done|]; exists reg; split; [set_solver|done]|apply covers_abs; done|by apply ranges_replace].
    + split; cbn [rw_cache ca_slots ca_pageSize ca_capacity]; [done|by eapply sorted_replace| | | |].
      * apply Forall_app. split; [done|]. apply Forall_cons. split; [|done]. unfold reg_ok. by rewrite E2, E3.
      * revert Hnd. by rewrite !fmap_app, !fmap_cons, E1.
      * apply (refs_weaken n) in R1, R3. apply Forall_app. split; [done|]. apply Forall_cons. split; [|done]. by apply (refs_bump ps n reg r isGraph 1); [|lia|].
      * unfold population in *. cbn [ca_slots] in *. rewrite Es in *. rewrite !length_app in *. cbn [length] in *. lia.
  - destruct Hr as (pre & post & Es & -> & Hso'). cbn [mbind outcome_bind].
    assert (exists cap, grow (rw_cache w) = Ret cap /\ population (rw_cache w) < cap <= Z.max 32 (2 * (n + 1))) as (cap & -> & Hcap').
    { unfold grow. destruct (Z.eqb_spec (population (rw_cache w)) (ca_capacity (rw_cache w))); [|exists (ca_capacity (rw_cache w)); split; [done|lia]]. destruct (Z.ltb_spec (ca_capacity (rw_cache w)) 32); [exists 32; split; [done|lia]|].
      rewrite arith_in_range by (unfold in_range, int32; simpl; lia). eexists. split; [done|]. lia. }
    cbn [mbind outcome_bind wpx rw_cache ca_slots]. set (r := new_reg fresh addr pages isGraph) in *. rewrite Es in *. split.
    + exists fresh. split; [done|]. right. split; [done|]. split; [by apply no_range|]. rewrite (ranges_middle ps pre r post) by (rewrite fmap_app in Hfr; set_solver). cbn [rg_id r new_reg]. f_equal. unfold abs, bump, r. cbn [rg_addr rg_pages rg_localRefs rg_graphRefs new_reg ra_lo ra_hi ra_local ra_graph].
      unfold addr, pages, ps. rewrite page_addr_div, page_count_div by (done || lia). fold ps. rewrite <- Z.mul_add_distr_r. f_equal; [f_equal; lia|by destruct isGraph..].
    + split; cbn [rw_cache ca_slots ca_pageSize ca_capacity]; [done|done| | | |].
      * apply Forall_app in Hok as [O1 O2]. apply Forall_app. split; [done|]. apply Forall_cons. split; [by apply new_reg_ok|done].
      * revert Hnd Hfr. rewrite !fmap_app, fmap_cons. cbn [rg_id r new_reg]. intros Hnd Hfr. rewrite <- Permutation_middle. by constructor.
      * apply (refs_weaken n) in Hrf. apply Forall_app in Hrf as [R1 R2]. apply Forall_app. split; [done|]. apply Forall_cons. split; [|done]. unfold r, refs_ok. cbn. destruct isGraph; lia.
      * unfold population in *. cbn [ca_slots] in *. rewrite Es in *. rewrite !length_app in *. cbn [length] in *. lia.
Qed.
Lemma deregister_sim w n isGraph h : cache_inv k w n -> n < 2 ^ 29 ->
  wp (rstep comm cudaDev w (Deregister isGraph h)) (fun '(w', r) => rspec ps (ranges ps (ca_slots (rw_cache w))) (Deregister isGraph h) (ranges ps (ca_slots (rw_cache w'))) r /\ cache_inv k w' (n + 1)).
Proof.
  intros Hinv Hn. assert (cache_inv k w (n + 1)) as Hinv' by (destruct Hinv as [H1 H2 H3 H4 H5 H6]; split; [done..|by apply (refs_weaken n)|lia]).
  destruct Hinv as [(Hk & Hps) Hso Hok Hnd Hrf (Hn0 & Hpop & Hcap)]. cbn [rstep rspec]. unfold commDeregister. rewrite Hcomm. cbn [mbind outcome_bind]. destruct (Z.eqb_spec h 0) as [->|Hh]; [by split|].
  cbn [rw_cache rw_dev rw_calls]. pose proof (find_handle_spec h (ca_slots (rw_cache w))) as Hf. destruct (find_handle h (ca_slots (rw_cache w))) as [[[pre reg] post]|].
  - destruct Hf as [Es Eid]. rewrite Es in *. apply Forall_app in Hrf as [R1 [R2 R3]%Forall_cons]. apply Forall_app in Hok as [O1 [O2 O3]%Forall_cons].
    destruct (add_refs_spec ps reg isGraph (-1)) as (r & -> & E1 & E2 & E3 & E4); [lia|lia|lia|]. cbn [mbind outcome_bind].
    assert (ranges ps (pre ++ reg :: post) !! h = Some (abs ps reg)) as Hl by (apply ranges_lookup; [done|]; exists reg; split; [set_solver|done]).
    assert (ra_local (bump (abs ps reg) isGraph (-1)) = rg_localRefs r /\ ra_graph (bump (abs ps reg) isGraph (-1)) = rg_graphRefs r) as [El Eg] by (by rewrite <- E4).
    rewrite <- (negb_involutive (negb _ || _)), negb_orb, !negb_involutive. destruct ((rg_localRefs r =? 0) && (rg_graphRefs r =? 0)) eqn:Ez; cbn [negb wpx mbind outcome_bind rw_cache ca_slots with_slots]; rewrite Hl, El, Eg, Ez; (split; [split; [done|]|split; cbn [rw_cache ca_slots ca_pageSize ca_capacity with_slots]]).
    + rewrite <- Eid. symmetry. by apply ranges_delete.
    + done.
    + by eapply sorted_delete.
    + by apply Forall_app.
    + by apply ids_middle in Hnd as (_ & _ & ?).
    + apply (refs_weaken n) in R1, R3. by apply Forall_app.
    + unfold population, with_slots in *. cbn [ca_slots] in *. rewrite Es in *. rewrite !length_app in *. cbn [length] in *. lia.
    + rewrite <- E4, <- Eid. by apply ranges_replace.
    + done.
    + by eapply sorted_replace.
    + apply Forall_app. split; [done|]. apply Forall_cons. split; [|done]. unfold reg_ok. by rewrite E2, E3.
    + revert Hnd. by rewrite !fmap_app, !fmap_cons, E1.
    + apply (refs_weaken n) in R1, R3. apply Forall_app. split; [done|]. apply Forall_cons. split; [|done]. by apply (refs_bump ps n reg r isGraph (-1)); [|lia|].
    + unfold population, with_slots in *. cbn [ca_slots] in *. rewrite Es in *. rewrite !length_app in *. cbn [length] in *. lia.
  - cbn [mbind outcome_bind wpx rw_cache]. assert (ranges ps (ca_slots (rw_cache w)) !! h = None) as ->; [|split; [done|]; destruct Hinv' as [H1 H2 H3 H4 H5 H6]; by split].
    apply ranges_not. intros (r & -> & Hr)%list_elem_of_fmap. by apply (Hf r).
Qed.

Lemma step_sim w n op : cache_inv k w n -> n < 2 ^ 29 -> op_valid w op ->
  wp (rstep comm cudaDev w op) (fun '(w', r) => rspec ps (ranges ps (ca_slots (rw_cache w))) op (ranges ps (ca_slots (rw_cache w'))) r /\ cache_inv k w' (n + 1)).
Proof.
  intros Hi Hn Ho. destruct op as [g d s f|g h|d s]; [by apply register_sim|by apply deregister_sim|]. cbn [rstep wpx]. split; [by eapply find_sim|]. destruct Hi as [H1 H2 H3 H4 H5 H6]; split; [done..|by apply (refs_weaken n)|lia].
Qed.
End steps.

(** ** Runs *)

Inductive rexec (comm : user_comm) (cudaDev : Z) : reg_world -> list (rop * rres) -> reg_world -> Prop :=
  | rexec_nil w : rexec comm cudaDev w [] w
  | rexec_cons w op r w1 tr w2 : op_valid w op -> rstep comm cudaDev w op = Ret (w1, r) -> rexec comm cudaDev w1 tr w2 -> rexec comm cudaDev w ((op, r) :: tr) w2.

Fixpoint rtrace (ps : Z) (M : gmap Z range) (tr : list (rop * rres)) (M' : gmap Z range) : Prop :=
  match tr with [] => M' = M | (op, r) :: tr => exists M1, rspec ps M op M1 r /\ rtrace ps M1 tr M' end.

Definition empty_world (k dev : Z) : reg_world := MkWorld (MkCache [] 0 (2 ^ k)) dev [].

Lemma rexec_sim comm cudaDev k w tr w' n : CommCheck comm = Ret tt -> rexec comm cudaDev w tr w' -> cache_inv k w n -> n + Z.of_nat (length tr) <= 2 ^ 29 ->
  rtrace (2 ^ k) (ranges (2 ^ k) (ca_slots (rw_cache w))) tr (ranges (2 ^ k) (ca_slots (rw_cache w'))) /\ cache_inv k w' (n + Z.of_nat (length tr)).
Proof.
  intros Hc He. revert n. induction He as [w|w op r w1 tr w2 Ho Hst _ IH]; intros n Hi Hn; [by rewrite Z.add_0_r|]. cbn [length] in *.
  pose proof (step_sim comm cudaDev k Hc w n op Hi ltac:(lia) Ho) as Hs. rewrite Hst in Hs. destruct Hs as [Hs Hi1]. destruct (IH (n + 1) Hi1 ltac:(lia)) as [Ht Hi2]. split; [cbn [rtrace]; by eexists|]. by replace (n + Z.of_nat (S (length tr))) with (n + 1 + Z.of_nat (length tr)) by lia.
Qed.

(** (C12) The cache of registered buffers refines a finite map from handles to
    ranges of bytes with their references.  After any number of operations on an
    empty cache the results are those of the map: registering shares a range that
    contains the buffer, if there is one, and else makes one of the buffer's pages;
    deregistering takes a reference off and drops the range with the last one, and
    fails exactly on unknown handles; the search over the sorted slots finds a range that
    contains the buffer exactly if there is one.  The slots stay sorted, and every
    further operation has a result. *)
Theorem regCache_refines comm cudaDev k dev tr w : CommCheck comm = Ret tt -> 0 <= k < 64 -> Z.of_nat (length tr) < 2 ^ 29 -> rexec comm cudaDev (empty_world k dev) tr w ->
  (exists M, rtrace (2 ^ k) ∅ tr M) /\ StronglySorted before (ca_slots (rw_cache w)) /\ NoDup (rg_id <$> ca_slots (rw_cache w)) /\
  forall op, op_valid w op -> exists w' r, rstep comm cudaDev w op = Ret (w', r).
Proof.
  intros Hc Hk Hn He. assert (cache_inv k (empty_world k dev) 0) as H0 by (split; cbn; try done; constructor).
  destruct (rexec_sim comm cudaDev k _ tr w 0 Hc He H0 ltac:(lia)) as [Ht Hi]. split; [by eexists|]. split; [apply Hi|]. split; [apply Hi|]. intros op Ho.
  destruct (wp_elim _ _ (step_sim comm cudaDev k Hc w _ op Hi ltac:(lia) Ho)) as ([w' r] & E & _). by exists w', r.
Qed.

(** The thread's device is changed while a record is looked for, and is changed
    back only when the record goes. *)
Lemma commDeregister_device comm cudaDev isGraph h w w' r : h <> 0 -> commDeregister false cudaDev comm isGraph h w = Ret (w', r) ->
  rw_dev w' = if bool_decide (length (ca_slots (rw_cache w')) = length (ca_slots (rw_cache w))) then cudaDev else rw_dev w.
Proof.
  intros Hh. unfold commDeregister. destruct (CommCheck comm); [|done|done]. cbn [mbind outcome_bind]. rewrite (proj2 (Z.eqb_neq _ _) Hh). cbn [rw_cache rw_dev rw_calls]. pose proof (find_handle_spec h (ca_slots (rw_cache w))) as Hf.
  destruct (find_handle h _) as [[[pre reg] post]|]; [|intros [= <- <-]; cbn; by rewrite bool_decide_true]. destruct Hf as [Es _]. destruct (add_refs reg isGraph (-1)) as [x| |]; [|done|done]. cbn [mbind outcome_bind].
  destruct (_ || _); intros [= <- <-]; cbn [rw_dev rw_cache ca_slots with_slots]; rewrite Es, !length_app; cbn [length]; [by rewrite bool_decide_true|rewrite bool_decide_false; [done|lia]].
Qed.

(** A buffer, one inside it, a larger one at the same place; lookups; the shared
    record goes with its second reference. *)
Definition sample_rops : list (rop * rres) :=
  [(Register false 8192 4096 100, GotHandle 100); (Register true 8200 100 101, GotHandle 100); (Register false 8192 5000 102, GotHandle 102);
   (Find 8292 4500, GotRecord (Some 102)); (Find 4096 1, GotRecord None); (Deregister false 100, GotResult ncclSuccess); (Deregister true 100, GotResult ncclSuccess);
   (Deregister true 100, GotResult ncclInvalidUsage); (Find 8192 10, GotRecord (Some 102))].

Lemma regCache_refines_witness : CommCheck (new_comm 4096 0 3 true) = Ret tt /\ exists w, rexec (new_comm 4096 0 3 true) 1 (empty_world 12 0) sample_rops w /\ (exists M, rtrace 4096 ∅ sample_rops M) /\ rw_dev w = 1.
Proof.
  assert (CommCheck (new_comm 4096 0 3 true) = Ret tt) as Hc by reflexivity. split; [done|].
  assert (exists w, rexec (new_comm 4096 0 3 true) 1 (empty_world 12 0) sample_rops w /\ rw_dev w = 1) as (w & He & Hd).
  { eexists. split; [|shelve]. unfold sample_rops. repeat (eapply rexec_cons; [cbn; try tauto; repeat split; try lia; try set_solver|vm_compute; reflexivity|]); try apply rexec_nil. Unshelve. all: reflexivity. }
  exists w. split; [done|]. split; [|done]. apply (regCache_refines (new_comm 4096 0 3 true) 1 12 0 sample_rops w Hc); [lia|vm_compute; reflexivity|exact He].
Defined.
