(* ===== verification/CollReg.v ===== *)
(** * Registration of the buffers of a collective (src/src/register/coll_reg.cc)

    Before a collective is launched its buffers may be registered with the
    transports its algorithm uses: NVLS multicast, the network, or the other
    ranks of the node.  The functions decide what is tried, and write the outcome
    into the task; the calls that map and pin memory are parameters. *)
From S2P Require Import Prelude Bitops Device RingAlgo UserOps ProxyOp Chunking RegCache.

Definition NCCL_REGULAR_BUFFER : Z := 0.
Definition NCCL_DIRECT_NIC : Z := 4.

(** The fields of [ncclTaskColl] the scheduler does not read: the operator's
    argument, and the addresses other ranks see the buffers at. *)
Record coll_task := MkCollTask {
  ct_task : ncclTaskColl; ct_scalarArg : Z; ct_scalarArgIsPtr : bool;
  ct_sendbuffOffset : Z; ct_recvbuffOffset : Z; ct_sendbuffRmtAddrs : Z; ct_recvbuffRmtAddrs : Z }.

Definition with_task (t : coll_task) (x : ncclTaskColl) : coll_task :=
  MkCollTask x (ct_scalarArg t) (ct_scalarArgIsPtr t) (ct_sendbuffOffset t) (ct_recvbuffOffset t) (ct_sendbuffRmtAddrs t) (ct_recvbuffRmtAddrs t).

(** The fields written by registration. *)
Definition set_reg (t : ncclTaskColl) (regBufType nMaxChannels nCleanup sendMhandle recvMhandle : Z) (sendH recvH srecvH : list Z) : ncclTaskColl :=
  MkTaskColl (t_id t) (t_func t) (t_sendbuff t) (t_recvbuff t) (t_count t) (t_root t) (t_datatype t) (t_opHost t) (t_opDev t) (t_chunkSteps t) (t_sliceSteps t)
    (t_trafficBytes t) nMaxChannels (t_nWarps t) (t_algorithm t) (t_protocol t) (t_isCollnet t) (t_isNvls t) (t_devFuncId t) regBufType
    nCleanup sendMhandle recvMhandle sendH recvH srecvH (t_eActivationMask t).
Definition set_regBufType (t : ncclTaskColl) (v : Z) : ncclTaskColl :=
  set_reg t v (t_nMaxChannels t) (t_nCleanupQueueElts t) (t_sendMhandle t) (t_recvMhandle t) (t_sendNetHandles t) (t_recvNetHandles t) (t_srecvNetHandles t).
Definition or_regBufType (t : ncclTaskColl) (v : Z) : ncclTaskColl := set_regBufType t (Z.lor (t_regBufType t) v).
Definition set_nMaxChannels (t : ncclTaskColl) (v : Z) : ncclTaskColl :=
  set_reg t (t_regBufType t) (conv int8 v) (t_nCleanupQueueElts t) (t_sendMhandle t) (t_recvMhandle t) (t_sendNetHandles t) (t_recvNetHandles t) (t_srecvNetHandles t).
Definition add_cleanups (t : ncclTaskColl) (n : Z) : ncclTaskColl :=
  set_reg t (t_regBufType t) (t_nMaxChannels t) (t_nCleanupQueueElts t + n) (t_sendMhandle t) (t_recvMhandle t) (t_sendNetHandles t) (t_recvNetHandles t) (t_srecvNetHandles t).
Definition set_mhandles (t : ncclTaskColl) (s r : Z) : ncclTaskColl :=
  set_reg t (t_regBufType t) (t_nMaxChannels t) (t_nCleanupQueueElts t) s r (t_sendNetHandles t) (t_recvNetHandles t) (t_srecvNetHandles t).
Definition set_netHandles (t : ncclTaskColl) (s r sr : list Z) : ncclTaskColl :=
  set_reg t (t_regBufType t) (t_nMaxChannels t) (t_nCleanupQueueElts t) (t_sendMhandle t) (t_recvMhandle t) s r sr.

(** A connector: whether it is connected, and the flags of its connection. *)
Record reg_conn := MkRegConn { rn_connected : bool; rn_flags : Z; rn_id : Z }.

(** The parts of [ncclComm] and the parameters that are read; trees as [up] and
    the three [down]; [kr_canConnect] asks the P2P transport about a peer, on the graph
    of the task's algorithm. *)
Record creg_comm := MkCregComm {
  kr_nRanks : Z; kr_nNodes : Z; kr_nChannels : Z; kr_localRegister : bool; kr_graphRegister : bool; kr_persistent : bool;
  kr_nvlsRegSupport : bool; kr_compCap : Z; kr_minCTAs : Z; kr_maxCTAs : Z; kr_isOneRPN : bool; kr_intraNodeP2pSupport : bool;
  kr_useNetPXN : bool; kr_useGdr : bool; kr_netUnpack : bool;
  kr_directUp : list Z; kr_directDown : list Z; kr_rings : list (Z * Z); kr_trees : list (Z * list Z); kr_chains : list (Z * list Z);
  kr_recv : Z -> Z -> reg_conn; kr_send : Z -> Z -> reg_conn; kr_canConnect : Z -> option bool }.

(** The direction of a CollNet connection. *)
Inductive collnet_dir := collNetSend | collNetRecv.

(** The calls of the transports, over a state [R] of their own: the flag, what is
    written through the pointers, and the callbacks added to the cleanup queue. *)
Record reg_calls (R : Type) := MkRegCalls {
  kc_nvlsGraph : R -> Z -> Z -> Z -> Z -> R * (bool * Z * Z * list Z);
  kc_nvlsLocal : R -> Z -> Z -> Z -> Z -> R * (bool * Z * Z);
  kc_collnetGraph : R -> Z -> Z -> collnet_dir -> R * (bool * Z * list Z);
  kc_collnetLocal : R -> Z -> Z -> collnet_dir -> R * (bool * Z);
  kc_ipcGraph : R -> Z -> Z -> list Z -> R * (bool * Z * Z * list Z);
  kc_ipcLocal : R -> Z -> Z -> list Z -> R * (bool * Z * Z);
  kc_netGraph : R -> Z -> Z -> list (option Z) -> R * (bool * list Z * list Z);
  kc_netLocal : R -> Z -> Z -> list (option Z) -> R * (bool * list Z);
  kc_cache : R -> ncclRegCache }.
Arguments kc_nvlsGraph {R}. Arguments kc_nvlsLocal {R}. Arguments kc_collnetGraph {R}. Arguments kc_collnetLocal {R}.
Arguments kc_ipcGraph {R}. Arguments kc_ipcLocal {R}. Arguments kc_netGraph {R}. Arguments kc_netLocal {R}. Arguments kc_cache {R}.

(** The task, the transports' state, the cleanup queue, and what is written to
    [regNeedConnect] and to the first entries of [outRegBufSend] and [outRegBufRecv]. *)
Record creg (R : Type) := MkCreg { cg_task : coll_task; cg_state : R; cg_cleanup : list Z; cg_needConnect : bool; cg_send0 : Z; cg_recv0 : Z }.
Arguments MkCreg {R}. Arguments cg_task {R}. Arguments cg_state {R}. Arguments cg_cleanup {R}. Arguments cg_needConnect {R}. Arguments cg_send0 {R}. Arguments cg_recv0 {R}.

Section reg.
Context {R : Type} (calls : reg_calls R) (comm : creg_comm).

(** ** Calls *)

Definition on_task (f : ncclTaskColl -> ncclTaskColl) (g : creg R) : creg R :=
  MkCreg (with_task (cg_task g) (f (ct_task (cg_task g)))) (cg_state g) (cg_cleanup g) (cg_needConnect g) (cg_send0 g) (cg_recv0 g).
Definition set_state (g : creg R) (s : R) (cb : list Z) : creg R :=
  on_task (fun t => add_cleanups t (Z.of_nat (length cb))) (MkCreg (cg_task g) s (cg_cleanup g ++ cb) (cg_needConnect g) (cg_send0 g) (cg_recv0 g)).
Definition set_bufs (g : creg R) (s r : Z) : creg R := MkCreg (cg_task g) (cg_state g) (cg_cleanup g) (cg_needConnect g) s r.
Definition no_connect (g : creg R) : creg R := MkCreg (cg_task g) (cg_state g) (cg_cleanup g) false (cg_send0 g) (cg_recv0 g).

(** [info->sendbuffOffset] and [info->sendbuffRmtAddrs], or those of the receive buffer. *)
Definition set_ipc (g : creg R) (send : bool) (off rmt : Z) : creg R :=
  let t := cg_task g in
  MkCreg (MkCollTask (ct_task t) (ct_scalarArg t) (ct_scalarArgIsPtr t) (if send then off else ct_sendbuffOffset t) (if send then ct_recvbuffOffset t else off)
            (if send then rmt else ct_sendbuffRmtAddrs t) (if send then ct_recvbuffRmtAddrs t else rmt))
    (cg_state g) (cg_cleanup g) (cg_needConnect g) (cg_send0 g) (cg_recv0 g).

Definition graph_reg : bool := kr_persistent comm && kr_graphRegister comm.

Definition nvls_graph (g : creg R) (s r ss rs : Z) : creg R * bool :=
  let '(st, (f, a, b, cb)) := kc_nvlsGraph calls (cg_state g) s r ss rs in (set_bufs (set_state g st cb) a b, f).
Definition nvls_local (g : creg R) (s r ss rs : Z) : creg R * bool :=
  let '(st, (f, a, b)) := kc_nvlsLocal calls (cg_state g) s r ss rs in (set_bufs (set_state g st []) a b, f).
Definition collnet_graph (g : creg R) (buff size : Z) (dir : collnet_dir) : creg R * bool * Z :=
  let '(st, (f, h, cb)) := kc_collnetGraph calls (cg_state g) buff size dir in (set_state g st cb, f, h).
Definition collnet_local (g : creg R) (buff size : Z) (dir : collnet_dir) : creg R * bool * Z :=
  let '(st, (f, h)) := kc_collnetLocal calls (cg_state g) buff size dir in (set_state g st [], f, h).
Definition ipc_graph (g : creg R) (send : bool) (buff size : Z) (peers : list Z) : creg R * bool :=
  let '(st, (f, off, rmt, cb)) := kc_ipcGraph calls (cg_state g) buff size peers in (set_ipc (set_state g st cb) send off rmt, f).
Definition ipc_local (g : creg R) (send : bool) (buff size : Z) (peers : list Z) : creg R * bool :=
  let '(st, (f, off, rmt)) := kc_ipcLocal calls (cg_state g) buff size peers in (set_ipc (set_state g st []) send off rmt, f).
Definition net_graph (g : creg R) (buff size : Z) (conns : list (option Z)) : creg R * bool * list Z :=
  let '(st, (f, hs, cb)) := kc_netGraph calls (cg_state g) buff size conns in (set_state g st cb, f, hs).
Definition net_local (g : creg R) (buff size : Z) (conns : list (option Z)) : creg R * bool * list Z :=
  let '(st, (f, hs)) := kc_netLocal calls (cg_state g) buff size conns in (set_state g st [], f, hs).

(** ** Sizes *)

Definition reg_sizes (t : ncclTaskColl) : Z * Z :=
  let es := ncclTypeSize (t_datatype t) in
  (u64 (es * ncclFuncSendCount (t_func t) (kr_nRanks comm) (t_count t)), u64 (es * ncclFuncRecvCount (t_func t) (kr_nRanks comm) (t_count t))).

Definition is_nvls (t : ncclTaskColl) : bool := (t_algorithm t =? NCCL_ALGO_NVLS) || (t_algorithm t =? NCCL_ALGO_NVLS_TREE).
Definition start_reg (g : creg R) : creg R :=
  let g := on_task (fun t => set_regBufType t NCCL_REGULAR_BUFFER) g in MkCreg (cg_task g) (cg_state g) (cg_cleanup g) true (cg_send0 g) (cg_recv0 g).

(** ** NVLS *)

(** The receive buffer with the network, in both directions. *)
Definition collnet_both (call : creg R -> Z -> Z -> collnet_dir -> creg R * bool * Z) (g : creg R) (buff size sendH recvH : Z) : creg R * bool * Z * Z :=
  let '(g, f, sendH) := call g buff size collNetSend in
  if f then let '(g, f, recvH) := call g buff size collNetRecv in (g, f, sendH, recvH) else (g, f, sendH, recvH).

Definition clamp_ctas (n : Z) : Z := Z.max (kr_minCTAs comm) (Z.min (kr_maxCTAs comm) n).

(** What a registration with NVLS and with the network leaves in the task;
    [channels] are the channels for one node, reduce-scatter and other, and for more. *)
Definition nvls_done (channels : Z * Z * Z) (g : creg R) (nvlsReged collnetReged : bool) (sendH recvH : Z) : creg R :=
  let t := ct_task (cg_task g) in
  let '(rs, other, multi) := channels in
  let g := if nvlsReged then
      let n := if kr_nNodes comm =? 1 then (if bool_decide (t_func t = ncclFuncReduceScatter) then rs else other) else multi in
      no_connect (on_task (fun t => or_regBufType (set_nMaxChannels t (clamp_ctas n)) NCCL_NVLS_REG_BUFFER) g)
    else g in
  if collnetReged then on_task (fun t => set_mhandles (or_regBufType t NCCL_NET_REG_BUFFER) sendH recvH) g else g.

Definition nvls_args (t : ncclTaskColl) : Z * Z :=
  (if bool_decide (t_func t = ncclFuncAllGather) then 0 else t_sendbuff t, if bool_decide (t_func t = ncclFuncReduceScatter) then 0 else t_recvbuff t).

Definition ncclRegisterCollNvlsBuffers (g : creg R) : creg R :=
  let g := start_reg g in
  let t := ct_task (cg_task g) in
  if negb (kr_localRegister comm || graph_reg) then g
  else if negb (is_nvls t) then g
  else if negb (kr_nvlsRegSupport comm) || bool_decide (t_opDev t = ncclDevPreMulSum) then g
  else
    let '(s, r) := nvls_args t in
    let '(ss, rs) := reg_sizes t in
    let '(g, reged) := if graph_reg then nvls_graph g s r ss rs else (g, false) in
    let '(g, reged) := if negb reged && kr_localRegister comm then nvls_local g s r ss rs else (g, reged) in
    let '(g, creged, sh, rh) :=
      if reged && (1 <? kr_nNodes comm) && (t_algorithm t =? NCCL_ALGO_NVLS) then
        let '(g, f, sh, rh) := if graph_reg then collnet_both collnet_graph g (t_recvbuff t) rs 0 0 else (g, false, 0, 0) in
        if negb f && kr_localRegister comm then collnet_both collnet_local g (t_recvbuff t) rs sh rh else (g, f, sh, rh)
      else (g, false, 0, 0) in
    let big := 100 <=? kr_compCap comm in
    nvls_done (if big then 6 else 5, if big then 8 else 4, if big then 7 else 6) g reged creged sh rh.

(** The branch of [ncclRegisterCollBuffers] for NVLS, local registration first. *)
Definition nvls_local_first (g : creg R) : creg R :=
  let t := ct_task (cg_task g) in
  if negb (kr_nvlsRegSupport comm) || bool_decide (t_opDev t = ncclDevPreMulSum) then g
  else
    let '(s, r) := nvls_args t in
    let '(ss, rs) := reg_sizes t in
    let '(g, reged) := if kr_localRegister comm then nvls_local g s r ss rs else (g, false) in
    let '(g, reged) := if negb reged && graph_reg then nvls_graph g s r ss rs else (g, reged) in
    let '(g, creged, sh, rh) :=
      if (1 <? kr_nNodes comm) && (t_algorithm t =? NCCL_ALGO_NVLS) then
        let '(g, f, sh, rh) := if kr_localRegister comm then collnet_both collnet_local g (t_recvbuff t) rs 0 0 else (g, false, 0, 0) in
        if negb f && graph_reg then collnet_both collnet_graph g (t_recvbuff t) rs sh rh else (g, f, sh, rh)
      else (g, false, 0, 0) in
    nvls_done (5, 4, 6) g reged creged sh rh.

(** ** Peers on the node *)

(** [registerCheckP2PConnection]; [None] is an error. *)
Definition registerCheckP2PConnection (conn : reg_conn) (peer : Z) : option bool :=
  if rn_connected conn then Some (negb (Z.land (rn_flags conn) (Z.lor NCCL_P2P_READ NCCL_P2P_WRITE) =? 0)) else kr_canConnect comm peer.

(** [peerRanks[nPeers++] = peer], unless it is there. *)
Definition add_peer (peers : list Z) (peer : Z) : outcome (list Z) :=
  if bool_decide (peer ∈ peers) then Ret peers
  else if Z.of_nat (length peers) <? NCCL_MAX_LOCAL_RANKS then Ret (peers ++ [peer]) else Stuck.

(** The peers of some connections that need registration; [None] when a check fails. *)
Fixpoint need_reg (conns : list (Z * reg_conn)) (peers : list Z) : outcome (option (list Z)) :=
  match conns with
  | [] => Ret (Some peers)
  | (peer, conn) :: conns =>
    match registerCheckP2PConnection conn peer with
    | None => Ret None
    | Some b => peers ← (if b : bool then add_peer peers peer else Ret peers); need_reg conns peers
    end
  end.

(** Up and down of CollNet, [down] in the inner loop. *)
Definition direct_conns : list (Z * reg_conn) :=
  seqZ 0 NCCL_MAX_DIRECT_ARITY ≫= fun r =>
    let peers := [znth (kr_directUp comm) r; znth (kr_directDown comm) r] in
    (fun peer => (peer, kr_recv comm 0 peer)) <$> filter (fun p => p <> -1) peers.

Definition tree_conns (trees : list (Z * list Z)) : list (Z * reg_conn) :=
  seqZ 0 (kr_nChannels comm) ≫= fun c =>
    let '(up, down) := default (-1, []) (trees !! Z.to_nat c) in
    (fun peer => (peer, kr_recv comm c peer)) <$> filter (fun p => p <> -1 /\ p <> kr_nRanks comm) (take (Z.to_nat NCCL_MAX_TREE_ARITY) down ++ [up]).

(** The neighbours on the ring: the peers that are mapped, and the connectors of
    the network by channel. *)
Record ring_peers := MkRingPeers { rp_peers : list Z; rp_send : list (option Z); rp_recv : list (option Z) }.

Definition ring_channel (c : Z) (p : ring_peers) : outcome ring_peers :=
  '(prev, next) ← zget (kr_rings comm) c;
  let rc := kr_recv comm c prev in
  let sc := kr_send comm c next in
  let has conn flags := negb (Z.land (rn_flags conn) flags =? 0) in
  let mapped := Z.lor NCCL_P2P_READ NCCL_P2P_WRITE in
  peers ← (if has rc mapped then add_peer (rp_peers p) prev else Ret (rp_peers p));
  peers ← (if has sc mapped then add_peer peers next else Ret peers);
  Ret (MkRingPeers peers (rp_send p ++ [if has sc NCCL_DIRECT_NIC then Some (rn_id sc) else None]) (rp_recv p ++ [if has rc NCCL_DIRECT_NIC then Some (rn_id rc) else None])).

(** ** CollNet and trees *)

(** [ipc] with both buffers ([both]) or the receive buffer only: by the graph,
    then locally. *)
Definition ipc_buffers (both : bool) (g : creg R) (peers : list Z) : creg R * bool :=
  let t := ct_task (cg_task g) in
  let '(ss, rs) := reg_sizes t in
  let try_both (call : creg R -> bool -> Z -> Z -> list Z -> creg R * bool) g :=
    if both then let '(g, f) := call g true (t_sendbuff t) ss peers in if f : bool then call g false (t_recvbuff t) rs peers else (g, f)
    else call g false (t_recvbuff t) rs peers in
  let '(g, f) := if graph_reg then try_both ipc_graph g else (g, false) in
  if negb f && kr_localRegister comm then try_both ipc_local g else (g, f).

(** The send and the receive buffer with the network. *)
Definition collnet_buffers (g : creg R) : creg R * bool * bool :=
  let t := ct_task (cg_task g) in
  let '(ss, rs) := reg_sizes t in
  let smh h g := on_task (fun t => set_mhandles t h (t_recvMhandle t)) g in
  let rmh h g := on_task (fun t => set_mhandles t (t_sendMhandle t) h) g in
  let '(g, sf, rf) := if graph_reg then
      let '(g, sf, h) := collnet_graph g (t_sendbuff t) ss collNetSend in
      let g := smh h g in
      if sf then let '(g, rf, h) := collnet_graph g (t_recvbuff t) rs collNetRecv in (rmh h g, sf, rf) else (g, sf, false)
    else (g, false, false) in
  if (negb sf || negb rf) && kr_localRegister comm then
    let '(g, sf) := if negb sf then let '(g, sf, h) := collnet_local g (t_sendbuff t) ss collNetSend in (smh h g, sf) else (g, sf) in
    if sf && negb rf then let '(g, rf, h) := collnet_local g (t_recvbuff t) rs collNetRecv in (rmh h g, sf, rf) else (g, sf, rf)
  else (g, sf, rf).

Definition collnet_done (g : creg R) (sf rf : bool) : creg R :=
  if sf && rf then on_task (fun t => or_regBufType (if kr_isOneRPN comm then set_nMaxChannels t 1 else t) NCCL_NET_REG_BUFFER) g else g.

(** An operator the network can apply. *)
Definition plain_op (t : ncclTaskColl) : bool := negb (bool_decide (t_opDev t = ncclDevPreMulSum)) && negb (bool_decide (t_opDev t = ncclDevSumPostDiv)).

(** [None]: a check failed and the function returned. *)
Definition direct_buffers (g : creg R) : outcome (option (creg R)) :=
  let t := ct_task (cg_task g) in
  g ← (if negb (bool_decide (t_func t = ncclFuncReduceScatter)) && kr_intraNodeP2pSupport comm then
         peers ← need_reg direct_conns [];
         Ret (match peers with
              | None => None
              | Some peers =>
                let '(g, f) := if 0 <? Z.of_nat (length peers) then ipc_buffers true g peers else (g, false) in
                Some (if f : bool then on_task (fun t => or_regBufType t NCCL_IPC_REG_BUFFER) g else g)
              end)
       else Ret (Some g));
  Ret (match g with
       | None => None
       | Some g =>
         let '(g, sf, rf) := if plain_op t && negb (bool_decide (t_func t = ncclFuncAllReduce) && negb (kr_isOneRPN comm)) then collnet_buffers g else (g, false, false) in
         Some (collnet_done g sf rf)
       end).

Definition registered (g : creg R) (buff size : Z) : bool := match ncclRegFind (kc_cache calls (cg_state g)) buff size with Some _ => true | None => false end.

Definition tree_buffers (g : creg R) : outcome (option (creg R)) :=
  let t := ct_task (cg_task g) in
  let '(ss, rs) := reg_sizes t in
  if negb (registered g (t_recvbuff t) rs) && negb graph_reg then Ret None
  else
    g ← (if kr_intraNodeP2pSupport comm then
           peers ← need_reg (tree_conns (if t_algorithm t =? NCCL_ALGO_TREE then kr_trees comm else kr_chains comm)) [];
           Ret (match peers with
                | None => None
                | Some peers =>
                  let '(g, f) := if 0 <? Z.of_nat (length peers) then ipc_buffers false g peers else (g, false) in
                  Some (if f : bool then on_task (fun t => set_regBufType t NCCL_IPC_REG_BUFFER) g else g)
                end)
         else Ret (Some g));
    Ret (match g with
         | None => None
         | Some g =>
           let '(g, sf, rf) := if (t_algorithm t =? NCCL_ALGO_COLLNET_CHAIN) && plain_op t && kr_isOneRPN comm then collnet_buffers g else (g, false, false) in
           Some (collnet_done g sf rf)
         end).

(** ** Rings *)

(** The buffers with the network, by one kind of call: the send buffer and the
    receive buffer with the sending connections, the receive buffer with the others. *)
Definition ring_net (call : creg R -> Z -> Z -> list (option Z) -> creg R * bool * list Z) (g : creg R) (p : ring_peers) (flag : bool) (hs : list Z * list Z * list Z)
    : creg R * bool * (list Z * list Z * list Z) :=
  let t := ct_task (cg_task g) in
  let '(ss, rs) := reg_sizes t in
  let has l := negb (bool_decide (Forall (fun o => o = None) l)) in
  let '(sendH, recvH, srecvH) := hs in
  let '(g, flag, sendH, srecvH) := if has (rp_send p) then
      let '(g, f, sendH) := call g (t_sendbuff t) ss (rp_send p) in
      if f then let '(g, f, srecvH) := call g (t_recvbuff t) rs (rp_send p) in (g, f, sendH, srecvH) else (g, f, sendH, srecvH)
    else (g, flag, sendH, srecvH) in
  if (flag || negb (has (rp_send p))) && has (rp_recv p) then
    let '(g, f, recvH) := call g (t_recvbuff t) rs (rp_recv p) in (g, f, (sendH, recvH, srecvH))
  else (g, flag, (sendH, recvH, srecvH)).

(** The peers of the node. *)
Definition ring_ipc (g : creg R) (p : ring_peers) : creg R :=
  let '(g, f) := if (0 <? Z.of_nat (length (rp_peers p))) && kr_intraNodeP2pSupport comm then ipc_buffers false g (rp_peers p) else (g, false) in
  if f : bool then on_task (fun t => set_regBufType t NCCL_IPC_REG_BUFFER) g else g.

(** The network, by the graph and then locally. *)
Definition ring_nets (g : creg R) (p : ring_peers) : creg R :=
  let zeros := replicate (Z.to_nat (kr_nChannels comm)) 0 in
  if negb (negb (kr_useNetPXN comm) && kr_useGdr comm && negb (kr_netUnpack comm)) then g
  else
    let '(g, f, hs) := if graph_reg then ring_net net_graph g p false (zeros, zeros, zeros) else (g, false, (zeros, zeros, zeros)) in
    let '(g, f, hs) := if negb f && kr_localRegister comm then ring_net net_local g p f hs else (g, f, hs) in
    let '(sendH, recvH, srecvH) := hs in
    if f : bool then
      on_task (fun t =>
        let t := set_netHandles (or_regBufType t NCCL_NET_REG_BUFFER) sendH recvH srecvH in
        if kr_isOneRPN comm && (bool_decide (t_func t = ncclFuncAllGather) || bool_decide (t_func t = ncclFuncBroadcast)) then set_nMaxChannels t 1 else t) g
    else g.

Definition ring_buffers (g : creg R) : outcome (option (creg R)) :=
  let t := ct_task (cg_task g) in
  let '(ss, rs) := reg_sizes t in
  if negb (registered g (t_recvbuff t) rs) && negb graph_reg then Ret None
  else if negb (registered g (t_sendbuff t) ss) && negb graph_reg then Ret None
  else
    p ← for_range 0 (kr_nChannels comm) ring_channel (MkRingPeers [] [] []);
    Ret (Some (ring_nets (ring_ipc g p) p)).

(** ** All algorithms *)

(** The cases in which the buffers of a task are not registered. *)
Definition not_registered (t : ncclTaskColl) : bool :=
  let isfn f := bool_decide (t_func t = f) in
  let alg a := t_algorithm t =? a in
  let same := t_sendbuff t =? t_recvbuff t in
  (isfn ncclFuncReduceScatter && negb (alg NCCL_ALGO_COLLNET_DIRECT)) ||
  (alg NCCL_ALGO_RING && ((isfn ncclFuncAllReduce && same) || isfn ncclFuncReduce)) ||
  ((alg NCCL_ALGO_TREE || alg NCCL_ALGO_COLLNET_CHAIN) && same) ||
  (isfn ncclFuncAllGather && alg NCCL_ALGO_PAT).

(** A failed check, like the jumps to [exit], leaves the task unregistered; the
    caller does not look at the result. *)
Definition ncclRegisterCollBuffers (g0 : creg R) : outcome (creg R) :=
  let g := start_reg g0 in
  let t := ct_task (cg_task g) in
  if negb (kr_localRegister comm || graph_reg) then Ret g
  else if is_nvls t then Ret (nvls_local_first g)
  else if t_protocol t =? NCCL_PROTO_SIMPLE then
    if not_registered t then Ret g
    else
      r ← (if t_algorithm t =? NCCL_ALGO_COLLNET_DIRECT then direct_buffers g
           else if t_algorithm t =? NCCL_ALGO_RING then ring_buffers g
           else if (t_algorithm t =? NCCL_ALGO_TREE) || (t_algorithm t =? NCCL_ALGO_COLLNET_CHAIN) then tree_buffers g
           else Ret (Some g));
      Ret (match r with
           | None => g
           | Some g =>
             let t := ct_task (cg_task g) in
             if (t_regBufType t =? NCCL_IPC_REG_BUFFER) && (kr_nNodes comm =? 1) && (16 <? t_nMaxChannels t) && (t_nMaxChannels t <=? 24)
             then on_task (fun t => set_nMaxChannels t 16) g else g
           end)
  else Ret g.
End reg.

(** ** What registration may change *)

(** Only the fields of registration differ. *)
Definition same_task (t t' : ncclTaskColl) : Prop :=
  set_reg t' (t_regBufType t) (t_nMaxChannels t) (t_nCleanupQueueElts t) (t_sendMhandle t) (t_recvMhandle t) (t_sendNetHandles t) (t_recvNetHandles t) (t_srecvNetHandles t) = t.

Definition ctas_ok (comm : creg_comm) : Prop := 1 <= kr_minCTAs comm <= 64 /\ 1 <= kr_maxCTAs comm <= 64.

Definition nvls_bit {R} (g : creg R) : bool := Z.testbit (t_regBufType (ct_task (cg_task g))) 1.

(** Registration keeps the rest of the task, counts the callbacks it adds, and
    leaves a number of channels in range; only that with NVLS makes the connection
    unnecessary ([nvls = false] for the others). *)
Record reg_keeps {R} (nvls : bool) (g g' : creg R) : Prop := {
  rk_task : same_task (ct_task (cg_task g)) (ct_task (cg_task g'));
  rk_scalar : ct_scalarArg (cg_task g') = ct_scalarArg (cg_task g) /\ ct_scalarArgIsPtr (cg_task g') = ct_scalarArgIsPtr (cg_task g);
  rk_cleanup : exists cb, cg_cleanup g' = cg_cleanup g ++ cb /\ t_nCleanupQueueElts (ct_task (cg_task g')) = t_nCleanupQueueElts (ct_task (cg_task g)) + Z.of_nat (length cb);
  rk_channels : 1 <= t_nMaxChannels (ct_task (cg_task g)) <= 64 -> 1 <= t_nMaxChannels (ct_task (cg_task g')) <= 64;
  rk_connect : cg_needConnect g = true /\ nvls_bit g = false -> cg_needConnect g' = negb (nvls_bit g') /\ (nvls = false -> nvls_bit g' = false);
}.

Lemma same_task_refl t : same_task t t.
Proof. by destruct t. Qed.

Lemma same_task_trans a b c : same_task a b -> same_task b c -> same_task a c.
Proof. unfold same_task. intros H1 H2. rewrite <- H1 at 9. rewrite <- H2 at 1. done. Qed.

#[local] Arguments Z.testbit : simpl never.

Section keeps.
Context {R : Type} (calls : reg_calls R) (comm : creg_comm) (Hctas : ctas_ok comm).
Implicit Types g : creg R.

Lemma rk_refl nv g : reg_keeps nv g g.
Proof. split; [apply same_task_refl|done|exists []; rewrite app_nil_r; split; [done|simpl; lia]|done|by intros [-> ->]]. Qed.

Lemma rk_trans nv g1 g2 g3 : reg_keeps false g1 g2 -> reg_keeps nv g2 g3 -> reg_keeps nv g1 g3.
Proof.
  intros [H1 [S1 S1'] (c1 & E1 & N1) K1 C1] [H2 [S2 S2'] (c2 & E2 & N2) K2 C2].
  split; [by eapply same_task_trans|by rewrite S2, S2', S1, S1'| |auto|intros H; destruct (C1 H) as [E B]; apply C2; rewrite E, (B eq_refl); done].
  exists (c1 ++ c2). rewrite E2, E1, N2, N1, length_app, (assoc_L (++)). split; [done|lia].
Qed.

Lemma rk_on_task f g : (forall t, same_task t (f t) /\ t_nCleanupQueueElts (f t) = t_nCleanupQueueElts t /\ (1 <= t_nMaxChannels t <= 64 -> 1 <= t_nMaxChannels (f t) <= 64) /\
    (Z.testbit (t_regBufType t) 1 = false -> Z.testbit (t_regBufType (f t)) 1 = false)) -> reg_keeps false g (on_task f g).
Proof.
  intros Hf. destruct (Hf (ct_task (cg_task g))) as (H1 & H2 & H3 & H4). split; [done|done| |done|]; [exists []; cbn; rewrite app_nil_r, H2; split; [done|lia]|].
  intros [E B]. specialize (H4 B). unfold nvls_bit. cbn. rewrite E, H4. done.
Qed.

Lemma rk_set_state g s cb : reg_keeps false g (set_state g s cb).
Proof. split; cbn; [by destruct (ct_task (cg_task g))|done|by exists cb|done|]. unfold nvls_bit. cbn. by intros [-> ->]. Qed.

Lemma conv_channels v : 1 <= v <= 64 -> 1 <= conv int8 v <= 64.
Proof. intros H. unfold conv, int8. cbn [ity_signed ity_width]. change (2 ^ (8 - 1)) with 128. change (2 ^ 8) with 256. rewrite Z.mod_small by lia. lia. Qed.

Lemma clamp_range n : 1 <= clamp_ctas comm n <= 64.
Proof. destruct Hctas. unfold clamp_ctas. lia. Qed.

(** A change of the task that registration may make. *)
Ltac task_change :=
  apply rk_on_task; intros t; split; [by destruct t|split; [by repeat case_match|split]]; cbn; try done; intros; repeat case_match;
    first [done|apply conv_channels; first [lia|apply clamp_range]|rewrite Z.lor_spec; apply orb_false_iff; done].

Lemma rk_plain g g' : cg_task g' = cg_task g -> cg_cleanup g' = cg_cleanup g -> cg_needConnect g' = cg_needConnect g \/ cg_needConnect g' = true -> reg_keeps false g g'.
Proof.
  intros E1 E2 E3. split; unfold nvls_bit; rewrite ?E1, ?E2; [apply same_task_refl|done|exists []; rewrite app_nil_r; split; [done|simpl; lia]|done|].
  intros [C ->]. rewrite C in E3. split; [tauto|done].
Qed.

Lemma rk_set_ipc g send off rmt : reg_keeps false g (set_ipc g send off rmt).
Proof. split; [apply same_task_refl|done|exists []; rewrite app_nil_r; split; [done|cbn [length set_ipc cg_task ct_task]; lia]|done|]. unfold nvls_bit. cbn. by intros [-> ->]. Qed.

Lemma rk_start g : reg_keeps false g (start_reg g).
Proof. apply (rk_trans _ _ (on_task (fun t => set_regBufType t NCCL_REGULAR_BUFFER) g)); [task_change|apply rk_plain; auto]. Qed.

Lemma rk_nvls_graph g s r ss rs g' f : nvls_graph calls g s r ss rs = (g', f) -> reg_keeps false g g'.
Proof. unfold nvls_graph. repeat case_match. intros [= <- _]. eapply rk_trans; [apply rk_set_state|apply rk_plain; auto]. Qed.
Lemma rk_nvls_local g s r ss rs g' f : nvls_local calls g s r ss rs = (g', f) -> reg_keeps false g g'.
Proof. unfold nvls_local. repeat case_match. intros [= <- _]. eapply rk_trans; [apply rk_set_state|apply rk_plain; auto]. Qed.
Lemma rk_collnet_graph g b s d g' f h : collnet_graph calls g b s d = (g', f, h) -> reg_keeps false g g'.
Proof. unfold collnet_graph. repeat case_match. intros [= <- _ _]. apply rk_set_state. Qed.
Lemma rk_collnet_local g b s d g' f h : collnet_local calls g b s d = (g', f, h) -> reg_keeps false g g'.
Proof. unfold collnet_local. repeat case_match. intros [= <- _ _]. apply rk_set_state. Qed.
Lemma rk_ipc_graph g b x s p g' f : ipc_graph calls g b x s p = (g', f) -> reg_keeps false g g'.
Proof. unfold ipc_graph. repeat case_match. intros [= <- _]. eapply rk_trans; [apply rk_set_state|apply rk_set_ipc]. Qed.
Lemma rk_ipc_local g b x s p g' f : ipc_local calls g b x s p = (g', f) -> reg_keeps false g g'.
Proof. unfold ipc_local. repeat case_match. intros [= <- _]. eapply rk_trans; [apply rk_set_state|apply rk_set_ipc]. Qed.
Lemma rk_net_graph g b s c g' f h : net_graph calls g b s c = (g', f, h) -> reg_keeps false g g'.
Proof. unfold net_graph. repeat case_match. intros [= <- _ _]. apply rk_set_state. Qed.
Lemma rk_net_local g b s c g' f h : net_local calls g b s c = (g', f, h) -> reg_keeps false g g'.
Proof. unfold net_local. repeat case_match. intros [= <- _ _]. apply rk_set_state. Qed.

(** Steps one after the other. *)
Ltac regs := repeat (case_match; simplify_eq); eauto 8 using rk_refl, rk_trans, rk_nvls_graph, rk_nvls_local, rk_collnet_graph, rk_collnet_local, rk_ipc_graph, rk_ipc_local, rk_net_graph, rk_net_local.

Lemma rk_collnet_both call g b s x y g' f h1 h2 : (forall g b s d g' f h, call g b s d = (g', f, h) -> reg_keeps false g g') -> collnet_both call g b s x y = (g', f, h1, h2) -> reg_keeps false g g'.
Proof. intros Hcall. unfold collnet_both. intros E. regs. Qed.

Lemma rk_nvls_only n g : reg_keeps true g (no_connect (on_task (fun t => or_regBufType (set_nMaxChannels t (clamp_ctas comm n)) NCCL_NVLS_REG_BUFFER) g)).
Proof.
  split; cbn; [by destruct (ct_task (cg_task g))|done|exists []; rewrite app_nil_r, Z.add_0_r; done|intros _; apply conv_channels, clamp_range|].
  intros _. unfold nvls_bit. cbn. rewrite Z.lor_spec, orb_true_r. done.
Qed.

Lemma rk_net_mark nv g g1 s r : reg_keeps nv g g1 -> reg_keeps nv g (on_task (fun t => set_mhandles (or_regBufType t NCCL_NET_REG_BUFFER) s r) g1).
Proof.
  intros [H1 H2 H3 H4 H5]. split; cbn; [|done|done|done|unfold nvls_bit in *; cbn; rewrite Z.lor_spec, orb_false_r; done].
  eapply same_task_trans; [exact H1|]. by destruct (ct_task (cg_task g1)).
Qed.

Lemma rk_nvls_done ch g a b s r : reg_keeps true g (nvls_done comm ch g a b s r).
Proof.
  unfold nvls_done. destruct ch as [[x y] z]. destruct a, b; eauto using rk_net_mark, rk_nvls_only, rk_refl.
Qed.

(** Takes the outermost tuple apart, and then the equations of the parts. *)
Ltac open_tuple := match goal with |- context [match ?e with pair _ _ => _ end] => let E := fresh "E" in destruct e eqn:E end.
Ltac keeps := eauto 6 using rk_refl, rk_trans, rk_nvls_graph, rk_nvls_local, rk_collnet_both, rk_collnet_graph, rk_collnet_local, rk_ipc_graph, rk_ipc_local, rk_net_graph, rk_net_local.

(** NVLS by the first kind of call, then by the second; then the network. *)
Lemma rk_nvls_two (a b : bool) (call1 call2 : creg R -> Z -> Z -> Z -> Z -> creg R * bool) g s r ss rs g' f :
  (forall g s r ss rs g' f, call1 g s r ss rs = (g', f) -> reg_keeps false g g') -> (forall g s r ss rs g' f, call2 g s r ss rs = (g', f) -> reg_keeps false g g') ->
  (let '(g, reged) := if a then call1 g s r ss rs else (g, false) in if negb reged && b then call2 g s r ss rs else (g, reged)) = (g', f : bool) -> reg_keeps (R := R) false g g'.
Proof. intros H1 H2. intros E. destruct a; [destruct (call1 g s r ss rs) as [g1 f1] eqn:E1; apply H1 in E1|]; destruct (_ && _); try apply H2 in E; simplify_eq; eauto using rk_trans, rk_refl. Qed.

Lemma rk_collnet_two (a b : bool) (call1 call2 : creg R -> Z -> Z -> collnet_dir -> creg R * bool * Z) g buff size g' f sh rh :
  (forall g b s d g' f h, call1 g b s d = (g', f, h) -> reg_keeps false g g') -> (forall g b s d g' f h, call2 g b s d = (g', f, h) -> reg_keeps false g g') ->
  (let '(g, f, sh, rh) := if a then collnet_both call1 g buff size 0 0 else (g, false, 0, 0) in if negb f && b then collnet_both call2 g buff size sh rh else (g, f, sh, rh)) = (g', f : bool, sh, rh) -> reg_keeps (R := R) false g g'.
Proof.
  intros H1 H2. intros E.
  destruct a; [destruct (collnet_both call1 g buff size 0 0) as [[[g1 f1] x] y] eqn:E1; apply (rk_collnet_both _ _ _ _ _ _ _ _ _ _ H1) in E1|]; destruct (_ && _); try apply (rk_collnet_both _ _ _ _ _ _ _ _ _ _ H2) in E; simplify_eq; eauto using rk_trans, rk_refl.
Qed.

Lemma rk_nvls_buffers g : reg_keeps true (start_reg g) (ncclRegisterCollNvlsBuffers calls comm g).
Proof.
  unfold ncclRegisterCollNvlsBuffers. set (g0 := start_reg g). clearbody g0. do 2 (destruct (negb _); [apply rk_refl|]). destruct (negb _ || _); [apply rk_refl|].
  destruct (nvls_args _) as [s r], (reg_sizes _ _) as [ss rs].
  pose proof (rk_nvls_two (graph_reg comm) (kr_localRegister comm) (nvls_graph calls) (nvls_local calls) g0 s r ss rs) as H1. destruct (if graph_reg comm then nvls_graph calls g0 s r ss rs else (g0, false)) as [ga fa].
  destruct (if negb fa && kr_localRegister comm then nvls_local calls ga s r ss rs else (ga, fa)) as [g1 f1]. specialize (H1 g1 f1 ltac:(eauto using rk_nvls_graph, rk_nvls_local, rk_collnet_graph, rk_collnet_local) ltac:(eauto using rk_nvls_graph, rk_nvls_local, rk_collnet_graph, rk_collnet_local) eq_refl). apply (rk_trans _ _ _ _ H1).
  destruct (f1 && (1 <? kr_nNodes comm) && _); [|apply rk_nvls_done]. set (buff := t_recvbuff _).
  pose proof (rk_collnet_two (graph_reg comm) (kr_localRegister comm) (collnet_graph calls) (collnet_local calls) g1 buff rs) as H2. destruct (if graph_reg comm then collnet_both (collnet_graph calls) g1 buff rs 0 0 else (g1, false, 0, 0)) as [[[gb fb] x] y].
  destruct (if negb fb && kr_localRegister comm then collnet_both (collnet_local calls) gb buff rs x y else (gb, fb, x, y)) as [[[g2 f2] x2] y2]. specialize (H2 g2 f2 x2 y2 ltac:(eauto using rk_nvls_graph, rk_nvls_local, rk_collnet_graph, rk_collnet_local) ltac:(eauto using rk_nvls_graph, rk_nvls_local, rk_collnet_graph, rk_collnet_local) eq_refl). eapply rk_trans; [exact H2|apply rk_nvls_done].
Qed.

Lemma rk_nvls_local_first g0 : reg_keeps true g0 (nvls_local_first calls comm g0).
Proof.
  unfold nvls_local_first. destruct (negb _ || _); [apply rk_refl|]. destruct (nvls_args _) as [s r], (reg_sizes _ _) as [ss rs].
  pose proof (rk_nvls_two (kr_localRegister comm) (graph_reg comm) (nvls_local calls) (nvls_graph calls) g0 s r ss rs) as H1. destruct (if kr_localRegister comm then nvls_local calls g0 s r ss rs else (g0, false)) as [ga fa].
  destruct (if negb fa && graph_reg comm then nvls_graph calls ga s r ss rs else (ga, fa)) as [g1 f1]. specialize (H1 g1 f1 ltac:(eauto using rk_nvls_graph, rk_nvls_local, rk_collnet_graph, rk_collnet_local) ltac:(eauto using rk_nvls_graph, rk_nvls_local, rk_collnet_graph, rk_collnet_local) eq_refl). apply (rk_trans _ _ _ _ H1).
  destruct ((1 <? kr_nNodes comm) && _); [|apply rk_nvls_done]. set (buff := t_recvbuff _).
  pose proof (rk_collnet_two (kr_localRegister comm) (graph_reg comm) (collnet_local calls) (collnet_graph calls) g1 buff rs) as H2. destruct (if kr_localRegister comm then collnet_both (collnet_local calls) g1 buff rs 0 0 else (g1, false, 0, 0)) as [[[gb fb] x] y].
  destruct (if negb fb && graph_reg comm then collnet_both (collnet_graph calls) gb buff rs x y else (gb, fb, x, y)) as [[[g2 f2] x2] y2]. specialize (H2 g2 f2 x2 y2 ltac:(eauto using rk_nvls_graph, rk_nvls_local, rk_collnet_graph, rk_collnet_local) ltac:(eauto using rk_nvls_graph, rk_nvls_local, rk_collnet_graph, rk_collnet_local) eq_refl). eapply rk_trans; [exact H2|apply rk_nvls_done].
Qed.

Lemma rk_ipc_buffers both g peers g' f : ipc_buffers calls comm both g peers = (g', f) -> reg_keeps false g g'.
Proof. unfold ipc_buffers. intros E. regs. Qed.

Lemma rk_mhandle g h (send : bool) : reg_keeps false g (on_task (fun t => if send then set_mhandles t h (t_recvMhandle t) else set_mhandles t (t_sendMhandle t) h) g).
Proof. destruct send; task_change. Qed.

(** The equations of the calls as steps, and the steps one after the other from the last. *)
Ltac chain H1 H2 :=
  repeat match goal with H : collnet_graph _ _ _ _ _ = _ |- _ => apply rk_collnet_graph in H | H : collnet_local _ _ _ _ _ = _ |- _ => apply rk_collnet_local in H end;
  repeat match goal with
    | |- reg_keeps _ ?a ?a => apply rk_refl
    | H : reg_keeps _ _ ?b |- reg_keeps _ _ ?b => eapply rk_trans; [|exact H]
    | |- reg_keeps _ _ (on_task _ _) => first [eapply rk_trans; [|apply H1] | eapply rk_trans; [|apply H2]]
    end.

Lemma rk_collnet_buffers g g' sf rf : collnet_buffers calls comm g = (g', sf, rf) -> reg_keeps false g g'.
Proof.
  pose proof (fun g h => rk_mhandle g h true) as H1. pose proof (fun g h => rk_mhandle g h false) as H2. cbn iota in H1, H2. unfold collnet_buffers. intros E. destruct (reg_sizes comm _) as [ss rs].
  repeat (case_match; simplify_eq); chain H1 H2.
Qed.

Lemma rk_collnet_done g sf rf : reg_keeps false g (collnet_done comm g sf rf).
Proof. unfold collnet_done. destruct (sf && rf); [|apply rk_refl]. destruct (kr_isOneRPN comm); task_change. Qed.

Lemma rk_set_type g v : Z.testbit v 1 = false -> reg_keeps false g (on_task (fun t => set_regBufType t v) g) /\ reg_keeps false g (on_task (fun t => or_regBufType t v) g).
Proof. intros Hv. split; task_change. Qed.

Lemma rk_ring_net call g p flag hs g' f hs' : (forall g b s c g' f h, call g b s c = (g', f, h) -> reg_keeps false g g') -> ring_net comm call g p flag hs = (g', f, hs') -> reg_keeps false g g'.
Proof. intros Hcall. unfold ring_net. intros E. regs. Qed.

End keeps.

(** ** Peers *)

(** No list of peers is longer than the array. *)
Definition few (univ : list Z) (ps : list Z) : Prop := NoDup ps /\ ps ⊆ univ.

Lemma add_peer_few univ ps p : Z.of_nat (length univ) <= NCCL_MAX_LOCAL_RANKS -> few univ ps -> p ∈ univ -> exists ps', add_peer ps p = Ret ps' /\ few univ ps'.
Proof.
  intros Hu [Hnd Hsub] Hp. unfold add_peer. case_bool_decide as Hin; [by exists ps|]. assert (NoDup (p :: ps)) as Hnd' by by constructor. assert (p :: ps ⊆ univ) as Hsub' by set_solver.
  pose proof (submseteq_length _ _ (NoDup_submseteq _ _ Hnd' Hsub')) as Hl. cbn [length] in Hl. rewrite (proj2 (Z.ltb_lt _ _)) by lia. eexists. split; [done|]. split; [|set_solver]. rewrite Permutation_app_comm. done.
Qed.

Lemma need_reg_few comm univ conns ps : Z.of_nat (length univ) <= NCCL_MAX_LOCAL_RANKS -> few univ ps -> Forall (fun c => registerCheckP2PConnection comm c.2 c.1 = Some true -> c.1 ∈ univ) conns ->
  exists o, need_reg comm conns ps = Ret o.
Proof.
  intros Hu. revert ps. induction conns as [|[p c] conns IH]; intros ps Hf Hall; [by eexists|]. cbn [need_reg]. apply Forall_cons in Hall as [H1 H2]. cbn [fst snd] in H1. destruct (registerCheckP2PConnection comm c p) as [[]|]; cbn [mbind outcome_bind]; [|by apply IH|by eexists].
  destruct (add_peer_few univ ps p Hu Hf (H1 eq_refl)) as (ps' & -> & Hf'). by apply IH.
Qed.

(** The ranks reached through mapped memory are those of the node. *)
Record peers_ok (comm : creg_comm) (locals : list Z) : Prop := {
  po_few : Z.of_nat (length locals) <= NCCL_MAX_LOCAL_RANKS;
  po_channels : 0 <= kr_nChannels comm <= Z.of_nat (length (kr_rings comm));
  po_mapped : forall c p, (registerCheckP2PConnection comm (kr_recv comm c p) p = Some true -> p ∈ locals) /\
    (Z.land (rn_flags (kr_recv comm c p)) (Z.lor NCCL_P2P_READ NCCL_P2P_WRITE) <> 0 -> p ∈ locals) /\ (Z.land (rn_flags (kr_send comm c p)) (Z.lor NCCL_P2P_READ NCCL_P2P_WRITE) <> 0 -> p ∈ locals);
}.

Section total.
Context {R : Type} (calls : reg_calls R) (comm : creg_comm) (locals : list Z) (Hctas : ctas_ok comm) (Hp : peers_ok comm locals).
Implicit Types g : creg R.

Lemma ring_channels_few : exists p, for_range 0 (kr_nChannels comm) (ring_channel comm) (MkRingPeers [] [] []) = Ret p.
Proof.
  enough (wp (for_range 0 (kr_nChannels comm) (ring_channel comm) (MkRingPeers [] [] [])) (fun p => few locals (rp_peers p))) as (p & E & _)%wp_elim by by exists p.
  pose proof (po_channels _ _ Hp) as Hn. apply (wpx_for (fun _ p => few locals (rp_peers p))); [lia|split; [constructor|set_solver]| |done]. intros c p Hc Hf. unfold ring_channel.
  destruct (lookup_lt_is_Some_2 (kr_rings comm) (Z.to_nat c)) as [[prev next] Hl]; [lia|]. rewrite (proj2 (zget_Ret _ _ _) (conj (proj1 Hc) Hl)). cbn [mbind outcome_bind].
  assert (exists ps, (if negb (Z.land (rn_flags (kr_recv comm c prev)) (Z.lor NCCL_P2P_READ NCCL_P2P_WRITE) =? 0) then add_peer (rp_peers p) prev else Ret (rp_peers p)) = Ret ps /\ few locals ps) as (ps & -> & Hf1).
  { destruct (Z.eqb_spec (Z.land (rn_flags (kr_recv comm c prev)) (Z.lor NCCL_P2P_READ NCCL_P2P_WRITE)) 0); [by exists (rp_peers p)|]. apply (add_peer_few locals); [apply Hp|done|]. by apply (proj1 (proj2 (po_mapped _ _ Hp c prev))). }
  cbn [mbind outcome_bind].
  assert (exists ps', (if negb (Z.land (rn_flags (kr_send comm c next)) (Z.lor NCCL_P2P_READ NCCL_P2P_WRITE) =? 0) then add_peer ps next else Ret ps) = Ret ps' /\ few locals ps') as (ps' & -> & Hf2).
  { destruct (Z.eqb_spec (Z.land (rn_flags (kr_send comm c next)) (Z.lor NCCL_P2P_READ NCCL_P2P_WRITE)) 0); [by exists ps|]. apply (add_peer_few locals); [apply Hp|done|]. by apply (proj2 (proj2 (po_mapped _ _ Hp c next))). }
  cbn [mbind outcome_bind wpx rp_peers]. done.
Qed.

Lemma conns_need conns : Forall (fun c => exists ch, c.2 = kr_recv comm ch c.1) conns -> exists o, need_reg comm conns [] = Ret o.
Proof.
  intros H. apply (need_reg_few comm locals); [apply Hp|split; [constructor|set_solver]|]. eapply Forall_impl; [exact H|]. intros [p c] [ch E]. cbn [fst snd] in *. rewrite E. by apply (proj1 (po_mapped _ _ Hp ch p)).
Qed.

Lemma direct_need : exists o, need_reg comm (direct_conns comm) [] = Ret o.
Proof. apply conns_need, Forall_forall. intros x (r & (p & -> & _)%list_elem_of_fmap & _)%list_elem_of_bind. by exists 0. Qed.

Lemma tree_need trees : exists o, need_reg comm (tree_conns comm trees) [] = Ret o.
Proof. apply conns_need, Forall_forall. intros x (c & Hx & _)%list_elem_of_bind. destruct (default _ _) as [up down]. apply list_elem_of_fmap in Hx as (p & -> & _). by exists c. Qed.

Definition kept (g : creg R) (o : outcome (option (creg R))) : Prop := exists r, o = Ret r /\ forall g', r = Some g' -> reg_keeps false g g'.

Lemma direct_kept g : kept g (direct_buffers calls comm g).
Proof.
  unfold direct_buffers, kept. destruct direct_need as [o Ho]. pose proof (fun g => proj2 (rk_set_type g NCCL_IPC_REG_BUFFER eq_refl)) as Hs.
  match goal with |- context [mbind _ ?m] => assert (exists r, m = Ret r /\ forall g', r = Some g' -> reg_keeps false g g') as (r & -> & Hr) end.
  { destruct (_ && _); [|eexists; split; [done|]; intros g' [= <-]; apply rk_refl]. rewrite Ho. cbn [mbind outcome_bind]. eexists. split; [reflexivity|]. intros g' E. repeat (case_match; simplify_eq); eauto using rk_trans, rk_refl, rk_ipc_buffers. }
  cbn [mbind outcome_bind]. eexists. split; [reflexivity|]. intros g' E. destruct r as [g1|]; [|done]. specialize (Hr g1 eq_refl). repeat (case_match; simplify_eq); eauto using rk_trans, rk_refl, rk_collnet_buffers, rk_collnet_done.
Qed.

Lemma tree_kept g : kept g (tree_buffers calls comm g).
Proof.
  unfold tree_buffers, kept. destruct (reg_sizes comm _) as [ss rs]. destruct (_ && _); [by eexists|]. pose proof (fun g => proj1 (rk_set_type g NCCL_IPC_REG_BUFFER eq_refl)) as Hs.
  match goal with |- context [mbind _ ?m] => assert (exists r, m = Ret r /\ forall g', r = Some g' -> reg_keeps false g g') as (r & -> & Hr) end.
  { destruct (kr_intraNodeP2pSupport comm); [|eexists; split; [done|]; intros g' [= <-]; apply rk_refl]. destruct (tree_need (if t_algorithm (ct_task (cg_task g)) =? NCCL_ALGO_TREE then kr_trees comm else kr_chains comm)) as [o ->]. cbn [mbind outcome_bind]. eexists. split; [reflexivity|].
    intros g' E. repeat (case_match; simplify_eq); eauto using rk_trans, rk_refl, rk_ipc_buffers. }
  cbn [mbind outcome_bind]. eexists. split; [reflexivity|]. intros g' E. destruct r as [g1|]; [|done]. specialize (Hr g1 eq_refl). repeat (case_match; simplify_eq); eauto using rk_trans, rk_refl, rk_collnet_buffers, rk_collnet_done.
Qed.

Lemma rk_ring_mark g a b c : reg_keeps false g (on_task (fun t =>
  let t := set_netHandles (or_regBufType t NCCL_NET_REG_BUFFER) a b c in
  if kr_isOneRPN comm && (bool_decide (t_func t = ncclFuncAllGather) || bool_decide (t_func t = ncclFuncBroadcast)) then set_nMaxChannels t 1 else t) g).
Proof.
  apply rk_on_task. intros t. cbv zeta. set (x := kr_isOneRPN comm && _). destruct x; (split; [by destruct t|split; [done|split; [|cbn; rewrite Z.lor_spec; intros ->; done]]]); [|done].
  intros _. by apply conv_channels.
Qed.

Lemma rk_ring_ipc g p : reg_keeps false g (ring_ipc calls comm g p).
Proof.
  unfold ring_ipc. destruct (_ && _); [|apply rk_refl]. destruct (ipc_buffers calls comm false g (rp_peers p)) as [g1 f] eqn:E. apply rk_ipc_buffers in E.
  destruct f; [|done]. eapply rk_trans; [exact E|]. by apply rk_set_type.
Qed.

Lemma rk_ring_nets g p : reg_keeps false g (ring_nets calls comm g p).
Proof.
  unfold ring_nets. destruct (negb _); [apply rk_refl|]. set (zs := (_, _, _)). set (m1 := if graph_reg comm then _ else _). assert (reg_keeps false g m1.1.1) as H1.
  { subst m1. destruct (graph_reg comm); [|apply rk_refl]. destruct (ring_net _ _ g p false zs) as [[g1 f1] hs1] eqn:E. apply rk_ring_net in E; [done|apply rk_net_graph]. }
  clearbody m1. destruct m1 as [[g1 f1] hs1]. cbn [fst] in H1. apply (rk_trans _ _ _ _ H1). set (m2 := if negb f1 && _ then _ else _). assert (reg_keeps false g1 m2.1.1) as H2.
  { subst m2. destruct (_ && _); [|apply rk_refl]. destruct (ring_net _ _ g1 p f1 hs1) as [[g2 f2] hs2] eqn:E. apply rk_ring_net in E; [done|apply rk_net_local]. }
  clearbody m2. destruct m2 as [[g2 f2] [[a b] c]]. destruct f2; [|done]. eapply rk_trans; [exact H2|apply rk_ring_mark].
Qed.

Lemma ring_kept g : kept g (ring_buffers calls comm g).
Proof.
  unfold ring_buffers, kept. destruct (reg_sizes comm _) as [ss rs]. do 2 (destruct (_ && _); [by eexists|]). destruct ring_channels_few as [p ->]. cbn [mbind outcome_bind].
  eexists. split; [done|]. intros g' [= <-]. eapply rk_trans; [apply rk_ring_ipc|apply rk_ring_nets].
Qed.

Lemma rk_weak g g' : reg_keeps false g g' -> reg_keeps true g g'.
Proof. intros H. eapply rk_trans; [exact H|apply rk_refl]. Qed.

Lemma rk_cap g : reg_keeps false g (on_task (fun t => set_nMaxChannels t 16) g).
Proof. apply rk_on_task. intros t. split; [by destruct t|]. split; [done|]. split; [by intros _; apply conv_channels|done]. Qed.

(** Every algorithm. *)
Lemma buffers_kept g : exists g', ncclRegisterCollBuffers calls comm g = Ret g' /\ reg_keeps true (start_reg g) g'.
Proof.
  unfold ncclRegisterCollBuffers. set (g0 := start_reg g). clearbody g0. set (t := ct_task (cg_task g0)).
  destruct (negb _); [eexists; split; [done|apply rk_refl]|]. destruct (is_nvls t); [eexists; split; [done|by apply rk_nvls_local_first]|].
  destruct (t_protocol t =? NCCL_PROTO_SIMPLE); [|eexists; split; [done|apply rk_refl]]. destruct (not_registered t); [eexists; split; [done|apply rk_refl]|].
  match goal with |- context [mbind _ ?m] => assert (kept g0 m) as (r & -> & Hr) end.
  { destruct (_ =? _); [apply direct_kept|]. destruct (_ =? _); [apply ring_kept|]. destruct (_ || _); [apply tree_kept|]. eexists. split; [done|]. intros g' [= <-]. apply rk_refl. }
  cbn [mbind outcome_bind]. eexists. split; [done|]. apply rk_weak. destruct r as [g1|]; [|apply rk_refl]. specialize (Hr g1 eq_refl). destruct (_ && _); [eapply rk_trans; [exact Hr|apply rk_cap]|done].
Qed.
End total.

(** What a task and its buffers look like after registration. *)
Definition reg_result {R} (g g' : creg R) : Prop := reg_keeps true g g' /\ cg_needConnect g' = negb (nvls_bit g').

Lemma result_of {R} (g g' : creg R) : reg_keeps true (start_reg g) g' -> reg_result g g'.
Proof. intros H. split; [eapply rk_trans; [apply rk_start|exact H]|]. by apply (rk_connect _ _ _ H). Qed.

(** (C13) Both registration functions return whatever the transports answer, the
    list of peers staying within its array: the task keeps its type, that is every
    field that is not about registration, and between 1 and 64 channels; the
    callbacks queued are counted in the task; and [regNeedConnect] is cleared
    exactly when the buffers were registered with NVLS. *)
Theorem ncclRegisterCollBuffers_keeps {R} (calls : reg_calls R) comm locals g : ctas_ok comm -> peers_ok comm locals ->
  (exists g', ncclRegisterCollBuffers calls comm g = Ret g' /\ reg_result g g') /\ reg_result g (ncclRegisterCollNvlsBuffers calls comm g).
Proof.
  intros Hc Hp. split; [destruct (buffers_kept calls comm locals Hc Hp g) as (g' & E & H); exists g'; split; [done|by apply result_of]|].
  apply result_of. by apply rk_nvls_buffers.
Qed.

(** ** A node of a ring *)

(** Rank 0 of two nodes with two ranks: the next rank is mapped, the previous one
    is behind the network. *)
Definition sample_conn (_ p : Z) : reg_conn := MkRegConn true (if bool_decide (p ∈ [0; 1]) then NCCL_P2P_WRITE else NCCL_DIRECT_NIC) p.
Definition sample_reg_comm : creg_comm :=
  MkCregComm 4 2 2 false true true false 90 1 32 false true false true false [] [] [(3, 1); (3, 1)] [] [] sample_conn sample_conn (fun _ => Some false).
Definition sample_calls : reg_calls unit :=
  MkRegCalls unit (fun _ _ _ _ _ => (tt, (false, 0, 0, []))) (fun _ _ _ _ _ => (tt, (false, 0, 0))) (fun _ _ _ _ => (tt, (false, 0, []))) (fun _ _ _ _ => (tt, (false, 0)))
    (fun _ b _ _ => (tt, (true, b mod 4096, 77, [1]))) (fun _ _ _ _ => (tt, (false, 0, 0))) (fun _ _ _ cs => (tt, (true, (fun _ => 5) <$> cs, [2; 3]))) (fun _ _ _ _ => (tt, (false, []))) (fun _ => MkCache [] 0 4096).
Definition sample_creg : creg unit := MkCreg (MkCollTask (sample_task ncclFuncAllGather 1000 NCCL_ALGO_RING NCCL_PROTO_SIMPLE) 0 false 0 0 0 0) tt [9] false 0 0.

(** The peer's mapping and the network of the previous rank are both registered. *)
Example sample_registered : (g ← ncclRegisterCollBuffers sample_calls sample_reg_comm sample_creg; Ret (t_regBufType (ct_task (cg_task g)), cg_cleanup g, cg_needConnect g, t_recvNetHandles (ct_task (cg_task g))))
  = Ret (5, [9; 1; 2; 3], true, [5; 5]).
Proof. vm_compute. reflexivity. Qed.

Lemma ncclRegisterCollBuffers_keeps_witness : exists g', ncclRegisterCollBuffers sample_calls sample_reg_comm sample_creg = Ret g' /\ reg_result sample_creg g'.
Proof.
  apply (ncclRegisterCollBuffers_keeps sample_calls sample_reg_comm [0; 1] sample_creg); [split; cbn; lia|]. split; [done|cbn; lia|]. intros c p.
  cbn [kr_recv kr_send sample_reg_comm sample_conn]. unfold sample_conn, registerCheckP2PConnection. cbn [rn_flags rn_connected]. case_bool_decide; [done|]. by vm_compute.
Defined.
