(* ===== verification/PrepTasks.v ===== *)
(** * Preparing the collectives of a group (src/src/enqueue.cc)

    [taskAppend] turns a call into a task; at the end of the group
    [ncclPrepareTasks] takes the tasks from the sorter, bins them by function,
    operator and type, aggregates those of similar size, chooses algorithm and
    protocol for each aggregate ([Tuning.v]) and registers the buffers of those that
    use NVLS ([CollReg.v]); [ncclTasksRegAndEnqueue] registers the others and builds
    the work structs.  The lists of tasks are those of [Queue.v] and [Sorter.v]. *)
From Stdlib Require Import SpecFloat.
From S2P Require Import Prelude Bitops Device RingAlgo UserOps ProxyOp Chunking CollSched Schedule OneRank Tuning RegCache CollReg.

(** ** Appending a task *)

(** What [ncclInfo] says of a collective. *)
Record coll_info := MkCollInfo {
  in_coll : ncclFunc_t; in_sendbuff : Z; in_recvbuff : Z; in_count : Z; in_datatype : ncclDataType_t; in_op : Z; in_root : Z; in_stream : Z;
  in_chunkSteps : Z; in_sliceSteps : Z }.

(** The part of [ncclKernelPlanner] tasks are added to: the tasks in the sorter, in
    the order of insertion, and the streams.  A graph is its [graphId]. *)
Record planner := MkPlanner { pn_nTasksColl : Z; pn_sorter : list coll_task; pn_streamRecent : Z; pn_streams : list Z; pn_capturingGraph : Z }.

(** A task from the pool is zeroed; gathers and broadcasts move bytes. *)
Definition new_coll_task (nRanks : Z) (info : coll_info) (opDev : ncclDevRedOpFull) (id mask : Z) : coll_task :=
  let es := ncclTypeSize (in_datatype info) in
  let bytes := bool_decide (in_coll info = ncclFuncAllGather) || bool_decide (in_coll info = ncclFuncBroadcast) in
  let count := if bytes then u64 (in_count info * es) else in_count info in
  let datatype := if bytes then ncclInt8 else in_datatype info in
  let es := if bytes then 1 else es in
  MkCollTask
    (MkTaskColl id (in_coll info) (in_sendbuff info) (in_recvbuff info) count (in_root info) datatype (in_op info) (ro_op opDev) (in_chunkSteps info) (in_sliceSteps info)
       (u64 (u64 (count * es) * ncclFuncTrafficPerByte (in_coll info) nRanks)) 0 0 0 0 false false 0 0 0 0 0 [] [] [] mask)
    (ro_scalarArg opDev) (ro_scalarArgIsPtr opDev) 0 0 0 0.

Section append.
Context (recip : ncclDataType_t -> Z -> Z) (bf16 : bool) (capturing : Z -> outcome Z) (users : user_comm) (minCompCap : Z).

(** The stream of the call joins the list, if it is new: all streams of a group are
    captured by the same graph, or none is. *)
Definition add_stream (stream : Z) (p : planner) : outcome planner :=
  if negb (stream =? pn_streamRecent p) || bool_decide (pn_streams p = []) then
    let p := MkPlanner (pn_nTasksColl p) (pn_sorter p) stream (pn_streams p) (pn_capturingGraph p) in
    if bool_decide (stream ∈ pn_streams p) then Ret p
    else
      graph ← capturing stream;
      if negb (bool_decide (pn_streams p = [])) && negb (pn_capturingGraph p =? graph) then Fail ncclInvalidUsage
      else Ret (MkPlanner (pn_nTasksColl p) (pn_sorter p) stream (stream :: pn_streams p) graph)
  else Ret p.

(** What became of the call; [junk] is the operator struct before it is filled. *)
Inductive appended := Discarded | Launched (w : one_rank_work) | Queued.

Definition taskAppend_coll (junk : ncclDevRedOpFull) (id mask : Z) (info : coll_info) (p : planner) : outcome (planner * appended) :=
  if in_count info =? 0 then Ret (p, Discarded)
  else if (bool_decide (in_datatype info = ncclFloat8e4m3) || bool_decide (in_datatype info = ncclFloat8e5m2)) && (minCompCap <? 90) then Fail ncclInvalidArgument
  else
    opDev ← hostToDevRedOp recip junk (in_op info) (in_datatype info) users;
    if uc_nRanks users =? 1 then
      w ← ncclLaunchOneRank bf16 (in_recvbuff info) (in_sendbuff info) (in_count info) opDev (in_datatype info); Ret (p, Launched w)
    else
      let t := new_coll_task (uc_nRanks users) info opDev id mask in
      p ← add_stream (in_stream info) (MkPlanner (pn_nTasksColl p + 1) (pn_sorter p ++ [t]) (pn_streamRecent p) (pn_streams p) (pn_capturingGraph p));
      Ret (p, Queued).
End append.

(** ** Bins *)

Definition ncclNumFuncs : Z := 8.
Definition func_index (f : ncclFunc_t) : Z :=
  match f with
  | ncclFuncBroadcast => 0 | ncclFuncReduce => 1 | ncclFuncAllGather => 2 | ncclFuncReduceScatter => 3 | ncclFuncAllReduce => 4
  | ncclFuncSendRecv => 5 | ncclFuncSend => 6 | ncclFuncRecv => 7
  end.

Abbreviation ftask t := (ct_task t).

Definition fnOpTy (t : coll_task) : Z :=
  (func_index (t_func (ftask t)) * ncclNumDevRedOps + redop_index (t_opDev (ftask t))) * ncclNumTypes + datatype_index (t_datatype (ftask t)).

(** [tasksByFnOpTy], the last task of a bin first, and [fnOpTyIndices]. *)
Record fn_bins := MkFnBins { fb_lists : list (list coll_task); fb_indices : list Z }.
Definition no_bins : fn_bins := MkFnBins (replicate (Z.to_nat (ncclNumFuncs * ncclNumDevRedOps * ncclNumTypes)) []) [].

Definition bin_task (t : coll_task) (b : fn_bins) : outcome fn_bins :=
  let index := fnOpTy t in
  l ← zget (fb_lists b) index;
  lists ← zset (fb_lists b) index (t :: l);
  Ret (MkFnBins lists (if bool_decide (l = []) then fb_indices b ++ [index] else fb_indices b)).

Fixpoint bin_tasks (ts : list coll_task) (b : fn_bins) : outcome fn_bins :=
  match ts with [] => Ret b | t :: ts => b ← bin_task t b; bin_tasks ts b end.

(** ** Aggregates *)

Definition set_counts (t : ncclTaskColl) (count traffic : Z) : ncclTaskColl :=
  MkTaskColl (t_id t) (t_func t) (t_sendbuff t) (t_recvbuff t) count (t_root t) (t_datatype t) (t_opHost t) (t_opDev t) (t_chunkSteps t) (t_sliceSteps t)
    traffic (t_nMaxChannels t) (t_nWarps t) (t_algorithm t) (t_protocol t) (t_isCollnet t) (t_isNvls t) (t_devFuncId t) (t_regBufType t)
    (t_nCleanupQueueElts t) (t_sendMhandle t) (t_recvMhandle t) (t_sendNetHandles t) (t_recvNetHandles t) (t_srecvNetHandles t) (t_eActivationMask t).

Definition add_agg (agg : ncclTaskColl) (t : coll_task) : ncclTaskColl :=
  set_counts agg (u64 (t_count agg + t_count (ftask t))) (u64 (t_trafficBytes agg + t_trafficBytes (ftask t))).

(** The tasks after the first one whose traffic is below [limit]: their sums are
    added to the aggregate; [aggEnd] is the head of the rest. *)
Fixpoint aggregate (limit : Z) (agg : ncclTaskColl) (l : list coll_task) : ncclTaskColl * list coll_task * list coll_task :=
  match l with
  | [] => (agg, [], [])
  | t :: l =>
    if t_trafficBytes (ftask t) <? limit then
      let '(agg, taken, rest) := aggregate limit (add_agg agg t) l in (agg, t :: taken, rest)
    else (agg, [], t :: l)
  end.

(** The scheduling constraints of an algorithm, as [isCollnet] and [isNvls]. *)
Definition constraints (nNodes algorithm : Z) : bool * bool :=
  if (algorithm =? NCCL_ALGO_NVLS) || (algorithm =? NCCL_ALGO_NVLS_TREE) then ((algorithm =? NCCL_ALGO_NVLS) && (1 <? nNodes), true)
  else ((algorithm =? NCCL_ALGO_COLLNET_CHAIN) || (algorithm =? NCCL_ALGO_COLLNET_DIRECT), false).

(** What a task takes from its aggregate. *)
Definition update_task (agg : ncclTaskColl) (devFuncId : Z) (isCollnet isNvls : bool) (t : ncclTaskColl) : ncclTaskColl :=
  MkTaskColl (t_id t) (t_func t) (t_sendbuff t) (t_recvbuff t) (t_count t) (t_root t) (t_datatype t) (t_opHost t) (t_opDev t) (t_chunkSteps t) (t_sliceSteps t)
    (if t_protocol agg =? NCCL_PROTO_LL then u64 (t_trafficBytes t * 4) else t_trafficBytes t) (t_nMaxChannels agg) (t_nWarps agg) (t_algorithm agg) (t_protocol agg)
    isCollnet isNvls devFuncId (t_regBufType t)
    (t_nCleanupQueueElts t) (t_sendMhandle t) (t_recvMhandle t) (t_sendNetHandles t) (t_recvNetHandles t) (t_srecvNetHandles t) (t_eActivationMask t).

(** [collBins[isCollnet][isNvls]], and the time given to [simInfo]. *)
Record coll_bins := MkCollBins { cb_00 : list coll_task; cb_01 : list coll_task; cb_10 : list coll_task; cb_11 : list coll_task; cb_time : spec_float }.
Definition push_bin (isCollnet isNvls : bool) (ts : list coll_task) (time : spec_float) (b : coll_bins) : coll_bins :=
  match isCollnet, isNvls with
  | false, false => MkCollBins (cb_00 b ++ ts) (cb_01 b) (cb_10 b) (cb_11 b) time
  | false, true => MkCollBins (cb_00 b) (cb_01 b ++ ts) (cb_10 b) (cb_11 b) time
  | true, false => MkCollBins (cb_00 b) (cb_01 b) (cb_10 b ++ ts) (cb_11 b) time
  | true, true => MkCollBins (cb_00 b) (cb_01 b) (cb_10 b) (cb_11 b ++ ts) time
  end.

Section prepare.
Context (envSet : bool) (plugin : option tuner) (regBuff : ncclTaskColl -> bool) (rowToId : Z -> Z) (NumTypes : Z) (tune : tune_comm) (nvls : bool).

Definition choose (agg : ncclTaskColl) (collNetSupport nvlsSupport nTasksPerChannel : Z) : outcome (ncclTaskColl * Z * spec_float) :=
  '(agg, time) ← getAlgoInfo envSet plugin regBuff tune agg collNetSupport nvlsSupport nTasksPerChannel;
  Ret (agg, ncclDevFuncId rowToId NumTypes (t_func agg) (redop_index (t_opDev agg)) (datatype_index (t_datatype agg)) (t_algorithm agg) (t_protocol agg) mod 2 ^ 30, time).

(** The aggregates of one bin; as many as tasks at most. *)
Fixpoint bin_aggregates (fuel : nat) (collNetSupport nvlsSupport nTasksPerChannel : Z) (l : list coll_task) (b : coll_bins) : outcome coll_bins :=
  match l with
  | [] => Ret b
  | beg :: l =>
    match fuel with
    | O => Stuck
    | S fuel =>
      let '(agg, taken, rest) := aggregate (u64 (4 * t_trafficBytes (ftask beg))) (ftask beg) l in
      '(agg, devFuncId, time) ← choose agg collNetSupport nvlsSupport nTasksPerChannel;
      let '(isCollnet, isNvls) := constraints (tn_nNodes tune) (t_algorithm agg) in
      let upd t := with_task t (update_task agg devFuncId isCollnet isNvls (ftask t)) in
      bin_aggregates fuel collNetSupport nvlsSupport nTasksPerChannel rest (push_bin isCollnet isNvls (upd <$> beg :: taken) time b)
    end
  end.

Definition nvlsSupport_of (t : ncclTaskColl) : bool := nvls && (ncclNvlsSupported (t_opDev t) (t_datatype t) || bool_decide (t_func t = ncclFuncAllGather)).

Fixpoint each_bin (lists : list (list coll_task)) (nTasksColl : Z) (indices : list Z) (b : coll_bins) : outcome coll_bins :=
  match indices with
  | [] => Ret b
  | i :: indices =>
    l ← zget lists i;
    match l with
    | [] => Stuck (* aggBeg is not null *)
    | beg :: _ =>
      collNetSupport ← getCollNetSupport tune (ftask beg);
      b ← bin_aggregates (length l) collNetSupport (Z.b2z (nvlsSupport_of (ftask beg))) (divUp nTasksColl (tn_nChannels tune)) l b;
      each_bin lists nTasksColl indices b
    end
  end.

(** From the sorted tasks to [collTaskQueue]. *)
Definition queue_tasks (nTasksColl : Z) (time : spec_float) (tasks queue : list coll_task) : outcome (list coll_task * spec_float) :=
  b ← bin_tasks tasks no_bins;
  c ← each_bin (fb_lists b) nTasksColl (fb_indices b) (MkCollBins [] [] [] [] time);
  Ret (queue ++ cb_00 c ++ cb_01 c ++ cb_10 c ++ cb_11 c, cb_time c).
End prepare.

(** ** Work structs *)

(** The fields of [ncclDevWorkColl] that do not depend on channels. *)
Record dev_work := MkDevWork {
  dw_sendbuff : Z; dw_recvbuff : Z; dw_sendbuffOffset : Z; dw_recvbuffOffset : Z; dw_sendbuffRmtAddrs : Z; dw_recvbuffRmtAddrs : Z; dw_root : Z; dw_nWarps : Z;
  dw_redOpArg : Z; dw_redOpArgIsPtr : bool; dw_oneNode : bool; dw_isOneRPN : bool; dw_netRegUsed : bool; dw_regUsed : bool; dw_profilerEnabled : bool }.

(** A node of the work queues: [wi_reg] are [dnInputs[0]] and [dnOutputs[0]] of an
    [ncclDevWorkCollReg]. *)
Record work_item := MkWorkItem { wi_node : ncclWorkList; wi_work : dev_work; wi_reg : option (Z * Z) }.

Definition ncclProfileKernelCh : Z := 2 ^ 6.

Definition has_reg (t : ncclTaskColl) (v : Z) : bool := negb (Z.land (t_regBufType t) v =? 0).

Definition new_work (oneNode isOneRPN profiler : bool) (t : coll_task) : dev_work :=
  MkDevWork (t_sendbuff (ftask t)) (t_recvbuff (ftask t)) (ct_sendbuffOffset t) (ct_recvbuffOffset t) (ct_sendbuffRmtAddrs t) (ct_recvbuffRmtAddrs t)
    (u32 (t_root (ftask t))) (u8 (t_nWarps (ftask t))) (ct_scalarArg t) (ct_scalarArgIsPtr t) oneNode isOneRPN
    (has_reg (ftask t) NCCL_NET_REG_BUFFER) (has_reg (ftask t) (Z.lor NCCL_IPC_REG_BUFFER NCCL_NVLS_REG_BUFFER))
    (profiler && negb (Z.land (t_eActivationMask (ftask t)) ncclProfileKernelCh =? 0)).

Definition new_node (w : dev_work) (t : coll_task) (send0 recv0 : Z) : work_item :=
  if has_reg (ftask t) NCCL_NVLS_REG_BUFFER then MkWorkItem (MkWorkList ncclDevWorkTypeCollReg sizeof_ncclDevWorkCollReg None 0) w (Some (send0, recv0))
  else MkWorkItem (MkWorkList ncclDevWorkTypeColl sizeof_ncclDevWorkColl None 0) w None.

Section works.
Context {R : Type} (calls : reg_calls R) (comm : creg_comm) (runtimeConn profiler : bool).

(** What the walk over the tasks changes besides them. *)
Record prep_state := MkPrep {
  ps_reg : R; ps_cleanup : list Z; ps_initAlgoChannels : list bool; ps_algoNeedConnect : list bool; ps_needConnect : bool; ps_tmpWorks : list work_item }.

(** [info] and the out-parameters, per task. *)
Definition reg_of (t : coll_task) (s : prep_state) : creg R := MkCreg t (ps_reg s) (ps_cleanup s) true 0 0.

(** Connection of the algorithms used for the first time. *)
Definition mark_connect (algorithm : Z) (regNeedConnect : bool) (s : prep_state) : outcome prep_state :=
  inited ← zget (ps_initAlgoChannels s) algorithm;
  if runtimeConn && negb inited then
    nvlsInited ← zget (ps_initAlgoChannels s) NCCL_ALGO_NVLS;
    s ← (if (algorithm =? NCCL_ALGO_NVLS_TREE) && negb nvlsInited && regNeedConnect then
           i ← zset (ps_initAlgoChannels s) NCCL_ALGO_NVLS true; a ← zset (ps_algoNeedConnect s) NCCL_ALGO_NVLS true;
           Ret (MkPrep (ps_reg s) (ps_cleanup s) i a (ps_needConnect s) (ps_tmpWorks s))
         else Ret s);
    if negb (algorithm =? NCCL_ALGO_NVLS) || regNeedConnect then
      i ← zset (ps_initAlgoChannels s) algorithm true; a ← zset (ps_algoNeedConnect s) algorithm true;
      Ret (MkPrep (ps_reg s) (ps_cleanup s) i a true (ps_tmpWorks s))
    else Ret s
  else Ret s.

Definition prepare_task (t : coll_task) (s : prep_state) : outcome (coll_task * prep_state) :=
  let g := ncclRegisterCollNvlsBuffers calls comm (reg_of t s) in
  let t := cg_task g in
  s ← mark_connect (t_algorithm (ftask t)) (cg_needConnect g) (MkPrep (cg_state g) (cg_cleanup g) (ps_initAlgoChannels s) (ps_algoNeedConnect s) (ps_needConnect s) (ps_tmpWorks s));
  Ret (t, if is_nvls (ftask t) then
            let node := new_node (new_work (kr_nNodes comm =? 1) false profiler t) t (cg_send0 g) (cg_recv0 g) in
            MkPrep (ps_reg s) (ps_cleanup s) (ps_initAlgoChannels s) (ps_algoNeedConnect s) (ps_needConnect s) (ps_tmpWorks s ++ [node])
          else s).

(** The tasks of the queue, in order. *)
Fixpoint walk {S A B} (body : A -> S -> outcome (B * S)) (ts : list A) (s : S) : outcome (list B * S) :=
  match ts with
  | [] => Ret ([], s)
  | t :: ts => '(t, s) ← body t s; '(ts, s) ← walk body ts s; Ret (t :: ts, s)
  end.

Definition prepare_tasks (ts : list coll_task) (s : prep_state) : outcome (list coll_task * prep_state) := walk prepare_task ts s.

(** One task of [ncclTasksRegAndEnqueue]; the queue of works is the list of the
    nodes.  An empty [tmpCollWorkQueue] gives a null node, which cannot be queued. *)
Definition enqueue_task (t : coll_task) (s : prep_state) : outcome ((coll_task * work_item) * prep_state) :=
  if is_nvls (ftask t) then
    match ps_tmpWorks s with
    | [] => Stuck
    | node :: rest => Ret ((t, node), MkPrep (ps_reg s) (ps_cleanup s) (ps_initAlgoChannels s) (ps_algoNeedConnect s) (ps_needConnect s) rest)
    end
  else
    g ← ncclRegisterCollBuffers calls comm (reg_of t s);
    let t := cg_task g in
    Ret ((t, new_node (new_work (kr_nNodes comm =? 1) (kr_isOneRPN comm) profiler t) t (cg_send0 g) (cg_recv0 g)),
         MkPrep (cg_state g) (cg_cleanup g) (ps_initAlgoChannels s) (ps_algoNeedConnect s) (ps_needConnect s) (ps_tmpWorks s)).

(** [collTaskQueue] with the works added to [collWorkQueue]. *)
Definition ncclTasksRegAndEnqueue (ts : list coll_task) (s : prep_state) : outcome (list (coll_task * work_item) * prep_state) :=
  '(tws, s) ← walk enqueue_task ts s;
  _ ← require (bool_decide (length (ps_tmpWorks s) = 0%nat)); (* assert *)
  Ret (tws, s).
End works.
Arguments MkPrep {R}. Arguments ps_reg {R}. Arguments ps_cleanup {R}. Arguments ps_initAlgoChannels {R}. Arguments ps_algoNeedConnect {R}.
Arguments ps_needConnect {R}. Arguments ps_tmpWorks {R}.

(** [planner->persistent] is set from the captured graph. *)
Definition with_persistent (comm : creg_comm) (graphId : Z) : creg_comm :=
  MkCregComm (kr_nRanks comm) (kr_nNodes comm) (kr_nChannels comm) (kr_localRegister comm) (kr_graphRegister comm) (negb (graphId =? 2 ^ 64 - 1))
    (kr_nvlsRegSupport comm) (kr_compCap comm) (kr_minCTAs comm) (kr_maxCTAs comm) (kr_isOneRPN comm) (kr_intraNodeP2pSupport comm) (kr_useNetPXN comm) (kr_useGdr comm) (kr_netUnpack comm)
    (kr_directUp comm) (kr_directDown comm) (kr_rings comm) (kr_trees comm) (kr_chains comm) (kr_recv comm) (kr_send comm) (kr_canConnect comm).

(** What a tuner plugin is told of the buffers: both are in the registration cache, or
    the graph will register them. *)
Definition regBuff_of {R} (calls : reg_calls R) (comm : creg_comm) (graphId : Z) (s : prep_state (R := R)) (info : ncclTaskColl) : bool :=
  let '(sendSize, recvSize) := reg_sizes comm info in
  let found buff size := match ncclRegFind (kc_cache calls (ps_reg s)) buff size with Some _ => true | None => false end in
  (found (t_sendbuff info) sendSize && found (t_recvbuff info) recvSize) || (negb (graphId =? 2 ^ 64 - 1) && kr_graphRegister comm).

(** The whole of [ncclPrepareTasks]; [tasks] come from the sorter, [queue] is
    [collTaskQueue] so far. *)
Definition ncclPrepareTasks {R} (envSet : bool) (plugin : option tuner) (rowToId : Z -> Z) (NumTypes : Z) (tune : tune_comm) (nvls : bool)
    (calls : reg_calls R) (comm : creg_comm) (runtimeConn profiler : bool) (p : planner) (time : spec_float) (tasks queue : list coll_task) (s : prep_state (R := R))
    : outcome (list coll_task * spec_float * prep_state (R := R)) :=
  '(queue, time) ← queue_tasks envSet plugin (regBuff_of calls comm (pn_capturingGraph p) s) rowToId NumTypes tune nvls (pn_nTasksColl p) time tasks queue;
  '(queue, s) ← prepare_tasks calls (with_persistent comm (pn_capturingGraph p)) runtimeConn profiler queue s;
  Ret (queue, time, s).

(** ** The bins by function, operator and type *)

Lemma fnOpTy_range t : 0 <= fnOpTy t < ncclNumFuncs * ncclNumDevRedOps * ncclNumTypes.
Proof.
  unfold fnOpTy. assert (0 <= func_index (t_func (ftask t)) < 8) by (by destruct (t_func (ftask t))). assert (0 <= redop_index (t_opDev (ftask t)) < 5) by (by destruct (t_opDev (ftask t))).
  assert (0 <= datatype_index (t_datatype (ftask t)) < 12) by (by destruct (t_datatype (ftask t))). unfold ncclNumFuncs, ncclNumDevRedOps, ncclNumTypes. lia.
Qed.

Definition bin_at (lists : list (list coll_task)) (i : Z) : list coll_task := default [] (lists !! Z.to_nat i).

(** The functions, operators and types in the order they first come up. *)
Definition key_order (ts : list coll_task) : list Z := foldl (fun ks t => if decide (fnOpTy t ∈ ks) then ks else ks ++ [fnOpTy t]) [] ts.

Lemma key_order_snoc ts t : key_order (ts ++ [t]) = if decide (fnOpTy t ∈ key_order ts) then key_order ts else key_order ts ++ [fnOpTy t].
Proof. unfold key_order. by rewrite foldl_app. Qed.

(** The bins hold the tasks [ts], the last one first, each in its bin, and the indices
    are those of the bins in use, in the order they came up. *)
Record bins_hold (b : fn_bins) (ts : list coll_task) : Prop := {
  bh_length : length (fb_lists b) = Z.to_nat (ncclNumFuncs * ncclNumDevRedOps * ncclNumTypes);
  bh_indices : NoDup (fb_indices b) /\ forall i, i ∈ fb_indices b -> 0 <= i < ncclNumFuncs * ncclNumDevRedOps * ncclNumTypes;
  bh_used : forall i, 0 <= i -> i ∈ fb_indices b <-> bin_at (fb_lists b) i <> [];
  bh_bin : forall i, 0 <= i -> bin_at (fb_lists b) i = filter (fun t => fnOpTy t = i) ts;
  bh_order : fb_indices b = key_order (reverse ts);
  bh_tasks : (fb_indices b ≫= bin_at (fb_lists b)) ≡ₚ ts;
}.

Lemma no_bins_hold : bins_hold no_bins [].
Proof.
  assert (forall i, bin_at (fb_lists no_bins) i = []) as H by (intros i; unfold bin_at, no_bins; cbn [fb_lists]; destruct (replicate _ _ !! _) eqn:E; [|done]; by apply lookup_replicate in E as [-> _]).
  split; [apply length_replicate|split; [constructor|intros i Hi; by apply not_elem_of_nil in Hi]|..]; [intros i _; rewrite H; split; [intros Hi; by apply not_elem_of_nil in Hi|done]|intros i _; by rewrite H|done|done].
Qed.

Lemma bin_at_set lists i j l : (Z.to_nat i < length lists)%nat -> 0 <= i -> 0 <= j -> bin_at (<[Z.to_nat i := l]> lists) j = if bool_decide (j = i) then l else bin_at lists j.
Proof.
  intros Hi Hi0 Hj. unfold bin_at. case_bool_decide as E; [subst; by rewrite list_lookup_insert_eq|]. rewrite list_lookup_insert_ne; [done|lia].
Qed.

Lemma bind_ext (f g : Z -> list coll_task) l : (forall i, i ∈ l -> f i = g i) -> l ≫= f = l ≫= g.
Proof. induction l as [|i l IH]; intros H; [done|]. rewrite !bind_cons, H, IH; [done|..]; set_solver. Qed.

Lemma bin_task_hold b ts t : bins_hold b ts -> wp (bin_task t b) (fun b' => bins_hold b' (t :: ts)).
Proof.
  intros [H1 [H2 H2'] H3 H4 Hord H5]. unfold bin_task. pose proof (fnOpTy_range t) as Hr. set (i := fnOpTy t) in *. set (l := bin_at (fb_lists b) i).
  assert (fb_lists b !! Z.to_nat i = Some l) as Hl. { unfold l, bin_at. destruct (lookup_lt_is_Some_2 (fb_lists b) (Z.to_nat i)) as [x E]; [lia|]. by rewrite E. }
  wp_bind. apply wpx_zget. exists l. split; [lia|]. split; [done|]. wp_bind. apply wpx_zset; [lia|]. apply wpx_ret.
  assert (forall j, 0 <= j -> bin_at (<[Z.to_nat i := t :: l]> (fb_lists b)) j = if bool_decide (j = i) then t :: l else bin_at (fb_lists b) j) as Hat by (intros j Hj; apply bin_at_set; lia).
  assert (forall js, i ∉ js -> (forall j, j ∈ js -> 0 <= j) -> js ≫= bin_at (<[Z.to_nat i := t :: l]> (fb_lists b)) = js ≫= bin_at (fb_lists b)) as Hout by (intros js Hn Hj; apply bind_ext; intros j Hj'; rewrite Hat by auto; case_bool_decide; [by subst|done]).
  pose proof (H3 i (proj1 Hr)) as Hu. fold l in Hu. split; cbn [fb_lists fb_indices].
  - by rewrite length_insert.
  - case_bool_decide as El; [|done]. split; [apply NoDup_app; split; [done|]; split; [|apply NoDup_singleton]; intros j Hj ->%list_elem_of_singleton; by apply Hu|]. intros j [Hj| ->%list_elem_of_singleton]%elem_of_app; auto.
  - intros j Hj. rewrite Hat by done. case_bool_decide as El; case_bool_decide as Ej; subst; [set_solver| |split; [done|]; intros _; by apply Hu|by apply H3].
    rewrite elem_of_app, list_elem_of_singleton, H3 by done. tauto.
  - intros j Hj. rewrite Hat, filter_cons by done. fold i. case_bool_decide as Ej; [subst j; rewrite decide_True by done; unfold l; by rewrite H4|rewrite decide_False by congruence; by apply H4].
  - rewrite reverse_cons, key_order_snoc, <- Hord. fold i. case_bool_decide as El; [rewrite decide_False by (intros Hi; by apply Hu in Hi); done|rewrite decide_True by (by apply Hu); done].
  - rewrite <- H5. case_bool_decide as El.
    + assert (i ∉ fb_indices b) as Hn by (intros Hi; by apply Hu in Hi). rewrite bind_app, Hout by (try done; intros; by apply H2'). rewrite bind_singleton, Hat by lia. rewrite bool_decide_true, El by done. by rewrite Permutation_app_comm.
    + assert (i ∈ fb_indices b) as Hi by by apply Hu. apply list_elem_of_split in Hi as (l1 & l2 & E). rewrite E in H2 |- *. apply NoDup_app in H2 as (_ & N1 & [N2 _]%NoDup_cons).
      assert (i ∉ l1) as N3 by (intros Hi; by apply (N1 i Hi), elem_of_cons; left). rewrite !bind_app, !bind_cons, !Hout; [|done|intros; apply H2'; rewrite E; set_solver|done|intros; apply H2'; rewrite E; set_solver].
      rewrite Hat, bool_decide_true by (done || lia). fold l. cbn [app]. by rewrite <- Permutation_middle.
Qed.

Lemma bin_tasks_hold ts : forall b ts0, bins_hold b ts0 -> wp (bin_tasks ts b) (fun b' => bins_hold b' (reverse ts ++ ts0)).
Proof.
  induction ts as [|t ts IH]; intros b ts0 Hb; [done|]. cbn [bin_tasks]. wp_bind. eapply wpx_mono; [by apply bin_task_hold| |done]. intros b' Hb'. cbn beta. eapply wpx_mono; [by apply (IH b' (t :: ts0))| |done].
  intros b2 Hb2. by rewrite reverse_cons, <- (assoc_L (++)).
Qed.

(** ** Aggregates and their choice *)

Lemma aggregate_run limit taken rest : forall agg, Forall (fun t => t_trafficBytes (ftask t) < limit) taken -> (forall t, head rest = Some t -> limit <= t_trafficBytes (ftask t)) ->
  aggregate limit agg (taken ++ rest) = (foldl add_agg agg taken, taken, rest).
Proof.
  induction taken as [|t taken IH]; intros agg Ht Hr; cbn [app aggregate foldl].
  - destruct rest as [|t rest]; [done|]. cbn [aggregate]. by rewrite (proj2 (Z.ltb_ge _ _)) by (apply Hr; done).
  - apply Forall_cons in Ht as [Ht Hts]. rewrite (proj2 (Z.ltb_lt _ _)) by done. by rewrite IH.
Qed.

Lemma aggregate_split limit l : exists taken rest, l = taken ++ rest /\ Forall (fun t => t_trafficBytes (ftask t) < limit) taken /\ (forall t, head rest = Some t -> limit <= t_trafficBytes (ftask t)).
Proof.
  induction l as [|t l (taken & rest & -> & H1 & H2)]; [by exists [], []|]. destruct (decide (t_trafficBytes (ftask t) < limit)) as [Ht|Ht]; [by exists (t :: taken), rest; split_and!; [|constructor|]|].
  exists [], (t :: taken ++ rest). split_and!; [done|done|]. intros t' [= <-]. lia.
Qed.

(** *** The aggregates of a group, stated without the loops

    An aggregate is a task [g_beg] with the tasks [g_taken] after it in its bin;
    [g_first] is the first task of the bin, the one the network is asked about. *)
Record coll_group := MkGroup { g_first : coll_task; g_beg : coll_task; g_taken : list coll_task }.
Definition g_tasks (g : coll_group) : list coll_task := g_beg g :: g_taken g.

(** A bin is cut into the longest runs in which each task has less than four times the
    traffic of the run's first. *)
Inductive runs (b0 : coll_task) : list coll_task -> list coll_group -> Prop :=
| runs_nil : runs b0 [] []
| runs_cons beg taken rest gs :
    Forall (fun t => t_trafficBytes (ftask t) < u64 (4 * t_trafficBytes (ftask beg))) taken ->
    (forall t, head rest = Some t -> u64 (4 * t_trafficBytes (ftask beg)) <= t_trafficBytes (ftask t)) ->
    runs b0 rest gs -> runs b0 (beg :: taken ++ rest) (MkGroup b0 beg taken :: gs).

(** A bin: the tasks of one function, operator and type, the last one first. *)
Definition bin_of (tasks : list coll_task) (i : Z) : list coll_task := filter (fun t => fnOpTy t = i) (reverse tasks).

(** The aggregates of [tasks], bin by bin in the order the bins come up. *)
Definition groups (tasks : list coll_task) (gs : list coll_group) : Prop := exists gss, gs = concat gss /\
  Forall2 (fun i g => exists b0 l, bin_of tasks i = b0 :: l /\ runs b0 (bin_of tasks i) g) (key_order tasks) gss.

Lemma runs_exist b0 l : exists gs, runs b0 l gs.
Proof.
  induction l as [l IH] using (induction_ltof1 _ (@length coll_task)). destruct l as [|beg l]; [by exists []; constructor|].
  destruct (aggregate_split (u64 (4 * t_trafficBytes (ftask beg))) l) as (taken & rest & -> & H1 & H2). destruct (IH rest) as [gs Hg]; [unfold ltof; cbn; rewrite length_app; lia|].
  exists (MkGroup b0 beg taken :: gs). by constructor.
Qed.

Lemma runs_tasks b0 l gs : runs b0 l gs -> concat (g_tasks <$> gs) = l.
Proof. induction 1 as [|beg taken rest gs _ _ _ IH]; [done|]. cbn. by rewrite IH. Qed.

(** What a plugin may do: fail, or give a table of the same size and a number of
    channels that fits; entries that are ignored ([NCCL_ALGO_PROTO_IGNORE]) stay so. *)
Definition plugin_ok (plugin : option tuner) : Prop :=
  forall f, plugin = Some f -> forall fn nBytes np e reg, (exists r, f fn nBytes np (tab e) reg = Fail r) \/
    exists e' n, f fn nBytes np (tab e) reg = Ret (tab e', n) /\ 0 <= n <= 64 /\ forall k, 0 <= k < 21 -> usable (e' k) = true -> SFeqb (e k) minus_one = false.

Lemma getAlgoInfo_defined envSet plugin regBuff comm info cn nv np : tune_ok comm -> plugin_ok plugin ->
  wpx (getAlgoInfo envSet plugin regBuff comm info cn nv np)
    (fun r => exists k nc nw, 0 <= k < 21 /\ r.1 = set_tuned info (k / 3) (k mod 3) nc nw /\ 1 <= nc <= 64 /\ 3 <= nw <= 20) (fun _ => True).
Proof.
  intros Hc Hp. set (nBytes := u64 (ncclTypeSize (t_datatype info) * ncclFuncMaxSendRecvCount (t_func info) (tn_nRanks comm) (t_count info))).
  set (C := costs comm info nBytes cn nv np).
  assert ((exists r, tuned_table plugin regBuff comm info cn nv np = Fail r) \/ exists e n, tuned_table plugin regBuff comm info cn nv np = Ret (tab e, n) /\ 0 <= n <= 64 /\ forall k, 0 <= k < 21 -> usable (e k) = true -> SFeqb (C k) minus_one = false) as H.
  { unfold tuned_table. fold nBytes C. destruct plugin as [f|]; [by apply Hp|]. right. exists C, 0. split_and!; try done. intros k _ Hu. apply usable_not_ignored. by apply andb_true_iff in Hu as [Hu _]. }
  destruct H as [[r Ht]|(e & n & Ht & Hn & He)]; [by rewrite getAlgoInfo_table, Ht by done|].
  eapply wpx_mono; [by apply (getAlgoInfo_choice _ _ _ _ _ _ _ _ e n)| |done]. intros r (k & nc & nw & (Hk & Hu & _) & -> & Hnw & H1 & H2). exists k, nc, nw. split; [done|]. split; [done|]. split; [|done].
  destruct (decide (n = 0)) as [->|Hn0]; [|rewrite (H1 Hn0); lia]. specialize (H2 eq_refl). pose proof (to_channels _ Hc) as [Hch Hv]. destruct (nvls_algo (k / 3)) eqn:Ea; [|lia].
  specialize (He k Hk Hu). destruct (decide (tn_nvlsChannels comm = 0)) as [E0|]; [|lia]. unfold C in He. by rewrite (costs_without_nvls comm info nBytes cn nv np k Hc E0 Ea) in He.
Qed.

Section choice.
Context (envSet : bool) (plugin : option tuner) (regBuff : ncclTaskColl -> bool) (rowToId : Z -> Z) (NumTypes : Z) (tune : tune_comm) (nvls : bool) (nTasks : Z).
Context (Htune : tune_ok tune) (Hplugin : plugin_ok plugin).
Let per := divUp nTasks (tn_nChannels tune).
Let pick agg cn nv := choose envSet plugin regBuff rowToId NumTypes tune agg cn nv per.

(** The choice for an aggregate, made for the sum of its tasks. *)
Definition group_choice (g : coll_group) : outcome (ncclTaskColl * Z * spec_float) :=
  cn ← getCollNetSupport tune (ftask (g_first g));
  pick (foldl add_agg (ftask (g_beg g)) (g_taken g)) cn (Z.b2z (nvlsSupport_of nvls (ftask (g_first g)))).

(** The tasks of an aggregate with what was chosen. *)
Definition group_out (g : coll_group) (r : ncclTaskColl * Z * spec_float) : list coll_task :=
  let '(isCollnet, isNvls) := constraints (tn_nNodes tune) (t_algorithm r.1.1) in
  (fun t => with_task t (update_task r.1.1 r.1.2 isCollnet isNvls (ftask t))) <$> g_tasks g.

Definition settled (gs : list coll_group) (outs : list (list coll_task)) : Prop := Forall2 (fun g o => exists r, group_choice g = Ret r /\ o = group_out g r) gs outs.

(** The first aggregate for which the choice fails, and how. *)
Definition first_failure (gs : list coll_group) (e : ncclResult_t) : Prop :=
  exists gs1 g gs2, gs = gs1 ++ g :: gs2 /\ Forall (fun g => exists r, group_choice g = Ret r) gs1 /\ group_choice g = Fail e.

Lemma first_failure_app gs gs' outs e : settled gs outs -> first_failure gs' e -> first_failure (gs ++ gs') e.
Proof.
  intros Hs (gs1 & g & gs2 & -> & H1 & H2). exists (gs ++ gs1), g, gs2. rewrite <- (assoc_L (++)). split; [done|]. split; [|done]. apply Forall_app. split; [|done].
  clear -Hs. induction Hs as [|g o gs os (r & Hr & _) _ IH]; constructor; eauto.
Qed.

Lemma first_failure_l gs gs' e : first_failure gs e -> first_failure (gs ++ gs') e.
Proof. intros (gs1 & g & gs2 & -> & H1 & H2). exists gs1, g, (gs2 ++ gs'). by rewrite <- (assoc_L (++)). Qed.

(** The place of a task in the queue. *)
Definition flags (t : coll_task) : bool * bool := (t_isCollnet (ftask t), t_isNvls (ftask t)).
Definition with_flags (f : bool * bool) (ts : list coll_task) : list coll_task := filter (fun t => flags t = f) ts.

(** The four bins are the tasks with their flags, in order. *)
Definition flag_bins (b : coll_bins) (ts : list coll_task) : Prop :=
  cb_00 b = with_flags (false, false) ts /\ cb_01 b = with_flags (false, true) ts /\ cb_10 b = with_flags (true, false) ts /\ cb_11 b = with_flags (true, true) ts.

Lemma with_flags_all f g ts : Forall (fun t => flags t = f) ts -> with_flags g ts = if bool_decide (f = g) then ts else [].
Proof.
  unfold with_flags. induction 1 as [|t ts Ht _ IH]; [by case_bool_decide|]. case_bool_decide; [rewrite filter_cons_True, IH by congruence; done|rewrite filter_cons_False by congruence; done].
Qed.

Lemma push_flags c n ts time b outs : Forall (fun t => flags t = (c, n)) ts -> flag_bins b outs -> flag_bins (push_bin c n ts time b) (outs ++ ts).
Proof.
  intros Hf (H1 & H2 & H3 & H4). unfold flag_bins, with_flags in *. rewrite !filter_app. pose proof (fun g => with_flags_all _ g _ Hf) as H. unfold with_flags in H. rewrite !H.
  destruct c, n; cbn; rewrite ?app_nil_r, H1, H2, H3, H4; done.
Qed.

Lemma bins_perm b outs : flag_bins b outs -> cb_00 b ++ cb_01 b ++ cb_10 b ++ cb_11 b ≡ₚ outs.
Proof.
  intros (-> & -> & -> & ->). unfold with_flags. induction outs as [|t outs IH]; [done|]. rewrite !filter_cons. destruct (flags t) as [[] []]; repeat (case_decide; [|]); try congruence; cbn [app]; rewrite <- ?Permutation_middle, IH; done.
Qed.

Lemma choose_defined agg cn nv : wpx (pick agg cn nv) (fun r => exists k nc nw, 0 <= k < 21 /\ r.1.1 = set_tuned agg (k / 3) (k mod 3) nc nw /\ 1 <= nc <= 64 /\ 3 <= nw <= 20) (fun _ => True).
Proof.
  unfold pick, choose. wp_bind. eapply wpx_mono; [by apply getAlgoInfo_defined| |done]. intros [a tm] H. exact H.
Qed.

Lemma group_out_flags g r : Forall (fun t => flags t = constraints (tn_nNodes tune) (t_algorithm r.1.1)) (group_out g r).
Proof. unfold group_out. destruct (constraints _ _) as [c n]. apply Forall_fmap, Forall_forall. by intros t _. Qed.

Lemma bin_aggregates_spec b0 cn l gs : getCollNetSupport tune (ftask b0) = Ret cn -> runs b0 l gs -> forall fuel b outs, (length l <= fuel)%nat -> flag_bins b outs ->
  wpx (bin_aggregates envSet plugin regBuff rowToId NumTypes tune fuel cn (Z.b2z (nvlsSupport_of nvls (ftask b0))) per l b)
    (fun b' => exists outs', flag_bins b' (outs ++ concat outs') /\ settled gs outs') (first_failure gs).
Proof.
  intros Hcn. induction 1 as [|beg taken rest gs Ht Hr _ IH]; intros fuel b outs Hl Hb; [destruct fuel; exists []; cbn; rewrite app_nil_r; by split; [|constructor]|].
  destruct fuel as [|fuel]; [cbn [length] in Hl; lia|]. cbn [bin_aggregates]. rewrite aggregate_run by done. wp_bind. set (g := MkGroup b0 beg taken).
  assert (group_choice g = pick (foldl add_agg (ftask beg) taken) cn (Z.b2z (nvlsSupport_of nvls (ftask b0)))) as Eg by (unfold group_choice; cbn [g g_first g_beg g_taken]; rewrite Hcn; done). fold (pick (foldl add_agg (ftask beg) taken) cn (Z.b2z (nvlsSupport_of nvls (ftask b0)))). rewrite <- Eg.
  pose proof (choose_defined (foldl add_agg (ftask beg) taken) cn (Z.b2z (nvlsSupport_of nvls (ftask b0)))) as Hd. rewrite <- Eg in Hd. destruct (group_choice g) as [[[agg id] time]|e|] eqn:Ep; [|by exists [], g, gs|done]. cbn [wpx]. clear Hd.
  pose proof (group_out_flags g (agg, id, time)) as Hf. assert (settled [g] [group_out g (agg, id, time)]) as Hs by (constructor; [by eexists|constructor]). unfold group_out in Hf, Hs. cbn [fst snd] in Hf, Hs. cbn beta iota zeta in *. destruct (constraints (tn_nNodes tune) (t_algorithm agg)) as [c n].
  eapply wpx_mono; [eapply IH; [cbn [length] in Hl; rewrite length_app in Hl; lia|apply push_flags; [exact Hf|exact Hb]]| |].
  - intros b' (outs' & Hb' & Hs'). eexists ([_] ++ outs'). rewrite concat_app. cbn [concat]. rewrite app_nil_r, (assoc_L (++)). split; [exact Hb'|]. unfold settled. change (g :: gs) with ([g] ++ gs). apply Forall2_app; [exact Hs|exact Hs'].
  - intros e He. by apply (first_failure_app [g] gs _ e Hs).
Qed.

Lemma each_bin_spec tasks lists indices gss : (forall t, t ∈ tasks -> exists cn, getCollNetSupport tune (ftask t) = Ret cn) ->
  (forall i, i ∈ indices -> 0 <= i /\ bin_at lists i = bin_of tasks i) ->
  Forall2 (fun i g => exists b0 l, bin_of tasks i = b0 :: l /\ runs b0 (bin_of tasks i) g) indices gss -> forall b outs, flag_bins b outs ->
  wpx (each_bin envSet plugin regBuff rowToId NumTypes tune nvls lists nTasks indices b)
    (fun b' => exists outs', flag_bins b' (outs ++ concat outs') /\ settled (concat gss) outs') (first_failure (concat gss)).
Proof.
  intros Hcn Hi Hg. induction Hg as [|i g indices gss (b0 & l & Eb & Hg) _ IH]; intros b outs Hb; [exists []; cbn; rewrite app_nil_r; by split; [|constructor]|]. cbn [each_bin]. destruct (Hi i) as (H0 & Hl); [by left|].
  wp_bind. apply wpx_zget. exists (bin_of tasks i). split; [done|]. split; [rewrite <- Hl; unfold bin_at in *; destruct (lists !! Z.to_nat i) eqn:E; [done|]; cbn in Hl; congruence|].
  assert (b0 ∈ tasks) as Hb0. { assert (b0 ∈ bin_of tasks i) as Hin by (rewrite Eb; by left). unfold bin_of in Hin. apply list_elem_of_filter in Hin as [_ Hin]. rewrite elem_of_reverse in Hin; exact Hin. }
  destruct (Hcn b0 Hb0) as [cn Ecn]. rewrite Eb in Hg |- *. rewrite Ecn. cbn [mbind outcome_bind]. wp_bind. fold per.
  eapply wpx_mono; [by apply (bin_aggregates_spec b0 cn _ g Ecn Hg _ b outs)| |intros e He; by apply first_failure_l]. intros b' (o1 & Hb' & H1). cbn beta.
  eapply wpx_mono; [apply (IH ltac:(intros j Hj; apply Hi; by right) b' _ Hb')| |intros e He; by eapply first_failure_app]. intros b2 (o2 & Hb2 & H2). exists (o1 ++ o2). rewrite concat_app, (assoc_L (++)). split; [done|]. by apply Forall2_app.
Qed.

(** The operators the network is asked about are those of the matrix. *)
Definition matrix_ok : Prop := length (tn_collNetSupportMatrix tune) = 4%nat /\ Forall (fun row => length row = 12%nat) (tn_collNetSupportMatrix tune).
Definition op_ok (t : coll_task) : Prop := t_opDev (ftask t) = ncclDevPreMulSum \/ t_opDev (ftask t) = ncclDevSumPostDiv \/ 0 <= t_opHost (ftask t) < 4.

Lemma collnet_defined t : matrix_ok -> op_ok t -> exists cn, getCollNetSupport tune (ftask t) = Ret cn.
Proof.
  intros [Hm Hr] Ho. unfold getCollNetSupport. set (o := match t_opDev (ftask t) with ncclDevPreMulSum | ncclDevSumPostDiv => _ | _ => _ end).
  assert (0 <= o < 4) as Hb by (unfold o; destruct Ho as [->|[->|Ho]]; [done|done|]; destruct (t_opDev (ftask t)); done).
  assert (exists cn, (row ← zget (tn_collNetSupportMatrix tune) o; b ← zget row (datatype_index (t_datatype (ftask t))); Ret (Z.land (tn_collNetSupport tune) b)) = Ret cn) as [cn E]; [|destruct (t_func (ftask t)); eauto].
  destruct (lookup_lt_is_Some_2 (tn_collNetSupportMatrix tune) (Z.to_nat o)) as [row Erow]; [rewrite Hm; lia|]. rewrite (proj2 (zget_Ret _ _ _) (conj (proj1 Hb) Erow)). cbn [mbind outcome_bind].
  pose proof (Forall_lookup_1 _ _ _ _ Hr Erow) as Hlen. assert (0 <= datatype_index (t_datatype (ftask t)) < 12) as Hd by (by destruct (t_datatype (ftask t))).
  destruct (lookup_lt_is_Some_2 row (Z.to_nat (datatype_index (t_datatype (ftask t))))) as [b Eb]; [rewrite Hlen; lia|]. rewrite (proj2 (zget_Ret _ _ _) (conj (proj1 Hd) Eb)). by eexists.
Qed.

Lemma queue_tasks_spec time tasks queue gs : matrix_ok -> Forall op_ok tasks -> groups tasks gs ->
  wpx (queue_tasks envSet plugin regBuff rowToId NumTypes tune nvls nTasks time tasks queue)
    (fun r => exists outss, settled gs outss /\ let outs := concat outss in
       r.1 = queue ++ with_flags (false, false) outs ++ with_flags (false, true) outs ++ with_flags (true, false) outs ++ with_flags (true, true) outs) (first_failure gs).
Proof.
  intros Hm Ho (gss & -> & Hg). unfold queue_tasks. destruct (wp_elim _ _ (bin_tasks_hold tasks no_bins [] no_bins_hold)) as (b & -> & [H1 [H2 H2'] H3 H4 Hord H5]). rewrite app_nil_r in *. rewrite reverse_involutive in Hord. cbn [mbind outcome_bind].
  wp_bind. eapply wpx_mono; [apply (each_bin_spec tasks _ _ gss) with (outs := [])| |done].
  - intros t Ht. apply collnet_defined; [done|]. by eapply Forall_forall in Ho.
  - intros i Hi. destruct (H2' i Hi) as [Hi0 _]. split; [done|]. by apply H4.
  - by rewrite Hord.
  - by repeat split.
  - intros c (outss & (F1 & F2 & F3 & F4) & Hf). cbn [app] in *. exists outss. split; [done|]. cbn [fst]. by rewrite F1, F2, F3, F4.
Qed.

Lemma groups_ok tasks : exists gs, groups tasks gs /\ concat (g_tasks <$> gs) ≡ₚ tasks.
Proof.
  destruct (wp_elim _ _ (bin_tasks_hold tasks no_bins [] no_bins_hold)) as (b & _ & [_ [_ H2'] H3 H4 Hord H5]). rewrite app_nil_r in *. rewrite reverse_involutive in Hord.
  assert (forall ks, (forall i, i ∈ ks -> i ∈ fb_indices b) -> exists gss, Forall2 (fun i g => exists b0 l, bin_of tasks i = b0 :: l /\ runs b0 (bin_of tasks i) g) ks gss /\ concat (g_tasks <$> concat gss) = ks ≫= bin_at (fb_lists b)) as Hks.
  { induction ks as [|i ks IH]; intros Hin; [by exists []; split; [constructor|]|]. destruct (IH ltac:(intros; apply Hin; by right)) as (gss & Hg & E). assert (i ∈ fb_indices b) as Hi by (apply Hin; by left).
    destruct (H2' i Hi) as [Hi0 _]. pose proof (proj1 (H3 i Hi0) Hi) as Hne. rewrite H4 in Hne by done. fold (bin_of tasks i) in Hne. destruct (bin_of tasks i) as [|b0 l] eqn:Eb; [done|].
    destruct (runs_exist b0 (b0 :: l)) as [g Hr]. exists (g :: gss). split; [constructor; [exists b0, l; by rewrite Eb|done]|]. cbn [concat]. rewrite fmap_app, concat_app, E, bind_cons, (runs_tasks b0 _ _ Hr), H4 by done. fold (bin_of tasks i). by rewrite Eb. }
  destruct (Hks (fb_indices b) ltac:(done)) as (gss & Hg & E). exists (concat gss). split; [exists gss; by rewrite <- Hord|]. rewrite E, H5. by rewrite reverse_Permutation.
Qed.
End choice.

(** ** A group of three collectives *)

(** Two reductions of similar size, one of them a maximum, and a small one. *)
Definition sample_ct (id count : Z) (op : ncclDevRedOp_t) (host : Z) : coll_task :=
  MkCollTask (MkTaskColl id ncclFuncAllReduce (4096 * id) (8192 * id) count 0 ncclFloat32 host op 4 2 (2 * 4 * count) 0 0 0 0 false false 0 0 0 0 0 [] [] [] 0) 0 false 0 0 0 0.
Definition sample_group : list coll_task := [sample_ct 1 524288 ncclDevSum 0; sample_ct 2 262144 ncclDevSum 0; sample_ct 3 4096 ncclDevMinMax 2].
Definition sample_queue : outcome (list coll_task * spec_float) := queue_tasks false None (fun _ => false) (fun x => x) 12 sample_tune false 3 (S754_zero false) sample_group [].

(** The two are chosen for together, and come first in their order of size. *)
Example sample_queued : exists l time, sample_queue = Ret (l, time) /\ (fun t => (t_id (ftask t), t_algorithm (ftask t), t_nMaxChannels (ftask t))) <$> l = [(2, 0, 8); (1, 0, 8); (3, 0, 1)].
Proof. eexists _, _. split; vm_compute; reflexivity. Qed.

(** A network that can apply the maximum of [float], and not the minimum. *)
Definition max_only_tune : tune_comm :=
  MkTuneComm 16 2 8 4 8 90 1 [replicate 12 0; replicate 12 0; replicate 12 1; replicate 12 0] 1
    (fun f a p => if (a =? NCCL_ALGO_COLLNET_DIRECT) && (p =? 2) then float_of_Z 40 else S754_zero false) (fun f a p => float_of_Z 25)
    (tune_maxThreads (-2) (-2) (float_of_Z 20) 8) (tune_thresholds 16 []).

(** Minimum and maximum are the same device operator and hence the same bin; whether
    the network supports the operator is asked for the first task of the bin only. *)
Lemma collnet_support_of_bin : exists l time, queue_tasks false None (fun _ => false) (fun x => x) 12 max_only_tune false 2 (S754_zero false) [sample_ct 1 524288 ncclDevMinMax 3; sample_ct 2 262144 ncclDevMinMax 2] [] = Ret (l, time) /\
  (fun t => (t_opHost (ftask t), t_algorithm (ftask t), getCollNetSupport max_only_tune (ftask t))) <$> l = [(2, NCCL_ALGO_COLLNET_DIRECT, Ret 1); (3, NCCL_ALGO_COLLNET_DIRECT, Ret 0)].
Proof. eexists _, _. split; vm_compute; reflexivity. Qed.

(** ** Tasks and their work structs *)

(** What registration leaves of a task. *)
Record kept_task (t t' : coll_task) : Prop := {
  kt_task : same_task (ftask t) (ftask t');
  kt_scalar : ct_scalarArg t' = ct_scalarArg t /\ ct_scalarArgIsPtr t' = ct_scalarArgIsPtr t;
  kt_channels : 1 <= t_nMaxChannels (ftask t) <= 64 -> 1 <= t_nMaxChannels (ftask t') <= 64;
}.

Lemma kept_task_refl t : kept_task t t.
Proof. split; [apply same_task_refl|done|done]. Qed.
Lemma kept_task_trans a b c : kept_task a b -> kept_task b c -> kept_task a c.
Proof. intros [H1 [H2 H2'] H3] [K1 [K2 K2'] K3]. split; [by eapply same_task_trans|by rewrite K2, K2'|auto]. Qed.
Lemma kept_all_trans a b c : Forall2 kept_task a b -> Forall2 kept_task b c -> Forall2 kept_task a c.
Proof. apply Forall2_trans, kept_task_trans. Qed.

Lemma same_algorithm t t' : same_task t t' -> t_algorithm t' = t_algorithm t.
Proof. intros H. by rewrite <- H. Qed.

Lemma result_kept {R} (g g' : creg R) : reg_result g g' -> kept_task (cg_task g) (cg_task g').
Proof. intros [[H1 H2 _ H3 _] _]. by split. Qed.

Definition nClean (t : coll_task) : Z := t_nCleanupQueueElts (ftask t).
Definition cleans (ts : list coll_task) : Z := cleanups ((fun t => ftask t) <$> ts).

Lemma cleans_cons t ts : cleans (t :: ts) = nClean t + cleans ts.
Proof. done. Qed.

Definition flag_at (l : list bool) (a : Z) : bool := default false (l !! Z.to_nat a).

Lemma flag_set l a b : (Z.to_nat a < length l)%nat -> 0 <= a -> 0 <= b -> flag_at (<[Z.to_nat a := true]> l) b = flag_at l b || (b =? a).
Proof.
  intros Ha H0 Hb. unfold flag_at. destruct (Z.eqb_spec b a) as [->|Hn]; [by rewrite list_lookup_insert_eq, orb_true_r|]. rewrite list_lookup_insert_ne by lia. by rewrite orb_false_r.
Qed.

Section ready.
Context {R : Type} (calls : reg_calls R) (comm : creg_comm) (locals : list Z) (runtimeConn profiler : bool) (Hctas : ctas_ok comm) (Hpeers : peers_ok comm locals).
Implicit Types s : prep_state (R := R).

(** The work struct of a task. *)
Definition work_for (t : coll_task) (w : work_item) : Prop := exists send0 recv0,
  w = new_node (new_work (kr_nNodes comm =? 1) (negb (is_nvls (ftask t)) && kr_isOneRPN comm) profiler t) t send0 recv0.

(** The algorithms connected so far: those before, and those that are asked for. *)
Record conn_inv s : Prop := {
  ci_lengths : length (ps_initAlgoChannels s) = 7%nat /\ length (ps_algoNeedConnect s) = 7%nat;
  ci_asked : forall a, 0 <= a -> flag_at (ps_algoNeedConnect s) a = true -> flag_at (ps_initAlgoChannels s) a = true /\ ps_needConnect s = true;
}.
Record conn_le s s' : Prop := {
  cl_init : forall a, 0 <= a -> flag_at (ps_initAlgoChannels s') a = true -> flag_at (ps_initAlgoChannels s) a = true \/ flag_at (ps_algoNeedConnect s') a = true;
  cl_mono : forall a, 0 <= a -> (flag_at (ps_initAlgoChannels s) a = true -> flag_at (ps_initAlgoChannels s') a = true) /\ (flag_at (ps_algoNeedConnect s) a = true -> flag_at (ps_algoNeedConnect s') a = true);
}.

(** The algorithm of a task is connected, unless its buffers are registered with NVLS. *)
Definition connected s (t : coll_task) : Prop :=
  runtimeConn = true -> flag_at (ps_initAlgoChannels s) (t_algorithm (ftask t)) = true \/ t_algorithm (ftask t) = NCCL_ALGO_NVLS /\ has_reg (ftask t) NCCL_NVLS_REG_BUFFER = true.

Definition alg_ok (t : coll_task) : Prop := 0 <= t_algorithm (ftask t) < 7.

Lemma conn_le_refl s : conn_le s s.
Proof. split; [auto|auto]. Qed.
Lemma conn_le_trans a b c : conn_le a b -> conn_le b c -> conn_le a c.
Proof. intros [H1 H2] [K1 K2]. split; intros x Hx; [|split; intros; apply K2, H2; done].
  intros E. destruct (K1 x Hx E) as [E1|E1]; [|by right]. destruct (H1 x Hx E1) as [E2|E2]; [by left|right; by apply K2]. Qed.

Lemma connected_mono s s' t : conn_le s s' -> alg_ok t -> connected s t -> connected s' t.
Proof. intros Hl [Ha _] H Hr. destruct (H Hr) as [E|E]; [left; by apply (cl_mono _ _ Hl)|by right]. Qed.

(** Two flags set together. *)
Definition marked s s' : Prop :=
  length (ps_initAlgoChannels s') = 7%nat /\ length (ps_algoNeedConnect s') = 7%nat /\ ps_reg s' = ps_reg s /\ ps_cleanup s' = ps_cleanup s /\ ps_tmpWorks s' = ps_tmpWorks s /\
  (forall x, 0 <= x -> flag_at (ps_algoNeedConnect s') x = true -> flag_at (ps_initAlgoChannels s') x = true).

Lemma conn_set s0 s a b : marked s0 s -> 0 <= a < 7 ->
  wp (i ← zset (ps_initAlgoChannels s) a true; n ← zset (ps_algoNeedConnect s) a true; Ret (MkPrep (ps_reg s) (ps_cleanup s) i n b (ps_tmpWorks s)))
    (fun s' => conn_le s s' /\ flag_at (ps_initAlgoChannels s') a = true /\ marked s0 s' /\ ps_needConnect s' = b).
Proof.
  intros (L1 & L2 & R1 & R2 & R3 & H) Ha. do 2 (wp_bind; apply wpx_zset; [lia|]).
  assert (forall x, 0 <= x -> flag_at (<[Z.to_nat a := true]> (ps_initAlgoChannels s)) x = flag_at (ps_initAlgoChannels s) x || (x =? a)) as F1 by (intros; apply flag_set; lia).
  assert (forall x, 0 <= x -> flag_at (<[Z.to_nat a := true]> (ps_algoNeedConnect s)) x = flag_at (ps_algoNeedConnect s) x || (x =? a)) as F2 by (intros; apply flag_set; lia).
  unfold marked. cbn [wpx ps_initAlgoChannels ps_algoNeedConnect ps_reg ps_cleanup ps_tmpWorks ps_needConnect]. rewrite !length_insert.
  split_and!; try done; [|by rewrite F1, Z.eqb_refl, orb_true_r by lia|intros x Hx; rewrite F1, F2 by done; rewrite !orb_true_iff; intros [E|E]; [left; by apply H|by right]].
  split; cbn [ps_initAlgoChannels ps_algoNeedConnect]; intros x Hx; rewrite ?F1, ?F2 by done; rewrite !orb_true_iff; tauto.
Qed.

Lemma mark_connect_spec a need s : conn_inv s -> 0 <= a < 7 ->
  wp (mark_connect runtimeConn a need s) (fun s' => conn_inv s' /\ conn_le s s' /\ ps_reg s' = ps_reg s /\ ps_cleanup s' = ps_cleanup s /\ ps_tmpWorks s' = ps_tmpWorks s /\
    (runtimeConn = true -> flag_at (ps_initAlgoChannels s') a = true \/ a = NCCL_ALGO_NVLS /\ need = false)).
Proof.
  intros Hi Ha. pose proof Hi as [[L1 L2] H]. assert (marked s s) as Hm by (repeat split; try done; intros x Hx E; by apply H). unfold mark_connect.
  destruct (lookup_lt_is_Some_2 (ps_initAlgoChannels s) (Z.to_nat a)) as [x Ex]; [lia|]. wp_bind. apply wpx_zget. exists x. split; [lia|]. split; [done|].
  destruct (runtimeConn && negb x) eqn:Eb; [|apply wpx_ret; split; [done|]; split; [apply conn_le_refl|]; do 3 (split; [done|]); intros Hr; left; unfold flag_at; rewrite Ex; rewrite Hr in Eb; by destruct x].
  destruct (lookup_lt_is_Some_2 (ps_initAlgoChannels s) (Z.to_nat NCCL_ALGO_NVLS)) as [y Ey]; [rewrite L1; unfold NCCL_ALGO_NVLS; lia|]. wp_bind. apply wpx_zget. exists y. split; [done|]. split; [done|].
  wp_bind. assert (wp (if (a =? NCCL_ALGO_NVLS_TREE) && negb y && need then
     i ← zset (ps_initAlgoChannels s) NCCL_ALGO_NVLS true; n ← zset (ps_algoNeedConnect s) NCCL_ALGO_NVLS true; Ret (MkPrep (ps_reg s) (ps_cleanup s) i n (ps_needConnect s) (ps_tmpWorks s))
     else Ret s) (fun s1 => conn_le s s1 /\ marked s s1 /\ (a = NCCL_ALGO_NVLS -> s1 = s))) as H1.
  { destruct (Z.eqb_spec a NCCL_ALGO_NVLS_TREE) as [->|_]; cbn [andb]; [|split; [apply conn_le_refl|done]]. destruct (negb y && need); [|split; [apply conn_le_refl|done]].
    eapply wpx_mono; [by apply (conn_set s)| |done]. intros s1 (K1 & _ & K2 & _). by split_and!. }
  eapply wpx_mono; [exact H1| |done]. intros s1 (Hle & Hm1 & Hs1). destruct (negb (a =? NCCL_ALGO_NVLS) || need) eqn:En.
  - eapply wpx_mono; [by apply (conn_set s)| |done]. intros s2 (K1 & K2 & (M1 & M2 & M3 & M4 & M5 & M6) & K3). split; [split; [done|]; intros z Hz Ez; split; [by apply M6|done]|].
    split; [by eapply conn_le_trans|]. do 3 (split; [done|]). by left.
  - apply orb_false_iff in En as [->%negb_false_iff%Z.eqb_eq ->]. rewrite Hs1 by done. apply wpx_ret. split; [done|]. split; [apply conn_le_refl|]. do 3 (split; [done|]). by right.
Qed.

(** ** The two walks *)

Lemma nvls_has (t : coll_task) : has_reg (ftask t) NCCL_NVLS_REG_BUFFER = Z.testbit (t_regBufType (ftask t)) 1.
Proof.
  unfold has_reg. set (x := t_regBufType _). destruct (Z.testbit x 1) eqn:E; [|apply negb_false_iff, Z.eqb_eq, Z.bits_inj'; intros n Hn; rewrite Z.land_spec, Z.bits_0; change NCCL_NVLS_REG_BUFFER with (2 ^ 1); rewrite Z.pow2_bits_eqb by lia; destruct (Z.eqb_spec 1 n) as [<-|]; [by rewrite E|by rewrite andb_false_r]].
  apply negb_true_iff, Z.eqb_neq. intros H. assert (Z.testbit (Z.land x NCCL_NVLS_REG_BUFFER) 1 = true) as K by by rewrite Z.land_spec, E. by rewrite H, Z.bits_0 in K.
Qed.

Lemma kept_nvls t t' : kept_task t t' -> is_nvls (ftask t') = is_nvls (ftask t).
Proof. intros [H _ _]. unfold is_nvls. by rewrite (same_algorithm _ _ H). Qed.

Definition nvls_tasks (ts : list coll_task) : list coll_task := filter (fun t => is_nvls (ftask t) = true) ts.

Lemma prepare_task_spec t s : conn_inv s -> alg_ok t ->
  wp (prepare_task calls comm runtimeConn profiler t s) (fun '(t', s') => kept_task t t' /\ conn_inv s' /\ conn_le s s' /\ connected s' t' /\
    Z.of_nat (length (ps_cleanup s')) - nClean t' = Z.of_nat (length (ps_cleanup s)) - nClean t /\
    exists ws, ps_tmpWorks s' = ps_tmpWorks s ++ ws /\ Forall2 work_for (nvls_tasks [t']) ws).
Proof.
  intros Hi Ha. unfold prepare_task. set (g := ncclRegisterCollNvlsBuffers calls comm (reg_of t s)).
  assert (reg_result (reg_of t s) g) as Hres by by apply result_of, rk_nvls_buffers. pose proof (result_kept _ _ Hres) as Hk. cbn [cg_task reg_of] in Hk. destruct Hres as [[_ _ (cb & Ec & En) _ _] Hneed].
  cbn [cg_cleanup cg_task reg_of] in Ec, En. pose proof (same_algorithm _ _ (kt_task _ _ Hk)) as Halg. wp_bind.
  eapply wpx_mono; [apply (mark_connect_spec (t_algorithm (ftask (cg_task g))) (cg_needConnect g))| |done]; [by destruct Hi|by rewrite Halg|].
  intros s' (K1 & K2 & K3 & K4 & K5 & K6). cbn [ps_initAlgoChannels ps_reg ps_cleanup ps_tmpWorks] in K3, K4, K5. cbn [wpx]. set (s2 := if is_nvls _ then _ else _).
  assert (conn_inv s2 /\ conn_le s s2 /\ connected s2 (cg_task g)) as (C1 & C2 & C3).
  { assert (ps_initAlgoChannels s2 = ps_initAlgoChannels s' /\ ps_algoNeedConnect s2 = ps_algoNeedConnect s' /\ ps_needConnect s2 = ps_needConnect s') as (E1 & E2 & E3) by (unfold s2; by destruct (is_nvls _)).
    destruct K1 as [A1 A2], K2 as [B1 B2]. split; [split; [by rewrite E1, E2|intros x Hx; rewrite E1, E2, E3; by apply A2]|]. split; [split; intros x Hx; [rewrite E1, E2; by apply B1|split; [rewrite E1|rewrite E2]; by apply B2]|].
    intros Hr. rewrite E1. destruct (K6 Hr) as [E|[E F]]; [by left|right]. split; [done|]. rewrite nvls_has. rewrite F in Hneed. unfold nvls_bit in Hneed. by destruct (Z.testbit _ 1). }
  do 4 (split; [done|]). assert (ps_cleanup s2 = cg_cleanup g) as -> by (unfold s2; by destruct (is_nvls _)). rewrite Ec, length_app. unfold nClean. split; [lia|].
  unfold s2, nvls_tasks. destruct (is_nvls (ftask (cg_task g))) eqn:En2; cbn [ps_tmpWorks]; rewrite K5; [|exists []; by rewrite app_nil_r, filter_cons_False, filter_nil by (rewrite En2; done)].
  eexists. split; [done|]. rewrite filter_cons_True, filter_nil by done. constructor; [|done]. eexists _, _. by rewrite En2.
Qed.

Lemma connected_all s s' ts : conn_le s s' -> Forall alg_ok ts -> Forall (connected s) ts -> Forall (connected s') ts.
Proof. intros Hl Ha Hc. apply Forall_forall. intros t Ht. eapply connected_mono; [done|by eapply Forall_forall in Ha|by eapply Forall_forall in Hc]. Qed.

Lemma kept_alg t t' : kept_task t t' -> alg_ok t -> alg_ok t'.
Proof. intros [H _ _]. unfold alg_ok. by rewrite (same_algorithm _ _ H). Qed.

Lemma prepare_tasks_spec ts : forall s, conn_inv s -> Forall alg_ok ts ->
  wp (prepare_tasks calls comm runtimeConn profiler ts s) (fun '(ts', s') => Forall2 kept_task ts ts' /\ conn_inv s' /\ conn_le s s' /\ Forall (connected s') ts' /\
    Z.of_nat (length (ps_cleanup s')) - cleans ts' = Z.of_nat (length (ps_cleanup s)) - cleans ts /\
    exists ws, ps_tmpWorks s' = ps_tmpWorks s ++ ws /\ Forall2 work_for (nvls_tasks ts') ws).
Proof.
  unfold prepare_tasks. induction ts as [|t ts IH]; intros s Hi Ha.
  - split; [constructor|]. split; [done|]. split; [apply conn_le_refl|]. split; [constructor|]. split; [done|]. exists []. by rewrite app_nil_r.
  - apply Forall_cons in Ha as [Ha Has]. cbn [walk]. wp_bind. eapply wpx_mono; [by apply prepare_task_spec| |done]. intros [t' s1] (K1 & K2 & K3 & K4 & K5 & (ws1 & E1 & F1)).
    wp_bind. eapply wpx_mono; [by apply IH| |done]. intros [ts' s2] (L1 & L2 & L3 & L4 & L5 & (ws2 & E2 & F2)). cbn [wpx]. split; [by constructor|]. split; [done|]. split; [by eapply conn_le_trans|].
    split; [constructor; [|done]; apply (connected_mono s1); [done|by eapply kept_alg|done]|]. rewrite !cleans_cons. split; [lia|]. exists (ws1 ++ ws2). rewrite E2, E1, (assoc_L (++)). split; [done|].
    change (t' :: ts') with ([t'] ++ ts'). unfold nvls_tasks in *. rewrite filter_app. by apply Forall2_app.
Qed.

(** A task that does not use NVLS is registered and gets its work struct. *)
Lemma enqueue_task_spec t s : is_nvls (ftask t) = false ->
  wp (enqueue_task calls comm profiler t s) (fun '(tw, s') => kept_task t tw.1 /\ work_for tw.1 tw.2 /\ ps_tmpWorks s' = ps_tmpWorks s /\
    Z.of_nat (length (ps_cleanup s')) - nClean tw.1 = Z.of_nat (length (ps_cleanup s)) - nClean t /\
    ps_initAlgoChannels s' = ps_initAlgoChannels s /\ ps_algoNeedConnect s' = ps_algoNeedConnect s /\ ps_needConnect s' = ps_needConnect s).
Proof.
  intros Hn. unfold enqueue_task. rewrite Hn. destruct (buffers_kept calls comm locals Hctas Hpeers (reg_of t s)) as (g & -> & Hg). apply result_of in Hg. pose proof (result_kept _ _ Hg) as Hk. cbn [cg_task reg_of] in Hk.
  destruct Hg as [[_ _ (cb & Ec & En) _ _] _]. cbn [cg_cleanup cg_task reg_of] in Ec, En. cbn [mbind outcome_bind wpx fst snd ps_tmpWorks ps_cleanup]. split; [done|]. split; [|split; [done|]; rewrite Ec, length_app; unfold nClean; split; [lia|done]].
  eexists _, _. by rewrite (kept_nvls _ _ Hk), Hn.
Qed.

Lemma enqueue_walk_spec ts : forall s, Forall2 work_for (nvls_tasks ts) (ps_tmpWorks s) ->
  wp (walk (enqueue_task calls comm profiler) ts s) (fun '(tws, s') => Forall2 kept_task ts tws.*1 /\ Forall (fun tw => work_for tw.1 tw.2) tws /\ ps_tmpWorks s' = [] /\
    Z.of_nat (length (ps_cleanup s')) - cleans tws.*1 = Z.of_nat (length (ps_cleanup s)) - cleans ts /\ Forall2 (fun t t' => is_nvls (ftask t) = true -> t' = t) ts tws.*1 /\
    ps_initAlgoChannels s' = ps_initAlgoChannels s /\ ps_algoNeedConnect s' = ps_algoNeedConnect s /\ ps_needConnect s' = ps_needConnect s).
Proof.
  induction ts as [|t ts IH]; intros s Hw; [apply Forall2_nil_inv_l in Hw; split_and!; try done; constructor|]. cbn [walk]. wp_bind. unfold nvls_tasks in Hw. destruct (is_nvls (ftask t)) eqn:En.
  - rewrite filter_cons_True in Hw by done. apply Forall2_cons_inv_l in Hw as (w & ws & Hw & Hws & Es). unfold enqueue_task at 1. rewrite En, Es. cbn [wpx]. wp_bind. eapply wpx_mono; [by apply IH| |done].
    intros [tws s'] (K1 & K2 & K3 & K4 & K5 & K6). cbn [wpx fmap list_fmap fst]. rewrite !cleans_cons. cbn [ps_cleanup ps_initAlgoChannels ps_algoNeedConnect ps_needConnect] in *.
    split_and!; try done; try (by constructor; [|done]); [constructor; [apply kept_task_refl|done]|lia|naive_solver..].
  - rewrite filter_cons_False in Hw by (rewrite En; done). eapply wpx_mono; [by apply enqueue_task_spec| |done]. intros [[t' w] s1] (H1 & H2 & H3 & H4 & H5 & H6 & H7). cbn [fst snd] in *. wp_bind.
    eapply wpx_mono; [apply IH; by rewrite H3| |done]. intros [tws s'] (K1 & K2 & K3 & K4 & K5 & K6 & K7 & K8). cbn [wpx fmap list_fmap fst]. rewrite !cleans_cons.
    split_and!; try done; [by constructor|by constructor|lia|by constructor; [rewrite En|]|congruence..].
Qed.

(** Connections are not affected by the second walk. *)
Lemma connected_kept s s' ts ts' : ps_initAlgoChannels s' = ps_initAlgoChannels s -> Forall2 kept_task ts ts' -> Forall2 (fun t t' => is_nvls (ftask t) = true -> t' = t) ts ts' -> Forall (connected s) ts -> Forall (connected s') ts'.
Proof.
  intros E. induction 1 as [|t t' ts ts' Hk _ IH]; intros Hn Hc; [constructor|]. apply Forall2_cons in Hn as [Hn Hns]. apply Forall_cons in Hc as [Hc Hcs]. constructor; [|auto]. intros Hr. rewrite E, (same_algorithm _ _ (kt_task _ _ Hk)).
  destruct (Hc Hr) as [H|[H1 H2]]; [by left|right]. rewrite Hn by (unfold is_nvls; by rewrite H1). done.
Qed.
End ready.

(** From the queue of tasks to what the scheduler needs.  The walk of
    [ncclPrepareTasks] and then [ncclTasksRegAndEnqueue] both return.  Each task is kept
    but for its registration; the work struct queued with it is built from that very
    task, also for those with NVLS, whose structs wait in a queue of their own that is
    empty at the end; the cleanup queue has grown by exactly the callbacks the tasks
    count.  The algorithms marked for connection are those that became initialised,
    and every task's algorithm is, unless its buffers are registered with NVLS. *)
Lemma tasks_ready {R} (calls : reg_calls R) comm locals runtimeConn profiler ts s : ctas_ok comm -> peers_ok comm locals -> conn_inv s -> Forall alg_ok ts -> ps_tmpWorks s = [] ->
  exists ts1 s1 tws s2, prepare_tasks calls comm runtimeConn profiler ts s = Ret (ts1, s1) /\ ncclTasksRegAndEnqueue calls comm profiler ts1 s1 = Ret (tws, s2) /\
    Forall2 kept_task ts tws.*1 /\ Forall (fun tw => work_for comm profiler tw.1 tw.2) tws /\ ps_tmpWorks s2 = [] /\
    Z.of_nat (length (ps_cleanup s2)) - cleans tws.*1 = Z.of_nat (length (ps_cleanup s)) - cleans ts /\
    conn_inv s2 /\ conn_le s s2 /\ Forall (connected runtimeConn s2) tws.*1.
Proof.
  intros Hc Hp Hi Ha Ht. destruct (wp_elim _ _ (prepare_tasks_spec calls comm runtimeConn profiler Hc ts s Hi Ha)) as ([ts1 s1] & E1 & K1 & K2 & K3 & K4 & K5 & (ws & K6 & K7)). rewrite Ht in K6. cbn [app] in K6. rewrite <- K6 in K7.
  destruct (wp_elim _ _ (enqueue_walk_spec calls comm locals profiler Hc Hp ts1 s1 K7)) as ([tws s2] & E2 & L1 & L2 & L3 & L4 & L5 & L6 & L7 & L8). exists ts1, s1, tws, s2. split; [done|].
  split; [unfold ncclTasksRegAndEnqueue; rewrite E2; cbn [mbind outcome_bind]; by rewrite L3|]. split; [by eapply kept_all_trans|]. do 2 (split; [done|]). split; [lia|].
  split; [destruct K2 as [A1 A2]; split; [by rewrite L6, L7|intros a Hx; rewrite L6, L7, L8; by apply A2]|]. split; [destruct K3 as [B1 B2]; split; intros a Hx; [rewrite L6, L7; by apply B1|split; [rewrite L6|rewrite L7]; by apply B2]|].
  by eapply connected_kept.
Qed.

(** ** The whole preparation *)

Lemma group_out_task envSet plugin regBuff rowToId NumTypes tune nvls nTasks g r : tune_ok tune -> plugin_ok plugin -> group_choice envSet plugin regBuff rowToId NumTypes tune nvls nTasks g = Ret r ->
  Forall (fun t' => alg_ok t' /\ 1 <= t_nMaxChannels (ftask t') <= 64) (group_out tune g r).
Proof.
  intros Ht Hp E. unfold group_choice in E. destruct (getCollNetSupport _ _) as [cn| |]; [|done|done]. cbn [mbind outcome_bind] in E.
  pose proof (choose_defined envSet plugin regBuff rowToId NumTypes tune nTasks Ht Hp (foldl add_agg (ftask (g_beg g)) (g_taken g)) cn (Z.b2z (nvlsSupport_of nvls (ftask (g_first g))))) as H. cbv beta zeta in H, E. rewrite E in H. destruct H as (k & nc & nw & Hk & Ea & Hnc & Hnw).
  unfold group_out. destruct (constraints _ _) as [c n]. apply Forall_fmap, Forall_forall. intros t _. unfold alg_ok. cbn [compose ct_task with_task update_task t_algorithm t_nMaxChannels t_nWarps]. rewrite Ea. cbn [set_tuned t_algorithm t_nMaxChannels t_nWarps]. rewrite !conv_int8 by (dlia || lia). split; [dlia|lia].
Qed.

Lemma settled_tasks envSet plugin regBuff rowToId NumTypes tune nvls nTasks gs outss : tune_ok tune -> plugin_ok plugin -> settled envSet plugin regBuff rowToId NumTypes tune nvls nTasks gs outss ->
  Forall (fun t' => alg_ok t' /\ 1 <= t_nMaxChannels (ftask t') <= 64) (concat outss).
Proof. intros Ht Hp. induction 1 as [|g o gs outss (r & Hr & ->) _ IH]; [constructor|]. cbn [concat]. apply Forall_app. split; [by eapply group_out_task|done]. Qed.

Lemma with_persistent_ok comm locals g : ctas_ok comm -> peers_ok comm locals -> ctas_ok (with_persistent comm g) /\ peers_ok (with_persistent comm g) locals.
Proof. intros H [P1 P2 P3]. split; [done|]. by split. Qed.

(** Tasks with their number of channels in range stay so. *)
Lemma kept_channels ts ts' : Forall2 kept_task ts ts' -> Forall (fun t => 1 <= t_nMaxChannels (ftask t) <= 64) ts -> Forall (fun t => 1 <= t_nMaxChannels (ftask t) <= 64) ts'.
Proof. induction 1 as [|t t' ts ts' Hk _ IH]; intros H; [constructor|]. apply Forall_cons in H as [H Hs]. constructor; [by apply Hk|auto]. Qed.

(** (C9) Preparing the collectives of a group, from the sorter to the queues the
    scheduler takes tasks and works from.  The tasks fall into aggregates ([groups]):
    those of one function, operator and type, in the reverse of the sorter's order, cut
    into the longest runs with less than four times the traffic of the first.  If
    [getAlgoInfo] succeeds for every aggregate, [ncclPrepareTasks] and then
    [ncclTasksRegAndEnqueue] return, and queue each task once: first those of the
    ordinary algorithms, then NVLS, CollNet, and both.  A task has the algorithm,
    protocol, warps and kernel chosen for the sum of its aggregate, 1 to 64 channels,
    and is otherwise as it was but for registration.  The work struct beside it is built
    from that very task, also for those with NVLS, whose structs wait in a queue of their
    own that is empty at the end.  The cleanup queue has grown by as many callbacks as
    the tasks count, and every task's algorithm is connected or marked for connection,
    unless its buffers are registered with NVLS.  If [getAlgoInfo] fails for an
    aggregate, the call fails with the error of the first such aggregate, and it fails
    in no other case.  The communicator has several ranks ([tune_ok]); a plugin leaves
    ignored entries ignored and asks for at most 64 channels ([plugin_ok]). *)
Theorem ncclPrepareTasks_ready {R} envSet plugin rowToId NumTypes tune nvls (calls : reg_calls R) comm locals runtimeConn profiler p time tasks s :
  tune_ok tune -> plugin_ok plugin -> matrix_ok tune -> Forall op_ok tasks -> ctas_ok comm -> peers_ok comm locals -> conn_inv s -> ps_tmpWorks s = [] ->
  exists gs, groups tasks gs /\ concat (g_tasks <$> gs) ≡ₚ tasks /\
  let reg := regBuff_of calls comm (pn_capturingGraph p) s in
  wpx (ncclPrepareTasks envSet plugin rowToId NumTypes tune nvls calls comm runtimeConn profiler p time tasks [] s)
    (fun '(q, _, s1) => exists tws s2, ncclTasksRegAndEnqueue calls (with_persistent comm (pn_capturingGraph p)) profiler q s1 = Ret (tws, s2) /\
       (exists outss queue, settled envSet plugin reg rowToId NumTypes tune nvls (pn_nTasksColl p) gs outss /\ let outs := concat outss in queue ≡ₚ outs /\
          queue = with_flags (false, false) outs ++ with_flags (false, true) outs ++ with_flags (true, false) outs ++ with_flags (true, true) outs /\ Forall2 kept_task queue tws.*1 /\
          Z.of_nat (length (ps_cleanup s2)) - cleans tws.*1 = Z.of_nat (length (ps_cleanup s)) - cleans queue) /\
       Forall (fun t => 1 <= t_nMaxChannels (ftask t) <= 64) tws.*1 /\ Forall (fun tw => work_for comm profiler tw.1 tw.2) tws /\ ps_tmpWorks s2 = [] /\
       conn_le s s2 /\ conn_inv s2 /\ Forall (connected runtimeConn s2) tws.*1)
    (first_failure envSet plugin reg rowToId NumTypes tune nvls (pn_nTasksColl p) gs).
Proof.
  intros Ht Hp Hm Ho Hc Hpe Hi Htmp. destruct (groups_ok tasks) as (gs & Hg & Hperm). exists gs. do 2 (split; [done|]). intros reg. unfold ncclPrepareTasks. wp_bind. eapply wpx_mono; [by apply (queue_tasks_spec _ _ _ _ _ _ _ _ Ht Hp _ _ _ gs)| |done]. intros [queue tm] (outss & H2 & E). cbn [fst app] in E.
  set (outs := concat outss) in *. assert (queue ≡ₚ outs) as Hq by (rewrite E; by apply (bins_perm (MkCollBins (with_flags (false, false) outs) (with_flags (false, true) outs) (with_flags (true, false) outs) (with_flags (true, true) outs) time))).
  assert (Forall (fun t => alg_ok t /\ 1 <= t_nMaxChannels (ftask t) <= 64) queue) as Hall by (rewrite Hq; by eapply settled_tasks).
  apply Forall_and in Hall as [Ha Hn]. destruct (with_persistent_ok comm locals (pn_capturingGraph p) Hc Hpe) as [Hc' Hp'].
  destruct (tasks_ready calls _ locals runtimeConn profiler queue s Hc' Hp' Hi Ha Htmp) as (ts1 & s1 & tws & s2 & E1 & E2 & K1 & K2 & K3 & K4 & K5 & K6 & K7).
  rewrite E1. cbn [mbind outcome_bind wpx]. exists tws, s2. split; [done|]. split; [by exists outss, queue|]. split; [by eapply kept_channels|]. by split_and!.
Qed.

(** What the scheduler asks of works and callbacks ([sched_ready]) follows. *)
Lemma works_for_schedule comm profiler tws : Forall (fun tw => work_for comm profiler tw.1 tw.2) tws ->
  Forall (fun nd => 0 < wn_size nd) (wi_node <$> tws.*2) /\ length (wi_node <$> tws.*2) = length ((fun t => ftask t) <$> tws.*1).
Proof.
  intros H. rewrite !length_fmap. split; [|done]. apply Forall_fmap, Forall_fmap. eapply Forall_impl; [exact H|]. intros [t w] (a & b & E). cbn [fst snd] in E. subst w. cbn. unfold new_node. by destruct (has_reg _ _).
Qed.

(** ** Appending keeps the planner in order *)

(** The traffic of a task is that of its bytes. *)
Definition traffic_ok (nRanks : Z) (t : coll_task) : Prop :=
  0 < t_count (ftask t) /\ t_trafficBytes (ftask t) = t_count (ftask t) * ncclTypeSize (t_datatype (ftask t)) * ncclFuncTrafficPerByte (t_func (ftask t)) nRanks.

(** The tasks counted, and the streams: each once, the last one among them, and all
    captured by one graph or by none. *)
Record planner_ok (capturing : Z -> outcome Z) (nRanks : Z) (p : planner) : Prop := {
  po_count : pn_nTasksColl p = Z.of_nat (length (pn_sorter p));
  po_tasks : Forall (fun t => traffic_ok nRanks t /\ op_ok t) (pn_sorter p);
  po_streams : NoDup (pn_streams p) /\ (pn_streams p <> [] -> pn_streamRecent p ∈ pn_streams p);
  po_graph : Forall (fun s => capturing s = Ret (pn_capturingGraph p)) (pn_streams p);
}.

(** An operator: one of the five, or created by the user. *)
Definition known_op (users : user_comm) (op : Z) : Prop := 0 <= op < ncclNumOps \/ exists u, zget (uc_ops users) (ncclUserRedOpMangle (uc_addr users) op - ncclNumOps) = Ret u.

(** *** What a call asks for *)

Definition is_fp8 (dt : ncclDataType_t) : bool := match dt with ncclFloat8e4m3 | ncclFloat8e5m2 => true | _ => false end.

(** FP8 on devices before sm90, or a user's operator made for another type. *)
Definition bad_argument (users : user_comm) (minCompCap : Z) (info : coll_info) : Prop :=
  (is_fp8 (in_datatype info) = true /\ minCompCap < 90) \/
  (~ 0 <= in_op info < ncclNumOps /\ exists u, zget (uc_ops users) (ncclUserRedOpMangle (uc_addr users) (in_op info) - ncclNumOps) = Ret u /\ in_datatype info <> ur_datatype u).

(** The device's operator for one of the host's; users' operators scale. *)
Definition dev_op (op : Z) (dt : ncclDataType_t) : ncclDevRedOp_t :=
  match op with
  | 0 => ncclDevSum | 1 => ncclDevProd | 2 | 3 => ncclDevMinMax
  | 4 => if is_integer dt then ncclDevSumPostDiv else ncclDevPreMulSum
  | _ => ncclDevPreMulSum
  end.

(** The kernel for one rank that scales has no instance for FP8, nor for [bfloat16]
    when it is not built in. *)
Definition no_kernel (bf16 : bool) (op : Z) (dt : ncclDataType_t) : Prop :=
  dev_op op dt = ncclDevPreMulSum /\ (is_fp8 dt = true \/ (dt = ncclBfloat16 /\ bf16 = false)).

Definition call_bytes (info : coll_info) : Z := in_count info * ncclTypeSize (in_datatype info).

(** What one rank launches: a scaling kernel for all elements, or a copy unless it is
    in place. *)
Definition one_rank_launch (info : coll_info) (w : one_rank_work) : Prop :=
  match w with
  | OrKernel es bn threads => dev_op (in_op info) (in_datatype info) = ncclDevPreMulSum /\ es = ncclTypeSize (in_datatype info) /\ 1 <= bn <= 32 /\ threads = 512
  | OrMemcpy n => dev_op (in_op info) (in_datatype info) <> ncclDevPreMulSum /\ in_recvbuff info <> in_sendbuff info /\ n = call_bytes info
  | OrNothing => dev_op (in_op info) (in_datatype info) <> ncclDevPreMulSum /\ in_recvbuff info = in_sendbuff info
  end.

(** The task of a call: its buffers, root and operator, and exactly its bytes. *)
Record call_task (nRanks : Z) (info : coll_info) (id mask : Z) (t : coll_task) : Prop := {
  ck_call : t_func (ftask t) = in_coll info /\ t_sendbuff (ftask t) = in_sendbuff info /\ t_recvbuff (ftask t) = in_recvbuff info /\ t_root (ftask t) = in_root info;
  ck_op : t_opHost (ftask t) = in_op info /\ t_opDev (ftask t) = dev_op (in_op info) (in_datatype info);
  ck_bytes : t_count (ftask t) * ncclTypeSize (t_datatype (ftask t)) = call_bytes info;
  ck_type : t_datatype (ftask t) = if bool_decide (in_coll info = ncclFuncAllGather \/ in_coll info = ncclFuncBroadcast) then ncclInt8 else in_datatype info;
  ck_traffic : t_trafficBytes (ftask t) = call_bytes info * ncclFuncTrafficPerByte (in_coll info) nRanks;
  ck_steps : t_id (ftask t) = id /\ t_chunkSteps (ftask t) = in_chunkSteps info /\ t_sliceSteps (ftask t) = in_sliceSteps info /\ t_eActivationMask (ftask t) = mask;
}.

Section appending.
Context (recip : ncclDataType_t -> Z -> Z) (bf16 : bool) (capturing : Z -> outcome Z) (users : user_comm) (minCompCap : Z).
Context (Hranks : 0 < uc_nRanks users < 2 ^ 20) (Husers : Forall (fun u => ro_op (ur_opFull u) = ncclDevPreMulSum) (uc_ops users)).

Lemma redop_defined junk info : known_op users (in_op info) ->
  (~ bad_argument users minCompCap info -> exists o, hostToDevRedOp recip junk (in_op info) (in_datatype info) users = Ret o /\ ro_op o = dev_op (in_op info) (in_datatype info)) /\
  (bad_argument users minCompCap info -> is_fp8 (in_datatype info) && (minCompCap <? 90) = false -> hostToDevRedOp recip junk (in_op info) (in_datatype info) users = Fail ncclInvalidArgument).
Proof.
  unfold known_op, bad_argument. set (op := in_op info). set (dt := in_datatype info). intros Hop. change ncclNumOps with 5 in *.
  assert (is_fp8 dt && (minCompCap <? 90) = false -> ~ (is_fp8 dt = true /\ minCompCap < 90)) as Hfp by (intros E [E1 E2%Z.ltb_lt]; by rewrite E1, E2 in E).
  destruct (decide (0 <= op < 5)) as [H5|H5].
  - split; [intros _|intros [H|[H _]] E; [by apply Hfp in E|done]].
    assert (op = 0 \/ op = 1 \/ op = 2 \/ op = 3 \/ op = 4) as [->|[->|[->|[->| ->]]]] by lia; try (by eexists). unfold hostToDevRedOp. cbn -[arith is_integer]. destruct (is_integer dt) eqn:E; [|by eexists].
    rewrite arith_in_range by (rewrite Z.shiftl_mul_pow2 by lia; unfold in_range, int32; cbn [ity_signed ity_width]; lia). by eexists.
  - destruct Hop as [Hop|[u Hu]]; [lia|]. assert (dev_op op dt = ncclDevPreMulSum) as -> by (unfold dev_op; repeat case_match; done || lia).
    assert (hostToDevRedOp recip junk op dt users = if bool_decide (dt = ur_datatype u) then Ret (ur_opFull u) else Fail ncclInvalidArgument) as ->.
    { unfold hostToDevRedOp. change ncclSum with 0. change ncclProd with 1. change ncclMin with 3. change ncclMax with 2. change ncclAvg with 4. rewrite !(proj2 (Z.eqb_neq op _)) by lia. cbn [orb]. change ncclNumOps with 5. by rewrite Hu. }
    split; [intros Hn|intros [H|(_ & u' & Hu' & Hne)] E; [by apply Hfp in E|]].
    + assert (dt = ur_datatype u) as Ed by (destruct (decide (dt = ur_datatype u)); [done|]; destruct Hn; right; split; [done|by exists u]). rewrite bool_decide_true by done. exists (ur_opFull u). split; [done|].
      apply zget_Ret in Hu as [_ Hu]. exact (Forall_lookup_1 _ _ _ _ Husers Hu).
    + assert (u' = u) as -> by congruence. by rewrite bool_decide_false.
Qed.

(** One rank. *)
Lemma one_rank_cases info o : 0 < in_count info -> call_bytes info < 2 ^ 44 -> ro_op o = dev_op (in_op info) (in_datatype info) ->
  (no_kernel bf16 (in_op info) (in_datatype info) -> ncclLaunchOneRank bf16 (in_recvbuff info) (in_sendbuff info) (in_count info) o (in_datatype info) = Fail ncclInvalidArgument) /\
  (~ no_kernel bf16 (in_op info) (in_datatype info) -> exists w, ncclLaunchOneRank bf16 (in_recvbuff info) (in_sendbuff info) (in_count info) o (in_datatype info) = Ret w /\ one_rank_launch info w).
Proof.
  intros Hc Hb Ho. unfold ncclLaunchOneRank. rewrite Ho. set (d := dev_op _ _). set (dt := in_datatype info). assert (1 <= ncclTypeSize dt) as Hts by (by destruct dt).
  assert (u64 (in_count info * ncclTypeSize dt) = call_bytes info) as Eb by (unfold u64; rewrite Z.mod_small; [done|]; unfold call_bytes in Hb; fold dt in Hb; nia).
  destruct (decide (d = ncclDevPreMulSum)) as [Ed|Ed].
  - rewrite Ed. set (b := match dt with ncclFloat8e4m3 | ncclFloat8e5m2 => true | ncclBfloat16 => negb bf16 | _ => false end).
    assert (b = true <-> no_kernel bf16 (in_op info) dt) as Hnk.
    { unfold no_kernel. change (dev_op (in_op info) dt) with d. rewrite Ed. unfold b, is_fp8. clear. destruct dt, bf16; cbn [negb]; (split; [intros H; done || (split; [done|]; auto)|intros (_ & [H|[H1 H2]]); done]). }
    destruct b; [split; [done|intros Hn; by destruct Hn; apply Hnk]|split; [intros H%Hnk; done|intros _]]. eexists. split; [reflexivity|]. cbn [one_rank_launch]. split; [done|]. split; [done|]. split; [|done].
    apply grid_range. fold dt. unfold call_bytes in Hb. fold dt in Hb. nia.
  - assert (exists w, match d with ncclDevPreMulSum => if match dt with ncclFloat8e4m3 | ncclFloat8e5m2 => true | ncclBfloat16 => negb bf16 | _ => false end then Fail ncclInvalidArgument else Ret (OrKernel (ncclTypeSize dt) (Z.min 32 (conv int32 (u64 (u64 (in_count info * ncclTypeSize dt) + Z.shiftl 16 10 - 1) `quot` Z.shiftl 16 10))) 512)
        | _ => Ret (if negb (in_recvbuff info =? in_sendbuff info) then OrMemcpy (u64 (in_count info * ncclTypeSize dt)) else OrNothing) end = Ret w /\ one_rank_launch info w) as Hw.
    { exists (if negb (in_recvbuff info =? in_sendbuff info) then OrMemcpy (u64 (in_count info * ncclTypeSize dt)) else OrNothing). split; [by destruct d|]. rewrite Eb. destruct (Z.eqb_spec (in_recvbuff info) (in_sendbuff info)); cbn; by split. }
    split; [intros [H _]; done|intros _; exact Hw].
Qed.

(** A stream of the group, and a new one. *)
Lemma add_stream_known st p : planner_ok capturing (uc_nRanks users) p -> st ∈ pn_streams p ->
  exists p', add_stream capturing st p = Ret p' /\ planner_ok capturing (uc_nRanks users) p' /\ pn_streams p' = pn_streams p /\ pn_sorter p' = pn_sorter p.
Proof.
  intros [H1 H2 [H3 H3'] H4] Hin. unfold add_stream. destruct (_ || _); [|by eexists]. cbn [pn_streams pn_capturingGraph pn_nTasksColl pn_sorter]. rewrite bool_decide_true by done. eexists. split; [done|]. split; [|done].
  by split; cbn [pn_nTasksColl pn_sorter pn_streams pn_streamRecent pn_capturingGraph].
Qed.

Lemma add_stream_new st p : planner_ok capturing (uc_nRanks users) p -> st ∉ pn_streams p ->
  add_stream capturing st p = (graph ← capturing st;
    if decide (pn_streams p <> [] /\ pn_capturingGraph p <> graph) then Fail ncclInvalidUsage else Ret (MkPlanner (pn_nTasksColl p) (pn_sorter p) st (st :: pn_streams p) graph)).
Proof.
  intros [H1 H2 [H3 H3'] H4] Hin. unfold add_stream. assert (negb (st =? pn_streamRecent p) || bool_decide (pn_streams p = []) = true) as ->.
  { destruct (Z.eqb_spec st (pn_streamRecent p)) as [->|]; [|done]. apply bool_decide_eq_true. destruct (pn_streams p) eqn:E; [done|]. destruct Hin. by apply H3'. }
  cbn [pn_streams pn_capturingGraph pn_nTasksColl pn_sorter]. rewrite bool_decide_false by done. destruct (capturing st) as [g| |]; [|done|done]. cbn [mbind outcome_bind].
  destruct (decide _) as [[E1 E2]|E].
  - rewrite bool_decide_false by done. by rewrite (proj2 (Z.eqb_neq _ _)).
  - case_bool_decide; [done|]. destruct (Z.eqb_spec (pn_capturingGraph p) g); [done|]. by destruct E.
Qed.

Lemma new_stream_ok st p g : planner_ok capturing (uc_nRanks users) p -> st ∉ pn_streams p -> capturing st = Ret g -> ~ (pn_streams p <> [] /\ pn_capturingGraph p <> g) ->
  planner_ok capturing (uc_nRanks users) (MkPlanner (pn_nTasksColl p) (pn_sorter p) st (st :: pn_streams p) g).
Proof.
  intros [H1 H2 [H3 H3'] H4] Hin Hg Hn. split; cbn [pn_nTasksColl pn_sorter pn_streams pn_streamRecent pn_capturingGraph]; [done|done|split; [by constructor|by left]|]. constructor; [done|].
  destruct (pn_streams p) eqn:E; [constructor|]. destruct (decide (pn_capturingGraph p = g)) as [<-|]; [done|]. by destruct Hn.
Qed.

Lemma new_task_ok info opDev id mask : 0 < in_count info -> call_bytes info * ncclFuncTrafficPerByte (in_coll info) (uc_nRanks users) < 2 ^ 64 ->
  0 < ncclFuncTrafficPerByte (in_coll info) (uc_nRanks users) -> known_op users (in_op info) -> ro_op opDev = dev_op (in_op info) (in_datatype info) ->
  let t := new_coll_task (uc_nRanks users) info opDev id mask in traffic_ok (uc_nRanks users) t /\ op_ok t /\ call_task (uc_nRanks users) info id mask t.
Proof.
  intros Hc Hb Ht Hop Ho t. assert (0 < ncclTypeSize (in_datatype info)) as Hs by (by destruct (in_datatype info)). unfold call_bytes in *. set (es := ncclTypeSize (in_datatype info)) in *. set (k := ncclFuncTrafficPerByte _ _) in *.
  assert (in_count info <= in_count info * es) by nia. assert (in_count info * es <= in_count info * es * k) by nia.
  assert (ro_op opDev = ncclDevPreMulSum \/ ro_op opDev = ncclDevSumPostDiv \/ 0 <= in_op info < 4) as Hok.
  { rewrite Ho. destruct (decide (0 <= in_op info < 4)) as [|H4]; [by right; right|]. unfold dev_op. repeat case_match; try lia; auto. }
  assert (bool_decide (in_coll info = ncclFuncAllGather \/ in_coll info = ncclFuncBroadcast) = bool_decide (in_coll info = ncclFuncAllGather) || bool_decide (in_coll info = ncclFuncBroadcast)) as Ebd by (by destruct (in_coll info)).
  unfold traffic_ok, op_ok, t, new_coll_task. cbn [ct_task t_count t_trafficBytes t_datatype t_func t_opDev t_opHost]. fold es k.
  split; [|split; [done|split]]; cbn [ct_task t_count t_trafficBytes t_datatype t_func t_opDev t_opHost t_sendbuff t_recvbuff t_root t_id t_chunkSteps t_sliceSteps t_eActivationMask]; rewrite ?Ebd; try done;
    set (b := bool_decide _ || bool_decide _); unfold call_bytes; fold es k; destruct b; unfold u64; cbn [ncclTypeSize]; rewrite ?Z.mul_1_r, ?(Z.mod_small (in_count info * es)), ?(Z.mod_small (in_count info * es)), ?(Z.mod_small (in_count info * es * k)) by lia; fold es; lia || done.
Qed.
End appending.

(** (C11) Appending a collective to a group, call by call.  A call without elements is
    discarded: nothing changes.  One with bad arguments (FP8 before sm90, or a user's
    operator of another type) is refused with [ncclInvalidArgument], as is one on a
    single rank that no kernel can scale.  Any other call on a single rank is launched
    at once, as a kernel or a copy of its bytes, and leaves no task.  On several ranks it
    adds exactly one task, with the buffers, root and operator of the call, its bytes and
    their traffic, and the stream is listed once; only a stream that is new to the group
    is asked for its capture: an error of that, or a graph other than the group's
    ([ncclInvalidUsage]), is the only way left to fail.  The planner stays in order: tasks
    counted, and streams listed once and captured alike.  (The operator is one of the five
    or one in use, as [ArgsCheck] has made sure, and the traffic fits in 64 bits.) *)
Theorem taskAppend_keeps recip bf16 capturing users minCompCap junk id mask info p :
  0 < uc_nRanks users < 2 ^ 20 -> Forall (fun u => ro_op (ur_opFull u) = ncclDevPreMulSum) (uc_ops users) -> planner_ok capturing (uc_nRanks users) p ->
  known_op users (in_op info) -> 0 <= in_count info -> call_bytes info < 2 ^ 44 -> call_bytes info * ncclFuncTrafficPerByte (in_coll info) (uc_nRanks users) < 2 ^ 64 ->
  let r := taskAppend_coll recip bf16 capturing users minCompCap junk id mask info p in
  let queued streams := exists p' t, r = Ret (p', Queued) /\ planner_ok capturing (uc_nRanks users) p' /\ pn_streams p' = streams /\
    pn_sorter p' = pn_sorter p ++ [t] /\ call_task (uc_nRanks users) info id mask t in
  (in_count info = 0 -> r = Ret (p, Discarded)) /\
  (in_count info <> 0 -> bad_argument users minCompCap info -> r = Fail ncclInvalidArgument) /\
  (in_count info <> 0 -> ~ bad_argument users minCompCap info -> uc_nRanks users = 1 ->
     (no_kernel bf16 (in_op info) (in_datatype info) -> r = Fail ncclInvalidArgument) /\
     (~ no_kernel bf16 (in_op info) (in_datatype info) -> exists w, r = Ret (p, Launched w) /\ one_rank_launch info w)) /\
  (in_count info <> 0 -> ~ bad_argument users minCompCap info -> uc_nRanks users <> 1 ->
     (in_stream info ∈ pn_streams p -> queued (pn_streams p)) /\
     (in_stream info ∉ pn_streams p -> (forall e, capturing (in_stream info) = Fail e -> r = Fail e) /\
        forall g, capturing (in_stream info) = Ret g ->
          (pn_streams p <> [] -> g <> pn_capturingGraph p -> r = Fail ncclInvalidUsage) /\
          (pn_streams p = [] \/ g = pn_capturingGraph p -> queued (in_stream info :: pn_streams p)))).
Proof.
  intros Hr Hu Hp Hop Hc Hsz Hb r queued. destruct (redop_defined recip users minCompCap Hr Hu junk info Hop) as [Hgood Hbad].
  assert (in_count info <> 0 -> r = if is_fp8 (in_datatype info) && (minCompCap <? 90) then Fail ncclInvalidArgument else
    opDev ← hostToDevRedOp recip junk (in_op info) (in_datatype info) users;
    if uc_nRanks users =? 1 then w ← ncclLaunchOneRank bf16 (in_recvbuff info) (in_sendbuff info) (in_count info) opDev (in_datatype info); Ret (p, Launched w)
    else p ← add_stream capturing (in_stream info) (MkPlanner (pn_nTasksColl p + 1) (pn_sorter p ++ [new_coll_task (uc_nRanks users) info opDev id mask]) (pn_streamRecent p) (pn_streams p) (pn_capturingGraph p)); Ret (p, Queued)) as Er.
  { intros H0. unfold r, taskAppend_coll. rewrite (proj2 (Z.eqb_neq _ _)) by done. by destruct (in_datatype info). }
  assert (forall H : ~ bad_argument users minCompCap info, is_fp8 (in_datatype info) && (minCompCap <? 90) = false) as Hfp.
  { intros Hn. apply not_true_is_false. intros [E1 E2%Z.ltb_lt]%andb_true_iff. destruct Hn. by left. }
  split; [intros H0; unfold r, taskAppend_coll; by rewrite H0|]. split; [|split].
  - intros H0 Hbd. rewrite Er by done. destruct (_ && _) eqn:E; [done|]. by rewrite (Hbad Hbd eq_refl).
  - intros H0 Hn H1. rewrite Er, (Hfp Hn) by done. destruct (Hgood Hn) as (o & -> & Ho). cbn [mbind outcome_bind]. rewrite H1. cbn [Z.eqb Pos.eqb].
    destruct (one_rank_cases bf16 info o ltac:(lia) Hsz Ho) as [K1 K2]. split; [intros Hk; by rewrite (K1 Hk)|]. intros Hk. destruct (K2 Hk) as (w & -> & Hw). by exists w.
  - intros H0 Hn H1. destruct (Hgood Hn) as (o & Eo & Ho). rewrite (Hfp Hn), Eo in Er. cbn [mbind outcome_bind] in Er. rewrite (proj2 (Z.eqb_neq (uc_nRanks users) 1)) in Er by done. specialize (Er H0).
    assert (0 < ncclFuncTrafficPerByte (in_coll info) (uc_nRanks users)) as Ht by (destruct (in_coll info); cbn; lia).
    destruct (new_task_ok users info o id mask ltac:(lia) Hb Ht Hop Ho) as (T1 & T2 & T3). set (t := new_coll_task _ _ _ _ _) in *. set (p1 := MkPlanner _ _ _ _ _) in Er.
    assert (planner_ok capturing (uc_nRanks users) p1) as Hp1.
    { destruct Hp as [P1 P2 P3 P4]. split; cbn [p1 pn_nTasksColl pn_sorter pn_streams pn_streamRecent pn_capturingGraph]; [rewrite length_app; cbn; lia|apply Forall_app; by split; [|constructor]|done|done]. }
    split.
    + intros Hin. destruct (add_stream_known capturing users (in_stream info) p1 Hp1 Hin) as (p' & E & K1 & K2 & K3). exists p', t. rewrite Er, E. by split_and!.
    + intros Hin. pose proof (add_stream_new capturing users (in_stream info) p1 Hp1 Hin) as E. split; [intros e He; rewrite Er, E, He; done|]. intros g Hg. rewrite Hg in E. cbn [mbind outcome_bind] in E. split.
      * intros Hs Hgr. rewrite decide_True in E by (by split). by rewrite Er, E.
      * intros Hs. assert (~ (pn_streams p1 <> [] /\ pn_capturingGraph p1 <> g)) as Hno by (intros [X1 X2]; destruct Hs as [Hs|Hs]; [by apply X1|by apply X2]). rewrite decide_False in E by done.
        eexists _, t. rewrite Er, E. split; [reflexivity|]. split; [by apply (new_stream_ok capturing users _ p1 g)|]. by split_and!.
Qed.

(** Four ranks; streams are not captured. *)
Definition sample_users : user_comm := MkUserComm 4096 (0, 0) 0 4 false 0 0 [].
Definition no_capture (st : Z) : outcome Z := Ret (2 ^ 64 - 1).
Definition sample_info : coll_info := MkCollInfo ncclFuncAllGather 4096 8192 1000 ncclFloat32 0 0 7 4 2.
Definition sample_append : outcome (planner * appended) :=
  taskAppend_coll (fun _ _ => 0) true no_capture sample_users 90 (MkRedOpFull ncclDevSum 0 false 0) 11 0 sample_info (MkPlanner 0 [] 0 [] 0).

Lemma taskAppend_keeps_witness : exists p' t, sample_append = Ret (p', Queued) /\ planner_ok no_capture 4 p' /\ pn_streams p' = [7] /\ pn_sorter p' = [t] /\ call_task 4 sample_info 11 0 t.
Proof.
  destruct (taskAppend_keeps (fun _ _ => 0) true no_capture sample_users 90 (MkRedOpFull ncclDevSum 0 false 0) 11 0 sample_info (MkPlanner 0 [] 0 [] 0)) as (_ & _ & _ & H).
  - cbn. lia.
  - constructor.
  - split; cbn; [done|constructor|split; [constructor|done]|constructor].
  - left. done.
  - cbn. lia.
  - reflexivity.
  - reflexivity.
  - destruct H as [_ H]; [done| |done|].
    + intros [[H _]|[H _]]; [discriminate H|by apply H].
    + destruct H as [_ H]; [apply not_elem_of_nil|]. destruct (H (2 ^ 64 - 1) eq_refl) as [_ H']. destruct H' as (p' & t & E1 & E2 & E3 & E4 & E5); [by left|]. exists p', t. split; [exact E1|]. by split_and!.
Defined.

(** ** A gather on the ring and a reduction with NVLS *)

Definition mixed_tune : tune_comm :=
  with_threads (MkTuneComm 4 2 2 2 2 90 0 (replicate 4 (replicate 12 0)) 1
      (fun f a p => if (p =? 2) && (a =? (if bool_decide (f = ncclFuncAllReduce) then NCCL_ALGO_NVLS_TREE else NCCL_ALGO_RING)) then float_of_Z 40 else S754_zero false) (fun f a p => float_of_Z 25)
      (fun _ _ => 0) (fun _ _ => 0))
    (tune_maxThreads (-2) (-2) (float_of_Z 20) 2) (tune_thresholds 4 []).
Definition mixed_comm : creg_comm :=
  MkCregComm 4 2 2 false true true true 90 1 32 false true false true false [] [] [(3, 1); (3, 1)] [] [] sample_conn sample_conn (fun _ => Some false).

(** Registration by the graph works everywhere; the callbacks are 100 for NVLS, 1 for
    mapped memory, 2 and 3 for the network. *)
Definition mixed_calls : reg_calls unit :=
  MkRegCalls unit (fun _ s r _ _ => (tt, (true, s + 1, r + 1, [100]))) (kc_nvlsLocal sample_calls) (kc_collnetGraph sample_calls) (kc_collnetLocal sample_calls)
    (kc_ipcGraph sample_calls) (kc_ipcLocal sample_calls) (kc_netGraph sample_calls) (kc_netLocal sample_calls) (kc_cache sample_calls).
Definition mixed_group : list coll_task :=
  [sample_ct 1 524288 ncclDevSum 0;
   MkCollTask (MkTaskColl 2 ncclFuncAllGather 4096 8192 1000 0 ncclInt8 0 ncclDevSum 4 2 4000 0 0 0 0 false false 0 0 0 0 0 [] [] [] 0) 0 false 0 0 0 0].
Definition mixed_planner : planner := MkPlanner 2 [] 0 [0] 5.
Definition mixed_start : prep_state (R := unit) := MkPrep tt [] (replicate 7 false) (replicate 7 false) false [].
Abbreviation mixed_prepared :=
  (ncclPrepareTasks false None (fun x => x) 12 mixed_tune true mixed_calls mixed_comm true false mixed_planner (S754_zero false) mixed_group [] mixed_start).

Lemma mixed_peers : peers_ok mixed_comm [0; 1].
Proof.
  split; [done|cbn; lia|]. intros c p. cbn [kr_recv kr_send mixed_comm]. unfold sample_conn, registerCheckP2PConnection. cbn [rn_flags rn_connected]. case_bool_decide; [done|]. by vm_compute.
Qed.

Lemma mixed_conn : conn_inv mixed_start.
Proof.
  split; [done|]. intros a Ha. unfold mixed_start, flag_at. cbn [ps_algoNeedConnect]. destruct (replicate _ _ !! _) eqn:F; [|done]. by apply lookup_replicate in F as [-> _].
Qed.

Lemma mixed_run : exists q tm s1, mixed_prepared = Ret (q, tm, s1) /\ match ncclTasksRegAndEnqueue mixed_calls (with_persistent mixed_comm (pn_capturingGraph mixed_planner)) false q s1 with
    | Ret r => (fun tw => (t_id (ftask tw.1), t_algorithm (ftask tw.1), wn_type (wi_node tw.2))) <$> r.1 | _ => [] end = [(2, NCCL_ALGO_RING, ncclDevWorkTypeColl); (1, NCCL_ALGO_NVLS_TREE, ncclDevWorkTypeCollReg)].
Proof. eexists _, _, _. split; [vm_compute; reflexivity|vm_compute; reflexivity]. Qed.

Lemma ncclPrepareTasks_ready_witness : exists q tm s1 tws s2, mixed_prepared = Ret (q, tm, s1) /\
  ncclTasksRegAndEnqueue mixed_calls (with_persistent mixed_comm (pn_capturingGraph mixed_planner)) false q s1 = Ret (tws, s2) /\ (fun tw => (t_id (ftask tw.1), t_algorithm (ftask tw.1), wn_type (wi_node tw.2))) <$> tws =
    [(2, NCCL_ALGO_RING, ncclDevWorkTypeColl); (1, NCCL_ALGO_NVLS_TREE, ncclDevWorkTypeCollReg)] /\
  Forall (fun tw => work_for mixed_comm false tw.1 tw.2) tws /\ Forall (connected true s2) tws.*1.
Proof.
  pose proof (ncclPrepareTasks_ready false None (fun x => x) 12 mixed_tune true mixed_calls mixed_comm [0; 1] true false mixed_planner (S754_zero false) mixed_group mixed_start) as H.
  destruct mixed_run as (q & tm & s1 & E & E2).
  rewrite E in H. destruct H as (gs & _ & _ & tws & s2 & E3 & _ & _ & H4 & _ & _ & _ & H5).
  - unfold mixed_tune. apply (tune_tables_ok (MkTuneComm _ _ _ _ _ _ _ _ _ _ _ _ _)); cbn; lia || done.
  - by intros f.
  - by split; [|repeat constructor].
  - do 2 (constructor; [right; right; cbn; lia|]); constructor.
  - split; cbn; lia.
  - apply mixed_peers.
  - apply mixed_conn.
  - reflexivity.
  - exists q, tm, s1, tws, s2. split; [exact E|]. rewrite E3 in E2. cbn [fst] in E2. split; [exact E3|]. split; [exact E2|]. by split.
Defined.

(** The callbacks of tasks with NVLS are queued by the first walk, before those of any
    other task, while the plans take them in the order of the tasks: the gather counts
    three callbacks, and the first three of the queue are not its own. *)
Lemma cleanup_out_of_order : exists q tm s1 tws s2, mixed_prepared = Ret (q, tm, s1) /\ ncclTasksRegAndEnqueue mixed_calls (with_persistent mixed_comm (pn_capturingGraph mixed_planner)) false q s1 = Ret (tws, s2) /\
  (fun tw => (t_func (ftask tw.1), nClean tw.1)) <$> tws = [(ncclFuncAllGather, 3); (ncclFuncAllReduce, 1)] /\ ps_cleanup s2 = [100; 1; 2; 3].
Proof. eexists _, _, _, _, _. split; [vm_compute; reflexivity|]. split; [vm_compute; reflexivity|]. split; vm_compute; reflexivity. Qed.
