(* ===== verification/Progress.v ===== *)
(** * The progress thread of the proxy (src/src/proxy.cc)

    The thread takes posted operations from the pool ([ncclProxyGetPostedOps]), adds
    them to its own structure ([ProxyAppend]) and again and again calls the progress
    function of the transport for the operations that are due ([progressOps]).  The
    structure is a list of lists: the first operations of all connections are linked
    by [next], and each of them starts a list of the later operations of its
    connection, linked by [nextPeer]; the connection points to the last of them. *)
From S2P Require Import Prelude Bitops Device RingAlgo ProxyOp Queue Proxy.

#[local] Open Scope Z_scope.

(** ** Data *)

Inductive ncclProxyOpState := ncclProxyOpNone | ncclProxyOpReady | ncclProxyOpProgress.

#[global] Instance ncclProxyOpState_eq_dec : EqDecision ncclProxyOpState.
Proof. solve_decision. Defined.

Definition NCCL_PROXY_MAX_SUBS : Z := MAXCHANNELS.

(** The fields of [ncclProxySubArgs] that are set when an operation is appended; the
    counters of the transports are in the transports' state, and the handles of the
    profiler and the [syncCond] pointer, which are only copied, are left out. *)
Record ncclProxySubArgs := MkSubArgs {
  sb_connection : Z; sb_channelId : Z; sb_nsteps : Z; sb_nbytes : Z; sb_chunkSize : Z; sb_offset : Z; sb_loopSize : Z; sb_loopOffset : Z; sb_isOneRPN : bool; sb_peer : Z;
  sb_reg : bool; sb_sendMhandle : Z; sb_recvMhandle : Z; sb_sendbuff : Z; sb_recvbuff : Z; sb_needRollback : bool; sb_hasRollback : bool; sb_eActivationMask : Z; sb_rank : Z;
  sb_ringAlgo : option ring_object; sb_workCounter : Z }.

Definition sub_of (connection : Z) (op : ncclProxyOp) : ncclProxySubArgs :=
  let a := op_payload op in
  let sh := op_sh a in let bf := op_bf a in let mt := op_mt a in
  MkSubArgs connection (op_channelId op) (op_nsteps sh) (op_nbytes sh) (op_chunkSize sh) 0 (op_loopSize sh) (op_loopOffset sh) (op_isOneRPN bf) (op_peer mt)
    (op_reg bf) (op_sendMhandle bf) (op_recvMhandle bf) (op_sendbuff bf) (op_recvbuff bf) false false (op_eActivationMask mt) (op_rank mt) (op_ringAlgo bf) (op_workCounter mt).

(** [ncclProxyArgs] without its links; [pa_subs] are the first [nsubs] entries,
    [pa_append] is [proxyAppendPtr], [pa_progress] the connection whose transport
    gives the progress function; [idle] is what that function returns. *)
Record ncclProxyArgs := MkPArgs {
  pa_subs : list ncclProxySubArgs; pa_done : Z; pa_opCount : Z; pa_sliceSteps : Z; pa_chunkSteps : Z; pa_chunkSize : Z; pa_dtype : ncclDataType_t; pa_redOp : Z;
  pa_pattern : ncclPattern_t; pa_protocol : Z; pa_coll : ncclFunc_t; pa_algorithm : Z; pa_specifics : Z * Z * Z; pa_state : ncclProxyOpState; pa_progress : Z; pa_append : Z;
  pa_ncclFuncTimes : Z; pa_peerRank : Z; pa_groupHash : Z; pa_rank : Z; pa_reg : bool }.

Definition nsubs (d : ncclProxyArgs) : Z := Z.of_nat (length (pa_subs d)).
Definition set_subs (d : ncclProxyArgs) (l : list ncclProxySubArgs) : ncclProxyArgs :=
  MkPArgs l (pa_done d) (pa_opCount d) (pa_sliceSteps d) (pa_chunkSteps d) (pa_chunkSize d) (pa_dtype d) (pa_redOp d) (pa_pattern d) (pa_protocol d) (pa_coll d) (pa_algorithm d)
    (pa_specifics d) (pa_state d) (pa_progress d) (pa_append d) (pa_ncclFuncTimes d) (pa_peerRank d) (pa_groupHash d) (pa_rank d) (pa_reg d).
Definition set_progress (d : ncclProxyArgs) (st : ncclProxyOpState) : ncclProxyArgs :=
  MkPArgs (pa_subs d) (pa_done d) (pa_opCount d) (pa_sliceSteps d) (pa_chunkSteps d) (pa_chunkSize d) (pa_dtype d) (pa_redOp d) (pa_pattern d) (pa_protocol d) (pa_coll d) (pa_algorithm d)
    (pa_specifics d) st (pa_progress d) (pa_append d) (pa_ncclFuncTimes d) (pa_peerRank d) (pa_groupHash d) (pa_rank d) (pa_reg d).

(** A zeroed element. *)
Definition zero_pargs : ncclProxyArgs :=
  MkPArgs [] 0 0 0 0 0 ncclInt8 0 ncclPatternRing 0 ncclFuncBroadcast 0 (0%Z, 0%Z, 0%Z) ncclProxyOpNone 0 0 0 0 0 0 false.

(** What [ncclProxyConnection] says: whether its operations may be grouped, and where
    [proxyAppendPtr] points. *)
Record proxy_conn := MkProxyConn { cx_shared : bool; cx_append : Z }.

(** [ncclProxyOpToArgs]: the operation becomes sub-operation [subIndex]. *)
Definition ncclProxyOpToArgs (cx : proxy_conn) (connection : Z) (op : ncclProxyOp) (args : ncclProxyArgs) (subIndex : Z) : outcome ncclProxyArgs :=
  let a := op_payload op in
  let sh := op_sh a in let kd := op_kd a in let mt := op_mt a in
  if NCCL_PROXY_MAX_SUBS <=? subIndex then Fail ncclInternalError
  else
    let subs := take (Z.to_nat subIndex) (pa_subs args) ++ [sub_of connection op] in
    if negb (subIndex =? 0) then
      if negb (pa_sliceSteps args =? op_sliceSteps sh) || negb (pa_chunkSteps args =? op_chunkSteps sh) || negb (pa_protocol args =? op_protocol kd) ||
         negb (bool_decide (pa_dtype args = op_dtype kd)) || negb (pa_redOp args =? op_redOp kd) || negb (bool_decide (pa_coll args = op_coll kd)) then Fail ncclInternalError
      else if negb (bool_decide (pa_state args = ncclProxyOpReady)) then Fail ncclInternalError
      else Ret (set_subs args subs)
    else Ret (MkPArgs subs 0 (opCount op) (op_sliceSteps sh) (op_chunkSteps sh) (op_chunkSize sh) (op_dtype kd) (op_redOp kd) (op_pattern kd) (op_protocol kd) (op_coll kd) (op_algorithm kd)
                (op_sizePerRank mt, op_nNodes mt, op_node mt) ncclProxyOpReady connection (cx_append cx) (op_ncclFuncTimes mt) (op_peerRank mt) (op_groupHash mt) (op_rank mt) (op_regp (op_bf a))).

(** ** State and operations *)

Definition f_next : field := 0.
Definition f_nextPeer : field := 1.

(** The links, the elements, the pointers the connections append at (null unless
    listed), the active and the free list, and the blocks [calloc] will give, of any
    positive size where the code has [PROXYARGS_ALLOCATE_SIZE]. *)
Record ncclProxyProgressState := MkProgress { pg_heap : heap; pg_args : gmap Z ncclProxyArgs; pg_append : gmap Z ptr; pg_active : ptr; pg_pool : ptr; pg_blocks : list (list ptr) }.

Definition set_heap (s : ncclProxyProgressState) (h : heap) : ncclProxyProgressState := MkProgress h (pg_args s) (pg_append s) (pg_active s) (pg_pool s) (pg_blocks s).
Definition set_args (s : ncclProxyProgressState) (p : ptr) (d : ncclProxyArgs) : ncclProxyProgressState := MkProgress (pg_heap s) (<[p := d]> (pg_args s)) (pg_append s) (pg_active s) (pg_pool s) (pg_blocks s).
Definition set_append (s : ncclProxyProgressState) (a : Z) (p : ptr) : ncclProxyProgressState := MkProgress (pg_heap s) (pg_args s) (<[a := p]> (pg_append s)) (pg_active s) (pg_pool s) (pg_blocks s).
Definition set_active (s : ncclProxyProgressState) (p : ptr) : ncclProxyProgressState := MkProgress (pg_heap s) (pg_args s) (pg_append s) p (pg_pool s) (pg_blocks s).
Definition set_pool (s : ncclProxyProgressState) (p : ptr) : ncclProxyProgressState := MkProgress (pg_heap s) (pg_args s) (pg_append s) (pg_active s) p (pg_blocks s).

Definition get_args (s : ncclProxyProgressState) (p : ptr) : outcome ncclProxyArgs := match pg_args s !! p with Some d => Ret d | None => Stuck end.
Definition get_append (s : ncclProxyProgressState) (a : Z) : ptr := default nullptr (pg_append s !! a).
Definition store_in (s : ncclProxyProgressState) (p : ptr) (f : field) (q : ptr) : outcome ncclProxyProgressState := h ← store (pg_heap s) p f q; Ret (set_heap s h).

(** A zeroed block whose elements are chained. *)
Fixpoint link_block (b : list ptr) (h : heap) : heap :=
  match b with [] => h | x :: b => <[(x, f_next) := List.hd nullptr b]> (<[(x, f_nextPeer) := nullptr]> (link_block b h)) end.
Definition zero_block (b : list ptr) (m : gmap Z ncclProxyArgs) : gmap Z ncclProxyArgs := foldr (fun x m => <[x := zero_pargs]> m) m b.

Definition allocateArgs (s : ncclProxyProgressState) : outcome (ptr * ncclProxyProgressState) :=
  s ← (if pg_pool s =? nullptr then
         match pg_blocks s with
         | [] => Fail ncclSystemError
         | b :: bs => Ret (MkProgress (link_block b (pg_heap s)) (zero_block b (pg_args s)) (pg_append s) (pg_active s) (List.hd nullptr b) bs)
         end
       else Ret s);
  let elem := pg_pool s in
  next ← load (pg_heap s) elem f_next;
  s ← store_in (set_pool s next) elem f_nextPeer nullptr;
  s ← store_in s elem f_next nullptr;
  Ret (elem, s).

(** [while (last->next) last = last->next;] *)
Fixpoint last_next (fuel : nat) (h : heap) (last : ptr) : outcome ptr :=
  next ← load h last f_next;
  if next =? nullptr then Ret last else match fuel with O => Stuck | S fuel => last_next fuel h next end.

(** A new element for the operation. *)
Definition new_args (cx : proxy_conn) (connection : Z) (op : ncclProxyOp) (s : ncclProxyProgressState) : outcome (ptr * ncclProxyProgressState) :=
  '(p, s) ← allocateArgs s;
  d ← get_args s p;
  d ← ncclProxyOpToArgs cx connection op d 0;
  Ret (p, set_args s p d).

Definition ProxyAppend (conns : Z -> proxy_conn) (connection : Z) (op : ncclProxyOp) (s : ncclProxyProgressState) : outcome ncclProxyProgressState :=
  let cx := conns connection in
  let args := get_append s (cx_append cx) in
  if negb (args =? nullptr) then
    d ← get_args s args;
    if cx_shared cx && (pa_opCount d =? opCount op) then
      d ← ncclProxyOpToArgs cx connection op d (nsubs d); Ret (set_args s args d)
    else
      '(p, s) ← new_args cx connection op s;
      s ← store_in s args f_nextPeer p;
      Ret (set_append s (cx_append cx) p)
  else
    '(p, s) ← new_args cx connection op s;
    s ← (if pg_active s =? nullptr then Ret (set_active s p)
         else l ← last_next (size (pg_args s)) (pg_heap s) (pg_active s); store_in s l f_next p);
    Ret (set_append s (cx_append cx) p).

(** The element before the removed one, or the head of the list, is linked to [q]. *)
Definition link_prev (s : ncclProxyProgressState) (prev q : ptr) : outcome ncclProxyProgressState :=
  if negb (prev =? nullptr) then store_in s prev f_next q else Ret (set_active s q).

(** [removeOp]: the state with the new values of [op] and [prevOp]. *)
Definition removeOp (s : ncclProxyProgressState) (op prev : ptr) : outcome (ncclProxyProgressState * ptr * ptr) :=
  next ← load (pg_heap s) op f_next;
  nextPeer ← load (pg_heap s) op f_nextPeer;
  '(s, prev) ← (if negb (nextPeer =? nullptr) then
      s ← link_prev s prev nextPeer; s ← store_in s nextPeer f_next next; Ret (s, nextPeer)
    else
      d ← get_args s op;
      s ← link_prev (set_append s (pa_append d) nullptr) prev next; Ret (s, prev));
  s ← store_in s op f_next (pg_pool s);
  Ret (set_pool s op, next, prev).

(** The transports: a progress function, over a state of their own, gives the new
    state of the operation, whether it was idle, and its result. *)
Definition progress_fn (W : Type) : Type := W -> ncclProxyArgs -> W * (ncclProxyOpState * bool * ncclResult_t).

Definition op_finished (st : ncclProxyOpState) (r : ncclResult_t) : bool := bool_decide (st = ncclProxyOpNone) || negb (bool_decide (r = ncclSuccess)).

Fixpoint progress_loop {W} (fn : progress_fn W) (fuel : nat) (s : ncclProxyProgressState) (w : W) (idle : bool) (op prev : ptr) : outcome (ncclProxyProgressState * W * bool) :=
  if op =? nullptr then Ret (s, w, idle)
  else
    match fuel with
    | O => Stuck
    | S fuel =>
      d ← get_args s op;
      if bool_decide (pa_state d = ncclProxyOpNone) then Fail ncclInternalError
      else
        let '(w, (st, i, r)) := fn w d in
        let s := set_args s op (set_progress d st) in
        if op_finished st r then
          '(s, op, prev) ← removeOp s op prev; progress_loop fn fuel s w (idle && i) op prev
        else
          next ← load (pg_heap s) op f_next; progress_loop fn fuel s w (idle && i) next op
    end.

Definition progressOps {W} (fn : progress_fn W) (s : ncclProxyProgressState) (w : W) (idle : bool) : outcome (ncclProxyProgressState * W * bool) :=
  progress_loop fn (S (size (pg_args s))) s w idle (pg_active s) nullptr.

(** ** Specification: a list of queues *)

Abbreviation queues := (list (list ncclProxyArgs)).

(** The pointer the operations of a queue are appended through. *)
Definition append_of (q : list ncclProxyArgs) : Z := match q with [] => 0 | d :: _ => pa_append d end.

(** The element of a first operation. *)
Definition first_args (cx : proxy_conn) (connection : Z) (op : ncclProxyOp) : ncclProxyArgs :=
  let a := op_payload op in
  let sh := op_sh a in let kd := op_kd a in let mt := op_mt a in
  MkPArgs [sub_of connection op] 0 (opCount op) (op_sliceSteps sh) (op_chunkSteps sh) (op_chunkSize sh) (op_dtype kd) (op_redOp kd) (op_pattern kd) (op_protocol kd) (op_coll kd) (op_algorithm kd)
    (op_sizePerRank mt, op_nNodes mt, op_node mt) ncclProxyOpReady connection (cx_append cx) (op_ncclFuncTimes mt) (op_peerRank mt) (op_groupHash mt) (op_rank mt) (op_regp (op_bf a)).

(** An operation joins the last one of its queue, follows it, or starts a queue. *)
Definition join_queue (cx : proxy_conn) (connection : Z) (op : ncclProxyOp) (q : list ncclProxyArgs) : outcome (list ncclProxyArgs) :=
  match last q with
  | Some d =>
    if cx_shared cx && (pa_opCount d =? opCount op) then d ← ncclProxyOpToArgs cx connection op d (nsubs d); Ret (removelast q ++ [d])
    else Ret (q ++ [first_args cx connection op])
  | None => Ret q
  end.

Fixpoint spec_append (cx : proxy_conn) (connection : Z) (op : ncclProxyOp) (qs : queues) : outcome queues :=
  match qs with
  | [] => Ret [[first_args cx connection op]]
  | q :: qs => if append_of q =? cx_append cx then q ← join_queue cx connection op q; Ret (q :: qs) else qs ← spec_append cx connection op qs; Ret (q :: qs)
  end.

(** A queue stays unless it is empty. *)
Definition alive {A} (q : list A) : list (list A) := match q with [] => [] | _ => [q] end.

(** A pass over the queues: the first operation of each makes progress, and leaves if
    it is finished.  The last result are the operations that left. *)
Fixpoint spec_pass {W} (fn : progress_fn W) (w : W) (idle : bool) (qs : queues) : W * bool * queues * list ncclProxyArgs :=
  match qs with
  | [] => (w, idle, [], [])
  | [] :: qs => spec_pass fn w idle qs
  | (d :: ds) :: qs =>
    let '(w, (st, i, r)) := fn w d in
    let '(w, idle, qs', gone) := spec_pass fn w (idle && i) qs in
    if op_finished st r then (w, idle, alive ds ++ qs', d :: gone) else (w, idle, (set_progress d st :: ds) :: qs', gone)
  end.

(** Queues: one per pointer, none empty, and no operation without a state. *)
Record queues_ok (qs : queues) : Prop := {
  qo_queue : Forall (fun q => q <> [] /\ Forall (fun d => pa_append d = append_of q /\ pa_state d <> ncclProxyOpNone) q) qs;
  qo_append : NoDup (append_of <$> qs);
}.

(** ** The structure in memory *)

Definition queue_heads (Q : list (list ptr)) : list ptr := List.hd nullptr <$> Q.

(** [Q] are the elements of the queues, [D] elements in nobody's list, [F] the free ones. *)
Record progress_rep (s : ncclProxyProgressState) (Q : list (list ptr)) (D F : list ptr) (qs : queues) : Prop := {
  rp_active : chain f_next (pg_heap s) (pg_active s) (queue_heads Q);
  rp_queue : Forall (fun q => q <> [] /\ chain f_nextPeer (pg_heap s) (List.hd nullptr q) q) Q;
  rp_pool : chain f_next (pg_heap s) (pg_pool s) F;
  rp_nodup : NoDup (concat Q ++ D ++ F ++ concat (pg_blocks s));
  rp_alloc : forall x, x ∈ concat Q ++ D ++ F -> x <> nullptr /\ is_Some (pg_heap s !! (x, f_next)) /\ is_Some (pg_heap s !! (x, f_nextPeer)) /\ is_Some (pg_args s !! x);
  rp_blocks : Forall (fun b => b <> [] /\ nullptr ∉ b) (pg_blocks s);
  rp_data : Forall2 (Forall2 (fun p d => pg_args s !! p = Some d)) Q qs;
  rp_tail : Forall2 (fun q ds => get_append s (append_of ds) = default nullptr (last q)) Q qs;
  rp_none : forall a, a ∉ append_of <$> qs -> get_append s a = nullptr;
}.

Lemma heads_in Q x : Forall (fun q => q <> []) Q -> x ∈ queue_heads Q -> x ∈ concat Q.
Proof.
  induction Q as [|q Q IH]; intros Hne; [done|]. apply Forall_cons in Hne as [Hq HQ]. destruct q as [|y q]; [done|]. cbn [queue_heads fmap list_fmap List.hd concat]. intros [-> |Hx]%elem_of_cons; [by left|].
  apply elem_of_app. right. by apply IH.
Qed.

Lemma heads_nodup Q : Forall (fun q => q <> []) Q -> NoDup (concat Q) -> NoDup (queue_heads Q).
Proof.
  induction Q as [|q Q IH]; intros Hne Hnd; [constructor|]. apply Forall_cons in Hne as [Hq HQ]. destruct q as [|y q]; [done|]. cbn [concat] in Hnd. apply NoDup_app in Hnd as (_ & Hd & Hnd).
  constructor; [|by apply IH]. intros Hy. apply (Hd y); [by left|by apply heads_in].
Qed.

Lemma heads_length Q : Forall (fun q => q <> []) Q -> (length (queue_heads Q) <= length (concat Q))%nat.
Proof.
  induction Q as [|x Q IH]; intros Hne; [done|]. apply Forall_cons in Hne as [Hx Hl]. destruct x as [|y x]; [done|]. specialize (IH Hl). unfold queue_heads in *. cbn [fmap list_fmap length concat app]. rewrite length_app. lia.
Qed.

Lemma rep_nonempty s Q D F qs : progress_rep s Q D F qs -> Forall (fun q => q <> []) Q.
Proof. intros H. eapply Forall_impl; [exact (rp_queue _ _ _ _ _ H)|]. by intros q []. Qed.

Lemma concat_take {A} (Q1 Q2 : list (list A)) q : concat (Q1 ++ q :: Q2) = concat Q1 ++ q ++ concat Q2.
Proof. by rewrite concat_app. Qed.

(** The fuel of the loops. *)
Lemma rep_size s Q D F qs : progress_rep s Q D F qs -> (length (concat Q ++ D ++ F) <= size (pg_args s))%nat.
Proof.
  intros H. rewrite <- size_dom. set (l := concat Q ++ D ++ F). assert (NoDup l) as Hnd. { pose proof (rp_nodup _ _ _ _ _ H) as Hn. apply (NoDup_app l (concat (pg_blocks s))). unfold l. by rewrite <- !app_assoc. }
  rewrite <- (size_list_to_set (C := gset Z) l Hnd). apply subseteq_size. intros x Hx%elem_of_list_to_set. apply elem_of_dom. by apply (rp_alloc _ _ _ _ _ H).
Qed.

(** ** Allocation *)

Lemma link_other b h x f : x ∉ b -> link_block b h !! (x, f) = h !! (x, f).
Proof. induction b as [|y b IH]; intros Hx; [done|]. apply not_elem_of_cons in Hx as [Hy Hx]. cbn [link_block]. rewrite !lookup_insert_ne by congruence. by apply IH. Qed.

Lemma link_chain b h : NoDup b -> nullptr ∉ b -> chain f_next (link_block b h) (List.hd nullptr b) b.
Proof.
  induction b as [|x b IH]; intros Hnd H0; [done|]. apply NoDup_cons in Hnd as [Hx Hnd]. apply not_elem_of_cons in H0 as [Hx0 H0]. cbn [lseg List.hd link_block]. split; [done|]. split; [done|].
  exists (List.hd nullptr b). rewrite lookup_insert_eq. split; [done|]. eapply chain_ext; [|by apply IH]. intros y Hy. rewrite !lookup_insert_ne by (intros [= ->]; done). done.
Qed.

Lemma fields_ne (x y : ptr) : (x, f_next) <> (y, f_nextPeer).
Proof. intros H%(f_equal snd). discriminate H. Qed.

Lemma link_alloc b h x f : x ∈ b -> f = f_next \/ f = f_nextPeer -> is_Some (link_block b h !! (x, f)).
Proof.
  induction b as [|y b IH]; intros Hx Hf; [by apply not_elem_of_nil in Hx|]. cbn [link_block]. destruct (decide (x = y)) as [->|Hn].
  - destruct Hf as [-> | ->]; [by rewrite lookup_insert_eq|]. rewrite lookup_insert_ne by apply fields_ne. by rewrite lookup_insert_eq.
  - rewrite !lookup_insert_ne by congruence. apply IH; [by apply elem_of_cons in Hx as [|]|done].
Qed.

Lemma zero_block_spec b m x : zero_block b m !! x = if bool_decide (x ∈ b) then Some zero_pargs else m !! x.
Proof.
  induction b as [|y b IH]; cbn [zero_block foldr]; [by rewrite bool_decide_false by apply not_elem_of_nil|]. fold (zero_block b m). destruct (decide (x = y)) as [->|Hn]; [by rewrite lookup_insert_eq, bool_decide_true by by left|].
  rewrite lookup_insert_ne by done. rewrite IH. case_bool_decide as H1; case_bool_decide as H2; try done; set_solver.
Qed.

Lemma in_queues {A} (Q : list (list A)) q x : q ∈ Q -> x ∈ q -> x ∈ concat Q.
Proof. induction Q as [|q' Q IH]; [by intros ?%not_elem_of_nil|]. cbn [concat]. rewrite elem_of_app. intros [->|Hq]%elem_of_cons Hx; [by left|right; by apply IH]. Qed.

(** Queues and free elements are kept by a change outside of them. *)
Lemma chains_ext f h h' Q : (forall x, x ∈ concat Q -> h' !! (x, f) = h !! (x, f)) -> Forall (fun q => q <> [] /\ chain f h (List.hd nullptr q) q) Q -> Forall (fun q => q <> [] /\ chain f h' (List.hd nullptr q) q) Q.
Proof.
  intros He H. apply Forall_forall. intros q Hq. apply (proj1 (Forall_forall _ _) H) in Hq as Hq'. destruct Hq' as [Hne Hc]. split; [done|]. eapply chain_ext; [|exact Hc]. intros x Hx. apply He. by eapply in_queues.
Qed.

Lemma queue_ext (m m' : gmap Z ncclProxyArgs) q ds : (forall x, x ∈ q -> m' !! x = m !! x) -> Forall2 (fun p d => m !! p = Some d) q ds -> Forall2 (fun p d => m' !! p = Some d) q ds.
Proof. intros He H. induction H as [|p d q ds Hp _ IH]; [constructor|]. constructor; [by rewrite He by by left|]. apply IH. intros x Hx. apply He. by right. Qed.

Lemma data_ext (m m' : gmap Z ncclProxyArgs) Q qs : (forall x, x ∈ concat Q -> m' !! x = m !! x) -> Forall2 (Forall2 (fun p d => m !! p = Some d)) Q qs -> Forall2 (Forall2 (fun p d => m' !! p = Some d)) Q (qs : queues).
Proof.
  intros He H. induction H as [|q ds Q qs Hq _ IH]; [constructor|]. constructor; [eapply queue_ext; [|exact Hq]|apply IH]; intros x Hx; apply He; cbn [concat]; set_solver.
Qed.

Lemma refill_rep s Q qs b bs : progress_rep s Q [] [] qs -> pg_blocks s = b :: bs ->
  progress_rep (MkProgress (link_block b (pg_heap s)) (zero_block b (pg_args s)) (pg_append s) (pg_active s) (List.hd nullptr b) bs) Q [] b qs.
Proof.
  intros H Eb. pose proof (rep_nonempty _ _ _ _ _ H) as Hne. destruct H as [H1 H2 H3 H4 H5 H6 H7 H8 H9]. rewrite Eb in H4, H6. cbn [concat app] in H4. apply Forall_cons in H6 as [[Hb0 Hb1] H6].
  assert (forall x, x ∈ concat Q -> x ∉ b) as Hd by (apply NoDup_app in H4 as (_ & Hd & _); intros x Hx Hxb; apply (Hd x Hx); apply elem_of_app; by left).
  assert (NoDup b) as Hnb by (apply NoDup_app in H4 as (_ & _ & H4); by apply NoDup_app in H4 as (? & _)).
  split; cbn [pg_heap pg_args pg_append pg_active pg_pool pg_blocks app]; try done.
  - eapply chain_ext; [|exact H1]. intros x Hx. apply link_other, Hd. by apply heads_in.
  - eapply chains_ext; [|exact H2]. intros x Hx. by apply link_other, Hd.
  - by apply link_chain.
  - intros x [Hx|Hx]%elem_of_app.
    + destruct (H5 x) as (? & ? & ? & ?); [by apply elem_of_app; left|]. rewrite !link_other, zero_block_spec, bool_decide_false by auto. done.
    + split; [by intros ->|]. split; [apply link_alloc; auto|]. split; [apply link_alloc; auto|]. by rewrite zero_block_spec, bool_decide_true.
  - eapply data_ext; [|exact H7]. intros x Hx. rewrite zero_block_spec, bool_decide_false by auto. done.
Qed.

(** The first free element is detached. *)
Lemma take_rep s Q F qs p : progress_rep s Q [] (p :: F) qs -> exists next, load (pg_heap s) p f_next = Ret next /\ pg_pool s = p /\
  progress_rep (MkProgress (<[(p, f_next) := nullptr]> (<[(p, f_nextPeer) := nullptr]> (pg_heap s))) (pg_args s) (pg_append s) (pg_active s) next (pg_blocks s)) Q [p] F qs.
Proof.
  intros H. pose proof (rep_nonempty _ _ _ _ _ H) as Hne. destruct H as [H1 H2 H3 H4 H5 H6 H7 H8 H9]. destruct H3 as (Ep & Hp0 & next & En & H3). exists next. unfold load. rewrite En. split; [done|]. split; [done|].
  assert (forall x, x ∈ concat Q -> x <> p) as Hd by (apply NoDup_app in H4 as (_ & Hd & _); intros x Hx ->; apply (Hd p Hx); by left).
  assert (p ∉ F) as HF by (apply NoDup_app in H4 as (_ & _ & H4); cbn [app] in H4; apply NoDup_cons in H4 as [H4 _]; intros Hx; apply H4; apply elem_of_app; by left).
  split; cbn [pg_heap pg_args pg_append pg_active pg_pool pg_blocks]; try done.
  - eapply chain_ext; [|exact H1]. intros x Hx%heads_in; [|done]. apply Hd in Hx. by rewrite !lookup_insert_ne by congruence.
  - eapply chains_ext; [|exact H2]. intros x Hx. apply Hd in Hx. by rewrite !lookup_insert_ne by congruence.
  - eapply chain_ext; [|exact H3]. intros x Hx. assert (x <> p) by (intros ->; done). by rewrite !lookup_insert_ne by congruence.
  - intros x Hx. destruct (H5 x) as (? & ? & ? & ?); [set_solver|]. split; [done|]. split; [apply lookup_insert_is_Some'; right; apply lookup_insert_is_Some'; by right|]. split; [apply lookup_insert_is_Some'; right; apply lookup_insert_is_Some'; by right|done].
Qed.

Lemma allocateArgs_spec s Q F qs : progress_rep s Q [] F qs ->
  wpx (allocateArgs s) (fun '(p, s') => exists F', progress_rep s' Q [p] F' qs /\ pg_heap s' !! (p, f_next) = Some nullptr /\ pg_heap s' !! (p, f_nextPeer) = Some nullptr /\
    pg_append s' = pg_append s /\ pg_active s' = pg_active s) (fun e => e = ncclSystemError /\ F = [] /\ pg_blocks s = []).
Proof.
  intros H. unfold allocateArgs.
  assert (forall s p F, progress_rep s Q [] (p :: F) qs -> (next ← load (pg_heap s) (pg_pool s) f_next; s1 ← store_in (set_pool s next) (pg_pool s) f_nextPeer nullptr; s1 ← store_in s1 (pg_pool s) f_next nullptr; Ret (pg_pool s, s1)) =
    Ret (p, MkProgress (<[(p, f_next) := nullptr]> (<[(p, f_nextPeer) := nullptr]> (pg_heap s))) (pg_args s) (pg_append s) (pg_active s) (match load (pg_heap s) p f_next with Ret n => n | _ => 0 end) (pg_blocks s))) as Hrun.
  { clear. intros s p F H. destruct (take_rep _ _ _ _ _ H) as (next & El & Ep & _). rewrite Ep, El. cbn [mbind outcome_bind]. destruct (rp_alloc _ _ _ _ _ H p) as (_ & [a Ha] & [b Hb] & _); [set_solver|].
    unfold store_in, store, set_pool, set_heap. cbn [pg_heap]. rewrite Hb. cbn [mbind outcome_bind pg_heap pg_args pg_append pg_active pg_pool pg_blocks]. rewrite lookup_insert_ne, Ha by apply not_eq_sym, fields_ne. done. }
  assert (forall s p F, progress_rep s Q [] (p :: F) qs -> exists s' F', s' = MkProgress (<[(p, f_next) := nullptr]> (<[(p, f_nextPeer) := nullptr]> (pg_heap s))) (pg_args s) (pg_append s) (pg_active s) (match load (pg_heap s) p f_next with Ret n => n | _ => 0 end) (pg_blocks s) /\
    progress_rep s' Q [p] F' qs /\ pg_heap s' !! (p, f_next) = Some nullptr /\ pg_heap s' !! (p, f_nextPeer) = Some nullptr) as Hpost.
  { clear. intros s p F H. destruct (take_rep _ _ _ _ _ H) as (next & El & Ep & Hr). rewrite El. eexists _, F. split; [done|]. split; [done|]. cbn [pg_heap]. rewrite lookup_insert_eq. split; [done|]. rewrite lookup_insert_ne by apply fields_ne. by rewrite lookup_insert_eq. }
  rewrite (chain_head _ _ _ _ (rp_pool _ _ _ _ _ H)). destruct F as [|p F].
  - destruct (pg_blocks s) as [|b bs] eqn:Eb; [done|]. cbn [mbind outcome_bind]. pose proof (refill_rep _ _ _ _ _ H Eb) as Hr. pose proof (rp_blocks _ _ _ _ _ H) as Hbl. rewrite Eb in Hbl. apply Forall_cons in Hbl as [[Hne _] _].
    destruct b as [|p b]; [done|]. rewrite (Hrun _ _ _ Hr). destruct (Hpost _ _ _ Hr) as (s' & F' & -> & Hs). cbn [wpx]. exists F'. by destruct Hs as (? & ? & ?).
  - cbn [mbind outcome_bind]. rewrite (Hrun _ _ _ H). destruct (Hpost _ _ _ H) as (s' & F' & -> & Hs). cbn [wpx]. exists F'. by destruct Hs as (? & ? & ?).
Qed.

(** ** Appending *)

Lemma first_to_args cx connection op d : ncclProxyOpToArgs cx connection op d 0 = Ret (first_args cx connection op).
Proof. done. Qed.

Lemma get_set_append s a p b : get_append (set_append s a p) b = if bool_decide (a = b) then p else get_append s b.
Proof. unfold get_append, set_append. cbn [pg_append]. case_bool_decide; [subst; by rewrite lookup_insert_eq|by rewrite lookup_insert_ne]. Qed.

Lemma tail_ext s s' Q (qs : queues) : (forall a, a ∈ append_of <$> qs -> get_append s' a = get_append s a) -> Forall2 (fun q ds => get_append s (append_of ds) = default nullptr (last q)) Q qs ->
  Forall2 (fun q ds => get_append s' (append_of ds) = default nullptr (last q)) Q qs.
Proof.
  intros He H. induction H as [|q ds Q qs Hq _ IH]; [constructor|]. constructor; [rewrite He; [done|by left]|]. apply IH. intros a Ha. apply He. by right.
Qed.

Lemma set_args_rep s Q D F qs p d : progress_rep s Q D F qs -> p ∉ concat Q -> is_Some (pg_args s !! p) -> progress_rep (set_args s p d) Q D F qs.
Proof.
  intros [H1 H2 H3 H4 H5 H6 H7 H8 H9] Hp _. split; try done; cbn [set_args pg_args pg_heap].
  - intros x Hx. destruct (H5 x Hx) as (? & ? & ? & ?). do 3 (split; [done|]). apply lookup_insert_is_Some'. by right.
  - eapply data_ext; [|exact H7]. intros x Hx. apply lookup_insert_ne. by intros ->.
Qed.

Lemma new_args_spec cx connection op s Q F qs : progress_rep s Q [] F qs ->
  wpx (new_args cx connection op s) (fun '(p, s') => exists F', progress_rep s' Q [p] F' qs /\ pg_heap s' !! (p, f_next) = Some nullptr /\ pg_heap s' !! (p, f_nextPeer) = Some nullptr /\
    pg_args s' !! p = Some (first_args cx connection op) /\ pg_append s' = pg_append s /\ pg_active s' = pg_active s) (fun e => e = ncclSystemError /\ F = [] /\ pg_blocks s = []).
Proof.
  intros H. unfold new_args. wp_bind. eapply wpx_mono; [by apply allocateArgs_spec| |done]. intros [p s'] (F' & K1 & K2 & K3 & K4 & K5). destruct (rp_alloc _ _ _ _ _ K1 p) as (_ & _ & _ & [d Hd]); [set_solver|].
  unfold get_args. rewrite Hd. cbn [mbind outcome_bind]. rewrite first_to_args. cbn [mbind outcome_bind wpx]. exists F'. split; [|split_and!; try done; cbn [set_args pg_args]; by rewrite lookup_insert_eq].
  apply set_args_rep; [done| |by eexists]. pose proof (rp_nodup _ _ _ _ _ K1) as Hnd. apply NoDup_app in Hnd as (_ & Hd' & _). intros Hp. apply (Hd' p Hp). set_solver.
Qed.

Lemma heads_app Q1 q Q2 : queue_heads (Q1 ++ q :: Q2) = queue_heads Q1 ++ List.hd nullptr q :: queue_heads Q2.
Proof. unfold queue_heads. by rewrite fmap_app, fmap_cons. Qed.

Lemma heads_snoc Q q : queue_heads (Q ++ [q]) = queue_heads Q ++ [List.hd nullptr q].
Proof. apply heads_app. Qed.

(** The detached element follows the last one of a queue. *)
Lemma attach_peer s Q1 q Q2 p F (qs1 qs2 : queues) ds d t : progress_rep s (Q1 ++ q :: Q2) [p] F (qs1 ++ ds :: qs2) -> length Q1 = length qs1 -> last q = Some t -> pg_heap s !! (p, f_nextPeer) = Some nullptr ->
  pg_args s !! p = Some d -> ds <> [] -> NoDup (append_of <$> qs1 ++ ds :: qs2) ->
  wp (store_in s t f_nextPeer p) (fun s' => progress_rep (set_append s' (append_of ds) p) (Q1 ++ (q ++ [p]) :: Q2) [] F (qs1 ++ (ds ++ [d]) :: qs2)).
Proof.
  intros H Hlen Ht Hp Hd Hds Hnd. pose proof (rep_nonempty _ _ _ _ _ H) as Hne. destruct H as [H1 H2 H3 H4 H5 H6 H7 H8 H9]. assert (t ∈ q) as Htq by by apply last_Some_elem_of. assert (t ∈ concat (Q1 ++ q :: Q2)) as HtQ by (rewrite concat_take; set_solver).
  assert (p ∉ concat (Q1 ++ q :: Q2)) as HpQ by (apply NoDup_app in H4 as (_ & Hx & _); intros Hp'; apply (Hx p Hp'); set_solver). destruct (H5 t) as (Ht0 & _ & [r Hr] & _); [set_solver|]. destruct (H5 p) as (Hp0 & _); [set_solver|].
  unfold store_in, store. rewrite Hr. cbn [mbind outcome_bind wpx]. rewrite concat_take in *. apply NoDup_app in H4 as Hn. destruct Hn as (Hn & _ & _). apply NoDup_app in Hn as (_ & Hn1 & Hn2). apply NoDup_app in Hn2 as (Hnq & Hn2 & _).
  assert (q <> []) as Hq by (by intros ->). assert (append_of (ds ++ [d]) = append_of ds) as Eap by (by destruct ds). assert (forall x, x ∈ concat Q1 ++ concat Q2 -> x <> t) as Hother by (intros x [Hx|Hx]%elem_of_app ->; [apply (Hn1 t Hx); set_solver|by apply (Hn2 t Htq)]).
  split; cbn [set_append set_heap pg_heap pg_args pg_active pg_pool pg_blocks].
  - rewrite heads_app in *. replace (List.hd nullptr (q ++ [p])) with (List.hd nullptr q) by (by destruct q). eapply chain_ext; [|exact H1]. intros x _. apply lookup_insert_ne. apply not_eq_sym, fields_ne.
  - apply Forall_app in H2 as [K1 [[_ Kq] K2]%Forall_cons]. apply Forall_app. split; [|constructor; [split; [by destruct q|]|]].
    + eapply chains_ext; [|exact K1]. intros x Hx. apply lookup_insert_ne. intros [= <-]. by apply (Hother t); [set_solver|].
    + replace (List.hd nullptr (q ++ [p])) with (List.hd nullptr q) by (by destruct q). eapply lseg_join; [exact Kq|done| |apply NoDup_app; split; [done|]; split; [intros x Hx ->%list_elem_of_singleton; apply HpQ; set_solver|apply NoDup_singleton]].
      split; [done|]. split; [done|]. by exists nullptr.
    + eapply chains_ext; [|exact K2]. intros x Hx. apply lookup_insert_ne. intros [= <-]. by apply (Hother t); [set_solver|].
  - eapply chain_ext; [|exact H3]. intros x _. apply lookup_insert_ne. apply not_eq_sym, fields_ne.
  - rewrite concat_take. eapply NoDup_Permutation_proper; [|exact H4]. cbn [app]. rewrite <- !app_assoc. cbn [app]. do 2 apply Permutation_app_head. by rewrite Permutation_middle.
  - intros x Hx. rewrite concat_take in Hx. destruct (H5 x) as (? & ? & ? & ?); [set_solver|]. split; [done|]. split; [apply lookup_insert_is_Some'; by right|]. split; [apply lookup_insert_is_Some'; by right|done].
  - done.
  - apply Forall2_app_inv in H7 as [K1 K2]; [|done]. apply Forall2_cons in K2 as [Kq K2]. apply Forall2_app; [done|]. constructor; [|done]. apply Forall2_app; [done|]. by constructor.
  - apply Forall2_app_inv in H8 as [K1 K2]; [|done]. apply Forall2_cons in K2 as [Kq K2]. rewrite fmap_app, fmap_cons in Hnd. apply NoDup_app in Hnd as (_ & N1 & [N2 _]%NoDup_cons). apply Forall2_app; [|constructor].
    + eapply tail_ext; [|exact K1]. intros a Ha. rewrite get_set_append, bool_decide_false; [done|]. intros <-. by apply (N1 (append_of ds) Ha); left.
    + rewrite Eap, get_set_append, bool_decide_true, last_snoc by done. done.
    + eapply tail_ext; [|exact K2]. intros a Ha. rewrite get_set_append, bool_decide_false; [done|]. by intros <-.
  - intros a Ha. rewrite fmap_app, fmap_cons, Eap in Ha. rewrite get_set_append, bool_decide_false by set_solver. apply H9. by rewrite fmap_app, fmap_cons.
Qed.

Lemma last_next_spec h l : forall x fuel, chain f_next h x l -> l <> [] -> (length l <= S fuel)%nat -> exists t, last l = Some t /\ last_next fuel h x = Ret t.
Proof.
  induction l as [|y l IH]; intros x fuel Hc Hne Hf; [done|]. destruct Hc as (-> & Hy & n & Hn & Hc). destruct l as [|z l].
  - exists y. split; [done|]. cbn [lseg] in Hc. subst n. destruct fuel; cbn [last_next]; unfold load; rewrite Hn; done.
  - destruct fuel as [|fuel]; [cbn [length] in Hf; lia|]. destruct (IH n fuel) as (t & E & El); [done|done|cbn [length] in Hf |- *; lia|]. exists t. split; [done|]. cbn [last_next]. unfold load at 1. rewrite Hn. cbn [mbind outcome_bind].
    rewrite (chain_head _ _ _ _ Hc). exact El.
Qed.

(** The detached element starts a queue, behind all the others. *)
Lemma start_queue s Q p F qs d : progress_rep s Q [p] F qs -> pg_heap s !! (p, f_next) = Some nullptr -> pg_heap s !! (p, f_nextPeer) = Some nullptr -> pg_args s !! p = Some d -> pa_append d ∉ append_of <$> qs ->
  wp (if pg_active s =? nullptr then Ret (set_active s p) else l ← last_next (size (pg_args s)) (pg_heap s) (pg_active s); store_in s l f_next p)
    (fun s' => progress_rep (set_append s' (pa_append d) p) (Q ++ [[p]]) [] F (qs ++ [[d]])).
Proof.
  intros H Hpn Hpp Hd Ha. pose proof (rep_nonempty _ _ _ _ _ H) as Hne. pose proof (rep_size _ _ _ _ _ H) as Hsize. destruct H as [H1 H2 H3 H4 H5 H6 H7 H8 H9]. destruct (H5 p) as (Hp0 & _); [set_solver|].
  assert (p ∉ concat Q) as HpQ by (apply NoDup_app in H4 as (_ & Hx & _); intros Hp'; apply (Hx p Hp'); set_solver). assert (p ∉ F) as HpF by (apply NoDup_app in H4 as (_ & _ & Hx); cbn [app] in Hx; apply NoDup_cons in Hx as [Hx _]; set_solver).
  assert (queue_heads (Q ++ [[p]]) = queue_heads Q ++ [p]) as Eh by (by rewrite heads_app). assert (concat (Q ++ [[p]]) = concat Q ++ [p]) as Ec by (by rewrite concat_take).
  assert (forall h' act, chain f_next h' act (queue_heads Q ++ [p]) -> (forall x, h' !! (x, f_nextPeer) = pg_heap s !! (x, f_nextPeer)) -> (forall x, x ∉ queue_heads Q -> h' !! (x, f_next) = pg_heap s !! (x, f_next)) -> (forall x, is_Some (pg_heap s !! (x, f_next)) -> is_Some (h' !! (x, f_next))) ->
    progress_rep (MkProgress h' (pg_args s) (<[pa_append d := p]> (pg_append s)) act (pg_pool s) (pg_blocks s)) (Q ++ [[p]]) [] F (qs ++ [[d]])) as Hbuild.
  { intros h' act C1 C2 C3 C4. split; cbn [pg_heap pg_args pg_active pg_pool pg_blocks].
    - by rewrite Eh.
    - apply Forall_app. split; [eapply chains_ext; [|exact H2]; intros; apply C2|]. constructor; [|constructor]. split; [done|]. split; [done|]. split; [done|]. exists nullptr. by rewrite C2.
    - eapply chain_ext; [|exact H3]. intros x Hx. apply C3. intros Hh%heads_in; [|done]. apply NoDup_app in H4 as (_ & Hx' & _). apply (Hx' x Hh). set_solver.
    - rewrite Ec. by rewrite <- app_assoc.
    - intros x Hx. rewrite Ec in Hx. destruct (H5 x) as (? & ? & ? & ?); [set_solver|]. rewrite C2. auto.
    - done.
    - apply Forall2_app; [done|]. by repeat constructor.
    - apply Forall2_app; [|constructor; [|constructor]].
      + eapply (tail_ext s); [|exact H8]. intros a Ha'. change (get_append (set_append s (pa_append d) p) a = get_append s a). rewrite get_set_append, bool_decide_false; [done|]. by intros <-.
      + change (get_append (set_append s (pa_append d) p) (pa_append d) = p). by rewrite get_set_append, bool_decide_true.
    - intros a Ha'. rewrite fmap_app in Ha'. change (get_append (set_append s (pa_append d) p) a = nullptr). rewrite get_set_append, bool_decide_false by set_solver. apply H9. set_solver. }
  rewrite (chain_head _ _ _ _ H1). destruct Q as [|q Q].
  - cbn [queue_heads fmap list_fmap wpx]. apply Hbuild; try done. split; [done|]. split; [done|]. by exists nullptr.
  - destruct (last_next_spec (pg_heap s) (queue_heads (q :: Q)) (pg_active s) (size (pg_args s))) as (t & Et & El); [done|done| |].
    { etrans; [|apply le_S, Hsize]. rewrite length_app. transitivity (length (concat (q :: Q))); [|lia]. by apply heads_length. }
    cbn [queue_heads fmap list_fmap]. fold (queue_heads Q). rewrite El. cbn [mbind outcome_bind]. assert (t ∈ queue_heads (q :: Q)) as Hth by by apply last_Some_elem_of. destruct (H5 t) as (_ & [n Hn] & _); [apply elem_of_app; left; by apply heads_in|].
    unfold store_in, store. rewrite Hn. cbn [mbind outcome_bind wpx]. apply Hbuild.
    + eapply lseg_join; [exact H1|done|split; [done|]; split; [done|]; by exists nullptr|]. apply NoDup_app. split; [apply heads_nodup; [done|by apply NoDup_app in H4 as (? & _)]|]. split; [intros x Hx ->%list_elem_of_singleton; apply HpQ; by apply heads_in|apply NoDup_singleton].
    + intros x. apply lookup_insert_ne, fields_ne.
    + intros x Hx. apply lookup_insert_ne. intros [= ->]. done.
    + intros x Hx. apply lookup_insert_is_Some'. by right.
Qed.

(** An operation of a queue changes, its append pointer apart. *)
Lemma update_op s Q1 q1 q2 Q2 F (qs1 qs2 : queues) ds1 ds2 t d d' : progress_rep s (Q1 ++ (q1 ++ t :: q2) :: Q2) [] F (qs1 ++ (ds1 ++ d :: ds2) :: qs2) -> length Q1 = length qs1 -> length q1 = length ds1 -> pa_append d' = pa_append d ->
  progress_rep (set_args s t d') (Q1 ++ (q1 ++ t :: q2) :: Q2) [] F (qs1 ++ (ds1 ++ d' :: ds2) :: qs2).
Proof.
  intros [H1 H2 H3 H4 H5 H6 H7 H8 H9] Hl Hl2 Ea. assert (append_of (ds1 ++ d' :: ds2) = append_of (ds1 ++ d :: ds2)) as Eap by (by destruct ds1). rewrite concat_take in *. apply NoDup_app in H4 as Hn. destruct Hn as (Hn & _ & _). apply NoDup_app in Hn as (_ & Hn1 & Hn2). apply NoDup_app in Hn2 as (Hnq & Hn2 & _).
  apply NoDup_app in Hnq as (_ & Hnq & [Hnt _]%NoDup_cons). split; cbn [set_args pg_heap pg_args pg_active pg_pool pg_blocks]; try done.
  - rewrite concat_take. done.
  - intros x Hx. rewrite concat_take in Hx. destruct (H5 x Hx) as (? & ? & ? & ?). do 3 (split; [done|]). apply lookup_insert_is_Some'. by right.
  - apply Forall2_app_inv in H7 as [K1 K2]; [|done]. apply Forall2_cons in K2 as [Kq K2]. apply Forall2_app_inv in Kq as [Kq [_ Kq2]%Forall2_cons]; [|done].
    apply Forall2_app; [|constructor; [apply Forall2_app; [|constructor; [by rewrite lookup_insert_eq|]]|]].
    + eapply data_ext; [|exact K1]. intros x Hx. apply lookup_insert_ne. intros <-. apply (Hn1 t Hx). set_solver.
    + eapply queue_ext; [|exact Kq]. intros x Hx. apply lookup_insert_ne. intros <-. apply (Hnq t Hx). by left.
    + eapply queue_ext; [|exact Kq2]. intros x Hx. apply lookup_insert_ne. intros <-. done.
    + eapply data_ext; [|exact K2]. intros x Hx. apply lookup_insert_ne. intros <-. apply (Hn2 t); [set_solver|done].
  - apply Forall2_app_inv in H8 as [K1 K2]; [|done]. apply Forall2_cons in K2 as [Kq K2]. apply Forall2_app; [done|]. constructor; [by rewrite Eap|done].
  - intros a Ha. apply H9. rewrite fmap_app, fmap_cons in *. by rewrite Eap in Ha.
Qed.

Lemma toArgs_keeps cx connection op d k d' : ncclProxyOpToArgs cx connection op d k = Ret d' -> pa_append d = cx_append cx -> pa_append d' = pa_append d /\ pa_state d' <> ncclProxyOpNone.
Proof.
  intros E Ha. unfold ncclProxyOpToArgs in E. destruct (NCCL_PROXY_MAX_SUBS <=? k); [done|]. destruct (negb (k =? 0)); [|by injection E as <-; rewrite Ha].
  destruct (_ || _); [done|]. destruct (negb (bool_decide _)) eqn:Es; [done|]. injection E as <-. apply negb_false_iff, bool_decide_eq_true in Es. cbn. by rewrite Es.
Qed.

Lemma spec_append_in cx connection op qs1 ds qs2 : cx_append cx ∉ append_of <$> qs1 -> append_of ds = cx_append cx ->
  spec_append cx connection op (qs1 ++ ds :: qs2) = (ds ← join_queue cx connection op ds; Ret (qs1 ++ ds :: qs2)).
Proof.
  intros Hn Hd. induction qs1 as [|q qs1 IH]; cbn [app spec_append]; [by rewrite Hd, Z.eqb_refl|]. rewrite fmap_cons in Hn. apply not_elem_of_cons in Hn as [Hq Hn]. rewrite (proj2 (Z.eqb_neq _ _)) by done. rewrite IH by done. by destruct (join_queue _ _ _ _).
Qed.

Lemma spec_append_new cx connection op qs : cx_append cx ∉ append_of <$> qs -> spec_append cx connection op qs = Ret (qs ++ [[first_args cx connection op]]).
Proof.
  induction qs as [|q qs IH]; intros Hn; [done|]. rewrite fmap_cons in Hn. apply not_elem_of_cons in Hn as [Hq Hn]. cbn [spec_append]. rewrite (proj2 (Z.eqb_neq _ _)) by done. by rewrite IH.
Qed.

(** The queue of a pointer. *)
Lemma find_queue s Q F qs a : progress_rep s Q [] F qs -> queues_ok qs -> a ∈ append_of <$> qs -> exists Q1 q t Q2 qs1 ds d qs2,
  Q = Q1 ++ (q ++ [t]) :: Q2 /\ qs = qs1 ++ (ds ++ [d]) :: qs2 /\ length Q1 = length qs1 /\ length q = length ds /\ a ∉ append_of <$> qs1 /\ append_of (ds ++ [d]) = a /\
  get_append s a = t /\ t <> nullptr /\ pg_args s !! t = Some d.
Proof.
  intros H Hok Ha. apply list_elem_of_fmap in Ha as (ds & -> & Hin). apply list_elem_of_split in Hin as (qs1 & qs2 & E). subst qs. pose proof (rp_data _ _ _ _ _ H) as Hd. pose proof (rp_tail _ _ _ _ _ H) as Ht.
  apply Forall2_app_inv_r in Hd as (Q1 & Q2' & K1 & K2 & E). apply Forall2_cons_inv_r in K2 as (q & Q2 & Kq & K2 & ->). subst Q. apply Forall2_length in K1 as Hl. apply Forall2_app_inv in Ht as [_ Ht]; [|done]. apply Forall2_cons in Ht as [Ht _].
  pose proof (qo_queue _ Hok) as Hq. apply Forall_app in Hq as [_ [[Hne _] _]%Forall_cons]. destruct (exists_last Hne) as (ds0 & d & ->). apply Forall2_app_inv_r in Kq as (q0 & q1 & Kq0 & Kq1 & ->). apply Forall2_cons_inv_r in Kq1 as (t & q2 & Kt & Kn & ->). apply Forall2_nil_inv_r in Kn as ->.
  rewrite last_snoc in Ht. cbn [default] in Ht. exists Q1, q0, t, Q2, qs1, ds0, d, qs2. pose proof (qo_append _ Hok) as Hnd. rewrite fmap_app, fmap_cons in Hnd. apply NoDup_app in Hnd as (_ & N1 & _).
  split_and!; try done; [by apply Forall2_length in Kq0|intros Hx; apply (N1 _ Hx); by left|]. destruct (rp_alloc _ _ _ _ _ H t) as (H0 & _); [rewrite concat_take; set_solver|done].
Qed.

Lemma ok_replace qs1 ds ds' qs2 : queues_ok (qs1 ++ ds :: qs2) -> ds' <> [] -> append_of ds' = append_of ds -> Forall (fun d => pa_append d = append_of ds /\ pa_state d <> ncclProxyOpNone) ds' -> queues_ok (qs1 ++ ds' :: qs2).
Proof.
  intros [H1 H2] Hne Ea Hall. apply Forall_app in H1 as [K1 [_ K2]%Forall_cons]. split; [apply Forall_app; split; [done|]; constructor; [by rewrite Ea|done]|]. rewrite fmap_app, fmap_cons in *. by rewrite Ea.
Qed.

Lemma join_snoc cx connection op ds d : join_queue cx connection op (ds ++ [d]) =
  if cx_shared cx && (pa_opCount d =? opCount op) then d' ← ncclProxyOpToArgs cx connection op d (nsubs d); Ret (ds ++ [d']) else Ret ((ds ++ [d]) ++ [first_args cx connection op]).
Proof. unfold join_queue. rewrite last_snoc, removelast_last. done. Qed.

Definition represents (s : ncclProxyProgressState) (qs : queues) : Prop := queues_ok qs /\ exists Q F, progress_rep s Q [] F qs.

(** [ProxyAppend] refines [spec_append]; it fails only without memory or if the
    operation cannot join the last one. *)
Lemma ProxyAppend_refines conns connection op s qs : represents s qs ->
  wpx (ProxyAppend conns connection op s) (fun s' => exists qs', spec_append (conns connection) connection op qs = Ret qs' /\ represents s' qs')
    (fun e => e = ncclSystemError /\ pg_blocks s = [] \/ spec_append (conns connection) connection op qs = Fail e).
Proof.
  intros [Hok (Q & F & H)]. unfold ProxyAppend. set (cx := conns connection). destruct (decide (cx_append cx ∈ append_of <$> qs)) as [Hin|Hout].
  - destruct (find_queue s Q F qs (cx_append cx) H Hok Hin) as (Q1 & q & t & Q2 & qs1 & ds & d & qs2 & -> & -> & Hl & Hl2 & Hn & Ea & Eg & Ht0 & Hd). rewrite Eg, (proj2 (Z.eqb_neq _ _)) by done. cbn [negb]. unfold get_args at 1. rewrite Hd. cbn [mbind outcome_bind].
    rewrite (spec_append_in cx connection op qs1 (ds ++ [d]) qs2 Hn Ea), join_snoc. pose proof (qo_queue _ Hok) as Hq. apply Forall_app in Hq as [_ [[_ Hq] _]%Forall_cons]. apply Forall_app in Hq as [Hq [Hq1 _]%Forall_cons]. destruct Hq1 as [Hda Hds].
    destruct (cx_shared cx && (pa_opCount d =? opCount op)).
    + wp_bind. destruct (ncclProxyOpToArgs cx connection op d (nsubs d)) as [d'|e|] eqn:Eo; [|by right|by unfold ncclProxyOpToArgs in Eo; repeat case_match]. cbn [wpx mbind outcome_bind]. eexists. split; [done|].
      destruct (toArgs_keeps _ _ _ _ _ _ Eo) as [Hk1 Hk2]; [by rewrite Hda|]. split; [|exists (Q1 ++ (q ++ [t]) :: Q2), F; by apply (update_op _ _ _ [] _ _ _ _ _ [] _ d)].
      eapply ok_replace; [exact Hok|by destruct ds|by destruct ds|]. apply Forall_app. split; [done|]. constructor; [|done]. split; [by rewrite Hk1|done].
    + wp_bind. eapply wpx_mono; [by apply new_args_spec| |intros e (-> & _ & Hb); by left]. intros [p s1] (F1 & K1 & K2 & K3 & K4 & K5 & K6). cbn beta. wp_bind.
      eapply wpx_mono; [apply (attach_peer s1 Q1 (q ++ [t]) Q2 p F1 qs1 qs2 (ds ++ [d]) (first_args cx connection op) t K1 Hl); [by rewrite last_snoc|done|done|by destruct ds|apply Hok]| |done].
      intros s2 Hs2. cbn [wpx mbind outcome_bind]. rewrite Ea in Hs2. eexists. split; [done|]. split; [|by eexists _, _]. eapply ok_replace; [exact Hok|by destruct ds|by destruct ds|]. apply Forall_app. split; [apply Forall_app; by split; [|constructor]|]. constructor; [|done]. split; [by rewrite Ea|done].
  - rewrite (rp_none _ _ _ _ _ H) by done. cbn [negb]. wp_bind. eapply wpx_mono; [by apply new_args_spec| |intros e (-> & _ & Hb); by left]. intros [p s1] (F1 & K1 & K2 & K3 & K4 & K5 & K6). cbn beta. wp_bind.
    eapply wpx_mono; [apply (start_queue s1 Q p F1 qs (first_args cx connection op)); done| |done]. intros s2 Hs2. cbn [wpx]. rewrite spec_append_new by done. eexists. split; [done|]. split; [|exists (Q ++ [[p]]), F1; exact Hs2].
    destruct Hok as [H1 H2]. split; [apply Forall_app; split; [done|]; repeat constructor; done|]. rewrite fmap_app. apply NoDup_app. split; [done|]. split; [|apply NoDup_singleton]. intros a Ha' ->%list_elem_of_singleton. done.
Qed.

(** ** Removing *)

(** [link_prev] moves the end of the list before [op]. *)
Lemma link_prev_spec s l1 op l2 q : chain f_next (pg_heap s) (pg_active s) (l1 ++ op :: l2) -> NoDup (l1 ++ op :: l2) ->
  exists h act, link_prev s (default nullptr (last l1)) q = Ret (set_active (set_heap s h) act) /\ lseg f_next h act l1 q /\ framed f_next l1 (pg_heap s) h.
Proof.
  intros H Hnd. apply lseg_app in H as (m & H1 & H2). apply NoDup_app in Hnd as (Hnd & _ & _). unfold link_prev. destruct (last l1) as [t|] eqn:Et; cbn [from_option id].
  - assert (t ∈ l1) as Ht by by apply last_Some_elem_of. pose proof (chain_allocated _ _ _ _ _ _ H1 Ht) as Ha. destruct Ha as [Ht0 Ha]. rewrite (proj2 (Z.eqb_neq _ _)) by done. cbn [negb]. unfold store_in. destruct (store_spec f_next (pg_heap s) t q) as [-> Hf]; [done|].
    exists (<[(t, f_next) := q]> (pg_heap s)), (pg_active s). split; [done|]. split; [by eapply lseg_redirect|]. eapply framed_weaken; [|exact Hf]. set_solver.
  - apply last_None in Et as ->. exists (pg_heap s), q. split; [by destruct s|]. split; [done|apply framed_refl].
Qed.

Lemma concat_alive {A} (q : list A) : concat (alive q) = q.
Proof. destruct q; [done|]. cbn [alive concat]. by rewrite app_nil_r. Qed.

(** The structure without the first operation [p] of a queue, which is free again. *)
Lemma removed_rep s Q1 p q Q2 F (qs1 qs2 : queues) d ds h ap act : progress_rep s (Q1 ++ (p :: q) :: Q2) [] F (qs1 ++ (d :: ds) :: qs2) -> length Q1 = length qs1 -> NoDup (append_of <$> qs1 ++ (d :: ds) :: qs2) ->
  Forall (fun e => pa_append e = pa_append d) ds ->
  chain f_next h act (queue_heads (Q1 ++ alive q ++ Q2)) -> (forall x, h !! (x, f_nextPeer) = pg_heap s !! (x, f_nextPeer)) -> h !! (p, f_next) = Some (pg_pool s) ->
  framed f_next (concat (Q1 ++ (p :: q) :: Q2)) (pg_heap s) h -> (forall a, default nullptr (ap !! a) = if bool_decide (q = [] /\ a = pa_append d) then nullptr else get_append s a) ->
  progress_rep (MkProgress h (pg_args s) ap act p (pg_blocks s)) (Q1 ++ alive q ++ Q2) [] (p :: F) (qs1 ++ alive ds ++ qs2).
Proof.
  intros [H1 H2 H3 H4 H5 H6 H7 H8 H9] Hl Hna Hds C1 C2 C3 [C4 C5] C6.
  assert (concat (Q1 ++ (p :: q) :: Q2) ≡ₚ p :: concat (Q1 ++ alive q ++ Q2)) as Hp. { rewrite concat_take, !concat_app, concat_alive. cbn [app]. by rewrite <- Permutation_middle. }
  apply Forall2_app_inv in H7 as [D1 D2]; [|done]. apply Forall2_cons in D2 as [Dq D2]. apply Forall2_cons in Dq as [Dp Dq]. apply Forall2_length in Dq as Elen. apply Forall2_app_inv in H8 as [T1 T2]; [|done]. apply Forall2_cons in T2 as [Tq T2]. cbn [append_of] in Tq.
  rewrite fmap_app, fmap_cons in Hna. cbn [append_of] in Hna. apply NoDup_app in Hna as (_ & N1 & [N2 _]%NoDup_cons). apply NoDup_app in H4 as Hx. destruct Hx as (_ & Hx & _).
  assert (forall a, get_append (MkProgress h (pg_args s) ap act p (pg_blocks s)) a = if bool_decide (q = [] /\ a = pa_append d) then nullptr else get_append s a) as C7 by exact C6.
  split; cbn [pg_heap pg_args pg_active pg_pool pg_blocks app].
  - done.
  - apply Forall_app in H2 as [K1 [[_ Kq] K2]%Forall_cons]. apply (chains_ext _ (pg_heap s)); [intros; apply C2|]. apply Forall_app. split; [done|]. apply Forall_app. split; [|done]. destruct q as [|x q]; [constructor|].
    constructor; [|constructor]. split; [done|]. cbn [List.hd] in Kq |- *. destruct Kq as (_ & _ & n & _ & Kq). cbn [lseg] in Kq. destruct Kq as (-> & Kq). by split.
  - split; [done|]. split; [apply H5; rewrite Hp; by left|]. exists (pg_pool s). split; [done|]. eapply chain_ext; [|exact H3]. intros x Hf. apply C4. right. intros Hc. apply (Hx x Hc). set_solver.
  - eapply NoDup_Permutation_proper; [|exact H4]. rewrite Hp. cbn [app]. by rewrite <- Permutation_middle.
  - intros x Hin. destruct (H5 x) as (? & ? & ? & ?); [rewrite Hp; set_solver|]. rewrite C2. split; [done|]. split; [by apply C5|done].
  - done.
  - apply Forall2_app; [done|]. apply Forall2_app; [|done]. destruct q, ds; [constructor|discriminate Elen..|]. by apply Forall2_cons.
  - apply Forall2_app; [eapply tail_ext; [|exact T1]|apply Forall2_app; [|eapply tail_ext; [|exact T2]]].
    + intros a Ha. rewrite C7, bool_decide_false; [done|]. intros [_ ->]. apply (N1 _ Ha). by left.
    + destruct q as [|x q], ds as [|e ds]; [constructor|discriminate Elen..|]. constructor; [|constructor]. rewrite C7, bool_decide_false by (by intros []). apply Forall_cons in Hds as [He _]. cbn [append_of]. rewrite He, Tq. by rewrite last_cons_cons.
    + intros a Ha. rewrite C7, bool_decide_false; [done|]. by intros [_ ->].
  - intros a Ha. rewrite C7. case_bool_decide as Hc; [done|]. apply H9. intros Hin. apply Ha. rewrite fmap_app, fmap_cons in Hin. rewrite !fmap_app. apply elem_of_app in Hin as [Hin|[Hin|Hin]%elem_of_cons]; [set_solver| |set_solver].
    cbn [append_of] in Hin. destruct q as [|x q], ds as [|e ds]; [by destruct Hc|discriminate Elen..|]. apply Forall_cons in Hds as [He _]. apply elem_of_app. right. apply elem_of_app. left. apply list_elem_of_singleton. cbn [append_of]. by rewrite He.
Qed.

Lemma freed_rep s Q1 p q Q2 F (qs1 qs2 : queues) d ds h ap act : progress_rep s (Q1 ++ (p :: q) :: Q2) [] F (qs1 ++ (d :: ds) :: qs2) -> length Q1 = length qs1 -> NoDup (append_of <$> qs1 ++ (d :: ds) :: qs2) ->
  Forall (fun e => pa_append e = pa_append d) ds -> chain f_next h act (queue_heads (Q1 ++ alive q ++ Q2)) -> framed f_next (concat (Q1 ++ (p :: q) :: Q2)) (pg_heap s) h ->
  (forall a, default nullptr (ap !! a) = if bool_decide (q = [] /\ a = pa_append d) then nullptr else get_append s a) ->
  store h p f_next (pg_pool s) = Ret (<[(p, f_next) := pg_pool s]> h) /\ progress_rep (MkProgress (<[(p, f_next) := pg_pool s]> h) (pg_args s) ap act p (pg_blocks s)) (Q1 ++ alive q ++ Q2) [] (p :: F) (qs1 ++ alive ds ++ qs2).
Proof.
  intros H Hl Hna Hds Hc Hf Hap. pose proof (rep_nonempty _ _ _ _ _ H) as Hne. assert (p ∈ concat (Q1 ++ (p :: q) :: Q2)) as Hp by (rewrite concat_take; set_solver). destruct (rp_alloc _ _ _ _ _ H p) as (Hp0 & Hpn & _); [set_solver|].
  destruct (store_spec f_next h p (pg_pool s)) as [E Hf2]; [split; [done|by apply Hf]|]. split; [done|]. eapply removed_rep; try done.
  - eapply chain_ext; [|exact Hc]. intros x Hx. apply lookup_insert_ne. intros [= <-]. pose proof (rp_nodup _ _ _ _ _ H) as Hnd. apply NoDup_app in Hnd as (Hnd & _ & _). rewrite concat_take in Hnd. cbn [app] in Hnd. rewrite <- Permutation_middle in Hnd. apply NoDup_cons in Hnd as [Hnd _].
    apply Hnd. apply heads_in in Hx; [by rewrite !concat_app, concat_alive in Hx|]. apply Forall_app in Hne as [Hn1 [_ Hn2]%Forall_cons]. apply Forall_app. split; [done|]. apply Forall_app. split; [|done]. by destruct q; repeat constructor.
  - intros x. rewrite lookup_insert_ne by apply fields_ne. apply Hf. by left.
  - apply lookup_insert_eq.
  - eapply framed_trans; [exact Hf|]. eapply framed_weaken; [|exact Hf2]. set_solver.
Qed.

Lemma tail_not_head Q1 p q Q2 : Forall (fun q => q <> []) (Q1 ++ (p :: q) :: Q2) -> NoDup (concat (Q1 ++ (p :: q) :: Q2)) -> forall x, x ∈ q -> x ∉ queue_heads Q1 ++ queue_heads Q2.
Proof.
  intros [Hn1 [_ Hn2]%Forall_cons]%Forall_app Hnd x Hx. rewrite concat_take in Hnd. apply NoDup_app in Hnd as (_ & Hd1 & (_ & Hd2 & _)%NoDup_app). intros [Hh|Hh]%elem_of_app; apply heads_in in Hh; try done; [apply (Hd1 x Hh); set_solver|apply (Hd2 x); [by right|done]].
Qed.

Lemma removeOp_spec s Q1 p q Q2 F (qs1 qs2 : queues) d ds : progress_rep s (Q1 ++ (p :: q) :: Q2) [] F (qs1 ++ (d :: ds) :: qs2) -> length Q1 = length qs1 -> NoDup (append_of <$> qs1 ++ (d :: ds) :: qs2) ->
  Forall (fun e => pa_append e = pa_append d) ds ->
  wp (removeOp s p (default nullptr (last (queue_heads Q1)))) (fun '(s', op, prev) => op = List.hd nullptr (queue_heads Q2) /\ prev = default nullptr (last (queue_heads (Q1 ++ alive q))) /\
    progress_rep s' (Q1 ++ alive q ++ Q2) [] (p :: F) (qs1 ++ alive ds ++ qs2)).
Proof.
  intros H Hl Hna Hds. pose proof (rep_nonempty _ _ _ _ _ H) as Hne. pose proof (rp_active _ _ _ _ _ H) as H1. pose proof (rp_nodup _ _ _ _ _ H) as Hnd. apply NoDup_app in Hnd as (Hnd & _ & _). pose proof (heads_nodup _ Hne Hnd) as Hnh. rewrite heads_app in H1, Hnh. cbn [List.hd] in H1, Hnh.
  assert (exists next, pg_heap s !! (p, f_next) = Some next /\ next = List.hd nullptr (queue_heads Q2) /\ chain f_next (pg_heap s) next (queue_heads Q2)) as (next & En & Eh & Hc).
  { apply lseg_app in H1 as (m & _ & _ & _ & n & En & Hc). exists n. split; [done|]. split; [|done]. destruct (queue_heads Q2); [done|]. by destruct Hc as [-> _]. }
  assert (exists np, pg_heap s !! (p, f_nextPeer) = Some np /\ np = List.hd nullptr q /\ ((np =? nullptr) = match q with [] => true | _ => false end)) as (np & Enp & Ehp & Enz).
  { pose proof (rp_queue _ _ _ _ _ H) as H2. apply Forall_app in H2 as [_ [[_ Kq] _]%Forall_cons]. destruct Kq as (_ & _ & n & En' & Kq). exists n. split; [done|]. split; [|by eapply chain_head]. destruct q; [done|]. by destruct Kq as [-> _]. }
  assert (forall s', pg_args s' = pg_args s -> get_args s' p = Ret d) as Hd. { intros s' E. pose proof (rp_data _ _ _ _ _ H) as H7. apply Forall2_app_inv in H7 as [_ [Dq _]%Forall2_cons]; [|done]. apply Forall2_cons in Dq as [Dp _]. unfold get_args. by rewrite E, Dp. }
  apply NoDup_app in Hnh as Hnh'. destruct Hnh' as (_ & Hd1 & [Hp2 _]%NoDup_cons).
  assert (forall a, default nullptr (<[pa_append d := nullptr]> (pg_append s) !! a) = if bool_decide (([] : list ptr) = [] /\ a = pa_append d) then nullptr else get_append s a) as Hap.
  { intros a. destruct (decide (a = pa_append d)) as [->|Hn]; [by rewrite lookup_insert_eq, bool_decide_true|]. rewrite lookup_insert_ne, bool_decide_false by naive_solver. done. }
  assert (forall x, x ∈ queue_heads Q1 -> x ∈ concat (Q1 ++ (p :: q) :: Q2)) as HQ1. { intros x Hx. rewrite concat_take. apply elem_of_app. left. apply heads_in; [|done]. by apply Forall_app in Hne as []. }
  assert (forall x, x ∈ q -> x ∉ queue_heads Q1 ++ queue_heads Q2) as Hpd by by eapply tail_not_head.
  unfold removeOp, load. rewrite En, Enp. cbn [mbind outcome_bind]. rewrite Enz. destruct q as [|p' q]; cbn [negb].
  - rewrite Hd by done. cbn [mbind outcome_bind]. destruct (link_prev_spec (set_append s (pa_append d) nullptr) (queue_heads Q1) p (queue_heads Q2) next H1 Hnh) as (h & act & -> & Hs & Hf). cbn [mbind outcome_bind set_heap set_active set_append pg_heap pg_args pg_append pg_active pg_pool pg_blocks] in *.
    destruct (freed_rep s Q1 p [] Q2 F qs1 qs2 d ds h (<[pa_append d := nullptr]> (pg_append s)) act H Hl Hna Hds) as [Es Hr]; [| |intros a; apply Hap|].
    + unfold queue_heads. rewrite !fmap_app. apply lseg_app. exists next. split; [done|]. eapply chain_ext; [|exact Hc]. intros x Hx. apply Hf. right. intros Hx1. apply (Hd1 x Hx1). by right.
    + eapply framed_weaken; [|exact Hf]. intros x Hx. by apply HQ1.
    + unfold store_in. cbn [set_heap set_active set_append pg_heap]. rewrite Es. cbn [mbind outcome_bind wpx]. split; [done|]. split; [cbn [alive]; by rewrite app_nil_r|exact Hr].
  - destruct (link_prev_spec s (queue_heads Q1) p (queue_heads Q2) np H1 Hnh) as (h & act & -> & Hs & Hf). cbn [mbind outcome_bind]. cbn [List.hd] in Ehp. subst np.
    assert (p' ∈ concat (Q1 ++ (p :: p' :: q) :: Q2)) as Hp' by (rewrite concat_take; set_solver). destruct (rp_alloc _ _ _ _ _ H p') as (Hp0 & Hpn & _); [set_solver|]. unfold store_in. cbn [set_heap set_active pg_heap].
    destruct (store_spec f_next h p' next) as [-> Hf2]; [split; [done|by apply Hf]|]. cbn [mbind outcome_bind set_heap set_active set_append pg_heap pg_args pg_append pg_active pg_pool pg_blocks].
    destruct (freed_rep s Q1 p (p' :: q) Q2 F qs1 qs2 d ds (<[(p', f_next) := next]> h) (pg_append s) act H Hl Hna Hds) as [Es Hr]; [| |intros a; by rewrite bool_decide_false by (by intros [])|].
    + unfold queue_heads. rewrite !fmap_app. apply lseg_app. exists p'. split; [eapply chain_ext; [|exact Hs]; intros x Hx; apply lookup_insert_ne; intros [= <-]; by apply (Hpd p'); [left|apply elem_of_app; left]|].
      split; [done|]. split; [done|]. exists next. split; [apply lookup_insert_eq|]. eapply chain_ext; [|exact Hc]. intros x Hx. rewrite lookup_insert_ne by (intros [= <-]; by apply (Hpd p'); [left|apply elem_of_app; right]). apply Hf. right. intros Hx1. apply (Hd1 x Hx1). by right.
    + eapply framed_trans; eapply framed_weaken; [|exact Hf| |exact Hf2]; [intros x Hx; by apply HQ1|set_solver].
    + unfold store_in. cbn [set_heap set_active set_append pg_heap]. rewrite Es. cbn [mbind outcome_bind wpx]. split; [done|]. split; [|exact Hr]. cbn [alive]. by rewrite heads_snoc, last_snoc.
Qed.

(** ** Passes *)

Lemma ok_remove qs1 d ds qs2 : queues_ok (qs1 ++ (d :: ds) :: qs2) -> queues_ok (qs1 ++ alive ds ++ qs2).
Proof.
  intros Hok. destruct ds as [|e ds].
  - destruct Hok as [H1 H2]. apply Forall_app in H1 as [K1 [_ K2]%Forall_cons]. split; [by apply Forall_app|]. cbn [alive app]. rewrite fmap_app, fmap_cons in *. apply NoDup_app in H2 as (N1 & N2 & [_ N3]%NoDup_cons). apply NoDup_app. split; [done|]. split; [|done]. intros x Hx Hx2. apply (N2 x Hx). by right.
  - pose proof (qo_queue _ Hok) as Hq. apply Forall_app in Hq as [_ [[_ Hq] _]%Forall_cons]. apply Forall_cons in Hq as [_ Hq]. apply Forall_cons in Hq as Hq'. destruct Hq' as [[He _] _]. apply (ok_replace _ _ _ _ Hok); done.
Qed.

(** The rest of a pass, from the first operation of [Qr] on. *)
Lemma progress_loop_spec {W} (fn : progress_fn W) Qr : forall fuel s w idle Qd F (qsd qsr : queues), progress_rep s (Qd ++ Qr) [] F (qsd ++ qsr) -> length Qd = length qsd -> queues_ok (qsd ++ qsr) -> (length Qr <= fuel)%nat ->
  wp (progress_loop fn fuel s w idle (List.hd nullptr (queue_heads Qr)) (default nullptr (last (queue_heads Qd))))
    (fun '(s', w', idle') => exists qs' gone, spec_pass fn w idle qsr = (w', idle', qs', gone) /\ represents s' (qsd ++ qs')).
Proof.
  induction Qr as [|q Qr IH]; intros fuel s w idle Qd F qsd qsr H Hl Hok Hf.
  - pose proof (rp_data _ _ _ _ _ H) as Hd. apply Forall2_app_inv in Hd as [_ Hd]; [|done]. apply Forall2_nil_inv_l in Hd as ->. assert (progress_loop fn fuel s w idle nullptr (default nullptr (last (queue_heads Qd))) = Ret (s, w, idle)) as E by (by destruct fuel). cbn [queue_heads fmap list_fmap List.hd]. rewrite E. cbn [wpx]. exists [], []. split; [done|]. split; [done|]. by exists (Qd ++ []), F.
  - pose proof (rp_data _ _ _ _ _ H) as Hd. apply Forall2_app_inv in Hd as [_ Hd]; [|done]. apply Forall2_cons_inv_l in Hd as (ds & qsr' & Hq & _ & ->). pose proof (qo_queue _ Hok) as Hqs. apply Forall_app in Hqs as [_ [[Hne Hqs] _]%Forall_cons]. destruct ds as [|d ds]; [done|].
    apply Forall2_cons_inv_r in Hq as (p & q' & Hp & Hq & ->). apply Forall_cons in Hqs as [[_ Hst] Hqs]. cbn [append_of] in Hqs. destruct (rp_alloc _ _ _ _ _ H p) as (Hp0 & _); [rewrite concat_take; set_solver|]. destruct fuel as [|fuel]; [cbn [length] in Hf; lia|]. cbn [length] in Hf.
    cbn [queue_heads fmap list_fmap List.hd progress_loop]. fold (queue_heads Qr) (queue_heads Qd). rewrite (proj2 (Z.eqb_neq _ _)) by done. unfold get_args. rewrite Hp. cbn [mbind outcome_bind]. rewrite bool_decide_false by done. cbn [spec_pass]. destruct (fn w d) as [w1 [[st i] r]].
    assert (progress_rep (set_args s p (set_progress d st)) (Qd ++ (p :: q') :: Qr) [] F (qsd ++ (set_progress d st :: ds) :: qsr')) as Hs by by apply (update_op s Qd [] q' Qr F qsd qsr' [] ds p d).
    destruct (op_finished st r) eqn:Efin.
    + wp_bind. eapply wpx_mono; [apply (removeOp_spec _ Qd p q' Qr F qsd qsr' (set_progress d st) ds Hs Hl); [pose proof (qo_append _ Hok) as Hna; by rewrite fmap_app, fmap_cons in Hna |- *|eapply Forall_impl; [exact Hqs|by intros e []]]| |done].
      intros [[s1 op1] prev1] (-> & -> & Hr). rewrite !app_assoc in Hr. eapply wpx_mono; [apply (IH fuel s1 w1 (idle && i) (Qd ++ alive q') (p :: F) (qsd ++ alive ds) qsr' Hr)| |done].
      * rewrite !length_app, Hl. f_equal. apply Forall2_length in Hq. by destruct q', ds.
      * rewrite <- app_assoc. by eapply ok_remove.
      * lia.
      * intros [[s2 w2] i2] (qs' & gone & -> & Hrep). rewrite <- app_assoc in Hrep. by eexists _, _.
    + pose proof (rp_active _ _ _ _ _ Hs) as Hc. rewrite heads_app in Hc. apply lseg_app in Hc as (m & _ & _ & _ & n & En & Hc). unfold load. cbn [List.hd set_args pg_heap] in *. rewrite En. cbn [mbind outcome_bind].
      assert (n = List.hd nullptr (queue_heads Qr)) as -> by (destruct (queue_heads Qr); [done|by destruct Hc as [-> _]]). replace p with (default nullptr (last (queue_heads (Qd ++ [p :: q'])))) at 2 by (by rewrite heads_snoc, last_snoc).
      eapply wpx_mono; [apply (IH fuel _ w1 (idle && i) (Qd ++ [p :: q']) F (qsd ++ [set_progress d st :: ds]) qsr')| |done].
      * by rewrite <- !app_assoc.
      * by rewrite !length_app, Hl.
      * rewrite <- app_assoc. cbn [app]. eapply ok_replace; [exact Hok|done|done|]. constructor; [|done]. split; [done|]. cbn. intros ->. done.
      * lia.
      * intros [[s2 w2] i2] (qs' & gone & -> & Hrep). rewrite <- app_assoc in Hrep. by eexists _, _.
Qed.

Lemma progressOps_refines {W} (fn : progress_fn W) s w idle qs : represents s qs ->
  wp (progressOps fn s w idle) (fun '(s', w', idle') => exists qs' gone, spec_pass fn w idle qs = (w', idle', qs', gone) /\ represents s' qs').
Proof.
  intros [Hok (Q & F & H)]. unfold progressOps. replace (pg_active s) with (List.hd nullptr (queue_heads Q)) by (pose proof (rp_active _ _ _ _ _ H) as Hc; destruct (queue_heads Q); [by symmetry|by destruct Hc as [-> _]]).
  apply (progress_loop_spec fn Q _ s w idle [] F [] qs H); [done|done|]. etrans; [|apply le_S, (rep_size _ _ _ _ _ H)]. rewrite length_app. transitivity (length (concat Q)); [|lia]. rewrite <- (length_fmap (List.hd nullptr) Q). by apply heads_length, (rep_nonempty _ _ _ _ _ H).
Qed.

(** ** Order of the operations of a connection *)

(** The sub-operations of a list that were appended through [a]. *)
Definition subs_of (a : Z) (l : list ncclProxyArgs) : list ncclProxySubArgs := flat_map pa_subs (filter (fun d => pa_append d = a) l).

Lemma subs_app a l1 l2 : subs_of a (l1 ++ l2) = subs_of a l1 ++ subs_of a l2.
Proof. unfold subs_of. by rewrite filter_app, flat_map_app. Qed.

Lemma subs_all a l : Forall (fun d => pa_append d = a) l -> subs_of a l = flat_map pa_subs l.
Proof. intros H. unfold subs_of. f_equal. induction H as [|d l Hd _ IH]; [done|]. rewrite filter_cons, decide_True by done. by rewrite IH. Qed.

Lemma subs_none a l : Forall (fun d => pa_append d <> a) l -> subs_of a l = [].
Proof. intros H. unfold subs_of. induction H as [|d l Hd _ IH]; [done|]. by rewrite filter_cons, decide_False. Qed.

Lemma subs_single a d : subs_of a [d] = if bool_decide (pa_append d = a) then pa_subs d else [].
Proof. case_bool_decide as H; [rewrite subs_all by (by constructor); cbn; by rewrite app_nil_r|by apply subs_none; constructor]. Qed.

Lemma toArgs_subs cx connection op d d' : ncclProxyOpToArgs cx connection op d (nsubs d) = Ret d' -> pa_append d = cx_append cx -> pa_subs d' = pa_subs d ++ [sub_of connection op].
Proof.
  intros E Ha. unfold ncclProxyOpToArgs in E. destruct (NCCL_PROXY_MAX_SUBS <=? nsubs d); [done|]. assert (take (Z.to_nat (nsubs d)) (pa_subs d) = pa_subs d) as Et by (unfold nsubs; rewrite Nat2Z.id; apply take_ge; lia). rewrite Et in E.
  destruct (negb (nsubs d =? 0)); [|by injection E as <-]. destruct (_ || _); [done|]. destruct (negb (bool_decide _)); [done|]. by injection E as <-.
Qed.

Lemma ok_inv q qs : queues_ok (q :: qs) -> q <> [] /\ Forall (fun d => pa_append d = append_of q) q /\ append_of q ∉ append_of <$> qs /\ queues_ok qs.
Proof.
  intros [H1 H2]. apply Forall_cons in H1 as [[Hne Hq] H1]. rewrite fmap_cons in H2. apply NoDup_cons in H2 as [Hn H2]. split; [done|]. split; [|by split]. eapply Forall_impl; [exact Hq|]. by intros d [].
Qed.

Lemma subs_outside a qs : queues_ok qs -> a ∉ append_of <$> qs -> subs_of a (concat qs) = [].
Proof.
  induction qs as [|q qs IH]; intros Hok Ha; [done|]. apply ok_inv in Hok as (_ & Hq & _ & Hok). rewrite fmap_cons in Ha. apply not_elem_of_cons in Ha as [Hn Ha]. cbn [concat]. rewrite subs_app, IH, app_nil_r by done. apply subs_none. eapply Forall_impl; [exact Hq|]. by intros d ->.
Qed.

Lemma spec_append_subs cx connection op qs : forall qs', queues_ok qs -> spec_append cx connection op qs = Ret qs' ->
  forall a, subs_of a (concat qs') = subs_of a (concat qs) ++ (if bool_decide (cx_append cx = a) then [sub_of connection op] else []).
Proof.
  induction qs as [|q qs IH]; intros qs' Hok E a; cbn [spec_append] in E.
  - injection E as <-. cbn [concat app]. by rewrite subs_single.
  - apply ok_inv in Hok as (Hne & Hq & Hn & Hok). destruct (Z.eqb_spec (append_of q) (cx_append cx)) as [Ea|Ea].
    + rewrite Ea in *. destruct (join_queue cx connection op q) as [q'| |] eqn:Ej; [|done..]. injection E as <-. cbn [concat]. rewrite !subs_app, <- app_assoc. assert (subs_of a q' = subs_of a q ++ (if bool_decide (cx_append cx = a) then [sub_of connection op] else [])) as ->.
      { destruct (exists_last Hne) as (ds & d & ->). rewrite join_snoc in Ej. apply Forall_app in Hq as [Hq [Hd _]%Forall_cons]. destruct (_ && _).
        - destruct (ncclProxyOpToArgs cx connection op d (nsubs d)) as [d'| |] eqn:Eo; [|done..]. injection Ej as <-. rewrite !subs_app, !subs_single, <- app_assoc. destruct (toArgs_keeps _ _ _ _ _ _ Eo Hd) as [-> _]. rewrite Hd. case_bool_decide; [by rewrite (toArgs_subs _ _ _ _ _ Eo Hd)|done].
        - injection Ej as <-. rewrite subs_app. by rewrite subs_single. }
      rewrite <- app_assoc. f_equal. case_bool_decide as Hc; [|by rewrite app_nil_r]. subst a. by rewrite subs_outside by done.
    + destruct (spec_append cx connection op qs) as [qs1| |] eqn:Es; [|done..]. injection E as <-. cbn [concat]. rewrite !subs_app, <- app_assoc. f_equal. by apply IH.
Qed.

(** The operations that leave in a pass are the first ones of their connections. *)
Lemma spec_pass_subs {W} (fn : progress_fn W) qs : forall w idle w' idle' qs' gone, queues_ok qs -> spec_pass fn w idle qs = (w', idle', qs', gone) ->
  forall a, subs_of a gone ++ subs_of a (concat qs') = subs_of a (concat qs).
Proof.
  induction qs as [|q qs IH]; intros w idle w' idle' qs' gone Hok E a; [by injection E as _ _ <- <-|]. apply ok_inv in Hok as (Hne & Hq & Hn & Hok). destruct q as [|d ds]; [done|]. cbn [spec_pass] in E. destruct (fn w d) as [w1 [[st i] r]]. destruct (spec_pass fn w1 (idle && i) qs) as [[[w2 i2] qs2] gone2] eqn:Ep.
  specialize (IH _ _ _ _ _ _ Hok Ep a). cbn [append_of concat] in *. apply Forall_cons in Hq as [_ Hq]. destruct (decide (pa_append d = a)) as [Ha|Ha].
  - assert (subs_of a (concat qs) = []) as E0 by (apply subs_outside; [done|by rewrite <- Ha]). rewrite E0 in IH. apply app_eq_nil in IH as [G1 G2]. rewrite subs_app, E0, app_nil_r.
    assert (forall l l', subs_of a (l :: l') = subs_of a [l] ++ subs_of a l') as Hc by (intros; apply (subs_app a [_])). destruct (op_finished st r); injection E as <- <- <- <-.
    + rewrite concat_app, concat_alive, Hc, subs_app, G1, G2, !app_nil_r. by rewrite <- subs_app.
    + cbn [concat]. rewrite G1, subs_app, G2, app_nil_r. rewrite (Hc d), (Hc (set_progress d st)), !subs_single. done.
  - assert (subs_of a (d :: ds) = []) as E0 by (apply subs_none; constructor; [done|]; eapply Forall_impl; [exact Hq|]; by intros e ->). assert (subs_of a ds = []) as E1 by (apply subs_none; eapply Forall_impl; [exact Hq|]; by intros e ->).
    assert (forall l', subs_of a (d :: l') = subs_of a l') as Hc by (intros l'; change (d :: l') with ([d] ++ l'); by rewrite subs_app, subs_single, bool_decide_false). rewrite subs_app, E0. destruct (op_finished st r); injection E as <- <- <- <-.
    + rewrite concat_app, concat_alive, Hc, subs_app, E1. exact IH.
    + cbn [concat]. rewrite subs_app. assert (subs_of a (set_progress d st :: ds) = []) as ->; [|exact IH]. apply subs_none. constructor; [done|]. eapply Forall_impl; [exact Hq|]. by intros e ->.
Qed.

(** ** Histories *)

(** What happens to the structure: an operation is appended, or a pass is made. *)
Inductive event := EvAppend (connection : Z) (op : ncclProxyOp) | EvPass.

Fixpoint run {W} (conns : Z -> proxy_conn) (fn : progress_fn W) (evs : list event) (s : ncclProxyProgressState) (w : W) : outcome (ncclProxyProgressState * W) :=
  match evs with
  | [] => Ret (s, w)
  | EvAppend connection op :: evs => s ← ProxyAppend conns connection op s; run conns fn evs s w
  | EvPass :: evs => '(s, w, _) ← progressOps fn s w true; run conns fn evs s w
  end.

(** The queues after a history and the operations that left, in order. *)
Fixpoint spec_run {W} (conns : Z -> proxy_conn) (fn : progress_fn W) (evs : list event) (qs : queues) (w : W) (gone : list ncclProxyArgs) : outcome (queues * W * list ncclProxyArgs) :=
  match evs with
  | [] => Ret (qs, w, gone)
  | EvAppend connection op :: evs => qs ← spec_append (conns connection) connection op qs; spec_run conns fn evs qs w gone
  | EvPass :: evs => let '(w, _, qs, g) := spec_pass fn w true qs in spec_run conns fn evs qs w (gone ++ g)
  end.

(** What a history appended through [a]. *)
Definition appended_subs (conns : Z -> proxy_conn) (a : Z) (evs : list event) : list ncclProxySubArgs :=
  flat_map (fun e => match e with EvAppend c op => if bool_decide (cx_append (conns c) = a) then [sub_of c op] else [] | EvPass => [] end) evs.

(** The state when the thread starts: nothing active, and the blocks to come. *)
Definition idle_progress (blocks : list (list ptr)) : ncclProxyProgressState := MkProgress ∅ ∅ ∅ nullptr nullptr blocks.

Lemma idle_represents blocks : Forall (fun b => b <> [] /\ nullptr ∉ b) blocks -> NoDup (concat blocks) -> represents (idle_progress blocks) [].
Proof. intros Hb Hn. split; [split; [constructor|constructor]|]. exists [], []. split; try done. intros x Hx. by apply not_elem_of_nil in Hx. Qed.

Lemma run_refines {W} (conns : Z -> proxy_conn) (fn : progress_fn W) evs : forall s w qs gone, represents s qs ->
  wpx (run conns fn evs s w) (fun '(s', w') => exists qs' gone', spec_run conns fn evs qs w gone = Ret (qs', w', gone') /\ represents s' qs' /\
      forall a, subs_of a gone' ++ subs_of a (concat qs') = subs_of a gone ++ subs_of a (concat qs) ++ appended_subs conns a evs)
    (fun e => e = ncclSystemError \/ spec_run conns fn evs qs w gone = Fail e).
Proof.
  induction evs as [|e evs IH]; intros s w qs gone H; cbn [run spec_run].
  - exists qs, gone. split; [done|]. split; [done|]. intros a. cbn. by rewrite app_nil_r.
  - destruct e as [c op|].
    + wp_bind. eapply wpx_mono; [by apply ProxyAppend_refines| |].
      * intros s1 (qs1 & E1 & H1). rewrite E1. cbn [mbind outcome_bind]. eapply wpx_mono; [by apply (IH s1 w qs1 gone)| |done]. intros [s2 w2] (qs2 & g2 & E2 & H2 & Hs). exists qs2, g2. split; [done|]. split; [done|]. intros a. rewrite Hs, (spec_append_subs _ _ _ _ _ (proj1 H) E1), <- app_assoc. done.
      * intros e [[-> _]|E]; [by left|right]. by rewrite E.
    + wp_bind. eapply wpx_mono; [by apply (progressOps_refines fn s w true qs)| |done]. intros [[s1 w1] i1] (qs1 & g1 & E1 & H1). rewrite E1. eapply wpx_mono; [by apply (IH s1 w1 qs1 (gone ++ g1))| |done]. intros [s2 w2] (qs2 & g2 & E2 & H2 & Hs). exists qs2, g2. split; [done|]. split; [done|].
      intros a. rewrite Hs, subs_app, <- app_assoc. f_equal. rewrite app_assoc, (spec_pass_subs fn qs _ _ _ _ _ _ (proj1 H) E1). done.
Qed.

(** (C15) Over every history of appended operations and passes, started with nothing
    active, the structure of the progress thread behaves as a list of queues, one for
    each pointer the connections append through: the linked lists in memory are those
    of the queues the history gives, and for every such pointer the sub-operations of
    the operations that left, in the order in which they left, followed by those still
    queued, are exactly the operations appended through it, in that order: none is
    lost, repeated or overtaken, whatever the progress functions of the transports
    answer.  A history fails only without memory for another block, or where an
    operation cannot join the last one of its queue. *)
Theorem progress_fifo {W} (conns : Z -> proxy_conn) (fn : progress_fn W) evs blocks w : Forall (fun b => b <> [] /\ nullptr ∉ b) blocks -> NoDup (concat blocks) ->
  wpx (run conns fn evs (idle_progress blocks) w) (fun '(s', w') => exists qs' gone, spec_run conns fn evs [] w [] = Ret (qs', w', gone) /\ represents s' qs' /\
      forall a, subs_of a gone ++ subs_of a (concat qs') = appended_subs conns a evs)
    (fun e => e = ncclSystemError \/ spec_run conns fn evs [] w [] = Fail e).
Proof. intros Hb Hn. exact (run_refines conns fn evs _ w [] [] (idle_represents _ Hb Hn)). Qed.

(** Connections 1 and 2 share a pointer and group their operations, 3 has its own.
    An operation is done at its second call. *)
Definition sample_conns (c : Z) : proxy_conn := if c =? 3 then MkProxyConn false 30 else MkProxyConn true 20.
Definition sample_fn : progress_fn unit := fun w d => (w, (if bool_decide (pa_state d = ncclProxyOpReady) then ncclProxyOpProgress else ncclProxyOpNone, false, ncclSuccess)).
Definition sample_op (count channel : Z) : ncclProxyOp := MkProxyOp count channel zero_args.
Abbreviation sample_events := [EvAppend 1 (sample_op 4 0); EvAppend 2 (sample_op 4 1); EvAppend 3 (sample_op 4 0); EvAppend 1 (sample_op 6 0); EvPass; EvPass; EvAppend 3 (sample_op 6 0); EvPass].

Lemma progress_fifo_witness : exists s' qs' gone, run sample_conns sample_fn sample_events (idle_progress [[8; 16; 24; 32]]) tt = Ret (s', tt) /\ represents s' qs' /\ (length <$> qs' = [1%nat; 1%nat]) /\ length gone = 2%nat /\
  subs_of 20 gone ++ subs_of 20 (concat qs') = [sub_of 1 (sample_op 4 0); sub_of 2 (sample_op 4 1); sub_of 1 (sample_op 6 0)].
Proof.
  pose proof (progress_fifo sample_conns sample_fn sample_events [[8; 16; 24; 32]] tt) as H. destruct (run sample_conns sample_fn sample_events (idle_progress [[8; 16; 24; 32]]) tt) as [[s' []]|e|] eqn:E.
  - destruct H as (qs' & gone & Hs & Hr & Hsub); [apply (bool_decide_unpack _); vm_compute; exact I..|]. exists s', qs', gone. split; [done|]. split; [done|]. specialize (Hsub 20). rewrite Hsub. vm_compute in Hs. injection Hs as <- <-. split; [done|]. split; [done|]. vm_compute. reflexivity.
  - exfalso. vm_compute in E. discriminate E.
  - exfalso. vm_compute in E. discriminate E.
Defined.
