(* ===== verification/Posted.v ===== *)
(** * Taking posted operations (src/src/proxy.cc)

    The progress thread takes the operations the other threads of the node posted to
    the pool ([ncclProxyGetPostedOps]): a batch of them, cut only between groups of
    operations of the same peer and the same count, is added to its own structure
    ([ProxyAppend]), and their slots go back to the free lists of the peers, which the
    peers may empty at the same time. *)
From S2P Require Import Prelude Bitops Device RingAlgo ProxyOp Queue Proxy Progress.

#[local] Open Scope Z_scope.

(** ** Data *)

(** [ncclProxyOpsPool]; a link of -1 ends a chain. *)
Record ncclProxyOpsPool := MkOpsPool { op_ops : list slot; op_nextOps : Z; op_nextOpsEnd : Z; op_freeOps : list Z }.

(** The thread's own part of [ncclProxyProgressState]: the structure of operations
    and the operations taken from the pool that are not appended yet. *)
Record thread := MkThread { th_progress : ncclProxyProgressState; th_nextOps : Z }.

(** The local variables of [ncclProxyGetPostedOps]; an entry of [freeOpEnd] is not
    initialised until the peer's first slot is given back. *)
Record batch := MkBatch { bt_thread : thread; bt_ops : list slot; bt_freeOp : list Z; bt_freeOpEnd : list (option Z); bt_added : Z }.

Definition peer_of (opIndex : Z) : Z := opIndex `quot` MAX_OPS_PER_PEER.

(** ** Operations *)

(** One slot goes on the list to be given back to its peer. *)
Definition return_slot (opIndex : Z) (b : batch) : outcome batch :=
  let peer := peer_of opIndex in
  f ← zget (bt_freeOp b) peer;
  '(ops, ends) ← (if f =? -1 then ends ← zset (bt_freeOpEnd b) peer (Some opIndex); Ret (bt_ops b, ends)
                  else ops ← set_next (bt_ops b) opIndex f; Ret (ops, bt_freeOpEnd b));
  free ← zset (bt_freeOp b) peer opIndex;
  Ret (MkBatch (bt_thread b) ops free ends (bt_added b)).

(** The first loop, until the batch is full or the chain ends. *)
Fixpoint take_posted (conns : Z -> proxy_conn) (size : Z) (fuel : nat) (opIndex lastOpCount lastPeer count : Z) (b : batch) : outcome batch :=
  if opIndex =? -1 then Ret b
  else
    match fuel with
    | O => Stuck
    | S fuel =>
      peerOp ← zget (bt_ops b) opIndex;
      let peer := peer_of opIndex in
      let n := opCount (sl_op peerOp) in
      let count := if (negb (lastOpCount =? 0) && negb (n =? lastOpCount)) || (negb (lastPeer =? -1) && negb (peer =? lastPeer)) then count + 1 else count in
      if count =? size + 1 then Ret b
      else if sl_connection peerOp =? nullptr then Fail ncclInternalError
      else
        s ← ProxyAppend conns (sl_connection peerOp) (sl_op peerOp) (th_progress (bt_thread b));
        let next := sl_next peerOp in
        b ← return_slot opIndex (MkBatch (MkThread s (th_nextOps (bt_thread b))) (bt_ops b) (bt_freeOp b) (bt_freeOpEnd b) (bt_added b + 1));
        take_posted conns size fuel next n peer count (MkBatch (MkThread (th_progress (bt_thread b)) next) (bt_ops b) (bt_freeOp b) (bt_freeOpEnd b) (bt_added b))
    end.

(** The second loop: peer [i] gets its slots back.  [seen i old] is the value the
    compare-and-swap finds in the free list that was [old] when it was read. *)
Definition give_back (seen : Z -> Z -> Z) (b : batch) (i : Z) (p : list slot * list Z) : outcome (list slot * list Z) :=
  let '(ops, freeOps) := p in
  newFree ← zget (bt_freeOp b) i;
  if newFree =? -1 then Ret (ops, freeOps)
  else
    oldFree ← zget freeOps i;
    e ← zget (bt_freeOpEnd b) i;
    match e with
    | None => Stuck
    | Some e =>
      ops ← set_next ops e oldFree;
      if oldFree =? -1 then freeOps ← zset freeOps i newFree; Ret (ops, freeOps)
      else
        let swap := seen i oldFree in
        if negb (swap =? oldFree) then
          if negb (swap =? -1) then Fail ncclInternalError
          else ops ← set_next ops e (-1); freeOps ← zset freeOps i newFree; Ret (ops, freeOps)
        else freeOps ← zset freeOps i newFree; Ret (ops, freeOps)
    end.

(** From [process_nextops] on. *)
Definition process_nextops (conns : Z -> proxy_conn) (size tpLocalnRanks : Z) (seen : Z -> Z -> Z) (th : thread) (pool : ncclProxyOpsPool) : outcome (thread * ncclProxyOpsPool * Z) :=
  let n := Z.to_nat tpLocalnRanks in
  b ← take_posted conns size (length (op_ops pool)) (th_nextOps th) 0 (-1) 0 (MkBatch th (op_ops pool) (replicate n (-1)) (replicate n None) 0);
  '(ops, freeOps) ← for_range 0 tpLocalnRanks (give_back seen b) (bt_ops b, op_freeOps pool);
  Ret (bt_thread b, MkOpsPool ops (op_nextOps pool) (op_nextOpsEnd pool) freeOps, bt_added b).

(** The pool once the thread holds the mutex: a thread with nothing active waits to be
    woken if nothing is posted; [waited] is what the others do to the pool meanwhile. *)
Definition locked_pool (waited : ncclProxyOpsPool -> ncclProxyOpsPool) (stop : bool) (th : thread) (pool : ncclProxyOpsPool) : ncclProxyOpsPool :=
  if (pg_active (th_progress th) =? nullptr) && (op_nextOps pool =? -1) && negb stop then waited pool else pool.

(** [ncclProxyGetPostedOps] of a pool that exists: the thread, the pool and [added].
    [locked] is whether [pthread_mutex_trylock] succeeds. *)
Definition ncclProxyGetPostedOps (conns : Z -> proxy_conn) (size tpLocalnRanks : Z) (seen : Z -> Z -> Z) (waited : ncclProxyOpsPool -> ncclProxyOpsPool) (locked stop : bool)
    (th : thread) (pool : ncclProxyOpsPool) : outcome (thread * ncclProxyOpsPool * Z) :=
  if negb (th_nextOps th =? -1) then process_nextops conns size tpLocalnRanks seen th pool
  else if negb (pg_active (th_progress th) =? nullptr) && ((op_nextOps pool =? -1) || negb locked) then Ret (th, pool, 0)
  else
    let pool := locked_pool waited stop th pool in
    process_nextops conns size tpLocalnRanks seen (MkThread (th_progress th) (op_nextOps pool)) (MkOpsPool (op_ops pool) (-1) (-1) (op_freeOps pool)).

(** ** Specification *)

Definition count_at (ops : list slot) (j : Z) : Z := match ops !! Z.to_nat j with Some s => opCount (sl_op s) | None => 0 end.

(** Whether [b], after [a], starts another group. *)
Definition new_group (ops : list slot) (a b : Z) : bool := (negb (count_at ops a =? 0) && negb (count_at ops b =? count_at ops a)) || negb (peer_of b =? peer_of a).

(** How often a group follows another. *)
Fixpoint groups (ops : list slot) (l : list Z) : Z :=
  match l with
  | [] => 0
  | a :: t => match t with [] => 0 | b :: _ => Z.b2z (new_group ops a b) + groups ops t end
  end.

(** The operations are appended in order. *)
Fixpoint spec_appends (conns : Z -> proxy_conn) (l : list (Z * ncclProxyOp)) (qs : list (list ncclProxyArgs)) : outcome (list (list ncclProxyArgs)) :=
  match l with
  | [] => Ret qs
  | (c, op) :: l => if c =? nullptr then Fail ncclInternalError else qs ← spec_append (conns c) c op qs; spec_appends conns l qs
  end.

(** The slots of peer [i] in [l], the last one first. *)
Definition back_to (i : Z) (l : list Z) : list Z := rev (filter (fun j => peer_of j = i) l).

(** What peer [i]'s free list keeps when slots are given back: all of it, unless the
    peer took it meanwhile. *)
Definition kept (seen : Z -> Z -> Z) (i : Z) (back free : list Z) : list Z :=
  if bool_decide (back = []) || bool_decide (free = []) || (seen i (List.hd (-1) free) =? List.hd (-1) free) then free else [].

(** The chains of a pool: [P] from [next], the posted ones [Q], the free ones [G i]. *)
Record pool_chains (ops : list slot) (freeOps : list Z) (P : list Z) (G : Z -> list Z) : Prop := {
  pc_free : forall i, 0 <= i < Z.of_nat (length freeOps) -> exists f, zget freeOps i = Ret f /\ seg ops f (G i) (-1);
  pc_nodup : NoDup P;
  pc_apart : forall i j, j ∈ P -> j ∉ G i;
  pc_peer : Forall (fun j => 0 <= peer_of j < Z.of_nat (length freeOps)) P;
}.

(** ** The first loop *)

Lemma seg_frame ops ops' i l n : (forall j, j ∈ l -> ops' !! Z.to_nat j = ops !! Z.to_nat j) -> seg ops i l n -> seg ops' i l n.
Proof.
  revert i. induction l as [|j l IH]; intros i He; [done|]. intros (-> & Hj & s & Hs & H). split; [done|]. split; [done|]. exists s. rewrite He by by left. split; [done|]. apply IH; [|done]. intros k Hk. apply He. by right.
Qed.

Lemma seg_length ops i l n : seg ops i l n -> NoDup l -> (length l <= length ops)%nat.
Proof.
  intros Hs Hnd. pose proof (seg_nonneg _ _ _ _ Hs) as Hnn. assert (length (Z.to_nat <$> l) <= length (seq 0 (length ops)))%nat as H; [|by rewrite length_fmap, length_seq in H].
  apply NoDup_incl_length.
  - apply NoDup_ListNoDup. apply (NoDup_fmap_2_strong _ _); [|done]. intros x y Hx Hy E. rewrite Forall_forall in Hnn. apply Hnn in Hx, Hy. lia.
  - intros x Hx. apply list_elem_of_In, list_elem_of_fmap in Hx as (j & -> & Hj). destruct (seg_range _ _ _ _ _ Hs Hj) as [s E]. apply lookup_lt_Some in E. apply in_seq. lia.
Qed.

(** Peer [i]'s slots [l] wait to be given back. *)
Definition freed (b : batch) (i : Z) (l : list Z) : Prop :=
  match l with
  | [] => zget (bt_freeOp b) i = Ret (-1)
  | _ => exists h m, zget (bt_freeOp b) i = Ret h /\ seg (bt_ops b) h l m /\ zget (bt_freeOpEnd b) i = Ret (Some (List.last l (-1)))
  end.

Record batch_inv (ops : list slot) (n : Z) (l : list Z) (b : batch) : Prop := {
  bi_other : forall j, 0 <= j -> j ∉ l -> bt_ops b !! Z.to_nat j = ops !! Z.to_nat j;
  bi_freed : forall i, 0 <= i < n -> freed b i (back_to i l);
  bi_length : Z.of_nat (length (bt_freeOp b)) = n /\ Z.of_nat (length (bt_freeOpEnd b)) = n;
}.

Lemma back_snoc i l j : back_to i (l ++ [j]) = if bool_decide (peer_of j = i) then j :: back_to i l else back_to i l.
Proof. unfold back_to. rewrite filter_app, rev_app_distr, filter_cons. case_bool_decide; [by rewrite decide_True|by rewrite decide_False]. Qed.

Lemma back_in i l j : j ∈ back_to i l -> j ∈ l.
Proof. unfold back_to. rewrite list_elem_of_In, <- in_rev, <- list_elem_of_In, list_elem_of_filter. tauto. Qed.

Lemma zget_other {A} (l : list A) i k x : 0 <= i -> 0 <= k -> i <> k -> zget (<[Z.to_nat k := x]> l) i = zget l i.
Proof. intros Hi Hk Hn. unfold zget. by rewrite list_lookup_insert_ne by lia. Qed.

Lemma zget_here {A} (l : list A) i x : 0 <= i < Z.of_nat (length l) -> zget (<[Z.to_nat i := x]> l) i = Ret x.
Proof. intros Hi. apply zget_Ret. split; [lia|]. apply list_lookup_insert_eq. lia. Qed.

(** Another peer's slots do not notice. *)
Lemma freed_other b b' i l : freed b i l -> zget (bt_freeOp b') i = zget (bt_freeOp b) i -> zget (bt_freeOpEnd b') i = zget (bt_freeOpEnd b) i -> (forall j, j ∈ l -> bt_ops b' !! Z.to_nat j = bt_ops b !! Z.to_nat j) -> freed b' i l.
Proof. intros H Ef Ee Ho. destruct l as [|x l]; cbn [freed] in *; [by rewrite Ef|]. destruct H as (h & m & H1 & H2 & H3). exists h, m. rewrite Ef, Ee. split; [done|]. split; [|done]. by eapply seg_frame. Qed.

Lemma return_slot_spec ops n l b j s : batch_inv ops n l b -> 0 <= j -> j ∉ l -> 0 <= peer_of j < n -> bt_ops b !! Z.to_nat j = Some s ->
  exists b', return_slot j b = Ret b' /\ batch_inv ops n (l ++ [j]) b' /\ bt_thread b' = bt_thread b /\ bt_added b' = bt_added b.
Proof.
  intros [H1 H2 [L1 L2]] Hj Hn Hp Hs. set (i := peer_of j) in *. pose proof (H2 i Hp) as Hi. unfold return_slot. fold i.
  assert (forall b', (forall k, 0 <= k -> k <> j -> bt_ops b' !! Z.to_nat k = bt_ops b !! Z.to_nat k) -> (forall k, 0 <= k -> k <> i -> zget (bt_freeOp b') k = zget (bt_freeOp b) k /\ zget (bt_freeOpEnd b') k = zget (bt_freeOpEnd b) k) ->
    freed b' i (j :: back_to i l) -> length (bt_freeOp b') = length (bt_freeOp b) -> length (bt_freeOpEnd b') = length (bt_freeOpEnd b) -> batch_inv ops n (l ++ [j]) b') as Hbuild.
  { intros b' Ho Hf Hb E1 E2. split; [| |by rewrite E1, E2].
    - intros k Hk Hkn. rewrite Ho by set_solver. apply H1; set_solver.
    - intros k Hk. rewrite back_snoc. fold i. case_bool_decide as Hc; [by subst k|]. destruct (Hf k) as [F1 F2]; [lia|done|]. eapply freed_other; [by apply H2|done|done|]. intros x Hx. apply Ho; [|by intros ->; apply Hn; eapply back_in].
      specialize (H2 k Hk). destruct (back_to k l) as [|y t]; [by apply not_elem_of_nil in Hx|]. destruct H2 as (h & m & _ & Hseg & _). apply seg_nonneg in Hseg. rewrite Forall_forall in Hseg. by apply Hseg. }
  destruct (back_to i l) as [|x t] eqn:Eb; cbn [freed] in Hi.
  - rewrite Hi. cbn [mbind outcome_bind]. change (-1 =? -1) with true. rewrite !zset_Ret by lia. cbn [mbind outcome_bind]. eexists. split; [done|]. split; [|done]. apply Hbuild; cbn [bt_ops bt_freeOp bt_freeOpEnd]; [done| | |by rewrite length_insert..].
    + intros k Hk Hne. by rewrite !zget_other by lia.
    + cbn [freed bt_ops bt_freeOp bt_freeOpEnd]. exists j, (sl_next s). rewrite !zget_here by lia. split; [done|]. split; [|done]. split; [done|]. split; [done|]. by exists s.
  - destruct Hi as (h & m & G1 & G2 & G3). assert (h <> -1) as Hh by (pose proof (seg_head _ _ _ _ G2) as Eh; cbn in Eh; destruct G2 as (_ & G2 & _); lia). rewrite G1. cbn [mbind outcome_bind]. rewrite (proj2 (Z.eqb_neq _ _)) by done. rewrite (set_next_Ret _ _ s) by done. cbn [mbind outcome_bind].
    rewrite zset_Ret by lia. cbn [mbind outcome_bind]. eexists. split; [done|]. split; [|done]. apply Hbuild; cbn [bt_ops bt_freeOp bt_freeOpEnd]; [| | |by rewrite length_insert|done].
    + intros k Hk Hne. by rewrite list_lookup_insert_ne by lia.
    + intros k Hk Hne. by rewrite zget_other by lia.
    + cbn [freed bt_ops bt_freeOp bt_freeOpEnd]. exists j, m. rewrite zget_here by lia. split; [done|]. split; [|done]. split; [done|]. split; [done|]. eexists. split; [apply list_lookup_insert_eq; by eapply lookup_lt_Some|]. cbn [sl_next]. apply seg_other; [done| |done]. rewrite <- Eb. by intros Hx%back_in.
Qed.

Lemma groups_snoc ops l a b : groups ops (l ++ [a; b]) = groups ops (l ++ [a]) + Z.b2z (new_group ops a b).
Proof.
  induction l as [|x l IH]; [cbn; lia|]. destruct l as [|y l]; cbn [app] in *; [cbn; lia|]. change (groups ops (x :: y :: l ++ [a; b])) with (Z.b2z (new_group ops x y) + groups ops (y :: l ++ [a; b])).
  change (groups ops (x :: y :: l ++ [a])) with (Z.b2z (new_group ops x y) + groups ops (y :: l ++ [a])). rewrite IH. lia.
Qed.

(** The loop knows the last operation it took. *)
Definition last_seen (ops : list slot) (l : list Z) (lastOpCount lastPeer : Z) : Prop :=
  match last l with None => lastOpCount = 0 /\ lastPeer = -1 | Some a => lastOpCount = count_at ops a /\ lastPeer = peer_of a end.

(** Where a batch may end. *)
Definition batch_end (ops : list slot) (size : Z) (taken rest : list Z) : Prop :=
  rest = [] \/ groups ops taken = size /\ exists a b t, last taken = Some a /\ rest = b :: t /\ new_group ops a b = true.

(** The counter after the next operation. *)
Lemma count_next ops l j lastOpCount lastPeer : last_seen ops l lastOpCount lastPeer -> Forall (fun k => 0 <= peer_of k) l ->
  (if (negb (lastOpCount =? 0) && negb (count_at ops j =? lastOpCount)) || (negb (lastPeer =? -1) && negb (peer_of j =? lastPeer)) then groups ops l + 1 else groups ops l) = groups ops (l ++ [j]) /\
  (groups ops (l ++ [j]) = groups ops l + 1 -> exists a, last l = Some a /\ new_group ops a j = true) /\ (groups ops (l ++ [j]) <= groups ops l + 1) .
Proof.
  intros Hs Hl. unfold last_seen in Hs. destruct (last l) as [a|] eqn:El.
  - apply last_Some in El as (t & ->). destruct Hs as [-> ->]. rewrite <- app_assoc. cbn [app]. rewrite groups_snoc. apply Forall_app in Hl as [_ [Ha _]%Forall_cons]. rewrite (proj2 (Z.eqb_neq (peer_of a) (-1))) by lia. cbn [negb andb]. fold (new_group ops a j).
    destruct (new_group ops a j) eqn:En; cbn [Z.b2z]; split_and!; try lia. intros _. by exists a.
  - apply last_None in El as ->. destruct Hs as [-> ->]. cbn. split_and!; lia.
Qed.

Lemma take_posted_spec conns size ops n rest : 0 <= size -> forall fuel taken opIndex lastOpCount lastPeer b qs, seg ops opIndex rest (-1) -> NoDup (taken ++ rest) -> Forall (fun j => 0 <= peer_of j < n) (taken ++ rest) -> batch_inv ops n taken b ->
  represents (th_progress (bt_thread b)) qs -> th_nextOps (bt_thread b) = opIndex -> bt_added b = Z.of_nat (length taken) -> last_seen ops taken lastOpCount lastPeer -> groups ops taken <= size -> (length rest <= fuel)%nat ->
  wpx (take_posted conns size fuel opIndex lastOpCount lastPeer (groups ops taken) b)
    (fun b' => exists l1 l2 qs', rest = l1 ++ l2 /\ batch_inv ops n (taken ++ l1) b' /\ spec_appends conns (ops_at ops l1) qs = Ret qs' /\ represents (th_progress (bt_thread b')) qs' /\ seg ops (th_nextOps (bt_thread b')) l2 (-1) /\
      bt_added b' = Z.of_nat (length (taken ++ l1)) /\ batch_end ops size (taken ++ l1) l2)
    (fun e => e = ncclSystemError \/ spec_appends conns (ops_at ops rest) qs = Fail e).
Proof.
  intros Hsize. induction rest as [|j rest IH]; intros fuel taken opIndex lastOpCount lastPeer b qs Hseg Hnd Hpeer Hinv Hrep Hth Hadd Hlast Hgr Hf.
  - cbn [seg] in Hseg. rewrite Hseg in Hth |- *. assert (take_posted conns size fuel (-1) lastOpCount lastPeer (groups ops taken) b = Ret b) as -> by (by destruct fuel). cbn [wpx]. exists [], [], qs. rewrite !app_nil_r, Hth. split_and!; try done. by left.
  - destruct Hseg as (-> & Hj & s & Hs & Hseg). destruct fuel as [|fuel]; [cbn [length] in Hf; lia|]. cbn [length] in Hf. cbn [take_posted]. rewrite (proj2 (Z.eqb_neq j (-1))) by lia.
    assert (j ∉ taken) as Hjt by (apply NoDup_app in Hnd as (_ & Hd & _); intros Hx; apply (Hd j Hx); by left). assert (bt_ops b !! Z.to_nat j = Some s) as Hsb by by rewrite (bi_other _ _ _ _ Hinv).
    rewrite (proj2 (zget_Ret (bt_ops b) j s)) by done. cbn [mbind outcome_bind]. assert (opCount (sl_op s) = count_at ops j) as Ec by (unfold count_at; by rewrite Hs). rewrite Ec.
    apply Forall_app in Hpeer as Hp'. destruct Hp' as [Hpt [Hpj Hpr]%Forall_cons]. destruct (count_next ops taken j lastOpCount lastPeer Hlast) as (Hcn & Hcb & Hcl); [eapply Forall_impl; [exact Hpt|]; cbn; lia|]. rewrite Hcn.
    assert (ops_at ops (j :: rest) = (sl_connection s, sl_op s) :: ops_at ops rest) as Eops by (unfold ops_at; cbn [omap list_omap]; by rewrite Hs).
    destruct (Z.eqb_spec (groups ops (taken ++ [j])) (size + 1)) as [Hfull|Hroom].
    + cbn [wpx]. exists [], (j :: rest), qs. rewrite app_nil_r. split_and!; try done; [rewrite Hth; split; [done|]; split; [done|]; by exists s|]. right. destruct Hcb as (a & Ha & Hn); [lia|]. split; [lia|]. by exists a, j, rest.
    + rewrite Eops. cbn [spec_appends]. destruct (Z.eqb_spec (sl_connection s) nullptr) as [Hc|Hc]; [by right|]. wp_bind. eapply wpx_mono; [by apply ProxyAppend_refines| |intros e [[-> _]|E]; [by left|right; by rewrite E]]. intros s1 (qs1 & E1 & Hrep1). rewrite E1. cbn [mbind outcome_bind].
      set (b1 := MkBatch _ _ _ _ _). assert (batch_inv ops n taken b1) as Hinv1 by (destruct Hinv; by split). destruct (return_slot_spec ops n taken b1 j s Hinv1 Hj Hjt Hpj Hsb) as (b2 & -> & Hinv2 & Et & Ea). cbn [mbind outcome_bind].
      set (b3 := MkBatch (MkThread _ _) _ _ _ _). eapply wpx_mono; [apply (IH fuel (taken ++ [j]) (sl_next s) (count_at ops j) (peer_of j) b3 qs1)| |].
      * done.
      * by rewrite <- app_assoc.
      * by rewrite <- app_assoc.
      * destruct Hinv2; by split.
      * cbn [b3 th_progress bt_thread]. by rewrite Et.
      * done.
      * cbn [b3 bt_added]. rewrite Ea. cbn [b1 bt_added]. rewrite Hadd, length_app. cbn [length]. lia.
      * unfold last_seen. by rewrite last_snoc.
      * lia.
      * lia.
      * intros b' (l1 & l2 & qs' & -> & K1 & K2 & K3 & K4 & K5 & K6). exists (j :: l1), l2, qs'. rewrite <- app_assoc in K1, K5, K6. split_and!; try done. assert (ops_at ops (j :: l1) = (sl_connection s, sl_op s) :: ops_at ops l1) as -> by (unfold ops_at; cbn [omap list_omap]; by rewrite Hs).
        cbn [spec_appends]. rewrite (proj2 (Z.eqb_neq _ _)) by done. by rewrite E1.
      * done.
Qed.

(** ** The second loop *)

Definition give_inv (seen : Z -> Z -> Z) (ops0 : list slot) (free0 : list Z) (b : batch) (l : list Z) (G : Z -> list Z) (k : Z) (p : list slot * list Z) : Prop :=
  let '(ops, freeOps) := p in length freeOps = length free0 /\
  (forall j, 0 <= j -> j ∉ l -> ops !! Z.to_nat j = ops0 !! Z.to_nat j) /\
  (forall i, 0 <= i < k -> exists f, zget freeOps i = Ret f /\ seg ops f (back_to i l ++ kept seen i (back_to i l) (G i)) (-1)) /\
  (forall i, k <= i < Z.of_nat (length free0) -> zget freeOps i = zget free0 i /\ forall j, j ∈ back_to i l -> ops !! Z.to_nat j = bt_ops b !! Z.to_nat j).

Lemma back_apart i k l j : j ∈ back_to i l -> j ∈ back_to k l -> i = k.
Proof. unfold back_to. rewrite !list_elem_of_In, <- !in_rev, <- !list_elem_of_In, !list_elem_of_filter. intros [<- _] [<- _]. done. Qed.

Lemma kept_in seen i back free j : j ∈ kept seen i back free -> j ∈ free.
Proof. unfold kept. destruct (_ || _); [done|]. by intros ?%not_elem_of_nil. Qed.

Lemma back_nodup i l : NoDup l -> NoDup (back_to i l).
Proof. intros H. unfold back_to. apply NoDup_ListNoDup, NoDup_rev, NoDup_ListNoDup. by apply NoDup_filter. Qed.

(** Peer [k]'s list is finished; only the link of its slot [e] changed. *)
Lemma give_inv_next seen ops0 free0 b l G k ops freeOps ops' e h : pool_chains ops0 free0 l G -> 0 <= k < Z.of_nat (length free0) -> give_inv seen ops0 free0 b l G k (ops, freeOps) -> 0 <= e -> e ∈ back_to k l ->
  (forall j, 0 <= j -> j <> e -> ops' !! Z.to_nat j = ops !! Z.to_nat j) -> seg ops' h (back_to k l ++ kept seen k (back_to k l) (G k)) (-1) -> Forall (fun j => 0 <= j) l ->
  give_inv seen ops0 free0 b l G (k + 1) (ops', <[Z.to_nat k := h]> freeOps).
Proof.
  intros Hpc Hk (I1 & I2 & I3 & I4) He0 He Ho Hs Hnn. assert (e ∈ l) as Hel by by eapply back_in. split; [by rewrite length_insert|]. split; [intros j Hj Hjl; rewrite Ho by (done || by intros ->); by apply I2|]. split.
  - intros i Hi. destruct (decide (i = k)) as [->|Hne]; [exists h; by rewrite zget_here by (rewrite I1; lia)|]. rewrite zget_other by lia. destruct (I3 i) as (f & Hf & Hseg); [lia|]. exists f. split; [done|]. eapply seg_frame; [|exact Hseg]. intros j Hj. apply Ho; [apply seg_nonneg in Hseg; rewrite Forall_forall in Hseg; by apply Hseg|].
    intros ->. apply elem_of_app in Hj as [Hj|Hj%kept_in]; [by apply Hne; eapply back_apart|]. by apply (pc_apart _ _ _ _ Hpc i e).
  - intros i Hi. rewrite zget_other by lia. destruct (I4 i) as [E Hb]; [lia|]. split; [done|]. intros j Hj. rewrite <- Hb by done. apply Ho; [rewrite Forall_forall in Hnn; apply Hnn; by eapply back_in|]. intros ->. assert (i = k) by (by eapply back_apart). lia.
Qed.

Lemma give_back_spec seen ops0 free0 b l G k p : batch_inv ops0 (Z.of_nat (length free0)) l b -> pool_chains ops0 free0 l G -> Forall (fun j => 0 <= j) l -> (forall i old, seen i old = old \/ seen i old = -1) -> 0 <= k < Z.of_nat (length free0) ->
  give_inv seen ops0 free0 b l G k p -> wp (give_back seen b k p) (give_inv seen ops0 free0 b l G (k + 1)).
Proof.
  intros Hb Hpc Hnn Hseen Hk Hinv. destruct p as [ops freeOps]. pose proof Hinv as (I1 & I2 & I3 & I4). destruct (I4 k) as [Ef Eb]; [lia|]. destruct (pc_free _ _ _ _ Hpc k Hk) as (f & Hf & Hfs). pose proof (bi_freed _ _ _ _ Hb k Hk) as Hfr. unfold give_back.
  assert (forall ops', (forall j, 0 <= j -> j ∉ l -> ops' !! Z.to_nat j = ops0 !! Z.to_nat j) -> seg ops' f (G k) (-1)) as Hg. { intros ops' Ho. eapply seg_frame; [|exact Hfs]. intros j Hj. apply Ho; [apply seg_nonneg in Hfs; rewrite Forall_forall in Hfs; by apply Hfs|]. intros Hl. by apply (pc_apart _ _ _ _ Hpc k j). }
  destruct (back_to k l) as [|x t] eqn:Ebk.
  - cbn [freed] in Hfr. rewrite Hfr. cbn [mbind outcome_bind wpx]. change (-1 =? -1) with true. split; [done|]. split; [done|]. split; [|intros i Hi; apply I4; lia]. intros i Hi. destruct (decide (i = k)) as [->|Hne]; [|apply I3; lia]. exists f. rewrite Ef, Ebk. split; [done|]. by apply Hg.
  - cbn [freed] in Hfr. destruct Hfr as (h & m & F1 & F2 & F3). rewrite <- Ebk in *. destruct (exists_last (l := back_to k l)) as (t' & e & Et); [by rewrite Ebk|]. rewrite Et in F3. rewrite List.last_last in F3. assert (h <> -1) as Hh by (rewrite Ebk in F2; destruct F2 as (-> & F2 & _); lia).
    rewrite F1. cbn [mbind outcome_bind]. rewrite (proj2 (Z.eqb_neq _ _)) by done. rewrite Ef, Hf. cbn [mbind outcome_bind]. rewrite F3. cbn [mbind outcome_bind].
    assert (e ∈ back_to k l) as He by (rewrite Et; set_solver). assert (seg ops h (back_to k l) m) as F2' by (eapply seg_frame; [|exact F2]; intros; by apply Eb). destruct (seg_range _ _ _ _ _ F2' He) as [s Hs]. assert (0 <= e) as He0 by (apply seg_nonneg in F2'; rewrite Forall_forall in F2'; by apply F2').
    pose proof (back_nodup k l (pc_nodup _ _ _ _ Hpc)) as Hnd. rewrite (set_next_Ret _ _ s) by done. cbn [mbind outcome_bind]. set (ops1 := <[Z.to_nat e := _]> ops).
    assert (forall j, 0 <= j -> j <> e -> ops1 !! Z.to_nat j = ops !! Z.to_nat j) as Ho1 by (intros j Hj Hne; apply list_lookup_insert_ne; lia). assert (seg ops1 h (back_to k l) f) as S1 by (rewrite Et in F2', Hnd |- *; by eapply seg_relink). assert (e ∈ l) as Hel by by eapply back_in.
    assert (seg ops1 f (G k) (-1)) as S2 by (apply Hg; intros j Hj Hjl; rewrite Ho1 by (done || by intros ->); by apply I2). rewrite zset_Ret by lia.
    assert (seg ops1 h (back_to k l ++ G k) (-1)) as S3 by (apply seg_app; by exists f). pose proof (seg_head _ _ _ _ Hfs) as Hhd.
    destruct (Z.eqb_spec f (-1)) as [Hf1|Hf1].
    + cbn [mbind outcome_bind wpx]. eapply give_inv_next; try done. unfold kept. destruct (G k) as [|y g] eqn:Eg; [by rewrite orb_true_r|]. destruct Hfs as (_ & Hy & _). lia.
    + destruct (G k) as [|y g] eqn:Eg; [done|]. subst f. destruct (Z.eqb_spec (seen k y) y) as [Es|Es]; cbn [negb].
      * cbn [mbind outcome_bind wpx]. eapply give_inv_next; try done. unfold kept. rewrite Eg. cbn [List.hd]. rewrite (proj2 (Z.eqb_eq _ _) Es), orb_true_r. done.
      * destruct (Hseen k y) as [Hy|Hy]; [done|]. rewrite Hy. change (-1 =? -1) with true. cbn [negb]. assert (ops1 !! Z.to_nat e = Some (MkSlot (sl_op s) (sl_connection s) y)) as Hs1 by (apply list_lookup_insert_eq; by eapply lookup_lt_Some). rewrite (set_next_Ret _ _ _ _ He0 Hs1). cbn [mbind outcome_bind wpx].
        eapply give_inv_next; try done; [intros j Hj Hne; rewrite list_lookup_insert_ne by lia; by apply Ho1|]. unfold kept. rewrite Eg, bool_decide_false by (by rewrite Ebk). rewrite bool_decide_false by done. cbn [List.hd]. rewrite (proj2 (Z.eqb_neq _ _) Es). cbn [orb]. rewrite app_nil_r. rewrite Et in S1, Hnd |- *. by eapply seg_relink.
Qed.

(** ** The whole function *)

Lemma chains_app ops free P1 P2 G : pool_chains ops free (P1 ++ P2) G -> pool_chains ops free P1 G.
Proof. intros [H1 H2 H3 H4]. split; [done|by apply NoDup_app in H2 as []|intros i j Hj; apply H3; set_solver|by apply Forall_app in H4 as []]. Qed.

Lemma spec_appends_app conns l1 l2 qs e : spec_appends conns l1 qs = Fail e -> spec_appends conns (l1 ++ l2) qs = Fail e.
Proof.
  revert qs. induction l1 as [|[c op] l1 IH]; intros qs E; [done|]. cbn [app spec_appends] in *. destruct (c =? nullptr); [done|]. destruct (spec_append (conns c) c op qs); cbn [mbind outcome_bind] in *; [by apply IH|done|done].
Qed.

(** The slots of [l] are free again in [pool']; no other slot changed. *)
Record given_back (seen : Z -> Z -> Z) (pool pool' : ncclProxyOpsPool) (G : Z -> list Z) (l : list Z) : Prop := {
  gb_other : forall j, 0 <= j -> j ∉ l -> op_ops pool' !! Z.to_nat j = op_ops pool !! Z.to_nat j;
  gb_free : forall i, 0 <= i < Z.of_nat (length (op_freeOps pool)) -> exists f, zget (op_freeOps pool') i = Ret f /\ seg (op_ops pool') f (back_to i l ++ kept seen i (back_to i l) (G i)) (-1);
  gb_length : length (op_freeOps pool') = length (op_freeOps pool);
}.

Section posted.
  Context (conns : Z -> proxy_conn) (size : Z) (seen : Z -> Z -> Z).
  Context (size_ok : 0 <= size) (seen_ok : forall i old, seen i old = old \/ seen i old = -1).

Lemma process_nextops_spec th pool qs P G : represents (th_progress th) qs -> seg (op_ops pool) (th_nextOps th) P (-1) -> pool_chains (op_ops pool) (op_freeOps pool) P G ->
  wpx (process_nextops conns size (Z.of_nat (length (op_freeOps pool))) seen th pool)
    (fun '(th', pool', added) => exists P1 P2 qs', P = P1 ++ P2 /\ added = Z.of_nat (length P1) /\ spec_appends conns (ops_at (op_ops pool) P1) qs = Ret qs' /\ represents (th_progress th') qs' /\
      seg (op_ops pool') (th_nextOps th') P2 (-1) /\ given_back seen pool pool' G P1 /\ batch_end (op_ops pool) size P1 P2 /\ op_nextOps pool' = op_nextOps pool)
    (fun e => e = ncclSystemError \/ spec_appends conns (ops_at (op_ops pool) P) qs = Fail e).
Proof.
  intros Hrep Hseg Hpc. unfold process_nextops. rewrite Nat2Z.id. set (n := length (op_freeOps pool)). wp_bind. change 0 with (groups (op_ops pool) []) at 3.
  eapply wpx_mono; [apply (take_posted_spec conns size (op_ops pool) (Z.of_nat n) P size_ok _ [] (th_nextOps th) 0 (-1) _ qs); try done| |done].
  - apply Hpc.
  - apply Hpc.
  - split; [done| |cbn [bt_freeOp bt_freeOpEnd]; by rewrite !length_replicate]. intros i Hi. change (zget (replicate n (-1)) i = Ret (-1)). apply zget_Ret. split; [lia|]. apply lookup_replicate. lia.
  - eapply seg_length; [done|apply Hpc].
  - intros b (P1 & P2 & qs' & -> & Hb & Ha & Hr & Hs & Hadd & Hend). cbn [app] in Hb, Hadd, Hend. pose proof (chains_app _ _ _ _ _ Hpc) as Hpc1. pose proof (seg_nonneg _ _ _ _ Hseg) as Hnn. apply Forall_app in Hnn as [Hnn1 Hnn2].
    wp_bind. eapply (wpx_for (give_inv seen (op_ops pool) (op_freeOps pool) b P1 G)); [lia| |intros k t Hk Ht; eapply wpx_mono; [by apply give_back_spec|done|done]|].
    + split; [done|]. split; [apply Hb|]. split; [lia|]. intros i Hi. done.
    + intros [ops freeOps] (I1 & I2 & I3 & _). cbn [wpx]. exists P1, P2, qs'. split; [done|]. split; [done|]. split; [done|]. split; [done|]. split; [|split; [by split|done]].
      eapply seg_frame; [|exact Hs]. intros j Hj. apply I2; [rewrite Forall_forall in Hnn2; by apply Hnn2|]. pose proof (pc_nodup _ _ _ _ Hpc) as Hnd. apply NoDup_app in Hnd as (_ & Hd & _). intros Hx. by apply (Hd j).
Qed.

End posted.

Lemma get_posted_spec conns size seen waited locked stop th pool qs P Q G : 0 <= size -> (forall i old, seen i old = old \/ seen i old = -1) ->
  let pool1 := if th_nextOps th =? -1 then locked_pool waited stop th pool else pool in
  represents (th_progress th) qs -> seg (op_ops pool1) (th_nextOps th) P (-1) -> seg (op_ops pool1) (op_nextOps pool1) Q (-1) -> pool_chains (op_ops pool1) (op_freeOps pool1) (P ++ Q) G ->
  wpx (ncclProxyGetPostedOps conns size (Z.of_nat (length (op_freeOps pool1))) seen waited locked stop th pool)
    (fun '(th', pool', added) => exists P1 P' Q' qs', P ++ Q = P1 ++ P' ++ Q' /\ added = Z.of_nat (length P1) /\ spec_appends conns (ops_at (op_ops pool1) P1) qs = Ret qs' /\ represents (th_progress th') qs' /\
      seg (op_ops pool') (th_nextOps th') P' (-1) /\ seg (op_ops pool') (op_nextOps pool') Q' (-1) /\ given_back seen pool1 pool' G P1 /\ batch_end (op_ops pool1) size P1 P' /\
      (added = 0 -> P = [] /\ (Q = [] \/ pg_active (th_progress th) <> nullptr /\ locked = false)))
    (fun e => e = ncclSystemError \/ spec_appends conns (ops_at (op_ops pool1) (P ++ Q)) qs = Fail e).
Proof.
  intros Hsize Hseen pool1 Hrep HP HQ Hpc. unfold ncclProxyGetPostedOps. destruct (Z.eqb_spec (th_nextOps th) (-1)) as [E|E]; cbn [negb] in *; fold pool1.
  - assert (P = []) as -> by (destruct P as [|j P]; [done|]; destruct HP as (<- & Hj & _); lia). cbn [app] in *. assert (pg_active (th_progress th) <> nullptr -> pool1 = pool) as Hsame by (intros H0; unfold pool1, locked_pool; by rewrite (proj2 (Z.eqb_neq _ _))).
    destruct (negb _ && _) eqn:Eret.
    + apply andb_prop in Eret as [E1%negb_true_iff%Z.eqb_neq E2]. rewrite (Hsame E1) in *. cbn [wpx]. exists [], [], Q, qs. split_and!; try done; [split; [done| |done]; intros i Hi; by apply (pc_free _ _ _ _ Hpc)|by left|].
      intros _. split; [done|]. apply orb_prop in E2 as [E2%Z.eqb_eq|E2%negb_true_iff]; [left|by right]. rewrite E2 in HQ. destruct Q as [|j Q]; [done|]. destruct HQ as (<- & Hj & _). lia.
    + eapply wpx_mono; [apply (process_nextops_spec conns size seen Hsize Hseen (MkThread (th_progress th) (op_nextOps pool1)) (MkOpsPool (op_ops pool1) (-1) (-1) (op_freeOps pool1)) qs Q G Hrep HQ Hpc)| |done].
      intros [[th' pool'] added] (P1 & P2 & qs' & -> & K1 & K2 & K3 & K4 & [K5 K5' K5l] & K6 & K7). exists P1, P2, [], qs'. rewrite app_nil_r. split_and!; try done. intros Ha. split; [done|left]. destruct P1 as [|x P1]; [|cbn [length] in K1; lia]. by destruct K6 as [->|(_ & a & b & t & K6 & _)].
  - eapply wpx_mono; [apply (process_nextops_spec conns size seen Hsize Hseen th pool1 qs P G Hrep HP); by eapply chains_app| |].
    + intros [[th' pool'] added] (P1 & P2 & qs' & -> & K1 & K2 & K3 & K4 & K5 & K6 & K7). exists P1, P2, Q, qs'. rewrite <- app_assoc in Hpc |- *. split_and!; try done.
      * rewrite K7. eapply seg_frame; [|exact HQ]. intros j Hj. apply K5; [apply seg_nonneg in HQ; rewrite Forall_forall in HQ; by apply HQ|]. intros Hx. pose proof (pc_nodup _ _ _ _ Hpc) as Hnd. apply NoDup_app in Hnd as (_ & Hd & _). apply (Hd j Hx). set_solver.
      * intros Ha. destruct P1 as [|x P1]; [|cbn [length] in K1; lia]. destruct K6 as [->|(_ & a & b & t & K6 & _)]; [|done]. by cbn [app seg] in HP.
    + intros e [->|He]; [by left|right]. rewrite ops_app. by apply spec_appends_app.
Qed.

(** (C16) [ncclProxyGetPostedOps] moves a batch of the posted operations, in order,
    from the pool into the structure of the progress thread: of the operations the
    thread holds ([P]) and of those posted ([Q]) it appends the first ones exactly as
    [spec_append] would, keeps the others in order in the two chains, and cuts the
    batch only where the next operation starts another group of one peer and one
    operation count, after [size] changes of group.  The slots of the batch, and no
    others, are linked into the free list of their peer, also if the peer empties that
    list at the same time, and nothing is taken only if nothing is there or the mutex
    is held while operations are active. *)
Theorem ncclProxyGetPostedOps_refines conns size seen waited locked stop th pool qs P Q G : 0 <= size -> (forall i old, seen i old = old \/ seen i old = -1) ->
  let pool1 := if th_nextOps th =? -1 then locked_pool waited stop th pool else pool in
  represents (th_progress th) qs -> seg (op_ops pool1) (th_nextOps th) P (-1) -> seg (op_ops pool1) (op_nextOps pool1) Q (-1) -> pool_chains (op_ops pool1) (op_freeOps pool1) (P ++ Q) G ->
  wpx (ncclProxyGetPostedOps conns size (Z.of_nat (length (op_freeOps pool1))) seen waited locked stop th pool)
    (fun '(th', pool', added) => exists P1 P' Q' qs', P ++ Q = P1 ++ P' ++ Q' /\ added = Z.of_nat (length P1) /\ spec_appends conns (ops_at (op_ops pool1) P1) qs = Ret qs' /\ represents (th_progress th') qs' /\
      seg (op_ops pool') (th_nextOps th') P' (-1) /\ seg (op_ops pool') (op_nextOps pool') Q' (-1) /\ given_back seen pool1 pool' G P1 /\ batch_end (op_ops pool1) size P1 P' /\
      (added = 0 -> P = [] /\ (Q = [] \/ pg_active (th_progress th) <> nullptr /\ locked = false)))
    (fun e => e = ncclSystemError \/ spec_appends conns (ops_at (op_ops pool1) (P ++ Q)) qs = Fail e).
Proof. apply get_posted_spec. Qed.

(** Two peers; the thread holds nothing and nothing is active.  Slots 0 and 2 of the
    first peer and one slot of the second are posted, slot 1 is free, and the first
    peer takes it while the slots are given back.  One change of group is allowed. *)
Definition posted_slot (count next : Z) : slot := MkSlot (MkProxyOp count 0 zero_args) 9 next.
Definition posted_pool : ncclProxyOpsPool := MkOpsPool ([posted_slot 4 2; posted_slot 0 (-1); posted_slot 6 2048] ++ replicate 2045 (posted_slot 0 (-1)) ++ [posted_slot 6 (-1)]) 0 2048 [1; -1].
Abbreviation idle_thread := (MkThread (idle_progress [[8; 16; 24]]) (-1)).
Abbreviation own_conns := (fun c => MkProxyConn false c).

Lemma ncclProxyGetPostedOps_refines_witness : exists th' pool', ncclProxyGetPostedOps own_conns 1 2 (fun _ _ => -1) id true false idle_thread posted_pool = Ret (th', pool', 2) /\
  exists P1 P' Q' qs', [0; 2; 2048] = P1 ++ P' ++ Q' /\ 2 = Z.of_nat (length P1) /\ represents (th_progress th') qs' /\ seg (op_ops pool') (th_nextOps th') P' (-1) /\ given_back (fun _ _ => -1) posted_pool pool' (fun i => if i =? 0 then [1] else []) P1.
Proof.
  pose proof (ncclProxyGetPostedOps_refines own_conns 1 (fun _ _ => -1) id true false idle_thread posted_pool [] [] [0; 2; 2048] (fun i => if i =? 0 then [1] else [])) as H.
  cbv zeta in H. change (Z.of_nat (length (op_freeOps (if th_nextOps idle_thread =? -1 then locked_pool id false idle_thread posted_pool else posted_pool)))) with 2 in H. change (if th_nextOps idle_thread =? -1 then locked_pool id false idle_thread posted_pool else posted_pool) with posted_pool in H.
  destruct (ncclProxyGetPostedOps own_conns 1 2 (fun _ _ => -1) id true false idle_thread posted_pool) as [[[th' pool'] added]|e|] eqn:E.
  - exists th', pool'. assert (added = 2) as ->. { vm_compute in E. by injection E as _ _ <-. } split; [done|].
    destruct H as (P1 & P' & Q' & qs' & H1 & H2 & _ & H3 & H4 & _ & H5 & _).
    + lia.
    + intros i old. by right.
    + apply idle_represents; apply (bool_decide_unpack _); vm_compute; exact I.
    + done.
    + split; [done|]. split; [lia|]. eexists. split; [done|]. split; [done|]. split; [lia|]. eexists. split; [done|]. split; [done|]. split; [lia|]. eexists. split; [vm_compute; done|done].
    + split; [|apply (bool_decide_unpack _); vm_compute; exact I| |apply (bool_decide_unpack _); vm_compute; exact I].
      * intros i Hi. assert (i = 0 \/ i = 1) as [-> | ->] by (cbn in Hi; lia); eexists; (split; [vm_compute; done|]); [|done]. split; [done|]. split; [lia|]. eexists. by split.
      * intros i j Hj. destruct (i =? 0); [|apply not_elem_of_nil]. intros ->%list_elem_of_singleton. by apply (bool_decide_unpack (1 ∉ [0; 2; 2048])) in Hj.
    + exists P1, P', Q', qs'. exact (conj H1 (conj H2 (conj H3 (conj H4 H5)))).
  - exfalso. vm_compute in E. discriminate E.
  - exfalso. vm_compute in E. discriminate E.
Defined.

(** ** The loop of the thread *)

(** [ncclProxyProgress] between two iterations. *)
Record loop_state (W : Type) := MkLoop { lp_thread : thread; lp_pool : ncclProxyOpsPool; lp_transports : W; lp_counter : Z }.
Arguments MkLoop {W}. Arguments lp_thread {W}. Arguments lp_pool {W}. Arguments lp_transports {W}. Arguments lp_counter {W}.

Section loop.
  Context {W : Type} (conns : Z -> proxy_conn) (size freq tpLocalnRanks : Z) (fn : progress_fn W).

(** One iteration: a pass, then the posted operations if the pass was idle, nothing is
    active or [freq] passes were made. *)
Definition iteration (seen : Z -> Z -> Z) (waited : ncclProxyOpsPool -> ncclProxyOpsPool) (locked stop : bool) (l : loop_state W) : outcome (loop_state W) :=
  '(s, w, idle) ← progressOps fn (th_progress (lp_thread l)) (lp_transports l) true;
  let th := MkThread s (th_nextOps (lp_thread l)) in
  if idle || (pg_active s =? nullptr) || (lp_counter l + 1 =? freq) then
    '(th, pool, _) ← ncclProxyGetPostedOps conns size tpLocalnRanks seen waited locked stop th (lp_pool l);
    Ret (MkLoop th pool w 0)
  else Ret (MkLoop th (lp_pool l) w (lp_counter l + 1)).

(** The condition of the loop. *)
Definition continues (stop : Z) (abortFlag : bool) (l : loop_state W) : bool :=
  ((stop =? 0) || ((stop =? 1) && negb (pg_active (th_progress (lp_thread l)) =? nullptr))) && negb abortFlag.

(** The chains of a pool with [next] held by the thread. *)
Definition pool_ok (next : Z) (pool : ncclProxyOpsPool) : Prop :=
  Z.of_nat (length (op_freeOps pool)) = tpLocalnRanks /\ exists P Q G, seg (op_ops pool) next P (-1) /\ seg (op_ops pool) (op_nextOps pool) Q (-1) /\ pool_chains (op_ops pool) (op_freeOps pool) (P ++ Q) G.

Definition loop_ok (l : loop_state W) : Prop := (exists qs, represents (th_progress (lp_thread l)) qs) /\ pool_ok (th_nextOps (lp_thread l)) (lp_pool l).

Lemma taken_ok seen pool pool' P1 P' Q' G next : pool_chains (op_ops pool) (op_freeOps pool) (P1 ++ P' ++ Q') G -> given_back seen pool pool' G P1 ->
  Z.of_nat (length (op_freeOps pool)) = tpLocalnRanks -> seg (op_ops pool') next P' (-1) -> seg (op_ops pool') (op_nextOps pool') Q' (-1) -> pool_ok next pool'.
Proof.
  intros [H1 H2 H3 H4] [B1 B2 Hl] Hn HP HQ. split; [by rewrite Hl|]. exists P', Q', (fun i => back_to i P1 ++ kept seen i (back_to i P1) (G i)). split; [done|]. split; [done|]. apply NoDup_app in H2 as (N1 & N2 & N3). apply Forall_app in H4 as [_ H4]. split.
  - intros i Hi. apply B2. by rewrite <- Hl.
  - done.
  - intros i j Hj [Hx%back_in|Hx%kept_in]%elem_of_app; [by apply (N2 j)|]. apply (H3 i j); [set_solver|done].
  - by rewrite Hl.
Qed.

(** Every iteration keeps the structure of operations and the chains of the pool, if
    the others do so while the thread waits, and the free lists change under the
    thread only by being taken as a whole. *)
Theorem iteration_keeps seen waited locked stop l : 0 <= size -> (forall i old, seen i old = old \/ seen i old = -1) -> (forall pool, pool_ok (-1) pool -> pool_ok (-1) (waited pool)) ->
  loop_ok l -> wpx (iteration seen waited locked stop l) loop_ok (fun _ => True).
Proof.
  intros Hsize Hseen Hwait [[qs Hrep] Hpool]. unfold iteration. wp_bind. eapply wpx_mono; [by apply (progressOps_refines fn _ (lp_transports l) true qs)| |done]. intros [[s w] idle] (qs1 & gone & _ & Hrep1). destruct (_ || _); [|split; [by exists qs1|done]].
  set (th := MkThread s (th_nextOps (lp_thread l))). assert (pool_ok (th_nextOps th) (if th_nextOps th =? -1 then locked_pool waited stop th (lp_pool l) else lp_pool l)) as Hp1.
  { cbn [th th_nextOps]. destruct (Z.eqb_spec (th_nextOps (lp_thread l)) (-1)) as [E|]; [|done]. rewrite E in *. unfold locked_pool. destruct (_ && _); [by apply Hwait|done]. }
  destruct Hp1 as (Hn & P & Q & G & HP & HQ & Hpc). wp_bind. rewrite <- Hn. eapply wpx_mono; [by apply (get_posted_spec conns size seen waited locked stop th (lp_pool l) qs1 P Q G)| |done].
  intros [[th' pool'] added] (P1 & P' & Q' & qs' & E & _ & _ & K1 & K2 & K3 & K4 & _). cbn [wpx]. split; [by exists qs'|]. rewrite E in Hpc. by eapply taken_ok.
Qed.

End loop.
