(* ===== verification/Paths.v ===== *)
(** * Paths through the topology (src/src/graph/paths.cc)

    The hardware of a node is a graph: GPUs, PCI switches, NVSwitches, CPUs, NICs and
    network ports, with links of a type and a bandwidth.  [ncclTopoSetPaths] searches it
    breadth first from one node and gives every other node its path to that node; the
    choices of transports, rings and trees are made from these paths.

    Bandwidths are only compared here, never computed with, and none is negative: a
    bandwidth is represented by the bits of the [float], which have the same order. *)
From S2P Require Import Prelude.
From stdpp Require Import gmap.

#[local] Open Scope Z_scope.

(** ** Data *)

(** Types of nodes. *)
Definition GPU : Z := 0.
Definition PCI : Z := 1.
Definition NVS : Z := 2.
Definition CPU : Z := 3.
Definition NIC : Z := 4.
Definition NET : Z := 5.

(** Types of links and of paths. *)
Definition LINK_LOC : Z := 0.
Definition LINK_NVL : Z := 1.
Definition LINK_PCI : Z := 4.
Definition LINK_NET : Z := 9.
Definition PATH_LOC : Z := 0.
Definition PATH_NVL : Z := 1.
Definition PATH_NVB : Z := 2.
Definition PATH_PIX : Z := 4.
Definition PATH_PXB : Z := 5.
Definition PATH_PXN : Z := 6.
Definition PATH_PHB : Z := 7.
Definition PATH_DIS : Z := 10.

(** 5000.0 as a [float]. *)
Definition LOC_BW : Z := 0x459c4000.
Definition NCCL_TOPO_MAX_NODES : Z := 256.
Definition NCCL_TOPO_NODE_TYPES : Z := 6.
Definition NCCL_TOPO_MAX_HOPS : Z := NCCL_TOPO_MAX_NODES * NCCL_TOPO_NODE_TYPES.

(** A node is known by its type and its place among the nodes of its type, a link by
    its node and its place among the links of the node. *)
Abbreviation nodeptr := (Z * Z)%type (only parsing).
Abbreviation linkptr := ((Z * Z) * Z)%type (only parsing).

Record ncclTopoLink := MkLink { lk_type : Z; lk_bw : Z; lk_remNode : nodeptr }.
Record ncclTopoNode := MkNode { nd_id : Z; nd_links : list ncclTopoLink }.
Record ncclTopoSystem := MkSystem { sy_nodes : list (list ncclTopoNode) }.

(** [pl_list] are the entries that were written so far; the first [pl_count] of them
    are the path. *)
Record ncclTopoLinkList := MkLinkList { pl_list : list linkptr; pl_count : Z; pl_bw : Z; pl_type : Z }.

(** [node->paths[t]], for every node and type; a missing entry is a null pointer. *)
Abbreviation paths := (gmap ((Z * Z) * Z) (list ncclTopoLinkList)).

(** ** Operations *)

Definition get_node (sys : ncclTopoSystem) (p : nodeptr) : outcome ncclTopoNode := ns ← zget (sy_nodes sys) p.1; zget ns p.2.

Fixpoint find_id (l : list ncclTopoNode) (id i : Z) : option Z :=
  match l with [] => None | n :: l => if nd_id n =? id then Some i else find_id l id (i + 1) end.

(** [getPath]: the place of the path to the node with this id. *)
Definition getPath (sys : ncclTopoSystem) (t id : Z) : outcome Z :=
  ns ← zget (sy_nodes sys) t;
  match find_id ns id 0 with Some i => Ret i | None => Fail ncclInternalError end.

Definition path_at (ps : paths) (v : nodeptr) (t i : Z) : outcome ncclTopoLinkList := match ps !! (v, t) with None => Stuck | Some l => zget l i end.
Definition set_path (ps : paths) (v : nodeptr) (t i : Z) (p : ncclTopoLinkList) : outcome paths :=
  match ps !! (v, t) with None => Stuck | Some l => l ← zset l i p; Ret (<[(v, t) := l]> ps) end.

(** Zeroed paths of type [PATH_DIS], unless there are some already. *)
Definition alloc_paths (sys : ncclTopoSystem) (v : nodeptr) (t : Z) (ps : paths) : outcome paths :=
  match ps !! (v, t) with
  | Some _ => Ret ps
  | None => ns ← zget (sy_nodes sys) t; Ret (<[(v, t) := replicate (length ns) (MkLinkList [] 0 0 PATH_DIS)]> ps)
  end.

(** The first link to [node] of the given type. *)
Fixpoint reverse_link (links : list ncclTopoLink) (node : nodeptr) (type i : Z) : option Z :=
  match links with
  | [] => None
  | lk :: links => if bool_decide (lk_remNode lk = node) && (lk_type lk =? type) then Some i else reverse_link links node type (i + 1)
  end.

(** The type of the path that extends one of [node], of type [pathType] and [count]
    hops, over [link]. *)
Definition extended_type (node : nodeptr) (link : ncclTopoLink) (pathType count : Z) : Z :=
  let rem := lk_remNode link in
  let type := if lk_type link =? LINK_NET then LINK_LOC else lk_type link in
  let type := if (node.1 =? PCI) && (rem.1 =? PCI) then PATH_PXB else type in
  let type := if (lk_type link =? LINK_PCI) && ((node.1 =? CPU) || (rem.1 =? CPU)) then PATH_PHB else type in
  let type := if (node.1 =? GPU) && (pathType =? PATH_NVL) && (type =? PATH_NVL) && (1 <? count + 1) then PATH_NVB else type in
  Z.max pathType type.

Section search.
  Context (sys : ncclTopoSystem) (nvbDisable : bool) (baseNode : nodeptr) (id : Z).

(** A path is not routed through a GPU, unless over NVLink to a neighbour GPU. *)
Definition no_route (node : nodeptr) (link : ncclTopoLink) (count : Z) : bool :=
  negb (bool_decide (node = baseNode)) && (node.1 =? GPU) && (nvbDisable || negb (lk_type link =? LINK_NVL) || negb ((lk_remNode link).1 =? GPU) || (1 <? count)).

(** [path] of [node] extended over [link], in place of [remPath]. *)
Definition extend (node : nodeptr) (link : ncclTopoLink) (path remPath : ncclTopoLinkList) : outcome ncclTopoLinkList :=
  rn ← get_node sys (lk_remNode link);
  first ← match reverse_link (nd_links rn) node (lk_type link) 0, pl_list remPath with
          | Some l, _ => Ret (lk_remNode link, l)
          | None, f :: _ => Ret f
          | None, [] => Fail ncclInternalError
          end;
  if NCCL_TOPO_MAX_HOPS <=? pl_count path then Stuck
  else
    let n := Z.to_nat (pl_count path) in
    Ret (MkLinkList (first :: take n (pl_list path) ++ drop (S n) (pl_list remPath)) (pl_count path + 1) (Z.min (pl_bw path) (lk_bw link)) (extended_type node link (pl_type path) (pl_count path))).

(** One link of a node of the current list. *)
Definition relax (node : nodeptr) (link : ncclTopoLink) (st : paths * list nodeptr) : outcome (paths * list nodeptr) :=
  let '(ps, next) := st in
  let rem := lk_remNode link in
  ps ← alloc_paths sys rem baseNode.1 ps;
  i ← getPath sys baseNode.1 id;
  path ← path_at ps node baseNode.1 i;
  remPath ← path_at ps rem baseNode.1 i;
  if no_route node link (pl_count path) then Ret (ps, next)
  else if ((pl_bw remPath =? 0) || (pl_count path <? pl_count remPath)) && (pl_bw remPath <? Z.min (pl_bw path) (lk_bw link)) then
    p ← extend node link path remPath;
    ps ← set_path ps rem baseNode.1 i p;
    if bool_decide (rem ∈ next) then Ret (ps, next)
    else if NCCL_TOPO_MAX_NODES <=? Z.of_nat (length next) then Stuck else Ret (ps, next ++ [rem])
  else Ret (ps, next).

Fixpoint each_link (node : nodeptr) (links : list ncclTopoLink) (st : paths * list nodeptr) : outcome (paths * list nodeptr) :=
  match links with [] => Ret st | lk :: links => st ← relax node lk st; each_link node links st end.

Fixpoint each_node (nodes : list nodeptr) (st : paths * list nodeptr) : outcome (paths * list nodeptr) :=
  match nodes with
  | [] => Ret st
  | node :: nodes => n ← get_node sys node; _ ← getPath sys baseNode.1 id; st ← each_link node (nd_links n) st; each_node nodes st
  end.

Fixpoint bfs_levels (fuel : nat) (nodes : list nodeptr) (ps : paths) : outcome paths :=
  match nodes with
  | [] => Ret ps
  | _ => match fuel with O => Stuck | S fuel => '(ps, next) ← each_node nodes (ps, []); bfs_levels fuel next ps end
  end.

End search.

Definition count_nodes (sys : ncclTopoSystem) : nat := length (concat (sy_nodes sys)).

Definition ncclTopoSetPaths (nvbDisable : bool) (baseNode : nodeptr) (sys : ncclTopoSystem) (ps : paths) : outcome paths :=
  base ← get_node sys baseNode;
  ps ← alloc_paths sys baseNode baseNode.1 ps;
  i ← getPath sys baseNode.1 (nd_id base);
  basePath ← path_at ps baseNode baseNode.1 i;
  ps ← set_path ps baseNode baseNode.1 i (MkLinkList (pl_list basePath) 0 LOC_BW PATH_LOC);
  bfs_levels sys nvbDisable baseNode (nd_id base) (S (count_nodes sys)) [baseNode] ps.

(** [ncclTopoRemovePaths] and the calls that set the direct paths of [ncclTopoComputePaths]. *)
Fixpoint set_all (nvbDisable : bool) (bases : list nodeptr) (sys : ncclTopoSystem) (ps : paths) : outcome paths :=
  match bases with [] => Ret ps | b :: bases => ps ← ncclTopoSetPaths nvbDisable b sys ps; set_all nvbDisable bases sys ps end.

Definition nodes_of (sys : ncclTopoSystem) (t : Z) : list nodeptr := (fun i => (t, i)) <$> seqZ 0 (Z.of_nat (length (default [] (sy_nodes sys !! Z.to_nat t)))).

Definition set_direct_paths (nvbDisable : bool) (sys : ncclTopoSystem) : outcome paths :=
  set_all nvbDisable (nodes_of sys CPU ++ nodes_of sys GPU ++ nodes_of sys NET ++ nodes_of sys NVS) sys ∅.

(** [addInterStep]: the path from node 1 to node 2 goes through a third node. *)
Definition addInterStep (x n1 n2 : nodeptr) (ps : paths) : outcome paths :=
  p1 ← path_at ps n1 x.1 x.2;
  p2 ← path_at ps x n2.1 n2.2;
  old ← path_at ps n1 n2.1 n2.2;
  let l := take (Z.to_nat (pl_count p1)) (pl_list p1) ++ take (Z.to_nat (pl_count p2)) (pl_list p2) in
  let count := pl_count p1 + pl_count p2 in
  if NCCL_TOPO_MAX_HOPS <? count then Stuck
  else set_path ps n1 n2.1 n2.2 (MkLinkList (l ++ drop (length l) (pl_list old)) count (Z.min (pl_bw p1) (pl_bw p2)) (if x.1 =? GPU then PATH_PXN else Z.max (pl_type p1) (pl_type p2))).

(** [ncclGetLocalCpu]: the CPU with the fewest hops. *)
Fixpoint closest (l : list ncclTopoLinkList) (c minHops localCpu : Z) : Z :=
  match l with
  | [] => localCpu
  | p :: l => let hops := pl_count p in if (0 <? hops) && ((minHops =? 0) || (hops <? minHops)) then closest l (c + 1) hops c else closest l (c + 1) minHops localCpu
  end.

Definition ncclGetLocalCpu (gpu : Z) (ps : paths) : outcome Z :=
  match ps !! ((GPU, gpu), CPU) with
  | None => Stuck
  | Some l => let c := closest l 0 0 (-1) in if c =? -1 then Fail ncclInternalError else Ret c
  end.

(** ** Specification *)

(** The path from [v] to node [i] of type [t], if one was found. *)
Definition found (ps : paths) (v : nodeptr) (t i : Z) : option ncclTopoLinkList :=
  match ps !! (v, t) with Some l => match l !! Z.to_nat i with Some p => if pl_bw p =? 0 then None else Some p | None => None end | None => None end.

(** A topology: every link leads to a node with a link of the same type back, and has
    a bandwidth; nodes of a type differ in their id; a list has room for all nodes. *)
Record topo_ok (sys : ncclTopoSystem) : Prop := {
  to_rem : forall v n lk, get_node sys v = Ret n -> lk ∈ nd_links n -> exists rn lk', get_node sys (lk_remNode lk) = Ret rn /\ lk' ∈ nd_links rn /\ lk_remNode lk' = v /\ lk_type lk' = lk_type lk;
  to_bw : forall v n lk, get_node sys v = Ret n -> lk ∈ nd_links n -> 0 < lk_bw lk;
  to_ids : forall ns, ns ∈ sy_nodes sys -> NoDup (nd_id <$> ns);
  to_count : Z.of_nat (count_nodes sys) <= NCCL_TOPO_MAX_NODES;
}.

(** Arrays of paths have an entry for every node of the type. *)
Definition shaped (sys : ncclTopoSystem) (ps : paths) : Prop :=
  forall v t l, ps !! (v, t) = Some l -> (exists ns, zget (sy_nodes sys) t = Ret ns /\ length l = length ns) /\ Forall (fun p => 0 <= pl_bw p) l.

Section spec.
  Context (sys : ncclTopoSystem) (nvbDisable : bool) (baseNode : nodeptr).

(** A route of [k] hops from the base to a node, the least bandwidth on it and its type. *)
Inductive route : Z -> nodeptr -> Z -> Z -> Prop :=
  | route_base : route 0 baseNode LOC_BW PATH_LOC
  | route_link k u n lk b t : route k u b t -> get_node sys u = Ret n -> lk ∈ nd_links n -> no_route nvbDisable baseNode u lk k = false -> route (k + 1) (lk_remNode lk) (Z.min b (lk_bw lk)) (extended_type u lk t k).

(** The links lead from [v] back to the base. *)
Fixpoint leads_back (v : nodeptr) (l : list linkptr) : Prop :=
  match l with
  | [] => v = baseNode
  | (x, i) :: l => x = v /\ 0 <= i /\ exists n lk, get_node sys v = Ret n /\ nd_links n !! Z.to_nat i = Some lk /\ leads_back (lk_remNode lk) l
  end.

(** [p] is a path of [v]: its hops, its bandwidth and its type are those of a route. *)
Record good_path (v : nodeptr) (p : ncclTopoLinkList) : Prop := {
  gp_route : route (pl_count p) v (pl_bw p) (pl_type p);
  gp_links : leads_back v (take (Z.to_nat (pl_count p)) (pl_list p));
  gp_length : 0 <= pl_count p <= Z.of_nat (length (pl_list p));
}.

(** The path of [v] is the widest of the shortest routes. *)
Definition best_path (v : nodeptr) (p : ncclTopoLinkList) : Prop :=
  good_path v p /\ forall k b t, route k v b t -> pl_count p <= k /\ (k = pl_count p -> b <= pl_bw p).

End spec.

(** ** Nodes *)

Definition all_nodes (sys : ncclTopoSystem) : list nodeptr := concat (imap (fun t ns => imap (fun i _ => (Z.of_nat t, Z.of_nat i)) ns) (sy_nodes sys)).

Lemma all_nodes_length sys : length (all_nodes sys) = count_nodes sys.
Proof.
  unfold all_nodes, count_nodes. rewrite !length_concat. f_equal. generalize (sy_nodes sys). intros l. apply list_eq. intros i. rewrite !list_lookup_fmap, list_lookup_imap. destruct (l !! i) as [ns|]; [|done]. cbn. by rewrite length_imap.
Qed.

Lemma get_node_lookup sys v n : get_node sys v = Ret n -> exists ns, 0 <= v.1 /\ sy_nodes sys !! Z.to_nat v.1 = Some ns /\ 0 <= v.2 /\ ns !! Z.to_nat v.2 = Some n.
Proof.
  unfold get_node. intros E. destruct (zget (sy_nodes sys) v.1) as [ns| |] eqn:E1; [|done..]. cbn [mbind outcome_bind] in E. apply zget_Ret in E1 as [H1 H2], E as [H3 H4]. by exists ns.
Qed.

Lemma node_listed sys v n : get_node sys v = Ret n -> v ∈ all_nodes sys.
Proof.
  intros (ns & H1 & H2 & H3 & H4)%get_node_lookup. unfold all_nodes. apply list_elem_of_In, in_concat. exists (imap (fun i _ => (v.1, Z.of_nat i)) ns). split; apply list_elem_of_In.
  - apply list_elem_of_lookup. exists (Z.to_nat v.1). rewrite list_lookup_imap, H2. cbn. by rewrite Z2Nat.id.
  - apply list_elem_of_lookup. exists (Z.to_nat v.2). rewrite list_lookup_imap, H4. cbn. rewrite Z2Nat.id by done. by destruct v.
Qed.

Lemma nodes_bound sys l : NoDup l -> Forall (fun v => exists n, get_node sys v = Ret n) l -> (length l <= count_nodes sys)%nat.
Proof.
  intros Hnd Hl. rewrite <- all_nodes_length. apply submseteq_length, NoDup_submseteq; [done|]. intros v Hv. rewrite Forall_forall in Hl. destruct (Hl v Hv) as [n Hn]. by eapply node_listed.
Qed.

(** ** One link *)

Lemma find_id_spec ns id i k n : NoDup (nd_id <$> ns) -> ns !! k = Some n -> nd_id n = id -> find_id ns id i = Some (i + Z.of_nat k).
Proof.
  revert i k. induction ns as [|m ns IH]; intros i k Hnd Hk Hid; [done|]. rewrite fmap_cons in Hnd. apply NoDup_cons in Hnd as [Hm Hnd]. cbn [find_id]. destruct k as [|k]; cbn in Hk.
  - injection Hk as ->. rewrite Hid, Z.eqb_refl. f_equal. lia.
  - rewrite (proj2 (Z.eqb_neq _ _)); [|intros E; apply Hm; rewrite E, <- Hid; apply list_elem_of_fmap; exists n; split; [done|by eapply list_elem_of_lookup_2]]. rewrite (IH (i + 1) k) by done. f_equal. lia.
Qed.

Lemma getPath_base sys v n : topo_ok sys -> get_node sys v = Ret n -> getPath sys v.1 (nd_id n) = Ret v.2.
Proof.
  intros Hok Hn. apply get_node_lookup in Hn as (ns & H1 & H2 & H3 & H4). unfold getPath. rewrite (proj2 (zget_Ret _ _ ns)) by done. cbn [mbind outcome_bind]. rewrite (find_id_spec _ _ _ (Z.to_nat v.2) n) by (done || apply (to_ids _ Hok); by eapply list_elem_of_lookup_2). by rewrite Z2Nat.id.
Qed.

Lemma reverse_spec links node type i : (exists lk, lk ∈ links /\ lk_remNode lk = node /\ lk_type lk = type) -> exists k lk, reverse_link links node type i = Some (i + Z.of_nat k) /\ links !! k = Some lk /\ lk_remNode lk = node.
Proof.
  revert i. induction links as [|x links IH]; intros i (lk & Hin & Hr & Ht); [by apply not_elem_of_nil in Hin|]. cbn [reverse_link]. destruct (bool_decide (lk_remNode x = node) && (lk_type x =? type)) eqn:E.
  - apply andb_prop in E as [E _]. apply bool_decide_eq_true in E. exists 0%nat, x. split; [f_equal; lia|done].
  - apply elem_of_cons in Hin as [->|Hin]; [rewrite bool_decide_true, Ht, Z.eqb_refl in E by done; done|]. destruct (IH (i + 1)) as (k & lk' & E1 & E2 & E3); [by exists lk|]. exists (S k), lk'. rewrite E1. split; [f_equal; lia|done].
Qed.

Section relax.
  Context (sys : ncclTopoSystem) (nvbDisable : bool) (baseNode : nodeptr) (base : ncclTopoNode).
  Context (Hok : topo_ok sys) (Hbase : get_node sys baseNode = Ret base).

Abbreviation here ps v := (found ps v baseNode.1 baseNode.2).

Lemma base_index : exists ns, zget (sy_nodes sys) baseNode.1 = Ret ns /\ 0 <= baseNode.2 < Z.of_nat (length ns).
Proof. apply get_node_lookup in Hbase as (ns & H1 & H2 & H3 & H4). exists ns. split; [by apply zget_Ret|]. apply lookup_lt_Some in H4. lia. Qed.

Lemma shaped_at ps v l : shaped sys ps -> ps !! (v, baseNode.1) = Some l -> exists p, zget l baseNode.2 = Ret p /\ 0 <= pl_bw p /\ here ps v = (if pl_bw p =? 0 then None else Some p).
Proof.
  intros Hs Hl. destruct (Hs _ _ _ Hl) as [(ns & E1 & E2) Hb]. destruct base_index as (ns' & E3 & E4). rewrite E1 in E3. injection E3 as <-. destruct (lookup_lt_is_Some_2 l (Z.to_nat baseNode.2)) as [p Hp]; [lia|].
  exists p. split; [apply zget_Ret; split; [lia|done]|]. split; [rewrite Forall_forall in Hb; apply Hb; by eapply list_elem_of_lookup_2|]. unfold found. by rewrite Hl, Hp.
Qed.

Lemma alloc_spec ps v : shaped sys ps -> exists ps' l, alloc_paths sys v baseNode.1 ps = Ret ps' /\ shaped sys ps' /\ ps' !! (v, baseNode.1) = Some l /\ (forall u t i, found ps' u t i = found ps u t i) /\ (forall k, is_Some (ps !! k) -> ps' !! k = ps !! k).
Proof.
  intros Hs. unfold alloc_paths. destruct (ps !! (v, baseNode.1)) as [l|] eqn:El; [by exists ps, l|]. destruct base_index as (ns & E & Hr). rewrite E. cbn [mbind outcome_bind]. eexists _, _. split; [done|]. split_and!.
  - intros u t l Hl. destruct (decide ((v, baseNode.1) = (u, t))) as [[= <- <-]|Hn].
    + rewrite lookup_insert_eq in Hl. injection Hl as <-. split; [exists ns; by rewrite length_replicate|]. by apply Forall_replicate.
    + rewrite lookup_insert_ne in Hl by done. by eapply Hs.
  - by rewrite lookup_insert_eq.
  - intros u t i. unfold found. destruct (decide ((v, baseNode.1) = (u, t))) as [[= <- <-]|Hn]; [|by rewrite lookup_insert_ne]. rewrite lookup_insert_eq, El. destruct (replicate _ _ !! Z.to_nat i) as [p|] eqn:Ep; [|done]. apply lookup_replicate in Ep as [-> _]. done.
  - intros k [x Hk]. rewrite lookup_insert_ne; [done|]. intros <-. by rewrite El in Hk.
Qed.

(** A path is written. *)
Lemma set_spec ps v l p : shaped sys ps -> ps !! (v, baseNode.1) = Some l -> 0 < pl_bw p -> exists ps', set_path ps v baseNode.1 baseNode.2 p = Ret ps' /\ shaped sys ps' /\ here ps' v = Some p /\
  (forall u t i, (u, t, i) <> (v, baseNode.1, baseNode.2) -> 0 <= i -> found ps' u t i = found ps u t i).
Proof.
  intros Hs Hl Hp. destruct (Hs _ _ _ Hl) as [(ns & E1 & E2) Hb]. destruct base_index as (ns' & E3 & E4). rewrite E1 in E3. injection E3 as <-. unfold set_path. rewrite Hl, zset_Ret by lia. cbn [mbind outcome_bind]. eexists. split; [done|]. split_and!.
  - intros u t l' Hl'. destruct (decide ((v, baseNode.1) = (u, t))) as [[= <- <-]|Hn].
    + rewrite lookup_insert_eq in Hl'. injection Hl' as <-. split; [exists ns; by rewrite length_insert|]. apply Forall_insert; [done|lia].
    + rewrite lookup_insert_ne in Hl' by done. by eapply Hs.
  - unfold found. rewrite lookup_insert_eq, list_lookup_insert_eq by lia. rewrite (proj2 (Z.eqb_neq _ _)) by lia. done.
  - intros u t i Hne Hi. unfold found. destruct (decide ((v, baseNode.1) = (u, t))) as [[= <- <-]|Hn]; [|by rewrite lookup_insert_ne]. rewrite lookup_insert_eq, Hl. rewrite list_lookup_insert_ne; [done|]. intros E. apply Hne. f_equal. lia.
Qed.

(** Whether a path over the link is better than the one there is. *)
Definition better (r : option ncclTopoLinkList) (path : ncclTopoLinkList) (lk : ncclTopoLink) : Prop :=
  match r with None => True | Some r => pl_count path < pl_count r /\ pl_bw r < Z.min (pl_bw path) (lk_bw lk) end.

Lemma relax_spec node n lk ps next path : shaped sys ps -> get_node sys node = Ret n -> lk ∈ nd_links n -> here ps node = Some path -> good_path sys nvbDisable baseNode node path -> 0 < pl_bw path -> pl_count path < NCCL_TOPO_MAX_HOPS ->
  NoDup next -> Forall (fun v => exists n, get_node sys v = Ret n) next ->
  exists ps' next', relax sys nvbDisable baseNode (nd_id base) node lk (ps, next) = Ret (ps', next') /\ shaped sys ps' /\ (forall u t i, 0 <= i -> (u, t, i) <> (lk_remNode lk, baseNode.1, baseNode.2) -> found ps' u t i = found ps u t i) /\
    (no_route nvbDisable baseNode node lk (pl_count path) = false /\ better (here ps (lk_remNode lk)) path lk /\ next' = (if bool_decide (lk_remNode lk ∈ next) then next else next ++ [lk_remNode lk]) /\
       (exists p, here ps' (lk_remNode lk) = Some p /\ good_path sys nvbDisable baseNode (lk_remNode lk) p /\ pl_count p = pl_count path + 1 /\ pl_bw p = Z.min (pl_bw path) (lk_bw lk))
     \/ (no_route nvbDisable baseNode node lk (pl_count path) = true \/ ~ better (here ps (lk_remNode lk)) path lk) /\ next' = next /\ here ps' (lk_remNode lk) = here ps (lk_remNode lk)).
Proof.
  intros Hs Hn Hlk Hp [Hg1 Hg2 Hg3] Hbw Hmax Hnd Hnext. unfold relax. set (rem := lk_remNode lk) in *. destruct (alloc_spec ps rem Hs) as (ps1 & l & -> & Hs1 & Hl & Hf & _). cbn [mbind outcome_bind]. rewrite (getPath_base _ _ _ Hok Hbase). cbn [mbind outcome_bind].
  destruct (to_rem _ Hok _ _ _ Hn Hlk) as (rn & lk' & Hrn & Hlk' & Hr1 & Hr2). pose proof (to_bw _ Hok _ _ _ Hn Hlk) as Hlb. fold rem in Hrn.
  assert (path_at ps1 node baseNode.1 baseNode.2 = Ret path) as ->.
  { assert (here ps1 node = Some path) as Hp1 by by rewrite Hf. unfold found in Hp1. unfold path_at. destruct (ps1 !! (node, baseNode.1)) as [l1|] eqn:El1; [|done]. destruct (shaped_at _ _ _ Hs1 El1) as (p1 & E1 & _ & E2). rewrite E1. apply zget_Ret in E1 as [_ E1]. rewrite E1 in Hp1. by destruct (pl_bw p1 =? 0); [|injection Hp1 as ->]. }
  destruct (shaped_at _ _ _ Hs1 Hl) as (r & Er & Hr0 & Ehr). cbn [mbind outcome_bind]. unfold path_at. rewrite Hl, Er. cbn [mbind outcome_bind]. rewrite <- (Hf rem), Ehr.
  destruct (no_route nvbDisable baseNode node lk (pl_count path)) eqn:Enr.
  - exists ps1, next. split; [done|]. split; [done|]. split; [intros; apply Hf|]. right. split; [by left|]. done.
  - destruct (((pl_bw r =? 0) || (pl_count path <? pl_count r)) && (pl_bw r <? Z.min (pl_bw path) (lk_bw lk))) eqn:Eb.
    + assert (better (if pl_bw r =? 0 then None else Some r) path lk) as Hbet. { unfold better. destruct (Z.eqb_spec (pl_bw r) 0); [done|]. cbn [orb] in Eb. apply andb_prop in Eb as [E1%Z.ltb_lt E2%Z.ltb_lt]. done. }
      destruct (reverse_spec (nd_links rn) node (lk_type lk) 0) as (k & rl & Erev & Hrl & Hrr); [by exists lk'|]. unfold extend. fold rem. rewrite Hrn. cbn [mbind outcome_bind]. rewrite Erev. cbn [mbind outcome_bind]. rewrite (proj2 (Z.leb_gt NCCL_TOPO_MAX_HOPS (pl_count path)) Hmax). cbn [mbind outcome_bind].
      set (p := MkLinkList _ _ _ _). destruct (set_spec ps1 rem l p Hs1 Hl) as (ps2 & -> & Hs2 & Hh2 & Hf2); [cbn [p pl_bw]; lia|]. cbn [mbind outcome_bind].
      assert (good_path sys nvbDisable baseNode rem p) as Hgp.
      { split; cbn [p pl_count pl_bw pl_list].
        - by eapply route_link.
        - replace (Z.to_nat (pl_count path + 1)) with (S (Z.to_nat (pl_count path))) by lia. cbn [take]. rewrite take_app_le by (rewrite length_take; lia). rewrite take_take, Nat.min_id. cbn [leads_back]. split; [done|]. split; [lia|]. exists rn, rl. split; [done|]. split; [by rewrite Z.add_0_l, Nat2Z.id|]. by rewrite Hrr.
        - cbn [length]. rewrite length_app, length_take. lia. }
      assert (forall u t i, 0 <= i -> (u, t, i) <> (rem, baseNode.1, baseNode.2) -> found ps2 u t i = found ps u t i) as Hframe by (intros; rewrite Hf2 by done; apply Hf).
      assert (exists q, here ps2 rem = Some q /\ good_path sys nvbDisable baseNode rem q /\ pl_count q = pl_count path + 1 /\ pl_bw q = Z.min (pl_bw path) (lk_bw lk)) as Hq by (by exists p). case_bool_decide as Hin.
      * exists ps2, next. split; [done|]. split; [done|]. split; [done|]. left. done.
      * assert (NoDup (next ++ [rem])) as Hnd2 by (apply NoDup_app; split; [done|]; split; [intros x Hx ->%list_elem_of_singleton; done|apply NoDup_singleton]). pose proof (nodes_bound sys (next ++ [rem]) Hnd2) as Hlen. rewrite length_app in Hlen. cbn [length] in Hlen. pose proof (to_count _ Hok) as Hcnt.
        rewrite (proj2 (Z.leb_gt _ _)) by (specialize (Hlen ltac:(apply Forall_app; split; [done|]; constructor; [by exists rn|done])); lia). exists ps2, (next ++ [rem]). split; [done|]. split; [done|]. split; [done|]. left. done.
    + exists ps1, next. split; [done|]. split; [done|]. split; [intros; apply Hf|]. right. split; [right|done]. unfold better. destruct (Z.eqb_spec (pl_bw r) 0) as [E0|E0]; [exfalso; cbn [orb andb] in Eb; apply Z.ltb_ge in Eb; lia|]. cbn [orb] in Eb. apply andb_false_iff in Eb as [Eb%Z.ltb_ge|Eb%Z.ltb_ge]; lia.
Qed.


(** ** One level *)

Abbreviation route_to := (route sys nvbDisable baseNode).
Abbreviation good := (good_path sys nvbDisable baseNode).

Lemma route_facts k v b t : route_to k v b t -> 0 <= k /\ 0 < b /\ exists n, get_node sys v = Ret n.
Proof.
  induction 1 as [|k u n lk b t Hr (H1 & H2 & H3) Hn Hlk Hno]; [split; [done|]; split; [done|]; by exists base|]. split; [lia|]. pose proof (to_bw _ Hok _ _ _ Hn Hlk). split; [lia|]. destruct (to_rem _ Hok _ _ _ Hn Hlk) as (rn & _ & Hrn & _). by exists rn.
Qed.

Lemma no_route_mono u lk j k : no_route nvbDisable baseNode u lk k = false -> j <= k -> no_route nvbDisable baseNode u lk j = false.
Proof. unfold no_route. intros H Hj. destruct (negb _ && _); [|done]. cbn [andb] in *. apply orb_false_iff in H as [H1 H2]. apply orb_false_iff. split; [done|]. apply Z.ltb_ge in H2. apply Z.ltb_ge. lia. Qed.

(** [k] hops were searched before, giving [ps0]; of the links of this level those in
    [D] are done. *)
Record level_inv (k : Z) (ps0 ps : paths) (next : list nodeptr) (D : nodeptr -> ncclTopoLink -> Prop) : Prop := {
  li_shaped : shaped sys ps;
  li_frame : forall u t i, 0 <= i -> (t, i) <> baseNode -> found ps u t i = found ps0 u t i;
  li_good : forall v p, here ps v = Some p -> good v p /\ pl_count p <= k + 1;
  li_kept : forall v p, here ps0 v = Some p -> here ps v = Some p /\ pl_count p <= k;
  li_new : forall v p, here ps v = Some p -> here ps0 v = Some p \/ pl_count p = k + 1;
  li_next : forall v, v ∈ next <-> exists p, here ps v = Some p /\ pl_count p = k + 1;
  li_nodup : NoDup next;
  li_done : forall u lk pu, D u lk -> here ps0 u = Some pu -> no_route nvbDisable baseNode u lk k = false -> exists p, here ps (lk_remNode lk) = Some p /\ (pl_count p = k + 1 -> Z.min (pl_bw pu) (lk_bw lk) <= pl_bw p);
}.

Lemma level_nodes k ps0 ps next D : level_inv k ps0 ps next D -> Forall (fun v => exists n, get_node sys v = Ret n) next.
Proof. intros H. apply Forall_forall. intros v Hv. apply (li_next _ _ _ _ _ H) in Hv as (p & Hp & _). apply (li_good _ _ _ _ _ H) in Hp as [Hg _]. apply gp_route in Hg. by apply route_facts in Hg as (_ & _ & Hn). Qed.

(** The entry of one node changes. *)
Lemma level_update k ps0 ps next D ps' p u lk pu : level_inv k ps0 ps next D -> here ps0 u = Some pu -> pl_count pu = k -> shaped sys ps' ->
  (forall x t i, 0 <= i -> (x, t, i) <> (lk_remNode lk, baseNode.1, baseNode.2) -> found ps' x t i = found ps x t i) -> better (here ps (lk_remNode lk)) pu lk ->
  here ps' (lk_remNode lk) = Some p -> good (lk_remNode lk) p -> pl_count p = k + 1 -> pl_bw p = Z.min (pl_bw pu) (lk_bw lk) ->
  level_inv k ps0 ps' (if bool_decide (lk_remNode lk ∈ next) then next else next ++ [lk_remNode lk]) (fun x l => D x l \/ x = u /\ l = lk).
Proof.
  intros [H1 H2 H3 H4 H5 H6 H7 H8] Hu Hk Hs Hf Hb Hp Hg Hc Hw. set (rem := lk_remNode lk) in *. destruct base_index as (_ & _ & Hi & _).
  assert (forall v, v <> rem -> here ps' v = here ps v) as Ho by (intros v Hv; apply Hf; [done|congruence]). assert (here ps0 rem = None) as H0. { destruct (here ps0 rem) as [q|] eqn:E; [|done]. apply H4 in E as [E Hq]. rewrite E in Hb. cbn [better] in Hb. lia. }
  split.
  - done.
  - intros x t i Hi' Hne. rewrite Hf; [by apply H2|done|]. intros [= _ -> ->]. by apply Hne; destruct baseNode.
  - intros v q. destruct (decide (v = rem)) as [->|Hv]; [rewrite Hp; intros [= <-]; split; [done|lia]|]. rewrite Ho by done. apply H3.
  - intros v q Hq. destruct (decide (v = rem)) as [->|Hv]; [by rewrite H0 in Hq|]. rewrite Ho by done. by apply H4.
  - intros v q. destruct (decide (v = rem)) as [->|Hv]; [rewrite Hp; intros [= <-]; by right|]. rewrite Ho by done. apply H5.
  - intros v. assert (v ∈ (if bool_decide (rem ∈ next) then next else next ++ [rem]) <-> v ∈ next \/ v = rem) as -> by (case_bool_decide; set_solver). destruct (decide (v = rem)) as [->|Hv]; [split; [intros _; by exists p|by right]|]. rewrite Ho, H6 by done. naive_solver.
  - case_bool_decide as Hin; [done|]. apply NoDup_app. split; [done|]. split; [intros x Hx ->%list_elem_of_singleton; done|apply NoDup_singleton].
  - intros x l px [HD|[-> ->]] Hx Hno.
    + destruct (H8 x l px HD Hx Hno) as (q & Hq & Hqw). destruct (decide (lk_remNode l = rem)) as [E|Hv]; [|rewrite Ho by done; by exists q]. rewrite E in *. exists p. split; [done|]. intros _. rewrite Hq in Hb. cbn [better] in Hb.
      destruct Hb as [Hb1 Hb2]. destruct (H3 _ _ Hq) as [_ Hq2]. rewrite Hw. specialize (Hqw ltac:(lia)). lia.
    + rewrite Hu in Hx. injection Hx as <-. exists p. split; [done|]. lia.
Qed.

Lemma relax_level k ps0 ps next D u n lk pu : level_inv k ps0 ps next D -> here ps0 u = Some pu -> pl_count pu = k -> get_node sys u = Ret n -> lk ∈ nd_links n -> k < NCCL_TOPO_MAX_HOPS ->
  exists ps' next', relax sys nvbDisable baseNode (nd_id base) u lk (ps, next) = Ret (ps', next') /\ level_inv k ps0 ps' next' (fun x l => D x l \/ x = u /\ l = lk).
Proof.
  intros H Hu Hk Hn Hlk Hmax. pose proof (li_kept _ _ _ _ _ H _ _ Hu) as [Hu' _]. pose proof (li_good _ _ _ _ _ H _ _ Hu') as [Hg _]. destruct (route_facts _ _ _ _ (gp_route _ _ _ _ _ Hg)) as (_ & Hbw & _).
  destruct (relax_spec u n lk ps next pu) as (ps' & next' & E & Hs & Hf & Hcase); try done; [apply H|lia|apply H|by eapply level_nodes|]. exists ps', next'. split; [done|]. destruct Hcase as [(Hno & Hb & -> & p & Hp & Hgp & Hc & Hw)|(Hno & -> & Hp)].
  - rewrite Hk in Hc. by eapply level_update.
  - assert (forall v, here ps' v = here ps v) as Ho. { intros v. destruct (decide (v = lk_remNode lk)) as [->|Hv]; [done|]. destruct base_index as (_ & _ & Hi & _). apply Hf; [done|congruence]. }
    pose proof H as [H1 H2 H3 H4 H5 H6 H7 H8]. split; try done.
    + intros x t i Hi Hne. rewrite Hf; [by apply H2|done|]. intros [= _ -> ->]. by apply Hne; destruct baseNode.
    + intros v p. rewrite Ho. apply H3.
    + intros v p. rewrite Ho. apply H4.
    + intros v p. rewrite Ho. apply H5.
    + intros v. setoid_rewrite Ho. apply H6.
    + intros x l px HD Hx Hno'. rewrite Ho. destruct HD as [HD|[-> ->]]; [by eapply H8|]. rewrite Hu in Hx. injection Hx as <-. rewrite Hk in Hno. destruct Hno as [Hno|Hno]; [by rewrite Hno in Hno'|]. destruct (here ps (lk_remNode lk)) as [r|]; [|by destruct Hno]. exists r. split; [done|]. intros Hr. cbn [better] in Hno. lia.
Qed.

Lemma level_weaken k ps0 ps next (D D' : nodeptr -> ncclTopoLink -> Prop) : level_inv k ps0 ps next D -> (forall x l, D' x l -> D x l) -> level_inv k ps0 ps next D'.
Proof. intros [H1 H2 H3 H4 H5 H6 H7 H8] Hd. split; try done. intros u lk pu HD. apply H8. by apply Hd. Qed.

Lemma each_link_spec k ps0 u n pu links : here ps0 u = Some pu -> pl_count pu = k -> get_node sys u = Ret n -> k < NCCL_TOPO_MAX_HOPS -> forall ps next D, (forall lk, lk ∈ links -> lk ∈ nd_links n) -> level_inv k ps0 ps next D ->
  exists ps' next', each_link sys nvbDisable baseNode (nd_id base) u links (ps, next) = Ret (ps', next') /\ level_inv k ps0 ps' next' (fun x l => D x l \/ x = u /\ l ∈ links).
Proof.
  intros Hu Hk Hn Hmax. induction links as [|lk links IH]; intros ps next D Hin H; cbn [each_link].
  - exists ps, next. split; [done|]. eapply level_weaken; [exact H|]. intros x l [HD|[_ Hl]]; [done|]. by apply not_elem_of_nil in Hl.
  - destruct (relax_level k ps0 ps next D u n lk pu H Hu Hk Hn) as (ps1 & next1 & -> & H1); [apply Hin; by left|done|]. cbn [mbind outcome_bind]. destruct (IH ps1 next1 _ ltac:(intros l Hl; apply Hin; by right) H1) as (ps2 & next2 & E & H2). exists ps2, next2. split; [done|].
    eapply level_weaken; [exact H2|]. intros x l [HD|[-> [->|Hl]%elem_of_cons]]; auto.
Qed.

Lemma each_node_spec k ps0 nodes : k < NCCL_TOPO_MAX_HOPS -> (forall u, u ∈ nodes -> exists pu, here ps0 u = Some pu /\ pl_count pu = k /\ exists n, get_node sys u = Ret n) -> forall ps next D, level_inv k ps0 ps next D ->
  exists ps' next', each_node sys nvbDisable baseNode (nd_id base) nodes (ps, next) = Ret (ps', next') /\ level_inv k ps0 ps' next' (fun x l => D x l \/ x ∈ nodes /\ exists n, get_node sys x = Ret n /\ l ∈ nd_links n).
Proof.
  intros Hmax. induction nodes as [|u nodes IH]; intros Hin ps next D H; cbn [each_node].
  - exists ps, next. split; [done|]. eapply level_weaken; [exact H|]. intros x l [HD|[Hx _]]; [done|]. by apply not_elem_of_nil in Hx.
  - destruct (Hin u) as (pu & Hu & Hk & n & Hn); [by left|]. rewrite Hn. cbn [mbind outcome_bind]. rewrite (getPath_base _ _ _ Hok Hbase). cbn [mbind outcome_bind]. destruct (each_link_spec k ps0 u n pu (nd_links n) Hu Hk Hn Hmax ps next D ltac:(done) H) as (ps1 & next1 & -> & H1). cbn [mbind outcome_bind].
    destruct (IH ltac:(intros x Hx; apply Hin; by right) ps1 next1 _ H1) as (ps2 & next2 & E & H2). exists ps2, next2. split; [done|]. eapply level_weaken; [exact H2|]. intros x l [HD|([->|Hx]%elem_of_cons & n' & Hn' & Hl)]; [by left; left| |].
    + rewrite Hn in Hn'. injection Hn' as <-. left. right. done.
    + right. split; [done|]. by exists n'.
Qed.

(** ** All levels *)

(** All routes of at most [k] hops are known; [nodes] are those reached with [k]. *)
Record search_inv (k : Z) (ps : paths) (nodes : list nodeptr) : Prop := {
  si_shaped : shaped sys ps;
  si_good : forall v p, here ps v = Some p -> good v p /\ pl_count p <= k;
  si_nodes : forall v, v ∈ nodes <-> exists p, here ps v = Some p /\ pl_count p = k;
  si_all : forall j v b t, route_to j v b t -> j <= k -> exists p, here ps v = Some p /\ pl_count p <= j /\ (j = pl_count p -> b <= pl_bw p);
  si_many : nodes <> [] -> exists l, NoDup l /\ k + 1 <= Z.of_nat (length l) /\ forall v, v ∈ l -> is_Some (here ps v);
}.

(** A route that starts with a detour is no better. *)
Lemma shorter_start k ps nodes u n lk p : search_inv k ps nodes -> here ps u = Some p -> pl_count p < k -> get_node sys u = Ret n -> lk ∈ nd_links n -> no_route nvbDisable baseNode u lk k = false ->
  exists q, here ps (lk_remNode lk) = Some q /\ pl_count q <= pl_count p + 1.
Proof.
  intros H Hp Hk Hn Hlk Hno. destruct (si_good _ _ _ H _ _ Hp) as [Hg _]. destruct (si_all _ _ _ H (pl_count p + 1) (lk_remNode lk) (Z.min (pl_bw p) (lk_bw lk)) (extended_type u lk (pl_type p) (pl_count p))) as (q & Hq & Hc & _); [|lia|by exists q].
  eapply route_link; [apply Hg|done|done|]. eapply no_route_mono; [done|lia].
Qed.

Lemma next_level k ps0 nodes ps next : 0 <= k -> search_inv k ps0 nodes -> level_inv k ps0 ps next (fun x l => False \/ x ∈ nodes /\ exists n, get_node sys x = Ret n /\ l ∈ nd_links n) -> search_inv (k + 1) ps next.
Proof.
  intros Hk H0 H. split.
  - apply H.
  - apply H.
  - apply H.
  - intros j v b t Hr Hj. destruct (Z.eq_dec j (k + 1)) as [->|Hne].
    + remember (k + 1) as k1 eqn:Ek1. inversion Hr as [|j u n lk b0 t0 Hr0 Hn Hlk Hno E1 E2 E3 E4]; subst; [lia|]. assert (j = k) as -> by lia. destruct (si_all _ _ _ H0 k u b0 t0 Hr0 ltac:(lia)) as (p & Hp & Hc & Hb). destruct (Z.eq_dec (pl_count p) k) as [E|E].
      * assert (u ∈ nodes) as Hu by (apply (si_nodes _ _ _ H0); by exists p). destruct (li_done _ _ _ _ _ H u lk p) as (q & Hq & Hw); [right; split; [done|]; by exists n|done|done|]. exists q. split; [done|]. destruct (li_good _ _ _ _ _ H _ _ Hq) as [_ Hqc]. split; [done|]. intros E5. specialize (Hw ltac:(lia)). specialize (Hb ltac:(lia)). lia.
      * destruct (shorter_start k ps0 nodes u n lk p H0 Hp ltac:(lia) Hn Hlk Hno) as (q & Hq & Hqc). apply (li_kept _ _ _ _ _ H) in Hq as [Hq _]. exists q. split; [done|]. lia.
    + destruct (si_all _ _ _ H0 j v b t Hr ltac:(lia)) as (p & Hp & Hc & Hb). apply (li_kept _ _ _ _ _ H) in Hp as [Hp _]. by exists p.
  - intros Hnext. destruct next as [|v next]; [done|]. assert (v ∈ v :: next) as Hv by by left. apply (li_next _ _ _ _ _ H) in Hv as (p & Hp & Hc). assert (nodes <> []) as Hnodes.
    { intros ->. destruct (li_good _ _ _ _ _ H _ _ Hp) as [Hg _]. pose proof (gp_route _ _ _ _ _ Hg) as Hr. rewrite Hc in Hr. remember (k + 1) as k1 eqn:Ek1. inversion Hr as [|j u n lk b0 t0 Hr0 Hn Hlk Hno E1 E2 E3 E4]; subst; [lia|]. assert (j = k) as -> by lia.
      destruct (si_all _ _ _ H0 k u b0 t0 Hr0 ltac:(lia)) as (q & Hq & Hqc & _). destruct (Z.eq_dec (pl_count q) k) as [E|E]; [by apply (not_elem_of_nil u), (si_nodes _ _ _ H0); exists q|]. destruct (shorter_start k ps0 [] u n lk q H0 Hq ltac:(lia) Hn Hlk Hno) as (r & Hr' & Hrc).
      apply (li_kept _ _ _ _ _ H) in Hr' as [Hr' Hrk]. rewrite Hp in Hr'. injection Hr' as <-. lia. }
    destruct (si_many _ _ _ H0 Hnodes) as (l & Hl1 & Hl2 & Hl3). exists (v :: l). split; [|split; [cbn [length]; lia|]].
    + apply NoDup_cons. split; [|done]. intros [q Hq]%Hl3. apply (li_kept _ _ _ _ _ H) in Hq as [Hq Hqk]. rewrite Hp in Hq. injection Hq as ->. lia.
    + intros x [->|Hx]%elem_of_cons; [by eexists|]. apply Hl3 in Hx as [q Hq]. apply (li_kept _ _ _ _ _ H) in Hq as [Hq _]. by eexists.
Qed.

Lemma many_nodes k ps nodes : search_inv k ps nodes -> nodes <> [] -> k + 1 <= Z.of_nat (count_nodes sys).
Proof.
  intros H Hne. destruct (si_many _ _ _ H Hne) as (l & Hl1 & Hl2 & Hl3). pose proof (nodes_bound sys l Hl1) as Hb. specialize (Hb ltac:(apply Forall_forall; intros v [p Hp]%Hl3; apply (si_good _ _ _ H) in Hp as [Hg _]; by apply gp_route, route_facts in Hg as (_ & _ & ?))). lia.
Qed.

(** What the search leaves. *)
Definition searched (ps ps' : paths) : Prop := shaped sys ps' /\ (forall u t i, 0 <= i -> (t, i) <> baseNode -> found ps' u t i = found ps u t i) /\
  forall v, match here ps' v with Some p => best_path sys nvbDisable baseNode v p | None => forall k b t, ~ route_to k v b t end.

Lemma search_end k ps : 0 <= k -> search_inv k ps [] -> forall v, match here ps v with Some p => best_path sys nvbDisable baseNode v p | None => forall k b t, ~ route_to k v b t end.
Proof.
  intros Hk H. assert (forall j v b t, route_to j v b t -> exists p, here ps v = Some p /\ pl_count p <= j /\ (j = pl_count p -> b <= pl_bw p)) as Hall.
  { induction 1 as [|j u n lk b t Hr IH Hn Hlk Hno]; [by eapply (si_all _ _ _ H); [constructor|]|]. destruct (Z_le_gt_dec (j + 1) k) as [Hj|Hj]; [by eapply (si_all _ _ _ H); [by econstructor|]|]. destruct IH as (p & Hp & Hc & _). destruct (si_good _ _ _ H _ _ Hp) as [_ Hpk].
    destruct (Z.eq_dec (pl_count p) k) as [E|E]; [exfalso; by apply (not_elem_of_nil u), (si_nodes _ _ _ H); exists p|]. destruct (shorter_start k ps [] u n lk p H Hp ltac:(lia) Hn Hlk) as (q & Hq & Hqc); [eapply no_route_mono; [done|lia]|]. exists q. split; [done|]. lia. }
  intros v. destruct (here ps v) as [p|] eqn:Ep.
  - split; [by apply (si_good _ _ _ H)|]. intros j b t (q & Hq & Hc & Hb)%Hall. rewrite Ep in Hq. by injection Hq as <-.
  - intros j b t (q & Hq & _)%Hall. by rewrite Ep in Hq.
Qed.

Lemma bfs_levels_spec fuel : forall k nodes ps, 0 <= k -> search_inv k ps nodes -> Z.of_nat (count_nodes sys) < Z.of_nat fuel + k -> exists ps', bfs_levels sys nvbDisable baseNode (nd_id base) fuel nodes ps = Ret ps' /\ searched ps ps'.
Proof.
  induction fuel as [|fuel IH]; intros k nodes ps Hk H Hf.
  - destruct nodes as [|u nodes]; [|pose proof (many_nodes _ _ _ H ltac:(done)); lia]. exists ps. split; [done|]. split; [apply H|]. split; [done|]. by eapply search_end.
  - destruct nodes as [|u nodes]; [exists ps; split; [done|]; split; [apply H|]; split; [done|]; by eapply search_end|]. cbn [bfs_levels]. pose proof (many_nodes _ _ _ H ltac:(done)) as Hm. pose proof (to_count _ Hok) as Hcnt.
    destruct (each_node_spec k ps (u :: nodes)) with (ps := ps) (next := @nil nodeptr) (D := fun (_ : nodeptr) (_ : ncclTopoLink) => False) as (ps1 & next & -> & H1).
    + change NCCL_TOPO_MAX_HOPS with 1536. change NCCL_TOPO_MAX_NODES with 256 in Hcnt. lia.
    + intros x Hx. apply (si_nodes _ _ _ H) in Hx as (p & Hp & Hc). exists p. split; [done|]. split; [done|]. destruct (si_good _ _ _ H _ _ Hp) as [Hg _]. by apply gp_route, route_facts in Hg as (_ & _ & ?).
    + split; try done; [apply H|intros v p Hp; apply (si_good _ _ _ H) in Hp as [? ?]; split; [done|lia]|intros v p Hp; split; [done|]; by apply (si_good _ _ _ H) in Hp as [_ ?]|by left| |constructor].
      intros v. split; [by intros ?%not_elem_of_nil|]. intros (p & Hp & Hc). apply (si_good _ _ _ H) in Hp as [_ Hp]. lia.
    + cbn [mbind outcome_bind]. destruct (IH (k + 1) next ps1) as (ps2 & E & Hs & Hfr & Hb); [lia|by eapply next_level|lia|]. exists ps2. split; [done|]. split; [done|]. split; [|done]. intros x t i Hi Hne. rewrite Hfr by done. by apply (li_frame _ _ _ _ _ H1).
Qed.

Lemma ncclTopoSetPaths_spec ps : shaped sys ps -> (forall v, here ps v = None) -> exists ps', ncclTopoSetPaths nvbDisable baseNode sys ps = Ret ps' /\ searched ps ps'.
Proof.
  intros Hs Hfresh. unfold ncclTopoSetPaths. rewrite Hbase. cbn [mbind outcome_bind]. destruct (alloc_spec ps baseNode Hs) as (ps1 & l & -> & Hs1 & Hl & Hf & _). cbn [mbind outcome_bind]. rewrite (getPath_base _ _ _ Hok Hbase). cbn [mbind outcome_bind].
  destruct (shaped_at _ _ _ Hs1 Hl) as (p & Ep & _). unfold path_at. rewrite Hl, Ep. cbn [mbind outcome_bind]. set (p0 := MkLinkList _ _ _ _). destruct (set_spec ps1 baseNode l p0 Hs1 Hl) as (ps2 & -> & Hs2 & Hh & Hf2); [done|]. cbn [mbind outcome_bind]. destruct base_index as (_ & _ & Hi & _).
  assert (forall v p, here ps2 v = Some p -> v = baseNode /\ p = p0) as Honly. { intros v q Hq. destruct (decide (v = baseNode)) as [->|Hv]; [rewrite Hh in Hq; by injection Hq|]. rewrite Hf2, Hf, Hfresh in Hq by (done || congruence). done. }
  destruct (bfs_levels_spec (S (count_nodes sys)) 0 [baseNode] ps2) as (ps' & E & H1 & H2 & H3); [done| |lia|].
  - split.
    + done.
    + intros v q [-> ->]%Honly. split; [|done]. split; [constructor|done|cbn; lia].
    + intros v. rewrite list_elem_of_singleton. split; [intros ->; by exists p0|]. by intros (q & [-> _]%Honly & _).
    + intros j v b t Hr Hj. inversion Hr as [|j' u n lk b0 t0 Hr0 _ _ _]; subst; [exists p0; split; [done|]; cbn; lia|]. apply route_facts in Hr0. lia.
    + intros _. exists [baseNode]. split; [apply NoDup_singleton|]. split; [cbn; lia|]. intros v ->%list_elem_of_singleton. by exists p0.
  - exists ps'. split; [done|]. split; [done|]. split; [|done]. intros u t i Hi' Hne. rewrite H2, Hf2, Hf by (done || (intros [= _ -> ->]; by apply Hne; destruct baseNode)). done.
Qed.

End relax.

(** ** All direct paths *)

Abbreviation paths_ok sys nvbDisable b ps := (forall v, match found ps v b.1 b.2 with Some p => best_path sys nvbDisable b v p | None => forall k w t, ~ route sys nvbDisable b k v w t end).

Lemma set_all_spec sys nvbDisable : topo_ok sys -> forall bases ps, NoDup bases -> Forall (fun b => exists n, get_node sys b = Ret n) bases -> shaped sys ps -> (forall b v, b ∈ bases -> found ps v b.1 b.2 = None) ->
  exists ps', set_all nvbDisable bases sys ps = Ret ps' /\ shaped sys ps' /\ (forall b, b ∈ bases -> paths_ok sys nvbDisable b ps') /\ (forall v (b : nodeptr), 0 <= b.2 -> b ∉ bases -> found ps' v b.1 b.2 = found ps v b.1 b.2).
Proof.
  intros Hok. induction bases as [|b bases IH]; intros ps Hnd Hb Hs Hf; cbn [set_all].
  - exists ps. split; [done|]. split; [done|]. split; [by intros b ?%not_elem_of_nil|done].
  - apply NoDup_cons in Hnd as [Hnb Hnd]. apply Forall_cons in Hb as [[n Hn] Hb]. assert (forall c : nodeptr, (c.1, c.2) = c) as Heta by by intros []. destruct (ncclTopoSetPaths_spec sys nvbDisable b n Hok Hn ps Hs) as (ps1 & -> & Hs1 & Hf1 & Hp1); [intros v; apply Hf; by left|]. cbn [mbind outcome_bind].
    assert (forall c : nodeptr, c ∈ bases -> 0 <= c.2 /\ c <> b) as Hc. { intros c Hc. split; [|by intros ->]. rewrite Forall_forall in Hb. destruct (Hb c Hc) as [m Hm]. by apply get_node_lookup in Hm as (_ & _ & _ & ? & _). }
    destruct (IH ps1 Hnd Hb Hs1) as (ps2 & E & Hs2 & Hp2 & Hf2).
    + intros c v Hcb. destruct (Hc c Hcb) as [H0 Hne]. rewrite Hf1 by (done || by rewrite Heta). apply Hf. by right.
    + exists ps2. split; [done|]. split; [done|]. apply get_node_lookup in Hn as (_ & _ & _ & Hb2 & _). split.
      * intros c [->|Hcb]%elem_of_cons; [|by apply Hp2]. intros v. rewrite Hf2 by done. apply Hp1.
      * intros v c H0 [Hne Hcb]%not_elem_of_cons. rewrite Hf2 by done. apply Hf1; [done|by rewrite Heta].
Qed.

Lemma nodes_of_in sys t b : b ∈ nodes_of sys t -> 0 <= t -> b.1 = t /\ exists n, get_node sys b = Ret n.
Proof.
  unfold nodes_of. intros (i & -> & Hi)%list_elem_of_fmap Ht. split; [done|]. apply elem_of_seqZ in Hi. unfold get_node. cbn [fst snd]. destruct (sy_nodes sys !! Z.to_nat t) as [ns|] eqn:E; [|cbn in Hi; lia]. cbn [default from_option id] in Hi.
  rewrite (proj2 (zget_Ret _ _ ns)) by done. cbn [mbind outcome_bind]. destruct (lookup_lt_is_Some_2 ns (Z.to_nat i)) as [n Hn]; [lia|]. exists n. apply zget_Ret. split; [lia|done].
Qed.

Lemma nodes_of_all sys b n : get_node sys b = Ret n -> b ∈ nodes_of sys b.1.
Proof.
  intros (ns & H1 & H2 & H3 & H4)%get_node_lookup. unfold nodes_of. apply list_elem_of_fmap. exists b.2. split; [by destruct b|]. rewrite H2. cbn [default from_option id]. apply elem_of_seqZ. apply lookup_lt_Some in H4. lia.
Qed.

Lemma nodes_of_nodup sys t : NoDup (nodes_of sys t).
Proof. unfold nodes_of. apply (NoDup_fmap_2 _ _), NoDup_seqZ. Qed.

Lemma nodup_types sys ts : NoDup ts -> Forall (fun t => 0 <= t) ts -> NoDup (concat (nodes_of sys <$> ts)).
Proof.
  induction ts as [|t ts IH]; intros Hnd Hp; [constructor|]. apply NoDup_cons in Hnd as [Ht Hnd]. apply Forall_cons in Hp as [Ht0 Hp]. rewrite fmap_cons. cbn [concat]. apply NoDup_app. split; [apply nodes_of_nodup|]. split; [|by apply IH].
  intros b [<- _]%nodes_of_in Hb; [|done]. apply list_elem_of_In, in_concat in Hb as (l & Hl & Hb). apply list_elem_of_In, list_elem_of_fmap in Hl as (u & -> & Hu). apply list_elem_of_In in Hb. rewrite Forall_forall in Hp. apply nodes_of_in in Hb as [E _]; [|by apply Hp]. by rewrite <- E in Hu.
Qed.

(** (C6) The direct paths of a topology: the searches of [ncclTopoComputePaths] end
    without error, and for every CPU, GPU, network port and NVSwitch they give to
    every node either a path to it, whose links lead there one by one and whose hops,
    bandwidth and type are those of a permitted route, with the fewest hops of all
    permitted routes and the most bandwidth among those with as few hops; or none, if
    no permitted route exists.  A route is permitted if it passes through a GPU only
    as the neighbour of its end, over NVLink to another GPU and unless that is
    disabled. *)
Theorem direct_paths_best nvbDisable sys : topo_ok sys ->
  wp (set_direct_paths nvbDisable sys) (fun ps => forall b n, get_node sys b = Ret n -> b.1 ∈ [CPU; GPU; NET; NVS] -> paths_ok sys nvbDisable b ps).
Proof.
  intros Hok. unfold set_direct_paths. replace (nodes_of sys CPU ++ nodes_of sys GPU ++ nodes_of sys NET ++ nodes_of sys NVS) with (concat (nodes_of sys <$> [CPU; GPU; NET; NVS])) by (cbn [fmap list_fmap concat]; by rewrite app_nil_r).
  assert (Forall (fun t => 0 <= t) [CPU; GPU; NET; NVS]) as Hpos by (repeat constructor; done). destruct (set_all_spec sys nvbDisable Hok (concat (nodes_of sys <$> [CPU; GPU; NET; NVS])) ∅) as (ps & -> & _ & Hp & _).
  - apply nodup_types; [|done]. apply (bool_decide_unpack _). vm_compute. exact I.
  - apply Forall_forall. intros b (l & Hl & Hb)%list_elem_of_In%in_concat. apply list_elem_of_In, list_elem_of_fmap in Hl as (t & -> & Ht). apply list_elem_of_In in Hb. rewrite Forall_forall in Hpos. by apply nodes_of_in in Hb as [_ ?]; [|apply Hpos].
  - by intros v t l ?.
  - done.
  - cbn [wpx]. intros b n Hn Hb. apply Hp. apply list_elem_of_In, in_concat. exists (nodes_of sys b.1). split; apply list_elem_of_In; [|by eapply nodes_of_all]. apply list_elem_of_fmap. by exists b.1.
Qed.

(** A CPU with a PCI switch, on the switch two GPUs and a NIC with a port; the GPUs are
    also connected by NVLink, which is wider than PCI. *)
Definition sample_topo : ncclTopoSystem :=
  MkSystem [[MkNode 10 [MkLink LINK_NVL 0x42200000 (GPU, 1); MkLink LINK_PCI 0x41400000 (PCI, 0)]; MkNode 11 [MkLink LINK_NVL 0x42200000 (GPU, 0); MkLink LINK_PCI 0x41400000 (PCI, 0)]];
    [MkNode 20 [MkLink LINK_PCI 0x41400000 (GPU, 0); MkLink LINK_PCI 0x41400000 (GPU, 1); MkLink LINK_PCI 0x41400000 (NIC, 0); MkLink LINK_PCI 0x41400000 (CPU, 0)]]; [];
    [MkNode 0 [MkLink LINK_PCI 0x41400000 (PCI, 0)]]; [MkNode 30 [MkLink LINK_PCI 0x41400000 (PCI, 0); MkLink LINK_NET 0x41400000 (NET, 0)]]; [MkNode 40 [MkLink LINK_NET 0x41400000 (NIC, 0)]]].

(** [topo_ok] as a test. *)
Definition check_topo (sys : ncclTopoSystem) : bool :=
  forallb (fun v => match get_node sys v with
    | Ret n => forallb (fun lk => (0 <? lk_bw lk) && match get_node sys (lk_remNode lk) with Ret rn => existsb (fun lk' => bool_decide (lk_remNode lk' = v) && (lk_type lk' =? lk_type lk)) (nd_links rn) | _ => false end) (nd_links n)
    | _ => true end) (all_nodes sys) && forallb (fun ns => bool_decide (NoDup (nd_id <$> ns))) (sy_nodes sys) && (Z.of_nat (count_nodes sys) <=? NCCL_TOPO_MAX_NODES).

Lemma check_topo_ok sys : check_topo sys = true -> topo_ok sys.
Proof.
  unfold check_topo. intros [[H1 H2]%andb_prop H3%Z.leb_le]%andb_prop. rewrite forallb_forall in H1, H2.
  assert (forall v n lk, get_node sys v = Ret n -> lk ∈ nd_links n -> 0 < lk_bw lk /\ exists rn lk', get_node sys (lk_remNode lk) = Ret rn /\ lk' ∈ nd_links rn /\ lk_remNode lk' = v /\ lk_type lk' = lk_type lk) as Hall.
  { intros v n lk Hn Hlk. specialize (H1 v). rewrite Hn, forallb_forall in H1. specialize (H1 ltac:(by apply list_elem_of_In; eapply node_listed) lk ltac:(by apply list_elem_of_In)). apply andb_prop in H1 as [Hb%Z.ltb_lt H1]. split; [done|]. destruct (get_node sys (lk_remNode lk)) as [rn| |]; [|done..].
    apply existsb_exists in H1 as (lk' & Hin & [Hr%bool_decide_eq_true Ht%Z.eqb_eq]%andb_prop). exists rn, lk'. split; [done|]. split; [by apply list_elem_of_In|done]. }
  split; [intros v n lk Hn Hlk; by apply (Hall v n lk)|intros v n lk Hn Hlk; by apply (Hall v n lk)| |done]. intros ns Hns. apply (bool_decide_unpack _). apply Is_true_true, H2. by apply list_elem_of_In.
Qed.

Lemma direct_paths_best_witness : exists ps p, set_direct_paths false sample_topo = Ret ps /\ found ps (GPU, 0) NET 0 = Some p /\ pl_count p = 3 /\ pl_type p = PATH_PIX /\ best_path sample_topo false (NET, 0) (GPU, 0) p.
Proof.
  assert (match set_direct_paths false sample_topo with Ret ps => (fun p => (pl_count p, pl_type p)) <$> found ps (GPU, 0) NET 0 | _ => None end = Some (3, PATH_PIX)) as Hc by (vm_compute; reflexivity).
  pose proof (direct_paths_best false sample_topo) as H. specialize (H ltac:(apply check_topo_ok; vm_compute; reflexivity)). destruct (set_direct_paths false sample_topo) as [ps|e|]; [|destruct H..]. cbn [wpx] in H.
  specialize (H (NET, 0) (MkNode 40 [MkLink LINK_NET 0x41400000 (NIC, 0)]) ltac:(reflexivity) ltac:(apply (bool_decide_unpack _); vm_compute; exact I) (GPU, 0)). cbn [fst snd] in H. exists ps. destruct (found ps (GPU, 0) NET 0) as [p|]; [|discriminate Hc].
  exists p. injection Hc as E1 E2. exact (conj eq_refl (conj eq_refl (conj E1 (conj E2 H)))).
Defined.

(** ** Paths through another node *)

Lemma leads_app sys x b v l1 l2 : leads_back sys x v l1 -> leads_back sys b x l2 -> leads_back sys b v (l1 ++ l2).
Proof. revert v. induction l1 as [|[y i] l1 IH]; intros v; cbn [leads_back app]; [by intros ->|]. intros (-> & Hi & n & lk & Hn & Hl & H1) H2. split; [done|]. split; [done|]. exists n, lk. split; [done|]. split; [done|]. by apply IH. Qed.

(** [addInterStep] joins the paths to and from the third node; other paths stay. *)
Lemma addInterStep_joins sys x n1 n2 ps p1 p2 old : path_at ps n1 x.1 x.2 = Ret p1 -> path_at ps x n2.1 n2.2 = Ret p2 -> path_at ps n1 n2.1 n2.2 = Ret old ->
  leads_back sys x n1 (take (Z.to_nat (pl_count p1)) (pl_list p1)) -> leads_back sys n2 x (take (Z.to_nat (pl_count p2)) (pl_list p2)) ->
  0 <= pl_count p1 <= Z.of_nat (length (pl_list p1)) -> 0 <= pl_count p2 <= Z.of_nat (length (pl_list p2)) -> pl_count p1 + pl_count p2 <= NCCL_TOPO_MAX_HOPS ->
  exists ps' p, addInterStep x n1 n2 ps = Ret ps' /\ path_at ps' n1 n2.1 n2.2 = Ret p /\ pl_count p = pl_count p1 + pl_count p2 /\ pl_bw p = Z.min (pl_bw p1) (pl_bw p2) /\ leads_back sys n2 n1 (take (Z.to_nat (pl_count p)) (pl_list p)) /\
    forall k, k <> (n1, n2.1) -> ps' !! k = ps !! k.
Proof.
  intros E1 E2 E3 H1 H2 L1 L2 Hmax. unfold addInterStep. rewrite E1, E2, E3. cbn [mbind outcome_bind]. rewrite (proj2 (Z.ltb_ge _ _)) by done. set (l := take _ _ ++ take _ _). set (p := MkLinkList _ _ _ _). unfold path_at in E3. destruct (ps !! (n1, n2.1)) as [a|] eqn:Ea; [|done].
  apply zget_Ret in E3 as [Hn E3]. apply lookup_lt_Some in E3 as Hlt. unfold set_path. rewrite Ea, zset_Ret by lia. cbn [mbind outcome_bind]. eexists _, p. split; [done|]. split; [|split; [done|split; [done|split]]].
  - unfold path_at. rewrite lookup_insert_eq. apply zget_Ret. split; [done|]. by apply list_lookup_insert_eq.
  - cbn [p pl_count pl_list]. assert (length l = Z.to_nat (pl_count p1 + pl_count p2)) as El by (unfold l; rewrite length_app, !length_take; lia). rewrite take_app_length' by done. by eapply leads_app.
  - intros k Hk. by rewrite lookup_insert_ne.
Qed.

(** [ncclGetLocalCpu] gives a CPU with the fewest hops, or an error if no CPU has a path. *)
Lemma closest_spec l c minHops localCpu : 0 <= minHops -> let r := closest l c minHops localCpu in
  (r = localCpu /\ (forall p, p ∈ l -> 0 < pl_count p -> 0 < minHops <= pl_count p)) \/
  exists i p, l !! i = Some p /\ r = c + Z.of_nat i /\ 0 < pl_count p /\ (minHops = 0 \/ pl_count p < minHops) /\ forall q, q ∈ l -> 0 < pl_count q -> pl_count p <= pl_count q.
Proof.
  revert c minHops localCpu. induction l as [|x l IH]; intros c m lc Hm; cbn [closest]; [left; split; [done|]; by intros p ?%not_elem_of_nil|]. destruct ((0 <? pl_count x) && ((m =? 0) || (pl_count x <? m))) eqn:E.
  - apply andb_prop in E as [E1%Z.ltb_lt E2]. assert (m = 0 \/ pl_count x < m) as Hx by (apply orb_prop in E2 as [E2%Z.eqb_eq|E2%Z.ltb_lt]; auto). right. destruct (IH (c + 1) (pl_count x) c ltac:(lia)) as [[-> Hall]|(i & p & Hi & -> & Hp & [Hp0|Hp0] & Hall)]; [|lia|].
    + exists 0%nat, x. split; [done|]. split; [lia|]. split; [done|]. split; [done|]. intros q [->|Hq]%elem_of_cons Hq0; [lia|]. specialize (Hall q Hq Hq0). lia.
    + exists (S i), p. split; [done|]. split; [lia|]. split; [done|]. split; [lia|]. intros q [->|Hq]%elem_of_cons Hq0; [lia|]. by apply Hall.
  - assert (0 < pl_count x -> 0 < m <= pl_count x) as Hx by (intros H0; rewrite (proj2 (Z.ltb_lt _ _) H0) in E; cbn [andb] in E; apply orb_false_iff in E as [E1%Z.eqb_neq E2%Z.ltb_ge]; lia).
    destruct (IH (c + 1) m lc Hm) as [[-> Hall]|(i & p & Hi & -> & Hp & Hp0 & Hall)].
    + left. split; [done|]. intros p [->|Hp]%elem_of_cons H0; [by apply Hx|by apply Hall].
    + right. exists (S i), p. split; [done|]. split; [lia|]. split; [done|]. split; [done|]. intros q [->|Hq]%elem_of_cons H0; [|by apply Hall]. specialize (Hx H0). lia.
Qed.

Lemma ncclGetLocalCpu_closest gpu ps l : ps !! ((GPU, gpu), CPU) = Some l ->
  wpx (ncclGetLocalCpu gpu ps) (fun c => exists p, zget l c = Ret p /\ 0 < pl_count p /\ forall q, q ∈ l -> 0 < pl_count q -> pl_count p <= pl_count q) (fun e => e = ncclInternalError /\ forall q, q ∈ l -> pl_count q <= 0).
Proof.
  intros E. unfold ncclGetLocalCpu. rewrite E. destruct (closest_spec l 0 0 (-1) ltac:(lia)) as [[-> Hall]|(i & p & Hi & -> & Hp & _ & Hall)].
  - cbn. split; [done|]. intros q Hq. destruct (Z_le_gt_dec (pl_count q) 0) as [|Hg]; [done|]. specialize (Hall q Hq ltac:(lia)). lia.
  - rewrite (proj2 (Z.eqb_neq _ _)) by lia. exists p. split; [apply zget_Ret; split; [lia|by rewrite Z.add_0_l, Nat2Z.id]|done].
Qed.
